(* ===== verification/_CoqProject ===== *)
-Q . S2P
Prelude.v
Bytes.v
Amf0.v
Amf0RoundTrip.v
Chunk.v
ChunkDecoder.v
ChunkEncoder.v
ChunkRoundTrip.v
Handshake.v
Text.v
RtmpUrl.v
Nal.v
Avc.v
Hevc.v
Aac.v
MediaIngest.v
ViewerQueue.v
GopCache.v
StreamDirectory.v
LiveFanout.v
HubContract.v
CommandSession.v
SessionSafety.v
Publishers.v
Connection.v
ConnectionWire.v
ConnectionServer.v
TsMuxer.v
TsDemuxer.v
TsRoundTrip.v
BitReader.v
H264Sps.v
HevcSps.v
HandoffQueue.v
HlsSegment.v
HlsSegmenter.v
HlsFaithful.v
HlsPlaylist.v
HlsPuller.v
HlsReadBack.v
HlsMaster.v
HlsKeys.v
HlsStore.v
HlsStoreSafe.v
HlsStoreLive.v
Flv.v
Recorder.v
RecorderFile.v
AsyncSink.v
AsyncSinkFile.v
Fmp4.v
Fmp4ReadBack.v
DashSegmenter.v
DashFaithful.v
DashStore.v
DashServes.v
TcpConnection.v
EventLoop.v
EventLoopSafe.v
EventLoopRuns.v
EventLoopContract.v
EventLoopLive.v
EventLoopStops.v
CrossWorkerRouter.v
CrossWorkerContract.v
CrossWorkerHub.v
HttpMessage.v
AsyncHttp.v
AsyncHttpSafe.v
AsyncHttpRuns.v
AsyncHttpServer.v
AsyncHttpContract.v
AsyncHttpCounts.v
HttpServer.v
HlsHttp.v
ViewerSessions.v
HlsHttpHandler.v
HlsHttpServes.v
HlsHttpParking.v
HlsHttpContract.v
