(* ===== verification/Prelude.v ===== *)
(** Verification of the StreamForge RTMP server.

    The server takes RTMP connections.  Each goes through a handshake, then a chunk
    layer that cuts messages into interleaved chunks, then a command layer (AMF0
    commands: connect, createStream, publish, play, deleteStream).  A publisher's
    media is classified by the ingest and handed to a fan-out hub, which keeps the
    start-up state of every stream (metadata, sequence headers, the current GOP) and
    delivers each frame to the viewers, dropping or evicting those that fall behind.
    Sessions share the hub, a registry of publishers and a directory of stream ids.
    The same media can go to an HLS segmenter, which repackages it as MPEG-TS for a store
    that serves playlists, segments and keys; through a handoff queue to a transcoder
    thread; to a recorder, which writes FLV into a file sink with a writer thread; and to
    a DASH segmenter, which cuts it into fragmented MP4 segments for a store of its own.
    Below the sessions is the transport: every worker thread runs an event loop over an
    io_uring, which accepts connections, reads into the buffers of a pool, keeps a bounded
    queue of writes per connection, and arms and cancels timeouts.  Each worker has a hub
    of its own; a router between them carries the frames of every published stream to the
    workers that have viewers for it.  Playlists and segments go out over HTTP, through an
    event-driven server whose loops hold a request open until the media it asks for is
    there, or through a blocking one with a thread for each connection.

    * The files

    Under src/, headers are in include/rtmp_server/ and sources in src/; the names of
    files, functions and members are kept, up to what the syntax requires.

    - Prelude.v: machine integers (a w-bit unsigned integer is a [Z] and every
      conversion is written out: [u8], [u16], [u32], [u64]), bytes, spans as lists,
      core/error.hpp and core/result.hpp as the type [Res] with its notation, the
      hint databases [rtmp] and [bytes] and the tactics [zlia], [zpos], [res_inv].
    - Bytes.v: core/byte_order.hpp, byte_reader.hpp, byte_writer.hpp.
    - Amf0.v, Amf0RoundTrip.v: protocol/amf0/ (values, encoder, decoder).
    - Chunk.v, ChunkDecoder.v, ChunkEncoder.v, ChunkRoundTrip.v: protocol/chunk/.
    - Handshake.v: protocol/handshake/handshake_session.cpp.
    - Text.v: what the C++ string functions the sources use do, and their lemmas.
    - RtmpUrl.v: protocol/rtmp_url.cpp.
    - Nal.v, Avc.v, Hevc.v, Aac.v: media/h264/avc.cpp, media/hevc/hevc.cpp,
      media/aac/adts.cpp; Nal.v has the loops the first two share.
    - TsMuxer.v, TsDemuxer.v, TsRoundTrip.v: media/ts/ts_muxer.cpp and ts_demuxer.cpp,
      and what the one makes of the other's output.
    - BitReader.v, H264Sps.v, HevcSps.v: media/bitstream/bit_reader.hpp,
      media/h264/sps.cpp, media/hevc/sps.cpp.
    - MediaIngest.v: protocol/media/media_ingest.cpp.
    - ViewerQueue.v, GopCache.v, StreamDirectory.v, LiveFanout.v: the parts of
      protocol/commands/ around the hub (viewer_queue.hpp, gop_cache.hpp and
      shared_media_frame.cpp, stream_ids.hpp and stream_registry.hpp,
      live_fanout.cpp).
    - HubContract.v: the interface between the hub and the owners of the sinks it
      calls, as a type class, and the hub's side of it.
    - CommandSession.v: protocol/commands/command_session.cpp over a store of all
      sessions; SessionSafety.v and Publishers.v: executions of the whole server
      (connections that open, send, drain and close) and what holds along them.
    - Connection.v: protocol/session/rtmp_connection_session.cpp, the chunk codec and the
      command session of a connection, and the server all connections make up;
      ConnectionWire.v, ConnectionServer.v: what a connection sends and what its peer
      decodes, and what the server makes of arbitrary bytes.
    - HandoffQueue.v: media/media_handoff_queue.cpp and the sinks of
      transcoding/native/ingest_transcoder.cpp that fill it.
    - HlsSegment.v, HlsSegmenter.v, HlsFaithful.v: hls/segment.hpp, hls/segmenter.cpp,
      and what is in the segments it publishes.
    - HlsPlaylist.v: hls/playlist.cpp; HlsPuller.v: transcoding/native/hls_playlist.cpp,
      the reader of the pulling side; HlsReadBack.v, HlsMaster.v: what the one reads of
      what the other writes.
    - HlsKeys.v: hls/encryption.cpp; HlsStore.v: hls/segment_store.cpp; HlsStoreSafe.v,
      HlsStoreLive.v: the bounds of the store, what it serves, and what a player that
      reads its playlists gets to see over time.
    - Flv.v: media/flv/flv_writer.cpp; Recorder.v: recording/recorder.cpp over the
      interface recording/file_sink.hpp, given as a class with laws; RecorderFile.v: the
      file a recording leaves; AsyncSink.v: recording/async_file_sink.cpp; AsyncSinkFile.v:
      the file it publishes, and the laws of the interface discharged for it.
    - Fmp4.v: media/mp4/fmp4_muxer.cpp, with the box tree it renders; Fmp4ReadBack.v: what
      a reader written from the ISO file format makes of it.
    - DashSegmenter.v, DashFaithful.v: dash/segmenter.cpp and what is in the segments it
      cuts; DashStore.v, DashServes.v: dash/segment_store.cpp and dash/stream_sink.hpp, and
      a player can fetch from a stream that feeds the store.
    - TcpConnection.v: network/tcp_connection.cpp; EventLoop.v: io/io_uring/event_loop.cpp,
      with io/io_uring/operation_registry.hpp, server/connection/connection_registry.hpp and
      the pool of core/buffer.hpp; EventLoopSafe.v: the loop beside a kernel that may answer
      anything, as a step relation, and the rules of its invariant; EventLoopRuns.v: every
      step keeps it; EventLoopContract.v, EventLoopLive.v, EventLoopStops.v: what peers
      get, what the kernel's memory is held by, progress and shutdown.
    - CrossWorkerRouter.v: io/io_uring/cross_worker_router.cpp, a queue for every worker;
      CrossWorkerContract.v: what a queue delivers, and the wake-ups through its eventfd;
      CrossWorkerHub.v: the workers with their hubs, their forward hooks and
      drain_router_frames of event_loop.cpp.
    - HttpMessage.v: control/http_message.cpp and the messages of control/http_server.hpp;
      AsyncHttp.v: control/async_http_server.cpp with the deferred responses of
      http_server.hpp; AsyncHttpSafe.v: what a connection sees, the requests in a stream of
      bytes, and the invariant; AsyncHttpRuns.v, AsyncHttpServer.v: every operation and every
      step of loops and threads keeps it; AsyncHttpContract.v, AsyncHttpCounts.v: what clients
      are promised, the connection limit, the wake-ups, and executions worth knowing;
      HttpServer.v: control/http_server.cpp, its framing against that of the other.
    - HlsHttp.v: the text work of control/hls_http_handler.cpp and management/token.cpp;
      ViewerSessions.v: control/viewer_session_tracker.cpp; HlsHttpHandler.v: the registry of
      streams and the requests of hls_http_handler.cpp, on the stores of HlsStore.v;
      HlsHttpServes.v: who is served, where redirects lead and what a range gets;
      HlsHttpParking.v, HlsHttpContract.v: blocking playlist reloads as steps of workers,
      producers and timers, and the contract of parked requests.

    * How the code is modelled

    A class is a record of its members.  A member function that changes it returns the
    new record, with the handler calls it makes, in order, as a list of events.  Code
    that can fail returns [Res]: [Ok], [Err] with the error of the source, [Fault] for
    an access outside a span or another undefined operation, and [OutOfFuel].  Loops
    that are not structural run on fuel, given as the number of bytes (or values) left
    plus one; the theorems on the decoders prove that it always suffices, that is, they
    exclude [OutOfFuel] and [Fault] on every input.  The clock, random bytes and the
    reports of the transport are arguments.  Pointers that matter are identities: a
    [PlaybackSink*] is a [Sink] of the hub, a relay of a session is the triple of its
    connection, message stream and subscriber id, and a call to one that has been
    destroyed sets [freed_call].

    * What is shown

    - The wire: AMF0 and the chunk layer decode arbitrary bytes totally, within their
      spans and within the configured memory limits; the outcome does not depend on
      how the bytes are cut into reads; what one end encodes the other end decodes,
      field for field.  The handshake refines a specification over the bytes received
      and is a proper state machine.  An origin URL is taken apart exactly.
    - Media: the decoder configuration parsers accept exactly the well-formed records,
      the Annex B converter appends exactly the expected units, ADTS headers carry the
      right fields, the ingest counts precisely and keeps its headers.  The SPS parsers
      give the picture size of the standard, stated over an SPS syntax of its own and
      the bits it is coded in.
    - Repackaging: transport streams are well formed with unbroken counters, and the
      demultiplexer gives back the units the multiplexer was given, whatever the reads.
      Every unit the HLS segmenter accepts is in exactly one segment, in order, and
      each segment demultiplexes on its own; the theorem goes through the round trip.
      The handoff queue drops video only up to a message marked as a keyframe, stays within
      its bounds, and accounts for every message.
    - Serving: a media playlist and a master playlist are read back exactly by the reader
      of the pulling side, and the key in force at every URI is the one its segment has.
      In every reachable state the store is within its bounds and serves what its
      playlists name; a segment keeps its discontinuity number; a key that is named can
      be fetched until it has been rotated out.
    - Recordings: whatever the interleaving of the recorder with the writer thread and
      whatever the system calls answer, a published recording that did not fail reads back
      as FLV with its metadata and exactly the messages that were not counted as dropped;
      closing the sink ends.
    - DASH: an initialisation segment and a fragment are read back exactly, by a reader that
      follows the file format and not the muxer; every unit the segmenter accepts is in one
      cut, and the segments of the cuts read back to it, in order; after any run of the sink
      the store serves the newest segments by name and number, within its window.
    - Delivery: a viewer never sees a stream it cannot decode, its backlog is bounded
      and a stuck viewer is evicted on schedule; the GOP cache holds a
      keyframe and all that came since, or nothing once a limit was exceeded;
      cached encodings are transparent; the viewer gauge is exact; a late joiner is
      sent a decodable start.
    - Transport: over every execution of the event loop the bytes the kernel has taken are
      a prefix of what the session wrote, and the queue is the rest; memory lent to the kernel
      is held until it is done with it; while the ring has room a connection with something
      to send is sending, and the answers to its sends alone bring everything out; shutdown
      ends, when nothing is outstanding or its deadline is over.
    - Workers: the queues of the router are bounded and account their bytes; between the
      frames a worker takes nothing is missing without a keyframe behind it, unless a header
      finds a queue full; a queue with frames has its worker on the way; and the headers of
      a stream are the same at every worker that is up to date.
    - HTTP: a request head is read back from its parts, and a client tells responses apart.
      Over every execution of the event-driven server with the threads that resolve deferred
      responses, the requests of a connection are the frames of the bytes it has sent, each
      is answered once and in order, whatever the reads and writes cut; a connection that
      waits has been answered (if nothing was deferred) and has bounded memory; the limit on
      connections holds, the count exceeding it only by those about to be refused, and no
      wake-up is lost, with the operations of a wake-up and of an accept interleaved.  The
      blocking server reads the same requests, finishes every connection whose peer goes on
      sending and taking, and closes all it has accepted.
    - HLS over HTTP: without the token, secret or enabled stream it takes nothing is served;
      following redirects ends after two and keeps the rest of the query; a range gets
      exactly its bytes; viewers are counted exactly over the shards; and a parked reload of
      a stream that stays is never forgotten, whatever the interleaving of its check and its
      parking with the producer; one parked on an entry that has been unregistered, or given
      a new store, since it was looked up is left to its timeout.
    - The server: the hub never calls a destroyed relay, a key has one publisher, and
      nobody publishes or plays unauthorised, over every execution (the first two
      under conditions on what one client does to its own streams, which the code does
      not enforce); closing a connection leaves nothing behind.  Whatever its peers send,
      the server answers, within the limits of every decoder; and what a connection sends
      (replies, acknowledgements, pings, and the media frames encoded once for all
      viewers) its peer decodes field for field, in order.
    - Where the code departs from that, a theorem says so: a repeated extended
      timestamp is doubled by the decoder; bytes behind C2 make a single read fail; a
      second play on a stream leaves a dangling sink; publishing a key on two streams
      gives up its exclusivity; deleteStream converts a number without a range check;
      the ingest's sampling-frequency table lacks an entry; an HEVC sequence header is
      not kept for late joiners; the hub's queues are never flushed; a transport stream
      time stamp from 2^30 on is corrupted; an empty program table makes the
      demultiplexer read past the packet; a scaling list overflows an int32 and cropping
      sums wrap; a sequence header ends a drop of the handoff queue; a late time stamp
      at the 32-bit wrap moves the unwrapped clock; audio makes an HLS segment grow past
      its bounds, and a segment can start without a keyframe; the numbers of an
      I-frame playlist shift; a key rotation at the wrong moment mislabels segments and
      parts; the live edge of a low-latency playlist goes back after a stall, and repeated
      segments repeat their discontinuity; all segments of a DASH stream carry the decode
      time of its first unit, and its audio is timed in 90 kHz in a track that declares its
      sampling rate; an AudioSpecificConfig over the one-byte length of its descriptor makes
      an initialisation segment unreadable; segments of an older configuration are served
      beside a newer initialisation segment; an ordinary send of a connection that closes
      has no owner of its bytes; a full submission ring, or an empty buffer, leaves a
      connection mute; an idle timeout that was replaced, but had expired, closes its
      connection; a connection accepted late is not closed by shutdown; a handshake can
      complete on a connection its own reply has closed; a header that finds a queue of the
      router full leaves a hole behind it, making room can drop the end of a stream, frames
      that are not forwarded for want of viewers leave a hole too, a stream without video
      stays gated after one overflow, and a header overtakes queued frames of the old one; a
      request pipelined behind a deferred one is stranded, a client can grow its inbox while
      its request is parked, a chunked body is taken for the next request, and the blocking
      server drops what is pipelined, reads longer heads than the other, and leaves a worker
      to a client that says nothing; a keyframe alone in the GOP cache is above its limits; a
      reload that has timed out keeps its place among the parked ones, one parked late waits
      out its timeout, the cap on tracked viewers is none on live ones, a refused HEAD request
      has a body, a token can be moved to another stream with a colon, and URIs inside of
      playlist tags get no query.  Outside the model, a session is destroyed by the close
      handler it is calling.

    * What is not modelled

    Operations run one at a time: the locks make each phase of the hub atomic, but
    interleavings of phases of concurrent calls are left out, as are allocation
    failure and the iteration order of hash maps (map order stands for it, and no
    theorem depends on it).  The system calls of the file sink answer from a script, and
    the kernel behind the io_uring is a map of the operations it has been given, each of
    which it may answer in any order with any result; what sessions do while the loop calls
    them is any list of writes and closes.  The HTTP servers are given what the system
    answers to each receive and send, and what the handler answers; where the blocking
    server has no answer left it is blocked.  Of the event-driven one, the reading of the
    pipe, the taking of the mailbox and of the hand-off queue in [drain_wakeup], and in
    [accept_ready] the counting of a connection, the decision and the byte behind a
    hand-off, are steps of their own ([Turn] of AsyncHttp.v); the rest of an event is one
    step, and the 503 for a connection over the limit is not recorded.  The time at which
    the event loop looks at its shutdown deadline is any.  Of
    hls_http_handler.cpp a request is handled in one step up to where it would be parked,
    parking is another, a pass over the waiters under their lock one, and each answer one;
    streams are registered with stores that are new or that they have already, and stores
    do not repeat their last segment (which moves the live edge without a notification);
    [detach_stores] of the destructor is defined but not a step.  Socket
    options, metrics and log lines, the management API, databases and external codecs are
    outside (dispatch/, relay/, management/, persistence/, most of control/ and
    transcoding/, the applications). *)

From Stdlib Require Export ZArith Lia.
From Stdlib Require Export Init.Byte.
From Stdlib Require Strings.Byte.
From stdpp Require Export base numbers list gmap strings fin_maps option.

#[global] Open Scope Z_scope.

(** * Sizes and machine integers *)

(** [zlen l] is the [size()] of a span or vector, as a [size_t]. *)
Definition zlen {A} (l : list A) : Z := Z.of_nat (length l).

(** Conversion to an unsigned integer of the given width ([static_cast]). *)
Definition u8 (z : Z) : Z := z mod 2 ^ 8.
Definition u16 (z : Z) : Z := z mod 2 ^ 16.
Definition u32 (z : Z) : Z := z mod 2 ^ 32.
Definition u64 (z : Z) : Z := z mod 2 ^ 64.
(** Conversion to [std::int16_t]: two's complement. *)
Definition i16 (z : Z) : Z := (z + 2 ^ 15) mod 2 ^ 16 - 2 ^ 15.

(** A [std::byte] read as [std::uint8_t], and an integer cast to [std::byte]. *)
Definition b2z (b : byte) : Z := Z.of_N (Byte.to_N b).
Definition z2b (z : Z) : byte :=
  match Byte.of_N (Z.to_N (z mod 256)) with
  | Some b => b
  | None => x00
  end.

(** * Errors and results (core/error.hpp, core/result.hpp) *)

Module ErrorCategory.
Inductive t := Protocol | Network | Configuration | Authentication | Storage | Internal.
End ErrorCategory.

Module ErrorCode.
Inductive t :=
| None | Unknown | NotFound | Conflict
| ConnectionClosed | ConnectionReset | ConnectionTimedOut | WouldBlock
| OperationCanceled | ResourceExhausted
| MalformedHandshake | MalformedChunk | MalformedAmf | MessageTooLarge
| InvalidStateTransition
| InvalidConfiguration | MissingConfiguration
| InvalidStreamKey | ExpiredToken | Unauthorized
| StorageUnavailable | StorageWriteFailed
| InvalidArgument.
End ErrorCode.

Record Error := mkError {
  error_code : ErrorCode.t;
  error_category : ErrorCategory.t;
  error_message : string
}.

(** [Res A] is [Result<T>] made explicit about the two ways a C++ function can
    fail to return at all: [Fault] stands for an access outside a span
    (undefined behaviour) and [OutOfFuel] for a loop whose fuel ran out.
    Every parser of the development is proved to reach neither. *)
Inductive Res (A : Type) : Type :=
| Ok (a : A)
| Err (e : Error)
| Fault
| OutOfFuel.
Arguments Ok {A} a.
Arguments Err {A} e.
Arguments Fault {A}.
Arguments OutOfFuel {A}.

Definition rbind {A B} (m : Res A) (f : A -> Res B) : Res B :=
  match m with
  | Ok a => f a
  | Err e => Err e
  | Fault => Fault
  | OutOfFuel => OutOfFuel
  end.

Declare Scope res_scope.
Delimit Scope res_scope with res.
Notation "x <- m ;; k" := (rbind m (fun x => k))
  (at level 100, m at next level, right associativity) : res_scope.
Notation "' pat <- m ;; k" := (rbind m (fun x => match x with pat => k end))
  (at level 100, pat pattern, m at next level, right associativity) : res_scope.
#[global] Open Scope res_scope.

(** [returns r]: the computation came back with a value or with an error. *)
Definition returns {A} (r : Res A) : Prop :=
  match r with Ok _ | Err _ => True | _ => False end.

(** [yields E P r]: the computation comes back, with a value in [P] or an error in
    [E]; in particular it neither reads outside a span nor runs out of fuel. *)
Definition yields {A} (E : Error -> Prop) (P : A -> Prop) (r : Res A) : Prop :=
  match r with Ok a => P a | Err e => E e | _ => False end.

(** * Span accesses *)

(** [data[i]]; outside the span the access is undefined behaviour. *)
Definition byte_at (data : list byte) (i : Z) : Res byte :=
  if 0 <=? i then
    match data !! Z.to_nat i with Some b => Ok b | None => Fault end
  else Fault.

(** [static_cast<std::uint8_t>(data[i])]. *)
Definition u8_at (data : list byte) (i : Z) : Res Z :=
  b <- byte_at data i ;; Ok (b2z b).

(** [data.subspan(off, n)]. *)
Definition subspan (data : list byte) (off n : Z) : Res (list byte) :=
  if (0 <=? off) && (0 <=? n) && (off + n <=? zlen data)
  then Ok (take (Z.to_nat n) (drop (Z.to_nat off) data))
  else Fault.

(** [data.subspan(off)]. *)
Definition subspan_from (data : list byte) (off : Z) : Res (list byte) :=
  if (0 <=? off) && (off <=? zlen data)
  then Ok (drop (Z.to_nat off) data)
  else Fault.

(** [at_suffix data off l]: the bytes of [data] from [off] on are [l].  The
    relation every parser proof follows its cursor with. *)
Definition at_suffix (data : list byte) (off : Z) (l : list byte) : Prop :=
  0 <= off <= zlen data /\ drop (Z.to_nat off) data = l.

(** Sum of [f] over the values of a map. *)
Definition map_sum {K A} `{Countable K} (f : A -> Z) (m : gmap K A) : Z :=
  map_fold (fun _ a acc => f a + acc) 0 m.

(** * Integer and byte lemmas *)

Create HintDb rtmp.
Create HintDb bytes.

Lemma b2z_range b : 0 <= b2z b < 256.
Proof.
  unfold b2z. pose proof (Byte.to_N_bounded b) as Hb. lia.
Qed.
#[export] Hint Resolve b2z_range : rtmp.

Lemma b2z_z2b z : b2z (z2b z) = z mod 256.
Proof.
  unfold b2z, z2b. pose proof (Z.mod_pos_bound z 256 eq_refl) as Hz.
  destruct (Byte.of_N (Z.to_N (z mod 256))) as [b|] eqn:Hb.
  - apply Byte.to_of_N in Hb. lia.
  - apply Byte.of_N_None_iff in Hb. lia.
Qed.
#[export] Hint Rewrite b2z_z2b : bytes.

Lemma z2b_b2z b : z2b (b2z b) = b.
Proof.
  unfold z2b, b2z. pose proof (Byte.to_N_bounded b) as Hb.
  rewrite Z.mod_small by lia. rewrite N2Z.id. by rewrite Byte.of_to_N.
Qed.
#[export] Hint Rewrite z2b_b2z : bytes.

Lemma b2z_inj a b : b2z a = b2z b -> a = b.
Proof. intros H. by rewrite <- (z2b_b2z a), <- (z2b_b2z b), H. Qed.

Lemma z2b_mod z : z2b (z mod 256) = z2b z.
Proof. unfold z2b. by rewrite Zmod_mod. Qed.

#[export] Instance byte_eq_dec : EqDecision byte.
Proof. intros a b. apply Byte.byte_eq_dec. Defined.

(** [land]/[shiftr]/[lor] of unsigned fields as arithmetic. *)
Lemma land_ones_mod z n : 0 <= n -> Z.land z (2 ^ n - 1) = z mod 2 ^ n.
Proof. intros Hn. rewrite <- Z.land_ones by lia. by rewrite Z.ones_equiv, Z.sub_1_r. Qed.

Lemma land_255 z : Z.land z 255 = z mod 256.
Proof. apply (land_ones_mod z 8). lia. Qed.

Lemma lor_shiftl_add a b n :
  0 <= n -> 0 <= b < 2 ^ n -> Z.lor (Z.shiftl a n) b = a * 2 ^ n + b.
Proof.
  intros Hn Hb. rewrite <- Z.shiftl_mul_pow2 by lia.
  assert (Hd : Z.land (Z.shiftl a n) b = 0).
  { apply Z.bits_inj'. intros i Hi. rewrite Z.land_spec, Z.bits_0.
    destruct (Z.lt_ge_cases i n).
    - by rewrite Z.shiftl_spec_low by lia.
    - rewrite <- (Z.mod_small b (2 ^ n)) by lia.
      rewrite Z.mod_pow2_bits_high by lia. apply andb_false_r. }
  rewrite Z.add_nocarry_lxor by done. by rewrite Z.lxor_lor by done.
Qed.

Lemma lor_shiftl_add_same a b n :
  0 <= n -> 0 <= b < 2 ^ n -> Z.lor (Z.shiftl a n) b = Z.shiftl a n + b.
Proof. intros. by rewrite lor_shiftl_add, Z.shiftl_mul_pow2 by lia. Qed.

Lemma lor_mult_add a b n :
  0 <= n -> 0 <= b < 2 ^ n -> Z.lor (a * 2 ^ n) b = a * 2 ^ n + b.
Proof. intros. rewrite <- Z.shiftl_mul_pow2 by lia. by apply lor_shiftl_add_same. Qed.

Lemma i16_range z : - 2 ^ 15 <= i16 z < 2 ^ 15.
Proof. unfold i16. pose proof (Z.mod_pos_bound (z + 2 ^ 15) (2 ^ 16) eq_refl). lia. Qed.

Lemma i16_u16 z : - 2 ^ 15 <= z < 2 ^ 15 -> i16 (u16 z) = z.
Proof.
  intros Hz. unfold i16, u16. rewrite Z.add_mod_idemp_l by lia.
  rewrite Z.mod_small by lia. lia.
Qed.

(** A decidable fact about small numbers, checked one by one. *)
Lemma check_range (f : Z -> bool) n :
  forallb f (seqZ 0 n) = true -> forall x, 0 <= x < n -> f x = true.
Proof.
  intros H x Hx. rewrite forallb_forall in H. apply H.
  apply list_elem_of_In, elem_of_seqZ. lia.
Qed.

(** * Length lemmas *)

Lemma zlen_nonneg {A} (l : list A) : 0 <= zlen l.
Proof. unfold zlen. lia. Qed.
#[export] Hint Resolve zlen_nonneg : rtmp.

Lemma zlen_nil {A} : zlen (@nil A) = 0.
Proof. done. Qed.
Lemma zlen_cons {A} (a : A) l : zlen (a :: l) = 1 + zlen l.
Proof. unfold zlen. cbn [length]. lia. Qed.
Lemma zlen_app {A} (l1 l2 : list A) : zlen (l1 ++ l2) = zlen l1 + zlen l2.
Proof. unfold zlen. rewrite length_app. lia. Qed.
Lemma zlen_take {A} n (l : list A) : 0 <= n <= zlen l -> zlen (take (Z.to_nat n) l) = n.
Proof. unfold zlen. rewrite length_take. lia. Qed.
Lemma zlen_drop {A} n (l : list A) : 0 <= n <= zlen l -> zlen (drop (Z.to_nat n) l) = zlen l - n.
Proof. unfold zlen. rewrite length_drop. lia. Qed.
#[export] Hint Rewrite @zlen_nil @zlen_cons @zlen_app : bytes.

Lemma zlen_0_nil {A} (l : list A) : zlen l = 0 -> l = [].
Proof. destruct l; [done|]. rewrite zlen_cons. pose proof (zlen_nonneg l). lia. Qed.

Lemma zlen_cons_inv {A} (l : list A) : 0 < zlen l -> exists x l', l = x :: l'.
Proof. destruct l as [|x l]; [unfold zlen; cbn; lia|]. eauto. Qed.

(** [zpos] puts [0 <= zlen l] for every [zlen l] in sight, for [lia]. *)
Ltac zpos :=
  repeat match goal with
  | |- context [zlen ?l] =>
      lazymatch goal with
      | _ : 0 <= zlen l |- _ => fail
      | _ => pose proof (zlen_nonneg l)
      end
  | _ : context [zlen ?l] |- _ =>
      lazymatch goal with
      | _ : 0 <= zlen l |- _ => fail
      | _ => pose proof (zlen_nonneg l)
      end
  end.
Ltac zlia := autorewrite with bytes in *; zpos; lia.

(** * The result monad *)

Lemma bind_Ok {A B} (f : A -> Res B) a : rbind (Ok a) f = f a.
Proof. done. Qed.

Lemma bind_Ok_inv {A B} (m : Res A) (f : A -> Res B) b :
  rbind m f = Ok b -> exists a, m = Ok a /\ f a = Ok b.
Proof. destruct m; cbn; try discriminate. eauto. Qed.

Lemma returns_Ok {A} (a : A) : returns (Ok a).
Proof. done. Qed.
Lemma returns_Err {A} e : returns (@Err A e).
Proof. done. Qed.
Lemma returns_bind {A B} (m : Res A) (f : A -> Res B) :
  returns m -> (forall a, m = Ok a -> returns (f a)) -> returns (rbind m f).
Proof. destruct m; cbn; auto. Qed.
#[export] Hint Resolve returns_Ok returns_Err returns_bind : rtmp.

Lemma yields_bind {A B} (E : Error -> Prop) (Q : A -> Prop) (P : B -> Prop) m f :
  yields E Q m -> (forall a, Q a -> yields E P (f a)) -> yields E P (rbind m f).
Proof. destruct m; cbn; auto. Qed.

Lemma yields_weaken {A} (E : Error -> Prop) (P Q : A -> Prop) r :
  yields E P r -> (forall a, P a -> Q a) -> yields E Q r.
Proof. destruct r; cbn; auto. Qed.

Lemma yields_returns {A} E (P : A -> Prop) r : yields E P r -> returns r.
Proof. by destruct r. Qed.

Lemma yields_Ok_inv {A} E (P : A -> Prop) r a : yields E P r -> r = Ok a -> P a.
Proof. by intros H ->. Qed.

Lemma yields_returned {A} (E : Error -> Prop) (r : Res A) a :
  r = Ok a -> yields E (fun x => x = a) r.
Proof. by intros ->. Qed.

(** [res_inv H]: [H] says that a chain of binds came to [Ok]; name each step. *)
Ltac res_inv H :=
  lazymatch type of H with
  | rbind ?m ?f = Ok ?b =>
      let a := fresh "a" in let Ha := fresh "Ha" in
      apply bind_Ok_inv in H as (a & Ha & H); res_inv Ha; cbn beta iota in H; res_inv H
  | Ok _ = Ok _ => injection H; clear H; intros; subst
  | Err _ = Ok _ => discriminate H
  | _ => idtac
  end.

(** * Span lemmas *)

Lemma byte_at_Ok data i :
  0 <= i < zlen data -> exists b, byte_at data i = Ok b.
Proof.
  unfold byte_at, zlen. intros Hi. rewrite (proj2 (Z.leb_le 0 i)) by lia.
  destruct (data !! Z.to_nat i) as [b|] eqn:Hb; [eauto|].
  apply lookup_ge_None in Hb. lia.
Qed.

Lemma byte_at_returns data i : 0 <= i < zlen data -> returns (byte_at data i).
Proof. intros Hi. by destruct (byte_at_Ok data i Hi) as [b ->]. Qed.
#[export] Hint Resolve byte_at_returns : rtmp.

Lemma u8_at_returns data i : 0 <= i < zlen data -> returns (u8_at data i).
Proof. intros Hi. unfold u8_at. apply returns_bind; auto with rtmp. Qed.
#[export] Hint Resolve u8_at_returns : rtmp.

Lemma byte_at_bounds data i b : byte_at data i = Ok b -> 0 <= i < zlen data.
Proof.
  unfold byte_at, zlen. destruct (Z.leb_spec 0 i); [|done].
  destruct (data !! Z.to_nat i) as [x|] eqn:Hx; [|done]. intros _.
  apply lookup_lt_Some in Hx. lia.
Qed.

Lemma u8_at_Ok data i :
  0 <= i < zlen data -> exists v, u8_at data i = Ok v /\ 0 <= v < 256.
Proof.
  intros Hi. unfold u8_at. destruct (byte_at_Ok data i Hi) as [b ->].
  exists (b2z b). split; [done|apply b2z_range].
Qed.

Lemma u8_at_range data i v : u8_at data i = Ok v -> 0 <= v < 256.
Proof. unfold u8_at. intros H. res_inv H. apply b2z_range. Qed.

(** A read that succeeds still reads the same byte when the buffer grows. *)
Lemma byte_at_app data more i b : byte_at data i = Ok b -> byte_at (data ++ more) i = Ok b.
Proof.
  unfold byte_at. destruct (0 <=? i); [|done].
  destruct (data !! Z.to_nat i) as [x|] eqn:Hx; [|done].
  intros [= <-]. by rewrite (lookup_app_l_Some _ _ _ _ Hx).
Qed.

Lemma subspan_returns data off n :
  0 <= off -> 0 <= n -> off + n <= zlen data -> returns (subspan data off n).
Proof.
  intros ???. unfold subspan.
  rewrite !(proj2 (Z.leb_le _ _)) by lia. done.
Qed.
#[export] Hint Resolve subspan_returns : rtmp.

Lemma subspan_Ok data off n :
  0 <= off -> 0 <= n -> off + n <= zlen data ->
  exists s, subspan data off n = Ok s /\ zlen s = n.
Proof.
  intros ???. unfold subspan. rewrite !(proj2 (Z.leb_le _ _)) by lia.
  eexists; split; [done|]. rewrite zlen_take; [done|]. rewrite zlen_drop by lia. lia.
Qed.

Lemma subspan_zlen data off n s : subspan data off n = Ok s -> zlen s = n.
Proof.
  unfold subspan. destruct (_ && _) eqn:E; [|done]. intros [= <-].
  apply andb_prop in E as [E E3]. apply andb_prop in E as [E1 E2].
  rewrite zlen_take; [done|]. rewrite zlen_drop by lia. lia.
Qed.

Lemma subspan_from_returns data off :
  0 <= off -> off <= zlen data -> returns (subspan_from data off).
Proof. intros ??. unfold subspan_from. rewrite !(proj2 (Z.leb_le _ _)) by lia. done. Qed.
#[export] Hint Resolve subspan_from_returns : rtmp.

Lemma at_suffix_0 data : at_suffix data 0 data.
Proof. split; [zlia|done]. Qed.

Lemma at_suffix_zlen data off l : at_suffix data off l -> zlen data = off + zlen l.
Proof. intros [Ho <-]. rewrite zlen_drop by lia. lia. Qed.

Lemma at_suffix_nonneg data off l : at_suffix data off l -> 0 <= off.
Proof. intros [Ho _]. lia. Qed.

Lemma at_suffix_app data off l1 l2 :
  at_suffix data off (l1 ++ l2) -> at_suffix data (off + zlen l1) l2.
Proof.
  intros Hs. pose proof (at_suffix_zlen _ _ _ Hs) as Hl. destruct Hs as [Ho Hd].
  split; [zlia|]. unfold zlen. rewrite Z2Nat.inj_add by lia.
  rewrite <- drop_drop, Hd, Nat2Z.id, drop_app_length. done.
Qed.

Lemma at_suffix_cons data off b l :
  at_suffix data off (b :: l) -> at_suffix data (off + 1) l.
Proof. apply (at_suffix_app data off [b] l). Qed.

Lemma at_suffix_intro (pre l : list byte) : at_suffix (pre ++ l) (zlen pre) l.
Proof. split; [zlia|]. unfold zlen. by rewrite Nat2Z.id, drop_app_length. Qed.

Lemma byte_at_suffix data off b l : at_suffix data off (b :: l) -> byte_at data off = Ok b.
Proof.
  intros [Ho Hd]. unfold byte_at. rewrite (proj2 (Z.leb_le 0 off)) by lia.
  rewrite <- (Nat.add_0_r (Z.to_nat off)), <- lookup_drop, Hd. done.
Qed.

Lemma u8_at_suffix data off b l : at_suffix data off (b :: l) -> u8_at data off = Ok (b2z b).
Proof. intros Hs. unfold u8_at. by rewrite (byte_at_suffix _ _ _ _ Hs). Qed.

Lemma subspan_suffix data off l1 l2 :
  at_suffix data off (l1 ++ l2) -> subspan data off (zlen l1) = Ok l1.
Proof.
  intros Hs. pose proof (at_suffix_zlen _ _ _ Hs) as Hl. destruct Hs as [Ho Hd].
  unfold subspan. rewrite !(proj2 (Z.leb_le _ _)) by zlia. cbn [andb].
  rewrite Hd. unfold zlen. by rewrite Nat2Z.id, take_app_length.
Qed.

Lemma subspan_from_suffix data off l :
  at_suffix data off l -> subspan_from data off = Ok l.
Proof.
  intros Hs. destruct Hs as [Ho Hd]. unfold subspan_from.
  rewrite !(proj2 (Z.leb_le _ _)) by lia. by rewrite Hd.
Qed.

(** * Sums over maps *)

Section map_sum.
Context {K A : Type} `{Countable K} (f : A -> Z).
Implicit Types m : gmap K A.

Lemma map_sum_empty : map_sum f (∅ : gmap K A) = 0.
Proof. unfold map_sum. by rewrite map_fold_empty. Qed.

Lemma map_sum_insert_fresh m k v :
  m !! k = None -> map_sum f (<[k:=v]> m) = f v + map_sum f m.
Proof.
  intros Hk. unfold map_sum. 
  apply (map_fold_insert_L (fun _ a acc => f a + acc)); [|done].
  intros; lia.
Qed.

Lemma map_sum_delete m k v :
  m !! k = Some v -> map_sum f (delete k m) = map_sum f m - f v.
Proof.
  intros Hk. rewrite <- (insert_id m k v Hk) at 2. rewrite <- insert_delete_eq.
  rewrite map_sum_insert_fresh by apply lookup_delete_eq. lia.
Qed.

Lemma map_sum_insert m k v :
  map_sum f (<[k:=v]> m) = map_sum f m + f v - from_option f 0 (m !! k).
Proof.
  destruct (m !! k) as [w|] eqn:Hk; cbn.
  - rewrite <- insert_delete_eq.
    rewrite map_sum_insert_fresh by apply lookup_delete_eq.
    rewrite (map_sum_delete m k w Hk). lia.
  - rewrite map_sum_insert_fresh by done. lia.
Qed.

Lemma map_sum_zero m : (forall k v, m !! k = Some v -> f v = 0) -> map_sum f m = 0.
Proof.
  induction m as [|k v m Hk IH] using map_ind; intros Hf; [apply map_sum_empty|].
  rewrite map_sum_insert_fresh by done. rewrite (Hf k v), IH; [done| |by rewrite lookup_insert, decide_True].
  intros k' v' Hv. apply (Hf k'). rewrite lookup_insert_ne; [done|]. intros ->. congruence.
Qed.

Lemma map_sum_nonneg m : (forall v, 0 <= f v) -> 0 <= map_sum f m.
Proof.
  intros Hf. induction m as [|k v m Hk IH] using map_ind.
  - rewrite map_sum_empty. lia.
  - rewrite map_sum_insert_fresh by done. specialize (Hf v). lia.
Qed.
End map_sum.
