(* ===== verification/Bytes.v ===== *)
(** The byte layer: core/byte_order.hpp (big-endian fields), core/byte_reader.hpp
    (the bounds-checked cursor) and core/byte_writer.hpp (the output buffer).

    A [std::span<const std::byte, N>] parameter is a list; reading past its end
    is [Fault].  A writer that fills a fixed span returns the bytes it stores,
    a writer that appends to a vector returns the vector after the append. *)

From S2P Require Import Prelude.

(** * byte_order.hpp *)

Definition read_u16_be (bytes : list byte) : Res Z :=
  b0 <- u8_at bytes 0 ;; b1 <- u8_at bytes 1 ;;
  Ok (u16 (Z.lor (Z.shiftl b0 8) b1)).

Definition read_u24_be (bytes : list byte) : Res Z :=
  b0 <- u8_at bytes 0 ;; b1 <- u8_at bytes 1 ;; b2 <- u8_at bytes 2 ;;
  Ok (Z.lor (Z.lor (u32 (Z.shiftl b0 16)) (u32 (Z.shiftl b1 8))) b2).

Definition read_u32_be (bytes : list byte) : Res Z :=
  b0 <- u8_at bytes 0 ;; b1 <- u8_at bytes 1 ;; b2 <- u8_at bytes 2 ;; b3 <- u8_at bytes 3 ;;
  Ok (Z.lor (Z.lor (Z.lor (u32 (Z.shiftl b0 24)) (u32 (Z.shiftl b1 16)))
                   (u32 (Z.shiftl b2 8))) b3).

Definition write_u16_be (value : Z) : list byte :=
  [z2b (Z.land (Z.shiftr value 8) 0xFF); z2b (Z.land value 0xFF)].

Definition write_u24_be (value : Z) : list byte :=
  [z2b (Z.land (Z.shiftr value 16) 0xFF); z2b (Z.land (Z.shiftr value 8) 0xFF);
   z2b (Z.land value 0xFF)].

Definition write_u32_be (value : Z) : list byte :=
  [z2b (Z.land (Z.shiftr value 24) 0xFF); z2b (Z.land (Z.shiftr value 16) 0xFF);
   z2b (Z.land (Z.shiftr value 8) 0xFF); z2b (Z.land value 0xFF)].

(** The [read_uNN_be_at(data, offset)] helpers of the parsers: a fixed-extent
    span built at [data.data() + offset]. *)
Definition read_u16_be_at (data : list byte) (offset : Z) : Res Z :=
  s <- subspan data offset 2 ;; read_u16_be s.
Definition read_u24_be_at (data : list byte) (offset : Z) : Res Z :=
  s <- subspan data offset 3 ;; read_u24_be s.
Definition read_u32_be_at (data : list byte) (offset : Z) : Res Z :=
  s <- subspan data offset 4 ;; read_u32_be s.

(** * byte_reader.hpp *)

Module ByteReader.
Record t := mk { data_ : list byte; position_ : Z }.

Definition make (data : list byte) : t := mk data 0.
Definition position (r : t) : Z := position_ r.
Definition remaining (r : t) : Z := u64 (zlen (data_ r) - position_ r).
Definition has_remaining (r : t) (n : Z) : bool := n <=? remaining r.
Definition advance (r : t) (n : Z) : t := mk (data_ r) (position_ r + n).

Definition read_u8 (r : t) : Res (option byte * t) :=
  if negb (has_remaining r 1) then Ok (None, r) else
  b <- byte_at (data_ r) (position_ r) ;;
  Ok (Some b, advance r 1).

Definition read_u16_be (r : t) : Res (option Z * t) :=
  if negb (has_remaining r 2) then Ok (None, r) else
  slice <- subspan (data_ r) (position_ r) 2 ;;
  v <- Bytes.read_u16_be slice ;;
  Ok (Some v, advance r 2).

Definition read_u24_be (r : t) : Res (option Z * t) :=
  if negb (has_remaining r 3) then Ok (None, r) else
  slice <- subspan (data_ r) (position_ r) 3 ;;
  v <- Bytes.read_u24_be slice ;;
  Ok (Some v, advance r 3).

Definition read_u32_be (r : t) : Res (option Z * t) :=
  if negb (has_remaining r 4) then Ok (None, r) else
  slice <- subspan (data_ r) (position_ r) 4 ;;
  v <- Bytes.read_u32_be slice ;;
  Ok (Some v, advance r 4).

Definition read_bytes (r : t) (n : Z) : Res (option (list byte) * t) :=
  if negb (has_remaining r n) then Ok (None, r) else
  slice <- subspan (data_ r) (position_ r) n ;;
  Ok (Some slice, advance r n).

Definition skip (r : t) (n : Z) : bool * t :=
  if negb (has_remaining r n) then (false, r) else (true, advance r n).
End ByteReader.

(** * byte_writer.hpp *)

Module ByteWriter.
Record t := mk { buffer_ : list byte }.
Definition make : t := mk [].
Definition data (w : t) : list byte := buffer_ w.
Definition write_u8 (w : t) (value : byte) : t := mk (buffer_ w ++ [value]).
Definition write_u16_be (w : t) (value : Z) : t := mk (buffer_ w ++ Bytes.write_u16_be value).
Definition write_u24_be (w : t) (value : Z) : t := mk (buffer_ w ++ Bytes.write_u24_be value).
Definition write_u32_be (w : t) (value : Z) : t := mk (buffer_ w ++ Bytes.write_u32_be value).
Definition write_bytes (w : t) (bytes : list byte) : t := mk (buffer_ w ++ bytes).
End ByteWriter.

(** * Lemmas on big-endian fields *)

Lemma zlen_write_u16_be v : zlen (write_u16_be v) = 2.
Proof. done. Qed.
Lemma zlen_write_u24_be v : zlen (write_u24_be v) = 3.
Proof. done. Qed.
Lemma zlen_write_u32_be v : zlen (write_u32_be v) = 4.
Proof. done. Qed.
#[export] Hint Rewrite zlen_write_u16_be zlen_write_u24_be zlen_write_u32_be : bytes.

(** [lor]s of shifted bytes as positional arithmetic. *)
Lemma be16_arith a b : 0 <= a < 256 -> 0 <= b < 256 ->
  u16 (Z.lor (Z.shiftl a 8) b) = a * 2 ^ 8 + b.
Proof.
  intros. unfold u16. rewrite lor_shiftl_add by lia. apply Z.mod_small. lia.
Qed.

Lemma u32_shiftl a n : 0 <= a < 256 -> 0 <= n <= 24 -> u32 (Z.shiftl a n) = a * 2 ^ n.
Proof.
  intros. unfold u32. rewrite Z.shiftl_mul_pow2 by lia. apply Z.mod_small.
  pose proof (Z.pow_le_mono_r 2 n 24). nia.
Qed.

Lemma be24_arith a b c : 0 <= a < 256 -> 0 <= b < 256 -> 0 <= c < 256 ->
  Z.lor (Z.lor (u32 (Z.shiftl a 16)) (u32 (Z.shiftl b 8))) c
  = a * 2 ^ 16 + b * 2 ^ 8 + c.
Proof.
  intros. rewrite !u32_shiftl, (lor_mult_add a _ 16) by lia.
  replace (a * 2 ^ 16 + b * 2 ^ 8) with ((a * 256 + b) * 2 ^ 8) by lia.
  rewrite lor_mult_add by lia. lia.
Qed.

Lemma be32_arith a b c d :
  0 <= a < 256 -> 0 <= b < 256 -> 0 <= c < 256 -> 0 <= d < 256 ->
  Z.lor (Z.lor (Z.lor (u32 (Z.shiftl a 24)) (u32 (Z.shiftl b 16)))
               (u32 (Z.shiftl c 8))) d
  = a * 2 ^ 24 + b * 2 ^ 16 + c * 2 ^ 8 + d.
Proof.
  intros. rewrite !u32_shiftl, (lor_mult_add a _ 24) by lia.
  replace (a * 2 ^ 24 + b * 2 ^ 16) with ((a * 256 + b) * 2 ^ 16) by lia.
  rewrite (lor_mult_add _ _ 16) by lia.
  replace ((a * 256 + b) * 2 ^ 16 + c * 2 ^ 8)
    with (((a * 256 + b) * 256 + c) * 2 ^ 8) by lia.
  rewrite lor_mult_add by lia. lia.
Qed.

(** What each reader makes of the bytes in front of it. *)
Definition be16 (a b : byte) : Z := b2z a * 2 ^ 8 + b2z b.
Definition be24 (a b c : byte) : Z := b2z a * 2 ^ 16 + b2z b * 2 ^ 8 + b2z c.
Definition be32 (a b c d : byte) : Z :=
  b2z a * 2 ^ 24 + b2z b * 2 ^ 16 + b2z c * 2 ^ 8 + b2z d.

Lemma read_u16_be_spec a b : read_u16_be [a; b] = Ok (be16 a b).
Proof.
  change (read_u16_be [a; b]) with (Ok (u16 (Z.lor (Z.shiftl (b2z a) 8) (b2z b)))).
  by rewrite be16_arith by apply b2z_range.
Qed.
Lemma read_u24_be_spec a b c : read_u24_be [a; b; c] = Ok (be24 a b c).
Proof.
  change (read_u24_be [a; b; c]) with
    (Ok (Z.lor (Z.lor (u32 (Z.shiftl (b2z a) 16)) (u32 (Z.shiftl (b2z b) 8))) (b2z c))).
  by rewrite be24_arith by apply b2z_range.
Qed.
Lemma read_u32_be_spec a b c d : read_u32_be [a; b; c; d] = Ok (be32 a b c d).
Proof.
  change (read_u32_be [a; b; c; d]) with
    (Ok (Z.lor (Z.lor (Z.lor (u32 (Z.shiftl (b2z a) 24)) (u32 (Z.shiftl (b2z b) 16)))
                      (u32 (Z.shiftl (b2z c) 8))) (b2z d))).
  by rewrite be32_arith by apply b2z_range.
Qed.

Lemma be16_range a b : 0 <= be16 a b < 2 ^ 16.
Proof. unfold be16. pose proof (b2z_range a). pose proof (b2z_range b). lia. Qed.
Lemma be24_range a b c : 0 <= be24 a b c < 2 ^ 24.
Proof.
  unfold be24. pose proof (b2z_range a). pose proof (b2z_range b).
  pose proof (b2z_range c). lia.
Qed.
Lemma be32_range a b c d : 0 <= be32 a b c d < 2 ^ 32.
Proof.
  unfold be32. pose proof (b2z_range a). pose proof (b2z_range b).
  pose proof (b2z_range c). pose proof (b2z_range d). lia.
Qed.
#[export] Hint Resolve be16_range be24_range be32_range : rtmp.

Lemma byte_field z n : 0 <= n ->
  b2z (z2b (Z.land (Z.shiftr z n) 255)) = (z / 2 ^ n) mod 256.
Proof.
  intros. rewrite b2z_z2b, land_255, Z.shiftr_div_pow2 by done. by rewrite Zmod_mod.
Qed.
Lemma byte_field_0 z : b2z (z2b (Z.land z 255)) = z mod 256.
Proof. rewrite b2z_z2b, land_255. by rewrite Zmod_mod. Qed.

Ltac be_fields :=
  rewrite ?byte_field, ?byte_field_0 by lia; Z.div_mod_to_equations; lia.

Lemma read_write_u16_be v : read_u16_be (write_u16_be v) = Ok (u16 v).
Proof.
  unfold write_u16_be. rewrite read_u16_be_spec. f_equal. unfold be16, u16. be_fields.
Qed.
Lemma read_write_u24_be v : read_u24_be (write_u24_be v) = Ok (v mod 2 ^ 24).
Proof.
  unfold write_u24_be. rewrite read_u24_be_spec. f_equal. unfold be24. be_fields.
Qed.
Lemma read_write_u32_be v : read_u32_be (write_u32_be v) = Ok (u32 v).
Proof.
  unfold write_u32_be. rewrite read_u32_be_spec. f_equal. unfold be32, u32. be_fields.
Qed.

(** Reading a fixed-extent span succeeds exactly inside the buffer. *)
Section read_at.
Variables (data : list byte) (off : Z).

Lemma read_u16_be_at_ok :
  0 <= off -> off + 2 <= zlen data ->
  exists v, read_u16_be_at data off = Ok v /\ 0 <= v < 2 ^ 16.
Proof.
  intros Ho Hl. unfold read_u16_be_at.
  destruct (subspan_Ok data off 2) as (s & -> & Hs); [lia..|].
  destruct s as [|a [|b [|c s]]]; try (unfold zlen in Hs; cbn in Hs; lia).
  rewrite bind_Ok, read_u16_be_spec. eauto with rtmp.
Qed.

Lemma read_u24_be_at_ok :
  0 <= off -> off + 3 <= zlen data ->
  exists v, read_u24_be_at data off = Ok v /\ 0 <= v < 2 ^ 24.
Proof.
  intros Ho Hl. unfold read_u24_be_at.
  destruct (subspan_Ok data off 3) as (s & -> & Hs); [lia..|].
  destruct s as [|a [|b [|c [|d s]]]]; try (unfold zlen in Hs; cbn in Hs; lia).
  rewrite bind_Ok, read_u24_be_spec. eauto with rtmp.
Qed.

Lemma read_u32_be_at_ok :
  0 <= off -> off + 4 <= zlen data ->
  exists v, read_u32_be_at data off = Ok v /\ 0 <= v < 2 ^ 32.
Proof.
  intros Ho Hl. unfold read_u32_be_at.
  destruct (subspan_Ok data off 4) as (s & -> & Hs); [lia..|].
  destruct s as [|a [|b [|c [|d [|e s]]]]]; try (unfold zlen in Hs; cbn in Hs; lia).
  rewrite bind_Ok, read_u32_be_spec. eauto with rtmp.
Qed.

Lemma read_u16_be_at_returns : 0 <= off -> off + 2 <= zlen data -> returns (read_u16_be_at data off).
Proof. intros H1 H2. by destruct (read_u16_be_at_ok H1 H2) as (v & -> & _). Qed.
Lemma read_u24_be_at_returns : 0 <= off -> off + 3 <= zlen data -> returns (read_u24_be_at data off).
Proof. intros H1 H2. by destruct (read_u24_be_at_ok H1 H2) as (v & -> & _). Qed.
Lemma read_u32_be_at_returns : 0 <= off -> off + 4 <= zlen data -> returns (read_u32_be_at data off).
Proof. intros H1 H2. by destruct (read_u32_be_at_ok H1 H2) as (v & -> & _). Qed.
End read_at.
#[export] Hint Resolve read_u16_be_at_returns read_u24_be_at_returns
  read_u32_be_at_returns : rtmp.

(** Reading a field back at the cursor it was written at. *)
Section read_suffix.
Variables (data : list byte) (off : Z) (l : list byte).

Lemma read_u16_be_at_suffix v :
  at_suffix data off (write_u16_be v ++ l) -> read_u16_be_at data off = Ok (u16 v).
Proof.
  intros Hs. unfold read_u16_be_at.
  change 2 with (zlen (write_u16_be v)). rewrite (subspan_suffix _ _ _ _ Hs).
  apply read_write_u16_be.
Qed.
Lemma read_u24_be_at_suffix v :
  at_suffix data off (write_u24_be v ++ l) -> read_u24_be_at data off = Ok (v mod 2 ^ 24).
Proof.
  intros Hs. unfold read_u24_be_at.
  change 3 with (zlen (write_u24_be v)). rewrite (subspan_suffix _ _ _ _ Hs).
  apply read_write_u24_be.
Qed.
Lemma read_u32_be_at_suffix v :
  at_suffix data off (write_u32_be v ++ l) -> read_u32_be_at data off = Ok (u32 v).
Proof.
  intros Hs. unfold read_u32_be_at.
  change 4 with (zlen (write_u32_be v)). rewrite (subspan_suffix _ _ _ _ Hs).
  apply read_write_u32_be.
Qed.
End read_suffix.

(** * The cursor never leaves the buffer *)

(** One call on a reader, and what it consumes. *)
Inductive ReaderCall :=
| CallU8 | CallU16 | CallU24 | CallU32 | CallBytes (n : Z) | CallSkip (n : Z).

Definition call_width (c : ReaderCall) : Z :=
  match c with
  | CallU8 => 1 | CallU16 => 2 | CallU24 => 3 | CallU32 => 4
  | CallBytes n | CallSkip n => n
  end.

Definition run_call (r : ByteReader.t) (c : ReaderCall) : Res (bool * ByteReader.t) :=
  match c with
  | CallU8 => '(o, r') <- ByteReader.read_u8 r ;; Ok (bool_decide (is_Some o), r')
  | CallU16 => '(o, r') <- ByteReader.read_u16_be r ;; Ok (bool_decide (is_Some o), r')
  | CallU24 => '(o, r') <- ByteReader.read_u24_be r ;; Ok (bool_decide (is_Some o), r')
  | CallU32 => '(o, r') <- ByteReader.read_u32_be r ;; Ok (bool_decide (is_Some o), r')
  | CallBytes n => '(o, r') <- ByteReader.read_bytes r n ;; Ok (bool_decide (is_Some o), r')
  | CallSkip n => Ok (ByteReader.skip r n)
  end.

Definition reader_valid (r : ByteReader.t) : Prop :=
  0 <= ByteReader.position_ r <= zlen (ByteReader.data_ r) /\
  zlen (ByteReader.data_ r) < 2 ^ 64.

Lemma has_remaining_spec r n :
  reader_valid r ->
  ByteReader.has_remaining r n =
  bool_decide (ByteReader.position_ r + n <= zlen (ByteReader.data_ r)).
Proof.
  intros [Hp Hl]. unfold ByteReader.has_remaining, ByteReader.remaining, u64.
  rewrite Z.mod_small by lia.
  destruct (Z.leb_spec n (zlen (ByteReader.data_ r) - ByteReader.position_ r));
    symmetry; [apply bool_decide_eq_true | apply bool_decide_eq_false]; lia.
Qed.

Lemma reader_valid_advance r n :
  reader_valid r -> 0 <= n -> ByteReader.position_ r + n <= zlen (ByteReader.data_ r) ->
  reader_valid (ByteReader.advance r n).
Proof. intros [Hp Hl] Hn Hb. split; cbn; lia. Qed.

Lemma run_call_fixed r c (fits : bool) :
  reader_valid r -> 0 <= call_width c ->
  fits = bool_decide (ByteReader.position_ r + call_width c <= zlen (ByteReader.data_ r)) ->
  run_call r c = Ok (fits, if fits then ByteReader.advance r (call_width c) else r).
Proof.
  intros Hv Hc ->. pose proof Hv as [Hp _].
  destruct c; cbn [run_call call_width] in *;
    unfold ByteReader.read_u8, ByteReader.read_u16_be, ByteReader.read_u24_be,
      ByteReader.read_u32_be, ByteReader.read_bytes, ByteReader.skip;
    rewrite has_remaining_spec by done; case_bool_decide as Hfit; try done; cbn [negb].
  - destruct (byte_at_Ok (ByteReader.data_ r) (ByteReader.position_ r)) as [b ->]; [lia|done].
  - destruct (read_u16_be_at_ok (ByteReader.data_ r) (ByteReader.position_ r)) as (v & H & _);
      [lia..|]. unfold read_u16_be_at in H.
    apply bind_Ok_inv in H as (s & -> & H). rewrite bind_Ok, H. done.
  - destruct (read_u24_be_at_ok (ByteReader.data_ r) (ByteReader.position_ r)) as (v & H & _);
      [lia..|]. unfold read_u24_be_at in H.
    apply bind_Ok_inv in H as (s & -> & H). rewrite bind_Ok, H. done.
  - destruct (read_u32_be_at_ok (ByteReader.data_ r) (ByteReader.position_ r)) as (v & H & _);
      [lia..|]. unfold read_u32_be_at in H.
    apply bind_Ok_inv in H as (s & -> & H). rewrite bind_Ok, H. done.
  - destruct (subspan_Ok (ByteReader.data_ r) (ByteReader.position_ r) n) as (s & -> & _);
      [lia..|done].
Qed.

Fixpoint run_calls (r : ByteReader.t) (cs : list ReaderCall) : Res (list bool * ByteReader.t) :=
  match cs with
  | [] => Ok ([], r)
  | c :: cs =>
      '(ok, r1) <- run_call r c ;;
      '(oks, r2) <- run_calls r1 cs ;;
      Ok (ok :: oks, r2)
  end.

(** Where a sequence of calls leaves the cursor: each call that fits moves it
    by its width, each call that does not leaves it alone. *)
Fixpoint calls_position (len pos : Z) (cs : list ReaderCall) : list bool * Z :=
  match cs with
  | [] => ([], pos)
  | c :: cs =>
      let ok := bool_decide (pos + call_width c <= len) in
      let '(oks, p) := calls_position len (if ok then pos + call_width c else pos) cs in
      (ok :: oks, p)
  end.

(** [ByteReader] on an untrusted span: whatever the calls made on it, none of them reads
    outside the span, each one succeeds exactly when the bytes it asks for are still
    there, a failed one leaves the cursor where it was, and the cursor stays inside
    the span. *)
Theorem byte_reader_bounds data cs :
  zlen data < 2 ^ 64 -> Forall (fun c => 0 <= call_width c) cs ->
  exists r, run_calls (ByteReader.make data) cs
            = Ok (fst (calls_position (zlen data) 0 cs), r) /\
    ByteReader.position r = snd (calls_position (zlen data) 0 cs) /\
    0 <= ByteReader.position r <= zlen data /\ ByteReader.data_ r = data.
Proof.
  intros Hlen Hcs.
  assert (Hgen : forall r, ByteReader.data_ r = data -> reader_valid r ->
    exists r', run_calls r cs
               = Ok (fst (calls_position (zlen data) (ByteReader.position r) cs), r') /\
      ByteReader.position r' = snd (calls_position (zlen data) (ByteReader.position r) cs) /\
      reader_valid r' /\ ByteReader.data_ r' = data).
  { induction Hcs as [|c cs Hc Hcs IH]; intros r Hr Hv; cbn [run_calls calls_position].
    { exists r. auto. }
    rewrite (run_call_fixed r c _ Hv Hc eq_refl), bind_Ok, Hr.
    unfold ByteReader.position.
    set (fits := bool_decide (ByteReader.position_ r + call_width c <= zlen data)).
    destruct (IH (if fits then ByteReader.advance r (call_width c) else r)) as (r' & Hrun & Hpos & Hv' & Hd').
    - by destruct fits.
    - subst fits. case_bool_decide; [|done]. by apply reader_valid_advance; rewrite ?Hr.
    - exists r'. rewrite Hrun, bind_Ok.
      replace (ByteReader.position (if fits then ByteReader.advance r (call_width c) else r))
        with (if fits then ByteReader.position_ r + call_width c else ByteReader.position_ r) in *
        by (by destruct fits).
      unfold ByteReader.position in *.
      destruct (calls_position _ (if fits then _ else _) cs). cbn in *. auto. }
  destruct (Hgen (ByteReader.make data)) as (r & H1 & H2 & H3 & H4).
  - done.
  - split; cbn; zlia.
  - exists r. destruct H3 as [H3 _]. rewrite H4 in H3. auto.
Qed.

Lemma byte_reader_bounds_witness :
  exists r, run_calls (ByteReader.make [x01; x02; x03]) [CallU16; CallU32; CallU8; CallSkip 1]
            = Ok ([true; false; true; false], r) /\ ByteReader.position r = 3.
Proof.
  destruct (byte_reader_bounds [x01; x02; x03] [CallU16; CallU32; CallU8; CallSkip 1])
    as (r & H1 & H2 & _).
  - vm_compute. reflexivity.
  - repeat constructor; cbn; lia.
  - exists r. split; [exact H1 | exact H2].
Defined.

(** * What the writer wrote, the reader reads *)

Inductive Field :=
| FieldU8 (b : byte) | FieldU16 (v : Z) | FieldU24 (v : Z) | FieldU32 (v : Z)
| FieldBytes (l : list byte).

Definition field_in_range (f : Field) : Prop :=
  match f with
  | FieldU8 _ | FieldBytes _ => True
  | FieldU16 v => 0 <= v < 2 ^ 16
  | FieldU24 v => 0 <= v < 2 ^ 24
  | FieldU32 v => 0 <= v < 2 ^ 32
  end.

Definition write_field (w : ByteWriter.t) (f : Field) : ByteWriter.t :=
  match f with
  | FieldU8 b => ByteWriter.write_u8 w b
  | FieldU16 v => ByteWriter.write_u16_be w v
  | FieldU24 v => ByteWriter.write_u24_be w v
  | FieldU32 v => ByteWriter.write_u32_be w v
  | FieldBytes l => ByteWriter.write_bytes w l
  end.

(** Reads a field of the same kind (and, for raw bytes, the same length). *)
Definition read_field (r : ByteReader.t) (f : Field) : Res (option Field * ByteReader.t) :=
  match f with
  | FieldU8 _ => '(o, r) <- ByteReader.read_u8 r ;; Ok (FieldU8 <$> o, r)
  | FieldU16 _ => '(o, r) <- ByteReader.read_u16_be r ;; Ok (FieldU16 <$> o, r)
  | FieldU24 _ => '(o, r) <- ByteReader.read_u24_be r ;; Ok (FieldU24 <$> o, r)
  | FieldU32 _ => '(o, r) <- ByteReader.read_u32_be r ;; Ok (FieldU32 <$> o, r)
  | FieldBytes l => '(o, r) <- ByteReader.read_bytes r (zlen l) ;; Ok (FieldBytes <$> o, r)
  end.

Fixpoint read_fields (r : ByteReader.t) (fs : list Field) : Res (list (option Field) * ByteReader.t) :=
  match fs with
  | [] => Ok ([], r)
  | f :: fs =>
      '(o, r1) <- read_field r f ;;
      '(os, r2) <- read_fields r1 fs ;;
      Ok (o :: os, r2)
  end.

Definition field_bytes (f : Field) : list byte :=
  match f with
  | FieldU8 b => [b]
  | FieldU16 v => write_u16_be v
  | FieldU24 v => write_u24_be v
  | FieldU32 v => write_u32_be v
  | FieldBytes l => l
  end.

Lemma write_field_bytes w f :
  ByteWriter.data (write_field w f) = ByteWriter.data w ++ field_bytes f.
Proof. by destruct f. Qed.

Lemma write_fields_bytes w fs :
  ByteWriter.data (fold_left write_field fs w) = ByteWriter.data w ++ concat (map field_bytes fs).
Proof.
  revert w. induction fs as [|f fs IH]; intros w; cbn [fold_left map concat].
  - by rewrite app_nil_r.
  - by rewrite IH, write_field_bytes, (assoc_L (++)).
Qed.

Lemma read_field_spec r f l :
  reader_valid r -> field_in_range f ->
  at_suffix (ByteReader.data_ r) (ByteReader.position_ r) (field_bytes f ++ l) ->
  read_field r f = Ok (Some f, ByteReader.advance r (zlen (field_bytes f))).
Proof.
  intros Hv Hf Hs. pose proof (at_suffix_zlen _ _ _ Hs) as Hlen.
  destruct f; cbn [read_field field_bytes field_in_range] in *;
    unfold ByteReader.read_u8, ByteReader.read_u16_be, ByteReader.read_u24_be,
      ByteReader.read_u32_be, ByteReader.read_bytes;
    rewrite has_remaining_spec by done; rewrite bool_decide_true by zlia; cbn [negb].
  - by rewrite (byte_at_suffix _ _ _ _ Hs).
  - pose proof (read_u16_be_at_suffix _ _ _ _ Hs) as H. unfold read_u16_be_at in H.
    apply bind_Ok_inv in H as (s & -> & H). rewrite bind_Ok, H. unfold u16.
    by rewrite Z.mod_small by lia.
  - pose proof (read_u24_be_at_suffix _ _ _ _ Hs) as H. unfold read_u24_be_at in H.
    apply bind_Ok_inv in H as (s & -> & H). rewrite bind_Ok, H.
    by rewrite Z.mod_small by lia.
  - pose proof (read_u32_be_at_suffix _ _ _ _ Hs) as H. unfold read_u32_be_at in H.
    apply bind_Ok_inv in H as (s & -> & H). rewrite bind_Ok, H. unfold u32.
    by rewrite Z.mod_small by lia.
  - by rewrite (subspan_suffix _ _ _ _ Hs).
Qed.

(** The byte layer round-trips: any sequence of in-range fields appended with
    [ByteWriter] is read back field by field with [ByteReader], which ends exactly at
    the end of the data. *)
Theorem byte_writer_reader_roundtrip fs :
  Forall field_in_range fs ->
  zlen (ByteWriter.data (fold_left write_field fs ByteWriter.make)) < 2 ^ 64 ->
  exists r,
    read_fields (ByteReader.make (ByteWriter.data (fold_left write_field fs ByteWriter.make))) fs
    = Ok (map Some fs, r) /\ ByteReader.remaining r = 0.
Proof.
  rewrite write_fields_bytes. cbn [ByteWriter.data ByteWriter.make ByteWriter.buffer_ app].
  intros Hfs Hlen. set (data := concat (map field_bytes fs)) in *.
  assert (Hgen : forall fs' r, Forall field_in_range fs' -> ByteReader.data_ r = data ->
    at_suffix data (ByteReader.position_ r) (concat (map field_bytes fs')) ->
    exists r', read_fields r fs' = Ok (map Some fs', r') /\
      at_suffix (ByteReader.data_ r') (ByteReader.position_ r') [] /\ ByteReader.data_ r' = data).
  { induction fs' as [|f fs' IH]; intros r Hr Hd Hs; cbn [read_fields map].
    { exists r. by rewrite Hd. }
    cbn [concat map] in Hs. apply Forall_cons_1 in Hr as [Hf Hr].
    assert (Hv : reader_valid r).
    { split; rewrite Hd; [|lia]. by destruct Hs as [? _]. }
    rewrite (read_field_spec r f (concat (map field_bytes fs'))) by (rewrite ?Hd; done).
    rewrite bind_Ok.
    destruct (IH (ByteReader.advance r (zlen (field_bytes f)))) as (r' & -> & H1 & H2).
    - done.
    - done.
    - by apply at_suffix_app.
    - exists r'. auto. }
  destruct (Hgen fs (ByteReader.make data)) as (r & H1 & H2 & H3).
  - done.
  - done.
  - apply at_suffix_0.
  - exists r. split; [done|]. apply at_suffix_zlen in H2.
    unfold ByteReader.remaining. rewrite H2. unfold u64.
    rewrite zlen_nil. by rewrite Z.add_0_r, Z.sub_diag.
Qed.

Lemma byte_writer_reader_roundtrip_witness :
  exists r,
    read_fields (ByteReader.make (ByteWriter.data
      (fold_left write_field [FieldU24 0x123456; FieldBytes [x01; x02]; FieldU16 7] ByteWriter.make)))
      [FieldU24 0x123456; FieldBytes [x01; x02]; FieldU16 7]
    = Ok ([Some (FieldU24 0x123456); Some (FieldBytes [x01; x02]); Some (FieldU16 7)], r) /\
    ByteReader.remaining r = 0.
Proof.
  apply (byte_writer_reader_roundtrip [FieldU24 0x123456; FieldBytes [x01; x02]; FieldU16 7]).
  - repeat constructor; cbn; lia.
  - vm_compute. reflexivity.
Defined.
