(* ===== verification/Amf0.v ===== *)
(** AMF0 values on the wire: protocol/amf0/amf0_value.hpp, amf0_encoder.cpp and
    amf0_decoder.cpp.

    A [double] is its IEEE 754 bit pattern, the number [std::bit_cast] gives, so
    that round trips are bit-exact (NaN payloads and signed zeroes included).  A
    [std::string] is a string of 8-bit characters.  The shared pointers inside the
    C++ value only share immutable data and do not show in the model.  The decoder
    works on the whole message and an offset into it, as the source does. *)

From S2P Require Import Prelude Bytes.

(** * amf0_value.hpp *)

Inductive Amf0Value :=
| Number (bits : Z)
| Boolean (v : bool)
| String (v : string)
| Object (properties : list (string * Amf0Value))
| Null
| Undefined
| EcmaArray (properties : list (string * Amf0Value))
| StrictArray (items : list Amf0Value)
| Date (milliseconds : Z) (timezone : Z).

Notation Amf0PropertyList := (list (string * Amf0Value)).

Module Amf0Type.
Inductive t := Number | Boolean | String | Object | Null | Undefined
             | EcmaArray | StrictArray | Date.
End Amf0Type.

Definition type (v : Amf0Value) : Amf0Type.t :=
  match v with
  | Number _ => Amf0Type.Number
  | Boolean _ => Amf0Type.Boolean
  | String _ => Amf0Type.String
  | Object _ => Amf0Type.Object
  | Null => Amf0Type.Null
  | Undefined => Amf0Type.Undefined
  | EcmaArray _ => Amf0Type.EcmaArray
  | StrictArray _ => Amf0Type.StrictArray
  | Date _ _ => Amf0Type.Date
  end.

(** [Amf0Value::find]: the first property of that name. *)
Fixpoint find_property (key : string) (props : Amf0PropertyList) : option Amf0Value :=
  match props with
  | [] => None
  | (name, value) :: props =>
      if bool_decide (name = key) then Some value else find_property key props
  end.

Definition find (v : Amf0Value) (key : string) : option Amf0Value :=
  match v with
  | Object props | EcmaArray props => find_property key props
  | _ => None
  end.

(** * amf0_encoder.hpp, amf0_encoder.cpp *)

Module Amf0Marker.
Definition Number := 0x00.
Definition Boolean := 0x01.
Definition String := 0x02.
Definition Object := 0x03.
Definition MovieClip := 0x04.
Definition Null := 0x05.
Definition Undefined := 0x06.
Definition Reference := 0x07.
Definition EcmaArray := 0x08.
Definition ObjectEnd := 0x09.
Definition StrictArray := 0x0A.
Definition Date := 0x0B.
Definition LongString := 0x0C.
Definition Unsupported := 0x0D.
Definition RecordSet := 0x0E.
Definition Xml := 0x0F.
Definition TypedObject := 0x10.
End Amf0Marker.

(** The append helpers return the bytes they append. *)
Definition append_u8 (v : Z) : list byte := [z2b v].
Definition append_marker (m : Z) : list byte := append_u8 m.

(** [for (shift = 56; shift >= 0; shift -= 8)]. *)
Definition append_f64_be (bits : Z) : list byte :=
  map (fun shift => z2b (Z.land (Z.shiftr bits shift) 0xFF)) [56; 48; 40; 32; 24; 16; 8; 0].

Definition string_bytes (s : string) : list byte := Stdlib.Strings.String.list_byte_of_string s.
Definition string_size (s : string) : Z := zlen (string_bytes s).

Definition append_string_body (s : string) : list byte :=
  (if string_size s <=? 0xFFFF
   then write_u16_be (u16 (string_size s))
   else write_u32_be (u32 (string_size s))) ++ string_bytes s.

Definition append_property_name (name : string) : list byte :=
  write_u16_be (u16 (Z.land (string_size name) 0xFFFF)) ++ string_bytes name.

Definition properties_terminator : list byte :=
  write_u16_be 0 ++ append_marker Amf0Marker.ObjectEnd.

Fixpoint encode (value : Amf0Value) : list byte :=
  let append_properties :=
    fix append_properties (properties : Amf0PropertyList) : list byte :=
      match properties with
      | [] => properties_terminator
      | (name, value) :: properties =>
          append_property_name name ++ encode value ++ append_properties properties
      end in
  match value with
  | Number bits => append_marker Amf0Marker.Number ++ append_f64_be bits
  | Boolean v => append_marker Amf0Marker.Boolean ++ append_u8 (if v then 1 else 0)
  | String s =>
      append_marker (if string_size s <=? 0xFFFF then Amf0Marker.String
                     else Amf0Marker.LongString) ++ append_string_body s
  | Object properties => append_marker Amf0Marker.Object ++ append_properties properties
  | Null => append_marker Amf0Marker.Null
  | Undefined => append_marker Amf0Marker.Undefined
  | EcmaArray properties =>
      append_marker Amf0Marker.EcmaArray ++ write_u32_be (u32 (zlen properties)) ++
      append_properties properties
  | StrictArray items =>
      append_marker Amf0Marker.StrictArray ++ write_u32_be (u32 (zlen items)) ++
      (fix encode_items (items : list Amf0Value) : list byte :=
         match items with
         | [] => []
         | item :: items => encode item ++ encode_items items
         end) items
  | Date milliseconds timezone =>
      append_marker Amf0Marker.Date ++ append_f64_be milliseconds ++
      write_u16_be (u16 timezone)
  end.

(** The two loops of [encode], named for the statements about them. *)
Fixpoint append_properties (properties : Amf0PropertyList) : list byte :=
  match properties with
  | [] => properties_terminator
  | (name, value) :: properties =>
      append_property_name name ++ encode value ++ append_properties properties
  end.

Fixpoint encode_items (items : list Amf0Value) : list byte :=
  match items with
  | [] => []
  | item :: items => encode item ++ encode_items items
  end.

(** * amf0_decoder.hpp, amf0_decoder.cpp *)

Definition kMaxNestingDepth : Z := 32.
Definition kMinValueBytes : Z := 1.
Definition kMaxProperties : Z := 1000000.

Record Amf0Decoded := mkAmf0Decoded { value : Amf0Value; bytes_consumed : Z }.

Definition malformed_amf (message : string) : Error :=
  mkError ErrorCode.MalformedAmf ErrorCategory.Protocol message.

Definition require (data : list byte) (offset needed : Z) : Res unit :=
  if zlen data <? offset + needed
  then Err (malformed_amf "truncated AMF0 value: not enough bytes remaining")
  else Ok tt.

Definition read_f64_be_at (data : list byte) (offset : Z) : Res Z :=
  fold_left (fun acc i =>
      bits <- acc ;; b <- u8_at data (offset + i) ;;
      Ok (Z.lor (u64 (Z.shiftl bits 8)) b))
    [0; 1; 2; 3; 4; 5; 6; 7] (Ok 0).

Definition read_bytes_as_string (data : list byte) (offset len : Z) : Res string :=
  s <- subspan data offset len ;; Ok (Stdlib.Strings.String.string_of_list_byte s).

Fixpoint decode_value (fuel : nat) (data : list byte) (offset depth : Z)
    {struct fuel} : Res Amf0Decoded :=
  match fuel with
  | O => OutOfFuel
  | S fuel =>
    if kMaxNestingDepth <? depth then
      Err (malformed_amf "AMF0 value nesting exceeds the maximum supported depth")
    else
    _ <- require data offset 1 ;;
    marker <- u8_at data offset ;;
    let cursor := offset + 1 in
    if marker =? Amf0Marker.Number then
      _ <- require data cursor 8 ;;
      v <- read_f64_be_at data cursor ;;
      Ok (mkAmf0Decoded (Number v) (cursor + 8 - offset))
    else if marker =? Amf0Marker.Boolean then
      _ <- require data cursor 1 ;;
      b <- u8_at data cursor ;;
      Ok (mkAmf0Decoded (Boolean (negb (b =? 0))) (cursor + 1 - offset))
    else if marker =? Amf0Marker.String then
      _ <- require data cursor 2 ;;
      len <- read_u16_be_at data cursor ;;
      let cursor := cursor + 2 in
      _ <- require data cursor len ;;
      s <- read_bytes_as_string data cursor len ;;
      Ok (mkAmf0Decoded (String s) (cursor + len - offset))
    else if marker =? Amf0Marker.LongString then
      _ <- require data cursor 4 ;;
      len <- read_u32_be_at data cursor ;;
      let cursor := cursor + 4 in
      _ <- require data cursor len ;;
      s <- read_bytes_as_string data cursor len ;;
      Ok (mkAmf0Decoded (String s) (cursor + len - offset))
    else if marker =? Amf0Marker.Object then
      '(props, consumed) <- decode_properties fuel data cursor (depth + 1) ;;
      Ok (mkAmf0Decoded (Object props) (cursor + consumed - offset))
    else if marker =? Amf0Marker.EcmaArray then
      _ <- require data cursor 4 ;;
      let cursor := cursor + 4 in
      '(props, consumed) <- decode_properties fuel data cursor (depth + 1) ;;
      Ok (mkAmf0Decoded (EcmaArray props) (cursor + consumed - offset))
    else if marker =? Amf0Marker.StrictArray then
      _ <- require data cursor 4 ;;
      count <- read_u32_be_at data cursor ;;
      let cursor := cursor + 4 in
      let remaining := zlen data - cursor in
      if remaining / kMinValueBytes <? count then
        Err (malformed_amf
          "AMF0 strict-array element count exceeds the bytes remaining in the message")
      else
      '(items, cursor) <- decode_items fuel data cursor count (depth + 1) [] ;;
      Ok (mkAmf0Decoded (StrictArray items) (cursor - offset))
    else if marker =? Amf0Marker.Date then
      _ <- require data cursor 10 ;;
      millis <- read_f64_be_at data cursor ;;
      let cursor := cursor + 8 in
      tz <- read_u16_be_at data cursor ;;
      Ok (mkAmf0Decoded (Date millis (i16 tz)) (cursor + 2 - offset))
    else if marker =? Amf0Marker.Null then
      Ok (mkAmf0Decoded Null (cursor - offset))
    else if marker =? Amf0Marker.Undefined then
      Ok (mkAmf0Decoded Undefined (cursor - offset))
    else if marker =? Amf0Marker.ObjectEnd then
      Err (malformed_amf "unexpected AMF0 Object-End marker outside a property list")
    else if (marker =? Amf0Marker.MovieClip) || (marker =? Amf0Marker.Reference) ||
            (marker =? Amf0Marker.Unsupported) || (marker =? Amf0Marker.RecordSet) ||
            (marker =? Amf0Marker.Xml) || (marker =? Amf0Marker.TypedObject) then
      Err (malformed_amf "unsupported AMF0 type marker")
    else Err (malformed_amf "unknown AMF0 type marker")
  end

(** The strict array's element loop: [count] values, pushed in order. *)
with decode_items (fuel : nat) (data : list byte) (cursor count depth : Z)
    (items : list Amf0Value) {struct fuel} : Res (list Amf0Value * Z) :=
  match fuel with
  | O => OutOfFuel
  | S fuel =>
    if count <=? 0 then Ok (items, cursor) else
    item <- decode_value fuel data cursor depth ;;
    decode_items fuel data (cursor + bytes_consumed item) (count - 1) depth
      (items ++ [value item])
  end

with decode_properties (fuel : nat) (data : list byte) (offset depth : Z)
    {struct fuel} : Res (Amf0PropertyList * Z) :=
  match fuel with
  | O => OutOfFuel
  | S fuel =>
    if kMaxNestingDepth <? depth then
      Err (malformed_amf "AMF0 value nesting exceeds the maximum supported depth")
    else
    '(out, cursor) <- properties_loop fuel data offset depth 0 [] ;;
    Ok (out, cursor - offset)
  end

with properties_loop (fuel : nat) (data : list byte) (cursor depth i : Z)
    (out : Amf0PropertyList) {struct fuel} : Res (Amf0PropertyList * Z) :=
  match fuel with
  | O => OutOfFuel
  | S fuel =>
    if kMaxProperties <=? i then
      Err (malformed_amf "AMF0 property list exceeded sanity limit without a terminator")
    else
    _ <- require data cursor 2 ;;
    name_len <- read_u16_be_at data cursor ;;
    if name_len =? 0 then
      _ <- require data (cursor + 2) 1 ;;
      marker <- u8_at data (cursor + 2) ;;
      if marker =? Amf0Marker.ObjectEnd then Ok (out, cursor + 3)
      else Err (malformed_amf
        "empty AMF0 property name not followed by Object-End marker")
    else
    let cursor := cursor + 2 in
    _ <- require data cursor name_len ;;
    name <- read_bytes_as_string data cursor name_len ;;
    let cursor := cursor + name_len in
    item <- decode_value fuel data cursor depth ;;
    properties_loop fuel data (cursor + bytes_consumed item) depth (i + 1)
      (out ++ [(name, value item)])
  end.

(** Three units of fuel per byte still unread, and three more, are enough. *)
Definition decode_fuel (data : list byte) : nat := (3 * length data + 6)%nat.

Definition decode (data : list byte) : Res Amf0Decoded :=
  decode_value (decode_fuel data) data 0 0.

Fixpoint decode_all_loop (fuel : nat) (data : list byte) (offset : Z)
    (values : list Amf0Value) : Res (list Amf0Value) :=
  match fuel with
  | O => OutOfFuel
  | S fuel =>
    if offset <? zlen data then
      decoded <- decode_value (decode_fuel data) data offset 0 ;;
      decode_all_loop fuel data (offset + bytes_consumed decoded)
        (values ++ [value decoded])
    else Ok values
  end.

Definition decode_all (data : list byte) : Res (list Amf0Value) :=
  decode_all_loop (S (length data)) data 0 [].

(** * What the wire can carry *)

(** The values a message can hold: field widths, property names of 1 to 65535
    bytes, fewer than [kMaxProperties] properties. *)
Fixpoint encodable (v : Amf0Value) : bool :=
  match v with
  | Number bits => (0 <=? bits) && (bits <? 2 ^ 64)
  | String s => string_size s <? 2 ^ 32
  | Object ps | EcmaArray ps =>
      (zlen ps <? kMaxProperties) &&
      forallb (fun '(n, v) => (1 <=? string_size n) && (string_size n <=? 0xFFFF) && encodable v) ps
  | StrictArray items => (zlen items <? 2 ^ 32) && forallb encodable items
  | Date ms tz => (0 <=? ms) && (ms <? 2 ^ 64) && (- 2 ^ 15 <=? tz) && (tz <? 2 ^ 15)
  | Boolean _ | Null | Undefined => true
  end.

(** How deep the decoder descends into a value. *)
Fixpoint nesting (v : Amf0Value) : Z :=
  match v with
  | Object ps | EcmaArray ps => 1 + fold_right Z.max 0 (map (fun '(_, v) => nesting v) ps)
  | StrictArray items => fold_right Z.max 0 (map (fun v => 1 + nesting v) items)
  | _ => 0
  end.

Section Amf0Value_ind.
Variable P : Amf0Value -> Prop.
Hypothesis Hnumber : forall b, P (Number b).
Hypothesis Hboolean : forall b, P (Boolean b).
Hypothesis Hstring : forall s, P (String s).
Hypothesis Hobject : forall ps, Forall (fun nv => P (snd nv)) ps -> P (Object ps).
Hypothesis Hnull : P Null.
Hypothesis Hundefined : P Undefined.
Hypothesis Hecma : forall ps, Forall (fun nv => P (snd nv)) ps -> P (EcmaArray ps).
Hypothesis Hstrict : forall items, Forall P items -> P (StrictArray items).
Hypothesis Hdate : forall ms tz, P (Date ms tz).

Fixpoint Amf0Value_rect' (v : Amf0Value) : P v :=
  let props := fix props (ps : Amf0PropertyList) : Forall (fun nv => P (snd nv)) ps :=
    match ps with
    | [] => @List.Forall_nil _ _
    | nv :: ps => @List.Forall_cons _ _ nv ps (Amf0Value_rect' (snd nv)) (props ps)
    end in
  match v with
  | Number b => Hnumber b
  | Boolean b => Hboolean b
  | String s => Hstring s
  | Object ps => Hobject ps (props ps)
  | Null => Hnull
  | Undefined => Hundefined
  | EcmaArray ps => Hecma ps (props ps)
  | StrictArray items => Hstrict items
      ((fix go (items : list Amf0Value) : Forall P items :=
         match items with
         | [] => @List.Forall_nil _ _
         | v :: items => @List.Forall_cons _ _ v items (Amf0Value_rect' v) (go items)
         end) items)
  | Date ms tz => Hdate ms tz
  end.
End Amf0Value_ind.

Lemma encode_Object ps :
  encode (Object ps) = append_marker Amf0Marker.Object ++ append_properties ps.
Proof. reflexivity. Qed.
Lemma encode_EcmaArray ps :
  encode (EcmaArray ps) =
  append_marker Amf0Marker.EcmaArray ++ write_u32_be (u32 (zlen ps)) ++ append_properties ps.
Proof. reflexivity. Qed.
Lemma encode_StrictArray items :
  encode (StrictArray items) =
  append_marker Amf0Marker.StrictArray ++ write_u32_be (u32 (zlen items)) ++ encode_items items.
Proof. reflexivity. Qed.

(** * The decoder on arbitrary bytes *)

Definition is_malformed_amf (e : Error) : Prop :=
  error_code e = ErrorCode.MalformedAmf /\ error_category e = ErrorCategory.Protocol.

Notation decodes := (yields is_malformed_amf).

Lemma require_decodes data offset needed :
  decodes (fun _ => offset + needed <= zlen data) (require data offset needed).
Proof. unfold require. destruct (Z.ltb_spec (zlen data) (offset + needed)); cbn; [done|lia]. Qed.

Lemma u8_at_decodes data i :
  0 <= i < zlen data -> decodes (fun v => 0 <= v < 256) (u8_at data i).
Proof. intros Hi. by destruct (u8_at_Ok data i Hi) as (v & -> & Hv). Qed.

Lemma read_u16_decodes data i :
  0 <= i -> i + 2 <= zlen data -> decodes (fun v => 0 <= v < 2 ^ 16) (read_u16_be_at data i).
Proof. intros H1 H2. by destruct (read_u16_be_at_ok data i H1 H2) as (v & -> & Hv). Qed.

Lemma read_u32_decodes data i :
  0 <= i -> i + 4 <= zlen data -> decodes (fun v => 0 <= v < 2 ^ 32) (read_u32_be_at data i).
Proof. intros H1 H2. by destruct (read_u32_be_at_ok data i H1 H2) as (v & -> & Hv). Qed.

Lemma string_size_of_bytes s :
  string_size (Stdlib.Strings.String.string_of_list_byte s) = zlen s.
Proof.
  unfold string_size, string_bytes.
  by rewrite Stdlib.Strings.String.list_byte_of_string_of_list_byte.
Qed.

Lemma read_string_decodes data offset len :
  0 <= offset -> 0 <= len -> offset + len <= zlen data ->
  decodes (fun s => string_size s = len) (read_bytes_as_string data offset len).
Proof.
  intros ???. unfold read_bytes_as_string.
  destruct (subspan_Ok data offset len) as (s & -> & Hs); [lia..|].
  cbn. by rewrite string_size_of_bytes.
Qed.

(** One step of the accumulation of a 64-bit field. *)
Lemma f64_step bits b :
  0 <= bits < 2 ^ 56 -> 0 <= b < 256 ->
  Z.lor (u64 (Z.shiftl bits 8)) b = bits * 2 ^ 8 + b.
Proof.
  intros. unfold u64. rewrite Z.mod_small by (rewrite Z.shiftl_mul_pow2 by lia; lia).
  by rewrite lor_shiftl_add by lia.
Qed.

Lemma read_f64_decodes data offset :
  0 <= offset -> offset + 8 <= zlen data ->
  decodes (fun v => 0 <= v < 2 ^ 64) (read_f64_be_at data offset).
Proof.
  intros. unfold read_f64_be_at. cbn [fold_left].
  assert (Hstep : forall n i acc, 0 <= n <= 56 -> 0 <= i < 8 ->
    decodes (fun v => 0 <= v < 2 ^ n) acc ->
    decodes (fun v => 0 <= v < 2 ^ (n + 8))
      (bits <- acc ;; b <- u8_at data (offset + i) ;; Ok (Z.lor (u64 (Z.shiftl bits 8)) b))).
  { intros n i acc Hn Hi Hacc. eapply yields_bind; [exact Hacc|]. intros bits Hb.
    eapply yields_bind; [apply u8_at_decodes; lia|]. intros b Hb'. cbn beta in *. cbn [yields].
    pose proof (Z.pow_le_mono_r 2 n 56). rewrite f64_step by lia.
    rewrite Z.pow_add_r by lia. lia. }
  repeat (match goal with
  | |- decodes _ (rbind _ (fun bits => rbind (u8_at _ (_ + ?i)) _)) =>
      apply (Hstep (8 * i) i); [lia|lia|]
  end).
  cbn. lia.
Qed.

Lemma nesting_nonneg v : 0 <= nesting v.
Proof.
  induction v as [| | |ps IH| | |ps IH|items IH|] using Amf0Value_rect'; cbn [nesting]; try lia.
  - induction IH as [|[n v] ps Hv _ IHps]; cbn in *; lia.
  - induction IH as [|[n v] ps Hv _ IHps]; cbn in *; lia.
  - induction IH as [|v items Hv _ IHps]; cbn in *; lia.
Qed.

(** Postcondition of one decoded value, read at [offset] under [depth] containers. *)
Definition decoded_ok (data : list byte) (offset depth : Z) (r : Amf0Decoded) : Prop :=
  1 <= bytes_consumed r /\ offset + bytes_consumed r <= zlen data /\
  encodable (value r) = true /\ depth + nesting (value r) <= kMaxNestingDepth.

Definition property_ok (depth : Z) (nv : string * Amf0Value) : Prop :=
  1 <= string_size (fst nv) <= 0xFFFF /\ encodable (snd nv) = true /\
  depth + nesting (snd nv) <= kMaxNestingDepth.

Lemma properties_ok_encodable depth ps :
  Forall (property_ok depth) ps -> depth <= kMaxNestingDepth ->
  forallb (fun '(n, v) => (1 <=? string_size n) && (string_size n <=? 0xFFFF) && encodable v) ps
    = true /\
  depth + fold_right Z.max 0 (map (fun '(_, v) => nesting v) ps) <= kMaxNestingDepth.
Proof.
  intros Hps Hd. induction Hps as [|[n v] ps [Hn [Hv Hnest]] _ IH]; cbn in *; [lia|].
  rewrite !andb_true_iff, !Z.leb_le. intuition lia.
Qed.

Lemma items_ok_encodable depth items :
  Forall (fun v => encodable v = true /\ depth + 1 + nesting v <= kMaxNestingDepth) items ->
  depth <= kMaxNestingDepth ->
  forallb encodable items = true /\
  depth + fold_right Z.max 0 (map (fun v => 1 + nesting v) items) <= kMaxNestingDepth.
Proof.
  intros Hps Hd. induction Hps as [|v items [Hv Hnest] _ IH]; cbn in *; [lia|].
  rewrite Hv. cbn [andb]. intuition lia.
Qed.

Section decoder_total.
Variable data : list byte.

(** [fuel] covers the bytes from [offset] on, with [k] to spare. *)
Definition fuel_covers (fuel : nat) (offset k : Z) : Prop :=
  0 <= offset <= zlen data /\ Z.of_nat fuel >= 3 * (zlen data - offset) + k.

Definition value_total (fuel : nat) : Prop := forall offset depth,
  fuel_covers fuel offset 1 -> 0 <= depth ->
  decodes (decoded_ok data offset depth) (decode_value fuel data offset depth).

Definition items_total (fuel : nat) : Prop := forall cursor count depth items,
  fuel_covers fuel cursor 2 -> 0 <= depth -> 0 <= count ->
  Forall (fun v => encodable v = true /\ depth + nesting v <= kMaxNestingDepth) items ->
  decodes (fun '(vs, c) => cursor <= c <= zlen data /\ zlen vs = zlen items + count /\
      Forall (fun v => encodable v = true /\ depth + nesting v <= kMaxNestingDepth) vs)
    (decode_items fuel data cursor count depth items).

Definition properties_total (fuel : nat) : Prop := forall offset depth,
  fuel_covers fuel offset 3 -> 0 <= depth ->
  decodes (fun '(ps, n) => 1 <= n /\ offset + n <= zlen data /\ zlen ps < kMaxProperties /\
      depth <= kMaxNestingDepth /\ Forall (property_ok depth) ps)
    (decode_properties fuel data offset depth).

Definition loop_total (fuel : nat) : Prop := forall cursor depth i out,
  fuel_covers fuel cursor 2 -> 0 <= depth -> zlen out = i ->
  Forall (property_ok depth) out ->
  decodes (fun '(ps, c) => cursor + 1 <= c <= zlen data /\ zlen ps < kMaxProperties /\
      Forall (property_ok depth) ps)
    (properties_loop fuel data cursor depth i out).

Lemma items_total_step fuel :
  value_total fuel -> items_total fuel -> items_total (S fuel).
Proof.
  intros Hval Hitems cursor count depth items [Hc Hf] Hd Hn Hi. cbn [decode_items].
  destruct (Z.leb_spec count 0); [cbn; repeat split; auto; lia|].
  eapply yields_bind; [apply Hval; [split; lia|done]|].
  intros r (H1 & H2 & H3 & H4).
  eapply yields_weaken.
  - apply (Hitems (cursor + bytes_consumed r) (count - 1) depth (items ++ [value r]));
      [split; lia|done|lia|].
    apply Forall_app. split; [done|]. by apply Forall_singleton.
  - intros [vs c] (Hvs & Hlen & Hall). zlia || (repeat split; [zlia..|done]).
Qed.

Lemma loop_total_step fuel :
  value_total fuel -> loop_total fuel -> loop_total (S fuel).
Proof.
  intros Hval Hloop cursor depth i out [Hc Hf] Hd Hi Hout. cbn [properties_loop].
  destruct (Z.leb_spec kMaxProperties i); [done|].
  eapply yields_bind; [apply require_decodes|]. cbn beta. intros _ Hreq.
  eapply yields_bind; [apply read_u16_decodes; lia|]. cbn beta. intros len Hlen.
  destruct (Z.eqb_spec len 0) as [->|Hne].
  - eapply yields_bind; [apply require_decodes|]. cbn beta. intros _ Hreq1.
    eapply yields_bind; [apply u8_at_decodes; lia|]. cbn beta. intros m Hm.
    destruct (_ =? _); cbn; [|done]. repeat split; [lia..|done].
  - eapply yields_bind; [apply require_decodes|]. cbn beta. intros _ Hreq1.
    eapply yields_bind; [apply read_string_decodes; lia|]. cbn beta. intros name Hname.
    eapply yields_bind; [apply Hval; [split; lia|done]|].
    intros r (H1 & H2 & H3 & H4).
    eapply yields_weaken.
    + apply Hloop; [split; lia|done|zlia|].
      apply Forall_app. split; [done|]. apply Forall_singleton.
      repeat split; cbn; [lia..|done|done].
    + intros [ps c]. intuition lia.
Qed.

Lemma properties_total_step fuel : loop_total fuel -> properties_total (S fuel).
Proof.
  intros Hloop offset depth [Hc Hf] Hd. cbn [decode_properties].
  destruct (Z.ltb_spec kMaxNestingDepth depth); [done|].
  eapply yields_bind; [apply Hloop; [split; lia|done|done|done]|].
  intros [ps c] (H1 & H2 & H3). cbn. repeat split; [lia..|done].
Qed.

(** A scalar's postcondition, from the ranges of its fields. *)
Ltac scalar_ok :=
  unfold decoded_ok; cbn [yields value bytes_consumed encodable nesting] in *; cbn beta in *;
  rewrite ?andb_true_iff, ?Z.leb_le, ?Z.ltb_lt; repeat split; lia.

Lemma value_total_step fuel :
  items_total fuel -> properties_total fuel -> value_total (S fuel).
Proof.
  intros Hitems Hprops offset depth [Hc Hf] Hd. cbn [decode_value].
  destruct (Z.ltb_spec kMaxNestingDepth depth); [done|].
  eapply yields_bind; [apply require_decodes|]. cbn beta. intros _ Hreq.
  eapply yields_bind; [apply u8_at_decodes; lia|]. cbn beta. intros marker _.
  repeat match goal with |- decodes _ (if ?b then _ else _) => destruct b end;
    try done;
    (eapply yields_bind; [apply require_decodes|]; cbn beta; intros _ Hreq1) ||
    (eapply yields_bind; [apply Hprops; [split; lia|lia]|]) || idtac.
  - (* Number *)
    eapply yields_bind; [apply read_f64_decodes; lia|]. intros v Hv.
    scalar_ok.
  - (* Boolean *)
    eapply yields_bind; [apply u8_at_decodes; lia|]. intros v Hv.
    scalar_ok.
  - (* String *)
    eapply yields_bind; [apply read_u16_decodes; lia|]. cbn beta. intros len Hlen.
    eapply yields_bind; [apply require_decodes|]; cbn beta; intros _ Hreq2.
    eapply yields_bind; [apply read_string_decodes; lia|]. intros s Hs.
    scalar_ok.
  - (* LongString *)
    eapply yields_bind; [apply read_u32_decodes; lia|]. cbn beta. intros len Hlen.
    eapply yields_bind; [apply require_decodes|]; cbn beta; intros _ Hreq2.
    eapply yields_bind; [apply read_string_decodes; lia|]. intros s Hs.
    scalar_ok.
  - (* Object *)
    intros [ps n] (H1 & H2 & H3 & H4 & H5).
    destruct (properties_ok_encodable _ _ H5 H4) as [H6 H7].
    repeat split; cbn [value bytes_consumed encodable nesting]; [lia..| |lia].
    by rewrite H6, (proj2 (Z.ltb_lt _ _) H3).
  - (* EcmaArray *)
    eapply yields_bind; [apply Hprops; [split; lia|lia]|].
    intros [ps n] (H1 & H2 & H3 & H4 & H5).
    destruct (properties_ok_encodable _ _ H5 H4) as [H6 H7].
    repeat split; cbn [value bytes_consumed encodable nesting]; [lia..| |lia].
    by rewrite H6, (proj2 (Z.ltb_lt _ _) H3).
  - (* StrictArray *)
    eapply yields_bind; [apply read_u32_decodes; lia|]. cbn beta. intros count Hcount.
    destruct (_ <? count); [done|].
    eapply yields_bind; [apply Hitems; [split; lia|lia|lia|done]|].
    intros [vs c] (H1 & H2 & H3).
    destruct (items_ok_encodable depth vs H3) as [H6 H7]; [lia|].
    repeat split; cbn [value bytes_consumed encodable nesting]; [lia..| |lia].
    rewrite H6, (proj2 (Z.ltb_lt _ _)); [done|]. rewrite H2, zlen_nil. lia.
  - (* Date *)
    eapply yields_bind; [apply read_f64_decodes; lia|]. cbn beta. intros ms Hms.
    eapply yields_bind; [apply read_u16_decodes; lia|]. cbn beta. intros tz Htz.
    pose proof (i16_range tz). scalar_ok.
  - (* Null *) scalar_ok.
  - (* Undefined *) scalar_ok.
Qed.

Lemma decoder_total fuel :
  value_total fuel /\ items_total fuel /\ properties_total fuel /\ loop_total fuel.
Proof.
  induction fuel as [|fuel (H1 & H2 & H3 & H4)].
  - repeat split; repeat intro; unfold fuel_covers in *; lia.
  - repeat split; auto using value_total_step, items_total_step, properties_total_step,
      loop_total_step.
Qed.
End decoder_total.

Lemma decode_value_total data offset :
  0 <= offset <= zlen data ->
  decodes (decoded_ok data offset 0) (decode_value (decode_fuel data) data offset 0).
Proof.
  intros Ho. apply decoder_total; [|done]. split; [done|].
  unfold decode_fuel, zlen in *. lia.
Qed.

(** Decoding untrusted bytes is total and memory-safe: on every input [decode] returns,
    never reads outside the span, and answers either a [MalformedAmf] protocol error or a
    value that takes between 1 and [data.size()] bytes, that fits the wire limits and
    that is nested at most [kMaxNestingDepth] deep, whatever the message claims. *)
Theorem amf0_decode_safe data :
  match decode data with
  | Ok r => 1 <= bytes_consumed r <= zlen data /\ encodable (value r) = true /\
            nesting (value r) <= kMaxNestingDepth
  | Err e => is_malformed_amf e
  | Fault | OutOfFuel => False
  end.
Proof.
  pose proof (decode_value_total data 0) as H. unfold decode.
  assert (Hb : 0 <= 0 <= zlen data) by zlia. specialize (H Hb).
  destruct (decode_value _ _ _ _) as [r| | |]; [|done..].
  destruct H as (H1 & H2 & H3 & H4). repeat split; [lia..|done|lia].
Qed.

Lemma decode_all_loop_total data fuel offset vs :
  0 <= offset <= zlen data -> Z.of_nat fuel > zlen data - offset ->
  Forall (fun v => encodable v = true /\ nesting v <= kMaxNestingDepth) vs ->
  decodes (Forall (fun v => encodable v = true /\ nesting v <= kMaxNestingDepth))
    (decode_all_loop fuel data offset vs).
Proof.
  revert offset vs. induction fuel as [|fuel IH]; intros offset vs Ho Hf Hvs; [lia|].
  cbn [decode_all_loop]. destruct (Z.ltb_spec offset (zlen data)); [|done].
  eapply yields_bind; [by apply decode_value_total|].
  intros r (H1 & H2 & H3 & H4). apply IH; [lia..|].
  apply Forall_app. split; [done|]. apply Forall_singleton. split; [done|lia].
Qed.

Lemma decode_all_returns data : returns (decode_all data).
Proof.
  eapply yields_returns, decode_all_loop_total; [zlia|unfold zlen; lia|constructor].
Qed.

(** [decode_all] on arbitrary bytes terminates and touches only the span; every value it
    returns can be sent on by [encode], and a malformed tail makes it fail. *)
Lemma decode_all_total data :
  match decode_all data with
  | Ok vs => Forall (fun v => encodable v = true /\ nesting v <= kMaxNestingDepth) vs
  | Err e => is_malformed_amf e
  | Fault | OutOfFuel => False
  end.
Proof.
  pose proof (decode_all_loop_total data (S (length data)) 0 []) as H.
  unfold decode_all. apply H; [zlia|unfold zlen; lia|done].
Qed.
