(* ===== verification/Amf0RoundTrip.v ===== *)
(** AMF0 round trip: what [amf0_encoder.cpp] writes, [amf0_decoder.cpp] reads
    back, value by value and message by message. *)

From S2P Require Import Prelude Bytes Amf0.

(** * Each field at the cursor *)

Lemma zlen_append_f64_be bits : zlen (append_f64_be bits) = 8.
Proof. done. Qed.
Lemma zlen_append_marker m : zlen (append_marker m) = 1.
Proof. done. Qed.
Lemma zlen_properties_terminator : zlen properties_terminator = 3.
Proof. done. Qed.
#[export] Hint Rewrite zlen_append_f64_be zlen_append_marker zlen_properties_terminator : bytes.

Lemma u8_at_marker data off m l :
  0 <= m < 256 -> at_suffix data off (append_marker m ++ l) -> u8_at data off = Ok m.
Proof.
  intros Hm Hs. rewrite (u8_at_suffix data off (z2b m) l) by done.
  by rewrite b2z_z2b, Z.mod_small by lia.
Qed.

Lemma require_suffix data off l n :
  at_suffix data off l -> n <= zlen l -> require data off n = Ok tt.
Proof.
  intros Hs Hn. apply at_suffix_zlen in Hs. unfold require.
  destruct (Z.ltb_spec (zlen data) (off + n)); [lia|done].
Qed.

(** Eight shifts put a 64-bit word back together. *)
Lemma be64_arith bits :
  0 <= bits < 2 ^ 64 ->
  fold_left (fun acc n => acc * 2 ^ 8 + (bits / 2 ^ n) mod 256) [56; 48; 40; 32; 24; 16; 8; 0] 0
  = bits.
Proof. intros. cbn [fold_left]. Z.div_mod_to_equations. lia. Qed.

Lemma read_f64_suffix data off bits l :
  0 <= bits < 2 ^ 64 ->
  at_suffix data off (append_f64_be bits ++ l) -> read_f64_be_at data off = Ok bits.
Proof.
  intros Hbits Hs.
  assert (Hstep : forall n i acc l, 0 <= n <= 56 -> 0 <= acc < 2 ^ 56 ->
    at_suffix data (off + i) (z2b (Z.land (Z.shiftr bits n) 0xFF) :: l) ->
    (bits <- Ok acc ;; b <- u8_at data (off + i) ;; Ok (Z.lor (u64 (Z.shiftl bits 8)) b))
    = Ok (acc * 2 ^ 8 + (bits / 2 ^ n) mod 256)).
  { intros n i acc l' Hn Hacc Hi. rewrite (u8_at_suffix _ _ _ _ Hi), !bind_Ok.
    rewrite byte_field by lia. rewrite f64_step; [done|lia|]. apply Z.mod_pos_bound. lia. }
  unfold read_f64_be_at. rewrite <- (be64_arith bits Hbits) at 1.
  pose proof (at_suffix_nonneg _ _ _ Hs) as Ho.
  change (append_f64_be bits ++ l) with
    (map (fun n => z2b (Z.land (Z.shiftr bits n) 0xFF)) [56; 48; 40; 32; 24; 16; 8; 0] ++ l) in Hs.
  cbn [map app fold_left] in *.
  rewrite <- (Z.add_0_r off) in Hs.
  do 8 (erewrite Hstep; [apply at_suffix_cons in Hs; rewrite <- Z.add_assoc in Hs;
      cbn [Z.add Pos.add Pos.succ] in Hs | | | exact Hs];
    [|lia|Z.div_mod_to_equations; lia]).
  done.
Qed.

Lemma read_string_suffix data off str l :
  at_suffix data off (string_bytes str ++ l) ->
  read_bytes_as_string data off (string_size str) = Ok str.
Proof.
  intros Hs. unfold read_bytes_as_string, string_size.
  rewrite (subspan_suffix _ _ _ _ Hs), bind_Ok. unfold string_bytes.
  by rewrite Stdlib.Strings.String.string_of_list_byte_of_string.
Qed.

(** * One value *)

Lemma encode_nonempty v : 1 <= zlen (encode v).
Proof.
  destruct v; try rewrite encode_Object; try rewrite encode_EcmaArray;
    try rewrite encode_StrictArray; cbn [encode]; zlia.
Qed.

Definition reads_back (v : Amf0Value) : Prop := forall fuel data offset depth l,
  at_suffix data offset (encode v ++ l) -> 0 <= depth ->
  depth + nesting v <= kMaxNestingDepth -> encodable v = true ->
  fuel_covers data fuel offset 1 ->
  decode_value fuel data offset depth = Ok (mkAmf0Decoded v (zlen (encode v))).

(** Enter [decode_value] on a marker: depth, room and marker are as expected. *)
Lemma decode_value_enter data offset depth m body l :
  at_suffix data offset ((append_marker m ++ body) ++ l) -> 0 <= m < 256 ->
  depth <= kMaxNestingDepth ->
  kMaxNestingDepth <? depth = false /\ require data offset 1 = Ok tt /\
  u8_at data offset = Ok m /\ at_suffix data (offset + 1) (body ++ l).
Proof.
  rewrite <- (assoc_L (++)). intros Hs Hm Hd. split; [by apply Z.ltb_ge|].
  split; [eapply require_suffix; [done|]; zlia|]. split; [by eapply u8_at_marker|].
  by apply (at_suffix_app _ _ (append_marker m)).
Qed.

Section lists.
Variables (data : list byte) (depth : Z).
Hypothesis Hdepth : 0 <= depth.

Lemma items_read_back items : Forall reads_back items -> forall fuel cursor acc l,
  at_suffix data cursor (encode_items items ++ l) ->
  Forall (fun v => depth + nesting v <= kMaxNestingDepth) items ->
  forallb encodable items = true ->
  fuel_covers data fuel cursor 2 ->
  decode_items fuel data cursor (zlen items) depth acc
  = Ok (acc ++ items, cursor + zlen (encode_items items)).
Proof.
  induction 1 as [|v items Hv _ IH]; intros fuel cursor acc l Hs Hn He [Hc Hf];
    (destruct fuel as [|fuel]; [lia|]); cbn [decode_items encode_items] in *.
  - rewrite zlen_nil, app_nil_r, Z.add_0_r. done.
  - rewrite zlen_cons, (proj2 (Z.leb_gt _ 0)) by zlia.
    rewrite <- (assoc_L (++)) in Hs. apply Forall_cons_1 in Hn as [Hnv Hn].
    cbn [forallb] in He. apply andb_prop in He as [Hev He].
    pose proof (encode_nonempty v) as Hlen. pose proof (at_suffix_zlen _ _ _ Hs) as Hd.
    rewrite (Hv fuel data cursor depth (encode_items items ++ l)) by
      (first [done | split; zlia]). rewrite bind_Ok. cbn [value bytes_consumed].
    replace (1 + zlen items - 1) with (zlen items) by lia.
    rewrite (IH fuel _ _ l); [|by apply at_suffix_app|done|done|split; zlia].
    by rewrite <- (assoc_L (++)), zlen_app, Z.add_assoc.
Qed.

Lemma properties_read_back ps : Forall (fun nv => reads_back (snd nv)) ps ->
  forall fuel cursor acc l,
  at_suffix data cursor (append_properties ps ++ l) ->
  Forall (fun nv => depth + nesting (snd nv) <= kMaxNestingDepth) ps ->
  forallb (fun '(n, v) => (1 <=? string_size n) && (string_size n <=? 0xFFFF) && encodable v) ps
    = true ->
  zlen acc + zlen ps < kMaxProperties ->
  fuel_covers data fuel cursor 2 ->
  properties_loop fuel data cursor depth (zlen acc) acc
  = Ok (acc ++ ps, cursor + zlen (append_properties ps)).
Proof.
  induction 1 as [|[name v] ps Hv _ IH]; intros fuel cursor acc l Hs Hn He Hmax [Hc Hf];
    (destruct fuel as [|fuel]; [lia|]); cbn [properties_loop append_properties] in *;
    rewrite (proj2 (Z.leb_gt kMaxProperties _)) by zlia.
  - unfold properties_terminator in Hs. rewrite <- (assoc_L (++)) in Hs.
    rewrite (require_suffix _ _ _ _ Hs), (read_u16_be_at_suffix _ _ _ _ Hs) by zlia.
    rewrite !bind_Ok. change (u16 0 =? 0) with true. cbn iota.
    apply at_suffix_app in Hs. rewrite zlen_write_u16_be in Hs.
    rewrite (require_suffix _ _ _ _ Hs) by zlia.
    assert (Hm : u8_at data (cursor + 2) = Ok Amf0Marker.ObjectEnd)
      by (eapply u8_at_marker; [|exact Hs]; split; [discriminate|reflexivity]).
    rewrite Hm, !bind_Ok. change (Amf0Marker.ObjectEnd =? Amf0Marker.ObjectEnd) with true.
    by rewrite app_nil_r.
  - unfold append_property_name in *. rewrite <- !(assoc_L (++)) in Hs.
    cbn [forallb] in He. rewrite !andb_true_iff, !Z.leb_le in He.
    destruct He as [[[He1 He2] Hev] He]. apply Forall_cons_1 in Hn as [Hnv Hn].
    cbn [fst snd] in *.
    assert (Hsz : u16 (Z.land (string_size name) 0xFFFF) = string_size name).
    { change 0xFFFF with (2 ^ 16 - 1). rewrite land_ones_mod by lia. unfold u16.
      rewrite Zmod_mod. apply Z.mod_small. lia. }
    pose proof (at_suffix_zlen _ _ _ Hs) as Hlen.
    rewrite (require_suffix _ _ _ _ Hs), (read_u16_be_at_suffix _ _ _ _ Hs), Hsz by zlia.
    rewrite !bind_Ok. unfold u16. rewrite Z.mod_small by lia.
    rewrite (proj2 (Z.eqb_neq _ 0)) by lia.
    apply at_suffix_app in Hs. rewrite zlen_write_u16_be in Hs.
    rewrite (require_suffix _ _ _ _ Hs) by (unfold string_size in *; zlia). rewrite bind_Ok.
    rewrite (read_string_suffix _ _ _ _ Hs), bind_Ok.
    apply at_suffix_app in Hs. unfold string_size in *.
    pose proof (encode_nonempty v) as Hne.
    rewrite (Hv fuel data _ depth (append_properties ps ++ l))
      by (first [done | split; zlia]).
    rewrite bind_Ok. cbn [value bytes_consumed].
    replace (zlen acc + 1) with (zlen (acc ++ [(name, v)])) by zlia.
    rewrite (IH fuel _ _ l); [|by apply at_suffix_app|done|done|zlia|split; zlia].
    rewrite <- (assoc_L (++)). do 2 f_equal. zlia.
Qed.
End lists.

Lemma properties_nesting (ps : Amf0PropertyList) d :
  d + fold_right Z.max 0 (map (fun '(_, v) => nesting v) ps) <= kMaxNestingDepth ->
  Forall (fun nv => d + nesting (snd nv) <= kMaxNestingDepth) ps.
Proof.
  induction ps as [|[n v] ps IH]; cbn; constructor; [cbn; lia|]. apply IH. lia.
Qed.

Lemma items_nesting vs d :
  d + fold_right Z.max 0 (map (fun v => 1 + nesting v) vs) <= kMaxNestingDepth ->
  Forall (fun v => d + 1 + nesting v <= kMaxNestingDepth) vs.
Proof.
  induction vs as [|v vs IH]; cbn; constructor; [lia|]. apply IH. lia.
Qed.

Lemma zlen_items_le vs : zlen vs <= zlen (encode_items vs).
Proof.
  induction vs as [|v vs IH]; cbn [encode_items]; [done|].
  pose proof (encode_nonempty v). zlia.
Qed.

Lemma encodable_properties ps :
  (zlen ps <? kMaxProperties) &&
  forallb (fun '(n, v) => (1 <=? string_size n) && (string_size n <=? 0xFFFF) && encodable v) ps
  = true -> zlen ps < kMaxProperties /\
  forallb (fun '(n, v) => (1 <=? string_size n) && (string_size n <=? 0xFFFF) && encodable v) ps
  = true.
Proof. intros [H1 H2]%andb_prop. split; [lia|done]. Qed.

(** A property list, read by [decode_properties] after its container's header. *)
Lemma decode_properties_suffix ps : Forall (fun nv => reads_back (snd nv)) ps ->
  forall fuel data cursor depth l,
  at_suffix data cursor (append_properties ps ++ l) ->
  0 <= depth -> depth + 1 + fold_right Z.max 0 (map (fun '(_, v) => nesting v) ps) <= kMaxNestingDepth ->
  (zlen ps <? kMaxProperties) &&
  forallb (fun '(n, v) => (1 <=? string_size n) && (string_size n <=? 0xFFFF) && encodable v) ps
    = true ->
  fuel_covers data fuel cursor 3 ->
  decode_properties fuel data cursor (depth + 1) = Ok (ps, zlen (append_properties ps)).
Proof.
  intros Hps fuel data cursor depth l Hs Hd Hn He [Hc Hf].
  apply encodable_properties in He as [Hlen He].
  destruct fuel as [|fuel]; [lia|]. cbn [decode_properties].
  assert (0 <= fold_right Z.max 0 (map (fun '(_, v) => nesting v) ps))
    by (clear; induction ps as [|[n v] ps IH]; cbn; lia).
  rewrite (proj2 (Z.ltb_ge kMaxNestingDepth _)) by lia.
  change (properties_loop fuel data cursor (depth + 1) 0 [])
    with (properties_loop fuel data cursor (depth + 1) (zlen (@nil (string * Amf0Value))) []).
  rewrite (properties_read_back data (depth + 1) ltac:(lia) ps Hps fuel cursor [] l); try done.
  - cbn [app rbind]. do 2 f_equal. lia.
  - by apply properties_nesting.
  - split; lia.
Qed.

Lemma nesting_depth depth v : depth + nesting v <= kMaxNestingDepth -> depth <= kMaxNestingDepth.
Proof. pose proof (nesting_nonneg v). lia. Qed.

(** Enter the branch of the marker that was read. *)
Ltac enter_marker Hs Hdepth Hb :=
  destruct (decode_value_enter _ _ _ _ _ _ Hs ltac:(done) Hdepth) as (-> & -> & -> & Hb);
  rewrite !bind_Ok;
  repeat match goal with
  | |- context [?m =? ?n] =>
      first [change (m =? n) with true | change (m =? n) with false]; cbv iota
  end.

Lemma all_read_back v : reads_back v.
Proof.
  induction v as [bits|b|str|ps IH| | |ps IH|items IH|ms tz] using Amf0Value_rect';
    intros fuel data offset depth l Hs Hd Hn He [Hc Hf];
    (destruct fuel as [|fuel]; [lia|]);
    try rewrite encode_Object in *; try rewrite encode_EcmaArray in *;
    try rewrite encode_StrictArray in *; cbn [encode decode_value] in *;
    pose proof (at_suffix_zlen _ _ _ Hs) as Hlen;
    assert (Hdepth : depth <= kMaxNestingDepth) by (eapply nesting_depth; exact Hn).

  - enter_marker Hs Hdepth Hb. rewrite (require_suffix _ _ _ _ Hb), bind_Ok by zlia.
    cbn [encodable] in He. apply andb_prop in He as [He1 He2].
    rewrite (read_f64_suffix _ _ bits _ ltac:(lia) Hb), bind_Ok. do 2 f_equal. zlia.
  - enter_marker Hs Hdepth Hb. rewrite (require_suffix _ _ _ _ Hb), bind_Ok by zlia.
    rewrite (u8_at_marker _ _ (if b then 1 else 0) _ ltac:(by destruct b) Hb), bind_Ok.
    destruct b; do 2 f_equal; zlia.
  - cbn [encodable] in He. unfold append_string_body in *. rewrite Z.ltb_lt in He.
    assert (Hss : string_size str = zlen (string_bytes str)) by done.
    destruct (Z.leb_spec (string_size str) 0xFFFF) as [Hsz|Hsz];
      enter_marker Hs Hdepth Hb; rewrite <- (assoc_L (++)) in Hb;
      rewrite (require_suffix _ _ _ _ Hb), bind_Ok by zlia;
      [rewrite (read_u16_be_at_suffix _ _ _ _ Hb)|rewrite (read_u32_be_at_suffix _ _ _ _ Hb)];
      rewrite bind_Ok; unfold u16, u32; rewrite Zmod_mod, Z.mod_small by zlia;
      apply at_suffix_app in Hb; rewrite ?zlen_write_u16_be, ?zlen_write_u32_be in Hb;
      rewrite (require_suffix _ _ _ _ Hb), bind_Ok by zlia;
      rewrite (read_string_suffix _ _ _ _ Hb), bind_Ok; do 2 f_equal; zlia.
  - enter_marker Hs Hdepth Hb. cbn [nesting encodable] in Hn, He.
    rewrite (decode_properties_suffix ps IH fuel _ _ depth l) by
      (first [done | lia | split; zlia]).
    rewrite bind_Ok. do 2 f_equal. zlia.
  - enter_marker Hs Hdepth Hb. do 2 f_equal. zlia.
  - enter_marker Hs Hdepth Hb. do 2 f_equal. zlia.
  - enter_marker Hs Hdepth Hb. cbn [nesting encodable] in Hn, He.
    rewrite <- (assoc_L (++)) in Hb. rewrite (require_suffix _ _ _ _ Hb), bind_Ok by zlia.
    apply at_suffix_app in Hb. rewrite ?zlen_write_u32_be, ?zlen_append_f64_be in Hb.
    rewrite (decode_properties_suffix ps IH fuel _ _ depth l) by
      (first [done | lia | split; zlia]).
    rewrite bind_Ok. do 2 f_equal. zlia.
  - enter_marker Hs Hdepth Hb. cbn [nesting encodable] in Hn, He.
    rewrite <- (assoc_L (++)) in Hb. rewrite (require_suffix _ _ _ _ Hb), bind_Ok by zlia.
    apply andb_prop in He as [He1 He2]. rewrite Z.ltb_lt in He1.
    rewrite (read_u32_be_at_suffix _ _ _ _ Hb), bind_Ok.
    unfold u32. rewrite Zmod_mod, Z.mod_small by zlia.
    apply at_suffix_app in Hb. rewrite ?zlen_write_u32_be, ?zlen_append_f64_be in Hb.
    pose proof (zlen_items_le items) as Hle.
    rewrite (proj2 (Z.ltb_ge _ _)) by (unfold kMinValueBytes; rewrite Z.div_1_r; zlia).
    rewrite (items_read_back data (depth + 1) ltac:(lia) items IH fuel _ [] l) by
      (first [done | by apply items_nesting | split; zlia]).
    rewrite bind_Ok. do 2 f_equal. zlia.
  - enter_marker Hs Hdepth Hb. rewrite <- (assoc_L (++)) in Hb.
    cbn [encodable] in He. rewrite !andb_true_iff, !Z.leb_le, !Z.ltb_lt in He.
    rewrite (require_suffix _ _ _ _ Hb), bind_Ok by zlia.
    rewrite (read_f64_suffix _ _ ms _ ltac:(lia) Hb), bind_Ok.
    apply at_suffix_app in Hb. rewrite ?zlen_write_u32_be, ?zlen_append_f64_be in Hb.
    rewrite (read_u16_be_at_suffix _ _ _ _ Hb), bind_Ok.
    assert (Htz : u16 (u16 tz) = u16 tz) by apply Zmod_mod.
    rewrite Htz, i16_u16 by lia. do 2 f_equal. zlia.
Qed.

(** * Whole messages *)

(** What the wire can carry: field widths and nesting depth. *)
Definition well_formed (v : Amf0Value) : Prop :=
  encodable v = true /\ nesting v <= kMaxNestingDepth.

Lemma decode_value_suffix data offset v l :
  well_formed v -> at_suffix data offset (encode v ++ l) ->
  decode_value (decode_fuel data) data offset 0 = Ok (mkAmf0Decoded v (zlen (encode v))).
Proof.
  intros [He Hn] Hs. eapply all_read_back; [exact Hs|lia|lia|done|].
  apply at_suffix_zlen in Hs as Hl. split; [destruct Hs; zlia|].
  apply at_suffix_nonneg in Hs. unfold decode_fuel, zlen in *. lia.
Qed.

Lemma decode_all_loop_suffix data vs : Forall well_formed vs -> forall fuel offset acc,
  at_suffix data offset (encode_items vs) -> Z.of_nat fuel > zlen data - offset ->
  decode_all_loop fuel data offset acc = Ok (acc ++ vs).
Proof.
  induction 1 as [|v vs Hv _ IH]; intros fuel offset acc Hs Hf;
    pose proof (at_suffix_zlen _ _ _ Hs) as Hl; cbn [encode_items] in *;
    (destruct fuel as [|fuel]; [zlia|]); cbn [decode_all_loop].
  - rewrite (proj2 (Z.ltb_ge _ _)) by zlia. by rewrite app_nil_r.
  - pose proof (encode_nonempty v). rewrite (proj2 (Z.ltb_lt _ _)) by zlia.
    rewrite (decode_value_suffix data offset v (encode_items vs)) by done.
    rewrite bind_Ok. cbn [bytes_consumed value].
    rewrite IH; [|by apply at_suffix_app|zlia]. by rewrite <- (assoc_L (++)).
Qed.

(** C28. AMF0 round trip: every value the wire can carry, nested at most
    [kMaxNestingDepth] deep, is read back by [decode] exactly as it was given to
    [encode], bit for bit in its doubles, whatever bytes follow it; and [decode]
    reports having consumed exactly the bytes [encode] wrote. *)
Theorem amf0_encode_decode v rest :
  well_formed v -> decode (encode v ++ rest) = Ok (mkAmf0Decoded v (zlen (encode v))).
Proof.
  intros Hw. eapply decode_value_suffix; [done|]. apply at_suffix_0.
Qed.

Definition sample_command : list Amf0Value :=
  [String "connect"; Number 0x3FF0000000000000;
   Object [("app", String "live"); ("tcUrl", String "rtmp://h/live");
           ("caps", EcmaArray [("fpad", Boolean false); ("when", Date 0 (-60))])];
   StrictArray [Null; Undefined; StrictArray []]].

Lemma amf0_encode_decode_witness :
  decode (encode (StrictArray sample_command) ++ [x00])
  = Ok (mkAmf0Decoded (StrictArray sample_command)
          (zlen (encode (StrictArray sample_command)))).
Proof. apply amf0_encode_decode. split; [reflexivity|vm_compute; discriminate]. Defined.

(** A command message is a sequence of values: [decode_all] on the
    concatenated encodings of well-formed values gives back those values, in order
    and with none lost, duplicated or merged. *)
Theorem amf0_decode_all_encoded vs :
  Forall well_formed vs -> decode_all (encode_items vs) = Ok vs.
Proof.
  intros Hvs. unfold decode_all. rewrite (decode_all_loop_suffix _ vs Hvs); [done| |].
  - apply at_suffix_0.
  - unfold zlen. lia.
Qed.

Lemma amf0_decode_all_encoded_witness :
  decode_all (encode_items sample_command) = Ok sample_command.
Proof.
  apply amf0_decode_all_encoded.
  repeat (constructor; [split; [reflexivity|vm_compute; discriminate]|]). constructor.
Defined.

(** Canonical form: whatever bytes [decode] accepts, re-encoding the value it
    produced and decoding that again gives the same value; so the two sides agree on
    every value that can reach the server, not only on the ones it builds itself. *)
Theorem amf0_decode_encode_decode data r rest :
  decode data = Ok r ->
  decode (encode (value r) ++ rest) = Ok (mkAmf0Decoded (value r) (zlen (encode (value r)))).
Proof.
  intros Hr. pose proof (decode_value_total data 0 ltac:(zlia)) as Ht.
  unfold decode in Hr. rewrite Hr in Ht. destruct Ht as (_ & _ & He & Hn).
  eapply decode_value_suffix; [split; [exact He|lia]|apply at_suffix_0].
Qed.

(** A message whose array holds a duplicated name and a 1-byte string sent as a long one. *)
Definition odd_message : list byte :=
  [x08; x00; x00; x00; x63; x00; x01; x61; x05; x00; x01; x61;
   x0c; x00; x00; x00; x01; x7a; x00; x00; x09; xff].

Lemma amf0_decode_encode_decode_witness :
  decode (encode (EcmaArray [("a", Null); ("a", String "z")]) ++ [])
  = Ok (mkAmf0Decoded (EcmaArray [("a", Null); ("a", String "z")]) 19).
Proof.
  apply (amf0_decode_encode_decode odd_message
    (mkAmf0Decoded (EcmaArray [("a", Null); ("a", String "z")]) 21) []).
  vm_compute. reflexivity.
Defined.
