(* ===== verification/Chunk.v ===== *)
(** The RTMP chunk layer's shared vocabulary: protocol/chunk/chunk_types.hpp, and
    the field helpers at the top of chunk_decoder.cpp and chunk_encoder.cpp. *)

From S2P Require Import Prelude Bytes.

Definition kDefaultChunkSize : Z := 128.
Definition kExtendedTimestampMarker : Z := 0x00FFFFFF.
Definition kMinChunkStreamId : Z := 2.
Definition kProtocolControlChunkStreamId : Z := 2.
Definition kProtocolControlMessageStreamId : Z := 0.

Module MessageTypeId.
Definition SetChunkSize : Z := 1.
Definition AbortMessage : Z := 2.
Definition Acknowledgement : Z := 3.
Definition UserControlMessage : Z := 4.
Definition WindowAcknowledgementSize : Z := 5.
Definition SetPeerBandwidth : Z := 6.
Definition Audio : Z := 8.
Definition Video : Z := 9.
Definition Amf3Data : Z := 15.
Definition Amf3SharedObject : Z := 16.
Definition Amf3Command : Z := 17.
Definition Amf0Data : Z := 18.
Definition Amf0SharedObject : Z := 19.
Definition Amf0Command : Z := 20.
Definition Aggregate : Z := 22.
End MessageTypeId.

Module PeerBandwidthLimitType.
Inductive t := Hard | Soft | Dynamic.
Definition code (l : t) : Z := match l with Hard => 0 | Soft => 1 | Dynamic => 2 end.
End PeerBandwidthLimitType.

Record RtmpMessage := mkRtmpMessage {
  chunk_stream_id : Z;
  message_stream_id : Z;
  message_type_id : Z;
  timestamp : Z;
  payload : list byte
}.

(** [read_u32_le_at] (chunk_decoder.cpp) and [append_u32_le] (chunk_encoder.cpp):
    the message stream id is the protocol's one little-endian field. *)
Definition read_u32_le_at (buf : list byte) (offset : Z) : Res Z :=
  b0 <- u8_at buf offset ;;
  b1 <- u8_at buf (offset + 1) ;;
  b2 <- u8_at buf (offset + 2) ;;
  b3 <- u8_at buf (offset + 3) ;;
  Ok (Z.lor (Z.lor (Z.lor b0 (u32 (Z.shiftl b1 8))) (u32 (Z.shiftl b2 16)))
        (u32 (Z.shiftl b3 24))).

Definition append_u32_le (value : Z) : list byte :=
  [z2b (Z.land value 0xFF); z2b (Z.land (Z.shiftr value 8) 0xFF);
   z2b (Z.land (Z.shiftr value 16) 0xFF); z2b (Z.land (Z.shiftr value 24) 0xFF)].

(** * Little-endian fields *)

Lemma le32_arith a b c d :
  0 <= a < 256 -> 0 <= b < 256 -> 0 <= c < 256 -> 0 <= d < 256 ->
  Z.lor (Z.lor (Z.lor a (u32 (Z.shiftl b 8))) (u32 (Z.shiftl c 16))) (u32 (Z.shiftl d 24))
  = d * 2 ^ 24 + c * 2 ^ 16 + b * 2 ^ 8 + a.
Proof.
  intros. rewrite !u32_shiftl by lia.
  rewrite (Z.lor_comm a), lor_mult_add by lia.
  rewrite (Z.lor_comm _ (c * _)), lor_mult_add by lia.
  rewrite (Z.lor_comm _ (d * _)), lor_mult_add by lia. lia.
Qed.

Lemma zlen_append_u32_le v : zlen (append_u32_le v) = 4.
Proof. done. Qed.
#[export] Hint Rewrite zlen_append_u32_le : bytes.

Lemma read_u32_le_at_ok buf off :
  0 <= off -> off + 4 <= zlen buf ->
  exists v, read_u32_le_at buf off = Ok v /\ 0 <= v < 2 ^ 32.
Proof.
  intros. unfold read_u32_le_at.
  destruct (u8_at_Ok buf off) as (a & -> & Ha); [lia|].
  destruct (u8_at_Ok buf (off + 1)) as (b & -> & Hb); [lia|].
  destruct (u8_at_Ok buf (off + 2)) as (c & -> & Hc); [lia|].
  destruct (u8_at_Ok buf (off + 3)) as (d & -> & Hd); [lia|].
  rewrite !bind_Ok, le32_arith by done. eexists; split; [done|]. lia.
Qed.

Lemma read_u32_le_at_suffix data off v l :
  at_suffix data off (append_u32_le v ++ l) -> read_u32_le_at data off = Ok (u32 v).
Proof.
  intros Hs. unfold read_u32_le_at. cbn [append_u32_le app] in Hs.
  rewrite (u8_at_suffix _ _ _ _ Hs). apply at_suffix_cons in Hs.
  rewrite (u8_at_suffix _ _ _ _ Hs). apply at_suffix_cons in Hs.
  rewrite <- Z.add_assoc in Hs. change (1 + 1) with 2 in Hs.
  rewrite (u8_at_suffix _ _ _ _ Hs). apply at_suffix_cons in Hs.
  rewrite <- Z.add_assoc in Hs. change (2 + 1) with 3 in Hs.
  rewrite (u8_at_suffix _ _ _ _ Hs). rewrite !bind_Ok, byte_field_0, !byte_field by lia.
  rewrite le32_arith by (apply Z.mod_pos_bound; lia).
  f_equal. unfold u32. Z.div_mod_to_equations. lia.
Qed.

(** * Reads are stable when the buffer grows *)

Lemma u8_at_app data more i v : u8_at data i = Ok v -> u8_at (data ++ more) i = Ok v.
Proof. unfold u8_at. intros H. res_inv H. by rewrite (byte_at_app _ _ _ _ Ha). Qed.

Lemma subspan_app data more off n s :
  subspan data off n = Ok s -> subspan (data ++ more) off n = Ok s.
Proof.
  unfold subspan. destruct (_ && _) eqn:E; [|done]. intros [= <-].
  rewrite !andb_true_iff, !Z.leb_le in E. pose proof (zlen_nonneg more).
  rewrite !(proj2 (Z.leb_le _ _)) by zlia. cbn [andb]. f_equal. unfold zlen in *.
  rewrite drop_app_le by lia. rewrite take_app_le; [done|]. rewrite length_drop. lia.
Qed.

Lemma read_u16_be_at_app data more off v :
  read_u16_be_at data off = Ok v -> read_u16_be_at (data ++ more) off = Ok v.
Proof.
  unfold read_u16_be_at. intros (s & Hs & H)%bind_Ok_inv. by rewrite (subspan_app _ _ _ _ _ Hs).
Qed.
Lemma read_u24_be_at_app data more off v :
  read_u24_be_at data off = Ok v -> read_u24_be_at (data ++ more) off = Ok v.
Proof.
  unfold read_u24_be_at. intros (s & Hs & H)%bind_Ok_inv. by rewrite (subspan_app _ _ _ _ _ Hs).
Qed.
Lemma read_u32_be_at_app data more off v :
  read_u32_be_at data off = Ok v -> read_u32_be_at (data ++ more) off = Ok v.
Proof.
  unfold read_u32_be_at. intros (s & Hs & H)%bind_Ok_inv. by rewrite (subspan_app _ _ _ _ _ Hs).
Qed.
Lemma read_u32_le_at_app data more off v :
  read_u32_le_at data off = Ok v -> read_u32_le_at (data ++ more) off = Ok v.
Proof.
  unfold read_u32_le_at.
  intros (b0 & H0 & (b1 & H1 & (b2 & H2 & (b3 & H3 & H)%bind_Ok_inv)%bind_Ok_inv)%bind_Ok_inv)%bind_Ok_inv.
  by rewrite (u8_at_app _ _ _ _ H0), (u8_at_app _ _ _ _ H1), (u8_at_app _ _ _ _ H2),
    (u8_at_app _ _ _ _ H3).
Qed.

Lemma subspan_from_app data more off s :
  subspan_from data off = Ok s -> subspan_from (data ++ more) off = Ok (s ++ more).
Proof.
  unfold subspan_from. destruct (_ && _) eqn:E; [|done]. intros [= <-].
  rewrite !andb_true_iff, !Z.leb_le in E. pose proof (zlen_nonneg more).
  rewrite !(proj2 (Z.leb_le _ _)) by zlia. cbn [andb]. f_equal. unfold zlen in *.
  apply drop_app_le. lia.
Qed.

Lemma ltb_app_false (data more : list byte) n :
  (zlen data <? n) = false -> (zlen (data ++ more) <? n) = false.
Proof. rewrite !Z.ltb_ge. pose proof (zlen_nonneg more). zlia. Qed.

(** [stable H]: a run of reads [H] on a buffer goes the same way on a longer one. *)
Ltac stable :=
  match goal with
  | H : rbind ?m _ = Ok _ |- _ =>
      let v := fresh "v" in let Hv := fresh "Hv" in
      apply bind_Ok_inv in H as (v & Hv & H)
  | H : (if zlen ?b <? ?n then _ else _) = Ok _ |- _ =>
      let E := fresh "E" in
      destruct (zlen b <? n) eqn:E; [try discriminate H|rewrite (ltb_app_false _ _ _ E)]
  | H : u8_at ?b ?i = Ok ?v |- context [u8_at (?b ++ ?x) ?i] => rewrite (u8_at_app b x i v H), bind_Ok
  | H : read_u16_be_at ?b ?i = Ok ?v |- context [read_u16_be_at (?b ++ ?x) ?i] =>
      rewrite (read_u16_be_at_app b x i v H), bind_Ok
  | H : read_u24_be_at ?b ?i = Ok ?v |- context [read_u24_be_at (?b ++ ?x) ?i] =>
      rewrite (read_u24_be_at_app b x i v H), bind_Ok
  | H : read_u32_be_at ?b ?i = Ok ?v |- context [read_u32_be_at (?b ++ ?x) ?i] =>
      rewrite (read_u32_be_at_app b x i v H), bind_Ok
  | H : read_u32_le_at ?b ?i = Ok ?v |- context [read_u32_le_at (?b ++ ?x) ?i] =>
      rewrite (read_u32_le_at_app b x i v H), bind_Ok
  end.
