(* ===== verification/ChunkDecoder.v ===== *)
(** The RTMP chunk demultiplexer: protocol/chunk/chunk_decoder.hpp and
    chunk_decoder.cpp.

    The decoder is a record; every member function that changes it returns the new
    record and the handler calls it made, in order ([Event]).  [decode_one] is
    split where the source splits it: [parse_chunk] resolves the chunk's header
    fields against the stored ones and decides whether the whole chunk is in the
    buffer, and [commit] consumes it. *)

From S2P Require Import Prelude Bytes Chunk.

(** [ChunkDecoderLimits] and its defaults. *)
Record ChunkDecoderLimits := mkLimits {
  max_chunk_streams : Z;
  max_buffered_payload_bytes : Z;
  max_chunk_size : Z;
  initial_payload_reserve : Z
}.
Definition default_limits : ChunkDecoderLimits :=
  mkLimits 64 (2 * 10 * 1024 * 1024) 0xFFFFFF (64 * 1024).

Record ChunkStreamState := mkState {
  has_header : bool;
  base_timestamp : Z;
  timestamp_delta : Z;
  message_length : Z;
  state_type_id : Z;
  state_stream_id : Z;
  extended_timestamp : bool;
  partial_payload : list byte;
  bytes_remaining : Z;
  message_timestamp : Z
}.
Definition default_state : ChunkStreamState := mkState false 0 0 0 0 0 false [] 0 0.

Inductive DecodeResult := Consumed | InsufficientData | Failed.

(** Calls of [message_handler_] and [error_handler_]. *)
Inductive Event := MessageEvent (m : RtmpMessage) | ErrorEvent (e : Error).

Record ChunkDecoder := mkDecoder {
  buffer_ : list byte;
  streams_ : gmap Z ChunkStreamState;
  limits_ : ChunkDecoderLimits;
  input_chunk_size_ : Z;
  max_message_size_ : Z;
  buffered_payload_bytes_ : Z;
  bytes_received_ : Z;
  window_ack_size_ : Z;
  bytes_at_last_ack_ : Z;
  failed_ : bool
}.

Definition make_decoder (max_message_size : Z) (limits : ChunkDecoderLimits) : ChunkDecoder :=
  mkDecoder [] ∅ limits kDefaultChunkSize max_message_size 0 0 0 0 false.

(** Assignments to one member. *)
Definition set_buffer (d : ChunkDecoder) (b : list byte) : ChunkDecoder :=
  mkDecoder b (streams_ d) (limits_ d) (input_chunk_size_ d) (max_message_size_ d)
    (buffered_payload_bytes_ d) (bytes_received_ d) (window_ack_size_ d)
    (bytes_at_last_ack_ d) (failed_ d).
Definition set_stream (d : ChunkDecoder) (csid : Z) (s : ChunkStreamState) : ChunkDecoder :=
  mkDecoder (buffer_ d) (<[csid := s]> (streams_ d)) (limits_ d) (input_chunk_size_ d)
    (max_message_size_ d) (buffered_payload_bytes_ d) (bytes_received_ d) (window_ack_size_ d)
    (bytes_at_last_ack_ d) (failed_ d).
Definition set_buffered (d : ChunkDecoder) (n : Z) : ChunkDecoder :=
  mkDecoder (buffer_ d) (streams_ d) (limits_ d) (input_chunk_size_ d) (max_message_size_ d)
    n (bytes_received_ d) (window_ack_size_ d) (bytes_at_last_ack_ d) (failed_ d).
Definition set_input_chunk_size (d : ChunkDecoder) (n : Z) : ChunkDecoder :=
  mkDecoder (buffer_ d) (streams_ d) (limits_ d) n (max_message_size_ d)
    (buffered_payload_bytes_ d) (bytes_received_ d) (window_ack_size_ d)
    (bytes_at_last_ack_ d) (failed_ d).
Definition set_window_ack_size (d : ChunkDecoder) (n : Z) : ChunkDecoder :=
  mkDecoder (buffer_ d) (streams_ d) (limits_ d) (input_chunk_size_ d) (max_message_size_ d)
    (buffered_payload_bytes_ d) (bytes_received_ d) n (bytes_at_last_ack_ d) (failed_ d).
Definition set_bytes_received (d : ChunkDecoder) (n : Z) : ChunkDecoder :=
  mkDecoder (buffer_ d) (streams_ d) (limits_ d) (input_chunk_size_ d) (max_message_size_ d)
    (buffered_payload_bytes_ d) n (window_ack_size_ d) (bytes_at_last_ack_ d) (failed_ d).

(** [partial_payload] and [bytes_remaining] of a stream reassigned. *)
Definition set_partial (s : ChunkStreamState) (p : list byte) (remaining : Z) : ChunkStreamState :=
  mkState (has_header s) (base_timestamp s) (timestamp_delta s) (message_length s)
    (state_type_id s) (state_stream_id s) (extended_timestamp s) p remaining
    (message_timestamp s).

(** [fail]: latches [failed_], drops everything held, calls the error handler. *)
Definition fail (d : ChunkDecoder) (code : ErrorCode.t) (message : string)
    : ChunkDecoder * list Event :=
  if failed_ d then (d, []) else
  (mkDecoder [] ∅ (limits_ d) (input_chunk_size_ d) (max_message_size_ d) 0
     (bytes_received_ d) (window_ack_size_ d) (bytes_at_last_ack_ d) true,
   [ErrorEvent (mkError code ErrorCategory.Protocol message)]).

Definition acknowledgement_due (d : ChunkDecoder) : bool :=
  if window_ack_size_ d =? 0 then false
  else window_ack_size_ d <=? u64 (bytes_received_ d - bytes_at_last_ack_ d).

Definition mark_acknowledged (d : ChunkDecoder) : ChunkDecoder :=
  mkDecoder (buffer_ d) (streams_ d) (limits_ d) (input_chunk_size_ d) (max_message_size_ d)
    (buffered_payload_bytes_ d) (bytes_received_ d) (window_ack_size_ d)
    (bytes_received_ d) (failed_ d).

Definition handle_protocol_control (d : ChunkDecoder) (message : RtmpMessage)
    : Res (bool * ChunkDecoder * list Event) :=
  if negb (message_stream_id message =? kProtocolControlMessageStreamId)
  then Ok (false, d, []) else
  if message_type_id message =? MessageTypeId.SetChunkSize then
    if zlen (payload message) <? 4 then
      let '(d, ev) := fail d ErrorCode.MalformedChunk "Set Chunk Size payload must be 4 bytes" in
      Ok (true, d, ev)
    else
    word <- read_u32_be_at (payload message) 0 ;;
    let value := Z.land word 0x7FFFFFFF in
    if value =? 0 then
      let '(d, ev) := fail d ErrorCode.MalformedChunk "Set Chunk Size must not be zero" in
      Ok (true, d, ev)
    else if max_chunk_size (limits_ d) <? value then
      let '(d, ev) := fail d ErrorCode.MalformedChunk
        "Set Chunk Size exceeds the maximum supported chunk size" in
      Ok (true, d, ev)
    else Ok (true, set_input_chunk_size d value, [])
  else if message_type_id message =? MessageTypeId.AbortMessage then
    if zlen (payload message) <? 4 then
      let '(d, ev) := fail d ErrorCode.MalformedChunk "Abort Message payload must be 4 bytes" in
      Ok (true, d, ev)
    else
    target_csid <- read_u32_be_at (payload message) 0 ;;
    match streams_ d !! target_csid with
    | Some it =>
        let d := set_buffered d
          (u64 (buffered_payload_bytes_ d - zlen (partial_payload it))) in
        Ok (true, set_stream d target_csid (set_partial it [] 0), [])
    | None => Ok (true, d, [])
    end
  else if message_type_id message =? MessageTypeId.WindowAcknowledgementSize then
    if zlen (payload message) <? 4 then
      let '(d, ev) := fail d ErrorCode.MalformedChunk
        "Window Acknowledgement Size payload must be 4 bytes" in
      Ok (true, d, ev)
    else
    word <- read_u32_be_at (payload message) 0 ;;
    Ok (false, set_window_ack_size d word, [])
  else Ok (false, d, []).

Definition handle_complete_message (d : ChunkDecoder) (csid : Z) (state : ChunkStreamState)
    : Res (ChunkDecoder * list Event) :=
  let message := mkRtmpMessage csid (state_stream_id state) (state_type_id state)
    (message_timestamp state) (partial_payload state) in
  let d := set_buffered d
    (u64 (buffered_payload_bytes_ d - zlen (partial_payload state))) in
  let d := set_stream d csid (set_partial state [] (bytes_remaining state)) in
  '(handled, d, ev) <- handle_protocol_control d message ;;
  if (handled : bool) then Ok (d, ev) else Ok (d, ev ++ [MessageEvent message]).

(** The fields [decode_one] resolves before it commits to a chunk. *)
Record Header := mkHeader {
  starting_new_message : bool;
  effective_length : Z;
  effective_type_id : Z;
  effective_stream_id : Z;
  effective_timestamp : Z;
  effective_delta : Z;
  needs_extended : bool;
  total_header_len : Z;
  payload_slice : Z
}.

Inductive ParseResult :=
| NeedMore
| Reject (code : ErrorCode.t) (message : string)
| Accept (h : Header).

(** The basic header: [fmt], the chunk stream id and the header's length, or
    [None] for [InsufficientData]. *)
Definition read_basic_header (buf : list byte) : Res (option (Z * Z * Z)) :=
  if bool_decide (buf = []) then Ok None else
  first <- u8_at buf 0 ;;
  let fmt := Z.land (Z.shiftr first 6) 0x03 in
  let csid_field := Z.land first 0x3F in
  let basic_header_len := if csid_field =? 0 then 2 else if csid_field =? 1 then 3 else 1 in
  if zlen buf <? basic_header_len then Ok None else
  csid <- (if csid_field =? 0 then b1 <- u8_at buf 1 ;; Ok (64 + b1)
           else if csid_field =? 1 then
             b1 <- u8_at buf 1 ;; b2 <- u8_at buf 2 ;; Ok (64 + b1 + b2 * 256)
           else Ok csid_field) ;;
  Ok (Some (fmt, csid, basic_header_len)).

Definition message_header_len (fmt : Z) : Z :=
  if fmt =? 0 then 11 else if fmt =? 1 then 7 else if fmt =? 2 then 3 else 0.

(** The timestamp field, message length, type and stream id of the message
    header, the fields its format lacks inherited from [state]. *)
Definition read_message_header (buf : list byte) (fmt offset : Z) (state : ChunkStreamState)
    : Res (Z * Z * Z * Z) :=
  if fmt =? 0 then
    raw_ts_field <- read_u24_be_at buf offset ;;
    len <- read_u24_be_at buf (offset + 3) ;;
    type_id <- u8_at buf (offset + 6) ;;
    stream_id <- read_u32_le_at buf (offset + 7) ;;
    Ok (raw_ts_field, len, type_id, stream_id)
  else if fmt =? 1 then
    raw_ts_field <- read_u24_be_at buf offset ;;
    len <- read_u24_be_at buf (offset + 3) ;;
    type_id <- u8_at buf (offset + 6) ;;
    Ok (raw_ts_field, len, type_id, state_stream_id state)
  else if fmt =? 2 then
    raw_ts_field <- read_u24_be_at buf offset ;;
    Ok (raw_ts_field, message_length state, state_type_id state, state_stream_id state)
  else Ok (0, message_length state, state_type_id state, state_stream_id state).

(** [decode_one] from the header fields to the decision to commit. *)
Definition resolve_header (buf : list byte) (max_message_size input_chunk_size : Z)
    (state : ChunkStreamState) (fmt basic_header_len : Z) : Res ParseResult :=
  let is_continuation := has_header state && (0 <? bytes_remaining state) in
  if negb (fmt =? 3) && is_continuation then
    Ok (Reject ErrorCode.MalformedChunk
      "non-fmt3 chunk received while a message on this chunk stream ID is still in progress")
  else
  '(raw_ts_field, length, type_id, stream_id) <-
    read_message_header buf fmt basic_header_len state ;;
  let offset := basic_header_len + message_header_len fmt in
  let needs_extended := if fmt =? 3 then extended_timestamp state
                        else raw_ts_field =? kExtendedTimestampMarker in
  let total_header_len := if needs_extended then offset + 4 else offset in
  if zlen buf <? total_header_len then Ok NeedMore else
  extended_value <- (if needs_extended then read_u32_be_at buf offset else Ok 0) ;;
  let starting_new_message := negb is_continuation in
  let '(timestamp, delta) :=
    if starting_new_message then
      if fmt =? 0 then (if needs_extended then extended_value else raw_ts_field, 0)
      else
      let delta := if needs_extended then extended_value
                   else if fmt =? 3 then timestamp_delta state else raw_ts_field in
      (u32 (base_timestamp state + delta), delta)
    else (base_timestamp state, timestamp_delta state) in
  if starting_new_message && (max_message_size <? length) then
    Ok (Reject ErrorCode.MessageTooLarge
      "RTMP message length exceeds the configured maximum")
  else
  let remaining := if starting_new_message then length else bytes_remaining state in
  let slice := Z.min remaining input_chunk_size in
  if zlen buf <? total_header_len + slice then Ok NeedMore else
  Ok (Accept (mkHeader starting_new_message length type_id stream_id timestamp delta
    needs_extended total_header_len slice)).

(** [decode_one] before the commit: the decoder comes back with the chunk
    stream's table entry created when the chunk opened one. *)
Definition parse_chunk (d : ChunkDecoder)
    : Res (ChunkDecoder * Z * ChunkStreamState * ParseResult) :=
  header <- read_basic_header (buffer_ d) ;;
  match header with
  | None => Ok (d, 0, default_state, NeedMore)
  | Some (fmt, csid, basic_header_len) =>
    if zlen (buffer_ d) <? basic_header_len + message_header_len fmt
    then Ok (d, csid, default_state, NeedMore) else
    let it := streams_ d !! csid in
    let is_new_stream := match it with None => true | Some _ => false end in
    if negb (fmt =? 0) && is_new_stream then
      Ok (d, csid, default_state, Reject ErrorCode.MalformedChunk
        "first chunk on a chunk stream ID must use fmt 0")
    else if is_new_stream && (max_chunk_streams (limits_ d) <=? Z.of_nat (size (streams_ d))) then
      Ok (d, csid, default_state, Reject ErrorCode.MalformedChunk
        "too many concurrent RTMP chunk stream IDs on one connection")
    else
    let state := default default_state it in
    let d := set_stream d csid state in
    result <- resolve_header (buffer_ d) (max_message_size_ d) (input_chunk_size_ d)
      state fmt basic_header_len ;;
    Ok (d, csid, state, result)
  end.

(** The header fields stored when a message starts. *)
Definition start_message (h : Header) : ChunkStreamState :=
  mkState true (effective_timestamp h) (effective_delta h) (effective_length h)
    (effective_type_id h) (effective_stream_id h) (needs_extended h)
    [] (effective_length h) (effective_timestamp h).

Definition commit (d : ChunkDecoder) (csid : Z) (state : ChunkStreamState) (h : Header)
    : Res (DecodeResult * ChunkDecoder * list Event) :=
  rest <- subspan_from (buffer_ d) (total_header_len h) ;;
  let d := set_buffer d rest in
  let '(d, state) :=
    if starting_new_message h then
      (set_buffered d (u64 (buffered_payload_bytes_ d - zlen (partial_payload state))),
       start_message h)
    else (d, state) in
  slice <- subspan (buffer_ d) 0 (payload_slice h) ;;
  rest <- subspan_from (buffer_ d) (payload_slice h) ;;
  let d := set_buffer d rest in
  let state := set_partial state (partial_payload state ++ slice)
    (u32 (bytes_remaining state - payload_slice h)) in
  let d := set_buffered d (u64 (buffered_payload_bytes_ d + payload_slice h)) in
  let d := set_stream d csid state in
  if (0 <? payload_slice h) &&
     (max_buffered_payload_bytes (limits_ d) <? buffered_payload_bytes_ d) then
    let '(d, ev) := fail d ErrorCode.MessageTooLarge
      "outstanding RTMP chunk reassembly buffers exceed the per-connection limit" in
    Ok (Failed, d, ev)
  else if bytes_remaining state =? 0 then
    '(d, ev) <- handle_complete_message d csid state ;; Ok (Consumed, d, ev)
  else Ok (Consumed, d, []).

Definition decode_one (d : ChunkDecoder) : Res (DecodeResult * ChunkDecoder * list Event) :=
  '(d, csid, state, result) <- parse_chunk d ;;
  match result with
  | NeedMore => Ok (InsufficientData, d, [])
  | Reject code message => let '(d, ev) := fail d code message in Ok (Failed, d, ev)
  | Accept h => commit d csid state h
  end.

(** The [for (;;)] of [on_bytes_received]. *)
Fixpoint decode_loop (fuel : nat) (d : ChunkDecoder) : Res (ChunkDecoder * list Event) :=
  match fuel with
  | O => OutOfFuel
  | S fuel =>
    '(result, d, ev) <- decode_one d ;;
    match result with
    | Consumed => '(d, more) <- decode_loop fuel d ;; Ok (d, ev ++ more)
    | InsufficientData | Failed => Ok (d, ev)
    end
  end.

(** Every chunk takes at least a byte, so one unit of fuel per buffered byte and
    one for the final [InsufficientData] are enough. *)
Definition loop_fuel (d : ChunkDecoder) : nat := S (length (buffer_ d)).

Definition on_bytes_received (d : ChunkDecoder) (data : list byte)
    : Res (ChunkDecoder * list Event) :=
  if failed_ d || bool_decide (data = []) then Ok (d, []) else
  let d := set_bytes_received d (u64 (bytes_received_ d + zlen data)) in
  let d := set_buffer d (buffer_ d ++ data) in
  decode_loop (loop_fuel d) d.

(** The reads of a connection, one [on_bytes_received] each. *)
Fixpoint receive_all (d : ChunkDecoder) (reads : list (list byte))
    : Res (ChunkDecoder * list Event) :=
  match reads with
  | [] => Ok (d, [])
  | data :: reads =>
    '(d, ev) <- on_bytes_received d data ;;
    '(d, more) <- receive_all d reads ;;
    Ok (d, ev ++ more)
  end.

(** * The invariant of a decoder *)

Definition limits_ok (l : ChunkDecoderLimits) : Prop :=
  0 <= max_chunk_streams l /\ 0 <= max_buffered_payload_bytes l < 2 ^ 63.

(** A chunk stream holds the prefix of a message it has seen: the partial payload
    and what is still to come add up to the declared length. *)
Record state_ok (max_message_size : Z) (s : ChunkStreamState) : Prop := mkStateOk {
  st_remaining : 0 <= bytes_remaining s;
  st_idle : bytes_remaining s = 0 -> partial_payload s = [];
  st_busy : 0 < bytes_remaining s ->
    has_header s = true /\ zlen (partial_payload s) + bytes_remaining s = message_length s /\
    message_length s <= max_message_size;
  st_length : 0 <= message_length s < 2 ^ 24;
  st_type : 0 <= state_type_id s < 2 ^ 8;
  st_stream : 0 <= state_stream_id s < 2 ^ 32;
  st_time : 0 <= base_timestamp s < 2 ^ 32 /\ 0 <= timestamp_delta s < 2 ^ 32 /\
    0 <= message_timestamp s < 2 ^ 32
}.

Definition held (s : ChunkStreamState) : Z := zlen (partial_payload s).

Record inv (d : ChunkDecoder) : Prop := mkInv {
  inv_limits : limits_ok (limits_ d) /\ 0 <= max_message_size_ d < 2 ^ 32;
  inv_states : map_Forall (fun _ s => state_ok (max_message_size_ d) s) (streams_ d);
  inv_size : Z.of_nat (size (streams_ d)) <= max_chunk_streams (limits_ d);
  inv_sum : buffered_payload_bytes_ d = map_sum held (streams_ d);
  inv_bound : buffered_payload_bytes_ d <= max_buffered_payload_bytes (limits_ d);
  inv_chunk : 1 <= input_chunk_size_ d < 2 ^ 31;
  inv_failed : failed_ d = true -> buffer_ d = [] /\ streams_ d = ∅
}.

(** What a delivered message looks like. *)
Record message_ok (max_message_size : Z) (m : RtmpMessage) : Prop := mkMessageOk {
  msg_csid : 2 <= chunk_stream_id m <= 65599;
  msg_stream : 0 <= message_stream_id m < 2 ^ 32;
  msg_type : 0 <= message_type_id m < 2 ^ 8;
  msg_time : 0 <= timestamp m < 2 ^ 32;
  msg_length : zlen (payload m) <= max_message_size
}.

Definition is_protocol_error (e : Error) : Prop := error_category e = ErrorCategory.Protocol.

(** The handler calls between two states: complete messages, then the one error
    if the decoder failed in between; nothing once it has failed. *)
Definition emits (max_message_size : Z) (was becomes : bool) (ev : list Event) : Prop :=
  if was then becomes = true /\ ev = [] else
  exists msgs errs, ev = map MessageEvent msgs ++ map ErrorEvent errs /\
    Forall (message_ok max_message_size) msgs /\
    if becomes then exists e, errs = [e] /\ is_protocol_error e else errs = [].

Notation total := (yields (fun _ => False)).

Lemma make_decoder_inv mms limits :
  0 <= mms < 2 ^ 32 -> limits_ok limits -> inv (make_decoder mms limits).
Proof.
  intros Hm Hl. destruct Hl as [Hl1 Hl2]. constructor; cbn; try done; lia.
Qed.

Lemma default_state_ok mms : state_ok mms default_state.
Proof. constructor; cbn; try done; lia. Qed.

(** ** Header parsing is total *)

Lemma read_basic_header_total buf :
  total (fun r => match r with
    | None => zlen buf < 3
    | Some (fmt, csid, len) => 0 <= fmt <= 3 /\ 2 <= csid <= 65599 /\ 1 <= len <= 3 /\ len <= zlen buf
    end) (read_basic_header buf).
Proof.
  unfold read_basic_header. destruct (bool_decide_reflect (buf = [])) as [->|Hne]; [done|].
  assert (1 <= zlen buf) by (destruct buf; [done|zlia]).
  destruct (u8_at_Ok buf 0) as (first & -> & Hf); [lia|]. rewrite bind_Ok.
  change 0x3F with (2 ^ 6 - 1). change 0x03 with (2 ^ 2 - 1). rewrite !land_ones_mod by lia.
  pose proof (Z.mod_pos_bound first (2 ^ 6) eq_refl) as Hm.
  pose proof (Z.mod_pos_bound (Z.shiftr first 6) (2 ^ 2) eq_refl) as Hfmt.
  set (field := first mod 2 ^ 6) in *.
  destruct (Z.eqb_spec field 0); [|destruct (Z.eqb_spec field 1)];
    match goal with |- context [zlen buf <? ?n] => destruct (Z.ltb_spec (zlen buf) n) end;
    [cbn; lia| |cbn; lia| |cbn; lia|].
  - destruct (u8_at_Ok buf 1) as (b1 & -> & H1); [lia|]. cbn. lia.
  - destruct (u8_at_Ok buf 1) as (b1 & -> & H1); [lia|].
    destruct (u8_at_Ok buf 2) as (b2 & -> & H2); [lia|]. cbn. lia.
  - cbn. lia.
Qed.

Lemma read_message_header_total buf fmt offset mms state :
  0 <= offset -> offset + message_header_len fmt <= zlen buf -> state_ok mms state ->
  total (fun '(raw, len, type_id, stream_id) =>
    0 <= raw < 2 ^ 24 /\ 0 <= len < 2 ^ 24 /\ 0 <= type_id < 2 ^ 8 /\ 0 <= stream_id < 2 ^ 32)
    (read_message_header buf fmt offset state).
Proof.
  unfold message_header_len, read_message_header. intros Ho Hlen [].
  destruct (fmt =? 0); [|destruct (fmt =? 1); [|destruct (fmt =? 2)]].
  - destruct (read_u24_be_at_ok buf offset) as (a & -> & ?); [lia..|].
    destruct (read_u24_be_at_ok buf (offset + 3)) as (b & -> & ?); [lia..|].
    destruct (u8_at_Ok buf (offset + 6)) as (c & -> & ?); [lia..|].
    destruct (read_u32_le_at_ok buf (offset + 7)) as (e & -> & ?); [lia..|]. cbn. lia.
  - destruct (read_u24_be_at_ok buf offset) as (a & -> & ?); [lia..|].
    destruct (read_u24_be_at_ok buf (offset + 3)) as (b & -> & ?); [lia..|].
    destruct (u8_at_Ok buf (offset + 6)) as (c & -> & ?); [lia..|]. cbn. lia.
  - destruct (read_u24_be_at_ok buf offset) as (a & -> & ?); [lia..|]. cbn. lia.
  - cbn. lia.
Qed.

(** What [resolve_header] promises of a chunk it accepts. *)
Record header_ok (buf : list byte) (mms ics : Z) (state : ChunkStreamState) (h : Header)
    : Prop := mkHeaderOk {
  h_starting : starting_new_message h = negb (has_header state && (0 <? bytes_remaining state));
  h_total : 1 <= total_header_len h;
  h_slice : payload_slice h =
    Z.min (if starting_new_message h then effective_length h else bytes_remaining state) ics;
  h_room : total_header_len h + payload_slice h <= zlen buf;
  h_length : 0 <= effective_length h < 2 ^ 24;
  h_limit : starting_new_message h = true -> effective_length h <= mms;
  h_type : 0 <= effective_type_id h < 2 ^ 8;
  h_stream : 0 <= effective_stream_id h < 2 ^ 32;
  h_time : 0 <= effective_timestamp h < 2 ^ 32 /\ 0 <= effective_delta h < 2 ^ 32
}.

(** The most the buffer can hold while a chunk is incomplete: three header bytes,
    eleven, four, and a slice. *)
Definition chunk_room (mms ics : Z) : Z := 18 + Z.min mms ics.

Lemma resolve_header_total buf mms ics state fmt len :
  0 <= fmt <= 3 -> 1 <= len <= 3 -> len + message_header_len fmt <= zlen buf ->
  state_ok mms state -> 1 <= ics -> 0 <= mms ->
  total (fun r => match r with
    | NeedMore => zlen buf < chunk_room mms ics
    | Reject _ _ => True
    | Accept h => header_ok buf mms ics state h
    end) (resolve_header buf mms ics state fmt len).
Proof.
  intros Hfmt Hlen Hbuf Hst Hics Hmms. unfold resolve_header, chunk_room.
  destruct (negb (fmt =? 3) && _) eqn:Hcont; [done|].
  eapply yields_bind; [by eapply read_message_header_total; [lia| |]|].
  intros [[[raw length] type_id] stream_id] (Hraw & Hlength & Htype & Hstream).
  assert (0 <= message_header_len fmt <= 11)
    by (unfold message_header_len; repeat case_match; lia).
  destruct Hst as [Hrem Hidle Hbusy _ _ _ [Ht1 [Ht2 Ht3]]].
  set (ext := if fmt =? 3 then extended_timestamp state else raw =? kExtendedTimestampMarker).
  set (thl := if ext then _ else _).
  assert (Hthl : 1 <= thl <= 18) by (unfold thl; destruct ext; lia).
  destruct (Z.ltb_spec (zlen buf) thl); [cbn; lia|].
  eapply (yields_bind _ (fun v => 0 <= v < 2 ^ 32)).
  { unfold thl in *. destruct ext; [|done].
    destruct (read_u32_be_at_ok buf (len + message_header_len fmt)) as (v & -> & ?); [lia..|].
    done. }
  intros extended Hext. set (cont := has_header state && _) in *.
  assert (Htime : let '(timestamp, delta) := if negb cont then
      if fmt =? 0 then (if ext then extended else raw, 0)
      else let delta := if ext then extended
                        else if fmt =? 3 then timestamp_delta state else raw in
           (u32 (base_timestamp state + delta), delta)
    else (base_timestamp state, timestamp_delta state) in
    0 <= timestamp < 2 ^ 32 /\ 0 <= delta < 2 ^ 32).
  { destruct (negb cont); [|done]. unfold u32.
    pose proof (Z.mod_pos_bound (base_timestamp state + (if ext then extended
                        else if fmt =? 3 then timestamp_delta state else raw)) (2 ^ 32) eq_refl).
    destruct (fmt =? 0), ext, (fmt =? 3); lia. }
  destruct (if negb cont then _ else _) as [tm delta].
  destruct (negb cont && (mms <? length)) eqn:Hlim; [done|].
  set (remaining := if negb cont then length else bytes_remaining state).
  assert (Hremaining : remaining <= mms).
  { pose proof (zlen_nonneg (partial_payload state)).
    unfold remaining, cont in *. destruct (has_header state), (Z.ltb_spec 0 (bytes_remaining state));
      cbn in *; destruct (Z.ltb_spec mms length); try done; intuition lia. }
  destruct (Z.ltb_spec (zlen buf) (thl + Z.min remaining ics)); [cbn; lia|].
  cbn. constructor; cbn; try done; try lia. intros Hs. rewrite Hs in Hlim. cbn in Hlim. lia.
Qed.

Lemma inv_touch d csid :
  inv d -> (streams_ d !! csid = None ->
            Z.of_nat (size (streams_ d)) < max_chunk_streams (limits_ d)) ->
  failed_ d = false ->
  inv (set_stream d csid (default default_state (streams_ d !! csid))).
Proof.
  intros [? Hst Hsz Hsum Hb Hc Hf] Hnew Hnf.
  destruct (streams_ d !! csid) as [s|] eqn:Hs; cbn.
  - replace (set_stream d csid s) with d; [by constructor|].
    destruct d; unfold set_stream; cbn in *. by rewrite insert_id.
  - constructor; cbn; try done.
    + apply map_Forall_insert_2; [apply default_state_ok|done].
    + rewrite map_size_insert_None by done. specialize (Hnew eq_refl). lia.
    + rewrite map_sum_insert_fresh by done. change (held default_state) with 0. lia.
    + rewrite Hnf. done.
Qed.

Lemma parse_chunk_total d :
  inv d -> failed_ d = false ->
  total (fun '(d', csid, state, r) =>
    inv d' /\ failed_ d' = false /\ buffer_ d' = buffer_ d /\
    max_message_size_ d' = max_message_size_ d /\ input_chunk_size_ d' = input_chunk_size_ d /\
    match r with
    | NeedMore => zlen (buffer_ d) < chunk_room (max_message_size_ d) (input_chunk_size_ d)
    | Reject _ _ => True
    | Accept h => 2 <= csid <= 65599 /\ streams_ d' !! csid = Some state /\
        header_ok (buffer_ d) (max_message_size_ d) (input_chunk_size_ d) state h
    end) (parse_chunk d).
Proof.
  intros Hd Hnf. unfold parse_chunk. pose proof (inv_chunk d Hd) as Hc.
  destruct (inv_limits d Hd) as [[Hl1 Hl2] Hm].
  eapply yields_bind; [apply read_basic_header_total|].
  intros [[[fmt csid] len]|]; cbn beta iota; unfold chunk_room;
    [|intros Hshort; cbn [yields]; split_and!; try done; lia].
  intros (Hfmt & Hcsid & Hlen & Hbuf).
  assert (message_header_len fmt <= 11)
    by (unfold message_header_len; repeat case_match; lia).
  destruct (Z.ltb_spec (zlen (buffer_ d)) (len + message_header_len fmt));
    [cbn [yields]; split_and!; try done; lia|].
  destruct (_ && _); [done|].
  destruct (_ && (max_chunk_streams (limits_ d) <=? _)) eqn:Hsz; [done|].
  assert (Hi : inv (set_stream d csid (default default_state (streams_ d !! csid)))).
  { apply inv_touch; [done| |done]. intros Hn. rewrite Hn in Hsz. cbn in Hsz. lia. }
  eapply yields_bind.
  { apply (resolve_header_total _ _ _ (default default_state (streams_ d !! csid)));
      [done|done|done| |cbn; lia|cbn; lia].
    apply (inv_states _ Hi csid). apply lookup_insert_eq. }
  intros r Hr. cbn [yields]. split_and!; try done. destruct r; cbn in Hr; try done.
  split; [done|]. split; [apply lookup_insert_eq|done].
Qed.

(** ** Committing a chunk keeps the invariant *)

Lemma emits_silent mms b : emits mms b b [].
Proof. destruct b; [done|]. exists [], []. done. Qed.

Lemma emits_message mms m : message_ok mms m -> emits mms false false [MessageEvent m].
Proof. intros Hm. exists [m], []. split_and!; try done. by apply Forall_singleton. Qed.

Lemma emits_app mms a b c ev more :
  emits mms a b ev -> emits mms b c more -> emits mms a c (ev ++ more).
Proof.
  destruct a, b; cbn; [by intros [_ ->]|by intros [[=] _]| |].
  - intros Hev [-> ->]. by rewrite app_nil_r.
  - intros (m1 & e1 & -> & H1 & ->) (m2 & e2 & -> & H2 & He2). cbn [map].
    exists (m1 ++ m2), e2. rewrite app_nil_r, map_app, <- (assoc_L (++)).
    split_and!; try done. by apply Forall_app.
Qed.

Definition fails_cleanly (d : ChunkDecoder) (r : ChunkDecoder * list Event) : Prop :=
  inv (fst r) /\ failed_ (fst r) = true /\ buffer_ (fst r) = [] /\
  max_message_size_ (fst r) = max_message_size_ d /\
  emits (max_message_size_ d) false true (snd r).

(** Failing needs little of the state it leaves behind. *)
Lemma fail_clean d code message :
  limits_ok (limits_ d) /\ 0 <= max_message_size_ d < 2 ^ 32 ->
  1 <= input_chunk_size_ d < 2 ^ 31 -> failed_ d = false ->
  fails_cleanly d (fail d code message).
Proof.
  intros [[Hl1 Hl2] Hm] Hc Hnf. unfold fail. rewrite Hnf.
  split_and!; cbn; try done.
  - constructor; cbn; try done; lia.
  - exists [], [mkError code ErrorCategory.Protocol message]. split_and!; try done. by eexists.
Qed.

Lemma fail_spec d code message :
  inv d -> failed_ d = false -> fails_cleanly d (fail d code message).
Proof. intros [] Hnf. by apply fail_clean. Qed.

(** Replacing one stream's state, with [buffered_payload_bytes_] kept in step. *)
Lemma inv_update d b csid old new :
  inv d -> failed_ d = false -> streams_ d !! csid = Some old ->
  state_ok (max_message_size_ d) new ->
  buffered_payload_bytes_ d + held new - held old <= max_buffered_payload_bytes (limits_ d) ->
  inv (set_stream (set_buffered (set_buffer d b)
         (buffered_payload_bytes_ d + held new - held old)) csid new).
Proof.
  intros [Hl Hst Hsz Hsum Hb Hc Hf] Hnf Hold Hnew Hbound. constructor; cbn; try done.
  - by apply map_Forall_insert_2.
  - rewrite map_size_insert, Hold. done.
  - rewrite map_sum_insert, Hold. cbn. lia.
  - by rewrite Hnf.
Qed.

Lemma inv_set_buffer d b : inv d -> failed_ d = false -> inv (set_buffer d b).
Proof. intros [] Hnf. constructor; cbn; try done. by rewrite Hnf. Qed.

Lemma set_stream_overwrite d csid s n s' :
  set_stream (set_buffered (set_stream d csid s) n) csid s' = set_stream (set_buffered d n) csid s'.
Proof. unfold set_stream, set_buffered. cbn. by rewrite insert_insert_eq. Qed.

Lemma held_le_buffered d csid s :
  inv d -> streams_ d !! csid = Some s -> 0 <= held s <= buffered_payload_bytes_ d.
Proof.
  intros [] Hs. split; [apply zlen_nonneg|].
  pose proof (map_sum_delete held _ _ _ Hs).
  pose proof (map_sum_nonneg held (delete csid (streams_ d)) (fun s => zlen_nonneg _)). lia.
Qed.

Definition control_post (d : ChunkDecoder) (r : bool * ChunkDecoder * list Event) : Prop :=
  let '(handled, d', ev) := r in
  inv d' /\ max_message_size_ d' = max_message_size_ d /\
  (buffer_ d' = buffer_ d \/ buffer_ d' = []) /\
  emits (max_message_size_ d) false (failed_ d') ev /\
  (handled = false -> ev = [] /\ failed_ d' = false).

Lemma fail_control_post d code message :
  inv d -> failed_ d = false ->
  total (control_post d) (let '(d', ev) := fail d code message in Ok (true, d', ev)).
Proof.
  intros Hd Hnf. pose proof (fail_spec d code message Hd Hnf) as Hf.
  destruct (fail d code message) as [d' ev]. destruct Hf as (H1 & H2 & H3 & H4 & H5). cbn [fst snd] in *.
  unfold control_post. cbn [yields]. rewrite H2. split_and!; auto; done.
Qed.

Lemma silent_control_post d handled d' :
  inv d' -> failed_ d' = false -> max_message_size_ d' = max_message_size_ d ->
  buffer_ d' = buffer_ d -> total (control_post d) (Ok (handled, d', [])).
Proof.
  intros Hi Hnf Hm Hb. unfold control_post. cbn [yields]. rewrite Hnf.
  split_and!; auto. apply emits_silent.
Qed.

Lemma handle_protocol_control_total d m :
  inv d -> failed_ d = false -> total (control_post d) (handle_protocol_control d m).
Proof.
  intros Hd Hnf.
  assert (Hsame : total (control_post d) (Ok (false, d, [])))
    by (by apply silent_control_post).
  pose proof (fun code msg => fail_control_post d code msg Hd Hnf) as Hfail.
  unfold handle_protocol_control.
  destruct (negb _); [done|].
  destruct (_ =? MessageTypeId.SetChunkSize); [|destruct (_ =? MessageTypeId.AbortMessage);
    [|destruct (_ =? MessageTypeId.WindowAcknowledgementSize); [|done]]];
    (destruct (Z.ltb_spec (zlen (payload m)) 4); [apply Hfail|];
     destruct (read_u32_be_at_ok (payload m) 0) as (v & -> & Hv); [lia..|]; rewrite bind_Ok).
  - change 0x7FFFFFFF with (2 ^ 31 - 1). rewrite land_ones_mod by lia.
    pose proof (Z.mod_pos_bound v (2 ^ 31) eq_refl) as Hm.
    destruct (Z.eqb_spec (v mod 2 ^ 31) 0); [apply Hfail|].
    destruct (_ <? _); [apply Hfail|].
    apply silent_control_post; try done. destruct Hd. constructor; cbn; try done. lia.
  - destruct (streams_ d !! v) as [it|] eqn:Hit.
    + apply silent_control_post; try done.
      pose proof (held_le_buffered d v it Hd Hit) as Hh. pose proof (inv_bound d Hd).
      destruct (inv_limits d Hd) as [[_ Hl] _].
      unfold u64. rewrite Z.mod_small by (unfold held in Hh; lia).
      pose proof (inv_update d (buffer_ d) v it (set_partial it [] 0) Hd Hnf Hit) as Hu.
      replace (set_buffer d (buffer_ d)) with d in Hu by (by destruct d).
      change (held (set_partial it [] 0)) with 0 in Hu. unfold held in *.
      rewrite Z.add_0_r in Hu. apply Hu; [|lia].
      destruct (inv_states d Hd v it Hit). constructor; cbn; try done; lia.
    + by apply silent_control_post.
  - apply silent_control_post; try done. destruct Hd. constructor; cbn; try done.
Qed.

(** The stored state a chunk is added to: the old one, or a fresh message. *)
Definition current_state (state : ChunkStreamState) (h : Header) : ChunkStreamState :=
  if starting_new_message h then start_message h else state.

Record chunk_ok (d : ChunkDecoder) (csid : Z) (state : ChunkStreamState) (h : Header) : Prop := {
  ck_inv : inv d;
  ck_running : failed_ d = false;
  ck_csid : 2 <= csid <= 65599;
  ck_state : streams_ d !! csid = Some state;
  ck_header : header_ok (buffer_ d) (max_message_size_ d) (input_chunk_size_ d) state h
}.

Section commit.
Context (d : ChunkDecoder) (csid : Z) (state : ChunkStreamState) (h : Header).
Hypothesis Hok : chunk_ok d csid state h.
Let current := current_state state h.
Let slice := take (Z.to_nat (payload_slice h)) (drop (Z.to_nat (total_header_len h)) (buffer_ d)).
Let rest := drop (Z.to_nat (total_header_len h + payload_slice h)) (buffer_ d).
Let new := set_partial current (partial_payload current ++ slice)
  (bytes_remaining current - payload_slice h).

Lemma commit_state_old : state_ok (max_message_size_ d) state.
Proof. destruct Hok as [Hd _ _ Hs _]. apply (inv_states d Hd csid state Hs). Qed.

Lemma commit_starting_empty : starting_new_message h = true -> partial_payload state = [].
Proof.
  intros Hs. destruct Hok as [_ _ _ _ Hh]. rewrite (h_starting _ _ _ _ _ Hh) in Hs.
  destruct commit_state_old as [Hr Hi Hb _ _ _ _].
  destruct (Z.ltb_spec 0 (bytes_remaining state)) as [Hlt|Hge]; [|apply Hi; lia].
  destruct (Hb Hlt) as [Hhas _]. by rewrite Hhas in Hs.
Qed.

Lemma commit_held : held current = held state.
Proof.
  unfold current, current_state, held.
  destruct (starting_new_message h) eqn:Hs; [|done]. by rewrite commit_starting_empty.
Qed.

Lemma commit_slice : payload_slice h = Z.min (bytes_remaining current) (input_chunk_size_ d) /\
  0 <= payload_slice h <= bytes_remaining current /\ bytes_remaining current < 2 ^ 24.
Proof.
  destruct Hok as [Hd _ _ _ Hh]. destruct commit_state_old as [Hr _ Hb Hl _ _ _].
  pose proof (inv_chunk d Hd) as Hc. pose proof (zlen_nonneg (partial_payload state)).
  rewrite (h_slice _ _ _ _ _ Hh). pose proof (h_length _ _ _ _ _ Hh).
  unfold current, current_state. destruct (starting_new_message h); cbn [bytes_remaining start_message].
  - lia.
  - split; [done|]. destruct (Z.eq_dec (bytes_remaining state) 0); [lia|].
    destruct Hb as (_ & Hb & _); lia.
Qed.

Lemma commit_zlen_slice : zlen slice = payload_slice h /\
  zlen rest = zlen (buffer_ d) - total_header_len h - payload_slice h.
Proof.
  destruct Hok as [_ _ _ _ Hh]. pose proof commit_slice as (_ & Hs & _).
  pose proof (h_total _ _ _ _ _ Hh). pose proof (h_room _ _ _ _ _ Hh).
  unfold slice, rest. rewrite zlen_take; [|rewrite zlen_drop by lia; lia].
  rewrite zlen_drop by lia. lia.
Qed.

Lemma commit_remaining_limit : bytes_remaining current = 0 \/
  has_header current = true /\
  zlen (partial_payload current) + bytes_remaining current = message_length current /\
  message_length current <= max_message_size_ d.
Proof.
  destruct Hok as [Hd _ _ _ Hh]. destruct commit_state_old as [Hr _ Hb Hl _ _ _].
  unfold current, current_state. destruct (starting_new_message h) eqn:Hs.
  - right. split_and!; [done|done|]. by apply (h_limit _ _ _ _ _ Hh).
  - destruct (Z.eq_dec (bytes_remaining state) 0); [by left|right]. apply Hb. lia.
Qed.

Lemma commit_fields_ok :
  0 <= message_length current < 2 ^ 24 /\ 0 <= state_type_id current < 2 ^ 8 /\
  0 <= state_stream_id current < 2 ^ 32 /\
  (0 <= base_timestamp current < 2 ^ 32 /\ 0 <= timestamp_delta current < 2 ^ 32 /\
   0 <= message_timestamp current < 2 ^ 32).
Proof.
  destruct Hok as [_ _ _ _ []]. destruct commit_state_old as [_ _ _ ? ? ? ?].
  unfold current, current_state. destruct (starting_new_message h); cbn; [|done].
  intuition lia.
Qed.

Lemma commit_new_ok (p : list byte) (r : Z) :
  (p = [] /\ r = 0) \/ (p = partial_payload current ++ slice /\
    r = bytes_remaining current - payload_slice h /\ r <> 0) ->
  state_ok (max_message_size_ d) (set_partial current p r).
Proof.
  pose proof commit_slice as (_ & Hs & _). pose proof commit_zlen_slice as [Hz _].
  pose proof commit_fields_ok as (? & ? & ? & ? & ? & ?).
  intros [[-> ->]|(-> & -> & Hne)]; constructor; cbn; try done; try lia.
  intros Hpos. destruct commit_remaining_limit as [Hz0|(Hh & Hsum & Hlim)]; [lia|].
  split_and!; [done| |done]. rewrite zlen_app. lia.
Qed.

Lemma commit_buffered : 0 <= buffered_payload_bytes_ d < 2 ^ 63.
Proof.
  destruct Hok as [Hd _ _ Hs _]. pose proof (held_le_buffered d csid state Hd Hs).
  pose proof (inv_bound d Hd). destruct (inv_limits d Hd) as [[_ ?] _]. lia.
Qed.

(** [commit] with its machine arithmetic resolved. *)
Let committed := set_stream
  (set_buffered (set_buffer d rest) (buffered_payload_bytes_ d + payload_slice h)) csid new.

Lemma commit_eq : commit d csid state h =
  if (0 <? payload_slice h) &&
     (max_buffered_payload_bytes (limits_ d) <? buffered_payload_bytes_ committed) then
    let '(d', ev) := fail committed ErrorCode.MessageTooLarge
      "outstanding RTMP chunk reassembly buffers exceed the per-connection limit" in
    Ok (Failed, d', ev)
  else if bytes_remaining new =? 0 then
    '(d', ev) <- handle_complete_message committed csid new ;; Ok (Consumed, d', ev)
  else Ok (Consumed, committed, []).
Proof.
  pose proof commit_slice as (_ & Hs & Hb). pose proof commit_buffered as Hbuf.
  destruct Hok as [_ _ _ _ Hh]. pose proof (h_total _ _ _ _ _ Hh) as Ht.
  pose proof (h_room _ _ _ _ _ Hh) as Hroom.
  unfold commit, subspan_from at 1. rewrite !(proj2 (Z.leb_le _ _)) by lia.
  cbn [andb]. rewrite bind_Ok.
  assert (Hstart : (if starting_new_message h then
      (set_buffered (set_buffer d (drop (Z.to_nat (total_header_len h)) (buffer_ d)))
         (u64 (buffered_payload_bytes_ (set_buffer d (drop (Z.to_nat (total_header_len h)) (buffer_ d)))
               - zlen (partial_payload state))), start_message h)
    else (set_buffer d (drop (Z.to_nat (total_header_len h)) (buffer_ d)), state))
    = (set_buffer d (drop (Z.to_nat (total_header_len h)) (buffer_ d)), current)).
  { unfold current, current_state. destruct (starting_new_message h) eqn:Hst; [|done].
    rewrite commit_starting_empty by done. unfold u64. cbn [set_buffer buffered_payload_bytes_].
    rewrite zlen_nil, Z.sub_0_r, Z.mod_small by lia. by destruct d. }
  rewrite Hstart. cbn [buffer_ set_buffer].
  unfold subspan, subspan_from. rewrite zlen_drop by lia.
  rewrite !(proj2 (Z.leb_le _ _)) by lia. cbn [andb]. rewrite !bind_Ok.
  change (Z.to_nat 0) with 0%nat. rewrite drop_0, drop_drop, <- Z2Nat.inj_add by lia.
  unfold u32, u64. cbn [buffered_payload_bytes_ set_buffer].
  rewrite !Z.mod_small by lia. reflexivity.
Qed.

Definition commit_post (r : DecodeResult * ChunkDecoder * list Event) : Prop :=
  let '(res, d', ev) := r in
  inv d' /\ max_message_size_ d' = max_message_size_ d /\
  zlen (buffer_ d') < zlen (buffer_ d) /\
  emits (max_message_size_ d) false (failed_ d') ev /\
  res <> InsufficientData /\ (res = Failed -> failed_ d' = true).

Lemma committed_inv : bytes_remaining new <> 0 ->
  buffered_payload_bytes_ d + payload_slice h <= max_buffered_payload_bytes (limits_ d) ->
  inv committed.
Proof.
  intros Hrem Hbound. pose proof commit_zlen_slice as [Hzs _]. pose proof commit_held as Hheld.
  destruct Hok as [Hd Hnf _ Hst _].
  pose proof (inv_update d rest csid state new Hd Hnf Hst) as Hu.
  assert (Hnew : held new = held state + payload_slice h).
  { rewrite <- Hheld, <- Hzs. unfold held, new. cbn. apply zlen_app. }
  rewrite Hnew in Hu. replace (_ + (_ + _) - _) with
    (buffered_payload_bytes_ d + payload_slice h) in Hu by lia.
  apply Hu; [|done]. apply commit_new_ok. right. done.
Qed.

(** Taking the completed message out leaves the decoder without its bytes. *)
Lemma complete_inv :
  handle_complete_message committed csid new =
    (let m := mkRtmpMessage csid (state_stream_id new) (state_type_id new)
                (message_timestamp new) (partial_payload new) in
     let idle := set_stream (set_buffered (set_buffer d rest)
                   (buffered_payload_bytes_ d - held state)) csid
                   (set_partial current [] (bytes_remaining new)) in
     '(handled, d', ev) <- handle_protocol_control idle m ;;
     if (handled : bool) then Ok (d', ev) else Ok (d', ev ++ [MessageEvent m])).
Proof.
  pose proof commit_zlen_slice as [Hzs _]. pose proof commit_held as Hheld.
  pose proof commit_buffered as Hbuf.
  destruct Hok as [Hd Hnf _ Hst _]. pose proof (held_le_buffered d csid state Hd Hst).
  unfold handle_complete_message. unfold committed at 2. cbn [set_stream buffered_payload_bytes_
    set_buffered].
  assert (Hnew : zlen (partial_payload new) = held state + payload_slice h).
  { rewrite <- Hheld, <- Hzs. unfold held, new. cbn. apply zlen_app. }
  rewrite Hnew. unfold u64. rewrite Z.mod_small by lia.
  replace (_ + _ - (_ + _)) with (buffered_payload_bytes_ d - held state) by lia.
  unfold committed. rewrite set_stream_overwrite. done.
Qed.

Lemma idle_inv r : r = 0 ->
  inv (set_stream (set_buffered (set_buffer d rest)
         (buffered_payload_bytes_ d - held state)) csid (set_partial current [] r)).
Proof.
  intros ->. destruct Hok as [Hd Hnf _ Hst _].
  pose proof (inv_update d rest csid state (set_partial current [] 0) Hd Hnf Hst) as Hu.
  change (held (set_partial current [] 0)) with 0 in Hu. rewrite Z.add_0_r in Hu.
  apply Hu; [apply commit_new_ok; by left|].
  pose proof (held_le_buffered d csid state Hd Hst). pose proof (inv_bound d Hd). lia.
Qed.

Lemma completed_message_ok : bytes_remaining new = 0 ->
  message_ok (max_message_size_ d) (mkRtmpMessage csid (state_stream_id new)
    (state_type_id new) (message_timestamp new) (partial_payload new)).
Proof.
  intros Hrem. pose proof commit_zlen_slice as [Hzs _]. pose proof commit_slice as (_ & Hs & _).
  pose proof commit_remaining_limit as Hrl. pose proof commit_fields_ok as (? & ? & ? & ? & ? & ?).
  destruct commit_state_old as [Hr Hi Hb _ _ _ _]. destruct Hok as [Hd _ Hcsid _ _].
  cbn in Hrem. constructor; cbn; try done. rewrite zlen_app.
  destruct (inv_limits d Hd) as [_ Hm].
  destruct Hrl as [Hr0|(_ & Hsum & Hlim)]; [|lia].
  assert (Hp : partial_payload current = []).
  { unfold current, current_state in *. destruct (starting_new_message h); [done|by apply Hi]. }
  rewrite Hp, zlen_nil. lia.
Qed.

Lemma commit_total : total commit_post (commit d csid state h).
Proof.
  rewrite commit_eq. pose proof commit_zlen_slice as [Hzs Hzr].
  pose proof commit_slice as (_ & Hs & _).
  pose proof completed_message_ok as Hmsg. pose proof idle_inv as Hidle.
  destruct Hok as [Hd Hnf Hcsid Hst Hh]. pose proof (h_total _ _ _ _ _ Hh) as Ht.
  pose proof (h_room _ _ _ _ _ Hh) as Hroom.
  destruct (_ && _) eqn:Hrej.
  { destruct (fail_clean committed ErrorCode.MessageTooLarge
      "outstanding RTMP chunk reassembly buffers exceed the per-connection limit")
      as (H1 & H2 & H3 & H4 & H5); [apply (inv_limits d Hd)|apply (inv_chunk d Hd)|done|].
    destruct (fail _ _ _) as [d' ev]. cbn [fst snd] in *. unfold commit_post. cbn [yields].
    rewrite H2, H3, zlen_nil. split_and!; try done. lia. }
  assert (Hfit : buffered_payload_bytes_ d + payload_slice h
                 <= max_buffered_payload_bytes (limits_ d)).
  { pose proof (inv_bound d Hd). unfold committed in Hrej.
    cbn [set_stream set_buffered buffered_payload_bytes_] in Hrej. lia. }
  destruct (Z.eqb_spec (bytes_remaining new) 0) as [Hz|Hnz].
  - rewrite complete_inv. cbn zeta. set (idle := set_stream _ _ _).
    assert (Hi : inv idle) by (by apply Hidle).
    pose proof (handle_protocol_control_total idle (mkRtmpMessage csid (state_stream_id new)
      (state_type_id new) (message_timestamp new) (partial_payload new)) Hi Hnf) as Hc.
    destruct (handle_protocol_control idle _) as [[[handled d'] ev]| | |]; try done.
    destruct Hc as (H1 & H2 & H3 & H4 & H5). cbn [rbind] in *.
    assert (Hlen : zlen (buffer_ d') < zlen (buffer_ d)).
    { destruct H3 as [H3|H3]; rewrite H3; [cbn; lia|rewrite zlen_nil; lia]. }
    destruct handled; cbn [yields rbind]; unfold commit_post; split_and!; try done.
    destruct H5 as [-> ->]; [done|]. apply emits_message. by apply Hmsg.
  - cbn [yields]. unfold commit_post. split_and!; try done; [by apply committed_inv|cbn; lia|].
    cbn [failed_ committed set_stream set_buffered set_buffer]. rewrite Hnf. apply emits_silent.
Qed.
End commit.

(** ** One chunk, one read, a whole connection *)

Definition decode_post (d : ChunkDecoder) (r : DecodeResult * ChunkDecoder * list Event) : Prop :=
  let '(res, d', ev) := r in
  inv d' /\ max_message_size_ d' = max_message_size_ d /\
  emits (max_message_size_ d) (failed_ d) (failed_ d') ev /\
  match res with
  | Consumed => zlen (buffer_ d') < zlen (buffer_ d)
  | InsufficientData =>
      zlen (buffer_ d') < chunk_room (max_message_size_ d') (input_chunk_size_ d')
  | Failed => failed_ d' = true
  end.

Lemma decode_one_failed d : inv d -> failed_ d = true ->
  decode_one d = Ok (InsufficientData, d, []).
Proof.
  intros Hd Hf. destruct (inv_failed d Hd Hf) as [Hb _].
  unfold decode_one, parse_chunk. by rewrite Hb.
Qed.

Lemma chunk_room_pos d : inv d -> 0 < chunk_room (max_message_size_ d) (input_chunk_size_ d).
Proof.
  intros Hd. destruct (inv_limits d Hd) as [_ Hm]. pose proof (inv_chunk d Hd).
  unfold chunk_room. lia.
Qed.

Lemma decode_one_total d : inv d -> total (decode_post d) (decode_one d).
Proof.
  intros Hd. destruct (failed_ d) eqn:Hnf.
  - rewrite decode_one_failed by done. cbn [yields]. unfold decode_post.
    destruct (inv_failed d Hd Hnf) as [Hb _]. rewrite Hnf, Hb, zlen_nil.
    split_and!; try done. by apply chunk_room_pos.
  - unfold decode_one. eapply yields_bind; [by apply parse_chunk_total|].
    intros [[[d' csid] state] [|code message|h]] (Hi & Hf & Hb & Hm & Hc & Hr).
    + cbn [yields]. unfold decode_post. rewrite Hnf, Hf, Hb, Hm, Hc.
      split_and!; try done. apply emits_silent.
    + destruct (fail_spec d' code message Hi Hf) as (H1 & H2 & H3 & H4 & H5).
      destruct (fail _ _ _) as [d'' ev]. cbn [fst snd] in *. cbn [yields]. unfold decode_post.
      rewrite Hnf, H2. rewrite Hm in *. split_and!; try done.
    + destruct Hr as (Hcsid & Hst & Hh).
      rewrite <- Hb, <- Hm, <- Hc in Hh.
      eapply yields_weaken; [by apply commit_total; constructor|].
      intros [[res d''] ev] (H1 & H2 & H3 & H4 & H5 & H6). rewrite Hm in *. rewrite Hb in *.
      unfold decode_post. rewrite Hnf. split_and!; try done. destruct res; auto; done.
Qed.

Definition feed_post (d : ChunkDecoder) (r : ChunkDecoder * list Event) : Prop :=
  let '(d', ev) := r in
  inv d' /\ max_message_size_ d' = max_message_size_ d /\
  emits (max_message_size_ d) (failed_ d) (failed_ d') ev /\
  zlen (buffer_ d') < chunk_room (max_message_size_ d') (input_chunk_size_ d').

Lemma decode_loop_total fuel d :
  inv d -> Z.of_nat fuel > zlen (buffer_ d) -> total (feed_post d) (decode_loop fuel d).
Proof.
  revert d. induction fuel as [|fuel IH]; intros d Hd Hf; [zlia|]. cbn [decode_loop].
  eapply yields_bind; [by apply decode_one_total|].
  intros [[[| |] d'] ev] (Hi & Hm & He & Hr).
  - eapply yields_bind; [apply IH; [done|lia]|].
    intros [d'' more] (Hi' & Hm' & He' & Hr'). cbn [yields]. unfold feed_post.
    rewrite Hm in *. split_and!; try done; by eapply emits_app.
  - cbn [yields]. unfold feed_post. done.
  - cbn [yields]. unfold feed_post. destruct (inv_failed d' Hi Hr) as [Hb _].
    rewrite Hb, zlen_nil. split_and!; try done. by apply chunk_room_pos.
Qed.

(** A decoder between reads: nothing decodable is left in the buffer. *)
Definition quiescent (d : ChunkDecoder) : Prop :=
  zlen (buffer_ d) < chunk_room (max_message_size_ d) (input_chunk_size_ d).

Lemma on_bytes_received_total d data :
  inv d -> quiescent d -> total (feed_post d) (on_bytes_received d data).
Proof.
  intros Hd Hq. unfold on_bytes_received. destruct (failed_ d) eqn:Hf; cbn [orb].
  { cbn. unfold feed_post. rewrite Hf. done. }
  destruct (bool_decide_reflect (data = [])).
  { cbn [yields]. unfold feed_post. rewrite Hf. split_and!; try done. apply emits_silent. }
  set (d1 := set_buffer (set_bytes_received d _) _).
  assert (Hi : inv d1) by (destruct Hd; constructor; cbn; try done; by rewrite Hf).
  pose proof (decode_loop_total (loop_fuel d1) d1 Hi) as H. unfold feed_post in *.
  cbn in H. apply H. unfold loop_fuel, zlen. cbn. lia.
Qed.

Lemma receive_all_total reads d :
  inv d -> quiescent d -> total (feed_post d) (receive_all d reads).
Proof.
  revert d. induction reads as [|data reads IH]; intros d Hd Hq; cbn [receive_all].
  - cbn [yields]. unfold feed_post. split_and!; try done. apply emits_silent.
  - eapply yields_bind; [by apply on_bytes_received_total|].
    intros [d' ev] (Hi & Hm & He & Hr).
    eapply yields_bind; [by apply IH|].
    intros [d'' more] (Hi' & Hm' & He' & Hr'). cbn [yields]. unfold feed_post.
    rewrite Hm in *. split_and!; try done; by eapply emits_app.
Qed.

(** * Reads may be split anywhere *)

(** [d] with more bytes behind its buffer, [n] received in all. *)
Definition grow (x : list byte) (n : Z) (d : ChunkDecoder) : ChunkDecoder :=
  set_bytes_received (set_buffer d (if failed_ d then [] else buffer_ d ++ x)) n.

Lemma read_basic_header_app buf x r :
  read_basic_header buf = Ok (Some r) -> read_basic_header (buf ++ x) = Ok (Some r).
Proof.
  unfold read_basic_header. intros H.
  destruct (bool_decide_reflect (buf = [])) as [->|Hne]; [discriminate|].
  rewrite bool_decide_eq_false_2 by (by destruct buf).
  stable. stable. stable.
  destruct (_ =? 0); [|destruct (_ =? 1)]; repeat stable; simplify_eq/=; done.
Qed.

Lemma read_message_header_app buf x fmt offset state r :
  read_message_header buf fmt offset state = Ok r ->
  read_message_header (buf ++ x) fmt offset state = Ok r.
Proof.
  unfold read_message_header. intros H.
  destruct (fmt =? 0); [|destruct (fmt =? 1); [|destruct (fmt =? 2)]]; repeat stable; simplify_eq/=; done.
Qed.

Lemma resolve_header_app buf x mms ics state fmt len r :
  resolve_header buf mms ics state fmt len = Ok r -> r <> NeedMore ->
  resolve_header (buf ++ x) mms ics state fmt len = Ok r.
Proof.
  unfold resolve_header. intros H Hr. destruct (negb (fmt =? 3) && _); [done|].
  apply bind_Ok_inv in H as ([[[raw l] t] s] & Hh & H).
  rewrite (read_message_header_app _ x _ _ _ _ Hh), bind_Ok.
  set (thl := if (if fmt =? 3 then _ else _) : bool then _ else _) in *.
  stable; [by injection H as <-|].
  apply bind_Ok_inv in H as (ext & Hext & H).
  assert (Hext' : (if (if fmt =? 3 then extended_timestamp state else raw =? kExtendedTimestampMarker)
    then read_u32_be_at (buf ++ x) (len + message_header_len fmt) else Ok 0) = Ok ext).
  { destruct (if fmt =? 3 then _ else _); [by apply read_u32_be_at_app|done]. }
  rewrite Hext', bind_Ok. destruct (if negb _ then _ else _) as [tm delta].
  destruct (_ && (mms <? l)); [done|]. stable; [by injection H as <-|done].
Qed.

Section grow.
Context (x : list byte) (n : Z).

Lemma fail_grow d code message : failed_ d = false ->
  fail (grow x n d) code message
  = (grow x n (fst (fail d code message)), snd (fail d code message)).
Proof. intros Hnf. unfold fail, grow. cbn. rewrite Hnf. reflexivity. Qed.

Lemma fail_grow_bind {A} (a : A) d code message r : failed_ d = false ->
  (let '(d', ev) := fail d code message in Ok (a, d', ev)) = Ok r ->
  (let '(d', ev) := fail (grow x n d) code message in Ok (a, d', ev))
  = Ok (fst (fst r), grow x n (snd (fst r)), snd r).
Proof.
  intros Hnf. rewrite fail_grow by done. destruct (fail d code message). by intros [= <-].
Qed.

Lemma handle_protocol_control_grow d m r :
  failed_ d = false -> handle_protocol_control d m = Ok r ->
  handle_protocol_control (grow x n d) m = Ok (fst (fst r), grow x n (snd (fst r)), snd r).
Proof.
  intros Hnf. pose proof (fun c s => fail_grow_bind true d c s r Hnf) as Hfail.
  unfold handle_protocol_control.
  destruct (negb _); [by intros [= <-]|].
  destruct (_ =? MessageTypeId.SetChunkSize); [|destruct (_ =? MessageTypeId.AbortMessage);
    [|destruct (_ =? MessageTypeId.WindowAcknowledgementSize); [|by intros [= <-]]]];
    (destruct (zlen (payload m) <? 4); [apply Hfail|]);
    (destruct (read_u32_be_at (payload m) 0) as [v| | |]; try discriminate; rewrite !bind_Ok).
  - destruct (_ =? 0); [apply Hfail|].
    change (limits_ (grow x n d)) with (limits_ d).
    destruct (_ <? _); [apply Hfail|]. by intros [= <-].
  - change (streams_ (grow x n d)) with (streams_ d).
    destruct (streams_ d !! v); by intros [= <-].
  - by intros [= <-].
Qed.

Lemma handle_complete_message_grow d csid state d' ev :
  failed_ d = false -> handle_complete_message d csid state = Ok (d', ev) ->
  handle_complete_message (grow x n d) csid state = Ok (grow x n d', ev).
Proof.
  unfold handle_complete_message. intros Hnf H.
  apply bind_Ok_inv in H as ([[handled d1] ev1] & Hc & H).
  pose proof (handle_protocol_control_grow (set_stream (set_buffered d _) csid _) _ _ Hnf Hc) as Hg.
  change (set_stream (set_buffered (grow x n d)
    (u64 (buffered_payload_bytes_ (grow x n d) - zlen (partial_payload state)))) csid
    (set_partial state [] (bytes_remaining state)))
    with (grow x n (set_stream (set_buffered d
    (u64 (buffered_payload_bytes_ d - zlen (partial_payload state)))) csid
    (set_partial state [] (bytes_remaining state)))).
  rewrite Hg, bind_Ok. cbn [fst snd] in *. destruct handled; by simplify_eq.
Qed.

Lemma commit_grow d csid state h res d' ev :
  failed_ d = false -> commit d csid state h = Ok (res, d', ev) ->
  commit (grow x n d) csid state h = Ok (res, grow x n d', ev).
Proof.
  unfold commit. intros Hnf H. apply bind_Ok_inv in H as (rest & Hrest & H).
  replace (buffer_ (grow x n d)) with (buffer_ d ++ x) by (cbn; by rewrite Hnf).
  rewrite (subspan_from_app _ _ _ _ Hrest), bind_Ok.
  assert (Hset : forall b, set_buffer (grow x n d) (b ++ x) = grow x n (set_buffer d b)).
  { intros b. unfold grow. cbn. by rewrite Hnf. }
  rewrite Hset.
  set (ds := if starting_new_message h then _ else _) in H.
  set (dsg := if starting_new_message h then _ else _).
  assert (Hds : dsg = (grow x n ds.1, ds.2) /\ failed_ ds.1 = false).
  { unfold ds, dsg. destruct (starting_new_message h); cbn; done. }
  destruct Hds as [-> Hf1]. clearbody ds. destruct ds as [d1 st]. cbn [fst snd] in *.
  apply bind_Ok_inv in H as (slice & Hslice & H). apply bind_Ok_inv in H as (rest' & Hrest' & H).
  replace (buffer_ (grow x n d1)) with (buffer_ d1 ++ x) by (cbn; by rewrite Hf1).
  rewrite (subspan_app _ _ _ _ _ Hslice), (subspan_from_app _ _ _ _ Hrest'), !bind_Ok.
  assert (Hset1 : set_buffer (grow x n d1) (rest' ++ x) = grow x n (set_buffer d1 rest')).
  { unfold grow. cbn. by rewrite Hf1. }
  rewrite Hset1. set (d2 := set_stream _ csid _) in H. set (d2g := set_stream _ csid _).
  change d2g with (grow x n d2). change (limits_ (grow x n d2)) with (limits_ d2).
  change (buffered_payload_bytes_ (grow x n d2)) with (buffered_payload_bytes_ d2).
  assert (Hf2 : failed_ d2 = false) by done. clearbody d2.
  destruct (_ && _); [by apply (fail_grow_bind Failed d2 _ _ (res, d', ev))|].
  destruct (_ =? 0); [|by simplify_eq].
  apply bind_Ok_inv in H as ([d3 ev3] & Hc & H).
  rewrite (handle_complete_message_grow _ _ _ _ _ Hf2 Hc). by simplify_eq.
Qed.

Lemma parse_chunk_grow d d' csid state r :
  failed_ d = false -> parse_chunk d = Ok (d', csid, state, r) -> r <> NeedMore ->
  parse_chunk (grow x n d) = Ok (grow x n d', csid, state, r) /\ failed_ d' = false.
Proof.
  unfold parse_chunk. intros Hnf H Hr. apply bind_Ok_inv in H as ([[[fmt c] len]|] & Hh & H);
    [|by simplify_eq].
  replace (buffer_ (grow x n d)) with (buffer_ d ++ x) by (cbn; by rewrite Hnf).
  rewrite (read_basic_header_app _ _ _ Hh), bind_Ok.
  stable; [by simplify_eq|].
  change (streams_ (grow x n d)) with (streams_ d). change (limits_ (grow x n d)) with (limits_ d).
  destruct (negb _ && _); [by simplify_eq|].
  destruct (_ && (_ <=? _)); [by simplify_eq|].
  apply bind_Ok_inv in H as (r' & Hr' & H). simplify_eq.
  replace (buffer_ (set_stream (grow x n d) csid (default default_state (streams_ d !! csid))))
    with (buffer_ d ++ x) by (cbn; by rewrite Hnf).
  pose proof (resolve_header_app _ x _ _ _ _ _ _ Hr' Hr) as Hres. cbn in Hres |- *.
  by rewrite Hres.
Qed.
End grow.

Lemma commit_decides d csid state h res d' ev :
  commit d csid state h = Ok (res, d', ev) -> res <> InsufficientData.
Proof.
  unfold commit. intros H. apply bind_Ok_inv in H as (rest & _ & H).
  destruct (if starting_new_message h then _ else _) as [d1 st].
  apply bind_Ok_inv in H as (slice & _ & H). apply bind_Ok_inv in H as (rest' & _ & H).
  destruct (_ && _); [destruct (fail _ _ _); by simplify_eq|].
  destruct (_ =? 0); [|by simplify_eq]. apply bind_Ok_inv in H as ([d3 ev3] & _ & H). by simplify_eq.
Qed.

Lemma decode_one_grow x n d res d' ev :
  failed_ d = false -> decode_one d = Ok (res, d', ev) -> res <> InsufficientData ->
  decode_one (grow x n d) = Ok (res, grow x n d', ev).
Proof.
  unfold decode_one. intros Hnf H Hres.
  apply bind_Ok_inv in H as ([[[d1 csid] state] r] & Hp & H).
  destruct r as [|code message|h]; [by simplify_eq|..];
    (destruct (parse_chunk_grow x n _ _ _ _ _ Hnf Hp ltac:(done)) as [-> Hnf1]; rewrite bind_Ok).
  - by apply (fail_grow_bind x n Failed d1 _ _ (res, d', ev)).
  - by apply commit_grow.
Qed.

(** A stream entry created for a chunk that is still incomplete changes nothing for
    the next attempt at the same chunk. *)
Lemma parse_chunk_retry x n d d' csid state :
  failed_ d = false -> parse_chunk d = Ok (d', csid, state, NeedMore) ->
  failed_ d' = false /\ parse_chunk (grow x n d') = parse_chunk (grow x n d).
Proof.
  unfold parse_chunk at 1. intros Hnf H.
  apply bind_Ok_inv in H as ([[[fmt c] len]|] & Hh & H); [|by simplify_eq].
  destruct (_ <? _) eqn:Hlen; [by simplify_eq|].
  destruct (negb _ && _) eqn:Hnew; [by simplify_eq|].
  destruct (_ && (_ <=? _)) eqn:Hfull; [by simplify_eq|].
  apply bind_Ok_inv in H as (r' & _ & H). simplify_eq. split; [done|].
  destruct (streams_ d !! csid) as [s|] eqn:Hs.
  - replace (set_stream d csid (default default_state (Some s))) with d; [done|].
    unfold set_stream. cbn. rewrite insert_id by done. by destruct d.
  - rewrite andb_true_r in Hnew. cbn [andb] in Hfull. cbn [default].
    unfold parse_chunk.
    replace (buffer_ (grow x n (set_stream d csid default_state)))
      with (buffer_ d ++ x) by (cbn; by rewrite Hnf).
    replace (buffer_ (grow x n d)) with (buffer_ d ++ x) by (cbn; by rewrite Hnf).
    rewrite (read_basic_header_app _ _ _ Hh), !bind_Ok, (ltb_app_false _ _ _ Hlen).
    change (streams_ (grow x n (set_stream d csid default_state)))
      with (<[csid := default_state]> (streams_ d)).
    change (streams_ (grow x n d)) with (streams_ d).
    change (limits_ (grow x n d)) with (limits_ d). rewrite lookup_insert_eq, Hs, Hnew, andb_false_r.
    change (default default_state (Some default_state)) with default_state.
    change (default default_state None) with default_state.
    unfold id. cbn [andb]. rewrite Hfull.
    replace (set_stream (grow x n (set_stream d csid default_state)) csid default_state)
      with (set_stream (grow x n d) csid default_state); [done|].
    unfold set_stream, grow. cbn. by rewrite insert_insert_eq.
Qed.

Lemma decode_one_retry x n d d' ev :
  failed_ d = false -> decode_one d = Ok (InsufficientData, d', ev) ->
  ev = [] /\ failed_ d' = false /\ decode_one (grow x n d') = decode_one (grow x n d).
Proof.
  unfold decode_one at 1. intros Hnf H.
  apply bind_Ok_inv in H as ([[[d1 csid] state] r] & Hp & H).
  destruct r as [|code message|h].
  - simplify_eq. destruct (parse_chunk_retry x n _ _ _ _ Hnf Hp) as [H1 H2].
    split_and!; [done..|]. unfold decode_one. by rewrite H2.
  - destruct (fail d1 code message). by simplify_eq.
  - by apply commit_decides in H.
Qed.

(** [runs d d' ev]: the loop of [on_bytes_received] takes [d] to [d']. *)
Definition runs (d d' : ChunkDecoder) (ev : list Event) : Prop :=
  exists fuel, decode_loop fuel d = Ok (d', ev).

Lemma decode_loop_mono fuel fuel' d r :
  decode_loop fuel d = Ok r -> (fuel <= fuel')%nat -> decode_loop fuel' d = Ok r.
Proof.
  revert fuel' d r. induction fuel as [|fuel IH]; intros fuel' d r H Hle; [done|].
  destruct fuel' as [|fuel']; [lia|]. cbn [decode_loop] in *.
  apply bind_Ok_inv in H as ([[res d'] ev] & Hd & H). rewrite Hd, bind_Ok.
  destruct res; [|done..]. apply bind_Ok_inv in H as ([d'' more] & Hl & H).
  by rewrite (IH fuel' _ _ Hl ltac:(lia)).
Qed.

Lemma runs_step d d1 d2 ev more :
  decode_one d = Ok (Consumed, d1, ev) -> runs d1 d2 more -> runs d d2 (ev ++ more).
Proof. intros Hd [fuel Hf]. exists (S fuel). cbn [decode_loop]. by rewrite Hd, bind_Ok, Hf. Qed.

Lemma runs_stop d d1 ev res :
  decode_one d = Ok (res, d1, ev) -> res <> Consumed -> runs d d1 ev.
Proof. intros Hd Hr. exists 1%nat. cbn [decode_loop]. rewrite Hd, bind_Ok. by destruct res. Qed.

Lemma runs_same_one d d' d2 ev : decode_one d = decode_one d' -> runs d d2 ev -> runs d' d2 ev.
Proof. intros Heq [[|fuel] Hf]; [done|]. exists (S fuel). cbn [decode_loop] in *. by rewrite <- Heq. Qed.

Lemma runs_failed d d' ev : inv d -> failed_ d = true -> runs d d' ev -> d' = d /\ ev = [].
Proof.
  intros Hd Hf [[|fuel] H]; [done|]. cbn [decode_loop] in H.
  rewrite decode_one_failed, bind_Ok in H by done. by simplify_eq.
Qed.

Lemma runs_loop d d' ev fuel :
  inv d -> runs d d' ev -> Z.of_nat fuel > zlen (buffer_ d) -> decode_loop fuel d = Ok (d', ev).
Proof.
  intros Hd [fuel' Hf] Hfuel. pose proof (decode_loop_total fuel d Hd Hfuel) as Ht.
  destruct (decode_loop fuel d) as [r| | |] eqn:Hl; try done.
  pose proof (decode_loop_mono _ (Nat.max fuel fuel') _ _ Hf ltac:(lia)) as Hf'.
  pose proof (decode_loop_mono _ (Nat.max fuel fuel') _ _ Hl ltac:(lia)) as Hl'. congruence.
Qed.

(** Running out of input and going on with more is one run on all of it. *)
Lemma runs_grow x n fuel : forall d d1 d2 ev more,
  inv d -> decode_loop fuel d = Ok (d1, ev) -> runs (grow x n d1) d2 more ->
  runs (grow x n d) d2 (ev ++ more).
Proof.
  induction fuel as [|fuel IH]; intros d d1 d2 ev more Hd H Hmore; [done|].
  cbn [decode_loop] in H. destruct (failed_ d) eqn:Hnf.
  { rewrite decode_one_failed, bind_Ok in H by done. by simplify_eq. }
  pose proof (decode_one_total d Hd) as Ht.
  destruct (decode_one d) as [[[res d'] e]| | |] eqn:Hone; try done.
  rewrite bind_Ok in H. destruct Ht as (Hi & _ & _ & Hres). destruct res.
  - apply bind_Ok_inv in H as ([d'' m] & Hl & H). simplify_eq. rewrite <- (assoc_L (++)).
    eapply runs_step; [by apply decode_one_grow|]. by apply (IH d' d1).
  - simplify_eq. destruct (decode_one_retry x n _ _ _ Hnf Hone) as (-> & _ & Heq).
    by eapply runs_same_one.
  - simplify_eq. assert (Hg : inv (grow x n d1)).
    { destruct (inv_failed _ Hi Hres) as [Hb Hs]. unfold grow. rewrite Hres.
      destruct Hi. constructor; cbn; try done. }
    destruct (runs_failed _ _ _ Hg Hres Hmore) as [-> ->]. rewrite app_nil_r.
    eapply runs_stop; [by apply decode_one_grow|done].
Qed.

(** Decoding leaves the limits and the byte count alone. *)
Definition kept (d d' : ChunkDecoder) : Prop :=
  limits_ d' = limits_ d /\ bytes_received_ d' = bytes_received_ d.

Lemma fail_kept {A} (a : A) d code message r d' ev :
  (let '(d', ev) := fail d code message in Ok (a, d', ev)) = Ok (r, d', ev) -> kept d d'.
Proof. unfold fail. destruct (failed_ d); intros; by simplify_eq. Qed.

Lemma handle_protocol_control_kept d m r d' ev :
  handle_protocol_control d m = Ok (r, d', ev) -> kept d d'.
Proof.
  unfold handle_protocol_control.
  destruct (negb _); [intros; by simplify_eq|].
  destruct (_ =? MessageTypeId.SetChunkSize); [|destruct (_ =? MessageTypeId.AbortMessage);
    [|destruct (_ =? MessageTypeId.WindowAcknowledgementSize); [|intros; by simplify_eq]]];
    (destruct (zlen (payload m) <? 4); [apply fail_kept|]); intros (v & _ & H)%bind_Ok_inv;
    revert H; repeat first [destruct (_ =? 0) | destruct (_ <? _) | destruct (_ !! _)];
    first [apply fail_kept | intros; by simplify_eq].
Qed.

Lemma handle_complete_message_kept d csid state d' ev :
  handle_complete_message d csid state = Ok (d', ev) -> kept d d'.
Proof.
  unfold handle_complete_message. intros ([[h d1] ev1] & Hc & H)%bind_Ok_inv.
  apply handle_protocol_control_kept in Hc. destruct h; by simplify_eq.
Qed.

Lemma commit_kept d csid state h res d' ev :
  commit d csid state h = Ok (res, d', ev) -> kept d d'.
Proof.
  unfold commit. intros (rest & _ & H)%bind_Ok_inv.
  set (ds := if starting_new_message h then _ else _) in H.
  assert (Hds : kept d ds.1) by (unfold ds; by destruct (starting_new_message h)).
  destruct ds as [d1 st]. destruct Hds as [Hk1 Hk2]. cbn [fst] in *.
  unfold kept. rewrite <- Hk1, <- Hk2. clear d Hk1 Hk2.
  apply bind_Ok_inv in H as (slice & _ & H). apply bind_Ok_inv in H as (rest' & _ & H).
  destruct (_ && _); [by apply fail_kept in H|].
  destruct (_ =? 0); [|by simplify_eq].
  apply bind_Ok_inv in H as ([d3 ev3] & Hc & H). simplify_eq.
  by apply handle_complete_message_kept in Hc.
Qed.

Lemma decode_one_kept d res d' ev : decode_one d = Ok (res, d', ev) -> kept d d'.
Proof.
  unfold decode_one. intros ([[[d1 csid] state] r] & Hp & H)%bind_Ok_inv.
  assert (Hk : kept d d1).
  { unfold parse_chunk in Hp. apply bind_Ok_inv in Hp as ([[[fmt c] len]|] & _ & Hp);
      [|by simplify_eq].
    destruct (_ <? _); [by simplify_eq|]. destruct (negb _ && _); [by simplify_eq|].
    destruct (_ && (_ <=? _)); [by simplify_eq|].
    apply bind_Ok_inv in Hp as (r' & _ & Hp). by simplify_eq. }
  destruct Hk as [Hk1 Hk2]. unfold kept. rewrite <- Hk1, <- Hk2.
  destruct r; [by simplify_eq|by apply fail_kept in H|by apply commit_kept in H].
Qed.

Lemma decode_loop_kept fuel d d' ev : decode_loop fuel d = Ok (d', ev) -> kept d d'.
Proof.
  revert d d' ev. induction fuel as [|fuel IH]; intros d d' ev H; [done|]. cbn [decode_loop] in H.
  apply bind_Ok_inv in H as ([[res d1] e] & Hone & H).
  destruct (decode_one_kept _ _ _ _ Hone) as [Hk1 Hk2]. unfold kept. rewrite <- Hk1, <- Hk2.
  destruct res; [|by simplify_eq..].
  apply bind_Ok_inv in H as ([d2 m] & Hl & H). simplify_eq. by eapply IH.
Qed.

Lemma on_bytes_received_limits d data d' ev :
  on_bytes_received d data = Ok (d', ev) -> limits_ d' = limits_ d.
Proof.
  unfold on_bytes_received. destruct (_ || _); [by intros; simplify_eq|].
  intros H%decode_loop_kept. by destruct H.
Qed.

Lemma receive_all_limits reads d d' ev :
  receive_all d reads = Ok (d', ev) -> limits_ d' = limits_ d.
Proof.
  revert d ev. induction reads as [|a reads IH]; intros d ev H; cbn [receive_all] in H;
    [by simplify_eq|].
  apply bind_Ok_inv in H as ([d1 e1] & Ha & H). apply bind_Ok_inv in H as ([d2 e2] & Hr & H).
  simplify_eq. rewrite <- (on_bytes_received_limits _ _ _ _ Ha). by eapply IH.
Qed.

(** Two decoders that differ at most in the byte count, and not even there while
    they run: a failed decoder stops counting. *)
Definition same_decoder (d1 d2 : ChunkDecoder) : Prop :=
  d2 = set_bytes_received d1 (bytes_received_ d2) /\ (failed_ d1 = false -> d1 = d2).

Lemma same_decoder_refl d : same_decoder d d.
Proof. split; [by destruct d|done]. Qed.

Lemma same_decoder_trans d1 d2 d3 : same_decoder d1 d2 -> same_decoder d2 d3 -> same_decoder d1 d3.
Proof.
  intros [H1 H1'] [H2 H2']. split.
  - rewrite H2, H1. done.
  - intros Hf. rewrite H1' by done. apply H2'. rewrite H1. done.
Qed.

(** Splitting one read in two. *)
Lemma on_bytes_received_app d a b :
  inv d -> quiescent d ->
  exists d1 e1 d2 e2 d3, on_bytes_received d a = Ok (d1, e1) /\
    on_bytes_received d1 b = Ok (d2, e2) /\ inv d1 /\ quiescent d1 /\
    on_bytes_received d (a ++ b) = Ok (d3, e1 ++ e2) /\ same_decoder d2 d3.
Proof.
  intros Hd Hq. pose proof (on_bytes_received_total d a Hd Hq) as Ha.
  destruct (on_bytes_received d a) as [[d1 e1]| | |] eqn:Hon; try done.
  destruct Ha as (Hi & Hm & _ & Hq1). pose proof (on_bytes_received_total d1 b Hi Hq1) as Hb.
  destruct (on_bytes_received d1 b) as [[d2 e2]| | |] eqn:Hon2; try done. clear Hb.
  destruct (decide (b = [])) as [->|Hneb].
  { exists d1, e1, d1, [], d1. rewrite !app_nil_r. split_and!; try done; [|apply same_decoder_refl].
    unfold on_bytes_received. by rewrite orb_true_r. }
  exists d1, e1, d2, e2. unfold on_bytes_received in Hon.
  destruct (failed_ d) eqn:Hf; cbn [orb] in Hon.
  { simplify_eq. unfold on_bytes_received in *. rewrite Hf in *. cbn [orb] in *. simplify_eq.
    eexists. split_and!; try done. apply same_decoder_refl. }
  destruct (bool_decide_reflect (a = [])) as [->|Hne].
  { simplify_eq. exists d2. split_and!; try done. apply same_decoder_refl. }
  set (da := set_buffer _ _) in Hon.
  assert (Hda : inv da) by (destruct Hd; constructor; cbn; try done; by rewrite Hf).
  pose proof (decode_loop_kept _ _ _ _ Hon) as [_ Hcount].
  set (n := u64 (bytes_received_ d + zlen (a ++ b))).
  assert (Hab : on_bytes_received d (a ++ b) =
    decode_loop (loop_fuel (grow b n da)) (grow b n da)).
  { unfold on_bytes_received. rewrite Hf, bool_decide_eq_false_2 by (by destruct a). cbn [orb].
    replace (set_buffer (set_bytes_received d _) _) with (grow b n da); [done|].
    unfold grow, da. cbn. rewrite Hf. by rewrite <- (assoc_L (++)). }
  assert (Hgi : inv (grow b n da)) by (destruct Hda; constructor; cbn; try done; by rewrite Hf).
  assert (Hfuel : Z.of_nat (loop_fuel (grow b n da)) > zlen (buffer_ (grow b n da)))
    by (unfold loop_fuel, zlen; lia).
  rewrite Hab. destruct (failed_ d1) eqn:Hf1.
  - assert (Hstay : on_bytes_received d1 b = Ok (d1, [])) by (unfold on_bytes_received; by rewrite Hf1).
    rewrite Hstay in Hon2. simplify_eq. exists (grow b n d2).
    assert (Hg2 : inv (grow b n d2)).
    { destruct Hi as [? ? ? ? ? ? Hif]. constructor; cbn; try done. rewrite Hf1. tauto. }
    split_and!; try done.
    + apply runs_loop; [done| |done]. eapply runs_grow; [done|exact Hon|].
      eapply runs_stop; [by apply decode_one_failed|done].
    + destruct (inv_failed _ Hi Hf1) as [Hbuf _]. split; [|by rewrite Hf1].
      unfold grow. rewrite Hf1. destruct d2; cbn in *. by subst.
  - exists d2. split_and!; try done; [|apply same_decoder_refl].
    apply runs_loop; [done| |done]. eapply runs_grow; [done|exact Hon|].
    unfold on_bytes_received in Hon2. rewrite Hf1 in Hon2. cbn [orb] in Hon2.
    assert (Hn : n = u64 (bytes_received_ d1 + zlen b)).
    { rewrite Hcount. unfold n, da, u64. cbn. rewrite zlen_app, Z.add_mod_idemp_l by lia. f_equal. lia. }
    rewrite bool_decide_eq_false_2 in Hon2 by done.
    exists (loop_fuel (set_buffer (set_bytes_received d1 (u64 (bytes_received_ d1 + zlen b)))
      (buffer_ d1 ++ b))). rewrite <- Hon2. f_equal. unfold grow. by rewrite Hf1, Hn.
Qed.

Lemma receive_all_concat reads d :
  inv d -> quiescent d ->
  exists d1 d2 ev, receive_all d reads = Ok (d1, ev) /\
    on_bytes_received d (concat reads) = Ok (d2, ev) /\ same_decoder d1 d2.
Proof.
  revert d. induction reads as [|a reads IH]; intros d Hd Hq.
  - exists d, d, []. split_and!; [done| |apply same_decoder_refl].
    unfold on_bytes_received. by rewrite orb_true_r.
  - destruct (on_bytes_received_app d a (concat reads) Hd Hq)
      as (d1 & e1 & d2 & e2 & d3 & H1 & H2 & Hi1 & Hq1 & H3 & Hs).
    destruct (IH d1 Hi1 Hq1) as (d4 & d5 & e & H4 & H5 & Hs').
    rewrite H2 in H5. simplify_eq. exists d4, d3, (e1 ++ e). cbn [receive_all concat].
    rewrite H1, bind_Ok, H4. split_and!; [done|done|]. by eapply same_decoder_trans.
Qed.

(** * Properties *)

(** C1. The decoder on any traffic: however a peer's bytes are cut into reads, every call
    returns, no read leaves the buffer, and what is held stays bounded: at most
    [max_chunk_streams] streams, at most [max_buffered_payload_bytes] of reassembly
    (which [buffered_payload_bytes_] counts exactly) and less than [18 + min(max_message_size,
    chunk size)] raw bytes.  Every delivered message is at most [max_message_size] long with
    header fields in range, and the error handler is called at most once, after the last
    message, exactly when the decoder fails. *)
Theorem chunk_decoder_safe mms limits reads :
  0 <= mms < 2 ^ 32 -> limits_ok limits ->
  exists d ev, receive_all (make_decoder mms limits) reads = Ok (d, ev) /\
    Z.of_nat (size (streams_ d)) <= max_chunk_streams limits /\
    buffered_payload_bytes_ d = map_sum held (streams_ d) /\
    buffered_payload_bytes_ d <= max_buffered_payload_bytes limits /\
    zlen (buffer_ d) < 18 + Z.min mms (input_chunk_size_ d) /\
    exists msgs errs, ev = map MessageEvent msgs ++ map ErrorEvent errs /\
      Forall (message_ok mms) msgs /\
      if failed_ d then exists e, errs = [e] /\ is_protocol_error e else errs = [].
Proof.
  intros Hm Hl. pose proof (make_decoder_inv mms limits Hm Hl) as Hd.
  assert (Hq : quiescent (make_decoder mms limits)) by (by apply chunk_room_pos).
  pose proof (receive_all_total reads _ Hd Hq) as Ht.
  destruct (receive_all _ reads) as [[d ev]| | |] eqn:Hr; try done.
  destruct Ht as (Hi & Hmm & He & Hroom). cbn in Hmm. rewrite Hmm in *.
  assert (Hlim : limits_ d = limits) by (by apply (receive_all_limits _ _ _ _ Hr)).
  exists d, ev. destruct Hi. rewrite Hlim in *. split_and!; done.
Qed.

Lemma chunk_decoder_safe_witness :
  exists d ev, receive_all (make_decoder 1000 default_limits) [[x43]; [x02; x00; x00]] = Ok (d, ev) /\
    Z.of_nat (size (streams_ d)) <= max_chunk_streams default_limits /\
    buffered_payload_bytes_ d = map_sum held (streams_ d) /\
    buffered_payload_bytes_ d <= max_buffered_payload_bytes default_limits /\
    zlen (buffer_ d) < 18 + Z.min 1000 (input_chunk_size_ d) /\
    exists msgs errs, ev = map MessageEvent msgs ++ map ErrorEvent errs /\
      Forall (message_ok 1000) msgs /\
      if failed_ d then exists e, errs = [e] /\ is_protocol_error e else errs = [].
Proof. apply chunk_decoder_safe; [lia|]. unfold limits_ok. cbn. lia. Defined.

(** C27. Fragmentation independence: cutting the same bytes into reads in any way whatsoever
    gives the same handler calls in the same order as one read of them all, and the same
    decoder state (up to the byte count of a decoder that has failed, which stops counting). *)
Theorem chunk_decoder_fragmentation mms limits reads :
  0 <= mms < 2 ^ 32 -> limits_ok limits ->
  exists d1 d2 ev, receive_all (make_decoder mms limits) reads = Ok (d1, ev) /\
    on_bytes_received (make_decoder mms limits) (concat reads) = Ok (d2, ev) /\
    d2 = set_bytes_received d1 (bytes_received_ d2) /\ (failed_ d1 = false -> d1 = d2).
Proof.
  intros Hm Hl. pose proof (make_decoder_inv mms limits Hm Hl) as Hd.
  assert (Hq : quiescent (make_decoder mms limits)) by (by apply chunk_room_pos).
  by apply receive_all_concat.
Qed.

Lemma chunk_decoder_fragmentation_witness :
  exists d1 d2 ev,
    receive_all (make_decoder 1000 default_limits) [[x03; x00]; []; [x00; x07; x00]] = Ok (d1, ev) /\
    on_bytes_received (make_decoder 1000 default_limits) [x03; x00; x00; x07; x00] = Ok (d2, ev) /\
    d2 = set_bytes_received d1 (bytes_received_ d2) /\ (failed_ d1 = false -> d1 = d2).
Proof.
  apply (chunk_decoder_fragmentation 1000 default_limits [[x03; x00]; []; [x00; x07; x00]]);
    [lia|]. unfold limits_ok. cbn. lia.
Defined.
