(* ===== verification/ChunkEncoder.v ===== *)
(** The RTMP chunk serializer: protocol/chunk/chunk_encoder.hpp and
    chunk_encoder.cpp.  Every function that appends to [out] returns the bytes it
    appends. *)

From S2P Require Import Prelude Bytes Chunk.

(** [ChunkEncoder::ChunkStreamState]: the last header written on a chunk stream. *)
Record SentHeader := mkSent {
  sent_has_header : bool;
  sent_timestamp : Z;
  sent_delta : Z;
  sent_length : Z;
  sent_type_id : Z;
  sent_stream_id : Z;
  sent_extended : bool;
  sent_extended_value : Z
}.
Definition default_sent : SentHeader := mkSent false 0 0 0 0 0 false 0.

Record ChunkEncoder := mkEncoder { chunk_size_ : Z; sent_ : gmap Z SentHeader }.

Definition make_encoder (chunk_size : Z) : ChunkEncoder := mkEncoder chunk_size ∅.

Definition set_chunk_size (e : ChunkEncoder) (chunk_size : Z) : ChunkEncoder :=
  if chunk_size =? 0 then e else mkEncoder chunk_size (sent_ e).

Definition write_basic_header (fmt csid : Z) : list byte :=
  let fmt_bits := u8 (Z.shiftl (Z.land fmt 0x03) 6) in
  if csid <? 64 then [z2b (Z.lor fmt_bits (u8 csid))]
  else if csid <? 64 + 256 then [z2b fmt_bits; z2b (csid - 64)]
  else
    let remainder := csid - 64 in
    [z2b (Z.lor fmt_bits 0x01); z2b (Z.land remainder 0xFF);
     z2b (Z.land (Z.shiftr remainder 8) 0xFF)].

(** The message header after the basic header; [field] is the timestamp (fmt 0) or
    the delta (fmt 1 and 2). *)
Definition write_message_header (fmt field : Z) (extended_active : bool)
    (length type_id stream_id : Z) : list byte :=
  let ts := write_u24_be (if extended_active then kExtendedTimestampMarker else field) in
  if fmt =? 0 then
    ts ++ write_u24_be (u32 length) ++ [z2b type_id] ++ append_u32_le stream_id
  else if fmt =? 1 then ts ++ write_u24_be (u32 length) ++ [z2b type_id]
  else if fmt =? 2 then ts
  else [].

Definition write_extended (extended_active : bool) (extended_value : Z) : list byte :=
  if extended_active then write_u32_be extended_value else [].

(** The [do ... while] that cuts the payload into pieces; every piece after the
    first is prefixed with a fmt3 header. *)
Fixpoint write_pieces (fuel : nat) (chunk_size csid : Z) (extended_active : bool)
    (extended_value : Z) (payload : list byte) (offset : Z) (first_piece : bool)
    : Res (list byte) :=
  match fuel with
  | O => OutOfFuel
  | S fuel =>
    let total := zlen payload in
    let piece := Z.min chunk_size (total - offset) in
    let header := if first_piece then []
                  else write_basic_header 3 csid ++ write_extended extended_active extended_value in
    bytes <- subspan payload offset piece ;;
    let offset := offset + piece in
    if offset <? total then
      more <- write_pieces fuel chunk_size csid extended_active extended_value payload offset
                false ;;
      Ok (header ++ bytes ++ more)
    else Ok (header ++ bytes)
  end.

(** Every piece but the last takes at least one byte. *)
Definition pieces_fuel (payload : list byte) : nat := S (length payload).

(** The smallest header form the chunk stream's previous header allows, and the
    timestamp delta it carries. *)
Definition select_fmt (state : SentHeader) (message : RtmpMessage) : Z * Z :=
  let have_valid_delta :=
    sent_has_header state && (sent_timestamp state <=? timestamp message) in
  if negb (sent_has_header state) ||
     negb (message_stream_id message =? sent_stream_id state) || negb have_valid_delta
  then (0, 0) else
  let delta := u32 (timestamp message - sent_timestamp state) in
  if negb (zlen (payload message) =? sent_length state) ||
     negb (message_type_id message =? sent_type_id state) then (1, delta)
  else if negb (delta =? sent_delta state) then (2, delta)
  else (3, delta).

Definition select_extended (state : SentHeader) (message : RtmpMessage) (fmt delta : Z)
    : bool * Z :=
  if fmt =? 0 then (kExtendedTimestampMarker <=? timestamp message, timestamp message)
  else if (fmt =? 1) || (fmt =? 2) then (kExtendedTimestampMarker <=? delta, delta)
  else (sent_extended state, sent_extended_value state).

Definition encode_message (e : ChunkEncoder) (message : RtmpMessage)
    : Res (ChunkEncoder * list byte) :=
  let csid := chunk_stream_id message in
  let state := default default_sent (sent_ e !! csid) in
  let '(fmt, delta) := select_fmt state message in
  let '(extended_active, extended_value) := select_extended state message fmt delta in
  let header :=
    write_basic_header fmt csid ++
    write_message_header fmt (if fmt =? 0 then timestamp message else delta) extended_active
      (zlen (payload message)) (message_type_id message) (message_stream_id message) ++
    write_extended extended_active extended_value in
  let state := mkSent true (timestamp message) (if fmt =? 0 then 0 else delta)
    (u32 (zlen (payload message))) (message_type_id message) (message_stream_id message)
    extended_active extended_value in
  let e := mkEncoder (chunk_size_ e) (<[csid := state]> (sent_ e)) in
  pieces <- write_pieces (pieces_fuel (payload message)) (chunk_size_ e) csid extended_active
              extended_value (payload message) 0 true ;;
  Ok (e, header ++ pieces).

(** The stateless form live fan-out shares between viewers. *)
Definition encode_message_fmt0 (chunk_size chunk_stream_id message_stream_id message_type_id
    timestamp : Z) (payload : list byte) : Res (list byte) :=
  let extended := kExtendedTimestampMarker <=? timestamp in
  pieces <- write_pieces (pieces_fuel payload) chunk_size chunk_stream_id extended timestamp
              payload 0 true ;;
  Ok (write_basic_header 0 chunk_stream_id ++
      write_message_header 0 timestamp extended (zlen payload) message_type_id
        message_stream_id ++
      write_extended extended timestamp ++ pieces).

(** The protocol-control helpers, all on chunk stream 2 and message stream 0. *)
Definition control_message (type_id : Z) (payload : list byte) : RtmpMessage :=
  mkRtmpMessage kProtocolControlChunkStreamId kProtocolControlMessageStreamId type_id 0 payload.

Definition encode_set_chunk_size (e : ChunkEncoder) (new_chunk_size : Z) :=
  encode_message e (control_message MessageTypeId.SetChunkSize
    (write_u32_be (Z.land new_chunk_size 0x7FFFFFFF))).

Definition encode_abort_message (e : ChunkEncoder) (target_chunk_stream_id : Z) :=
  encode_message e (control_message MessageTypeId.AbortMessage
    (write_u32_be target_chunk_stream_id)).

Definition encode_acknowledgement (e : ChunkEncoder) (sequence_number : Z) :=
  encode_message e (control_message MessageTypeId.Acknowledgement
    (write_u32_be sequence_number)).

Definition encode_window_acknowledgement_size (e : ChunkEncoder) (window_size : Z) :=
  encode_message e (control_message MessageTypeId.WindowAcknowledgementSize
    (write_u32_be window_size)).

Definition encode_set_peer_bandwidth (e : ChunkEncoder) (window_size : Z)
    (limit_type : PeerBandwidthLimitType.t) :=
  encode_message e (control_message MessageTypeId.SetPeerBandwidth
    (write_u32_be window_size ++ [z2b (PeerBandwidthLimitType.code limit_type)])).

(** * Sizes and totality *)

Lemma write_pieces_S fuel chunk_size csid ext extval payload offset first :
  0 < chunk_size -> 0 <= offset <= zlen payload ->
  write_pieces (S fuel) chunk_size csid ext extval payload offset first =
  (let piece := Z.min chunk_size (zlen payload - offset) in
   let header := if first then [] else write_basic_header 3 csid ++ write_extended ext extval in
   let bytes := take (Z.to_nat piece) (drop (Z.to_nat offset) payload) in
   if offset + piece <? zlen payload then
     more <- write_pieces fuel chunk_size csid ext extval payload (offset + piece) false ;;
     Ok (header ++ bytes ++ more)
   else Ok (header ++ bytes)).
Proof.
  intros Hc Ho. cbn [write_pieces]. unfold subspan.
  rewrite !(proj2 (Z.leb_le _ _)) by lia. reflexivity.
Qed.

(** The first piece of a payload and what follows it. *)
Lemma write_pieces_split fuel chunk_size csid ext extval payload offset first out :
  0 < chunk_size -> 0 <= offset <= zlen payload ->
  write_pieces (S fuel) chunk_size csid ext extval payload offset first = Ok out ->
  let piece := Z.min chunk_size (zlen payload - offset) in
  let bytes := take (Z.to_nat piece) (drop (Z.to_nat offset) payload) in
  zlen bytes = piece /\
  exists rest,
    out = (if first then [] else write_basic_header 3 csid ++ write_extended ext extval) ++ bytes ++ rest /\
    (if offset + piece <? zlen payload
     then write_pieces fuel chunk_size csid ext extval payload (offset + piece) false = Ok rest
     else rest = []).
Proof.
  intros Hc Ho H. cbn zeta. rewrite write_pieces_S in H by done. cbn zeta in H. split.
  - apply zlen_take. rewrite zlen_drop by lia. lia.
  - destruct (_ <? zlen payload).
    + apply bind_Ok_inv in H as (more & Hmore & H). simplify_eq. eauto.
    + simplify_eq. exists []. by rewrite app_nil_r.
Qed.

Lemma write_pieces_total fuel chunk_size csid ext extval payload offset first :
  0 < chunk_size -> 0 <= offset <= zlen payload ->
  Z.of_nat fuel > zlen payload - offset ->
  exists out, write_pieces fuel chunk_size csid ext extval payload offset first = Ok out.
Proof.
  intros Hc. revert offset first. induction fuel as [|fuel IH]; intros offset first Ho Hf; [lia|].
  rewrite write_pieces_S by done. cbn zeta. destruct (Z.ltb_spec
    (offset + Z.min chunk_size (zlen payload - offset)) (zlen payload)); [|eauto].
  destruct (IH (offset + Z.min chunk_size (zlen payload - offset)) false) as [out ->]; [lia..|].
  rewrite bind_Ok. eauto.
Qed.

Lemma encode_message_total e m :
  0 < chunk_size_ e -> exists e' out, encode_message e m = Ok (e', out) /\ chunk_size_ e' = chunk_size_ e.
Proof.
  intros Hc. unfold encode_message. destruct (select_fmt _ _) as [fmt delta].
  destruct (select_extended _ _ _ _) as [ext extval].
  destruct (write_pieces_total (pieces_fuel (payload m)) (chunk_size_ e) (chunk_stream_id m) ext
    extval (payload m) 0 true) as [out Hout]; [done|zlia|unfold pieces_fuel, zlen; lia|].
  cbn [chunk_size_]. rewrite Hout, bind_Ok. eauto.
Qed.
