(* ===== verification/ChunkRoundTrip.v ===== *)
(** The chunk layer's two ends together: a decoder reads back, message for
    message, what an encoder that started with it writes. *)

From S2P Require Import Prelude Bytes Chunk ChunkDecoder ChunkEncoder.

(** * Headers read back *)

Lemma fmt_bits_eq fmt : 0 <= fmt <= 3 -> u8 (Z.shiftl (Z.land fmt 0x03) 6) = fmt * 2 ^ 6.
Proof.
  intros Hf. change 0x03 with (2 ^ 2 - 1). rewrite land_ones_mod, Z.mod_small by lia.
  unfold u8. rewrite Z.shiftl_mul_pow2, Z.mod_small by lia. done.
Qed.

Lemma zlen_write_basic_header fmt csid :
  1 <= zlen (write_basic_header fmt csid) <= 3.
Proof. unfold write_basic_header. destruct (csid <? 64), (csid <? 64 + 256); zlia. Qed.

(** The first byte of a basic header, taken apart again. *)
Lemma basic_byte fmt field : 0 <= fmt <= 3 -> 0 <= field < 64 ->
  b2z (z2b (fmt * 2 ^ 6 + field)) = fmt * 2 ^ 6 + field /\
  Z.land (Z.shiftr (fmt * 2 ^ 6 + field) 6) 0x03 = fmt /\
  Z.land (fmt * 2 ^ 6 + field) 0x3F = field.
Proof.
  intros Hf Hl. rewrite b2z_z2b, Z.mod_small by lia.
  change 0x03 with (2 ^ 2 - 1). change 0x3F with (2 ^ 6 - 1). rewrite !land_ones_mod by lia.
  rewrite Z.shiftr_div_pow2 by lia. Z.div_mod_to_equations. lia.
Qed.

Lemma read_write_basic_header fmt csid l :
  0 <= fmt <= 3 -> 2 <= csid <= 65599 ->
  read_basic_header (write_basic_header fmt csid ++ l)
  = Ok (Some (fmt, csid, zlen (write_basic_header fmt csid))).
Proof.
  intros Hf Hc. unfold read_basic_header.
  rewrite bool_decide_eq_false_2
    by (unfold write_basic_header; destruct (csid <? 64), (csid <? 64 + 256); discriminate).
  unfold write_basic_header. rewrite fmt_bits_eq by done.
  destruct (Z.ltb_spec csid 64); [|destruct (Z.ltb_spec csid (64 + 256))].
  - unfold u8. rewrite Z.mod_small, lor_mult_add by lia.
    destruct (basic_byte fmt csid Hf) as (H1 & H2 & H3); [lia|].
    set (buf := _ ++ l). pose proof (at_suffix_0 buf) as Hs. unfold buf at 2 in Hs. cbn [app] in Hs.
    rewrite (u8_at_suffix _ _ _ _ Hs), H1, bind_Ok, H2, H3.
    rewrite (proj2 (Z.eqb_neq csid 0)), (proj2 (Z.eqb_neq csid 1)) by lia.
    rewrite (proj2 (Z.ltb_ge _ _)) by (unfold buf; zlia). done.
  - destruct (basic_byte fmt 0 Hf) as (H1 & H2 & H3); [lia|]. rewrite Z.add_0_r in *.
    set (buf := _ ++ l). pose proof (at_suffix_0 buf) as Hs. unfold buf at 2 in Hs. cbn [app] in Hs.
    rewrite (u8_at_suffix _ _ _ _ Hs), H1, bind_Ok, H2, H3. cbn [Z.eqb].
    rewrite (proj2 (Z.ltb_ge _ _)) by (unfold buf; zlia).
    apply at_suffix_cons in Hs. change (0 + 1) with 1 in Hs.
    rewrite (u8_at_suffix _ _ _ _ Hs), b2z_z2b, Z.mod_small, !bind_Ok by lia.
    do 4 f_equal. lia.
  - rewrite lor_mult_add by lia.
    destruct (basic_byte fmt 1 Hf) as (H1 & H2 & H3); [lia|].
    set (buf := _ ++ l). pose proof (at_suffix_0 buf) as Hs. unfold buf at 2 in Hs. cbn [app] in Hs.
    rewrite (u8_at_suffix _ _ _ _ Hs), H1, bind_Ok, H2, H3. cbn [Z.eqb Pos.eqb].
    rewrite (proj2 (Z.ltb_ge _ _)) by (unfold buf; zlia).
    apply at_suffix_cons in Hs. change (0 + 1) with 1 in Hs.
    rewrite (u8_at_suffix _ _ _ _ Hs), byte_field_0, !bind_Ok.
    apply at_suffix_cons in Hs. change (1 + 1) with 2 in Hs.
    rewrite (u8_at_suffix _ _ _ _ Hs), byte_field, !bind_Ok by lia.
    do 4 f_equal. Z.div_mod_to_equations. lia.
Qed.

Lemma zlen_write_message_header fmt field ext len type_id stream_id :
  0 <= fmt <= 3 ->
  zlen (write_message_header fmt field ext len type_id stream_id) = message_header_len fmt.
Proof.
  intros Hf. unfold write_message_header, message_header_len.
  assert (H : fmt = 0 \/ fmt = 1 \/ fmt = 2 \/ fmt = 3) by lia.
  by destruct H as [-> | [-> | [-> | -> ] ] ].
Qed.

Lemma zlen_write_extended ext v : zlen (write_extended ext v) = if ext then 4 else 0.
Proof. by destruct ext. Qed.

(** The header fields a chunk carries or inherits. *)
Definition inherits (fmt len type_id stream_id : Z) (st : ChunkStreamState) : Prop :=
  (1 <= fmt -> stream_id = state_stream_id st) /\
  (2 <= fmt -> len = message_length st /\ type_id = state_type_id st).

Lemma read_write_message_header buf fmt off field ext len type_id stream_id st l :
  0 <= fmt <= 3 -> 0 <= field < 2 ^ 24 -> 0 <= len < 2 ^ 24 -> 0 <= type_id < 2 ^ 8 ->
  0 <= stream_id < 2 ^ 32 -> inherits fmt len type_id stream_id st ->
  at_suffix buf off (write_message_header fmt field ext len type_id stream_id ++ l) ->
  read_message_header buf fmt off st =
    Ok (if fmt =? 3 then 0 else if ext then kExtendedTimestampMarker else field,
        len, type_id, stream_id).
Proof.
  intros Hf Hfield Hlen Htype Hstream [Hi1 Hi2] Hs.
  set (ts := if ext then kExtendedTimestampMarker else field) in *.
  assert (Hts : ts mod 2 ^ 24 = ts)
    by (apply Z.mod_small; unfold ts, kExtendedTimestampMarker; destruct ext; lia).
  unfold write_message_header, read_message_header in *. fold ts in Hs.
  assert (H : fmt = 0 \/ fmt = 1 \/ fmt = 2 \/ fmt = 3) by lia.
  destruct H as [-> | [-> | [-> | -> ] ] ]; cbn [Z.eqb Pos.eqb] in *; rewrite <- ?(assoc_L (++)) in Hs.
  - rewrite (read_u24_be_at_suffix _ _ _ _ Hs), Hts, bind_Ok.
    apply at_suffix_app in Hs. rewrite zlen_write_u24_be in Hs.
    rewrite (read_u24_be_at_suffix _ _ _ _ Hs), bind_Ok.
    apply at_suffix_app in Hs. rewrite zlen_write_u24_be, <- Z.add_assoc in Hs.
    change (3 + 3) with 6 in Hs. cbn [app] in Hs.
    rewrite (u8_at_suffix _ _ _ _ Hs), bind_Ok. apply at_suffix_cons in Hs.
    rewrite <- Z.add_assoc in Hs. change (6 + 1) with 7 in Hs.
    rewrite (read_u32_le_at_suffix _ _ _ _ Hs), bind_Ok, b2z_z2b.
    unfold u32. by rewrite !Z.mod_small by (rewrite ?Z.mod_small by lia; lia).
  - rewrite (read_u24_be_at_suffix _ _ _ _ Hs), Hts, bind_Ok.
    apply at_suffix_app in Hs. rewrite zlen_write_u24_be in Hs.
    rewrite (read_u24_be_at_suffix _ _ _ _ Hs), bind_Ok.
    apply at_suffix_app in Hs. rewrite zlen_write_u24_be, <- Z.add_assoc in Hs.
    change (3 + 3) with 6 in Hs. cbn [app] in Hs.
    rewrite (u8_at_suffix _ _ _ _ Hs), bind_Ok, b2z_z2b, <- Hi1 by lia.
    unfold u32. by rewrite !Z.mod_small by (rewrite ?Z.mod_small by lia; lia).
  - rewrite (read_u24_be_at_suffix _ _ _ _ Hs), Hts, bind_Ok.
    destruct Hi2 as [-> ->]; [lia|]. by rewrite Hi1 by lia.
  - destruct Hi2 as [-> ->]; [lia|]. by rewrite Hi1 by lia.
Qed.

(** * One chunk *)

(** The timestamp and delta the decoder computes when a message starts. *)
Definition decoded_time (fmt field : Z) (ext : bool) (extval : Z) (st : ChunkStreamState)
    : Z * Z :=
  if fmt =? 0 then (if ext then extval else field, 0) else
  let delta := if ext then extval else if fmt =? 3 then timestamp_delta st else field in
  (u32 (base_timestamp st + delta), delta).

(** A 24-bit field is written as itself or, extended, as the marker. *)
Definition field_ok (fmt field : Z) (ext : bool) (st : ChunkStreamState) : Prop :=
  if fmt =? 3 then ext = extended_timestamp st
  else ext = (kExtendedTimestampMarker <=? field).

Definition header_len (fmt csid : Z) (ext : bool) : Z :=
  zlen (write_basic_header fmt csid) + message_header_len fmt + (if ext then 4 else 0).

Record start_chunk (st : ChunkStreamState) (mms fmt csid field : Z) (ext : bool)
    (extval len type_id stream_id : Z) : Prop := mkStart {
  sc_fmt : 0 <= fmt <= 3;
  sc_csid : 2 <= csid <= 65599;
  sc_idle : bytes_remaining st = 0;
  sc_ext : field_ok fmt field ext st;
  sc_field : 0 <= field < 2 ^ 32;
  sc_extval : 0 <= extval < 2 ^ 32;
  sc_len : 0 <= len < 2 ^ 24 /\ len <= mms;
  sc_type : 0 <= type_id < 2 ^ 8;
  sc_stream : 0 <= stream_id < 2 ^ 32;
  sc_inherits : inherits fmt len type_id stream_id st
}.

Definition start_header (st : ChunkStreamState) (fmt csid field : Z) (ext : bool)
    (extval len type_id stream_id slice : Z) : Header :=
  mkHeader true len type_id stream_id (fst (decoded_time fmt field ext extval st))
    (snd (decoded_time fmt field ext extval st)) ext (header_len fmt csid ext) slice.

(** The fields of a starting chunk, read back. *)
Lemma read_start_fields st mms fmt csid field ext extval len type_id stream_id buf off l :
  start_chunk st mms fmt csid field ext extval len type_id stream_id ->
  at_suffix buf off (write_message_header fmt field ext len type_id stream_id ++ l) ->
  read_message_header buf fmt off st =
    Ok (if fmt =? 3 then 0 else if ext then kExtendedTimestampMarker else field,
        len, type_id, stream_id).
Proof.
  intros [Hfmt Hcsid Hidle Hext Hfield Hextval [Hlen Hmms] Htype Hstream Hinh] Hs.
  unfold field_ok, kExtendedTimestampMarker in Hext. destruct (Z.eqb_spec fmt 3) as [->|Hne].
  - apply (read_write_message_header _ 3 _ 0 ext _ _ _ _ l); try done; lia.
  - destruct ext.
    + rewrite (read_write_message_header _ fmt _ 0 true len type_id stream_id st l); try done; try lia.
      by rewrite (proj2 (Z.eqb_neq _ _) Hne).
    + rewrite (read_write_message_header _ fmt _ field false len type_id stream_id st l); try done; try lia.
      by rewrite (proj2 (Z.eqb_neq _ _) Hne).
Qed.

(** Whether the extended field is there, as the decoder tells it. *)
Lemma start_needs_extended st fmt field ext :
  field_ok fmt field ext st ->
  (if fmt =? 3 then extended_timestamp st
   else (if fmt =? 3 then 0 else if ext then kExtendedTimestampMarker else field)
        =? kExtendedTimestampMarker) = ext.
Proof.
  unfold field_ok, kExtendedTimestampMarker. destruct (Z.eqb_spec fmt 3); [done|].
  destruct ext; [done|]. lia.
Qed.

(** The two computations of the timestamp agree. *)
Lemma start_time st fmt field (ext : bool) extval :
  (if fmt =? 0 then (if ext then if ext then extval else 0 else
        if fmt =? 3 then 0 else if ext then kExtendedTimestampMarker else field, 0)
   else let delta := if ext then if ext then extval else 0
             else if fmt =? 3 then timestamp_delta st
             else if fmt =? 3 then 0 else if ext then kExtendedTimestampMarker else field in
        (u32 (base_timestamp st + delta), delta)) = decoded_time fmt field ext extval st.
Proof.
  unfold decoded_time. destruct (Z.eqb_spec fmt 0) as [He0|Hn0], ext;
    destruct (fmt =? 3) eqn:E3; try done; exfalso; lia.
Qed.

Lemma resolve_start st mms ics fmt csid field ext extval len type_id stream_id slice tail :
  start_chunk st mms fmt csid field ext extval len type_id stream_id ->
  zlen slice = Z.min len ics ->
  resolve_header (write_basic_header fmt csid ++
      write_message_header fmt field ext len type_id stream_id ++
      write_extended ext extval ++ slice ++ tail)
    mms ics st fmt (zlen (write_basic_header fmt csid))
  = Ok (Accept (start_header st fmt csid field ext extval len type_id stream_id (zlen slice))).
Proof.
  intros Hsc Hslice. pose proof Hsc as [Hfmt Hcsid Hidle Hext Hfield Hextval [Hlen Hmms] Htype Hstream Hinh].
  unfold resolve_header. rewrite Hidle. cbn [Z.ltb Z.compare]. rewrite andb_false_r. cbn [negb].
  rewrite andb_false_r.
  set (buf := _ ++ _). pose proof (zlen_write_basic_header fmt csid) as Hb.
  pose proof (zlen_write_message_header fmt field ext len type_id stream_id Hfmt) as Hmh.
  pose proof (zlen_write_extended ext extval) as He.
  assert (Hs : at_suffix buf (zlen (write_basic_header fmt csid))
    (write_message_header fmt field ext len type_id stream_id ++
     write_extended ext extval ++ slice ++ tail)) by apply at_suffix_intro.
  assert (Hbuf : zlen buf = zlen (write_basic_header fmt csid) + message_header_len fmt +
    (if ext then 4 else 0) + zlen slice + zlen tail) by (unfold buf; rewrite !zlen_app; lia).
  rewrite (read_start_fields st mms fmt csid field ext extval len type_id stream_id _ _ _ Hsc Hs), bind_Ok.
  rewrite (start_needs_extended st fmt field ext) by done.
  apply at_suffix_app in Hs. rewrite Hmh in Hs. pose proof (zlen_nonneg tail).
  pose proof (zlen_nonneg slice).
  set (off := _ + message_header_len fmt) in *.
  rewrite (proj2 (Z.ltb_ge _ _)) by (destruct ext; lia).
  assert (Hev : (if ext then read_u32_be_at buf off else Ok 0) = Ok (if ext then extval else 0)).
  { destruct ext; [|done]. rewrite (read_u32_be_at_suffix _ _ _ _ Hs).
    unfold u32. by rewrite Z.mod_small. }
  rewrite Hev, bind_Ok. cbn [andb].
  pose proof (start_time st fmt field ext extval) as Htime. cbn zeta in Htime |- *. rewrite Htime.
  unfold start_header. destruct (decoded_time fmt field ext extval st) as [tm delta].
  rewrite (proj2 (Z.ltb_ge mms len)) by lia. rewrite <- Hslice.
  rewrite (proj2 (Z.ltb_ge _ _)) by (destruct ext; lia).
  do 3 f_equal. unfold header_len, off. destruct ext; lia.
Qed.

Definition continue_header (st : ChunkStreamState) (csid slice : Z) : Header :=
  mkHeader false (message_length st) (state_type_id st) (state_stream_id st) (base_timestamp st)
    (timestamp_delta st) (extended_timestamp st) (header_len 3 csid (extended_timestamp st)) slice.

Lemma resolve_continue st mms ics csid extval slice tail :
  has_header st = true -> 0 < bytes_remaining st -> 0 <= extval < 2 ^ 32 ->
  zlen slice = Z.min (bytes_remaining st) ics ->
  resolve_header (write_basic_header 3 csid ++ write_extended (extended_timestamp st) extval ++
      slice ++ tail) mms ics st 3 (zlen (write_basic_header 3 csid))
  = Ok (Accept (continue_header st csid (zlen slice))).
Proof.
  intros Hh Hr Hextval Hslice. unfold resolve_header. rewrite Hh, (proj2 (Z.ltb_lt _ _) Hr).
  change (negb (3 =? 3) && (true && true)) with false. cbn iota.
  set (buf := _ ++ _). set (ext := extended_timestamp st) in *.
  assert (Hs : at_suffix buf (zlen (write_basic_header 3 csid) + 0)
    (write_extended ext extval ++ slice ++ tail)) by (rewrite Z.add_0_r; apply at_suffix_intro).
  assert (Hbuf : zlen buf = zlen (write_basic_header 3 csid) + (if ext then 4 else 0) +
    zlen slice + zlen tail) by (unfold buf; rewrite !zlen_app, zlen_write_extended; lia).
  pose proof (zlen_nonneg slice). pose proof (zlen_nonneg tail).
  change (read_message_header buf 3 _ st) with
    (Ok (0, message_length st, state_type_id st, state_stream_id st)).
  rewrite bind_Ok. change (message_header_len 3) with 0.
  change (if 3 =? 3 then ext else 0 =? kExtendedTimestampMarker) with ext.
  rewrite (proj2 (Z.ltb_ge _ _)) by (destruct ext; lia).
  assert (Hev : exists ev,
    (if ext then read_u32_be_at buf (zlen (write_basic_header 3 csid) + 0) else Ok 0) = Ok ev).
  { destruct ext; [|eauto]. rewrite (read_u32_be_at_suffix _ _ _ _ Hs). eauto. }
  destruct Hev as [ev ->].
  rewrite bind_Ok. cbn [negb andb]. rewrite <- Hslice.
  rewrite (proj2 (Z.ltb_ge _ _)) by (destruct ext; lia).
  unfold continue_header, header_len. fold ext. change (message_header_len 3) with 0.
  do 3 f_equal. destruct ext; lia.
Qed.

(** The table entry a chunk starts from. *)
Definition stream_for (d : ChunkDecoder) (fmt csid : Z) (st : ChunkStreamState) : Prop :=
  streams_ d !! csid = Some st \/
  (streams_ d !! csid = None /\ st = default_state /\ fmt = 0 /\
   Z.of_nat (size (streams_ d)) < max_chunk_streams (limits_ d)).

Lemma parse_chunk_accept d fmt csid st h rest :
  buffer_ d = write_basic_header fmt csid ++ rest -> 0 <= fmt <= 3 -> 2 <= csid <= 65599 ->
  message_header_len fmt <= zlen rest -> stream_for d fmt csid st ->
  resolve_header (buffer_ d) (max_message_size_ d) (input_chunk_size_ d) st fmt
    (zlen (write_basic_header fmt csid)) = Ok (Accept h) ->
  parse_chunk d = Ok (set_stream d csid st, csid, st, Accept h).
Proof.
  intros Hbuf Hf Hc Hlen Hst Hres. unfold parse_chunk.
  rewrite Hbuf, read_write_basic_header, bind_Ok by done.
  rewrite (proj2 (Z.ltb_ge _ _)) by zlia.
  destruct Hst as [Hst|(Hst & -> & -> & Hsize)]; rewrite Hst.
  - rewrite andb_false_r. cbn [andb]. change (default default_state (Some st)) with st.
    change (buffer_ (set_stream d csid st)) with (buffer_ d).
    change (max_message_size_ (set_stream d csid st)) with (max_message_size_ d).
    change (input_chunk_size_ (set_stream d csid st)) with (input_chunk_size_ d).
    by rewrite Hres.
  - cbn [Z.eqb negb andb]. rewrite (proj2 (Z.leb_gt _ _)) by done.
    change (default default_state None) with default_state.
    change (buffer_ (set_stream d csid default_state)) with (buffer_ d).
    change (max_message_size_ (set_stream d csid default_state)) with (max_message_size_ d).
    change (input_chunk_size_ (set_stream d csid default_state)) with (input_chunk_size_ d).
    by rewrite Hres.
Qed.

(** [d] with [buf] left to read, [n] bytes of reassembly held and stream [csid] at [s]. *)
Definition progress (d : ChunkDecoder) (csid : Z) (buf : list byte) (n : Z)
    (s : ChunkStreamState) : ChunkDecoder :=
  set_stream (set_buffered (set_buffer d buf) n) csid s.

Lemma progress_progress d csid b n s b' n' s' :
  progress (progress d csid b n s) csid b' n' s' = progress d csid b' n' s'.
Proof. unfold progress, set_stream. cbn. by rewrite insert_insert_eq. Qed.

Lemma progress_touched d csid s b n s' :
  progress (set_stream d csid s) csid b n s' = progress d csid b n s'.
Proof. unfold progress, set_stream. cbn. by rewrite insert_insert_eq. Qed.

(** A complete message: control messages act, the others reach the handler. *)
Definition deliver (d : ChunkDecoder) (m : RtmpMessage) : Res (ChunkDecoder * list Event) :=
  '(handled, d', ev) <- handle_protocol_control d m ;;
  if (handled : bool) then Ok (d', ev) else Ok (d', ev ++ [MessageEvent m]).

Section one_chunk.
Context (d : ChunkDecoder) (csid : Z) (st : ChunkStreamState) (h : Header).
Context (header slice tail : list byte).
Hypothesis Hinv : inv d.
Hypothesis Hrunning : failed_ d = false.
Hypothesis Hparse : parse_chunk d = Ok (set_stream d csid st, csid, st, Accept h).
Hypothesis Hbuf : buffer_ d = header ++ slice ++ tail.
Hypothesis Hheader : total_header_len h = zlen header.
Hypothesis Hslice : payload_slice h = zlen slice.
Hypothesis Hroom : buffered_payload_bytes_ d + zlen slice <= max_buffered_payload_bytes (limits_ d).

Lemma one_chunk_ok : chunk_ok (set_stream d csid st) csid st h.
Proof.
  pose proof (parse_chunk_total d Hinv Hrunning) as Ht. rewrite Hparse in Ht.
  destruct Ht as (H1 & H2 & H3 & H4 & H5 & H6 & H7 & H8). by constructor.
Qed.

Lemma one_chunk_bytes :
  take (Z.to_nat (payload_slice h)) (drop (Z.to_nat (total_header_len h)) (buffer_ d)) = slice /\
  drop (Z.to_nat (total_header_len h + payload_slice h)) (buffer_ d) = tail.
Proof.
  rewrite Hbuf, Hheader, Hslice. unfold zlen. split.
  - by rewrite !Nat2Z.id, drop_app_length, take_app_length.
  - rewrite <- Nat2Z.inj_add, Nat2Z.id, <- length_app, (assoc_L (++)), drop_app_length. done.
Qed.

Let current := current_state st h.

Lemma decode_one_chunk :
  decode_one d =
  if bytes_remaining current - zlen slice =? 0 then
    '(d', ev) <- deliver (progress d csid tail (buffered_payload_bytes_ d - held st)
                            (set_partial current [] 0))
      (mkRtmpMessage csid (state_stream_id current) (state_type_id current)
         (message_timestamp current) (partial_payload current ++ slice)) ;;
    Ok (Consumed, d', ev)
  else Ok (Consumed, progress d csid tail (buffered_payload_bytes_ d + zlen slice)
         (set_partial current (partial_payload current ++ slice)
            (bytes_remaining current - zlen slice)), []).
Proof.
  unfold decode_one. rewrite Hparse, bind_Ok. rewrite (commit_eq _ _ _ _ one_chunk_ok).
  rewrite (complete_inv _ _ _ _ one_chunk_ok). cbn zeta.
  change (buffer_ (set_stream d csid st)) with (buffer_ d).
  change (buffered_payload_bytes_ (set_stream d csid st)) with (buffered_payload_bytes_ d).
  change (limits_ (set_stream d csid st)) with (limits_ d).
  destruct one_chunk_bytes as [-> ->]. rewrite Hslice. fold current.
  cbn [set_stream set_buffered buffered_payload_bytes_].
  rewrite (proj2 (Z.ltb_ge (max_buffered_payload_bytes (limits_ d)) _)) by lia. rewrite andb_false_r.
  cbn [set_partial bytes_remaining state_stream_id state_type_id message_timestamp partial_payload].
  fold (progress (set_stream d csid st) csid tail (buffered_payload_bytes_ d - held st)
    (set_partial current [] (bytes_remaining current - zlen slice))).
  fold (progress (set_stream d csid st) csid tail (buffered_payload_bytes_ d + zlen slice)
    (set_partial current (partial_payload current ++ slice) (bytes_remaining current - zlen slice))).
  rewrite !progress_touched.
  destruct (Z.eqb_spec (bytes_remaining current - zlen slice) 0) as [->|]; [|done].
  unfold deliver. destruct (handle_protocol_control _ _) as [[[[|] d'] ev]| | |]; done.
Qed.
End one_chunk.

(** * A whole message *)

(** [steps d d' ev]: a run of [decode_one] calls that each consume a chunk. *)
Inductive steps : ChunkDecoder -> ChunkDecoder -> list Event -> Prop :=
| steps_refl d : steps d d []
| steps_cons d d1 d2 e es :
    decode_one d = Ok (Consumed, d1, e) -> steps d1 d2 es -> steps d d2 (e ++ es).

Lemma steps_one d d1 e : decode_one d = Ok (Consumed, d1, e) -> steps d d1 e.
Proof. intros H. rewrite <- (app_nil_r e). eapply steps_cons; [done|constructor]. Qed.

Lemma steps_silent d d1 d2 es :
  decode_one d = Ok (Consumed, d1, []) -> steps d1 d2 es -> steps d d2 es.
Proof. apply steps_cons. Qed.

Lemma steps_trans d d1 d2 e es : steps d d1 e -> steps d1 d2 es -> steps d d2 (e ++ es).
Proof.
  induction 1 as [d|d d1 d1' e1 es1 Hd _ IH]; intros H; [done|].
  rewrite <- (assoc_L (++)). eapply steps_cons; [done|auto].
Qed.

Lemma steps_runs d d1 d2 e es : steps d d1 e -> runs d1 d2 es -> runs d d2 (e ++ es).
Proof.
  induction 1 as [d|d d1 d1' e1 es1 Hd _ IH]; intros H; [done|].
  rewrite <- (assoc_L (++)). eapply runs_step; [done|auto].
Qed.

(** The state of a stream [off] bytes into a message. *)
Definition in_flight (csid len type_id stream_id ts delta : Z) (ext : bool) (payload : list byte)
    (off : Z) : ChunkStreamState :=
  mkState true ts delta len type_id stream_id ext (take (Z.to_nat off) payload) (len - off) ts.

Definition finished (len type_id stream_id ts delta : Z) (ext : bool) : ChunkStreamState :=
  mkState true ts delta len type_id stream_id ext [] 0 ts.

Lemma take_take_drop {A} (l : list A) a b : 0 <= a -> 0 <= b ->
  take (Z.to_nat a) l ++ take (Z.to_nat b) (drop (Z.to_nat a) l) = take (Z.to_nat (a + b)) l.
Proof. intros. rewrite Z2Nat.inj_add by lia. by rewrite take_take_drop. Qed.

Lemma decode_one_keeps d d1 e : inv d -> decode_one d = Ok (Consumed, d1, e) -> inv d1.
Proof.
  intros Hd H. pose proof (decode_one_total d Hd) as Ht. rewrite H in Ht. by destruct Ht.
Qed.

Section message.
Context (d : ChunkDecoder) (csid type_id stream_id ts delta extval : Z) (ext : bool).
Context (payload tail : list byte).
Let len := zlen payload.
Let m := mkRtmpMessage csid stream_id type_id ts payload.
Let flight := in_flight csid len type_id stream_id ts delta ext payload.
Hypothesis Hrunning : failed_ d = false.
Hypothesis Hcsid : 2 <= csid <= 65599.
Hypothesis Hextval : 0 <= extval < 2 ^ 32.
Hypothesis Hroom : buffered_payload_bytes_ d + len <= max_buffered_payload_bytes (limits_ d).
Hypothesis Hics : 1 <= input_chunk_size_ d.
Let at_offset (off : Z) (buf : list byte) :=
  progress d csid (buf ++ tail) (buffered_payload_bytes_ d + off) (flight off).

Lemma steps_continue fuel : forall off out d' ev,
  0 <= off < len -> inv (at_offset off out) ->
  write_pieces fuel (input_chunk_size_ d) csid ext extval payload off false = Ok out ->
  deliver (progress d csid tail (buffered_payload_bytes_ d)
    (finished len type_id stream_id ts delta ext)) m = Ok (d', ev) ->
  steps (at_offset off out) d' ev.
Proof.
  induction fuel as [|fuel IH]; intros off out d' ev Hoff Hinv Hout Hdel; [done|].
  apply write_pieces_split in Hout as [Hpiece (rest & -> & Hrest)]; [|lia|fold len; lia].
  fold len in Hpiece, Hrest, Hinv |- *. set (piece := Z.min (input_chunk_size_ d) (len - off)) in *.
  set (bytes := take (Z.to_nat piece) (drop (Z.to_nat off) payload)) in *. cbv iota in *.
  set (header := write_basic_header 3 csid ++ write_extended ext extval) in *.
  set (D := at_offset off _) in *.
  assert (Hparse : parse_chunk D = Ok (set_stream D csid (flight off), csid, flight off,
    Accept (continue_header (flight off) csid (zlen bytes)))).
  { apply (parse_chunk_accept D 3 csid (flight off) _ (write_extended ext extval ++ bytes ++ rest ++ tail));
      [|lia|done|apply zlen_nonneg|left; apply lookup_insert_eq|].
    - unfold D, at_offset, header. cbn. by rewrite <- !(assoc_L (++)).
    - replace (buffer_ D) with (write_basic_header 3 csid ++ write_extended ext extval ++
        bytes ++ rest ++ tail) by (unfold D, at_offset, header; cbn; by rewrite <- !(assoc_L (++))).
      apply resolve_continue; [done|cbn; lia|done|]. rewrite Hpiece. cbn. unfold piece.
      apply Z.min_comm. }
  pose proof (decode_one_chunk D csid (flight off) _ header bytes (rest ++ tail) Hinv Hrunning
    Hparse) as Hone.
  assert (Hbuf : buffer_ D = header ++ bytes ++ rest ++ tail)
    by (unfold D, at_offset; cbn; by rewrite <- !(assoc_L (++))).
  assert (Hhl : total_header_len (continue_header (flight off) csid (zlen bytes)) = zlen header).
  { cbn. unfold header_len, header. rewrite zlen_app, zlen_write_extended.
    change (message_header_len 3) with 0. lia. }
  specialize (Hone Hbuf Hhl eq_refl). change (limits_ D) with (limits_ d) in Hone.
  change (buffered_payload_bytes_ D) with (buffered_payload_bytes_ d + off) in Hone.
  specialize (Hone ltac:(rewrite Hpiece; lia)).
  change (current_state (flight off) _) with (flight off) in Hone.
  assert (Htake : partial_payload (flight off) ++ bytes = take (Z.to_nat (off + piece)) payload).
  { unfold bytes. cbn. apply take_take_drop; lia. }
  assert (Hrem : bytes_remaining (flight off) - zlen bytes = len - (off + piece))
    by (rewrite Hpiece; cbn; lia).
  assert (Hheld : held (flight off) = off) by (unfold held; cbn; apply zlen_take; fold len; lia).
  rewrite Htake, Hrem, Hheld in Hone. unfold D, at_offset in Hone. rewrite !progress_progress in Hone.
  rewrite Z.add_simpl_r, <- Z.add_assoc, Hpiece in Hone.
  destruct (Z.ltb_spec (off + piece) len) as [Hlt|Hge].
  - rewrite (proj2 (Z.eqb_neq _ _)) in Hone by lia.
    eapply steps_silent; [exact Hone|]. apply IH; [lia| |done|done].
    eapply decode_one_keeps; [exact Hinv|exact Hone].
  - rewrite (proj2 (Z.eqb_eq _ _)) in Hone by lia. subst rest. cbn [app] in Hone.
    rewrite (take_ge payload) in Hone by (unfold len, zlen in *; lia).
    apply steps_one. unfold D, at_offset. rewrite Hone.
    change (set_partial (flight off) [] 0) with (finished len type_id stream_id ts delta ext).
    change (mkRtmpMessage _ _ _ _ _) with m. by rewrite Hdel.
Qed.

(** A message from its first header to its delivery. *)
Lemma steps_message fmt field st pieces d' ev :
  inv d -> partial_payload st = [] -> stream_for d fmt csid st ->
  start_chunk st (max_message_size_ d) fmt csid field ext extval len type_id stream_id ->
  decoded_time fmt field ext extval st = (ts, delta) ->
  write_pieces (pieces_fuel payload) (input_chunk_size_ d) csid ext extval payload 0 true = Ok pieces ->
  buffer_ d = write_basic_header fmt csid ++
    write_message_header fmt field ext len type_id stream_id ++ write_extended ext extval ++
    pieces ++ tail ->
  deliver (progress d csid tail (buffered_payload_bytes_ d)
    (finished len type_id stream_id ts delta ext)) m = Ok (d', ev) ->
  steps d d' ev.
Proof.
  intros Hinv Hpart Hst Hsc Htime Hpieces Hbuf Hdel.
  pose proof (zlen_nonneg payload) as Hlen0. fold len in Hlen0.
  apply write_pieces_split in Hpieces as [Hpiece (rest & -> & Hrest)]; [|lia|fold len; lia].
  fold len in Hpiece, Hrest, Hbuf. rewrite Z.sub_0_r in Hpiece, Hrest, Hbuf. rewrite Z.add_0_l in Hrest.
  set (piece := Z.min (input_chunk_size_ d) len) in *.
  change (drop (Z.to_nat 0) payload) with payload in Hpiece, Hbuf.
  set (bytes := take (Z.to_nat piece) payload) in *. cbn [app] in Hbuf.
  rewrite <- (assoc_L (++)) in Hbuf.
  set (h := start_header st fmt csid field ext extval len type_id stream_id (zlen bytes)).
  pose proof (sc_fmt _ _ _ _ _ _ _ _ _ _ Hsc) as Hfmt.
  pose proof (zlen_write_message_header fmt field ext len type_id stream_id Hfmt) as Hmh.
  assert (Hparse : parse_chunk d = Ok (set_stream d csid st, csid, st, Accept h)).
  { eapply (parse_chunk_accept d fmt csid st); [exact Hbuf|done|done| |done|].
    - rewrite zlen_app, Hmh. zpos. lia.
    - rewrite Hbuf. apply resolve_start; [done|]. rewrite Hpiece. apply Z.min_comm. }
  set (header := write_basic_header fmt csid ++
    write_message_header fmt field ext len type_id stream_id ++ write_extended ext extval).
  pose proof (decode_one_chunk d csid st h header bytes (rest ++ tail) Hinv Hrunning Hparse) as Hone.
  assert (Hb : buffer_ d = header ++ bytes ++ rest ++ tail)
    by (rewrite Hbuf; unfold header; by rewrite <- !(assoc_L (++))).
  assert (Hhl : total_header_len h = zlen header).
  { cbn. unfold header_len, header. rewrite !zlen_app, zlen_write_extended, Hmh. lia. }
  specialize (Hone Hb Hhl eq_refl ltac:(rewrite Hpiece; lia)).
  assert (Hcur : current_state st h = flight 0).
  { unfold h, start_header. rewrite Htime. unfold flight, in_flight. rewrite Z.sub_0_r. done. }
  rewrite Hcur in Hone. change (bytes_remaining (flight 0)) with (len - 0) in Hone.
  rewrite Z.sub_0_r in Hone. change (partial_payload (flight 0) ++ bytes) with bytes in Hone.
  assert (Hheld : held st = 0) by (unfold held; by rewrite Hpart).
  rewrite Hheld, Z.sub_0_r, Hpiece in Hone.
  destruct (Z.ltb_spec piece len) as [Hlt|Hge].
  - rewrite (proj2 (Z.eqb_neq _ _)) in Hone by lia. eapply steps_silent; [exact Hone|].
    apply (steps_continue (length payload) piece rest d' ev); [lia| |done|done].
    eapply decode_one_keeps; [exact Hinv|exact Hone].
  - rewrite (proj2 (Z.eqb_eq _ _)) in Hone by lia. subst rest. cbn [app] in Hone.
    assert (Hall : bytes = payload) by (unfold bytes; replace piece with len by lia;
      unfold len, zlen; by rewrite Nat2Z.id, firstn_all).
    rewrite Hall in Hone. apply steps_one. rewrite Hone.
    change (set_partial (flight 0) [] 0) with (finished len type_id stream_id ts delta ext).
    change (mkRtmpMessage _ _ _ _ _) with m. by rewrite Hdel.
Qed.
End message.

(** * The two ends in step *)

(** The encoder's record of a chunk stream and the decoder's state of it agree, and
    the decoder is between messages on it. *)
Record sent_matches (s : SentHeader) (st : ChunkStreamState) : Prop := mkMatches {
  sm_header : sent_has_header s = true;
  sm_time : base_timestamp st = sent_timestamp s /\ 0 <= sent_timestamp s < 2 ^ 32;
  sm_delta : timestamp_delta st = sent_delta s;
  sm_length : message_length st = sent_length s;
  sm_type : state_type_id st = sent_type_id s;
  sm_stream : state_stream_id st = sent_stream_id s;
  sm_extended : extended_timestamp st = sent_extended s;
  sm_extval : 0 <= sent_extended_value s < 2 ^ 32;
  sm_idle : bytes_remaining st = 0 /\ partial_payload st = []
}.

Definition stream_in_step (s : option SentHeader) (st : option ChunkStreamState) : Prop :=
  match s, st with
  | None, None => True
  | Some s, Some st => sent_matches s st
  | _, _ => False
  end.

Record in_step (e : ChunkEncoder) (d : ChunkDecoder) : Prop := mkInStep {
  is_inv : inv d;
  is_running : failed_ d = false;
  is_chunk : chunk_size_ e = input_chunk_size_ d;
  is_idle : buffered_payload_bytes_ d = 0;
  is_streams : forall csid, stream_in_step (sent_ e !! csid) (streams_ d !! csid)
}.

(** The one header choice the decoder reads differently: a fmt3 header that repeats
    an extended {e timestamp} (from a fmt0 header) where the decoder expects the delta. *)
Definition stale_extended (e : ChunkEncoder) (m : RtmpMessage) : bool :=
  let state := default default_sent (sent_ e !! chunk_stream_id m) in
  let '(fmt, delta) := select_fmt state m in
  (fmt =? 3) && sent_extended state && negb (sent_extended_value state =? delta).

(** What the protocol and a decoder with these limits can carry. *)
Definition carriable (mms : Z) (limits : ChunkDecoderLimits) (e : ChunkEncoder)
    (m : RtmpMessage) : bool :=
  (2 <=? chunk_stream_id m) && (chunk_stream_id m <=? 65599) &&
  (0 <=? timestamp m) && (timestamp m <? 2 ^ 32) &&
  (0 <=? message_type_id m) && (message_type_id m <? 2 ^ 8) &&
  (0 <=? message_stream_id m) && (message_stream_id m <? 2 ^ 32) &&
  (zlen (payload m) <=? mms) && (zlen (payload m) <=? 0xFFFFFF) &&
  (zlen (payload m) <=? max_buffered_payload_bytes limits) &&
  (bool_decide (is_Some (sent_ e !! chunk_stream_id m)) ||
   (Z.of_nat (size (sent_ e)) <? max_chunk_streams limits)).

(** What a sender may hand to [encode_message] for a decoder with these limits. *)
Definition sendable (mms : Z) (limits : ChunkDecoderLimits) (e : ChunkEncoder)
    (m : RtmpMessage) : bool := carriable mms limits e m && negb (stale_extended e m).

Lemma in_step_size e d : in_step e d -> size (sent_ e) = size (streams_ d).
Proof.
  intros [_ _ _ _ Hs]. rewrite <- !size_dom. f_equal. apply set_eq. intros csid.
  rewrite !elem_of_dom. specialize (Hs csid). unfold stream_in_step in Hs.
  destruct (sent_ e !! csid), (streams_ d !! csid); try done;
    split; intros [? [=]]; eauto.
Qed.

(** The encoder's next record of the stream. *)
Definition sent_after (m : RtmpMessage) (fmt delta : Z) (ext : bool) (extval : Z) : SentHeader :=
  mkSent true (timestamp m) (if fmt =? 0 then 0 else delta) (u32 (zlen (payload m)))
    (message_type_id m) (message_stream_id m) ext extval.

Section send_one.
Context (e : ChunkEncoder) (d : ChunkDecoder) (m : RtmpMessage).
Hypothesis Hstep : in_step e d.
Hypothesis Hsend : carriable (max_message_size_ d) (limits_ d) e m = true.
Let csid := chunk_stream_id m.
Let len := zlen (payload m).
Let state := default default_sent (sent_ e !! csid).

Lemma carriable_ranges : 2 <= csid <= 65599 /\ 0 <= timestamp m < 2 ^ 32 /\
  0 <= message_type_id m < 2 ^ 8 /\ 0 <= message_stream_id m < 2 ^ 32 /\
  0 <= len < 2 ^ 24 /\ len <= max_message_size_ d /\ len <= max_buffered_payload_bytes (limits_ d).
Proof.
  pose proof (zlen_nonneg (payload m)). unfold csid, len. unfold carriable in Hsend.
  rewrite !andb_true_iff, !Z.leb_le, !Z.ltb_lt in Hsend. intuition lia.
Qed.

(** The decoder's view of the stream the message goes on. *)
Lemma stream_view : exists st, partial_payload st = [] /\ bytes_remaining st = 0 /\
  forall fmt, (sent_ e !! csid = None -> fmt = 0) -> stream_for d fmt csid st /\
  (sent_ e !! csid = None \/ sent_matches state st).
Proof.
  pose proof (is_streams _ _ Hstep csid) as Hs. unfold stream_in_step, state in *.
  destruct (sent_ e !! csid) as [s|] eqn:Hsent, (streams_ d !! csid) as [st|] eqn:Hst; try done.
  - exists st. destruct (sm_idle _ _ Hs). split_and!; try done. intros fmt _.
    split; [by left|by right].
  - exists default_state. split_and!; try done. intros fmt Hfmt. split; [|by left].
    right. split_and!; [done|done|by apply Hfmt|]. rewrite <- (in_step_size _ _ Hstep).
    unfold carriable in Hsend. fold csid in Hsend. rewrite Hsent in Hsend.
    rewrite bool_decide_eq_false_2 in Hsend by (by intros [? [=]]).
    rewrite !andb_true_iff in Hsend. destruct Hsend as [_ Hr]. cbn [orb] in Hr. lia.
Qed.

(** Whatever header form is chosen, the decoder resolves it to the message's fields. *)
Lemma select_spec st fmt delta ext extval :
  stale_extended e m = false ->
  bytes_remaining st = 0 -> sent_ e !! csid = None \/ sent_matches state st ->
  select_fmt state m = (fmt, delta) -> select_extended state m fmt delta = (ext, extval) ->
  (sent_ e !! csid = None -> fmt = 0) /\
  start_chunk st (max_message_size_ d) fmt csid (if fmt =? 0 then timestamp m else delta) ext extval
    len (message_type_id m) (message_stream_id m) /\
  decoded_time fmt (if fmt =? 0 then timestamp m else delta) ext extval st
    = (timestamp m, if fmt =? 0 then 0 else delta).
Proof.
  intros Hnot Hidle Hview Hsel Hext.
  pose proof carriable_ranges as (Hc & Ht & Hty & Hst & Hl & Hm & Hb).
  assert (Hstale : fmt = 3 -> ext = true -> extval = delta).
  { intros -> ->. unfold select_extended in Hext. cbn in Hext. injection Hext as He1 He2.
    unfold stale_extended in Hnot. fold csid in Hnot. fold state in Hnot.
    rewrite Hsel, He1, He2 in Hnot. cbn in Hnot. lia. }
  unfold select_fmt in Hsel.
  destruct (negb (sent_has_header state) || negb (message_stream_id m =? sent_stream_id state) || _)
    eqn:Hzero.
  - injection Hsel as <- <-. unfold select_extended in Hext. cbn in Hext. injection Hext as <- <-.
    split; [done|]. split; [constructor; try done; unfold inherits; lia|].
    unfold decoded_time. cbn [Z.eqb Pos.eqb]. by destruct (kExtendedTimestampMarker <=? _).
  - rewrite !orb_false_iff, !negb_false_iff, andb_true_iff in Hzero.
    destruct Hzero as [[Hhas Hsid] [_ Hle]].
    assert (Hsome : sent_ e !! csid <> None).
    { intros Hn. unfold state in Hhas. by rewrite Hn in Hhas. }
    destruct Hview as [?|[_ [Htime Hrange] Hd Hlen Htype Hstream Hex Hev _]]; [done|].
    assert (Hdelta : u32 (timestamp m - sent_timestamp state) = timestamp m - sent_timestamp state)
      by (apply Z.mod_small; lia).
    rewrite Hdelta in Hsel. split; [done|].
    assert (Hu : u32 (base_timestamp st + (timestamp m - sent_timestamp state)) = timestamp m).
    { rewrite Htime. unfold u32. rewrite Z.mod_small; lia. }
    destruct (negb (zlen (payload m) =? sent_length state) || _) eqn:Hone;
      [|destruct (negb (_ =? sent_delta state)) eqn:Htwo];
      injection Hsel as <- <-; unfold select_extended in Hext; cbn in Hext; injection Hext as <- <-;
      cbn [Z.eqb Pos.eqb].
    + split; [constructor; try done; unfold inherits; lia|].
      unfold decoded_time. cbn [Z.eqb Pos.eqb]. destruct (kExtendedTimestampMarker <=? _); by rewrite Hu.
    + fold len in Hone. split; [constructor; try done; unfold inherits; lia|].
      unfold decoded_time. cbn [Z.eqb Pos.eqb]. destruct (kExtendedTimestampMarker <=? _); by rewrite Hu.
    + assert (Hinh : inherits 3 len (message_type_id m) (message_stream_id m) st).
      { unfold inherits. fold len in Hone. lia. }
      split; [constructor; try done; lia|].
      unfold decoded_time. cbn [Z.eqb Pos.eqb]. destruct (sent_extended state) eqn:Hse.
      * rewrite Hstale by done. by rewrite Hu.
      * rewrite Hd. replace (sent_delta state) with (timestamp m - sent_timestamp state) by lia.
        by rewrite Hu.
Qed.

Lemma finished_inv st fmt delta ext tail :
  partial_payload st = [] -> stream_for d fmt csid st -> 0 <= delta < 2 ^ 32 ->
  inv (progress d csid tail 0
    (finished len (message_type_id m) (message_stream_id m) (timestamp m) delta ext)).
Proof.
  intros Hpart Hst Hdelta. destruct Hstep as [Hinv Hrun _ Hidle _].
  pose proof carriable_ranges as (Hc & Ht & Hty & Hs & Hl & Hm & Hb).
  assert (Htouch : inv (set_stream d csid st)).
  { destruct Hst as [Hl1|(Hl1 & -> & -> & Hsize)].
    - pose proof (inv_touch d csid Hinv) as H. rewrite Hl1 in H. by apply H.
    - pose proof (inv_touch d csid Hinv) as H. rewrite Hl1 in H. by apply H. }
  set (new := finished _ _ _ _ _ _).
  pose proof (inv_update (set_stream d csid st) tail csid st new Htouch Hrun) as Hu.
  change (buffered_payload_bytes_ (set_stream d csid st)) with (buffered_payload_bytes_ d) in Hu.
  unfold held in Hu. rewrite Hpart, Hidle in Hu. cbn [partial_payload new finished] in Hu.
  change (zlen (@nil byte)) with 0 in Hu. change (0 + 0 - 0) with 0 in Hu.
  fold (progress (set_stream d csid st) csid tail 0 new) in Hu. rewrite progress_touched in Hu.
  apply Hu; [apply lookup_insert_eq| |].
  - constructor; cbn; try done; try lia.
  - cbn. destruct (inv_limits d Hinv) as [[_ ?] _]. lia.
Qed.

(** A message put on the wire with a header the decoder resolves. *)
Lemma chosen_in_step st fmt field delta ext extval pieces :
  partial_payload st = [] -> stream_for d fmt csid st ->
  start_chunk st (max_message_size_ d) fmt csid field ext extval len (message_type_id m) (message_stream_id m) ->
  decoded_time fmt field ext extval st = (timestamp m, delta) -> 0 <= delta < 2 ^ 32 ->
  write_pieces (pieces_fuel (payload m)) (chunk_size_ e) csid ext extval (payload m) 0 true = Ok pieces ->
  let st' := finished len (message_type_id m) (message_stream_id m) (timestamp m) delta ext in
  let out := write_basic_header fmt csid ++
    write_message_header fmt field ext len (message_type_id m) (message_stream_id m) ++
    write_extended ext extval ++ pieces in
  in_step (mkEncoder (chunk_size_ e) (<[csid := mkSent true (timestamp m) delta (u32 len) (message_type_id m)
             (message_stream_id m) ext extval]> (sent_ e))) (progress d csid [] 0 st') /\
  forall tail d' ev, deliver (progress d csid tail 0 st') m = Ok (d', ev) ->
    steps (set_buffer d (out ++ tail)) d' ev.
Proof.
  intros Hpart Hfor Hsc Htime Hdelta Hpieces st' out.
  pose proof carriable_ranges as (Hc & Ht & Hty & Hs & Hl & Hm & Hb).
  pose proof (is_inv _ _ Hstep) as Hinv. pose proof (inv_chunk d Hinv) as Hics.
  pose proof (is_chunk _ _ Hstep) as Hcs. pose proof (is_idle _ _ Hstep) as Hid. split.
  - constructor; [by eapply finished_inv|apply (is_running _ _ Hstep)|done|done|].
    intros c. cbn [sent_ streams_ progress set_stream set_buffered set_buffer].
    destruct (decide (c = csid)) as [->|Hne].
    + rewrite !lookup_insert_eq. cbn. unfold u32. rewrite Z.mod_small by lia.
      constructor; cbn; try done. by destruct Hsc.
    + rewrite !lookup_insert_ne by done. apply (is_streams _ _ Hstep).
  - intros tail d' ev Hdel.
    eapply (steps_message (set_buffer d (_ ++ tail)) csid (message_type_id m) (message_stream_id m)
      (timestamp m) delta extval ext (payload m) tail);
      [apply (is_running _ _ Hstep)|done|by destruct Hsc| | |by apply inv_set_buffer; [|apply Hstep]
      |exact Hpart|exact Hfor|exact Hsc|exact Htime|cbn [input_chunk_size_ set_buffer]; by rewrite <- Hcs| |].
    + cbn. rewrite Hid. fold len. lia.
    + cbn. lia.
    + cbn [buffer_ set_buffer]. unfold out. by rewrite <- !(assoc_L (++)).
    + cbn [buffered_payload_bytes_ set_buffer]. rewrite Hid.
      replace (mkRtmpMessage _ _ _ _ _) with m by (by destruct m). exact Hdel.
Qed.

Lemma encode_in_step : stale_extended e m = false -> exists e' out st',
  encode_message e m = Ok (e', out) /\ in_step e' (progress d csid [] 0 st') /\
  forall tail d' ev, deliver (progress d csid tail 0 st') m = Ok (d', ev) ->
    steps (set_buffer d (out ++ tail)) d' ev.
Proof.
  intros Hnot. destruct stream_view as (st & Hpart & Hrem & Hview).
  pose proof carriable_ranges as (Hc & Ht & Hty & Hs & Hl & Hm & Hb).
  unfold encode_message. fold csid state len.
  destruct (select_fmt state m) as [fmt delta] eqn:Hsel.
  destruct (select_extended state m fmt delta) as [ext extval] eqn:Hext.
  destruct (Hview 0 ltac:(done)) as [_ Hmatch].
  destruct (select_spec st fmt delta ext extval Hnot Hrem Hmatch Hsel Hext) as (Hfmt & Hsc & Htime).
  destruct (Hview fmt Hfmt) as [Hfor _]. clear Hview.
  pose proof (inv_chunk d (is_inv _ _ Hstep)) as Hics. pose proof (is_chunk _ _ Hstep) as Hcs.
  destruct (write_pieces_total (pieces_fuel (payload m)) (chunk_size_ e) csid ext extval
    (payload m) 0 true) as [pieces Hpieces]; [lia|zlia|unfold pieces_fuel, zlen; lia|].
  cbn [chunk_size_]. rewrite Hpieces, bind_Ok.
  assert (Hfield : 0 <= (if fmt =? 0 then 0 else delta) < 2 ^ 32).
  { pose proof (sc_field _ _ _ _ _ _ _ _ _ _ Hsc). destruct (fmt =? 0); lia. }
  destruct (chosen_in_step st fmt _ _ ext extval pieces Hpart Hfor Hsc Htime Hfield Hpieces) as [Hin Hrun].
  eexists _, _, _. split; [reflexivity|]. split; [exact Hin|]. intros tail d' ev Hdel.
  apply Hrun in Hdel. by rewrite <- !(assoc_L (++)) in Hdel |- *.
Qed.

(** The stateless form works from any state of the encoder that is in step; the
    encoder would have to be told to stay so. *)
Lemma fmt0_in_step : exists out st',
  let ext := kExtendedTimestampMarker <=? timestamp m in
  encode_message_fmt0 (chunk_size_ e) csid (message_stream_id m) (message_type_id m) (timestamp m) (payload m) = Ok out /\
  in_step (mkEncoder (chunk_size_ e) (<[csid := mkSent true (timestamp m) 0 (u32 len) (message_type_id m)
             (message_stream_id m) ext (timestamp m)]> (sent_ e))) (progress d csid [] 0 st') /\
  forall tail d' ev, deliver (progress d csid tail 0 st') m = Ok (d', ev) ->
    steps (set_buffer d (out ++ tail)) d' ev.
Proof.
  destruct stream_view as (st & Hpart & Hrem & Hview).
  pose proof carriable_ranges as (Hc & Ht & Hty & Hs & Hl & Hm & Hb).
  pose proof (inv_chunk d (is_inv _ _ Hstep)) as Hics. pose proof (is_chunk _ _ Hstep) as Hcs.
  set (ext := kExtendedTimestampMarker <=? timestamp m).
  destruct (write_pieces_total (pieces_fuel (payload m)) (chunk_size_ e) csid ext (timestamp m)
    (payload m) 0 true) as [pieces Hpieces]; [lia|zlia|unfold pieces_fuel, zlen; lia|].
  unfold encode_message_fmt0. fold ext. rewrite Hpieces, bind_Ok.
  assert (Hsc : start_chunk st (max_message_size_ d) 0 csid (timestamp m) ext (timestamp m) len
    (message_type_id m) (message_stream_id m)) by (constructor; try done; unfold inherits; lia).
  assert (Htime : decoded_time 0 (timestamp m) ext (timestamp m) st = (timestamp m, 0))
    by (unfold decoded_time; cbn [Z.eqb]; by destruct ext).
  destruct (Hview 0 ltac:(done)) as [Hfor _].
  destruct (chosen_in_step st 0 _ 0 ext _ pieces Hpart Hfor Hsc Htime ltac:(lia) Hpieces) as [Hin Hrun].
  eexists _, _. split; [reflexivity|]. split; [exact Hin|exact Hrun].
Qed.
End send_one.

(** * A sender's whole output *)

(** What a session does with its encoder: send a message, or announce and adopt a
    chunk size. *)
Inductive Sending := SendMessage (m : RtmpMessage) | SendChunkSize (n : Z).

Definition send (e : ChunkEncoder) (op : Sending) : Res (ChunkEncoder * list byte) :=
  match op with
  | SendMessage m => encode_message e m
  | SendChunkSize n => '(e, out) <- encode_set_chunk_size e n ;; Ok (set_chunk_size e n, out)
  end.

Fixpoint send_all (e : ChunkEncoder) (ops : list Sending) : Res (ChunkEncoder * list byte) :=
  match ops with
  | [] => Ok (e, [])
  | op :: ops => '(e, out) <- send e op ;; '(e, more) <- send_all e ops ;; Ok (e, out ++ more)
  end.

Definition sent_message (op : Sending) : list RtmpMessage :=
  match op with SendMessage m => [m] | SendChunkSize _ => [] end.

(** Messages the decoder hands on: not Set Chunk Size or Abort, which it acts on, and
    not a Window Acknowledgement Size too short to hold its field. *)
Definition plain (m : RtmpMessage) : bool :=
  negb (message_stream_id m =? kProtocolControlMessageStreamId) ||
  (negb (message_type_id m =? MessageTypeId.SetChunkSize) &&
   negb (message_type_id m =? MessageTypeId.AbortMessage) &&
   (negb (message_type_id m =? MessageTypeId.WindowAcknowledgementSize) || (4 <=? zlen (payload m)))).

Definition set_chunk_size_message (n : Z) : RtmpMessage :=
  control_message MessageTypeId.SetChunkSize (write_u32_be (Z.land n 0x7FFFFFFF)).

Definition sending_ok (mms : Z) (limits : ChunkDecoderLimits) (e : ChunkEncoder) (op : Sending)
    : bool :=
  match op with
  | SendMessage m => sendable mms limits e m && plain m
  | SendChunkSize n => sendable mms limits e (set_chunk_size_message n) && (1 <=? n) &&
      (n <? 2 ^ 31) && (n <=? max_chunk_size limits)
  end.

Fixpoint all_sendable (mms : Z) (limits : ChunkDecoderLimits) (e : ChunkEncoder)
    (ops : list Sending) : bool :=
  match ops with
  | [] => true
  | op :: ops =>
    sending_ok mms limits e op &&
    match send e op with Ok (e', _) => all_sendable mms limits e' ops | _ => false end
  end.

Lemma deliver_plain m : plain m = true ->
  exists window, forall d,
    deliver d m = Ok (set_window_ack_size d (window (window_ack_size_ d)), [MessageEvent m]).
Proof.
  unfold plain, deliver, handle_protocol_control. intros H.
  assert (Hid : forall d, set_window_ack_size d (window_ack_size_ d) = d) by (by intros []).
  destruct (message_stream_id m =? kProtocolControlMessageStreamId); cbn [negb orb] in *;
    [|exists id; intros d; unfold id; by rewrite Hid].
  rewrite !andb_true_iff in H. destruct H as [[H1 H2] H3].
  destruct (_ =? MessageTypeId.SetChunkSize); [done|].
  destruct (_ =? MessageTypeId.AbortMessage); [done|].
  destruct (_ =? MessageTypeId.WindowAcknowledgementSize); cbn [negb orb] in *;
    [|exists id; intros d; unfold id; by rewrite Hid].
  destruct (read_u32_be_at_ok (payload m) 0) as (v & -> & _); [lia..|].
  exists (fun _ => v). intros d. rewrite (proj2 (Z.ltb_ge _ _)) by lia. done.
Qed.

Lemma deliver_set_chunk_size d n : 1 <= n < 2 ^ 31 -> n <= max_chunk_size (limits_ d) ->
  deliver d (set_chunk_size_message n) = Ok (set_input_chunk_size d n, []).
Proof.
  intros Hn Hmax. unfold deliver, handle_protocol_control, set_chunk_size_message, control_message.
  cbn [message_stream_id message_type_id payload].
  change (negb (kProtocolControlMessageStreamId =? kProtocolControlMessageStreamId)) with false.
  change (MessageTypeId.SetChunkSize =? MessageTypeId.SetChunkSize) with true. cbn iota.
  rewrite zlen_write_u32_be. change (4 <? 4) with false. cbn iota.
  assert (Hs : at_suffix (write_u32_be (Z.land n 0x7FFFFFFF)) 0
    (write_u32_be (Z.land n 0x7FFFFFFF) ++ [])) by (rewrite app_nil_r; apply at_suffix_0).
  rewrite (read_u32_be_at_suffix _ _ _ _ Hs), bind_Ok.
  change 0x7FFFFFFF with (2 ^ 31 - 1). rewrite !land_ones_mod by lia. unfold u32.
  rewrite (Z.mod_small n) by lia. rewrite (Z.mod_small n) by lia. rewrite (Z.mod_small n) by lia.
  rewrite (proj2 (Z.eqb_neq _ _)), (proj2 (Z.ltb_ge _ _)) by lia. done.
Qed.

Definition configured (mms : Z) (limits : ChunkDecoderLimits) (d : ChunkDecoder) : Prop :=
  max_message_size_ d = mms /\ limits_ d = limits.

Lemma send_in_step mms limits e d op :
  in_step e d -> configured mms limits d -> sending_ok mms limits e op = true ->
  exists e' out d', send e op = Ok (e', out) /\ in_step e' d' /\ configured mms limits d' /\
    forall tail, steps (set_buffer d (out ++ tail)) (set_buffer d' tail)
                       (map MessageEvent (sent_message op)).
Proof.
  intros Hstep [<- <-] Hok. destruct op as [m|n]; cbn [sending_ok send sent_message] in *.
  - apply andb_prop in Hok as [Hsend Hplain]. apply andb_prop in Hsend as [Hsend Hstale].
    apply negb_true_iff in Hstale.
    destruct (encode_in_step e d m Hstep Hsend Hstale) as (e' & out & st' & Henc & Hin & Hsteps).
    destruct (deliver_plain m Hplain) as [window Hdel].
    set (d1 := progress d (chunk_stream_id m) [] 0 st') in *.
    exists e', out, (set_window_ack_size d1 (window (window_ack_size_ d1))).
    split_and!; [done| |done|].
    + destruct Hin as [[] ? ? ? ?]. by constructor.
    + intros tail. eapply (Hsteps tail). apply Hdel.
  - rewrite !andb_true_iff, !Z.leb_le, Z.ltb_lt in Hok. destruct Hok as [[[Hsend Hn1] Hn2] Hn3].
    apply andb_prop in Hsend as [Hsend Hstale]. apply negb_true_iff in Hstale.
    destruct (encode_in_step e d _ Hstep Hsend Hstale) as (e' & out & st' & Henc & Hin & Hsteps).
    unfold encode_set_chunk_size. fold (set_chunk_size_message n). rewrite Henc, bind_Ok.
    set (d1 := progress d (chunk_stream_id (set_chunk_size_message n)) [] 0 st') in *.
    exists (set_chunk_size e' n), out, (set_input_chunk_size d1 n).
    assert (Hset : set_chunk_size e' n = mkEncoder n (sent_ e'))
      by (unfold set_chunk_size; by rewrite (proj2 (Z.eqb_neq _ _)) by lia).
    split_and!; [done| |done|].
    + rewrite Hset. destruct Hin as [[] ? ? ? ?]. by constructor.
    + intros tail. eapply (Hsteps tail). by apply deliver_set_chunk_size.
Qed.

Lemma send_all_in_step mms limits ops : forall e d,
  in_step e d -> configured mms limits d -> all_sendable mms limits e ops = true ->
  exists e' out d', send_all e ops = Ok (e', out) /\ in_step e' d' /\
    forall tail, steps (set_buffer d (out ++ tail)) (set_buffer d' tail)
                       (map MessageEvent (concat (map sent_message ops))).
Proof.
  induction ops as [|op ops IH]; intros e d Hstep Hcfg Hok; cbn [send_all all_sendable] in *.
  - exists e, [], d. split_and!; [done|done|]. intros tail. constructor.
  - apply andb_prop in Hok as [Hop Hok].
    destruct (send_in_step mms limits e d op Hstep Hcfg Hop) as (e1 & out1 & d1 & Hs & Hin & Hcfg1 & H1).
    rewrite Hs in Hok |- *. destruct (IH e1 d1 Hin Hcfg1 Hok) as (e2 & out2 & d2 & Hs2 & Hin2 & H2).
    rewrite bind_Ok, Hs2. exists e2, (out1 ++ out2), d2. split_and!; [done|done|].
    intros tail. cbn [map concat]. rewrite map_app, <- (assoc_L (++)).
    eapply steps_trans; [apply H1|apply H2].
Qed.

Lemma decode_one_empty d : buffer_ d = [] -> decode_one d = Ok (InsufficientData, d, []).
Proof. intros Hb. unfold decode_one, parse_chunk. by rewrite Hb. Qed.

(** What a run of whole chunks says about [on_bytes_received]. *)
Lemma steps_received d d' out ev :
  inv d -> failed_ d = false -> buffer_ d = [] ->
  steps (set_buffer (set_bytes_received d (u64 (bytes_received_ d + zlen out))) (out ++ []))
    (set_buffer d' []) ev ->
  out <> [] -> on_bytes_received d out = Ok (set_buffer d' [], ev).
Proof.
  intros Hinv Hrun Hbuf Hsteps Hne. unfold on_bytes_received.
  rewrite Hrun, bool_decide_eq_false_2 by done. cbn [orb].
  change (buffer_ (set_bytes_received d _)) with (buffer_ d). rewrite Hbuf. cbn [app].
  rewrite app_nil_r in Hsteps. set (d0 := set_buffer _ out) in *.
  apply runs_loop; [|rewrite <- (app_nil_r ev)|unfold loop_fuel, zlen; lia].
  - destruct Hinv. constructor; try done. cbn. by rewrite Hrun.
  - eapply steps_runs; [exact Hsteps|]. eapply runs_stop; [by apply decode_one_empty|done].
Qed.

Lemma steps_empty d d' ev : steps d d' ev -> buffer_ d = [] -> d' = d /\ ev = [].
Proof. intros [|d0 d1 d2 e es H _] Hb; [done|]. by rewrite decode_one_empty in H. Qed.

Lemma fresh_in_step mms limits n :
  0 <= mms < 2 ^ 32 -> limits_ok limits ->
  in_step (make_encoder kDefaultChunkSize) (set_bytes_received (make_decoder mms limits) n).
Proof.
  intros Hm Hl. destruct (make_decoder_inv mms limits Hm Hl). constructor; try done.
Qed.

(** One whole message received by an idle chunk stream. *)
Lemma receive_message d fmt csid type_id stream_id field ts delta extval ext payload st pieces out :
  let len := zlen payload in
  let m := mkRtmpMessage csid stream_id type_id ts payload in
  inv d -> failed_ d = false -> buffer_ d = [] -> plain m = true ->
  partial_payload st = [] -> stream_for d fmt csid st ->
  start_chunk st (max_message_size_ d) fmt csid field ext extval len type_id stream_id ->
  decoded_time fmt field ext extval st = (ts, delta) ->
  buffered_payload_bytes_ d + len <= max_buffered_payload_bytes (limits_ d) ->
  write_pieces (pieces_fuel payload) (input_chunk_size_ d) csid ext extval payload 0 true = Ok pieces ->
  out = write_basic_header fmt csid ++ write_message_header fmt field ext len type_id stream_id ++
    write_extended ext extval ++ pieces ->
  exists d', on_bytes_received d out = Ok (d', [MessageEvent m]) /\ inv d' /\
    failed_ d' = false /\ buffer_ d' = [] /\ max_message_size_ d' = max_message_size_ d /\
    limits_ d' = limits_ d /\ input_chunk_size_ d' = input_chunk_size_ d /\
    buffered_payload_bytes_ d' = buffered_payload_bytes_ d /\
    streams_ d' = <[csid := finished len type_id stream_id ts delta ext]> (streams_ d).
Proof.
  intros len m Hinv Hrun Hbuf Hplain Hpart Hfor Hsc Htime Hroom Hpieces Hout.
  destruct (deliver_plain m Hplain) as [window Hdel].
  set (n := u64 (bytes_received_ d + zlen out)).
  set (d1 := progress (set_bytes_received d n) csid [] (buffered_payload_bytes_ d)
    (finished len type_id stream_id ts delta ext)).
  assert (Hrecv : on_bytes_received d out =
    Ok (set_buffer (set_window_ack_size d1 (window (window_ack_size_ d1))) [], [MessageEvent m])).
  { apply steps_received; try done.
    - eapply (steps_message (set_buffer (set_bytes_received d n) (out ++ [])) csid type_id stream_id ts
        delta extval ext payload []); try done; try (by destruct Hsc); try (apply (inv_chunk d Hinv)).
      { destruct Hinv. constructor; try done. cbn. by rewrite Hrun. }
      cbn [buffer_ set_buffer]. rewrite Hout. by rewrite <- !(assoc_L (++)).
    - rewrite Hout. unfold write_basic_header. by destruct (csid <? 64), (csid <? 64 + 256). }
  assert (Hq : quiescent d) by (unfold quiescent; rewrite Hbuf; by apply chunk_room_pos).
  pose proof (on_bytes_received_total d out Hinv Hq) as Ht. rewrite Hrecv in Ht |- *.
  eexists. split; [reflexivity|]. destruct Ht as [Hi _]. split_and!; done.
Qed.

(** * Properties *)

(** C2. Chunk stream round trip: whatever sequence of messages and chunk size changes a sender
    puts through one encoder, a decoder that receives those bytes, cut into reads in any way,
    delivers exactly those messages, field for field and in order, does not fail, ends with
    nothing buffered and at the sender's chunk size.  The sender must respect what the protocol
    can carry ([all_sendable]: header field ranges, the decoder's limits, no Set Chunk Size or
    Abort smuggled in as a plain message) and the one header choice the decoder reads
    differently ([stale_extended]). *)
Theorem chunk_stream_roundtrip mms limits ops :
  0 <= mms < 2 ^ 32 -> limits_ok limits ->
  all_sendable mms limits (make_encoder kDefaultChunkSize) ops = true ->
  exists e out, send_all (make_encoder kDefaultChunkSize) ops = Ok (e, out) /\
    forall reads, concat reads = out -> exists d,
      receive_all (make_decoder mms limits) reads =
        Ok (d, map MessageEvent (concat (map sent_message ops))) /\
      failed_ d = false /\ buffer_ d = [] /\ input_chunk_size_ d = chunk_size_ e.
Proof.
  intros Hm Hl Hok. pose proof (make_decoder_inv mms limits Hm Hl) as Hinv.
  destruct (send_all_in_step mms limits ops _ _ (fresh_in_step mms limits 0 Hm Hl)
    (conj eq_refl eq_refl) Hok) as (e & out & _ & Hsend & _).
  exists e, out. split; [done|]. intros reads Hreads.
  destruct (send_all_in_step mms limits ops _ _ (fresh_in_step mms limits (u64 (0 + zlen out)) Hm Hl)
    (conj eq_refl eq_refl) Hok) as (e' & out' & d' & Hsend' & Hin & Hsteps).
  rewrite Hsend in Hsend'. injection Hsend' as <- <-.
  assert (Hq : quiescent (make_decoder mms limits)) by (by apply chunk_room_pos).
  destruct (receive_all_concat reads _ Hinv Hq) as (d1 & d2 & ev & H1 & H2 & Hsame1 & Hsame2).
  rewrite Hreads in H2.
  assert (Hall : d2 = set_buffer d' [] /\ ev = map MessageEvent (concat (map sent_message ops))).
  { destruct (decide (out = [])) as [Hout|Hne].
    - rewrite Hout in *. specialize (Hsteps []). apply steps_empty in Hsteps as [-> ->]; [|done].
      change (Ok (make_decoder mms limits, @nil Event) = Ok (d2, ev)) in H2. by injection H2 as <- <-.
    - rewrite (steps_received _ d' out _ Hinv eq_refl eq_refl (Hsteps []) Hne) in H2.
      by injection H2 as <- <-. }
  destruct Hall as [-> ->]. exists d1. rewrite H1.
  assert (Hrun : failed_ d1 = false).
  { apply (f_equal failed_) in Hsame1. cbn in Hsame1. rewrite <- Hsame1. apply (is_running _ _ Hin). }
  rewrite (Hsame2 Hrun). split_and!; [done|apply (is_running _ _ Hin)|done|].
  symmetry. apply (is_chunk _ _ Hin).
Qed.

Definition sample_sendings : list Sending :=
  [SendMessage (mkRtmpMessage 3 0 MessageTypeId.Amf0Command 0 (repeat x41 300));
   SendChunkSize 4096;
   SendMessage (mkRtmpMessage 6 1 MessageTypeId.Video 40 (repeat x17 500));
   SendMessage (mkRtmpMessage 6 1 MessageTypeId.Video 80 (repeat x27 500));
   SendMessage (mkRtmpMessage 6 1 MessageTypeId.Video 120 (repeat x27 500));
   SendMessage (mkRtmpMessage 70 1 MessageTypeId.Audio 0x1000000 []);
   SendMessage (mkRtmpMessage 400 1 MessageTypeId.Audio 5 [xaf; x01]);
   SendMessage (mkRtmpMessage 6 1 MessageTypeId.Video 60 [x27])].

Lemma chunk_stream_roundtrip_witness :
  exists e out, send_all (make_encoder kDefaultChunkSize) sample_sendings = Ok (e, out) /\
    forall reads, concat reads = out -> exists d,
      receive_all (make_decoder 0xFFFFFF default_limits) reads =
        Ok (d, map MessageEvent (concat (map sent_message sample_sendings))) /\
      failed_ d = false /\ buffer_ d = [] /\ input_chunk_size_ d = chunk_size_ e.
Proof.
  apply (chunk_stream_roundtrip 0xFFFFFF default_limits sample_sendings);
    [lia|unfold limits_ok; cbn; lia|vm_compute; reflexivity].
Defined.

(** The stateless fmt0 form that live fan-out shares between viewers stands on its own: a
    decoder in any state that is between chunks and not in the middle of a message on that chunk
    stream reads it back as exactly that message, whatever the other chunk streams hold,
    and leaves those untouched. *)
Theorem encode_message_fmt0_decodes d chunk_size csid stream_id type_id ts payload :
  let m := mkRtmpMessage csid stream_id type_id ts payload in
  inv d -> failed_ d = false -> buffer_ d = [] -> chunk_size = input_chunk_size_ d ->
  plain m = true -> 2 <= csid <= 65599 -> 0 <= ts < 2 ^ 32 ->
  0 <= type_id < 2 ^ 8 -> 0 <= stream_id < 2 ^ 32 ->
  zlen payload < 2 ^ 24 -> zlen payload <= max_message_size_ d ->
  buffered_payload_bytes_ d + zlen payload <= max_buffered_payload_bytes (limits_ d) ->
  match streams_ d !! csid with
  | Some st => bytes_remaining st = 0
  | None => Z.of_nat (size (streams_ d)) < max_chunk_streams (limits_ d)
  end ->
  exists out d', encode_message_fmt0 chunk_size csid stream_id type_id ts payload = Ok out /\
    on_bytes_received d out = Ok (d', [MessageEvent m]) /\ failed_ d' = false /\ buffer_ d' = [] /\
    forall other, other <> csid -> streams_ d' !! other = streams_ d !! other.
Proof.
  intros m Hinv Hrun Hbuf -> Hplain Hc Ht Hty Hs Hl Hm Hb Hst.
  pose proof (inv_chunk d Hinv) as Hics. pose proof (zlen_nonneg payload).
  set (ext := kExtendedTimestampMarker <=? ts).
  destruct (write_pieces_total (pieces_fuel payload) (input_chunk_size_ d) csid ext ts payload 0 true)
    as [pieces Hpieces]; [lia|lia|unfold pieces_fuel, zlen; lia|].
  unfold encode_message_fmt0. fold ext. rewrite Hpieces, bind_Ok.
  assert (Hfor : exists st, stream_for d 0 csid st /\ bytes_remaining st = 0 /\ partial_payload st = []).
  { destruct (streams_ d !! csid) as [st|] eqn:Hlook.
    - exists st. split_and!; [by left|done|]. by apply (inv_states d Hinv csid st Hlook).
    - exists default_state. split_and!; [by right|done|done]. }
  destruct Hfor as (st & Hfor & Hrem & Hpart).
  assert (Hsc : start_chunk st (max_message_size_ d) 0 csid ts ext ts (zlen payload) type_id stream_id)
    by (constructor; try done; unfold inherits; lia).
  assert (Htime : decoded_time 0 ts ext ts st = (ts, 0))
    by (unfold decoded_time; cbn [Z.eqb]; by destruct ext).
  destruct (receive_message d 0 csid type_id stream_id ts ts 0 ts ext payload st pieces _
    Hinv Hrun Hbuf Hplain Hpart Hfor Hsc Htime Hb Hpieces eq_refl)
    as (d' & Hrecv & _ & Hrun' & Hbuf' & _ & _ & _ & _ & Hstreams).
  eexists _, d'. split_and!; [reflexivity|exact Hrecv|done|done|].
  intros c Hne. rewrite Hstreams. by apply lookup_insert_ne.
Qed.

(** A decoder in mid-session: a video message is half received on chunk stream 6. *)
Definition mid_session : ChunkDecoder :=
  match on_bytes_received (make_decoder 0xFFFFFF default_limits)
          (x06 :: [x00; x00; x00] ++ [x00; x00; xc8] ++ [x09] ++ [x01; x00; x00; x00]
           ++ repeat x27 128) with
  | Ok (d, _) => d
  | _ => make_decoder 0 default_limits
  end.

Definition audio_frame : RtmpMessage := mkRtmpMessage 4 1 MessageTypeId.Audio 0x1000000 (repeat xaf 300).

Lemma encode_message_fmt0_decodes_witness :
  exists out d', encode_message_fmt0 128 4 1 MessageTypeId.Audio 0x1000000 (repeat xaf 300) = Ok out /\
    on_bytes_received mid_session out = Ok (d', [MessageEvent audio_frame]) /\
    failed_ d' = false /\ buffer_ d' = [] /\
    forall csid, csid <> 4 -> streams_ d' !! csid = streams_ mid_session !! csid.
Proof.
  apply (encode_message_fmt0_decodes mid_session 128 4 1 MessageTypeId.Audio 0x1000000 (repeat xaf 300));
    try (vm_compute; done); try (cbn; lia).
  assert (Hl : limits_ok default_limits) by (unfold limits_ok; cbn; lia).
  assert (Hi : inv (make_decoder 0xFFFFFF default_limits)) by (by apply make_decoder_inv; [lia|]).
  assert (Hq : quiescent (make_decoder 0xFFFFFF default_limits)) by (by apply chunk_room_pos).
  pose proof (on_bytes_received_total _ (x06 :: [x00; x00; x00] ++ [x00; x00; xc8] ++ [x09] ++
    [x01; x00; x00; x00] ++ repeat x27 128) Hi Hq) as Ht.
  unfold mid_session. destruct (on_bytes_received _ _) as [[d ev]| | |]; by destruct Ht.
Defined.

(** ** A timestamp in the extended field, sent twice *)

Section repeated.
Context (ts : Z) (p : list byte).
Hypothesis Hts : kExtendedTimestampMarker <= ts < 2 ^ 32.
Hypothesis Hp : zlen p <= kDefaultChunkSize.
Let m := mkRtmpMessage 6 1 MessageTypeId.Video ts p.
Let sent := mkSent true ts 0 (zlen p) MessageTypeId.Video 1 true ts.
Let e1 := mkEncoder kDefaultChunkSize (<[6 := sent]> ∅).

(** One chunk that carries the whole of [p] behind the extended field. *)
Definition one_chunk (fmt field : Z) : list byte :=
  write_basic_header fmt 6 ++ write_message_header fmt field true (zlen p) MessageTypeId.Video 1 ++
  write_extended true ts ++ p.

Lemma one_piece : write_pieces (pieces_fuel p) kDefaultChunkSize 6 true ts p 0 true = Ok p.
Proof.
  pose proof (zlen_nonneg p). unfold pieces_fuel. rewrite write_pieces_S by (unfold kDefaultChunkSize; lia).
  cbn zeta. rewrite (proj2 (Z.ltb_ge _ _)) by lia. cbn [app]. rewrite drop_0. f_equal.
  apply take_ge. unfold zlen in *. lia.
Qed.

Lemma encode_extended_first : encode_message (make_encoder kDefaultChunkSize) m = Ok (e1, one_chunk 0 ts).
Proof.
  pose proof (zlen_nonneg p). assert (Hext : (kExtendedTimestampMarker <=? ts) = true) by lia.
  assert (Hlen : u32 (zlen p) = zlen p)
    by (unfold u32; apply Z.mod_small; unfold kDefaultChunkSize in Hp; lia).
  unfold encode_message. change (select_fmt _ m) with (0, 0).
  unfold select_extended. change (0 =? 0) with true. cbv iota beta zeta. cbn [timestamp m].
  rewrite Hext. cbn [payload m message_type_id message_stream_id chunk_stream_id].
  cbn [chunk_size_ make_encoder]. rewrite one_piece, bind_Ok, Hlen.
  unfold one_chunk. by rewrite <- !(assoc_L (++)).
Qed.

Lemma encode_extended_again :
  stale_extended e1 m = true /\ exists e2, encode_message e1 m = Ok (e2, one_chunk 3 0).
Proof.
  assert (Hsel : select_fmt sent m = (3, 0)).
  { unfold select_fmt. cbn [sent sent_has_header sent_timestamp sent_stream_id sent_length sent_type_id
      sent_delta m timestamp payload message_stream_id message_type_id].
    rewrite Z.leb_refl, Z.eqb_refl, Z.sub_diag. by rewrite !Z.eqb_refl. }
  assert (Hlook : default default_sent (sent_ e1 !! 6) = sent) by (cbn; by rewrite lookup_insert_eq).
  split.
  - unfold stale_extended. change (chunk_stream_id m) with 6. rewrite Hlook, Hsel.
    cbn [sent sent_extended sent_extended_value]. cbn. unfold kExtendedTimestampMarker in Hts. lia.
  - unfold encode_message. change (chunk_stream_id m) with 6. rewrite Hlook, Hsel.
    cbn [select_extended Z.eqb Pos.eqb orb sent sent_extended sent_extended_value chunk_size_ e1 payload m].
    rewrite one_piece, bind_Ok. eexists. unfold one_chunk. by rewrite <- !(assoc_L (++)).
Qed.
End repeated.

(** The header choice the two ends disagree on.  After a fmt0 header whose timestamp needs
    the extended field, a second message with the same timestamp, length and type is sent as
    fmt3 with that timestamp repeated in the extended field; the decoder takes the repeated
    field for a delta and adds it, so the second message arrives with its timestamp doubled
    (modulo 2^32).  [stale_extended] is exactly the flag of such a message. *)
Theorem repeated_extended_timestamp_misread ts p :
  kExtendedTimestampMarker <= ts < 2 ^ 32 -> zlen p <= kDefaultChunkSize ->
  let m := mkRtmpMessage 6 1 MessageTypeId.Video ts p in
  exists e1 out1 e2 out2 d ev,
    encode_message (make_encoder kDefaultChunkSize) m = Ok (e1, out1) /\
    stale_extended (make_encoder kDefaultChunkSize) m = false /\ stale_extended e1 m = true /\
    encode_message e1 m = Ok (e2, out2) /\
    receive_all (make_decoder 0xFFFFFF default_limits) [out1; out2] = Ok (d, ev) /\
    ev = [MessageEvent m; MessageEvent (mkRtmpMessage 6 1 MessageTypeId.Video (u32 (ts + ts)) p)].
Proof.
  intros Hts Hp m. pose proof (zlen_nonneg p) as Hp0.
  assert (Hts0 : 0 <= ts < 2 ^ 32) by (unfold kExtendedTimestampMarker in Hts; lia).
  assert (Hext : (kExtendedTimestampMarker <=? ts) = true) by lia.
  pose proof (one_piece ts p Hp) as Hpieces. pose proof (encode_extended_first ts p Hts Hp) as Henc1.
  destruct (encode_extended_again ts p Hts Hp) as [Hstale [e2 Henc2] ].
  assert (Hl : limits_ok default_limits) by (unfold limits_ok; cbn; lia).
  assert (Hi : inv (make_decoder 0xFFFFFF default_limits)) by (by apply make_decoder_inv; [lia|]).
  unfold kDefaultChunkSize in Hp.
  assert (Hsc1 : start_chunk default_state 0xFFFFFF 0 6 ts true ts (zlen p) MessageTypeId.Video 1).
  { constructor; try done; unfold inherits; lia. }
  destruct (receive_message (make_decoder 0xFFFFFF default_limits) 0 6 MessageTypeId.Video 1 ts ts 0 ts
    true p default_state p (one_chunk ts p 0 ts) Hi eq_refl eq_refl eq_refl eq_refl
    (or_intror (conj eq_refl (conj eq_refl (conj eq_refl eq_refl)))) Hsc1 eq_refl)
    as (d1 & Hrecv1 & Hi1 & Hrun1 & Hbuf1 & Hm1 & Hl1 & Hc1 & Hb1 & Hs1); try done; [cbn; lia|].
  set (st1 := finished (zlen p) MessageTypeId.Video 1 ts 0 true) in *.
  assert (Hfor : stream_for d1 3 6 st1) by (left; rewrite Hs1; apply lookup_insert_eq).
  assert (Hsc2 : start_chunk st1 (max_message_size_ d1) 3 6 0 true ts (zlen p) MessageTypeId.Video 1).
  { rewrite Hm1. constructor; try done; unfold inherits; cbn; lia. }
  assert (Hroom : buffered_payload_bytes_ d1 + zlen p <= max_buffered_payload_bytes (limits_ d1)).
  { rewrite Hb1, Hl1. cbn. lia. }
  destruct (receive_message d1 3 6 MessageTypeId.Video 1 0 (u32 (ts + ts)) ts ts true p st1 p (one_chunk ts p 3 0)
    Hi1 Hrun1 Hbuf1 eq_refl eq_refl Hfor Hsc2 eq_refl Hroom) as (d2 & Hrecv2 & _); try done.
  - by rewrite Hc1.
  - eexists _, _, _, _, _, _. split_and!; [exact Henc1|done|exact Hstale|exact Henc2| |reflexivity].
    cbn [receive_all]. by rewrite Hrecv1, bind_Ok, Hrecv2.
Qed.

Lemma repeated_extended_timestamp_misread_witness :
  let m := mkRtmpMessage 6 1 MessageTypeId.Video 0x1000000 [x27; x01] in
  exists e1 out1 e2 out2 d ev,
    encode_message (make_encoder kDefaultChunkSize) m = Ok (e1, out1) /\
    stale_extended (make_encoder kDefaultChunkSize) m = false /\ stale_extended e1 m = true /\
    encode_message e1 m = Ok (e2, out2) /\
    receive_all (make_decoder 0xFFFFFF default_limits) [out1; out2] = Ok (d, ev) /\
    ev = [MessageEvent m;
          MessageEvent (mkRtmpMessage 6 1 MessageTypeId.Video 0x2000000 [x27; x01])].
Proof.
  apply (repeated_extended_timestamp_misread 0x1000000 [x27; x01]).
  - unfold kExtendedTimestampMarker. lia.
  - vm_compute. discriminate.
Defined.
