(* ===== verification/Handshake.v ===== *)
(** The RTMP simple handshake: protocol/handshake/handshake_session.hpp and
    handshake_session.cpp.

    The clock and the random generator are inputs: each call is given the
    milliseconds since the session started and the bytes [secure_random_bytes]
    would return, and uses them at most once. *)

From S2P Require Import Prelude Bytes.

Definition kRtmpVersion : Z := 0x03.
Definition kC0Size : Z := 1.
Definition kTimeFieldSize : Z := 4.
Definition kZeroFieldSize : Z := 4.
Definition kRandomEchoSize : Z := 1528.
Definition kHandshakeChunkSize : Z := kTimeFieldSize + kZeroFieldSize + kRandomEchoSize.
Definition kMaxHandshakeBytes : Z := kC0Size + kHandshakeChunkSize + kHandshakeChunkSize.

Module HandshakeState.
Inductive t := WaitingForC0 | WaitingForC1 | SendingS0S1S2 | WaitingForC2
             | Completed | Failed | TimedOut.
End HandshakeState.
Import HandshakeState.

(** Calls of the send, complete and fail handlers. *)
Inductive HandshakeEvent :=
| SendBuffer (bytes : list byte)
| CompleteCall
| FailCall (e : Error).

Record HandshakeSession := mkSession { state_ : HandshakeState.t; buffer_ : list byte }.

(** What the environment supplies to one call. *)
Record Environment := mkEnv { elapsed_ms : Z; random_bytes : list byte }.

Definition make_session : HandshakeSession := mkSession WaitingForC0 [].

Definition is_terminal (s : HandshakeSession) : bool :=
  match state_ s with Completed | Failed | TimedOut => true | _ => false end.

Definition fail (s : HandshakeSession) (code : ErrorCode.t) (category : ErrorCategory.t)
    (message : string) : HandshakeSession * list HandshakeEvent :=
  if is_terminal s then (s, [])
  else (mkSession Failed [], [FailCall (mkError code category message)]).

Definition on_timeout (s : HandshakeSession) : HandshakeSession * list HandshakeEvent :=
  if is_terminal s then (s, [])
  else (mkSession TimedOut [],
        [FailCall (mkError ErrorCode.ConnectionTimedOut ErrorCategory.Network
           "RTMP handshake did not complete before the configured deadline")]).

Definition try_consume_c0 (s : HandshakeSession)
    : Res (HandshakeSession * list HandshakeEvent) :=
  if zlen (buffer_ s) <? kC0Size then Ok (s, []) else
  version <- u8_at (buffer_ s) 0 ;;
  if negb (version =? kRtmpVersion) then
    Ok (fail s ErrorCode.MalformedHandshake ErrorCategory.Protocol
          "unsupported RTMP version in C0")
  else
  rest <- subspan_from (buffer_ s) kC0Size ;;
  Ok (mkSession WaitingForC1 rest, []).

(** S0, then S1 (the server's time, a zero field and fresh random bytes), then S2. *)
Definition build_s0s1s2 (env : Environment) (c1 : list byte) : list byte :=
  [z2b kRtmpVersion] ++
  (write_u32_be (elapsed_ms env) ++ write_u32_be 0 ++ random_bytes env) ++
  c1.

Definition try_consume_c1 (env : Environment) (s : HandshakeSession)
    : Res (HandshakeSession * list HandshakeEvent) :=
  if zlen (buffer_ s) <? kHandshakeChunkSize then Ok (s, []) else
  c1 <- subspan (buffer_ s) 0 kHandshakeChunkSize ;;
  rest <- subspan_from (buffer_ s) kHandshakeChunkSize ;;
  let s := mkSession SendingS0S1S2 rest in
  let out := build_s0s1s2 env c1 in
  Ok (mkSession WaitingForC2 (buffer_ s), [SendBuffer out]).

Definition try_consume_c2 (s : HandshakeSession)
    : Res (HandshakeSession * list HandshakeEvent) :=
  if zlen (buffer_ s) <? kHandshakeChunkSize then Ok (s, []) else
  rest <- subspan_from (buffer_ s) kHandshakeChunkSize ;;
  Ok (mkSession Completed rest, [CompleteCall]).

Definition in_state (s : HandshakeSession) (st : HandshakeState.t) : bool :=
  match state_ s, st with
  | WaitingForC0, WaitingForC0 | WaitingForC1, WaitingForC1 | WaitingForC2, WaitingForC2 => true
  | _, _ => false
  end.

Definition on_bytes_received (env : Environment) (s : HandshakeSession) (data : list byte)
    : Res (HandshakeSession * list HandshakeEvent) :=
  if is_terminal s || bool_decide (data = []) then Ok (s, []) else
  if kMaxHandshakeBytes <? zlen (buffer_ s) + zlen data then
    Ok (fail s ErrorCode.MalformedHandshake ErrorCategory.Protocol
          "handshake data exceeds the maximum C0+C1+C2 size")
  else
  let s := mkSession (state_ s) (buffer_ s ++ data) in
  '(s, ev0) <- (if in_state s WaitingForC0 then try_consume_c0 s else Ok (s, [])) ;;
  '(s, ev1) <- (if in_state s WaitingForC1 then try_consume_c1 env s else Ok (s, [])) ;;
  '(s, ev2) <- (if in_state s WaitingForC2 then try_consume_c2 s else Ok (s, [])) ;;
  Ok (s, ev0 ++ ev1 ++ ev2).

Definition take_trailing_bytes (s : HandshakeSession) : list byte * HandshakeSession :=
  (buffer_ s, mkSession (state_ s) []).

(** What can happen to a session: a read, or its deadline. *)
Inductive HandshakeInput := Received (env : Environment) (data : list byte) | Deadline.

Definition handshake_step (s : HandshakeSession) (i : HandshakeInput)
    : Res (HandshakeSession * list HandshakeEvent) :=
  match i with
  | Received env data => on_bytes_received env s data
  | Deadline => Ok (on_timeout s)
  end.

Fixpoint run_handshake (s : HandshakeSession) (inputs : list HandshakeInput)
    : Res (HandshakeSession * list HandshakeEvent) :=
  match inputs with
  | [] => Ok (s, [])
  | i :: inputs =>
    '(s, ev) <- handshake_step s i ;;
    '(s, more) <- run_handshake s inputs ;;
    Ok (s, ev ++ more)
  end.

(** * The abstract handshake *)

(** What the server has to send on C1: version 3, its time, four zero bytes and its random
    bytes, and an exact echo of C1. *)
Definition s0s1s2 (env : Environment) (c1 : list byte) : list byte :=
  x03 :: write_u32_be (elapsed_ms env) ++ [x00; x00; x00; x00] ++ random_bytes env ++ c1.

(** What a session owes after the bytes [total], whatever the reads they came in:
    its state, the bytes it keeps, and the handler calls it has made. *)
Definition handshake_spec (env : Environment) (total : list byte)
    : HandshakeState.t * list byte * list HandshakeEvent :=
  match total with
  | [] => (WaitingForC0, [], [])
  | version :: rest =>
    if negb (b2z version =? kRtmpVersion) then
      (Failed, [], [FailCall (mkError ErrorCode.MalformedHandshake ErrorCategory.Protocol
                      "unsupported RTMP version in C0")])
    else if zlen rest <? kHandshakeChunkSize then (WaitingForC1, rest, [])
    else
    let c1 := take (Z.to_nat kHandshakeChunkSize) rest in
    let c2 := drop (Z.to_nat kHandshakeChunkSize) rest in
    let sent := [SendBuffer (s0s1s2 env c1)] in
    if zlen c2 <? kHandshakeChunkSize then (WaitingForC2, c2, sent)
    else (Completed, drop (Z.to_nat kHandshakeChunkSize) c2, sent ++ [CompleteCall])
  end.

Definition represents (env : Environment) (total : list byte) (s : HandshakeSession)
    (ev : list HandshakeEvent) : Prop :=
  handshake_spec env total = (state_ s, buffer_ s, ev).

(** * The steps on a buffer *)

Lemma subspan_from_take (l : list byte) n :
  0 <= n <= zlen l -> subspan_from l n = Ok (drop (Z.to_nat n) l).
Proof. intros. unfold subspan_from. by rewrite !(proj2 (Z.leb_le _ _)) by lia. Qed.

Lemma subspan_take (l : list byte) n :
  0 <= n <= zlen l -> subspan l 0 n = Ok (take (Z.to_nat n) l).
Proof.
  intros. unfold subspan. rewrite !(proj2 (Z.leb_le _ _)) by lia. done.
Qed.

Definition after_c1 (b : list byte) : HandshakeSession * list HandshakeEvent :=
  if zlen b <? kHandshakeChunkSize then (mkSession WaitingForC2 b, [])
  else (mkSession Completed (drop (Z.to_nat kHandshakeChunkSize) b), [CompleteCall]).

Definition after_c0 (env : Environment) (b : list byte) : HandshakeSession * list HandshakeEvent :=
  if zlen b <? kHandshakeChunkSize then (mkSession WaitingForC1 b, [])
  else
    let '(s, ev) := after_c1 (drop (Z.to_nat kHandshakeChunkSize) b) in
    (s, SendBuffer (build_s0s1s2 env (take (Z.to_nat kHandshakeChunkSize) b)) :: ev).

Lemma consume_c2 b : try_consume_c2 (mkSession WaitingForC2 b) = Ok (after_c1 b).
Proof.
  unfold try_consume_c2, after_c1. cbn [buffer_].
  destruct (Z.ltb_spec (zlen b) kHandshakeChunkSize); [done|].
  rewrite subspan_from_take; [done|]. split; [done|lia].
Qed.

(** The part of [on_bytes_received] from C1 on. *)
Lemma consume_c1 env b :
  ('(s, ev1) <- try_consume_c1 env (mkSession WaitingForC1 b) ;;
   '(s, ev2) <- (if in_state s WaitingForC2 then try_consume_c2 s else Ok (s, [])) ;;
   Ok (s, ev1 ++ ev2)) = Ok (after_c0 env b).
Proof.
  unfold try_consume_c1, after_c0. cbn [buffer_].
  destruct (Z.ltb_spec (zlen b) kHandshakeChunkSize); [done|].
  assert (0 <= kHandshakeChunkSize <= zlen b) by (split; [done|lia]).
  rewrite subspan_take, subspan_from_take, !bind_Ok by done. cbn [in_state state_ buffer_].
  rewrite consume_c2. by destruct (after_c1 _).
Qed.

Lemma build_s0s1s2_spec env c1 : build_s0s1s2 env c1 = s0s1s2 env c1.
Proof. unfold build_s0s1s2, s0s1s2. rewrite <- !(assoc_L (++)). reflexivity. Qed.

Lemma after_c0_spec env b :
  after_c0 env b =
  let '(st, rest, ev) := handshake_spec env (z2b kRtmpVersion :: b) in (mkSession st rest, ev).
Proof.
  unfold after_c0, handshake_spec, after_c1. rewrite b2z_z2b.
  change (negb (kRtmpVersion mod 256 =? kRtmpVersion)) with false. cbn iota.
  destruct (zlen b <? _); [done|]. rewrite build_s0s1s2_spec. by destruct (zlen (drop _ b) <? _).
Qed.

Lemma version_byte v : negb (b2z v =? kRtmpVersion) = false -> v = z2b kRtmpVersion.
Proof.
  intros H. apply b2z_inj. rewrite b2z_z2b. change (kRtmpVersion mod 256) with kRtmpVersion. lia.
Qed.

(** [on_bytes_received] in each waiting state, on a read that is within bounds. *)
Section waiting.
Context (env : Environment) (b d : list byte).
Hypothesis Hd : d <> [].
Hypothesis Hfits : zlen b + zlen d <= kMaxHandshakeBytes.

Lemma received_in_c2 :
  on_bytes_received env (mkSession WaitingForC2 b) d = Ok (after_c1 (b ++ d)).
Proof.
  unfold on_bytes_received. rewrite (bool_decide_eq_false_2 _ Hd).
  cbn [is_terminal state_ orb buffer_]. rewrite (proj2 (Z.ltb_ge _ _)) by lia.
  cbn [in_state state_]. rewrite bind_Ok.
  cbn [in_state state_]. rewrite bind_Ok.
  cbn [in_state state_]. rewrite consume_c2, bind_Ok.
  by destruct (after_c1 _).
Qed.

Lemma received_in_c1 :
  on_bytes_received env (mkSession WaitingForC1 b) d = Ok (after_c0 env (b ++ d)).
Proof.
  unfold on_bytes_received. rewrite (bool_decide_eq_false_2 _ Hd).
  cbn [is_terminal state_ orb buffer_]. rewrite (proj2 (Z.ltb_ge _ _)) by lia.
  cbn [in_state state_]. rewrite bind_Ok.
  cbn [in_state state_]. apply consume_c1.
Qed.
End waiting.

Definition bad_version : HandshakeSession * list HandshakeEvent :=
  (mkSession Failed [], [FailCall (mkError ErrorCode.MalformedHandshake ErrorCategory.Protocol
                           "unsupported RTMP version in C0")]).

Lemma received_in_c0 env v d :
  zlen (v :: d) <= kMaxHandshakeBytes ->
  on_bytes_received env (mkSession WaitingForC0 []) (v :: d) =
  Ok (if negb (b2z v =? kRtmpVersion) then bad_version else after_c0 env d).
Proof.
  intros Hlen. unfold on_bytes_received. rewrite bool_decide_eq_false_2 by done.
  cbn [is_terminal state_ orb buffer_ app]. rewrite zlen_nil, (proj2 (Z.ltb_ge _ _)) by lia.
  cbn [in_state state_]. unfold try_consume_c0. cbn [buffer_].
  rewrite (proj2 (Z.ltb_ge _ _)) by (unfold kC0Size; zlia).
  rewrite (u8_at_suffix _ 0 v d) by apply at_suffix_0. rewrite bind_Ok.
  destruct (negb (b2z v =? kRtmpVersion)); [done|].
  rewrite (subspan_from_take (v :: d) kC0Size) by (unfold kC0Size; zlia). rewrite !bind_Ok.
  cbn [in_state state_]. apply (consume_c1 env d).
Qed.

Lemma after_c0_represents env b :
  represents env (z2b kRtmpVersion :: b) (fst (after_c0 env b)) (snd (after_c0 env b)).
Proof.
  unfold represents. rewrite after_c0_spec.
  by destruct (handshake_spec env (z2b kRtmpVersion :: b)) as [[st rest] ev].
Qed.

(** Reading on from a represented prefix represents the longer prefix; the S0S1S2
    already sent keeps the environment it was built in. *)
Lemma received_represents env0 env p s ev d :
  represents env0 p s ev -> zlen (p ++ d) <= kMaxHandshakeBytes ->
  exists s' more env', on_bytes_received env s d = Ok (s', more) /\
    represents env' (p ++ d) s' (ev ++ more) /\
    ((env' = env0 /\ (d = [] \/ p <> [])) \/ env' = env).
Proof.
  intros Hrep Hlen. destruct (decide (d = [])) as [->|Hd].
  { exists s, [], env0. rewrite !app_nil_r. split_and!; [|done|left; auto].
    unfold on_bytes_received. by rewrite orb_true_r. }
  assert (Hsz : kHandshakeChunkSize = 1536) by done.
  assert (Hmax : kMaxHandshakeBytes = 3073) by done. pose proof (zlen_nonneg d).
  unfold represents in Hrep. destruct s as [st b]. cbn [state_ buffer_] in Hrep.
  destruct p as [|v rest]; cbn [handshake_spec] in Hrep.
  - injection Hrep as <- <- <-. destruct d as [|v d]; [done|].
    rewrite received_in_c0 by done.
    destruct (negb (b2z v =? kRtmpVersion)) eqn:Hv.
    + eexists _, _, env. split_and!; [reflexivity| |by right].
      unfold represents. cbn [app handshake_spec]. by rewrite Hv.
    + rewrite (version_byte v Hv). pose proof (after_c0_represents env d).
      destruct (after_c0 env d) as [s' ev']. eexists _, _, env. split_and!; [done|done|by right].
  - destruct (negb (b2z v =? kRtmpVersion)) eqn:Hv.
    { injection Hrep as <- <- <-. eexists _, _, env. split_and!; [reflexivity| |by right].
      unfold represents. cbn [app handshake_spec]. by rewrite Hv. }
    rewrite (version_byte v Hv). rewrite zlen_app, zlen_cons in Hlen. cbn [app].
    destruct (Z.ltb_spec (zlen rest) kHandshakeChunkSize) as [Hshort|Hlong].
    { injection Hrep as <- <- <-. rewrite received_in_c1 by (done || lia).
      pose proof (after_c0_represents env (rest ++ d)).
      destruct (after_c0 env (rest ++ d)) as [s' ev']. eexists _, _, env.
      split_and!; [done|done|by right]. }
    rewrite zlen_drop in Hrep by lia. rewrite (proj2 (Z.ltb_lt _ _)) in Hrep.
    2: { apply Z.lt_nge. intros Hge. apply Hd, zlen_0_nil. lia. }
    injection Hrep as <- <- <-. rewrite received_in_c2 by (rewrite ?zlen_drop by lia; done || lia).
    pose proof (after_c0_represents env0 (rest ++ d)) as Hr. unfold after_c0 in Hr.
    rewrite (proj2 (Z.ltb_ge _ _)) in Hr by zlia. unfold zlen in Hlong.
    rewrite drop_app_le, take_app_le in Hr by lia.
    destruct (after_c1 _) as [s' more]. eexists _, _, env0. split_and!; [done|done|left; auto].
Qed.

Lemma run_handshake_represents reads : forall env0 p s ev,
  represents env0 p s ev -> zlen (p ++ concat (map snd reads)) <= kMaxHandshakeBytes ->
  exists s' more env, run_handshake s (map (fun r => Received r.1 r.2) reads) = Ok (s', more) /\
    represents env (p ++ concat (map snd reads)) s' (ev ++ more) /\
    ((env = env0 /\ (concat (map snd reads) = [] \/ p <> [])) \/ In env (map fst reads)).
Proof.
  induction reads as [|[env d] reads IH]; intros env0 p s ev Hrep Hlen; cbn [map concat fst snd] in *.
  - exists s, [], env0. cbn [run_handshake]. rewrite !app_nil_r. split_and!; [done|done|left; auto].
  - rewrite (assoc_L (++)) in Hlen. rewrite (assoc_L (++)).
    destruct (received_represents env0 env p s ev d Hrep) as (s1 & more1 & env1 & H1 & Hrep1 & Henv1);
      [zlia|].
    destruct (IH env1 (p ++ d) s1 _ Hrep1 Hlen) as (s2 & more2 & env2 & H2 & Hrep2 & Henv2).
    exists s2, (more1 ++ more2), env2. cbn [run_handshake handshake_step fst snd].
    rewrite H1, bind_Ok, H2, bind_Ok. rewrite (assoc_L (++)). split_and!; [done|done|].
    destruct Henv2 as [[-> Hc]|Hin]; [|by right; right].
    destruct Henv1 as [[-> Hd]| ->]; [|by right; left]. left. split; [done|].
    destruct Hc as [Hc|Hc], Hd as [Hd|Hd]; auto; subst; rewrite ?app_nil_r in *; auto.
Qed.

(** ** Any inputs at all *)

Definition session_ok (s : HandshakeSession) (ev : list HandshakeEvent) : Prop :=
  match state_ s with
  | WaitingForC0 => buffer_ s = [] /\ ev = []
  | WaitingForC1 => zlen (buffer_ s) < kHandshakeChunkSize /\ ev = []
  | SendingS0S1S2 => False
  | WaitingForC2 => zlen (buffer_ s) < kHandshakeChunkSize /\
      exists out, ev = [SendBuffer out] /\ zlen out = 3073
  | Completed => zlen (buffer_ s) <= 1537 /\
      exists out, ev = [SendBuffer out; CompleteCall] /\ zlen out = 3073
  | Failed | TimedOut => buffer_ s = [] /\
      exists e, ev = [FailCall e] \/ exists out, ev = [SendBuffer out; FailCall e] /\ zlen out = 3073
  end.

Definition input_ok (i : HandshakeInput) : Prop :=
  match i with Received env _ => zlen (random_bytes env) = kRandomEchoSize | Deadline => True end.

(** A waiting session that fails or times out. *)
Lemma session_ok_fails s ev st e :
  session_ok s ev -> is_terminal s = false -> st = Failed \/ st = TimedOut ->
  session_ok (mkSession st []) (ev ++ [FailCall e]).
Proof.
  destruct s as [state b]. unfold session_ok, is_terminal. cbn [state_ buffer_].
  intros Hok Hterm Hst.
  assert (Hshape : [] = @nil byte /\ exists e', ev ++ [FailCall e] = [FailCall e'] \/
    exists out, ev ++ [FailCall e] = [SendBuffer out; FailCall e'] /\ zlen out = 3073).
  { split; [done|]. exists e. destruct state; try done.
    - destruct Hok as [_ ->]. by left.
    - destruct Hok as [_ ->]. by left.
    - destruct Hok as (_ & out & -> & Hlen). right. by exists out. }
  by destruct Hst as [-> | ->].
Qed.

Lemma after_c1_ok b ev : zlen b <= 3073 -> (exists out, ev = [SendBuffer out] /\ zlen out = 3073) ->
  session_ok (fst (after_c1 b)) (ev ++ snd (after_c1 b)).
Proof.
  intros Hb (out & -> & Hout). assert (Hsz : kHandshakeChunkSize = 1536) by done.
  unfold after_c1. destruct (Z.ltb_spec (zlen b) kHandshakeChunkSize); cbn.
  - eauto.
  - split; [|eauto]. rewrite zlen_drop by lia. lia.
Qed.

Lemma after_c0_ok env b : zlen b <= 3073 -> zlen (random_bytes env) = kRandomEchoSize ->
  session_ok (fst (after_c0 env b)) (snd (after_c0 env b)).
Proof.
  intros Hb Henv. assert (Hsz : kHandshakeChunkSize = 1536) by done.
  unfold after_c0. destruct (Z.ltb_spec (zlen b) kHandshakeChunkSize); [done|].
  set (out := build_s0s1s2 _ _).
  assert (Hout : zlen out = 3073).
  { unfold out, build_s0s1s2. autorewrite with bytes. rewrite Henv, zlen_take by lia. done. }
  pose proof (after_c1_ok (drop (Z.to_nat kHandshakeChunkSize) b) [SendBuffer out]) as H1.
  rewrite zlen_drop in H1 by lia. specialize (H1 ltac:(lia) ltac:(eauto)).
  by destruct (after_c1 _).
Qed.

Lemma handshake_step_ok s ev i :
  session_ok s ev -> input_ok i ->
  exists s' more, handshake_step s i = Ok (s', more) /\ session_ok s' (ev ++ more).
Proof.
  intros Hok Hi. destruct (is_terminal s) eqn:Hterm.
  { exists s, []. rewrite app_nil_r. split; [|done]. destruct i; cbn [handshake_step].
    - unfold on_bytes_received. by rewrite Hterm.
    - unfold on_timeout. by rewrite Hterm. }
  destruct i as [env d|]; cbn [handshake_step].
  2: { unfold on_timeout. rewrite Hterm. eexists _, _. split; [done|].
       by eapply session_ok_fails; [| |right]. }
  destruct (decide (d = [])) as [->|Hd].
  { exists s, []. rewrite app_nil_r. split; [|done]. unfold on_bytes_received. by rewrite orb_true_r. }
  destruct (Z.ltb_spec kMaxHandshakeBytes (zlen (buffer_ s) + zlen d)) as [Hover|Hfit].
  { unfold on_bytes_received. rewrite Hterm, (bool_decide_eq_false_2 _ Hd). cbn [orb].
    rewrite (proj2 (Z.ltb_lt _ _)) by lia. unfold fail. rewrite Hterm. eexists _, _.
    split; [done|]. by eapply session_ok_fails; [| |left]. }
  destruct s as [[] b]; try done; unfold session_ok in Hok; cbn [state_ buffer_] in Hok, Hfit.
  - destruct Hok as [-> ->]. destruct d as [|v d]; [done|]. rewrite received_in_c0 by done.
    destruct (negb _).
    + eexists _, _. split; [reflexivity|]. cbn. split; [done|]. eauto.
    + rewrite zlen_nil, zlen_cons in Hfit. change kMaxHandshakeBytes with 3073 in Hfit.
      pose proof (after_c0_ok env d ltac:(lia) Hi). destruct (after_c0 env d). eauto.
  - destruct Hok as [Hb ->]. rewrite received_in_c1 by done.
    pose proof (after_c0_ok env (b ++ d) ltac:(rewrite zlen_app; exact Hfit) Hi).
    destruct (after_c0 env (b ++ d)). eauto.
  - destruct Hok as [Hb Hout]. rewrite received_in_c2 by done.
    pose proof (after_c1_ok (b ++ d) ev ltac:(rewrite zlen_app; exact Hfit) Hout).
    destruct (after_c1 (b ++ d)). eauto.
Qed.

Lemma run_handshake_ok inputs : forall s ev, session_ok s ev -> Forall input_ok inputs ->
  exists s' more, run_handshake s inputs = Ok (s', more) /\ session_ok s' (ev ++ more).
Proof.
  induction inputs as [|i inputs IH]; intros s ev Hok Hi; cbn [run_handshake].
  - exists s, []. by rewrite app_nil_r.
  - apply Forall_cons_1 in Hi as [Hi Hrest].
    destruct (handshake_step_ok s ev i Hok Hi) as (s1 & m1 & -> & Hok1).
    destruct (IH s1 _ Hok1 Hrest) as (s2 & m2 & Hrun & Hok2). rewrite bind_Ok, Hrun.
    exists s2, (m1 ++ m2). by rewrite (assoc_L (++)).
Qed.

(** * Properties *)

(** C29. The handshake's outcome is a function of the bytes received, not of the reads they came
    in: for any fragmentation of at most [kMaxHandshakeBytes] bytes the session refines
    [handshake_spec] in its state, its kept bytes and its handler calls.  In particular S0S1S2 is
    sent exactly once, when C1 is complete, as version 3, the server's time and random bytes and
    an exact echo of C1; and the handshake completes exactly when C2 is complete. *)
Theorem handshake_refines_spec reads :
  zlen (concat (map snd reads)) <= kMaxHandshakeBytes ->
  exists env s ev, run_handshake make_session (map (fun r => Received r.1 r.2) reads) = Ok (s, ev) /\
    handshake_spec env (concat (map snd reads)) = (state_ s, buffer_ s, ev) /\
    (concat (map snd reads) = [] \/ In env (map fst reads)).
Proof.
  intros Hlen.
  destruct (run_handshake_represents reads (mkEnv 0 []) [] make_session [] eq_refl Hlen)
    as (s & ev & env & Hrun & Hrep & Henv).
  exists env, s, ev. split_and!; [done|done|]. destruct Henv as [[_ [H|H]]|H]; auto; done.
Qed.

Definition sample_reads : list (Environment * list byte) :=
  [(mkEnv 5 (repeat xaa 1528), [x03]); (mkEnv 6 (repeat xbb 1528), []);
   (mkEnv 7 (repeat xcc 1528), repeat x11 1000); (mkEnv 9 (repeat xdd 1528), repeat x22 600)].

Lemma handshake_refines_spec_witness :
  exists env s ev, run_handshake make_session (map (fun r => Received r.1 r.2) sample_reads) = Ok (s, ev) /\
    handshake_spec env (concat (map snd sample_reads)) = (state_ s, buffer_ s, ev) /\
    (concat (map snd sample_reads) = [] \/ In env (map fst sample_reads)).
Proof. apply (handshake_refines_spec sample_reads). vm_compute. discriminate. Defined.

(** The handshake state machine on any reads and deadlines whatsoever: it never reads outside
    its buffer, keeps at most 1537 bytes, sends S0S1S2 at most once and always 3073 bytes long,
    makes at most one of the complete and fail calls, never rests in [SendingS0S1S2], and
    ignores everything once terminal. *)
Theorem handshake_state_machine inputs :
  Forall input_ok inputs ->
  exists s ev, run_handshake make_session inputs = Ok (s, ev) /\ session_ok s ev /\
    zlen (buffer_ s) <= 1537 /\
    (is_terminal s = true -> forall i, handshake_step s i = Ok (s, [])).
Proof.
  intros Hi. destruct (run_handshake_ok inputs make_session []) as (s & ev & Hrun & Hok); [done..|].
  exists s, ev. split_and!; [done|done| |].
  - destruct s as [st b]. unfold session_ok in Hok. cbn [state_ buffer_] in *.
    assert (Hsz : kHandshakeChunkSize = 1536) by done.
    destruct st; try done; destruct Hok as [Hb _]; subst; rewrite ?zlen_nil; lia.
  - intros Hterm [env d|]; cbn [handshake_step]; unfold on_bytes_received, on_timeout; by rewrite Hterm.
Qed.

Lemma handshake_state_machine_witness :
  exists s ev, run_handshake make_session
      [Received (mkEnv 0 (repeat x00 1528)) (x03 :: repeat x01 1536); Deadline; Deadline] = Ok (s, ev) /\
    session_ok s ev /\ zlen (buffer_ s) <= 1537 /\
    (is_terminal s = true -> forall i, handshake_step s i = Ok (s, [])).
Proof.
  apply handshake_state_machine. repeat (constructor; [vm_compute; reflexivity || exact I|]). constructor.
Defined.

(** Bytes pipelined behind C2 and the size bound.  When C0 and C1 came in an earlier read, a
    read that brings C2 and up to 1537 bytes more completes the handshake and those bytes come
    back, in order and complete, from [take_trailing_bytes].  The same bytes in one single read
    are rejected as malformed before anything is sent, although
    [take_trailing_bytes] exists for exactly that traffic: past [kMaxHandshakeBytes] the outcome
    depends on how the transport cut the reads. *)
Theorem handshake_pipelined_bytes env1 env2 c1 c2 extra :
  zlen c1 = kHandshakeChunkSize -> zlen c2 = kHandshakeChunkSize -> 1 <= zlen extra <= 1537 ->
  (exists s, run_handshake make_session [Received env1 (x03 :: c1); Received env2 (c2 ++ extra)]
     = Ok (s, [SendBuffer (build_s0s1s2 env1 c1); CompleteCall]) /\
     state_ s = Completed /\ fst (take_trailing_bytes s) = extra) /\
  (exists s e, run_handshake make_session [Received env1 (x03 :: c1 ++ c2 ++ extra)]
     = Ok (s, [FailCall e]) /\ state_ s = Failed /\ buffer_ s = [] /\
     error_code e = ErrorCode.MalformedHandshake).
Proof.
  intros H1 H2 Hx. assert (Hsz : kHandshakeChunkSize = 1536) by done.
  assert (Hmax : kMaxHandshakeBytes = 3073) by done. split.
  - exists (mkSession Completed extra). split_and!; [|done..].
    cbn [run_handshake handshake_step make_session]. rewrite received_in_c0 by zlia.
    change (negb (b2z x03 =? kRtmpVersion)) with false. cbn iota. unfold after_c0.
    rewrite (proj2 (Z.ltb_ge _ _)) by lia. rewrite drop_ge, take_ge by (unfold zlen in *; lia).
    unfold after_c1 at 1. rewrite zlen_nil, (proj2 (Z.ltb_lt 0 _)) by lia. rewrite bind_Ok.
    rewrite received_in_c2; [|intros Hn%app_eq_nil; destruct Hn; subst; done|zlia].
    cbn [app]. unfold after_c1. rewrite (proj2 (Z.ltb_ge _ _)) by zlia. rewrite !bind_Ok.
    rewrite <- H2. unfold zlen. by rewrite Nat2Z.id, drop_app_length.
  - eexists (mkSession Failed []), (mkError ErrorCode.MalformedHandshake ErrorCategory.Protocol
      "handshake data exceeds the maximum C0+C1+C2 size"). split_and!; [|reflexivity..].
    cbn [run_handshake handshake_step make_session]. unfold on_bytes_received.
    rewrite bool_decide_eq_false_2 by done. cbn [is_terminal state_ orb buffer_].
    rewrite (proj2 (Z.ltb_lt _ _)) by zlia. reflexivity.
Qed.

Lemma handshake_pipelined_bytes_witness :
  let env := mkEnv 12 (repeat x77 1528) in
  (exists s, run_handshake make_session
       [Received env (x03 :: repeat x01 1536); Received env (repeat x02 1536 ++ [x09])]
     = Ok (s, [SendBuffer (build_s0s1s2 env (repeat x01 1536)); CompleteCall]) /\
     state_ s = Completed /\ fst (take_trailing_bytes s) = [x09]) /\
  (exists s e, run_handshake make_session
       [Received env (x03 :: repeat x01 1536 ++ repeat x02 1536 ++ [x09])]
     = Ok (s, [FailCall e]) /\ state_ s = Failed /\ buffer_ s = [] /\
     error_code e = ErrorCode.MalformedHandshake).
Proof.
  intros env. apply (handshake_pipelined_bytes env env (repeat x01 1536) (repeat x02 1536) [x09]);
    vm_compute; [reflexivity..|split; discriminate].
Defined.
