(* ===== verification/Text.v ===== *)
(** Characters: a [std::string_view] is a list of 8-bit characters.  Searching, decimal
    numbers in both directions, and lines. *)

From S2P Require Import Prelude.
From Stdlib Require Import Ascii.
From stdpp Require pretty.

Notation text := (list ascii).
Definition str (s : string) : text := String.list_ascii_of_string s.

Definition char_code (c : ascii) : Z := Z.of_N (N_of_ascii c).

(** [std::string_view::find], [rfind] and [starts_with] for what the parser asks. *)
Fixpoint find_char (c : ascii) (l : text) : option nat :=
  match l with
  | [] => None
  | x :: l => if bool_decide (x = c) then Some O else S <$> find_char c l
  end.

Fixpoint rfind_char (c : ascii) (l : text) : option nat :=
  match l with
  | [] => None
  | x :: l =>
    match rfind_char c l with
    | Some n => Some (S n)
    | None => if bool_decide (x = c) then Some O else None
    end
  end.

Definition starts_with (p l : text) : bool := bool_decide (take (length p) l = p).
Definition ends_with_char (c : ascii) (l : text) : bool := 
  match rev l with x :: _ => bool_decide (x = c) | [] => false end.

(** The value of the longest run of digits [l] starts with, after [acc], and what follows. *)
Definition digit_value (c : ascii) : option Z :=
  let v := char_code c - 48 in if (0 <=? v) && (v <=? 9) then Some v else None.

Fixpoint scan_digits (acc : Z) (l : text) : Z * text :=
  match l with
  | [] => (acc, [])
  | c :: rest =>
    match digit_value c with
    | Some v => scan_digits (acc * 10 + v) rest
    | None => (acc, l)
    end
  end.

Lemma list_ascii_app s1 s2 : String.list_ascii_of_string (s1 +:+ s2) =
  String.list_ascii_of_string s1 ++ String.list_ascii_of_string s2.
Proof.
  induction s1 as [|c s1 IH]; [done|].
  change (c :: String.list_ascii_of_string (s1 +:+ s2)
          = c :: (String.list_ascii_of_string s1 ++ String.list_ascii_of_string s2)).
  by rewrite IH.
Qed.

Lemma list_ascii_inj s1 s2 :
  String.list_ascii_of_string s1 = String.list_ascii_of_string s2 -> s1 = s2.
Proof.
  intros H. rewrite <- (String.string_of_list_ascii_of_string s1), H.
  apply String.string_of_list_ascii_of_string.
Qed.

(** * Searching *)

Lemma find_char_None c l : find_char c l = None <-> c ∉ l.
Proof.
  induction l as [|x l IH]; cbn [find_char]; [set_solver|].
  destruct (bool_decide_reflect (x = c)) as [->|Hne]; [set_solver|].
  rewrite fmap_None, IH. set_solver.
Qed.

Lemma find_char_Some c l n :
  find_char c l = Some n -> l = take n l ++ c :: drop (S n) l /\ c ∉ take n l.
Proof.
  revert n. induction l as [|x l IH]; intros n H; cbn [find_char] in H; [done|].
  destruct (bool_decide_reflect (x = c)) as [->|Hne].
  - injection H as <-. cbn. rewrite drop_0. set_solver.
  - apply fmap_Some in H as (m & Hm & ->). destruct (IH m Hm) as [H1 H2]. cbn.
    split; [by f_equal|]. set_solver.
Qed.

Lemma find_char_app c l1 l2 : c ∉ l1 -> find_char c (l1 ++ c :: l2) = Some (length l1).
Proof.
  induction l1 as [|x l1 IH]; intros Hn; cbn [app find_char length].
  - by rewrite bool_decide_eq_true_2.
  - rewrite bool_decide_eq_false_2 by set_solver. rewrite IH by set_solver. done.
Qed.

Lemma rfind_char_None c l : rfind_char c l = None <-> c ∉ l.
Proof.
  induction l as [|x l IH]; cbn [rfind_char]; [set_solver|].
  destruct (rfind_char c l).
  - split; [done|]. intros Hn. assert (c ∉ l) by set_solver. by apply IH in H.
  - destruct (bool_decide_reflect (x = c)); set_solver.
Qed.

Lemma rfind_char_app c l1 l2 : c ∉ l2 -> rfind_char c (l1 ++ c :: l2) = Some (length l1).
Proof.
  intros Hn. induction l1 as [|x l1 IH]; cbn [app rfind_char length].
  - rewrite (proj2 (rfind_char_None c l2) Hn). by rewrite bool_decide_eq_true_2.
  - by rewrite IH.
Qed.

Lemma existsb_false_Forall {A} (f : A -> bool) l : existsb f l = false -> Forall (fun x => f x = false) l.
Proof.
  induction l as [|x l IH]; cbn [existsb]; [constructor|]. intros [H1 H2]%orb_false_iff.
  constructor; auto.
Qed.

Lemma scan_digits_nonneg acc l : 0 <= acc -> 0 <= fst (scan_digits acc l).
Proof.
  revert acc. induction l as [|c l IH]; intros acc Hacc; cbn [scan_digits]; [done|].
  unfold digit_value. destruct (_ && _) eqn:E; [|done]. apply IH. lia.
Qed.

(** * Decimal numbers *)

(** [std::to_string] of an unsigned integer. *)
Definition to_string (z : Z) : string := @pretty.pretty N pretty.pretty_N (Z.to_N z).

Lemma to_string_inj a b : 0 <= a -> 0 <= b -> to_string a = to_string b -> a = b.
Proof.
  unfold to_string. intros Ha Hb H. assert (Hn : Z.to_N a = Z.to_N b) by by apply (pretty.pretty_N_inj). lia.
Qed.

Definition dec (z : Z) : text := str (to_string z).

Definition digit (c : ascii) : Prop := is_Some (digit_value c).

Lemma pretty_char_value x : (x < 10)%N -> digit_value (pretty.pretty_N_char x) = Some (Z.of_N x).
Proof.
  intros Hx. assert (Hc : In x [0; 1; 2; 3; 4; 5; 6; 7; 8; 9]%N).
  { cbn. lia. }
  cbn in Hc. destruct_or! Hc; subst; try done.
Qed.

Lemma scan_pretty x : forall s,
  scan_digits 0 (str (pretty.pretty_N_go x s)) = scan_digits (Z.of_N x) (str s).
Proof.
  induction (N.lt_wf_0 x) as [x _ IH]. intros s. destruct (decide (x = 0%N)) as [->|Hx].
  { by rewrite pretty.pretty_N_go_0. }
  assert (Hm : (x mod 10 < 10)%N) by (apply N.mod_lt; lia).
  rewrite pretty.pretty_N_go_step by lia. rewrite IH by (apply N.div_lt; lia).
  change (str (String ?c s)) with (c :: str s). cbn [str String.list_ascii_of_string scan_digits].
  rewrite pretty_char_value by done.
  replace (Z.of_N (x / 10) * 10 + Z.of_N (x mod 10)) with (Z.of_N x); [done|].
  pose proof (N.div_mod x 10). lia.
Qed.

Lemma scan_digits_rest l : forall acc v rest, scan_digits acc l = (v, []) ->
  Forall digit l /\ scan_digits acc (l ++ rest) = scan_digits v rest.
Proof.
  induction l as [|c l IH]; intros acc v rest; cbn [scan_digits app]; [by intros [= ->]|].
  destruct (digit_value c) as [d|] eqn:Hd; [|done]. intros H.
  destruct (IH _ _ rest H) as [H1 H2]. split; [|done]. constructor; [by exists d|done].
Qed.

Lemma scan_dec z : 0 <= z -> scan_digits 0 (dec z) = (z, []) /\ dec z <> [].
Proof.
  intros Hz. unfold dec, to_string, pretty.pretty, pretty.pretty_N.
  destruct (decide (Z.to_N z = 0%N)) as [H0|H0].
  - replace z with 0 by lia. done.
  - rewrite scan_pretty. split; [cbn; f_equal; lia|]. intros Hn.
    pose proof (scan_pretty (Z.to_N z) "") as Hs. rewrite Hn in Hs. cbn in Hs. injection Hs as Hs. lia.
Qed.

Lemma dec_digits z : 0 <= z -> Forall digit (dec z).
Proof. intros Hz. destruct (scan_dec z Hz) as [Hs _]. exact (proj1 (scan_digits_rest _ _ _ [] Hs)). Qed.

(** A printed number is read back up to the first character that is not a digit. *)
Lemma scan_dec_app z rest :
  0 <= z -> (forall c l, rest = c :: l -> digit_value c = None) ->
  scan_digits 0 (dec z ++ rest) = (z, rest).
Proof.
  intros Hz Hr. destruct (scan_dec z Hz) as [Hs _].
  destruct (scan_digits_rest _ _ _ rest Hs) as [_ ->].
  destruct rest as [|c l]; [done|]. cbn [scan_digits]. by rewrite (Hr c l).
Qed.

Lemma str_app s1 s2 : str (s1 +:+ s2) = str s1 ++ str s2.
Proof. apply list_ascii_app. Qed.

(** * Lines *)

Definition newline : ascii := "010"%char.

Fixpoint split_lines (l : text) : list text :=
  match l with
  | [] => [ [] ]
  | c :: l =>
      if bool_decide (c = newline) then [] :: split_lines l
      else match split_lines l with
           | line :: lines => (c :: line) :: lines
           | [] => [ [c] ]
           end
  end.

(** [out += line + "\n"] for each of the lines. *)
Definition unlines (lines : list text) : text := concat (map (fun l => l ++ [newline]) lines).

Lemma split_line l rest : newline ∉ l -> split_lines (l ++ newline :: rest) = l :: split_lines rest.
Proof.
  induction l as [|c l IH]; intros Hn; cbn [app split_lines].
  - by rewrite bool_decide_eq_true_2.
  - rewrite bool_decide_eq_false_2 by set_solver. by rewrite IH by set_solver.
Qed.

Lemma split_unlines lines :
  Forall (fun l => newline ∉ l) lines -> split_lines (unlines lines) = lines ++ [ [] ].
Proof.
  induction 1 as [|l lines Hl _ IH]; [done|]. unfold unlines. cbn [map concat].
  rewrite <- app_assoc. cbn [app]. rewrite split_line by done. f_equal. exact IH.
Qed.

(** [begins p l]: [l.rfind(p, 0) == 0]. *)
Fixpoint begins (p l : text) : bool :=
  match p, l with
  | [], _ => true
  | _, [] => false
  | x :: p, y :: l => Ascii.eqb x y && begins p l
  end.

Lemma begins_spec p l : begins p l = true <-> exists rest, l = p ++ rest.
Proof.
  revert l. induction p as [|x p IH]; intros l; cbn [begins]; [by split; [exists l|]|].
  destruct l as [|y l]; [by split; [|intros [? ?] ]|].
  rewrite andb_true_iff, Ascii.eqb_eq, IH. split.
  - intros [-> [rest ->] ]. by exists rest.
  - intros [rest [= -> ->] ]. split; [done|by exists rest].
Qed.

(** [std::string_view::find] of a string. *)
Fixpoint find_text (p l : text) : option nat :=
  if begins p l then Some O
  else match l with [] => None | _ :: l => S <$> find_text p l end.

(** [p] and [q] differ before either ends, so [q ++ rest] does not begin with [p]. *)
Fixpoint differs (p q : text) : bool :=
  match p, q with
  | x :: p, y :: q => negb (Ascii.eqb x y) || differs p q
  | _, _ => false
  end.
Lemma differs_begins p : forall q rest, differs p q = true -> begins p (q ++ rest) = false.
Proof.
  induction p as [|x p IH]; intros [|y q] rest; cbn [differs]; try done. cbn [begins app].
  destruct (Ascii.eqb x y); [|done]. apply IH.
Qed.

(** No occurrence of [key] begins inside [q], whatever follows it. *)
Fixpoint avoids (key q : text) : bool :=
  match q with
  | [] => true
  | _ :: rest => differs key q && avoids key rest
  end.

Lemma find_avoids key q l : avoids key q = true ->
  find_text key (q ++ l) = (fun n => (length q + n)%nat) <$> find_text key l.
Proof.
  induction q as [|c q IH]; cbn [avoids app length]; intros H; [by destruct (find_text key l)|].
  apply andb_true_iff in H as [Hd Hq]. cbn [find_text].
  pose proof (differs_begins key (c :: q) l Hd) as Hb. cbn [app] in Hb. rewrite Hb, IH by done.
  by destruct (find_text key l).
Qed.
Lemma avoids_app key q1 q2 : avoids key q1 = true -> avoids key q2 = true -> avoids key (q1 ++ q2) = true.
Proof.
  intros H1 H2. induction q1 as [|c q1 IH]; [done|]. cbn [avoids app] in *.
  apply andb_true_iff in H1 as [Hd Hq]. rewrite (IH Hq), andb_true_r.
  assert (Hx : forall p a b, differs p a = true -> differs p (a ++ b) = true).
  { clear. induction p as [|x p IH]; intros [|y a] b; cbn; try done.
    rewrite !orb_true_iff. intros [Hn|Hn]; [by left|right; by apply IH]. }
  exact (Hx key (c :: q1) q2 Hd).
Qed.
Lemma avoids_digits c key l : digit_value c = None -> Forall digit l -> avoids (c :: key) l = true.
Proof.
  intros Hc. induction 1 as [|d l Hd _ IH]; [done|]. cbn [avoids differs]. rewrite IH, andb_true_r.
  apply orb_true_iff. left. apply negb_true_iff, Ascii.eqb_neq. intros ->. destruct Hd. congruence.
Qed.

Lemma find_begins key l : begins key l = true -> find_text key l = Some O.
Proof. intros H. destruct l; cbn; by rewrite H. Qed.
