(* ===== verification/RtmpUrl.v ===== *)
(** The URL of an RTMP origin: protocol/rtmp_url.hpp and rtmp_url.cpp.  A
    [std::string_view] is a list of 8-bit characters. *)

From S2P Require Import Prelude Text.
From Stdlib Require Import Ascii.

(** [std::from_chars] for an [unsigned]: the longest run of digits, or no value when there
    is none or when it exceeds 32 bits; with the value, what follows the digits. *)
Definition from_chars_u32 (l : text) : option (Z * text) :=
  match l with
  | [] => None
  | c :: _ =>
    match digit_value c with
    | None => None
    | Some _ => let '(v, rest) := scan_digits 0 l in if v <? 2 ^ 32 then Some (v, rest) else None
    end
  end.

Record RtmpUrl := mkUrl {
  host : text;
  port : Z;
  application : text;
  stream : text;
  tc_url : text
}.

Definition url_error {A} (message : string) : Res A :=
  Err (mkError ErrorCode.InvalidConfiguration ErrorCategory.Configuration message).

Definition is_some {A} (o : option A) : bool := match o with Some _ => true | None => false end.

(** The host and the port text of an authority. *)
Definition split_authority (authority : text) : Res (text * text) :=
  if starts_with (str "[") authority then
    match find_char "]" authority with
    | None => url_error "invalid bracketed IPv6 host"
    | Some close =>
      if Nat.eqb close 1 then url_error "invalid bracketed IPv6 host" else
      let host := take (close - 1) (drop 1 authority) in
      if Nat.ltb (close + 1) (length authority) then
        match authority !! (close + 1)%nat with
        | None => Fault
        | Some c =>
          if bool_decide (c <> ":"%char) then url_error "invalid RTMP authority"
          else Ok (host, drop (close + 2) authority)
        end
      else Ok (host, [])
    end
  else
    match rfind_char ":" authority with
    | None => Ok (authority, [])
    | Some colon =>
      if bool_decide (find_char ":" authority <> Some colon)
      then url_error "IPv6 RTMP hosts must be enclosed in brackets"
      else Ok (take colon authority, drop (colon + 1) authority)
    end.

Definition parse_port (authority port_text : text) : Res Z :=
  match port_text with
  | [] => if ends_with_char ":" authority then url_error "RTMP URL has an empty port" else Ok 1935
  | _ =>
    match from_chars_u32 port_text with
    | Some (parsed_port, []) =>
      if (parsed_port =? 0) || (65535 <? parsed_port) then url_error "RTMP URL has an invalid port"
      else Ok (u16 parsed_port)
    | _ => url_error "RTMP URL has an invalid port"
    end
  end.

Definition scheme : text := str "rtmp://".

Definition parse_rtmp_url (url : text) : Res RtmpUrl :=
  if is_some (find_char "#" url) then
    url_error "RTMP URL fragments are not sent to the origin"
  else if existsb (fun c => char_code c <=? 0x20) url then
    url_error "RTMP URL contains whitespace or a control character"
  else if negb (starts_with scheme url) then
    url_error "URL must use plain rtmp:// (RTMPS is not enabled in the native client)"
  else
  let remainder := drop (length scheme) url in
  match find_char "/" remainder with
  | None => url_error "RTMP URL must be rtmp://host[:port]/application/stream"
  | Some slash =>
    if Nat.eqb slash 0 || Nat.leb (length remainder) (slash + 1) then
      url_error "RTMP URL must be rtmp://host[:port]/application/stream"
    else
    let authority := take slash remainder in
    if is_some (find_char "@" authority) then
      url_error "userinfo in an RTMP URL is unsupported; pass authentication in the stream query"
    else
    '(host, port_text) <- split_authority authority ;;
    if bool_decide (host = []) then url_error "RTMP URL has an empty host" else
    port <- parse_port authority port_text ;;
    let path_and_query := drop (slash + 1) remainder in
    let query := find_char "?" path_and_query in
    let path := match query with Some q => take q path_and_query | None => path_and_query end in
    match find_char "/" path with
    | None => url_error "RTMP URL must contain both application and stream names"
    | Some app_slash =>
      if Nat.eqb app_slash 0 || Nat.leb (length path) (app_slash + 1) then
        url_error "RTMP URL must contain both application and stream names"
      else
      let application := take app_slash path in
      let stream := drop (app_slash + 1) path ++
        match query with Some q => drop q path_and_query | None => [] end in
      Ok (mkUrl host port application stream
            (scheme ++ authority ++ str "/" ++ application))
    end
  end.

(** * What an accepted URL guarantees *)

(** A character that can neither end a request line nor start a fragment. *)
Definition clean (c : ascii) : Prop := 0x20 < char_code c /\ c <> "#"%char.

Lemma split_authority_spec (P : ascii -> Prop) authority host port_text :
  split_authority authority = Ok (host, port_text) -> Forall P authority ->
  Forall P host /\ Forall P port_text.
Proof.
  unfold split_authority. intros H Ha.
  destruct (starts_with (str "[") authority).
  - destruct (find_char "]" authority) as [close|]; [|done].
    destruct (Nat.eqb close 1); [done|]. destruct (Nat.ltb _ _).
    + destruct (authority !! _) as [c|]; [|done]. destruct (bool_decide _); [done|].
      injection H as <- <-. auto using Forall_take, Forall_drop.
    + injection H as <- <-. auto using Forall_take, Forall_drop, Forall_nil.
  - destruct (rfind_char ":" authority) as [colon|].
    + destruct (bool_decide _); [done|]. injection H as <- <-. auto using Forall_take, Forall_drop.
    + injection H as <- <-. auto using Forall_nil.
Qed.

Lemma parse_port_spec authority port_text p :
  parse_port authority port_text = Ok p -> 1 <= p <= 65535.
Proof.
  unfold parse_port. destruct port_text as [|c rest]; [destruct (ends_with_char _ _); [done|]|].
  - intros [= <-]. lia.
  - set (l := c :: rest). unfold from_chars_u32. fold l. cbn [l].
    pose proof (scan_digits_nonneg 0 l ltac:(done)) as Hn.
    destruct (digit_value c); [|done]. fold l. destruct (scan_digits 0 l) as [v r].
    destruct (_ <? _); [|done]. destruct r; [|done]. cbn in Hn.
    destruct ((v =? 0) || _) eqn:E; [done|]. intros [= <-]. unfold u16. rewrite Z.mod_small; lia.
Qed.

(** The pieces of an accepted URL, put back together. *)
Lemma parse_rtmp_url_pieces url u :
  parse_rtmp_url url = Ok u ->
  exists authority, url = tc_url u ++ str "/" ++ stream u /\
    tc_url u = scheme ++ authority ++ str "/" ++ application u /\
    Forall clean url /\ "@"%char ∉ authority /\ "/"%char ∉ authority /\
    (exists port_text, split_authority authority = Ok (host u, port_text)) /\ host u <> [] /\
    1 <= port u <= 65535 /\
    application u <> [] /\ "/"%char ∉ application u /\ "?"%char ∉ application u /\ stream u <> [].
Proof.
  unfold parse_rtmp_url. intros H.
  destruct (find_char "#" url) eqn:Hhash; [done|]. cbn [is_some] in H.
  destruct (existsb _ url) eqn:Hctl; [done|].
  destruct (starts_with scheme url) eqn:Hscheme; [|done]. cbn [negb] in H.
  set (remainder := drop (length scheme) url) in *.
  assert (Hurl : url = scheme ++ remainder).
  { apply bool_decide_eq_true in Hscheme. rewrite <- Hscheme at 1. symmetry. apply take_drop. }
  destruct (find_char "/" remainder) as [slash|] eqn:Hslash; [|done].
  destruct (Nat.eqb slash 0 || _); [done|].
  apply find_char_Some in Hslash as [Hrem Hnoslash].
  set (authority := take slash remainder) in *.
  destruct (find_char "@" authority) eqn:Hat; [done|]. cbn [is_some] in H.
  destruct (split_authority authority) as [[h pt]| | |] eqn:Hsplit; try done. rewrite bind_Ok in H.
  destruct (bool_decide_reflect (h = [])) as [|Hh]; [done|].
  destruct (parse_port authority pt) as [p| | |] eqn:Hport; try done. rewrite bind_Ok in H.
  rewrite Nat.add_1_r in H. set (paq := drop (S slash) remainder) in *.
  set (path := match find_char "?" paq with Some q => take q paq | None => paq end) in *.
  set (rest := match find_char "?" paq with Some q => drop q paq | None => [] end) in *.
  assert (Hpaq : paq = path ++ rest /\ "?"%char ∉ path).
  { unfold path, rest. destruct (find_char "?" paq) as [q|] eqn:Hq.
    - split; [symmetry; apply take_drop|]. by apply find_char_Some in Hq as [_ Hq].
    - rewrite app_nil_r. split; [done|]. by apply find_char_None. }
  destruct Hpaq as [Hpaq Hnoq].
  destruct (find_char "/" path) as [app_slash|] eqn:Happ; [|done].
  destruct (Nat.eqb app_slash 0 || _) eqn:Hempty; [done|]. injection H as <-.
  apply find_char_Some in Happ as [Hpath Hnoapp]. rewrite Nat.add_1_r in Hempty |- *.
  cbn [tc_url stream application host port].
  apply orb_false_iff in Hempty as [Hz Hl]. apply Nat.eqb_neq in Hz. apply Nat.leb_gt in Hl.
  exists authority. split_and!; try done.
  - transitivity (scheme ++ authority ++ str "/" ++ path ++ rest).
    + rewrite <- Hpaq. change (str "/" ++ paq) with ("/"%char :: paq). by rewrite <- Hrem.
    + rewrite Hpath at 1. cbn [app]. rewrite <- !(assoc_L (++)). cbn [app].
      rewrite <- ?(assoc_L (++)). reflexivity.
  - apply existsb_false_Forall in Hctl. apply find_char_None in Hhash.
    rewrite List.Forall_forall in Hctl |- *. intros c Hc. split; [specialize (Hctl c Hc); cbn in Hctl; lia|].
    intros ->. by apply Hhash, list_elem_of_In.
  - by apply find_char_None.
  - by exists pt.
  - by eapply parse_port_spec.
  - by eapply parse_port_spec.
  - intros Hn%(f_equal length). rewrite length_take in Hn. cbn in Hn. lia.
  - intros Hin. apply Hnoq. rewrite <- (take_drop app_slash path). set_solver.
  - intros [Hn _]%app_eq_nil. apply (f_equal length) in Hn. rewrite length_drop in Hn. cbn in Hn. lia.
Qed.

Definition is_url_error (e : Error) : Prop := error_code e = ErrorCode.InvalidConfiguration.

Lemma url_error_yields {A} P msg : yields is_url_error P (@url_error A msg).
Proof. done. Qed.

Lemma split_authority_yields authority :
  yields is_url_error (fun _ => True) (split_authority authority).
Proof.
  unfold split_authority. destruct (starts_with _ _).
  - destruct (find_char _ _); [|done]. destruct (Nat.eqb _ _); [done|].
    destruct (Nat.ltb_spec (n + 1) (length authority)) as [Hlt|]; [|done].
    destruct (lookup_lt_is_Some_2 _ _ Hlt) as [c ->]. by destruct (bool_decide _).
  - destruct (rfind_char _ _); [|done]. by destruct (bool_decide _).
Qed.

Lemma parse_port_yields authority port_text :
  yields is_url_error (fun _ => True) (parse_port authority port_text).
Proof.
  unfold parse_port. destruct port_text; [by destruct (ends_with_char _ _)|].
  destruct (from_chars_u32 _) as [[v [|? ?] ]|]; [|done..]. by destruct (_ || _).
Qed.

Lemma parse_rtmp_url_answers url :
  yields is_url_error (fun _ => True) (parse_rtmp_url url).
Proof.
  unfold parse_rtmp_url. destruct (is_some _); [done|]. destruct (existsb _ _); [done|].
  destruct (negb _); [done|]. destruct (find_char "/" _) as [slash|]; [|done].
  destruct (_ || _); [done|]. destruct (is_some _); [done|].
  eapply yields_bind; [apply split_authority_yields|]. intros [h pt] _.
  destruct (bool_decide _); [done|].
  eapply yields_bind; [apply parse_port_yields|]. intros p _. destruct (find_char "/" _); [|done].
  by destruct (_ || _).
Qed.

(** * Properties *)

(** An accepted origin URL cannot smuggle anything onto the wire: [parse_rtmp_url] is total,
    and when it accepts, no field it produces holds whitespace, a control character or a
    fragment mark, the host holds no userinfo and is not empty, the port is in range, the
    application is one non-empty path segment, the stream is not empty, and the fields
    reassemble to the very URL that was given. *)
Theorem parse_rtmp_url_safe url :
  match parse_rtmp_url url with
  | Ok u =>
    url = tc_url u ++ str "/" ++ stream u /\
    Forall clean (host u) /\ Forall clean (application u) /\ Forall clean (stream u) /\
    Forall clean (tc_url u) /\
    host u <> [] /\ "@"%char ∉ host u /\ "/"%char ∉ host u /\ 1 <= port u <= 65535 /\
    application u <> [] /\ "/"%char ∉ application u /\ "?"%char ∉ application u /\ stream u <> []
  | Err e => error_code e = ErrorCode.InvalidConfiguration
  | Fault | OutOfFuel => False
  end.
Proof.
  destruct (parse_rtmp_url url) as [u|e| |] eqn:Hp.
  - destruct (parse_rtmp_url_pieces url u Hp)
      as (authority & Hurl & Htc & Hclean & Hat & Hsl & [pt Hsplit] & Hh & Hport & Ha1 & Ha2 & Ha3 & Hs).
    assert (Hall : Forall clean (tc_url u ++ str "/" ++ stream u)) by (by rewrite <- Hurl).
    apply Forall_app in Hall as [Hctc Hall]. apply Forall_app in Hall as [_ Hcs].
    assert (Hca : Forall clean (scheme ++ authority ++ str "/" ++ application u)) by (by rewrite <- Htc).
    apply Forall_app in Hca as [_ Hca]. apply Forall_app in Hca as [Hcauth Hca].
    apply Forall_app in Hca as [_ Hca].
    assert (Hsub : forall P, Forall P authority -> Forall P (host u)).
    { intros P HP. by destruct (split_authority_spec P _ _ _ Hsplit HP). }
    assert (Hno : forall c, c ∉ authority -> c ∉ host u).
    { intros c Hc Hin. specialize (Hsub (fun x => x <> c)). rewrite !List.Forall_forall in Hsub.
      apply (Hsub ltac:(intros x Hx ->; by apply Hc, list_elem_of_In) c); [|done].
      by apply list_elem_of_In. }
    split_and!; auto; apply Hport.
  - pose proof (parse_rtmp_url_answers url) as Hy. by rewrite Hp in Hy.
  - pose proof (parse_rtmp_url_answers url) as Hy. by rewrite Hp in Hy.
  - pose proof (parse_rtmp_url_answers url) as Hy. by rewrite Hp in Hy.
Qed.

(** The authorities the parser reads: a name, or a bracketed IPv6 address, with or without a
    port. *)
Inductive Authority := Named (h : text) (port_text : option text)
                     | Bracketed (h : text) (port_text : option text).

Definition print_port (p : option text) : text :=
  match p with Some t => str ":" ++ t | None => [] end.
Definition print_authority (a : Authority) : text :=
  match a with
  | Named h p => h ++ print_port p
  | Bracketed h p => str "[" ++ h ++ str "]" ++ print_port p
  end.
Definition authority_host (a : Authority) : text :=
  match a with Named h _ | Bracketed h _ => h end.
Definition authority_port (a : Authority) : option text :=
  match a with Named _ p | Bracketed _ p => p end.

(** A port text and the number it stands for: digits only, 1 to 65535. *)
Definition port_denotes (p : option text) (n : Z) : Prop :=
  match p with
  | None => n = 1935
  | Some t => from_chars_u32 t = Some (n, []) /\ 1 <= n <= 65535
  end.

Definition authority_ok (a : Authority) : Prop :=
  authority_host a <> [] /\
  Forall (fun c => clean c /\ c <> "/"%char /\ c <> "@"%char) (print_authority a) /\
  match a with
  | Named h p => ":"%char ∉ h /\ "["%char ∉ h /\ ":"%char ∉ default [] p
  | Bracketed h p => "]"%char ∉ h
  end.

Lemma authority_chars a c :
  authority_ok a -> c = "/"%char \/ c = "@"%char \/ c = "#"%char -> c ∉ print_authority a.
Proof.
  intros (_ & Hall & _) Hc Hin. rewrite List.Forall_forall in Hall.
  apply list_elem_of_In, Hall in Hin as ((_ & H1) & H2 & H3). by destruct Hc as [ | [ | ] ].
Qed.

Lemma drop_past {A} (l1 : list A) c l2 : drop (S (length l1)) (l1 ++ c :: l2) = l2.
Proof. induction l1; [done|]. cbn [length app]. by rewrite skipn_cons. Qed.

Lemma split_printed_authority a :
  authority_ok a ->
  split_authority (print_authority a) = Ok (authority_host a, default [] (authority_port a)).
Proof.
  intros (Hne & _ & Hok). destruct a as [h p|h p]; cbn [authority_host authority_port print_authority] in *;
    unfold split_authority.
  - destruct Hok as (Hc & Hb & Hp). destruct h as [|x h]; [done|].
    assert (Hs : starts_with (str "[") ((x :: h) ++ print_port p) = false).
    { apply bool_decide_eq_false_2. cbn. intros [= ->]. set_solver. }
    rewrite Hs. destruct p as [t|]; cbn [print_port default] in *; unfold id in *.
    + change (str ":" ++ t) with (":"%char :: t). rewrite rfind_char_app by done.
      rewrite find_char_app by done. rewrite bool_decide_eq_false_2 by (intros H; by apply H).
      rewrite take_app_length, Nat.add_1_r. f_equal. f_equal.
      apply drop_past.
    + rewrite app_nil_r. by rewrite (proj2 (rfind_char_None _ _) Hc).
  - change (str "[" ++ h ++ str "]" ++ print_port p) with ("["%char :: (h ++ "]"%char :: print_port p)).
    change (starts_with _ _) with true. cbn iota.
    change ("["%char :: (h ++ "]"%char :: print_port p)) with
      (("["%char :: h) ++ "]"%char :: print_port p).
    rewrite find_char_app by set_solver. cbn [length].
    assert (Nat.eqb (S (length h)) 1 = false) as -> by (destruct h; [done|done]).
    cbn [app]. rewrite Nat.sub_succ, Nat.sub_0_r. rewrite ?skipn_cons, ?drop_0, !take_app_length.
    cbn [length]. rewrite length_app. cbn [length].
    destruct p as [t|]; cbn [print_port default]; unfold id.
    + rewrite (proj2 (Nat.ltb_lt _ _)) by (cbn; lia). rewrite Nat.add_1_r.
      change (("["%char :: h ++ "]"%char :: str ":" ++ t) !! S (S (length h))) with
        ((h ++ "]"%char :: str ":" ++ t) !! S (length h)).
      rewrite lookup_app_r by lia.
      replace (S (length h) - length h)%nat with 1%nat by lia. cbn [lookup list_lookup str app].
      change ((str ":" ++ t) !! 0%nat) with (Some ":"%char). cbn iota.
      rewrite bool_decide_eq_false_2 by (intros H; by apply H). do 2 f_equal.
      change ("["%char :: h ++ "]"%char :: str ":" ++ t) with
        (("["%char :: h) ++ ["]"%char] ++ ":"%char :: t).
      rewrite (assoc_L (++)). replace (S (length h) + 2)%nat with
        (S (length (("["%char :: h) ++ ["]"%char]))) by (rewrite length_app; cbn; lia).
      apply drop_past.
    + rewrite (proj2 (Nat.ltb_ge _ _)) by (cbn; lia). done.
Qed.

Lemma parse_printed_port a n :
  authority_ok a -> port_denotes (authority_port a) n ->
  parse_port (print_authority a) (default [] (authority_port a)) = Ok n.
Proof.
  intros (Hne & _ & Hok) Hn. unfold parse_port, port_denotes in *.
  destruct (authority_port a) as [t|] eqn:Hp; cbn [default]; unfold id.
  - destruct Hn as [Hc Hn]. destruct t as [|x t]; [done|]. rewrite Hc.
    rewrite (proj2 (Z.eqb_neq n 0)), (proj2 (Z.ltb_ge _ _)) by lia. cbn [orb].
    unfold u16. by rewrite Z.mod_small by lia.
  - assert (He : ends_with_char ":" (print_authority a) = false); [|by rewrite He, Hn].
    destruct a as [h p|h p]; cbn in Hp; subst p; cbn [print_authority print_port]; unfold ends_with_char.
    + rewrite app_nil_r. destruct (rev h) as [|x r] eqn:Hr; [done|].
      apply bool_decide_eq_false_2. intros ->. apply (proj1 Hok). rewrite list_elem_of_In.
      apply in_rev. rewrite Hr. by left.
    + rewrite app_nil_r. rewrite (assoc_L (++)), rev_app_distr. cbn. by apply bool_decide_eq_false_2.
Qed.

(** The path and the stream, when the stream may carry a query. *)
Lemma split_path app name_and_query :
  "/"%char ∉ app -> "?"%char ∉ app -> name_and_query <> [] -> head name_and_query <> Some "?"%char ->
  let paq := app ++ "/"%char :: name_and_query in
  let path := match find_char "?" paq with Some q => take q paq | None => paq end in
  find_char "/" path = Some (length app) /\ (length app + 1 < length path)%nat /\
  take (length app) path = app /\
  drop (length app + 1) path ++ match find_char "?" paq with Some q => drop q paq | None => [] end
    = name_and_query.
Proof.
  intros Hs Hq Hne Hhd paq path.
  assert (Hfin : forall name, name <> [] -> path = app ++ "/"%char :: name ->
    find_char "/" path = Some (length app) /\ (length app + 1 < length path)%nat /\
    take (length app) path = app /\ drop (length app + 1) path = name).
  { intros name Hname ->. split_and!.
    - by apply find_char_app.
    - rewrite length_app. destruct name; [done|]. cbn. lia.
    - apply take_app_length.
    - rewrite Nat.add_1_r. apply drop_past. }
  unfold path in *. clear path. destruct (find_char "?" name_and_query) as [q|] eqn:Hfind.
  - apply find_char_Some in Hfind as [Hsplit Hnoq]. set (name := take q name_and_query) in *.
    assert (Hname : name <> []).
    { intros Hn. rewrite Hn in Hsplit. rewrite Hsplit in Hhd. by apply Hhd. }
    set (query := "?"%char :: drop (S q) name_and_query) in *.
    assert (Hpaq : paq = (app ++ "/"%char :: name) ++ query).
    { unfold paq. rewrite Hsplit at 1. by rewrite <- (assoc_L (++)). }
    assert (Hf : find_char "?" paq = Some (length (app ++ "/"%char :: name))).
    { rewrite Hpaq. apply find_char_app. set_solver. }
    rewrite Hf in Hfin |- *. rewrite Hpaq in Hfin |- *. rewrite take_app_length, drop_app_length in *.
    destruct (Hfin name Hname eq_refl) as (H1 & H2 & H3 & H4).
    split_and!; [done..|]. by rewrite H4.
  - assert (Hf : find_char "?" paq = None).
    { apply find_char_None. apply find_char_None in Hfind. unfold paq. set_solver. }
    rewrite Hf in Hfin |- *. destruct (Hfin name_and_query Hne eq_refl) as (H1 & H2 & H3 & H4).
    rewrite app_nil_r. by split_and!.
Qed.

(** Every well-formed origin URL is accepted and taken apart correctly: whatever host (a name
    or a bracketed IPv6 address), port text, application and stream (with any query) are printed
    as a URL, [parse_rtmp_url] returns exactly that host, the port the text denotes (1935 when
    there is none), that application, that stream, and the URL up to the application as
    [tc_url]. *)
Theorem parse_printed_rtmp_url a n app stream_name :
  authority_ok a -> port_denotes (authority_port a) n ->
  app <> [] -> Forall clean app -> "/"%char ∉ app -> "?"%char ∉ app ->
  stream_name <> [] -> Forall clean stream_name -> head stream_name <> Some "?"%char ->
  parse_rtmp_url (scheme ++ print_authority a ++ str "/" ++ app ++ str "/" ++ stream_name) =
  Ok (mkUrl (authority_host a) n app stream_name (scheme ++ print_authority a ++ str "/" ++ app)).
Proof.
  intros Ha Hn Hne Hclean Hs Hq Hsne Hsclean Hhd. set (url := scheme ++ _).
  assert (Hall : Forall clean url).
  { unfold url. rewrite !Forall_app. split_and!; try done.
    - repeat constructor; done.
    - destruct Ha as (_ & Ha & _). eapply List.Forall_impl; [|exact Ha]. by intros x [H _].
    - repeat constructor; done.
    - repeat constructor; done. }
  unfold parse_rtmp_url.
  assert (Hhash : find_char "#" url = None).
  { apply find_char_None. intros Hin. rewrite List.Forall_forall in Hall.
    apply list_elem_of_In, Hall in Hin as [_ Hin]. done. }
  rewrite Hhash. cbn [is_some].
  assert (Hctl : existsb (fun c => char_code c <=? 0x20) url = false).
  { apply Bool.not_true_iff_false. rewrite existsb_exists. intros (c & Hin & Hc).
    rewrite List.Forall_forall in Hall. apply Hall in Hin as [Hin _]. lia. }
  rewrite Hctl. assert (Hst : starts_with scheme url = true).
  { apply bool_decide_eq_true_2. apply take_app_length. }
  rewrite Hst. cbn [negb]. unfold url. rewrite drop_app_length.
  change (str "/" ++ app ++ str "/" ++ stream_name) with ("/"%char :: app ++ "/"%char :: stream_name).
  rewrite find_char_app by (eapply authority_chars; [done|by left]).
  set (pa := print_authority a) in *.
  assert (Hpa : pa <> []).
  { destruct Ha as (Hh & _). unfold pa. destruct a as [h p|h p]; cbn in Hh |- *; [|done].
    by destruct h. }
  assert (Hlen : Nat.eqb (length pa) 0 ||
    Nat.leb (length (pa ++ "/"%char :: app ++ "/"%char :: stream_name)) (length pa + 1) = false).
  { destruct pa; [done|]. apply Nat.leb_gt. rewrite length_app. destruct app; [done|]. cbn. lia. }
  rewrite Hlen, take_app_length, Nat.add_1_r, drop_past.
  assert (Hat : find_char "@" pa = None)
    by (apply find_char_None; eapply authority_chars; [done|by right; left]).
  rewrite Hat. cbn [is_some]. unfold pa. rewrite split_printed_authority, bind_Ok by done.
  rewrite bool_decide_eq_false_2 by apply Ha. rewrite (parse_printed_port a n), bind_Ok by done.
  destruct (split_path app stream_name Hs Hq Hsne Hhd) as (H1 & H2 & H3 & H4).
  cbn zeta. rewrite H1. rewrite (proj2 (Nat.leb_gt _ _)) by done.
  destruct (Nat.eqb_spec (length app) 0) as [H0|_]; [by destruct app|]. cbn [orb].
  by rewrite H3, H4.
Qed.

Lemma parse_printed_rtmp_url_witness :
  parse_rtmp_url (str "rtmp://[::1]:19350/live/key?token=a/b") =
  Ok (mkUrl (str "::1") 19350 (str "live") (str "key?token=a/b") (str "rtmp://[::1]:19350/live")).
Proof.
  apply (parse_printed_rtmp_url (Bracketed (str "::1") (Some (str "19350"))) 19350 (str "live")
    (str "key?token=a/b")); try done.
  - split_and!; [done| |].
    + repeat constructor; done.
    + cbn. set_solver.
  - repeat constructor; done.
  - cbn. set_solver.
  - cbn. set_solver.
  - repeat constructor; done.
Defined.
