(* ===== verification/Nal.v ===== *)
(** NAL-unit framing shared by the H.264 and HEVC layers (media/h264/avc.cpp and
    media/hevc/hevc.cpp carry the same [read_be], [append_start_code] and sample
    loop): the length-prefixed form that RTMP carries, the start-code form that
    MPEG-TS carries, and the loops that read one and write the other.

    Functions that append to a [std::vector<std::byte>& out] return the vector
    next to their result: what was appended before an error stays appended. *)

From S2P Require Import Prelude Bytes.

Definition malformed (what : string) : Error :=
  mkError ErrorCode.MalformedChunk ErrorCategory.Protocol what.
Definition is_malformed (e : Error) : Prop :=
  error_code e = ErrorCode.MalformedChunk /\ error_category e = ErrorCategory.Protocol.

(** [read_be(data, offset, width)]: a big-endian [std::uint32_t]. *)
Fixpoint read_be_loop (n : nat) (data : list byte) (offset value : Z) : Res Z :=
  match n with
  | O => Ok value
  | S n =>
      b <- u8_at data offset ;;
      read_be_loop n data (offset + 1) (Z.lor (u32 (Z.shiftl value 8)) b)
  end.
Definition read_be (data : list byte) (offset width : Z) : Res Z :=
  read_be_loop (Z.to_nat width) data offset 0.

Definition append_start_code (out : list byte) : list byte :=
  out ++ [z2b 0x00; z2b 0x00; z2b 0x00; z2b 0x01].

(** The loop over [out.insert(...)] of one parameter-set list. *)
Fixpoint append_nals (nals : list (list byte)) (out : list byte) : list byte :=
  match nals with
  | [] => out
  | nal :: nals => append_nals nals (append_start_code out ++ nal)
  end.

(** A list of 16-bit-length-prefixed NAL units in a decoder configuration record;
    [rd] is the caller's reader of the length field. *)
Section ReadNals.
Variable rd : list byte -> Z -> Res Z.
Variables (truncated_length past_end : Error).

Fixpoint read_nals (count : nat) (record : list byte) (offset : Z)
    (acc : list (list byte)) : Res (list (list byte) * Z) :=
  match count with
  | O => Ok (acc, offset)
  | S count =>
      if zlen record <? offset + 2 then Err truncated_length else
      len <- rd record offset ;;
      let offset := offset + 2 in
      if zlen record <? offset + len then Err past_end else
      nal <- subspan record offset len ;;
      read_nals count record (offset + len) (acc ++ [nal])
  end.
End ReadNals.

(** The sample loop: every unit whose header byte is not skipped goes out behind
    a start code. *)
Section CopyNals.
Variables (width : Z) (skip : Z -> bool) (truncated_prefix past_end : Error).

Fixpoint copy_nals (fuel : nat) (sample : list byte) (offset : Z) (out : list byte)
    : list byte * Res unit :=
  match fuel with
  | O => (out, OutOfFuel)
  | S fuel =>
      if negb (offset <? zlen sample) then (out, Ok tt) else
      if zlen sample <? offset + width then (out, Err truncated_prefix) else
      match read_be sample offset width with
      | Ok length =>
          let offset := offset + width in
          if length =? 0 then copy_nals fuel sample offset out else
          if zlen sample <? offset + length then (out, Err past_end) else
          match u8_at sample offset, subspan sample offset length with
          | Ok header, Ok nal =>
              copy_nals fuel sample (offset + length)
                (if skip header then out else append_start_code out ++ nal)
          | _, _ => (out, Fault)
          end
      | _ => (out, Fault)
      end
  end.
End CopyNals.

(** * The two framings, as data *)

(** [v] as [w] big-endian bytes, and back. *)
Fixpoint be_bytes (w : nat) (v : Z) : list byte :=
  match w with
  | O => []
  | S w => be_bytes w (v / 256) ++ [z2b v]
  end.
Definition be_value (l : list byte) : Z := foldl (fun a b => a * 256 + b2z b) 0 l.

Definition prefixed (w : nat) (nal : list byte) : list byte := be_bytes w (zlen nal) ++ nal.
Definition length_prefixed (w : nat) (nals : list (list byte)) : list byte :=
  concat (map (prefixed w) nals).
Definition fits (w : nat) (nals : list (list byte)) : Prop :=
  Forall (fun nal => zlen nal < 256 ^ Z.of_nat w) nals.
Definition annexb (nals : list (list byte)) : list byte :=
  concat (map (fun nal => append_start_code [] ++ nal) nals).

(** * Lemmas on big-endian fields of any width *)

Lemma malformed_is what : is_malformed (malformed what).
Proof. done. Qed.
#[export] Hint Resolve malformed_is : rtmp.

Lemma length_be_bytes w : forall v, length (be_bytes w v) = w.
Proof. induction w as [|w IH]; intros v; [done|]. cbn. rewrite length_app, IH. cbn. lia. Qed.

Lemma zlen_be_bytes w v : zlen (be_bytes w v) = Z.of_nat w.
Proof. unfold zlen. by rewrite length_be_bytes. Qed.
#[export] Hint Rewrite zlen_be_bytes : bytes.

Lemma be_value_snoc l b : be_value (l ++ [b]) = be_value l * 256 + b2z b.
Proof. unfold be_value. by rewrite foldl_app. Qed.

Lemma be_value_range l : 0 <= be_value l < 256 ^ zlen l.
Proof.
  induction l as [|b l IH] using rev_ind; [by vm_compute|].
  rewrite be_value_snoc, zlen_app. change (zlen [b]) with 1.
  pose proof (b2z_range b). pose proof (zlen_nonneg l).
  rewrite Z.pow_add_r by lia. lia.
Qed.

Lemma be_bytes_value l : be_bytes (length l) (be_value l) = l.
Proof.
  induction l as [|b l IH] using rev_ind; [done|].
  rewrite be_value_snoc, length_app, Nat.add_comm. cbn [Nat.add length be_bytes].
  pose proof (b2z_range b). rewrite Z.div_add_l, (Z.div_small (b2z b)), Z.add_0_r by lia.
  rewrite IH. f_equal. f_equal. rewrite <- z2b_mod, Z.add_comm, Z.mod_add, z2b_mod by lia.
  apply z2b_b2z.
Qed.

Lemma be_value_bytes w : forall v, 0 <= v < 256 ^ Z.of_nat w -> be_value (be_bytes w v) = v.
Proof.
  induction w as [|w IH]; intros v Hv; cbn [be_bytes].
  - change (256 ^ Z.of_nat 0) with 1 in Hv. unfold be_value. cbn. lia.
  - rewrite be_value_snoc, b2z_z2b, IH.
    + pose proof (Z.div_mod v 256). lia.
    + rewrite Nat2Z.inj_succ, Z.pow_succ_r in Hv by lia.
      split; [apply Z.div_pos; lia|]. apply Z.div_lt_upper_bound; lia.
Qed.

Lemma read_be_loop_suffix p : forall data off l acc,
  at_suffix data off (p ++ l) -> 0 <= acc -> (acc + 1) * 256 ^ zlen p <= 2 ^ 32 ->
  read_be_loop (length p) data off acc = Ok (foldl (fun a b => a * 256 + b2z b) acc p).
Proof.
  induction p as [|b p IH]; intros data off l acc Hs Ha Hb; [done|].
  cbn [length read_be_loop foldl]. rewrite (u8_at_suffix _ _ _ _ Hs), bind_Ok.
  rewrite zlen_cons, Z.pow_add_r in Hb by zlia. pose proof (b2z_range b).
  assert (Hp : 0 < 256 ^ zlen p) by (apply Z.pow_pos_nonneg; zlia).
  assert (Hacc : Z.lor (u32 (Z.shiftl acc 8)) (b2z b) = acc * 256 + b2z b).
  { unfold u32. rewrite Z.shiftl_mul_pow2, Z.mod_small by nia.
    rewrite lor_mult_add by lia. lia. }
  rewrite Hacc. apply IH with (l := l); [by apply at_suffix_cons in Hs|lia|nia].
Qed.

Lemma read_be_suffix data off p l :
  at_suffix data off (p ++ l) -> zlen p <= 4 -> read_be data off (zlen p) = Ok (be_value p).
Proof.
  intros Hs Hp. unfold read_be, zlen at 1. rewrite Nat2Z.id.
  apply read_be_loop_suffix with (l := l); [done|lia|].
  change (2 ^ 32) with (256 ^ 4). pose proof (zlen_nonneg p).
  pose proof (Z.pow_le_mono_r 256 (zlen p) 4). lia.
Qed.

Lemma read_be_bytes data off w v l :
  at_suffix data off (be_bytes w v ++ l) -> (w <= 4)%nat -> 0 <= v < 256 ^ Z.of_nat w ->
  read_be data off (Z.of_nat w) = Ok v.
Proof.
  intros Hs Hw Hv. rewrite <- (zlen_be_bytes w v) at 1.
  rewrite (read_be_suffix _ _ _ _ Hs) by zlia. by rewrite be_value_bytes.
Qed.

(** Splitting what is left of the input after a length test. *)
Lemma suffix_split data off l n :
  at_suffix data off l -> 0 <= n -> off + n <= zlen data ->
  exists p l', l = p ++ l' /\ zlen p = n.
Proof.
  intros Hs Hn Hle. pose proof (at_suffix_zlen _ _ _ Hs).
  exists (take (Z.to_nat n) l), (drop (Z.to_nat n) l).
  split; [by rewrite take_drop|apply zlen_take; lia].
Qed.

(** A length test that passed, a field of [w] bytes and a body of that length
    make one [prefixed] unit. *)
Lemma prefixed_split p body :
  be_value p = zlen body -> p ++ body = prefixed (length p) body.
Proof. intros Hv. unfold prefixed. by rewrite <- Hv, be_bytes_value. Qed.

Lemma zlen_prefixed w nal : zlen (prefixed w nal) = Z.of_nat w + zlen nal.
Proof. unfold prefixed. by rewrite zlen_app, zlen_be_bytes. Qed.
#[export] Hint Rewrite zlen_prefixed : bytes.

Lemma length_prefixed_cons w nal nals :
  length_prefixed w (nal :: nals) = be_bytes w (zlen nal) ++ nal ++ length_prefixed w nals.
Proof. unfold length_prefixed, prefixed. cbn. by rewrite <- app_assoc. Qed.

Lemma append_nals_annexb nals : forall out, append_nals nals out = out ++ annexb nals.
Proof.
  induction nals as [|nal nals IH]; intros out; cbn [append_nals]; [by rewrite app_nil_r|].
  rewrite IH. unfold annexb, append_start_code. cbn. by rewrite <- !app_assoc.
Qed.

Lemma annexb_app a b : annexb (a ++ b) = annexb a ++ annexb b.
Proof. unfold annexb. by rewrite map_app, concat_app. Qed.

(** * The parameter-set reader *)

Section ReadNalsSpec.
Variable rd : list byte -> Z -> Res Z.
Variables (truncated_length past_end : Error).
Hypothesis rd_suffix : forall data off a b l,
  at_suffix data off (a :: b :: l) -> rd data off = Ok (be_value [a; b]).
Notation reads := (read_nals rd truncated_length past_end).

Lemma read_nals_prefixed nals : forall record off l acc,
  at_suffix record off (length_prefixed 2 nals ++ l) -> fits 2 nals ->
  reads (length nals) record off acc
  = Ok (acc ++ nals, off + zlen (length_prefixed 2 nals)).
Proof.
  induction nals as [|nal nals IH]; intros record off l acc Hs Hf.
  - cbn. by rewrite app_nil_r, zlen_nil, Z.add_0_r.
  - apply Forall_cons_1 in Hf as [Hn Hf]. rewrite length_prefixed_cons, <- !app_assoc in Hs.
    pose proof (at_suffix_zlen _ _ _ Hs) as Hlen. cbn [length read_nals].
    rewrite (proj2 (Z.ltb_ge _ _)) by zlia.
    destruct (be_bytes 2 (zlen nal)) as [|a [|b [|? ?] ] ] eqn:Hp; try done.
    rewrite (rd_suffix _ _ _ _ _ Hs), bind_Ok, <- Hp, be_value_bytes by zlia.
    cbv zeta. rewrite (proj2 (Z.ltb_ge _ _)) by zlia.
    apply (at_suffix_app record off [a; b]) in Hs. change (zlen [a; b]) with 2 in Hs.
    rewrite (subspan_suffix _ _ _ _ Hs), bind_Ok.
    apply at_suffix_app in Hs.
    rewrite (IH _ _ _ _ Hs Hf), <- app_assoc, length_prefixed_cons. f_equal. f_equal. zlia.
Qed.

Lemma read_nals_inv count : forall record off l acc,
  at_suffix record off l ->
  match reads count record off acc with
  | Ok (nals', off') => exists nals l', length nals = count /\ fits 2 nals /\
      nals' = acc ++ nals /\ l = length_prefixed 2 nals ++ l' /\ at_suffix record off' l'
  | Err e => e = truncated_length \/ e = past_end
  | _ => False
  end.
Proof.
  induction count as [|count IH]; intros record off l acc Hs; cbn [read_nals].
  - exists [], l. rewrite app_nil_r. split_and!; try done. constructor.
  - destruct (Z.ltb_spec (zlen record) (off + 2)) as [|Hl]; [by left|].
    destruct (suffix_split _ _ _ 2 Hs) as (p & l1 & -> & Hp); [lia..|].
    destruct p as [|a [|b [|? ?] ] ]; try (rewrite ?zlen_cons, ?zlen_nil in Hp; zlia).
    rewrite (rd_suffix _ _ _ _ _ Hs), bind_Ok. cbv zeta.
    apply at_suffix_app in Hs. change (zlen [a; b]) with 2 in Hs.
    pose proof (be_value_range [a; b]) as Hr.
    destruct (Z.ltb_spec (zlen record) (off + 2 + be_value [a; b])); [by right|].
    destruct (suffix_split _ _ _ (be_value [a; b]) Hs) as (nal & l2 & -> & Hn); [lia..|].
    rewrite <- Hn, (subspan_suffix _ _ _ _ Hs), bind_Ok. apply at_suffix_app in Hs.
    specialize (IH _ _ _ (acc ++ [nal]) Hs).
    destruct (reads count record _ _) as [[nals' off']|e| |]; [|done..].
    destruct IH as (nals & l' & <- & Hf & -> & -> & Hs').
    exists (nal :: nals), l'. split_and!; try done.
    + constructor; [|done]. rewrite Hn. exact (proj2 Hr).
    + by rewrite <- app_assoc.
    + rewrite length_prefixed_cons, Hn, <- !app_assoc. f_equal.
      symmetry. apply (be_bytes_value [a; b]).
Qed.
End ReadNalsSpec.

Lemma read_be_2 data off a b l :
  at_suffix data off (a :: b :: l) -> read_be data off 2 = Ok (be_value [a; b]).
Proof. intros Hs. apply (read_be_suffix data off [a; b] l Hs). by vm_compute. Qed.

Lemma read_u16_be_2 data off a b l :
  at_suffix data off (a :: b :: l) -> read_u16_be_at data off = Ok (be_value [a; b]).
Proof.
  intros Hs. unfold read_u16_be_at. change 2 with (zlen [a; b]).
  rewrite (subspan_suffix data off [a; b] l Hs), bind_Ok.
  pose proof (b2z_range a). pose proof (b2z_range b).
  change (read_u16_be [a; b]) with (Ok (u16 (Z.lor (Z.shiftl (b2z a) 8) (b2z b)))).
  rewrite be16_arith by done. done.
Qed.

(** * The sample loop *)

(** A list of units fits the fuel its bytes give. *)
Lemma length_length_prefixed w nals :
  (1 <= w)%nat -> (length nals <= length (length_prefixed w nals))%nat.
Proof.
  intros Hw. induction nals as [|nal nals IH]; [done|].
  rewrite length_prefixed_cons, !length_app, length_be_bytes. cbn. lia.
Qed.

Section CopyNalsSpec.
Variables (w : nat) (skip : Z -> bool) (truncated_prefix past_end : Error).
Hypothesis width_ok : (1 <= w <= 4)%nat.
Notation copies := (copy_nals (Z.of_nat w) skip truncated_prefix past_end).

(** The units the loop lets through: non-empty, header byte not skipped. *)
Definition kept (nal : list byte) : bool :=
  match nal with [] => false | b :: _ => negb (skip (b2z b)) end.

Lemma copy_step b nal out :
  (if skip (b2z b) then out else append_start_code out ++ b :: nal)
  = out ++ annexb (if kept (b :: nal) then [b :: nal] else []).
Proof.
  unfold kept. destruct (skip (b2z b)); cbn [negb]; [by rewrite app_nil_r|].
  unfold annexb, append_start_code. cbn. by rewrite app_nil_r, <- app_assoc.
Qed.

Lemma annexb_filter_cons nal nals :
  annexb (List.filter kept (nal :: nals))
  = annexb (if kept nal then [nal] else []) ++ annexb (List.filter kept nals).
Proof. cbn [List.filter]. destruct (kept nal); [|done]. exact (annexb_app [nal] _). Qed.

Lemma copy_nals_prefixed nals : forall fuel sample off out,
  at_suffix sample off (length_prefixed w nals) -> fits w nals ->
  (length nals < fuel)%nat ->
  copies fuel sample off out = (out ++ annexb (List.filter kept nals), Ok tt).
Proof.
  induction nals as [|nal nals IH]; intros fuel sample off out Hs Hf Hfuel;
    (destruct fuel as [|fuel]; [cbn in Hfuel; lia|]);
    pose proof (at_suffix_zlen _ _ _ Hs) as Hlen; cbn [copy_nals].
  - change (length_prefixed w []) with (@nil byte) in Hlen.
    rewrite (proj2 (Z.ltb_ge _ _)) by zlia. by rewrite app_nil_r.
  - apply Forall_cons_1 in Hf as [Hn Hf]. rewrite length_prefixed_cons in Hs, Hlen.
    rewrite (proj2 (Z.ltb_lt _ _)) by zlia. cbn [negb].
    rewrite (proj2 (Z.ltb_ge _ _)) by zlia.
    rewrite (read_be_bytes _ _ _ _ _ Hs) by zlia. cbv zeta.
    apply at_suffix_app in Hs. rewrite zlen_be_bytes in Hs.
    rewrite annexb_filter_cons. destruct nal as [|b nal].
    + rewrite zlen_nil, Z.eqb_refl. apply IH; [done..|]. cbn in Hfuel. lia.
    + rewrite (proj2 (Z.eqb_neq _ _)) by zlia. rewrite (proj2 (Z.ltb_ge _ _)) by zlia.
      rewrite (u8_at_suffix _ _ _ _ Hs), (subspan_suffix _ _ _ _ Hs), copy_step.
      apply at_suffix_app in Hs. rewrite (IH fuel) by (cbn in Hfuel; done || lia).
      by rewrite <- app_assoc.
Qed.

Lemma copy_nals_inv fuel : forall sample off l out,
  at_suffix sample off l -> (length l < fuel)%nat ->
  match copies fuel sample off out with
  | (out', Ok _) => exists nals, l = length_prefixed w nals /\ fits w nals /\
      out' = out ++ annexb (List.filter kept nals)
  | (out', Err e) => out `prefix_of` out' /\ (e = truncated_prefix \/ e = past_end)
  | _ => False
  end.
Proof.
  induction fuel as [|fuel IH]; intros sample off l out Hs Hfuel; [lia|]. cbn [copy_nals].
  pose proof (at_suffix_zlen _ _ _ Hs) as Hlen.
  destruct (Z.ltb_spec off (zlen sample)) as [Hoff|Hoff]; cbn [negb].
  2: { exists []. rewrite app_nil_r. split_and!; [|constructor|done]. apply zlen_0_nil. zlia. }
  destruct (Z.ltb_spec (zlen sample) (off + Z.of_nat w)); [by split; [|left]|].
  destruct (suffix_split _ _ _ (Z.of_nat w) Hs) as (p & l1 & -> & Hp); [lia..|].
  assert (Hrd : read_be sample off (Z.of_nat w) = Ok (be_value p))
    by (rewrite <- Hp; apply (read_be_suffix _ _ _ _ Hs); lia).
  rewrite Hrd. cbv zeta.
  apply at_suffix_app in Hs. pose proof (be_value_range p) as Hr. rewrite Hp in Hs, Hr.
  assert (Hw : length p = w) by (unfold zlen in Hp; lia).
  pose proof (be_bytes_value p) as Hpb. rewrite Hw in Hpb.
  rewrite length_app in Hfuel.
  destruct (Z.eqb_spec (be_value p) 0) as [Hz|Hz].
  { specialize (IH _ _ _ out Hs ltac:(lia)).
    destruct (copies fuel sample (off + Z.of_nat w) out) as [out' [r|e| |] ]; [|done..].
    destruct IH as (nals & -> & Hf & ->). exists ([] :: nals).
    rewrite length_prefixed_cons, zlen_nil, <- Hz, Hpb.
    split_and!; [done| |by rewrite annexb_filter_cons]. constructor; [|done].
    rewrite zlen_nil. lia. }
  destruct (Z.ltb_spec (zlen sample) (off + Z.of_nat w + be_value p)); [by split; [|right]|].
  destruct (suffix_split _ _ _ (be_value p) Hs) as (nal & l2 & -> & Hn); [lia..|].
  destruct nal as [|b nal]; [rewrite zlen_nil in Hn; lia|].
  rewrite (u8_at_suffix _ _ _ _ Hs), <- Hn, (subspan_suffix _ _ _ _ Hs), copy_step.
  apply at_suffix_app in Hs. rewrite length_app in Hfuel.
  specialize (IH _ _ _ (out ++ annexb (if kept (b :: nal) then [b :: nal] else [])) Hs ltac:(lia)).
  destruct (copies fuel sample _ _) as [out' [r|e| |] ]; [| |done..].
  - destruct IH as (nals & -> & Hf & ->). exists ((b :: nal) :: nals).
    rewrite length_prefixed_cons, Hn, Hpb, annexb_filter_cons, <- app_assoc.
    split_and!; [done| |done]. constructor; [|done]. rewrite Hn. exact (proj2 Hr).
  - destruct IH as [Hpre He]. split; [|done]. etransitivity; [|exact Hpre]. by apply prefix_app_r.
Qed.

(** The loop succeeds exactly on the length-prefixed samples. *)
Lemma copy_nals_exact sample out out' :
  copies (S (length sample)) sample 0 out = (out', Ok tt) <->
  exists nals, sample = length_prefixed w nals /\ fits w nals /\
    out' = out ++ annexb (List.filter kept nals).
Proof.
  split.
  - intros Hc. pose proof (copy_nals_inv (S (length sample)) sample 0 sample out
      (at_suffix_0 _) ltac:(lia)) as Hi. by rewrite Hc in Hi.
  - intros (nals & -> & Hf & ->). apply copy_nals_prefixed; [apply at_suffix_0|done|].
    pose proof (length_length_prefixed w nals). lia.
Qed.
End CopyNalsSpec.

