(* ===== verification/Avc.v ===== *)
(** H.264 passthrough helpers (media/h264/avc.hpp, avc.cpp): the FLV video tag,
    the AVCDecoderConfigurationRecord and the AVCC to Annex B conversion. *)

From S2P Require Import Prelude Bytes Nal.

Definition kFrameTypeKey : Z := 1.
Definition kCodecIdAvc : Z := 7.
Definition kAvcPacketTypeSequenceHeader : Z := 0.
Definition kAvcPacketTypeNalu : Z := 1.
Definition kAvcPacketTypeEndOfSequence : Z := 2.
Definition kNalTypeIdr : Z := 5.
Definition kNalTypeSei : Z := 6.
Definition kNalTypeSps : Z := 7.
Definition kNalTypePps : Z := 8.
Definition kNalTypeAud : Z := 9.

Record AvcDecoderConfig := mkAvcDecoderConfig {
  nalu_length_size : Z;
  sps : list (list byte);
  pps : list (list byte)
}.

Definition empty {A} (l : list A) : bool := match l with [] => true | _ => false end.
Definition valid (c : AvcDecoderConfig) : bool := negb (empty (sps c)) && negb (empty (pps c)).

Record VideoTag := mkVideoTag {
  is_keyframe : bool;
  avc_packet_type : Z;
  composition_time_ms : Z;   (* std::int32_t *)
  body : list byte
}.

Definition parse_video_tag (payload : list byte) : Res VideoTag :=
  if zlen payload <? 5 then Err (malformed "FLV video payload shorter than 5 bytes") else
  header <- u8_at payload 0 ;;
  let frame_type := Z.land (Z.shiftr header 4) 0x0F in
  let codec_id := Z.land header 0x0F in
  if negb (codec_id =? kCodecIdAvc) then
    Err (malformed "unsupported FLV video codec id (HLS passthrough requires AVC/H.264)") else
  avc_packet_type <- u8_at payload 1 ;;
  cts <- read_be payload 2 3 ;;
  (* cts |= static_cast<std::int32_t>(0xFF000000u) *)
  let cts := if negb (Z.land cts 0x00800000 =? 0) then Z.lor cts (- 0x01000000) else cts in
  body <- subspan_from payload 5 ;;
  Ok (mkVideoTag (frame_type =? kFrameTypeKey) avc_packet_type cts body).

Definition parse_decoder_config (record : list byte) : Res AvcDecoderConfig :=
  if zlen record <? 6 then Err (malformed "AVCDecoderConfigurationRecord too short") else
  b4 <- u8_at record 4 ;;
  let nalu_length_size := Z.land b4 0x03 + 1 in
  b5 <- u8_at record 5 ;;
  let sps_count := Z.land b5 0x1F in
  let rd record offset := read_be record offset 2 in
  '(sps, offset) <- read_nals rd (malformed "truncated SPS length")
                      (malformed "SPS runs past end of record")
                      (Z.to_nat sps_count) record 6 [] ;;
  if zlen record <=? offset then Err (malformed "missing PPS count") else
  pps_count <- u8_at record offset ;;
  '(pps, offset) <- read_nals rd (malformed "truncated PPS length")
                      (malformed "PPS runs past end of record")
                      (Z.to_nat pps_count) record (offset + 1) [] ;;
  let config := mkAvcDecoderConfig nalu_length_size sps pps in
  if negb (valid config) then Err (malformed "AVC config carries no SPS/PPS") else Ok config.

(** [skip] of the sample loop, from the NAL header byte. *)
Definition skip_nal (insert_parameter_sets : bool) (header : Z) : bool :=
  let nal_type := Z.land header 0x1F in
  (nal_type =? kNalTypeAud) ||
  (insert_parameter_sets && ((nal_type =? kNalTypeSps) || (nal_type =? kNalTypePps))).

Definition avcc_to_annexb (sample : list byte) (config : AvcDecoderConfig)
    (insert_parameter_sets : bool) (out : list byte) : list byte * Res unit :=
  if (nalu_length_size config <? 1) || (4 <? nalu_length_size config) then
    (out, Err (malformed "invalid NAL length size")) else
  let out := append_start_code out ++ [z2b 0x09; z2b 0xF0] in
  let out := if insert_parameter_sets
             then append_nals (pps config) (append_nals (sps config) out) else out in
  copy_nals (nalu_length_size config) (skip_nal insert_parameter_sets)
    (malformed "truncated AVCC NAL length prefix") (malformed "AVCC NAL runs past end of sample")
    (S (length sample)) sample 0 out.

(** * What a decoder configuration record is *)

Definition aud : list byte := [z2b 0x09; z2b 0xF0].

(** [record_layout record b4 sps pps]: a 4-byte head, the length-size byte [b4], the
    SPS count (low five bits) and list, the PPS count and list, then anything. *)
Definition record_layout (record : list byte) (b4 : byte) (sps pps : list (list byte)) : Prop :=
  exists head b5 rest,
    zlen head = 4 /\ Z.land (b2z b5) 0x1F = zlen sps /\ zlen pps < 256 /\
    fits 2 sps /\ fits 2 pps /\
    record = head ++ b4 :: b5 :: length_prefixed 2 sps
               ++ z2b (zlen pps) :: length_prefixed 2 pps ++ rest.

Lemma land_31_range b : 0 <= Z.land (b2z b) 31 < 32.
Proof. change 31 with (2 ^ 5 - 1). rewrite land_ones_mod by lia. apply Z.mod_pos_bound. lia. Qed.

Lemma nat_of_count (n : Z) (k : nat) : 0 <= n -> (k = Z.to_nat n <-> Z.of_nat k = n).
Proof. lia. Qed.

Section AvcRecord.
Variable rd : list byte -> Z -> Res Z.
Hypothesis rd_suffix : forall data off a b l,
  at_suffix data off (a :: b :: l) -> rd data off = Ok (be_value [a; b]).

(** The body both readers of the record share (parse_decoder_config here and
    parse_avc_sequence_header in media_ingest.cpp), with their error texts. *)
Definition read_record {R} (el1 ep1 ec el2 ep2 : Error) (k : Z -> list (list byte) -> list (list byte) -> Res R)
    (record : list byte) : Res R :=
  b4 <- u8_at record 4 ;;
  b5 <- u8_at record 5 ;;
  '(sps, offset) <- read_nals rd el1 ep1 (Z.to_nat (Z.land b5 0x1F)) record 6 [] ;;
  if zlen record <=? offset then Err ec else
  pps_count <- u8_at record offset ;;
  '(pps, offset) <- read_nals rd el2 ep2 (Z.to_nat pps_count) record (offset + 1) [] ;;
  k b4 sps pps.

Lemma read_record_layout {R} el1 ep1 ec el2 ep2 (k : _ -> _ -> _ -> Res R) record b4 sps pps :
  record_layout record b4 sps pps ->
  read_record el1 ep1 ec el2 ep2 k record = k (b2z b4) sps pps.
Proof.
  intros (head & b5 & rest & Hh & H5 & Hp & Hfs & Hfp & Hrec).
  assert (Hs : at_suffix record 4 (b4 :: b5 :: length_prefixed 2 sps
             ++ z2b (zlen pps) :: length_prefixed 2 pps ++ rest))
    by (rewrite Hrec, <- Hh; apply at_suffix_intro).
  clear Hrec. unfold read_record. rewrite (u8_at_suffix _ _ _ _ Hs), bind_Ok.
  apply at_suffix_cons in Hs. change (4 + 1) with 5 in Hs.
  rewrite (u8_at_suffix _ _ _ _ Hs), bind_Ok, H5.
  apply at_suffix_cons in Hs. change (5 + 1) with 6 in Hs.
  unfold zlen at 1. rewrite Nat2Z.id.
  rewrite (read_nals_prefixed rd _ _ rd_suffix _ _ _ _ _ Hs Hfs), bind_Ok.
  apply at_suffix_app in Hs. pose proof (at_suffix_zlen _ _ _ Hs) as Hl.
  rewrite (proj2 (Z.leb_gt _ _)) by zlia.
  rewrite (u8_at_suffix _ _ _ _ Hs), bind_Ok, b2z_z2b, Z.mod_small by zlia.
  apply at_suffix_cons in Hs. unfold zlen at 1. rewrite Nat2Z.id.
  by rewrite (read_nals_prefixed rd _ _ rd_suffix _ _ _ _ _ Hs Hfp), bind_Ok.
Qed.

Lemma read_record_inv {R} el1 ep1 ec el2 ep2 (k : _ -> _ -> _ -> Res R) record :
  6 <= zlen record ->
  (exists b4 sps pps, record_layout record b4 sps pps /\
     read_record el1 ep1 ec el2 ep2 k record = k (b2z b4) sps pps)
  \/ (exists e, read_record el1 ep1 ec el2 ep2 k record = Err e /\ e ∈ [el1; ep1; ec; el2; ep2]).
Proof.
  intros Hlen. pose proof (at_suffix_0 record) as Hs.
  destruct (suffix_split record 0 record 4 Hs) as (head & l & Hrec & Hh); [lia..|].
  rewrite Hrec in Hs at 2. apply at_suffix_app in Hs. rewrite Hh, Z.add_0_l in Hs.
  pose proof (at_suffix_zlen _ _ _ Hs) as Hl.
  destruct l as [|b4 [|b5 l] ]; [zlia..|]. unfold read_record.
  rewrite (u8_at_suffix _ _ _ _ Hs), bind_Ok.
  apply at_suffix_cons in Hs. change (4 + 1) with 5 in Hs.
  rewrite (u8_at_suffix _ _ _ _ Hs), bind_Ok.
  apply at_suffix_cons in Hs. change (5 + 1) with 6 in Hs.
  pose proof (land_31_range b5) as H5.
  pose proof (read_nals_inv rd el1 ep1 rd_suffix (Z.to_nat (Z.land (b2z b5) 0x1F)) _ _ _ [] Hs) as Hr.
  destruct (read_nals rd el1 ep1 _ record 6 []) as [ [ss off1]|e| |]; [|right|done..].
  2: { exists e. split; [done|]. destruct Hr as [-> | -> ]; set_solver. }
  destruct Hr as (nals & l' & Hc & Hfs & -> & -> & Hs1). rewrite bind_Ok. cbn [app].
  destruct (Z.leb_spec (zlen record) off1) as [|Ho].
  { right. exists ec. split; [done|set_solver]. }
  pose proof (at_suffix_zlen _ _ _ Hs1) as Hl1.
  destruct l' as [|b6 l']; [zlia|]. rewrite (u8_at_suffix _ _ _ _ Hs1), bind_Ok.
  apply at_suffix_cons in Hs1. pose proof (b2z_range b6) as H6.
  pose proof (read_nals_inv rd el2 ep2 rd_suffix (Z.to_nat (b2z b6)) _ _ _ [] Hs1) as Hr.
  destruct (read_nals rd el2 ep2 _ record (off1 + 1) []) as [ [qs off2]|e| |]; [|right|done..].
  2: { exists e. split; [done|]. destruct Hr as [-> | -> ]; set_solver. }
  destruct Hr as (nals2 & rest & Hc2 & Hfp & -> & -> & _).
  left. exists b4, nals, nals2. split; [|done]. exists head, b5, rest.
  assert (H2 : zlen nals2 = b2z b6) by (unfold zlen; lia).
  split_and!; try done; [unfold zlen; lia|lia|]. by rewrite H2, z2b_b2z.
Qed.
End AvcRecord.

Lemma record_layout_size record b4 ss qs : record_layout record b4 ss qs -> 6 <= zlen record.
Proof. intros (head & b5 & rest & Hh & _ & _ & _ & _ & ->). zlia. Qed.

Lemma empty_spec {A} (l : list A) : empty l = false <-> l <> [].
Proof. by destruct l. Qed.

Lemma valid_spec c : valid c = true <-> sps c <> [] /\ pps c <> [].
Proof.
  unfold valid. rewrite andb_true_iff, !negb_true_iff, !empty_spec. done.
Qed.

Lemma parse_decoder_config_record record :
  parse_decoder_config record =
  if zlen record <? 6 then Err (malformed "AVCDecoderConfigurationRecord too short") else
  read_record (fun record offset => read_be record offset 2)
    (malformed "truncated SPS length") (malformed "SPS runs past end of record")
    (malformed "missing PPS count") (malformed "truncated PPS length")
    (malformed "PPS runs past end of record")
    (fun b4 ss qs => let config := mkAvcDecoderConfig (Z.land b4 0x03 + 1) ss qs in
       if negb (valid config) then Err (malformed "AVC config carries no SPS/PPS") else Ok config)
    record.
Proof. done. Qed.

Lemma record_errors e l : e ∈ l -> Forall is_malformed l -> is_malformed e.
Proof. intros He Hl. rewrite List.Forall_forall in Hl. by apply Hl, list_elem_of_In. Qed.

Lemma parse_decoder_config_cases record :
  (exists b4 ss qs, record_layout record b4 ss qs /\ ss <> [] /\ qs <> [] /\
     parse_decoder_config record = Ok (mkAvcDecoderConfig (Z.land (b2z b4) 3 + 1) ss qs))
  \/ (exists e, parse_decoder_config record = Err e /\ is_malformed e).
Proof.
  rewrite parse_decoder_config_record. destruct (Z.ltb_spec (zlen record) 6); [by right; eauto with rtmp|].
  destruct (read_record_inv _ read_be_2 (malformed "truncated SPS length")
    (malformed "SPS runs past end of record") (malformed "missing PPS count")
    (malformed "truncated PPS length") (malformed "PPS runs past end of record")
    (fun b4 ss qs => let config := mkAvcDecoderConfig (Z.land b4 0x03 + 1) ss qs in
       if negb (valid config) then Err (malformed "AVC config carries no SPS/PPS") else Ok config)
    record) as [(b4 & ss & qs & Hl & ->)|(e & -> & He)]; [done| |].
  - cbv zeta. destruct (valid _) eqn:Hv; cbn [negb]; [left|by right; eauto with rtmp].
    apply valid_spec in Hv as [Hs Hp]. by exists b4, ss, qs.
  - right. exists e. split; [done|]. apply (record_errors e _ He). by repeat constructor.
Qed.

(** parse_decoder_config accepts exactly the AVCDecoderConfigurationRecords that
    carry at least one SPS and one PPS: it returns [c] iff the record is laid out as
    the standard says with the parameter sets of [c] in order and the NAL length width
    its fifth byte gives; every other input, truncated anywhere, is refused. *)
Theorem parse_decoder_config_exact record c :
  parse_decoder_config record = Ok c <->
  exists b4, record_layout record b4 (sps c) (pps c) /\ sps c <> [] /\ pps c <> [] /\
    nalu_length_size c = Z.land (b2z b4) 3 + 1.
Proof.
  split.
  - intros Hc. destruct (parse_decoder_config_cases record)
      as [(b4 & ss & qs & Hl & Hs & Hp & Ho)|(e & He & _)]; [|congruence].
    rewrite Ho in Hc. injection Hc as <-. exists b4. done.
  - destruct c as [n ss qs]. cbn. intros (b4 & Hl & Hs & Hp & ->).
    pose proof (record_layout_size _ _ _ _ Hl).
    rewrite parse_decoder_config_record, (proj2 (Z.ltb_ge _ _)) by done.
    rewrite (read_record_layout _ read_be_2 _ _ _ _ _ _ _ _ _ _ Hl). cbv zeta.
    by rewrite (proj2 (valid_spec _)).
Qed.

(** * AVCC to Annex B *)

(** The parameter sets a key frame is prefixed with. *)
Definition parameter_sets (config : AvcDecoderConfig) (insert : bool) : list (list byte) :=
  if insert then sps config ++ pps config else [].

Lemma avcc_to_annexb_loop sample config insert out :
  1 <= nalu_length_size config <= 4 ->
  avcc_to_annexb sample config insert out =
  copy_nals (nalu_length_size config) (skip_nal insert)
    (malformed "truncated AVCC NAL length prefix") (malformed "AVCC NAL runs past end of sample")
    (S (length sample)) sample 0 (out ++ annexb (aud :: parameter_sets config insert)).
Proof.
  intros Hw. unfold avcc_to_annexb.
  rewrite (proj2 (Z.ltb_ge _ _)), (proj2 (Z.ltb_ge 4 _)) by lia. cbn [orb].
  f_equal. unfold parameter_sets, append_start_code. destruct insert.
  - rewrite !append_nals_annexb, <- !app_assoc, <- annexb_app. done.
  - by rewrite <- app_assoc.
Qed.

(** avcc_to_annexb succeeds exactly on the samples that are a sequence of
    length-prefixed NAL units, and then appends, each behind a start code: an access
    unit delimiter, the parameter sets when they are asked for, and the units of the
    sample in order, less the empty ones, any delimiter, and the in-band SPS/PPS that
    were already emitted.  On every other sample it is an error. *)
Theorem avcc_to_annexb_exact sample config insert out out' :
  1 <= nalu_length_size config <= 4 ->
  let w := Z.to_nat (nalu_length_size config) in
  avcc_to_annexb sample config insert out = (out', Ok tt) <->
  exists nals, sample = length_prefixed w nals /\ fits w nals /\
    out' = out ++ annexb (aud :: parameter_sets config insert
                            ++ List.filter (kept (skip_nal insert)) nals).
Proof.
  intros Hw w. rewrite avcc_to_annexb_loop by done.
  assert (Hww : nalu_length_size config = Z.of_nat w) by (subst w; lia). rewrite Hww.
  rewrite copy_nals_exact by lia. pose proof (annexb_app (aud :: parameter_sets config insert)) as Ha.
  split; intros (nals & -> & Hf & ->); exists nals; split_and!; try done;
    by rewrite <- app_assoc, <- Ha.
Qed.

Definition sample_config : AvcDecoderConfig :=
  mkAvcDecoderConfig 4 [ [z2b 0x67; z2b 1] ] [ [z2b 0x68; z2b 2] ].
Definition sample_nals : list (list byte) := [ [z2b 0x09]; [z2b 0x65; z2b 7]; []; [z2b 0x67] ].

Lemma avcc_to_annexb_exact_witness :
  avcc_to_annexb (length_prefixed 4 sample_nals) sample_config true []
  = (annexb [aud; [z2b 0x67; z2b 1]; [z2b 0x68; z2b 2]; [z2b 0x65; z2b 7] ], Ok tt).
Proof.
  apply (avcc_to_annexb_exact (length_prefixed 4 sample_nals) sample_config true []); [done|].
  exists sample_nals. split; [reflexivity|]. split; [|reflexivity].
  repeat constructor; vm_compute; reflexivity.
Defined.

(** * The FLV video tag *)

Lemma sign_extend_24 v : 0 <= v < 2 ^ 24 ->
  (if negb (Z.land v 0x00800000 =? 0) then Z.lor v (- 0x01000000) else v)
  = (v + 2 ^ 23) mod 2 ^ 24 - 2 ^ 23.
Proof.
  intros Hv.
  assert (Hhi : Z.lor v (- 0x01000000) = v - 2 ^ 24).
  { change (- 0x01000000) with (Z.shiftl (-1) 24). rewrite Z.lor_comm, lor_shiftl_add by lia. lia. }
  assert (Hbit : Z.land v 0x00800000 = if v <? 2 ^ 23 then 0 else 2 ^ 23).
  { change 0x00800000 with (2 ^ 23). destruct (Z.ltb_spec v (2 ^ 23)).
    - apply Z.bits_inj'. intros i Hi. rewrite Z.land_spec, Z.bits_0, Z.pow2_bits_eqb by lia.
      destruct (Z.eqb_spec 23 i) as [<-|]; [|by rewrite andb_false_r].
      rewrite <- (Z.mod_small v (2 ^ 23)), Z.mod_pow2_bits_high by lia. done.
    - replace v with (Z.lor (Z.shiftl 1 23) (v - 2 ^ 23)) by (rewrite lor_shiftl_add by lia; lia).
      apply Z.bits_inj'. intros i Hi. rewrite Z.land_spec, Z.lor_spec, Z.pow2_bits_eqb by lia.
      destruct (Z.eqb_spec 23 i) as [<-|]; [|by rewrite andb_false_r].
      by rewrite Z.shiftl_spec. }
  rewrite Hbit, Hhi. destruct (Z.ltb_spec v (2 ^ 23)); cbn [negb Z.eqb Z.pow Z.pow_pos].
  - rewrite Z.mod_small by lia. cbn. lia.
  - change (2 ^ 23 =? 0) with false. cbn [negb].
    replace (v + 2 ^ 23) with (v - 2 ^ 23 + 1 * 2 ^ 24) by lia.
    rewrite Z.mod_add, Z.mod_small by lia. lia.
Qed.

(** parse_video_tag reads an AVC tag back field by field: a payload built from a frame
    type, a packet type, a signed 24-bit composition time and a body is parsed to
    exactly those, the composition time sign-extended; any other codec id is refused. *)
Theorem parse_video_tag_fields frame_type codec_id packet_type cts data :
  0 <= frame_type < 16 -> 0 <= codec_id < 16 -> 0 <= packet_type < 256 ->
  - 2 ^ 23 <= cts < 2 ^ 23 ->
  parse_video_tag (z2b (frame_type * 16 + codec_id) :: z2b packet_type
                     :: be_bytes 3 (cts mod 2 ^ 24) ++ data)
  = if codec_id =? kCodecIdAvc
    then Ok (mkVideoTag (frame_type =? kFrameTypeKey) packet_type cts data)
    else Err (malformed "unsupported FLV video codec id (HLS passthrough requires AVC/H.264)").
Proof.
  intros Hf Hc Hp Ht. set (payload := _ :: _). pose proof (at_suffix_0 payload) as Hs.
  unfold payload in Hs at 2. pose proof (at_suffix_zlen _ _ _ Hs) as Hl.
  unfold parse_video_tag. rewrite (proj2 (Z.ltb_ge _ _)) by zlia.
  rewrite (u8_at_suffix _ _ _ _ Hs), bind_Ok, b2z_z2b, Z.mod_small by lia.
  change 0x0F with (2 ^ 4 - 1). rewrite !land_ones_mod, Z.shiftr_div_pow2 by lia. change (2 ^ 4) with 16.
  rewrite Z.div_add_l, (Z.div_small codec_id), Z.add_0_r, (Z.mod_small frame_type) by lia.
  rewrite (Z.add_comm _ codec_id), Z.mod_add, (Z.mod_small codec_id) by lia.
  destruct (codec_id =? kCodecIdAvc); cbn [negb]; [|done].
  apply at_suffix_cons in Hs. change (0 + 1) with 1 in Hs.
  rewrite (u8_at_suffix _ _ _ _ Hs), bind_Ok, b2z_z2b, (Z.mod_small packet_type) by lia.
  apply at_suffix_cons in Hs. change (1 + 1) with 2 in Hs.
  pose proof (Z.mod_pos_bound cts (2 ^ 24) eq_refl) as Hm.
  pose proof (read_be_bytes payload 2 3 _ data Hs ltac:(lia) Hm) as Hcts.
  change (Z.of_nat 3) with 3 in Hcts. rewrite Hcts, bind_Ok.
  rewrite sign_extend_24, Z.add_mod_idemp_l by lia. rewrite (Z.mod_small (cts + 2 ^ 23)) by lia.
  apply at_suffix_app in Hs. change (2 + zlen _) with 5 in Hs.
  rewrite (subspan_from_suffix _ _ _ Hs), bind_Ok. f_equal. f_equal. lia.
Qed.

Lemma parse_video_tag_fields_witness :
  parse_video_tag [z2b 0x17; z2b 1; z2b 0xFF; z2b 0xFF; z2b 0xFE; z2b 42]
  = Ok (mkVideoTag true 1 (-2) [z2b 42]).
Proof. apply (parse_video_tag_fields 1 7 1 (-2) [z2b 42]); lia. Defined.
