(* ===== verification/Hevc.v ===== *)
(** HEVC passthrough helpers (media/hevc/hevc.hpp, hevc.cpp): the
    HEVCDecoderConfigurationRecord and the HVCC to Annex B conversion. *)

From S2P Require Import Prelude Bytes Nal.

Definition kNalTypeVps : Z := 32.
Definition kNalTypeSps : Z := 33.
Definition kNalTypePps : Z := 34.
Definition kNalTypeAud : Z := 35.
Definition kFixedHeaderSize : Z := 23.

Record HevcDecoderConfig := mkHevcDecoderConfig {
  nalu_length_size : Z;
  vps : list (list byte);
  sps : list (list byte);
  pps : list (list byte)
}.

Definition valid (c : HevcDecoderConfig) : bool :=
  match sps c, pps c with _ :: _, _ :: _ => true | _, _ => false end.

(** The if/else-if chain that files one NAL unit; other types are dropped. *)
Definition push_nal (nal_unit_type : Z) (c : HevcDecoderConfig) (nal : list byte)
    : HevcDecoderConfig :=
  let '(mkHevcDecoderConfig n v s p) := c in
  if nal_unit_type =? kNalTypeVps then mkHevcDecoderConfig n (v ++ [nal]) s p
  else if nal_unit_type =? kNalTypeSps then mkHevcDecoderConfig n v (s ++ [nal]) p
  else if nal_unit_type =? kNalTypePps then mkHevcDecoderConfig n v s (p ++ [nal])
  else c.

Definition truncated_header := malformed "truncated HEVC NAL array header".
Definition truncated_length := malformed "truncated HEVC NAL length field".
Definition past_end := malformed "HEVC NAL runs past end of record".

(** The inner loop of parse_decoder_config: one array of NAL units. *)
Fixpoint read_array (num_nalus : nat) (nal_unit_type : Z) (record : list byte) (offset : Z)
    (config : HevcDecoderConfig) : Res (HevcDecoderConfig * Z) :=
  match num_nalus with
  | O => Ok (config, offset)
  | S num_nalus =>
      if zlen record <? offset + 2 then Err truncated_length else
      len <- read_be record offset 2 ;;
      let offset := offset + 2 in
      if zlen record <? offset + len then Err past_end else
      nal <- subspan record offset len ;;
      read_array num_nalus nal_unit_type record (offset + len) (push_nal nal_unit_type config nal)
  end.

(** The outer loop: the array list. *)
Fixpoint read_arrays (num_arrays : nat) (record : list byte) (offset : Z)
    (config : HevcDecoderConfig) : Res HevcDecoderConfig :=
  match num_arrays with
  | O => Ok config
  | S num_arrays =>
      if zlen record <? offset + 3 then Err truncated_header else
      b <- u8_at record offset ;;
      let nal_unit_type := Z.land b 0x3F in
      num_nalus <- read_be record (offset + 1) 2 ;;
      '(config, offset) <- read_array (Z.to_nat num_nalus) nal_unit_type record (offset + 3) config ;;
      read_arrays num_arrays record offset config
  end.

Definition parse_decoder_config (record : list byte) : Res HevcDecoderConfig :=
  if zlen record <? kFixedHeaderSize then
    Err (malformed "HEVCDecoderConfigurationRecord shorter than the fixed 23-byte header") else
  b21 <- u8_at record 21 ;;
  num_arrays <- u8_at record 22 ;;
  config <- read_arrays (Z.to_nat num_arrays) record kFixedHeaderSize
              (mkHevcDecoderConfig (Z.land b21 0x03 + 1) [] [] []) ;;
  if negb (valid config) then Err (malformed "HEVC config carries no SPS/PPS") else Ok config.

Definition skip_nal (insert_parameter_sets : bool) (header : Z) : bool :=
  let nal_type := Z.land (Z.shiftr header 1) 0x3F in
  (nal_type =? kNalTypeAud) ||
  (insert_parameter_sets &&
     ((nal_type =? kNalTypeVps) || (nal_type =? kNalTypeSps) || (nal_type =? kNalTypePps))).

Definition hvcc_to_annexb (sample : list byte) (config : HevcDecoderConfig)
    (insert_parameter_sets : bool) (out : list byte) : list byte * Res unit :=
  if (nalu_length_size config <? 1) || (4 <? nalu_length_size config) then
    (out, Err (malformed "invalid HEVC NAL length size")) else
  let out := if insert_parameter_sets
             then append_nals (pps config) (append_nals (sps config) (append_nals (vps config) out))
             else out in
  copy_nals (nalu_length_size config) (skip_nal insert_parameter_sets)
    (malformed "truncated HVCC NAL length prefix") (malformed "HVCC NAL runs past end of sample")
    (S (length sample)) sample 0 out.

(** * What a decoder configuration record is *)

(** One array: header byte (type in the low six bits), unit count, units. *)
Definition array_bytes (a : byte * list (list byte)) : list byte :=
  a.1 :: be_bytes 2 (zlen a.2) ++ length_prefixed 2 a.2.
Definition array_type (a : byte * list (list byte)) : Z := Z.land (b2z a.1) 0x3F.
Definition array_ok (a : byte * list (list byte)) : Prop := zlen a.2 < 65536 /\ fits 2 a.2.
Definition arrays_bytes (arrays : list (byte * list (list byte))) : list byte :=
  concat (map array_bytes arrays).

(** The units of the arrays of one type, in order. *)
Definition units_of (t : Z) (arrays : list (byte * list (list byte))) : list (list byte) :=
  concat (map snd (List.filter (fun a => array_type a =? t) arrays)).

Definition hevc_layout (record : list byte) (b21 : byte) (arrays : list (byte * list (list byte)))
    : Prop :=
  exists head rest,
    zlen head = 21 /\ zlen arrays < 256 /\ Forall array_ok arrays /\
    record = head ++ b21 :: z2b (zlen arrays) :: arrays_bytes arrays ++ rest.

(** Filing the units of arrays into a configuration. *)
Definition push_array (c : HevcDecoderConfig) (a : byte * list (list byte)) : HevcDecoderConfig :=
  foldl (push_nal (array_type a)) c a.2.

Lemma push_units t nals : forall c,
  foldl (push_nal t) c nals =
  mkHevcDecoderConfig (nalu_length_size c)
    (vps c ++ (if t =? kNalTypeVps then nals else []))
    (sps c ++ (if t =? kNalTypeSps then nals else []))
    (pps c ++ (if t =? kNalTypePps then nals else [])).
Proof.
  induction nals as [|nal nals IH]; intros [n v s p]; cbn [foldl].
  - cbn [nalu_length_size vps sps pps]. repeat case_match; by rewrite !app_nil_r.
  - rewrite IH. unfold push_nal.
    destruct (Z.eqb_spec t kNalTypeVps) as [->|]; [by cbn; rewrite !app_nil_r, <- app_assoc|].
    destruct (Z.eqb_spec t kNalTypeSps) as [->|]; [by cbn; rewrite !app_nil_r, <- app_assoc|].
    destruct (Z.eqb_spec t kNalTypePps) as [->|]; cbn; by rewrite !app_nil_r, <- ?app_assoc.
Qed.

Lemma units_of_cons t a arrays :
  units_of t (a :: arrays) = (if array_type a =? t then a.2 else []) ++ units_of t arrays.
Proof. unfold units_of. cbn [List.filter]. by destruct (array_type a =? t). Qed.

Lemma push_arrays arrays : forall c,
  foldl push_array c arrays =
  mkHevcDecoderConfig (nalu_length_size c) (vps c ++ units_of kNalTypeVps arrays)
    (sps c ++ units_of kNalTypeSps arrays) (pps c ++ units_of kNalTypePps arrays).
Proof.
  induction arrays as [|a arrays IH]; intros c; cbn [foldl].
  - destruct c. cbn. by rewrite !app_nil_r.
  - rewrite IH. unfold push_array at 1 2 3 4. rewrite push_units. cbn [nalu_length_size vps sps pps].
    by rewrite !units_of_cons, <- !app_assoc.
Qed.

(** The inner loop is the shared parameter-set reader, filing as it goes. *)
Lemma read_array_nals t count : forall record off c acc,
  read_array count t record off (foldl (push_nal t) c acc) =
  ('(nals, offset) <- read_nals (fun record offset => read_be record offset 2)
                        truncated_length past_end count record off acc ;;
   Ok (foldl (push_nal t) c nals, offset)).
Proof.
  induction count as [|count IH]; intros record off c acc; cbn [read_array read_nals]; [done|].
  destruct (zlen record <? off + 2); [done|].
  destruct (read_be record off 2) as [len| | |]; [|done..]. rewrite !bind_Ok. cbv zeta.
  destruct (zlen record <? off + 2 + len); [done|].
  destruct (subspan record (off + 2) len) as [nal| | |]; [|done..]. rewrite !bind_Ok.
  rewrite <- IH. by rewrite foldl_app.
Qed.

Lemma array_head record off b l :
  at_suffix record off (b :: l) ->
  (forall x y l', l = x :: y :: l' -> read_be record (off + 1) 2 = Ok (be_value [x; y])).
Proof. intros Hs x y l' ->. apply at_suffix_cons in Hs. by apply (read_be_2 _ _ _ _ _ Hs). Qed.

Lemma at_suffix_3 data off a b c l :
  at_suffix data off (a :: b :: c :: l) -> at_suffix data (off + 3) l.
Proof. apply (at_suffix_app data off [a; b; c]). Qed.

Lemma arrays_bytes_cons b nals arrays :
  arrays_bytes ((b, nals) :: arrays)
  = b :: be_bytes 2 (zlen nals) ++ length_prefixed 2 nals ++ arrays_bytes arrays.
Proof.
  change (arrays_bytes ((b, nals) :: arrays))
    with ((b :: be_bytes 2 (zlen nals) ++ length_prefixed 2 nals) ++ arrays_bytes arrays).
  rewrite <- app_comm_cons. by rewrite <- app_assoc.
Qed.

Lemma read_arrays_bytes arrays : forall record off c l,
  at_suffix record off (arrays_bytes arrays ++ l) -> Forall array_ok arrays ->
  read_arrays (length arrays) record off c = Ok (foldl push_array c arrays).
Proof.
  induction arrays as [|[b nals] arrays IH]; intros record off c l Hs Hok; [done|].
  apply Forall_cons_1 in Hok as [ [Hn Hf] Hok]. cbn [fst snd] in *.
  rewrite arrays_bytes_cons in Hs. cbn [app] in Hs. rewrite <- !app_assoc in Hs. pose proof (at_suffix_zlen _ _ _ Hs) as Hl.
  cbn [length read_arrays]. rewrite (proj2 (Z.ltb_ge _ _)) by zlia.
  rewrite (u8_at_suffix _ _ _ _ Hs), bind_Ok. cbv zeta.
  pose proof (be_value_bytes 2 (zlen nals) ltac:(zlia)) as Hv.
  destruct (be_bytes 2 (zlen nals)) as [|x [|y [|? ?] ] ] eqn:Hp; try done.
  rewrite (array_head _ _ _ _ Hs x y _ eq_refl), bind_Ok, Hv. apply at_suffix_3 in Hs.
  unfold zlen at 1. rewrite Nat2Z.id.
  rewrite (read_array_nals _ _ _ _ c []).
  rewrite (read_nals_prefixed _ _ _ read_be_2 _ _ _ _ _ Hs Hf), !bind_Ok. cbn [app].
  apply at_suffix_app in Hs. by rewrite (IH _ _ _ _ Hs Hok).
Qed.

Lemma read_arrays_inv count : forall record off c l,
  at_suffix record off l ->
  match read_arrays count record off c with
  | Ok c' => exists arrays rest, length arrays = count /\ Forall array_ok arrays /\
      l = arrays_bytes arrays ++ rest /\ c' = foldl push_array c arrays
  | Err e => is_malformed e
  | _ => False
  end.
Proof.
  induction count as [|count IH]; intros record off c l Hs; cbn [read_arrays].
  { exists [], l. by split_and!. }
  destruct (Z.ltb_spec (zlen record) (off + 3)); [done|].
  destruct (suffix_split _ _ _ 3 Hs) as (p & l1 & -> & Hp); [lia..|].
  destruct p as [|b [|x [|y [|? ?] ] ] ]; try zlia.
  rewrite (u8_at_suffix _ _ _ _ Hs), bind_Ok. cbv zeta. cbn [app] in Hs |- *.
  rewrite (array_head _ _ _ _ Hs x y _ eq_refl), bind_Ok. apply at_suffix_3 in Hs.
  rewrite (read_array_nals _ _ _ _ c []).
  pose proof (be_value_range [x; y]) as Hr. change (zlen [x; y]) with 2 in Hr.
  pose proof (read_nals_inv _ truncated_length past_end read_be_2
                (Z.to_nat (be_value [x; y])) _ _ _ [] Hs) as Hn.
  destruct (read_nals _ _ _ _ record _ []) as [ [ns off1]|e| |]; [|by destruct Hn as [-> | -> ]|done..].
  destruct Hn as (nals & l' & Hc & Hf & -> & -> & Hs1). rewrite !bind_Ok. cbn [app].
  specialize (IH _ _ (foldl (push_nal (Z.land (b2z b) 63)) c nals) _ Hs1).
  destruct (read_arrays count record off1 _) as [c'|e| |]; [|done..].
  destruct IH as (arrays & rest & <- & Hok & -> & ->).
  assert (Hz : zlen nals = be_value [x; y]) by (unfold zlen; lia).
  exists ((b, nals) :: arrays), rest. split_and!; [done| | |done].
  - constructor; [|done]. split; cbn; [lia|done].
  - rewrite arrays_bytes_cons, Hz. change 2%nat with (length [x; y]) at 2.
    rewrite be_bytes_value. cbn [app]. by rewrite <- app_assoc.
Qed.

Lemma hevc_valid_spec c : valid c = true <-> sps c <> [] /\ pps c <> [].
Proof. unfold valid. destruct (sps c), (pps c); naive_solver. Qed.

Lemma hevc_parse_layout record b21 arrays :
  hevc_layout record b21 arrays ->
  parse_decoder_config record =
  let c := foldl push_array (mkHevcDecoderConfig (Z.land (b2z b21) 3 + 1) [] [] []) arrays in
  if negb (valid c) then Err (malformed "HEVC config carries no SPS/PPS") else Ok c.
Proof.
  intros (head & rest & Hh & Hn & Hok & Hrec).
  assert (Hs : at_suffix record 21 (b21 :: z2b (zlen arrays) :: arrays_bytes arrays ++ rest))
    by (rewrite Hrec, <- Hh; apply at_suffix_intro).
  pose proof (at_suffix_zlen _ _ _ Hs) as Hl. unfold parse_decoder_config, kFixedHeaderSize.
  rewrite (proj2 (Z.ltb_ge _ _)) by zlia.
  rewrite (u8_at_suffix _ _ _ _ Hs), bind_Ok.
  apply at_suffix_cons in Hs. change (21 + 1) with 22 in Hs.
  rewrite (u8_at_suffix _ _ _ _ Hs), bind_Ok, b2z_z2b, Z.mod_small by zlia.
  apply at_suffix_cons in Hs. change (22 + 1) with 23 in Hs.
  unfold zlen at 1. rewrite Nat2Z.id. by rewrite (read_arrays_bytes _ _ _ _ _ Hs Hok), bind_Ok.
Qed.

Lemma hevc_parse_cases record :
  (exists b21 arrays, hevc_layout record b21 arrays)
  \/ exists e, parse_decoder_config record = Err e /\ is_malformed e.
Proof.
  unfold parse_decoder_config, kFixedHeaderSize.
  destruct (Z.ltb_spec (zlen record) 23); [by right; eauto with rtmp|].
  pose proof (at_suffix_0 record) as Hs.
  destruct (suffix_split record 0 record 21 Hs) as (head & l & Hrec & Hh); [lia..|].
  rewrite Hrec in Hs at 2. apply at_suffix_app in Hs. rewrite Hh, Z.add_0_l in Hs.
  pose proof (at_suffix_zlen _ _ _ Hs) as Hl.
  destruct l as [|b21 [|b22 l] ]; [zlia..|].
  rewrite (u8_at_suffix _ _ _ _ Hs), bind_Ok.
  apply at_suffix_cons in Hs. change (21 + 1) with 22 in Hs.
  rewrite (u8_at_suffix _ _ _ _ Hs), bind_Ok.
  apply at_suffix_cons in Hs. change (22 + 1) with 23 in Hs.
  pose proof (b2z_range b22).
  pose proof (read_arrays_inv (Z.to_nat (b2z b22)) _ _
    (mkHevcDecoderConfig (Z.land (b2z b21) 3 + 1) [] [] []) _ Hs) as Ha.
  destruct (read_arrays _ record 23 _) as [c|e| |]; [|by right; eauto|done..].
  destruct Ha as (arrays & rest & Hc & Hok & -> & _). left. exists b21, arrays, head, rest.
  assert (Hz : zlen arrays = b2z b22) by (unfold zlen; lia).
  split_and!; [done|lia|done|]. by rewrite Hz, z2b_b2z.
Qed.

Lemma hevc_parse_errors record e : parse_decoder_config record = Err e -> is_malformed e.
Proof.
  intros He. destruct (hevc_parse_cases record) as [(b21 & arrays & Hl)|(e' & He' & Hm)].
  - rewrite (hevc_parse_layout _ _ _ Hl) in He. cbv zeta in He.
    destruct (negb _); [by injection He as <-|done].
  - rewrite He' in He. by injection He as <-.
Qed.

Lemma hevc_parse_returns record : returns (parse_decoder_config record).
Proof.
  destruct (hevc_parse_cases record) as [(b21 & arrays & Hl)|(e' & -> & Hm)]; [|done].
  rewrite (hevc_parse_layout _ _ _ Hl). cbv zeta. by destruct (negb _).
Qed.

(** The HEVC parse_decoder_config accepts exactly the records whose 23-byte header is
    followed by the announced NAL arrays and which carry an SPS and a PPS; the
    configuration holds, in order, the units of the VPS, SPS and PPS arrays, whatever
    other arrays lie between them, and the NAL length width of byte 21. *)
Theorem hevc_decoder_config_exact record c :
  parse_decoder_config record = Ok c <->
  exists b21 arrays, hevc_layout record b21 arrays /\
    nalu_length_size c = Z.land (b2z b21) 3 + 1 /\
    vps c = units_of kNalTypeVps arrays /\ sps c = units_of kNalTypeSps arrays /\
    pps c = units_of kNalTypePps arrays /\ sps c <> [] /\ pps c <> [].
Proof.
  split.
  - intros Hc. destruct (hevc_parse_cases record) as [(b21 & arrays & Hl)|(e & He & _)]; [|congruence].
    exists b21, arrays. split; [done|]. rewrite (hevc_parse_layout _ _ _ Hl) in Hc. cbv zeta in Hc.
    destruct (valid _) eqn:Hv; [|done]. injection Hc as <-.
    apply hevc_valid_spec in Hv. by rewrite push_arrays in *.
  - destruct c as [n v s p]. cbn. intros (b21 & arrays & Hl & -> & -> & -> & -> & Hs & Hp).
    rewrite (hevc_parse_layout _ _ _ Hl). cbv zeta. rewrite push_arrays.
    by rewrite (proj2 (hevc_valid_spec _)).
Qed.

(** * HVCC to Annex B *)

Definition parameter_sets (config : HevcDecoderConfig) (insert : bool) : list (list byte) :=
  if insert then vps config ++ sps config ++ pps config else [].

(** hvcc_to_annexb succeeds exactly on the length-prefixed samples, and then appends
    the parameter sets when asked for, and the units of the sample in order, less the
    empty ones, any delimiter and the in-band VPS/SPS/PPS already emitted. *)
Theorem hvcc_to_annexb_exact sample config insert out out' :
  1 <= nalu_length_size config <= 4 ->
  let w := Z.to_nat (nalu_length_size config) in
  hvcc_to_annexb sample config insert out = (out', Ok tt) <->
  exists nals, sample = length_prefixed w nals /\ fits w nals /\
    out' = out ++ annexb (parameter_sets config insert
                            ++ List.filter (kept (skip_nal insert)) nals).
Proof.
  intros Hw w. assert (Hww : nalu_length_size config = Z.of_nat w) by (subst w; lia).
  unfold hvcc_to_annexb. rewrite Hww.
  rewrite (proj2 (Z.ltb_ge _ _)), (proj2 (Z.ltb_ge 4 _)) by lia. cbn [orb].
  rewrite copy_nals_exact by lia.
  assert (Hp : (if insert then append_nals (pps config) (append_nals (sps config)
      (append_nals (vps config) out)) else out) = out ++ annexb (parameter_sets config insert)).
  { destruct insert; cbn [parameter_sets]; [|by rewrite app_nil_r].
    by rewrite !append_nals_annexb, !annexb_app, <- !app_assoc. }
  rewrite Hp. setoid_rewrite annexb_app. setoid_rewrite (app_assoc out). done.
Qed.

Lemma hvcc_to_annexb_exact_witness :
  hvcc_to_annexb (length_prefixed 2 [ [z2b 0x46; z2b 1]; [z2b 0x26; z2b 9] ])
    (mkHevcDecoderConfig 2 [ [z2b 0x40] ] [ [z2b 0x42] ] [ [z2b 0x44] ]) true []
  = (annexb [ [z2b 0x40]; [z2b 0x42]; [z2b 0x44]; [z2b 0x26; z2b 9] ], Ok tt).
Proof.
  apply (hvcc_to_annexb_exact _
    (mkHevcDecoderConfig 2 [ [z2b 0x40] ] [ [z2b 0x42] ] [ [z2b 0x44] ]) true []); [done|].
  exists [ [z2b 0x46; z2b 1]; [z2b 0x26; z2b 9] ]. split; [reflexivity|]. split; [|reflexivity].
  repeat constructor; vm_compute; reflexivity.
Defined.
