(* ===== verification/Aac.v ===== *)
(** AAC passthrough helpers (media/aac/adts.hpp, adts.cpp): the FLV audio tag, the
    AudioSpecificConfig and the ADTS frame header. *)

From S2P Require Import Prelude Bytes Nal.

Definition kSoundFormatAac : Z := 10.
Definition kAacPacketTypeSequenceHeader : Z := 0.
Definition kAacPacketTypeRaw : Z := 1.
Definition kAdtsHeaderSize : Z := 7.
Definition kSamplingFrequencies : list Z :=
  [96000; 88200; 64000; 48000; 44100; 32000; 24000; 22050; 16000; 12000; 11025; 8000; 7350].

Record AudioSpecificConfig := mkAudioSpecificConfig {
  object_type : Z;
  sampling_frequency_index : Z;
  channel_configuration : Z
}.

(** [sample_rate()]. *)
Definition sample_rate (c : AudioSpecificConfig) : Z :=
  if sampling_frequency_index c <? zlen kSamplingFrequencies
  then default 0 (kSamplingFrequencies !! Z.to_nat (sampling_frequency_index c)) else 0.

Record AudioTag := mkAudioTag { sound_format : Z; aac_packet_type : Z; body : list byte }.

Definition parse_audio_tag (payload : list byte) : Res AudioTag :=
  if zlen payload <? 2 then Err (malformed "FLV audio payload shorter than 2 bytes") else
  header <- u8_at payload 0 ;;
  let sound_format := Z.land (Z.shiftr header 4) 0x0F in
  if negb (sound_format =? kSoundFormatAac) then
    Err (malformed "unsupported FLV sound format (HLS passthrough requires AAC)") else
  aac_packet_type <- u8_at payload 1 ;;
  body <- subspan_from payload 2 ;;
  Ok (mkAudioTag sound_format aac_packet_type body).

Definition parse_audio_specific_config (config : list byte) : Res AudioSpecificConfig :=
  if zlen config <? 2 then Err (malformed "AudioSpecificConfig shorter than 2 bytes") else
  b0 <- u8_at config 0 ;;
  b1 <- u8_at config 1 ;;
  let object_type := Z.land (Z.shiftr b0 3) 0x1F in
  '(object_type, index, channels) <-
    (if object_type =? 31 then
       if zlen config <? 3 then Err (malformed "truncated extended AudioSpecificConfig") else
       b2 <- u8_at config 2 ;;
       let bits := Z.lor (Z.lor (u32 (Z.shiftl b0 16)) (u32 (Z.shiftl b1 8))) b2 in
       Ok (32 + Z.land (Z.shiftr bits 13) 0x3F, Z.land (Z.shiftr bits 9) 0x0F,
           Z.land (Z.shiftr bits 5) 0x0F)
     else
       Ok (object_type,
           Z.lor (Z.shiftl (Z.land b0 0x07) 1) (Z.land (Z.shiftr b1 7) 0x01),
           Z.land (Z.shiftr b1 3) 0x0F)) ;;
  if zlen kSamplingFrequencies <=? index then
    Err (malformed "unsupported AAC sampling frequency index") else
  if object_type =? 0 then Err (malformed "invalid AAC object type") else
  Ok (mkAudioSpecificConfig (u8 object_type) index channels).

Definition append_adts_header (out : list byte) (config : AudioSpecificConfig)
    (aac_frame_length : Z) : list byte :=
  let total := aac_frame_length + kAdtsHeaderSize in
  let length := Z.land (u32 total) 0x1FFF in
  let profile := u8 (Z.land (object_type config - 1) 0x03) in
  out ++ [z2b 0xFF; z2b 0xF1;
          z2b (Z.lor (Z.lor (Z.shiftl profile 6)
                            (Z.shiftl (Z.land (sampling_frequency_index config) 0x0F) 2))
                     (Z.land (Z.shiftr (channel_configuration config) 2) 0x01));
          z2b (Z.lor (Z.shiftl (Z.land (channel_configuration config) 0x03) 6)
                     (Z.land (Z.shiftr length 11) 0x03));
          z2b (Z.land (Z.shiftr length 3) 0xFF);
          z2b (Z.lor (Z.shiftl (Z.land length 0x07) 5) 0x1F);
          z2b 0xFC].

(** * AudioSpecificConfig *)

(** The record of a configuration: the short form, or the escape form for the object
    types from 32 on. *)
Definition audio_specific_config_bytes (c : AudioSpecificConfig) : list byte :=
  let tail := sampling_frequency_index c * 16 + channel_configuration c in
  if object_type c <? 32
  then be_bytes 2 ((object_type c * 256 + tail) * 8)
  else be_bytes 3 (((31 * 64 + (object_type c - 32)) * 256 + tail) * 32).

Definition audio_config_ok (c : AudioSpecificConfig) : Prop :=
  0 < object_type c < 96 /\ object_type c <> 31 /\
  0 <= sampling_frequency_index c < 13 /\ 0 <= channel_configuration c < 16.

(** A [land] with 2^n - 1 and a shift right are [mod] and [div]. *)
Ltac bits_arith :=
  repeat match goal with
  | |- context [Z.land ?z 1] => change (Z.land z 1) with (Z.land z (2 ^ 1 - 1))
  | |- context [Z.land ?z 3] => change (Z.land z 3) with (Z.land z (2 ^ 2 - 1))
  | |- context [Z.land ?z 7] => change (Z.land z 7) with (Z.land z (2 ^ 3 - 1))
  | |- context [Z.land ?z 15] => change (Z.land z 15) with (Z.land z (2 ^ 4 - 1))
  | |- context [Z.land ?z 31] => change (Z.land z 31) with (Z.land z (2 ^ 5 - 1))
  | |- context [Z.land ?z 63] => change (Z.land z 63) with (Z.land z (2 ^ 6 - 1))
  | |- context [Z.land ?z 255] => change (Z.land z 255) with (Z.land z (2 ^ 8 - 1))
  | |- context [Z.land ?z 8191] => change (Z.land z 8191) with (Z.land z (2 ^ 13 - 1))
  end;
  rewrite ?land_ones_mod by lia; rewrite ?Z.shiftr_div_pow2 by lia.

Lemma lor_low a b n : 0 <= n -> 0 <= b < 2 ^ n -> Z.lor (Z.shiftl a n) b = a * 2 ^ n + b.
Proof. apply lor_shiftl_add. Qed.

Lemma short_form_fields ot sf ch :
  0 <= ot < 32 -> 0 <= sf < 16 -> 0 <= ch < 16 ->
  let v := (ot * 256 + (sf * 16 + ch)) * 8 in
  let b0 := v / 256 in let b1 := v mod 256 in
  Z.land (Z.shiftr b0 3) 0x1F = ot /\
  Z.lor (Z.shiftl (Z.land b0 0x07) 1) (Z.land (Z.shiftr b1 7) 0x01) = sf /\
  Z.land (Z.shiftr b1 3) 0x0F = ch.
Proof.
  intros Ho Hs Hc v b0 b1.
  assert (H0 : b0 = ot * 8 + sf / 2) by (subst b0 v; Z.div_mod_to_equations; lia).
  assert (H1 : b1 = sf mod 2 * 128 + ch * 8) by (subst b1 v; Z.div_mod_to_equations; lia).
  bits_arith. rewrite lor_low by (split || idtac; try apply Z.mod_pos_bound; lia).
  rewrite H0, H1. change (2 ^ 3) with 8. change (2 ^ 5) with 32. change (2 ^ 7) with 128.
  change (2 ^ 4) with 16. change (2 ^ 1) with 2.
  split_and!; Z.div_mod_to_equations; lia.
Qed.

Lemma long_form_fields ot sf ch :
  0 <= ot < 64 -> 0 <= sf < 16 -> 0 <= ch < 16 ->
  let bits := ((31 * 64 + ot) * 256 + (sf * 16 + ch)) * 32 in
  Z.land (Z.shiftr bits 13) 0x3F = ot /\
  Z.land (Z.shiftr bits 9) 0x0F = sf /\
  Z.land (Z.shiftr bits 5) 0x0F = ch.
Proof.
  intros Ho Hs Hc bits. subst bits. bits_arith.
  change (2 ^ 13) with 8192. change (2 ^ 6) with 64. change (2 ^ 9) with 512.
  change (2 ^ 5) with 32. change (2 ^ 4) with 16.
  split_and!; Z.div_mod_to_equations; lia.
Qed.

Lemma be_bytes_2 v : be_bytes 2 v = [z2b (v / 256); z2b v].
Proof. done. Qed.
Lemma be_bytes_3 v : be_bytes 3 v = [z2b (v / 256 / 256); z2b (v / 256); z2b v].
Proof. done. Qed.

(** parse_audio_specific_config reads back every AudioSpecificConfig with a supported
    sampling-frequency index, in the short form and in the escape form of the object
    types from 32 on, whatever extension bytes follow. *)
Theorem audio_specific_config_roundtrip c rest :
  audio_config_ok c ->
  parse_audio_specific_config (audio_specific_config_bytes c ++ rest) = Ok c.
Proof.
  destruct c as [ot sf ch]. unfold audio_config_ok, audio_specific_config_bytes.
  cbn [object_type sampling_frequency_index channel_configuration].
  intros (Ho & H31 & Hs & Hc). unfold parse_audio_specific_config.
  destruct (Z.ltb_spec ot 32) as [Hlt|Hge].
  - pose proof (short_form_fields ot sf ch ltac:(lia) ltac:(lia) ltac:(lia)) as (F1 & F2 & F3).
    set (v := (ot * 256 + (sf * 16 + ch)) * 8) in *. rewrite be_bytes_2.
    rewrite (proj2 (Z.ltb_ge _ _)) by zlia. cbn [app].
    rewrite (u8_at_suffix _ 0 _ _ (at_suffix_0 _)), bind_Ok, b2z_z2b.
    rewrite (u8_at_suffix _ 1 _ _ (at_suffix_cons _ 0 _ _ (at_suffix_0 _))), bind_Ok, b2z_z2b.
    rewrite (Z.mod_small (v / 256)) by (subst v; Z.div_mod_to_equations; lia). cbv zeta.
    rewrite F1, F2, F3, (proj2 (Z.eqb_neq ot 31)), bind_Ok by done.
    change (zlen kSamplingFrequencies) with 13.
    rewrite (proj2 (Z.leb_gt _ _)), (proj2 (Z.eqb_neq _ _)) by lia.
    unfold u8. by rewrite Z.mod_small by lia.
  - pose proof (long_form_fields (ot - 32) sf ch ltac:(lia) ltac:(lia) ltac:(lia)) as (F1 & F2 & F3).
    set (v := ((31 * 64 + (ot - 32)) * 256 + (sf * 16 + ch)) * 32) in *. rewrite be_bytes_3.
    rewrite (proj2 (Z.ltb_ge _ 2)) by zlia. cbn [app].
    rewrite (u8_at_suffix _ 0 _ _ (at_suffix_0 _)), bind_Ok, b2z_z2b.
    pose proof (at_suffix_cons _ 0 _ _ (at_suffix_0
      (z2b (v / 256 / 256) :: z2b (v / 256) :: z2b v :: rest))) as Hs1.
    rewrite (u8_at_suffix _ 1 _ _ Hs1), bind_Ok, b2z_z2b.
    rewrite (Z.mod_small (v / 256 / 256)) by (subst v; Z.div_mod_to_equations; lia). cbv zeta.
    assert (H1 : Z.land (Z.shiftr (v / 256 / 256) 3) 31 = 31).
    { bits_arith. change (2 ^ 3) with 8. change (2 ^ 5) with 32.
      subst v. Z.div_mod_to_equations. lia. }
    rewrite H1, Z.eqb_refl, (proj2 (Z.ltb_ge _ _)) by zlia.
    rewrite (u8_at_suffix _ 2 _ _ (at_suffix_cons _ 1 _ _ Hs1)), bind_Ok, b2z_z2b.
    rewrite be24_arith by (try apply Z.mod_pos_bound; subst v; Z.div_mod_to_equations; lia).
    assert (Hv : v / 256 / 256 * 2 ^ 16 + (v / 256) mod 256 * 2 ^ 8 + v mod 256 = v)
      by (Z.div_mod_to_equations; lia).
    rewrite Hv, F1, F2, F3, bind_Ok. change (zlen kSamplingFrequencies) with 13.
    rewrite (proj2 (Z.leb_gt _ _)), (proj2 (Z.eqb_neq _ _)) by lia.
    unfold u8. rewrite Z.mod_small by lia. do 2 f_equal. lia.
Qed.

Lemma audio_specific_config_roundtrip_witness :
  parse_audio_specific_config (audio_specific_config_bytes (mkAudioSpecificConfig 42 3 2) ++ [z2b 7])
  = Ok (mkAudioSpecificConfig 42 3 2).
Proof. apply audio_specific_config_roundtrip. unfold audio_config_ok. cbn. lia. Defined.

(** * The ADTS header *)

(** The header fields where ISO/IEC 14496-3 puts them. *)
Definition nth_byte (h : list byte) (i : nat) : Z := from_option b2z 0 (h !! i).
Definition adts_syncword (h : list byte) : Z := nth_byte h 0 * 16 + nth_byte h 1 / 16.
Definition adts_no_crc (h : list byte) : Z := nth_byte h 1 mod 2.
Definition adts_profile (h : list byte) : Z := nth_byte h 2 / 64.
Definition adts_frequency_index (h : list byte) : Z := nth_byte h 2 / 4 mod 16.
Definition adts_channels (h : list byte) : Z := nth_byte h 2 mod 2 * 4 + nth_byte h 3 / 64.
Definition adts_frame_length (h : list byte) : Z :=
  nth_byte h 3 mod 4 * 2048 + nth_byte h 4 * 8 + nth_byte h 5 / 32.
Definition adts_fullness (h : list byte) : Z := nth_byte h 5 mod 32 * 64 + nth_byte h 6 / 4.
Definition adts_blocks (h : list byte) : Z := nth_byte h 6 mod 4.

Lemma adts_byte2 p s c : 0 <= p < 4 -> 0 <= s < 16 -> 0 <= c < 2 ->
  Z.lor (Z.lor (Z.shiftl p 6) (Z.shiftl s 2)) c = p * 64 + s * 4 + c.
Proof.
  intros. rewrite (Z.shiftl_mul_pow2 s), lor_low by lia.
  replace (p * 2 ^ 6 + s * 2 ^ 2) with ((p * 16 + s) * 2 ^ 2) by lia.
  rewrite lor_mult_add by lia. lia.
Qed.

(** append_adts_header appends seven bytes that decode to what the frame needs: the
    syncword and no CRC, profile = object type - 1, the sampling-frequency index, the
    channel configuration, buffer fullness 0x7FF, one raw block, and a frame length
    of payload + 7 modulo 2^13; the length is the true one exactly when payload + 7 fits
    in the 13 bits, which the caller has to ensure. *)
Theorem adts_header_fields out config n :
  0 < object_type config -> 0 <= sampling_frequency_index config < 16 ->
  0 <= channel_configuration config < 8 -> 0 <= n ->
  exists h, append_adts_header out config n = out ++ h /\ zlen h = kAdtsHeaderSize /\
    adts_syncword h = 0xFFF /\ adts_no_crc h = 1 /\
    adts_profile h = (object_type config - 1) mod 4 /\
    adts_frequency_index h = sampling_frequency_index config /\
    adts_channels h = channel_configuration config /\
    adts_frame_length h = (n + kAdtsHeaderSize) mod 2 ^ 13 /\
    adts_fullness h = 0x7FF /\ adts_blocks h = 0.
Proof.
  destruct config as [ot sf ch]. cbn [object_type sampling_frequency_index channel_configuration].
  intros Ho Hs Hc Hn. unfold append_adts_header. eexists. split; [reflexivity|].
  cbn [object_type sampling_frequency_index channel_configuration].
  unfold adts_syncword, adts_no_crc, adts_profile, adts_frequency_index, adts_channels,
    adts_frame_length, adts_fullness, adts_blocks, nth_byte. cbn [lookup list_lookup from_option].
  rewrite !b2z_z2b. unfold u8, u32. bits_arith.
  rewrite (Z.mod_mod_divide _ (2 ^ 32) (2 ^ 13)) by (exists (2 ^ 19); done).
  pose proof (Z.mod_pos_bound (n + kAdtsHeaderSize) (2 ^ 13) eq_refl) as Hl.
  set (len := (n + kAdtsHeaderSize) mod 2 ^ 13) in *.
  pose proof (Z.mod_pos_bound (ot - 1) (2 ^ 2) eq_refl) as Hp. change (2 ^ 2) with 4 in *.
  rewrite (Z.mod_small ((ot - 1) mod 4)) by lia. set (p := (ot - 1) mod 4) in *.
  change (2 ^ 13) with 8192 in *. change (2 ^ 11) with 2048. change (2 ^ 3) with 8.
  change (2 ^ 8) with 256. change (2 ^ 4) with 16. change (2 ^ 1) with 2.
  rewrite adts_byte2 by (try apply Z.mod_pos_bound; lia).
  rewrite (lor_low (ch mod 4) _ 6), (lor_low (len mod 8) 31 5)
    by (change (2 ^ 6) with 64; Z.div_mod_to_equations; lia).
  change (2 ^ 6) with 64. change (2 ^ 5) with 32.
  split_and!; try reflexivity; Z.div_mod_to_equations; lia.
Qed.

Lemma adts_header_fields_witness :
  exists h, append_adts_header [] (mkAudioSpecificConfig 2 4 2) 300 = [] ++ h /\ zlen h = 7 /\
    adts_syncword h = 0xFFF /\ adts_no_crc h = 1 /\ adts_profile h = 1 /\
    adts_frequency_index h = 4 /\ adts_channels h = 2 /\ adts_frame_length h = 307 /\
    adts_fullness h = 0x7FF /\ adts_blocks h = 0.
Proof. apply (adts_header_fields [] (mkAudioSpecificConfig 2 4 2) 300); cbn; lia. Defined.
