(* ===== verification/MediaIngest.v ===== *)
(** Media ingest (protocol/media/media_ingest.hpp, media_ingest.cpp): the tag
    classifiers, the two sequence-header parsers and the per-stream bookkeeping
    of class MediaIngest.

    [streams_] is a map from stream keys to states.  An operation returns the map
    it leaves behind next to its result, since the counters of a rejected message
    are kept.  The enum classes are their underlying numbers: [static_cast] of an
    unnamed nibble is a value of the enum too. *)

From S2P Require Import Prelude Bytes Amf0 Amf0RoundTrip Chunk Nal Avc Aac.
From S2P Require Hevc.

Module AudioCodec.
Definition Unknown : Z := 0xFF.
Definition Aac : Z := 10.
End AudioCodec.

Module VideoCodec.
Definition Unknown : Z := 0xFF.
Definition Avc : Z := 7.
Definition Hevc : Z := 12.
End VideoCodec.

Module VideoFrameType.
Definition Unknown : Z := 0.
Definition KeyFrame : Z := 1.
Definition InterFrame : Z := 2.
Definition DisposableInterFrame : Z := 3.
Definition GeneratedKeyFrame : Z := 4.
Definition VideoInfoOrCommand : Z := 5.
End VideoFrameType.

Module AvcPacketType.
Definition SequenceHeader : Z := 0.
Definition Nalu : Z := 1.
Definition EndOfSequence : Z := 2.
End AvcPacketType.

Module AacPacketType.
Definition SequenceHeader : Z := 0.
Definition Raw : Z := 1.
End AacPacketType.

Module ExVideoPacketType.
Definition SequenceStart : Z := 0.
Definition CodedFrames : Z := 1.
Definition SequenceEnd : Z := 2.
Definition CodedFramesX : Z := 3.
Definition Metadata : Z := 4.
Definition Mpeg2TsSequenceStart : Z := 5.
End ExVideoPacketType.

(** 'h' 'v' 'c' '1' *)
Definition kVideoFourCcHevc : Z :=
  Z.lor (Z.lor (Z.lor (Z.shiftl 104 24) (Z.shiftl 118 16)) (Z.shiftl 99 8)) 49.

Record AvcSequenceHeader := mkAvcSequenceHeader {
  profile : Z; profile_compatibility : Z; level : Z; nalu_length_size : Z;
  sps_list : list (list byte); pps_list : list (list byte)
}.

Record AacSequenceHeader := mkAacSequenceHeader {
  object_type : Z; sampling_frequency_index : Z; sampling_frequency : Z;
  channel_configuration : Z; raw : list byte
}.

Record MediaStats := mkMediaStats {
  audio_message_count : Z; video_message_count : Z; metadata_message_count : Z;
  rejected_message_count : Z; audio_bytes : Z; video_bytes : Z; keyframe_count : Z;
  last_audio_timestamp : option Z; last_video_timestamp : option Z;
  last_keyframe_timestamp : option Z
}.

Record StreamMediaState := mkStreamMediaState {
  audio_codec : Z; video_codec : Z;
  avc_sequence_header : option AvcSequenceHeader;
  aac_sequence_header : option AacSequenceHeader;
  hevc_sequence_header : option Hevc.HevcDecoderConfig;
  seen_keyframe : bool;
  stats : MediaStats
}.

Definition empty_stats : MediaStats := mkMediaStats 0 0 0 0 0 0 0 None None None.
Definition empty_state : StreamMediaState :=
  mkStreamMediaState AudioCodec.Unknown VideoCodec.Unknown None None None false empty_stats.

Notation MediaIngest := (gmap string StreamMediaState).

(** * media_ingest.cpp *)

(** [std::array<std::uint32_t, 13>] with twelve initialisers: the last is zero. *)
Definition kAacSampleRates : list Z :=
  [96000; 88200; 64000; 48000; 44100; 32000; 24000; 22050; 16000; 11025; 8000; 7350; 0].

Definition aac_sample_rate_for_index (index : Z) : Z :=
  if index <? zlen kAacSampleRates then default 0 (kAacSampleRates !! Z.to_nat index) else 0.

Definition parse_avc_sequence_header (payload : list byte) : Res AvcSequenceHeader :=
  if zlen payload <? 6 then
    Err (malformed "AVCDecoderConfigurationRecord shorter than the fixed 6-byte header") else
  profile <- u8_at payload 1 ;;
  profile_compatibility <- u8_at payload 2 ;;
  level <- u8_at payload 3 ;;
  b4 <- u8_at payload 4 ;;
  b5 <- u8_at payload 5 ;;
  '(sps_list, offset) <- read_nals read_u16_be_at (malformed "truncated SPS length field")
     (malformed "truncated SPS payload") (Z.to_nat (Z.land b5 0x1F)) payload 6 [] ;;
  if zlen payload <? offset + 1 then Err (malformed "truncated numOfPictureParameterSets field") else
  num_pps <- u8_at payload offset ;;
  '(pps_list, offset) <- read_nals read_u16_be_at (malformed "truncated PPS length field")
     (malformed "truncated PPS payload") (Z.to_nat num_pps) payload (offset + 1) [] ;;
  if empty sps_list || empty pps_list then
    Err (malformed "AVCDecoderConfigurationRecord carries no SPS/PPS") else
  Ok (mkAvcSequenceHeader profile profile_compatibility level (Z.land b4 0x03 + 1)
        sps_list pps_list).

Definition parse_aac_sequence_header (payload : list byte) : Res AacSequenceHeader :=
  if zlen payload <? 2 then
    Err (malformed "AudioSpecificConfig shorter than the minimum 2 bytes") else
  b0 <- u8_at payload 0 ;;
  b1 <- u8_at payload 1 ;;
  let object_type := Z.shiftr b0 3 in
  let index := Z.lor (Z.shiftl (Z.land b0 0x07) 1) (Z.shiftr b1 7) in
  if object_type =? 0 then
    Err (malformed "AudioSpecificConfig audioObjectType is 0 (reserved)") else
  Ok (mkAacSequenceHeader object_type index (aac_sample_rate_for_index index)
        (Z.land (Z.shiftr b1 3) 0x0F) payload).

Record VideoTagInfo := mkVideoTagInfo {
  frame_type : Z; codec : Z; avc_packet_type : option Z; enhanced : bool;
  fourcc : Z; ex_packet_type : option Z
}.
Record AudioTagInfo := mkAudioTagInfo { a_codec : Z; aac_packet_type : option Z }.

(** [payload[i]], read only under a test that [i] is inside the payload. *)
Definition tag_byte (payload : list byte) (i : nat) : Z := from_option b2z 0 (payload !! i).

Definition classify_video_tag (payload : list byte) : option VideoTagInfo :=
  if empty payload then None else
  let tag := tag_byte payload 0 in
  if negb (Z.land tag 0x80 =? 0) then
    let ft := Z.land (Z.shiftr tag 4) 0x07 in
    let ex := Some (Z.land tag 0x0F) in
    if zlen payload <? 5 then Some (mkVideoTagInfo ft VideoCodec.Unknown None true 0 ex) else
    let fourcc := Z.lor (Z.lor (Z.lor (u32 (Z.shiftl (tag_byte payload 1) 24))
                                      (u32 (Z.shiftl (tag_byte payload 2) 16)))
                               (u32 (Z.shiftl (tag_byte payload 3) 8))) (tag_byte payload 4) in
    Some (mkVideoTagInfo ft
            (if fourcc =? kVideoFourCcHevc then VideoCodec.Hevc else VideoCodec.Unknown)
            None true fourcc ex)
  else
    let codec := Z.land tag 0x0F in
    let packet := if ((codec =? VideoCodec.Avc) || (codec =? VideoCodec.Hevc)) && (1 <? zlen payload)
                  then Some (tag_byte payload 1) else None in
    Some (mkVideoTagInfo (Z.shiftr tag 4) codec packet false 0 None).

Definition classify_audio_tag (payload : list byte) : option AudioTagInfo :=
  if empty payload then None else
  let codec := Z.shiftr (tag_byte payload 0) 4 in
  Some (mkAudioTagInfo codec
          (if (codec =? AudioCodec.Aac) && (1 <? zlen payload)
           then Some (tag_byte payload 1) else None)).

(** [try_emplace]: the state of a key, fresh if there was none. *)
Definition state_for (streams : MediaIngest) (key : string) : StreamMediaState :=
  default empty_state (streams !! key).
Definition find (streams : MediaIngest) (key : string) : option StreamMediaState := streams !! key.
Definition remove_stream (streams : MediaIngest) (key : string) : MediaIngest := delete key streams.
Definition stream_count (streams : MediaIngest) : nat := size streams.

(** The statements [state.stats.x++] and the assignments of the handlers. *)
Definition with_stats (f : MediaStats -> MediaStats) (s : StreamMediaState) : StreamMediaState :=
  mkStreamMediaState (audio_codec s) (video_codec s) (avc_sequence_header s)
    (aac_sequence_header s) (hevc_sequence_header s) (seen_keyframe s) (f (stats s)).
Definition rejected (s : StreamMediaState) : StreamMediaState :=
  with_stats (fun t => mkMediaStats (audio_message_count t) (video_message_count t)
    (metadata_message_count t) (u64 (rejected_message_count t + 1)) (audio_bytes t) (video_bytes t)
    (keyframe_count t) (last_audio_timestamp t) (last_video_timestamp t)
    (last_keyframe_timestamp t)) s.
Definition counted_audio (codec ts size : Z) (s : StreamMediaState) : StreamMediaState :=
  let t := stats s in
  mkStreamMediaState codec (video_codec s) (avc_sequence_header s) (aac_sequence_header s)
    (hevc_sequence_header s) (seen_keyframe s)
    (mkMediaStats (u64 (audio_message_count t + 1)) (video_message_count t)
      (metadata_message_count t) (rejected_message_count t) (u64 (audio_bytes t + size))
      (video_bytes t) (keyframe_count t) (Some ts) (last_video_timestamp t)
      (last_keyframe_timestamp t)).
Definition counted_video (codec ts size : Z) (is_keyframe : bool) (s : StreamMediaState)
    : StreamMediaState :=
  let t := stats s in
  mkStreamMediaState (audio_codec s) codec (avc_sequence_header s) (aac_sequence_header s)
    (hevc_sequence_header s) (seen_keyframe s || is_keyframe)
    (mkMediaStats (audio_message_count t) (u64 (video_message_count t + 1))
      (metadata_message_count t) (rejected_message_count t) (audio_bytes t)
      (u64 (video_bytes t + size))
      (if is_keyframe then u32 (keyframe_count t + 1) else keyframe_count t)
      (last_audio_timestamp t) (Some ts)
      (if is_keyframe then Some ts else last_keyframe_timestamp t)).
Definition counted_metadata (s : StreamMediaState) : StreamMediaState :=
  with_stats (fun t => mkMediaStats (audio_message_count t) (video_message_count t)
    (u64 (metadata_message_count t + 1)) (rejected_message_count t) (audio_bytes t) (video_bytes t)
    (keyframe_count t) (last_audio_timestamp t) (last_video_timestamp t)
    (last_keyframe_timestamp t)) s.
Definition with_aac (h : AacSequenceHeader) (s : StreamMediaState) : StreamMediaState :=
  mkStreamMediaState (audio_codec s) (video_codec s) (avc_sequence_header s) (Some h)
    (hevc_sequence_header s) (seen_keyframe s) (stats s).
Definition with_avc (h : AvcSequenceHeader) (s : StreamMediaState) : StreamMediaState :=
  mkStreamMediaState (audio_codec s) (video_codec s) (Some h) (aac_sequence_header s)
    (hevc_sequence_header s) (seen_keyframe s) (stats s).
Definition with_hevc (h : Hevc.HevcDecoderConfig) (s : StreamMediaState) : StreamMediaState :=
  mkStreamMediaState (audio_codec s) (video_codec s) (avc_sequence_header s)
    (aac_sequence_header s) (Some h) (seen_keyframe s) (stats s).

(** What a parse of a sequence header does to the state: keep it, or count a
    rejection and pass the error on. *)
Definition retain {H} (parsed : Res H) (keep : H -> StreamMediaState -> StreamMediaState)
    (s : StreamMediaState) : StreamMediaState * Res unit :=
  match parsed with
  | Ok h => (keep h s, Ok tt)
  | Err e => (rejected s, Err e)
  | Fault => (s, Fault)
  | OutOfFuel => (s, OutOfFuel)
  end.

Definition audio_message (s : StreamMediaState) (message : RtmpMessage)
    : StreamMediaState * Res unit :=
  match classify_audio_tag (payload message) with
  | None => (rejected s, Err (malformed "audio message has an empty payload"))
  | Some info =>
      let s := counted_audio (a_codec info) (timestamp message) (zlen (payload message)) s in
      if negb (a_codec info =? AudioCodec.Aac) then (s, Ok tt) else
      match aac_packet_type info with
      | None => (rejected s, Err (malformed "AAC audio tag missing the AACPacketType byte"))
      | Some packet_type =>
          if negb (packet_type =? AacPacketType.SequenceHeader) then (s, Ok tt) else
          retain (rbind (subspan_from (payload message) 2) parse_aac_sequence_header) with_aac s
      end
  end.

Definition video_message (s : StreamMediaState) (message : RtmpMessage)
    : StreamMediaState * Res unit :=
  match classify_video_tag (payload message) with
  | None => (rejected s, Err (malformed "video message has an empty payload"))
  | Some info =>
      let is_keyframe := (frame_type info =? VideoFrameType.KeyFrame)
                         || (frame_type info =? VideoFrameType.GeneratedKeyFrame) in
      let s := counted_video (codec info) (timestamp message) (zlen (payload message)) is_keyframe s in
      if enhanced info then
        if negb (codec info =? VideoCodec.Hevc) then (s, Ok tt) else
        match ex_packet_type info with
        | None => (rejected s, Err (malformed
            "Enhanced RTMP video tag missing the FourCC/PacketType header"))
        | Some packet_type =>
            if negb (packet_type =? ExVideoPacketType.SequenceStart) then (s, Ok tt) else
            if zlen (payload message) <? 5 then (rejected s, Err (malformed
              "Enhanced RTMP HEVC sequence-start tag shorter than its header")) else
            retain (rbind (subspan_from (payload message) 5) Hevc.parse_decoder_config) with_hevc s
        end
      else
      if negb (codec info =? VideoCodec.Avc) then (s, Ok tt) else
      if zlen (payload message) <? 5 then (rejected s, Err (malformed
        "AVC video tag missing AVCPacketType/composition-time header")) else
      match avc_packet_type info with
      | None => (s, Fault)
      | Some packet_type =>
          if negb (packet_type =? AvcPacketType.SequenceHeader) then (s, Ok tt) else
          retain (rbind (subspan_from (payload message) 5) parse_avc_sequence_header) with_avc s
      end
  end.

Definition metadata_message (s : StreamMediaState) (message : RtmpMessage)
    : StreamMediaState * Res unit :=
  let bad := (rejected s, Err (malformed "metadata message is not a valid AMF0 (name, ...) sequence")) in
  match decode_all (payload message) with
  | Ok (String name :: rest as values) =>
      let is_set_data_frame := bool_decide (name = "@setDataFrame"%string) in
      let is_on_metadata := bool_decide (name = "onMetaData"%string) in
      if negb is_set_data_frame && negb is_on_metadata then (s, Ok tt) else
      if is_set_data_frame && (zlen values <? 2) then
        (rejected s, Err (malformed "@setDataFrame missing the wrapped event name")) else
      (counted_metadata s, Ok tt)
  | Ok _ | Err _ => bad
  | Fault => (s, Fault)
  | OutOfFuel => (s, OutOfFuel)
  end.

(** The three public handlers: look the state up, run, store it back. *)
Definition on_state (handler : StreamMediaState -> RtmpMessage -> StreamMediaState * Res unit)
    (streams : MediaIngest) (key : string) (message : RtmpMessage) : MediaIngest * Res unit :=
  let '(s, r) := handler (state_for streams key) message in (<[key := s]> streams, r).
Definition on_audio_message := on_state audio_message.
Definition on_video_message := on_state video_message.
Definition on_metadata_message := on_state metadata_message.

(** * The two readers of the configuration record agree *)

Lemma parse_avc_sequence_header_record payload head b4 l :
  payload = head ++ b4 :: l -> zlen head = 4 ->
  parse_avc_sequence_header payload =
  if zlen payload <? 6 then
    Err (malformed "AVCDecoderConfigurationRecord shorter than the fixed 6-byte header") else
  read_record read_u16_be_at (malformed "truncated SPS length field")
    (malformed "truncated SPS payload") (malformed "truncated numOfPictureParameterSets field")
    (malformed "truncated PPS length field") (malformed "truncated PPS payload")
    (fun b4 ss qs => if empty ss || empty qs then
       Err (malformed "AVCDecoderConfigurationRecord carries no SPS/PPS") else
       Ok (mkAvcSequenceHeader (tag_byte head 1) (tag_byte head 2) (tag_byte head 3)
             (Z.land b4 0x03 + 1) ss qs)) payload.
Proof.
  intros -> Hh. destruct head as [|h0 [|h1 [|h2 [|h3 [|? ?] ] ] ] ]; try zlia.
  unfold parse_avc_sequence_header. destruct (_ <? 6); [done|].
  cbn [app]. unfold read_record. change (u8_at (h0 :: h1 :: h2 :: h3 :: b4 :: l) 1) with (Ok (b2z h1)).
  change (u8_at (h0 :: h1 :: h2 :: h3 :: b4 :: l) 2) with (Ok (b2z h2)).
  change (u8_at (h0 :: h1 :: h2 :: h3 :: b4 :: l) 3) with (Ok (b2z h3)).
  change (u8_at (h0 :: h1 :: h2 :: h3 :: b4 :: l) 4) with (Ok (b2z b4)).
  rewrite !bind_Ok. destruct (u8_at _ 5); [|done..]. rewrite !bind_Ok.
  destruct (read_nals _ _ _ _ _ 6 []) as [ [ss off]| | |]; [|done..]. rewrite !bind_Ok.
  assert (Hle : forall m n, (m <? n + 1) = (m <=? n)).
  { intros m n. destruct (Z.leb_spec m n), (Z.ltb_spec m (n + 1)); lia. }
  by rewrite Hle.
Qed.

Lemma split_head (record : list byte) : 6 <= zlen record ->
  exists head b4 l, record = head ++ b4 :: l /\ zlen head = 4.
Proof.
  intros Hlen. destruct (suffix_split record 0 record 4 (at_suffix_0 _)) as (head & l & -> & Hh);
    [lia..|]. destruct l as [|b4 l]; [zlia|]. by exists head, b4, l.
Qed.

(** The ingest path and the packaging path read an AVCDecoderConfigurationRecord
    alike: parse_avc_sequence_header (ingest) succeeds exactly when parse_decoder_config
    (HLS, TS) does, with the same NAL length width, the same SPS list and the same PPS
    list; and neither reads outside the record. *)
Theorem avc_header_parsers_agree record :
  match parse_avc_sequence_header record, parse_decoder_config record with
  | Ok h, Ok c => nalu_length_size h = Avc.nalu_length_size c /\
                  sps_list h = sps c /\ pps_list h = pps c
  | Err e, Err e' => is_malformed e /\ is_malformed e'
  | _, _ => False
  end.
Proof.
  destruct (Z.lt_ge_cases (zlen record) 6) as [Hl|Hl].
  { rewrite parse_decoder_config_record. unfold parse_avc_sequence_header.
    by rewrite (proj2 (Z.ltb_lt _ _)). }
  destruct (split_head record Hl) as (head & b4 & l & Hr & Hh).
  rewrite parse_decoder_config_record, (parse_avc_sequence_header_record _ _ _ _ Hr Hh).
  rewrite (proj2 (Z.ltb_ge _ _)) by done.
  match goal with |- context [read_record read_u16_be_at ?a ?b ?c ?d ?e ?k record] =>
    destruct (read_record_inv _ read_u16_be_2 a b c d e k record Hl)
      as [(b4' & ss & qs & Hlay & ->)|(er & Her & Hin)] end.
  - rewrite (read_record_layout _ read_be_2 _ _ _ _ _ _ _ _ _ _ Hlay). cbv zeta.
    unfold valid. cbn [sps pps]. destruct (empty ss), (empty qs); done.
  - match goal with |- context [read_record (fun _ _ => _) ?a ?b ?c ?d ?e ?k record] =>
      destruct (read_record_inv _ read_be_2 a b c d e k record Hl)
        as [(b5' & ss & qs & Hlay & ->)|(er' & -> & Hin')] end.
    + rewrite (read_record_layout _ read_u16_be_2 _ _ _ _ _ _ _ _ _ _ Hlay) in Her.
      rewrite (read_record_layout _ read_u16_be_2 _ _ _ _ _ _ _ _ _ _ Hlay).
      unfold valid. cbn [sps pps]. by destruct (empty ss), (empty qs).
    + rewrite Her. split; [apply (record_errors _ _ Hin)|apply (record_errors _ _ Hin')];
        by repeat constructor.
Qed.

(** * Classification *)

Lemma classify_video_total p : p <> [] -> exists i, classify_video_tag p = Some i /\
  (codec i = VideoCodec.Avc -> 1 < zlen p -> enhanced i = false /\ avc_packet_type i <> None) /\
  (enhanced i = true -> ex_packet_type i <> None).
Proof.
  intros Hp. unfold classify_video_tag. destruct p as [|b p]; [done|]. cbn [empty].
  destruct (negb _); [destruct (zlen _ <? 5)|]; eexists; split; try reflexivity; cbn; split;
    try done; unfold VideoCodec.Avc, VideoCodec.Unknown, VideoCodec.Hevc.
  - by case_match.
  - intros -> Hl. by rewrite (proj2 (Z.ltb_lt _ _) Hl).
Qed.

(** * The handlers as functions of the state *)

(** A handler answers, and counts a refusal exactly when it answers an error. *)
Definition answers (s : StreamMediaState) (out : StreamMediaState * Res unit) : Prop :=
  match out with
  | (s', Ok _) => rejected_message_count (stats s') = rejected_message_count (stats s)
  | (s', Err e) =>
      is_malformed e /\
      rejected_message_count (stats s') = u64 (rejected_message_count (stats s) + 1)
  | _ => False
  end.

Lemma retain_answers {H} (parsed : Res H) keep s s0 :
  yields is_malformed (fun _ => True) parsed ->
  (forall h t, stats (keep h t) = stats t) ->
  rejected_message_count (stats s) = rejected_message_count (stats s0) ->
  answers s0 (retain parsed keep s).
Proof.
  intros Hy Hk Hs. destruct parsed as [h|e| |]; cbn in *; [|split; [done|]|done..].
  - by rewrite Hk.
  - by rewrite Hs.
Qed.

Lemma parse_avc_yields p : yields is_malformed (fun _ => True) (parse_avc_sequence_header p).
Proof.
  destruct (Z.lt_ge_cases (zlen p) 6) as [Hl|Hl].
  { unfold parse_avc_sequence_header. by rewrite (proj2 (Z.ltb_lt _ _)). }
  destruct (split_head p Hl) as (head & b4 & l & Hr & Hh).
  rewrite (parse_avc_sequence_header_record _ _ _ _ Hr Hh), (proj2 (Z.ltb_ge _ _)) by done.
  match goal with |- context [read_record read_u16_be_at ?a ?b ?c ?d ?e ?k p] =>
    destruct (read_record_inv _ read_u16_be_2 a b c d e k p Hl)
      as [(b4' & ss & qs & _ & ->)|(er & -> & Hin)] end.
  - by destruct (empty ss), (empty qs).
  - apply (record_errors _ _ Hin). by repeat constructor.
Qed.

Lemma parse_hevc_yields p : yields is_malformed (fun _ => True) (Hevc.parse_decoder_config p).
Proof.
  pose proof (Hevc.hevc_parse_returns p). pose proof (Hevc.hevc_parse_errors p) as He.
  destruct (Hevc.parse_decoder_config p); cbn in *; auto.
Qed.

Lemma parse_aac_yields p : yields is_malformed (fun _ => True) (parse_aac_sequence_header p).
Proof.
  unfold parse_aac_sequence_header. destruct (Z.ltb_spec (zlen p) 2); [done|].
  destruct (u8_at_Ok p 0 ltac:(lia)) as (b0 & -> & _). rewrite bind_Ok.
  destruct (u8_at_Ok p 1 ltac:(lia)) as (b1 & -> & _). rewrite bind_Ok. cbv zeta.
  by case_match.
Qed.

Lemma subspan_yields {A} (p : list byte) n (f : list byte -> Res A) :
  0 <= n <= zlen p -> (forall q, yields is_malformed (fun _ => True) (f q)) ->
  yields is_malformed (fun _ => True) (rbind (subspan_from p n) f).
Proof.
  intros Hn Hf. unfold subspan_from. rewrite !(proj2 (Z.leb_le _ _)) by lia. apply Hf.
Qed.

Lemma audio_message_answers s m : answers s (audio_message s m).
Proof.
  unfold audio_message, classify_audio_tag. destruct (payload m) as [|b [|b' p] ] eqn:Hp; cbn [empty].
  - done.
  - cbn [a_codec aac_packet_type]. change (1 <? zlen [b]) with false. rewrite andb_false_r.
    by case_match.
  - cbn [a_codec aac_packet_type]. rewrite (proj2 (Z.ltb_lt 1 _)) by zlia. rewrite andb_true_r.
    destruct (_ =? AudioCodec.Aac); cbn [negb]; [|done]. destruct (negb _); [done|].
    apply retain_answers; [|done..]. apply subspan_yields; [zlia|apply parse_aac_yields].
Qed.

Lemma video_message_answers s m : answers s (video_message s m).
Proof.
  unfold video_message. destruct (decide (payload m = [])) as [->|Hp]; [done|].
  destruct (classify_video_total _ Hp) as (i & -> & Havc & Hex). cbv zeta.
  set (k := (_ || _)). destruct (enhanced i) eqn:He.
  - destruct (negb _); [done|]. destruct (ex_packet_type i) as [t|]; [|by destruct (Hex eq_refl)].
    destruct (negb _); [done|]. destruct (Z.ltb_spec (zlen (payload m)) 5); [done|].
    apply retain_answers; [|done..]. apply subspan_yields; [zlia|apply parse_hevc_yields].
  - destruct (Z.eqb_spec (codec i) VideoCodec.Avc) as [Hc|]; cbn [negb]; [|done].
    destruct (Z.ltb_spec (zlen (payload m)) 5) as [|Hl]; [done|].
    destruct (Havc Hc) as [_ Hpt]; [lia|].
    destruct (avc_packet_type i) as [t|]; [|done]. destruct (negb _); [done|].
    apply retain_answers; [|done..]. apply subspan_yields; [zlia|apply parse_avc_yields].
Qed.

Lemma metadata_message_answers s m : answers s (metadata_message s m).
Proof.
  unfold metadata_message. pose proof (decode_all_returns (payload m)) as H.
  destruct (decode_all (payload m)) as [ [|[] vs]| | |]; cbn in H; try done.
  repeat case_match; done.
Qed.

(** * Any sequence of messages *)

Inductive MediaKind := Audio | Video | Metadata.

Definition handle (k : MediaKind) : StreamMediaState -> RtmpMessage -> StreamMediaState * Res unit :=
  match k with Audio => audio_message | Video => video_message | Metadata => metadata_message end.
Definition on_message (k : MediaKind) :
    MediaIngest -> string -> RtmpMessage -> MediaIngest * Res unit :=
  match k with
  | Audio => on_audio_message | Video => on_video_message | Metadata => on_metadata_message
  end.

Lemma on_message_on_state k streams key m :
  on_message k streams key m = on_state (handle k) streams key m.
Proof. by destruct k. Qed.

Lemma handle_answers k s m : answers s (handle k s m).
Proof.
  destruct k; [apply audio_message_answers|apply video_message_answers|
               apply metadata_message_answers].
Qed.

Definition is_err {A} (r : Res A) : bool := match r with Err _ => true | _ => false end.

(** Feeding a list of (kind, message) to one stream. *)
Fixpoint ingest_all (streams : MediaIngest) (key : string) (l : list (MediaKind * RtmpMessage))
    : MediaIngest * list (Res unit) :=
  match l with
  | [] => (streams, [])
  | (k, m) :: l =>
      let '(streams, r) := on_message k streams key m in
      let '(streams, rs) := ingest_all streams key l in (streams, r :: rs)
  end.

(** What one message adds to each counter, read off the message. *)
Definition counts_as (k : MediaKind) (km : MediaKind * RtmpMessage) : bool :=
  match k, km.1 with
  | Audio, Audio | Video, Video => negb (empty (payload km.2))
  | _, _ => false
  end.
Definition bytes_as (k : MediaKind) (km : MediaKind * RtmpMessage) : Z :=
  if counts_as k km then zlen (payload km.2) else 0.
Definition total (f : MediaKind * RtmpMessage -> Z) (l : list (MediaKind * RtmpMessage)) : Z :=
  foldr (fun km acc => f km + acc) 0 l.
Definition number (f : MediaKind * RtmpMessage -> bool) : list (MediaKind * RtmpMessage) -> Z :=
  total (fun km => if f km then 1 else 0).
Definition errors (rs : list (Res unit)) : Z := zlen (List.filter is_err rs).

Definition stats_from (t : MediaStats) (rs : list (Res unit)) (l : list (MediaKind * RtmpMessage))
    (t' : MediaStats) : Prop :=
  audio_message_count t' = u64 (audio_message_count t + number (counts_as Audio) l) /\
  video_message_count t' = u64 (video_message_count t + number (counts_as Video) l) /\
  audio_bytes t' = u64 (audio_bytes t + total (bytes_as Audio) l) /\
  video_bytes t' = u64 (video_bytes t + total (bytes_as Video) l) /\
  rejected_message_count t' = u64 (rejected_message_count t + errors rs).

Definition stats_wide (t : MediaStats) : Prop :=
  u64 (audio_message_count t) = audio_message_count t /\
  u64 (video_message_count t) = video_message_count t /\
  u64 (audio_bytes t) = audio_bytes t /\ u64 (video_bytes t) = video_bytes t /\
  u64 (rejected_message_count t) = rejected_message_count t.

Lemma u64_idem z : u64 (u64 z) = u64 z.
Proof. unfold u64. apply Zmod_mod. Qed.

Lemma u64_add z n : u64 (u64 z + n) = u64 (z + n).
Proof. unfold u64. by rewrite Z.add_mod_idemp_l by lia. Qed.

(** The counters a handler sets before it looks at the packet type. *)
Definition counters (s : StreamMediaState) : Z * Z * (Z * Z) :=
  (audio_message_count (stats s), video_message_count (stats s),
   (audio_bytes (stats s), video_bytes (stats s))).
Definition count_message (k : MediaKind) (m : RtmpMessage) (c : Z * Z * (Z * Z))
    : Z * Z * (Z * Z) :=
  let '(ac, vc, (ab, vb)) := c in
  if counts_as Audio (k, m) then (u64 (ac + 1), vc, (u64 (ab + zlen (payload m)), vb))
  else if counts_as Video (k, m) then (ac, u64 (vc + 1), (ab, u64 (vb + zlen (payload m))))
  else c.

Lemma retain_counters {H} (parsed : Res H) keep s :
  (forall h, stats (keep h s) = stats s) -> counters (retain parsed keep s).1 = counters s.
Proof. intros Hk. destruct parsed; cbn; unfold counters; try done. by rewrite Hk. Qed.

Lemma handle_counters k s m : counters (handle k s m).1 = count_message k m (counters s).
Proof.
  unfold count_message, counts_as. destruct k; cbn [handle fst snd counters].
  - unfold audio_message, classify_audio_tag. destruct (empty (payload m)); [done|].
    cbn [negb]. destruct (negb _); [done|]. destruct (aac_packet_type _); [|done].
    destruct (negb _); [done|]. by rewrite retain_counters.
  - unfold video_message. destruct (payload m) as [|b p] eqn:Hp; [done|].
    destruct (classify_video_total (b :: p)) as (i & -> & _ & _); [done|]. cbn [empty negb]. cbv zeta.
    destruct (enhanced i); (destruct (negb _); [done|]).
    + destruct (ex_packet_type i); [|done]. do 2 (case_match; [done|]). by rewrite retain_counters.
    + case_match; [done|]. destruct (avc_packet_type i); [|done]. case_match; [done|].
      by rewrite retain_counters.
  - unfold metadata_message. destruct (decode_all (payload m)) as [ [|[] vs]| | |]; try done.
    repeat case_match; done.
Qed.

Lemma errors_cons r rs : errors (r :: rs) = (if is_err r then 1 else 0) + errors rs.
Proof. unfold errors. cbn [List.filter]. destruct (is_err r); zlia. Qed.

Lemma total_cons f km l : total f (km :: l) = f km + total f l.
Proof. done. Qed.

Lemma step_stats k m s s1 r rs l t' :
  stats_wide (stats s) -> counters s1 = count_message k m (counters s) -> answers s (s1, r) ->
  stats_wide (stats s1) /\
  (stats_from (stats s1) rs l t' -> stats_from (stats s) (r :: rs) ((k, m) :: l) t').
Proof.
  intros (W1 & W2 & W3 & W4 & W5) Hc Ha.
  assert (Hr : rejected_message_count (stats s1)
             = u64 (rejected_message_count (stats s) + (if is_err r then 1 else 0))).
  { destruct r; cbn in Ha |- *; [by rewrite Z.add_0_r, W5|by destruct Ha|done..]. }
  unfold counters, count_message in Hc. unfold stats_wide, stats_from, number, bytes_as.
  rewrite !total_cons, errors_cons, Hr, u64_add, !u64_idem, !Z.add_assoc.
  destruct (counts_as Audio (k, m)) eqn:Ea.
  - assert (counts_as Video (k, m) = false) as -> by (destruct k; done).
    injection Hc as -> -> -> ->. rewrite !u64_idem, !u64_add, !Z.add_0_r. done.
  - destruct (counts_as Video (k, m)); injection Hc as -> -> -> ->;
      rewrite ?u64_idem, ?u64_add, !Z.add_0_r; done.
Qed.

Lemma ingest_all_stats key l : forall streams,
  stats_wide (stats (state_for streams key)) ->
  match ingest_all streams key l with
  | (streams', rs) =>
      stats_from (stats (state_for streams key)) rs l (stats (state_for streams' key)) /\
      Forall (fun r => r = Ok tt \/ exists e, r = Err e /\ is_malformed e) rs /\
      (forall key', key' <> key -> find streams' key' = find streams key')
  end.
Proof.
  induction l as [|[k m] l IH]; intros streams Hw; cbn [ingest_all].
  - destruct Hw as (H1 & H2 & H3 & H4 & H5). unfold stats_from, number, total, errors. cbn.
    rewrite !Z.add_0_r, H1, H2, H3, H4, H5. done.
  - rewrite on_message_on_state.
    pose proof (handle_answers k (state_for streams key) m) as Ha.
    pose proof (handle_counters k (state_for streams key) m) as Hc.
    unfold on_state in *. destruct (handle k (state_for streams key) m) as [s1 r1]. cbn [fst] in *.
    assert (Hs1 : state_for (<[key:=s1]> streams) key = s1)
      by (unfold state_for; by rewrite lookup_insert_eq).
    specialize (IH (<[key:=s1]> streams)). rewrite Hs1 in IH.
    destruct (ingest_all (<[key:=s1]> streams) key l) as [streams' rs].
    destruct (step_stats k m _ s1 r1 rs l (stats (state_for streams' key)) Hw Hc Ha) as [Hw1 Hstep].
    destruct (IH Hw1) as (Hst & Hf & Hother). split_and!.
    + by apply Hstep.
    + constructor; [|done]. destruct r1 as [ []|e| |]; [by left| |done..].
      right. exists e. by destruct Ha.
    + intros key' Hk. rewrite Hother by done. by apply lookup_insert_ne.
Qed.

Lemma stats_small t rs l :
  number (counts_as Audio) l < 2 ^ 64 -> number (counts_as Video) l < 2 ^ 64 ->
  total (bytes_as Audio) l < 2 ^ 64 -> total (bytes_as Video) l < 2 ^ 64 -> errors rs < 2 ^ 64 ->
  stats_from empty_stats rs l t ->
  audio_message_count t = number (counts_as Audio) l /\
  video_message_count t = number (counts_as Video) l /\
  audio_bytes t = total (bytes_as Audio) l /\ video_bytes t = total (bytes_as Video) l /\
  rejected_message_count t = errors rs.
Proof.
  assert (Hnn : forall f, (forall km, 0 <= f km) -> 0 <= total f l).
  { intros f Hf. unfold total. induction l as [|km l' IH]; cbn; [lia|]. specialize (Hf km). lia. }
  pose proof (Hnn (bytes_as Audio)) as N1. pose proof (Hnn (bytes_as Video)) as N2.
  pose proof (Hnn (fun km => if counts_as Audio km then 1 else 0)) as N3.
  pose proof (Hnn (fun km => if counts_as Video km then 1 else 0)) as N4.
  assert (Hb : forall k km, 0 <= bytes_as k km)
    by (intros k km; unfold bytes_as; case_match; zlia).
  assert (N5 : 0 <= errors rs) by (unfold errors; zlia).
  unfold number. intros ????? (E1 & E2 & E3 & E4 & E5). cbn in E1, E2, E3, E4, E5.
  unfold number, u64 in *. rewrite E1, E2, E3, E4, E5.
  split_and!; apply Z.mod_small; (split; [|done]); auto;
    first [apply N3|apply N4]; intros km; by case_match.
Qed.

(** Ingest bookkeeping is exact and contained: whatever messages one stream is fed,
    every handler answers (a value or a malformed-chunk protocol error, never a read
    outside the payload), no other stream's state changes, and the stream's statistics
    count precisely the non-empty audio and video messages, their payload bytes, and
    the refused messages, as long as those totals fit 64 bits. *)
Theorem media_ingest_accounting streams key l :
  find streams key = None ->
  let '(streams', rs) := ingest_all streams key l in
  let t := stats (state_for streams' key) in
  number (counts_as Audio) l < 2 ^ 64 -> number (counts_as Video) l < 2 ^ 64 ->
  total (bytes_as Audio) l < 2 ^ 64 -> total (bytes_as Video) l < 2 ^ 64 -> errors rs < 2 ^ 64 ->
  audio_message_count t = number (counts_as Audio) l /\
  video_message_count t = number (counts_as Video) l /\
  audio_bytes t = total (bytes_as Audio) l /\
  video_bytes t = total (bytes_as Video) l /\
  rejected_message_count t = errors rs /\
  Forall (fun r => r = Ok tt \/ exists e, r = Err e /\ is_malformed e) rs /\
  (forall key', key' <> key -> find streams' key' = find streams key').
Proof.
  intros Hn. assert (Hs : stats (state_for streams key) = empty_stats).
  { unfold state_for, find in *. by rewrite Hn. }
  pose proof (ingest_all_stats key l streams) as H. rewrite Hs in H.
  specialize (H ltac:(done)). destruct (ingest_all streams key l) as [streams' rs].
  destruct H as (Hst & Hf & Ho). cbv zeta. intros B1 B2 B3 B4 B5.
  destruct (stats_small _ _ _ B1 B2 B3 B4 B5 Hst) as (E1 & E2 & E3 & E4 & E5). done.
Qed.

Definition audio_msg (p : list byte) : RtmpMessage := mkRtmpMessage 4 1 8 40 p.
Definition video_msg (p : list byte) : RtmpMessage := mkRtmpMessage 6 1 9 40 p.
Definition sample_messages : list (MediaKind * RtmpMessage) :=
  [(Audio, audio_msg [z2b 0xAF; z2b 0; z2b 0x12; z2b 0x10]); (Audio, audio_msg []);
   (Video, video_msg [z2b 0x17; z2b 1]); (Video, video_msg [z2b 0x12; z2b 7; z2b 7])].

Lemma media_ingest_accounting_witness :
  let t := stats (state_for (ingest_all ∅ "live"%string sample_messages).1 "live"%string) in
  audio_message_count t = 1 /\ video_message_count t = 2 /\ audio_bytes t = 4 /\
  video_bytes t = 5 /\ rejected_message_count t = 2.
Proof.
  pose proof (media_ingest_accounting ∅ "live"%string sample_messages eq_refl) as H.
  vm_compute in H. destruct H as (H1 & H2 & H3 & H4 & H5 & _); [reflexivity..|].
  vm_compute. auto.
Defined.

(** * Retained sequence headers *)

Definition headers (s : StreamMediaState) :=
  (avc_sequence_header s, aac_sequence_header s, hevc_sequence_header s).

Definition keeps_headers (s s' : StreamMediaState) : Prop :=
  (is_Some (avc_sequence_header s) -> is_Some (avc_sequence_header s')) /\
  (is_Some (aac_sequence_header s) -> is_Some (aac_sequence_header s')) /\
  (is_Some (hevc_sequence_header s) -> is_Some (hevc_sequence_header s')).

Definition headers_ok (s : StreamMediaState) (out : StreamMediaState * Res unit) : Prop :=
  keeps_headers s out.1 /\ (forall e, out.2 = Err e -> headers out.1 = headers s).

Lemma headers_same s s' r : headers s' = headers s -> headers_ok s (s', r).
Proof.
  intros Hh. split; [|done]. unfold headers in Hh. injection Hh as E1 E2 E3.
  unfold keeps_headers. cbn [fst]. by rewrite E1, E2, E3.
Qed.

Lemma retain_headers {H} (parsed : Res H) keep s s0 :
  headers s0 = headers s -> (forall h, keeps_headers s (keep h s0)) ->
  headers_ok s (retain parsed keep s0).
Proof.
  intros Hs Hk. destruct parsed as [h|e| |]; [split; [apply Hk|done]|by apply headers_same..].
Qed.

Lemma handle_headers k s m : headers_ok s (handle k s m).
Proof.
  destruct k; cbn [handle].
  - unfold audio_message. repeat (case_match; try by apply headers_same).
    apply retain_headers; [done|]. intros h. unfold keeps_headers. cbn. eauto.
  - unfold video_message. cbv zeta. repeat (case_match; try by apply headers_same);
      (apply retain_headers; [done|]; intros h; unfold keeps_headers; cbn; eauto).
  - unfold metadata_message. repeat (case_match; try by apply headers_same).
Qed.

(** Once a stream has an AVC, AAC or HEVC sequence header it keeps one whatever follows,
    and a message that is refused leaves all three exactly as they were: a late viewer
    is never sent a half-parsed decoder configuration. *)
Theorem sequence_headers_retained k streams key m s :
  find streams key = Some s ->
  let '(streams', r) := on_message k streams key m in
  exists s', find streams' key = Some s' /\ keeps_headers s s' /\
    (forall e, r = Err e -> headers s' = headers s).
Proof.
  intros Hs. rewrite on_message_on_state. unfold on_state, state_for, find in *. rewrite Hs. cbn.
  pose proof (handle_headers k s m) as Hh. destruct (handle k s m) as [s' r].
  exists s'. by rewrite lookup_insert_eq.
Qed.

Lemma sequence_headers_retained_witness :
  exists s s', find (ingest_all ∅ "live"%string sample_messages).1 "live"%string = Some s /\
    is_Some (aac_sequence_header s) /\
    find (on_audio_message (ingest_all ∅ "live"%string sample_messages).1 "live"%string
      (audio_msg [z2b 0xAF; z2b 0; z2b 1])).1 "live"%string = Some s' /\ headers s' = headers s.
Proof.
  destruct (find (ingest_all ∅ "live"%string sample_messages).1 "live"%string) as [s|] eqn:Hs;
    [|vm_compute in Hs; discriminate].
  pose proof (sequence_headers_retained Audio _ _ (audio_msg [z2b 0xAF; z2b 0; z2b 1]) s Hs) as H.
  exists s. cbn [on_message] in H.
  destruct (on_audio_message _ _ _) as [streams' r] eqn:Hm.
  destruct H as (s' & Hs' & _ & He). exists s'. cbn [fst].
  split; [done|]. split; [vm_compute in Hs; injection Hs as <-; eexists; reflexivity|].
  split; [done|]. vm_compute in Hm. injection Hm as <- <-. by eapply He.
Defined.

(** * The two AudioSpecificConfig readers *)

Lemma aac_fields_agree b0 b1 :
  Z.land (Z.shiftr (b2z b0) 3) 0x1F = Z.shiftr (b2z b0) 3 /\
  Z.land (Z.shiftr (b2z b1) 7) 0x01 = Z.shiftr (b2z b1) 7.
Proof.
  pose proof (b2z_range b0). pose proof (b2z_range b1). bits_arith.
  change (2 ^ 3) with 8. change (2 ^ 5) with 32. change (2 ^ 7) with 128. change (2 ^ 1) with 2.
  split; Z.div_mod_to_equations; lia.
Qed.

(** The table of media_ingest.cpp against the one of adts.hpp. *)
Lemma sample_rate_tables i : 0 <= i < 13 ->
  (aac_sample_rate_for_index i = sample_rate (mkAudioSpecificConfig 2 i 2)) <-> i < 9.
Proof.
  intros Hi. assert (exists n, (n < 13)%nat /\ i = Z.of_nat n) as (n & Hn & ->)
    by (exists (Z.to_nat i); lia).
  do 13 (destruct n as [|n]; [vm_compute; split; congruence|]). lia.
Qed.

(** On every AudioSpecificConfig that both readers accept in the short form, ingest and
    packaging agree on object type, frequency index and channels; but the sampling
    frequency ingest stores is the true one only for the indices below 9: its table lacks
    the 12000 Hz entry, so 12000, 11025, 8000 and 7350 Hz come out as 11025, 8000, 7350
    and 0. *)
Theorem aac_sampling_frequency_mismatch p h c :
  parse_aac_sequence_header p = Ok h -> parse_audio_specific_config p = Ok c ->
  object_type h <> 31 ->
  object_type h = Aac.object_type c /\
  sampling_frequency_index h = Aac.sampling_frequency_index c /\
  channel_configuration h = Aac.channel_configuration c /\
  (sampling_frequency h = sample_rate c <-> sampling_frequency_index h < 9).
Proof.
  unfold parse_aac_sequence_header, parse_audio_specific_config.
  destruct p as [|b0 [|b1 p] ]; [done..|]. destruct (_ <? 2); [done|].
  change (u8_at (b0 :: b1 :: p) 0) with (Ok (b2z b0)).
  change (u8_at (b0 :: b1 :: p) 1) with (Ok (b2z b1)). rewrite !bind_Ok. cbv zeta.
  destruct (aac_fields_agree b0 b1) as [-> ->].
  destruct (Z.eqb_spec (Z.shiftr (b2z b0) 3) 0); [done|]. intros [= <-]. cbn [object_type].
  intros Hc H31. rewrite (proj2 (Z.eqb_neq _ 31)), bind_Ok in Hc by done.
  destruct (Z.leb_spec (zlen kSamplingFrequencies)
    (Z.lor (Z.shiftl (Z.land (b2z b0) 7) 1) (Z.shiftr (b2z b1) 7))) as [|Hi]; [done|].
  rewrite (proj2 (Z.eqb_neq _ 0)) in Hc by done. injection Hc as <-. cbn.
  change (zlen kSamplingFrequencies) with 13 in Hi. pose proof (b2z_range b0).
  assert (0 <= Z.lor (Z.shiftl (Z.land (b2z b0) 7) 1) (Z.shiftr (b2z b1) 7)).
  { apply Z.lor_nonneg. split; [apply Z.shiftl_nonneg, Z.land_nonneg; lia|].
    apply Z.shiftr_nonneg, b2z_range. }
  split_and!; try done; [|by apply sample_rate_tables].
  unfold u8. rewrite Z.mod_small; [done|]. rewrite Z.shiftr_div_pow2 by lia.
  change (2 ^ 3) with 8. change (2 ^ 8) with 256. Z.div_mod_to_equations; lia.
Qed.

Lemma aac_sampling_frequency_mismatch_witness :
  exists h c, parse_aac_sequence_header [z2b 0x14; z2b 0x90] = Ok h /\
    parse_audio_specific_config [z2b 0x14; z2b 0x90] = Ok c /\
    sampling_frequency_index h = Aac.sampling_frequency_index c /\
    sampling_frequency h <> sample_rate c.
Proof.
  do 2 eexists. split; [vm_compute; reflexivity|]. split; [vm_compute; reflexivity|].
  edestruct (aac_sampling_frequency_mismatch [z2b 0x14; z2b 0x90]) as (_ & Hi & _ & Hf);
    [vm_compute; reflexivity..|done|].
  split; [exact Hi|]. intros He. apply Hf in He. vm_compute in He. discriminate.
Defined.
