(* ===== verification/ViewerQueue.v ===== *)
(** The per-viewer backpressure tracker (protocol/commands/viewer_queue.hpp): the
    staged slow-viewer policy as a state machine, with its counters at their
    width. *)

From S2P Require Import Prelude.

Record QueueLimits := mkQueueLimits { max_bytes : Z; max_packets : Z }.
Definition default_queue_limits : QueueLimits := mkQueueLimits (8 * 1024 * 1024) 1000.

Record QueueBacklog := mkBacklog { backlog_bytes : Z; backlog_packets : Z }.
Definition no_backlog : QueueBacklog := mkBacklog 0 0.

Module State.
Inductive t := Normal | WaitingForKeyframe.
End State.

Module Decision.
Inductive t := Deliver | DeliverResumed | DropAndWait | Evict.
End Decision.

#[export] Instance state_eq_dec : EqDecision State.t.
Proof. solve_decision. Defined.
#[export] Instance decision_eq_dec : EqDecision Decision.t.
Proof. solve_decision. Defined.

Record ViewerQueue := mkViewerQueue {
  limits_ : QueueLimits;
  max_frames_waiting_for_keyframe_ : Z;
  state_ : State.t;
  frames_waited_ : Z;
  bytes_ : Z;
  packet_count_ : Z
}.

Definition make_queue (limits : QueueLimits) (max_waiting : Z) : ViewerQueue :=
  mkViewerQueue limits max_waiting State.Normal 0 0 0.
Definition default_max_waiting : Z := 250.

Definition over_budget (q : ViewerQueue) (external : QueueBacklog) (extra_frame_bytes : Z) : bool :=
  let total_bytes := u64 (bytes_ q + backlog_bytes external + extra_frame_bytes) in
  let total_packets := u64 (packet_count_ q + backlog_packets external) in
  let over_bytes := negb (max_bytes (limits_ q) =? 0) && (max_bytes (limits_ q) <? total_bytes) in
  let over_packets :=
    negb (max_packets (limits_ q) =? 0) && (max_packets (limits_ q) <? total_packets) in
  over_bytes || over_packets.

Definition below_resume_watermark (q : ViewerQueue) (external : QueueBacklog) : bool :=
  let bytes_ready := (max_bytes (limits_ q) =? 0)
    || (backlog_bytes external <=? Z.max 1 (max_bytes (limits_ q) / 2)) in
  let packets_ready := (max_packets (limits_ q) =? 0)
    || (backlog_packets external <=? Z.max 1 (max_packets (limits_ q) / 2)) in
  bytes_ready && packets_ready.

Definition record (q : ViewerQueue) (frame_bytes : Z) : ViewerQueue :=
  mkViewerQueue (limits_ q) (max_frames_waiting_for_keyframe_ q) (state_ q) (frames_waited_ q)
    (u64 (bytes_ q + frame_bytes)) (u32 (packet_count_ q + 1)).

(** [state_ = st; frames_waited_ = 0; reset_counters();] *)
Definition restart (q : ViewerQueue) (st : State.t) : ViewerQueue :=
  mkViewerQueue (limits_ q) (max_frames_waiting_for_keyframe_ q) st 0 0 0.

Definition offer (q : ViewerQueue) (external : QueueBacklog) (frame_bytes : Z)
    (is_video is_keyframe : bool) : ViewerQueue * Decision.t :=
  match state_ q with
  | State.WaitingForKeyframe =>
      if is_video && is_keyframe && below_resume_watermark q external then
        (restart q State.Normal, Decision.DeliverResumed)
      else
        let waited := u64 (frames_waited_ q + 1) in
        let q := mkViewerQueue (limits_ q) (max_frames_waiting_for_keyframe_ q) (state_ q) waited
                   (bytes_ q) (packet_count_ q) in
        if max_frames_waiting_for_keyframe_ q <? waited then (q, Decision.Evict)
        else (q, Decision.DropAndWait)
  | State.Normal =>
      if over_budget q external 0 then
        (restart q State.WaitingForKeyframe, Decision.DropAndWait)
      else
        let q := record q frame_bytes in
        if over_budget q external 0 then (restart q State.WaitingForKeyframe, Decision.Deliver)
        else (q, Decision.Deliver)
  end.

Definition note_flushed (q : ViewerQueue) (frame_bytes : Z) : ViewerQueue :=
  mkViewerQueue (limits_ q) (max_frames_waiting_for_keyframe_ q) (state_ q) (frames_waited_ q)
    (if bytes_ q <=? frame_bytes then 0 else bytes_ q - frame_bytes)
    (if 0 <? packet_count_ q then packet_count_ q - 1 else packet_count_ q).

(** One offer as an input, and a run of them. *)
Record Offer := mkOffer {
  o_external : QueueBacklog; o_bytes : Z; o_video : bool; o_keyframe : bool
}.
Definition offer_of (q : ViewerQueue) (o : Offer) : ViewerQueue * Decision.t :=
  offer q (o_external o) (o_bytes o) (o_video o) (o_keyframe o).

Fixpoint run_offers (q : ViewerQueue) (os : list Offer) : ViewerQueue * list Decision.t :=
  match os with
  | [] => (q, [])
  | o :: os =>
      let '(q, d) := offer_of q o in
      let '(q, ds) := run_offers q os in (q, d :: ds)
  end.

(** * The staged policy, as a specification *)

(** What a viewer sees, as a relation on the stage it is in.  [spec_step] leaves open
    when the budget trips, and nothing else. *)
Inductive stage := Live | Waiting (waited : Z).

Definition resumable (q : ViewerQueue) (o : Offer) : bool :=
  o_video o && o_keyframe o && below_resume_watermark q (o_external o).

Inductive spec_step (q : ViewerQueue) (o : Offer) : stage -> Decision.t -> stage -> Prop :=
| spec_deliver : spec_step q o Live Decision.Deliver Live
| spec_deliver_last : spec_step q o Live Decision.Deliver (Waiting 0)
| spec_shed : spec_step q o Live Decision.DropAndWait (Waiting 0)
| spec_resume n :
    resumable q o = true -> spec_step q o (Waiting n) Decision.DeliverResumed Live
| spec_wait n :
    resumable q o = false -> n + 1 <= max_frames_waiting_for_keyframe_ q ->
    spec_step q o (Waiting n) Decision.DropAndWait (Waiting (n + 1))
| spec_evict n :
    resumable q o = false -> max_frames_waiting_for_keyframe_ q < n + 1 ->
    spec_step q o (Waiting n) Decision.Evict (Waiting (n + 1)).

Definition stage_of (q : ViewerQueue) : stage :=
  match state_ q with
  | State.Normal => Live
  | State.WaitingForKeyframe => Waiting (frames_waited_ q)
  end.

Definition offer_ok (o : Offer) : Prop :=
  0 <= o_bytes o < 2 ^ 32 /\ 0 <= backlog_bytes (o_external o) < 2 ^ 62 /\
  0 <= backlog_packets (o_external o) < 2 ^ 62.

(** The counters of a queue that was built by the code: within the limits that are
    set, and free of wrap-around. *)
Definition queue_ok (q : ViewerQueue) : Prop :=
  0 <= max_bytes (limits_ q) < 2 ^ 62 /\ 0 <= max_packets (limits_ q) < 2 ^ 32 - 1 /\
  0 <= max_frames_waiting_for_keyframe_ q < 2 ^ 62 /\
  0 <= frames_waited_ q /\ 0 <= bytes_ q /\ 0 <= packet_count_ q < 2 ^ 32 /\
  (max_bytes (limits_ q) <> 0 -> bytes_ q <= max_bytes (limits_ q)) /\
  (max_packets (limits_ q) <> 0 -> packet_count_ q <= max_packets (limits_ q)).

Lemma u64_small z : 0 <= z < 2 ^ 64 -> u64 z = z.
Proof. apply Z.mod_small. Qed.
Lemma u32_small z : 0 <= z < 2 ^ 32 -> u32 z = z.
Proof. apply Z.mod_small. Qed.

Lemma restart_ok q st : queue_ok q -> queue_ok (restart q st).
Proof. intros (?&?&?&?&?&?&?&?). unfold queue_ok. cbn. split_and!; lia. Qed.

(** A queue under budget is within its limits. *)
Lemma under_budget q ext :
  over_budget q ext 0 = false -> 0 <= backlog_bytes ext < 2 ^ 62 ->
  0 <= backlog_packets ext < 2 ^ 62 -> 0 <= bytes_ q < 2 ^ 63 -> 0 <= packet_count_ q < 2 ^ 32 ->
  (max_bytes (limits_ q) <> 0 -> bytes_ q + backlog_bytes ext <= max_bytes (limits_ q)) /\
  (max_packets (limits_ q) <> 0 ->
     packet_count_ q + backlog_packets ext <= max_packets (limits_ q)).
Proof.
  unfold over_budget. rewrite Z.add_0_r. intros Ho ????. rewrite !u64_small in Ho by lia.
  apply orb_false_iff in Ho as [Hb Hp]. apply andb_false_iff in Hb. apply andb_false_iff in Hp.
  rewrite !negb_false_iff, !Z.eqb_eq, !Z.ltb_ge in *. lia.
Qed.

Lemma within_budget q ext :
  0 <= bytes_ q + backlog_bytes ext < 2 ^ 64 -> 0 <= packet_count_ q + backlog_packets ext < 2 ^ 64 ->
  max_bytes (limits_ q) = 0 \/ bytes_ q + backlog_bytes ext <= max_bytes (limits_ q) ->
  max_packets (limits_ q) = 0 \/ packet_count_ q + backlog_packets ext <= max_packets (limits_ q) ->
  over_budget q ext 0 = false.
Proof.
  intros ?? Hb Hp. unfold over_budget. rewrite Z.add_0_r, !u64_small by done.
  apply orb_false_iff. rewrite !andb_false_iff, !negb_false_iff, !Z.eqb_eq, !Z.ltb_ge. done.
Qed.

(** * Invariant *)

(** Bytes are only bounded by their limit when there is one; a run without a byte limit
    that moves less than 2^62 bytes does not wrap either. *)
Lemma offer_queue_ok q o :
  queue_ok q -> offer_ok o -> bytes_ q < 2 ^ 62 -> queue_ok (offer_of q o).1.
Proof.
  intros Hq (Hb & He1 & He2) Hsz. pose proof Hq as (?&?&?&?&?&?&?&?).
  unfold offer_of, offer. destruct (state_ q) eqn:Hst.
  - destruct (over_budget q (o_external o) 0); [by apply restart_ok|].
    destruct (over_budget (record q (o_bytes o)) (o_external o) 0) eqn:Ho2; cbn [fst].
    + unfold queue_ok. cbn. split_and!; lia.
    + apply under_budget in Ho2; [|done..| |].
      * cbn in Ho2. unfold queue_ok. cbn [record limits_ max_frames_waiting_for_keyframe_
          frames_waited_ bytes_ packet_count_].
        unfold u64, u32 in *. pose proof (Z.mod_pos_bound (packet_count_ q + 1) (2 ^ 32) eq_refl).
        pose proof (Z.mod_pos_bound (bytes_ q + o_bytes o) (2 ^ 64) eq_refl). split_and!; lia.
      * cbn [record bytes_]. rewrite u64_small by lia. lia.
      * cbn [record packet_count_]. apply Z.mod_pos_bound. lia.
  - destruct (_ && _ && _); [by apply restart_ok|]. cbn zeta. cbn [max_frames_waiting_for_keyframe_].
    pose proof (Z.mod_pos_bound (frames_waited_ q + 1) (2 ^ 64) eq_refl).
    case_match; cbn [fst]; unfold queue_ok, u64; cbn; split_and!; lia.
Qed.

(** One offer refines the policy. *)
Lemma offer_refines q o :
  frames_waited_ q + 1 < 2 ^ 64 -> 0 <= frames_waited_ q ->
  spec_step q o (stage_of q) (offer_of q o).2 (stage_of (offer_of q o).1).
Proof.
  intros Hw Hw0. unfold stage_of, offer_of, offer. destruct (state_ q) eqn:Hst.
  - destruct (over_budget q (o_external o) 0); [constructor|].
    destruct (over_budget (record q (o_bytes o)) (o_external o) 0); cbn; [constructor|].
    rewrite Hst. constructor.
  - rewrite u64_small by lia. fold (resumable q o).
    destruct (resumable q o) eqn:Hr; [by constructor|]. cbn zeta. cbn [max_frames_waiting_for_keyframe_].
    destruct (Z.ltb_spec (max_frames_waiting_for_keyframe_ q) (frames_waited_ q + 1)); cbn;
      by constructor.
Qed.

(** * What a viewer is sent is always decodable *)

(** [clean waiting ds]: in the decisions [ds], nothing is delivered between a drop and
    the next resumption. *)
Fixpoint clean (waiting : bool) (ds : list Decision.t) : Prop :=
  match ds with
  | [] => True
  | Decision.Deliver :: ds => waiting = false /\ exists w, clean w ds
  | Decision.DeliverResumed :: ds => waiting = true /\ clean false ds
  | Decision.DropAndWait :: ds => clean true ds
  | Decision.Evict :: ds => waiting = true /\ clean true ds
  end.

Definition is_waiting (q : ViewerQueue) : bool :=
  bool_decide (state_ q = State.WaitingForKeyframe).

Definition resumes_on_keyframe (o : Offer) (d : Decision.t) : Prop :=
  d = Decision.DeliverResumed -> o_video o = true /\ o_keyframe o = true.

Lemma offer_resumes q o : resumes_on_keyframe o (offer_of q o).2.
Proof.
  unfold resumes_on_keyframe, offer_of, offer. destruct (state_ q); repeat case_match; cbn; try done.
  intros _. by destruct (o_video o), (o_keyframe o).
Qed.

Lemma run_offers_clean os : forall q, clean (is_waiting q) (run_offers q os).2.
Proof.
  induction os as [|o os IH]; intros q; cbn [run_offers]; [done|].
  specialize (IH (offer_of q o).1). destruct (offer_of q o) as [q1 d] eqn:Ho.
  cbn [fst] in IH. destruct (run_offers q1 os) as [q2 ds]. cbn [snd] in *.
  unfold offer_of, offer in Ho. unfold is_waiting in *. destruct (state_ q) eqn:Hst;
    repeat case_match; simplify_eq; cbn in *; rewrite ?Hst in *; cbn in *; eauto.
Qed.

Lemma run_offers_resumes os : forall q,
  Forall2 resumes_on_keyframe os (run_offers q os).2.
Proof.
  induction os as [|o os IH]; intros q; cbn [run_offers]; [constructor|].
  pose proof (offer_resumes q o) as Hr. specialize (IH (offer_of q o).1).
  destruct (offer_of q o) as [q1 d]. cbn [fst snd] in *.
  destruct (run_offers q1 os) as [q2 ds]. by constructor.
Qed.

(** A viewer never receives an undecodable continuation: along any sequence of frames and
    transport backlogs, once a frame has been withheld nothing is delivered until a
    video keyframe is delivered as a resumption (the caller then resends the sequence
    headers), and eviction only happens to a viewer that is waiting. *)
Theorem viewer_stream_decodable limits max_waiting os :
  let ds := (run_offers (make_queue limits max_waiting) os).2 in
  clean false ds /\ Forall2 resumes_on_keyframe os ds.
Proof.
  split; [apply (run_offers_clean os (make_queue limits max_waiting))|apply run_offers_resumes].
Qed.

(** * Bounded backlog and refinement along a run *)

Lemma run_offers_ok os : forall q,
  queue_ok q -> max_bytes (limits_ q) <> 0 -> Forall offer_ok os ->
  queue_ok (run_offers q os).1 /\ limits_ (run_offers q os).1 = limits_ q.
Proof.
  induction os as [|o os IH]; intros q Hq Hm Hos; cbn [run_offers]; [done|].
  apply Forall_cons_1 in Hos as [Ho Hos]. pose proof Hq as (?&?&?&?&?&?&Hb&?).
  pose proof (offer_queue_ok q o Hq Ho ltac:(lia)) as Hq1.
  assert (Hl : limits_ (offer_of q o).1 = limits_ q)
    by (unfold offer_of, offer; repeat case_match; done).
  destruct (offer_of q o) as [q1 d]. cbn [fst] in *.
  specialize (IH q1 Hq1 ltac:(by rewrite Hl) Hos). destruct (run_offers q1 os) as [q2 ds]. cbn in *.
  by rewrite <- Hl.
Qed.

(** The backlog a queue accounts for never exceeds its limits: whatever it is offered
    and whatever the transport reports, [bytes()] and [packet_count()] stay within
    [max_bytes] and [max_packets] (so no counter can wrap), since crossing a limit
    sheds the backlog at once. *)
Theorem viewer_backlog_bounded limits max_waiting os :
  0 < max_bytes limits < 2 ^ 62 -> 0 < max_packets limits < 2 ^ 32 - 1 ->
  0 <= max_waiting < 2 ^ 62 -> Forall offer_ok os ->
  let q := (run_offers (make_queue limits max_waiting) os).1 in
  0 <= bytes_ q <= max_bytes limits /\ 0 <= packet_count_ q <= max_packets limits.
Proof.
  intros Hb Hp Hw Hos. destruct (run_offers_ok os (make_queue limits max_waiting)) as [Hq Hl];
    [unfold queue_ok; cbn; split_and!; lia|cbn; lia|done|].
  cbn in Hl |- *. destruct Hq as (?&?&?&?&?&?&H1&H2). rewrite Hl in *. lia.
Qed.

Definition sample_offers : list Offer :=
  repeat (mkOffer no_backlog 600 true false) 3 ++ [mkOffer no_backlog 600 true true].

Lemma viewer_backlog_bounded_witness :
  let q := (run_offers (make_queue (mkQueueLimits 1000 10) 5) sample_offers).1 in
  0 <= bytes_ q <= 1000 /\ 0 <= packet_count_ q <= 10.
Proof.
  apply (viewer_backlog_bounded (mkQueueLimits 1000 10) 5 sample_offers); cbn; [lia..|].
  repeat constructor; cbn; lia.
Defined.

Lemma run_offers_app os1 : forall os2 q,
  (run_offers q (os1 ++ os2)).2
  = (run_offers q os1).2 ++ (run_offers (run_offers q os1).1 os2).2.
Proof.
  induction os1 as [|o1 os1 IH]; intros os2 q; cbn; [done|].
  destruct (offer_of q o1) as [q1 d]. specialize (IH os2 q1).
  destruct (run_offers q1 (os1 ++ os2)), (run_offers q1 os1) as [q2 d1]. cbn in *. by rewrite IH.
Qed.

(** * Eviction is bounded *)

Definition hopeless (q : ViewerQueue) (o : Offer) : Prop := resumable q o = false.

Lemma waiting_drops n : forall q o,
  state_ q = State.WaitingForKeyframe -> hopeless q o ->
  0 <= frames_waited_ q -> max_frames_waiting_for_keyframe_ q < 2 ^ 62 ->
  frames_waited_ q + Z.of_nat n <= max_frames_waiting_for_keyframe_ q ->
  run_offers q (repeat o n) =
  (mkViewerQueue (limits_ q) (max_frames_waiting_for_keyframe_ q) State.WaitingForKeyframe
     (frames_waited_ q + Z.of_nat n) (bytes_ q) (packet_count_ q), repeat Decision.DropAndWait n).
Proof.
  induction n as [|n IH]; intros q o Hs Ho Hf Hm Hn.
  - cbn. rewrite Z.add_0_r. destruct q. cbn in *. by subst.
  - cbn [repeat run_offers]. unfold offer_of at 1, offer. rewrite Hs.
    unfold hopeless, resumable in Ho. rewrite Ho, u64_small by lia. cbv zeta.
    cbn [max_frames_waiting_for_keyframe_]. rewrite (proj2 (Z.ltb_ge _ _)) by lia.
    rewrite IH; cbn [state_ frames_waited_ max_frames_waiting_for_keyframe_ limits_ bytes_
      packet_count_]; [|done|exact Ho|lia..].
    by replace (frames_waited_ q + 1 + Z.of_nat n) with (frames_waited_ q + Z.of_nat (S n)) by lia.
Qed.

(** A stuck viewer is evicted, and on schedule: a viewer that has just started waiting and
    that no keyframe can resume is dropped [max_frames_waiting_for_keyframe] times and
    evicted on the next offer, neither earlier nor later. *)
Theorem stuck_viewer_evicted q o :
  state_ q = State.WaitingForKeyframe -> frames_waited_ q = 0 ->
  0 <= max_frames_waiting_for_keyframe_ q < 2 ^ 62 -> resumable q o = false ->
  let n := Z.to_nat (max_frames_waiting_for_keyframe_ q) in
  (run_offers q (repeat o (n + 1))).2 = repeat Decision.DropAndWait n ++ [Decision.Evict].
Proof.
  intros Hs Hf Hm Ho n.
  rewrite repeat_app, run_offers_app, (waiting_drops n q o) by (done || lia).
  cbn [repeat run_offers fst snd].
  unfold offer_of, offer. cbn [state_ frames_waited_ max_frames_waiting_for_keyframe_].
  assert (Hr : o_video o && o_keyframe o && below_resume_watermark
    (mkViewerQueue (limits_ q) (max_frames_waiting_for_keyframe_ q) State.WaitingForKeyframe
       (frames_waited_ q + Z.of_nat n) (bytes_ q) (packet_count_ q)) (o_external o) = false)
    by exact Ho.
  rewrite Hr, u64_small by lia. cbv zeta. cbn [max_frames_waiting_for_keyframe_].
  by rewrite (proj2 (Z.ltb_lt _ _)) by lia.
Qed.

Lemma stuck_viewer_evicted_witness :
  (run_offers (mkViewerQueue (mkQueueLimits 100 10) 3 State.WaitingForKeyframe 0 0 0)
     (repeat (mkOffer (mkBacklog 101 0) 10 true true) 4)).2
  = repeat Decision.DropAndWait 3 ++ [Decision.Evict].
Proof.
  apply (stuck_viewer_evicted
    (mkViewerQueue (mkQueueLimits 100 10) 3 State.WaitingForKeyframe 0 0 0)
    (mkOffer (mkBacklog 101 0) 10 true true)); done.
Defined.

(** * Flushing keeps a fast viewer live *)

(** Offer and, if the frame went out, flush it: what deliver_playback_message does. *)
Definition offer_and_flush (q : ViewerQueue) (o : Offer) : ViewerQueue * Decision.t :=
  let '(q, d) := offer_of q o in
  match d with
  | Decision.Deliver | Decision.DeliverResumed => (note_flushed q (o_bytes o), d)
  | _ => (q, d)
  end.

Fixpoint run_flushed (q : ViewerQueue) (os : list Offer) : ViewerQueue * list Decision.t :=
  match os with
  | [] => (q, [])
  | o :: os =>
      let '(q, d) := offer_and_flush q o in
      let '(q, ds) := run_flushed q os in (q, d :: ds)
  end.

(** A frame that fits the budget, offered with an idle transport. *)
Definition fits_idle (limits : QueueLimits) (o : Offer) : Prop :=
  o_external o = no_backlog /\ 0 <= o_bytes o < 2 ^ 32 /\
  (max_bytes limits = 0 \/ o_bytes o <= max_bytes limits).

Lemma idle_queue_delivers limits max_waiting o :
  max_packets limits = 0 \/ 1 <= max_packets limits -> 0 <= max_bytes limits -> fits_idle limits o ->
  offer (make_queue limits max_waiting) (o_external o) (o_bytes o) (o_video o) (o_keyframe o)
  = (record (make_queue limits max_waiting) (o_bytes o), Decision.Deliver).
Proof.
  intros Hp Hb (Hx & Ho & Hf). unfold offer. cbn [state_ make_queue].
  assert (H1 : over_budget (make_queue limits max_waiting) (o_external o) 0 = false)
    by (rewrite Hx; apply within_budget; cbn; lia).
  rewrite H1.
  assert (H2 : over_budget (record (make_queue limits max_waiting) (o_bytes o)) (o_external o) 0 = false).
  { rewrite Hx. apply within_budget; cbn [record make_queue bytes_ packet_count_ limits_ no_backlog
      backlog_bytes backlog_packets]; rewrite ?(u32_small (0 + 1)), ?(u64_small (0 + o_bytes o)) by lia; lia. }
  by rewrite H2.
Qed.

(** With flushing (the connection-local queue), a viewer whose transport keeps up gets
    every frame: any number of frames that each fit the budget are all delivered and the
    queue is empty after each. *)
Theorem flushed_viewer_gets_everything limits max_waiting os :
  max_packets limits = 0 \/ 1 <= max_packets limits -> 0 <= max_bytes limits ->
  Forall (fits_idle limits) os ->
  run_flushed (make_queue limits max_waiting) os
  = (make_queue limits max_waiting, repeat Decision.Deliver (length os)).
Proof.
  intros Hp Hb Hos. induction os as [|o os IH]; [done|].
  apply Forall_cons_1 in Hos as [Ho Hos]. cbn [run_flushed]. unfold offer_and_flush, offer_of.
  rewrite idle_queue_delivers by done.
  assert (Hn : note_flushed (record (make_queue limits max_waiting) (o_bytes o)) (o_bytes o)
             = make_queue limits max_waiting).
  { destruct Ho as (_ & Ho & _). unfold note_flushed, record, make_queue. cbn [bytes_ packet_count_
      limits_ max_frames_waiting_for_keyframe_ state_ frames_waited_].
    rewrite (u64_small (0 + o_bytes o)) by lia. rewrite (u32_small (0 + 1)) by lia.
    by rewrite (proj2 (Z.leb_le _ _)) by lia. }
  rewrite Hn, (IH Hos). done.
Qed.

Lemma flushed_viewer_gets_everything_witness :
  run_flushed (make_queue (mkQueueLimits 1000 2) 5) (repeat (mkOffer no_backlog 900 true false) 40)
  = (make_queue (mkQueueLimits 1000 2) 5, repeat Decision.Deliver 40).
Proof.
  apply (flushed_viewer_gets_everything (mkQueueLimits 1000 2) 5
    (repeat (mkOffer no_backlog 900 true false) 40)); [by right|done|].
  apply List.Forall_forall. intros o Ho. apply List.repeat_spec in Ho as ->.
  unfold fits_idle. cbn. split; [done|lia].
Defined.

(** Without flushing, the counters only grow until they trip. *)
Lemma unflushed_run n : forall q size,
  state_ q = State.Normal -> 0 <= size -> 0 <= bytes_ q -> 0 <= packet_count_ q ->
  0 < max_packets (limits_ q) < 2 ^ 32 - 1 -> max_bytes (limits_ q) < 2 ^ 62 ->
  packet_count_ q + Z.of_nat n <= max_packets (limits_ q) ->
  bytes_ q + Z.of_nat n * size <= max_bytes (limits_ q) ->
  run_offers q (repeat (mkOffer no_backlog size true false) n) =
  (mkViewerQueue (limits_ q) (max_frames_waiting_for_keyframe_ q) State.Normal (frames_waited_ q)
     (bytes_ q + Z.of_nat n * size) (packet_count_ q + Z.of_nat n),
   repeat Decision.Deliver n).
Proof.
  induction n as [|n IH]; intros q size Hs Hsz Hb Hp Hm Hmb Hpn Hbn.
  - cbn. rewrite !Z.add_0_r. destruct q. cbn in *. by subst.
  - cbn [repeat run_offers]. unfold offer_of at 1, offer. rewrite Hs. cbn [o_external o_bytes].
    assert (Hno : forall q0, limits_ q0 = limits_ q -> 0 <= bytes_ q0 <= max_bytes (limits_ q) ->
      0 <= packet_count_ q0 <= max_packets (limits_ q) -> over_budget q0 no_backlog 0 = false).
    { intros q0 Hl H1 H2. apply within_budget; cbn [no_backlog backlog_bytes backlog_packets];
        rewrite ?Hl; lia. }
    rewrite (Hno q) by (done || nia). cbv zeta.
    rewrite (Hno (record q size)); [|done|cbn; rewrite u64_small by nia; nia|cbn; rewrite u32_small by lia; lia].
    rewrite (IH (record q size) size); cbn [record limits_ max_frames_waiting_for_keyframe_ state_
      frames_waited_ bytes_ packet_count_]; rewrite ?u64_small, ?u32_small by nia; try done; try nia.
    replace (bytes_ q + size + Z.of_nat n * size) with (bytes_ q + Z.of_nat (S n) * size) by lia.
    by replace (packet_count_ q + 1 + Z.of_nat n) with (packet_count_ q + Z.of_nat (S n)) by lia.
Qed.

(** Without flushing (LiveFanout offers with a zero backlog and never calls note_flushed),
    even a viewer that takes every frame at once is treated as slow: after exactly
    [max_packets] delivered frames the next one trips the budget, the queue goes to
    WaitingForKeyframe, and the frame after that is dropped. *)
Theorem unflushed_viewer_starves limits max_waiting size :
  0 < max_packets limits < 2 ^ 32 - 1 -> max_bytes limits < 2 ^ 62 -> 0 <= size ->
  (max_packets limits + 1) * size <= max_bytes limits -> 1 <= max_waiting ->
  let n := Z.to_nat (max_packets limits) in
  (run_offers (make_queue limits max_waiting)
     (repeat (mkOffer no_backlog size true false) (S (S n)))).2
  = repeat Decision.Deliver (S n) ++ [Decision.DropAndWait].
Proof.
  intros Hp Hb Hs Hsz Hw n.
  replace (S (S n)) with (n + 2)%nat by lia. rewrite repeat_app.
  rewrite run_offers_app, (unflushed_run n (make_queue limits max_waiting) size); cbn [make_queue state_ bytes_
    packet_count_ limits_ max_frames_waiting_for_keyframe_ frames_waited_ fst snd]; try done; try nia.
  replace (repeat Decision.Deliver (S n) ++ [Decision.DropAndWait])
    with (repeat Decision.Deliver n ++ [Decision.Deliver; Decision.DropAndWait]).
  2: { change (S n) with (1 + n)%nat. by rewrite Nat.add_comm, repeat_app, <- app_assoc. }
  f_equal. cbn [repeat run_offers]. unfold offer_of at 1, offer. cbn [state_ o_external o_bytes].
  assert (Hok : forall q0, limits_ q0 = limits -> bytes_ q0 = Z.of_nat n * size ->
    packet_count_ q0 = Z.of_nat n -> over_budget q0 no_backlog 0 = false).
  { intros q0 Hl H1 H2. apply within_budget; cbn [no_backlog backlog_bytes backlog_packets];
      rewrite ?Hl, ?H1, ?H2; nia. }
  rewrite Hok by done. cbv zeta.
  match goal with |- context [over_budget ?q0 no_backlog 0] =>
    assert (Hov : over_budget q0 no_backlog 0 = true) end.
  { unfold over_budget. cbn [record limits_ bytes_ packet_count_ no_backlog backlog_bytes backlog_packets].
    rewrite !Z.add_0_r, (u32_small (0 + Z.of_nat n + 1)), (u64_small (0 + Z.of_nat n + 1)) by lia.
    rewrite (proj2 (Z.ltb_lt (max_packets limits) (0 + Z.of_nat n + 1))) by lia.
    rewrite (proj2 (Z.eqb_neq (max_packets limits) 0)) by lia. apply orb_true_r. }
  rewrite Hov. unfold offer_of, offer. cbn [restart state_ o_video o_keyframe andb frames_waited_
    max_frames_waiting_for_keyframe_]. change (u64 (0 + 1)) with 1. cbn [record max_frames_waiting_for_keyframe_].
  by rewrite (proj2 (Z.ltb_ge max_waiting 1)) by lia.
Qed.

Lemma unflushed_viewer_starves_witness :
  (run_offers (make_queue (mkQueueLimits 1000 4) 250)
     (repeat (mkOffer no_backlog 10 true false) 6)).2
  = repeat Decision.Deliver 5 ++ [Decision.DropAndWait].
Proof. apply (unflushed_viewer_starves (mkQueueLimits 1000 4) 250 10); cbn; lia. Defined.
