(* ===== verification/GopCache.v ===== *)
(** Shared media frames and the GOP cache (protocol/commands/shared_media_frame.hpp,
    shared_media_frame.cpp and gop_cache.hpp).

    The [shared_ptr] wire cache of a frame is a value of its own, returned by the
    operation that fills it; the frame it belongs to never changes. *)

From S2P Require Import Prelude Bytes Chunk ChunkEncoder.

(** * shared_media_frame *)

Record SharedMediaFrame := mkFrame {
  frame_payload : list byte;
  frame_type_id : Z;
  frame_timestamp : Z
}.

Definition from_message (message : RtmpMessage) : SharedMediaFrame :=
  mkFrame (payload message) (message_type_id message) (timestamp message).

Definition to_message (f : SharedMediaFrame) (chunk_stream_id message_stream_id : Z) : RtmpMessage :=
  mkRtmpMessage chunk_stream_id message_stream_id (frame_type_id f) (frame_timestamp f)
    (frame_payload f).

Record WireEncoding := mkWireEncoding {
  we_chunk_size : Z; we_chunk_stream_id : Z; we_message_stream_id : Z; we_bytes : list byte
}.
Record WireCache := mkWireCache { primary : option WireEncoding; entries : list WireEncoding }.
Definition empty_wire_cache : WireCache := mkWireCache None [].
Definition kMaximumCachedEncodings : Z := 2.

Definition matches (chunk_size csid msid : Z) (e : WireEncoding) : bool :=
  (we_chunk_size e =? chunk_size) && (we_chunk_stream_id e =? csid) &&
  (we_message_stream_id e =? msid).

Definition wire_bytes (f : SharedMediaFrame) (c : WireCache) (chunk_size csid msid : Z)
    : Res (WireCache * list byte) :=
  let hit := match primary c with
             | Some e => if matches chunk_size csid msid e then Some e else None
             | None => None
             end in
  match hit with
  | Some e => Ok (c, we_bytes e)
  | None =>
    match List.find (matches chunk_size csid msid) (entries c) with
    | Some e => Ok (c, we_bytes e)
    | None =>
      encoded <- encode_message_fmt0 chunk_size csid msid (frame_type_id f) (frame_timestamp f)
                   (frame_payload f) ;;
      if zlen (entries c) <? kMaximumCachedEncodings then
        let entry := mkWireEncoding chunk_size csid msid encoded in
        Ok (mkWireCache (match primary c with None => Some entry | Some p => Some p end)
              (entries c ++ [entry]), encoded)
      else Ok (c, encoded)
    end
  end.

(** * gop_cache.hpp *)

Record GopLimits := mkGopLimits {
  gop_max_bytes : Z; gop_max_packets : Z; gop_max_duration : Z   (* milliseconds *)
}.
Definition default_gop_limits : GopLimits := mkGopLimits (16 * 1024 * 1024) 2000 10000.

Record GopCache := mkGopCache {
  gop_limits : GopLimits;
  frames_ : list SharedMediaFrame;
  total_bytes_ : Z;
  start_timestamp_ : option Z
}.
Definition make_gop_cache (limits : GopLimits) : GopCache := mkGopCache limits [] 0 None.

Definition has_gop (c : GopCache) : bool := match frames_ c with [] => false | _ => true end.
Definition gop_packet_count (c : GopCache) : Z := zlen (frames_ c).

Definition clear (c : GopCache) : GopCache := mkGopCache (gop_limits c) [] 0 None.

Definition push_internal (c : GopCache) (f : SharedMediaFrame) : GopCache :=
  mkGopCache (gop_limits c) (frames_ c ++ [f]) (u64 (total_bytes_ c + zlen (frame_payload f)))
    (match start_timestamp_ c with Some t => Some t | None => Some (frame_timestamp f) end).

Definition begin_new_gop (c : GopCache) (keyframe : SharedMediaFrame) : GopCache :=
  push_internal (clear c) keyframe.

(** The three tests of enforce_limits. *)
Definition over_bytes (c : GopCache) : bool :=
  negb (gop_max_bytes (gop_limits c) =? 0) && (gop_max_bytes (gop_limits c) <? total_bytes_ c).
Definition over_packets (c : GopCache) : bool :=
  negb (gop_max_packets (gop_limits c) =? 0) &&
  (gop_max_packets (gop_limits c) <? zlen (frames_ c)).
Definition over_duration (c : GopCache) : bool :=
  if negb (gop_max_duration (gop_limits c) =? 0) then
    match start_timestamp_ c, list.last (frames_ c) with
    | Some start, Some f =>
        if start <=? frame_timestamp f
        then gop_max_duration (gop_limits c) <? frame_timestamp f - start else false
    | _, _ => false
    end
  else false.

Definition enforce_limits (c : GopCache) : GopCache :=
  if over_bytes c || over_packets c || over_duration c then clear c else c.

Definition push (c : GopCache) (f : SharedMediaFrame) : bool * GopCache :=
  match frames_ c with
  | [] => (false, c)
  | _ => (true, enforce_limits (push_internal c f))
  end.

(** The operations as one input type, in the order a stream applies them. *)
Inductive GopOp := NewGop (keyframe : SharedMediaFrame) | Push (f : SharedMediaFrame) | Clear.
Definition gop_step (c : GopCache) (op : GopOp) : GopCache :=
  match op with
  | NewGop k => begin_new_gop c k
  | Push f => (push c f).2
  | Clear => clear c
  end.
Definition run_gop (c : GopCache) (ops : list GopOp) : GopCache := foldl gop_step c ops.

(** * The wire cache is transparent *)

(** Every retained encoding is the encoding of its key, and [primary] is one of them. *)
Definition wire_cache_ok (f : SharedMediaFrame) (c : WireCache) : Prop :=
  zlen (entries c) <= kMaximumCachedEncodings /\
  (forall e, primary c = Some e -> e ∈ entries c) /\
  Forall (fun e => encode_message_fmt0 (we_chunk_size e) (we_chunk_stream_id e)
    (we_message_stream_id e) (frame_type_id f) (frame_timestamp f) (frame_payload f)
    = Ok (we_bytes e)) (entries c).

Lemma empty_wire_cache_ok f : wire_cache_ok f empty_wire_cache.
Proof. split_and!; [by vm_compute|done|constructor]. Qed.

Lemma matches_eq cs csid msid e :
  matches cs csid msid e = true ->
  we_chunk_size e = cs /\ we_chunk_stream_id e = csid /\ we_message_stream_id e = msid.
Proof. unfold matches. rewrite !andb_true_iff, !Z.eqb_eq. tauto. Qed.

Lemma wire_entry f c e cs csid msid :
  wire_cache_ok f c -> e ∈ entries c -> matches cs csid msid e = true ->
  encode_message_fmt0 cs csid msid (frame_type_id f) (frame_timestamp f) (frame_payload f)
  = Ok (we_bytes e).
Proof.
  intros (_ & _ & Hf) He Hm. apply matches_eq in Hm as (<- & <- & <-).
  rewrite List.Forall_forall in Hf. by apply Hf, list_elem_of_In.
Qed.

Lemma wire_bytes_step f c cs csid msid :
  wire_cache_ok f c -> 0 < cs ->
  exists c' b, wire_bytes f c cs csid msid = Ok (c', b) /\ wire_cache_ok f c' /\
    encode_message_fmt0 cs csid msid (frame_type_id f) (frame_timestamp f) (frame_payload f) = Ok b.
Proof.
  intros Hok Hcs. pose proof Hok as (Hn & Hp & Hf). unfold wire_bytes.
  destruct (match primary c with Some e => _ | None => None end) as [e|] eqn:Hhit.
  { destruct (primary c) as [e0|] eqn:Hpr; [|done].
    destruct (matches cs csid msid e0) eqn:Hm; [|done]. injection Hhit as <-.
    exists c, (we_bytes e0). split_and!; [done..|]. apply (wire_entry f c); auto. }
  destruct (List.find _ (entries c)) as [e|] eqn:Hfind.
  { apply List.find_some in Hfind as [Hin Hm]. exists c, (we_bytes e).
    split_and!; [done..|]. apply (wire_entry f c); auto. by apply list_elem_of_In. }
  destruct (write_pieces_total (pieces_fuel (frame_payload f)) cs csid
    (kExtendedTimestampMarker <=? frame_timestamp f) (frame_timestamp f) (frame_payload f) 0 true)
    as [pieces Hpieces]; [done|zlia|unfold pieces_fuel, zlen; lia|].
  destruct (encode_message_fmt0 _ _ _ _ _ _) as [b| | |] eqn:Henc;
    try (unfold encode_message_fmt0 in Henc; rewrite Hpieces, bind_Ok in Henc; discriminate).
  rewrite bind_Ok. destruct (Z.ltb_spec (zlen (entries c)) kMaximumCachedEncodings); [|by exists c, b].
  eexists _, b. split_and!; [reflexivity| |done]. unfold wire_cache_ok. cbn [entries primary].
  split_and!.
  - unfold kMaximumCachedEncodings in *. zlia.
  - intros e. destruct (primary c) as [p|]; intros [= <-]; set_solver.
  - apply Forall_app. split; [done|]. by apply Forall_singleton.
Qed.

(** A run of requests against one frame. *)
Fixpoint wire_requests (f : SharedMediaFrame) (c : WireCache) (l : list (Z * Z * Z))
    : Res (WireCache * list (list byte)) :=
  match l with
  | [] => Ok (c, [])
  | (cs, csid, msid) :: l =>
      '(c, b) <- wire_bytes f c cs csid msid ;;
      '(c, bs) <- wire_requests f c l ;; Ok (c, b :: bs)
  end.

(** Sharing encoded bytes between viewers is invisible: whatever requests a frame has
    served, with any chunk sizes, chunk streams and message streams, each answer is
    exactly the fmt0 encoding of the frame for that request, and never more than two
    encodings are retained. *)
Theorem wire_cache_transparent f l :
  Forall (fun r => 0 < r.1.1) l ->
  exists c bs, wire_requests f empty_wire_cache l = Ok (c, bs) /\
    zlen (entries c) <= kMaximumCachedEncodings /\
    Forall2 (fun r b => encode_message_fmt0 r.1.1 r.1.2 r.2 (frame_type_id f)
               (frame_timestamp f) (frame_payload f) = Ok b) l bs.
Proof.
  intros Hl. enough (H : forall c, wire_cache_ok f c -> exists c' bs,
    wire_requests f c l = Ok (c', bs) /\ wire_cache_ok f c' /\
    Forall2 (fun r b => encode_message_fmt0 r.1.1 r.1.2 r.2 (frame_type_id f)
               (frame_timestamp f) (frame_payload f) = Ok b) l bs).
  { destruct (H _ (empty_wire_cache_ok f)) as (c & bs & Hr & (Hn & _) & Hb). by exists c, bs. }
  induction l as [|[ [cs csid] msid] l IH]; intros c Hc; cbn [wire_requests].
  - exists c, []. by split_and!.
  - apply Forall_cons_1 in Hl as [Hcs Hl]. cbn in Hcs.
    destruct (wire_bytes_step f c cs csid msid Hc Hcs) as (c1 & b & -> & Hc1 & Hb).
    rewrite bind_Ok. destruct (IH Hl c1 Hc1) as (c2 & bs & -> & Hc2 & Hbs).
    rewrite bind_Ok. exists c2, (b :: bs). split_and!; [done..|]. by constructor.
Qed.

Lemma wire_cache_transparent_witness :
  exists c bs, wire_requests (mkFrame (repeat x61 200) 9 40) empty_wire_cache
      [(128, 5, 1); (4096, 5, 1); (128, 5, 1); (128, 5, 2)] = Ok (c, bs) /\
    zlen (entries c) <= 2 /\ zlen bs = 4.
Proof.
  destruct (wire_cache_transparent (mkFrame (repeat x61 200) 9 40)
    [(128, 5, 1); (4096, 5, 1); (128, 5, 1); (128, 5, 2)]) as (c & bs & Hr & Hn & Hb).
  { repeat (apply List.Forall_cons; [reflexivity|]). apply List.Forall_nil. }
  exists c, bs. split; [exact Hr|]. split; [exact Hn|].
  apply Forall2_length in Hb. unfold zlen. rewrite <- Hb. reflexivity.
Defined.

(** * What the cache holds *)

Definition payload_total (fs : list SharedMediaFrame) : Z :=
  foldr (fun f acc => zlen (frame_payload f) + acc) 0 fs.

(** The limits as they are meant, of the frames [fs] behind the keyframe [k]; zero is none. *)
Definition within_limits (limits : GopLimits) (k : SharedMediaFrame) (fs : list SharedMediaFrame) : Prop :=
  (gop_max_bytes limits = 0 \/ payload_total (k :: fs) <= gop_max_bytes limits) /\
  (gop_max_packets limits = 0 \/ zlen (k :: fs) <= gop_max_packets limits) /\
  (gop_max_duration limits = 0 \/
   frame_timestamp (default k (list.last fs)) - frame_timestamp k <= gop_max_duration limits).
#[export] Instance within_limits_dec limits k fs : Decision (within_limits limits k fs).
Proof. unfold within_limits. apply _. Defined.
(** At every frame. *)
Definition always_within (limits : GopLimits) (k : SharedMediaFrame) (fs : list SharedMediaFrame) : Prop :=
  forall n, (1 <= n <= length fs)%nat -> within_limits limits k (take n fs).

Lemma payload_total_snoc fs f : payload_total (fs ++ [f]) = payload_total fs + zlen (frame_payload f).
Proof.
  unfold payload_total. induction fs as [|g fs IH]; cbn [foldr app] in *; [lia|]. rewrite IH. lia.
Qed.
Lemma payload_total_nonneg fs : 0 <= payload_total fs.
Proof.
  unfold payload_total. induction fs as [|f fs IH]; cbn [foldr]; [lia|]. pose proof (zlen_nonneg (frame_payload f)). lia.
Qed.
Lemma always_within_snoc limits k fs f :
  always_within limits k (fs ++ [f]) <-> always_within limits k fs /\ within_limits limits k (fs ++ [f]).
Proof.
  unfold always_within. rewrite length_app. cbn [length]. split.
  - intros H. split.
    + intros n Hn. specialize (H n ltac:(lia)). by rewrite take_app_le in H by lia.
    + specialize (H (length fs + 1)%nat ltac:(lia)). by rewrite take_ge in H by (rewrite length_app; cbn; lia).
  - intros [H1 H2] n Hn. destruct (decide (n <= length fs)%nat).
    + rewrite take_app_le by done. apply H1. lia.
    + by rewrite take_ge by (rewrite length_app; cbn; lia).
Qed.

Section Holds.
Context (limits : GopLimits) (k : SharedMediaFrame).
Hypothesis duration_ok : 0 <= gop_max_duration limits.

(** The cache that has [k] and [fs] behind it. *)
Definition holding (fs : list SharedMediaFrame) : GopCache :=
  mkGopCache limits (k :: fs) (payload_total (k :: fs)) (Some (frame_timestamp k)).

Lemma holding_over fs f :
  let c := holding (fs ++ [f]) in
  over_bytes c || over_packets c || over_duration c = true <-> ~ within_limits limits k (fs ++ [f]).
Proof.
  cbv zeta. unfold over_bytes, over_packets, over_duration, within_limits.
  cbn [holding gop_limits frames_ total_bytes_ start_timestamp_]. rewrite !app_comm_cons, !last_snoc. cbn [default id from_option].
  rewrite !orb_true_iff, !andb_true_iff, !negb_true_iff, !Z.eqb_neq, !Z.ltb_lt.
  destruct (Z.eqb_spec (gop_max_duration limits) 0) as [Hd|Hd]; cbn [negb].
  - split.
    + intros [ [H|H]|H] (H1 & H2 & _); [destruct H1; lia|destruct H2; lia|done].
    + intros H. left. destruct (decide (gop_max_bytes limits = 0 \/ payload_total ((k :: fs) ++ [f]) <= gop_max_bytes limits)) as [Hb|Hb]; [right|left; lia].
      destruct (decide (gop_max_packets limits = 0 \/ zlen ((k :: fs) ++ [f]) <= gop_max_packets limits)) as [Hp|Hp]; [|lia].
      exfalso. apply H. auto.
  - assert (Hdur : (if frame_timestamp k <=? frame_timestamp f
                    then gop_max_duration limits <? frame_timestamp f - frame_timestamp k else false) = true
             <-> gop_max_duration limits < frame_timestamp f - frame_timestamp k).
    { destruct (Z.leb_spec (frame_timestamp k) (frame_timestamp f)); [apply Z.ltb_lt|split; [done|lia] ]. }
    rewrite Hdur. split.
    + intros [ [H|H]|H] (H1 & H2 & H3); [destruct H1; lia|destruct H2; lia|].
      destruct H3 as [|H3]; [done|]. lia.
    + intros H. destruct (decide (gop_max_bytes limits = 0 \/ payload_total ((k :: fs) ++ [f]) <= gop_max_bytes limits)) as [Hb|Hb]; [|left; left; lia].
      destruct (decide (gop_max_packets limits = 0 \/ zlen ((k :: fs) ++ [f]) <= gop_max_packets limits)) as [Hp|Hp]; [|left; right; lia].
      right. destruct (decide (gop_max_duration limits < frame_timestamp f - frame_timestamp k)); [done|]. exfalso. apply H.
      split_and!; [done|done|]. right. lia.
Qed.

Lemma push_holding fs f : payload_total (k :: fs ++ [f]) < 2 ^ 64 ->
  (push (holding fs) f).2 = enforce_limits (holding (fs ++ [f])).
Proof.
  intros Hb. unfold push, push_internal, holding. cbn [frames_ snd gop_limits total_bytes_ start_timestamp_]. do 2 f_equal.
  change (k :: fs ++ [f]) with ((k :: fs) ++ [f]) in *. rewrite payload_total_snoc in *. unfold u64.
  pose proof (payload_total_nonneg (k :: fs)). pose proof (zlen_nonneg (frame_payload f)). by rewrite Z.mod_small by lia.
Qed.
Lemma push_empty c fs : frames_ c = [] -> frames_ (run_gop c (map Push fs)) = [].
Proof.
  revert c. induction fs as [|f fs IH]; intros c Hc; [done|]. cbn [map run_gop foldl gop_step]. apply IH. unfold push. by rewrite Hc.
Qed.

Lemma pushes_hold fs : payload_total (k :: fs) < 2 ^ 64 ->
  let c := run_gop (holding []) (map Push fs) in
  (always_within limits k fs /\ c = holding fs) \/ (~ always_within limits k fs /\ frames_ c = []).
Proof.
  induction fs as [|f fs IH] using rev_ind; intros Hb.
  - left. split; [|done]. intros n Hn. cbn in Hn. lia.
  - change (k :: fs ++ [f]) with ((k :: fs) ++ [f]) in Hb. pose proof Hb as Hb2. rewrite payload_total_snoc in Hb2.
    pose proof (zlen_nonneg (frame_payload f)). specialize (IH ltac:(lia)). cbv zeta in *.
    unfold run_gop in *. rewrite map_app, foldl_app. cbn [map foldl gop_step]. rewrite always_within_snoc.
    destruct IH as [ [Hw ->]|[Hw He] ].
    + rewrite push_holding by done. unfold enforce_limits. pose proof (holding_over fs f) as Ho. cbv zeta in Ho.
      destruct (_ || _); [right|left].
      * split; [|done]. intros [_ H2]. by apply Ho.
      * split; [|done]. split; [done|]. destruct Ho as [_ Ho].
        destruct (decide (within_limits limits k (fs ++ [f]))) as [?|Hn]; [done|]. by specialize (Ho Hn).
    + right. split; [by intros [? _]|]. unfold push. by rewrite He.
Qed.
End Holds.

(** C37. What the GOP cache holds for a viewer that joins, after any history: if a keyframe
    was the last to begin or clear a GOP, that keyframe and every frame pushed since, and
    its byte count is theirs, provided that at every frame so far the GOP was within the
    limits on bytes, packets and duration, and otherwise nothing; and nothing if the cache
    was cleared, or no keyframe has come.  It is never a GOP with its beginning or its
    middle missing.  (That a keyframe alone is not held against the limits is a finding.) *)
Theorem gop_cache_contents limits before k fs :
  0 <= gop_max_duration limits -> payload_total (k :: fs) < 2 ^ 64 ->
  let after ops := run_gop (make_gop_cache limits) ops in
  let c := after (before ++ NewGop k :: map Push fs) in
  (always_within limits k fs -> frames_ c = k :: fs /\ total_bytes_ c = payload_total (k :: fs)) /\
  (~ always_within limits k fs -> frames_ c = []) /\
  frames_ (after (before ++ Clear :: map Push fs)) = [] /\
  frames_ (after (map Push fs)) = [].
Proof.
  intros Hd Hb after c.
  assert (Hl : forall ops, gop_limits (after ops) = limits).
  { intros ops. unfold after, run_gop. induction ops as [|op ops IH] using rev_ind; [done|]. rewrite foldl_app. cbn [foldl].
    destruct op as [x|f|]; cbn [gop_step]; [done| |done]. unfold push. destruct (frames_ _); [done|]. cbn [snd]. unfold enforce_limits.
    by destruct (_ || _). }
  assert (Hc : c = run_gop (holding limits k []) (map Push fs)).
  { unfold c, after, run_gop. rewrite foldl_app. cbn [foldl gop_step]. f_equal.
    unfold begin_new_gop, push_internal, clear, holding. cbn. fold (run_gop (make_gop_cache limits) before).
    specialize (Hl before). unfold after in Hl. rewrite Hl. f_equal. pose proof (zlen_nonneg (frame_payload k)).
    pose proof (payload_total_nonneg fs). unfold u64.
    change (payload_total (k :: fs)) with (zlen (frame_payload k) + payload_total fs) in Hb. rewrite Z.mod_small; lia. }
  pose proof (pushes_hold limits k Hd fs Hb) as H. cbv zeta in H. rewrite <- Hc in H. split_and!.
  - intros Hw. destruct H as [ [_ ->]|[Hn _] ]; done.
  - intros Hn. destruct H as [ [Hw _]|[_ He] ]; done.
  - unfold after, run_gop. rewrite foldl_app. cbn [foldl gop_step]. by apply push_empty.
  - by apply push_empty.
Qed.

Definition small_limits : GopLimits := mkGopLimits 10 3 1000.
Definition gop_frame (n t : Z) : SharedMediaFrame := mkFrame (repeat x61 (Z.to_nat n)) 9 t.
Lemma gop_cache_contents_witness :
  always_within small_limits (gop_frame 6 0) [gop_frame 2 40; gop_frame 2 80] /\
  frames_ (run_gop (make_gop_cache small_limits)
    ([NewGop (gop_frame 1 0); Push (gop_frame 1 20)] ++ NewGop (gop_frame 6 0) :: map Push [gop_frame 2 40; gop_frame 2 80]))
  = [gop_frame 6 0; gop_frame 2 40; gop_frame 2 80].
Proof.
  assert (Hw : always_within small_limits (gop_frame 6 0) [gop_frame 2 40; gop_frame 2 80]).
  { intros n Hn. cbn in Hn. assert (n = 1 \/ n = 2)%nat as [-> | ->] by lia; unfold within_limits; cbn;
      (split_and!; right; vm_compute; done). }
  split; [exact Hw|].
  apply (gop_cache_contents small_limits [NewGop (gop_frame 1 0); Push (gop_frame 1 20)] (gop_frame 6 0) [gop_frame 2 40; gop_frame 2 80]);
    [cbn; lia|vm_compute; done|exact Hw].
Defined.

(** A keyframe is not held against the limits: one that alone is above them stays. *)
Lemma lone_keyframe_exceeds_the_cap :
  let c := run_gop (make_gop_cache small_limits) [NewGop (gop_frame 11 0)] in
  frames_ c = [gop_frame 11 0] /\ gop_max_bytes (gop_limits c) = 10 /\ total_bytes_ c = 11.
Proof. done. Qed.
