(* ===== verification/StreamDirectory.v ===== *)
(** Stream identity and ownership (protocol/commands/stream_ids.hpp and
    stream_registry.hpp): which internal id a name has, and which connection
    publishes a key.

    The process-wide counter of [StreamId::next] is part of the id registry's state.
    The metrics a registry operation records are returned as the change of the
    active_publishers gauge. *)

From S2P Require Import Prelude Text.
From Stdlib Require Import Ascii.
#[local] Open Scope Z_scope.

(** * stream_ids.hpp *)

Record StreamIdRegistry := mkIdRegistry { counter : Z; keys_ : gmap string Z }.
Definition empty_id_registry : StreamIdRegistry := mkIdRegistry 0 ∅.

(** The separator, ASCII unit separator. *)
Definition unit_separator : string := String "031"%char EmptyString.
Definition make_key (app stream_key : string) : string := app +:+ unit_separator +:+ stream_key.

Definition resolve (r : StreamIdRegistry) (app stream_key : string) : StreamIdRegistry * Z :=
  let key := make_key app stream_key in
  match keys_ r !! key with
  | Some id => (r, id)
  | None => let id := u64 (counter r + 1) in (mkIdRegistry id (<[key := id]> (keys_ r)), id)
  end.

Definition find_id (r : StreamIdRegistry) (app stream_key : string) : option Z :=
  keys_ r !! make_key app stream_key.

Definition forget (r : StreamIdRegistry) (app stream_key : string) : StreamIdRegistry :=
  mkIdRegistry (counter r) (delete (make_key app stream_key) (keys_ r)).

Inductive IdOp := Resolve (app stream_key : string) | Forget (app stream_key : string).
Definition id_step (r : StreamIdRegistry) (op : IdOp) : StreamIdRegistry :=
  match op with
  | Resolve app key => (resolve r app key).1
  | Forget app key => forget r app key
  end.

(** Ids are allotted from 1 up and no two names share one. *)
Definition ids_ok (r : StreamIdRegistry) : Prop :=
  0 <= counter r /\
  (forall k i, keys_ r !! k = Some i -> 0 < i <= counter r) /\
  (forall k k' i, keys_ r !! k = Some i -> keys_ r !! k' = Some i -> k = k').

Lemma ids_ok_empty : ids_ok empty_id_registry.
Proof. split_and!; [done|by intros ??|by intros ???]. Qed.

Lemma resolve_spec r app key : ids_ok r -> counter r < 2 ^ 64 - 1 ->
  let '(r', i) := resolve r app key in
  ids_ok r' /\ find_id r' app key = Some i /\ counter r <= counter r' <= counter r + 1 /\
  (find_id r app key = None -> i = counter r + 1) /\
  (forall i0, find_id r app key = Some i0 -> i0 = i) /\
  (forall k, k <> make_key app key -> keys_ r' !! k = keys_ r !! k).
Proof.
  intros (Hc & Hr & Hi) Hb. unfold resolve, find_id.
  destruct (keys_ r !! make_key app key) as [i|] eqn:Hk.
  { split_and!; [done|done|lia|lia|done|by intros ? [= <-]|done]. }
  unfold u64. rewrite Z.mod_small by lia. split_and!; cbn [keys_ counter]; [| |lia|lia|done|done|].
  - split_and!; cbn [counter keys_]; [lia| |].
    + intros k i. rewrite lookup_insert_Some. intros [ [_ <-]|[_ Hki] ]; [lia|].
      specialize (Hr k i Hki). lia.
    + intros k k' i. rewrite !lookup_insert_Some.
      intros [ [<- <-]|[_ H1] ] [ [<- H2]|[_ H2] ]; try done.
      * specialize (Hr _ _ H2). lia.
      * specialize (Hr _ _ H1). subst i. lia.
      * by eapply Hi.
  - by rewrite lookup_insert_eq.
  - intros k Hne. by rewrite lookup_insert_ne.
Qed.

Lemma forget_ok r app key : ids_ok r -> ids_ok (forget r app key).
Proof.
  intros (Hc & Hr & Hi). split_and!; cbn; [done| |].
  - intros k i. rewrite lookup_delete_Some. intros [_ H]. by eapply Hr.
  - intros k k' i. rewrite !lookup_delete_Some. intros [_ H1] [_ H2]. by eapply Hi.
Qed.

Lemma id_step_ok r op : ids_ok r -> counter r < 2 ^ 64 - 1 ->
  ids_ok (id_step r op) /\ counter r <= counter (id_step r op) <= counter r + 1.
Proof.
  intros Hok Hb. destruct op as [app key|app key]; cbn [id_step].
  - pose proof (resolve_spec r app key Hok Hb) as Hs. destruct (resolve r app key). cbn. tauto.
  - split; [by apply forget_ok|]. cbn. lia.
Qed.

Lemma id_run_ok ops : forall r, ids_ok r -> counter r + zlen ops < 2 ^ 64 ->
  ids_ok (foldl id_step r ops) /\ counter r <= counter (foldl id_step r ops) <= counter r + zlen ops.
Proof.
  induction ops as [|op ops IH]; intros r Hok Hb; cbn [foldl]; [rewrite zlen_nil; split; [done|lia]|].
  rewrite zlen_cons in Hb. destruct (id_step_ok r op Hok) as [H1 H2]; [zlia|].
  destruct (IH (id_step r op) H1) as [H3 H4]; [lia|]. split; [done|]. rewrite zlen_cons. lia.
Qed.

(** Names with no separator in the application part are told apart. *)
Definition no_separator (s : string) : Prop := "031"%char ∉ String.list_ascii_of_string s.

Lemma app_sep_inj (c : ascii) l1 : forall l2 r1 r2, c ∉ l1 -> c ∉ l2 ->
  l1 ++ c :: r1 = l2 ++ c :: r2 -> l1 = l2 /\ r1 = r2.
Proof.
  induction l1 as [|x l1 IH]; intros [|y l2] r1 r2 H1 H2 He; cbn in He.
  - by injection He.
  - injection He as <- _. set_solver.
  - injection He as -> _. set_solver.
  - injection He as <- He. destruct (IH l2 r1 r2) as [-> ->]; [set_solver|set_solver|done|done].
Qed.

Lemma make_key_inj app key app' key' : no_separator app -> no_separator app' ->
  make_key app key = make_key app' key' <-> app = app' /\ key = key'.
Proof.
  intros H1 H2. split; [|by intros [-> ->] ]. unfold make_key. intros He.
  apply (f_equal String.list_ascii_of_string) in He. rewrite !list_ascii_app in He.
  destruct (app_sep_inj _ _ _ _ _ H1 H2 He) as [Ha Hk]. split; by apply list_ascii_inj.
Qed.

(** One name, one id: in any history of resolutions and retirements, a publisher and a
    viewer that resolve names get the same StreamId exactly when they name the same
    application and key, and a name that was retired gets an id no name ever had
    (applications are assumed free of the separator byte). *)
Theorem stream_identity ops app key app' key' :
  no_separator app -> no_separator app' -> zlen ops + 2 < 2 ^ 64 ->
  let r := foldl id_step empty_id_registry ops in
  let '(r1, i) := resolve r app key in
  let '(r2, j) := resolve r1 app' key' in
  (i = j <-> app = app' /\ key = key') /\
  (let '(_, k) := resolve (forget r app key) app key in
   k = counter r + 1 /\ forall key0 i0, keys_ r !! key0 = Some i0 -> i0 <> k).
Proof.
  intros Ha Ha' Hb. cbv zeta. set (r := foldl id_step empty_id_registry ops).
  destruct (id_run_ok ops empty_id_registry ids_ok_empty) as [Hok Hc]; [cbn; lia|].
  fold r in Hok, Hc. cbn in Hc.
  pose proof (resolve_spec r app key Hok ltac:(lia)) as H1. destruct (resolve r app key) as [r1 i].
  destruct H1 as (Hok1 & Hf1 & Hc1 & _ & _ & _).
  pose proof (resolve_spec r1 app' key' Hok1 ltac:(lia)) as H2.
  destruct (resolve r1 app' key') as [r2 j]. destruct H2 as (Hok2 & Hf2 & _ & _ & Hsame & Hother).
  pose proof (resolve_spec (forget r app key) app key (forget_ok _ _ _ Hok) ltac:(cbn; lia)) as H3.
  destruct (resolve (forget r app key) app key) as [r3 k]. destruct H3 as (_ & _ & _ & Hnew & _ & _).
  assert (Hk : k = counter r + 1) by (apply Hnew; unfold find_id; cbn; by rewrite lookup_delete_eq).
  split_and!; [|done|].
  - rewrite <- (make_key_inj app key app' key') by done. unfold find_id in *.
    destruct (decide (make_key app key = make_key app' key')) as [He|He].
    + split; [done|]. intros _. apply Hsame. by rewrite <- He.
    + split; [|done]. intros <-. destruct Hok2 as (_ & _ & Hinj).
      apply (Hinj _ _ i); [by rewrite Hother|done].
  - intros key0 i0 Hi0. destruct Hok as (_ & Hr & _). specialize (Hr _ _ Hi0). lia.
Qed.

Lemma stream_identity_witness :
  let r := foldl id_step empty_id_registry [Resolve "live" "a"; Forget "live" "a"; Resolve "live" "b"] in
  (resolve r "live" "b").2 = 2 /\ (resolve (resolve r "live" "b").1 "live" "b").2 = 2 /\
  (resolve (resolve r "live" "b").1 "live" "a").2 = 3.
Proof.
  assert (Hl : no_separator "live") by (vm_compute; set_solver).
  pose proof (stream_identity [Resolve "live" "a"; Forget "live" "a"; Resolve "live" "b"]
    "live" "b" "live" "b" Hl Hl ltac:(vm_compute; reflexivity)) as H.
  vm_compute in H. destruct H as [ [_ H] _]. pose proof (H (conj eq_refl eq_refl)).
  vm_compute. auto.
Defined.

(** * stream_registry.hpp *)

Record StreamRegistration := mkRegistration {
  reg_app : string; reg_stream_key : string; reg_connection_id : Z; reg_stream_id : Z;
  reg_start_time : Z
}.
Notation StreamRegistry := (gmap string StreamRegistration).

(** The result, the registry afterwards, and the active_publishers change. *)
Definition register_publisher (streams : StreamRegistry) (app stream_key : string)
    (connection_id stream_id start_time : Z) : bool * StreamRegistry * Z :=
  let reg := mkRegistration app stream_key connection_id stream_id start_time in
  match streams !! stream_key with
  | Some old =>
      if negb (reg_connection_id old =? connection_id) then (false, streams, 0)
      else (true, <[stream_key := reg]> streams, 0)
  | None => (true, <[stream_key := reg]> streams, 1)
  end.

Definition unregister_publisher (streams : StreamRegistry) (stream_key : string)
    (connection_id : Z) : StreamRegistry * Z :=
  match streams !! stream_key with
  | Some reg =>
      if reg_connection_id reg =? connection_id then (delete stream_key streams, -1)
      else (streams, 0)
  | None => (streams, 0)
  end.

Definition held_by (connection_id : Z) (reg : StreamRegistration) : bool :=
  reg_connection_id reg =? connection_id.

Definition unregister_all_for_connection (streams : StreamRegistry) (connection_id : Z)
    : StreamRegistry * Z :=
  let kept := filter (fun kv => held_by connection_id kv.2 = false) streams in
  (kept, Z.of_nat (size kept) - Z.of_nat (size streams)).

Definition is_published (streams : StreamRegistry) (key : string) : bool :=
  bool_decide (is_Some (streams !! key)).
Definition find_registration (streams : StreamRegistry) (key : string) : option StreamRegistration :=
  streams !! key.

Inductive RegistryOp :=
| Register (app key : string) (connection stream_id start : Z)
| Unregister (key : string) (connection : Z)
| UnregisterAll (connection : Z).

Definition registry_step (st : StreamRegistry * Z) (op : RegistryOp) : StreamRegistry * Z :=
  let '(streams, gauge) := st in
  match op with
  | Register app key c s t =>
      let '(_, streams, d) := register_publisher streams app key c s t in (streams, gauge + d)
  | Unregister key c => let '(streams, d) := unregister_publisher streams key c in (streams, gauge + d)
  | UnregisterAll c => let '(streams, d) := unregister_all_for_connection streams c in (streams, gauge + d)
  end.

Definition acting (op : RegistryOp) : Z :=
  match op with Register _ _ c _ _ => c | Unregister _ c => c | UnregisterAll c => c end.

(** Every entry is filed under its own key. *)
Definition registry_ok (streams : StreamRegistry) : Prop :=
  forall key reg, streams !! key = Some reg -> reg_stream_key reg = key.

Lemma registry_step_spec streams gauge op :
  registry_ok streams -> gauge = Z.of_nat (size streams) ->
  let '(streams', gauge') := registry_step (streams, gauge) op in
  registry_ok streams' /\ gauge' = Z.of_nat (size streams') /\
  (forall key reg, streams !! key = Some reg -> reg_connection_id reg <> acting op ->
     streams' !! key = Some reg) /\
  (forall key reg, streams' !! key = Some reg -> streams !! key = Some reg \/
     reg_connection_id reg = acting op).
Proof.
  intros Hok Hg. destruct op as [app key c s t|key c|c]; cbn [registry_step acting].
  - unfold register_publisher. destruct (streams !! key) as [old|] eqn:Hk.
    + destruct (Z.eqb_spec (reg_connection_id old) c) as [Hc|Hc]; cbn [negb].
      * split_and!.
        -- intros k r. rewrite lookup_insert_Some. intros [ [<- <-]|[_ H] ]; [done|by apply Hok].
        -- rewrite map_size_insert_Some by done. lia.
        -- intros k r Hr Hne. rewrite lookup_insert_ne; [done|]. intros <-. congruence.
        -- intros k r. rewrite lookup_insert_Some. intros [ [_ <-]|[_ H] ]; [by right|by left].
      * split_and!; [done|lia|done|auto].
    + split_and!.
      * intros k r. rewrite lookup_insert_Some. intros [ [<- <-]|[_ H] ]; [done|by apply Hok].
      * rewrite map_size_insert_None by done. lia.
      * intros k r Hr Hne. rewrite lookup_insert_ne; [done|]. intros <-. congruence.
      * intros k r. rewrite lookup_insert_Some. intros [ [_ <-]|[_ H] ]; [by right|by left].
  - unfold unregister_publisher. destruct (streams !! key) as [reg|] eqn:Hk.
    + destruct (Z.eqb_spec (reg_connection_id reg) c) as [Hc|Hc]; [|split_and!; [done|lia|done|auto] ].
      split_and!.
      * intros k r. rewrite lookup_delete_Some. intros [_ H]. by apply Hok.
      * rewrite map_size_delete_Some by done. assert (size streams <> 0%nat); [|lia].
        apply map_size_non_empty_iff. intros He. by rewrite He in Hk.
      * intros k r Hr Hne. rewrite lookup_delete_ne; [done|]. intros <-. congruence.
      * intros k r. rewrite lookup_delete_Some. intros [_ H]. by left.
    + split_and!; [done|lia|done|auto].
  - unfold unregister_all_for_connection. split_and!.
    + intros k r. rewrite map_lookup_filter_Some. intros [H _]. by apply Hok.
    + lia.
    + intros k r Hr Hne. apply map_lookup_filter_Some. split; [done|]. by apply Z.eqb_neq.
    + intros k r. rewrite map_lookup_filter_Some. intros [H _]. by left.
Qed.

(** One publisher per key, and nobody touches another's stream: in every history, a
    registration of a key that another connection holds is refused and changes nothing, an
    entry only ever changes by an act of the connection that holds it, closing a
    connection leaves it no entry, and the active_publishers gauge is the number of
    published keys. *)
Theorem registry_ownership ops :
  let '(streams, gauge) := foldl registry_step (∅, 0) ops in
  gauge = Z.of_nat (size streams) /\
  (forall op key reg, streams !! key = Some reg -> reg_connection_id reg <> acting op ->
     (registry_step (streams, gauge) op).1 !! key = Some reg) /\
  (forall app key c s t reg, streams !! key = Some reg -> reg_connection_id reg <> c ->
     register_publisher streams app key c s t = (false, streams, 0)) /\
  (forall c key reg, (unregister_all_for_connection streams c).1 !! key = Some reg ->
     reg_connection_id reg <> c).
Proof.
  enough (H : let '(streams, gauge) := foldl registry_step (∅, 0) ops in
    registry_ok streams /\ gauge = Z.of_nat (size streams)).
  { destruct (foldl registry_step (∅, 0) ops) as [streams gauge]. destruct H as [Hok Hg].
    split_and!; [done| | |].
    - intros op key reg Hr Hne. pose proof (registry_step_spec streams gauge op Hok Hg) as Hs.
      destruct (registry_step (streams, gauge) op). by apply Hs.
    - intros app key c s t reg Hr Hne. unfold register_publisher. rewrite Hr.
      by rewrite (proj2 (Z.eqb_neq _ _)).
    - intros c key reg. unfold unregister_all_for_connection. cbn [fst].
      rewrite map_lookup_filter_Some. intros [_ Hh] Hc. unfold held_by in Hh. cbn in Hh.
      rewrite Hc, Z.eqb_refl in Hh. done. }
  induction ops as [|op ops IH] using rev_ind.
  - split; [by intros ??|done].
  - rewrite foldl_app. destruct (foldl registry_step (∅, 0) ops) as [streams gauge].
    destruct IH as [Hok Hg]. pose proof (registry_step_spec streams gauge op Hok Hg) as Hs.
    cbn [foldl]. destruct (registry_step (streams, gauge) op). tauto.
Qed.
