(* ===== verification/LiveFanout.v ===== *)
(** The live fan-out hub (protocol/commands/live_fanout.hpp, live_fanout.cpp): per
    stream the cached start-up state and the table of subscribers, and the
    two-phase delivery of every frame (decide under the lock, call the sinks
    outside it).

    A [PlaybackSink*] is an identity of type [Sink]; what calling one does is the
    section's [invoke], which acts on the state [W] of whoever owns the sinks and
    returns the sink's answer.  Hooks and metrics are returned as a list of events,
    in the order they fire.  Operations run one at a time: the locks of the source
    make each phase atomic, and interleavings of two phases are not modelled.
    [std::unordered_map] iteration is in key order here; no theorem depends on it. *)

From S2P Require Import Prelude Chunk ViewerQueue GopCache MediaIngest.

(** * Classification *)

Definition classify_is_video_keyframe (f : SharedMediaFrame) : bool :=
  match classify_video_tag (frame_payload f) with
  | None => false
  | Some info =>
      let key_type := (frame_type info =? VideoFrameType.KeyFrame)
                      || (frame_type info =? VideoFrameType.GeneratedKeyFrame) in
      key_type && (negb (codec info =? VideoCodec.Avc)
                   || bool_decide (avc_packet_type info = Some AvcPacketType.Nalu))
  end.

Definition classify_is_video_sequence_header (f : SharedMediaFrame) : bool :=
  match classify_video_tag (frame_payload f) with
  | None => false
  | Some info => (codec info =? VideoCodec.Avc)
                 && bool_decide (avc_packet_type info = Some AvcPacketType.SequenceHeader)
  end.

Definition classify_is_audio_sequence_header (f : SharedMediaFrame) : bool :=
  match classify_audio_tag (frame_payload f) with
  | None => false
  | Some info => (a_codec info =? AudioCodec.Aac)
                 && bool_decide (aac_packet_type info = Some AacPacketType.SequenceHeader)
  end.

(** * What crosses the interface *)

Inductive SinkCall :=
| OnAudio (f : SharedMediaFrame)
| OnVideo (f : SharedMediaFrame)
| OnMetadata (f : SharedMediaFrame)
| OnPublisherStopped
| OnSlowClientEvicted.

Inductive MetricId :=
| SlowViewerRecoveries | DroppedVideoFrames | DroppedAudioFrames | SlowViewerEvictions
| ViewerDisconnects | PublisherDisconnects | ActiveViewers | EgressBytesTotal.

Inductive FanoutEvent :=
| Metric (m : MetricId) (delta : Z)
| Subscription (stream_id : Z) (delta : Z)
| StreamEnd (stream_id : Z)
| Forward (stream_id : Z) (f : SharedMediaFrame) (is_video is_audio is_sticky is_keyframe : bool).

Module Kind.
Inductive t := Audio | Video | Metadata | Evict.
End Kind.

Section LiveFanout.
Context {Sink W : Type} `{EqDecision Sink}.
Variable invoke : Sink -> SinkCall -> W -> W * bool.

Record Subscriber := mkSubscriber {
  sub_sink : Sink;
  sub_queue : ViewerQueue;
  consecutive_transport_drops : Z;
  sub_client_ip : string
}.

Record StreamState := mkStreamState {
  s_metadata : option SharedMediaFrame;
  s_video_sequence_header : option SharedMediaFrame;
  s_audio_sequence_header : option SharedMediaFrame;
  gop_cache : GopCache;
  subscribers : gmap Z Subscriber;
  s_egress_bytes_total : Z
}.

Record LiveFanout := mkLiveFanout {
  f_streams : gmap Z StreamState;
  f_gop_limits : GopLimits;
  f_queue_limits : QueueLimits;
  f_max_waiting : Z
}.

Definition make_fanout (g : GopLimits) (q : QueueLimits) (max_waiting : Z) : LiveFanout :=
  mkLiveFanout ∅ g q max_waiting.

Record PendingDelivery := mkDelivery {
  pd_subscriber_id : Z;
  pd_sink : Sink;
  pd_kind : Kind.t;
  resend_video_seq_header : option SharedMediaFrame;
  resend_audio_seq_header : option SharedMediaFrame
}.

Definition empty_stream (fo : LiveFanout) : StreamState :=
  mkStreamState None None None (make_gop_cache (f_gop_limits fo)) ∅ 0.

(** The node [state_for] finds or creates, and storing it back. *)
Definition stream_for (fo : LiveFanout) (id : Z) : StreamState :=
  default (empty_stream fo) (f_streams fo !! id).
Definition put_stream (fo : LiveFanout) (id : Z) (s : StreamState) : LiveFanout :=
  mkLiveFanout (<[id := s]> (f_streams fo)) (f_gop_limits fo) (f_queue_limits fo)
    (f_max_waiting fo).

Definition with_subscribers (s : StreamState) (m : gmap Z Subscriber) : StreamState :=
  mkStreamState (s_metadata s) (s_video_sequence_header s) (s_audio_sequence_header s)
    (gop_cache s) m (s_egress_bytes_total s).
Definition with_queue (sub : Subscriber) (q : ViewerQueue) : Subscriber :=
  mkSubscriber (sub_sink sub) q (consecutive_transport_drops sub) (sub_client_ip sub).
Definition with_drops (sub : Subscriber) (n : Z) : Subscriber :=
  mkSubscriber (sub_sink sub) (sub_queue sub) n (sub_client_ip sub).

(** ** dispatch_locked *)

Definition kind_of (is_video is_audio : bool) : Kind.t :=
  if is_video then Kind.Video else if is_audio then Kind.Audio else Kind.Metadata.

(** The body of the loop for one subscriber: what stays in the table, the delivery it
    queues, the events it fires. *)
Definition dispatch_one (s : StreamState) (stream_id : Z) (f : SharedMediaFrame)
    (is_video is_audio is_keyframe : bool) (id : Z) (sub : Subscriber)
    : option Subscriber * option PendingDelivery * list FanoutEvent :=
  let '(q, decision) :=
    offer (sub_queue sub) no_backlog (zlen (frame_payload f)) is_video is_keyframe in
  let sub := with_queue sub q in
  let kind := kind_of is_video is_audio in
  match decision with
  | Decision.Deliver =>
      (Some sub, Some (mkDelivery id (sub_sink sub) kind None None), [])
  | Decision.DeliverResumed =>
      (Some sub, Some (mkDelivery id (sub_sink sub) kind (s_video_sequence_header s)
                         (s_audio_sequence_header s)),
       [Metric SlowViewerRecoveries 1])
  | Decision.DropAndWait =>
      (Some sub, None,
       if is_video then [Metric DroppedVideoFrames 1]
       else if is_audio then [Metric DroppedAudioFrames 1] else [])
  | Decision.Evict =>
      (None, Some (mkDelivery id (sub_sink sub) Kind.Evict None None),
       [Metric SlowViewerEvictions 1; Metric ViewerDisconnects 1; Metric ActiveViewers (-1);
        Subscription stream_id (-1)])
  end.

Fixpoint dispatch_loop (s : StreamState) (stream_id : Z) (f : SharedMediaFrame)
    (is_video is_audio is_keyframe : bool) (todo : list (Z * Subscriber))
    (table : gmap Z Subscriber) : gmap Z Subscriber * list PendingDelivery * list FanoutEvent :=
  match todo with
  | [] => (table, [], [])
  | (id, sub) :: todo =>
      let '(kept, delivery, ev) := dispatch_one s stream_id f is_video is_audio is_keyframe id sub in
      let table := match kept with Some sub => <[id := sub]> table | None => delete id table end in
      let '(table, ds, evs) :=
        dispatch_loop s stream_id f is_video is_audio is_keyframe todo table in
      (table, option_list delivery ++ ds, ev ++ evs)
  end.

Definition dispatch_locked (s : StreamState) (stream_id : Z) (f : SharedMediaFrame)
    (is_video is_audio is_keyframe : bool) : StreamState * list PendingDelivery * list FanoutEvent :=
  let '(table, ds, evs) :=
    dispatch_loop s stream_id f is_video is_audio is_keyframe (map_to_list (subscribers s))
      (subscribers s) in
  (with_subscribers s table, ds, evs).

(** ** run_deliveries *)

(** One optional resend: the bytes it adds to the egress counter. *)
Definition resend (sink : Sink) (call : SharedMediaFrame -> SinkCall)
    (f : option SharedMediaFrame) (w : W) : W * Z :=
  match f with
  | None => (w, 0)
  | Some f => let '(w, ok) := invoke sink (call f) w in
              (w, if ok then zlen (frame_payload f) else 0)
  end.

Definition frame_call (kind : Kind.t) (f : SharedMediaFrame) : SinkCall :=
  match kind with
  | Kind.Audio => OnAudio f
  | Kind.Video => OnVideo f
  | Kind.Metadata => OnMetadata f
  | Kind.Evict => OnSlowClientEvicted
  end.

Definition is_evict (k : Kind.t) : bool := match k with Kind.Evict => true | _ => false end.

(** The callbacks of one delivery: the egress bytes and the [delivered] flag. *)
Definition deliver_one (f : SharedMediaFrame) (d : PendingDelivery) (w : W) : W * (Z * bool) :=
  let '(w, b1) := resend (pd_sink d) OnVideo (resend_video_seq_header d) w in
  let '(w, b2) := resend (pd_sink d) OnAudio (resend_audio_seq_header d) w in
  let '(w, ok) := invoke (pd_sink d) (frame_call (pd_kind d) f) w in
  if is_evict (pd_kind d) then (w, (b1 + b2, false))
  else (w, (b1 + b2 + (if ok then zlen (frame_payload f) else 0), ok)).

Fixpoint deliver_all (f : SharedMediaFrame) (ds : list PendingDelivery) (w : W)
    : W * (Z * list (PendingDelivery * bool)) :=
  match ds with
  | [] => (w, (0, []))
  | d :: ds =>
      let '(w, (b, ok)) := deliver_one f d w in
      let '(w, (bs, results)) := deliver_all f ds w in
      (w, (b + bs, (d, ok) :: results))
  end.

(** Folding the answers back into the table: the sinks that are given up on. *)
Fixpoint fold_results (max_waiting : Z) (results : list (PendingDelivery * bool))
    (table : gmap Z Subscriber) : gmap Z Subscriber * list Sink * list FanoutEvent :=
  match results with
  | [] => (table, [], [])
  | (d, ok) :: results =>
      let skip := fold_results max_waiting results table in
      if is_evict (pd_kind d) then skip else
      match table !! pd_subscriber_id d with
      | None => skip
      | Some sub =>
          if negb (bool_decide (sub_sink sub = pd_sink d)) then skip else
          if ok then
            fold_results max_waiting results (<[pd_subscriber_id d := with_drops sub 0]> table)
          else
            let drops := u64 (consecutive_transport_drops sub + 1) in
            let ev := match pd_kind d with
                      | Kind.Video => [Metric DroppedVideoFrames 1]
                      | Kind.Audio => [Metric DroppedAudioFrames 1]
                      | _ => []
                      end in
            if max_waiting <? drops then
              let '(table, sinks, evs) :=
                fold_results max_waiting results (delete (pd_subscriber_id d) table) in
              (table, sub_sink sub :: sinks, ev ++ evs)
            else
              let '(table, sinks, evs) :=
                fold_results max_waiting results
                  (<[pd_subscriber_id d := with_drops sub drops]> table) in
              (table, sinks, ev ++ evs)
      end
  end.

Fixpoint evict_all (stream_id : Z) (sinks : list Sink) (w : W) : W * list FanoutEvent :=
  match sinks with
  | [] => (w, [])
  | sink :: sinks =>
      let '(w, _) := invoke sink OnSlowClientEvicted w in
      let '(w, evs) := evict_all stream_id sinks w in
      (w, [Metric SlowViewerEvictions 1; Metric ViewerDisconnects 1; Metric ActiveViewers (-1);
           Subscription stream_id (-1)] ++ evs)
  end.

Definition add_egress (s : StreamState) (n : Z) : StreamState * list FanoutEvent :=
  if 0 <? n then
    (mkStreamState (s_metadata s) (s_video_sequence_header s) (s_audio_sequence_header s)
       (gop_cache s) (subscribers s) (u64 (s_egress_bytes_total s + n)),
     [Metric EgressBytesTotal n])
  else (s, []).

Definition run_deliveries (max_waiting stream_id : Z) (s : StreamState) (f : SharedMediaFrame)
    (ds : list PendingDelivery) (w : W) : W * StreamState * list FanoutEvent :=
  let '(w, (bytes, results)) := deliver_all f ds w in
  let '(table, sinks, ev1) := fold_results max_waiting results (subscribers s) in
  let '(w, ev2) := evict_all stream_id sinks w in
  let '(s, ev3) := add_egress (with_subscribers s table) bytes in
  (w, s, ev1 ++ ev2 ++ ev3).

(** ** The public operations *)

Definition dispatch_frame (fo : LiveFanout) (stream_id : Z) (s : StreamState)
    (f : SharedMediaFrame) (is_video is_audio is_keyframe is_sticky is_replayed : bool) (w : W)
    : W * LiveFanout * list FanoutEvent :=
  let '(s, ds, ev1) := dispatch_locked s stream_id f is_video is_audio is_keyframe in
  let '(w, s, ev2) := run_deliveries (f_max_waiting fo) stream_id s f ds w in
  (w, put_stream fo stream_id s,
   ev1 ++ ev2 ++ (if is_replayed then []
                  else [Forward stream_id f is_video is_audio is_sticky is_keyframe])).

Definition on_video (fo : LiveFanout) (stream_id : Z) (f : SharedMediaFrame) (is_replayed : bool)
    (w : W) : W * LiveFanout * list FanoutEvent :=
  let s := stream_for fo stream_id in
  if classify_is_video_sequence_header f then
    let s := mkStreamState (s_metadata s) (Some f) (s_audio_sequence_header s) (gop_cache s)
               (subscribers s) (s_egress_bytes_total s) in
    dispatch_frame fo stream_id s f true false false true is_replayed w
  else
    let is_keyframe := classify_is_video_keyframe f in
    let gop := if is_keyframe then begin_new_gop (gop_cache s) f else (push (gop_cache s) f).2 in
    let s := mkStreamState (s_metadata s) (s_video_sequence_header s) (s_audio_sequence_header s)
               gop (subscribers s) (s_egress_bytes_total s) in
    dispatch_frame fo stream_id s f true false is_keyframe false is_replayed w.

Definition on_audio (fo : LiveFanout) (stream_id : Z) (f : SharedMediaFrame) (is_replayed : bool)
    (w : W) : W * LiveFanout * list FanoutEvent :=
  let s := stream_for fo stream_id in
  if classify_is_audio_sequence_header f then
    let s := mkStreamState (s_metadata s) (s_video_sequence_header s) (Some f) (gop_cache s)
               (subscribers s) (s_egress_bytes_total s) in
    dispatch_frame fo stream_id s f false true false true is_replayed w
  else
    let s := mkStreamState (s_metadata s) (s_video_sequence_header s) (s_audio_sequence_header s)
               (push (gop_cache s) f).2 (subscribers s) (s_egress_bytes_total s) in
    dispatch_frame fo stream_id s f false true false false is_replayed w.

Definition on_metadata (fo : LiveFanout) (stream_id : Z) (f : SharedMediaFrame)
    (is_replayed : bool) (w : W) : W * LiveFanout * list FanoutEvent :=
  let s := stream_for fo stream_id in
  let s := mkStreamState (Some f) (s_video_sequence_header s) (s_audio_sequence_header s)
             (gop_cache s) (subscribers s) (s_egress_bytes_total s) in
  dispatch_frame fo stream_id s f false false false true is_replayed w.

(** The calls [subscribe] replays into a new sink. *)
Definition startup_headers (s : StreamState) : list SharedMediaFrame :=
  option_list (s_metadata s) ++ option_list (s_video_sequence_header s)
    ++ option_list (s_audio_sequence_header s).
Definition startup_call (f : SharedMediaFrame) : SinkCall :=
  if classify_is_video_sequence_header f then OnVideo f
  else if classify_is_audio_sequence_header f then OnAudio f else OnMetadata f.
Definition gop_call (f : SharedMediaFrame) : SinkCall :=
  if frame_type_id f =? MessageTypeId.Video then OnVideo f else OnAudio f.
Definition startup_calls (s : StreamState) : list (SinkCall * Z) :=
  map (fun f => (startup_call f, zlen (frame_payload f))) (startup_headers s)
  ++ map (fun f => (gop_call f, zlen (frame_payload f))) (frames_ (gop_cache s)).

Fixpoint replay (sink : Sink) (calls : list (SinkCall * Z)) (w : W) : W * Z :=
  match calls with
  | [] => (w, 0)
  | (call, n) :: calls =>
      let '(w, ok) := invoke sink call w in
      let '(w, bytes) := replay sink calls w in
      (w, (if ok then n else 0) + bytes)
  end.

Definition subscribe (fo : LiveFanout) (stream_id subscriber_id : Z) (sink : Sink)
    (client_ip : string) (w : W) : W * LiveFanout * list FanoutEvent :=
  let s := stream_for fo stream_id in
  let table := match subscribers s !! subscriber_id with
    | Some _ => subscribers s       (* emplace leaves an existing entry alone *)
    | None => <[subscriber_id :=
        mkSubscriber sink (make_queue (f_queue_limits fo) (f_max_waiting fo)) 0 client_ip]>
        (subscribers s)
    end in
  let s := with_subscribers s table in
  let '(w, bytes) := replay sink (startup_calls s) w in
  let '(s, ev) := add_egress s bytes in
  (w, put_stream fo stream_id s, ev ++ [Metric ActiveViewers 1; Subscription stream_id 1]).

Definition unsubscribe (fo : LiveFanout) (stream_id subscriber_id : Z)
    : LiveFanout * list FanoutEvent :=
  match f_streams fo !! stream_id with
  | None => (fo, [])
  | Some s =>
      match subscribers s !! subscriber_id with
      | None => (fo, [])
      | Some _ =>
          (put_stream fo stream_id (with_subscribers s (delete subscriber_id (subscribers s))),
           [Metric ActiveViewers (-1); Metric ViewerDisconnects 1; Subscription stream_id (-1)])
      end
  end.

Fixpoint notify_all (sinks : list Sink) (w : W) : W :=
  match sinks with
  | [] => w
  | sink :: sinks => notify_all sinks (invoke sink OnPublisherStopped w).1
  end.

Definition publisher_stopped (fo : LiveFanout) (stream_id : Z) (is_replayed : bool) (w : W)
    : W * LiveFanout * list FanoutEvent :=
  match f_streams fo !! stream_id with
  | None => (w, fo, [])
  | Some s =>
      let sinks := map (fun kv => sub_sink kv.2) (map_to_list (subscribers s)) in
      let fo := mkLiveFanout (delete stream_id (f_streams fo)) (f_gop_limits fo)
                  (f_queue_limits fo) (f_max_waiting fo) in
      let viewers := zlen sinks in
      (notify_all sinks w, fo,
       [Metric PublisherDisconnects 1] ++
       (if 0 <? viewers then [Metric ActiveViewers (- viewers); Metric ViewerDisconnects viewers]
        else []) ++
       (if is_replayed then [] else [StreamEnd stream_id]))
  end.

Definition subscriber_count (fo : LiveFanout) (stream_id : Z) : Z :=
  match f_streams fo !! stream_id with Some s => Z.of_nat (size (subscribers s)) | None => 0 end.

Definition egress_bytes_total (fo : LiveFanout) (stream_id : Z) : Z :=
  match f_streams fo !! stream_id with Some s => s_egress_bytes_total s | None => 0 end.

(** Distinct client IPs, a subscriber without one counting for itself. *)
Definition unique_viewer_count (fo : LiveFanout) (stream_id : Z) : Z :=
  match f_streams fo !! stream_id with
  | None => 0
  | Some s =>
      let ips := map (fun kv => sub_client_ip kv.2) (map_to_list (subscribers s)) in
      zlen (List.filter (fun ip => bool_decide (ip = ""%string)) ips)
      + Z.of_nat (size (list_to_set (List.filter (fun ip => negb (bool_decide (ip = ""%string))) ips)
                         : gset string))
  end.

(** One call of the hub, and a history of them. *)
Inductive FanoutOp :=
| Video (stream_id : Z) (f : SharedMediaFrame) (is_replayed : bool)
| Audio (stream_id : Z) (f : SharedMediaFrame) (is_replayed : bool)
| Metadata (stream_id : Z) (f : SharedMediaFrame) (is_replayed : bool)
| Subscribe (stream_id subscriber_id : Z) (sink : Sink) (client_ip : string)
| Unsubscribe (stream_id subscriber_id : Z)
| PublisherStopped (stream_id : Z) (is_replayed : bool).

Definition fanout_step (fo : LiveFanout) (op : FanoutOp) (w : W)
    : W * LiveFanout * list FanoutEvent :=
  match op with
  | Video id f r => on_video fo id f r w
  | Audio id f r => on_audio fo id f r w
  | Metadata id f r => on_metadata fo id f r w
  | Subscribe id sub sink ip => subscribe fo id sub sink ip w
  | Unsubscribe id sub => let '(fo, ev) := unsubscribe fo id sub in (w, fo, ev)
  | PublisherStopped id r => publisher_stopped fo id r w
  end.

Fixpoint fanout_run (fo : LiveFanout) (ops : list FanoutOp) (w : W)
    : W * LiveFanout * list FanoutEvent :=
  match ops with
  | [] => (w, fo, [])
  | op :: ops =>
      let '(w, fo, ev) := fanout_step fo op w in
      let '(w, fo, evs) := fanout_run fo ops w in (w, fo, ev ++ evs)
  end.

(** ** Counting viewers *)

(** The change a list of events makes to the active_viewers gauge. *)
Definition viewers_delta (e : FanoutEvent) : Z :=
  match e with Metric ActiveViewers n => n | _ => 0 end.
Definition gauge (evs : list FanoutEvent) : Z := foldr (fun e acc => viewers_delta e + acc) 0 evs.

Definition viewers_of (s : StreamState) : Z := Z.of_nat (size (subscribers s)).
Definition all_viewers (fo : LiveFanout) : Z := map_sum viewers_of (f_streams fo).

Lemma gauge_app a b : gauge (a ++ b) = gauge a + gauge b.
Proof. unfold gauge. induction a as [|e a IH]; cbn [foldr app]; [done|]. rewrite IH. lia. Qed.

Lemma dispatch_one_gauge s id f v a k sid sub :
  let '(kept, _, ev) := dispatch_one s id f v a k sid sub in
  gauge ev = match kept with Some _ => 0 | None => -1 end.
Proof. unfold dispatch_one. destruct (offer _ _ _ _ _) as [q []]; by destruct v, a. Qed.

Lemma dispatch_loop_size s id f v a k todo : forall table,
  NoDup (map fst todo) -> (forall i sub, (i, sub) ∈ todo -> is_Some (table !! i)) ->
  let '(table', _, ev) := dispatch_loop s id f v a k todo table in
  Z.of_nat (size table') = Z.of_nat (size table) + gauge ev.
Proof.
  induction todo as [|[i sub] todo IH]; intros table Hnd Hin; cbn [dispatch_loop]; [cbn; lia|].
  cbn [map fst] in Hnd. apply list.NoDup_cons in Hnd as [Hi Hnd].
  pose proof (dispatch_one_gauge s id f v a k i sub) as Hg.
  destruct (dispatch_one s id f v a k i sub) as [ [kept delivery] ev].
  destruct (Hin i sub) as [sub0 Hsub]; [set_solver|].
  set (table1 := match kept with Some sub1 => <[i:=sub1]> table | None => delete i table end).
  assert (H1 : Z.of_nat (size table1) = Z.of_nat (size table) + gauge ev).
  { subst table1. rewrite Hg. destruct kept as [sub1|].
    - rewrite map_size_insert_Some by eauto. lia.
    - rewrite map_size_delete_Some by eauto. assert (size table <> 0%nat); [|lia].
      apply map_size_non_empty_iff. intros He. by rewrite He in Hsub. }
  specialize (IH table1 Hnd). destruct (dispatch_loop s id f v a k todo table1) as [ [table' ds] evs].
  rewrite gauge_app, IH; [lia|]. intros j sub1 Hj. assert (j <> i).
  { intros ->. apply Hi. apply list_elem_of_fmap. by exists (i, sub1). }
  subst table1. destruct kept; rewrite ?lookup_insert_ne, ?lookup_delete_ne by done;
    apply (Hin j sub1); set_solver.
Qed.

Lemma dispatch_locked_size s id f v a k :
  let '(s', _, ev) := dispatch_locked s id f v a k in viewers_of s' = viewers_of s + gauge ev.
Proof.
  unfold dispatch_locked.
  pose proof (dispatch_loop_size s id f v a k (map_to_list (subscribers s)) (subscribers s)) as H.
  destruct (dispatch_loop _ _ _ _ _ _ _ _) as [ [table ds] ev]. apply H.
  - apply NoDup_fst_map_to_list.
  - intros i sub Hi. apply elem_of_map_to_list in Hi. eauto.
Qed.

Lemma fold_results_size mw results : forall table,
  let '(table', sinks, ev) := fold_results mw results table in
  Z.of_nat (size table') + zlen sinks = Z.of_nat (size table) /\ gauge ev = 0.
Proof.
  induction results as [|[d ok] results IH]; intros table; cbn [fold_results]; [rewrite zlen_nil; split; [lia|done]|].
  cbv zeta. destruct (is_evict _); [apply IH|].
  destruct (table !! pd_subscriber_id d) as [sub|] eqn:Hsub; [|apply IH].
  destruct (negb _); [apply IH|]. destruct ok.
  - specialize (IH (<[pd_subscriber_id d:=with_drops sub 0]> table)).
    rewrite map_size_insert_Some in IH by eauto. exact IH.
  - set (ev := match pd_kind d with Kind.Video => _ | _ => _ end).
    assert (Hev : gauge ev = 0) by (subst ev; by destruct (pd_kind d)).
    destruct (mw <? u64 (consecutive_transport_drops sub + 1)).
    + specialize (IH (delete (pd_subscriber_id d) table)).
      rewrite map_size_delete_Some in IH by eauto.
      assert (size table <> 0%nat)
        by (apply map_size_non_empty_iff; intros He; by rewrite He in Hsub).
      destruct (fold_results _ _ _) as [ [table' sinks] evs]. rewrite gauge_app, zlen_cons. lia.
    + specialize (IH (<[pd_subscriber_id d:=with_drops sub (u64 (consecutive_transport_drops sub + 1))]> table)).
      rewrite map_size_insert_Some in IH by eauto.
      destruct (fold_results _ _ _) as [ [table' sinks] evs]. rewrite gauge_app. lia.
Qed.

Lemma evict_all_gauge id sinks : forall w, gauge (evict_all id sinks w).2 = - zlen sinks.
Proof.
  induction sinks as [|sink sinks IH]; intros w; cbn [evict_all]; [done|].
  destruct (invoke sink OnSlowClientEvicted w) as [w1 b]. specialize (IH w1).
  destruct (evict_all id sinks w1) as [w2 evs]. cbn [snd] in *. rewrite zlen_cons, gauge_app, IH.
  change (gauge [_; _; _; _]) with (-1). lia.
Qed.

Lemma add_egress_gauge s n : gauge (add_egress s n).2 = 0 /\ subscribers (add_egress s n).1 = subscribers s.
Proof. unfold add_egress. by destruct (0 <? n). Qed.

Lemma run_deliveries_size mw id s f ds w :
  let '(_, s', ev) := run_deliveries mw id s f ds w in viewers_of s' = viewers_of s + gauge ev.
Proof.
  unfold run_deliveries. destruct (deliver_all f ds w) as [w1 [bytes results] ].
  pose proof (fold_results_size mw results (subscribers s)) as H1.
  destruct (fold_results mw results (subscribers s)) as [ [table sinks] ev1].
  pose proof (evict_all_gauge id sinks w1) as H2. destruct (evict_all id sinks w1) as [w2 ev2].
  pose proof (add_egress_gauge (with_subscribers s table) bytes) as [H3 H4].
  destruct (add_egress _ bytes) as [s' ev3]. cbn [fst snd] in *. rewrite !gauge_app.
  unfold viewers_of in *. rewrite H4. cbn. lia.
Qed.

Lemma viewers_put fo id s :
  all_viewers (put_stream fo id s) = all_viewers fo + viewers_of s - viewers_of (stream_for fo id).
Proof.
  unfold all_viewers, put_stream, stream_for. cbn [f_streams]. rewrite map_sum_insert.
  destruct (f_streams fo !! id); cbn [from_option default]; [done|].
  assert (viewers_of (empty_stream fo) = 0) as -> by (unfold viewers_of; cbn; by rewrite map_size_empty).
  done.
Qed.

Lemma dispatch_frame_size fo id s f v a k st r w :
  subscribers s = subscribers (stream_for fo id) ->
  let '(_, fo', ev) := dispatch_frame fo id s f v a k st r w in
  all_viewers fo' = all_viewers fo + gauge ev.
Proof.
  intros Hs. unfold dispatch_frame. pose proof (dispatch_locked_size s id f v a k) as H1.
  destruct (dispatch_locked s id f v a k) as [ [s1 ds] ev1].
  pose proof (run_deliveries_size (f_max_waiting fo) id s1 f ds w) as H2.
  destruct (run_deliveries _ id s1 f ds w) as [ [w2 s2] ev2].
  rewrite viewers_put, !gauge_app. unfold viewers_of in *. rewrite <- Hs.
  assert (gauge (if r then [] else [Forward id f v a st k]) = 0) by by destruct r. lia.
Qed.

Definition fresh_subscriber (fo : LiveFanout) (op : FanoutOp) : Prop :=
  match op with
  | Subscribe id sub _ _ => subscribers (stream_for fo id) !! sub = None
  | _ => True
  end.

Lemma fanout_step_size fo op w : fresh_subscriber fo op ->
  let '(_, fo', ev) := fanout_step fo op w in all_viewers fo' = all_viewers fo + gauge ev.
Proof.
  intros Hfr. destruct op as [id f r|id f r|id f r|id sub sink ip|id sub|id r]; cbn [fanout_step].
  - unfold on_video. destruct (classify_is_video_sequence_header f); by apply dispatch_frame_size.
  - unfold on_audio. destruct (classify_is_audio_sequence_header f); by apply dispatch_frame_size.
  - by apply dispatch_frame_size.
  - unfold subscribe. cbn in Hfr. rewrite Hfr. destruct (replay _ _ _) as [w1 bytes].
    match goal with |- context [add_egress ?s0 bytes] =>
      pose proof (add_egress_gauge s0 bytes) as [H1 H2]; destruct (add_egress s0 bytes) as [s1 ev] end.
    cbn [fst snd] in *. rewrite viewers_put, gauge_app, H1. unfold viewers_of. rewrite H2.
    cbn [with_subscribers subscribers]. rewrite map_size_insert_None by done. cbn. lia.
  - unfold unsubscribe. destruct (f_streams fo !! id) as [s|] eqn:Hs; [|cbn; lia].
    destruct (subscribers s !! sub) as [x|] eqn:Hx; [|cbn; lia].
    rewrite viewers_put. unfold stream_for. rewrite Hs. cbn [default].
    unfold viewers_of. cbn [with_subscribers subscribers]. rewrite map_size_delete_Some by eauto.
    assert (size (subscribers s) <> 0%nat)
      by (apply map_size_non_empty_iff; intros He; by rewrite He in Hx). cbn. lia.
  - unfold publisher_stopped. destruct (f_streams fo !! id) as [s|] eqn:Hs; [|cbn; lia].
    unfold all_viewers. cbn [f_streams]. rewrite (map_sum_delete _ _ _ _ Hs).
    assert (Hz : zlen (map (fun kv => sub_sink kv.2) (map_to_list (subscribers s))) = viewers_of s).
    { unfold zlen, viewers_of. by rewrite length_map, length_map_to_list. }
    rewrite !gauge_app, Hz. unfold viewers_of at 2.
    assert (gauge (if r then [] else [StreamEnd id]) = 0) as -> by by destruct r.
    destruct (Z.ltb_spec 0 (viewers_of s)); unfold viewers_of in *; cbn; lia.
Qed.

(** Every subscription of a history uses an id not in use. *)
Fixpoint fresh_run (fo : LiveFanout) (ops : list FanoutOp) (w : W) : Prop :=
  match ops with
  | [] => True
  | op :: ops =>
      fresh_subscriber fo op /\
      let '(w, fo, _) := fanout_step fo op w in fresh_run fo ops w
  end.

Lemma fanout_run_size ops : forall fo w, fresh_run fo ops w ->
  let '(_, fo', ev) := fanout_run fo ops w in all_viewers fo' = all_viewers fo + gauge ev.
Proof.
  induction ops as [|op ops IH]; intros fo w Hf; cbn [fanout_run]; [cbn; lia|].
  cbn [fresh_run] in Hf. destruct Hf as [Hop Hf]. pose proof (fanout_step_size fo op w Hop) as H1.
  destruct (fanout_step fo op w) as [ [w1 fo1] ev1]. specialize (IH fo1 w1 Hf).
  destruct (fanout_run fo1 ops w1) as [ [w2 fo2] ev2]. rewrite gauge_app. lia.
Qed.

(** ** What a late joiner is sent *)

(** Media frames carry the message type their operation says. *)
Definition op_typed (op : FanoutOp) : Prop :=
  match op with Video _ f _ => frame_type_id f = MessageTypeId.Video | _ => True end.

Definition starts_decodable (fs : list SharedMediaFrame) : Prop :=
  match fs with
  | [] => True
  | k :: _ => classify_is_video_keyframe k = true /\ frame_type_id k = MessageTypeId.Video
  end.

Definition stream_ok (s : StreamState) : Prop :=
  (forall f, s_video_sequence_header s = Some f -> classify_is_video_sequence_header f = true) /\
  (forall f, s_audio_sequence_header s = Some f -> classify_is_audio_sequence_header f = true) /\
  starts_decodable (frames_ (gop_cache s)).

Definition fanout_ok (fo : LiveFanout) : Prop := forall id, stream_ok (stream_for fo id).

(** The part of a stream's state that delivery leaves alone. *)
Definition startup_state (s : StreamState) :=
  (s_metadata s, s_video_sequence_header s, s_audio_sequence_header s, gop_cache s).

Lemma stream_ok_startup s s' : startup_state s' = startup_state s -> stream_ok s -> stream_ok s'.
Proof.
  unfold startup_state, stream_ok. intros He Hok. injection He as _ -> -> ->. exact Hok.
Qed.

Lemma stream_for_put fo id s id' :
  stream_for (put_stream fo id s) id' = if decide (id' = id) then s else stream_for fo id'.
Proof.
  unfold stream_for, put_stream. cbn. destruct (decide (id' = id)) as [->|].
  - by rewrite lookup_insert_eq.
  - by rewrite lookup_insert_ne.
Qed.

Lemma put_ok fo id s : fanout_ok fo -> stream_ok s -> fanout_ok (put_stream fo id s).
Proof. intros Hf Hs id'. rewrite stream_for_put. by case_decide. Qed.

Lemma add_egress_startup s n : startup_state (add_egress s n).1 = startup_state s.
Proof. unfold add_egress. by destruct (0 <? n). Qed.

Lemma dispatch_frame_startup fo id s f v a k st r w :
  let '(_, fo', _) := dispatch_frame fo id s f v a k st r w in
  exists s', fo' = put_stream fo id s' /\ startup_state s' = startup_state s.
Proof.
  unfold dispatch_frame, dispatch_locked.
  destruct (dispatch_loop _ _ _ _ _ _ _ _) as [ [table ds] ev1]. unfold run_deliveries.
  destruct (deliver_all f ds w) as [w1 [bytes results] ].
  destruct (fold_results _ _ _) as [ [table' sinks] ev2]. destruct (evict_all id sinks w1) as [w2 ev3].
  match goal with |- context [add_egress ?s0 bytes] =>
    pose proof (add_egress_startup s0 bytes) as He; destruct (add_egress s0 bytes) as [s' ev4] end.
  exists s'. split; [done|exact He].
Qed.

Lemma dispatch_frame_ok fo id s f v a k st r w :
  fanout_ok fo -> stream_ok s ->
  let '(_, fo', _) := dispatch_frame fo id s f v a k st r w in fanout_ok fo'.
Proof.
  intros Hf Hs. pose proof (dispatch_frame_startup fo id s f v a k st r w) as H.
  destruct (dispatch_frame _ _ _ _ _ _ _ _ _ _) as [ [w' fo'] ev].
  destruct H as (s' & -> & He). apply put_ok; [done|]. by eapply stream_ok_startup.
Qed.

Lemma push_decodable c f : starts_decodable (frames_ c) -> starts_decodable (frames_ (push c f).2).
Proof.
  unfold push, enforce_limits, clear. destruct (frames_ c) as [|k fs] eqn:Hfr;
    [cbn [snd]; by rewrite Hfr|]. intros Hk. cbn [snd]. destruct (_ || _ || _); [done|]. cbn. by rewrite Hfr.
Qed.

Lemma fanout_step_ok fo op w : fanout_ok fo -> op_typed op ->
  let '(_, fo', _) := fanout_step fo op w in fanout_ok fo'.
Proof.
  intros Hf Ht. destruct op as [id f r|id f r|id f r|id sub sink ip|id sub|id r]; cbn [fanout_step].
  - destruct (Hf id) as (H1 & H2 & H3). unfold on_video.
    destruct (classify_is_video_sequence_header f) eqn:Hc; apply dispatch_frame_ok; try done.
    + split_and!; cbn; [by intros ? [= <-]|done|done].
    + split_and!; cbn; [done|done|]. destruct (classify_is_video_keyframe f) eqn:Hk.
      * done.
      * by apply push_decodable.
  - destruct (Hf id) as (H1 & H2 & H3). unfold on_audio.
    destruct (classify_is_audio_sequence_header f) eqn:Hc; apply dispatch_frame_ok; try done.
    + split_and!; cbn; [done|by intros ? [= <-]|done].
    + split_and!; cbn; [done|done|by apply push_decodable].
  - destruct (Hf id) as (H1 & H2 & H3). by apply dispatch_frame_ok.
  - unfold subscribe. destruct (replay _ _ _) as [w1 bytes].
    match goal with |- context [add_egress ?s0 bytes] =>
      pose proof (add_egress_startup s0 bytes) as He; destruct (add_egress s0 bytes) as [s' ev] end.
    apply put_ok; [done|]. eapply stream_ok_startup; [exact He|]. exact (Hf id).
  - unfold unsubscribe. destruct (f_streams fo !! id) as [s|] eqn:Hs; [|done].
    destruct (subscribers s !! sub); [|done]. apply put_ok; [done|].
    pose proof (Hf id) as Hi. unfold stream_for in Hi. by rewrite Hs in Hi.
  - unfold publisher_stopped. destruct (f_streams fo !! id) as [s|] eqn:Hs; [|done].
    intros id'. unfold stream_for. cbn. destruct (decide (id' = id)) as [->|].
    + rewrite lookup_delete_eq. by split_and!.
    + rewrite lookup_delete_ne by done. exact (Hf id').
Qed.

Lemma fanout_run_startup_ok ops : forall fo w, fanout_ok fo -> Forall op_typed ops ->
  let '(_, fo', _) := fanout_run fo ops w in fanout_ok fo'.
Proof.
  induction ops as [|op ops IH]; intros fo w Hf Ht; cbn [fanout_run]; [done|].
  apply Forall_cons_1 in Ht as [Ho Ht]. pose proof (fanout_step_ok fo op w Hf Ho) as H1.
  destruct (fanout_step fo op w) as [ [w1 fo1] ev1]. specialize (IH fo1 w1 H1 Ht).
  by destruct (fanout_run fo1 ops w1) as [ [w2 fo2] ev2].
Qed.

Lemma make_fanout_ok g q mw : fanout_ok (make_fanout g q mw).
Proof. intros id. unfold stream_for. cbn. by split_and!. Qed.

Lemma enhanced_bit t : 0 <= t < 256 -> Z.shiftr t 4 = AudioCodec.Aac -> Z.land t 0x80 =? 0 = false.
Proof.
  intros Ht Ha.
  assert (Hall : forallb (fun t => negb (Z.shiftr t 4 =? 10) || negb (Z.land t 128 =? 0))
                   (map Z.of_nat (seq 0 256)) = true) by (vm_compute; reflexivity).
  rewrite forallb_forall in Hall. specialize (Hall t).
  rewrite Ha in Hall. apply negb_true_iff. apply Hall.
  apply List.in_map_iff. exists (Z.to_nat t). split; [lia|]. apply List.in_seq. lia.
Qed.

(** An AAC sequence header never reads as an AVC one: its first nibble sets the bit that
    marks an enhanced video tag. *)
Lemma audio_header_not_video f :
  classify_is_audio_sequence_header f = true -> classify_is_video_sequence_header f = false.
Proof.
  unfold classify_is_audio_sequence_header, classify_is_video_sequence_header,
    classify_audio_tag, classify_video_tag.
  destruct (frame_payload f) as [|b p]; [done|]. cbn [empty]. set (t := tag_byte (b :: p) 0).
  cbn [a_codec]. intros Ha. apply andb_prop in Ha as [Ha _]. apply Z.eqb_eq in Ha.
  assert (Ht : 0 <= t < 256) by apply b2z_range. clearbody t.
  pose proof (enhanced_bit t Ht Ha) as H80.
  rewrite H80. cbn [negb]. destruct (zlen (b :: p) <? 5); cbn [codec]; [done|].
  by destruct (_ =? kVideoFourCcHevc).
Qed.

(** The viewer gauge is the truth: over any history of publishing, subscribing (with ids
    not in use), unsubscribing, evictions by queue or by transport and publisher stops,
    whatever the sinks answer, the changes the hub reports to active_viewers add up to
    the number of subscribers in its tables. *)
Theorem active_viewers_exact g q mw ops w :
  fresh_run (make_fanout g q mw) ops w ->
  let '(_, fo, ev) := fanout_run (make_fanout g q mw) ops w in gauge ev = all_viewers fo.
Proof.
  intros Hf. pose proof (fanout_run_size ops _ w Hf) as H.
  destruct (fanout_run (make_fanout g q mw) ops w) as [ [w' fo] ev]. rewrite H.
  unfold all_viewers at 1. cbn [make_fanout f_streams]. rewrite map_sum_empty. lia.
Qed.

(** What a late joiner is replayed can be decoded: after any history in which video
    operations carry video messages, a new subscriber is called with the stream's metadata,
    its AVC sequence header as video, its AAC sequence header as audio, and then the
    cached GOP, which is empty or begins with a video key frame; in that order. *)
Theorem late_joiner_startup g q mw ops w id :
  Forall op_typed ops ->
  let '(_, fo, _) := fanout_run (make_fanout g q mw) ops w in
  let s := stream_for fo id in
  (forall m, s_metadata s = Some m -> classify_is_video_sequence_header m = false ->
     classify_is_audio_sequence_header m = false -> startup_call m = OnMetadata m) /\
  map fst (startup_calls s)
  = map startup_call (option_list (s_metadata s))
    ++ map OnVideo (option_list (s_video_sequence_header s))
    ++ map OnAudio (option_list (s_audio_sequence_header s))
    ++ map gop_call (frames_ (gop_cache s)) /\
  (forall k, head (frames_ (gop_cache s)) = Some k ->
     classify_is_video_keyframe k = true /\ gop_call k = OnVideo k).
Proof.
  intros Ht. pose proof (fanout_run_startup_ok ops _ w (make_fanout_ok g q mw) Ht) as H.
  destruct (fanout_run (make_fanout g q mw) ops w) as [ [w' fo] ev].
  destruct (H id) as (Hv & Ha & Hg). cbv zeta. split_and!.
  - intros m _ H1 H2. unfold startup_call. by rewrite H1, H2.
  - set (s := stream_for fo id) in *.
    assert (Ev : map startup_call (option_list (s_video_sequence_header s))
               = map OnVideo (option_list (s_video_sequence_header s))).
    { destruct (s_video_sequence_header s) as [v|]; [|done]. cbn. unfold startup_call.
      by rewrite (Hv v eq_refl). }
    assert (Ea : map startup_call (option_list (s_audio_sequence_header s))
               = map OnAudio (option_list (s_audio_sequence_header s))).
    { destruct (s_audio_sequence_header s) as [a|]; [|done]. cbn. unfold startup_call.
      by rewrite (audio_header_not_video a (Ha a eq_refl)), (Ha a eq_refl). }
    unfold startup_calls, startup_headers. rewrite map_app, !map_map. cbn [fst].
    change (map (fun x => startup_call x)) with (map startup_call).
    change (map (fun x => gop_call x)) with (map gop_call).
    by rewrite !map_app, Ev, Ea, <- !app_assoc.
  - intros k Hk. destruct (frames_ (gop_cache (stream_for fo id))) as [|k' fs]; [done|].
    injection Hk as ->. destruct Hg as [Hk Hty]. split; [done|]. unfold gop_call. by rewrite Hty.
Qed.

(** An Enhanced-RTMP HEVC sequence header is treated as a key frame, not as a sequence
    header: it is not retained for late joiners, so once the next key frame opens a GOP
    a new subscriber is never sent the decoder configuration. *)
Theorem hevc_sequence_header_dropped fo id h k r w info :
  classify_video_tag (frame_payload h) = Some info ->
  enhanced info = true -> codec info = VideoCodec.Hevc -> frame_type info = VideoFrameType.KeyFrame ->
  ex_packet_type info = Some ExVideoPacketType.SequenceStart ->
  classify_is_video_keyframe k = true -> classify_is_video_sequence_header k = false -> h <> k ->
  h ∉ startup_headers (stream_for fo id) ->
  let '(w1, fo1, _) := on_video fo id h r w in
  let '(_, fo2, _) := on_video fo1 id k r w1 in
  frames_ (gop_cache (stream_for fo1 id)) = [h] /\
  h ∉ startup_headers (stream_for fo2 id) ++ frames_ (gop_cache (stream_for fo2 id)).
Proof.
  intros Hi _ Hc Ht _ Hk Hks Hne Hnot.
  assert (Hh : classify_is_video_sequence_header h = false)
    by (unfold classify_is_video_sequence_header; by rewrite Hi, Hc).
  assert (Hhk : classify_is_video_keyframe h = true)
    by (unfold classify_is_video_keyframe; by rewrite Hi, Hc, Ht).
  unfold on_video at 1. rewrite Hh, Hhk.
  match goal with |- context [dispatch_frame fo id ?s h true false true false r w] =>
    pose proof (dispatch_frame_startup fo id s h true false true false r w) as H1 end.
  destruct (dispatch_frame fo id _ h _ _ _ _ _ _) as [ [w1 fo1] ev1].
  destruct H1 as (s1 & -> & E1). unfold on_video. rewrite Hks, Hk.
  match goal with |- context [dispatch_frame ?fo0 id ?s k true false true false r w1] =>
    pose proof (dispatch_frame_startup fo0 id s k true false true false r w1) as H2 end.
  destruct (dispatch_frame (put_stream fo id s1) id _ k _ _ _ _ _ _) as [ [w2 fo2] ev2].
  destruct H2 as (s2 & -> & E2). rewrite !stream_for_put, !decide_True in * by done.
  unfold startup_state in *. injection E1 as E1a E1b E1c E1d. injection E2 as E2a E2b E2c E2d.
  unfold startup_headers in *. rewrite E2a, E2b, E2c, E2d, E1a, E1b, E1c, E1d. cbn. set_solver.
Qed.

End LiveFanout.

(** * Concrete runs *)

(** Sinks that log their calls; those of an odd number refuse every frame. *)
Definition log_sink (sink : Z) (c : SinkCall) (log : list (Z * SinkCall))
    : list (Z * SinkCall) * bool := (log ++ [(sink, c)], Z.even sink).

Definition avc_frame (l : list Z) : SharedMediaFrame := mkFrame (map z2b l) MessageTypeId.Video 0.
Definition sample_history : list (@FanoutOp Z) :=
  [Video 7 (avc_frame [0x17; 0; 0; 0; 0]) false; Video 7 (avc_frame [0x17; 1; 0; 0; 0; 9]) false;
   Subscribe 7 1 10 ""; Subscribe 7 2 11 "";
   Audio 7 (mkFrame (map z2b [0xAF; 0; 0x12; 0x10]) 8 0) false;
   Video 7 (avc_frame [0x27; 1; 0; 0; 0; 8]) false; Video 7 (avc_frame [0x27; 1; 0; 0; 0; 8]) false;
   Unsubscribe 7 1; Subscribe 7 3 12 ""].

Lemma active_viewers_exact_witness :
  let '(_, fo, ev) := fanout_run log_sink
    (make_fanout default_gop_limits default_queue_limits 2) sample_history [] in
  gauge ev = all_viewers fo.
Proof.
  apply (active_viewers_exact log_sink default_gop_limits default_queue_limits 2 sample_history []).
  vm_compute. tauto.
Defined.

Lemma late_joiner_startup_witness :
  let '(_, fo, _) := fanout_run log_sink
    (make_fanout default_gop_limits default_queue_limits 2) sample_history [] in
  map fst (startup_calls (stream_for fo 7))
  = [OnVideo (avc_frame [0x17; 0; 0; 0; 0]);
     OnAudio (mkFrame (map z2b [0xAF; 0; 0x12; 0x10]) 8 0);
     OnVideo (avc_frame [0x17; 1; 0; 0; 0; 9]); OnVideo (avc_frame [0x27; 1; 0; 0; 0; 8]);
     OnVideo (avc_frame [0x27; 1; 0; 0; 0; 8])].
Proof.
  assert (Ht : Forall op_typed sample_history).
  { repeat (apply List.Forall_cons; [vm_compute; tauto|]). apply List.Forall_nil. }
  pose proof (late_joiner_startup log_sink default_gop_limits default_queue_limits 2
    sample_history [] 7 Ht) as H.
  destruct (fanout_run _ _ _ _) as [ [w fo] ev] eqn:Hrun. destruct H as (_ & H & _). rewrite H.
  vm_compute in Hrun. injection Hrun as _ <- _. vm_compute. reflexivity.
Defined.

Definition hevc_header : SharedMediaFrame := avc_frame [0x90; 104; 118; 99; 49; 1].
Definition hevc_keyframe : SharedMediaFrame := avc_frame [0x91; 104; 118; 99; 49; 2].

Lemma hevc_sequence_header_dropped_witness :
  let fo := make_fanout default_gop_limits default_queue_limits 2 in
  let '(w1, fo1, _) := on_video log_sink fo 7 hevc_header false [] in
  let '(_, fo2, _) := on_video log_sink fo1 7 hevc_keyframe false w1 in
  frames_ (gop_cache (stream_for fo1 7)) = [hevc_header] /\
  hevc_header ∉ startup_headers (stream_for fo2 7) ++ frames_ (gop_cache (stream_for fo2 7)).
Proof.
  refine (hevc_sequence_header_dropped log_sink
    (make_fanout default_gop_limits default_queue_limits 2) 7 hevc_header hevc_keyframe false []
    _ _ _ _ _ _ _ _ _ _); try (vm_compute; reflexivity); vm_compute; [discriminate|].
  by intros ?%not_elem_of_nil.
Defined.
