(* ===== verification/HubContract.v ===== *)
(** The contract between the fan-out hub and the owners of the sinks it calls.

    [SinkOwner] is what the hub needs of the owner: which sinks are alive for which
    stream, and that a call to a live sink kills at most that sink, and only by a
    terminal call (publisher stopped, slow client evicted).  Against it the hub is
    shown to keep its side: it only ever calls live sinks, a terminal call only
    reaches a sink that has left every table, and what stays subscribed stays
    alive.  CommandSession.v's relays implement the class in SessionSafety.v. *)

From S2P Require Import Prelude Chunk ViewerQueue GopCache MediaIngest LiveFanout.

Definition terminal (c : SinkCall) : bool :=
  match c with OnPublisherStopped | OnSlowClientEvicted => true | _ => false end.

Class SinkOwner {Sink W : Type} (invoke : Sink -> SinkCall -> W -> W * bool) := {
  (** The sink is a live object that plays this stream. *)
  serves : Z -> Sink -> W -> Prop;
  (** No call has reached a dead sink. *)
  sound : W -> Prop;
  (** The subscriber id a sink is registered under. *)
  sink_key : Sink -> Z;
  serves_unique : forall id id' sink w, serves id sink w -> serves id' sink w -> id = id';
  invoke_sound : forall id sink c w, serves id sink w -> sound w -> sound (invoke sink c w).1;
  invoke_serves : forall id sink c w id' sink', serves id sink w -> serves id' sink' w ->
    sink' <> sink \/ terminal c = false -> serves id' sink' (invoke sink c w).1
}.

Section Contract.
Context {Sink W : Type} `{EqDecision Sink} (invoke : Sink -> SinkCall -> W -> W * bool).
Context `{!SinkOwner invoke}.

Definition tab_sub (t : gmap Z (@Subscriber Sink)) (sub : Z) (sink : Sink) : Prop :=
  exists s, t !! sub = Some s /\ sub_sink s = sink.
Definition subscribed (fo : @LiveFanout Sink) (id sub : Z) (sink : Sink) : Prop :=
  exists st, f_streams fo !! id = Some st /\ tab_sub (subscribers st) sub sink.

Definition hub_ok (fo : @LiveFanout Sink) (w : W) : Prop :=
  sound w /\ forall id sub sink, subscribed fo id sub sink -> sub = sink_key sink /\ serves id sink w.

(** The subscriptions of a hub only shrink. *)
Definition shrinks (fo fo' : @LiveFanout Sink) : Prop :=
  forall id sub sink, subscribed fo' id sub sink -> subscribed fo id sub sink.

Lemma subscribed_put fo id s id' sub sink :
  subscribed (put_stream fo id s) id' sub sink <->
  if decide (id' = id) then tab_sub (subscribers s) sub sink else subscribed fo id' sub sink.
Proof.
  unfold subscribed, put_stream. cbn. destruct (decide (id' = id)) as [->|Hne].
  - rewrite lookup_insert_eq. split; [by intros (st & [= <-] & H)|]. intros H. by exists s.
  - by rewrite lookup_insert_ne.
Qed.

Lemma subscribed_for fo id sub sink :
  tab_sub (subscribers (stream_for fo id)) sub sink <-> subscribed fo id sub sink.
Proof.
  unfold subscribed, stream_for. destruct (f_streams fo !! id) as [st|]; cbn.
  - split; [by exists st|]. by intros (st' & [= <-] & H).
  - split; [|by intros (st & H & _)]. intros (s & Hs & _). by rewrite lookup_empty in Hs.
Qed.

Lemma tab_sub_insert t k s sub sink : tab_sub t k (sub_sink s) ->
  tab_sub (<[k:=s]> t) sub sink -> tab_sub t sub sink.
Proof.
  intros Hk (s' & Hs & He). apply lookup_insert_Some in Hs as [ [<- <-]|[_ Hs] ].
  - by rewrite <- He.
  - by exists s'.
Qed.

Lemma tab_sub_delete t k sub sink : tab_sub (delete k t) sub sink -> tab_sub t sub sink /\ sub <> k.
Proof. intros (s & Hs & He). apply lookup_delete_Some in Hs as [Hne Hs]. split; [by exists s|done]. Qed.

(** ** A batch of calls *)

(** Calls to live sinks, the terminal ones to sinks outside [Q] and at most once. *)
Lemma invoke_keeps (Q : Z -> Sink -> Prop) id sink c w :
  sound w -> serves id sink w -> (forall id' sink', Q id' sink' -> serves id' sink' w) ->
  (terminal c = true -> forall id', ~ Q id' sink) ->
  sound (invoke sink c w).1 /\ forall id' sink', Q id' sink' -> serves id' sink' (invoke sink c w).1.
Proof.
  intros Hs Hv Hq Ht. split; [by eapply invoke_sound|]. intros id' sink' HQ.
  eapply invoke_serves; [done|by apply Hq|]. destruct (terminal c); [|by right].
  left. intros ->. by eapply Ht.
Qed.

(** ** dispatch_locked *)

Definition delivery_from (t : gmap Z (@Subscriber Sink)) (d : @PendingDelivery Sink) : Prop :=
  tab_sub t (pd_subscriber_id d) (pd_sink d).

Lemma dispatch_one_shape (s : @StreamState Sink) id f v a k i sub :
  let '(kept, delivery, _) := dispatch_one s id f v a k i sub in
  (forall sub', kept = Some sub' -> sub_sink sub' = sub_sink sub) /\
  (forall d, delivery = Some d -> pd_subscriber_id d = i /\ pd_sink d = sub_sink sub /\
     (is_evict (pd_kind d) = true -> kept = None)).
Proof.
  unfold dispatch_one. destruct (offer _ _ _ _ _) as [q []];
    split; intros ? [= <-]; cbn; split_and?; try done; by destruct v, a.
Qed.

Lemma dispatch_loop_shape (s : @StreamState Sink) id f v a k todo : forall table,
  NoDup (map fst todo) ->
  (forall i sub, (i, sub) ∈ todo -> table !! i = Some sub) ->
  let '(table', ds, _) := dispatch_loop s id f v a k todo table in
  (forall sub sink, tab_sub table' sub sink -> tab_sub table sub sink) /\
  (forall i, i ∉ map fst todo -> table' !! i = table !! i) /\
  NoDup (map pd_subscriber_id ds) /\
  (forall d, d ∈ ds -> pd_subscriber_id d ∈ map fst todo /\ delivery_from table d /\
     (is_evict (pd_kind d) = true -> table' !! pd_subscriber_id d = None)).
Proof.
  induction todo as [|[i sub] todo IH]; intros table Hnd Hin; cbn [dispatch_loop].
  { split_and!; [done|done|constructor|]. intros d Hd. by apply elem_of_nil in Hd. }
  cbn [map fst] in *. apply list.NoDup_cons in Hnd as [Hi Hnd].
  pose proof (dispatch_one_shape s id f v a k i sub) as Hone.
  destruct (dispatch_one s id f v a k i sub) as [ [kept delivery] ev].
  destruct Hone as [Hkept Hdel].
  assert (Hsub : table !! i = Some sub) by (apply Hin; set_solver).
  set (table1 := match kept with Some sub1 => <[i:=sub1]> table | None => delete i table end).
  assert (Hne : forall j sub1, (j, sub1) ∈ todo -> j <> i).
  { intros j sub1 Hj ->. apply Hi, list_elem_of_fmap. by exists (i, sub1). }
  assert (H1 : forall j, j <> i -> table1 !! j = table !! j).
  { intros j Hj. subst table1. destruct kept; by rewrite ?lookup_insert_ne, ?lookup_delete_ne. }
  assert (Hfrom : forall j sink, tab_sub table1 j sink -> tab_sub table j sink).
  { intros j sink Hj. subst table1. destruct kept as [sub1|].
    - apply (tab_sub_insert table i sub1); [|done]. exists sub. by rewrite (Hkept _ eq_refl).
    - by apply tab_sub_delete in Hj as [Hj _]. }
  specialize (IH table1 Hnd). destruct (dispatch_loop s id f v a k todo table1) as [ [table' ds] evs].
  destruct IH as (I1 & I2 & I3 & I4).
  { intros j sub1 Hj. rewrite H1 by (by eapply Hne). apply Hin. set_solver. }
  split_and!.
  - intros j sink Hj. by apply Hfrom, I1.
  - intros j Hj. rewrite I2 by set_solver. apply H1. set_solver.
  - destruct delivery as [d|]; cbn [option_list app map]; [|done]. apply list.NoDup_cons.
    split; [|done]. destruct (Hdel d eq_refl) as (-> & _). intros Hd.
    apply list_elem_of_fmap in Hd as (d' & Hd' & Hin'). destruct (I4 d' Hin') as (Hm & _).
    by rewrite <- Hd' in Hm.
  - intros d Hd. apply elem_of_app in Hd as [Hd|Hd].
    + destruct delivery as [d'|]; [|by apply elem_of_nil in Hd]. apply list_elem_of_singleton in Hd as ->.
      destruct (Hdel d' eq_refl) as (E1 & E2 & E3). unfold delivery_from. rewrite E1.
      split_and!; [set_solver|by exists sub|].
      intros He. rewrite I2 by done. subst table1. rewrite (E3 He). apply lookup_delete_eq.
    + destruct (I4 d Hd) as (Hm & Hdf & He). split_and!; [set_solver|by apply Hfrom|done].
Qed.

(** ** run_deliveries *)

Lemma deliver_resend_keeps (Q : Z -> Sink -> Prop) id sink call fr w :
  (forall g, terminal (call g) = false) ->
  sound w -> serves id sink w -> (forall id' sink', Q id' sink' -> serves id' sink' w) ->
  let w' := (resend invoke sink call fr w).1 in
  sound w' /\ serves id sink w' /\ forall id' sink', Q id' sink' -> serves id' sink' w'.
Proof.
  intros Ht Hs Hv Hq. unfold resend. destruct fr as [g|]; [|done].
  pose proof (invoke_keeps (fun id' sink' => Q id' sink' \/ (id' = id /\ sink' = sink)) id sink (call g) w
    Hs Hv) as Hk.
  destruct (invoke sink (call g) w) as [w1 ok]. cbn [fst] in *. destruct Hk as [H1 H2].
  - intros id' sink' [H|[-> ->] ]; auto.
  - by rewrite Ht.
  - split_and!; [done|apply H2; by right|]. intros id' sink' H. apply H2. by left.
Qed.

(** The later deliveries of a batch go on being live, whatever the earlier ones do. *)
Lemma deliver_all_keeps (Q : Z -> Sink -> Prop) f id ds : forall w,
  sound w -> (forall id' sink', Q id' sink' -> serves id' sink' w) ->
  (forall d, d ∈ ds -> serves id (pd_sink d) w /\ (is_evict (pd_kind d) = true -> forall id', ~ Q id' (pd_sink d))) ->
  NoDup (map (@pd_sink Sink) ds) ->
  let w' := (deliver_all invoke f ds w).1 in
  sound w' /\ forall id' sink', Q id' sink' -> serves id' sink' w'.
Proof.
  induction ds as [|d ds IH]; intros w Hs Hq Hds Hnd; cbn [deliver_all]; [done|].
  cbn [map] in Hnd. apply list.NoDup_cons in Hnd as [Hd Hnd].
  destruct (Hds d) as [Hv Hev]; [set_solver|].
  set (Q' := fun id' sink' => Q id' sink' \/ (id' = id /\ sink' ∈ map (@pd_sink Sink) ds)).
  assert (Hq' : forall id' sink', Q' id' sink' -> serves id' sink' w).
  { intros id' sink' [H|[-> H] ]; [auto|]. apply list_elem_of_fmap in H as (d' & -> & H).
    apply Hds. set_solver. }
  unfold deliver_one.
  pose proof (deliver_resend_keeps Q' id (pd_sink d) OnVideo (resend_video_seq_header d) w
    (fun _ => eq_refl) Hs Hv Hq') as (S1 & V1 & K1).
  destruct (resend invoke (pd_sink d) OnVideo _ w) as [w1 b1]. cbn [fst] in *.
  pose proof (deliver_resend_keeps Q' id (pd_sink d) OnAudio (resend_audio_seq_header d) w1
    (fun _ => eq_refl) S1 V1 K1) as (S2 & V2 & K2).
  destruct (resend invoke (pd_sink d) OnAudio _ w1) as [w2 b2]. cbn [fst] in *.
  destruct (invoke_keeps Q' id (pd_sink d) (frame_call (pd_kind d) f) w2 S2 V2 K2) as [S3 K3].
  { intros Ht id' [HQ|[-> HQ] ]; [|done]. apply (Hev ltac:(by destruct (pd_kind d)) id' HQ). }
  destruct (invoke (pd_sink d) (frame_call (pd_kind d) f) w2) as [w3 ok]. cbn [fst] in *.
  specialize (IH w3 S3). destruct (is_evict (pd_kind d)); cbn [fst];
    destruct (deliver_all invoke f ds w3) as [w4 [bs results] ]; cbn [fst] in *;
    (apply IH; [intros; apply K3; by left| |done]; intros d' Hd'; split;
     [apply K3; right; split; [done|]; by apply list_elem_of_fmap_2|]; apply Hds; set_solver).
Qed.

Lemma deliver_all_results f ds : forall w,
  map fst (deliver_all invoke f ds w).2.2 = ds.
Proof.
  induction ds as [|d ds IH]; intros w; cbn [deliver_all]; [done|].
  destruct (deliver_one invoke f d w) as [w1 [b ok] ]. specialize (IH w1).
  destruct (deliver_all invoke f ds w1) as [w2 [bs results] ]. cbn in *. by rewrite IH.
Qed.

(** The sinks given up on leave the table, each once. *)
Lemma fold_results_shape mw (results : list (@PendingDelivery Sink * bool)) : forall table,
  (forall sub sink, tab_sub table sub sink -> sub = sink_key sink) ->
  let '(table', sinks, _) := fold_results mw results table in
  (forall sub sink, tab_sub table' sub sink -> tab_sub table sub sink) /\
  NoDup sinks /\
  (forall sink, sink ∈ sinks -> tab_sub table (sink_key sink) sink /\ table' !! sink_key sink = None).
Proof.
  induction results as [|[d ok] results IH]; intros table Hkey; cbn [fold_results].
  { split_and!; [done|constructor|]. intros sink Hs. by apply elem_of_nil in Hs. }
  cbv zeta. destruct (is_evict _); [by apply IH|].
  destruct (table !! pd_subscriber_id d) as [sub|] eqn:Hsub; [|by apply IH].
  destruct (negb _); [by apply IH|]. set (i := pd_subscriber_id d) in *.
  assert (Hins : forall n j sink, tab_sub (<[i:=with_drops sub n]> table) j sink -> tab_sub table j sink).
  { intros n j sink. apply tab_sub_insert. by exists sub. }
  assert (Hstep : forall n, let '(table', sinks, _) :=
      fold_results mw results (<[i:=with_drops sub n]> table) in
    (forall j sink, tab_sub table' j sink -> tab_sub table j sink) /\ NoDup sinks /\
    (forall sink, sink ∈ sinks -> tab_sub table (sink_key sink) sink /\ table' !! sink_key sink = None)).
  { intros n. specialize (IH (<[i:=with_drops sub n]> table)).
    destruct (fold_results mw results _) as [ [table' sinks] evs].
    destruct IH as (I1 & I2 & I3); [intros j sink Hj; by eapply Hkey, Hins|].
    split_and!; [intros j sink Hj; by eapply Hins, I1|done|].
    intros sink Hs. destruct (I3 sink Hs) as [H1 H2]. split; [by eapply Hins|done]. }
  destruct ok; [apply Hstep|]. destruct (mw <? u64 (consecutive_transport_drops sub + 1)).
  - specialize (IH (delete i table)).
    destruct (fold_results mw results (delete i table)) as [ [table' sinks] evs].
    destruct IH as (I1 & I2 & I3); [intros j sink Hj; apply tab_sub_delete in Hj as [Hj _]; by apply Hkey|].
    assert (Hi : i = sink_key (sub_sink sub)) by (apply Hkey; by exists sub).
    split_and!.
    + intros j sink Hj. by apply I1, tab_sub_delete in Hj as [Hj _].
    + apply list.NoDup_cons. split; [|done]. intros Hs. destruct (I3 _ Hs) as [Ht _].
      apply tab_sub_delete in Ht as [_ Hne]. by rewrite Hi in Hne.
    + intros sink Hs. apply elem_of_cons in Hs as [->|Hs].
      * rewrite <- Hi. split; [by exists sub|].
        destruct (table' !! i) as [s'|] eqn:Hs'; [|done].
        assert (tab_sub table' i (sub_sink s')) as Ht by by exists s'.
        by apply I1, tab_sub_delete in Ht as [_ ?].
      * destruct (I3 sink Hs) as [Ht Hn]. apply tab_sub_delete in Ht as [Ht _]. done.
  - specialize (Hstep (u64 (consecutive_transport_drops sub + 1))).
    by destruct (fold_results mw results _) as [ [table' sinks] evs].
Qed.

Lemma evict_all_keeps (Q : Z -> Sink -> Prop) id sinks : forall w,
  sound w -> (forall id' sink', Q id' sink' -> serves id' sink' w) ->
  (forall sink, sink ∈ sinks -> serves id sink w /\ forall id', ~ Q id' sink) -> NoDup sinks ->
  let w' := (evict_all invoke id sinks w).1 in
  sound w' /\ forall id' sink', Q id' sink' -> serves id' sink' w'.
Proof.
  induction sinks as [|sink sinks IH]; intros w Hs Hq Hds Hnd; cbn [evict_all]; [done|].
  apply list.NoDup_cons in Hnd as [Hd Hnd]. destruct (Hds sink) as [Hv HnQ]; [set_solver|].
  destruct (invoke_keeps (fun id' sink' => Q id' sink' \/ (id' = id /\ sink' ∈ sinks)) id sink
    OnSlowClientEvicted w Hs Hv) as [S1 K1].
  { intros id' sink' [H|[-> H] ]; [auto|]. apply Hds. set_solver. }
  { intros _ id' [H|[_ H] ]; [by eapply HnQ|done]. }
  destruct (invoke sink OnSlowClientEvicted w) as [w1 b]. cbn [fst] in *.
  specialize (IH w1 S1). destruct (evict_all invoke id sinks w1) as [w2 evs]. cbn [fst] in *.
  apply IH; [intros; apply K1; by left| |done]. intros sink' Hs'. split.
  - apply K1. by right.
  - apply Hds. set_solver.
Qed.

(** ** The operations *)

Lemma hub_ok_keys fo w id : hub_ok fo w ->
  forall sub sink, tab_sub (subscribers (stream_for fo id)) sub sink ->
  sub = sink_key sink /\ serves id sink w.
Proof. intros [_ Hok] sub sink Ht. by apply Hok, subscribed_for. Qed.

(** The subscriptions of the hub when stream [id] has table [t]. *)
Definition view (fo : @LiveFanout Sink) (id : Z) (t : gmap Z (@Subscriber Sink)) (id' : Z)
    (sink : Sink) : Prop :=
  if decide (id' = id) then tab_sub t (sink_key sink) sink
  else subscribed fo id' (sink_key sink) sink.

(** A sink of stream [id] that has left the table is in no view. *)
Lemma not_in_view fo w id t sink :
  hub_ok fo w -> serves id sink w -> t !! sink_key sink = None -> forall id', ~ view fo id t id' sink.
Proof.
  intros [_ Hok] Hv Hn id'. unfold view. destruct (decide (id' = id)) as [->|Hne].
  - intros (s & Hs & _). congruence.
  - intros HQ. apply Hok in HQ as [_ HQ]. apply Hne. by eapply serves_unique.
Qed.

Lemma view_serves fo w id t :
  hub_ok fo w -> (forall sub sink, tab_sub t sub sink -> tab_sub (subscribers (stream_for fo id)) sub sink) ->
  forall id' sink, view fo id t id' sink -> serves id' sink w.
Proof.
  intros Hok Ht id' sink. unfold view. destruct (decide (id' = id)) as [->|].
  - intros Hs. apply Ht in Hs. by apply (hub_ok_keys fo w id Hok) in Hs as [_ Hs].
  - intros Hs. by apply Hok in Hs as [_ Hs].
Qed.

(** The decisions of one frame and the callbacks they queue. *)
Lemma dispatch_deliver_keeps fo id s f v a k w :
  subscribers s = subscribers (stream_for fo id) -> hub_ok fo w ->
  let '(t, ds, _) := dispatch_loop s id f v a k (map_to_list (subscribers s)) (subscribers s) in
  (forall sub sink, tab_sub t sub sink -> tab_sub (subscribers s) sub sink) /\
  let w1 := (deliver_all invoke f ds w).1 in
  sound w1 /\ forall id' sink, view fo id t id' sink -> serves id' sink w1.
Proof.
  intros Hsubs Hok. pose proof (hub_ok_keys fo w id Hok) as Hkeys. rewrite <- Hsubs in Hkeys.
  pose proof (dispatch_loop_shape s id f v a k (map_to_list (subscribers s)) (subscribers s)) as H1.
  destruct (dispatch_loop _ _ _ _ _ _ _ _) as [ [t ds] ev].
  destruct H1 as (A1 & _ & A3 & A4);
    [apply NoDup_fst_map_to_list|intros i sub; apply elem_of_map_to_list|].
  split; [done|].
  assert (Hd : forall d, d ∈ ds -> pd_subscriber_id d = sink_key (pd_sink d) /\ serves id (pd_sink d) w).
  { intros d Hd. destruct (A4 d Hd) as (_ & Hf & _). by apply Hkeys. }
  apply (deliver_all_keeps (view fo id t) f id ds w).
  - apply Hok.
  - apply view_serves; [done|]. by rewrite <- Hsubs.
  - intros d Hdd. destruct (A4 d Hdd) as (_ & _ & He). destruct (Hd d Hdd) as [Hk Hv].
    split; [done|]. intros Hev. apply (not_in_view fo w); [done..|]. rewrite <- Hk. by apply He.
  - apply (NoDup_fmap_1 sink_key).
    assert (Hm : sink_key <$> map pd_sink ds = map pd_subscriber_id ds); [|by rewrite Hm].
    clear -Hd. induction ds as [|d ds IH]; [done|]. cbn. f_equal.
    + destruct (Hd d) as [<- _]; [set_solver|done].
    + apply IH. intros d' Hd'. apply Hd. set_solver.
Qed.

Lemma hub_ok_put fo id s w :
  sound w -> (forall sub sink, tab_sub (subscribers s) sub sink -> sub = sink_key sink) ->
  (forall id' sub sink, subscribed fo id' sub sink -> sub = sink_key sink) ->
  (forall id' sink, view fo id (subscribers s) id' sink -> serves id' sink w) ->
  hub_ok (put_stream fo id s) w.
Proof.
  intros Hs Hk1 Hk2 Hv. split; [done|]. intros id' sub sink Hsub. apply subscribed_put in Hsub.
  assert (sub = sink_key sink) as -> by (case_decide; eauto).
  split; [done|]. apply Hv. unfold view. by case_decide.
Qed.

(** One frame through one stream: everything stays live, the table only shrinks. *)
Lemma dispatch_frame_keeps fo id s f v a k st r w :
  subscribers s = subscribers (stream_for fo id) -> hub_ok fo w ->
  let '(w', fo', _) := dispatch_frame invoke fo id s f v a k st r w in
  hub_ok fo' w' /\ shrinks fo fo'.
Proof.
  intros Hsubs Hok. pose proof (hub_ok_keys fo w id Hok) as Hkeys. rewrite <- Hsubs in Hkeys.
  unfold dispatch_frame, dispatch_locked.
  pose proof (dispatch_deliver_keeps fo id s f v a k w Hsubs Hok) as H1.
  destruct (dispatch_loop _ _ _ _ _ _ _ _) as [ [t1 ds] ev1]. destruct H1 as (A1 & S1 & K1).
  unfold run_deliveries. destruct (deliver_all invoke f ds w) as [w1 [bytes results] ]. cbn [fst] in *.
  cbn [subscribers with_subscribers].
  pose proof (fold_results_shape (f_max_waiting fo) results t1) as H3.
  destruct (fold_results (f_max_waiting fo) results t1) as [ [t2 sinks] ev2].
  destruct H3 as (B1 & B2 & B3); [intros sub sink Ht; by apply Hkeys, A1|].
  pose proof (evict_all_keeps (view fo id t2) id sinks w1 S1) as H4.
  destruct (evict_all invoke id sinks w1) as [w2 ev3]. cbn [fst] in H4. destruct H4 as [S2 K2].
  { intros id' sink HQ. apply K1. unfold view in *. destruct (decide (id' = id)); [by apply B1|done]. }
  { intros sink Hsk. destruct (B3 sink Hsk) as [Ht Hn]. split.
    - apply K1. unfold view. by rewrite decide_True.
    - apply (not_in_view fo w); [done| |done]. apply A1 in Ht. by apply Hkeys in Ht as [_ ?]. }
  { done. }
  pose proof (add_egress_gauge (with_subscribers (with_subscribers s t1) t2) bytes) as [_ E].
  destruct (add_egress _ bytes) as [s' ev4]. cbn [fst subscribers with_subscribers] in E. split.
  - apply hub_ok_put; rewrite ?E; [done| | |done].
    + intros sub sink Ht. by apply Hkeys, A1, B1.
    + intros id' sub sink Hsub. by apply Hok in Hsub as [? _].
  - intros id' sub sink Hsub. apply subscribed_put in Hsub. rewrite E in Hsub.
    case_decide as Hid; [|done]. subst id'. apply subscribed_for. rewrite <- Hsubs. by apply A1, B1.
Qed.

(** ** The hub's operations, for its clients *)

Definition keeps (fo : @LiveFanout Sink) (r : W * @LiveFanout Sink * list FanoutEvent) : Prop :=
  hub_ok r.1.2 r.1.1 /\ shrinks fo r.1.2.

Lemma dispatch_frame_keeps' fo id s f v a k st r w :
  subscribers s = subscribers (stream_for fo id) -> hub_ok fo w ->
  keeps fo (dispatch_frame invoke fo id s f v a k st r w).
Proof.
  intros Hs Hok. pose proof (dispatch_frame_keeps fo id s f v a k st r w Hs Hok) as H.
  by destruct (dispatch_frame _ _ _ _ _ _ _ _ _ _ _) as [ [w' fo'] ev].
Qed.

Lemma on_video_keeps fo id f r w : hub_ok fo w -> keeps fo (on_video invoke fo id f r w).
Proof. intros Hok. unfold on_video. case_match; by apply dispatch_frame_keeps'. Qed.

Lemma on_audio_keeps fo id f r w : hub_ok fo w -> keeps fo (on_audio invoke fo id f r w).
Proof. intros Hok. unfold on_audio. case_match; by apply dispatch_frame_keeps'. Qed.

Lemma on_metadata_keeps fo id f r w : hub_ok fo w -> keeps fo (on_metadata invoke fo id f r w).
Proof. intros Hok. by apply dispatch_frame_keeps'. Qed.

Lemma replay_keeps (Q : Z -> Sink -> Prop) id sink calls : forall w,
  Forall (fun c => terminal (fst c) = false) calls ->
  sound w -> serves id sink w -> (forall id' sink', Q id' sink' -> serves id' sink' w) ->
  let w' := (replay invoke sink calls w).1 in
  sound w' /\ serves id sink w' /\ forall id' sink', Q id' sink' -> serves id' sink' w'.
Proof.
  induction calls as [|[c n] calls IH]; intros w Hc Hs Hv Hq; cbn [replay]; [done|].
  apply Forall_cons_1 in Hc as [Hc Hcs]. cbn [fst] in Hc.
  destruct (invoke_keeps (fun id' sink' => Q id' sink' \/ (id' = id /\ sink' = sink)) id sink c w Hs Hv)
    as [H1 H2]; [intros id' sink' [H|[-> ->] ]; auto|by rewrite Hc|].
  destruct (invoke sink c w) as [w1 ok]. cbn [fst] in *. specialize (IH w1 Hcs H1).
  destruct (replay invoke sink calls w1) as [w2 b]. cbn [fst] in *.
  apply IH; [apply H2; by right|]. intros id' sink' H. apply H2. by left.
Qed.

Lemma startup_calls_not_terminal (s : @StreamState Sink) :
  Forall (fun c => terminal (fst c) = false) (startup_calls s).
Proof.
  unfold startup_calls. apply Forall_app_2; apply Forall_map, List.Forall_forall;
    intros f _; cbn; unfold startup_call, gop_call; repeat case_match; done.
Qed.

(** A live sink under its own key joins the hub. *)
Lemma subscribe_keeps fo id sink ip w :
  hub_ok fo w -> serves id sink w ->
  let r := subscribe invoke fo id (sink_key sink) sink ip w in
  hub_ok r.1.2 r.1.1 /\
  (forall id' sub sink', subscribed r.1.2 id' sub sink' ->
     subscribed fo id' sub sink' \/ (id' = id /\ sub = sink_key sink /\ sink' = sink)).
Proof.
  intros Hok Hv. unfold subscribe.
  set (t := match subscribers (stream_for fo id) !! sink_key sink with Some _ => _ | None => _ end).
  assert (Ht : forall sub sink', tab_sub t sub sink' ->
    tab_sub (subscribers (stream_for fo id)) sub sink' \/ (sub = sink_key sink /\ sink' = sink)).
  { intros sub sink' Hs. subst t. destruct (subscribers (stream_for fo id) !! sink_key sink) eqn:E; [by left|].
    destruct Hs as (s' & Hs & He). apply lookup_insert_Some in Hs as [ [<- <-]|[_ Hs] ]; [by right|].
    left. by exists s'. }
  set (s := with_subscribers (stream_for fo id) t).
  destruct (replay_keeps (fun id' sink' => exists sub, subscribed fo id' sub sink') id sink
    (startup_calls s) w) as (S1 & V1 & K1); [apply startup_calls_not_terminal|apply Hok|done| |].
  { intros id' sink' [sub Hsub]. by apply Hok in Hsub as [_ ?]. }
  destruct (replay invoke sink (startup_calls s) w) as [w1 bytes]. cbn [fst] in *.
  pose proof (add_egress_gauge s bytes) as [_ E]. destruct (add_egress s bytes) as [s' ev].
  cbn [fst snd] in *. subst s. cbn [subscribers with_subscribers] in E.
  assert (Hsub : forall id' sub sink', subscribed (put_stream fo id s') id' sub sink' ->
    subscribed fo id' sub sink' \/ (id' = id /\ sub = sink_key sink /\ sink' = sink)).
  { intros id' sub sink' H. apply subscribed_put in H. rewrite E in H. case_decide as Hid; [|by left].
    subst id'. apply Ht in H as [H|[-> ->] ]; [left; by apply subscribed_for|by right]. }
  split; [|done]. split; [done|]. intros id' sub sink' H.
  apply Hsub in H as [H|(-> & -> & ->)]; [|done].
  split; [by apply Hok in H as [? _]|]. apply K1. by exists sub.
Qed.

Lemma unsubscribe_shrinks fo id sub :
  let fo' := (unsubscribe fo id sub).1 in
  shrinks fo fo' /\ forall sink, ~ subscribed fo' id sub sink.
Proof.
  unfold unsubscribe. destruct (f_streams fo !! id) as [s|] eqn:Hst; cbn [fst].
  2: { split; [by intros ???|]. intros sink (st & Hs & _). congruence. }
  destruct (subscribers s !! sub) as [e|] eqn:He; cbn [fst].
  2: { split; [by intros ???|]. intros sink (st & Hs & e & He' & _). congruence. }
  assert (Hs : stream_for fo id = s) by (unfold stream_for; by rewrite Hst). split.
  - intros id' sub' sink H. apply subscribed_put in H. case_decide as Hid; [subst id'|done].
    apply tab_sub_delete in H as [H _]. apply subscribed_for. by rewrite Hs.
  - intros sink H. apply subscribed_put in H. rewrite decide_True in H by done.
    by apply tab_sub_delete in H as [_ ?].
Qed.

Lemma hub_ok_shrinks fo fo' w : hub_ok fo w -> shrinks fo fo' -> hub_ok fo' w.
Proof. intros [Hs Hok] Hsh. split; [done|]. intros id sub sink H. by apply Hok, Hsh. Qed.

Lemma notify_all_keeps (Q : Z -> Sink -> Prop) id sinks : forall w,
  sound w -> (forall id' sink', Q id' sink' -> serves id' sink' w) ->
  (forall sink, sink ∈ sinks -> serves id sink w /\ forall id', ~ Q id' sink) -> NoDup sinks ->
  let w' := notify_all invoke sinks w in
  sound w' /\ forall id' sink', Q id' sink' -> serves id' sink' w'.
Proof.
  induction sinks as [|sink sinks IH]; intros w Hs Hq Hds Hnd; cbn [notify_all]; [done|].
  apply list.NoDup_cons in Hnd as [Hd Hnd]. destruct (Hds sink) as [Hv HnQ]; [set_solver|].
  destruct (invoke_keeps (fun id' sink' => Q id' sink' \/ (id' = id /\ sink' ∈ sinks)) id sink
    OnPublisherStopped w Hs Hv) as [S1 K1].
  { intros id' sink' [H|[-> H] ]; [auto|]. apply Hds. set_solver. }
  { intros _ id' [H|[_ H] ]; [by eapply HnQ|done]. }
  apply IH; [done|intros; apply K1; by left| |done]. intros sink' Hs'. split.
  - apply K1. by right.
  - apply Hds. set_solver.
Qed.

Lemma publisher_stopped_keeps fo id r w :
  hub_ok fo w -> keeps fo (publisher_stopped invoke fo id r w).
Proof.
  intros Hok. unfold publisher_stopped, keeps.
  destruct (f_streams fo !! id) as [s|] eqn:Hst; cbn [fst snd]; [|by split; [|intros ???] ].
  assert (Hsub : forall id' sub sink, subscribed (mkLiveFanout (delete id (f_streams fo)) (f_gop_limits fo)
    (f_queue_limits fo) (f_max_waiting fo)) id' sub sink -> id' <> id /\ subscribed fo id' sub sink).
  { intros id' sub sink (st & H & Ht). cbn in H. apply lookup_delete_Some in H as [Hne H].
    split; [done|by exists st]. }
  split; [|intros id' sub sink H; by apply Hsub in H as [_ H] ].
  set (sinks := map _ _).
  assert (Hin : forall i e, (i, e) ∈ map_to_list (subscribers s) -> i = sink_key (sub_sink e) /\
    serves id (sub_sink e) w).
  { intros i e He. apply elem_of_map_to_list in He. apply Hok. exists s. split; [done|by exists e]. }
  destruct (notify_all_keeps (fun id' sink => id' <> id /\ exists sub, subscribed fo id' sub sink)
    id sinks w) as [S1 K1].
  - apply Hok.
  - intros id' sink (_ & sub & H). by apply Hok in H as [_ ?].
  - intros sink Hs. apply list_elem_of_fmap in Hs as ([i e] & -> & He).
    apply Hin in He as [_ Hv]. split; [done|]. intros id' (Hne & sub & H).
    apply Hok in H as [_ H]. apply Hne. by eapply serves_unique.
  - apply (NoDup_fmap_1 sink_key).
    assert (E : sink_key <$> sinks = (map_to_list (subscribers s)).*1).
    { subst sinks. rewrite <- list_fmap_compose. apply list_fmap_ext. intros n [i e] He.
      apply list_elem_of_lookup_2, Hin in He as [He _]. by rewrite He. }
    rewrite E. apply NoDup_fst_map_to_list.
  - split; [done|]. intros id' sub sink H. apply Hsub in H as [Hne H].
    split; [by apply Hok in H as [? _]|]. apply K1. split; [done|by exists sub].
Qed.

End Contract.

(** * What every callback respects, every operation of the hub respects *)

Section Monotone.
Context {Sink W : Type} `{EqDecision Sink} (invoke : Sink -> SinkCall -> W -> W * bool).
Context (R : W -> W -> Prop) `{!PreOrder R}.
Hypothesis invoke_respects : forall sink c w, R w (invoke sink c w).1.

Lemma resend_respects sink call f w : R w (resend invoke sink call f w).1.
Proof.
  unfold resend. destruct f as [f|]; [|reflexivity]. pose proof (invoke_respects sink (call f) w).
  by destruct (invoke sink (call f) w).
Qed.

Lemma deliver_one_respects f d w : R w (deliver_one invoke f d w).1.
Proof.
  unfold deliver_one. pose proof (resend_respects (pd_sink d) OnVideo (resend_video_seq_header d) w) as H1.
  destruct (resend _ _ _ _ w) as [w1 b1].
  pose proof (resend_respects (pd_sink d) OnAudio (resend_audio_seq_header d) w1) as H2.
  destruct (resend _ _ _ _ w1) as [w2 b2].
  pose proof (invoke_respects (pd_sink d) (frame_call (pd_kind d) f) w2) as H3.
  destruct (invoke _ _ w2) as [w3 ok]. cbn [fst] in *.
  destruct (is_evict _); cbn [fst]; (etransitivity; [exact H1|]; by etransitivity).
Qed.

Lemma deliver_all_respects f ds : forall w, R w (deliver_all invoke f ds w).1.
Proof.
  induction ds as [|d ds IH]; intros w; cbn [deliver_all]; [reflexivity|].
  pose proof (deliver_one_respects f d w) as H1. destruct (deliver_one invoke f d w) as [w1 [b ok] ].
  specialize (IH w1). destruct (deliver_all invoke f ds w1) as [w2 [bs results] ]. by etransitivity.
Qed.

Lemma evict_all_respects id sinks : forall w, R w (evict_all invoke id sinks w).1.
Proof.
  induction sinks as [|sink sinks IH]; intros w; cbn [evict_all]; [reflexivity|].
  pose proof (invoke_respects sink OnSlowClientEvicted w) as H1.
  destruct (invoke sink OnSlowClientEvicted w) as [w1 b]. specialize (IH w1).
  destruct (evict_all invoke id sinks w1) as [w2 evs]. by etransitivity.
Qed.

Lemma dispatch_frame_respects fo id s f v a k st r w :
  R w (dispatch_frame invoke fo id s f v a k st r w).1.1.
Proof.
  unfold dispatch_frame, run_deliveries. destruct (dispatch_locked _ _ _ _ _ _) as [ [s1 ds] ev1].
  pose proof (deliver_all_respects f ds w) as H1. destruct (deliver_all invoke f ds w) as [w1 [b results] ].
  destruct (fold_results _ _ _) as [ [t sinks] ev2].
  pose proof (evict_all_respects id sinks w1) as H2. destruct (evict_all invoke id sinks w1) as [w2 ev3].
  destruct (add_egress _ _) as [s2 ev4]. by etransitivity.
Qed.

Lemma replay_respects sink calls : forall w, R w (replay invoke sink calls w).1.
Proof.
  induction calls as [|[c n] calls IH]; intros w; cbn [replay]; [reflexivity|].
  pose proof (invoke_respects sink c w) as H1. destruct (invoke sink c w) as [w1 ok]. specialize (IH w1).
  destruct (replay invoke sink calls w1) as [w2 b]. by etransitivity.
Qed.

Lemma subscribe_respects fo id sub sink ip w : R w (subscribe invoke fo id sub sink ip w).1.1.
Proof.
  unfold subscribe. cbv zeta. set (calls := startup_calls _).
  pose proof (replay_respects sink calls w) as H1. destruct (replay invoke sink calls w) as [w1 b].
  by destruct (add_egress _ b) as [s ev].
Qed.

Lemma notify_all_respects sinks : forall w, R w (notify_all invoke sinks w).
Proof.
  induction sinks as [|sink sinks IH]; intros w; cbn [notify_all]; [reflexivity|].
  etransitivity; [apply (invoke_respects sink OnPublisherStopped)|apply IH].
Qed.

Lemma publisher_stopped_respects fo id r w : R w (publisher_stopped invoke fo id r w).1.1.
Proof. unfold publisher_stopped. case_match; [apply notify_all_respects|reflexivity]. Qed.

Lemma on_video_respects fo id f r w : R w (on_video invoke fo id f r w).1.1.
Proof. unfold on_video. case_match; apply dispatch_frame_respects. Qed.
Lemma on_audio_respects fo id f r w : R w (on_audio invoke fo id f r w).1.1.
Proof. unfold on_audio. case_match; apply dispatch_frame_respects. Qed.
Lemma on_metadata_respects fo id f r w : R w (on_metadata invoke fo id f r w).1.1.
Proof. apply dispatch_frame_respects. Qed.

End Monotone.
