(* ===== verification/CommandSession.v ===== *)
(** The RTMP command dispatcher (protocol/commands/command_session.hpp,
    command_session.cpp) and the server state its sessions share: the publisher
    registry, the stream ids, media ingest and the fan-out hub.

    A session's collaborators are pointers, and calls go both ways (a publisher's
    message runs the callbacks of its viewers' sessions), so operations act on a
    [System]: the hub, and a [World] with every session.  A [PlaybackRelay] is named
    by its connection, message stream and subscriber id.  A callback on a relay that
    has been destroyed is a use after free in C++; it sets [freed_call].

    The policies a session is configured with are functions of its [Config]; what is
    sent out or reported is appended to [events], the optional notification handlers
    being taken as set.  A recorder is an identity; the calls made on it are events. *)

From S2P Require Import Prelude Bytes Amf0 Chunk MediaIngest ViewerQueue GopCache StreamDirectory LiveFanout.
From Stdlib Require Import Ascii.
#[local] Open Scope Z_scope.

(** * Numbers of commands *)

(** An unsigned integer as a [double] (exact below 2^53). *)
Definition number_bits (n : Z) : Z :=
  if n =? 0 then 0 else
  let e := Z.log2 n in
  Z.shiftl (1023 + e) 52 + Z.shiftl (n - 2 ^ e) (52 - e).

(** [static_cast<std::uint32_t>(double)]: [None] where C++ leaves the conversion
    undefined, i.e. when the truncated value does not fit. *)
Definition double_to_u32 (bits : Z) : option Z :=
  let negative := Z.testbit bits 63 in
  let exponent := Z.land (Z.shiftr bits 52) 0x7FF in
  let mantissa := Z.land bits (2 ^ 52 - 1) in
  if exponent <? 1023 then Some 0
  else if negative || (1023 + 32 <=? exponent) then None
  else Some (Z.shiftr (2 ^ 52 + mantissa) (52 - (exponent - 1023))).

(** * Data *)

Definition kCommandChunkStreamId : Z := 3.
Definition kAudioChunkStreamId : Z := 4.
Definition kVideoChunkStreamId : Z := 5.
Definition kDataChunkStreamId : Z := 6.
Definition kUserControlStreamBegin : Z := 0.

Module NetStreamState.
Inductive t := Idle | Publishing | Playing.
End NetStreamState.

#[export] Instance net_stream_state_eq_dec : EqDecision NetStreamState.t.
Proof. solve_decision. Defined.

Record Amf0Command := mkCommand {
  name : string; transaction_id : Z; command_object : Amf0Value; arguments : list Amf0Value
}.

Record StreamSlot := mkSlot {
  slot_state : NetStreamState.t; slot_stream_key : string; slot_stream_id : Z;
  slot_recorder : option Z
}.
Definition empty_slot : StreamSlot := mkSlot NetStreamState.Idle "" 0 None.

Record PlaybackRelay := mkRelay {
  relay_queue : ViewerQueue;
  relay_subscriber_id : Z;
  relay_video_sequence_header : option SharedMediaFrame;
  relay_audio_sequence_header : option SharedMediaFrame
}.

(** The identity of a relay object: connection, message stream, subscriber id. *)
Notation RelayId := (Z * Z * Z)%type.

Record Config := mkConfig {
  key_validator : string -> string -> bool;
  stream_id_resolver : option (string -> string -> option string);
  playback_authorizer : option (string -> string -> string -> string -> bool);
  recorder : option Z;
  recorder_factory : option (string -> string -> option Z);
  has_outgoing_handler : bool;
  has_media_outgoing_handler : bool;
  has_media_ingest : bool;
  has_live_fanout : bool;
  client_ip : string;
  playback_queue_limits : QueueLimits
}.

Record CommandSession := mkCommandSession {
  config_ : Config;
  connected_ : bool;
  app_name_ : string;
  next_stream_id_ : Z;
  last_created_stream_id_ : Z;
  streams_ : gmap Z StreamSlot;
  playback_relays_ : gmap Z PlaybackRelay;
  pending_ : QueueBacklog    (* what pending_queue_provider_ reports *)
}.

Definition make_session (c : Config) : CommandSession :=
  mkCommandSession c false "" 1 0 ∅ ∅ no_backlog.

Inductive Event :=
| Outgoing (connection : Z) (message : RtmpMessage)
| OutgoingMedia (connection : Z) (f : SharedMediaFrame) (chunk_stream_id message_stream_id : Z)
| PublishStart (r : StreamRegistration)
| PublishStop (stream_key : string) (connection : Z)
| ViewerAttached (app stream_key : string)
| ViewerDetached (app stream_key : string)
| Recorded (recorder : Z) (message : RtmpMessage)
| Finalized (recorder : Z)
| Hub (e : FanoutEvent).

Record World := mkWorld {
  sessions : gmap Z CommandSession;
  registry : StreamRegistry;
  ids : StreamIdRegistry;
  ingest : MediaIngest;
  last_subscriber_id : Z;
  freed_call : bool;
  events : list Event
}.

Record System := mkSystem { world : World; hub : @LiveFanout RelayId }.

(** ** Reading and writing the parts *)

Definition emit (w : World) (es : list Event) : World :=
  mkWorld (sessions w) (registry w) (ids w) (ingest w) (last_subscriber_id w) (freed_call w)
    (events w ++ es).
Definition put_session (w : World) (conn : Z) (s : CommandSession) : World :=
  mkWorld (<[conn := s]> (sessions w)) (registry w) (ids w) (ingest w) (last_subscriber_id w)
    (freed_call w) (events w).
Definition on_session (w : World) (conn : Z) (f : CommandSession -> CommandSession) : World :=
  match sessions w !! conn with Some s => put_session w conn (f s) | None => w end.

Definition set_streams (m : gmap Z StreamSlot) (s : CommandSession) : CommandSession :=
  mkCommandSession (config_ s) (connected_ s) (app_name_ s) (next_stream_id_ s)
    (last_created_stream_id_ s) m (playback_relays_ s) (pending_ s).
Definition set_relays (m : gmap Z PlaybackRelay) (s : CommandSession) : CommandSession :=
  mkCommandSession (config_ s) (connected_ s) (app_name_ s) (next_stream_id_ s)
    (last_created_stream_id_ s) (streams_ s) m (pending_ s).
Definition put_slot (id : Z) (sl : StreamSlot) (s : CommandSession) : CommandSession :=
  set_streams (<[id := sl]> (streams_ s)) s.
Definition put_relay (id : Z) (r : PlaybackRelay) (s : CommandSession) : CommandSession :=
  set_relays (<[id := r]> (playback_relays_ s)) s.
Definition erase_relay (id : Z) (s : CommandSession) : CommandSession :=
  set_relays (delete id (playback_relays_ s)) s.

Definition stream_state (s : CommandSession) (id : Z) : NetStreamState.t :=
  match streams_ s !! id with Some sl => slot_state sl | None => NetStreamState.Idle end.

(** * Replies *)

Definition send_command_message (w : World) (conn message_stream_id : Z) (values : list Amf0Value)
    : World :=
  match sessions w !! conn with
  | None => w
  | Some s =>
      if negb (has_outgoing_handler (config_ s)) then w else
      emit w [Outgoing conn (mkRtmpMessage kCommandChunkStreamId message_stream_id
                MessageTypeId.Amf0Command 0 (encode_items values))]
  end.

Definition send_result (w : World) (conn transaction_id : Z) (properties information : Amf0Value) :=
  send_command_message w conn 0
    [String "_result"; Number transaction_id; properties; information].

Definition send_status (w : World) (conn message_stream_id : Z) (level code description : string) :=
  send_command_message w conn message_stream_id
    [String "onStatus"; Number 0; Null;
     Object [("level", String level); ("code", String code); ("description", String description)]%string].

Definition make_stream_begin (message_stream_id : Z) : RtmpMessage :=
  mkRtmpMessage kProtocolControlChunkStreamId kProtocolControlMessageStreamId
    MessageTypeId.UserControlMessage 0
    (write_u16_be kUserControlStreamBegin ++ write_u32_be message_stream_id).

(** * Playback: the relay's side of PlaybackSink *)

Definition media_chunk_stream (f : SharedMediaFrame) : Z :=
  if frame_type_id f =? MessageTypeId.Audio then kAudioChunkStreamId
  else if frame_type_id f =? MessageTypeId.Video then kVideoChunkStreamId
  else kDataChunkStreamId.

(** The [emit] lambda of deliver_playback_message. *)
Definition media_event (s : CommandSession) (conn message_stream_id : Z) (f : SharedMediaFrame) : Event :=
  if has_media_outgoing_handler (config_ s)
  then OutgoingMedia conn f (media_chunk_stream f) message_stream_id
  else Outgoing conn (to_message f (media_chunk_stream f) message_stream_id).

Definition with_relay_queue (r : PlaybackRelay) (q : ViewerQueue) : PlaybackRelay :=
  mkRelay q (relay_subscriber_id r) (relay_video_sequence_header r) (relay_audio_sequence_header r).

Definition deliver_playback_message (w : World) (conn message_stream_id : Z) (s : CommandSession)
    (r : PlaybackRelay) (f : SharedMediaFrame) (is_video : bool) : World * bool :=
  if negb (has_outgoing_handler (config_ s)) && negb (has_media_outgoing_handler (config_ s))
  then (put_session w conn (put_relay message_stream_id r s), false) else
  let is_keyframe := is_video && classify_is_video_keyframe f in
  let '(q, decision) :=
    offer (relay_queue r) (pending_ s) (zlen (frame_payload f)) is_video is_keyframe in
  match decision with
  | Decision.DropAndWait | Decision.Evict =>
      (put_session w conn (put_relay message_stream_id (with_relay_queue r q) s), false)
  | _ =>
      let headers := match decision with
        | Decision.DeliverResumed =>
            option_list (relay_video_sequence_header r) ++ option_list (relay_audio_sequence_header r)
        | _ => []
        end in
      let q := note_flushed q (zlen (frame_payload f)) in
      (emit (put_session w conn (put_relay message_stream_id (with_relay_queue r q) s))
         (map (media_event s conn message_stream_id) (headers ++ [f])), true)
  end.

(** handle_playback_publisher_stopped and handle_playback_evicted: the same steps with
    a different status. *)
Definition playback_ended (w : World) (conn message_stream_id : Z) (level code description : string)
    : World :=
  match sessions w !! conn with
  | None => w
  | Some s =>
      let w :=
        match streams_ s !! message_stream_id with
        | None => w
        | Some sl =>
            let w := if decide (slot_state sl = NetStreamState.Playing)
                     then emit w [ViewerDetached (app_name_ s) (slot_stream_key sl)] else w in
            let idle := mkSlot NetStreamState.Idle (slot_stream_key sl) (slot_stream_id sl)
                          (slot_recorder sl) in
            send_status (on_session w conn (put_slot message_stream_id idle)) conn
              message_stream_id level code description
        end in
      on_session w conn (erase_relay message_stream_id)
  end.
Definition handle_playback_publisher_stopped (w : World) (conn message_stream_id : Z) : World :=
  playback_ended w conn message_stream_id "status" "NetStream.Play.UnpublishNotify"
    "Stream unpublished.".
Definition handle_playback_evicted (w : World) (conn message_stream_id : Z) : World :=
  playback_ended w conn message_stream_id "error" "NetStream.Play.InsufficientBW"
    "Viewer fell too far behind.".

Definition with_relay_headers (r : PlaybackRelay) (v a : option SharedMediaFrame) : PlaybackRelay :=
  mkRelay (relay_queue r) (relay_subscriber_id r) v a.

(** A virtual call through a [PlaybackSink*]. *)
Definition invoke_relay (id : RelayId) (call : SinkCall) (w : World) : World * bool :=
  let '(conn, message_stream_id, subscriber_id) := id in
  let dead := (mkWorld (sessions w) (registry w) (ids w) (ingest w) (last_subscriber_id w) true
                 (events w), false) in
  match sessions w !! conn with
  | None => dead
  | Some s =>
      match playback_relays_ s !! message_stream_id with
      | None => dead
      | Some r =>
          if negb (relay_subscriber_id r =? subscriber_id) then dead else
          match call with
          | OnAudio f =>
              let r := if classify_is_audio_sequence_header f
                       then with_relay_headers r (relay_video_sequence_header r) (Some f) else r in
              deliver_playback_message w conn message_stream_id s r f false
          | OnVideo f =>
              let r := if classify_is_video_sequence_header f
                       then with_relay_headers r (Some f) (relay_audio_sequence_header r) else r in
              deliver_playback_message w conn message_stream_id s r f true
          | OnMetadata f => deliver_playback_message w conn message_stream_id s r f false
          | OnPublisherStopped => (handle_playback_publisher_stopped w conn message_stream_id, false)
          | OnSlowClientEvicted => (handle_playback_evicted w conn message_stream_id, false)
          end
      end
  end.

(** Calling the hub from a session. *)
Definition hub_call (sys : System)
    (op : @LiveFanout RelayId -> World -> World * @LiveFanout RelayId * list FanoutEvent) : System :=
  let '(w, fo, ev) := op (hub sys) (world sys) in mkSystem (emit w (map Hub ev)) fo.
Definition hub_unsubscribe (sys : System) (stream_id subscriber_id : Z) : System :=
  let '(fo, ev) := unsubscribe (hub sys) stream_id subscriber_id in
  mkSystem (emit (world sys) (map Hub ev)) fo.
Definition on_world (f : World -> World) (sys : System) : System := mkSystem (f (world sys)) (hub sys).

(** * Publishing: media *)

Definition ingest_message (kind : MediaKind) (w : World) (key : string) (message : RtmpMessage) : World :=
  mkWorld (sessions w) (registry w) (ids w) (on_message kind (ingest w) key message).1
    (last_subscriber_id w) (freed_call w) (events w).

(** The calls each case of the switch makes: ingest, recorder, fan-out. *)
Definition publish_media (sys : System) (c : Config) (sl : StreamSlot) (rec : option Z)
    (message : RtmpMessage) (kind : MediaKind)
    (op : @LiveFanout RelayId -> World -> World * @LiveFanout RelayId * list FanoutEvent) : System :=
  let sys := if has_media_ingest c
             then on_world (fun w => ingest_message kind w (slot_stream_key sl) message) sys else sys in
  let sys := match rec with
             | Some r => on_world (fun w => emit w [Recorded r message]) sys
             | None => sys
             end in
  if has_live_fanout c then hub_call sys op else sys.

Definition route_media_message (sys : System) (conn : Z) (message : RtmpMessage) : System :=
  match sessions (world sys) !! conn with
  | None => sys
  | Some s =>
    let c := config_ s in
    if negb (has_media_ingest c) && negb (bool_decide (is_Some (recorder c)))
       && negb (bool_decide (is_Some (recorder_factory c))) && negb (has_live_fanout c)
    then sys else
    match streams_ s !! message_stream_id message with
    | None => sys
    | Some sl =>
      if negb (bool_decide (slot_state sl = NetStreamState.Publishing))
         || bool_decide (slot_stream_key sl = ""%string) then sys else
      let rec := match slot_recorder sl with Some r => Some r | None => recorder c end in
      let f := from_message message in
      let steps kind := publish_media sys c sl rec message kind in
      if message_type_id message =? MessageTypeId.Audio then
        steps MediaIngest.Audio (fun fo => on_audio invoke_relay fo (slot_stream_id sl) f false)
      else if message_type_id message =? MessageTypeId.Video then
        steps MediaIngest.Video (fun fo => on_video invoke_relay fo (slot_stream_id sl) f false)
      else if message_type_id message =? MessageTypeId.Amf0Data then
        steps MediaIngest.Metadata (fun fo => on_metadata invoke_relay fo (slot_stream_id sl) f false)
      else sys
    end
  end.

(** * Commands *)

Definition string_arg (v : Amf0Value) : string := match v with String s => s | _ => "" end.
Definition first_string (c : Amf0Command) : string :=
  match arguments c with v :: _ => string_arg v | [] => "" end.

Definition handle_connect (w : World) (conn : Z) (c : Amf0Command) : World :=
  let app := match Amf0.find (command_object c) "app" with Some v => string_arg v | None => ""%string end in
  let w := on_session w conn (fun s => mkCommandSession (config_ s) true app (next_stream_id_ s)
             (last_created_stream_id_ s) (streams_ s) (playback_relays_ s) (pending_ s)) in
  send_result w conn (transaction_id c)
    (Object [("fmsVer", String "FMS/3,0,1,123"); ("capabilities", Number (number_bits 31))]%string)
    (Object [("level", String "status"); ("code", String "NetConnection.Connect.Success");
             ("description", String "Connection succeeded."); ("objectEncoding", Number 0)]%string).

Definition handle_release_stream (w : World) (conn : Z) (c : Amf0Command) : World :=
  send_result w conn (transaction_id c) Null Undefined.
Definition handle_fc_publish (w : World) (conn : Z) (c : Amf0Command) : World :=
  send_result w conn (transaction_id c) Null Undefined.

Definition handle_create_stream (w : World) (conn : Z) (c : Amf0Command) : World :=
  match sessions w !! conn with
  | None => w
  | Some s =>
      let id := next_stream_id_ s in
      let w := put_session w conn (mkCommandSession (config_ s) (connected_ s) (app_name_ s)
                 (u32 (id + 1)) id (<[id := empty_slot]> (streams_ s)) (playback_relays_ s)
                 (pending_ s)) in
      send_result w conn (transaction_id c) Null (Number (number_bits id))
  end.

Definition bad_name (w : World) (conn message_stream_id : Z) (why : string) : World :=
  send_status w conn message_stream_id "error" "NetStream.Publish.BadName" why.

(** The name a publish is filed under: the resolver's, or the key itself. *)
Definition canonical_name (c : Config) (app stream_key : string) : option string :=
  match stream_id_resolver c with Some resolve => resolve app stream_key | None => Some stream_key end.

Definition handle_publish (w : World) (conn message_stream_id now : Z) (c : Amf0Command) : World :=
  match sessions w !! conn with
  | None => w
  | Some s =>
    let stream_key := first_string c in
    let authorized := negb (bool_decide (stream_key = ""%string))
                      && key_validator (config_ s) (app_name_ s) stream_key in
    if negb authorized then bad_name w conn message_stream_id "Stream key rejected or missing." else
    match canonical_name (config_ s) (app_name_ s) stream_key with
    | None => bad_name w conn message_stream_id "Stream key rejected or missing."
    | Some canonical_id =>
      let '(registered, reg, delta) :=
        register_publisher (registry w) (app_name_ s) canonical_id conn message_stream_id now in
      if negb registered
      then bad_name w conn message_stream_id "Stream key already in use by another publisher." else
      let '(ids, stream_id) := resolve (ids w) (app_name_ s) canonical_id in
      let old := default empty_slot (streams_ s !! message_stream_id) in
      let rec := match recorder_factory (config_ s) with
                 | Some make => make (app_name_ s) canonical_id
                 | None => slot_recorder old
                 end in
      let w := mkWorld (<[conn := put_slot message_stream_id
                   (mkSlot NetStreamState.Publishing canonical_id stream_id rec) s]> (sessions w))
                 reg ids (ingest w) (last_subscriber_id w) (freed_call w) (events w) in
      let w := send_status w conn message_stream_id "status" "NetStream.Publish.Start"
                 ("Publishing " +:+ stream_key +:+ ".") in
      match find_registration (registry w) canonical_id with
      | Some r => emit w [PublishStart r]
      | None => w
      end
    end
  end.

(** [raw_arg.find('?')]: the name and the query of a play argument. *)
Fixpoint split_query (s : string) : string * string :=
  match s with
  | EmptyString => (EmptyString, EmptyString)
  | Stdlib.Strings.String.String c s =>
      if bool_decide (c = "?"%char) then (EmptyString, s)
      else let '(n, q) := split_query s in (Stdlib.Strings.String.String c n, q)
  end.

Definition next_subscriber (w : World) : Z * World :=
  let id := u64 (last_subscriber_id w + 1) in
  (id, mkWorld (sessions w) (registry w) (ids w) (ingest w) id (freed_call w) (events w)).

(** The tail of handle_play: subscribe a fresh relay. *)
Definition attach_relay (sys : System) (conn message_stream_id stream_id : Z) : System :=
  match sessions (world sys) !! conn with
  | None => sys
  | Some s =>
      let '(sub, w) := next_subscriber (world sys) in
      let relay := mkRelay (make_queue (playback_queue_limits (config_ s)) default_max_waiting) sub
                     None None in
      let w := on_session w conn (put_relay message_stream_id relay) in
      hub_call (mkSystem w (hub sys)) (fun fo =>
        subscribe invoke_relay fo stream_id sub (conn, message_stream_id, sub)
          (client_ip (config_ s)))
  end.

Definition handle_play (sys : System) (conn message_stream_id : Z) (c : Amf0Command) : System :=
  match sessions (world sys) !! conn with
  | None => sys
  | Some s =>
    let '(stream_key, query) := split_query (first_string c) in
    let allowed := match playback_authorizer (config_ s) with
                   | Some ok => ok (app_name_ s) stream_key query (client_ip (config_ s))
                   | None => true
                   end in
    if negb allowed then
      on_world (fun w => send_status w conn message_stream_id "error" "NetStream.Play.Failed"
                           "Playback not authorized.") sys
    else
      let '(ids, stream_id) := resolve (ids (world sys)) (app_name_ s) stream_key in
      let old := default empty_slot (streams_ s !! message_stream_id) in
      let w := world sys in
      let w := mkWorld (<[conn := put_slot message_stream_id
                   (mkSlot NetStreamState.Playing stream_key stream_id (slot_recorder old)) s]> (sessions w))
                 (registry w) ids (ingest w) (last_subscriber_id w) (freed_call w) (events w) in
      let w := if has_outgoing_handler (config_ s)
               then emit w [Outgoing conn (make_stream_begin message_stream_id)] else w in
      let w := send_status w conn message_stream_id "status" "NetStream.Play.Start"
                 ("Started playing " +:+ stream_key +:+ ".") in
      let sys := mkSystem w (hub sys) in
      let sys := if has_live_fanout (config_ s) && negb (bool_decide (stream_key = ""%string))
                 then attach_relay sys conn message_stream_id stream_id else sys in
      on_world (fun w => emit w [ViewerAttached (app_name_ s) stream_key]) sys
  end.

(** What tearing a slot down does before it is erased (deleteStream and connection
    close); [s] is the session's state when the slot is reached. *)
Definition finalize_recorder (sys : System) (s : CommandSession) (sl : StreamSlot) : System :=
  match slot_recorder sl with
  | Some r => on_world (fun w => emit w [Finalized r]) sys
  | None => match recorder (config_ s) with
            | Some r => on_world (fun w => emit w [Finalized r]) sys
            | None => sys
            end
  end.

Definition set_registry (reg : StreamRegistry) (w : World) : World :=
  mkWorld (sessions w) reg (ids w) (ingest w) (last_subscriber_id w) (freed_call w) (events w).

Definition stop_publishing (sys : System) (conn : Z) (s : CommandSession) (sl : StreamSlot) : System :=
  let sys := on_world (fun w =>
    set_registry (unregister_publisher (registry w) (slot_stream_key sl) conn).1 w) sys in
  let sys := finalize_recorder sys s sl in
  let sys := if has_live_fanout (config_ s)
             then hub_call sys (fun fo => publisher_stopped invoke_relay fo (slot_stream_id sl) false)
             else sys in
  on_world (fun w => emit w [PublishStop (slot_stream_key sl) conn]) sys.

Definition detach_viewer (sys : System) (s : CommandSession) (id : Z) (sl : StreamSlot) : System :=
  match playback_relays_ s !! id with
  | Some r => if has_live_fanout (config_ s)
              then hub_unsubscribe sys (slot_stream_id sl) (relay_subscriber_id r) else sys
  | None => sys
  end.

Definition handle_delete_stream (sys : System) (conn : Z) (c : Amf0Command) : Res System :=
  match arguments c with
  | Number bits :: _ =>
      match double_to_u32 bits with
      | None => Fault
      | Some id =>
        match sessions (world sys) !! conn with
        | None => Ok sys
        | Some s =>
          match streams_ s !! id with
          | None => Ok sys
          | Some sl =>
            let named := negb (bool_decide (slot_stream_key sl = ""%string)) in
            let sys :=
              if bool_decide (slot_state sl = NetStreamState.Publishing) && named
              then stop_publishing sys conn s sl
              else if bool_decide (slot_state sl = NetStreamState.Playing) && named then
                let sys := detach_viewer sys s id sl in
                on_world (fun w => emit (on_session w conn (erase_relay id))
                                     [ViewerDetached (app_name_ s) (slot_stream_key sl)]) sys
              else sys in
            Ok (on_world (fun w => on_session w conn
                 (fun s => set_streams (delete id (streams_ s)) s)) sys)
          end
        end
      end
  | _ => Ok sys
  end.

(** The loop of on_connection_closed; the slot is read when the iterator reaches it. *)
Fixpoint close_slots (sys : System) (conn : Z) (todo : list Z) : System :=
  match todo with
  | [] => sys
  | id :: todo =>
      match sessions (world sys) !! conn with
      | None => sys
      | Some s =>
          match streams_ s !! id with
          | None => close_slots sys conn todo
          | Some sl =>
              let named := negb (bool_decide (slot_stream_key sl = ""%string)) in
              let sys :=
                if bool_decide (slot_state sl = NetStreamState.Publishing) && named
                then stop_publishing sys conn s sl
                else if bool_decide (slot_state sl = NetStreamState.Playing) && named then
                  let sys := detach_viewer sys s id sl in
                  on_world (fun w => emit w [ViewerDetached (app_name_ s) (slot_stream_key sl)]) sys
                else sys in
              close_slots sys conn todo
          end
      end
  end.

Definition on_connection_closed (sys : System) (conn : Z) : System :=
  match sessions (world sys) !! conn with
  | None => sys
  | Some s =>
      let sys := close_slots sys conn (map fst (map_to_list (streams_ s))) in
      on_world (fun w =>
        let w := on_session w conn (fun s => set_relays ∅ (set_streams ∅ s)) in
        set_registry (unregister_all_for_connection (registry w) conn).1 w) sys
  end.

Definition dispatch (sys : System) (conn message_stream_id now : Z) (c : Amf0Command) : Res System :=
  let on f := Ok (on_world f sys) in
  if bool_decide (name c = "connect"%string) then on (fun w => handle_connect w conn c)
  else if bool_decide (name c = "releaseStream"%string) then on (fun w => handle_release_stream w conn c)
  else if bool_decide (name c = "FCPublish"%string) then on (fun w => handle_fc_publish w conn c)
  else if bool_decide (name c = "createStream"%string) then on (fun w => handle_create_stream w conn c)
  else if bool_decide (name c = "publish"%string)
  then on (fun w => handle_publish w conn message_stream_id now c)
  else if bool_decide (name c = "play"%string) then Ok (handle_play sys conn message_stream_id c)
  else if bool_decide (name c = "deleteStream"%string) then handle_delete_stream sys conn c
  else Ok sys.

(** The command of a decoded message: name, transaction, object, arguments. *)
Definition command_of (values : list Amf0Value) : option Amf0Command :=
  match values with
  | String n :: rest =>
      Some (mkCommand n (match rest with Number b :: _ => b | _ => 0 end)
              (nth 1 rest Null) (drop 2 rest))
  | _ => None
  end.

Definition handle_message (sys : System) (conn now : Z) (message : RtmpMessage) : Res System :=
  if (message_type_id message =? MessageTypeId.Audio) ||
     (message_type_id message =? MessageTypeId.Video) ||
     (message_type_id message =? MessageTypeId.Amf0Data)
  then Ok (route_media_message sys conn message) else
  if negb (message_type_id message =? MessageTypeId.Amf0Command) then Ok sys else
  match decode_all (payload message) with
  | Ok values =>
      match command_of values with
      | Some c => dispatch sys conn (message_stream_id message) now c
      | None => Ok sys
      end
  | Err _ => Ok sys
  | Fault => Fault
  | OutOfFuel => OutOfFuel
  end.

(** * Numbers: what createStream answers, deleteStream understands *)

Lemma number_bits_u32 n : 0 <= n < 2 ^ 32 -> double_to_u32 (number_bits n) = Some n.
Proof.
  intros Hn. unfold number_bits. destruct (Z.eqb_spec n 0) as [->|Hz]; [reflexivity|]. cbv zeta.
  set (e := Z.log2 n). pose proof (Z.log2_spec n ltac:(lia)) as Hlog. fold e in Hlog.
  assert (He : 0 <= e < 32) by (split; [apply Z.log2_nonneg|apply Z.log2_lt_pow2; lia]).
  set (k := n - 2 ^ e). rewrite Z.pow_succ_r in Hlog by lia.
  assert (Hk : 0 <= k * 2 ^ (52 - e) < 2 ^ 52).
  { replace (2 ^ 52) with (2 ^ e * 2 ^ (52 - e)) by (rewrite <- Z.pow_add_r by lia; f_equal; lia).
    pose proof (Z.pow_pos_nonneg 2 (52 - e)). nia. }
  rewrite !Z.shiftl_mul_pow2 by lia. set (mant := k * 2 ^ (52 - e)) in *. unfold double_to_u32.
  assert (Hshift : Z.shiftr ((1023 + e) * 2 ^ 52 + mant) 52 = 1023 + e).
  { rewrite Z.shiftr_div_pow2, Z.div_add_l, Z.div_small by lia. lia. }
  assert (Hexp : Z.land (Z.shiftr ((1023 + e) * 2 ^ 52 + mant) 52) 0x7FF = 1023 + e).
  { rewrite Hshift. change 0x7FF with (2 ^ 11 - 1). rewrite land_ones_mod by lia.
    apply Z.mod_small. lia. }
  assert (Hman : Z.land ((1023 + e) * 2 ^ 52 + mant) (2 ^ 52 - 1) = mant).
  { rewrite land_ones_mod by lia. rewrite Z.add_comm, Z.mod_add, Z.mod_small by lia. done. }
  assert (Hneg : Z.testbit ((1023 + e) * 2 ^ 52 + mant) 63 = false).
  { replace 63 with (11 + 52) by done. rewrite <- Z.shiftr_spec by lia. rewrite Hshift.
    apply Z.bits_above_log2; [lia|]. apply Z.log2_lt_pow2; lia. }
  cbv zeta. rewrite Hexp, Hman, Hneg. cbn [orb].
  destruct (Z.ltb_spec (1023 + e) 1023) as [?|_]; [lia|].
  destruct (Z.leb_spec (1023 + 32) (1023 + e)) as [?|_]; [lia|]. f_equal.
  replace (1023 + e - 1023) with e by lia. rewrite Z.shiftr_div_pow2 by lia.
  replace (2 ^ 52) with (2 ^ e * 2 ^ (52 - e)) by (rewrite <- Z.pow_add_r by lia; f_equal; lia).
  unfold mant. rewrite <- Z.mul_add_distr_r, Z.div_mul by lia. unfold k. lia.
Qed.

Lemma send_result_sessions w conn t p i : sessions (send_result w conn t p i) = sessions w.
Proof. unfold send_result, send_command_message. by repeat case_match. Qed.

(** The number createStream answers names the stream it made: deleteStream with that
    number is defined, and on a fresh id it restores the session's streams, leaves the
    relays and the hub alone. *)
Theorem created_stream_deletable sys conn s c t obj :
  sessions (world sys) !! conn = Some s -> 0 <= next_stream_id_ s < 2 ^ 32 ->
  streams_ s !! next_stream_id_ s = None ->
  let sys1 := on_world (fun w => handle_create_stream w conn c) sys in
  exists sys2 s2,
    handle_delete_stream sys1 conn
      (mkCommand "deleteStream" t obj [Number (number_bits (next_stream_id_ s))]) = Ok sys2 /\
    sessions (world sys2) !! conn = Some s2 /\ streams_ s2 = streams_ s /\
    playback_relays_ s2 = playback_relays_ s /\ next_stream_id_ s2 = u32 (next_stream_id_ s + 1) /\
    hub sys2 = hub sys.
Proof.
  intros Hs Hn Hfresh. cbv zeta. unfold handle_delete_stream. cbn [arguments].
  rewrite number_bits_u32 by done. set (id := next_stream_id_ s) in *.
  set (sys1 := on_world _ sys).
  assert (Hs1 : exists s1, sessions (world sys1) !! conn = Some s1 /\ hub sys1 = hub sys /\
    streams_ s1 = <[id := empty_slot]> (streams_ s) /\ playback_relays_ s1 = playback_relays_ s /\
    next_stream_id_ s1 = u32 (id + 1)).
  { subst sys1. unfold handle_create_stream. cbn [world hub on_world]. rewrite Hs, send_result_sessions.
    cbn [sessions put_session]. rewrite lookup_insert_eq. by eexists. }
  destruct Hs1 as (s1 & Hs1 & Hh & Hst & Hr & Hid). rewrite Hs1, Hst, lookup_insert_eq.
  exists (on_world (fun w => on_session w conn (fun s => set_streams (delete id (streams_ s)) s)) sys1),
    (set_streams (delete id (streams_ s1)) s1). split; [reflexivity|].
  unfold on_session. cbn [world hub on_world]. split; [|split_and!; [|done..] ].
  - rewrite Hs1. cbn. apply lookup_insert_eq.
  - cbn. rewrite Hst. by rewrite delete_insert_id.
Qed.

(** A server that lets everybody in, with one connection. *)
Definition open_config : Config :=
  mkConfig (fun _ _ => true) None None None None true true true true "" default_queue_limits.
Definition one_connection : System :=
  mkSystem (mkWorld {[ 1 := make_session open_config ]} ∅ empty_id_registry ∅ 0 false [])
    (make_fanout default_gop_limits default_queue_limits default_max_waiting).

Lemma created_stream_deletable_witness :
  exists sys2 s2,
    handle_delete_stream
      (on_world (fun w => handle_create_stream w 1 (mkCommand "createStream" 0 Null [])) one_connection)
      1 (mkCommand "deleteStream" 0 Null [Number (number_bits 1)]) = Ok sys2 /\
    sessions (world sys2) !! 1 = Some s2 /\ streams_ s2 = ∅ /\ playback_relays_ s2 = ∅ /\
    next_stream_id_ s2 = 2 /\ hub sys2 = hub one_connection.
Proof.
  assert (Hs : sessions (world one_connection) !! 1 = Some (make_session open_config)) by reflexivity.
  destruct (created_stream_deletable one_connection 1 (make_session open_config)
    (mkCommand "createStream" 0 Null []) 0 Null Hs) as (sys2 & s2 & H); [cbn; lia|reflexivity|].
  exists sys2, s2. exact H.
Defined.

(** * The conversion that is undefined *)

(** The command of a message the dispatcher acts on. *)
Definition command_in (message : RtmpMessage) : option Amf0Command :=
  if message_type_id message =? MessageTypeId.Amf0Command then
    match decode_all (payload message) with Ok values => command_of values | _ => None end
  else None.

(** Every message of every type and content is handled (the AMF0 decoder never runs off
    the payload or out of fuel, malformed commands are ignored), except for one thing: a
    deleteStream whose number does not fit 32 bits makes the handler convert it anyway,
    which C++ leaves undefined. *)
Theorem handle_message_undefined sys conn now message :
  ((exists sys', handle_message sys conn now message = Ok sys') \/
   handle_message sys conn now message = Fault) /\
  (handle_message sys conn now message = Fault <->
   exists c bits rest, command_in message = Some c /\ name c = "deleteStream"%string /\
     arguments c = Number bits :: rest /\ double_to_u32 bits = None).
Proof.
  assert (Hd : forall c, name c = "deleteStream"%string ->
    forall m, dispatch sys conn m now c = handle_delete_stream sys conn c).
  { intros c Hn m. unfold dispatch. cbv zeta.
    do 6 rewrite (bool_decide_false (name c = _)) by (rewrite Hn; discriminate).
    by rewrite bool_decide_true. }
  assert (Hok : forall P, (exists c bits rest, P = Some c /\ name c = "deleteStream"%string /\
     arguments c = Number bits :: rest /\ double_to_u32 bits = None) -> exists c, P = Some c).
  { intros P (c & bits & rest & H & _). by exists c. }
  unfold handle_message, command_in. destruct (_ || _) eqn:Hm.
  { split; [by left; eexists|]. split; [done|]. intros H. apply Hok in H as [c H].
    destruct (Z.eqb_spec (message_type_id message) MessageTypeId.Amf0Command) as [E|]; [|done].
    by rewrite E in Hm. }
  destruct (message_type_id message =? MessageTypeId.Amf0Command); cbn [negb];
    [|split; [by left; eexists|]; split; [done|]; intros H; by apply Hok in H as [? ?] ].
  pose proof (decode_all_total (payload message)) as Ht.
  destruct (decode_all (payload message)) as [values|e| |]; try done;
    [|split; [by left; eexists|]; split; [done|]; intros H; by apply Hok in H as [? ?] ].
  destruct (command_of values) as [c|];
    [|split; [by left; eexists|]; split; [done|]; intros H; by apply Hok in H as [? ?] ].
  destruct (decide (name c = "deleteStream"%string)) as [Hn|Hn].
  - rewrite Hd by done. unfold handle_delete_stream. split.
    + repeat case_match; eauto.
    + split.
      * destruct (arguments c) as [|[bits| | | | | | | | ] rest] eqn:Ha; try discriminate.
        destruct (double_to_u32 bits) eqn:Hb; [by repeat case_match|]. intros _. by exists c, bits, rest.
      * intros (c' & bits & rest & [= <-] & _ & -> & ->). done.
  - assert (Hgo : exists sys', dispatch sys conn (message_stream_id message) now c = Ok sys').
    { unfold dispatch. cbv zeta. rewrite (bool_decide_false (name c = "deleteStream"%string)) by done.
      repeat case_match; eauto. }
    destruct Hgo as [sys' Hgo]. rewrite Hgo. split; [by left; eexists|]. split; [done|].
    intros (c' & bits & rest & [= <-] & ? & _). done.
Qed.
