(* ===== verification/SessionSafety.v ===== *)
(** Memory safety of playback: the relays of CommandSession.v are the sinks of the
    hub, and the hub holds plain pointers to them.

    The relays implement [SinkOwner], so the hub's side is HubContract.v.  Here the
    sessions' side: every handler keeps the subscriptions live, as long as no
    message rebinds a stream that is playing (a second play or publish on it, or a
    createStream that reuses its id).  Then no callback ever reaches a destroyed
    relay; a second play on one stream is an execution where one does. *)

From S2P Require Import Prelude Bytes Amf0 Chunk MediaIngest ViewerQueue GopCache StreamDirectory LiveFanout HubContract CommandSession.

(** * Live relays *)

(** The session has this relay, on a stream that plays [id]. *)
Definition session_plays (s : CommandSession) (m sub id : Z) : Prop :=
  has_live_fanout (config_ s) = true /\
  (exists sl, streams_ s !! m = Some sl /\ slot_state sl = NetStreamState.Playing /\
     slot_stream_key sl <> ""%string /\ slot_stream_id sl = id) /\
  (exists r, playback_relays_ s !! m = Some r /\ relay_subscriber_id r = sub).

Definition relay_live (id : Z) (sink : RelayId) (w : World) : Prop :=
  exists s, sessions w !! sink.1.1 = Some s /\ session_plays s sink.1.2 sink.2 id.

Definition same_world (w w' : World) : Prop :=
  sessions w' = sessions w /\ freed_call w' = freed_call w.

Lemma live_same w w' id sink : sessions w' = sessions w -> relay_live id sink w -> relay_live id sink w'.
Proof. intros E (s & Hs & Hp). exists s. by rewrite E. Qed.

(** Updating one session keeps the relays of the others. *)
Lemma live_update w w' conn s s' id sink :
  sessions w !! conn = Some s -> sessions w' = <[conn := s']> (sessions w) ->
  (sink.1.1 = conn -> session_plays s sink.1.2 sink.2 id -> session_plays s' sink.1.2 sink.2 id) ->
  relay_live id sink w -> relay_live id sink w'.
Proof.
  intros Hs E Hk (s0 & Hs0 & Hp). unfold relay_live. rewrite E.
  destruct (decide (sink.1.1 = conn)) as [Hc|Hc].
  - rewrite Hc in *. rewrite lookup_insert_eq. exists s'. assert (s0 = s) as -> by congruence.
    split; [done|]. by apply Hk.
  - rewrite lookup_insert_ne by done. by exists s0.
Qed.

Lemma plays_put_relay s m0 r r0 m sub id :
  playback_relays_ s !! m0 = Some r0 -> relay_subscriber_id r = relay_subscriber_id r0 ->
  session_plays s m sub id -> session_plays (put_relay m0 r s) m sub id.
Proof.
  intros Hr0 Hr (H1 & H2 & r1 & H3 & H4). split_and!; [done|done|]. cbn.
  destruct (decide (m = m0)) as [->|Hne].
  - rewrite lookup_insert_eq. exists r. split; [done|]. congruence.
  - rewrite lookup_insert_ne by done. by exists r1.
Qed.

(** What a stream plays is its configuration, its slot and its relay. *)
Lemma plays_frame s s' m sub id :
  config_ s' = config_ s -> streams_ s' !! m = streams_ s !! m ->
  playback_relays_ s' !! m = playback_relays_ s !! m ->
  session_plays s m sub id -> session_plays s' m sub id.
Proof. intros E1 E2 E3 (H1 & H2 & H3). unfold session_plays. by rewrite E1, E2, E3. Qed.

(** ** Replies change no session *)

Lemma same_world_refl w : same_world w w.
Proof. done. Qed.
Lemma same_world_trans w1 w2 w3 : same_world w1 w2 -> same_world w2 w3 -> same_world w1 w3.
Proof. intros [E1 E2] [E3 E4]. split; congruence. Qed.

Lemma emit_same w es : same_world w (emit w es).
Proof. done. Qed.
Lemma send_command_same w conn m vs : same_world w (send_command_message w conn m vs).
Proof. unfold send_command_message. by repeat case_match. Qed.
Lemma send_result_same w conn t p i : same_world w (send_result w conn t p i).
Proof. apply send_command_same. Qed.
Lemma send_status_same w conn m l c d : same_world w (send_status w conn m l c d).
Proof. apply send_command_same. Qed.

#[local] Hint Resolve same_world_refl emit_same send_command_same send_result_same send_status_same : core.

(** ** The callbacks *)

Lemma deliver_playback_shape w conn m s r f v :
  let w' := (deliver_playback_message w conn m s r f v).1 in
  freed_call w' = freed_call w /\
  exists r', relay_subscriber_id r' = relay_subscriber_id r /\
    sessions w' = <[conn := put_relay m r' s]> (sessions w).
Proof.
  unfold deliver_playback_message. cbv zeta. case_match; [split; [done|by exists r]|].
  destruct (offer _ _ _ _ _) as [q d].
  destruct d; (split; [done|]); eexists (with_relay_queue r _); split; reflexivity.
Qed.

Lemma playback_ended_shape w conn m s sl l c d :
  sessions w !! conn = Some s -> streams_ s !! m = Some sl ->
  let w' := playback_ended w conn m l c d in
  freed_call w' = freed_call w /\
  exists sl', sessions w' = <[conn := erase_relay m (put_slot m sl' s)]> (sessions w).
Proof.
  intros Hs Hsl. unfold playback_ended. rewrite Hs, Hsl. cbv zeta.
  set (w1 := if decide _ then _ else w).
  assert (same_world w w1) as [E1 E2] by (subst w1; by case_decide).
  set (idle := mkSlot _ _ _ _).
  set (w2 := send_status _ _ _ _ _ _).
  assert (same_world (on_session w1 conn (put_slot m idle)) w2) as [E3 E4] by apply send_status_same.
  unfold on_session in E3, E4. rewrite E1, Hs in E3, E4. cbn in E3, E4.
  unfold on_session. rewrite E3, lookup_insert_eq. cbn. split; [congruence|].
  exists idle. rewrite E3, E1. apply insert_insert_eq.
Qed.

(** A call on a relay changes its own session, and its own stream only if terminal. *)
Definition touches (c : SinkCall) (conn m : Z) (w w' : World) : Prop :=
  freed_call w' = freed_call w /\
  exists s s', sessions w !! conn = Some s /\ sessions w' = <[conn := s']> (sessions w) /\
    forall m' sub id', (m' <> m \/ terminal c = false) ->
      session_plays s m' sub id' -> session_plays s' m' sub id'.

Lemma deliver_touches c w conn m s r r' f v :
  sessions w !! conn = Some s -> playback_relays_ s !! m = Some r ->
  relay_subscriber_id r' = relay_subscriber_id r ->
  touches c conn m w (deliver_playback_message w conn m s r' f v).1.
Proof.
  intros Hs Hr E. destruct (deliver_playback_shape w conn m s r' f v) as (Hf & r2 & E2 & Es).
  split; [done|]. exists s, (put_relay m r2 s). split_and!; [done..|].
  intros m' sub' id' _. apply (plays_put_relay s m r2 r); [done|congruence].
Qed.

Lemma ended_touches c w conn m s sl l code d :
  sessions w !! conn = Some s -> streams_ s !! m = Some sl -> terminal c = true ->
  touches c conn m w (playback_ended w conn m l code d).
Proof.
  intros Hs Hsl Ht. destruct (playback_ended_shape w conn m s sl l code d Hs Hsl) as (Hf & sl' & Es).
  split; [done|]. eexists s, _. split_and!; [done..|]. intros m' sub' id' [Hne|?]; [|congruence].
  apply (plays_frame s); [done| |]; cbn; by rewrite ?lookup_insert_ne, ?lookup_delete_ne.
Qed.

Lemma invoke_live_shape id sink c w :
  relay_live id sink w -> touches c sink.1.1 sink.1.2 w (invoke_relay sink c w).1.
Proof.
  destruct sink as [ [conn m] sub]. intros (s & Hs & H1 & (sl & Hsl & _) & r & Hr & Hsub).
  cbn [fst snd] in *. unfold invoke_relay. rewrite Hs, Hr, Hsub, Z.eqb_refl. cbn [negb].
  destruct c as [f|f|f| |]; cbn [fst];
    [eapply deliver_touches; [done..|by case_match]|eapply deliver_touches; [done..|by case_match]
    |by eapply deliver_touches|by eapply ended_touches|by eapply ended_touches].
Qed.

#[export] Instance relay_owner : SinkOwner invoke_relay.
Proof.
  refine {| serves := relay_live; sound := fun w => freed_call w = false; sink_key := snd |}.
  - intros id id' sink w (s & Hs & _ & (sl & Hsl & _ & _ & <-) & _) (s' & Hs' & _ & (sl' & Hsl' & _ & _ & <-) & _).
    congruence.
  - intros id sink c w Hl Hf. by destruct (invoke_live_shape id sink c w Hl) as [-> _].
  - intros id sink c w id' sink' Hl Hl' Hc.
    destruct (invoke_live_shape id sink c w Hl) as (_ & s & s' & Hs & Es & Hk).
    apply (live_update w _ sink.1.1 s s'); [done..| |done]. intros Hconn Hp. apply Hk; [|done].
    destruct Hc as [Hc|Hc]; [left|by right]. intros Hm. apply Hc.
    destruct Hl as (s0 & Hs0 & _ & _ & r & Hr & Hsub).
    destruct Hp as (_ & _ & r' & Hr' & Hsub').
    assert (s0 = s) as -> by congruence. assert (r' = r) as -> by congruence.
    destruct sink as [ [c1 m1] b1], sink' as [ [c2 m2] b2]. cbn in *. congruence.
Defined.

(** * The handlers *)

Definition sys_ok (sys : System) : Prop := hub_ok invoke_relay (hub sys) (world sys).

Lemma hub_ok_world fo w w' :
  freed_call w' = freed_call w ->
  (forall id sink, subscribed fo id sink.2 sink -> relay_live id sink w -> relay_live id sink w') ->
  hub_ok invoke_relay fo w -> hub_ok invoke_relay fo w'.
Proof.
  intros Hf Hl [Hs Hok]. split; [by cbn in *; rewrite Hf|]. intros id sub sink Hsub.
  destruct (Hok id sub sink Hsub) as [-> Hv]. split; [done|]. by apply Hl.
Qed.

Lemma hub_ok_same fo w w' : same_world w w' -> hub_ok invoke_relay fo w -> hub_ok invoke_relay fo w'.
Proof. intros [E1 E2]. apply hub_ok_world; [done|]. intros id sink _. by apply live_same. Qed.

(** Updating one session, keeping what its subscribed relays need. *)
Lemma hub_ok_update fo w w' conn s s' :
  sessions w !! conn = Some s -> sessions w' = <[conn := s']> (sessions w) ->
  freed_call w' = freed_call w ->
  (forall m sub id, subscribed fo id sub (conn, m, sub) ->
     session_plays s m sub id -> session_plays s' m sub id) ->
  hub_ok invoke_relay fo w -> hub_ok invoke_relay fo w'.
Proof.
  intros Hs E Hf Hk. apply hub_ok_world; [done|]. intros id [ [c m] sub] Hsub.
  apply (live_update w w' conn s s'); [done..|]. cbn. intros ->. by apply Hk.
Qed.

(** A stream that does not play has no subscription. *)
Lemma idle_unsubscribed fo w conn m s :
  hub_ok invoke_relay fo w -> sessions w !! conn = Some s ->
  stream_state s m <> NetStreamState.Playing -> forall id sub sub', ~ subscribed fo id sub (conn, m, sub').
Proof.
  intros [_ Hok] Hs Hst id sub sub' Hsub. apply Hok in Hsub as (_ & s0 & Hs0 & _ & (sl & Hsl & Hp & _) & _).
  cbn in *. assert (s0 = s) as -> by congruence. apply Hst. unfold stream_state. by rewrite Hsl.
Qed.

(** Rebinding a stream that does not play. *)
Lemma hub_ok_rebind fo w w' conn m s s' :
  hub_ok invoke_relay fo w -> sessions w !! conn = Some s ->
  stream_state s m <> NetStreamState.Playing ->
  sessions w' = <[conn := s']> (sessions w) -> freed_call w' = freed_call w ->
  config_ s' = config_ s -> (forall m', m' <> m -> streams_ s' !! m' = streams_ s !! m') ->
  (forall m', m' <> m -> playback_relays_ s' !! m' = playback_relays_ s !! m') ->
  hub_ok invoke_relay fo w'.
Proof.
  intros Hok Hs Hst E Hf E1 E2 E3. apply (hub_ok_update fo w w' conn s s'); [done..| |done].
  intros m' sub id Hsub. destruct (decide (m' = m)) as [->|Hne].
  - by apply (idle_unsubscribed fo w conn m s Hok Hs Hst) in Hsub.
  - apply plays_frame; auto.
Qed.

Lemma handle_connect_ok fo w conn c :
  hub_ok invoke_relay fo w -> hub_ok invoke_relay fo (handle_connect w conn c).
Proof.
  intros Hok. unfold handle_connect. cbv zeta. eapply hub_ok_same; [apply send_result_same|].
  unfold on_session. destruct (sessions w !! conn) as [s|] eqn:Hs; [|done].
  eapply (hub_ok_update fo w); [done..| |done]. intros m sub id _. by apply plays_frame.
Qed.

Lemma handle_create_stream_ok fo w conn c :
  hub_ok invoke_relay fo w ->
  (forall s, sessions w !! conn = Some s -> stream_state s (next_stream_id_ s) <> NetStreamState.Playing) ->
  hub_ok invoke_relay fo (handle_create_stream w conn c).
Proof.
  intros Hok Hst. unfold handle_create_stream. destruct (sessions w !! conn) as [s|] eqn:Hs; [|done].
  cbv zeta. eapply hub_ok_same; [apply send_result_same|].
  eapply (hub_ok_rebind fo w _ conn (next_stream_id_ s) s); [done|done|by apply Hst|done..| |]; cbn;
    intros m' Hne; by rewrite ?lookup_insert_ne.
Qed.

Lemma handle_publish_ok fo w conn m now c :
  hub_ok invoke_relay fo w ->
  (forall s, sessions w !! conn = Some s -> stream_state s m <> NetStreamState.Playing) ->
  hub_ok invoke_relay fo (handle_publish w conn m now c).
Proof.
  intros Hok Hst. unfold handle_publish. destruct (sessions w !! conn) as [s|] eqn:Hs; [|done].
  cbv zeta. case_match; [eapply hub_ok_same; [apply send_status_same|done]|].
  case_match; [|eapply hub_ok_same; [apply send_status_same|done]].
  destruct (register_publisher _ _ _ _ _ _) as [ [ok reg] delta].
  case_match; [eapply hub_ok_same; [apply send_status_same|done]|].
  destruct (resolve _ _ _) as [ids' stream_id].
  set (w1 := send_status _ _ _ _ _ _).
  assert (hub_ok invoke_relay fo w1) as Hok1.
  { eapply hub_ok_same; [apply send_status_same|].
    eapply (hub_ok_rebind fo w _ conn m s); [done|done|by apply Hst|done..| |]; cbn;
      intros m' Hne; by rewrite ?lookup_insert_ne. }
  case_match; [|done]. by eapply hub_ok_same; [apply emit_same|].
Qed.

(** ** Calls of the hub *)

Definition sys_keeps (sys sys' : System) : Prop := sys_ok sys' /\ shrinks (hub sys) (hub sys').

Lemma sys_keeps_refl sys : sys_ok sys -> sys_keeps sys sys.
Proof. intros H. split; [done|]. by intros ???. Qed.

Lemma sys_keeps_trans s1 s2 s3 : sys_keeps s1 s2 -> sys_keeps s2 s3 -> sys_keeps s1 s3.
Proof. intros [_ H1] [H2 H3]. split; [done|]. intros id sub sink H. by apply H1, H3. Qed.

Lemma on_world_keeps f sys :
  sys_ok sys -> hub_ok invoke_relay (hub sys) (f (world sys)) -> sys_keeps sys (on_world f sys).
Proof. intros _ H. split; [exact H|]. by intros ???. Qed.

Lemma on_world_same f sys :
  sys_ok sys -> same_world (world sys) (f (world sys)) -> sys_keeps sys (on_world f sys).
Proof. intros Hok Hs. apply on_world_keeps; [done|]. by eapply hub_ok_same. Qed.

Lemma hub_call_keeps sys op :
  keeps invoke_relay (hub sys) (op (hub sys) (world sys)) -> sys_keeps sys (hub_call sys op).
Proof.
  unfold keeps, hub_call. destruct (op _ _) as [ [w fo] ev]. cbn. intros [H1 H2].
  split; [|done]. by eapply hub_ok_same; [apply emit_same|].
Qed.

Lemma hub_unsubscribe_keeps sys id sub :
  sys_ok sys -> sys_keeps sys (hub_unsubscribe sys id sub) /\
  forall sink, ~ subscribed (hub (hub_unsubscribe sys id sub)) id sub sink.
Proof.
  intros Hok. unfold hub_unsubscribe. pose proof (unsubscribe_shrinks (hub sys) id sub) as [H1 H2].
  destruct (unsubscribe (hub sys) id sub) as [fo ev]. cbn [fst hub] in *. split; [|done].
  split; [|done]. eapply hub_ok_same; [apply emit_same|]. by eapply hub_ok_shrinks.
Qed.

Lemma publish_media_keeps sys c sl rec message kind op :
  sys_ok sys ->
  (forall w, hub_ok invoke_relay (hub sys) w -> keeps invoke_relay (hub sys) (op (hub sys) w)) ->
  sys_keeps sys (publish_media sys c sl rec message kind op).
Proof.
  intros Hok Hop. unfold publish_media. cbv zeta.
  set (sys1 := if has_media_ingest c then _ else sys).
  assert (H1 : sys_keeps sys sys1 /\ hub sys1 = hub sys).
  { subst sys1. case_match; [|by split; [apply sys_keeps_refl|] ]. split; [|done]. by apply on_world_same. }
  set (sys2 := match rec with Some _ => _ | None => sys1 end).
  assert (H2 : sys_keeps sys sys2 /\ hub sys2 = hub sys).
  { subst sys2. destruct H1 as [H1 E]. case_match; [|done]. split; [|done].
    eapply sys_keeps_trans; [done|]. apply on_world_same; [apply H1|done]. }
  destruct H2 as [H2 E]. case_match; [|done]. eapply sys_keeps_trans; [done|].
  apply hub_call_keeps. rewrite E. apply Hop. rewrite <- E. apply H2.
Qed.

Lemma route_media_keeps sys conn message :
  sys_ok sys -> sys_keeps sys (route_media_message sys conn message).
Proof.
  intros Hok. unfold route_media_message.
  destruct (sessions (world sys) !! conn) as [s|]; [|by apply sys_keeps_refl].
  case_match; [by apply sys_keeps_refl|].
  destruct (streams_ s !! _) as [sl|]; [|by apply sys_keeps_refl].
  case_match; [by apply sys_keeps_refl|]. cbv zeta.
  destruct (message_type_id message =? MessageTypeId.Audio);
    [apply publish_media_keeps; [done|]; intros w Hw; by apply on_audio_keeps|].
  destruct (message_type_id message =? MessageTypeId.Video);
    [apply publish_media_keeps; [done|]; intros w Hw; by apply on_video_keeps|].
  destruct (message_type_id message =? MessageTypeId.Amf0Data);
    [apply publish_media_keeps; [done|]; intros w Hw; by apply on_metadata_keeps|by apply sys_keeps_refl].
Qed.

(** ** play *)

(** No relay of this stream is subscribed. *)
Definition unbound (fo : @LiveFanout RelayId) (conn m : Z) : Prop :=
  forall id sub sub', ~ subscribed fo id sub (conn, m, sub').

Lemma unbound_shrinks fo fo' conn m : shrinks fo fo' -> unbound fo conn m -> unbound fo' conn m.
Proof. intros H Hu id sub sub' Hs. by apply H, Hu in Hs. Qed.

(** A session may change a stream none of whose relays is subscribed. *)
Lemma hub_ok_unbound fo w w' conn m s s' :
  hub_ok invoke_relay fo w -> sessions w !! conn = Some s -> unbound fo conn m ->
  sessions w' = <[conn := s']> (sessions w) -> freed_call w' = freed_call w ->
  config_ s' = config_ s -> (forall m', m' <> m -> streams_ s' !! m' = streams_ s !! m') ->
  (forall m', m' <> m -> playback_relays_ s' !! m' = playback_relays_ s !! m') ->
  hub_ok invoke_relay fo w'.
Proof.
  intros Hok Hs Hu E Hf E1 E2 E3. apply (hub_ok_update fo w w' conn s s'); [done..| |done].
  intros m' sub id Hsub. destruct (decide (m' = m)) as [->|Hne]; [by apply Hu in Hsub|].
  apply plays_frame; auto.
Qed.

Lemma attach_relay_ok sys conn m id s sl :
  sys_ok sys -> sessions (world sys) !! conn = Some s -> has_live_fanout (config_ s) = true ->
  streams_ s !! m = Some sl -> slot_state sl = NetStreamState.Playing ->
  slot_stream_key sl <> ""%string -> slot_stream_id sl = id -> unbound (hub sys) conn m ->
  sys_ok (attach_relay sys conn m id).
Proof.
  intros Hok Hs Hl Hsl Hp Hk Hid Hu. unfold attach_relay. rewrite Hs. unfold next_subscriber.
  set (sub := u64 _). unfold on_session. cbn [sessions]. rewrite Hs.
  set (r := mkRelay _ _ _ _). set (w := put_session _ conn _).
  assert (Hok1 : hub_ok invoke_relay (hub sys) w).
  { eapply (hub_ok_unbound (hub sys) (world sys) w conn m s); [done..|].
    intros m' Hne. cbn. by rewrite lookup_insert_ne. }
  assert (Hlive : relay_live id (conn, m, sub) w).
  { exists (put_relay m r s). cbn. rewrite lookup_insert_eq. split; [done|]. split_and!; [done|by exists sl|].
    exists r. cbn. by rewrite lookup_insert_eq. }
  pose proof (subscribe_keeps invoke_relay (hub sys) id (conn, m, sub) (client_ip (config_ s)) w Hok1 Hlive)
    as [H _].
  unfold hub_call. cbn [hub world]. change (sink_key (conn, m, sub)) with sub in H.
  destruct (subscribe _ _ _ _ _ _ _) as [ [w' fo'] ev]. cbn in H.
  by eapply hub_ok_same; [apply emit_same|].
Qed.

Lemma handle_play_ok sys conn m c :
  sys_ok sys ->
  (forall s, sessions (world sys) !! conn = Some s -> stream_state s m <> NetStreamState.Playing) ->
  sys_ok (handle_play sys conn m c).
Proof.
  intros Hok Hst. unfold handle_play. destruct (sessions (world sys) !! conn) as [s|] eqn:Hs; [|done].
  specialize (Hst s eq_refl). destruct (split_query (first_string c)) as [key query].
  case_match; [apply on_world_same; [done|apply send_status_same]|].
  destruct (resolve _ _ _) as [ids' id]. cbv zeta. set (sl := mkSlot _ _ _ _).
  set (w1 := mkWorld _ _ _ _ _ _ _). set (w2 := if has_outgoing_handler (config_ s) then _ else w1).
  set (w3 := send_status w2 _ _ _ _ _).
  assert (Hw : same_world w1 w3).
  { apply (same_world_trans w1 w2); [|apply send_status_same]. subst w2. by destruct (has_outgoing_handler _). }
  assert (Hu : unbound (hub sys) conn m) by (intros ???; by eapply idle_unsubscribed).
  assert (Hok3 : hub_ok invoke_relay (hub sys) w3).
  { eapply hub_ok_same; [done|].
    eapply (hub_ok_unbound (hub sys) (world sys) w1 conn m s); [done|done|done|reflexivity|done..| |done].
    intros m' Hne. cbn. by rewrite lookup_insert_ne. }
  apply on_world_same; [|done]. destruct (has_live_fanout (config_ s) && _) eqn:Hb; [|done].
  apply andb_true_iff in Hb as [Hl Hkey]. apply negb_true_iff, bool_decide_eq_false in Hkey.
  apply (attach_relay_ok _ conn m id (put_slot m sl s) sl); [done| |done| |done..].
  - cbn. rewrite (proj1 Hw). cbn. apply lookup_insert_eq.
  - cbn. apply lookup_insert_eq.
Qed.

(** ** deleteStream and connection close *)

Lemma finalize_keeps sys s sl : sys_ok sys -> sys_keeps sys (finalize_recorder sys s sl).
Proof.
  intros Hok. unfold finalize_recorder.
  repeat case_match; first [by apply on_world_same|by apply sys_keeps_refl].
Qed.

Lemma stop_publishing_keeps sys conn s sl :
  sys_ok sys -> sys_keeps sys (stop_publishing sys conn s sl).
Proof.
  intros Hok. unfold stop_publishing. cbv zeta. set (sys1 := on_world _ sys).
  assert (H1 : sys_keeps sys sys1) by by apply on_world_same.
  pose proof (finalize_keeps sys1 s sl (proj1 H1)) as H2. set (sys2 := finalize_recorder sys1 s sl) in *.
  set (sys3 := if has_live_fanout (config_ s) then _ else sys2).
  assert (H3 : sys_keeps sys2 sys3).
  { subst sys3. case_match; [|apply sys_keeps_refl, H2].
    apply hub_call_keeps, publisher_stopped_keeps, H2. }
  eapply sys_keeps_trans; [exact H1|]. eapply sys_keeps_trans; [exact H2|].
  eapply sys_keeps_trans; [exact H3|]. apply on_world_same; [apply H3|done].
Qed.

(** Leaving a playing stream unsubscribes its relay. *)
Lemma detach_viewer_keeps sys conn s id sl :
  sys_ok sys -> sessions (world sys) !! conn = Some s -> streams_ s !! id = Some sl ->
  sys_keeps sys (detach_viewer sys s id sl) /\ unbound (hub (detach_viewer sys s id sl)) conn id /\
  sessions (world (detach_viewer sys s id sl)) = sessions (world sys).
Proof.
  intros Hok Hs Hsl.
  assert (Hb : forall i sub sub', subscribed (hub sys) i sub (conn, id, sub') ->
    sub' = sub /\ has_live_fanout (config_ s) = true /\ slot_stream_id sl = i /\
    exists r, playback_relays_ s !! id = Some r /\ relay_subscriber_id r = sub).
  { intros i sub sub' Hsub. apply Hok in Hsub as (-> & s0 & Hs0 & Hl & (sl0 & Hsl0 & _ & _ & <-) & r & Hr).
    cbn in *. assert (s0 = s) as -> by congruence. assert (sl0 = sl) as -> by congruence.
    split_and!; [done..|]. by exists r. }
  unfold detach_viewer. destruct (playback_relays_ s !! id) as [r|] eqn:Hr.
  2: { split_and!; [by apply sys_keeps_refl| |done]. intros i sub sub' Hsub.
       apply Hb in Hsub as (_ & _ & _ & r & ? & _). done. }
  destruct (has_live_fanout (config_ s)).
  2: { split_and!; [by apply sys_keeps_refl| |done]. intros i sub sub' Hsub.
       by apply Hb in Hsub as (_ & ? & _). }
  destruct (hub_unsubscribe_keeps sys (slot_stream_id sl) (relay_subscriber_id r) Hok) as [Hk Hn].
  split_and!; [done| |unfold hub_unsubscribe; by case_match].
  intros i sub sub' Hsub. pose proof (proj2 Hk _ _ _ Hsub) as Hsub0.
  apply Hb in Hsub0 as (-> & _ & <- & r' & [= <-] & <-). by apply Hn in Hsub.
Qed.

(** Tearing down what a slot holds leaves none of its relays subscribed. *)
Definition teardown (sys : System) (conn : Z) (s : CommandSession) (id : Z) (sl : StreamSlot) : System :=
  let named := negb (bool_decide (slot_stream_key sl = ""%string)) in
  if bool_decide (slot_state sl = NetStreamState.Publishing) && named
  then stop_publishing sys conn s sl
  else if bool_decide (slot_state sl = NetStreamState.Playing) && named
  then detach_viewer sys s id sl else sys.

Lemma teardown_keeps sys conn s id sl :
  sys_ok sys -> sessions (world sys) !! conn = Some s -> streams_ s !! id = Some sl ->
  sys_keeps sys (teardown sys conn s id sl) /\ unbound (hub (teardown sys conn s id sl)) conn id.
Proof.
  intros Hok Hs Hsl. unfold teardown. cbv zeta.
  destruct (bool_decide (slot_state sl = NetStreamState.Playing) &&
    negb (bool_decide (slot_stream_key sl = ""%string))) eqn:Hpl.
  - apply andb_true_iff in Hpl as [Hpl _]. apply bool_decide_eq_true in Hpl. rewrite Hpl. cbn [andb].
    rewrite bool_decide_false by done. cbn [andb].
    by destruct (detach_viewer_keeps sys conn s id sl Hok Hs Hsl) as (H1 & H2 & _).
  - assert (Hu : unbound (hub sys) conn id).
    { intros i sub sub' Hsub.
      apply Hok in Hsub as (_ & s0 & Hs0 & _ & (sl0 & Hsl0 & Hp & Hk & _) & _). cbn in *.
      assert (s0 = s) as -> by congruence. assert (sl0 = sl) as -> by congruence.
      by rewrite bool_decide_true, bool_decide_false in Hpl. }
    case_match; [|by split; [apply sys_keeps_refl|] ].
    pose proof (stop_publishing_keeps sys conn s sl Hok) as H1. split; [done|].
    eapply unbound_shrinks; [apply H1|done].
Qed.

(** Changing a session outside the streams that have subscribed relays. *)
Lemma on_session_ok sys conn id f :
  sys_ok sys -> unbound (hub sys) conn id ->
  (forall s, config_ (f s) = config_ s) ->
  (forall s m, m <> id -> streams_ (f s) !! m = streams_ s !! m) ->
  (forall s m, m <> id -> playback_relays_ (f s) !! m = playback_relays_ s !! m) ->
  sys_ok (on_world (fun w => on_session w conn f) sys).
Proof.
  intros Hok Hu E1 E2 E3. unfold sys_ok, on_world, on_session. cbn.
  destruct (sessions (world sys) !! conn) as [s|] eqn:Hs; [|done].
  apply (hub_ok_unbound (hub sys) (world sys) _ conn id s (f s)); auto.
Qed.

Lemma delete_stream_ok sys conn c sys' :
  sys_ok sys -> handle_delete_stream sys conn c = Ok sys' -> sys_ok sys'.
Proof.
  intros Hok. unfold handle_delete_stream.
  destruct (arguments c) as [|[bits| | | | | | | | ] args];
    lazymatch goal with |- Ok _ = Ok _ -> _ => by intros [= <-] | _ => idtac end.
  destruct (double_to_u32 bits) as [id|]; [|done].
  destruct (sessions (world sys) !! conn) as [s|] eqn:Hs; [|by intros [= <-] ].
  destruct (streams_ s !! id) as [sl|] eqn:Hsl; [|by intros [= <-] ].
  cbv zeta. intros [= <-].
  pose proof (teardown_keeps sys conn s id sl Hok Hs Hsl) as [ [Hok1 _] Hu]. unfold teardown in *.
  cbv zeta in *. set (named := negb _) in *.
  apply (on_session_ok _ conn id);
    [| |done|intros s' m Hne; cbn; by rewrite lookup_delete_ne|done];
    (destruct (bool_decide (slot_state sl = NetStreamState.Publishing) && named); [done|];
     destruct (bool_decide (slot_state sl = NetStreamState.Playing) && named); [|done]); [|done].
  eapply (hub_ok_same _ _ _ (emit_same _ _)).
  apply (on_session_ok _ conn id); [done..|]. intros s' m Hne. cbn. by rewrite lookup_delete_ne.
Qed.

Lemma close_slots_keeps conn todo : forall sys, sys_ok sys ->
  sys_keeps sys (close_slots sys conn todo) /\
  forall id, id ∈ todo -> unbound (hub (close_slots sys conn todo)) conn id.
Proof.
  induction todo as [|id todo IH]; intros sys Hok; cbn [close_slots].
  { split; [by apply sys_keeps_refl|]. intros id H. by apply elem_of_nil in H. }
  assert (Hgone : (forall s, sessions (world sys) !! conn = Some s -> streams_ s !! id = None) ->
    unbound (hub sys) conn id).
  { intros H i sub sub' Hsub. apply Hok in Hsub as (_ & s0 & Hs0 & _ & (sl0 & Hsl0 & _) & _).
    cbn in *. apply H in Hs0. congruence. }
  assert (Hstep : forall sys1, sys_keeps sys sys1 -> unbound (hub sys1) conn id ->
    sys_keeps sys (close_slots sys1 conn todo) /\
    forall id', id' ∈ id :: todo -> unbound (hub (close_slots sys1 conn todo)) conn id').
  { intros sys1 H1 Hu. destruct (IH sys1 (proj1 H1)) as [H2 H3]. split; [by eapply sys_keeps_trans|].
    intros id' Hin. apply elem_of_cons in Hin as [->|Hin]; [|by apply H3].
    eapply unbound_shrinks; [apply H2|done]. }
  destruct (sessions (world sys) !! conn) as [s|] eqn:Hs.
  2: { split; [by apply sys_keeps_refl|]. intros id' _ i sub sub' Hsub.
       apply Hok in Hsub as (_ & s0 & Hs0 & _). cbn in *. congruence. }
  destruct (streams_ s !! id) as [sl|] eqn:Hsl.
  2: { apply Hstep; [by apply sys_keeps_refl|]. apply Hgone. by intros s0 [= <-]. }
  cbv zeta. pose proof (teardown_keeps sys conn s id sl Hok Hs Hsl) as [H1 Hu].
  unfold teardown in H1, Hu. cbv zeta in H1, Hu. set (named := negb _) in *.
  destruct (bool_decide (slot_state sl = NetStreamState.Publishing) && named); [by apply Hstep|].
  destruct (bool_decide (slot_state sl = NetStreamState.Playing) && named); [|by apply Hstep].
  apply Hstep; [|done]. eapply sys_keeps_trans; [done|]. apply on_world_same; [apply H1|done].
Qed.

(** Closing a connection leaves none of its relays subscribed. *)
Lemma on_connection_closed_keeps sys conn :
  sys_ok sys -> sys_keeps sys (on_connection_closed sys conn) /\
  forall id, unbound (hub (on_connection_closed sys conn)) conn id.
Proof.
  intros Hok. unfold on_connection_closed. destruct (sessions (world sys) !! conn) as [s|] eqn:Hs.
  2: { split; [by apply sys_keeps_refl|]. intros id i sub sub' Hsub.
       apply Hok in Hsub as (_ & s0 & Hs0 & _). cbn in *. congruence. }
  cbv zeta. destruct (close_slots_keeps conn (map fst (map_to_list (streams_ s))) sys Hok) as [H1 H2].
  set (sys1 := close_slots _ _ _) in *.
  assert (Hu : forall id, unbound (hub sys1) conn id).
  { intros id i sub sub' Hsub. apply (H2 id) in Hsub; [done|].
    apply H1, Hok in Hsub as (_ & s0 & Hs0 & _ & (sl & Hsl & _) & _). cbn in *.
    assert (s0 = s) as -> by congruence. apply list_elem_of_fmap. exists (id, sl).
    split; [done|]. by apply elem_of_map_to_list. }
  split; [|exact Hu]. eapply sys_keeps_trans; [done|]. apply on_world_keeps; [apply H1|].
  cbv zeta. unfold set_registry. eapply (hub_ok_same _ (on_session (world sys1) conn _)); [done|].
  unfold on_session. destruct (sessions (world sys1) !! conn) as [s1|] eqn:Hs1; [|apply H1].
  eapply (hub_ok_update _ (world sys1)); [done..| |apply H1]. intros m sub id Hsub.
  by apply Hu in Hsub.
Qed.

(** * Executions of the server *)

(** The message rebinds a stream of its connection that is playing. *)
Definition rebinds_playing (sys : System) (conn : Z) (message : RtmpMessage) : bool :=
  match sessions (world sys) !! conn, command_in message with
  | Some s, Some c =>
      let playing m := bool_decide (stream_state s m = NetStreamState.Playing) in
      if bool_decide (name c = "publish"%string \/ name c = "play"%string)
      then playing (message_stream_id message)
      else bool_decide (name c = "createStream"%string) && playing (next_stream_id_ s)
  | _, _ => false
  end.

(** What happens to a server: connections come, send messages, drain their socket
    and go (the session is destroyed after its teardown). *)
Inductive Input :=
| Opened (conn : Z) (c : Config)
| Received (conn now : Z) (message : RtmpMessage)
| Drained (conn : Z) (pending : QueueBacklog)
| Closed (conn : Z).

Definition set_pending (b : QueueBacklog) (s : CommandSession) : CommandSession :=
  mkCommandSession (config_ s) (connected_ s) (app_name_ s) (next_stream_id_ s)
    (last_created_stream_id_ s) (streams_ s) (playback_relays_ s) b.

Definition destroy_session (conn : Z) (w : World) : World :=
  mkWorld (delete conn (sessions w)) (registry w) (ids w) (ingest w) (last_subscriber_id w)
    (freed_call w) (events w).

Definition server_step (sys : System) (i : Input) : Res System :=
  match i with
  | Opened conn c =>
      Ok (if bool_decide (is_Some (sessions (world sys) !! conn)) then sys
          else on_world (fun w => put_session w conn (make_session c)) sys)
  | Received conn now message => handle_message sys conn now message
  | Drained conn b => Ok (on_world (fun w => on_session w conn (set_pending b)) sys)
  | Closed conn => Ok (on_world (destroy_session conn) (on_connection_closed sys conn))
  end.

Fixpoint server_run (sys : System) (inputs : list Input) : Res System :=
  match inputs with
  | [] => Ok sys
  | i :: inputs => sys <- server_step sys i;; server_run sys inputs
  end.

Definition polite (sys : System) (i : Input) : bool :=
  match i with Received conn _ message => negb (rebinds_playing sys conn message) | _ => true end.

Fixpoint polite_run (sys : System) (inputs : list Input) : bool :=
  match inputs with
  | [] => true
  | i :: inputs =>
      polite sys i && match server_step sys i with Ok sys => polite_run sys inputs | _ => true end
  end.

Definition empty_world : World := mkWorld ∅ ∅ empty_id_registry ∅ 0 false [].
Definition make_server (g : GopLimits) (q : QueueLimits) (max_waiting : Z) : System :=
  mkSystem empty_world (make_fanout g q max_waiting).

Lemma make_server_ok g q mw : sys_ok (make_server g q mw).
Proof. split; [done|]. intros id sub sink (st & H & _). cbn in H. by rewrite lookup_empty in H. Qed.

Lemma dispatch_ok sys conn m now c sys' :
  sys_ok sys ->
  (name c = "publish"%string \/ name c = "play"%string -> forall s,
     sessions (world sys) !! conn = Some s -> stream_state s m <> NetStreamState.Playing) ->
  (name c = "createStream"%string -> forall s, sessions (world sys) !! conn = Some s ->
     stream_state s (next_stream_id_ s) <> NetStreamState.Playing) ->
  dispatch sys conn m now c = Ok sys' -> sys_ok sys'.
Proof.
  intros Hok Hbind Hcreate. unfold dispatch. cbv zeta.
  destruct (bool_decide (name c = "connect"%string)); [intros [= <-]; by apply handle_connect_ok|].
  case_match; [intros [= <-]; apply on_world_same; [done|apply send_result_same]|].
  case_match; [intros [= <-]; apply on_world_same; [done|apply send_result_same]|].
  destruct (bool_decide (name c = "createStream"%string)) eqn:E1.
  { intros [= <-]. apply bool_decide_eq_true in E1. by apply handle_create_stream_ok; [|apply Hcreate]. }
  destruct (bool_decide (name c = "publish"%string)) eqn:E2.
  { intros [= <-]. apply bool_decide_eq_true in E2. apply handle_publish_ok; [done|]. apply Hbind. by left. }
  destruct (bool_decide (name c = "play"%string)) eqn:E3.
  { intros [= <-]. apply bool_decide_eq_true in E3. apply handle_play_ok; [done|]. apply Hbind. by right. }
  case_match; [by apply delete_stream_ok|by intros [= <-] ].
Qed.

Lemma handle_message_ok sys conn now message sys' :
  sys_ok sys -> rebinds_playing sys conn message = false ->
  handle_message sys conn now message = Ok sys' -> sys_ok sys'.
Proof.
  intros Hok Hr. unfold handle_message.
  case_match; [intros [= <-]; by apply route_media_keeps|].
  unfold rebinds_playing, command_in in Hr.
  destruct (message_type_id message =? MessageTypeId.Amf0Command); cbn [negb]; [|by intros [= <-] ].
  destruct (decode_all (payload message)) as [values| | |]; [|by intros [= <-]|done|done].
  destruct (command_of values) as [c|]; [|by intros [= <-] ].
  apply dispatch_ok; [done| |].
  - intros Hn s Hs. rewrite Hs, bool_decide_true in Hr by done. by apply bool_decide_eq_false in Hr.
  - intros Hn s Hs. rewrite Hs, Hn, bool_decide_false, bool_decide_true in Hr by naive_solver.
    by apply bool_decide_eq_false in Hr.
Qed.

Lemma server_step_ok sys i sys' :
  sys_ok sys -> polite sys i = true -> server_step sys i = Ok sys' -> sys_ok sys'.
Proof.
  intros Hok Hp. destruct i as [conn c|conn now message|conn b|conn]; cbn [server_step].
  - intros [= <-]. case_bool_decide as Hs; [done|].
    apply (hub_ok_world (hub sys) (world sys)); [done| |done].
    intros id sink Hsub (s & Hs' & Hpl). exists s. split; [|done].
    cbn. rewrite lookup_insert_ne; [done|]. intros E. apply Hs. rewrite E. by exists s.
  - apply handle_message_ok; [done|]. by apply negb_true_iff.
  - intros [= <-]. unfold sys_ok, on_world, on_session. cbn.
    destruct (sessions (world sys) !! conn) as [s|] eqn:Hs; [|done].
    eapply (hub_ok_update _ (world sys)); [done..| |done]. intros m sub id _. by apply plays_frame.
  - intros [= <-]. destruct (on_connection_closed_keeps sys conn Hok) as [ [H1 _] Hu].
    unfold sys_ok, on_world. cbn [hub world].
    apply (hub_ok_world _ (world (on_connection_closed sys conn))); [done| |done].
    intros id [ [c m] sub] Hsub (s & Hs & Hpl). exists s. split; [|done]. cbn in *.
    rewrite lookup_delete_ne; [done|]. intros <-. by apply Hu in Hsub.
Qed.

Lemma server_run_ok inputs : forall sys sys',
  sys_ok sys -> polite_run sys inputs = true -> server_run sys inputs = Ok sys' -> sys_ok sys'.
Proof.
  induction inputs as [|i inputs IH]; intros sys sys' Hok Hp; cbn [server_run polite_run] in *.
  { by intros [= <-]. }
  apply andb_true_iff in Hp as [Hp1 Hp2]. destruct (server_step sys i) as [sys1| | |] eqn:E; try done.
  rewrite bind_Ok. apply IH; [by eapply server_step_ok|done].
Qed.

(** C23. Whatever connections open, send, drain and close, as long as no message rebinds
    a stream that is playing: the fan-out hub never calls a destroyed relay, and every
    subscription it holds at the end is of a live relay of an open session, on a stream
    slot that is playing that stream. *)
Theorem no_use_after_free g q mw inputs sys' :
  polite_run (make_server g q mw) inputs = true ->
  server_run (make_server g q mw) inputs = Ok sys' ->
  freed_call (world sys') = false /\
  forall id sub sink, subscribed (hub sys') id sub sink -> sub = sink.2 /\ relay_live id sink (world sys').
Proof. intros Hp Hr. by apply (server_run_ok inputs _ _ (make_server_ok g q mw) Hp Hr). Qed.

(** * Two scenarios *)

Definition command_message (m : Z) (values : list Amf0Value) : RtmpMessage :=
  mkRtmpMessage kCommandChunkStreamId m MessageTypeId.Amf0Command 0 (encode_items values).
Definition publish_message (m : Z) (key : string) : RtmpMessage :=
  command_message m [String "publish"; Number 0; Null; String key].
Definition play_message (m : Z) (key : string) : RtmpMessage :=
  command_message m [String "play"; Number 0; Null; String key].
Definition create_message : RtmpMessage := command_message 0 [String "createStream"; Number 0; Null].
Definition delete_message (m : Z) : RtmpMessage :=
  command_message 0 [String "deleteStream"; Number 0; Null; Number (number_bits m)].
Definition audio_message (m : Z) : RtmpMessage :=
  mkRtmpMessage kAudioChunkStreamId m MessageTypeId.Audio 0 [z2b 0xAF; z2b 1; z2b 5].

Definition demo_server : System :=
  make_server default_gop_limits default_queue_limits default_max_waiting.

(** Two viewers of one publisher; one leaves by deleteStream, then the publisher goes. *)
Definition viewers_come_and_go : list Input :=
  [Opened 1 open_config; Opened 2 open_config; Opened 3 open_config;
   Received 1 0 create_message; Received 1 0 (publish_message 1 "live");
   Received 2 0 create_message; Received 2 0 (play_message 1 "live");
   Received 3 0 create_message; Received 3 0 (play_message 1 "live");
   Received 1 0 (audio_message 1); Received 2 0 (delete_message 1); Closed 2;
   Received 1 0 (audio_message 1)].

Lemma no_use_after_free_witness :
  match server_run demo_server viewers_come_and_go with
  | Ok sys => freed_call (world sys) = false /\ subscriber_count (hub sys) 1 = 1
  | _ => False
  end.
Proof.
  assert (Hn : match server_run demo_server viewers_come_and_go with
               | Ok sys => subscriber_count (hub sys) 1 | _ => 0 end = 1) by (vm_compute; reflexivity).
  destruct (server_run demo_server viewers_come_and_go) as [sys| | |] eqn:E; try discriminate Hn.
  split; [|exact Hn].
  apply (no_use_after_free default_gop_limits default_queue_limits default_max_waiting
    viewers_come_and_go sys); [vm_compute; reflexivity|exact E].
Defined.

(** When a connection closes it leaves nothing behind: none of its relays stays
    subscribed, no key stays registered to it, and it has no stream or relay left. *)
Theorem close_leaves_nothing g q mw inputs sys conn :
  polite_run (make_server g q mw) inputs = true ->
  server_run (make_server g q mw) inputs = Ok sys ->
  let sys' := on_connection_closed sys conn in
  (forall id sub m sub', ~ subscribed (hub sys') id sub (conn, m, sub')) /\
  (is_Some (sessions (world sys) !! conn) ->
   forall key reg, registry (world sys') !! key = Some reg -> reg_connection_id reg <> conn) /\
  (forall s, sessions (world sys') !! conn = Some s -> streams_ s = ∅ /\ playback_relays_ s = ∅).
Proof.
  intros Hp Hr. pose proof (server_run_ok inputs _ _ (make_server_ok g q mw) Hp Hr) as Hok. cbv zeta.
  destruct (on_connection_closed_keeps sys conn Hok) as [_ Hu].
  split; [intros id sub m; apply (Hu m)|]. unfold on_connection_closed.
  destruct (sessions (world sys) !! conn) as [s|] eqn:Hs; cbn [world on_world set_registry registry sessions].
  - split.
    + intros _ key reg H. cbn [fst unregister_all_for_connection] in H.
      apply map_lookup_filter_Some in H as [_ Hh]. by apply Z.eqb_neq.
    + intros s' H. unfold on_session in H. set (w := world (close_slots _ _ _)) in H.
      destruct (sessions w !! conn) as [s1|] eqn:E; [|congruence].
      cbn in H. rewrite lookup_insert_eq in H. by injection H as <-.
  - split; [by intros [? ?]|]. intros s' H. congruence.
Qed.

Lemma close_leaves_nothing_witness :
  match server_run demo_server viewers_come_and_go with
  | Ok sys => forall id sub m sub', ~ subscribed (hub (on_connection_closed sys 3)) id sub (3, m, sub')
  | _ => False
  end.
Proof.
  assert (Hn : match server_run demo_server viewers_come_and_go with
               | Ok sys => subscriber_count (hub sys) 1 | _ => 0 end = 1) by (vm_compute; reflexivity).
  destruct (server_run demo_server viewers_come_and_go) as [sys| | |] eqn:E; try discriminate Hn.
  apply (close_leaves_nothing default_gop_limits default_queue_limits default_max_waiting
    viewers_come_and_go sys 3); [vm_compute; reflexivity|exact E].
Defined.

(** Without that condition the hub does call a destroyed relay: a viewer that sends play
    twice on one stream replaces the relay while the first subscription stays, and the
    publisher's next message goes to the freed object; so does closing such a connection. *)
Theorem second_play_dangles :
  let before := [Opened 1 open_config; Received 1 0 (publish_message 1 "live");
                 Opened 2 open_config; Received 2 0 (play_message 1 "live")] in
  match server_run demo_server (before ++ [Received 1 0 (audio_message 1)]),
        server_run demo_server (before ++ [Received 2 0 (play_message 1 "live");
                                           Received 1 0 (audio_message 1)]),
        server_run demo_server (before ++ [Received 2 0 (publish_message 1 "other"); Closed 2;
                                           Received 1 0 (audio_message 1)]) with
  | Ok once, Ok twice, Ok closed =>
      freed_call (world once) = false /\ freed_call (world twice) = true /\
      freed_call (world closed) = true
  | _, _, _ => False
  end.
Proof. vm_compute. auto. Qed.
