(* ===== verification/Publishers.v ===== *)
(** Who may publish and play: over every execution of the server, a stream slot only
    ever publishes or plays what its session's policies granted, and a stream key
    has one publishing slot.

    The callbacks of the hub can only turn slots idle, which HubContract.v lifts to
    every operation of the hub; the handlers are then compared one by one.  A
    connection that publishes one key on two of its streams escapes the second
    claim: the registry counts it once, and deleting one stream frees the key while
    the other goes on publishing. *)

From S2P Require Import Prelude Bytes Amf0 Chunk MediaIngest ViewerQueue GopCache StreamDirectory LiveFanout HubContract CommandSession SessionSafety.

(** * Slots *)

Definition slot_at (w : World) (conn m : Z) (cfg : Config) (sl : StreamSlot) : Prop :=
  exists s, sessions w !! conn = Some s /\ config_ s = cfg /\ streams_ s !! m = Some sl.

(** What lets a slot publish or play: the validator and the resolver accepted a key,
    the authorizer a playback. *)
Definition granted (cfg : Config) (sl : StreamSlot) : Prop :=
  match slot_state sl with
  | NetStreamState.Idle => True
  | NetStreamState.Publishing => exists app key, key <> ""%string /\
      key_validator cfg app key = true /\ canonical_name cfg app key = Some (slot_stream_key sl)
  | NetStreamState.Playing =>
      match playback_authorizer cfg with
      | None => True
      | Some ok => exists app query, ok app (slot_stream_key sl) query (client_ip cfg) = true
      end
  end.

(** The slots of [w'] that are not idle were there in [w]. *)
Definition slots_from (w w' : World) : Prop :=
  forall conn m cfg sl, slot_at w' conn m cfg sl ->
    slot_state sl = NetStreamState.Idle \/ slot_at w conn m cfg sl.

Definition tame (w w' : World) : Prop := slots_from w w' /\ registry w' = registry w.

#[export] Instance slots_from_preorder : PreOrder slots_from.
Proof.
  split; [intros w conn m cfg sl; by right|].
  intros w1 w2 w3 H1 H2 conn m cfg sl H. apply H2 in H as [H|H]; [by left|by apply H1].
Qed.

#[export] Instance tame_preorder : PreOrder tame.
Proof.
  split; [by intros w; split|]. intros w1 w2 w3 [H1 E1] [H2 E2]. split; [by transitivity w2|congruence].
Qed.

Lemma slots_same w w' : sessions w' = sessions w -> slots_from w w'.
Proof. intros E conn m cfg sl (s & Hs & H). right. exists s. by rewrite <- E. Qed.

Lemma tame_same w w' : sessions w' = sessions w -> registry w' = registry w -> tame w w'.
Proof. intros E1 E2. split; [by apply slots_same|done]. Qed.

Lemma slots_session w w' conn s s' :
  sessions w !! conn = Some s -> sessions w' = <[conn := s']> (sessions w) -> config_ s' = config_ s ->
  (forall m sl, streams_ s' !! m = Some sl ->
     slot_state sl = NetStreamState.Idle \/ streams_ s !! m = Some sl) -> slots_from w w'.
Proof.
  intros Hs E Hc Hm c m cfg sl (s0 & Hs0 & Hcfg & Hsl). rewrite E in Hs0.
  apply lookup_insert_Some in Hs0 as [ [<- <-]|[_ Hs0] ]; [|right; by exists s0].
  apply Hm in Hsl as [H|H]; [by left|]. right. exists s. split_and!; congruence.
Qed.

Lemma on_session_tame w conn f :
  (forall s, config_ (f s) = config_ s) ->
  (forall s m sl, streams_ (f s) !! m = Some sl ->
     slot_state sl = NetStreamState.Idle \/ streams_ s !! m = Some sl) ->
  tame w (on_session w conn f).
Proof.
  intros Hc Hm. unfold on_session. destruct (sessions w !! conn) as [s|] eqn:Hs; [|reflexivity].
  split; [|done]. by eapply (slots_session w); [done|done|apply Hc|apply Hm].
Qed.

Lemma emit_tame w es : tame w (emit w es).
Proof. by apply tame_same. Qed.
Lemma send_command_tame w conn m vs : tame w (send_command_message w conn m vs).
Proof. unfold send_command_message. repeat case_match; by apply tame_same. Qed.
Lemma send_result_tame w conn t p i : tame w (send_result w conn t p i).
Proof. apply send_command_tame. Qed.
Lemma send_status_tame w conn m l c d : tame w (send_status w conn m l c d).
Proof. apply send_command_tame. Qed.

(** ** The callbacks of the hub *)

Lemma playback_ended_tame w conn m l c d : tame w (playback_ended w conn m l c d).
Proof.
  unfold playback_ended. destruct (sessions w !! conn) as [s|]; [|reflexivity]. cbv zeta.
  etransitivity; [|apply on_session_tame; [done|intros; by right] ].
  destruct (streams_ s !! m) as [sl|]; [|reflexivity].
  etransitivity; [|apply send_status_tame].
  transitivity (if decide (slot_state sl = NetStreamState.Playing)
                then emit w [ViewerDetached (app_name_ s) (slot_stream_key sl)] else w).
  - case_decide; [apply emit_tame|reflexivity].
  - apply on_session_tame; [done|]. cbn. intros s' m' sl' H.
    apply lookup_insert_Some in H as [ [_ <-]|[_ H] ]; [by left|by right].
Qed.

Lemma deliver_tame w conn m s r f v :
  sessions w !! conn = Some s -> tame w (deliver_playback_message w conn m s r f v).1.
Proof.
  intros Hs. destruct (deliver_playback_shape w conn m s r f v) as (_ & r' & _ & E). split.
  - apply (slots_session w _ conn s _ Hs E); [done|]. intros m' sl. by right.
  - unfold deliver_playback_message. cbv zeta. repeat case_match; done.
Qed.

Lemma invoke_tame sink c w : tame w (invoke_relay sink c w).1.
Proof.
  destruct sink as [ [conn m] sub]. unfold invoke_relay. cbv zeta.
  destruct (sessions w !! conn) as [s|] eqn:Hs; [|by apply tame_same].
  destruct (playback_relays_ s !! m) as [r|]; [|by apply tame_same].
  destruct (negb _); [by apply tame_same|].
  destruct c; first [by apply deliver_tame|by apply playback_ended_tame].
Qed.

(** ** The handlers *)

Lemma hub_call_tame sys op :
  tame (world sys) (op (hub sys) (world sys)).1.1 -> tame (world sys) (world (hub_call sys op)).
Proof.
  unfold hub_call. destruct (op _ _) as [ [w fo] ev]. cbn. intros H.
  etransitivity; [done|apply emit_tame].
Qed.

Lemma handle_connect_tame w conn c : tame w (handle_connect w conn c).
Proof.
  unfold handle_connect. cbv zeta. etransitivity; [|apply send_result_tame].
  apply on_session_tame; [done|]. intros; by right.
Qed.

Lemma handle_create_stream_tame w conn c : tame w (handle_create_stream w conn c).
Proof.
  unfold handle_create_stream. destruct (sessions w !! conn) as [s|] eqn:Hs; [|reflexivity].
  cbv zeta. etransitivity; [|apply send_result_tame]. split; [|done].
  eapply (slots_session w); [done|done|done|]. cbn. intros m sl H.
  apply lookup_insert_Some in H as [ [_ <-]|[_ H] ]; [by left|by right].
Qed.

Lemma publish_media_tame sys c sl rec message kind op :
  (forall fo w, tame w (op fo w).1.1) ->
  tame (world sys) (world (publish_media sys c sl rec message kind op)).
Proof.
  intros Hop. unfold publish_media. cbv zeta.
  set (sys1 := if has_media_ingest c then _ else sys).
  assert (H1 : tame (world sys) (world sys1)) by (subst sys1; case_match; by apply tame_same).
  set (sys2 := match rec with Some _ => _ | None => sys1 end).
  assert (H2 : tame (world sys1) (world sys2)) by (subst sys2; case_match; by apply tame_same).
  etransitivity; [exact H1|]. etransitivity; [exact H2|]. case_match; [|reflexivity].
  apply hub_call_tame, Hop.
Qed.

Lemma route_media_tame sys conn message :
  tame (world sys) (world (route_media_message sys conn message)).
Proof.
  unfold route_media_message. destruct (sessions (world sys) !! conn) as [s|]; [|reflexivity].
  case_match; [reflexivity|]. destruct (streams_ s !! _) as [sl|]; [|reflexivity].
  case_match; [reflexivity|]. cbv zeta.
  destruct (message_type_id message =? MessageTypeId.Audio);
    [apply publish_media_tame; intros fo w; apply on_audio_respects, invoke_tame; apply _|].
  destruct (message_type_id message =? MessageTypeId.Video);
    [apply publish_media_tame; intros fo w; apply on_video_respects, invoke_tame; apply _|].
  destruct (message_type_id message =? MessageTypeId.Amf0Data); [|reflexivity].
  apply publish_media_tame; intros fo w; apply on_metadata_respects, invoke_tame; apply _.
Qed.

(** A publish either changes no slot, or takes its key and rebinds its own slot. *)
Lemma handle_publish_effect w conn m now c :
  tame w (handle_publish w conn m now c) \/
  exists s w1 key k delta sid rec,
    sessions w !! conn = Some s /\ key <> ""%string /\
    key_validator (config_ s) (app_name_ s) key = true /\ key = first_string c /\
    canonical_name (config_ s) (app_name_ s) key = Some k /\
    register_publisher (registry w) (app_name_ s) k conn m now = (true, registry w1, delta) /\
    sessions w1 = <[conn := put_slot m (mkSlot NetStreamState.Publishing k sid rec) s]> (sessions w) /\
    tame w1 (handle_publish w conn m now c).
Proof.
  unfold handle_publish. destruct (sessions w !! conn) as [s|] eqn:Hs; [|by left]. cbv zeta.
  destruct (negb (bool_decide (first_string c = ""%string)) && _) eqn:Ha; cbn [negb];
    [|left; apply send_status_tame].
  destruct (canonical_name _ _ _) as [k|] eqn:Hk; [|left; apply send_status_tame].
  destruct (register_publisher _ _ _ _ _ _) as [ [ok reg] delta] eqn:Hr.
  destruct ok; cbn [negb]; [|left; apply send_status_tame].
  destruct (resolve _ _ _) as [ids' sid]. right.
  apply andb_true_iff in Ha as [Ha Hv]. apply negb_true_iff, bool_decide_eq_false in Ha.
  set (w1 := mkWorld _ reg _ _ _ _ _). eexists s, w1, (first_string c), k, delta, sid, _.
  split_and!; [done..|]. etransitivity; [apply send_status_tame|].
  case_match; [apply emit_tame|reflexivity].
Qed.

Lemma attach_relay_tame sys conn m id : tame (world sys) (world (attach_relay sys conn m id)).
Proof.
  unfold attach_relay. destruct (sessions (world sys) !! conn) as [s|]; [|reflexivity].
  unfold next_subscriber. set (w1 := on_session _ _ _).
  transitivity w1.
  - etransitivity; [|apply on_session_tame; [done|intros; by right] ]. by apply tame_same.
  - apply (hub_call_tame (mkSystem w1 (hub sys))). apply subscribe_respects; [apply _|apply invoke_tame].
Qed.

(** A play either changes no slot, or rebinds its own slot to what was authorized. *)
Lemma handle_play_effect sys conn m c :
  tame (world sys) (world (handle_play sys conn m c)) \/
  exists s w1 sl, sessions (world sys) !! conn = Some s /\
    slot_state sl = NetStreamState.Playing /\ granted (config_ s) sl /\
    registry w1 = registry (world sys) /\
    sessions w1 = <[conn := put_slot m sl s]> (sessions (world sys)) /\
    tame w1 (world (handle_play sys conn m c)).
Proof.
  unfold handle_play. destruct (sessions (world sys) !! conn) as [s|] eqn:Hs; [|by left].
  destruct (split_query (first_string c)) as [key query].
  destruct (negb _) eqn:Ha; [left; apply send_status_tame|]. apply negb_false_iff in Ha.
  destruct (resolve _ _ _) as [ids' id]. cbv zeta. set (sl := mkSlot _ _ _ _).
  set (w1 := mkWorld _ _ _ _ _ _ _). set (w2 := if has_outgoing_handler (config_ s) then _ else w1).
  set (w3 := send_status w2 _ _ _ _ _). right. exists s, w1, sl. split_and!; [done..| |done|done|].
  - unfold granted. cbn. destruct (playback_authorizer (config_ s)) as [ok|]; [|done].
    by exists (app_name_ s), query.
  - transitivity w2; [subst w2; destruct (has_outgoing_handler _); [apply emit_tame|reflexivity]|].
    transitivity w3; [apply send_status_tame|]. etransitivity; [|apply emit_tame].
    destruct (has_live_fanout _ && _); [apply (attach_relay_tame (mkSystem w3 (hub sys)))|reflexivity].
Qed.

Lemma stop_publishing_effect sys conn s sl :
  slots_from (world sys) (world (stop_publishing sys conn s sl)) /\
  registry (world (stop_publishing sys conn s sl)) =
    (unregister_publisher (registry (world sys)) (slot_stream_key sl) conn).1.
Proof.
  unfold stop_publishing. cbv zeta.
  set (sys1 := on_world _ sys).
  assert (H1 : tame (world sys1) (world (finalize_recorder sys1 s sl))).
  { unfold finalize_recorder. repeat case_match; by apply tame_same. }
  set (sys2 := finalize_recorder sys1 s sl) in *. set (sys3 := if has_live_fanout _ then _ else sys2).
  assert (H2 : tame (world sys2) (world sys3)).
  { subst sys3. case_match; [|reflexivity].
    apply hub_call_tame, publisher_stopped_respects; [apply _|apply invoke_tame]. }
  assert (H3 : tame (world sys1) (world sys3)) by by etransitivity. split.
  - transitivity (world sys1); [by apply slots_same|]. etransitivity; [apply H3|by apply slots_same].
  - apply H3.
Qed.

Lemma detach_viewer_tame sys s id sl : tame (world sys) (world (detach_viewer sys s id sl)).
Proof.
  unfold detach_viewer, hub_unsubscribe. repeat case_match; by apply tame_same.
Qed.

(** ** The registry *)

(** Acts of [conn] leave the entries of the others alone. *)
Definition spares (conn : Z) (r r' : StreamRegistry) : Prop :=
  forall k reg, r !! k = Some reg -> reg_connection_id reg <> conn -> r' !! k = Some reg.

Lemma unregister_lookup r key conn k reg :
  r !! k = Some reg -> (reg_connection_id reg <> conn \/ k <> key) ->
  (unregister_publisher r key conn).1 !! k = Some reg.
Proof.
  intros Hk Hne. unfold unregister_publisher. destruct (r !! key) as [old|] eqn:Ho; [|done].
  destruct (Z.eqb_spec (reg_connection_id old) conn) as [Hc|Hc]; [|done]. cbn.
  rewrite lookup_delete_ne; [done|]. intros <-. destruct Hne; congruence.
Qed.

Lemma close_slots_effect conn todo : forall sys,
  slots_from (world sys) (world (close_slots sys conn todo)) /\
  spares conn (registry (world sys)) (registry (world (close_slots sys conn todo))).
Proof.
  induction todo as [|id todo IH]; intros sys; cbn [close_slots]; [split; [reflexivity|by intros ??]|].
  destruct (sessions (world sys) !! conn) as [s|]; [|split; [reflexivity|by intros ??] ].
  destruct (streams_ s !! id) as [sl|]; [|apply IH]. cbv zeta.
  set (sys1 := if _ && _ then _ else _).
  assert (H : slots_from (world sys) (world sys1) /\
    spares conn (registry (world sys)) (registry (world sys1))).
  { subst sys1. case_match.
    - destruct (stop_publishing_effect sys conn s sl) as [H1 E]. split; [done|]. rewrite E.
      intros k reg Hk Hne. apply unregister_lookup; auto.
    - case_match; [|split; [reflexivity|by intros ??] ].
      destruct (detach_viewer_tame sys s id sl) as [H1 E].
      split; [etransitivity; [done|by apply slots_same]|]. cbn. rewrite E. by intros ??. }
  destruct H as [H1 H2]. destruct (IH sys1) as [I1 I2]. split; [by etransitivity|].
  intros k reg Hk Hne. by apply I2; [apply H2|].
Qed.

Lemma delete_stream_effect sys conn c sys' :
  handle_delete_stream sys conn c = Ok sys' ->
  tame (world sys) (world sys') \/
  exists id cfg sl, slot_at (world sys) conn id cfg sl /\ slot_state sl = NetStreamState.Publishing /\
    slots_from (world sys) (world sys') /\
    registry (world sys') = (unregister_publisher (registry (world sys)) (slot_stream_key sl) conn).1 /\
    forall cfg' sl', ~ slot_at (world sys') conn id cfg' sl'.
Proof.
  unfold handle_delete_stream.
  destruct (arguments c) as [|[bits| | | | | | | | ] args];
    lazymatch goal with |- Ok _ = Ok _ -> _ => by intros [= <-]; left | _ => idtac end.
  destruct (double_to_u32 bits) as [id|]; [|done].
  destruct (sessions (world sys) !! conn) as [s|] eqn:Hs; [|by intros [= <-]; left].
  destruct (streams_ s !! id) as [sl|] eqn:Hsl; [|by intros [= <-]; left].
  cbv zeta. intros [= <-]. set (named := negb _).
  assert (Hdel : forall w, tame w (on_session w conn (fun s => set_streams (delete id (streams_ s)) s))).
  { intros w. apply on_session_tame; [done|]. cbn. intros s' m sl' H.
    apply lookup_delete_Some in H as [_ H]. by right. }
  assert (Hgone : forall w cfg' sl',
    ~ slot_at (on_session w conn (fun s => set_streams (delete id (streams_ s)) s)) conn id cfg' sl').
  { intros w cfg' sl' (s' & Hs' & _ & Hsl'). unfold on_session in Hs'.
    destruct (sessions w !! conn) as [s1|] eqn:E1; [|congruence].
    cbn in Hs'. rewrite lookup_insert_eq in Hs'. injection Hs' as <-. cbn in Hsl'.
    by rewrite lookup_delete_eq in Hsl'. }
  destruct (bool_decide (slot_state sl = NetStreamState.Publishing) && named) eqn:Hp.
  - apply andb_true_iff in Hp as [Hp _]. apply bool_decide_eq_true in Hp. right.
    exists id, (config_ s), sl. destruct (stop_publishing_effect sys conn s sl) as [H1 E].
    destruct (Hdel (world (stop_publishing sys conn s sl))) as [H2 E2].
    split_and!; [by exists s|done|by etransitivity|by rewrite <- E|].
    apply Hgone.
  - left. etransitivity; [|apply Hdel]. case_match; [|reflexivity].
    etransitivity; [apply (detach_viewer_tame sys s id sl)|]. cbn.
    etransitivity; [|apply emit_tame]. apply on_session_tame; [done|]. intros; by right.
Qed.

Lemma closed_effect sys conn :
  let w' := destroy_session conn (world (on_connection_closed sys conn)) in
  slots_from (world sys) w' /\ spares conn (registry (world sys)) (registry w') /\
  forall m cfg sl, ~ slot_at w' conn m cfg sl.
Proof.
  cbv zeta.
  assert (Hd : forall w, slots_from w (destroy_session conn w) /\
    forall m cfg sl, ~ slot_at (destroy_session conn w) conn m cfg sl).
  { intros w. split.
    - intros c m cfg sl (s & Hs & H). cbn in Hs. apply lookup_delete_Some in Hs as [_ Hs].
      right. by exists s.
    - intros m cfg sl (s & Hs & _). cbn in Hs. by rewrite lookup_delete_eq in Hs. }
  unfold on_connection_closed. destruct (sessions (world sys) !! conn) as [s|].
  2: { destruct (Hd (world sys)) as [H1 H2]. split_and!; [done|by intros ??|done]. }
  cbv zeta. set (todo := map fst _). destruct (close_slots_effect conn todo sys) as [H1 H2].
  set (sys1 := close_slots sys conn todo) in *. cbn [world on_world].
  set (w2 := on_session (world sys1) conn _).
  assert (H3 : tame (world sys1) w2) by (apply on_session_tame; [done|]; intros; set_solver).
  set (w3 := set_registry _ w2).
  assert (H4 : slots_from w2 w3) by by apply slots_same.
  destruct (Hd w3) as [H5 H6]. split_and!; [|  |done].
  - etransitivity; [exact H1|]. etransitivity; [apply H3|]. by etransitivity.
  - intros k reg Hk Hne. cbn. apply map_lookup_filter_Some.
    split; [|by apply Z.eqb_neq]. rewrite (proj2 H3). by apply H2.
Qed.

(** * Granted streams *)

Definition all_granted (w : World) : Prop :=
  forall conn m cfg sl, slot_at w conn m cfg sl -> granted cfg sl.

Lemma granted_from w w' : slots_from w w' -> all_granted w -> all_granted w'.
Proof.
  intros Hf Hg conn m cfg sl H. apply Hf in H as [H|H]; [|by eapply Hg].
  unfold granted. by rewrite H.
Qed.

Lemma granted_put w w1 conn m s sl :
  sessions w !! conn = Some s -> sessions w1 = <[conn := put_slot m sl s]> (sessions w) ->
  granted (config_ s) sl -> all_granted w -> all_granted w1.
Proof.
  intros Hs E Hsl Hg c m' cfg sl' (s0 & Hs0 & <- & Hsl'). rewrite E in Hs0.
  apply lookup_insert_Some in Hs0 as [ [<- <-]|[_ Hs0] ]; [|eapply Hg; by exists s0].
  cbn in Hsl'. apply lookup_insert_Some in Hsl' as [ [_ <-]|[_ Hsl'] ]; [done|].
  eapply Hg. by exists s.
Qed.

Lemma dispatch_granted sys conn m now c sys' :
  dispatch sys conn m now c = Ok sys' -> all_granted (world sys) -> all_granted (world sys').
Proof.
  intros Hd Hg. revert Hd. unfold dispatch. cbv zeta.
  case_match; [intros [= <-]; eapply granted_from; [apply handle_connect_tame|done]|].
  case_match; [intros [= <-]; eapply granted_from; [apply send_result_tame|done]|].
  case_match; [intros [= <-]; eapply granted_from; [apply send_result_tame|done]|].
  case_match; [intros [= <-]; eapply granted_from; [apply handle_create_stream_tame|done]|].
  case_match.
  { intros [= <-]. cbn. destruct (handle_publish_effect (world sys) conn m now c) as [ [H' _]|Hp];
      [by eapply granted_from|].
    destruct Hp as (s & w1 & key & k & delta & sid & rec & Hs & Hk & Hv & _ & Hc & _ & E & [Ht _]).
    eapply granted_from; [exact Ht|]. eapply granted_put; [exact Hs|exact E| |done].
    exists (app_name_ s), key. done. }
  case_match.
  { intros [= <-]. destruct (handle_play_effect sys conn m c) as [ [H' _]|Hp]; [by eapply granted_from|].
    destruct Hp as (s & w1 & sl & Hs & _ & Hsl & _ & E & [Ht _]).
    eapply granted_from; [exact Ht|]. by eapply granted_put. }
  case_match; [|by intros [= <-] ]. intros Hd.
  apply delete_stream_effect in Hd as [ [H' _]|(id & cfg & sl & _ & _ & H' & _)]; by eapply granted_from.
Qed.

Lemma server_step_granted sys i sys' :
  server_step sys i = Ok sys' -> all_granted (world sys) -> all_granted (world sys').
Proof.
  destruct i as [conn c|conn now message|conn b|conn]; cbn [server_step].
  - intros [= <-] Hg. case_bool_decide as Hs; [done|].
    intros c' m cfg sl (s & Hs' & <- & Hsl). cbn in Hs'.
    apply lookup_insert_Some in Hs' as [ [<- <-]|[_ Hs'] ]; [by cbn in Hsl; rewrite lookup_empty in Hsl|].
    eapply Hg. by exists s.
  - unfold handle_message. case_match.
    { intros [= <-] Hg. eapply granted_from; [apply route_media_tame|done]. }
    case_match; [by intros [= <-]|].
    destruct (decode_all _) as [values| | |]; [|by intros [= <-]|done|done].
    destruct (command_of values) as [c|]; [|by intros [= <-] ]. apply dispatch_granted.
  - intros [= <-] Hg. eapply granted_from; [|exact Hg]. apply on_session_tame; [done|]. intros; by right.
  - intros [= <-] Hg. eapply granted_from; [apply (closed_effect sys conn)|done].
Qed.

Lemma server_run_granted inputs : forall sys sys',
  server_run sys inputs = Ok sys' -> all_granted (world sys) -> all_granted (world sys').
Proof.
  induction inputs as [|i inputs IH]; intros sys sys'; cbn [server_run]; [by intros [= <-]|].
  destruct (server_step sys i) as [sys1| | |] eqn:E; try done. rewrite bind_Ok.
  intros Hr Hg. eapply IH; [done|]. by eapply server_step_granted.
Qed.

(** C25. Nobody publishes or plays without permission: after any history of the server, a
    stream slot that publishes does so under a name the session's key validator and id
    resolver accepted for a non-empty key, and one that plays was let through by the
    session's playback authorizer. *)
Theorem only_granted_streams g q mw inputs sys' conn s m sl :
  server_run (make_server g q mw) inputs = Ok sys' ->
  sessions (world sys') !! conn = Some s -> streams_ s !! m = Some sl -> granted (config_ s) sl.
Proof.
  intros Hr Hs Hsl. eapply (server_run_granted inputs _ _ Hr); [|by exists s].
  intros ? ? ? ? (s0 & H & _). cbn in H. by rewrite lookup_empty in H.
Qed.

(** A validator that accepts one key, an authorizer that wants a token. *)
Definition strict_config : Config :=
  mkConfig (fun _ key => bool_decide (key = "secret"%string)) (Some (fun _ _ => Some "live"%string))
    (Some (fun _ _ query _ => bool_decide (query = "token=1"%string)))
    None None true true true true "" default_queue_limits.
Definition strict_history : list Input :=
  [Opened 1 strict_config; Received 1 0 (publish_message 1 "guess");
   Received 1 0 (publish_message 2 "secret");
   Opened 2 strict_config; Received 2 0 (play_message 1 "live");
   Received 2 0 (play_message 2 "live?token=1")].

Definition slot_of (r : Res System) (conn m : Z) : StreamSlot :=
  match r with
  | Ok sys => default empty_slot (sessions (world sys) !! conn ≫= fun s => streams_ s !! m)
  | _ => empty_slot
  end.

(** A slot that is not idle is one of a session. *)
Lemma slot_of_inv r conn m : slot_state (slot_of r conn m) <> NetStreamState.Idle ->
  exists sys s, r = Ok sys /\ sessions (world sys) !! conn = Some s /\
    streams_ s !! m = Some (slot_of r conn m).
Proof.
  unfold slot_of. destruct r as [sys| | |]; try done.
  destruct (sessions (world sys) !! conn) as [s|] eqn:Hs; cbn; [|done].
  destruct (streams_ s !! m) as [sl|] eqn:Hsl; cbn; [|done]. intros _. by exists sys, s.
Qed.

Lemma only_granted_streams_witness :
  let r := server_run demo_server strict_history in
  slot_state (slot_of r 1 1) = NetStreamState.Idle /\
  slot_state (slot_of r 1 2) = NetStreamState.Publishing /\
  slot_state (slot_of r 2 1) = NetStreamState.Idle /\
  slot_state (slot_of r 2 2) = NetStreamState.Playing /\
  exists s, granted (config_ s) (slot_of r 1 2).
Proof.
  cbv zeta. do 4 (split; [vm_compute; reflexivity|]).
  destruct (slot_of_inv (server_run demo_server strict_history) 1 2) as (sys & s & E & Hs & Hsl);
    [vm_compute; discriminate|].
  exists s. exact (only_granted_streams default_gop_limits default_queue_limits default_max_waiting
    strict_history sys 1 s 2 _ E Hs Hsl).
Defined.

(** * One publishing slot per key *)

(** Every publishing slot is the one the registry has for its key. *)
Definition exclusive (w : World) : Prop :=
  forall conn m cfg sl, slot_at w conn m cfg sl -> slot_state sl = NetStreamState.Publishing ->
  exists reg, registry w !! slot_stream_key sl = Some reg /\
    reg_connection_id reg = conn /\ reg_stream_id reg = m.

(** The session publishes [k] on a stream other than [m]. *)
Definition publishes_elsewhere (s : CommandSession) (m : Z) (k : string) : bool :=
  existsb (fun kv => negb (kv.1 =? m) && bool_decide (slot_state kv.2 = NetStreamState.Publishing)
                     && bool_decide (slot_stream_key kv.2 = k)) (map_to_list (streams_ s)).

(** The message publishes a key that its connection already publishes on another stream. *)
Definition duplicates_key (sys : System) (i : Input) : bool :=
  match i with
  | Received conn _ message =>
      match sessions (world sys) !! conn, command_in message with
      | Some s, Some c =>
          bool_decide (name c = "publish"%string) &&
          match canonical_name (config_ s) (app_name_ s) (first_string c) with
          | Some k => publishes_elsewhere s (message_stream_id message) k
          | None => false
          end
      | _, _ => false
      end
  | _ => false
  end.

Fixpoint single_key_run (sys : System) (inputs : list Input) : bool :=
  match inputs with
  | [] => true
  | i :: inputs => negb (duplicates_key sys i) &&
      match server_step sys i with Ok sys => single_key_run sys inputs | _ => true end
  end.

Lemma publishes_elsewhere_false s m k m' sl :
  publishes_elsewhere s m k = false -> streams_ s !! m' = Some sl ->
  slot_state sl = NetStreamState.Publishing -> slot_stream_key sl = k -> m' = m.
Proof.
  intros Hf Hsl Hp Hk. destruct (Z.eqb_spec m' m) as [|Hne]; [done|]. exfalso.
  assert (publishes_elsewhere s m k = true); [|congruence]. apply existsb_exists. exists (m', sl).
  split; [by apply list_elem_of_In, elem_of_map_to_list|]. cbn.
  by rewrite (proj2 (Z.eqb_neq _ _) Hne), !bool_decide_true.
Qed.

Lemma exclusive_tame w w' : tame w w' -> exclusive w -> exclusive w'.
Proof.
  intros [Hf E] He conn m cfg sl H Hp. apply Hf in H as [H|H]; [congruence|]. rewrite E. by eapply He.
Qed.

Lemma exclusive_publish w w1 conn m now s k delta sid rec :
  exclusive w -> sessions w !! conn = Some s -> publishes_elsewhere s m k = false ->
  register_publisher (registry w) (app_name_ s) k conn m now = (true, registry w1, delta) ->
  sessions w1 = <[conn := put_slot m (mkSlot NetStreamState.Publishing k sid rec) s]> (sessions w) ->
  exclusive w1.
Proof.
  intros He Hs Hd Hr E.
  assert (Hreg : registry w1 = <[k := mkRegistration (app_name_ s) k conn m now]> (registry w) /\
    forall old, registry w !! k = Some old -> reg_connection_id old = conn).
  { unfold register_publisher in Hr. destruct (registry w !! k) as [old|] eqn:Ho; [|by injection Hr as <-].
    destruct (Z.eqb_spec (reg_connection_id old) conn); [|done]. injection Hr as <-. by split; [|intros ? [= <-] ]. }
  destruct Hreg as [Hreg Hold].
  assert (Hkeep : forall c' m' cfg sl, slot_at w c' m' cfg sl -> slot_state sl = NetStreamState.Publishing ->
    (c', m') <> (conn, m) -> exists reg, registry w1 !! slot_stream_key sl = Some reg /\
      reg_connection_id reg = c' /\ reg_stream_id reg = m').
  { intros c' m' cfg sl Hsl Hp Hne. destruct (He _ _ _ _ Hsl Hp) as (reg & Hk & Hc & Hm).
    exists reg. split; [|done]. rewrite Hreg, lookup_insert_ne; [done|]. intros Ek.
    rewrite <- Ek in Hk. apply Hold in Hk as Hc'. destruct Hsl as (s' & Hs' & _ & Hsl). apply Hne.
    rewrite <- Hc, Hc' in Hs' |- *. assert (s' = s) as -> by congruence.
    f_equal. by eapply publishes_elsewhere_false. }
  intros c' m' cfg sl (s' & Hs' & Hcfg & Hsl) Hp. rewrite E in Hs'.
  apply lookup_insert_Some in Hs' as [ [<- <-]|[Hne Hs'] ].
  - cbn in Hsl. apply lookup_insert_Some in Hsl as [ [<- <-]|[Hne Hsl] ].
    + rewrite Hreg. cbn. eexists. rewrite lookup_insert_eq. split_and!; [done..|]. done.
    + eapply Hkeep; [by exists s|done|congruence].
  - eapply Hkeep; [by exists s'|done|congruence].
Qed.

Lemma exclusive_delete w w' conn id cfg sl :
  exclusive w -> slot_at w conn id cfg sl -> slot_state sl = NetStreamState.Publishing ->
  slots_from w w' -> registry w' = (unregister_publisher (registry w) (slot_stream_key sl) conn).1 ->
  (forall cfg' sl', ~ slot_at w' conn id cfg' sl') -> exclusive w'.
Proof.
  intros He Hsl Hp Hf E Hn c' m' cfg' sl' H' Hp'. pose proof H' as H.
  apply Hf in H as [H|H]; [congruence|].
  destruct (He _ _ _ _ H Hp') as (reg & Hk & Hc & Hm). exists reg. split; [|done]. rewrite E.
  apply unregister_lookup; [done|]. destruct (decide (slot_stream_key sl' = slot_stream_key sl)) as [Ek|]; [|by right].
  destruct (He _ _ _ _ Hsl Hp) as (reg0 & Hk0 & Hc0 & Hm0). rewrite Ek, Hk0 in Hk. injection Hk as <-.
  subst. by apply Hn in H'.
Qed.

Lemma exclusive_close w w' conn :
  exclusive w -> slots_from w w' -> spares conn (registry w) (registry w') ->
  (forall m cfg sl, ~ slot_at w' conn m cfg sl) -> exclusive w'.
Proof.
  intros He Hf Hsp Hn c' m' cfg sl H' Hp. pose proof H' as H. apply Hf in H as [H|H]; [congruence|].
  destruct (He _ _ _ _ H Hp) as (reg & Hk & Hc & Hm). exists reg. split; [|done].
  apply Hsp; [done|]. rewrite Hc. intros ->. by apply Hn in H'.
Qed.

Lemma dispatch_exclusive sys conn m now c sys' :
  dispatch sys conn m now c = Ok sys' -> exclusive (world sys) ->
  (forall s k, name c = "publish"%string -> sessions (world sys) !! conn = Some s ->
     canonical_name (config_ s) (app_name_ s) (first_string c) = Some k -> publishes_elsewhere s m k = false) ->
  exclusive (world sys').
Proof.
  intros Hd He Hdup. revert Hd. unfold dispatch. cbv zeta.
  case_match; [intros [= <-]; eapply exclusive_tame; [apply handle_connect_tame|done]|].
  case_match; [intros [= <-]; eapply exclusive_tame; [apply send_result_tame|done]|].
  case_match; [intros [= <-]; eapply exclusive_tame; [apply send_result_tame|done]|].
  case_match; [intros [= <-]; eapply exclusive_tame; [apply handle_create_stream_tame|done]|].
  destruct (bool_decide (name c = "publish"%string)) eqn:Hn.
  { apply bool_decide_eq_true in Hn. intros [= <-]. cbn.
    destruct (handle_publish_effect (world sys) conn m now c) as [H'|Hp]; [by eapply exclusive_tame|].
    destruct Hp as (s & w1 & key & k & delta & sid & rec & Hs & _ & _ & -> & Hc & Hr & E & Ht).
    eapply exclusive_tame; [exact Ht|]. eapply (exclusive_publish (world sys)); eauto. }
  case_match.
  { intros [= <-]. destruct (handle_play_effect sys conn m c) as [H'|Hp]; [by eapply exclusive_tame|].
    destruct Hp as (s & w1 & sl & Hs & Hpl & _ & Er & E & Ht). eapply exclusive_tame; [exact Ht|].
    intros c' m' cfg sl' (s' & Hs' & Hcfg & Hsl') Hp'. rewrite Er. rewrite E in Hs'.
    apply lookup_insert_Some in Hs' as [ [<- <-]|[_ Hs'] ]; [|by eapply He; [exists s'|] ].
    cbn in Hsl'. apply lookup_insert_Some in Hsl' as [ [_ <-]|[_ Hsl'] ]; [congruence|].
    by eapply He; [exists s|]. }
  case_match; [|by intros [= <-] ]. intros Hd.
  apply delete_stream_effect in Hd as [H'|(id & cfg & sl & D1 & D2 & D3 & D4 & D5)];
    [by eapply exclusive_tame|by eapply exclusive_delete].
Qed.

Lemma server_step_exclusive sys i sys' :
  server_step sys i = Ok sys' -> duplicates_key sys i = false ->
  exclusive (world sys) -> exclusive (world sys').
Proof.
  destruct i as [conn c|conn now message|conn b|conn]; cbn [server_step duplicates_key].
  - intros [= <-] _ He. case_bool_decide as Hs; [done|].
    intros c' m cfg sl (s & Hs' & Hcfg & Hsl). cbn in Hs'.
    apply lookup_insert_Some in Hs' as [ [<- <-]|[_ Hs'] ]; [by cbn in Hsl; rewrite lookup_empty in Hsl|].
    eapply He. by exists s.
  - unfold handle_message, command_in. case_match.
    { intros [= <-] _ He. eapply exclusive_tame; [apply route_media_tame|done]. }
    destruct (message_type_id message =? MessageTypeId.Amf0Command); cbn [negb]; [|by intros [= <-] ].
    destruct (decode_all _) as [values| | |]; [|by intros [= <-]|done|done].
    destruct (command_of values) as [c|]; [|by intros [= <-] ]. intros Hd Hdup He.
    eapply dispatch_exclusive; [done..|]. intros s k Hn Hs Hc.
    by rewrite Hs, bool_decide_true, Hc in Hdup.
  - intros [= <-] _ He. eapply exclusive_tame; [|exact He]. apply on_session_tame; [done|]. intros; by right.
  - intros [= <-] _ He. destruct (closed_effect sys conn) as (H1 & H2 & H3). by eapply exclusive_close.
Qed.

Lemma server_run_exclusive inputs : forall sys sys',
  server_run sys inputs = Ok sys' -> single_key_run sys inputs = true ->
  exclusive (world sys) -> exclusive (world sys').
Proof.
  induction inputs as [|i inputs IH]; intros sys sys'; cbn [server_run single_key_run]; [by intros [= <-]|].
  intros Hr Hk He. apply andb_true_iff in Hk as [Hk1 Hk2]. apply negb_true_iff in Hk1.
  destruct (server_step sys i) as [sys1| | |] eqn:E; try done. rewrite bind_Ok in Hr.
  eapply IH; [done|done|]. by eapply server_step_exclusive.
Qed.

(** C24. One publisher per stream key across the whole server: after any history in which no
    connection publishes one key on two of its streams, two publishing slots with the same
    key are the same stream of the same connection, and the registry names it. *)
Theorem one_publisher_per_key g q mw inputs sys' c1 m1 s1 sl1 c2 m2 s2 sl2 :
  server_run (make_server g q mw) inputs = Ok sys' ->
  single_key_run (make_server g q mw) inputs = true ->
  sessions (world sys') !! c1 = Some s1 -> streams_ s1 !! m1 = Some sl1 ->
  sessions (world sys') !! c2 = Some s2 -> streams_ s2 !! m2 = Some sl2 ->
  slot_state sl1 = NetStreamState.Publishing -> slot_state sl2 = NetStreamState.Publishing ->
  slot_stream_key sl1 = slot_stream_key sl2 ->
  c1 = c2 /\ m1 = m2 /\
  exists reg, find_registration (registry (world sys')) (slot_stream_key sl1) = Some reg /\
    reg_connection_id reg = c1 /\ reg_stream_id reg = m1.
Proof.
  intros Hr Hk Hs1 Hsl1 Hs2 Hsl2 Hp1 Hp2 Hkey.
  assert (He : exclusive (world sys')).
  { apply (server_run_exclusive inputs _ _ Hr Hk). intros ? ? ? ? (s0 & H & _). cbn in H.
    by rewrite lookup_empty in H. }
  destruct (He c1 m1 (config_ s1) sl1) as (r1 & E1 & <- & <-); [by exists s1|done|].
  destruct (He c2 m2 (config_ s2) sl2) as (r2 & E2 & <- & <-); [by exists s2|done|].
  rewrite Hkey in E1 |- *. rewrite E1 in E2. injection E2 as <-. split_and!; [done..|]. by exists r1.
Qed.

(** Another connection gets the key once the first publisher has deleted its stream. *)
Definition handover : list Input :=
  [Opened 1 open_config; Received 1 0 (publish_message 1 "live"); Received 1 0 (delete_message 1);
   Opened 2 open_config; Received 2 0 (publish_message 3 "live");
   Received 1 0 (publish_message 4 "live")].

Lemma one_publisher_per_key_witness :
  let r := server_run demo_server handover in
  slot_state (slot_of r 1 1) = NetStreamState.Idle /\ slot_state (slot_of r 1 4) = NetStreamState.Idle /\
  exists sys reg, r = Ok sys /\
    find_registration (registry (world sys)) (slot_stream_key (slot_of r 2 3)) = Some reg /\
    reg_connection_id reg = 2 /\ reg_stream_id reg = 3.
Proof.
  cbv zeta. do 2 (split; [vm_compute; reflexivity|]).
  assert (Hp : slot_state (slot_of (server_run demo_server handover) 2 3) = NetStreamState.Publishing)
    by (vm_compute; reflexivity).
  destruct (slot_of_inv (server_run demo_server handover) 2 3) as (sys & s & E & Hs & Hsl);
    [rewrite Hp; discriminate|].
  assert (Hk : single_key_run demo_server handover = true) by (vm_compute; reflexivity).
  destruct (one_publisher_per_key default_gop_limits default_queue_limits default_max_waiting
    handover sys 2 3 s _ 2 3 s _ E Hk Hs Hsl Hs Hsl Hp Hp eq_refl) as (_ & _ & reg & H).
  exists sys, reg. split; [exact E|exact H].
Defined.

(** Without that condition the claim fails: a connection that publishes a key on two of
    its streams and deletes one frees the key, and a second connection publishes it while
    the first still does, both into the same fan-out stream. *)
Theorem republish_breaks_exclusivity :
  let r := server_run demo_server
    [Opened 1 open_config; Received 1 0 (publish_message 1 "live"); Received 1 0 (publish_message 2 "live");
     Received 1 0 (delete_message 1); Opened 2 open_config; Received 2 0 (publish_message 1 "live")] in
  slot_state (slot_of r 1 2) = NetStreamState.Publishing /\
  slot_state (slot_of r 2 1) = NetStreamState.Publishing /\
  slot_stream_key (slot_of r 1 2) = slot_stream_key (slot_of r 2 1) /\
  slot_stream_id (slot_of r 1 2) = slot_stream_id (slot_of r 2 1).
Proof. vm_compute. auto. Qed.
