(* ===== verification/Connection.v ===== *)
(** protocol/session/rtmp_connection_session.cpp: a connection after its handshake, from the
    bytes it receives to the bytes it sends, and the server that all connections make up.

    A [Server] is the [System] of CommandSession.v with the chunk decoder and encoder of
    every connection.  The command layer reports what it sends as events, in order; they go
    through the encoder of the connection they are for, which nothing of the command layer
    looks at, right after the message that caused them.  [sent_out] is what a connection has
    handed to its outgoing handler, with the message each piece encodes.  Metrics and the
    optional handlers are taken as set; the transport drops a connection after it asked. *)

From S2P Require Import Prelude Bytes Chunk ChunkDecoder ChunkEncoder MediaIngest ViewerQueue GopCache StreamDirectory LiveFanout CommandSession SessionSafety.

(** * Data *)

Module UserControlEventType.
Definition PingRequest : Z := 6.
Definition PingResponse : Z := 7.
End UserControlEventType.

(** [RtmpConnectionSession::Dependencies]; the shared tables are those of the server. *)
Record Dependencies := mkDependencies {
  dep_key_validator : option (string -> string -> bool);
  dep_stream_id_resolver : option (string -> string -> option string);
  dep_playback_authorizer : option (string -> string -> string -> string -> bool);
  dep_recorder : option Z;
  dep_recorder_factory : option (string -> string -> option Z);
  dep_media_ingest : bool;
  dep_live_fanout : bool;
  dep_client_ip : string;
  dep_playback_queue_limits : QueueLimits
}.

(** What the constructor makes of them: both outgoing handlers are set. *)
Definition session_config (deps : Dependencies) : Config :=
  mkConfig (default (fun _ _ => true) (dep_key_validator deps)) (dep_stream_id_resolver deps)
    (dep_playback_authorizer deps) (dep_recorder deps) (dep_recorder_factory deps) true true
    (dep_media_ingest deps) (dep_live_fanout deps) (dep_client_ip deps) (dep_playback_queue_limits deps).

Record RtmpConnectionSession := mkConnection {
  decoder_ : ChunkDecoder;
  encoder_ : ChunkEncoder;
  output_chunk_size_ : Z;
  failed_ : bool;
  closed_ : bool;
  started_ : bool;
  close_requests : Z;    (* calls of close_handler_ *)
  sent_out : list (RtmpMessage * list byte)
}.

Definition make_connection (max_message_size output_chunk_size : Z) (limits : ChunkDecoderLimits)
    : RtmpConnectionSession :=
  mkConnection (make_decoder max_message_size limits) (make_encoder output_chunk_size) output_chunk_size
    false false false 0 [].

Record Server := mkServer { system : System; connections : gmap Z RtmpConnectionSession }.

Definition on_connection (sv : Server) (conn : Z) (f : RtmpConnectionSession -> RtmpConnectionSession) : Server :=
  mkServer (system sv) (alter f conn (connections sv)).
Definition set_system (sys : System) (sv : Server) : Server := mkServer sys (connections sv).

Definition set_decoder (d : ChunkDecoder) (c : RtmpConnectionSession) : RtmpConnectionSession :=
  mkConnection d (encoder_ c) (output_chunk_size_ c) (failed_ c) (closed_ c) (started_ c) (close_requests c) (sent_out c).
Definition set_started (c : RtmpConnectionSession) : RtmpConnectionSession :=
  mkConnection (decoder_ c) (encoder_ c) (output_chunk_size_ c) (failed_ c) (closed_ c) true (close_requests c) (sent_out c).
Definition set_closed (c : RtmpConnectionSession) : RtmpConnectionSession :=
  mkConnection (decoder_ c) (encoder_ c) (output_chunk_size_ c) (failed_ c) true (started_ c) (close_requests c) (sent_out c).

(** * Sending *)

(** [emit_encoded], with the encoder as it is afterwards. *)
Definition emit_encoded (e : ChunkEncoder) (message : RtmpMessage) (bytes : list byte)
    (c : RtmpConnectionSession) : RtmpConnectionSession :=
  mkConnection (decoder_ c) e (output_chunk_size_ c) (failed_ c) (closed_ c) (started_ c) (close_requests c)
    (sent_out c ++ [(message, bytes)]).

Definition encode_and_emit (c : RtmpConnectionSession) (message : RtmpMessage) : Res RtmpConnectionSession :=
  '(e, out) <- encode_message (encoder_ c) message ;; Ok (emit_encoded e message out c).

Definition send_encoded (c : RtmpConnectionSession) (message : RtmpMessage) : Res RtmpConnectionSession :=
  if failed_ c || closed_ c then Ok c else encode_and_emit c message.

(** What [SharedMediaFrame::wire_bytes] answers does not depend on what it has cached. *)
Definition send_encoded_media (c : RtmpConnectionSession) (f : SharedMediaFrame)
    (chunk_stream_id message_stream_id : Z) : Res RtmpConnectionSession :=
  if failed_ c || closed_ c then Ok c else
  bytes <- encode_message_fmt0 (output_chunk_size_ c) chunk_stream_id message_stream_id (frame_type_id f)
             (frame_timestamp f) (frame_payload f) ;;
  Ok (emit_encoded (encoder_ c) (to_message f chunk_stream_id message_stream_id) bytes c).

Definition update_connection (sv : Server) (conn : Z) (f : RtmpConnectionSession -> Res RtmpConnectionSession)
    : Res Server :=
  match connections sv !! conn with
  | None => Ok sv
  | Some c => c <- f c ;; Ok (mkServer (system sv) (<[conn := c]> (connections sv)))
  end.

(** An event of the command layer reaches the connection it is for. *)
Definition deliver_event (sv : Server) (e : Event) : Res Server :=
  match e with
  | Outgoing conn message => update_connection sv conn (fun c => send_encoded c message)
  | OutgoingMedia conn f csid msid => update_connection sv conn (fun c => send_encoded_media c f csid msid)
  | _ => Ok sv
  end.
Fixpoint deliver_events (sv : Server) (es : list Event) : Res Server :=
  match es with [] => Ok sv | e :: es => sv <- deliver_event sv e ;; deliver_events sv es end.

(** The server after a call into the command layer that left it at [sys]. *)
Definition after_call (sv : Server) (sys : System) : Res Server :=
  deliver_events (set_system sys sv)
    (drop (length (events (world (system sv)))) (events (world sys))).

(** [start]. *)
Definition start (c : RtmpConnectionSession) : Res RtmpConnectionSession :=
  if started_ c then Ok c else
  let c := set_started c in
  if output_chunk_size_ c =? kDefaultChunkSize then Ok c else
  encode_and_emit c (control_message MessageTypeId.SetChunkSize (write_u32_be (output_chunk_size_ c))).

(** * Receiving *)

Definition fail (c : RtmpConnectionSession) : RtmpConnectionSession :=
  if failed_ c then c else
  mkConnection (decoder_ c) (encoder_ c) (output_chunk_size_ c) true (closed_ c) (started_ c) (close_requests c + 1)
    (sent_out c).

Definition flush_pending_acknowledgement (c : RtmpConnectionSession) : Res RtmpConnectionSession :=
  if negb (acknowledgement_due (decoder_ c)) then Ok c else
  c <- send_encoded c (control_message MessageTypeId.Acknowledgement
                         (write_u32_be (u32 (bytes_received_ (decoder_ c))))) ;;
  Ok (set_decoder (mark_acknowledged (decoder_ c)) c).

Definition make_user_control (event value : Z) : RtmpMessage :=
  mkRtmpMessage kProtocolControlChunkStreamId kProtocolControlMessageStreamId MessageTypeId.UserControlMessage 0
    (write_u16_be event ++ write_u32_be value).

Definition handle_user_control (c : RtmpConnectionSession) (message : RtmpMessage) : Res RtmpConnectionSession :=
  if zlen (payload message) <? 2 then Ok c else
  event <- read_u16_be_at (payload message) 0 ;;
  if negb (event =? UserControlEventType.PingRequest) then Ok c else
  if zlen (payload message) <? 6 then Ok c else
  timestamp <- read_u32_be_at (payload message) 2 ;;
  send_encoded c (make_user_control UserControlEventType.PingResponse timestamp).

Definition handle_decoded_message (sv : Server) (conn now : Z) (message : RtmpMessage) : Res Server :=
  match connections sv !! conn with
  | None => Ok sv
  | Some c =>
      let control := message_stream_id message =? kProtocolControlMessageStreamId in
      if failed_ c then Ok sv else
      if control && (message_type_id message =? MessageTypeId.UserControlMessage)
      then update_connection sv conn (fun c => handle_user_control c message) else
      if control && ((message_type_id message =? MessageTypeId.SetPeerBandwidth) ||
                     (message_type_id message =? MessageTypeId.Acknowledgement))
      then Ok sv else
      sys <- handle_message (system sv) conn now message ;;
      sv <- after_call sv sys ;;
      update_connection sv conn flush_pending_acknowledgement
  end.

(** What the decoder's two handlers do. *)
Definition handle_decoder_event (sv : Server) (conn now : Z) (e : ChunkDecoder.Event) : Res Server :=
  match e with
  | MessageEvent message => handle_decoded_message sv conn now message
  | ErrorEvent _ => Ok (on_connection sv conn fail)
  end.
Fixpoint handle_decoder_events (sv : Server) (conn now : Z) (es : list ChunkDecoder.Event) : Res Server :=
  match es with
  | [] => Ok sv
  | e :: es => sv <- handle_decoder_event sv conn now e ;; handle_decoder_events sv conn now es
  end.

(** The loop of [ChunkDecoder::on_bytes_received] with the handlers run where it calls them:
    last in a turn, on the decoder as the turn leaves it. *)
Fixpoint decode_loop (fuel : nat) (sv : Server) (conn now : Z) : Res Server :=
  match fuel with
  | O => OutOfFuel
  | S fuel =>
      match connections sv !! conn with
      | None => Ok sv
      | Some c =>
          '(result, d, es) <- decode_one (decoder_ c) ;;
          sv <- handle_decoder_events (on_connection sv conn (set_decoder d)) conn now es ;;
          match result with
          | Consumed => decode_loop fuel sv conn now
          | InsufficientData | Failed => Ok sv
          end
      end
  end.

Definition receive (d : ChunkDecoder) (data : list byte) : ChunkDecoder :=
  let d := set_bytes_received d (u64 (bytes_received_ d + zlen data)) in
  set_buffer d (buffer_ d ++ data).

Definition on_bytes_received (sv : Server) (conn now : Z) (data : list byte) : Res Server :=
  match connections sv !! conn with
  | None => Ok sv
  | Some c =>
      if failed_ c || closed_ c || bool_decide (data = []) then Ok sv else
      sv <- (if ChunkDecoder.failed_ (decoder_ c) then Ok sv else
             let d := receive (decoder_ c) data in
             decode_loop (loop_fuel d) (on_connection sv conn (set_decoder d)) conn now) ;;
      Ok (on_connection sv conn (fun c => if ChunkDecoder.failed_ (decoder_ c) then fail c else c))
  end.

Definition on_connection_closed (sv : Server) (conn : Z) : Res Server :=
  match connections sv !! conn with
  | None => Ok sv
  | Some c =>
      if closed_ c then Ok sv else
      let sv := on_connection sv conn set_closed in
      after_call sv (CommandSession.on_connection_closed (system sv) conn)
  end.

(** * The server *)

(** What happens to the connections of a server: a handshake completes, bytes arrive, the
    socket drains, the peer goes (and the owner destroys the session). *)
Inductive Input :=
| Accepted (conn : Z) (deps : Dependencies) (max_message_size output_chunk_size : Z)
| Bytes (conn now : Z) (data : list byte)
| Drained (conn : Z) (pending : QueueBacklog)
| Disconnected (conn : Z).

Definition server_step (sv : Server) (i : Input) : Res Server :=
  match i with
  | Accepted conn deps max_message_size output_chunk_size =>
      if bool_decide (is_Some (connections sv !! conn)) then Ok sv else
      sys <- SessionSafety.server_step (system sv) (Opened conn (session_config deps)) ;;
      c <- start (make_connection max_message_size output_chunk_size default_limits) ;;
      Ok (mkServer sys (<[conn := c]> (connections sv)))
  | Bytes conn now data => on_bytes_received sv conn now data
  | Drained conn b =>
      Ok (set_system (on_world (fun w => on_session w conn (set_pending b)) (system sv)) sv)
  | Disconnected conn =>
      sv <- on_connection_closed sv conn ;;
      Ok (mkServer (on_world (destroy_session conn) (system sv)) (delete conn (connections sv)))
  end.
Fixpoint server_run (sv : Server) (inputs : list Input) : Res Server :=
  match inputs with
  | [] => Ok sv
  | i :: inputs => sv <- server_step sv i ;; server_run sv inputs
  end.

Definition make_server (g : GopLimits) (q : QueueLimits) (max_waiting : Z) : Server :=
  mkServer (SessionSafety.make_server g q max_waiting) ∅.
