(* ===== verification/ConnectionWire.v ===== *)
(** What a connection sends, its peer decodes: replies and control messages go through one
    encoder on two chunk streams, shared media frames bypass it on three others, and the
    two do not get in each other's way. *)

From S2P Require Import Prelude Bytes Chunk ChunkDecoder ChunkEncoder ChunkRoundTrip MediaIngest ViewerQueue GopCache StreamDirectory LiveFanout HubContract CommandSession SessionSafety Connection.

(** * The output of a connection *)

Definition reply_stream (csid : Z) : Prop :=
  csid = kProtocolControlChunkStreamId \/ csid = kCommandChunkStreamId.
Definition media_stream (csid : Z) : Prop :=
  csid = kAudioChunkStreamId \/ csid = kVideoChunkStreamId \/ csid = kDataChunkStreamId.

(** The announcement of [start]. *)
Definition announcement (n : Z) : RtmpMessage := control_message MessageTypeId.SetChunkSize (write_u32_be n).

(** What a started connection with output chunk size [n] can have sent, and its encoder. *)
Inductive emitted (n : Z) : list (RtmpMessage * list byte) -> ChunkEncoder -> Prop :=
| emitted_silent : n = kDefaultChunkSize -> emitted n [] (make_encoder n)
| emitted_announced e out :
    n <> kDefaultChunkSize -> encode_message (make_encoder n) (announcement n) = Ok (e, out) ->
    emitted n [(announcement n, out)] e
| emitted_reply log e m e' out :
    emitted n log e -> reply_stream (chunk_stream_id m) -> timestamp m = 0 ->
    encode_message e m = Ok (e', out) -> emitted n (log ++ [(m, out)]) e'
| emitted_media log e m out :
    emitted n log e -> media_stream (chunk_stream_id m) ->
    encode_message_fmt0 n (chunk_stream_id m) (message_stream_id m) (message_type_id m) (timestamp m) (payload m) = Ok out ->
    emitted n (log ++ [(m, out)]) e.

(** * The two encoders *)

(** The encoder of a connection has no record of media; the peer's decoder does.  [shadow]
    is an encoder that sent everything. *)
Record shadows (e shadow : ChunkEncoder) : Prop := {
  sh_chunk : chunk_size_ shadow = chunk_size_ e;
  sh_streams : forall csid, reply_stream csid -> sent_ shadow !! csid = sent_ e !! csid;
  sh_calm : forall csid s, reply_stream csid -> sent_ e !! csid = Some s ->
    sent_timestamp s = 0 /\ sent_extended s = false;
  sh_few : dom (sent_ shadow) ⊆ list_to_set [2; 3; 4; 5; 6]
}.

Lemma reply_not_media csid : reply_stream csid -> ~ media_stream csid.
Proof.
  unfold reply_stream, media_stream, kProtocolControlChunkStreamId, kCommandChunkStreamId, kAudioChunkStreamId,
    kVideoChunkStreamId, kDataChunkStreamId. lia.
Qed.
Lemma known_stream csid : reply_stream csid \/ media_stream csid -> csid ∈ (list_to_set [2; 3; 4; 5; 6] : gset Z).
Proof.
  unfold reply_stream, media_stream, kProtocolControlChunkStreamId, kCommandChunkStreamId, kAudioChunkStreamId,
    kVideoChunkStreamId, kDataChunkStreamId. intros H. rewrite elem_of_list_to_set, !elem_of_cons. lia.
Qed.
Lemma few_streams (e : ChunkEncoder) csid :
  dom (sent_ e) ⊆ list_to_set [2; 3; 4; 5; 6] -> reply_stream csid \/ media_stream csid ->
  sent_ e !! csid = None -> Z.of_nat (size (sent_ e)) < 5.
Proof.
  intros Hd Hc Hn. rewrite <- size_dom.
  assert (Hs : dom (sent_ e) ⊆ (list_to_set [2; 3; 4; 5; 6] : gset Z) ∖ {[csid]}).
  { intros x Hx. rewrite elem_of_difference, elem_of_singleton. split; [by apply Hd|]. intros ->.
    by apply not_elem_of_dom in Hn. }
  apply subseteq_size in Hs. rewrite size_difference in Hs by (apply singleton_subseteq_l; by apply known_stream).
  rewrite size_singleton in Hs. change (size (list_to_set [2; 3; 4; 5; 6] : gset Z)) with 5%nat in Hs. lia.
Qed.

(** [encode_message] looks at one chunk stream. *)
Lemma encode_message_local e e1 m e' out :
  chunk_size_ e1 = chunk_size_ e -> sent_ e1 !! chunk_stream_id m = sent_ e !! chunk_stream_id m ->
  encode_message e m = Ok (e', out) ->
  exists s, e' = mkEncoder (chunk_size_ e) (<[chunk_stream_id m := s]> (sent_ e)) /\
    encode_message e1 m = Ok (mkEncoder (chunk_size_ e) (<[chunk_stream_id m := s]> (sent_ e1)), out) /\
    sent_timestamp s = timestamp m /\
    (timestamp m = 0 -> (forall s0, sent_ e !! chunk_stream_id m = Some s0 -> sent_timestamp s0 = 0 /\ sent_extended s0 = false) ->
     sent_extended s = false).
Proof.
  intros Hc Hs. unfold encode_message. rewrite Hc, Hs.
  set (state := default default_sent _). destruct (select_fmt state m) as [fmt delta] eqn:Hsel.
  destruct (select_extended state m fmt delta) as [ext extval] eqn:Hext. cbn [chunk_size_].
  destruct (write_pieces _ _ _ _ _ _ _ _) as [pieces| | |]; cbn [rbind]; try done. intros [= <- <-].
  eexists. split; [reflexivity|]. split; [reflexivity|]. split; [done|]. cbn. intros Ht Hcalm.
  assert (Hst : sent_timestamp state = 0 /\ sent_extended state = false).
  { unfold state. destruct (sent_ e !! chunk_stream_id m) as [s0|]; [by apply Hcalm|done]. }
  destruct Hst as [Hst1 Hst2]. unfold select_fmt in Hsel. rewrite Ht, Hst1 in Hsel. unfold select_extended in Hext.
  rewrite Ht, Hst2 in Hext.
  repeat case_match; simplify_eq; unfold kExtendedTimestampMarker in *; try done; by cbn in *.
Qed.

Lemma calm_not_stale e m :
  timestamp m = 0 ->
  (forall s, sent_ e !! chunk_stream_id m = Some s -> sent_timestamp s = 0 /\ sent_extended s = false) ->
  stale_extended e m = false.
Proof.
  intros Ht Hcalm. unfold stale_extended. set (state := default default_sent _).
  assert (Hst : sent_extended state = false).
  { unfold state. destruct (sent_ e !! chunk_stream_id m) as [s0|]; [by apply Hcalm|done]. }
  rewrite Hst. destruct (select_fmt state m). by rewrite andb_false_r.
Qed.

(** * What fits *)

(** What the protocol can carry to a peer with these limits; [plain]: the peer hands it on. *)
Definition fits (mms : Z) (limits : ChunkDecoderLimits) (m : RtmpMessage) : bool :=
  (0 <=? timestamp m) && (timestamp m <? 2 ^ 32) &&
  (0 <=? message_type_id m) && (message_type_id m <? 2 ^ 8) &&
  (0 <=? message_stream_id m) && (message_stream_id m <? 2 ^ 32) &&
  (zlen (payload m) <=? mms) && (zlen (payload m) <=? 0xFFFFFF) &&
  (zlen (payload m) <=? max_buffered_payload_bytes limits).

Lemma fits_carriable mms limits e m :
  fits mms limits m = true -> 5 <= max_chunk_streams limits ->
  dom (sent_ e) ⊆ list_to_set [2; 3; 4; 5; 6] -> reply_stream (chunk_stream_id m) \/ media_stream (chunk_stream_id m) ->
  carriable mms limits e m = true.
Proof.
  intros Hf H5 Hd Hc. unfold carriable. unfold fits in Hf. rewrite !andb_true_iff in Hf |- *.
  assert (2 <= chunk_stream_id m <= 6).
  { revert Hc. unfold reply_stream, media_stream, kProtocolControlChunkStreamId, kCommandChunkStreamId, kAudioChunkStreamId,
      kVideoChunkStreamId, kDataChunkStreamId. lia. }
  destruct Hf as [[[[[[[[? ?] ?] ?] ?] ?] ?] ?] ?]. split_and!; try done; try lia.
  destruct (sent_ e !! chunk_stream_id m) eqn:Hs; [by rewrite bool_decide_eq_true_2|].
  rewrite bool_decide_eq_false_2 by (by intros [? [=]]). cbn. pose proof (few_streams e _ Hd Hc Hs). lia.
Qed.

(** * A peer reads it all *)

(** The messages a peer's decoder hands on: all but the announcement. *)
Definition heard (n : Z) (log : list (RtmpMessage * list byte)) : list RtmpMessage :=
  map fst (if n =? kDefaultChunkSize then log else tail log).

Lemma write_pieces_one chunk_size csid ext extval p :
  zlen p <= chunk_size -> write_pieces (pieces_fuel p) chunk_size csid ext extval p 0 true = Ok p.
Proof.
  intros Hp. pose proof (zlen_nonneg p). unfold pieces_fuel. cbn [write_pieces].
  rewrite Z.sub_0_r, Z.min_r by lia. unfold subspan. rewrite (proj2 (Z.leb_le 0 (zlen p))), (proj2 (Z.leb_le (0 + zlen p) (zlen p))) by lia.
  cbn [Z.leb andb rbind Z.compare]. rewrite (proj2 (Z.ltb_ge (0 + zlen p) (zlen p))) by lia.
  cbn [app]. unfold zlen. rewrite Nat2Z.id. cbn. by rewrite firstn_all.
Qed.

(** A message no longer than the chunk size is one piece. *)
Lemma encode_one_piece a b m e out :
  zlen (payload m) <= a -> zlen (payload m) <= b -> encode_message (make_encoder a) m = Ok (e, out) ->
  exists s, e = mkEncoder a (<[chunk_stream_id m := s]> ∅) /\
    encode_message (make_encoder b) m = Ok (mkEncoder b (<[chunk_stream_id m := s]> ∅), out).
Proof.
  intros Ha Hb. unfold encode_message. cbn [make_encoder sent_ chunk_size_].
  destruct (select_fmt _ m) as [fmt delta]. destruct (select_extended _ m fmt delta) as [ext extval].
  rewrite !write_pieces_one by done. cbn [rbind]. intros [= <- <-]. by eexists.
Qed.

Lemma announcement_is n : 1 <= n < 2 ^ 31 -> announcement n = set_chunk_size_message n.
Proof.
  intros Hn. unfold announcement, set_chunk_size_message. do 2 f_equal.
  change 0x7FFFFFFF with (2 ^ 31 - 1). rewrite land_ones_mod, Z.mod_small by lia. done.
Qed.

Lemma fresh_shadows n : shadows (make_encoder n) (make_encoder n).
Proof. by split. Qed.

Lemma shadows_after n e shadow csid s :
  shadows e shadow -> chunk_size_ e = n -> reply_stream csid -> sent_timestamp s = 0 -> sent_extended s = false ->
  shadows (mkEncoder n (<[csid := s]> (sent_ e))) (mkEncoder n (<[csid := s]> (sent_ shadow))).
Proof.
  intros [S1 S2 S3 S4] Hn Hc H1 H2. split; cbn [chunk_size_ sent_].
  - done.
  - intros c Hr. destruct (decide (c = csid)) as [->|Hne]; [by rewrite !lookup_insert_eq|].
    rewrite !lookup_insert_ne by done. by apply S2.
  - intros c s' Hr Hs'. apply lookup_insert_Some in Hs' as [ [<- <-]|[_ Hs'] ]; [done|]. by eapply S3.
  - rewrite dom_insert_L. apply union_subseteq. split; [|done]. apply singleton_subseteq_l, known_stream. by left.
Qed.
Lemma shadows_media n e shadow csid s :
  shadows e shadow -> chunk_size_ e = n -> media_stream csid ->
  shadows e (mkEncoder n (<[csid := s]> (sent_ shadow))).
Proof.
  intros [S1 S2 S3 S4] Hn Hc. split; cbn [chunk_size_ sent_]; [done| |done|].
  - intros c Hr. rewrite lookup_insert_ne; [by apply S2|]. intros <-. by apply (reply_not_media csid).
  - rewrite dom_insert_L. apply union_subseteq. split; [|done]. apply singleton_subseteq_l, known_stream. by right.
Qed.

Section Peer.
Context (mms : Z) (limits : ChunkDecoderLimits) (n k : Z).
Hypothesis Hmms : 0 <= mms < 2 ^ 32.
Hypothesis Hlimits : limits_ok limits.
Hypothesis Hstreams : 5 <= max_chunk_streams limits.
Hypothesis Hn : 4 <= n < 2 ^ 31.
Hypothesis Hnl : n <= max_chunk_size limits.

Definition follows (log : list (RtmpMessage * list byte)) (e : ChunkEncoder) : Prop :=
  exists shadow d, shadows e shadow /\ in_step shadow d /\ configured mms limits d /\ chunk_size_ e = n /\
    forall tail, steps (set_buffer (set_bytes_received (make_decoder mms limits) k) (concat (map snd log) ++ tail))
                   (set_buffer d tail) (map MessageEvent (heard n log)).

Lemma heard_snoc log m out :
  log <> [] \/ n = kDefaultChunkSize -> heard n (log ++ [(m, out)]) = heard n log ++ [m].
Proof.
  intros Hlog. unfold heard. destruct (Z.eqb_spec n kDefaultChunkSize); [by rewrite map_app|].
  destruct Hlog as [Hlog|]; [|done]. destruct log as [|x log]; [done|]. cbn. by rewrite map_app.
Qed.
Lemma deliverable_snoc log m out :
  log <> [] \/ n = kDefaultChunkSize ->
  forallb (fun mb => fits mms limits mb.1) (log ++ [(m, out)]) = true ->
  forallb plain (heard n (log ++ [(m, out)])) = true ->
  forallb (fun mb => fits mms limits mb.1) log = true /\ forallb plain (heard n log) = true /\
  fits mms limits m = true /\ plain m = true.
Proof.
  intros Hlog. rewrite heard_snoc by done. rewrite !forallb_app, !andb_true_iff. cbn. rewrite !andb_true_r. tauto.
Qed.

Lemma follows_message log e' shadow' d d' m out :
  log <> [] \/ n = kDefaultChunkSize ->
  shadows e' shadow' -> in_step shadow' d' -> configured mms limits d' -> chunk_size_ e' = n ->
  (forall tail, steps (set_buffer (set_bytes_received (make_decoder mms limits) k) (concat (map snd log) ++ tail))
                   (set_buffer d tail) (map MessageEvent (heard n log))) ->
  (forall tail, steps (set_buffer d (out ++ tail)) (set_buffer d' tail) [MessageEvent m]) ->
  follows (log ++ [(m, out)]) e'.
Proof.
  intros Hlog Hsh Hin Hcfg Hc H1 H2. exists shadow', d'. split_and!; try done; try apply Hcfg. intros tail.
  rewrite heard_snoc by done. rewrite !map_app, concat_app. cbn [map concat snd]. rewrite app_nil_r, <- app_assoc.
  eapply steps_trans; [apply H1|apply H2].
Qed.

Lemma emitted_head log e : emitted n log e -> log <> [] \/ n = kDefaultChunkSize.
Proof. intros H. destruct H; [by right|by left|left|left]; by destruct log. Qed.

Lemma deliver_configured d window :
  configured mms limits d -> configured mms limits (set_window_ack_size d window).
Proof. done. Qed.

Lemma emitted_decodes log e :
  emitted n log e -> forallb (fun mb => fits mms limits mb.1) log = true -> forallb plain (heard n log) = true ->
  follows log e.
Proof.
  induction 1 as [Hn128|e out Hne He|log e m e' out He IH Hs Ht Henc|log e m out He IH Hs Henc]; intros Hfit Hplain.
  - exists (make_encoder n), (set_bytes_received (make_decoder mms limits) k). split_and!; try done.
    + rewrite Hn128. by apply fresh_in_step.
    + intros tail. unfold heard. rewrite Hn128. constructor.
  - cbn in Hfit. rewrite andb_true_r in Hfit. rewrite (announcement_is n) in * by lia.
    assert (Hlen : zlen (payload (set_chunk_size_message n)) = 4) by apply zlen_write_u32_be.
    destruct (encode_one_piece n kDefaultChunkSize (set_chunk_size_message n) e out ltac:(lia) ltac:(by rewrite Hlen) He) as (s & -> & Hpeer).
    assert (Hok : sending_ok mms limits (make_encoder kDefaultChunkSize) (SendChunkSize n) = true).
    { cbn [sending_ok]. rewrite !andb_true_iff, !Z.leb_le, Z.ltb_lt. split_and!; try lia. unfold sendable.
      rewrite andb_true_iff, negb_true_iff. split; [|by apply calm_not_stale].
      apply fits_carriable; [done|done|cbn; set_solver|left; by left]. }
    destruct (send_in_step mms limits (make_encoder kDefaultChunkSize) _ (SendChunkSize n)
      (fresh_in_step mms limits k Hmms Hlimits) (conj eq_refl eq_refl) Hok) as (e1 & out1 & d1 & Hs1 & Hin & Hcfg & Hst).
    cbn [send] in Hs1. unfold encode_set_chunk_size in Hs1. fold (set_chunk_size_message n) in Hs1.
    rewrite Hpeer in Hs1. cbn [rbind] in Hs1. injection Hs1 as <- <-.
    unfold set_chunk_size in Hin. rewrite (proj2 (Z.eqb_neq n 0)) in Hin by lia. cbn [sent_ chunk_size_] in Hin.
    exists (mkEncoder n (<[chunk_stream_id (set_chunk_size_message n) := s]> ∅)), d1. split_and!; try done; try apply Hcfg.
    + destruct (encode_message_local (make_encoder n) (make_encoder n) _ _ _ eq_refl eq_refl He) as (s' & E1 & _ & E3 & E4).
      apply (f_equal (fun e => sent_ e !! chunk_stream_id (set_chunk_size_message n))) in E1. cbn [sent_] in E1.
      rewrite !lookup_insert_eq in E1. injection E1 as ->.
      apply (shadows_after n (make_encoder n) (make_encoder n)); [apply fresh_shadows|done|by left|done|]. apply E4; [done|]. by intros ? [=].
    + intros tail. unfold heard. rewrite (proj2 (Z.eqb_neq _ _) Hne). cbn [map concat snd tl list.tail]. rewrite app_nil_r. apply Hst.
  - destruct (deliverable_snoc _ _ _ (emitted_head _ _ He) Hfit Hplain) as (Hfit' & Hplain' & Hm & Hp).
    destruct (IH Hfit' Hplain') as (shadow & d & Hsh & Hin & Hcfg & Hc & Hst).
    pose proof Hsh as [S1 S2 S3 S4].
    destruct (encode_message_local e shadow m e' out S1 (S2 _ Hs) Henc) as (s & -> & Hpeer & Hst0 & Hext).
    assert (Hcar : carriable (max_message_size_ d) (ChunkDecoder.limits_ d) shadow m = true).
    { destruct Hcfg as [-> ->]. apply fits_carriable; try done. by left. }
    assert (Hstale : stale_extended shadow m = false).
    { apply calm_not_stale; [done|]. intros s0. rewrite S2 by done. by apply S3. }
    destruct (encode_in_step shadow d m Hin Hcar Hstale) as (e1 & out1 & st' & Henc1 & Hin1 & Hst1).
    rewrite Hpeer in Henc1. injection Henc1 as <- <-. destruct (deliver_plain m Hp) as [window Hdel].
    set (d1 := progress d (chunk_stream_id m) [] 0 st') in *.
    eapply (follows_message log _ _ d (set_window_ack_size d1 (window (window_ack_size_ d1)))); [by eapply emitted_head| | |done|done|exact Hst|].
    + rewrite Hc. apply shadows_after; try done; [congruence|]. apply Hext; [done|]. intros s0. by apply S3.
    + rewrite Hc in *. destruct Hin1 as [[] ? ? ? ?]. by constructor.
    + intros tail. eapply (Hst1 tail). apply Hdel.
  - destruct (deliverable_snoc _ _ _ (emitted_head _ _ He) Hfit Hplain) as (Hfit' & Hplain' & Hm & Hp).
    destruct (IH Hfit' Hplain') as (shadow & d & Hsh & Hin & Hcfg & Hc & Hst).
    pose proof Hsh as [S1 S2 S3 S4].
    assert (Hcar : carriable (max_message_size_ d) (ChunkDecoder.limits_ d) shadow m = true).
    { destruct Hcfg as [-> ->]. apply fits_carriable; try done. by right. }
    destruct (fmt0_in_step shadow d m Hin Hcar) as (out1 & st' & Henc1 & Hin1 & Hst1). cbv zeta in *.
    rewrite S1, Hc, Henc in Henc1. injection Henc1 as <-. destruct (deliver_plain m Hp) as [window Hdel].
    set (d1 := progress d (chunk_stream_id m) [] 0 st') in *.
    eapply (follows_message log _ _ d (set_window_ack_size d1 (window (window_ack_size_ d1)))); [by eapply emitted_head| | |done|done|exact Hst|].
    + rewrite S1, Hc in *. by apply (shadows_media n e shadow (chunk_stream_id m)).
    + rewrite S1, Hc in *. destruct Hin1 as [[] ? ? ? ?]. by constructor.
    + intros tail. eapply (Hst1 tail). apply Hdel.
Qed.
End Peer.
