(* ===== verification/ConnectionServer.v ===== *)
(** Everything the connections of a server send reaches their peers as it was meant, over
    every history of the server; and a server always answers. *)

From S2P Require Import Prelude Bytes Amf0 Chunk ChunkDecoder ChunkEncoder ChunkRoundTrip MediaIngest ViewerQueue GopCache StreamDirectory LiveFanout HubContract CommandSession SessionSafety Connection ConnectionWire.

(** * What the command layer says *)

Definition said (e : Event) : Prop :=
  match e with
  | Outgoing _ m => reply_stream (chunk_stream_id m) /\ timestamp m = 0
  | OutgoingMedia _ _ csid _ => media_stream csid
  | _ => True
  end.
Definition wired (w : World) : Prop :=
  forall conn s, sessions w !! conn = Some s -> has_media_outgoing_handler (config_ s) = true.

(** The events of [w'] are those of [w] and some more, all of them replies or media. *)
Definition speaks (w w' : World) : Prop :=
  wired w -> wired w' /\ exists new, events w' = events w ++ new /\ Forall said new.

#[export] Instance speaks_preorder : PreOrder speaks.
Proof.
  split; [intros w Hw; split; [done|]; exists []; by rewrite app_nil_r|].
  intros w1 w2 w3 H12 H23 Hw. destruct (H12 Hw) as [Hw2 (n1 & E1 & F1)]. destruct (H23 Hw2) as [Hw3 (n2 & E2 & F2)].
  split; [done|]. exists (n1 ++ n2). rewrite E2, E1, app_assoc. split; [done|]. by apply Forall_app.
Qed.

Lemma speaks_same w w' : sessions w' = sessions w -> events w' = events w -> speaks w w'.
Proof. intros E1 E2 Hw. split; [unfold wired; by rewrite E1|]. exists []. by rewrite app_nil_r. Qed.
Lemma speaks_session w w' conn s s' :
  sessions w !! conn = Some s -> sessions w' = <[conn := s']> (sessions w) -> config_ s' = config_ s ->
  events w' = events w -> speaks w w'.
Proof.
  intros Hs E Hc He Hw. split; [|exists []; by rewrite app_nil_r]. intros c s0. rewrite E.
  intros [ [<- <-]|[_ H] ]%lookup_insert_Some; [rewrite Hc; by eapply Hw|by eapply Hw].
Qed.
Lemma on_session_speaks w conn f : (forall s, config_ (f s) = config_ s) -> speaks w (on_session w conn f).
Proof.
  intros Hf. unfold on_session. destruct (sessions w !! conn) as [s|] eqn:Hs; [|reflexivity].
  by eapply (speaks_session w).
Qed.
Lemma emit_speaks w es : Forall said es -> speaks w (emit w es).
Proof. intros Hs Hw. split; [done|]. by exists es. Qed.
Lemma emit_other_speaks w e : match e with Outgoing _ _ | OutgoingMedia _ _ _ _ => False | _ => True end -> speaks w (emit w [e]).
Proof. intros He. apply emit_speaks. constructor; [by destruct e|done]. Qed.

Lemma send_command_speaks w conn m vs : speaks w (send_command_message w conn m vs).
Proof.
  unfold send_command_message. destruct (sessions w !! conn); [|reflexivity]. destruct (negb _); [reflexivity|].
  apply emit_speaks. constructor; [|done]. split; [by right|done].
Qed.
Lemma send_result_speaks w conn t p i : speaks w (send_result w conn t p i).
Proof. apply send_command_speaks. Qed.
Lemma send_status_speaks w conn m l c d : speaks w (send_status w conn m l c d).
Proof. apply send_command_speaks. Qed.

(** The callbacks of the hub. *)
Lemma playback_ended_speaks w conn m l c d : speaks w (playback_ended w conn m l c d).
Proof.
  unfold playback_ended. destruct (sessions w !! conn) as [s|]; [|reflexivity]. cbv zeta.
  etransitivity; [|by apply on_session_speaks]. destruct (streams_ s !! m) as [sl|]; [|reflexivity].
  etransitivity; [|apply send_status_speaks].
  transitivity (if decide (slot_state sl = NetStreamState.Playing)
                then emit w [ViewerDetached (app_name_ s) (slot_stream_key sl)] else w).
  - case_decide; [by apply emit_other_speaks|reflexivity].
  - by apply on_session_speaks.
Qed.

Lemma media_event_said s conn m f :
  has_media_outgoing_handler (config_ s) = true -> said (media_event s conn m f).
Proof.
  intros Hm. unfold media_event. rewrite Hm. cbn. unfold media_chunk_stream, media_stream.
  repeat case_match; auto.
Qed.
Lemma deliver_speaks w conn m s r f v :
  sessions w !! conn = Some s -> speaks w (deliver_playback_message w conn m s r f v).1.
Proof.
  intros Hs. unfold deliver_playback_message. destruct (_ && _); [by eapply (speaks_session w)|]. cbv zeta.
  destruct (offer _ _ _ _ _) as [q d].
  destruct d; cbn [fst];
    lazymatch goal with
    | |- speaks _ (put_session _ _ _) => by eapply (speaks_session w)
    | |- speaks _ (emit ?w1 ?es) =>
        transitivity w1; [by eapply (speaks_session w)|]; intros Hw; apply emit_speaks; [|exact Hw];
        assert (Hm : has_media_outgoing_handler (config_ s) = true);
        [apply (Hw conn (put_relay m (with_relay_queue r (note_flushed q (zlen (frame_payload f)))) s)); apply lookup_insert_eq|];
        apply Forall_map, list.Forall_forall; intros x _; by apply media_event_said
    end.
Qed.
Lemma invoke_speaks sink c w : speaks w (invoke_relay sink c w).1.
Proof.
  destruct sink as [ [conn m] sub]. unfold invoke_relay. cbv zeta.
  destruct (sessions w !! conn) as [s|] eqn:Hs; [|by apply speaks_same].
  destruct (playback_relays_ s !! m) as [r|]; [|by apply speaks_same].
  destruct (negb _); [by apply speaks_same|].
  destruct c; first [by apply deliver_speaks|by apply playback_ended_speaks].
Qed.

(** ** The handlers *)

Lemma hub_events_said ev : Forall said (map Hub ev).
Proof. apply Forall_map, list.Forall_forall. by intros x _. Qed.
Lemma hub_call_speaks sys op :
  speaks (world sys) (op (hub sys) (world sys)).1.1 -> speaks (world sys) (world (hub_call sys op)).
Proof.
  unfold hub_call. destruct (op _ _) as [ [w fo] ev]. cbn. intros H.
  etransitivity; [done|]. apply emit_speaks, hub_events_said.
Qed.
Lemma handle_connect_speaks w conn c : speaks w (handle_connect w conn c).
Proof. unfold handle_connect. cbv zeta. etransitivity; [|apply send_result_speaks]. by apply on_session_speaks. Qed.
Lemma handle_create_stream_speaks w conn c : speaks w (handle_create_stream w conn c).
Proof.
  unfold handle_create_stream. destruct (sessions w !! conn) as [s|] eqn:Hs; [|reflexivity].
  cbv zeta. etransitivity; [|apply send_result_speaks]. by eapply (speaks_session w).
Qed.

Lemma publish_media_speaks sys c sl rec message kind op :
  (forall fo w, speaks w (op fo w).1.1) ->
  speaks (world sys) (world (publish_media sys c sl rec message kind op)).
Proof.
  intros Hop. unfold publish_media. cbv zeta.
  set (sys1 := if has_media_ingest c then _ else sys).
  assert (H1 : speaks (world sys) (world sys1)) by (subst sys1; case_match; by apply speaks_same).
  set (sys2 := match rec with Some _ => _ | None => sys1 end).
  assert (H2 : speaks (world sys1) (world sys2)) by (subst sys2; case_match; [by apply emit_other_speaks|reflexivity]).
  etransitivity; [exact H1|]. etransitivity; [exact H2|]. case_match; [|reflexivity].
  apply hub_call_speaks, Hop.
Qed.
Lemma route_media_speaks sys conn message :
  speaks (world sys) (world (route_media_message sys conn message)).
Proof.
  unfold route_media_message. destruct (sessions (world sys) !! conn) as [s|]; [|reflexivity].
  case_match; [reflexivity|]. destruct (streams_ s !! _) as [sl|]; [|reflexivity].
  case_match; [reflexivity|]. cbv zeta.
  destruct (message_type_id message =? MessageTypeId.Audio);
    [apply publish_media_speaks; intros fo w; apply on_audio_respects, invoke_speaks; apply _|].
  destruct (message_type_id message =? MessageTypeId.Video);
    [apply publish_media_speaks; intros fo w; apply on_video_respects, invoke_speaks; apply _|].
  destruct (message_type_id message =? MessageTypeId.Amf0Data); [|reflexivity].
  apply publish_media_speaks; intros fo w; apply on_metadata_respects, invoke_speaks; apply _.
Qed.

Lemma handle_publish_speaks w conn m now c : speaks w (handle_publish w conn m now c).
Proof.
  unfold handle_publish. destruct (sessions w !! conn) as [s|] eqn:Hs; [|reflexivity]. cbv zeta.
  destruct (negb (_ && _)); [apply send_status_speaks|].
  destruct (canonical_name _ _ _) as [k|]; [|apply send_status_speaks].
  destruct (register_publisher _ _ _ _ _ _) as [ [ok reg] delta]. destruct ok; [|apply send_status_speaks].
  destruct (resolve _ _ _) as [ids' sid]. cbn [negb]. set (w1 := mkWorld _ reg _ _ _ _ _).
  transitivity w1; [by eapply (speaks_session w)|]. etransitivity; [apply send_status_speaks|].
  case_match; [by apply emit_other_speaks|reflexivity].
Qed.
Lemma attach_relay_speaks sys conn m id : speaks (world sys) (world (attach_relay sys conn m id)).
Proof.
  unfold attach_relay. destruct (sessions (world sys) !! conn) as [s|]; [|reflexivity].
  unfold next_subscriber. set (w1 := on_session _ _ _).
  transitivity w1; [etransitivity; [|by apply on_session_speaks]; by apply speaks_same|].
  apply (hub_call_speaks (mkSystem w1 (hub sys))). apply subscribe_respects; [apply _|apply invoke_speaks].
Qed.
Lemma handle_play_speaks sys conn m c : speaks (world sys) (world (handle_play sys conn m c)).
Proof.
  unfold handle_play. destruct (sessions (world sys) !! conn) as [s|] eqn:Hs; [|reflexivity].
  destruct (split_query (first_string c)) as [key query]. destruct (negb _); [apply send_status_speaks|].
  destruct (resolve _ _ _) as [ids' id]. cbv zeta. set (w1 := mkWorld _ _ _ _ _ _ _).
  set (w2 := if has_outgoing_handler (config_ s) then _ else w1). set (w3 := send_status w2 _ _ _ _ _).
  transitivity w1; [by eapply (speaks_session (world sys))|]. transitivity w2.
  { subst w2. destruct (has_outgoing_handler _); [|reflexivity]. apply emit_speaks. constructor; [|done]. split; [by left|done]. }
  transitivity w3; [apply send_status_speaks|]. etransitivity; [|by apply emit_other_speaks].
  destruct (has_live_fanout _ && _); [apply (attach_relay_speaks (mkSystem w3 (hub sys)))|reflexivity].
Qed.

Lemma stop_publishing_speaks sys conn s sl : speaks (world sys) (world (stop_publishing sys conn s sl)).
Proof.
  unfold stop_publishing. cbv zeta. set (sys1 := on_world _ sys).
  transitivity (world sys1); [by apply speaks_same|].
  transitivity (world (finalize_recorder sys1 s sl)).
  { unfold finalize_recorder. repeat case_match; first [by apply emit_other_speaks|reflexivity]. }
  set (sys2 := finalize_recorder sys1 s sl). set (sys3 := if has_live_fanout _ then _ else sys2).
  transitivity (world sys3); [|by apply emit_other_speaks]. subst sys3. case_match; [|reflexivity].
  apply hub_call_speaks, publisher_stopped_respects; [apply _|apply invoke_speaks].
Qed.
Lemma detach_viewer_speaks sys s id sl : speaks (world sys) (world (detach_viewer sys s id sl)).
Proof.
  unfold detach_viewer, hub_unsubscribe. repeat case_match; try reflexivity. apply emit_speaks, hub_events_said.
Qed.
Lemma close_slots_speaks conn todo : forall sys, speaks (world sys) (world (close_slots sys conn todo)).
Proof.
  induction todo as [|id todo IH]; intros sys; cbn [close_slots]; [reflexivity|].
  destruct (sessions (world sys) !! conn) as [s|]; [|reflexivity].
  destruct (streams_ s !! id) as [sl|]; [|apply IH]. cbv zeta. etransitivity; [|apply IH].
  case_match; [apply stop_publishing_speaks|]. case_match; [|reflexivity].
  etransitivity; [apply detach_viewer_speaks|]. by apply emit_other_speaks.
Qed.
Lemma delete_stream_speaks sys conn c sys' :
  handle_delete_stream sys conn c = Ok sys' -> speaks (world sys) (world sys').
Proof.
  unfold handle_delete_stream.
  destruct (arguments c) as [|[bits| | | | | | | | ] args];
    lazymatch goal with |- Ok _ = Ok _ -> _ => by intros [= <-] | _ => idtac end.
  destruct (double_to_u32 bits) as [id|]; [|done].
  destruct (sessions (world sys) !! conn) as [s|] eqn:Hs; [|by intros [= <-] ].
  destruct (streams_ s !! id) as [sl|] eqn:Hsl; [|by intros [= <-] ].
  cbv zeta. intros [= <-]. etransitivity; [|by apply on_session_speaks].
  case_match; [apply stop_publishing_speaks|]. case_match; [|reflexivity].
  etransitivity; [apply (detach_viewer_speaks sys s id sl)|]. cbn.
  etransitivity; [|by apply emit_other_speaks]. by apply on_session_speaks.
Qed.
Lemma closed_speaks sys conn : speaks (world sys) (world (CommandSession.on_connection_closed sys conn)).
Proof.
  unfold CommandSession.on_connection_closed. destruct (sessions (world sys) !! conn) as [s|]; [|reflexivity].
  cbv zeta. etransitivity; [apply (close_slots_speaks conn (map fst (map_to_list (streams_ s))))|]. cbn [world on_world].
  etransitivity; [|by apply speaks_same]. by apply on_session_speaks.
Qed.

Lemma handle_message_speaks sys conn now message sys' :
  handle_message sys conn now message = Ok sys' -> speaks (world sys) (world sys').
Proof.
  unfold handle_message. case_match; [intros [= <-]; apply route_media_speaks|].
  case_match; [by intros [= <-]|]. destruct (decode_all _) as [values| | |]; [|by intros [= <-]|done|done].
  destruct (command_of values) as [c|]; [|by intros [= <-] ]. unfold dispatch. cbv zeta.
  case_match; [intros [= <-]; apply handle_connect_speaks|].
  case_match; [intros [= <-]; apply send_result_speaks|].
  case_match; [intros [= <-]; apply send_result_speaks|].
  case_match; [intros [= <-]; apply handle_create_stream_speaks|].
  case_match; [intros [= <-]; apply handle_publish_speaks|].
  case_match; [intros [= <-]; apply handle_play_speaks|].
  case_match; [apply delete_stream_speaks|by intros [= <-] ].
Qed.

(** * What the connections send *)

Definition linked (c : RtmpConnectionSession) : Prop :=
  emitted (output_chunk_size_ c) (sent_out c) (encoder_ c).
Definition server_ok (sv : Server) : Prop :=
  wired (world (system sv)) /\ map_Forall (fun _ c => linked c) (connections sv).

Lemma reply_linked c m c' :
  linked c -> reply_stream (chunk_stream_id m) -> timestamp m = 0 -> send_encoded c m = Ok c' -> linked c'.
Proof.
  intros Hc Hs Ht. unfold send_encoded, encode_and_emit. destruct (_ || _); [by intros [= <-]|].
  destruct (encode_message (encoder_ c) m) as [ [e out]| | |] eqn:He; cbn [rbind]; try done. intros [= <-].
  by eapply emitted_reply.
Qed.
Lemma media_linked c f csid msid c' :
  linked c -> media_stream csid -> send_encoded_media c f csid msid = Ok c' -> linked c'.
Proof.
  intros Hc Hs. unfold send_encoded_media. destruct (_ || _); [by intros [= <-]|].
  destruct (encode_message_fmt0 _ _ _ _ _ _) as [out| | |] eqn:He; cbn [rbind]; try done. intros [= <-].
  by apply emitted_media.
Qed.
Lemma control_reply t p : reply_stream (chunk_stream_id (control_message t p)) /\ timestamp (control_message t p) = 0.
Proof. split; [by left|done]. Qed.

Lemma update_ok sv conn f sv' :
  update_connection sv conn f = Ok sv' -> server_ok sv -> (forall c c', linked c -> f c = Ok c' -> linked c') ->
  server_ok sv' /\ system sv' = system sv.
Proof.
  unfold update_connection. destruct (connections sv !! conn) as [c|] eqn:Hc; [|by intros [= <-] ].
  destruct (f c) as [c'| | |] eqn:Hf; cbn [rbind]; try done. intros [= <-] [Hw Hl] Hk. split; [|done]. split; [done|].
  apply map_Forall_insert_2; [|done]. eapply Hk; [by eapply Hl|done].
Qed.
Lemma on_connection_ok sv conn f :
  server_ok sv -> (forall c, linked c -> linked (f c)) -> server_ok (on_connection sv conn f).
Proof.
  intros [Hw Hl] Hf. split; [done|]. intros c' c Hc. cbn in Hc.
  destruct (decide (c' = conn)) as [->|Hne].
  - rewrite lookup_alter_eq in Hc. destruct (connections sv !! conn) as [c0|] eqn:Hc0; [|done]. injection Hc as <-.
    apply Hf. by eapply Hl.
  - rewrite lookup_alter_ne in Hc by done. by eapply Hl.
Qed.

Lemma deliver_events_ok es : forall sv sv',
  deliver_events sv es = Ok sv' -> Forall said es -> server_ok sv -> server_ok sv'.
Proof.
  induction es as [|e es IH]; intros sv sv' Hd Hs Hok; cbn [deliver_events] in Hd; [by injection Hd as <-|].
  apply list.Forall_cons in Hs as [He Hs]. destruct (deliver_event sv e) as [sv1| | |] eqn:H1; cbn [rbind] in Hd; try done.
  apply (IH _ _ Hd Hs). destruct e; cbn [deliver_event] in H1; try (by injection H1 as <-).
  - destruct (update_ok _ _ _ _ H1 Hok) as [H _]; [|done]. intros c c' Hc. by apply reply_linked; destruct He.
  - destruct (update_ok _ _ _ _ H1 Hok) as [H _]; [|done]. intros c c' Hc. by apply media_linked.
Qed.
Lemma after_call_ok sv sys sv' :
  after_call sv sys = Ok sv' -> speaks (world (system sv)) (world sys) -> server_ok sv -> server_ok sv'.
Proof.
  intros Hd Hs [Hw Hl]. destruct (Hs Hw) as [Hw' (new & He & Hn)]. apply (deliver_events_ok _ _ _ Hd); [|done].
  by rewrite He, drop_app_length.
Qed.

Lemma flush_linked c c' : linked c -> flush_pending_acknowledgement c = Ok c' -> linked c'.
Proof.
  intros Hc. unfold flush_pending_acknowledgement. destruct (negb _); [by intros [= <-]|].
  destruct (send_encoded c _) as [c1| | |] eqn:Hs; cbn [rbind]; try done. intros [= <-].
  assert (H : linked c1) by (eapply reply_linked; [done|apply control_reply|done|done]). exact H.
Qed.
Lemma user_control_linked c m c' : linked c -> handle_user_control c m = Ok c' -> linked c'.
Proof.
  intros Hc. unfold handle_user_control. destruct (_ <? _); [by intros [= <-]|].
  destruct (read_u16_be_at _ _) as [event| | |]; cbn [rbind]; try done.
  destruct (negb _); [by intros [= <-]|]. destruct (_ <? _); [by intros [= <-]|].
  destruct (read_u32_be_at _ _) as [ts| | |]; cbn [rbind]; try done. by apply reply_linked; [|left|].
Qed.

Lemma decoded_message_ok sv conn now m sv' :
  handle_decoded_message sv conn now m = Ok sv' -> server_ok sv -> server_ok sv'.
Proof.
  unfold handle_decoded_message. destruct (connections sv !! conn) as [c|]; [|by intros [= <-] ]. cbv zeta.
  destruct (failed_ c); [by intros [= <-]|]. case_match.
  { intros Hu Hok. eapply update_ok in Hu as [H' _]; [exact H'|done|]. intros c1 c2. apply user_control_linked. }
  case_match; [by intros [= <-]|]. destruct (handle_message _ _ _ _) as [sys| | |] eqn:Hm; cbn [rbind]; try done.
  destruct (after_call sv sys) as [sv1| | |] eqn:Ha; cbn [rbind]; try done. intros Hu Hok.
  eapply update_ok in Hu as [H' _]; [exact H'| |intros c1 c2; apply flush_linked].
  apply (after_call_ok _ _ _ Ha); [by eapply handle_message_speaks|done].
Qed.

Lemma fail_linked c : linked c -> linked (fail c).
Proof. unfold fail. by destruct (failed_ c). Qed.
Lemma decoder_events_ok conn now es : forall sv sv',
  handle_decoder_events sv conn now es = Ok sv' -> server_ok sv -> server_ok sv'.
Proof.
  induction es as [|e es IH]; intros sv sv' H Hok; cbn [handle_decoder_events] in H; [by injection H as <-|].
  destruct (handle_decoder_event sv conn now e) as [sv1| | |] eqn:H1; cbn [rbind] in H; try done.
  apply (IH _ _ H). destruct e; cbn [handle_decoder_event] in H1.
  - by apply decoded_message_ok in H1.
  - injection H1 as <-. apply on_connection_ok; [done|apply fail_linked].
Qed.
Lemma decode_loop_ok fuel conn now : forall sv sv',
  decode_loop fuel sv conn now = Ok sv' -> server_ok sv -> server_ok sv'.
Proof.
  induction fuel as [|fuel IH]; intros sv sv' H Hok; cbn [decode_loop] in H; [done|].
  destruct (connections sv !! conn) as [c|]; [|by injection H as <-].
  destruct (decode_one _) as [ [ [res d] es]| | |]; cbn [rbind] in H; try done.
  destruct (handle_decoder_events _ conn now es) as [sv1| | |] eqn:H1; cbn [rbind] in H; try done.
  apply decoder_events_ok in H1; [|by apply on_connection_ok]. destruct res; [by apply (IH _ _ H)|by injection H as <-..].
Qed.
Lemma bytes_received_ok sv conn now data sv' :
  on_bytes_received sv conn now data = Ok sv' -> server_ok sv -> server_ok sv'.
Proof.
  unfold on_bytes_received. destruct (connections sv !! conn) as [c|]; [|by intros [= <-] ].
  destruct (_ || _); [by intros [= <-]|]. intros H Hok.
  destruct (if ChunkDecoder.failed_ (decoder_ c) then _ else _) as [sv1| | |] eqn:H1; cbn [rbind] in H; try done.
  injection H as <-. apply on_connection_ok; [|intros c0 Hc0; destruct (ChunkDecoder.failed_ (decoder_ c0)); [by apply fail_linked|done] ].
  destruct (ChunkDecoder.failed_ (decoder_ c)); [by injection H1 as <-|].
  eapply decode_loop_ok; [exact H1|]. by apply on_connection_ok.
Qed.
Lemma connection_closed_ok sv conn sv' :
  on_connection_closed sv conn = Ok sv' -> server_ok sv -> server_ok sv'.
Proof.
  unfold on_connection_closed. destruct (connections sv !! conn) as [c|]; [|by intros [= <-] ].
  destruct (closed_ c); [by intros [= <-]|]. cbv zeta. intros H Hok.
  eapply after_call_ok; [exact H|apply closed_speaks|by apply on_connection_ok].
Qed.

Lemma start_linked c' mms n : start (make_connection mms n default_limits) = Ok c' -> linked c'.
Proof.
  unfold start. cbn [started_ make_connection]. cbv zeta. cbn [output_chunk_size_ set_started make_connection].
  destruct (Z.eqb_spec n kDefaultChunkSize) as [Hn|Hn]; [intros [= <-]; by apply emitted_silent|].
  unfold encode_and_emit. cbn [encoder_ set_started make_connection].
  destruct (encode_message _ _) as [ [e out]| | |] eqn:He; cbn [rbind]; try done. intros [= <-].
  by apply emitted_announced.
Qed.

Lemma server_step_keeps sv i sv' : server_step sv i = Ok sv' -> server_ok sv -> server_ok sv'.
Proof.
  destruct i as [conn deps mms n|conn now data|conn b|conn]; cbn [server_step].
  - case_bool_decide; [by intros [= <-]|]. cbn [SessionSafety.server_step rbind].
    destruct (start _) as [c| | |] eqn:Hs; cbn [rbind]; try done. intros [= <-] [Hw Hl]. split; cbn [system connections].
    + case_bool_decide; [done|]. intros c0 s0 Hc0. cbn in Hc0.
      apply lookup_insert_Some in Hc0 as [ [_ <-]|[_ Hc0] ]; [done|by eapply Hw].
    + apply map_Forall_insert_2; [|done]. by eapply start_linked.
  - apply bytes_received_ok.
  - intros [= <-] [Hw Hl]. split; [|done]. cbn.
    destruct (on_session_speaks (world (system sv)) conn (set_pending b) ltac:(done) Hw) as [H _]. exact H.
  - destruct (on_connection_closed sv conn) as [sv1| | |] eqn:H1; cbn [rbind]; try done. intros [= <-] Hok.
    apply connection_closed_ok in H1 as [Hw Hl]; [|done]. split; cbn [system connections].
    + intros c s Hs. cbn in Hs. apply lookup_delete_Some in Hs as [_ Hs]. by eapply Hw.
    + by apply map_Forall_delete.
Qed.
Lemma server_run_keeps inputs : forall sv sv', server_run sv inputs = Ok sv' -> server_ok sv -> server_ok sv'.
Proof.
  induction inputs as [|i inputs IH]; intros sv sv' H Hok; cbn [server_run] in H; [by injection H as <-|].
  destruct (server_step sv i) as [sv1| | |] eqn:H1; cbn [rbind] in H; try done.
  apply (IH _ _ H). by eapply server_step_keeps.
Qed.
Lemma make_server_empty g q mw : server_ok (make_server g q mw).
Proof. split; [|by apply map_Forall_empty]. intros c s Hs. cbn in Hs. by rewrite lookup_empty in Hs. Qed.

(** C3. What a connection sends, its peer hears: over any history of the server, what a
    connection has handed to its transport decodes at a peer, in whatever reads, to the
    messages it stands for, in order, field for field: the replies, acknowledgements and
    pings that go through its encoder and the shared media frames that go around it.
    The peer must accept messages of their size and the chunk size ([fits]), and the
    announcement of the chunk size is not handed on. *)
Theorem peers_hear_what_is_sent g q mw inputs sv conn c mms limits reads :
  server_run (make_server g q mw) inputs = Ok sv -> connections sv !! conn = Some c ->
  4 <= output_chunk_size_ c < 2 ^ 31 -> output_chunk_size_ c <= max_chunk_size limits ->
  0 <= mms < 2 ^ 32 -> limits_ok limits -> 5 <= max_chunk_streams limits ->
  forallb (fun mb => fits mms limits mb.1) (sent_out c) = true ->
  forallb plain (heard (output_chunk_size_ c) (sent_out c)) = true ->
  concat reads = concat (map snd (sent_out c)) ->
  exists d, receive_all (make_decoder mms limits) reads =
      Ok (d, map MessageEvent (heard (output_chunk_size_ c) (sent_out c))) /\
    ChunkDecoder.failed_ d = false /\ buffer_ d = [].
Proof.
  intros Hr Hc Hn Hnl Hm Hl H5 Hfit Hplain Hreads.
  destruct (server_run_keeps _ _ _ Hr (make_server_empty g q mw)) as [_ Hok]. specialize (Hok conn c Hc). unfold linked in Hok.
  set (out := concat (map snd (sent_out c))) in *.
  destruct (emitted_decodes mms limits _ (u64 (0 + zlen out)) Hm Hl H5 Hn Hnl _ _ Hok Hfit Hplain)
    as (shadow & d' & _ & Hin & _ & _ & Hsteps). fold out in Hsteps.
  pose proof (make_decoder_inv mms limits Hm Hl) as Hinv.
  assert (Hq : quiescent (make_decoder mms limits)) by (by apply chunk_room_pos).
  destruct (receive_all_concat reads _ Hinv Hq) as (d1 & d2 & ev & H1 & H2 & Hsame1 & Hsame2). rewrite Hreads in H2.
  assert (Hall : ChunkDecoder.failed_ d2 = false /\ buffer_ d2 = [] /\ ev = map MessageEvent (heard (output_chunk_size_ c) (sent_out c))).
  { destruct (decide (out = [])) as [Hout|Hne].
    - rewrite Hout in *. specialize (Hsteps []). apply steps_empty in Hsteps as [_ ->]; [|done].
      change (Ok (make_decoder mms limits, @nil ChunkDecoder.Event) = Ok (d2, ev)) in H2. by injection H2 as <- <-.
    - rewrite (steps_received _ d' out _ Hinv eq_refl eq_refl (Hsteps []) Hne) in H2.
      injection H2 as <- <-. by split_and!; [apply (is_running _ _ Hin)|..]. }
  destruct Hall as (Hf & Hb & ->). exists d1. rewrite H1.
  assert (Hrun : ChunkDecoder.failed_ d1 = false) by (apply (f_equal ChunkDecoder.failed_) in Hsame1; cbn in Hsame1; congruence).
  by rewrite (Hsame2 Hrun).
Qed.

(** A server with a publisher and a viewer; the publisher announces a window. *)
Definition open_dependencies : Dependencies :=
  mkDependencies None None None None None true true "127.0.0.1" default_queue_limits.
Definition client_bytes (ms : list RtmpMessage) : list byte :=
  match send_all (make_encoder kDefaultChunkSize) (map SendMessage ms) with Ok (_, out) => out | _ => [] end.
Definition on_stream (csid m : Z) (message : RtmpMessage) : RtmpMessage :=
  mkRtmpMessage csid m (message_type_id message) (timestamp message) (payload message).
Definition publisher_bytes : list byte :=
  client_bytes [control_message MessageTypeId.WindowAcknowledgementSize (write_u32_be 100);
    on_stream 3 0 create_message; on_stream 3 1 (publish_message 1 "live");
    mkRtmpMessage 6 1 MessageTypeId.Video 40 (x17 :: repeat x01 300); mkRtmpMessage 6 1 MessageTypeId.Audio 63 [xaf; x01; x21]].
Definition viewer_bytes : list byte :=
  client_bytes [on_stream 3 0 create_message; on_stream 3 1 (play_message 1 "live");
    make_user_control UserControlEventType.PingRequest 77].
Definition live_history : list Input :=
  [Accepted 1 open_dependencies 65536 4096; Accepted 2 open_dependencies 65536 128;
   Bytes 2 10 viewer_bytes; Bytes 1 20 (take 50 publisher_bytes); Bytes 1 21 (drop 50 publisher_bytes)].
Definition live_server : Server :=
  match server_run (make_server default_gop_limits default_queue_limits 100) live_history with
  | Ok sv => sv | _ => make_server default_gop_limits default_queue_limits 100 end.
Definition viewer_connection : RtmpConnectionSession :=
  default (make_connection 0 0 default_limits) (connections live_server !! 2).

(** The viewer hears its replies, the pong, and the publisher's video and audio. *)
Lemma peers_hear_what_is_sent_witness :
  map (fun m => (chunk_stream_id m, timestamp m, zlen (payload m))) (heard 128 (sent_out viewer_connection)) =
    [(3, 0, 29); (2, 0, 6); (3, 0, 107); (2, 0, 6); (5, 40, 301); (4, 63, 3)] /\
  exists d, receive_all (make_decoder 65536 default_limits) (map snd (sent_out viewer_connection)) =
      Ok (d, map MessageEvent (heard 128 (sent_out viewer_connection))) /\
    ChunkDecoder.failed_ d = false /\ buffer_ d = [].
Proof.
  split; [vm_compute; reflexivity|].
  apply (peers_hear_what_is_sent default_gop_limits default_queue_limits 100 live_history live_server 2 viewer_connection);
    try (vm_compute; done); try lia.
Defined.

(** * A server answers *)

(** Whatever its peers send, every loop ends and no read leaves its buffer.  What remains is the
    undefined conversion of a deleteStream, a fault of its own (CommandSession.v). *)

(** The computation ends in [P], or in undefined behaviour, which it does only if [E]. *)
Definition safely {A} (E : Prop) (P : A -> Prop) (r : Res A) : Prop :=
  match r with Ok a => P a | Fault => E | _ => False end.
Lemma safely_bind {A B} E (Q : A -> Prop) (P : B -> Prop) m f :
  safely E Q m -> (forall a, m = Ok a -> Q a -> safely E P (f a)) -> safely E P (rbind m f).
Proof. destruct m; cbn; auto. Qed.
Lemma safely_weaken {A} (E E' : Prop) (P P' : A -> Prop) r :
  (E -> E') -> (forall a, P a -> P' a) -> safely E P r -> safely E' P' r.
Proof. destruct r; cbn; auto. Qed.

(** A deleteStream whose number is not one of 32 bits. *)
Definition undefined_delete (m : RtmpMessage) : Prop :=
  exists c bits rest, command_in m = Some c /\ name c = "deleteStream"%string /\
    arguments c = Number bits :: rest /\ double_to_u32 bits = None.

(** A message the loop over the chunks of a read decodes, from the state it begins in. *)
Inductive decoded (conn now : Z) : Server -> RtmpMessage -> Prop :=
| decoded_here sv c res d es m :
    connections sv !! conn = Some c -> decode_one (decoder_ c) = Ok (res, d, es) -> MessageEvent m ∈ es ->
    decoded conn now sv m
| decoded_later sv c res d es sv' m :
    connections sv !! conn = Some c -> decode_one (decoder_ c) = Ok (res, d, es) ->
    handle_decoder_events (on_connection sv conn (set_decoder d)) conn now es = Ok sv' -> decoded conn now sv' m ->
    decoded conn now sv m.
(** A message that [data] completes when [conn] receives it. *)
Definition completed_by (sv : Server) (conn now : Z) (data : list byte) (m : RtmpMessage) : Prop :=
  exists c, connections sv !! conn = Some c /\
    decoded conn now (on_connection sv conn (set_decoder (receive (decoder_ c) data))) m.

Record connection_safe (c : RtmpConnectionSession) : Prop := {
  cs_decoder : inv (decoder_ c);
  cs_encoder : 1 <= chunk_size_ (encoder_ c);
  cs_output : 1 <= output_chunk_size_ c
}.
(** What decides how a decoder goes on. *)
Definition feeds (d : ChunkDecoder) : list byte * Z * Z := (buffer_ d, max_message_size_ d, input_chunk_size_ d).
(** What leaves the input side of a connection alone. *)
Definition quiet (c c' : RtmpConnectionSession) : Prop :=
  connection_safe c -> connection_safe c' /\ feeds (decoder_ c') = feeds (decoder_ c).

Lemma encode_safe c m : connection_safe c -> safely False (quiet c) (encode_and_emit c m).
Proof.
  intros [C1 C2 C3]. unfold encode_and_emit. destruct (encode_message_total (encoder_ c) m ltac:(lia)) as (e & out & He & Hc).
  rewrite He. cbn. intros _. split; [|done]. split; [done|cbn; lia|done].
Qed.
Lemma send_safe c m : connection_safe c -> safely False (quiet c) (send_encoded c m).
Proof. intros Hc. unfold send_encoded. destruct (_ || _); [by intros ?|]. by apply encode_safe. Qed.
Lemma send_media_safe c f csid msid : connection_safe c -> safely False (quiet c) (send_encoded_media c f csid msid).
Proof.
  intros [C1 C2 C3]. unfold send_encoded_media. destruct (_ || _); [by intros ?|]. unfold encode_message_fmt0.
  pose proof (zlen_nonneg (frame_payload f)).
  destruct (write_pieces_total (pieces_fuel (frame_payload f)) (output_chunk_size_ c) csid
    (kExtendedTimestampMarker <=? frame_timestamp f) (frame_timestamp f) (frame_payload f) 0 true) as [pieces ->];
    [lia|lia|unfold pieces_fuel, zlen; lia|].
  cbn. intros _. split; [|done]. by split.
Qed.
Lemma flush_safe c : connection_safe c -> safely False (quiet c) (flush_pending_acknowledgement c).
Proof.
  intros Hc. unfold flush_pending_acknowledgement. destruct (negb _); [by intros ?|].
  eapply safely_bind; [by apply send_safe|]. intros c' _ Hq _. destruct (Hq Hc) as [ [C1 C2 C3] Hb]. split; [|done].
  split; [|done|done]. by destruct C1.
Qed.
Lemma user_control_safe c m : connection_safe c -> safely False (quiet c) (handle_user_control c m).
Proof.
  intros Hc. unfold handle_user_control. destruct (Z.ltb_spec (zlen (payload m)) 2); [by intros ?|].
  destruct (read_u16_be_at_ok (payload m) 0) as (v & -> & _); [lia..|]. cbn [rbind]. destruct (negb _); [by intros ?|].
  destruct (Z.ltb_spec (zlen (payload m)) 6); [by intros ?|].
  destruct (read_u32_be_at_ok (payload m) 2) as (ts & -> & _); [lia..|]. cbn [rbind]. by apply send_safe.
Qed.

(** Every connection is in order, and its decoder in [Q]. *)
Section Safe.
Context (Q : Z -> ChunkDecoder -> Prop).
Hypothesis Q_feeds : forall conn d d', feeds d' = feeds d -> Q conn d -> Q conn d'.

Definition safe (sv : Server) : Prop :=
  map_Forall (fun conn c => connection_safe c /\ Q conn (decoder_ c)) (connections sv).

Lemma update_safe sv conn f :
  safe sv -> (forall c, connection_safe c -> safely False (quiet c) (f c)) -> safely False safe (update_connection sv conn f).
Proof.
  intros Hs Hf. unfold update_connection. destruct (connections sv !! conn) as [c|] eqn:Hc; [|done].
  destruct (Hs conn c Hc) as [Hc1 Hc2].
  eapply safely_bind; [by apply Hf|]. intros c' _ Hq. destruct (Hq Hc1) as [Hc' Hbuf]. cbn.
  apply map_Forall_insert_2; [|done]. split; [done|]. by eapply Q_feeds.
Qed.
Lemma on_connection_safe sv conn f :
  safe sv -> (forall c, quiet c (f c)) -> safe (on_connection sv conn f).
Proof.
  intros Hs Hf c' c Hc. cbn in Hc. destruct (decide (c' = conn)) as [->|Hne].
  - rewrite lookup_alter_eq in Hc. destruct (connections sv !! conn) as [c0|] eqn:Hc0; [|done]. injection Hc as <-.
    destruct (Hs conn c0 Hc0) as [H1 H2]. destruct (Hf c0 H1) as [H3 H4]. split; [done|]. by eapply Q_feeds.
  - rewrite lookup_alter_ne in Hc by done. by eapply Hs.
Qed.

Lemma deliver_events_safe es : forall sv, safe sv -> safely False safe (deliver_events sv es).
Proof.
  induction es as [|e es IH]; intros sv Hs; cbn [deliver_events]; [done|].
  eapply safely_bind; [|intros; by apply IH]. destruct e; cbn [deliver_event]; try done; apply update_safe; try done; intros c Hc.
  - by apply send_safe.
  - by apply send_media_safe.
Qed.

Lemma handle_message_answers sys conn now m : safely (undefined_delete m) (fun _ => True) (handle_message sys conn now m).
Proof.
  destruct (handle_message_undefined sys conn now m) as [H1 H2].
  destruct H1 as [[sys' H1]|H1]; rewrite H1; [done|]. by apply H2.
Qed.

Lemma decoded_message_safe sv conn now m : safe sv -> safely (undefined_delete m) safe (handle_decoded_message sv conn now m).
Proof.
  intros Hs. unfold handle_decoded_message. destruct (connections sv !! conn) as [c|]; [|done]. cbv zeta.
  destruct (failed_ c); [done|].
  assert (Hno : forall r, safely False safe r -> safely (undefined_delete m) safe r) by (intros r; by apply safely_weaken).
  case_match; [apply Hno, update_safe; [done|]; intros c0; apply user_control_safe|].
  case_match; [done|]. eapply safely_bind; [apply handle_message_answers|]. intros sys _ _.
  eapply safely_bind; [by apply Hno, deliver_events_safe|]. intros sv1 _ Hs1. apply Hno, update_safe; [done|]. intros c0. apply flush_safe.
Qed.
Lemma fail_quiet c : quiet c (fail c).
Proof. intros Hc. unfold fail. destruct (failed_ c); [done|]. split; [|done]. by destruct Hc. Qed.
Lemma decoder_events_safe conn now es : forall sv, safe sv ->
  safely (exists m, MessageEvent m ∈ es /\ undefined_delete m) safe (handle_decoder_events sv conn now es).
Proof.
  induction es as [|e es IH]; intros sv Hs; cbn [handle_decoder_events]; [done|].
  eapply (safely_bind _ safe).
  - destruct e as [m|]; cbn [handle_decoder_event]; [|apply on_connection_safe; [done|apply fail_quiet]].
    eapply safely_weaken; [|done|by apply (decoded_message_safe sv conn now m)].
    intros Hu. exists m. split; [apply list_elem_of_here|done].
  - intros sv1 _ Hs1. eapply safely_weaken; [|done|by apply IH]. intros (m & Hm & Hu). exists m. split; [by apply list_elem_of_further|done].
Qed.
End Safe.

Lemma safe_weaken Q Q' sv : (forall conn d, Q conn d -> Q' conn d) -> safe Q sv -> safe Q' sv.
Proof. intros HQ Hs conn c Hc. destruct (Hs conn c Hc). auto. Qed.

(** * A read *)

Definition resting (conn : Z) (d : ChunkDecoder) : Prop := quiescent d.
(** In the middle of a read on [conn], with at most [b] bytes to go. *)
Definition reading (conn b : Z) (c : Z) (d : ChunkDecoder) : Prop :=
  if decide (c = conn) then zlen (buffer_ d) <= b else quiescent d.

Lemma resting_feeds conn d d' : feeds d' = feeds d -> resting conn d -> resting conn d'.
Proof. unfold feeds, resting, quiescent. intros [= -> -> ->]. done. Qed.
Lemma reading_feeds conn b c d d' : feeds d' = feeds d -> reading conn b c d -> reading conn b c d'.
Proof. unfold feeds, reading, quiescent. intros [= -> -> ->]. done. Qed.

(** The decoder of the connection that reads is replaced. *)
Lemma set_decoder_safe Q Q' sv conn d :
  safe Q sv -> inv d -> Q' conn d -> (forall c d0, c <> conn -> Q c d0 -> Q' c d0) ->
  safe Q' (on_connection sv conn (set_decoder d)).
Proof.
  intros Hs Hd Hq HQ c' c Hc. cbn in Hc. destruct (decide (c' = conn)) as [->|Hne].
  - rewrite lookup_alter_eq in Hc. destruct (connections sv !! conn) as [c0|] eqn:Hc0; [|done]. injection Hc as <-.
    destruct (Hs conn c0 Hc0) as [ [H1 H2 H3] _]. split; [by split|done].
  - rewrite lookup_alter_ne in Hc by done. destruct (Hs c' c Hc). auto.
Qed.

Lemma decode_loop_safe fuel conn now : forall sv b,
  safe (reading conn b) sv -> 0 <= b < Z.of_nat fuel ->
  safely (exists m, decoded conn now sv m /\ undefined_delete m) (safe resting) (decode_loop fuel sv conn now).
Proof.
  induction fuel as [|fuel IH]; intros sv b Hs Hb; [lia|]. cbn [decode_loop].
  destruct (connections sv !! conn) as [c|] eqn:Hc.
  2: { intros c' c0 Hc0. destruct (Hs c' c0 Hc0) as [H1 H2]. split; [done|]. unfold reading in H2.
       destruct (decide (c' = conn)); [congruence|done]. }
  destruct (Hs conn c Hc) as [ [C1 C2 C3] Hq]. unfold reading in Hq. rewrite decide_True in Hq by done.
  pose proof (decode_one_total (decoder_ c) C1) as Ht. destruct (decode_one (decoder_ c)) as [ [ [res d] es]| | |] eqn:Hone; try done.
  destruct Ht as (Hi & _ & _ & Hres). cbn [rbind]. pose proof (zlen_nonneg (buffer_ d)).
  assert (Hothers : forall b' c0 d0, c0 <> conn -> reading conn b c0 d0 -> reading conn b' c0 d0).
  { intros b' c0 d0 Hne. unfold reading. by rewrite !decide_False by done. }
  assert (Hrest : forall c0 d0, c0 <> conn -> reading conn b c0 d0 -> resting c0 d0).
  { intros c0 d0 Hne. unfold reading. by rewrite decide_False by done. }
  assert (Hhere : (exists m, MessageEvent m ∈ es /\ undefined_delete m) -> exists m, decoded conn now sv m /\ undefined_delete m).
  { intros (m & Hm & Hu). exists m. split; [by eapply decoded_here|done]. }
  destruct res.
  - eapply safely_bind.
    + eapply safely_weaken; [exact Hhere|intros a Ha0; exact Ha0|].
      apply (decoder_events_safe (reading conn (b - 1)) (reading_feeds conn (b - 1))).
      eapply set_decoder_safe; [exact Hs|done| |by apply Hothers]. unfold reading. rewrite decide_True by done. lia.
    + intros sv1 E1 Hs1. eapply safely_weaken; [|done|apply (IH _ (b - 1)); [done|lia]].
      intros (m & Hm & Hu). exists m. split; [by eapply decoded_later|done].
  - eapply safely_bind; [|by intros sv1 _ Hs1]. eapply safely_weaken; [exact Hhere|intros a Ha0; exact Ha0|].
    apply (decoder_events_safe resting resting_feeds). by eapply set_decoder_safe.
  - eapply safely_bind; [|by intros sv1 _ Hs1]. eapply safely_weaken; [exact Hhere|intros a Ha0; exact Ha0|].
    apply (decoder_events_safe resting resting_feeds). eapply set_decoder_safe; [exact Hs|done| |done].
    unfold resting, quiescent. destruct (inv_failed d Hi Hres) as [-> _]. by apply chunk_room_pos.
Qed.

Lemma bytes_received_safe sv conn now data :
  safe resting sv ->
  safely (exists m, completed_by sv conn now data m /\ undefined_delete m) (safe resting) (on_bytes_received sv conn now data).
Proof.
  intros Hs. unfold on_bytes_received. destruct (connections sv !! conn) as [c|] eqn:Hc; [|done].
  destruct (_ || _); [done|]. eapply (safely_bind _ (safe resting)).
  2: { intros sv1 _ Hs1. apply (on_connection_safe resting resting_feeds); [done|]. intros c0.
       destruct (ChunkDecoder.failed_ (decoder_ c0)); [apply fail_quiet|by intros ?]. }
  destruct (ChunkDecoder.failed_ (decoder_ c)) eqn:Hf; [done|]. destruct (Hs conn c Hc) as [ [C1 C2 C3] _].
  eapply safely_weaken; [|intros a Ha0; exact Ha0|apply (decode_loop_safe _ conn now _ (zlen (buffer_ (receive (decoder_ c) data))))].
  - intros (m & Hm & Hu). exists m. split; [by exists c|done].
  - eapply set_decoder_safe; [exact Hs| | |].
    + destruct C1. constructor; try done. cbn. by rewrite Hf.
    + unfold reading. rewrite decide_True by done. lia.
    + intros c0 d0 Hne. unfold reading. by rewrite decide_False by done.
  - pose proof (zlen_nonneg (buffer_ (receive (decoder_ c) data))). unfold loop_fuel, zlen in *. lia.
Qed.

(** A connection is accepted with a message limit that fits a length field and a chunk size. *)
Definition accepts (i : Input) : bool :=
  match i with
  | Accepted _ _ mms n => (0 <=? mms) && (mms <? 2 ^ 32) && (1 <=? n)
  | _ => true
  end.

Lemma server_step_safe sv i : accepts i = true -> safe resting sv ->
  safely (exists conn now data m, i = Bytes conn now data /\ completed_by sv conn now data m /\ undefined_delete m)
    (safe resting) (server_step sv i).
Proof.
  intros Ha Hs. destruct i as [conn deps mms n|conn now data|conn b|conn]; cbn [server_step].
  - case_bool_decide; [done|]. cbn [SessionSafety.server_step rbind]. cbn in Ha. rewrite !andb_true_iff, !Z.leb_le, Z.ltb_lt in Ha.
    assert (Hl : limits_ok default_limits) by (unfold limits_ok; cbn; lia).
    assert (Hm : inv (make_decoder mms default_limits)) by (by apply make_decoder_inv; [lia|]).
    set (c0 := make_connection mms n default_limits).
    assert (Hc0 : connection_safe c0) by (split; [done|cbn; lia|cbn; lia]).
    assert (Hst : safely False (fun c => connection_safe c /\ resting conn (decoder_ c)) (start c0)).
    { assert (Hq : resting conn (decoder_ c0)) by (by apply chunk_room_pos).
      unfold start. destruct (started_ c0); [by split|]. cbv zeta. destruct (_ =? _); [split; [by destruct Hc0; split|done]|].
      eapply safely_weaken; [intros H0; exact H0| |apply (encode_safe (set_started c0)); by destruct Hc0; split].
      intros c Hquiet. destruct Hquiet as [H1 H2]; [by destruct Hc0; split|]. split; [done|]. by eapply resting_feeds. }
    eapply safely_bind; [by eapply safely_weaken; [| |exact Hst]|]. intros c _ Hc. cbn. by apply map_Forall_insert_2.
  - eapply safely_weaken; [|intros a Ha0; exact Ha0|by apply (bytes_received_safe sv conn now data)].
    intros (m & Hm & Hu). by exists conn, now, data, m.
  - done.
  - eapply (safely_bind _ (safe resting)); [|intros sv1 _ Hs1; by apply map_Forall_delete].
    unfold on_connection_closed. destruct (connections sv !! conn) as [c|]; [|done]. destruct (closed_ c); [done|]. cbv zeta.
    eapply (safely_weaken False); [done|intros a Ha0; exact Ha0|]. apply (deliver_events_safe resting resting_feeds). apply (on_connection_safe resting resting_feeds); [done|].
    intros c0 [C1 C2 C3]. by split.
Qed.


Definition noisy_history : list Input :=
  [Accepted 1 (mkDependencies None None None None None true true "" default_queue_limits) 65536 4096;
   Bytes 1 0 [x03; x00; x00]; Bytes 1 1 [x00; x00; x00; x04; x14; x00; x00; x00; x00; xff; xff; xff; xff];
   Bytes 1 2 [xc0]; Bytes 1 3 [x7f; x00]; Disconnected 1].
