(* ===== verification/TsMuxer.v ===== *)
(** media/ts/ts_muxer.cpp: the MPEG-2 transport stream multiplexer.  Every member
    function appends to a [std::vector<std::byte>& out] and advances the continuity
    counter of its PID; here it returns the vector and the counter (or the muxer).
    [with_program] and [ts_packet] at the end describe what a packet is; they are what
    the demultiplexer's proofs rely on. *)

From S2P Require Import Prelude Bytes Nal.

Definition kStreamIdVideo : Z := 0xE0.
Definition kStreamIdAudio : Z := 0xC0.
Definition kStreamTypeH264 : Z := 0x1B.
Definition kStreamTypeAacAdts : Z := 0x0F.
Definition kPacketSize : Z := 188.
Definition kSyncByte : Z := 0x47.

(** * Appending fields *)

Definition push_u8 (out : list byte) (v : Z) : list byte := out ++ [z2b (Z.land v 0xFF)].
Definition push_u16 (out : list byte) (v : Z) : list byte :=
  push_u8 (push_u8 out (Z.shiftr v 8)) v.
Definition push_u32 (out : list byte) (v : Z) : list byte :=
  push_u8 (push_u8 (push_u8 (push_u8 out (Z.shiftr v 24)) (Z.shiftr v 16)) (Z.shiftr v 8)) v.

(** The 33-bit timestamp: note that bits 32..30 are not shifted past the marker bit. *)
Definition push_timestamp (out : list byte) (prefix value : Z) : list byte :=
  let v := Z.land value 0x1FFFFFFFF in
  let out := push_u8 out (Z.lor (Z.lor (Z.shiftl prefix 4)
                                       (u32 (Z.land (Z.shiftr v 30) 0x07))) 0x01) in
  let out := push_u16 out (Z.lor (u32 (Z.shiftl (Z.land (Z.shiftr v 15) 0x7FFF) 1)) 0x01) in
  push_u16 out (Z.lor (u32 (Z.shiftl (Z.land v 0x7FFF) 1)) 0x01).

(** * CRC-32 of PSI sections *)

(** One round of the inner loop, and the inner loop. *)
Definition crc_round (crc : Z) : Z :=
  if negb (Z.land crc 0x80000000 =? 0) then Z.lxor (u32 (Z.shiftl crc 1)) 0x04C11DB7
  else u32 (Z.shiftl crc 1).
Definition crc_byte (crc : Z) (b : byte) : Z :=
  Nat.iter 8 crc_round (Z.lxor crc (u32 (Z.shiftl (b2z b) 24))).
Definition mpeg_crc32 (data : list byte) : Z := foldl crc_byte 0xFFFFFFFF data.

(** * The muxer *)

Record TsMuxerConfig := mkTsMuxerConfig {
  pmt_pid : Z;
  video_pid : Z;
  audio_pid : Z;
  program_number : Z
}.
Definition default_config : TsMuxerConfig := mkTsMuxerConfig 0x1000 0x0100 0x0101 1.

Record TsMuxer := mkTsMuxer {
  config_ : TsMuxerConfig;
  video_cc_ : Z;
  audio_cc_ : Z;
  pat_cc_ : Z;
  pmt_cc_ : Z
}.
Definition make_muxer (config : TsMuxerConfig) : TsMuxer := mkTsMuxer config 0 0 0 0.
Definition reset_continuity (m : TsMuxer) : TsMuxer := mkTsMuxer (config_ m) 0 0 0 0.

(** [continuity_counter = (continuity_counter + 1) & 0x0F]. *)
Definition next_cc (cc : Z) : Z := Z.land (cc + 1) 0x0F.

(** [while (out.size() - start < kPacketSize) out.push_back(0xFF)]. *)
Definition pad_packet (out : list byte) (start : Z) : list byte :=
  out ++ replicate (Z.to_nat (kPacketSize - (zlen out - start))) (z2b 0xFF).

Definition write_psi_packet (out : list byte) (pid cc : Z) (section : list byte)
    : list byte * Z :=
  let start := zlen out in
  let out := push_u8 out kSyncByte in
  let out := push_u8 out (Z.lor 0x40 (Z.land (Z.shiftr pid 8) 0x1F)) in
  let out := push_u8 out (Z.land pid 0xFF) in
  let out := push_u8 out (Z.lor 0x10 (Z.land cc 0x0F)) in
  let out := push_u8 out 0x00 in
  let out := out ++ section in
  (pad_packet out start, next_cc cc).

Definition pat_section (config : TsMuxerConfig) : list byte :=
  let section := push_u8 [] 0x00 in
  let section := push_u16 section (Z.lor 0xB000 13) in
  let section := push_u16 section 0x0001 in
  let section := push_u8 section 0xC1 in
  let section := push_u8 section 0x00 in
  let section := push_u8 section 0x00 in
  let section := push_u16 section (program_number config) in
  let section := push_u16 section (Z.lor 0xE000 (Z.land (pmt_pid config) 0x1FFF)) in
  push_u32 section (mpeg_crc32 section).

Definition pmt_section (config : TsMuxerConfig) : list byte :=
  let section := push_u8 [] 0x02 in
  let section := push_u16 section (Z.lor 0xB000 23) in
  let section := push_u16 section (program_number config) in
  let section := push_u8 section 0xC1 in
  let section := push_u8 section 0x00 in
  let section := push_u8 section 0x00 in
  let section := push_u16 section (Z.lor 0xE000 (Z.land (video_pid config) 0x1FFF)) in
  let section := push_u16 section 0xF000 in
  let section := push_u8 section kStreamTypeH264 in
  let section := push_u16 section (Z.lor 0xE000 (Z.land (video_pid config) 0x1FFF)) in
  let section := push_u16 section 0xF000 in
  let section := push_u8 section kStreamTypeAacAdts in
  let section := push_u16 section (Z.lor 0xE000 (Z.land (audio_pid config) 0x1FFF)) in
  let section := push_u16 section 0xF000 in
  push_u32 section (mpeg_crc32 section).

Definition write_program_tables (m : TsMuxer) (out : list byte) : TsMuxer * list byte :=
  let '(out, pat_cc) := write_psi_packet out 0x0000 (pat_cc_ m) (pat_section (config_ m)) in
  let '(out, pmt_cc) :=
    write_psi_packet out (pmt_pid (config_ m)) (pmt_cc_ m) (pmt_section (config_ m)) in
  (mkTsMuxer (config_ m) (video_cc_ m) (audio_cc_ m) pat_cc pmt_cc, out).

(** ** PES packets over transport packets *)

(** The adaptation field of one packet: [(af_len, stuffing, available)]. *)
Definition packet_layout (remaining : Z) (want_af_flags with_pcr : bool) : Z * Z * Z :=
  let af_len := if want_af_flags then (if with_pcr then 8 else 2) else 0 in
  let available := kPacketSize - 4 - af_len in
  if remaining <? available then
    let stuffing := available - remaining in
    let '(af_len, stuffing) :=
      if af_len =? 0 then (stuffing, if 2 <=? stuffing then stuffing - 2 else 0)
      else (af_len + stuffing, stuffing) in
    (af_len, stuffing, kPacketSize - 4 - af_len)
  else (af_len, 0, available).

Definition push_pcr (out : list byte) (pcr_90k : Z) : list byte :=
  let base := Z.land pcr_90k 0x1FFFFFFFF in
  let out := push_u8 out (u32 (Z.shiftr base 25)) in
  let out := push_u8 out (u32 (Z.shiftr base 17)) in
  let out := push_u8 out (u32 (Z.shiftr base 9)) in
  let out := push_u8 out (u32 (Z.shiftr base 1)) in
  let out := push_u8 out (Z.lor (u32 (Z.shiftl (Z.land base 0x01) 7)) 0x7E) in
  push_u8 out 0x00.

Definition push_adaptation (out : list byte) (first with_pcr : bool) (pcr_90k : Z)
    (random_access : bool) (af_len stuffing : Z) : list byte :=
  if 0 <? af_len then
    let out := push_u8 out (u32 (af_len - 1)) in
    if 2 <=? af_len then
      let flags := if first && random_access then 0x40 else 0 in
      let flags := if first && with_pcr then Z.lor flags 0x10 else flags in
      let out := push_u8 out flags in
      let out := if first && with_pcr then push_pcr out pcr_90k else out in
      out ++ replicate (Z.to_nat stuffing) (z2b (Z.land 0xFF 0xFF))
    else out
  else out.

(** The body of the loop: one packet of [remaining] (the bytes of the payload from
    [offset] on), returning what is left. *)
Definition write_pes_packet (out : list byte) (pid cc : Z) (remaining : list byte)
    (first with_pcr : bool) (pcr_90k : Z) (random_access : bool) : list byte * list byte :=
  let packet_start := zlen out in
  let want_af_flags := first && (with_pcr || random_access) in
  let '(af_len, stuffing, available) :=
    packet_layout (zlen remaining) want_af_flags with_pcr in
  let payload_bytes := Z.min (zlen remaining) available in
  let out := push_u8 out kSyncByte in
  let out := push_u8 out (Z.lor (if first then 0x40 else 0x00) (Z.land (Z.shiftr pid 8) 0x1F)) in
  let out := push_u8 out (Z.land pid 0xFF) in
  let afc := if 0 <? af_len then 0x30 else 0x10 in
  let out := push_u8 out (Z.lor afc (Z.land cc 0x0F)) in
  let out := push_adaptation out first with_pcr pcr_90k random_access af_len stuffing in
  let out := out ++ take (Z.to_nat payload_bytes) remaining in
  (pad_packet out packet_start, drop (Z.to_nat payload_bytes) remaining).

Fixpoint write_pes_packets (fuel : nat) (out : list byte) (pid cc : Z)
    (remaining : list byte) (first with_pcr : bool) (pcr_90k : Z) (random_access : bool)
    : Res (list byte * Z) :=
  match fuel with
  | O => OutOfFuel
  | S fuel =>
      if zlen remaining =? 0 then Ok (out, cc) else
      let '(out, remaining) :=
        write_pes_packet out pid cc remaining first with_pcr pcr_90k random_access in
      write_pes_packets fuel out pid (next_cc cc) remaining false with_pcr pcr_90k random_access
  end.

Definition muxer_error (code : ErrorCode.t) (what : string) : Error :=
  mkError code ErrorCategory.Protocol what.

(** The PES packet of an access unit, as [write_video] builds it in [pes]. *)
Definition video_pes (annexb : list byte) (pts_90k dts_90k : Z) : list byte :=
  let pes := push_u8 (push_u8 (push_u8 (push_u8 [] 0x00) 0x00) 0x01) kStreamIdVideo in
  let with_dts := negb (dts_90k =? pts_90k) in
  let header_data_len := if with_dts then 10 else 5 in
  let pes_payload_len := zlen annexb + 3 + header_data_len in
  let pes := push_u16 pes (if 0xFFFF <? pes_payload_len then 0 else u32 pes_payload_len) in
  let pes := push_u8 pes 0x80 in
  let pes := push_u8 pes (if with_dts then 0xC0 else 0x80) in
  let pes := push_u8 pes (u32 header_data_len) in
  let pes := push_timestamp pes (if with_dts then 0x03 else 0x02) pts_90k in
  let pes := if with_dts then push_timestamp pes 0x01 dts_90k else pes in
  pes ++ annexb.

Definition write_video (m : TsMuxer) (out annexb : list byte) (pts_90k dts_90k : Z)
    (keyframe : bool) : Res (TsMuxer * list byte) :=
  if zlen annexb =? 0 then
    Err (muxer_error ErrorCode.MalformedChunk "empty H.264 access unit") else
  let pes := video_pes annexb pts_90k dts_90k in
  '(out, cc) <- write_pes_packets (S (length pes)) out (video_pid (config_ m)) (video_cc_ m)
                  pes true keyframe dts_90k keyframe ;;
  Ok (mkTsMuxer (config_ m) cc (audio_cc_ m) (pat_cc_ m) (pmt_cc_ m), out).

Definition audio_pes (adts : list byte) (pts_90k : Z) : list byte :=
  let pes := push_u8 (push_u8 (push_u8 (push_u8 [] 0x00) 0x00) 0x01) kStreamIdAudio in
  let pes := push_u16 pes (u32 (zlen adts + 3 + 5)) in
  let pes := push_u8 pes 0x80 in
  let pes := push_u8 pes 0x80 in
  let pes := push_u8 pes 5 in
  let pes := push_timestamp pes 0x02 pts_90k in
  pes ++ adts.

Definition write_audio (m : TsMuxer) (out adts : list byte) (pts_90k : Z)
    : Res (TsMuxer * list byte) :=
  if zlen adts =? 0 then
    Err (muxer_error ErrorCode.MalformedChunk "empty AAC access unit") else
  let pes_payload_len := zlen adts + 3 + 5 in
  if 0xFFFF <? pes_payload_len then
    Err (muxer_error ErrorCode.MessageTooLarge "AAC PES payload exceeds 65535 bytes") else
  let pes := audio_pes adts pts_90k in
  '(out, cc) <- write_pes_packets (S (length pes)) out (audio_pid (config_ m)) (audio_cc_ m)
                  pes true false 0 false ;;
  Ok (mkTsMuxer (config_ m) (video_cc_ m) cc (pat_cc_ m) (pmt_cc_ m), out).

(** * What a packet looks like *)

(** The four header bytes, an adaptation field (possibly empty) and a payload. *)
Definition ts_packet (pid : Z) (pusi : bool) (cc : Z) (af chunk : list byte) : list byte :=
  [z2b kSyncByte;
   z2b (Z.lor (if pusi then 0x40 else 0x00) (Z.land (Z.shiftr pid 8) 0x1F));
   z2b (Z.land pid 0xFF);
   z2b (Z.lor (match af with [] => 0x10 | _ => 0x30 end) (Z.land cc 0x0F))] ++ af ++ chunk.

(** An adaptation field starts with its own length. *)
Definition adaptation (af : list byte) : Prop :=
  af = [] \/ exists body, af = z2b (zlen body) :: body.

(** [pes_packets pid cc first pes ps cc']: [ps] are the packets that carry [pes] with
    continuity counters from [cc] on; a packet that is not the last has at least 176
    bytes of payload. *)
Inductive pes_packets (pid : Z) :
  Z -> bool -> list byte -> list (list byte) -> Z -> Prop :=
| pes_done cc first : pes_packets pid cc first [] [] cc
| pes_more cc first af chunk rest ps cc' :
    adaptation af -> chunk <> [] -> zlen af + zlen chunk = 184 ->
    rest = [] \/ 176 <= zlen chunk ->
    pes_packets pid (next_cc cc) false rest ps cc' ->
    pes_packets pid cc first (chunk ++ rest) (ts_packet pid first cc af chunk :: ps) cc'.

(** The one packet of a PSI section: pointer field, section, stuffing. *)
Definition psi_packet (pid cc : Z) (section : list byte) : list byte :=
  ts_packet pid true cc []
    (z2b 0 :: section ++ replicate (Z.to_nat (183 - zlen section)) (z2b 0xFF)).

(** ** Reading a packet back *)

Definition packet_pid (p : list byte) : Z :=
  match p with
  | _ :: b1 :: b2 :: _ => Z.land (b2z b1) 0x1F * 256 + b2z b2
  | _ => -1
  end.
Definition packet_cc (p : list byte) : Z :=
  match p with
  | _ :: _ :: _ :: b3 :: _ => Z.land (b2z b3) 0x0F
  | _ => -1
  end.
Definition transport_packet (p : list byte) : Prop :=
  zlen p = kPacketSize /\ exists rest, p = z2b kSyncByte :: rest.

(** The counters of a run of packets: each is the successor of the previous one. *)
Fixpoint cc_run (cc : Z) (ccs : list Z) : option Z :=
  match ccs with
  | [] => Some cc
  | c :: ccs => if c =? cc then cc_run (next_cc cc) ccs else None
  end.
Definition ccs_of (pid : Z) (ps : list (list byte)) : list Z :=
  map packet_cc (filter (fun p => packet_pid p = pid) ps).

(** * Sequences of writes *)

Inductive ts_write :=
| Tables
| Video (annexb : list byte) (pts dts : Z) (keyframe : bool)
| Audio (adts : list byte) (pts : Z).

Definition write_one (m : TsMuxer) (out : list byte) (w : ts_write)
    : Res (TsMuxer * list byte) :=
  match w with
  | Tables => Ok (write_program_tables m out)
  | Video annexb pts dts key => write_video m out annexb pts dts key
  | Audio adts pts => write_audio m out adts pts
  end.
Fixpoint write_all (m : TsMuxer) (out : list byte) (ws : list ts_write)
    : Res (TsMuxer * list byte) :=
  match ws with
  | [] => Ok (m, out)
  | w :: ws => '(m, out) <- write_one m out w ;; write_all m out ws
  end.

(** PIDs are 13 bits, and each table and stream has its own. *)
Definition valid_config (c : TsMuxerConfig) : Prop :=
  NoDup [0; pmt_pid c; video_pid c; audio_pid c] /\
  Forall (fun pid => 0 <= pid < 0x1FFF) [pmt_pid c; video_pid c; audio_pid c] /\
  0 <= program_number c < 2 ^ 16.
Definition counter (cc : Z) : Prop := 0 <= cc < 16.
Definition valid_muxer (m : TsMuxer) : Prop :=
  valid_config (config_ m) /\
  counter (video_cc_ m) /\ counter (audio_cc_ m) /\ counter (pat_cc_ m) /\ counter (pmt_cc_ m).

(** * Lemmas: fields *)

Lemma push_u8_eq out v : push_u8 out v = out ++ [z2b v].
Proof. unfold push_u8. by rewrite land_255, z2b_mod. Qed.
Lemma push_u16_eq out v : push_u16 out v = out ++ [z2b (Z.shiftr v 8); z2b v].
Proof. unfold push_u16. by rewrite !push_u8_eq, <- app_assoc. Qed.
Lemma push_u32_eq out v :
  push_u32 out v = out ++ [z2b (Z.shiftr v 24); z2b (Z.shiftr v 16); z2b (Z.shiftr v 8); z2b v].
Proof. unfold push_u32. by rewrite !push_u8_eq, <- !app_assoc. Qed.
#[export] Hint Rewrite push_u8_eq push_u16_eq push_u32_eq : push.

Ltac pushes := autorewrite with push; rewrite <- ?app_assoc; cbn [app].

Lemma push_timestamp_app out prefix v :
  push_timestamp out prefix v = out ++ push_timestamp [] prefix v.
Proof. unfold push_timestamp. by pushes. Qed.
Lemma zlen_push_timestamp prefix v : zlen (push_timestamp [] prefix v) = 5.
Proof. unfold push_timestamp. by pushes. Qed.
Lemma push_pcr_app out v : push_pcr out v = out ++ push_pcr [] v.
Proof. unfold push_pcr. by pushes. Qed.

Lemma zlen_replicate {A} n (a : A) : zlen (replicate n a) = Z.of_nat n.
Proof. unfold zlen. by rewrite length_replicate. Qed.
#[export] Hint Rewrite @zlen_replicate : bytes.

Lemma pad_packet_full out p : zlen p = kPacketSize -> pad_packet (out ++ p) (zlen out) = out ++ p.
Proof.
  intros Hp. unfold pad_packet. rewrite zlen_app, Hp.
  replace (Z.to_nat _) with 0%nat by lia. by rewrite app_nil_r.
Qed.

Lemma next_cc_counter cc : counter cc -> counter (next_cc cc).
Proof.
  intros _. unfold counter, next_cc. change 0x0F with (2 ^ 4 - 1).
  rewrite land_ones_mod by lia. apply Z.mod_pos_bound. lia.
Qed.
#[export] Hint Resolve next_cc_counter : rtmp.

(** ** Packets *)

Lemma zlen_ts_packet pid pusi cc af chunk :
  zlen (ts_packet pid pusi cc af chunk) = 4 + zlen af + zlen chunk.
Proof. unfold ts_packet. zlia. Qed.

Lemma transport_ts_packet pid pusi cc af chunk :
  zlen af + zlen chunk = 184 -> transport_packet (ts_packet pid pusi cc af chunk).
Proof. intros H. split; [rewrite zlen_ts_packet; unfold kPacketSize; lia|by eexists]. Qed.

Lemma packet_pid_ts_packet pid pusi cc af chunk :
  0 <= pid < 8192 -> packet_pid (ts_packet pid pusi cc af chunk) = pid.
Proof.
  intros Hp. unfold packet_pid, ts_packet. cbn [app]. rewrite !b2z_z2b, land_255.
  rewrite Zmod_mod, Z.shiftr_div_pow2 by lia.
  change 0x1F with (2 ^ 5 - 1). rewrite !land_ones_mod by lia.
  change 256 with (2 ^ 8) at 1. rewrite <- (Z.land_ones _ 8), <- (Z.land_ones _ 5) by lia.
  assert (0 <= pid / 2 ^ 8 < 2 ^ 5) by (split; [apply Z.div_pos; lia|apply Z.div_lt_upper_bound; lia]).
  rewrite (Z.mod_small (pid / 2 ^ 8)) by lia.
  rewrite (Z.land_ones _ 8), (Z.land_ones _ 5) by lia.
  replace (Z.lor (if pusi then 0x40 else 0) (pid / 2 ^ 8)) with ((if pusi then 64 else 0) + pid / 2 ^ 8).
  2: { destruct pusi; [|by rewrite Z.lor_0_l].
       change 0x40 with (2 * 2 ^ 5) at 2. rewrite lor_mult_add by lia. done. }
  rewrite (Z.mod_small _ (2 ^ 8)) by (destruct pusi; lia).
  replace (((if pusi then 64 else 0) + pid / 2 ^ 8) mod 2 ^ 5) with (pid / 2 ^ 8).
  - pose proof (Z.div_mod pid 256). change (2 ^ 8) with 256. lia.
  - destruct pusi; [|by rewrite Z.add_0_l, Z.mod_small by lia].
    change 64 with (2 * 2 ^ 5). by rewrite Z.add_comm, Z.mod_add, Z.mod_small by lia.
Qed.

Lemma packet_cc_ts_packet pid pusi cc af chunk :
  counter cc -> packet_cc (ts_packet pid pusi cc af chunk) = cc.
Proof.
  unfold counter, packet_cc, ts_packet. intros Hc. cbn [app]. rewrite b2z_z2b.
  change 0x0F with (2 ^ 4 - 1). rewrite !land_ones_mod by lia.
  rewrite (Z.mod_small cc) by lia.
  assert (H : Z.lor (match af with [] => 0x10 | _ => 0x30 end) cc
              = (match af with [] => 1 | _ => 3 end) * 2 ^ 4 + cc).
  { destruct af; [change 0x10 with (1 * 2 ^ 4)|change 0x30 with (3 * 2 ^ 4)];
      by rewrite lor_mult_add by lia. }
  rewrite H, (Z.mod_small _ 256) by (destruct af; lia).
  by rewrite Z.add_comm, Z.mod_add, Z.mod_small by lia.
Qed.

Lemma write_psi_packet_eq out pid cc section :
  zlen section <= 183 ->
  write_psi_packet out pid cc section = (out ++ psi_packet pid cc section, next_cc cc).
Proof.
  intros Hs. unfold write_psi_packet. f_equal. pushes.
  unfold pad_packet, psi_packet, ts_packet. rewrite !zlen_app, !zlen_cons, <- !app_assoc.
  replace (kPacketSize - _) with (183 - zlen section) by (unfold kPacketSize; lia).
  done.
Qed.

Lemma zlen_psi_packet pid cc section :
  zlen section <= 183 -> zlen (psi_packet pid cc section) = kPacketSize.
Proof. intros Hs. unfold psi_packet, kPacketSize. rewrite zlen_ts_packet. zlia. Qed.

(** ** The layout of an adaptation field *)

Lemma push_adaptation_app out first with_pcr pcr ra af_len st :
  push_adaptation out first with_pcr pcr ra af_len st
  = out ++ push_adaptation [] first with_pcr pcr ra af_len st.
Proof.
  unfold push_adaptation. destruct (0 <? af_len); [|by rewrite app_nil_r].
  destruct (2 <=? af_len); [|by pushes].
  destruct (first && with_pcr); [|by pushes].
  rewrite (push_pcr_app (push_u8 (push_u8 out _) _)), (push_pcr_app (push_u8 (push_u8 [] _) _)).
  by pushes.
Qed.

(** [packet_layout] in cases: no field at all, a field that only stuffs, or the flags
    of the first packet, stuffed or not. *)
Lemma packet_layout_spec remaining want with_pcr af_len st available :
  0 < remaining -> packet_layout remaining want with_pcr = (af_len, st, available) ->
  let n := Z.min remaining available in
  0 < n /\ af_len + n = 184 /\ (n = remaining \/ 176 <= n) /\
  ((want = false /\ af_len = 0) \/ (want = false /\ af_len = 1 /\ st = 0) \/
   (want = false /\ 2 <= af_len /\ st = af_len - 2) \/
   (want = true /\ 0 <= st /\ af_len = (if with_pcr then 8 else 2) + st)).
Proof.
  unfold packet_layout, kPacketSize. intros Hr.
  destruct want; [destruct with_pcr|]; cbn [Z.eqb];
    destruct (Z.ltb_spec remaining (188 - 4 - (8))) as [?|?];
    destruct (Z.ltb_spec remaining (188 - 4 - (2))) as [?|?];
    destruct (Z.ltb_spec remaining (188 - 4 - (0))) as [?|?]; cbn [Z.eqb]; try lia;
    try (destruct (Z.leb_spec 2 (188 - 4 - 0 - remaining))); intros [= <- <- <-]; lia.
Qed.

Lemma push_adaptation_wf first with_pcr pcr ra remaining af_len st available :
  0 < remaining ->
  packet_layout remaining (first && (with_pcr || ra)) with_pcr = (af_len, st, available) ->
  let af := push_adaptation [] first with_pcr pcr ra af_len st in
  adaptation af /\ zlen af = af_len /\ (af = [] <-> af_len = 0).
Proof.
  intros Hr Hl. apply packet_layout_spec in Hl as (Hn & Hs & _ & Hc); [|done].
  unfold push_adaptation, adaptation.
  destruct Hc as [ [_ ->]|[ (_ & -> & ->)|[ (Hw & Ha & ->)|(Hw & Ha & ->)] ] ].
  - split_and!; [by left| done | done].
  - cbn. split_and!; [right; by exists []|done|done].
  - rewrite (proj2 (Z.ltb_lt 0 af_len)), (proj2 (Z.leb_le 2 af_len)) by lia.
    replace (first && with_pcr) with false by (by destruct first, with_pcr).
    pushes. assert (Hz : forall f, zlen (f :: replicate (Z.to_nat (af_len - 2)) (z2b (Z.land 255 255))) = af_len - 1) by (intros; zlia).
    unfold u32. rewrite (Z.mod_small (af_len - 1)) by lia.
    split_and!; [right; eexists; by rewrite Hz|zlia|split; [done|lia] ].
  - set (base := if with_pcr then 8 else 2) in *. assert (2 <= base <= 8) by (subst base; by destruct with_pcr).
    rewrite (proj2 (Z.ltb_lt 0 (base + st))), (proj2 (Z.leb_le 2 (base + st))) by lia.
    apply andb_prop in Hw as [-> Hw]. cbn [andb].
    assert (Hb : zlen (if with_pcr then push_pcr [] pcr else []) = base - 2)
      by (subst base; destruct with_pcr; unfold push_pcr; by pushes).
    assert (Hp : forall o, (if with_pcr then push_pcr o pcr else o) = o ++ (if with_pcr then push_pcr [] pcr else []))
      by (intros; destruct with_pcr; [apply push_pcr_app|by rewrite app_nil_r]).
    rewrite Hp. pushes. generalize dependent (if with_pcr then push_pcr [] pcr else []); intros l Hb Hp.
    unfold u32. rewrite (Z.mod_small (base + st - 1)) by lia.
    split_and!; [right; eexists; f_equal; f_equal; zlia|zlia|split; [done|lia] ].
Qed.

Lemma write_pes_packet_eq out pid cc remaining first with_pcr pcr ra :
  remaining <> [] ->
  exists af chunk rest,
    write_pes_packet out pid cc remaining first with_pcr pcr ra
    = (out ++ ts_packet pid first cc af chunk, rest) /\
    remaining = chunk ++ rest /\ adaptation af /\ chunk <> [] /\
    zlen af + zlen chunk = 184 /\ (rest = [] \/ 176 <= zlen chunk).
Proof.
  intros Hne. assert (Hr : 0 < zlen remaining) by (destruct remaining; [done|zlia]).
  unfold write_pes_packet.
  destruct (packet_layout _ _ _) as [ [af_len st] available] eqn:Hl.
  destruct (push_adaptation_wf _ _ pcr _ _ _ _ _ Hr Hl) as (Haf & Hlen & Hnil).
  apply packet_layout_spec in Hl as (Hn & Hs & Hc & _); [|done].
  rewrite push_adaptation_app. set (af := push_adaptation [] _ _ _ _ _ _) in *.
  set (n := Z.min (zlen remaining) available) in *.
  assert (Hz : zlen (take (Z.to_nat n) remaining) = n) by (apply zlen_take; lia).
  exists af, (take (Z.to_nat n) remaining), (drop (Z.to_nat n) remaining). split_and!.
  - f_equal. pushes. assert (Hp : z2b (Z.lor (if 0 <? af_len then 48 else 16) (Z.land cc 15))
      = z2b (Z.lor (match af with [] => 16 | _ => 48 end) (Z.land cc 15))).
    { destruct af; [rewrite (proj1 Hnil) by done; done|].
      assert (af_len <> 0) by (intros H0; by apply Hnil in H0).
      rewrite (proj2 (Z.ltb_lt 0 af_len)) by (rewrite <- Hlen; zlia). done. }
    rewrite Hp. apply (pad_packet_full out (ts_packet pid first cc af (take (Z.to_nat n) remaining))).
    rewrite zlen_ts_packet. unfold kPacketSize. lia.
  - by rewrite take_drop.
  - done.
  - intros H0. rewrite H0 in Hz. rewrite zlen_nil in Hz. lia.
  - lia.
  - destruct Hc as [Hc|Hc]; [left|right; lia].
    apply zlen_0_nil. rewrite zlen_drop by lia. lia.
Qed.

Lemma write_pes_packets_eq fuel : forall out pid cc remaining first with_pcr pcr ra,
  (length remaining < fuel)%nat ->
  exists ps cc',
    write_pes_packets fuel out pid cc remaining first with_pcr pcr ra = Ok (out ++ concat ps, cc') /\
    pes_packets pid cc first remaining ps cc'.
Proof.
  induction fuel as [|fuel IH]; intros out pid cc remaining first with_pcr pcr ra Hf; [lia|].
  cbn [write_pes_packets]. destruct (Z.eqb_spec (zlen remaining) 0) as [H0|H0].
  - apply zlen_0_nil in H0 as ->. exists [], cc. cbn. rewrite app_nil_r. split; [done|constructor].
  - assert (Hne : remaining <> []) by (by intros ->).
    destruct (write_pes_packet_eq out pid cc remaining first with_pcr pcr ra Hne)
      as (af & chunk & rest & -> & -> & Haf & Hch & Hl & Hr).
    destruct (IH (out ++ ts_packet pid first cc af chunk) pid (next_cc cc) rest false with_pcr pcr ra)
      as (ps & cc' & -> & Hp).
    { rewrite length_app in Hf. destruct chunk; [done|]. cbn in Hf. lia. }
    exists (ts_packet pid first cc af chunk :: ps), cc'. cbn [concat]. rewrite app_assoc.
    split; [done|]. by constructor.
Qed.

(** ** Runs of packets *)

Lemma cc_run_app c l1 l2 c1 : cc_run c l1 = Some c1 -> cc_run c (l1 ++ l2) = cc_run c1 l2.
Proof.
  revert c. induction l1 as [|x l1 IH]; intros c; cbn [app cc_run].
  - by intros [= ->].
  - destruct (x =? c); [apply IH|done].
Qed.

Lemma ccs_of_app pid ps qs : ccs_of pid (ps ++ qs) = ccs_of pid ps ++ ccs_of pid qs.
Proof. unfold ccs_of. by rewrite list.filter_app, map_app. Qed.

(** [run_of pid cc ps cc']: transport packets of one PID, counted from [cc] to [cc']. *)
Definition run_of (pid cc : Z) (ps : list (list byte)) (cc' : Z) : Prop :=
  Forall transport_packet ps /\ counter cc' /\ cc_run cc (ccs_of pid ps) = Some cc' /\
  forall other, other <> pid -> ccs_of other ps = [].

Lemma run_of_nil pid cc : counter cc -> run_of pid cc [] cc.
Proof. intros Hc. split_and!; try done; constructor. Qed.

Lemma run_of_cons pid pusi cc af chunk ps cc' :
  0 <= pid < 8192 -> counter cc -> zlen af + zlen chunk = 184 ->
  run_of pid (next_cc cc) ps cc' ->
  run_of pid cc (ts_packet pid pusi cc af chunk :: ps) cc'.
Proof.
  intros Hp Hc Hl (Hf & Hc' & Hr & Ho).
  set (p := ts_packet pid pusi cc af chunk).
  assert (Hpid : packet_pid p = pid) by by apply packet_pid_ts_packet.
  assert (Hcc : packet_cc p = cc) by by apply packet_cc_ts_packet.
  split_and!; [constructor; [by apply transport_ts_packet|done]|done| |].
  - unfold ccs_of. rewrite filter_cons_True by done. cbn [map cc_run].
    by rewrite Hcc, Z.eqb_refl.
  - intros other Hne. unfold ccs_of. rewrite filter_cons_False by congruence. by apply Ho.
Qed.

Lemma pes_packets_run pid cc first pes ps cc' :
  0 <= pid < 8192 -> counter cc -> pes_packets pid cc first pes ps cc' -> run_of pid cc ps cc'.
Proof.
  intros Hp Hc H. induction H; [by apply run_of_nil|].
  apply run_of_cons; [done..|]. apply IHpes_packets. by apply next_cc_counter.
Qed.

Lemma psi_packet_run pid cc section :
  0 <= pid < 8192 -> counter cc -> zlen section <= 183 ->
  run_of pid cc [psi_packet pid cc section] (next_cc cc).
Proof.
  intros Hp Hc Hs. apply run_of_cons; [done..|zlia|]. apply run_of_nil. by apply next_cc_counter.
Qed.

Lemma zlen_pat_section c : zlen (pat_section c) = 16.
Proof. unfold pat_section. pushes. done. Qed.
Lemma zlen_pmt_section c : zlen (pmt_section c) = 26.
Proof. unfold pmt_section. pushes. done. Qed.

(** What one write appends, packet by packet: the form the demultiplexer's proofs use. *)
Inductive wrote (m : TsMuxer) : ts_write -> list (list byte) -> TsMuxer -> Prop :=
| wrote_tables :
    wrote m Tables
      [psi_packet 0 (pat_cc_ m) (pat_section (config_ m));
       psi_packet (pmt_pid (config_ m)) (pmt_cc_ m) (pmt_section (config_ m))]
      (mkTsMuxer (config_ m) (video_cc_ m) (audio_cc_ m)
                 (next_cc (pat_cc_ m)) (next_cc (pmt_cc_ m)))
| wrote_video annexb pts dts key ps cc :
    annexb <> [] ->
    pes_packets (video_pid (config_ m)) (video_cc_ m) true (video_pes annexb pts dts) ps cc ->
    wrote m (Video annexb pts dts key) ps
      (mkTsMuxer (config_ m) cc (audio_cc_ m) (pat_cc_ m) (pmt_cc_ m))
| wrote_audio adts pts ps cc :
    adts <> [] ->
    pes_packets (audio_pid (config_ m)) (audio_cc_ m) true (audio_pes adts pts) ps cc ->
    wrote m (Audio adts pts) ps
      (mkTsMuxer (config_ m) (video_cc_ m) cc (pat_cc_ m) (pmt_cc_ m)).

Definition empty_unit (w : ts_write) : bool :=
  match w with
  | Tables => false
  | Video annexb _ _ _ => zlen annexb =? 0
  | Audio adts _ => zlen adts =? 0
  end.
Definition oversized (w : ts_write) : bool :=
  match w with Audio adts _ => 0xFFFF <? zlen adts + 3 + 5 | _ => false end.

(** Every branch of the three writes. *)
Lemma write_one_eq m out w :
  if empty_unit w then
    exists what, write_one m out w = Err (muxer_error ErrorCode.MalformedChunk what)
  else if oversized w then
    exists what, write_one m out w = Err (muxer_error ErrorCode.MessageTooLarge what)
  else exists ps m', wrote m w ps m' /\ write_one m out w = Ok (m', out ++ concat ps).
Proof.
  destruct w as [|annexb pts dts key|adts pts]; cbn [empty_unit oversized write_one].
  - eexists _, _. split; [constructor|]. unfold write_program_tables.
    rewrite !write_psi_packet_eq by (rewrite ?zlen_pat_section, ?zlen_pmt_section; lia).
    cbn [concat]. by rewrite app_nil_r, app_assoc.
  - unfold write_video. destruct (Z.eqb_spec (zlen annexb) 0) as [H0|H0]; [by eexists|].
    edestruct (write_pes_packets_eq (S (length (video_pes annexb pts dts)))) as (ps & cc & -> & Hp);
      [lia|].
    eexists ps, _. split; [constructor; [by intros ->|done]|done].
  - unfold write_audio. destruct (Z.eqb_spec (zlen adts) 0) as [H0|H0]; [by eexists|].
    destruct (0xFFFF <? zlen adts + 3 + 5); [by eexists|].
    edestruct (write_pes_packets_eq (S (length (audio_pes adts pts)))) as (ps & cc & -> & Hp);
      [lia|].
    eexists ps, _. split; [constructor; [by intros ->|done]|done].
Qed.

Lemma write_one_Ok m out w m' out' :
  write_one m out w = Ok (m', out') ->
  exists ps, wrote m w ps m' /\ out' = out ++ concat ps.
Proof.
  intros H. pose proof (write_one_eq m out w) as Hw. rewrite H in Hw.
  destruct (empty_unit w); [by destruct Hw|]. destruct (oversized w); [by destruct Hw|].
  destruct Hw as (ps & m1 & Hw & [= -> ->]). eauto.
Qed.

(** [counts m ps m']: in [ps] each PID's counters go from [m]'s to [m']'s. *)
Definition counts (m : TsMuxer) (ps : list (list byte)) (m' : TsMuxer) : Prop :=
  let c := config_ m in
  config_ m' = c /\ Forall transport_packet ps /\
  cc_run (pat_cc_ m) (ccs_of 0 ps) = Some (pat_cc_ m') /\
  cc_run (pmt_cc_ m) (ccs_of (pmt_pid c) ps) = Some (pmt_cc_ m') /\
  cc_run (video_cc_ m) (ccs_of (video_pid c) ps) = Some (video_cc_ m') /\
  cc_run (audio_cc_ m) (ccs_of (audio_pid c) ps) = Some (audio_cc_ m').

Lemma counts_trans m1 ps1 m2 ps2 m3 :
  counts m1 ps1 m2 -> counts m2 ps2 m3 -> counts m1 (ps1 ++ ps2) m3.
Proof.
  intros (E1 & F1 & A1 & B1 & C1 & D1) (E2 & F2 & A2 & B2 & C2 & D2). rewrite E1 in *.
  split_and!; [done|by apply Forall_app| |..]; rewrite ccs_of_app; erewrite cc_run_app; eauto.
Qed.

Lemma wrote_counts m w ps m' :
  valid_muxer m -> wrote m w ps m' -> counts m ps m' /\ valid_muxer m'.
Proof.
  intros (Hc & Hv & Ha & Hp & Hq) Hw. pose proof Hc as (Hd & Hr & _).
  rewrite !list.NoDup_cons, !not_elem_of_cons in Hd. rewrite !list.Forall_cons in Hr.
  destruct Hd as ( (N1 & N2 & N3 & _) & (N4 & N5 & _) & (N6 & _) & _ ). destruct Hr as (Hr1 & Hr2 & Hr3 & _).
  unfold counts, valid_muxer. destruct Hw; cbn [config_ video_cc_ audio_cc_ pat_cc_ pmt_cc_].
  - pose proof (psi_packet_run 0 (pat_cc_ m) (pat_section (config_ m))) as (F1 & C1 & R1 & O1);
      [lia|done|by rewrite zlen_pat_section|].
    pose proof (psi_packet_run (pmt_pid (config_ m)) (pmt_cc_ m) (pmt_section (config_ m)))
      as (F2 & C2 & R2 & O2); [lia|done|by rewrite zlen_pmt_section|].
    set (p := psi_packet 0 _ _) in *. set (q := psi_packet (pmt_pid _) _ _) in *.
    change [p; q] with ([p] ++ [q]). rewrite !ccs_of_app.
    rewrite (O1 (pmt_pid _)), (O1 (video_pid _)), (O1 (audio_pid _)), (O2 0),
      (O2 (video_pid _)), (O2 (audio_pid _)), !app_nil_r by congruence.
    split_and!; try done. by apply Forall_app.
  - match goal with H : pes_packets _ _ _ _ _ _ |- _ =>
      apply pes_packets_run in H as (F1 & C1 & R1 & O1); [|lia|done] end.
    rewrite (O1 0), (O1 (pmt_pid _)), (O1 (audio_pid _)) by congruence. by split_and!.
  - match goal with H : pes_packets _ _ _ _ _ _ |- _ =>
      apply pes_packets_run in H as (F1 & C1 & R1 & O1); [|lia|done] end.
    rewrite (O1 0), (O1 (pmt_pid _)), (O1 (video_pid _)) by congruence. by split_and!.
Qed.

Lemma write_all_counts m out ws m' out' :
  valid_muxer m -> write_all m out ws = Ok (m', out') ->
  exists ps, out' = out ++ concat ps /\ counts m ps m' /\ valid_muxer m'.
Proof.
  revert m out. induction ws as [|w ws IH]; intros m out Hm; cbn [write_all].
  - intros [= <- <-]. exists []. by rewrite app_nil_r.
  - intros H. res_inv H. destruct a as [m1 out1]. apply write_one_Ok in Ha as (ps & Hw & ->).
    apply wrote_counts in Hw as [Hc1 Hm1]; [|done].
    apply IH in H as (ps2 & -> & Hc2 & Hm2); [|done].
    exists (ps ++ ps2). rewrite concat_app, app_assoc. eauto using counts_trans.
Qed.

(** Whatever is written, the output is a sequence of packets of exactly 188 bytes
    that start with the sync byte, and on each of the four PIDs the continuity counters
    go up by one modulo 16 without a gap, across all writes, from the muxer's counter
    before to its counter after. *)
Theorem ts_packets_counted m ws m' out :
  valid_muxer m -> write_all m [] ws = Ok (m', out) ->
  exists ps, out = concat ps /\ counts m ps m' /\ valid_muxer m'.
Proof. apply (write_all_counts m []). Qed.

Lemma default_muxer_valid : valid_muxer (make_muxer default_config).
Proof.
  unfold valid_muxer, valid_config, counter. cbn. split_and!; try lia.
  - by apply (bool_decide_unpack _).
  - repeat (constructor; [lia|]); constructor.
Qed.

Definition sample_writes : list ts_write :=
  [Tables; Video [z2b 0; z2b 0; z2b 0; z2b 1; z2b 0x65; z2b 7] 9000 6000 true;
   Audio [z2b 0xFF; z2b 0xF1] 9000; Tables; Video (replicate 400 (z2b 3)) 12000 12000 false].

Lemma ts_packets_counted_witness : exists m' out ps,
  write_all (make_muxer default_config) [] sample_writes = Ok (m', out) /\
  zlen out = 9 * 188 /\ out = concat ps /\ counts (make_muxer default_config) ps m'.
Proof.
  destruct (write_all (make_muxer default_config) [] sample_writes) as [ [m' out]| | |] eqn:E;
    [|by vm_compute in E..].
  assert (Hl : zlen out = 9 * 188) by (vm_compute in E; injection E as <- <-; reflexivity).
  destruct (ts_packets_counted (make_muxer default_config) sample_writes m' out) as (ps & Ho & Hc & _).
  - exact default_muxer_valid.
  - exact E.
  - exists m', out, ps. split_and!; done.
Defined.

(** ** The CRC *)

Definition word (z : Z) : Prop := 0 <= z < 2 ^ 32.

Lemma crc_round_low c : 0 <= c < 2 ^ 31 -> crc_round c = 2 * c.
Proof.
  intros Hc. unfold crc_round. replace (Z.land c 0x80000000) with 0.
  - cbn [Z.eqb negb]. rewrite Z.shiftl_mul_pow2 by lia. unfold u32. rewrite Z.mod_small; lia.
  - symmetry. change 0x80000000 with (Z.shiftl 1 31). apply Z.bits_inj'. intros i Hi.
    rewrite Z.land_spec, Z.bits_0. destruct (Z.eq_dec i 31) as [->|Hne].
    + rewrite <- (Z.mod_small c (2 ^ 31)) by lia. by rewrite Z.mod_pow2_bits_high by lia.
    + rewrite Z.shiftl_spec by lia. destruct (Z.lt_ge_cases i 31).
      * rewrite (Z.testbit_neg_r 1) by lia. apply andb_false_r.
      * rewrite (Z.bits_above_log2 1 (i - 31)) by (cbn; lia). apply andb_false_r.
Qed.

Lemma crc_rounds_low c : 0 <= c < 2 ^ 24 -> Nat.iter 8 crc_round c = 256 * c.
Proof.
  intros Hc. change (Nat.iter 8 crc_round c) with
    (crc_round (crc_round (crc_round (crc_round (crc_round (crc_round (crc_round (crc_round c)))))))).
  rewrite (crc_round_low c), (crc_round_low (2 * c)), (crc_round_low (2 * (2 * c))) by lia.
  do 5 match goal with |- context [crc_round (2 * ?x)] =>
    rewrite (crc_round_low (2 * x)) by lia end. lia.
Qed.

(** Feeding the CRC its own top byte shifts it left by eight bits. *)
Lemma crc_byte_own c : word c -> crc_byte c (z2b (Z.shiftr c 24)) = 256 * (c mod 2 ^ 24).
Proof.
  unfold word. intros Hc. unfold crc_byte. rewrite b2z_z2b, Z.shiftr_div_pow2 by lia.
  assert (0 <= c / 2 ^ 24 < 256) by (split; [apply Z.div_pos; lia|apply Z.div_lt_upper_bound; lia]).
  rewrite (Z.mod_small (c / 2 ^ 24)) by lia.
  pose proof (Z.mod_pos_bound c (2 ^ 24) eq_refl).
  unfold u32. rewrite Z.shiftl_mul_pow2, Z.mod_small by lia.
  replace (Z.lxor c (c / 2 ^ 24 * 2 ^ 24)) with (c mod 2 ^ 24); [by apply crc_rounds_low|].
  rewrite (Z.div_mod c (2 ^ 24)) at 2 by lia.
  rewrite (Z.mul_comm (2 ^ 24)), <- lor_mult_add, <- Z.shiftl_mul_pow2 by lia.
  apply Z.bits_inj'. intros i Hi. rewrite !Z.lxor_spec, Z.lor_spec.
  destruct (Z.lt_ge_cases i 24).
  - rewrite Z.shiftl_spec_low by lia. by rewrite orb_false_l, xorb_false_r.
  - rewrite (Z.mod_pow2_bits_high _ 24) by lia. rewrite orb_false_r. by rewrite xorb_nilpotent.
Qed.

Lemma crc_round_word c : word (crc_round c).
Proof.
  unfold crc_round, word. pose proof (Z.mod_pos_bound (Z.shiftl c 1) (2 ^ 32) eq_refl).
  unfold u32. destruct (negb _); [|done].
  assert (H0 : 0 <= Z.lxor (Z.shiftl c 1 mod 2 ^ 32) 79764919) by (apply Z.lxor_nonneg; lia).
  split; [done|]. destruct (Z.eq_dec (Z.lxor (Z.shiftl c 1 mod 2 ^ 32) 79764919) 0); [lia|].
  apply Z.log2_lt_pow2; [lia|]. eapply Z.le_lt_trans; [apply Z.log2_lxor; lia|].
  apply Z.max_lub_lt; [|by vm_compute].
  destruct (Z.eq_dec (Z.shiftl c 1 mod 2 ^ 32) 0) as [->|]; [by vm_compute|].
  apply Z.log2_lt_pow2; lia.
Qed.

Lemma mpeg_crc32_word data : word (mpeg_crc32 data).
Proof.
  unfold mpeg_crc32. destruct data as [|b data] using rev_ind; [unfold word; cbn; lia|].
  rewrite foldl_app. cbn [foldl]. apply crc_round_word.
Qed.

(** The residue of a block that carries its CRC is zero: the check a receiver makes. *)
Lemma crc_residue data : mpeg_crc32 (push_u32 data (mpeg_crc32 data)) = 0.
Proof.
  rewrite push_u32_eq. unfold mpeg_crc32 at 1. rewrite foldl_app.
  fold (mpeg_crc32 data). pose proof (mpeg_crc32_word data) as Hw.
  generalize dependent (mpeg_crc32 data). intros c Hc. cbn [foldl].
  assert (Hstep : forall s v, word s -> z2b v = z2b (Z.shiftr s 24) ->
    crc_byte s (z2b v) = (256 * s) mod 2 ^ 32).
  { intros s v Hs ->. rewrite crc_byte_own by done. unfold word in Hs.
    change (2 ^ 32) with (256 * 2 ^ 24). by rewrite Z.mul_mod_distr_l by lia. }
  assert (Hbyte : forall v w, v mod 256 = w mod 256 -> z2b v = z2b w).
  { intros v w Hvw. by rewrite <- (z2b_mod v), <- (z2b_mod w), Hvw. }
  assert (Hm : forall x, word (x mod 2 ^ 32)) by (intros x; apply Z.mod_pos_bound; lia).
  unfold word in Hc.
  rewrite (Hstep c), (Hstep ((256 * c) mod 2 ^ 32)),
    (Hstep ((256 * ((256 * c) mod 2 ^ 32)) mod 2 ^ 32)),
    (Hstep ((256 * ((256 * ((256 * c) mod 2 ^ 32)) mod 2 ^ 32)) mod 2 ^ 32)); auto.
  2-4: apply Hbyte; rewrite !Z.shiftr_div_pow2 by lia.
  all: Z.to_euclidean_division_equations; lia.
Qed.

(** The sections of the program tables check out at a receiver. *)
Lemma tables_checksum c : mpeg_crc32 (pat_section c) = 0 /\ mpeg_crc32 (pmt_section c) = 0.
Proof. split; apply crc_residue. Qed.
