(* ===== verification/TsDemuxer.v ===== *)
(** media/ts/ts_demuxer.cpp: the MPEG-2 transport stream demultiplexer.  A handler call
    is an event; the handlers themselves are present or not ([video_handler_] and
    [audio_handler_]).  [feed] works on the bytes that are left instead of an index into
    them.  The stream types are those of TsMuxer.v, which the source declares again. *)

From S2P Require Import Prelude Bytes Nal Avc TsMuxer.

Definition kStreamTypeHevc : Z := 0x24.
Definition kHevcNalTypeIdrWRadl : Z := 19.
Definition kHevcNalTypeIdrNLp : Z := 20.
Definition kHevcNalTypeCra : Z := 21.

Definition read_timestamp (p : list byte) : Res Z :=
  p0 <- u8_at p 0 ;; p1 <- u8_at p 1 ;; p2 <- u8_at p 2 ;;
  p3 <- u8_at p 3 ;; p4 <- u8_at p 4 ;;
  let b0 := Z.land (Z.shiftr p0 1) 0x07 in
  let b1 := Z.lor (Z.shiftl p1 7) (Z.shiftr p2 1) in
  let b2 := Z.lor (Z.shiftl p3 7) (Z.shiftr p4 1) in
  Ok (Z.lor (Z.lor (Z.shiftl b0 30) (Z.shiftl b1 15)) b2).

(** ** The keyframe scan *)

(** The walk over start codes that [contains_idr] and [contains_hevc_idr] share, on the
    bytes from [i] on; they differ in the test of the first header byte.  The second
    also checks that there is such a byte, which both start-code tests imply. *)
Section Scan.
Variable random_access_nal : byte -> bool.

Fixpoint scan_start_codes (annexb : list byte) : bool :=
  match annexb with
  | a :: ((b :: ((c :: ((d :: rest4) as rest3)) as rest2)) as rest1) =>
      let sc3 := (b2z a =? 0) && (b2z b =? 0) && (b2z c =? 1) in
      match rest4 with
      | e :: _ =>
          if (b2z a =? 0) && (b2z b =? 0) && (b2z c =? 0) && (b2z d =? 1) then
            if random_access_nal e then true else scan_start_codes rest4
          else if sc3 then
            if random_access_nal d then true else scan_start_codes rest3
          else scan_start_codes rest1
      | [] =>
          if sc3 then
            if random_access_nal d then true else scan_start_codes rest3
          else scan_start_codes rest1
      end
  | _ => false
  end.
End Scan.

Definition idr_nal (header : byte) : bool := Z.land (b2z header) 0x1F =? kNalTypeIdr.
Definition contains_idr (annexb : list byte) : bool := scan_start_codes idr_nal annexb.

Definition hevc_idr_nal (header : byte) : bool :=
  let nal_type := Z.land (Z.shiftr (b2z header) 1) 0x3F in
  (nal_type =? kHevcNalTypeIdrWRadl) || (nal_type =? kHevcNalTypeIdrNLp) ||
  (nal_type =? kHevcNalTypeCra).
Definition contains_hevc_idr (annexb : list byte) : bool := scan_start_codes hevc_idr_nal annexb.

(** * The demuxer *)

Inductive TsVideoCodec := Unknown | H264 | HevcCodec.

(** [PesAssembly]; its member [kind] is never used. *)
Record PesAssembly := mkPesAssembly {
  data : list byte;
  pts_90k : Z;
  dts_90k : Z;
  has_data : bool
}.
Definition no_pes : PesAssembly := mkPesAssembly [] 0 0 false.

Record TsDemuxer := mkTsDemuxer {
  video_handler_ : bool;
  audio_handler_ : bool;
  pmt_pid_ : Z;
  video_pid_ : Z;
  audio_pid_ : Z;
  pmt_known_ : bool;
  video_codec_ : TsVideoCodec;
  video_ : PesAssembly;
  audio_ : PesAssembly;
  partial_ : list byte
}.

Inductive ts_event :=
| VideoUnit (annexb : list byte) (pts_90k dts_90k : Z) (keyframe : bool)
| AudioUnit (adts : list byte) (pts_90k : Z).

(** The state [reset] gives, and a demuxer starts with; the handlers stay. *)
Definition reset (d : TsDemuxer) : TsDemuxer :=
  mkTsDemuxer (video_handler_ d) (audio_handler_ d) 0xFFFF 0xFFFF 0xFFFF false Unknown
              no_pes no_pes [].
Definition make_demuxer : TsDemuxer :=
  mkTsDemuxer false false 0xFFFF 0xFFFF 0xFFFF false Unknown no_pes no_pes [].
Definition set_video_handler (d : TsDemuxer) : TsDemuxer :=
  mkTsDemuxer true (audio_handler_ d) (pmt_pid_ d) (video_pid_ d) (audio_pid_ d)
              (pmt_known_ d) (video_codec_ d) (video_ d) (audio_ d) (partial_ d).
Definition set_audio_handler (d : TsDemuxer) : TsDemuxer :=
  mkTsDemuxer (video_handler_ d) true (pmt_pid_ d) (video_pid_ d) (audio_pid_ d)
              (pmt_known_ d) (video_codec_ d) (video_ d) (audio_ d) (partial_ d).

(** Assignments to members. *)
Definition set_pmt (d : TsDemuxer) (pid : Z) : TsDemuxer :=
  mkTsDemuxer (video_handler_ d) (audio_handler_ d) pid (video_pid_ d) (audio_pid_ d)
              true (video_codec_ d) (video_ d) (audio_ d) (partial_ d).
Definition set_video_stream (d : TsDemuxer) (pid : Z) (codec : TsVideoCodec) : TsDemuxer :=
  mkTsDemuxer (video_handler_ d) (audio_handler_ d) (pmt_pid_ d) pid (audio_pid_ d)
              (pmt_known_ d) codec (video_ d) (audio_ d) (partial_ d).
Definition set_audio_stream (d : TsDemuxer) (pid : Z) : TsDemuxer :=
  mkTsDemuxer (video_handler_ d) (audio_handler_ d) (pmt_pid_ d) (video_pid_ d) pid
              (pmt_known_ d) (video_codec_ d) (video_ d) (audio_ d) (partial_ d).
Definition set_video (d : TsDemuxer) (a : PesAssembly) : TsDemuxer :=
  mkTsDemuxer (video_handler_ d) (audio_handler_ d) (pmt_pid_ d) (video_pid_ d) (audio_pid_ d)
              (pmt_known_ d) (video_codec_ d) a (audio_ d) (partial_ d).
Definition set_audio (d : TsDemuxer) (a : PesAssembly) : TsDemuxer :=
  mkTsDemuxer (video_handler_ d) (audio_handler_ d) (pmt_pid_ d) (video_pid_ d) (audio_pid_ d)
              (pmt_known_ d) (video_codec_ d) (video_ d) a (partial_ d).
Definition set_partial (d : TsDemuxer) (p : list byte) : TsDemuxer :=
  mkTsDemuxer (video_handler_ d) (audio_handler_ d) (pmt_pid_ d) (video_pid_ d) (audio_pid_ d)
              (pmt_known_ d) (video_codec_ d) (video_ d) (audio_ d) p.

(** ** Program tables *)

Definition section_length (section : list byte) : Res Z :=
  s1 <- u8_at section 1 ;; s2 <- u8_at section 2 ;;
  Ok (Z.lor (Z.shiftl (Z.land s1 0x0F) 8) s2).

(** The entries of a PAT from [i] on; [end_ - 4] is a [size_t] and wraps. *)
Fixpoint pat_entries (fuel : nat) (d : TsDemuxer) (section : list byte) (i end_ : Z)
    : Res TsDemuxer :=
  match fuel with
  | O => OutOfFuel
  | S fuel =>
      if negb (i + 4 <=? u64 (end_ - 4)) then Ok d else
      p0 <- u8_at section i ;; p1 <- u8_at section (i + 1) ;;
      let program := u16 (Z.lor (Z.shiftl p0 8) p1) in
      p2 <- u8_at section (i + 2) ;; p3 <- u8_at section (i + 3) ;;
      let pid := u16 (Z.lor (Z.shiftl (Z.land p2 0x1F) 8) p3) in
      if negb (program =? 0) then Ok (set_pmt d pid)
      else pat_entries fuel d section (i + 4) end_
  end.

Definition parse_pat (d : TsDemuxer) (section : list byte) : Res TsDemuxer :=
  if zlen section <? 12 then Ok d else
  len <- section_length section ;;
  let end_ := Z.min (zlen section) (3 + len) in
  pat_entries (S (length section)) d section 8 end_.

(** One elementary stream of a PMT. *)
Definition map_stream (d : TsDemuxer) (stream_type pid : Z) : TsDemuxer :=
  if (stream_type =? kStreamTypeH264) && (video_pid_ d =? 0xFFFF) then
    set_video_stream d pid H264
  else if (stream_type =? kStreamTypeHevc) && (video_pid_ d =? 0xFFFF) then
    set_video_stream d pid HevcCodec
  else if (stream_type =? kStreamTypeAacAdts) && (audio_pid_ d =? 0xFFFF) then
    set_audio_stream d pid
  else d.

Fixpoint pmt_entries (fuel : nat) (d : TsDemuxer) (section : list byte) (i end_ : Z)
    : Res TsDemuxer :=
  match fuel with
  | O => OutOfFuel
  | S fuel =>
      if negb (i + 5 <=? u64 (end_ - 4)) then Ok d else
      stream_type <- u8_at section i ;;
      p1 <- u8_at section (i + 1) ;; p2 <- u8_at section (i + 2) ;;
      let pid := u16 (Z.lor (Z.shiftl (Z.land p1 0x1F) 8) p2) in
      p3 <- u8_at section (i + 3) ;; p4 <- u8_at section (i + 4) ;;
      let es_info_length := Z.lor (Z.shiftl (Z.land p3 0x0F) 8) p4 in
      pmt_entries fuel (map_stream d stream_type pid) section (i + (5 + es_info_length)) end_
  end.

Definition parse_pmt (d : TsDemuxer) (section : list byte) : Res TsDemuxer :=
  if zlen section <? 16 then Ok d else
  len <- section_length section ;;
  let end_ := Z.min (zlen section) (3 + len) in
  s10 <- u8_at section 10 ;; s11 <- u8_at section 11 ;;
  let program_info_length := Z.lor (Z.shiftl (Z.land s10 0x0F) 8) s11 in
  pmt_entries (S (length section)) d section (12 + program_info_length) end_.

(** ** PES assembly *)

Definition drop_pes (a : PesAssembly) : PesAssembly :=
  mkPesAssembly (data a) (pts_90k a) (dts_90k a) false.

Definition begin_pes (a : PesAssembly) (payload : list byte) : Res PesAssembly :=
  if zlen payload <? 9 then Ok (drop_pes a) else
  p0 <- u8_at payload 0 ;; p1 <- u8_at payload 1 ;; p2 <- u8_at payload 2 ;;
  if negb (p0 =? 0) || negb (p1 =? 0) || negb (p2 =? 1) then Ok (drop_pes a) else
  p7 <- u8_at payload 7 ;;
  let pts_dts_flags := Z.land (Z.shiftr p7 6) 0x03 in
  header_data_length <- u8_at payload 8 ;;
  let es_offset := 9 + header_data_length in
  if zlen payload <? es_offset then Ok (drop_pes a) else
  '(pts, dts) <-
    (if negb (Z.land pts_dts_flags 0x02 =? 0) && (14 <=? zlen payload) then
       p <- subspan payload 9 5 ;; pts <- read_timestamp p ;;
       if (pts_dts_flags =? 0x03) && (19 <=? zlen payload) then
         q <- subspan payload 14 5 ;; dts <- read_timestamp q ;; Ok (pts, dts)
       else Ok (pts, pts)
     else Ok (0, 0)) ;;
  es <- subspan_from payload es_offset ;;
  Ok (mkPesAssembly es pts dts true).

(** [finish_pes(video_)] and [finish_pes(audio_)]: the source tells them apart by the
    address of the assembly. *)
Definition closed (a : PesAssembly) : PesAssembly :=
  mkPesAssembly [] (pts_90k a) (dts_90k a) false.

Definition finish_video (d : TsDemuxer) : TsDemuxer * list ts_event :=
  let a := video_ d in
  if negb (has_data a) || (zlen (data a) =? 0) then (set_video d (drop_pes a), []) else
  (set_video d (closed a),
   if video_handler_ d then
     let keyframe := match video_codec_ d with
                     | HevcCodec => contains_hevc_idr (data a)
                     | _ => contains_idr (data a)
                     end in
     [VideoUnit (data a) (pts_90k a) (dts_90k a) keyframe]
   else []).

Definition finish_audio (d : TsDemuxer) : TsDemuxer * list ts_event :=
  let a := audio_ d in
  if negb (has_data a) || (zlen (data a) =? 0) then (set_audio d (drop_pes a), []) else
  (set_audio d (closed a),
   if audio_handler_ d then [AudioUnit (data a) (pts_90k a)] else []).

Definition append_pes (a : PesAssembly) (payload : list byte) : PesAssembly :=
  if has_data a then mkPesAssembly (data a ++ payload) (pts_90k a) (dts_90k a) true else a.

(** ** Packets *)

(** A PAT or PMT that starts in this payload. *)
Definition psi_payload (parse : TsDemuxer -> list byte -> Res TsDemuxer) (d : TsDemuxer)
    (pusi : bool) (payload : list byte) : Res (TsDemuxer * list ts_event) :=
  if pusi && negb (zlen payload =? 0) then
    pointer <- u8_at payload 0 ;;
    if 1 + pointer <? zlen payload then
      section <- subspan_from payload (1 + pointer) ;;
      d <- parse d section ;; Ok (d, [])
    else Ok (d, [])
  else Ok (d, []).

Definition video_payload (d : TsDemuxer) (pusi : bool) (payload : list byte)
    : Res (TsDemuxer * list ts_event) :=
  if pusi then
    let '(d, events) := finish_video d in
    a <- begin_pes (video_ d) payload ;; Ok (set_video d a, events)
  else Ok (set_video d (append_pes (video_ d) payload), []).

Definition audio_payload (d : TsDemuxer) (pusi : bool) (payload : list byte)
    : Res (TsDemuxer * list ts_event) :=
  if pusi then
    let '(d, events) := finish_audio d in
    a <- begin_pes (audio_ d) payload ;; Ok (set_audio d a, events)
  else Ok (set_audio d (append_pes (audio_ d) payload), []).

(** The part of [process_packet] behind the headers: who gets the payload. *)
Definition route_payload (d : TsDemuxer) (pid : Z) (pusi : bool) (payload : list byte)
    : Res (TsDemuxer * list ts_event) :=
  if pid =? 0 then psi_payload parse_pat d pusi payload
  else if pmt_known_ d && (pid =? pmt_pid_ d) then psi_payload parse_pmt d pusi payload
  else if pid =? video_pid_ d then video_payload d pusi payload
  else if pid =? audio_pid_ d then audio_payload d pusi payload
  else Ok (d, []).

Definition process_packet (d : TsDemuxer) (packet : list byte)
    : Res (TsDemuxer * list ts_event) :=
  p1 <- u8_at packet 1 ;; p2 <- u8_at packet 2 ;; p3 <- u8_at packet 3 ;;
  let pusi := negb (Z.land p1 0x40 =? 0) in
  let pid := u16 (Z.lor (Z.shiftl (Z.land p1 0x1F) 8) p2) in
  let afc := Z.land (Z.shiftr p3 4) 0x03 in
  if afc =? 0x02 then Ok (d, []) else
  payload_offset <-
    (if afc =? 0x03 then af_len <- u8_at packet 4 ;; Ok (5 + af_len) else Ok 4) ;;
  if zlen packet <=? payload_offset then Ok (d, []) else
  payload <- subspan_from packet payload_offset ;;
  route_payload d pid pusi payload.

(** The loop of [feed] on the bytes from [i] on, with the handler calls so far. *)
Fixpoint feed_loop (fuel : nat) (d : TsDemuxer) (events : list ts_event) (rest : list byte)
    : Res (TsDemuxer * list ts_event) :=
  match fuel with
  | O => OutOfFuel
  | S fuel =>
      if negb (kPacketSize <=? zlen rest) then Ok (set_partial d rest, events) else
      sync <- u8_at rest 0 ;;
      if negb (sync =? kSyncByte) then feed_loop fuel d events (drop 1 rest) else
      packet <- subspan rest 0 kPacketSize ;;
      '(d, more) <- process_packet d packet ;;
      feed_loop fuel d (events ++ more) (drop (Z.to_nat kPacketSize) rest)
  end.

Definition feed (d : TsDemuxer) (ts_bytes : list byte) : Res (TsDemuxer * list ts_event) :=
  let data := partial_ d ++ ts_bytes in
  feed_loop (S (length data)) (set_partial d []) [] data.

(** [flush]: the video unit first, then the audio one. *)
Definition flush (d : TsDemuxer) : TsDemuxer * list ts_event :=
  let '(d, video_events) := finish_video d in
  let '(d, audio_events) := finish_audio d in
  (d, video_events ++ audio_events).

(** A run of reads. *)
Fixpoint feed_all (d : TsDemuxer) (reads : list (list byte)) : Res (TsDemuxer * list ts_event) :=
  match reads with
  | [] => Ok (d, [])
  | r :: reads =>
      '(d, events) <- feed d r ;; '(d, more) <- feed_all d reads ;; Ok (d, events ++ more)
  end.

(** * The start-code scan *)

Definition start_code_nal (test : byte -> bool) (annexb : list byte) : Prop :=
  exists pre header post, annexb = pre ++ [x00; x00; x01; header] ++ post /\ test header = true.

Lemma b2z_0 b : (b2z b =? 0) = true -> b = x00.
Proof. intros H. apply Z.eqb_eq in H. by apply b2z_inj. Qed.
Lemma b2z_1 b : (b2z b =? 1) = true -> b = x01.
Proof. intros H. apply Z.eqb_eq in H. by apply b2z_inj. Qed.

Lemma start_code_nal_cons test b l : start_code_nal test l -> start_code_nal test (b :: l).
Proof. intros (pre & h & post & -> & Ht). by exists (b :: pre), h, post. Qed.

Lemma start_code_nal_app test pre l : start_code_nal test l -> start_code_nal test (pre ++ l).
Proof. induction pre; [done|]. intros. by apply start_code_nal_cons, IHpre. Qed.

Lemma start_code_nal_inv test a l :
  start_code_nal test (a :: l) ->
  (a = x00 /\ exists h post, l = x00 :: x01 :: h :: post /\ test h = true) \/
  start_code_nal test l.
Proof.
  intros ([|a' pre] & h & post & He & Ht).
  - injection He as -> ->. left. eauto.
  - injection He as <- ->. right. by exists pre, h, post.
Qed.

Lemma start_code_nal_short test l : (length l < 4)%nat -> ~ start_code_nal test l.
Proof.
  intros Hl (pre & h & post & -> & _). rewrite length_app in Hl. cbn in Hl. lia.
Qed.

(** The scan finds a NAL unit of the wanted kind exactly when there is one behind a
    three-byte start code. *)
Lemma scan_start_codes_spec test annexb :
  scan_start_codes test annexb = true <-> start_code_nal test annexb.
Proof.
  induction annexb as [annexb IH] using (induction_ltof1 _ (@length byte)). unfold ltof in IH.
  destruct annexb as [|a [|b [|c [|d rest] ] ] ];
    try (split; [done|intros H; by apply start_code_nal_short in H; [|cbn; lia] ]).
  assert (IH1 := IH (b :: c :: d :: rest) ltac:(cbn; lia)).
  assert (IH3 := IH (d :: rest) ltac:(cbn; lia)).
  assert (IH4 := IH rest ltac:(cbn; lia)). clear IH.
  assert (S3 : (if (b2z a =? 0) && (b2z b =? 0) && (b2z c =? 1) then
      if test d then true else scan_start_codes test (d :: rest)
      else scan_start_codes test (b :: c :: d :: rest)) = true
    <-> start_code_nal test (a :: b :: c :: d :: rest)).
  { destruct (_ && _) eqn:E.
    - apply andb_prop in E as [ [->%b2z_0 ->%b2z_0]%andb_prop ->%b2z_1].
      destruct (test d) eqn:Ed.
      + split; [|done]. intros _. by exists [], d, rest.
      + rewrite IH3. split; [by apply (start_code_nal_app _ [x00; x00; x01])|].
        intros [ (_ & h & post & [= -> ->] & Ht)|H]%start_code_nal_inv; [congruence|].
        apply start_code_nal_inv in H as [ (_ & h & post & [= ] & _)|H].
        by apply start_code_nal_inv in H as [ (H & _)|H].
    - rewrite IH1. split; [apply start_code_nal_cons|].
      intros [ (-> & h & post & [= -> -> -> ->] & _)|H]%start_code_nal_inv; [by rewrite andb_true_r in E|done]. }
  destruct rest as [|e rest]; [exact S3|].
  cbn [scan_start_codes]. fold (scan_start_codes test (d :: e :: rest)).
  destruct ((b2z a =? 0) && (b2z b =? 0) && (b2z c =? 0) && (b2z d =? 1)) eqn:E; [|exact S3].
  clear S3. apply andb_prop in E as [ [ [->%b2z_0 ->%b2z_0]%andb_prop ->%b2z_0]%andb_prop ->%b2z_1].
  destruct (test e) eqn:Ee; [split; [|done]; intros _; by exists [x00], e, rest|].
  rewrite IH4. split; [by apply (start_code_nal_app _ [x00; x00; x00; x01])|].
  intros [ (_ & h & post & [= ] & _)|H]%start_code_nal_inv.
  apply start_code_nal_inv in H as [ (_ & h & post & [= -> ->] & Ht)|H]; [congruence|].
  apply start_code_nal_inv in H as [ (_ & h & post & [= ] & _)|H].
  by apply start_code_nal_inv in H as [ (H & _)|H].
Qed.

(** * What a call can come to *)

(** [outcome bad P r]: a value in [P], or an out-of-bounds access where [bad]; no error
    and no lack of fuel. *)
Definition outcome {A} (bad : Prop) (P : A -> Prop) (r : Res A) : Prop :=
  match r with Ok a => P a | Fault => bad | _ => False end.

Lemma outcome_bind {A B} bad (Q : A -> Prop) (P : B -> Prop) m f :
  outcome bad Q m -> (forall a, Q a -> outcome bad P (f a)) -> outcome bad P (rbind m f).
Proof. destruct m; cbn; auto. Qed.
Lemma outcome_weaken {A} (bad bad' : Prop) (P Q : A -> Prop) r :
  outcome bad P r -> (bad -> bad') -> (forall a, P a -> Q a) -> outcome bad' Q r.
Proof. destruct r; cbn; auto. Qed.

Definition byte_value (v : Z) : Prop := 0 <= v < 256.
Lemma outcome_u8_at bad data i :
  0 <= i -> (zlen data <= i -> bad) -> outcome bad (fun v => byte_value v /\ i < zlen data) (u8_at data i).
Proof.
  intros Hi Hb. destruct (Z.lt_ge_cases i (zlen data)).
  - destruct (u8_at_Ok data i) as (v & -> & Hv); [lia|done].
  - unfold u8_at, byte_at. rewrite (proj2 (Z.leb_le 0 i)) by lia.
    rewrite lookup_ge_None_2 by (unfold zlen in *; lia). by apply Hb.
Qed.
Lemma outcome_subspan (bad : Prop) data off n :
  0 <= off -> 0 <= n -> off + n <= zlen data ->
  outcome bad (fun s => zlen s = n) (subspan data off n).
Proof. intros ???. by destruct (subspan_Ok data off n) as (s & -> & Hs). Qed.
Lemma outcome_subspan_from (bad : Prop) data off :
  0 <= off <= zlen data ->
  outcome bad (fun s => data = take (Z.to_nat off) data ++ s /\ zlen s = zlen data - off)
    (subspan_from data off).
Proof.
  intros ?. unfold subspan_from. rewrite !(proj2 (Z.leb_le _ _)) by lia. cbn.
  by rewrite take_drop, zlen_drop by lia.
Qed.

(** [read v]: the next statement reads a byte, by [tac] only in bad cases outside. *)
Tactic Notation "read_by" simple_intropattern(v) tactic3(tac) :=
  eapply outcome_bind; [apply outcome_u8_at; [lia|tac]|intros v [? ?] ].
Tactic Notation "read" simple_intropattern(v) := read_by v lia.

Definition same_partial (d d' : TsDemuxer) : Prop := partial_ d' = partial_ d.
Definition step_result (d : TsDemuxer) (r : TsDemuxer * list ts_event) : Prop :=
  same_partial d r.1.

(** The field of two bytes behind a 4-bit mask is at least 0. *)
Lemma masked_field_nonneg a b : byte_value a -> byte_value b ->
  0 <= Z.lor (Z.shiftl (Z.land a 0x0F) 8) b.
Proof.
  unfold byte_value. intros ??. apply Z.lor_nonneg. split; [|lia].
  apply Z.shiftl_nonneg. apply Z.land_nonneg. lia.
Qed.

Lemma end_guard i k end_ size :
  0 <= i -> 4 <= k -> 4 <= end_ <= size -> i + k <= u64 (end_ - 4) -> i + k <= size.
Proof. unfold u64. intros Hi Hk He H. Z.to_euclidean_division_equations. lia. Qed.

Lemma pat_entries_outcome fuel : forall d section i end_,
  0 <= i -> zlen section - i < Z.of_nat fuel -> (0 < fuel)%nat ->
  outcome (~ 4 <= end_ <= zlen section) (same_partial d) (pat_entries fuel d section i end_).
Proof.
  induction fuel as [|fuel IH]; intros d section i end_ Hi Hf Hp; [lia|]. cbn [pat_entries].
  destruct (Z.leb_spec (i + 4) (u64 (end_ - 4))) as [Hle|Hle]; cbn [negb]; [|done].
  assert (Hin : forall j, i <= j < i + 4 -> zlen section <= j -> ~ 4 <= end_ <= zlen section).
  { intros j Hj Hz He. pose proof (end_guard i 4 _ _ Hi ltac:(lia) He Hle). lia. }
  read_by p0 (apply Hin; lia).
  read_by p1 (apply Hin; lia).
  read_by p2 (apply Hin; lia).
  read_by p3 (apply Hin; lia).
  destruct (negb _); [done|]. apply IH; lia.
Qed.

Lemma map_stream_partial d t pid : same_partial d (map_stream d t pid).
Proof. unfold map_stream. by repeat case_match. Qed.

Lemma pmt_entries_outcome fuel : forall d section i end_,
  0 <= i -> zlen section - i < Z.of_nat fuel -> (0 < fuel)%nat ->
  outcome (~ 4 <= end_ <= zlen section) (same_partial d) (pmt_entries fuel d section i end_).
Proof.
  induction fuel as [|fuel IH]; intros d section i end_ Hi Hf Hp; [lia|]. cbn [pmt_entries].
  destruct (Z.leb_spec (i + 5) (u64 (end_ - 4))) as [Hle|Hle]; cbn [negb]; [|done].
  assert (Hin : forall j, i <= j < i + 5 -> zlen section <= j -> ~ 4 <= end_ <= zlen section).
  { intros j Hj Hz He. pose proof (end_guard i 5 _ _ Hi ltac:(lia) He Hle). lia. }
  read_by t (apply Hin; lia).
  read_by p1 (apply Hin; lia).
  read_by p2 (apply Hin; lia).
  read_by p3 (apply Hin; lia).
  read_by p4 (apply Hin; lia).
  pose proof (masked_field_nonneg p3 p4 ltac:(done) ltac:(done)).
  eapply outcome_weaken; [apply IH; lia|done|].
  intros d' Hd'. unfold same_partial in *. rewrite Hd'. apply map_stream_partial.
Qed.

(** A section that declares no length at all. *)
Definition empty_section (section : list byte) : Prop :=
  12 <= zlen section /\ section_length section = Ok 0.

Lemma section_end section :
  12 <= zlen section ->
  exists len, section_length section = Ok len /\ 0 <= len /\
    (~ 4 <= Z.min (zlen section) (3 + len) <= zlen section -> empty_section section).
Proof.
  intros Hs. unfold empty_section, section_length.
  destruct (u8_at_Ok section 1) as (a & -> & Ha); [lia|].
  destruct (u8_at_Ok section 2) as (b & -> & Hb); [lia|]. cbn [rbind].
  pose proof (masked_field_nonneg a b Ha Hb) as Hn. eexists; split_and!; [done|done|].
  intros Hm. split; [done|]. f_equal. lia.
Qed.

Lemma parse_pat_outcome d section :
  outcome (empty_section section) (same_partial d) (parse_pat d section).
Proof.
  unfold parse_pat. destruct (Z.ltb_spec (zlen section) 12); [done|].
  destruct (section_end section) as (len & -> & Hl & He); [done|]. cbn [rbind].
  eapply outcome_weaken; [apply pat_entries_outcome; unfold zlen in *; lia|done|done].
Qed.

Lemma parse_pmt_outcome d section :
  outcome (empty_section section) (same_partial d) (parse_pmt d section).
Proof.
  unfold parse_pmt. destruct (Z.ltb_spec (zlen section) 16); [done|].
  destruct (section_end section) as (len & -> & Hl & He); [lia|]. cbn [rbind].
  read a.
  read b.
  pose proof (masked_field_nonneg a b ltac:(done) ltac:(done)).
  eapply outcome_weaken; [apply pmt_entries_outcome; unfold zlen in *; lia|done|done].
Qed.

Lemma read_timestamp_outcome (bad : Prop) p : zlen p = 5 -> outcome bad (fun _ => True) (read_timestamp p).
Proof.
  intros Hp. unfold read_timestamp. read p0. read p1. read p2. read p3. by read p4.
Qed.

Lemma begin_pes_outcome (bad : Prop) a payload : outcome bad (fun _ => True) (begin_pes a payload).
Proof.
  unfold begin_pes. destruct (Z.ltb_spec (zlen payload) 9); [done|].
  read p0. read p1. read p2. destruct (negb _ || _ || _); [done|]. read p7. read p8.
  unfold byte_value in *. destruct (Z.ltb_spec (zlen payload) (9 + p8)); [done|].
  eapply (outcome_bind _ (fun _ => True)).
  - destruct (_ && (14 <=? _)) eqn:E; [|done].
    apply andb_prop in E as [_ E%Z.leb_le].
    eapply outcome_bind; [apply outcome_subspan; lia|intros p Hp].
    eapply outcome_bind; [by apply read_timestamp_outcome|intros pts _].
    destruct (_ && (19 <=? _)) eqn:E2; [|done]. apply andb_prop in E2 as [_ E2%Z.leb_le].
    eapply outcome_bind; [apply outcome_subspan; lia|intros q Hq].
    by eapply outcome_bind; [by apply read_timestamp_outcome|].
  - intros [pts dts] _. eapply outcome_bind; [apply outcome_subspan_from; lia|done].
Qed.

(** A packet with a section of declared length 0 somewhere in it. *)
Definition holds_empty_section (bytes : list byte) : Prop :=
  exists pre section post, bytes = pre ++ section ++ post /\ empty_section section.

Lemma holds_empty_section_app pre mid post :
  holds_empty_section mid -> holds_empty_section (pre ++ mid ++ post).
Proof.
  intros (p & s & q & -> & Hs). exists (pre ++ p), s, (q ++ post).
  by rewrite <- !app_assoc.
Qed.

Lemma holds_empty_section_suffix pre section :
  empty_section section -> holds_empty_section (pre ++ section).
Proof. intros Hs. exists pre, section, []. by rewrite app_nil_r. Qed.

Lemma psi_payload_outcome parse d pusi payload :
  (forall d section, outcome (empty_section section) (same_partial d) (parse d section)) ->
  outcome (holds_empty_section payload) (step_result d) (psi_payload parse d pusi payload).
Proof.
  intros Hp. unfold psi_payload. destruct pusi; [|done].
  destruct (Z.eqb_spec (zlen payload) 0); [done|]. cbn [negb andb].
  pose proof (zlen_nonneg payload). read pointer. unfold byte_value in *.
  destruct (Z.ltb_spec (1 + pointer) (zlen payload)); [|done].
  eapply outcome_bind; [apply outcome_subspan_from; lia|intros section [Hs _] ].
  eapply outcome_bind; [|intros d' Hd'; exact Hd'].
  eapply outcome_weaken; [apply Hp| |done].
  intros He. rewrite Hs. by apply holds_empty_section_suffix.
Qed.

Lemma finish_video_partial d : same_partial d (finish_video d).1.
Proof. unfold finish_video. by destruct (negb _ || _). Qed.
Lemma finish_audio_partial d : same_partial d (finish_audio d).1.
Proof. unfold finish_audio. by destruct (negb _ || _). Qed.

Lemma video_payload_outcome (bad : Prop) d pusi payload :
  outcome bad (step_result d) (video_payload d pusi payload).
Proof.
  unfold video_payload. destruct pusi; [|done].
  pose proof (finish_video_partial d) as Hp. destruct (finish_video d) as [d1 events].
  by eapply outcome_bind; [apply begin_pes_outcome|].
Qed.
Lemma audio_payload_outcome (bad : Prop) d pusi payload :
  outcome bad (step_result d) (audio_payload d pusi payload).
Proof.
  unfold audio_payload. destruct pusi; [|done].
  pose proof (finish_audio_partial d) as Hp. destruct (finish_audio d) as [d1 events].
  by eapply outcome_bind; [apply begin_pes_outcome|].
Qed.

Lemma route_payload_outcome d pid pusi payload :
  outcome (holds_empty_section payload) (step_result d) (route_payload d pid pusi payload).
Proof.
  unfold route_payload. destruct (pid =? 0); [apply psi_payload_outcome, parse_pat_outcome|].
  destruct (_ && _); [apply psi_payload_outcome, parse_pmt_outcome|].
  destruct (pid =? video_pid_ d); [apply video_payload_outcome|].
  by destruct (pid =? audio_pid_ d); [apply audio_payload_outcome|].
Qed.

Lemma process_packet_outcome d packet :
  zlen packet = kPacketSize ->
  outcome (holds_empty_section packet) (step_result d) (process_packet d packet).
Proof.
  unfold kPacketSize. intros Hl. unfold process_packet. read p1. read p2. read p3.
  destruct (_ =? 0x02); [done|].
  eapply (outcome_bind _ (fun off => 0 <= off)).
  { destruct (_ =? 0x03); [|cbn; lia]. read af. unfold byte_value in *. cbn. lia. }
  intros off Hoff. destruct (Z.leb_spec (zlen packet) off); [done|].
  eapply outcome_bind; [apply outcome_subspan_from; lia|intros payload [Hs _] ].
  eapply outcome_weaken; [apply route_payload_outcome| |done].
  intros He. rewrite Hs, <- (app_nil_r payload). by apply holds_empty_section_app.
Qed.

Lemma subspan_front l n : 0 <= n <= zlen l -> subspan l 0 n = Ok (take (Z.to_nat n) l).
Proof.
  intros Hn. unfold subspan. rewrite (proj2 (Z.leb_le 0 n)), (proj2 (Z.leb_le (0 + n) (zlen l))) by lia.
  done.
Qed.

Lemma feed_loop_outcome fuel : forall d events rest,
  (length rest < fuel)%nat ->
  outcome (holds_empty_section rest) (fun r => zlen (partial_ r.1) < kPacketSize)
    (feed_loop fuel d events rest).
Proof.
  induction fuel as [|fuel IH]; intros d events rest Hf; [lia|]. cbn [feed_loop].
  unfold kPacketSize. destruct (Z.leb_spec 188 (zlen rest)) as [Hl|Hl]; cbn [negb]; [|exact Hl].
  assert (Hlen : length rest = Z.to_nat (zlen rest)) by (unfold zlen; lia).
  read sync. destruct (negb _).
  - eapply outcome_weaken; [apply IH; rewrite length_drop; lia| |done].
    intros He. rewrite <- (take_drop 1 rest), <- (app_nil_r (drop 1 rest)).
    by apply holds_empty_section_app.
  - assert (Hr : rest = [] ++ take 188 rest ++ drop 188 rest) by (cbn; by rewrite take_drop).
    assert (Hz : zlen (take 188 rest) = kPacketSize) by (apply (zlen_take 188); lia).
    rewrite (subspan_front rest 188) by lia. cbn [rbind].
    eapply outcome_bind.
    + eapply outcome_weaken; [by apply process_packet_outcome| |].
      * intros He. rewrite Hr. by apply holds_empty_section_app.
      * intros a Ha. exact Ha.
    + intros [d1 more] _. eapply outcome_weaken; [apply IH; rewrite length_drop; lia| |done].
      intros He. rewrite <- (take_drop 188 rest), <- (app_nil_r (drop 188 rest)).
      by apply holds_empty_section_app.
Qed.

(** Feeding arbitrary bytes terminates and never fails; it keeps less than one packet
    back, and reads outside its buffer only when the bytes hold a program table section
    that declares the length 0. *)
Theorem ts_demuxer_safe d ts_bytes :
  match feed d ts_bytes with
  | Ok (d', _) => zlen (partial_ d') < kPacketSize
  | Fault => holds_empty_section (partial_ d ++ ts_bytes)
  | Err _ | OutOfFuel => False
  end.
Proof.
  pose proof (feed_loop_outcome (S (length (partial_ d ++ ts_bytes))) (set_partial d []) []
    (partial_ d ++ ts_bytes)) as H.
  unfold feed. destruct (feed_loop _ _ _ _) as [ [d' ev]| | |]; cbn in H; auto with arith.
Qed.

(** A PAT whose section_length is 0 makes the demultiplexer read past the packet,
    in any state: [end - 4] wraps and the loop over the programs runs off the section. *)
Theorem empty_pat_out_of_bounds d :
  partial_ d = [] -> feed d ([x47; x40; x00; x10] ++ replicate 184 x00) = Fault.
Proof. intros Hp. unfold feed. rewrite Hp. vm_compute. reflexivity. Qed.

Lemma empty_pat_out_of_bounds_witness :
  partial_ make_demuxer = [] /\
  feed make_demuxer ([x47; x40; x00; x10] ++ replicate 184 x00) = Fault.
Proof. split; [reflexivity|]. apply empty_pat_out_of_bounds. reflexivity. Defined.

(** * Reads can be cut anywhere *)

Lemma set_partial_id d : partial_ d = [] -> set_partial d [] = d.
Proof. destruct d. cbn. by intros ->. Qed.

(** One turn of the loop, on a buffer that holds a packet. *)
Lemma feed_loop_step fuel d events rest :
  kPacketSize <= zlen rest ->
  feed_loop (S fuel) d events rest =
    (sync <- u8_at rest 0 ;;
     if negb (sync =? kSyncByte) then feed_loop fuel d events (drop 1 rest) else
     '(d, more) <- process_packet d (take 188 rest) ;;
     feed_loop fuel d (events ++ more) (drop 188 rest)).
Proof.
  unfold kPacketSize. intros Hl. cbn [feed_loop]. unfold kPacketSize.
  rewrite (proj2 (Z.leb_le 188 (zlen rest))) by done. cbn [negb].
  by rewrite (subspan_front rest 188) by lia.
Qed.

Lemma feed_loop_short fuel d events rest :
  zlen rest < kPacketSize -> feed_loop (S fuel) d events rest = Ok (set_partial d rest, events).
Proof. intros Hl. cbn [feed_loop]. by rewrite (proj2 (Z.leb_gt _ _)) by done. Qed.

Ltac drops := rewrite ?length_drop; unfold zlen, kPacketSize in *; lia.

Lemma feed_loop_fuel f1 : forall f2 d events rest,
  (length rest < f1)%nat -> (length rest < f2)%nat ->
  feed_loop f1 d events rest = feed_loop f2 d events rest.
Proof.
  induction f1 as [|f1 IH]; intros [|f2] d events rest H1 H2; try lia.
  destruct (Z.lt_ge_cases (zlen rest) kPacketSize); [by rewrite !feed_loop_short|].
  rewrite !feed_loop_step by done. destruct (u8_at rest 0) as [sync| | |]; cbn [rbind]; try done.
  destruct (negb _); [apply IH; drops|].
  destruct (process_packet _ _) as [ [d1 more]| | |]; cbn [rbind]; try done. apply IH; drops.
Qed.

Lemma feed_loop_events fuel : forall d events rest,
  feed_loop fuel d events rest
  = ('(d', more) <- feed_loop fuel d [] rest ;; Ok (d', events ++ more)).
Proof.
  induction fuel as [|fuel IH]; intros d events rest; [done|].
  destruct (Z.lt_ge_cases (zlen rest) kPacketSize).
  - rewrite !feed_loop_short by done. cbn. by rewrite app_nil_r.
  - rewrite !feed_loop_step by done. destruct (u8_at rest 0) as [sync| | |]; cbn [rbind]; try done.
    destruct (negb _); [apply IH|].
    destruct (process_packet _ _) as [ [d1 more]| | |]; cbn [rbind]; try done.
    rewrite (IH d1 (events ++ more)), (IH d1 ([] ++ more)).
    destruct (feed_loop fuel d1 [] _) as [ [d2 rest']| | |]; cbn [rbind]; try done.
    by rewrite <- app_assoc.
Qed.

Lemma process_packet_partial d packet d' events :
  zlen packet = kPacketSize -> process_packet d packet = Ok (d', events) ->
  partial_ d' = partial_ d.
Proof.
  intros Hl H. pose proof (process_packet_outcome d packet Hl) as Ho. by rewrite H in Ho.
Qed.

Lemma feed_loop_app f1 : forall f2 d events x y,
  partial_ d = [] -> (length x < f1)%nat -> (length (x ++ y) < f2)%nat ->
  feed_loop f2 d events (x ++ y)
  = ('(d1, ev1) <- feed_loop f1 d events x ;;
     feed_loop (S (length (partial_ d1 ++ y))) (set_partial d1 []) ev1 (partial_ d1 ++ y)).
Proof.
  induction f1 as [|f1 IH]; intros f2 d events x y Hd H1 H2; [lia|].
  destruct (Z.lt_ge_cases (zlen x) kPacketSize).
  - rewrite (feed_loop_short f1) by done. cbn [rbind].
    change (partial_ (set_partial d x)) with x. change (set_partial (set_partial d x) []) with (set_partial d []).
    rewrite set_partial_id by done. apply feed_loop_fuel; lia.
  - destruct f2 as [|f2]; [lia|]. rewrite length_app in H2.
    rewrite (feed_loop_step f2) by zlia. rewrite (feed_loop_step f1) by done.
    assert (Hn : (188 <= length x)%nat) by (unfold zlen, kPacketSize in *; lia).
    assert (Hz : zlen (take 188 x) = kPacketSize) by (apply (zlen_take 188); unfold zlen; lia).
    rewrite take_app_le, !drop_app_le by lia.
    destruct (u8_at_Ok x 0) as (sync & Hs & _); [unfold kPacketSize in *; lia|].
    assert (Hs' : u8_at (x ++ y) 0 = Ok sync).
    { unfold u8_at in *. res_inv Hs. by rewrite (byte_at_app _ _ _ _ Ha). }
    rewrite Hs, Hs'. cbn [rbind].
    destruct (negb _); [apply IH; [done|rewrite ?length_app; drops..] |].
    destruct (process_packet _ _) as [ [d1 more]| | |] eqn:Hp; cbn [rbind]; try done.
    apply IH; [|rewrite ?length_app; drops..].
    by rewrite (process_packet_partial _ _ _ _ Hz Hp).
Qed.

Lemma feed_app d a b :
  feed d (a ++ b)
  = ('(d1, e1) <- feed d a ;; '(d2, e2) <- feed d1 b ;; Ok (d2, e1 ++ e2)).
Proof.
  unfold feed. rewrite app_assoc, (feed_loop_app (S (length (partial_ d ++ a)))) by (done || lia).
  destruct (feed_loop _ _ _ (partial_ d ++ a)) as [ [d1 e1]| | |]; cbn [rbind]; try done.
  apply feed_loop_events.
Qed.

Lemma feed_nil d : zlen (partial_ d) < kPacketSize -> feed d [] = Ok (d, []).
Proof.
  intros Hp. unfold feed. rewrite feed_loop_short by (by rewrite app_nil_r).
  rewrite app_nil_r. by destruct d.
Qed.

Lemma feed_all_concat d reads :
  zlen (partial_ d) < kPacketSize -> feed_all d reads = feed d (concat reads).
Proof.
  revert d. induction reads as [|r reads IH]; intros d Hp; cbn [feed_all concat].
  - by rewrite feed_nil.
  - rewrite feed_app. pose proof (feed_loop_outcome (S (length (partial_ d ++ r))) (set_partial d []) []
      (partial_ d ++ r) ltac:(lia)) as Ho. fold (feed d r) in Ho.
    destruct (feed d r) as [ [d1 e1]| | |]; cbn in Ho |- *; try done.
    by rewrite IH.
Qed.

(** The access units that come out, and the state that is left, do not depend on how
    the transport stream is cut into reads, packets split anywhere included. *)
Theorem ts_demuxer_fragmentation d reads1 reads2 :
  zlen (partial_ d) < kPacketSize -> concat reads1 = concat reads2 ->
  feed_all d reads1 = feed_all d reads2.
Proof. intros Hp He. by rewrite !feed_all_concat, He. Qed.

Lemma ts_demuxer_fragmentation_witness :
  let d := set_video_handler make_demuxer in
  zlen (partial_ d) < kPacketSize /\ concat [[x47; x40]; []; [x00]] = concat [[x47; x40; x00]] /\
  feed_all d [[x47; x40]; []; [x00]] = feed_all d [[x47; x40; x00]].
Proof.
  split_and!; [reflexivity|reflexivity|]. apply ts_demuxer_fragmentation; reflexivity.
Defined.
