(* ===== verification/TsRoundTrip.v ===== *)
(** The demultiplexer reads back what the multiplexer writes: packets, program tables,
    PES headers, time stamps, and whole streams of both kinds of access units. *)

From S2P Require Import Prelude Bytes Nal Avc TsMuxer TsDemuxer.

(** * Time stamps *)

(** What a receiver makes of a time stamp: [push_timestamp] puts bits 32..30 one place
    too low, where the marker bit covers bit 30. *)
Definition stamp (v : Z) : Z := v mod 2 ^ 30 + 2 ^ 30 * (Z.shiftr v 31 mod 4).

Lemma stamp_small v : 0 <= v < 2 ^ 30 -> stamp v = v.
Proof.
  intros Hv. unfold stamp. rewrite Z.mod_small, Z.shiftr_div_pow2, Z.div_small by lia.
  change (0 mod 4) with 0. lia.
Qed.

Lemma word15_back x :
  0 <= x < 2 ^ 15 ->
  let w := Z.lor (u32 (Z.shiftl x 1)) 0x01 in
  Z.lor (Z.shiftl (b2z (z2b (Z.shiftr w 8))) 7) (Z.shiftr (b2z (z2b w)) 1) = x.
Proof.
  intros Hx. cbn zeta. unfold u32. rewrite (Z.shiftl_mul_pow2 x 1) by lia.
  rewrite (Z.mod_small (x * 2 ^ 1)) by lia. rewrite (lor_mult_add x 1 1) by lia.
  rewrite !b2z_z2b, !Z.shiftr_div_pow2 by lia.
  rewrite lor_shiftl_add by (Z.to_euclidean_division_equations; lia).
  Z.to_euclidean_division_equations; lia.
Qed.

Lemma prefix_back prefix k :
  In prefix [1; 2; 3] -> 0 <= k < 8 ->
  Z.land (Z.shiftr (b2z (z2b (Z.lor (Z.lor (Z.shiftl prefix 4) k) 0x01))) 1) 0x07 = Z.shiftr k 1.
Proof.
  intros Hp Hk. apply Z.eqb_eq.
  destruct Hp as [<-|[<-|[<-|[] ] ] ]; revert k Hk; apply check_range; vm_compute; reflexivity.
Qed.

Lemma read_timestamp_cons a b c d e l :
  read_timestamp (a :: b :: c :: d :: e :: l) =
  Ok (Z.lor (Z.lor (Z.shiftl (Z.land (Z.shiftr (b2z a) 1) 0x07) 30)
                   (Z.shiftl (Z.lor (Z.shiftl (b2z b) 7) (Z.shiftr (b2z c) 1)) 15))
            (Z.lor (Z.shiftl (b2z d) 7) (Z.shiftr (b2z e) 1))).
Proof. reflexivity. Qed.

Lemma read_pushed_timestamp prefix v l :
  In prefix [1; 2; 3] -> 0 <= v ->
  read_timestamp (push_timestamp [] prefix v ++ l) = Ok (stamp v).
Proof.
  intros Hp Hv. unfold push_timestamp. pushes. rewrite read_timestamp_cons.
  set (u := Z.land v 0x1FFFFFFFF).
  assert (Hu : u = v mod 2 ^ 33) by (subst u; change 0x1FFFFFFFF with (2 ^ 33 - 1); by apply land_ones_mod).
  set (k := Z.land (Z.shiftr u 30) 7).
  assert (Hk : k = Z.shiftr u 30 mod 8) by (subst k; change 7 with (2 ^ 3 - 1); by apply land_ones_mod).
  set (x := Z.land (Z.shiftr u 15) 0x7FFF).
  assert (Hx : x = Z.shiftr u 15 mod 2 ^ 15) by (subst x; change 0x7FFF with (2 ^ 15 - 1); by apply land_ones_mod).
  set (y := Z.land u 0x7FFF).
  assert (Hy : y = u mod 2 ^ 15) by (subst y; change 0x7FFF with (2 ^ 15 - 1); by apply land_ones_mod).
  clearbody u k x y. pose proof (Z.mod_pos_bound (Z.shiftr u 30) 8 eq_refl).
  pose proof (Z.mod_pos_bound (Z.shiftr u 15) (2 ^ 15) eq_refl).
  pose proof (Z.mod_pos_bound u (2 ^ 15) eq_refl).
  replace (u32 k) with k by (unfold u32; by rewrite Z.mod_small by lia).
  rewrite prefix_back, !word15_back by (done || lia).
  rewrite <- Z.lor_assoc, (lor_shiftl_add x y 15), lor_shiftl_add;
    [|lia|Z.to_euclidean_division_equations; lia|lia|lia].
  f_equal. unfold stamp. subst k x y u. rewrite !Z.shiftr_div_pow2 by lia.
  change 8 with (2 ^ 3). Z.to_euclidean_division_equations; lia.
Qed.

(** * Packets *)

Lemma pusi_back (pusi : bool) h :
  0 <= h < 32 ->
  negb (Z.land (b2z (z2b (Z.lor (if pusi then 0x40 else 0x00) h))) 0x40 =? 0) = pusi.
Proof.
  intros Hh. apply (eqb_true_iff). revert h Hh. apply check_range.
  destruct pusi; vm_compute; reflexivity.
Qed.

Lemma afc_back (af : list byte) cc :
  0 <= cc < 16 ->
  Z.land (Z.shiftr (b2z (z2b (Z.lor (match af with [] => 0x10 | _ :: _ => 0x30 end) cc))) 4) 0x03
  = match af with [] => 1 | _ => 3 end.
Proof.
  intros Hc. apply Z.eqb_eq. revert cc Hc. apply check_range. destruct af; vm_compute; reflexivity.
Qed.

Lemma land_15_range z : 0 <= Z.land z 0x0F < 16.
Proof. change 0x0F with (2 ^ 4 - 1). rewrite land_ones_mod by lia. apply Z.mod_pos_bound. lia. Qed.
Lemma land_0x1F_range z : 0 <= Z.land z 0x1F < 32.
Proof. change 0x1F with (2 ^ 5 - 1). rewrite land_ones_mod by lia. apply Z.mod_pos_bound. lia. Qed.

(** A packet is taken apart into its PID, its start flag and its payload. *)
Lemma process_ts_packet d pid pusi cc af chunk :
  0 <= pid < 8192 -> adaptation af -> chunk <> [] -> zlen af + zlen chunk = 184 ->
  process_packet d (ts_packet pid pusi cc af chunk) = route_payload d pid pusi chunk.
Proof.
  intros Hp Haf Hch Hl. pose proof (packet_pid_ts_packet pid pusi cc af chunk Hp) as Hpid.
  pose proof (zlen_ts_packet pid pusi cc af chunk) as Hz.
  assert (0 < zlen chunk) by (destruct chunk; [done|zlia]).
  pose proof (pusi_back pusi (Z.land (Z.shiftr pid 8) 31) (land_0x1F_range _)) as Hpusi.
  pose proof (afc_back af (Z.land cc 15) (land_15_range _)) as Hafc.
  unfold process_packet. unfold ts_packet in *.
  set (b1 := z2b (Z.lor _ (Z.land (Z.shiftr pid 8) 31))) in *. set (b2 := z2b (Z.land pid 255)) in *.
  set (b3 := z2b (Z.lor _ (Z.land cc 15))) in *. set (b0 := z2b kSyncByte) in *.
  set (p := [b0; b1; b2; b3] ++ af ++ chunk) in *.
  change (u8_at p 1) with (Ok (b2z b1)). change (u8_at p 2) with (Ok (b2z b2)).
  change (u8_at p 3) with (Ok (b2z b3)). cbn [rbind].
  cbn [packet_pid p app] in Hpid. unfold u16. pose proof (b2z_range b2).
  rewrite lor_shiftl_add by lia. change (2 ^ 8) with 256. rewrite Hpid, Z.mod_small by lia.
  rewrite Hpusi, Hafc.
  assert (Hs : at_suffix p (4 + zlen af) chunk).
  { pose proof (at_suffix_intro ([b0; b1; b2; b3] ++ af) chunk) as Hs.
    rewrite zlen_app, <- app_assoc in Hs. exact Hs. }
  destruct Haf as [->|[body ->] ].
  - change (1 =? 2) with false. change (1 =? 3) with false. cbn [rbind].
    rewrite (proj2 (Z.leb_gt (zlen p) 4)) by zlia.
    by rewrite (subspan_from_suffix _ 4 _ Hs).
  - change (u8_at p 4) with (Ok (b2z (z2b (zlen body)))). rewrite zlen_cons in *.
    rewrite b2z_z2b, (Z.mod_small (zlen body)) by zlia.
    change (3 =? 2) with false. change (3 =? 3) with true. cbn [rbind].
    rewrite (proj2 (Z.leb_gt (zlen p) (5 + zlen body))) by lia.
    replace (5 + zlen body) with (4 + (1 + zlen body)) by lia.
    by rewrite (subspan_from_suffix _ _ _ Hs).
Qed.

(** * PES headers *)

Definition pes_start (id : Z) (length : Z) (flags header_data_len : Z) : list byte :=
  [z2b 0; z2b 0; z2b 1; z2b id; z2b (Z.shiftr length 8); z2b length; z2b 0x80; z2b flags;
   z2b header_data_len].

Definition video_header (annexb : list byte) (pts dts : Z) : list byte :=
  let with_dts := negb (dts =? pts) in
  let len := zlen annexb + 3 + (if with_dts then 10 else 5) in
  pes_start kStreamIdVideo (if 0xFFFF <? len then 0 else u32 len)
            (if with_dts then 0xC0 else 0x80) (u32 (if with_dts then 10 else 5))
  ++ push_timestamp [] (if with_dts then 0x03 else 0x02) pts
  ++ (if with_dts then push_timestamp [] 0x01 dts else []).

Lemma video_pes_eq annexb pts dts : video_pes annexb pts dts = video_header annexb pts dts ++ annexb.
Proof.
  unfold video_pes, video_header, pes_start. destruct (negb (dts =? pts)).
  - rewrite (push_timestamp_app _ 1 dts), push_timestamp_app. pushes. done.
  - rewrite push_timestamp_app. pushes. done.
Qed.

Definition audio_header (adts : list byte) (pts : Z) : list byte :=
  pes_start kStreamIdAudio (u32 (zlen adts + 3 + 5)) 0x80 5 ++ push_timestamp [] 0x02 pts.

Lemma audio_pes_eq adts pts : audio_pes adts pts = audio_header adts pts ++ adts.
Proof. unfold audio_pes, audio_header, pes_start. rewrite push_timestamp_app. pushes. done. Qed.

Lemma zlen_video_header annexb pts dts : 14 <= zlen (video_header annexb pts dts) <= 19.
Proof.
  unfold video_header, pes_start. rewrite !zlen_app, zlen_push_timestamp.
  destruct (negb _); rewrite ?zlen_push_timestamp, !zlen_cons, ?zlen_nil; lia.
Qed.
Lemma zlen_audio_header adts pts : zlen (audio_header adts pts) = 14.
Proof. unfold audio_header, pes_start. by rewrite zlen_app, zlen_push_timestamp. Qed.

(** [begin_pes] on a header with one time stamp, and with two. *)
Lemma begin_pes_pts a id len t es pts :
  zlen t = 5 -> read_timestamp t = Ok pts ->
  begin_pes a (pes_start id len 0x80 5 ++ t ++ es) = Ok (mkPesAssembly es pts pts true).
Proof.
  intros Ht Hr. set (p := pes_start id len 0x80 5 ++ t ++ es).
  assert (Hz : zlen p = 14 + zlen es) by (subst p; unfold pes_start; zlia).
  assert (Hs : at_suffix p 9 (t ++ es)) by apply (at_suffix_intro (pes_start id len 0x80 5)).
  pose proof (at_suffix_app p 9 t es Hs) as Hs2. rewrite Ht in Hs2.
  unfold begin_pes. rewrite (proj2 (Z.ltb_ge (zlen p) 9)) by zlia.
  change (u8_at p 0) with (Ok 0). change (u8_at p 1) with (Ok 0). change (u8_at p 2) with (Ok 1).
  change (u8_at p 7) with (Ok 0x80). change (u8_at p 8) with (Ok 5). cbn [rbind Z.eqb negb orb Pos.eqb].
  rewrite (proj2 (Z.ltb_ge (zlen p) (9 + 5))) by zlia.
  change (Z.land (Z.shiftr 0x80 6) 0x03) with 2. change (Z.land 2 2) with 2.
  cbn [Z.eqb negb andb Pos.eqb]. rewrite (proj2 (Z.leb_le 14 (zlen p))) by zlia.
  rewrite <- Ht at 1. rewrite (subspan_suffix p 9 t es Hs). cbn [rbind]. rewrite Hr. cbn [rbind].
  by rewrite (subspan_from_suffix p (9 + 5) es Hs2).
Qed.

Lemma begin_pes_pts_dts a id len t u es pts dts :
  zlen t = 5 -> zlen u = 5 -> read_timestamp t = Ok pts -> read_timestamp u = Ok dts ->
  begin_pes a (pes_start id len 0xC0 10 ++ t ++ u ++ es) = Ok (mkPesAssembly es pts dts true).
Proof.
  intros Ht Hu Hr Hr2. set (p := pes_start id len 0xC0 10 ++ t ++ u ++ es).
  assert (Hz : zlen p = 19 + zlen es) by (subst p; unfold pes_start; zlia).
  assert (Hs : at_suffix p 9 (t ++ u ++ es)) by apply (at_suffix_intro (pes_start id len 0xC0 10)).
  pose proof (at_suffix_app p 9 t (u ++ es) Hs) as Hs2. rewrite Ht in Hs2.
  pose proof (at_suffix_app p _ u es Hs2) as Hs3. rewrite Hu in Hs3.
  unfold begin_pes. rewrite (proj2 (Z.ltb_ge (zlen p) 9)) by zlia.
  change (u8_at p 0) with (Ok 0). change (u8_at p 1) with (Ok 0). change (u8_at p 2) with (Ok 1).
  change (u8_at p 7) with (Ok 0xC0). change (u8_at p 8) with (Ok 10). cbn [rbind Z.eqb negb orb Pos.eqb].
  rewrite (proj2 (Z.ltb_ge (zlen p) (9 + 10))) by zlia.
  change (Z.land (Z.shiftr 0xC0 6) 0x03) with 3. change (Z.land 3 2) with 2.
  cbn [Z.eqb negb andb Pos.eqb].
  rewrite (proj2 (Z.leb_le 14 (zlen p))), (proj2 (Z.leb_le 19 (zlen p))) by zlia.
  pose proof (subspan_suffix p 9 t _ Hs) as Et. rewrite Ht in Et.
  pose proof (subspan_suffix p _ u _ Hs2) as Eu. rewrite Hu in Eu. change (9 + 5) with 14 in *.
  rewrite Et. cbn [rbind]. rewrite Hr. cbn [rbind]. rewrite Eu. cbn [rbind]. rewrite Hr2. cbn [rbind].
  by rewrite (subspan_from_suffix p (9 + 10) es Hs3).
Qed.

Lemma pushed_timestamp_back prefix v :
  In prefix [1; 2; 3] -> 0 <= v -> read_timestamp (push_timestamp [] prefix v) = Ok (stamp v).
Proof. intros. by rewrite <- (app_nil_r (push_timestamp [] prefix v)), read_pushed_timestamp. Qed.

Lemma begin_video a annexb pts dts part :
  0 <= pts -> 0 <= dts ->
  begin_pes a (video_header annexb pts dts ++ part)
  = Ok (mkPesAssembly part (stamp pts) (stamp dts) true).
Proof.
  intros Hp Hd. unfold video_header. destruct (Z.eqb_spec dts pts) as [->|Hne]; cbn [negb];
    rewrite <- !app_assoc.
  - apply begin_pes_pts; [apply zlen_push_timestamp|apply pushed_timestamp_back; cbn; auto].
  - apply begin_pes_pts_dts; [apply zlen_push_timestamp..| |];
      apply pushed_timestamp_back; cbn; auto.
Qed.

Lemma begin_audio a adts pts part :
  0 <= pts -> begin_pes a (audio_header adts pts ++ part)
  = Ok (mkPesAssembly part (stamp pts) (stamp pts) true).
Proof.
  intros Hp. unfold audio_header. rewrite <- app_assoc.
  apply begin_pes_pts; [apply zlen_push_timestamp|apply pushed_timestamp_back; cbn; auto].
Qed.

(** * Program tables *)

Lemma parse_pat_bytes d p1 p2 q1 q2 c1 c2 c3 c4 rest :
  b2z p1 * 256 + b2z p2 <> 0 ->
  parse_pat d ([x00; xb0; x0d; x00; x01; xc1; x00; x00; p1; p2; q1; q2; c1; c2; c3; c4] ++ rest)
  = Ok (set_pmt d (u16 (Z.lor (Z.shiftl (Z.land (b2z q1) 0x1F) 8) (b2z q2)))).
Proof.
  intros Hp. set (s := _ ++ rest). assert (Hz : zlen s = 16 + zlen rest) by (subst s; zlia).
  unfold parse_pat. rewrite (proj2 (Z.ltb_ge (zlen s) 12)) by zlia.
  change (section_length s) with (Ok 13). cbn [rbind].
  rewrite (Z.min_r (zlen s) (3 + 13)) by zlia. cbn [pat_entries].
  change (8 + 4 <=? u64 (3 + 13 - 4)) with true. cbn [negb].
  change (u8_at s 8) with (Ok (b2z p1)). change (u8_at s (8 + 1)) with (Ok (b2z p2)).
  change (u8_at s (8 + 2)) with (Ok (b2z q1)). change (u8_at s (8 + 3)) with (Ok (b2z q2)).
  cbn [rbind]. pose proof (b2z_range p1). pose proof (b2z_range p2).
  rewrite (lor_shiftl_add (b2z p1)) by lia. unfold u16 at 1. rewrite Z.mod_small by lia.
  by rewrite (proj2 (Z.eqb_neq _ 0)) by exact Hp.
Qed.

Lemma pmt_entries_S fuel d section i end_ :
  pmt_entries (S fuel) d section i end_ =
    (if negb (i + 5 <=? u64 (end_ - 4)) then Ok d else
     stream_type <- u8_at section i ;;
     p1 <- u8_at section (i + 1) ;; p2 <- u8_at section (i + 2) ;;
     p3 <- u8_at section (i + 3) ;; p4 <- u8_at section (i + 4) ;;
     pmt_entries fuel
       (map_stream d stream_type (u16 (Z.lor (Z.shiftl (Z.land p1 0x1F) 8) p2))) section
       (i + (5 + Z.lor (Z.shiftl (Z.land p3 0x0F) 8) p4)) end_).
Proof. done. Qed.

Lemma parse_pmt_bytes d n1 n2 r1 r2 v1 v2 a1 a2 c1 c2 c3 c4 rest :
  parse_pmt d ([x02; xb0; x17; n1; n2; xc1; x00; x00; r1; r2; xf0; x00;
                x1b; v1; v2; xf0; x00; x0f; a1; a2; xf0; x00; c1; c2; c3; c4] ++ rest)
  = Ok (map_stream (map_stream d kStreamTypeH264
                      (u16 (Z.lor (Z.shiftl (Z.land (b2z v1) 0x1F) 8) (b2z v2))))
          kStreamTypeAacAdts (u16 (Z.lor (Z.shiftl (Z.land (b2z a1) 0x1F) 8) (b2z a2)))).
Proof.
  set (s := _ ++ rest). assert (Hz : zlen s = 26 + zlen rest) by (subst s; zlia).
  unfold parse_pmt. rewrite (proj2 (Z.ltb_ge (zlen s) 16)) by zlia.
  change (section_length s) with (Ok 23). cbn [rbind].
  rewrite (Z.min_r (zlen s) (3 + 23)) by zlia.
  change (u8_at s 10) with (Ok 0xf0). change (u8_at s 11) with (Ok 0). cbn [rbind].
  assert (Hn : exists n, length s = S (S n)) by (by eexists). destruct Hn as [n ->].
  change (12 + _) with 12. rewrite pmt_entries_S.
  change (12 + 5 <=? u64 (3 + 23 - 4)) with true. cbn [negb].
  change (u8_at s 12) with (Ok kStreamTypeH264). change (u8_at s (12 + 1)) with (Ok (b2z v1)).
  change (u8_at s (12 + 2)) with (Ok (b2z v2)). change (u8_at s (12 + 3)) with (Ok 0xf0).
  change (u8_at s (12 + 4)) with (Ok 0). cbn [rbind]. change (12 + _) with 17. rewrite pmt_entries_S.
  change (17 + 5 <=? u64 (3 + 23 - 4)) with true. cbn [negb].
  change (u8_at s 17) with (Ok kStreamTypeAacAdts). change (u8_at s (17 + 1)) with (Ok (b2z a1)).
  change (u8_at s (17 + 2)) with (Ok (b2z a2)). change (u8_at s (17 + 3)) with (Ok 0xf0).
  change (u8_at s (17 + 4)) with (Ok 0). cbn [rbind]. change (17 + _) with 22. rewrite pmt_entries_S.
  change (22 + 5 <=? u64 (3 + 23 - 4)) with false. reflexivity.
Qed.

(** A PID field behind three reserved bits. *)
Lemma pid_field_back pid :
  0 <= pid < 8192 ->
  u16 (Z.lor (Z.shiftl (Z.land (b2z (z2b (Z.shiftr (Z.lor 0xE000 (Z.land pid 0x1FFF)) 8))) 0x1F) 8)
             (b2z (z2b (Z.lor 0xE000 (Z.land pid 0x1FFF))))) = pid.
Proof.
  intros Hp. apply Z.eqb_eq. revert pid Hp. apply check_range. vm_compute. reflexivity.
Qed.

Lemma psi_payload_at parse d section rest :
  0 < zlen section ->
  psi_payload parse d true (z2b 0 :: section ++ rest)
  = (d <- parse d (section ++ rest) ;; Ok (d, [])).
Proof.
  intros Hs. unfold psi_payload. set (p := z2b 0 :: _).
  assert (Hz : zlen p = 1 + zlen section + zlen rest) by (subst p; zlia).
  rewrite (proj2 (Z.eqb_neq (zlen p) 0)) by zlia. cbn [negb andb].
  change (u8_at p 0) with (Ok 0). cbn [rbind].
  rewrite (proj2 (Z.ltb_lt (1 + 0) (zlen p))) by zlia.
  by rewrite (subspan_from_suffix p (1 + 0) (section ++ rest)) by apply (at_suffix_intro [z2b 0]).
Qed.

Lemma pat_demuxed d c rest :
  1 <= program_number c < 2 ^ 16 -> 0 <= pmt_pid c < 8192 ->
  parse_pat d (pat_section c ++ rest) = Ok (set_pmt d (pmt_pid c)).
Proof.
  intros Hn Hp. unfold pat_section. pushes. match goal with |- context [mpeg_crc32 ?l] => generalize (mpeg_crc32 l); intros crc end.
  etrans; [eapply parse_pat_bytes|].
  2: by rewrite pid_field_back.
  rewrite !b2z_z2b, Z.shiftr_div_pow2 by lia. Z.to_euclidean_division_equations; lia.
Qed.

Lemma pmt_demuxed d c rest :
  0 <= video_pid c < 8192 -> 0 <= audio_pid c < 8192 ->
  parse_pmt d (pmt_section c ++ rest)
  = Ok (map_stream (map_stream d kStreamTypeH264 (video_pid c)) kStreamTypeAacAdts (audio_pid c)).
Proof.
  intros Hv Ha. unfold pmt_section. pushes. match goal with |- context [mpeg_crc32 ?l] => generalize (mpeg_crc32 l); intros crc end.
  etrans; [apply parse_pmt_bytes|]. by rewrite !pid_field_back.
Qed.

(** * Runs of packets *)

Fixpoint process_all (d : TsDemuxer) (ps : list (list byte)) : Res (TsDemuxer * list ts_event) :=
  match ps with
  | [] => Ok (d, [])
  | p :: ps =>
      '(d, events) <- process_packet d p ;; '(d, more) <- process_all d ps ;;
      Ok (d, events ++ more)
  end.

Lemma process_all_app d ps qs d1 e1 :
  process_all d ps = Ok (d1, e1) ->
  process_all d (ps ++ qs) = ('(d2, e2) <- process_all d1 qs ;; Ok (d2, e1 ++ e2)).
Proof.
  revert d e1. induction ps as [|p ps IH]; intros d e1; cbn [process_all app].
  - intros [= -> <-]. by destruct (process_all d1 qs) as [ [? ?]| | |].
  - intros H. res_inv H. destruct a as [d' e]. res_inv H. destruct a as [d'' e'].
    injection H as -> <-. rewrite Ha. cbn [rbind]. rewrite (IH _ _ Ha0).
    destruct (process_all d1 qs) as [ [? ?]| | |]; cbn [rbind]; try done. by rewrite app_assoc.
Qed.

Lemma feed_packet d p :
  partial_ d = [] -> transport_packet p -> feed d p = process_packet d p.
Proof.
  intros Hd [Hl [rest Hp] ]. unfold feed. rewrite Hd, set_partial_id by done. cbn [app].
  rewrite feed_loop_step by lia.
  assert (Hs : u8_at p 0 = Ok kSyncByte) by by subst p. rewrite Hs. cbn [rbind].
  change (negb (kSyncByte =? kSyncByte)) with false. cbn [rbind].
  assert (Hn : length p = 188%nat) by (unfold zlen, kPacketSize in *; lia).
  rewrite take_ge, drop_ge by lia.
  destruct (process_packet d p) as [ [d1 more]| | |] eqn:E; cbn [rbind]; try done.
  apply process_packet_partial in E; [|done]. rewrite Hn, feed_loop_short by done.
  rewrite set_partial_id by (by rewrite E, Hd). done.
Qed.

Lemma feed_packets d ps d' events :
  partial_ d = [] -> Forall transport_packet ps ->
  process_all d ps = Ok (d', events) -> feed d (concat ps) = Ok (d', events).
Proof.
  intros Hd Hps. revert d events Hd. induction Hps as [|p ps Hp Hps IH]; intros d events Hd;
    cbn [concat process_all].
  - intros [= <- <-]. apply feed_nil. by rewrite Hd.
  - intros H. res_inv H. destruct a as [d1 e]. res_inv H. destruct a as [d2 more].
    rewrite feed_app, feed_packet, Ha by done. cbn [rbind].
    injection H as -> <-. rewrite (IH d1 more); [done| |done].
    rewrite (process_packet_partial _ _ _ _ (proj1 Hp) Ha). done.
Qed.

(** A demuxer that follows the tables of [c], and one that has seen none. *)
Definition tuned (c : TsMuxerConfig) (d : TsDemuxer) : Prop :=
  video_handler_ d = true /\ audio_handler_ d = true /\ pmt_known_ d = true /\
  pmt_pid_ d = pmt_pid c /\ video_pid_ d = video_pid c /\ audio_pid_ d = audio_pid c /\
  video_codec_ d = H264.
Definition fresh (d : TsDemuxer) : Prop :=
  video_handler_ d = true /\ audio_handler_ d = true /\
  video_pid_ d = 0xFFFF /\ audio_pid_ d = 0xFFFF.

Lemma valid_pids c : valid_config c ->
  0 < pmt_pid c < 8191 /\ 0 < video_pid c < 8191 /\ 0 < audio_pid c < 8191 /\
  pmt_pid c <> video_pid c /\ pmt_pid c <> audio_pid c /\ video_pid c <> audio_pid c.
Proof.
  intros (Hd & Hr & _).
  rewrite !list.NoDup_cons, !not_elem_of_cons in Hd. rewrite !list.Forall_cons in Hr. lia.
Qed.

Lemma psi_processed d pid cc section :
  0 <= pid < 8192 -> 0 < zlen section <= 183 ->
  process_packet d (psi_packet pid cc section)
  = route_payload d pid true
      (z2b 0 :: section ++ replicate (Z.to_nat (183 - zlen section)) (z2b 0xFF)).
Proof. intros Hp Hs. apply process_ts_packet; [done|by left|done|zlia]. Qed.

Lemma map_stream_known d t pid :
  video_pid_ d =? 0xFFFF = false -> audio_pid_ d =? 0xFFFF = false -> map_stream d t pid = d.
Proof. intros Hv Ha. unfold map_stream. by rewrite Hv, Ha, !andb_false_r. Qed.

Lemma map_streams_tuned c d :
  valid_config c -> fresh d \/ tuned c d ->
  let d' := map_stream (map_stream (set_pmt d (pmt_pid c)) kStreamTypeH264 (video_pid c))
              kStreamTypeAacAdts (audio_pid c) in
  tuned c d' /\ video_ d' = video_ d /\ audio_ d' = audio_ d.
Proof.
  intros Hc Hd. pose proof (valid_pids c Hc) as Hp. destruct d as [h1 h2 p1 p2 p3 k codec v a b].
  unfold tuned, fresh in *. cbn [video_handler_ audio_handler_ pmt_known_ pmt_pid_ video_pid_ audio_pid_ video_codec_] in Hd.
  destruct Hd as [(->&->&->&->)|(->&->&->&->&->&->&->)].
  - by split_and!.
  - assert (Hv : video_pid c =? 0xFFFF = false) by (apply Z.eqb_neq; lia).
    assert (Ha : audio_pid c =? 0xFFFF = false) by (apply Z.eqb_neq; lia).
    cbv zeta. rewrite (map_stream_known (set_pmt _ _)), map_stream_known by done. by split_and!.
Qed.

Lemma tables_demuxed c d cc1 cc2 :
  valid_config c -> 1 <= program_number c -> fresh d \/ tuned c d ->
  exists d', process_all d [psi_packet 0 cc1 (pat_section c); psi_packet (pmt_pid c) cc2 (pmt_section c)]
             = Ok (d', []) /\
    tuned c d' /\ video_ d' = video_ d /\ audio_ d' = audio_ d.
Proof.
  intros Hc Hn Hd. pose proof (valid_pids c Hc) as Hp. pose proof Hc as (_ & _ & Hr).
  cbn [process_all]. rewrite psi_processed by (rewrite ?zlen_pat_section; lia).
  unfold route_payload at 1. cbn [Z.eqb].
  rewrite psi_payload_at, pat_demuxed by (rewrite ?zlen_pat_section; lia). cbn [rbind app].
  rewrite psi_processed by (rewrite ?zlen_pmt_section; lia).
  unfold route_payload. rewrite (proj2 (Z.eqb_neq (pmt_pid c) 0)) by lia.
  cbn [pmt_known_ pmt_pid_ set_pmt]. rewrite Z.eqb_refl. cbn [andb].
  rewrite psi_payload_at, pmt_demuxed by (rewrite ?zlen_pmt_section; lia). cbn [rbind app].
  eexists. split; [done|]. by apply map_streams_tuned.
Qed.

(** ** One elementary stream *)

Section Stream.
Context (c : TsMuxerConfig) (pid : Z).
Context (get : TsDemuxer -> PesAssembly) (put : TsDemuxer -> PesAssembly -> TsDemuxer).
Context (finish : TsDemuxer -> TsDemuxer * list ts_event).
Hypothesis pid_range : 0 <= pid < 8192.
Hypothesis get_put : forall d a, get (put d a) = a.
Hypothesis put_put : forall d a b, put (put d a) b = put d b.
Hypothesis tuned_put : forall d a, tuned c d -> tuned c (put d a).
Hypothesis finish_put : forall d, exists a, (finish d).1 = put d a.
Hypothesis route_start : forall d chunk, tuned c d ->
  route_payload d pid true chunk
  = (let '(d, events) := finish d in a <- begin_pes (get d) chunk ;; Ok (put d a, events)).
Hypothesis route_more : forall d chunk, tuned c d ->
  route_payload d pid false chunk = Ok (put d (append_pes (get d) chunk), []).

Lemma tail_demuxed cc first pes ps cc' :
  pes_packets pid cc first pes ps cc' -> first = false -> forall d es pts dts,
  tuned c d ->
  process_all (put d (mkPesAssembly es pts dts true)) ps
  = Ok (put d (mkPesAssembly (es ++ pes) pts dts true), []).
Proof.
  induction 1 as [|cc first af chunk rest ps cc' Haf Hch Hl _ _ IH]; intros -> d es pts dts Hd.
  - cbn. by rewrite app_nil_r.
  - cbn [process_all]. rewrite process_ts_packet, route_more by auto. cbn [rbind].
    rewrite get_put. unfold append_pes. cbn [has_data data pts_90k dts_90k]. rewrite put_put.
    rewrite IH by done. cbn [rbind]. by rewrite app_assoc.
Qed.

Lemma pes_demuxed cc hdr es ps cc' d pts dts :
  pes_packets pid cc true (hdr ++ es) ps cc' -> hdr <> [] -> zlen hdr <= 176 -> tuned c d ->
  (forall a part, begin_pes a (hdr ++ part) = Ok (mkPesAssembly part pts dts true)) ->
  process_all d ps = Ok (put d (mkPesAssembly es pts dts true), (finish d).2).
Proof.
  intros H Hne Hh Hd Hb. inversion H as [|? ? af chunk rest qs ? Haf Hch Hl Hr Hps Heq]; subst.
  { by destruct hdr. }
  assert (Hpart : exists part, chunk = hdr ++ part /\ es = part ++ rest).
  { match goal with He : chunk ++ rest = hdr ++ es |- _ =>
      apply app_eq_inv in He as [(k & -> & ->)|(k & -> & ->)]; [by exists k|] end.
    assert (k = []) as ->.
    { destruct Hr as [ [-> _]%app_nil|Hr]; [done|]. apply zlen_0_nil. zlia. }
    exists []. by rewrite !app_nil_r. }
  destruct Hpart as (part & -> & ->). cbn [process_all].
  rewrite process_ts_packet, route_start by auto.
  destruct (finish_put d) as [a Ha]. destruct (finish d) as [d1 e1]. cbn [fst] in Ha. subst d1.
  rewrite Hb. cbn [rbind snd]. rewrite put_put.
  rewrite (tail_demuxed _ _ _ _ _ Hps) by done. cbn [rbind]. by rewrite app_nil_r.
Qed.
End Stream.

Definition pending_video (d : TsDemuxer) : list ts_event := (finish_video d).2.
Definition pending_audio (d : TsDemuxer) : list ts_event := (finish_audio d).2.

Lemma video_demuxed c d cc annexb pts dts ps cc' :
  valid_config c -> tuned c d -> 0 <= pts -> 0 <= dts ->
  pes_packets (video_pid c) cc true (video_pes annexb pts dts) ps cc' ->
  process_all d ps
  = Ok (set_video d (mkPesAssembly annexb (stamp pts) (stamp dts) true), pending_video d).
Proof.
  intros Hc Hd Hp Hq H. rewrite video_pes_eq in H. pose proof (valid_pids c Hc) as Hv.
  pose proof (zlen_video_header annexb pts dts).
  eapply (pes_demuxed c (video_pid c) video_ set_video finish_video); try done.
  - lia.
  - intros d0. unfold finish_video. case_match; by eexists.
  - intros d0 chunk (?&?&Hk&Hm&Hvp&Hap&?). unfold route_payload.
    rewrite Hk, Hm, Hvp, (proj2 (Z.eqb_neq (video_pid c) 0)),
      (proj2 (Z.eqb_neq (video_pid c) (pmt_pid c))), Z.eqb_refl by lia. done.
  - intros d0 chunk (?&?&Hk&Hm&Hvp&Hap&?). unfold route_payload.
    rewrite Hk, Hm, Hvp, (proj2 (Z.eqb_neq (video_pid c) 0)),
      (proj2 (Z.eqb_neq (video_pid c) (pmt_pid c))), Z.eqb_refl by lia. done.
  - lia.
  - intros a part. by apply begin_video.
Qed.

Lemma audio_demuxed c d cc adts pts ps cc' :
  valid_config c -> tuned c d -> 0 <= pts ->
  pes_packets (audio_pid c) cc true (audio_pes adts pts) ps cc' ->
  process_all d ps
  = Ok (set_audio d (mkPesAssembly adts (stamp pts) (stamp pts) true), pending_audio d).
Proof.
  intros Hc Hd Hp H. rewrite audio_pes_eq in H. pose proof (valid_pids c Hc) as Hv.
  pose proof (zlen_audio_header adts pts).
  eapply (pes_demuxed c (audio_pid c) audio_ set_audio finish_audio); try done.
  - lia.
  - intros d0. unfold finish_audio. case_match; by eexists.
  - intros d0 chunk (?&?&Hk&Hm&Hvp&Hap&?). unfold route_payload.
    rewrite Hk, Hm, Hvp, Hap, (proj2 (Z.eqb_neq (audio_pid c) 0)),
      (proj2 (Z.eqb_neq (audio_pid c) (pmt_pid c))),
      (proj2 (Z.eqb_neq (audio_pid c) (video_pid c))), Z.eqb_refl by lia. done.
  - intros d0 chunk (?&?&Hk&Hm&Hvp&Hap&?). unfold route_payload.
    rewrite Hk, Hm, Hvp, Hap, (proj2 (Z.eqb_neq (audio_pid c) 0)),
      (proj2 (Z.eqb_neq (audio_pid c) (pmt_pid c))),
      (proj2 (Z.eqb_neq (audio_pid c) (video_pid c))), Z.eqb_refl by lia. done.
  - intros a part. by apply begin_audio.
Qed.

(** * Streams of writes *)

(** The units a receiver should see. *)
Definition video_unit (w : ts_write) : list ts_event :=
  match w with
  | Video annexb pts dts _ => [VideoUnit annexb (stamp pts) (stamp dts) (contains_idr annexb)]
  | _ => []
  end.
Definition audio_unit (w : ts_write) : list ts_event :=
  match w with
  | Audio adts pts => [AudioUnit adts (stamp pts)]
  | _ => []
  end.
Definition is_video (e : ts_event) : bool := match e with VideoUnit _ _ _ _ => true | _ => false end.
Definition is_audio (e : ts_event) : bool := match e with AudioUnit _ _ => true | _ => false end.
Definition stamps_nonneg (w : ts_write) : Prop :=
  match w with
  | Tables => True
  | Video _ pts dts _ => 0 <= pts /\ 0 <= dts
  | Audio _ pts => 0 <= pts
  end.

Lemma pending_video_kind d : List.filter is_video (pending_video d) = pending_video d /\
  List.filter is_audio (pending_video d) = [].
Proof. unfold pending_video, finish_video. case_match; [done|]. by case_match. Qed.
Lemma pending_audio_kind d : List.filter is_audio (pending_audio d) = pending_audio d /\
  List.filter is_video (pending_audio d) = [].
Proof. unfold pending_audio, finish_audio. case_match; [done|]. by case_match. Qed.

(** What is out plus what is still being assembled is what was before plus [ws]. *)
Definition delivered (d : TsDemuxer) (ws : list ts_write) (d' : TsDemuxer) (events : list ts_event)
    : Prop :=
  List.filter is_video events ++ pending_video d' = pending_video d ++ concat (map video_unit ws) /\
  List.filter is_audio events ++ pending_audio d' = pending_audio d ++ concat (map audio_unit ws).

Lemma delivered_cons d w d1 e1 ws d2 e2 :
  delivered d [w] d1 e1 -> delivered d1 ws d2 e2 -> delivered d (w :: ws) d2 (e1 ++ e2).
Proof.
  unfold delivered. cbn [map concat]. rewrite !app_nil_r. intros [V1 A1] [V2 A2].
  rewrite !List.filter_app, <- !app_assoc, V2, A2, !app_assoc, V1, A1. done.
Qed.

Lemma pending_of_video d es pts dts :
  video_handler_ d = true -> video_codec_ d = H264 -> es <> [] ->
  pending_video (set_video d (mkPesAssembly es pts dts true))
  = [VideoUnit es pts dts (contains_idr es)].
Proof.
  intros Hh Hc He. unfold pending_video, finish_video. cbn [set_video video_ has_data data negb orb].
  rewrite (proj2 (Z.eqb_neq (zlen es) 0)) by (intros H; by apply zlen_0_nil in H).
  cbn. by rewrite Hh, Hc.
Qed.
Lemma pending_of_audio d es pts :
  audio_handler_ d = true -> es <> [] ->
  pending_audio (set_audio d (mkPesAssembly es pts pts true)) = [AudioUnit es pts].
Proof.
  intros Hh He. unfold pending_audio, finish_audio. cbn [set_audio audio_ has_data data negb orb].
  rewrite (proj2 (Z.eqb_neq (zlen es) 0)) by (intros H; by apply zlen_0_nil in H).
  cbn. by rewrite Hh.
Qed.

Lemma pending_same d d' c : tuned c d -> tuned c d' -> 
  (video_ d' = video_ d -> pending_video d' = pending_video d) /\
  (audio_ d' = audio_ d -> pending_audio d' = pending_audio d).
Proof.
  intros (H1&H2&_&_&_&_&H3) (K1&K2&_&_&_&_&K3). unfold pending_video, pending_audio, finish_video, finish_audio.
  rewrite H1, H2, H3, K1, K2, K3. split; intros ->; by destruct (negb _ || _).
Qed.

Lemma pending_audio_set_video d a : pending_audio (set_video d a) = pending_audio d.
Proof. unfold pending_audio, finish_audio. cbn [set_video audio_ audio_handler_]. by case_match. Qed.
Lemma pending_video_set_audio d a : pending_video (set_audio d a) = pending_video d.
Proof.
  unfold pending_video, finish_video. cbn [set_audio video_ video_handler_ video_codec_].
  by case_match.
Qed.

Lemma flush_pending d : (flush d).2 = pending_video d ++ pending_audio d.
Proof.
  unfold flush, pending_video. destruct (finish_video d) as [d1 e1] eqn:Hv.
  assert (Ha : pending_audio d1 = pending_audio d).
  { unfold finish_video in Hv. destruct (negb _ || _); injection Hv as <- _; apply pending_audio_set_video. }
  rewrite <- Ha. unfold pending_audio. by destruct (finish_audio d1).
Qed.

Lemma wrote_demuxed m w ps m' d :
  valid_config (config_ m) -> wrote m w ps m' -> stamps_nonneg w -> tuned (config_ m) d ->
  1 <= program_number (config_ m) ->
  exists d' events, process_all d ps = Ok (d', events) /\ tuned (config_ m) d' /\
    delivered d [w] d' events.
Proof.
  intros Hc Hw Hs Hd Hn. destruct Hw as [|annexb pts dts key ps cc Hne Hp|adts pts ps cc Hne Hp].
  - destruct (tables_demuxed _ d (pat_cc_ m) (pmt_cc_ m) Hc Hn (or_intror Hd))
      as (d' & -> & Hd' & Hv & Ha).
    eexists _, _; split_and!; [done|done|]. destruct (pending_same d d' _ Hd Hd') as [Pv Pa].
    unfold delivered. cbn. by rewrite Pv, Pa, !app_nil_r.
  - destruct Hs as [Hs1 Hs2]. pose proof (video_demuxed _ d _ _ _ _ _ _ Hc Hd Hs1 Hs2 Hp) as H.
    eexists _, _; split_and!; [exact H|done|]. destruct (pending_video_kind d) as [K1 K2].
    unfold delivered. rewrite K1, K2, pending_of_video, pending_audio_set_video by (done || apply Hd).
    by rewrite !app_nil_r.
  - pose proof (audio_demuxed _ d _ _ _ _ _ Hc Hd Hs Hp) as H.
    eexists _, _; split_and!; [exact H|done|]. destruct (pending_audio_kind d) as [K1 K2].
    unfold delivered. rewrite K1, K2, pending_of_audio, pending_video_set_audio by (done || apply Hd).
    by rewrite !app_nil_r.
Qed.

Lemma wrote_config m w ps m' : wrote m w ps m' -> config_ m' = config_ m.
Proof. by destruct 1. Qed.

Lemma writes_demuxed ws : forall m out m' out' d,
  valid_muxer m -> 1 <= program_number (config_ m) -> Forall stamps_nonneg ws ->
  write_all m out ws = Ok (m', out') -> tuned (config_ m) d ->
  exists ps d' events, out' = out ++ concat ps /\ Forall transport_packet ps /\
    process_all d ps = Ok (d', events) /\ delivered d ws d' events.
Proof.
  induction ws as [|w ws IH]; intros m out m' out' d Hm Hn Hs; cbn [write_all].
  - intros [= <- <-] Hd. exists [], d, []. cbn. rewrite app_nil_r. split_and!; [done..|].
    unfold delivered. cbn. by rewrite !app_nil_r.
  - intros H Hd. res_inv H. destruct a as [m1 out1].
    apply write_one_Ok in Ha as (ps1 & Hw & ->). inversion Hs as [|? ? Hs1 Hs2]; subst.
    destruct (wrote_demuxed _ _ _ _ d (proj1 Hm) Hw Hs1 Hd Hn) as (d1 & e1 & Hp1 & Hd1 & Hv1).
    pose proof (wrote_config _ _ _ _ Hw) as Hcfg.
    destruct (wrote_counts _ _ _ _ Hm Hw) as [ (_ & Ht & _) Hm1].
    rewrite <- Hcfg in Hn, Hd1.
    destruct (IH m1 _ _ _ d1 Hm1 Hn Hs2 H Hd1) as (ps2 & d2 & e2 & -> & Ht2 & Hp2 & Hv2).
    exists (ps1 ++ ps2), d2, (e1 ++ e2). split_and!.
    + by rewrite concat_app, app_assoc.
    + by apply Forall_app.
    + rewrite (process_all_app _ _ _ _ _ Hp1), Hp2. done.
    + by eapply delivered_cons.
Qed.

(** The demuxer a client sets up, before any byte. *)
Definition listening : TsDemuxer := set_audio_handler (set_video_handler make_demuxer).

Lemma tables_first m out ws m' out' :
  valid_muxer m -> 1 <= program_number (config_ m) -> Forall stamps_nonneg ws ->
  write_all m out (Tables :: ws) = Ok (m', out') ->
  exists ps d' events, out' = out ++ concat ps /\ Forall transport_packet ps /\
    process_all listening ps = Ok (d', events) /\ delivered listening ws d' events.
Proof.
  intros Hm Hn Hs H. cbn [write_all] in H. res_inv H. destruct a as [m1 out1].
  apply write_one_Ok in Ha as (ps1 & Hw & ->).
  destruct (wrote_counts _ _ _ _ Hm Hw) as [ (_ & Ht & _) Hm1].
  pose proof (wrote_config _ _ _ _ Hw) as Hcfg. inversion Hw; subst.
  destruct (tables_demuxed _ listening (pat_cc_ m) (pmt_cc_ m) (proj1 Hm) Hn)
    as (d1 & Hp1 & Hd1 & Hv & Ha); [by left|].
  destruct (writes_demuxed ws _ _ _ _ d1 Hm1 Hn Hs H Hd1) as (ps2 & d2 & e2 & -> & Ht2 & Hp2 & Hv2).
  exists ([psi_packet 0 (pat_cc_ m) (pat_section (config_ m));
           psi_packet (pmt_pid (config_ m)) (pmt_cc_ m) (pmt_section (config_ m))] ++ ps2), d2, e2.
  split_and!; [by rewrite concat_app, app_assoc|by apply Forall_app| |].
  - by rewrite (process_all_app _ _ _ _ _ Hp1), Hp2.
  - unfold delivered in *. destruct Hv2 as [-> ->]. unfold pending_video, pending_audio, finish_video, finish_audio.
    by rewrite Hv, Ha.
Qed.

(** A fresh demultiplexer makes the units of [ws] of [data], whatever the reads. *)
Definition demuxes_to (data : list byte) (ws : list ts_write) : Prop :=
  forall reads, concat reads = data ->
  exists d events d' last,
    feed_all listening reads = Ok (d, events) /\ flush d = (d', last) /\
    List.filter is_video (events ++ last) = concat (map video_unit ws) /\
    List.filter is_audio (events ++ last) = concat (map audio_unit ws).

Lemma writes_demux m ws m' out :
  valid_muxer m -> 1 <= program_number (config_ m) -> Forall stamps_nonneg ws ->
  write_all m [] (Tables :: ws) = Ok (m', out) -> demuxes_to out ws.
Proof.
  intros Hm Hn Hs Hw reads Hr. destruct (tables_first m [] ws m' out Hm Hn Hs Hw)
    as (ps & d & events & -> & Ht & Hp & Hv). cbn [app] in Hr.
  exists d, events. destruct (flush d) as [d' last] eqn:Hf. exists d', last.
  assert (Hl : last = pending_video d ++ pending_audio d).
  { by rewrite <- flush_pending, Hf. }
  split_and!; [|done|..].
  - rewrite feed_all_concat, Hr by done. by apply feed_packets.
  - rewrite Hl, !List.filter_app, (proj1 (pending_video_kind d)), (proj2 (pending_audio_kind d)), app_nil_r.
    apply (proj1 Hv).
  - rewrite Hl, !List.filter_app, (proj2 (pending_video_kind d)), (proj1 (pending_audio_kind d)).
    apply (proj2 Hv).
Qed.


(** C22. A transport stream that starts with the program tables, whatever is written to it
    and however it is cut into reads, gives the demultiplexer back, for each kind of
    media and in order, exactly the access units that were written, byte for byte, with
    the key-frame flag recomputed from the bytes and the time stamps as [stamp] has them:
    unchanged below 2^30. *)
Theorem ts_roundtrip m ws m' out reads :
  valid_muxer m -> 1 <= program_number (config_ m) -> Forall stamps_nonneg ws ->
  write_all m [] (Tables :: ws) = Ok (m', out) -> concat reads = out ->
  exists d events d' last,
    feed_all listening reads = Ok (d, events) /\ flush d = (d', last) /\
    List.filter is_video (events ++ last) = concat (map video_unit ws) /\
    List.filter is_audio (events ++ last) = concat (map audio_unit ws).
Proof. intros Hm Hn Hs Hw Hr. exact (writes_demux m ws m' out Hm Hn Hs Hw reads Hr). Qed.

Lemma ts_roundtrip_witness : exists m' out d events d' last,
  write_all (make_muxer default_config) [] sample_writes = Ok (m', out) /\
  feed_all listening [take 200 out; drop 200 out] = Ok (d, events) /\
  flush d = (d', last) /\
  List.filter is_audio (events ++ last) = [AudioUnit [z2b 0xFF; z2b 0xF1] 9000].
Proof.
  destruct (write_all (make_muxer default_config) [] sample_writes) as [ [m' out]| | |] eqn:E;
    [|by vm_compute in E..].
  destruct (ts_roundtrip (make_muxer default_config) (tail sample_writes) m' out
    [take 200 out; drop 200 out]) as (d & events & d' & last & Hf & Hl & Hv & Ha).
  - exact default_muxer_valid.
  - cbn; lia.
  - repeat constructor; cbn; lia.
  - exact E.
  - cbn [concat]. rewrite app_nil_r. apply take_drop.
  - exists m', out, d, events, d', last. split_and!; [done|done|done|exact Ha].
Defined.

(** A time stamp through the multiplexer's field and the demultiplexer's reader of it. *)
Definition received_stamp (prefix v : Z) : Res Z := read_timestamp (push_timestamp [] prefix v).

(** A time stamp survives the multiplexer and a receiver exactly when it is below
    2^30 (3 hours 18 minutes at 90 kHz): above, [push_timestamp] writes bits 32..30 one
    place too low, into the marker bit. *)
Theorem timestamp_survives_below_2_30 prefix v :
  In prefix [1; 2; 3] -> 0 <= v < 2 ^ 33 ->
  (received_stamp prefix v = Ok v <-> v < 2 ^ 30).
Proof.
  intros Hp Hv. unfold received_stamp. rewrite pushed_timestamp_back by (done || lia). split.
  - intros [= H]. unfold stamp in H. rewrite Z.shiftr_div_pow2 in H by lia.
    Z.to_euclidean_division_equations; lia.
  - intros Hl. by rewrite stamp_small by lia.
Qed.

Lemma timestamp_survives_below_2_30_witness :
  In 2 [1; 2; 3] /\ 0 <= 2 ^ 30 < 2 ^ 33 /\ 
  ~ read_timestamp (push_timestamp [] 2 (2 ^ 30)) = Ok (2 ^ 30).
Proof.
  split_and!; [cbn; auto|lia|lia|].
  intros H. apply (timestamp_survives_below_2_30 2 (2 ^ 30)) in H; [lia|cbn; auto|lia].
Defined.
