(* ===== verification/BitReader.v ===== *)
(** media/bitstream/bit_reader.hpp: emulation-prevention bytes and the MSB-first bit
    reader of the parameter-set parsers.

    A member function of [BitReader] is a computation in the state monad [Bits] over
    the reader, with [Res] underneath; the parsers are written in its notation.
    [parses m bits a] (m reads [a] off [bits]) and [runs bad P m] (what m can come to on
    any input) are the two judgements the parsers are proved with. *)

From S2P Require Import Prelude Bytes Nal.

(** * Emulation prevention *)

Fixpoint unescape_loop (zeros : Z) (nal : list byte) : list byte :=
  match nal with
  | [] => []
  | b :: nal =>
      if (2 <=? zeros) && (b2z b =? 0x03) then unescape_loop 0 nal
      else b :: unescape_loop (if b2z b =? 0x00 then zeros + 1 else 0) nal
  end.
Definition unescape_rbsp (nal : list byte) : list byte := unescape_loop 0 nal.

(** * The reader *)

Record BitReader := mkBitReader {
  data_ : list byte;
  position_ : Z;
  overrun_ : bool
}.
Definition make_reader (data : list byte) : BitReader := mkBitReader data 0 false.
Definition bits_left (r : BitReader) : Z :=
  let total := zlen (data_ r) * 8 in
  if total <=? position_ r then 0 else total - position_ r.

Definition Bits (A : Type) : Type := BitReader -> Res (A * BitReader).
Definition bret {A} (a : A) : Bits A := fun r => Ok (a, r).
Definition bbind {A B} (m : Bits A) (f : A -> Bits B) : Bits B :=
  fun r => '(a, r) <- m r ;; f a r.
Definition bfail {A} (e : Error) : Bits A := fun _ => Err e.
Definition bres {A} (x : Res A) : Bits A := fun r => a <- x ;; Ok (a, r).

Declare Scope bits_scope.
Delimit Scope bits_scope with bits.
Notation "x <~ m ;; k" := (bbind m (fun x => k))
  (at level 100, m at next level, right associativity) : bits_scope.
Notation "m >>> k" := (bbind m (fun _ => k))
  (at level 100, right associativity) : bits_scope.
#[global] Open Scope bits_scope.

Definition overrun : Bits bool := fun r => Ok (overrun_ r, r).
Definition set_overrun : Bits unit := fun r => Ok (tt, mkBitReader (data_ r) (position_ r) true).

Definition bit : Bits Z := fun r =>
  if zlen (data_ r) * 8 <=? position_ r then
    Ok (0, mkBitReader (data_ r) (position_ r) true)
  else
    let index := Z.shiftr (position_ r) 3 in
    let shift := 7 - Z.land (position_ r) 7 in
    b <- u8_at (data_ r) index ;;
    Ok (Z.land (Z.shiftr b shift) 1, mkBitReader (data_ r) (position_ r + 1) (overrun_ r)).

Fixpoint u_loop (count : nat) (value : Z) : Bits Z :=
  match count with
  | O => bret value
  | S count => b <~ bit ;; u_loop count (Z.lor (u32 (Z.shiftl value 1)) b)
  end.
Definition u (count : Z) : Bits Z := u_loop (Z.to_nat count) 0.

Definition flag : Bits bool := b <~ bit ;; bret (negb (b =? 0)).

(** The loop of [ue]: [budget] is what is left of the cap of 32. *)
Fixpoint leading_zeros (budget : nat) (zeros : Z) : Bits Z :=
  match budget with
  | O => bret zeros
  | S budget =>
      b <~ bit ;; o <~ overrun ;;
      if (b =? 0) && negb o then leading_zeros budget (zeros + 1) else bret zeros
  end.
Definition ue : Bits Z :=
  zeros <~ leading_zeros 32 0 ;;
  o <~ overrun ;;
  if (32 <=? zeros) || o then set_overrun >>> bret 0 else
  tail <~ u zeros ;;
  bret (u32 (u32 (u32 (Z.shiftl 1 zeros) - 1) + tail)).

Definition se : Bits Z :=
  code <~ ue ;;
  let magnitude := u32 (code + 1) / 2 in
  bret (if code mod 2 =? 0 then - magnitude else magnitude).

Fixpoint skip_loop (count : nat) : Bits unit :=
  match count with
  | O => bret tt
  | S count => _ <~ bit ;; skip_loop count
  end.
Definition skip (count : Z) : Bits unit := skip_loop (Z.to_nat count).

(** * The bits of a buffer *)

Definition byte_bits (b : byte) : list bool :=
  map (Z.testbit (b2z b)) [7; 6; 5; 4; 3; 2; 1; 0].
Definition bits_of (data : list byte) : list bool := concat (map byte_bits data).

(** [reads r l]: the reader stands, in good order, before the bits [l]. *)
Definition reads (r : BitReader) (l : list bool) : Prop :=
  overrun_ r = false /\ 0 <= position_ r <= zlen (data_ r) * 8 /\
  drop (Z.to_nat (position_ r)) (bits_of (data_ r)) = l.

Definition parses {A} (m : Bits A) (bits : list bool) (a : A) : Prop :=
  forall r l, reads r (bits ++ l) -> exists r', m r = Ok (a, r') /\ reads r' l.

(** [runs bad P m]: from any reader, [m] comes to a value in [P], a protocol error, or,
    where [bad], an undefined operation. *)
Definition runs {A} (bad : Prop) (P : A -> Prop) (m : Bits A) : Prop :=
  forall r, 0 <= position_ r ->
  match m r with
  | Ok (a, r') => P a /\ 0 <= position_ r'
  | Err e => is_malformed e
  | Fault => bad
  | OutOfFuel => False
  end.

(** Syntax elements as bits. *)
Fixpoint fixed_bits (count : nat) (v : Z) : list bool :=
  match count with
  | O => []
  | S count => Z.testbit v (Z.of_nat count) :: fixed_bits count v
  end.
Definition ue_bits (v : Z) : list bool :=
  let k := Z.to_nat (Z.log2 (v + 1)) in
  replicate k false ++ true :: fixed_bits k (v + 1).
Definition se_code (v : Z) : Z := if 0 <? v then 2 * v - 1 else - 2 * v.
Definition se_bits (v : Z) : list bool := ue_bits (se_code v).

(** [escape_rbsp] is what an encoder does: it puts 0x03 before any byte up to 0x03 that
    follows two zero bytes. *)
Fixpoint escape_loop (zeros : Z) (rbsp : list byte) : list byte :=
  match rbsp with
  | [] => []
  | b :: rbsp =>
      if (2 <=? zeros) && (b2z b <=? 0x03) then
        z2b 0x03 :: b :: escape_loop (if b2z b =? 0x00 then 1 else 0) rbsp
      else b :: escape_loop (if b2z b =? 0x00 then zeros + 1 else 0) rbsp
  end.
Definition escape_rbsp (rbsp : list byte) : list byte := escape_loop 0 rbsp.

(** * Lemmas: emulation prevention *)

Lemma unescape_escape rbsp zeros :
  0 <= zeros -> unescape_loop zeros (escape_loop zeros rbsp) = rbsp.
Proof.
  revert zeros. induction rbsp as [|b rbsp IH]; intros zeros Hz; [done|]. cbn [escape_loop].
  destruct ((2 <=? zeros) && (b2z b <=? 3)) eqn:E; cbn [unescape_loop].
  - apply andb_prop in E as [E1 E2]. rewrite E1. cbn [andb].
    replace (b2z (z2b 3) =? 3) with true by done. cbn [andb].
    replace ((2 <=? 0) && (b2z b =? 3)) with false by done. f_equal.
    destruct (b2z b =? 0); by apply IH.
  - assert (Hn : (2 <=? zeros) && (b2z b =? 3) = false).
    { destruct (2 <=? zeros); cbn [andb] in *; [|done]. apply Z.leb_gt in E. apply Z.eqb_neq. lia. }
    rewrite Hn. f_equal. apply IH. destruct (b2z b =? 0); lia.
Qed.

(** ** Bits *)

Lemma length_byte_bits b : length (byte_bits b) = 8%nat.
Proof. done. Qed.

Lemma length_bits_of data : length (bits_of data) = (8 * length data)%nat.
Proof.
  induction data as [|b data IH]; [done|]. unfold bits_of in *. cbn [map concat length].
  rewrite length_app, IH, length_byte_bits. lia.
Qed.

Lemma lookup_bits_of data : forall i j b,
  data !! i = Some b -> (j < 8)%nat ->
  bits_of data !! (8 * i + j)%nat = Some (Z.testbit (b2z b) (7 - Z.of_nat j)).
Proof.
  induction data as [|a data IH]; intros [|i] j b Hi Hj; try done.
  - injection Hi as ->. unfold bits_of. cbn [map concat].
    rewrite lookup_app_l by (rewrite length_byte_bits; lia).
    do 8 (destruct j as [|j]; [done|]). lia.
  - cbn in Hi. unfold bits_of. cbn [map concat].
    rewrite lookup_app_r by (rewrite length_byte_bits; lia). rewrite length_byte_bits.
    replace (8 * S i + j - 8)%nat with (8 * i + j)%nat by lia. by apply IH.
Qed.

Lemma bit_of_byte v s : 0 <= s -> Z.land (Z.shiftr v s) 1 = Z.b2z (Z.testbit v s).
Proof.
  intros Hs. change 1 with (2 ^ 1 - 1). rewrite land_ones_mod by lia. change (2 ^ 1) with 2.
  by rewrite <- Z.bit0_mod, Z.shiftr_spec, Z.add_0_l by lia.
Qed.

Lemma bit_in_range r :
  0 <= position_ r < zlen (data_ r) * 8 ->
  exists b, bits_of (data_ r) !! Z.to_nat (position_ r) = Some b /\
    bit r = Ok (Z.b2z b, mkBitReader (data_ r) (position_ r + 1) (overrun_ r)).
Proof.
  intros Hp. unfold bit. rewrite (proj2 (Z.leb_gt _ _)) by lia.
  set (p := position_ r) in *. assert (Hi : Z.shiftr p 3 = p / 8) by (by rewrite Z.shiftr_div_pow2 by lia).
  assert (Hj : Z.land p 7 = p mod 8) by (change 7 with (2 ^ 3 - 1); by rewrite land_ones_mod by lia).
  rewrite Hi, Hj. assert (Hr : 0 <= p / 8 < zlen (data_ r) /\ 0 <= p mod 8 < 8)
    by (Z.to_euclidean_division_equations; lia).
  unfold u8_at. destruct (byte_at_Ok (data_ r) (p / 8)) as [b Hb]; [lia|]. rewrite Hb. cbn [rbind].
  assert (Hd : data_ r !! Z.to_nat (p / 8) = Some b).
  { unfold byte_at in Hb. rewrite (proj2 (Z.leb_le 0 _)) in Hb by lia.
    destruct (data_ r !! Z.to_nat (p / 8)); congruence. }
  exists (Z.testbit (b2z b) (7 - p mod 8)). rewrite bit_of_byte by lia. split; [|done].
  replace (Z.to_nat p) with (8 * Z.to_nat (p / 8) + Z.to_nat (p mod 8))%nat
    by (Z.to_euclidean_division_equations; lia).
  rewrite (lookup_bits_of _ _ _ b) by (done || lia). do 2 f_equal. lia.
Qed.

Lemma reads_make data : reads (make_reader data) (bits_of data).
Proof. split_and!; [done|cbn; lia|cbn; zlia|done]. Qed.

(** * [parses] *)

Lemma parses_bret {A} (a : A) : parses (bret a) [] a.
Proof. intros r l H. by exists r. Qed.

Lemma parses_bind {A B} (m : Bits A) (f : A -> Bits B) b1 b2 a c :
  parses m b1 a -> parses (f a) b2 c -> parses (bbind m f) (b1 ++ b2) c.
Proof.
  intros Hm Hf r l Hr. rewrite <- app_assoc in Hr.
  destruct (Hm r _ Hr) as (r1 & H1 & Hr1). destruct (Hf r1 _ Hr1) as (r2 & H2 & Hr2).
  exists r2. unfold bbind. by rewrite H1.
Qed.

(** A last step that reads nothing. *)
Lemma parses_bind_ret {A B} (m : Bits A) (f : A -> Bits B) b1 a c :
  parses m b1 a -> parses (f a) [] c -> parses (bbind m f) b1 c.
Proof. intros Hm Hf. rewrite <- (app_nil_r b1). by eapply parses_bind. Qed.

Lemma parses_overrun : parses overrun [] false.
Proof. intros r l Hr. exists r. split; [|done]. unfold overrun. by destruct Hr as [-> _]. Qed.

Lemma parses_bit b : parses bit [b] (Z.b2z b).
Proof.
  intros r l (Ho & Hp & Hd). cbn [app] in Hd.
  assert (Hlt : position_ r < zlen (data_ r) * 8).
  { destruct (Z.lt_ge_cases (position_ r) (zlen (data_ r) * 8)); [done|].
    rewrite drop_ge in Hd; [done|]. rewrite length_bits_of. unfold zlen in *. lia. }
  destruct (bit_in_range r) as (b' & Hb & ->); [lia|].
  rewrite <- (Nat.add_0_r (Z.to_nat _)), <- lookup_drop, Hd in Hb. injection Hb as ->.
  eexists; split; [done|]. split_and!; [done|cbn; lia|cbn; lia|]. cbn [position_ data_].
  rewrite Z2Nat.inj_add, <- drop_drop, Hd by lia. done.
Qed.

Lemma parses_u_loop count : forall v acc,
  0 <= acc -> (acc + 1) * 2 ^ Z.of_nat count <= 2 ^ 32 ->
  parses (u_loop count acc) (fixed_bits count v)
    (acc * 2 ^ Z.of_nat count + v mod 2 ^ Z.of_nat count).
Proof.
  induction count as [|count IH]; intros v acc Ha Hb; cbn [u_loop fixed_bits].
  - rewrite Z.mod_1_r, Z.add_0_r, Z.mul_1_r. apply parses_bret.
  - rewrite Nat2Z.inj_succ, Z.pow_succ_r in * by lia.
    pose proof (Z.pow_pos_nonneg 2 (Z.of_nat count) ltac:(lia) ltac:(lia)) as Hpos.
    apply (parses_bind _ _ [_] _ _ _ (parses_bit _)).
    set (b := Z.b2z (Z.testbit v (Z.of_nat count))).
    assert (Hbit : 0 <= b <= 1) by (subst b; destruct (Z.testbit _ _); cbn; lia).
    assert (Hacc : Z.lor (u32 (Z.shiftl acc 1)) b = acc * 2 + b).
    { unfold u32. rewrite Z.shiftl_mul_pow2 by lia. change (2 ^ 1) with 2.
      rewrite Z.mod_small by nia. change (acc * 2) with (acc * 2 ^ 1) at 1.
      by rewrite (lor_mult_add acc b 1) by lia. }
    rewrite Hacc. replace (acc * (2 * 2 ^ Z.of_nat count) + v mod (2 * 2 ^ Z.of_nat count))
      with ((acc * 2 + b) * 2 ^ Z.of_nat count + v mod 2 ^ Z.of_nat count).
    { apply IH; [lia|nia]. }
    assert (Hv : v mod (2 * 2 ^ Z.of_nat count) = b * 2 ^ Z.of_nat count + v mod 2 ^ Z.of_nat count).
    { rewrite (Z.mul_comm 2), Z.rem_mul_r by lia. subst b.
      rewrite Z.testbit_spec' by lia. lia. }
    rewrite Hv. lia.
Qed.

Lemma parses_u count v :
  0 <= count <= 32 -> 0 <= v < 2 ^ count -> parses (u count) (fixed_bits (Z.to_nat count) v) v.
Proof.
  intros Hc Hv. pose proof (parses_u_loop (Z.to_nat count) v 0) as H.
  rewrite Z2Nat.id, Z.mod_small in H by lia. rewrite Z.mul_0_l, Z.add_0_l in H.
  apply H; [lia|]. pose proof (Z.pow_le_mono_r 2 count 32). lia.
Qed.

Lemma parses_flag b : parses flag [b] b.
Proof.
  apply (parses_bind_ret _ _ _ _ _ (parses_bit b)). destruct b; apply parses_bret.
Qed.

Lemma parses_skip_loop bits : parses (skip_loop (length bits)) bits tt.
Proof.
  induction bits as [|b bits IH]; [apply parses_bret|].
  by apply (parses_bind _ _ [b] _ _ _ (parses_bit b)).
Qed.

Lemma parses_skip count bits : Z.of_nat (length bits) = count -> parses (skip count) bits tt.
Proof. intros <-. unfold skip. rewrite Nat2Z.id. apply parses_skip_loop. Qed.

Lemma parses_leading_zeros k budget z :
  (k < budget)%nat ->
  parses (leading_zeros budget z) (replicate k false ++ [true]) (z + Z.of_nat k).
Proof.
  revert budget z. induction k as [|k IH]; intros [|budget] z Hk; try lia; cbn [leading_zeros replicate app].
  - apply (parses_bind_ret _ _ _ _ _ (parses_bit true)), (parses_bind_ret _ _ _ _ _ parses_overrun).
    cbn. rewrite Z.add_0_r. apply parses_bret.
  - apply (parses_bind _ _ [false] _ _ _ (parses_bit false)).
    apply (parses_bind _ _ [] _ _ _ parses_overrun). cbn [Z.b2z Z.eqb negb andb].
    replace (z + Z.of_nat (S k)) with (z + 1 + Z.of_nat k) by lia. apply IH. lia.
Qed.

Lemma fixed_bits_mod k v : 0 <= v -> fixed_bits k (v mod 2 ^ Z.of_nat k) = fixed_bits k v.
Proof.
  intros Hv. assert (H : forall j, (j <= k)%nat -> fixed_bits j (v mod 2 ^ Z.of_nat k) = fixed_bits j v).
  { induction j as [|j IH]; intros Hj; [done|]. cbn [fixed_bits].
    rewrite IH by lia. by rewrite Z.mod_pow2_bits_low by lia. }
  by apply H.
Qed.

(** Every unsigned Exp-Golomb code below the 32-bit limit is read back. *)
Lemma parses_ue v : 0 <= v < 2 ^ 32 - 1 -> parses ue (ue_bits v) v.
Proof.
  intros Hv. unfold ue, ue_bits. set (k := Z.log2 (v + 1)).
  assert (Hk0 : 0 <= k) by apply Z.log2_nonneg.
  assert (Hk : 2 ^ k <= v + 1 < 2 ^ (k + 1)) by (apply Z.log2_spec; lia).
  assert (Hk32 : k < 32) by (apply Z.log2_lt_pow2; lia).
  change (true :: ?x) with ([true] ++ x). rewrite app_assoc.
  eapply parses_bind; [apply parses_leading_zeros; lia|].
  eapply (parses_bind _ _ []); [apply parses_overrun|].
  rewrite Z.add_0_l, Z2Nat.id by lia. rewrite (proj2 (Z.leb_gt 32 k)) by lia. cbn [orb].
  rewrite Z.pow_add_r in Hk by lia. change (2 ^ 1) with 2 in Hk.
  apply (parses_bind_ret _ _ _ ((v + 1) mod 2 ^ k)).
  - rewrite <- (fixed_bits_mod _ (v + 1)) by lia. rewrite Z2Nat.id by lia.
    apply parses_u; [lia|]. apply Z.mod_pos_bound. lia.
  - assert (Hm : (v + 1) mod 2 ^ k = v + 1 - 2 ^ k).
    { symmetry. apply (Z.mod_unique _ _ 1); lia. }
    rewrite Hm, Z.shiftl_1_l. unfold u32. rewrite (Z.mod_small (2 ^ k)) by lia.
    rewrite (Z.mod_small (2 ^ k - 1)), Z.mod_small by lia.
    replace (2 ^ k - 1 + (v + 1 - 2 ^ k)) with v by lia. apply parses_bret.
Qed.

Lemma parses_se v : - (2 ^ 31 - 1) < v < 2 ^ 31 -> parses se (se_bits v) v.
Proof.
  intros Hv. unfold se, se_bits, se_code.
  eapply parses_bind_ret; [apply parses_ue; destruct (0 <? v) eqn:E; lia|].
  unfold u32. destruct (Z.ltb_spec 0 v).
  - rewrite (Z.mod_small (2 * v - 1 + 1)) by lia.
    rewrite (proj2 (Z.eqb_neq ((2 * v - 1) mod 2) 0)) by (Z.to_euclidean_division_equations; lia).
    replace ((2 * v - 1 + 1) / 2) with v by (Z.to_euclidean_division_equations; lia). apply parses_bret.
  - rewrite (Z.mod_small (-2 * v + 1)) by lia.
    rewrite (proj2 (Z.eqb_eq ((-2 * v) mod 2) 0)) by (Z.to_euclidean_division_equations; lia).
    replace (- ((-2 * v + 1) / 2)) with v by (Z.to_euclidean_division_equations; lia). apply parses_bret.
Qed.

(** * [runs] *)

Definition any {A} (_ : A) : Prop := True.

Lemma runs_bret {A} bad (P : A -> Prop) a : P a -> runs bad P (bret a).
Proof. by intros Ha r Hr. Qed.
Lemma runs_fail {A} bad (P : A -> Prop) e : is_malformed e -> runs bad P (bfail e).
Proof. by intros He r Hr. Qed.
Lemma runs_bind {A B} bad (Q : A -> Prop) (P : B -> Prop) m f :
  runs bad Q m -> (forall a, Q a -> runs bad P (f a)) -> runs bad P (bbind m f).
Proof.
  intros Hm Hf r Hr. unfold bbind. specialize (Hm r Hr).
  destruct (m r) as [ [a r']|e| |]; cbn [rbind]; try done.
  destruct Hm as [Ha Hr']. by apply Hf.
Qed.
Lemma runs_weaken {A} (bad bad' : Prop) (P Q : A -> Prop) m :
  runs bad P m -> (bad -> bad') -> (forall a, P a -> Q a) -> runs bad' Q m.
Proof.
  intros Hm Hb Hq r Hr. specialize (Hm r Hr). destruct (m r) as [ [a r']| | |]; auto.
  destruct Hm; auto.
Qed.
Lemma runs_if {A} bad (P : A -> Prop) (c : bool) m1 m2 :
  runs bad P m1 -> runs bad P m2 -> runs bad P (if c then m1 else m2).
Proof. by destruct c. Qed.

Definition u32_value (v : Z) : Prop := 0 <= v < 2 ^ 32.

Lemma u32_is_value v : u32_value (u32 v).
Proof. apply Z.mod_pos_bound. lia. Qed.
#[export] Hint Resolve u32_is_value : rtmp.

Section Runs.
Context (bad : Prop).

Lemma runs_overrun : runs bad any overrun.
Proof. by intros r Hr. Qed.
Lemma runs_set_overrun : runs bad any set_overrun.
Proof. by intros r Hr. Qed.

Lemma runs_bit : runs bad (fun b => 0 <= b <= 1) bit.
Proof.
  intros r Hr. destruct (Z.lt_ge_cases (position_ r) (zlen (data_ r) * 8)).
  - destruct (bit_in_range r) as (b & _ & ->); [lia|]. cbn [position_]. destruct b; cbn; lia.
  - unfold bit. rewrite (proj2 (Z.leb_le _ _)) by lia. cbn. lia.
Qed.

Lemma runs_u_loop count : forall value,
  u32_value value -> runs bad u32_value (u_loop count value).
Proof.
  induction count as [|count IH]; intros value Hv; [by apply runs_bret|].
  eapply runs_bind; [apply runs_bit|intros b Hb]. apply IH.
  unfold u32_value, u32. rewrite Z.shiftl_mul_pow2 by lia. change (2 ^ 1) with 2.
  assert (Hm : (value * 2) mod 2 ^ 32 = ((value mod 2 ^ 31) * 2) /\ 0 <= value mod 2 ^ 31 < 2 ^ 31).
  { Z.to_euclidean_division_equations. lia. }
  destruct Hm as [-> Hm]. cbn beta in Hb.
  pose proof (lor_mult_add (value mod 2 ^ 31) b 1) as Hl. change (2 ^ 1) with 2 in Hl.
  rewrite Hl by lia. lia.
Qed.
Lemma runs_u count : runs bad u32_value (u count).
Proof. apply runs_u_loop. unfold u32_value. lia. Qed.

Lemma runs_flag : runs bad any flag.
Proof. eapply runs_bind; [apply runs_bit|intros b _]. by apply runs_bret. Qed.

Lemma runs_leading_zeros budget z : runs bad any (leading_zeros budget z).
Proof.
  revert z. induction budget as [|budget IH]; intros z; [by apply runs_bret|].
  eapply runs_bind; [apply runs_bit|intros b _].
  eapply runs_bind; [apply runs_overrun|intros o _].
  apply runs_if; [apply IH|by apply runs_bret].
Qed.

Lemma runs_ue : runs bad u32_value ue.
Proof.
  eapply runs_bind; [apply runs_leading_zeros|intros z _].
  eapply runs_bind; [apply runs_overrun|intros o _]. apply runs_if.
  - eapply runs_bind; [apply runs_set_overrun|intros _ _]. apply runs_bret. unfold u32_value. lia.
  - eapply runs_bind; [apply runs_u|intros t _]. apply runs_bret. auto with rtmp.
Qed.

Lemma runs_se : runs bad (fun v => - 2 ^ 31 < v < 2 ^ 31) se.
Proof.
  eapply runs_bind; [apply runs_ue|intros code Hc]. apply runs_bret.
  unfold u32_value, u32 in *. destruct (_ =? 0); Z.to_euclidean_division_equations; lia.
Qed.

Lemma runs_skip count : runs bad any (skip count).
Proof.
  unfold skip. induction (Z.to_nat count) as [|n IH]; [by apply runs_bret|].
  eapply runs_bind; [apply runs_bit|intros b _]. exact IH.
Qed.
End Runs.

Create HintDb bits.
#[export] Hint Resolve runs_overrun runs_u runs_flag runs_ue runs_skip runs_se runs_bit : bits.

(** [run v]: step over the next element of a parser, naming what it read. *)
Tactic Notation "run" simple_intropattern(v) simple_intropattern(H) :=
  eapply runs_bind; [solve [eauto with bits]|intros v H].
