(* ===== verification/H264Sps.v ===== *)
(** media/h264/sps.cpp: the picture size of an H.264 sequence parameter set.  The reader
    calls are made in the order of the source, in the monad of BitReader.v;
    [geometry] is what follows them.  The arithmetic of the scaling lists is on
    [std::int32_t], where an overflow is undefined: [add_i32] is [Fault] there. *)

From S2P Require Import Prelude Bytes Nal Avc BitReader.

Record VideoDimensions := mkVideoDimensions { width : Z; height : Z }.

Definition has_chroma_block (profile_idc : Z) : bool :=
  existsb (Z.eqb profile_idc) [100; 110; 122; 244; 44; 83; 86; 118; 128; 138; 139; 134; 135].

Definition add_i32 (a b : Z) : Res Z :=
  if (- 2 ^ 31 <=? a + b) && (a + b <? 2 ^ 31) then Ok (a + b) else Fault.

Fixpoint scaling_loop (size : nat) (last_scale next_scale : Z) : Bits unit :=
  match size with
  | O => bret tt
  | S size =>
      o <~ overrun ;;
      if o then bret tt else
      next_scale <~
        (if negb (next_scale =? 0) then
           delta <~ se ;;
           s <~ bres (add_i32 last_scale delta) ;;
           s <~ bres (add_i32 s 256) ;;
           bret (Z.rem s 256)
         else bret next_scale) ;;
      scaling_loop size (if next_scale =? 0 then last_scale else next_scale) next_scale
  end.
Definition skip_scaling_list (size : nat) : Bits unit := scaling_loop size 8 8.

(** The loop over [list_count] scaling lists, from list [i] on. *)
Fixpoint scaling_lists (count : nat) (i : Z) : Bits unit :=
  match count with
  | O => bret tt
  | S count =>
      o <~ overrun ;;
      if o then bret tt else
      present <~ flag ;;
      (if present then skip_scaling_list (if i <? 6 then 16 else 64) else bret tt) >>>
      scaling_lists count (i + 1)
  end.

(** The block of the high profiles; the value is [chroma_format_idc]. *)
Definition chroma_block (profile_idc : Z) : Bits Z :=
  if has_chroma_block profile_idc then
    chroma_format_idc <~ ue ;;
    (if chroma_format_idc =? 3 then skip 1 else bret tt) >>>
    ue >>> ue >>> skip 1 >>>
    (present <~ flag ;;
     if present then scaling_lists (if negb (chroma_format_idc =? 3) then 8 else 12) 0
     else bret tt) >>>
    bret chroma_format_idc
  else bret 1.

Fixpoint cycle_loop (n : nat) : Bits unit :=
  match n with
  | O => bret tt
  | S n => o <~ overrun ;; if o then bret tt else se >>> cycle_loop n
  end.

Definition pic_order_cnt : Bits unit :=
  pic_order_cnt_type <~ ue ;;
  if pic_order_cnt_type =? 0 then ue >>> bret tt
  else if pic_order_cnt_type =? 1 then
    skip 1 >>> se >>> se >>>
    cycle_length <~ ue ;;
    cycle_loop (Z.to_nat (Z.min cycle_length 256))
  else bret tt.

Definition cropping : Bits (Z * Z * Z * Z) :=
  present <~ flag ;;
  if present then
    crop_left <~ ue ;; crop_right <~ ue ;; crop_top <~ ue ;; crop_bottom <~ ue ;;
    bret (crop_left, crop_right, crop_top, crop_bottom)
  else bret (0, 0, 0, 0).

(** What the reader calls leave in the local variables. *)
Record SpsFields := mkSpsFields {
  chroma_format_idc : Z;
  width_in_mbs : Z;
  height_in_map_units : Z;
  frame_mbs_only : bool;
  crop : Z * Z * Z * Z
}.

Definition read_after_profile (profile_idc : Z) : Bits SpsFields :=
  skip 8 >>> skip 8 >>> ue >>>
  chroma_format_idc <~ chroma_block profile_idc ;;
  ue >>>
  pic_order_cnt >>>
  ue >>> skip 1 >>>
  w <~ ue ;;
  h <~ ue ;;
  frame_mbs_only <~ flag ;;
  (if negb frame_mbs_only then skip 1 else bret tt) >>>
  skip 1 >>>
  crop <~ cropping ;;
  bret (mkSpsFields chroma_format_idc (u32 (w + 1)) (u32 (h + 1)) frame_mbs_only crop).
Definition read_sps : Bits SpsFields := profile_idc <~ u 8 ;; read_after_profile profile_idc.

Definition sub_width_c (chroma_format_idc : Z) : Z :=
  if chroma_format_idc =? 1 then 2 else if chroma_format_idc =? 2 then 2 else 1.
Definition sub_height_c (chroma_format_idc : Z) : Z :=
  if chroma_format_idc =? 1 then 2 else 1.

Definition geometry (f : SpsFields) : Res VideoDimensions :=
  let '(crop_left, crop_right, crop_top, crop_bottom) := crop f in
  let crop_unit_x := sub_width_c (chroma_format_idc f) in
  let crop_unit_y := sub_height_c (chroma_format_idc f) * (if frame_mbs_only f then 1 else 2) in
  let coded_width := u64 (width_in_mbs f * 16) in
  let coded_height := u64 (height_in_map_units f * 16 * (if frame_mbs_only f then 1 else 2)) in
  let cropped_x := u64 (crop_unit_x * u32 (crop_left + crop_right)) in
  let cropped_y := u64 (crop_unit_y * u32 (crop_top + crop_bottom)) in
  if (coded_width <=? cropped_x) || (coded_height <=? cropped_y) then
    Err (malformed "H.264 SPS cropping window exceeds the coded picture")
  else Ok (mkVideoDimensions (u32 (coded_width - cropped_x)) (u32 (coded_height - cropped_y))).

Definition parse_sps_dimensions (sps_nal : list byte) : Res VideoDimensions :=
  if zlen sps_nal =? 0 then Err (malformed "empty H.264 SPS NAL") else
  b0 <- u8_at sps_nal 0 ;;
  if negb (Z.land b0 0x1F =? kNalTypeSps) then Err (malformed "NAL unit is not an H.264 SPS") else
  rest <- subspan_from sps_nal 1 ;;
  '(fields, reader) <- read_sps (make_reader (unescape_rbsp rest)) ;;
  if overrun_ reader then Err (malformed "truncated H.264 SPS") else
  geometry fields.

Definition parse_dimensions (config : AvcDecoderConfig) : Res VideoDimensions :=
  match sps config with
  | [] => Err (malformed "AVC decoder config carries no SPS")
  | nal :: _ => parse_sps_dimensions nal
  end.

(** * The syntax of a sequence parameter set *)

(** The high-profile block; a scaling list is absent or the deltas it is coded with. *)
Record ChromaSyntax := mkChromaSyntax {
  cs_format : Z;
  cs_separate_planes : bool;
  cs_depth_luma : Z;
  cs_depth_chroma : Z;
  cs_bypass : bool;
  cs_scaling : option (list (option (list Z)))
}.
Inductive PocSyntax :=
| Poc0 (log2_max_lsb : Z)
| Poc1 (always_zero : bool) (non_ref top_bottom : Z) (cycle : list Z)
| Poc2 (poc_type : Z).

Record SpsSyntax := mkSpsSyntax {
  s_profile : Z;
  s_flags : Z;
  s_level : Z;
  s_id : Z;
  s_chroma : option ChromaSyntax;
  s_frame_num : Z;
  s_poc : PocSyntax;
  s_ref_frames : Z;
  s_gaps : bool;
  s_width_minus1 : Z;
  s_height_minus1 : Z;
  s_frame_mbs_only : bool;
  s_adaptive : bool;
  s_direct8x8 : bool;
  s_crop : option (Z * Z * Z * Z)
}.

Definition opt_bits {A} (f : A -> list bool) (o : option A) : list bool :=
  match o with Some a => true :: f a | None => [false] end.

Definition scaling_bits (l : list (option (list Z))) : list bool :=
  concat (map (opt_bits (fun deltas => concat (map se_bits deltas))) l).
Definition chroma_bits (c : ChromaSyntax) : list bool :=
  ue_bits (cs_format c) ++ (if cs_format c =? 3 then [cs_separate_planes c] else []) ++
  ue_bits (cs_depth_luma c) ++ ue_bits (cs_depth_chroma c) ++ [cs_bypass c] ++
  opt_bits scaling_bits (cs_scaling c).
Definition poc_bits (p : PocSyntax) : list bool :=
  match p with
  | Poc0 v => ue_bits 0 ++ ue_bits v
  | Poc1 z a b cycle =>
      ue_bits 1 ++ [z] ++ se_bits a ++ se_bits b ++ ue_bits (zlen cycle) ++ concat (map se_bits cycle)
  | Poc2 t => ue_bits t
  end.
Definition crop_bits (c : Z * Z * Z * Z) : list bool :=
  let '(l, r, t, b) := c in ue_bits l ++ ue_bits r ++ ue_bits t ++ ue_bits b.
Definition sps_bits (s : SpsSyntax) : list bool :=
  fixed_bits 8 (s_profile s) ++ fixed_bits 8 (s_flags s) ++ fixed_bits 8 (s_level s) ++
  ue_bits (s_id s) ++ match s_chroma s with Some c => chroma_bits c | None => [] end ++
  ue_bits (s_frame_num s) ++ poc_bits (s_poc s) ++ ue_bits (s_ref_frames s) ++ [s_gaps s] ++
  ue_bits (s_width_minus1 s) ++ ue_bits (s_height_minus1 s) ++ [s_frame_mbs_only s] ++
  (if s_frame_mbs_only s then [] else [s_adaptive s]) ++ [s_direct8x8 s] ++
  opt_bits crop_bits (s_crop s).

(** ** Well-formed syntax *)

Definition ue_ok (v : Z) : Prop := 0 <= v < 2 ^ 32 - 1.
Definition se_ok (v : Z) : Prop := - 2 ^ 30 < v < 2 ^ 30.

(** The deltas are exactly those the decoder consumes for a list of [size] entries. *)
Fixpoint scaling_deltas (size : nat) (last next : Z) (deltas : list Z) : Prop :=
  match size with
  | O => deltas = []
  | S size =>
      if next =? 0 then scaling_deltas size last 0 deltas
      else match deltas with
           | [] => False
           | d :: deltas =>
               se_ok d /\
               let next := Z.rem (last + d + 256) 256 in
               scaling_deltas size (if next =? 0 then last else next) next deltas
           end
  end.

Fixpoint scaling_ok (i : Z) (l : list (option (list Z))) : Prop :=
  match l with
  | [] => True
  | o :: l =>
      match o with
      | Some deltas => scaling_deltas (if i <? 6 then 16 else 64) 8 8 deltas
      | None => True
      end /\ scaling_ok (i + 1) l
  end.
Definition chroma_ok (c : ChromaSyntax) : Prop :=
  ue_ok (cs_format c) /\ ue_ok (cs_depth_luma c) /\ ue_ok (cs_depth_chroma c) /\
  match cs_scaling c with
  | Some l => length l = (if negb (cs_format c =? 3) then 8%nat else 12%nat) /\ scaling_ok 0 l
  | None => True
  end.
Definition poc_ok (p : PocSyntax) : Prop :=
  match p with
  | Poc0 v => ue_ok v
  | Poc1 _ a b cycle => se_ok a /\ se_ok b /\ zlen cycle < 256 /\ Forall se_ok cycle
  | Poc2 t => ue_ok t /\ 2 <= t
  end.
Definition crop_ok (c : Z * Z * Z * Z) : Prop :=
  let '(l, r, t, b) := c in ue_ok l /\ ue_ok r /\ ue_ok t /\ ue_ok b.
Definition sps_ok (s : SpsSyntax) : Prop :=
  0 <= s_profile s < 256 /\ 0 <= s_flags s < 256 /\ 0 <= s_level s < 256 /\ ue_ok (s_id s) /\
  match s_chroma s with
  | Some c => has_chroma_block (s_profile s) = true /\ chroma_ok c
  | None => has_chroma_block (s_profile s) = false
  end /\
  ue_ok (s_frame_num s) /\ poc_ok (s_poc s) /\ ue_ok (s_ref_frames s) /\
  ue_ok (s_width_minus1 s) /\ ue_ok (s_height_minus1 s) /\
  match s_crop s with Some c => crop_ok c | None => True end.

Definition fields_of (s : SpsSyntax) : SpsFields :=
  mkSpsFields (match s_chroma s with Some c => cs_format c | None => 1 end)
    (u32 (s_width_minus1 s + 1)) (u32 (s_height_minus1 s + 1)) (s_frame_mbs_only s)
    (match s_crop s with Some c => c | None => (0, 0, 0, 0) end).

(** * Reading the syntax back *)

Lemma parses_done {A} (m : Bits A) (a : A) bits : parses m bits a -> parses (m >>> bret tt) bits tt.
Proof. intros H. eapply parses_bind_ret; [exact H|apply parses_bret]. Qed.

Lemma parses_ue_ok v : ue_ok v -> parses ue (ue_bits v) v.
Proof. apply parses_ue. Qed.
Lemma parses_se_ok v : se_ok v -> parses se (se_bits v) v.
Proof. intros H. apply parses_se. unfold se_ok in H. lia. Qed.
Lemma parses_skip1 b : parses (skip 1) [b] tt.
Proof. by apply parses_skip. Qed.
Lemma parses_skip8 v : parses (skip 8) (fixed_bits 8 v) tt.
Proof. by apply parses_skip. Qed.
#[export] Hint Resolve parses_ue_ok parses_se_ok parses_skip1 parses_skip8 parses_flag parses_overrun
  parses_bret : bits.

(** [parse1]: the next element of the syntax is read. *)
Ltac parse1 := eapply parses_bind; [solve [eauto with bits]|].

Lemma parses_optional_skip (c : bool) b :
  parses (if c then skip 1 else bret tt) (if c then [b] else []) tt.
Proof. destruct c; auto with bits. Qed.

Lemma parses_scaling_loop size : forall last next deltas,
  Z.abs last < 256 -> Z.abs next < 256 -> scaling_deltas size last next deltas ->
  parses (scaling_loop size last next) (concat (map se_bits deltas)) tt.
Proof.
  induction size as [|size IH]; intros last next deltas Hl Hn Hd; cbn [scaling_loop scaling_deltas] in *.
  - subst deltas. apply parses_bret.
  - eapply (parses_bind _ _ []); [apply parses_overrun|].
    destruct (Z.eqb_spec next 0) as [->|Hne]; cbn [negb].
    + eapply (parses_bind _ _ []); [apply parses_bret|]. by apply IH.
    + destruct deltas as [|d deltas]; [done|]. destruct Hd as [Hr Hd]. cbn [map concat].
      assert (Hrem : Z.abs (Z.rem (last + d + 256) 256) < 256)
        by (pose proof (Z.rem_bound_abs (last + d + 256) 256); lia).
      eapply (parses_bind _ _ _ _ (Z.rem (last + d + 256) 256)).
      * eapply parses_bind_ret; [by apply parses_se_ok|]. unfold se_ok in Hr.
        unfold add_i32. rewrite (proj2 (Z.leb_le _ (last + d))), (proj2 (Z.ltb_lt (last + d) _)) by lia.
        eapply (parses_bind _ _ []); [intros r l H; by exists r|]. 
        rewrite (proj2 (Z.leb_le _ (last + d + 256))), (proj2 (Z.ltb_lt (last + d + 256) _)) by lia.
        eapply (parses_bind _ _ []); [intros r l H; by exists r|]. apply parses_bret.
      * apply IH; [|done|done]. by destruct (_ =? 0).
Qed.

Lemma parses_scaling_lists l : forall i,
  scaling_ok i l -> parses (scaling_lists (length l) i) (scaling_bits l) tt.
Proof.
  induction l as [|o l IH]; intros i; cbn [length scaling_lists scaling_ok]; [auto with bits|].
  intros [Ho Hl]. unfold scaling_bits. cbn [map concat].
  eapply (parses_bind _ _ []); [apply parses_overrun|]. destruct o as [deltas|]; cbn [opt_bits].
  - apply (parses_bind _ _ [true] _ _ _ (parses_flag true)).
    eapply parses_bind; [|by apply IH]. destruct (i <? 6); by apply parses_scaling_loop.
  - apply (parses_bind _ _ [false] _ _ _ (parses_flag false)).
    eapply (parses_bind _ _ []); [apply parses_bret|]. by apply IH.
Qed.

Lemma parses_opt {A B} (f : A -> list bool) (m : Bits B) (o : option A) (b : B) (k : A -> B) :
  (forall a, o = Some a -> parses m (f a) (k a)) ->
  parses (present <~ flag ;; if present then m else bret b) (opt_bits f o)
    (match o with Some a => k a | None => b end).
Proof.
  intros H. destruct o as [a|]; cbn [opt_bits].
  - apply (parses_bind _ _ [true] _ _ _ (parses_flag true)). by apply H.
  - apply (parses_bind _ _ [false] [] _ _ (parses_flag false)). apply parses_bret.
Qed.

Lemma parses_chroma profile c :
  has_chroma_block profile = true -> chroma_ok c ->
  parses (chroma_block profile) (chroma_bits c) (cs_format c).
Proof.
  intros Hp (Hf & Hl & Hd & Hs). unfold chroma_block, chroma_bits. rewrite Hp.
  parse1. eapply parses_bind; [apply parses_optional_skip|]. parse1. parse1. parse1.
  eapply parses_bind_ret; [|apply parses_bret].
  eapply (parses_opt scaling_bits _ _ _ (fun _ => tt)). intros l Hl'. rewrite Hl' in Hs.
  destruct Hs as [Hn Ho]. rewrite <- Hn. by apply parses_scaling_lists.
Qed.

Lemma parses_cycle cycle : Forall se_ok cycle ->
  parses (cycle_loop (length cycle)) (concat (map se_bits cycle)) tt.
Proof.
  induction 1 as [|v cycle Hv _ IH]; [apply parses_bret|]. cbn [length cycle_loop map concat].
  eapply (parses_bind _ _ []); [apply parses_overrun|]. parse1. exact IH.
Qed.

Lemma parses_poc p : poc_ok p -> parses pic_order_cnt (poc_bits p) tt.
Proof.
  unfold pic_order_cnt. destruct p as [v|z a b cycle|t]; cbn [poc_ok poc_bits].
  - intros Hv. eapply parses_bind; [by apply parses_ue_ok|]. by apply parses_done with v, parses_ue_ok.
  - intros (Ha & Hb & Hn & Hc). pose proof (zlen_nonneg cycle).
    eapply parses_bind; [by apply parses_ue_ok|]. cbn [Z.eqb Pos.eqb].
    parse1. parse1. parse1.
    eapply parses_bind; [apply parses_ue_ok; unfold ue_ok; lia|].
    rewrite Z.min_l by lia. unfold zlen. rewrite Nat2Z.id. by apply parses_cycle.
  - intros [Ht H2]. eapply parses_bind_ret; [by apply parses_ue_ok|].
    rewrite (proj2 (Z.eqb_neq t 0)), (proj2 (Z.eqb_neq t 1)) by lia. apply parses_bret.
Qed.

Lemma parses_crop o :
  match o with Some c => crop_ok c | None => True end ->
  parses cropping (opt_bits crop_bits o) (match o with Some c => c | None => (0, 0, 0, 0) end).
Proof.
  intros Ho. unfold cropping. apply (parses_opt crop_bits _ _ _ (fun c => c)).
  intros [ [ [l r] t] b] ->. destruct Ho as (?&?&?&?). unfold crop_bits.
  parse1. parse1. parse1. eapply parses_bind_ret; [by apply parses_ue_ok|apply parses_bret].
Qed.

Lemma parses_sps s : sps_ok s -> parses read_sps (sps_bits s) (fields_of s).
Proof.
  intros (Hp & Hfl & Hlv & Hid & Hch & Hfn & Hpoc & Hrf & Hw & Hh & Hcr).
  unfold read_sps, sps_bits. eapply parses_bind; [by apply (parses_u 8)|]. unfold read_after_profile.
  parse1. parse1. parse1. eapply (parses_bind _ _ _ _ (chroma_format_idc (fields_of s))).
  { destruct (s_chroma s) as [c|] eqn:Hc; cbn [fields_of chroma_format_idc]; rewrite Hc.
    - destruct Hch. by apply parses_chroma.
    - unfold chroma_block. rewrite Hch. apply parses_bret. }
  parse1. eapply parses_bind; [by apply parses_poc|]. parse1. parse1. parse1. parse1. parse1.
  eapply parses_bind.
  { replace (if s_frame_mbs_only s then [] else [s_adaptive s])
      with (if negb (s_frame_mbs_only s) then [s_adaptive s] else []) by (by destruct (s_frame_mbs_only s)).
    apply parses_optional_skip. }
  parse1. eapply parses_bind_ret; [by apply parses_crop|]. apply parses_bret.
Qed.

(** * The parser as a whole *)

Lemma parse_of_bits header rbsp s tail :
  Z.land (b2z header) 0x1F = kNalTypeSps -> sps_ok s -> bits_of rbsp = sps_bits s ++ tail ->
  parse_sps_dimensions (header :: escape_rbsp rbsp) = geometry (fields_of s).
Proof.
  intros Hh Hs Hb. unfold parse_sps_dimensions. set (nal := header :: _).
  rewrite (proj2 (Z.eqb_neq (zlen nal) 0)) by (subst nal; zlia).
  change (u8_at nal 0) with (Ok (b2z header)). cbn [rbind]. rewrite Hh. cbn [Z.eqb negb].
  change (negb (kNalTypeSps =? kNalTypeSps)) with false. cbv iota.
  rewrite (subspan_from_suffix nal 1 (escape_rbsp rbsp)) by apply (at_suffix_intro [header]).
  cbn [rbind]. unfold escape_rbsp, unescape_rbsp. rewrite unescape_escape by lia.
  pose proof (reads_make rbsp) as Hr. rewrite Hb in Hr.
  destruct (parses_sps s Hs _ _ Hr) as (r & -> & Ho & _). cbn [rbind]. by rewrite Ho.
Qed.

(** SubWidthC and SubHeightC, by chroma_format_idc: monochrome, 4:2:0, 4:2:2, 4:4:4. *)
Definition chroma_unit (format : Z) : Z * Z :=
  default (1, 1) ([(1, 1); (2, 2); (2, 1); (1, 1)] !! Z.to_nat format).
Lemma chroma_unit_eq format : 0 <= format -> chroma_unit format = (sub_width_c format, sub_height_c format).
Proof.
  intros Hf. destruct (decide (format < 4)) as [H4|H4].
  - assert (Hc : format = 0 \/ format = 1 \/ format = 2 \/ format = 3) by lia.
    by destruct Hc as [-> |[-> |[-> | -> ] ] ].
  - unfold chroma_unit, sub_width_c, sub_height_c. rewrite lookup_ge_None_2 by (cbn; lia).
    by rewrite !(proj2 (Z.eqb_neq format _)) by lia.
Qed.

(** The size ISO/IEC 14496-10 assigns, or none when the cropping window is too large. *)
Definition picture_size (s : SpsSyntax) : option VideoDimensions :=
  let format := match s_chroma s with Some c => cs_format c | None => 1 end in
  let '(l, r, t, b) := match s_crop s with Some c => c | None => (0, 0, 0, 0) end in
  let fields := if s_frame_mbs_only s then 1 else 2 in
  let '(sub_width, sub_height) := chroma_unit format in
  let w := 16 * (s_width_minus1 s + 1) - sub_width * (l + r) in
  let h := 16 * (s_height_minus1 s + 1) * fields - sub_height * fields * (t + b) in
  if (0 <? w) && (0 <? h) then Some (mkVideoDimensions w h) else None.

(** Sizes and cropping sums that fit the 32-bit variables of the source. *)
Definition fits32 (s : SpsSyntax) : Prop :=
  let '(l, r, t, b) := match s_crop s with Some c => c | None => (0, 0, 0, 0) end in
  s_width_minus1 s < 2 ^ 27 /\ s_height_minus1 s < 2 ^ 26 /\ l + r < 2 ^ 32 /\ t + b < 2 ^ 32.

Lemma format_nonneg s : sps_ok s -> 0 <= match s_chroma s with Some c => cs_format c | None => 1 end.
Proof.
  intros (_&_&_&_&Hc&_). destruct (s_chroma s); [|lia]. destruct Hc as (_ & Hc).
  unfold chroma_ok, ue_ok in Hc. lia.
Qed.

Lemma geometry_size s :
  sps_ok s -> fits32 s ->
  geometry (fields_of s) =
  match picture_size s with
  | Some d => Ok d
  | None => Err (malformed "H.264 SPS cropping window exceeds the coded picture")
  end.
Proof.
  intros Hs Hf. pose proof (format_nonneg s Hs) as Hfm.
  destruct Hs as (_&_&_&_&_&_&_&_&Hw&Hh&Hc). unfold geometry, picture_size, fits32, fields_of, ue_ok in *.
  cbn [crop chroma_format_idc frame_mbs_only width_in_mbs height_in_map_units] in *.
  set (format := match s_chroma s with Some c => cs_format c | None => 1 end) in *.
  rewrite chroma_unit_eq by done.
  assert (Hsw : 1 <= sub_width_c format <= 2) by (unfold sub_width_c; repeat case_match; lia).
  assert (Hsh : 1 <= sub_height_c format <= 2) by (unfold sub_height_c; repeat case_match; lia).
  set (sw := sub_width_c format) in *. set (sh := sub_height_c format) in *. clearbody sw sh.
  set (c := match s_crop s with Some c => c | None => (0, 0, 0, 0) end) in *.
  assert (Hcr : crop_ok c) by (subst c; destruct (s_crop s); [done|cbn; unfold ue_ok; lia]).
  clearbody c. destruct c as [ [ [l r] t] b]. destruct Hcr as (?&?&?&?), Hf as (?&?&?&?).
  unfold ue_ok, u32, u64 in *.
  rewrite (Z.mod_small (l + r)), (Z.mod_small (t + b)), (Z.mod_small (s_width_minus1 s + 1)),
    (Z.mod_small (s_height_minus1 s + 1)) by lia.
  set (k := if s_frame_mbs_only s then 1 else 2). assert (Hk : 1 <= k <= 2) by (subst k; destruct (s_frame_mbs_only s); lia).
  clearbody k.
  assert (Hsk : 1 <= sh * k <= 4) by nia. set (q := sh * k) in *. clearbody q.
  assert (Hkk : (s_height_minus1 s + 1) * 16 * k <= (s_height_minus1 s + 1) * 16 * 2) by nia.
  assert (Hk0 : 0 <= (s_height_minus1 s + 1) * 16 * k) by nia.
  replace (16 * (s_height_minus1 s + 1) * k) with ((s_height_minus1 s + 1) * 16 * k) by lia.
  set (hh := (s_height_minus1 s + 1) * 16 * k) in *. clearbody hh.
  assert (Hx0 : 0 <= sw * (l + r) <= 2 * (l + r)) by nia. set (x := sw * (l + r)) in *. clearbody x.
  assert (Hy0 : 0 <= q * (t + b) <= 4 * (t + b)) by nia. set (y := q * (t + b)) in *. clearbody y.
  rewrite (Z.mod_small x), (Z.mod_small y),
    (Z.mod_small ((s_width_minus1 s + 1) * 16)), (Z.mod_small hh) by lia.
  destruct (Z.leb_spec ((s_width_minus1 s + 1) * 16) x) as [Hx|Hx]; cbn [orb].
  - by rewrite (proj2 (Z.ltb_ge 0 (16 * _ - x))) by lia.
  - rewrite (proj2 (Z.ltb_lt 0 (16 * _ - x))) by lia. cbn [andb].
    destruct (Z.leb_spec hh y) as [Hy|Hy].
    + by rewrite (proj2 (Z.ltb_ge 0 (hh - y))) by lia.
    + rewrite (proj2 (Z.ltb_lt 0 (hh - y))), !Z.mod_small by lia. do 2 f_equal. lia.
Qed.

(** Any sequence parameter set with sizes and cropping sums within 32 bits (scaling
    lists, picture order count cycles and cropping included) is parsed out of its
    escaped NAL unit, whatever follows it, to the picture size the standard assigns, and
    refused exactly when its cropping window leaves no picture. *)
Theorem h264_sps_dimensions header rbsp s tail :
  Z.land (b2z header) 0x1F = kNalTypeSps -> sps_ok s -> fits32 s ->
  bits_of rbsp = sps_bits s ++ tail ->
  parse_sps_dimensions (header :: escape_rbsp rbsp) =
  match picture_size s with
  | Some d => Ok d
  | None => Err (malformed "H.264 SPS cropping window exceeds the coded picture")
  end.
Proof. intros Hh Hs Hf Hb. rewrite (parse_of_bits _ _ s tail) by done. by apply geometry_size. Qed.

(** 1920 x 1080, the usual way: 68 rows of macroblocks, 8 lines cropped. *)
Definition sps_1080p : SpsSyntax :=
  mkSpsSyntax 100 0 40 0 (Some (mkChromaSyntax 1 false 0 0 false
    (Some (Some [1; -9] :: replicate 7 None)))) 0 (Poc1 false 3 (-2) [1; -1]) 4 false
    119 67 true false true (Some (0, 0, 0, 4)).

Lemma h264_sps_dimensions_witness :
  let rbsp := map z2b [100; 0; 40; 173; 160; 152; 10; 24; 173; 50; 128; 240; 4; 79; 203] in
  Z.land (b2z (z2b 0x67)) 0x1F = kNalTypeSps /\ sps_ok sps_1080p /\ fits32 sps_1080p /\
  parse_sps_dimensions (z2b 0x67 :: escape_rbsp rbsp) = Ok (mkVideoDimensions 1920 1080).
Proof.
  assert (Hs : sps_ok sps_1080p).
  { unfold sps_ok, ue_ok. cbn. split_and!; try lia; try done; cbn; unfold ue_ok, se_ok;
      repeat (constructor || lia). }
  assert (Hf : fits32 sps_1080p) by (cbn; lia).
  cbn zeta. split_and!; [reflexivity|exact Hs|exact Hf|].
  rewrite (h264_sps_dimensions (z2b 0x67) _ sps_1080p [true]); [reflexivity|reflexivity|exact Hs|exact Hf|].
  vm_compute. reflexivity.
Defined.

(** * What any input can come to *)

Lemma runs_scaling_loop size : forall last next, runs True any (scaling_loop size last next).
Proof.
  induction size as [|size IH]; intros last next; [by apply runs_bret|]. cbn [scaling_loop].
  run o _. apply runs_if; [by apply runs_bret|].
  eapply (runs_bind _ any); [|intros n _; apply IH].
  apply runs_if; [|by apply runs_bret]. run d _.
  assert (Hadd : forall a b, runs True any (bres (add_i32 a b))).
  { intros a b r Hr. unfold bres, add_i32. by destruct (_ && _). }
  eapply runs_bind; [apply Hadd|intros s1 _]. eapply runs_bind; [apply Hadd|intros s2 _].
  by apply runs_bret.
Qed.

Lemma runs_scaling_lists count : forall i, runs True any (scaling_lists count i).
Proof.
  induction count as [|count IH]; intros i; [by apply runs_bret|]. cbn [scaling_lists].
  run o _. apply runs_if; [by apply runs_bret|]. run p _.
  eapply (runs_bind _ any); [|intros _ _; apply IH].
  apply runs_if; [apply runs_scaling_loop|by apply runs_bret].
Qed.

(** Only a profile with a chroma block gets to the scaling lists. *)
Lemma runs_chroma_block profile :
  runs (has_chroma_block profile = true) any (chroma_block profile).
Proof.
  unfold chroma_block. destruct (has_chroma_block profile); [|by apply runs_bret].
  run f _. eapply (runs_bind _ any); [apply runs_if; [apply runs_skip|by apply runs_bret]|intros _ _].
  run v _. run w _. run x _. eapply (runs_bind _ any); [|intros _ _; by apply runs_bret].
  run p _. apply runs_if; [|by apply runs_bret].
  eapply runs_weaken; [apply runs_scaling_lists|done|done].
Qed.

Section RunsSps.
Context (bad : Prop).

Lemma runs_cycle_loop n : runs bad any (cycle_loop n).
Proof.
  induction n as [|n IH]; [by apply runs_bret|]. cbn [cycle_loop]. run o _.
  apply runs_if; [by apply runs_bret|]. run v _. exact IH.
Qed.

Lemma runs_pic_order_cnt : runs bad any pic_order_cnt.
Proof.
  unfold pic_order_cnt. run t _. apply runs_if; [run v _; by apply runs_bret|].
  apply runs_if; [|by apply runs_bret]. run x _. run a _. run b _. run n _. apply runs_cycle_loop.
Qed.

Lemma runs_cropping : runs bad any cropping.
Proof.
  unfold cropping. run p _. apply runs_if; [|by apply runs_bret].
  run l _. run r _. run t _. run b _. by apply runs_bret.
Qed.

Lemma runs_optional_skip (c : bool) : runs bad any (if c then skip 1 else bret tt).
Proof. apply runs_if; [apply runs_skip|by apply runs_bret]. Qed.
End RunsSps.
#[export] Hint Resolve runs_chroma_block runs_pic_order_cnt runs_cropping runs_optional_skip : bits.

Lemma runs_after_profile profile :
  runs (has_chroma_block profile = true) any (read_after_profile profile).
Proof.
  unfold read_after_profile. run x1 _. run x2 _. run x3 _. run c _. run x4 _. run x5 _. run x6 _.
  run x7 _. run w _. run h _. run f _. run x8 _. run x9 _. run cr _. by apply runs_bret.
Qed.

(** [read_sps] on a fresh reader; only the profile it reads decides about a fault. *)
Lemma read_sps_outcome rbsp :
  match read_sps (make_reader rbsp) with
  | Ok _ => True
  | Err e => is_malformed e
  | Fault => exists p r, u 8 (make_reader rbsp) = Ok (p, r) /\ has_chroma_block p = true
  | OutOfFuel => False
  end.
Proof.
  unfold read_sps, bbind. pose proof (runs_u False 8 (make_reader rbsp) ltac:(cbn; lia)) as Hu.
  destruct (u 8 (make_reader rbsp)) as [ [p r]|e| |]; cbn [rbind]; try done. destruct Hu as [_ Hr].
  pose proof (runs_after_profile p r Hr) as Ha. destruct (read_after_profile p r) as [ [f r']| | |]; eauto.
Qed.

Lemma geometry_outcome f :
  match geometry f with
  | Ok d => 0 <= width d < 2 ^ 32 /\ 0 <= height d < 2 ^ 32
  | Err e => is_malformed e
  | _ => False
  end.
Proof.
  unfold geometry. destruct (crop f) as [ [ [l r] t] b]. destruct (_ || _); [done|].
  split; apply Z.mod_pos_bound; lia.
Qed.

(** Parsing any bytes ends with a picture size, a protocol error or, in a profile
    with scaling lists only, an overflow of their 32-bit arithmetic; it never reads
    outside the NAL unit. *)
Theorem h264_sps_safe sps_nal :
  match parse_sps_dimensions sps_nal with
  | Ok d => 0 <= width d < 2 ^ 32 /\ 0 <= height d < 2 ^ 32
  | Err e => is_malformed e
  | Fault => exists rbsp p r, u 8 (make_reader rbsp) = Ok (p, r) /\ has_chroma_block p = true
  | OutOfFuel => False
  end.
Proof.
  unfold parse_sps_dimensions. destruct (Z.eqb_spec (zlen sps_nal) 0); [done|].
  pose proof (zlen_nonneg sps_nal). destruct (u8_at_Ok sps_nal 0) as (b0 & -> & _); [lia|]. cbn [rbind].
  destruct (negb _); [done|].
  unfold subspan_from. rewrite (proj2 (Z.leb_le 1 (zlen sps_nal))) by lia. cbn [Z.leb andb rbind].
  change (0 <=? 1) with true. cbn [andb rbind]. set (rest := drop _ sps_nal). 
  pose proof (read_sps_outcome (unescape_rbsp rest)) as Hr.
  destruct (read_sps _) as [ [f r]|e| |]; cbn [rbind]; try done; [|by exists (unescape_rbsp rest)].
  destruct (overrun_ r); [done|]. pose proof (geometry_outcome f) as Hg. by destruct (geometry f).
Qed.

(** A high-profile SPS can make the scaling list arithmetic overflow [std::int32_t],
    which is undefined behaviour: a delta of 2^31 - 1 is enough. *)
Theorem scaling_list_overflow :
  parse_sps_dimensions (map z2b [0x67; 100; 0; 0; 173; 128; 0; 0; 3; 0; 255; 255; 255; 254; 128]) = Fault.
Proof. vm_compute. reflexivity. Qed.

(** The sums of the cropping offsets wrap at 2^32 before they are compared with the
    coded size: an SPS whose horizontal offsets add up to 2^32, far outside the picture,
    is accepted with the full coded width. *)
Theorem cropping_sum_wraps header rbsp s tail l :
  Z.land (b2z header) 0x1F = kNalTypeSps -> sps_ok s -> s_crop s = Some (l, 2 ^ 32 - l, 0, 0) ->
  s_width_minus1 s < 2 ^ 27 -> s_height_minus1 s < 2 ^ 26 ->
  bits_of rbsp = sps_bits s ++ tail ->
  picture_size s = None /\
  parse_sps_dimensions (header :: escape_rbsp rbsp)
  = Ok (mkVideoDimensions (16 * (s_width_minus1 s + 1))
          (16 * (s_height_minus1 s + 1) * (if s_frame_mbs_only s then 1 else 2))).
Proof.
  intros Hh Hs Hc Hw Hhh Hb. rewrite (parse_of_bits _ _ s tail) by done.
  pose proof (format_nonneg s Hs) as Hfm. destruct Hs as (_&_&_&_&_&_&_&_&Hw1&Hh1&_). unfold ue_ok in *. split.
  - unfold picture_size. rewrite Hc. set (format := match s_chroma s with Some c => cs_format c | None => 1 end) in *.
    rewrite chroma_unit_eq by done. assert (1 <= sub_width_c format) by (unfold sub_width_c; repeat case_match; lia).
    replace (l + (2 ^ 32 - l)) with (2 ^ 32) by lia.
    rewrite (proj2 (Z.ltb_ge 0 (16 * (s_width_minus1 s + 1) - _))) by lia. done.
  - unfold geometry, fields_of. cbn [crop chroma_format_idc frame_mbs_only width_in_mbs height_in_map_units].
    rewrite Hc. replace (u32 (l + (2 ^ 32 - l))) with 0 by (unfold u32; replace (l + _) with (1 * 2 ^ 32) by lia; by rewrite Z.mod_mul by lia).
    replace (u32 (0 + 0)) with 0 by done. rewrite !Z.mul_0_r. change (u64 0) with 0.
    unfold u32, u64. rewrite (Z.mod_small (s_width_minus1 s + 1)), (Z.mod_small (s_height_minus1 s + 1)) by lia.
    set (k := if s_frame_mbs_only s then 1 else 2).
    assert (Hk : 1 <= k <= 2) by (subst k; destruct (s_frame_mbs_only s); lia). clearbody k.
    set (hh := (s_height_minus1 s + 1) * 16 * k). assert (Hhk : 0 < hh <= (s_height_minus1 s + 1) * 16 * 2) by (subst hh; nia).
    replace (16 * (s_height_minus1 s + 1) * k) with hh by (subst hh; lia). clearbody hh.
    rewrite (Z.mod_small (_ * 16)), (Z.mod_small hh) by lia.
    rewrite (proj2 (Z.leb_gt _ 0)), (proj2 (Z.leb_gt hh 0)) by lia. cbn [orb].
    rewrite !Z.sub_0_r, !Z.mod_small by lia. do 2 f_equal. lia.
Qed.

Definition sps_wrapped : SpsSyntax :=
  mkSpsSyntax 66 0 30 0 None 0 (Poc2 2) 1 false 1 1 true false true (Some (2 ^ 31, 2 ^ 31, 0, 0)).

Lemma cropping_sum_wraps_witness :
  let rbsp := map z2b [66; 0; 30; 218; 37; 192; 0; 0; 0; 64; 0; 0; 0; 128; 0; 0; 0; 128; 0; 0; 1; 224] in
  sps_ok sps_wrapped /\
  parse_sps_dimensions (z2b 0x67 :: escape_rbsp rbsp) = Ok (mkVideoDimensions 32 32).
Proof.
  assert (Hs : sps_ok sps_wrapped).
  { unfold sps_ok, ue_ok. cbn. unfold ue_ok. split_and!; try lia; try done. }
  cbn zeta. split; [exact Hs|].
  eapply (cropping_sum_wraps (z2b 0x67) _ sps_wrapped (true :: replicate 5 false) (2 ^ 31));
    [reflexivity|exact Hs|reflexivity|cbn; lia|cbn; lia|vm_compute; reflexivity].
Defined.
