(* ===== verification/HevcSps.v ===== *)
(** media/hevc/sps.cpp: the picture size of an HEVC sequence parameter set, on the reader
    of BitReader.v. *)

From S2P Require Import Prelude Bytes Nal Avc Hevc BitReader H264Sps.

(** The two flags of each sub-layer, [profile_present] and [level_present]. *)
Fixpoint sub_layer_flags (n : nat) : Bits (list (bool * bool)) :=
  match n with
  | O => bret []
  | S n => p <~ flag ;; l <~ flag ;; rest <~ sub_layer_flags n ;; bret ((p, l) :: rest)
  end.

(** [for (i = max_sub_layers_minus1; i < 8; ++i) reader.skip(2)]. *)
Fixpoint skip_pairs (n : nat) : Bits unit :=
  match n with
  | O => bret tt
  | S n => skip 2 >>> skip_pairs n
  end.

Fixpoint sub_layer_levels (flags : list (bool * bool)) : Bits unit :=
  match flags with
  | [] => bret tt
  | (p, l) :: flags =>
      o <~ overrun ;;
      if o then bret tt else
      (if p then skip 88 else bret tt) >>> (if l then skip 8 else bret tt) >>>
      sub_layer_levels flags
  end.

Definition skip_profile_tier_level (max_sub_layers_minus1 : Z) : Bits unit :=
  skip 8 >>> skip 32 >>> skip 48 >>> skip 8 >>>
  flags <~ sub_layer_flags (Z.to_nat max_sub_layers_minus1) ;;
  (if 0 <? max_sub_layers_minus1 then skip_pairs (Z.to_nat (8 - max_sub_layers_minus1))
   else bret tt) >>>
  sub_layer_levels flags.

Record HevcFields := mkHevcFields {
  h_chroma_format_idc : Z;
  coded_width : Z;
  coded_height : Z;
  window : Z * Z * Z * Z
}.

Definition conformance_window : Bits (Z * Z * Z * Z) :=
  present <~ flag ;;
  if present then
    win_left <~ ue ;; win_right <~ ue ;; win_top <~ ue ;; win_bottom <~ ue ;;
    bret (win_left, win_right, win_top, win_bottom)
  else bret (0, 0, 0, 0).

Definition read_sps : Bits HevcFields :=
  skip 4 >>>
  max_sub_layers_minus1 <~ u 3 ;;
  skip 1 >>>
  skip_profile_tier_level max_sub_layers_minus1 >>>
  ue >>>
  chroma_format_idc <~ ue ;;
  (if chroma_format_idc =? 3 then skip 1 else bret tt) >>>
  w <~ ue ;;
  h <~ ue ;;
  win <~ conformance_window ;;
  bret (mkHevcFields chroma_format_idc w h win).

Definition geometry (f : HevcFields) : Res VideoDimensions :=
  if (coded_width f =? 0) || (coded_height f =? 0) then
    Err (malformed "HEVC SPS declares a zero-sized picture") else
  let '(win_left, win_right, win_top, win_bottom) := window f in
  let cropped_x := u64 (sub_width_c (h_chroma_format_idc f) * u32 (win_left + win_right)) in
  let cropped_y := u64 (sub_height_c (h_chroma_format_idc f) * u32 (win_top + win_bottom)) in
  if (coded_width f <=? cropped_x) || (coded_height f <=? cropped_y) then
    Err (malformed "HEVC SPS conformance window exceeds the coded picture")
  else Ok (mkVideoDimensions (u32 (coded_width f - cropped_x)) (u32 (coded_height f - cropped_y))).

Definition parse_sps_dimensions (sps_nal : list byte) : Res VideoDimensions :=
  if zlen sps_nal <? 2 then Err (malformed "empty or truncated HEVC SPS NAL") else
  b0 <- u8_at sps_nal 0 ;;
  if negb (Z.land (Z.shiftr b0 1) 0x3F =? Hevc.kNalTypeSps) then
    Err (malformed "NAL unit is not an HEVC SPS") else
  rest <- subspan_from sps_nal 2 ;;
  '(fields, reader) <- read_sps (make_reader (unescape_rbsp rest)) ;;
  if overrun_ reader then Err (malformed "truncated HEVC SPS") else
  geometry fields.

Definition parse_dimensions (config : HevcDecoderConfig) : Res VideoDimensions :=
  match Hevc.sps config with
  | [] => Err (malformed "HEVC decoder config carries no SPS")
  | nal :: _ => parse_sps_dimensions nal
  end.

(** * The syntax of an HEVC sequence parameter set, up to the picture size *)

(** A sub-layer: its 88 profile bits and its 8 level bits, each present or not. *)
Record SubLayer := mkSubLayer { profile_bits : option (list bool); level_bits : option (list bool) }.

Record HevcSyntax := mkHevcSyntax {
  y_vps_id : list bool;
  y_nesting : bool;
  y_general : list bool;
  y_reserved : list bool;
  y_sub_layers : list SubLayer;
  y_sps_id : Z;
  y_format : Z;
  y_separate : bool;
  y_width : Z;
  y_height : Z;
  y_window : option (Z * Z * Z * Z)
}.

Definition present {A} (o : option A) : bool := match o with Some _ => true | None => false end.
Definition optional_bits (o : option (list bool)) : list bool := from_option id [] o.

Definition hevc_bits (s : HevcSyntax) : list bool :=
  let n := length (y_sub_layers s) in
  y_vps_id s ++ fixed_bits 3 (Z.of_nat n) ++ [y_nesting s] ++
  (y_general s ++
   concat (map (fun l => [present (profile_bits l); present (level_bits l)]) (y_sub_layers s)) ++
   y_reserved s ++
   concat (map (fun l => optional_bits (profile_bits l) ++ optional_bits (level_bits l))
               (y_sub_layers s))) ++
  ue_bits (y_sps_id s) ++ ue_bits (y_format s) ++
  (if y_format s =? 3 then [y_separate s] else []) ++
  ue_bits (y_width s) ++ ue_bits (y_height s) ++ opt_bits crop_bits (y_window s).

Definition sub_layer_ok (l : SubLayer) : Prop :=
  match profile_bits l with Some b => length b = 88%nat | None => True end /\
  match level_bits l with Some b => length b = 8%nat | None => True end.
Definition hevc_ok (s : HevcSyntax) : Prop :=
  length (y_vps_id s) = 4%nat /\ (length (y_sub_layers s) < 8)%nat /\ length (y_general s) = 96%nat /\
  length (y_reserved s) =
    (match y_sub_layers s with [] => 0 | l => 2 * (8 - length l) end)%nat /\
  Forall sub_layer_ok (y_sub_layers s) /\ ue_ok (y_sps_id s) /\ ue_ok (y_format s) /\
  ue_ok (y_width s) /\ ue_ok (y_height s) /\
  match y_window s with Some w => crop_ok w | None => True end.

(** The size ITU-T H.265 assigns, or none when there is no picture. *)
Definition hevc_picture_size (s : HevcSyntax) : option VideoDimensions :=
  let '(l, r, t, b) := match y_window s with Some w => w | None => (0, 0, 0, 0) end in
  let '(sub_width, sub_height) := chroma_unit (y_format s) in
  let w := y_width s - sub_width * (l + r) in
  let h := y_height s - sub_height * (t + b) in
  if (0 <? w) && (0 <? h) then Some (mkVideoDimensions w h) else None.
Definition window_fits32 (s : HevcSyntax) : Prop :=
  let '(l, r, t, b) := match y_window s with Some w => w | None => (0, 0, 0, 0) end in
  l + r < 2 ^ 32 /\ t + b < 2 ^ 32.

Definition hevc_fields (s : HevcSyntax) : HevcFields :=
  mkHevcFields (y_format s) (y_width s) (y_height s)
    (match y_window s with Some w => w | None => (0, 0, 0, 0) end).

(** * Reading it back *)

Lemma parses_sub_layer_flags ls :
  parses (sub_layer_flags (length ls))
    (concat (map (fun l => [present (profile_bits l); present (level_bits l)]) ls))
    (map (fun l => (present (profile_bits l), present (level_bits l))) ls).
Proof.
  induction ls as [|l ls IH]; [apply parses_bret|]. cbn [length sub_layer_flags map concat].
  eapply (parses_bind _ _ [_]); [apply parses_flag|].
  eapply (parses_bind _ _ [_]); [apply parses_flag|].
  eapply parses_bind_ret; [exact IH|apply parses_bret].
Qed.

Lemma parses_skip_pairs n bits : length bits = (2 * n)%nat -> parses (skip_pairs n) bits tt.
Proof.
  revert bits. induction n as [|n IH]; intros bits Hl.
  - destruct bits; [apply parses_bret|done].
  - destruct bits as [|a [|b bits] ]; try (cbn in Hl; lia). cbn [skip_pairs].
    apply (parses_bind _ _ [a; b] _ tt); [by apply parses_skip|]. apply IH. cbn in Hl. lia.
Qed.

Lemma parses_optional n o :
  match o with Some b => length b = Z.to_nat n | None => True end -> 0 <= n ->
  parses (if present o then skip n else bret tt) (optional_bits o) tt.
Proof.
  intros Ho Hn. destruct o as [b|]; cbn; [|apply parses_bret]. apply parses_skip. lia.
Qed.

Lemma parses_sub_layer_levels ls : Forall sub_layer_ok ls ->
  parses (sub_layer_levels (map (fun l => (present (profile_bits l), present (level_bits l))) ls))
    (concat (map (fun l => optional_bits (profile_bits l) ++ optional_bits (level_bits l)) ls)) tt.
Proof.
  induction 1 as [|l ls [Hp Hl] _ IH]; [apply parses_bret|]. cbn [map concat sub_layer_levels].
  rewrite <- app_assoc. eapply (parses_bind _ _ []); [apply parses_overrun|].
  eapply parses_bind; [by apply parses_optional|].
  eapply parses_bind; [by apply parses_optional|]. exact IH.
Qed.

Lemma parses_general bits :
  length bits = 96%nat -> forall B (f : Bits B) rest c, parses f rest c ->
  parses (skip 8 >>> skip 32 >>> skip 48 >>> skip 8 >>> f) (bits ++ rest) c.
Proof.
  intros Hl B f rest c Hf.
  rewrite <- (take_drop 8 bits), <- (take_drop 32 (drop 8 bits)), <- (take_drop 48 (drop 32 (drop 8 bits))).
  rewrite <- !app_assoc.
  do 4 (eapply parses_bind; [apply parses_skip; rewrite ?length_take, ?length_drop; lia|]). exact Hf.
Qed.

Lemma parses_conformance_window o :
  match o with Some w => crop_ok w | None => True end ->
  parses conformance_window (opt_bits crop_bits o)
    (match o with Some w => w | None => (0, 0, 0, 0) end).
Proof. apply parses_crop. Qed.

Lemma parses_hevc s : hevc_ok s -> parses read_sps (hevc_bits s) (hevc_fields s).
Proof.
  intros (Hv & Hn & Hg & Hr & Hs & Hid & Hf & Hw & Hh & Hwin). unfold read_sps, hevc_bits. cbv zeta.
  eapply parses_bind; [by apply parses_skip; rewrite Hv|].
  eapply parses_bind; [apply (parses_u 3); lia|].
  parse1. eapply parses_bind.
  { unfold skip_profile_tier_level. apply parses_general; [done|]. rewrite Nat2Z.id.
    eapply parses_bind; [apply parses_sub_layer_flags|].
    eapply parses_bind; [|by apply parses_sub_layer_levels].
    destruct (y_sub_layers s) as [|l ls]; [destruct (y_reserved s); [apply parses_bret|done]|].
    rewrite (proj2 (Z.ltb_lt 0 _)) by (cbn [length]; lia). apply parses_skip_pairs.
    rewrite Hr. f_equal. lia. }
  parse1. parse1. eapply parses_bind; [apply parses_optional_skip|]. parse1. parse1.
  eapply parses_bind_ret; [by apply parses_conformance_window|]. apply parses_bret.
Qed.

Lemma hevc_parse_of_bits h0 h1 rbsp s tail :
  Z.land (Z.shiftr (b2z h0) 1) 0x3F = Hevc.kNalTypeSps -> hevc_ok s ->
  bits_of rbsp = hevc_bits s ++ tail ->
  parse_sps_dimensions (h0 :: h1 :: escape_rbsp rbsp) = geometry (hevc_fields s).
Proof.
  intros Hh Hs Hb. unfold parse_sps_dimensions. set (nal := h0 :: _).
  rewrite (proj2 (Z.ltb_ge (zlen nal) 2)) by (subst nal; zlia).
  change (u8_at nal 0) with (Ok (b2z h0)). cbn [rbind]. rewrite Hh.
  change (negb (Hevc.kNalTypeSps =? Hevc.kNalTypeSps)) with false. cbv iota.
  rewrite (subspan_from_suffix nal 2 (escape_rbsp rbsp)) by apply (at_suffix_intro [h0; h1]).
  cbn [rbind]. unfold escape_rbsp, unescape_rbsp. rewrite unescape_escape by lia.
  pose proof (reads_make rbsp) as Hr. rewrite Hb in Hr.
  destruct (parses_hevc s Hs _ _ Hr) as (r & -> & Ho & _). cbn [rbind]. by rewrite Ho.
Qed.

(** Any HEVC sequence parameter set (with its sub-layers and conformance window) is
    parsed out of its escaped NAL unit, whatever follows the size, to the picture size
    the standard assigns, and refused exactly when there is no picture. *)
Theorem hevc_sps_dimensions h0 h1 rbsp s tail :
  Z.land (Z.shiftr (b2z h0) 1) 0x3F = Hevc.kNalTypeSps -> hevc_ok s -> window_fits32 s ->
  bits_of rbsp = hevc_bits s ++ tail ->
  match hevc_picture_size s with
  | Some d => parse_sps_dimensions (h0 :: h1 :: escape_rbsp rbsp) = Ok d
  | None => exists what, parse_sps_dimensions (h0 :: h1 :: escape_rbsp rbsp) = Err (malformed what)
  end.
Proof.
  intros Hh Hs Hf Hb. rewrite (hevc_parse_of_bits _ _ _ s tail) by done.
  assert (Hfm : 0 <= y_format s) by (destruct Hs; unfold ue_ok in *; lia).
  destruct Hs as (_&_&_&_&_&_&_&Hw&Hhh&Hwin). unfold geometry, hevc_picture_size, window_fits32 in *.
  rewrite chroma_unit_eq by done.
  cbn [hevc_fields coded_width coded_height window h_chroma_format_idc].
  assert (Hsw : 1 <= sub_width_c (y_format s) <= 2) by (unfold sub_width_c; repeat case_match; lia).
  assert (Hsh : 1 <= sub_height_c (y_format s) <= 2) by (unfold sub_height_c; repeat case_match; lia).
  set (c := match y_window s with Some w => w | None => (0, 0, 0, 0) end) in *.
  assert (Hcr : crop_ok c) by (subst c; destruct (y_window s); [done|cbn; unfold ue_ok; lia]).
  clearbody c. destruct c as [ [ [l r] t] b]. destruct Hcr as (?&?&?&?), Hf as (?&?).
  unfold ue_ok, u32, u64 in *. rewrite (Z.mod_small (l + r)), (Z.mod_small (t + b)) by lia.
  set (sw := sub_width_c (y_format s)) in *. set (sh := sub_height_c (y_format s)) in *. clearbody sw sh.
  assert (Hx0 : 0 <= sw * (l + r) <= 2 * (l + r)) by nia. set (x := sw * (l + r)) in *. clearbody x.
  assert (Hy0 : 0 <= sh * (t + b) <= 2 * (t + b)) by nia. set (y := sh * (t + b)) in *. clearbody y.
  rewrite (Z.mod_small x), (Z.mod_small y) by lia.
  destruct (Z.eqb_spec (y_width s) 0) as [Hz|Hz]; cbn [orb].
  { rewrite (proj2 (Z.ltb_ge 0 (y_width s - x))) by lia. by eexists. }
  destruct (Z.eqb_spec (y_height s) 0) as [Hz2|Hz2].
  { rewrite (proj2 (Z.ltb_ge 0 (y_height s - y))), andb_false_r by lia. by eexists. }
  destruct (Z.leb_spec (y_width s) x) as [Hx|Hx]; cbn [orb].
  { rewrite (proj2 (Z.ltb_ge 0 (y_width s - x))) by lia. by eexists. }
  rewrite (proj2 (Z.ltb_lt 0 (y_width s - x))) by lia. cbn [andb].
  destruct (Z.leb_spec (y_height s) y) as [Hy|Hy].
  - rewrite (proj2 (Z.ltb_ge 0 (y_height s - y))) by lia. by eexists.
  - rewrite (proj2 (Z.ltb_lt 0 (y_height s - y))), !Z.mod_small by lia. done.
Qed.

(** 1920 x 1080 with one extra sub-layer. *)
Definition hevc_1080p : HevcSyntax :=
  mkHevcSyntax (replicate 4 false) true (replicate 96 true) (replicate 14 false)
    [mkSubLayer None (Some (replicate 8 true))] 0 1 false 1920 1088 (Some (0, 0, 0, 4)).

Lemma hevc_sps_dimensions_witness :
  exists rbsp, hevc_ok hevc_1080p /\
  parse_sps_dimensions (z2b 0x42 :: z2b 1 :: escape_rbsp rbsp) = Ok (mkVideoDimensions 1920 1080).
Proof.
  assert (Hs : hevc_ok hevc_1080p).
  { unfold hevc_ok, ue_ok. cbn. unfold ue_ok, sub_layer_ok. split_and!; try lia; try done.
    constructor; [done|constructor]. }
  exists (map z2b [3; 255; 255; 255; 255; 255; 255; 255; 255; 255; 255; 255; 255; 64;
    0; 255; 160; 3; 192; 128; 17; 7; 203]).
  split; [exact Hs|].
  apply (hevc_sps_dimensions (z2b 0x42) (z2b 1) _ hevc_1080p [true]);
    [reflexivity|exact Hs|cbn; lia|vm_compute; reflexivity].
Defined.

(** * What any input can come to *)

Section Runs.
Context (bad : Prop).

Lemma runs_sub_layer_flags n : runs bad any (sub_layer_flags n).
Proof.
  induction n as [|n IH]; [by apply runs_bret|]. cbn [sub_layer_flags]. run p _. run l _.
  eapply runs_bind; [exact IH|intros rest _]. by apply runs_bret.
Qed.

Lemma runs_skip_pairs n : runs bad any (skip_pairs n).
Proof. induction n as [|n IH]; [by apply runs_bret|]. cbn [skip_pairs]. run x _. exact IH. Qed.

Lemma runs_sub_layer_levels flags : runs bad any (sub_layer_levels flags).
Proof.
  induction flags as [|[p l] flags IH]; [by apply runs_bret|]. cbn [sub_layer_levels]. run o _.
  apply runs_if; [by apply runs_bret|].
  eapply (runs_bind _ any); [apply runs_if; [apply runs_skip|by apply runs_bret]|intros _ _].
  eapply (runs_bind _ any); [apply runs_if; [apply runs_skip|by apply runs_bret]|intros _ _]. exact IH.
Qed.

Lemma runs_hevc_sps : runs bad (fun f => u32_value (coded_width f) /\ u32_value (coded_height f)) read_sps.
Proof.
  unfold read_sps, skip_profile_tier_level. run x1 _. run n _. run x2 _.
  eapply (runs_bind _ any).
  { run y1 _. run y2 _. run y3 _. run y4 _.
    eapply runs_bind; [apply runs_sub_layer_flags|intros flags _].
    eapply (runs_bind _ any); [apply runs_if; [apply runs_skip_pairs|by apply runs_bret]|intros _ _].
    apply runs_sub_layer_levels. }
  intros _ _. run i _. run f _. run x3 _. run w Hw. run h Hh.
  eapply (runs_bind _ any); [apply runs_cropping|intros win _]. by apply runs_bret.
Qed.
End Runs.

(** C38. Parsing any bytes as an HEVC SPS ends with a picture size of at least one sample
    each way or with a protocol error; nothing is read outside the NAL unit and no
    arithmetic is undefined. *)
Theorem hevc_sps_total sps_nal :
  match parse_sps_dimensions sps_nal with
  | Ok d => 0 < width d < 2 ^ 32 /\ 0 < height d < 2 ^ 32
  | Err e => is_malformed e
  | Fault | OutOfFuel => False
  end.
Proof.
  unfold parse_sps_dimensions. destruct (Z.ltb_spec (zlen sps_nal) 2); [done|].
  destruct (u8_at_Ok sps_nal 0) as (b0 & -> & _); [lia|]. cbn [rbind]. destruct (negb _); [done|].
  unfold subspan_from. rewrite (proj2 (Z.leb_le 2 (zlen sps_nal))) by lia.
  change (0 <=? 2) with true. cbn [andb rbind].
  pose proof (runs_hevc_sps False (make_reader (unescape_rbsp (drop (Z.to_nat 2) sps_nal))) ltac:(cbn; lia)) as Hr.
  destruct (read_sps _) as [ [f r]|e| |]; cbn [rbind]; try done. destruct Hr as [ [Hw Hh] _].
  destruct (overrun_ r); [done|]. unfold geometry.
  destruct ((coded_width f =? 0) || (coded_height f =? 0)); [done|].
  destruct (window f) as [ [ [l r0] t] b].
  set (x := u64 (_ * u32 (l + r0))). set (y := u64 (_ * u32 (t + b))).
  assert (Hx : 0 <= x) by (apply Z.mod_pos_bound; lia).
  assert (Hy : 0 <= y) by (apply Z.mod_pos_bound; lia).
  destruct (Z.leb_spec (coded_width f) x); [done|]. destruct (Z.leb_spec (coded_height f) y); [done|].
  cbn. unfold u32, u32_value in *. rewrite !Z.mod_small by lia. lia.
Qed.
