(* ===== verification/HandoffQueue.v ===== *)
(** media/media_handoff_queue.cpp: the bounded queue between a publisher's media thread
    and a slow worker, and the timestamp unwrapper of its header.

    Each operation runs under the queue's lock and is one step here; a [pop] that would
    wait is the outcome [Waiting].  Sizes are below 2^60 in every theorem, so the
    [std::size_t] sums, which are written with their wrap-around, do not wrap. *)

From S2P Require Import Prelude.
From S2P Require MediaIngest.

Record HandoffMessage := mkHandoffMessage {
  video : bool;
  metadata : bool;
  keyframe : bool;
  sequence_header : bool;
  timestamp : Z;
  payload : list byte
}.

Record HandoffLimits := mkHandoffLimits { max_bytes : Z; max_messages : Z }.
Definition default_handoff_limits : HandoffLimits := mkHandoffLimits (32 * 1024 * 1024) 2048.

Record HandoffStats := mkHandoffStats {
  pushed : Z;
  dropped : Z;
  resyncs : Z;
  queued_bytes : Z;
  queued_messages : Z
}.

Record MediaHandoffQueue := mkMediaHandoffQueue {
  limits_ : HandoffLimits;
  queue_ : list HandoffMessage;
  queued_bytes_ : Z;
  closed_ : bool;
  awaiting_keyframe_ : bool;
  resync_pending_ : bool;
  pushed_ : Z;
  dropped_ : Z;
  resyncs_ : Z
}.
Definition make_queue (limits : HandoffLimits) : MediaHandoffQueue :=
  mkMediaHandoffQueue limits [] 0 false false false 0 0 0.

Definition over_limit (q : MediaHandoffQueue) (incoming_bytes : Z) : bool :=
  (max_bytes (limits_ q) <? u64 (queued_bytes_ q + incoming_bytes)) ||
  (max_messages (limits_ q) <? u64 (zlen (queue_ q) + 1)).

Definition kHardCapMultiple : Z := 4.

(** [dropped_ += n]. *)
Definition count_dropped (q : MediaHandoffQueue) (n : Z) : MediaHandoffQueue :=
  mkMediaHandoffQueue (limits_ q) (queue_ q) (queued_bytes_ q) (closed_ q) (awaiting_keyframe_ q)
    (resync_pending_ q) (pushed_ q) (u64 (dropped_ q + n)) (resyncs_ q).
Definition clear (q : MediaHandoffQueue) : MediaHandoffQueue :=
  mkMediaHandoffQueue (limits_ q) [] 0 (closed_ q) (awaiting_keyframe_ q)
    (resync_pending_ q) (pushed_ q) (dropped_ q) (resyncs_ q).
(** [resync_pending_ = true; resyncs_ += 1;] *)
Definition note_resync (q : MediaHandoffQueue) : MediaHandoffQueue :=
  mkMediaHandoffQueue (limits_ q) (queue_ q) (queued_bytes_ q) (closed_ q) (awaiting_keyframe_ q)
    true (pushed_ q) (dropped_ q) (u64 (resyncs_ q + 1)).
Definition set_awaiting (q : MediaHandoffQueue) (b : bool) : MediaHandoffQueue :=
  mkMediaHandoffQueue (limits_ q) (queue_ q) (queued_bytes_ q) (closed_ q) b
    (resync_pending_ q) (pushed_ q) (dropped_ q) (resyncs_ q).
(** The admission at the end of [push]. *)
Definition admit_message (q : MediaHandoffQueue) (m : HandoffMessage) : MediaHandoffQueue :=
  mkMediaHandoffQueue (limits_ q) (queue_ q ++ [m]) (u64 (queued_bytes_ q + zlen (payload m)))
    (closed_ q) (awaiting_keyframe_ q) (resync_pending_ q) (u64 (pushed_ q + 1)) (dropped_ q)
    (resyncs_ q).

Definition push (q : MediaHandoffQueue) (m : HandoffMessage) : MediaHandoffQueue * bool :=
  let size := zlen (payload m) in
  if closed_ q then (q, false) else
  if video m && keyframe m then
    let q :=
      if over_limit q size then
        note_resync (clear (count_dropped q (zlen (queue_ q))))
      else if awaiting_keyframe_ q then note_resync q else q in
    (admit_message (set_awaiting q false) m, true)
  else if video m && negb (sequence_header m) then
    if awaiting_keyframe_ q || over_limit q size then
      (count_dropped (set_awaiting q true) 1, false)
    else (admit_message q m, true)
  else if over_limit q size then
    if u64 (max_bytes (limits_ q) * kHardCapMultiple) <? u64 (queued_bytes_ q + size) then
      (count_dropped q 1, false)
    else (admit_message q m, true)
  else (admit_message q m, true).

Inductive PopResult :=
| Popped (m : HandoffMessage)
| Drained
| Waiting.

Definition pop (q : MediaHandoffQueue) : MediaHandoffQueue * PopResult :=
  match queue_ q with
  | [] => (q, if closed_ q then Drained else Waiting)
  | m :: rest =>
      (mkMediaHandoffQueue (limits_ q) rest (u64 (queued_bytes_ q - zlen (payload m))) (closed_ q)
         (awaiting_keyframe_ q) (resync_pending_ q) (pushed_ q) (dropped_ q) (resyncs_ q),
       Popped m)
  end.

(** [pop_for] comes back empty-handed when the time is over. *)
Definition pop_for (q : MediaHandoffQueue) : MediaHandoffQueue * option HandoffMessage :=
  match pop q with
  | (q, Popped m) => (q, Some m)
  | (q, _) => (q, None)
  end.

Definition close (q : MediaHandoffQueue) : MediaHandoffQueue :=
  mkMediaHandoffQueue (limits_ q) (queue_ q) (queued_bytes_ q) true (awaiting_keyframe_ q)
    (resync_pending_ q) (pushed_ q) (dropped_ q) (resyncs_ q).

Definition take_resync (q : MediaHandoffQueue) : MediaHandoffQueue * bool :=
  (mkMediaHandoffQueue (limits_ q) (queue_ q) (queued_bytes_ q) (closed_ q)
     (awaiting_keyframe_ q) false (pushed_ q) (dropped_ q) (resyncs_ q), resync_pending_ q).

Definition stats (q : MediaHandoffQueue) : HandoffStats :=
  mkHandoffStats (pushed_ q) (dropped_ q) (resyncs_ q) (queued_bytes_ q) (zlen (queue_ q)).

(** * The timestamp unwrapper *)

Record TimestampUnwrapper := mkTimestampUnwrapper { last_ : option Z; epoch_ : Z }.
Definition make_unwrapper : TimestampUnwrapper := mkTimestampUnwrapper None 0.

Definition unwrap (c : TimestampUnwrapper) (value : Z) : TimestampUnwrapper * Z :=
  let epoch :=
    match last_ c with
    | Some last =>
        if (value <? last) && (0x80000000 <? u32 (last - value)) then u64 (epoch_ c + 2 ^ 32)
        else epoch_ c
    | None => epoch_ c
    end in
  (mkTimestampUnwrapper (Some value) epoch, u64 (epoch + value)).

Fixpoint unwrap_all (c : TimestampUnwrapper) (values : list Z) : list Z :=
  match values with
  | [] => []
  | v :: values => let '(c, t) := unwrap c v in t :: unwrap_all c values
  end.

(** * A producer: IngestTranscodeSink (transcoding/native/ingest_transcoder.cpp)

    StreamTargetSink (relay/stream_target.cpp) fills the same fields. *)

Definition handoff_audio (bytes : list byte) (time : Z) : HandoffMessage :=
  mkHandoffMessage false false false false time bytes.

Definition handoff_video (bytes : list byte) (time : Z) : HandoffMessage :=
  match MediaIngest.classify_video_tag bytes with
  | Some info =>
      mkHandoffMessage true false
        ((MediaIngest.frame_type info =? MediaIngest.VideoFrameType.KeyFrame) ||
         (MediaIngest.frame_type info =? MediaIngest.VideoFrameType.GeneratedKeyFrame))
        (bool_decide (MediaIngest.avc_packet_type info
                      = Some MediaIngest.AvcPacketType.SequenceHeader) ||
         bool_decide (MediaIngest.ex_packet_type info
                      = Some MediaIngest.ExVideoPacketType.SequenceStart))
        time bytes
  | None => mkHandoffMessage true false false false time bytes
  end.

(** * Histories *)

Inductive operation := Push (m : HandoffMessage) | Pop | Close | TakeResync.

(** The queue with what the worker got and what the publisher was told. *)
Record history := mkHistory {
  now : MediaHandoffQueue;
  given : list HandoffMessage;
  popped : list HandoffMessage;
  refused_late : Z
}.
Definition start (limits : HandoffLimits) : history := mkHistory (make_queue limits) [] [] 0.

Definition step (h : history) (op : operation) : history :=
  match op with
  | Push m =>
      mkHistory (push (now h) m).1 (given h ++ [m]) (popped h)
                (refused_late h + if closed_ (now h) then 1 else 0)
  | Pop =>
      match pop (now h) with
      | (q, Popped m) => mkHistory q (given h) (popped h ++ [m]) (refused_late h)
      | (q, _) => mkHistory q (given h) (popped h) (refused_late h)
      end
  | Close => mkHistory (close (now h)) (given h) (popped h) (refused_late h)
  | TakeResync => mkHistory (take_resync (now h)).1 (given h) (popped h) (refused_late h)
  end.
Definition run (limits : HandoffLimits) (ops : list operation) : history :=
  fold_left step ops (start limits).

(** The messages that take part in the drop: pictures, and whatever else of the video is
    marked as a keyframe. *)
Definition frame (m : HandoffMessage) : bool := video m && (keyframe m || negb (sequence_header m)).
Definition frames (l : list HandoffMessage) : list HandoffMessage := List.filter frame l.

(** [gated w ins outs w']: [outs] is [ins] with frames left out, where after a frame is
    left out nothing but one marked as a keyframe follows; [w] and [w'] say whether one is
    missing before and after. *)
Inductive gated : bool -> list HandoffMessage -> list HandoffMessage -> bool -> Prop :=
| gated_nil w : gated w [] [] w
| gated_keep w m ins outs w' :
    w = false \/ keyframe m = true -> gated false ins outs w' ->
    gated w (m :: ins) (m :: outs) w'
| gated_drop w m ins outs w' : gated true ins outs w' -> gated w (m :: ins) outs w'.

Definition pushes (ops : list operation) : list HandoffMessage :=
  omap (fun op => match op with Push m => Some m | _ => None end) ops.

(** * Lemmas on gated streams *)

Lemma gated_snoc_keep w ins outs w' m :
  gated w ins outs w' -> w' = false \/ keyframe m = true -> gated w (ins ++ [m]) (outs ++ [m]) false.
Proof.
  induction 1 as [w|w x ins outs w' Hx _ IH|w x ins outs w' _ IH]; intros Hm; cbn [app].
  - apply gated_keep; [done|constructor].
  - apply gated_keep; [done|by apply IH].
  - apply gated_drop. by apply IH.
Qed.

Lemma gated_snoc_drop w ins outs w' m : gated w ins outs w' -> gated w (ins ++ [m]) outs true.
Proof.
  induction 1 as [w|w x ins outs w' Hx _ IH|w x ins outs w' _ IH]; cbn [app].
  - apply gated_drop. constructor.
  - by apply gated_keep.
  - by apply gated_drop.
Qed.

Lemma gated_none ins : gated true ins [] true.
Proof. induction ins as [|m ins IH]; [constructor|by apply gated_drop]. Qed.

(** What is delivered from the end of a gated stream can be taken back. *)
Lemma gated_cut w ins o1 o2 w' : gated w ins (o1 ++ o2) w' -> exists w'', gated w ins o1 w''.
Proof.
  intros H. remember (o1 ++ o2) as outs eqn:Ho. revert o1 Ho.
  induction H as [w|w x ins outs w' Hx _ IH|w x ins outs w' _ IH]; intros o1 Ho.
  - symmetry in Ho. apply app_nil in Ho as [-> _]. exists w. constructor.
  - destruct o1 as [|y o1].
    + exists true. apply gated_drop, gated_none.
    + injection Ho as <- Ho. destruct (IH o1 Ho) as [w'' Hw]. exists w''. by apply gated_keep.
  - destruct (IH o1 Ho) as [w'' Hw]. exists w''. by apply gated_drop.
Qed.

Lemma frames_app l1 l2 : frames (l1 ++ l2) = frames l1 ++ frames l2.
Proof. apply List.filter_app. Qed.
Lemma frames_snoc l m : frames (l ++ [m]) = frames l ++ (if frame m then [m] else []).
Proof. rewrite frames_app. cbn. by destruct (frame m). Qed.

(** * The invariant of a history *)

Definition total (l : list HandoffMessage) : Z :=
  foldr (fun m acc => zlen (payload m) + acc) 0 l.

Record sound (limits : HandoffLimits) (largest : Z) (h : history) : Prop := {
  s_limits : limits_ (now h) = limits;
  s_gate : exists w, gated false (frames (given h)) (frames (popped h ++ queue_ (now h))) w /\
             (w = true -> awaiting_keyframe_ (now h) = true \/ closed_ (now h) = true);
  s_bytes : queued_bytes_ (now h) = total (queue_ (now h));
  s_bound : total (queue_ (now h)) <= Z.max (4 * max_bytes limits) largest;
  s_count : zlen (given h)
            = zlen (popped h) + zlen (queue_ (now h)) + dropped_ (now h) + refused_late h;
  s_nonneg : 0 <= dropped_ (now h) /\ 0 <= refused_late h
}.

Lemma total_app l1 l2 : total (l1 ++ l2) = total l1 + total l2.
Proof. induction l1 as [|m l1 IH]; [done|]. unfold total in *. cbn [app foldr]. lia. Qed.
Lemma total_nonneg l : 0 <= total l.
Proof.
  induction l as [|m l IH]; [done|]. pose proof (zlen_nonneg (payload m)).
  unfold total in *. cbn [foldr]. lia.
Qed.

Lemma gate_refused w ins outs m :
  gated false (frames ins) outs w -> frame m = true ->
  gated false (frames (ins ++ [m])) outs true.
Proof. intros H Hm. rewrite frames_snoc, Hm. by eapply gated_snoc_drop. Qed.
Lemma gate_other w ins l m :
  gated false (frames ins) (frames l) w -> frame m = false ->
  gated false (frames (ins ++ [m])) (frames (l ++ [m])) w.
Proof. intros H Hm. rewrite !frames_snoc, Hm, !app_nil_r. done. Qed.
Lemma gate_other_refused w ins l m :
  gated false (frames ins) (frames l) w -> frame m = false ->
  gated false (frames (ins ++ [m])) (frames l) w.
Proof. intros H Hm. rewrite !frames_snoc, Hm, !app_nil_r. done. Qed.
Lemma gate_admitted w ins l m :
  gated false (frames ins) (frames l) w -> frame m = true -> w = false \/ keyframe m = true ->
  gated false (frames (ins ++ [m])) (frames (l ++ [m])) false.
Proof. intros H Hm Hk. rewrite !frames_snoc, Hm. by eapply gated_snoc_keep. Qed.

(** One push, by what becomes of the message: the queue is cut back to [kept] and the
    message is appended, or it is refused. *)
Inductive push_case (q : MediaHandoffQueue) (m : HandoffMessage) : MediaHandoffQueue -> Prop :=
| case_closed : closed_ q = true -> push_case q m q
| case_admitted kept q' :
    closed_ q = false ->
    (kept = queue_ q \/ kept = [] /\ keyframe m = true /\ frame m = true) ->
    queue_ q' = kept ++ [m] -> queued_bytes_ q' = u64 (total kept + zlen (payload m)) ->
    (total (kept ++ [m]) <= 4 * max_bytes (limits_ q) \/ kept = []) ->
    dropped_ q' = u64 (dropped_ q + (zlen (queue_ q) - zlen kept)) ->
    limits_ q' = limits_ q -> closed_ q' = false ->
    (frame m = true -> keyframe m = true \/ awaiting_keyframe_ q = false) ->
    awaiting_keyframe_ q' = (if frame m then false else awaiting_keyframe_ q) ->
    push_case q m q'
| case_refused q' :
    closed_ q = false -> queue_ q' = queue_ q -> queued_bytes_ q' = queued_bytes_ q ->
    dropped_ q' = u64 (dropped_ q + 1) -> limits_ q' = limits_ q -> closed_ q' = false ->
    awaiting_keyframe_ q' = frame m || awaiting_keyframe_ q ->
    push_case q m q'.

Section Push.
Context (q : MediaHandoffQueue) (m : HandoffMessage).
Hypothesis opened : closed_ q = false.
Hypothesis counted : queued_bytes_ q = total (queue_ q).
Hypothesis fits : 0 <= dropped_ q < 2 ^ 64.

Lemma admitted_as_is q0 :
  queue_ q0 = queue_ q -> queued_bytes_ q0 = queued_bytes_ q -> dropped_ q0 = dropped_ q ->
  limits_ q0 = limits_ q -> closed_ q0 = false ->
  total (queue_ q) + zlen (payload m) <= 4 * max_bytes (limits_ q) ->
  (frame m = true -> keyframe m = true \/ awaiting_keyframe_ q = false) ->
  awaiting_keyframe_ q0 = (if frame m then false else awaiting_keyframe_ q) ->
  push_case q m (admit_message q0 m).
Proof.
  intros H1 H2 H3 H4 H5 Ht Hf Ha. apply (case_admitted _ _ (queue_ q)); cbn; try done.
  - by left.
  - by rewrite H1.
  - by rewrite H2, counted.
  - left. rewrite total_app. unfold total at 2. cbn [foldr]. lia.
  - unfold u64. rewrite H3, Z.sub_diag, Z.add_0_r, Z.mod_small; lia.
Qed.

Lemma refused_as q0 :
  queue_ q0 = queue_ q -> queued_bytes_ q0 = queued_bytes_ q -> dropped_ q0 = dropped_ q ->
  limits_ q0 = limits_ q -> closed_ q0 = false ->
  awaiting_keyframe_ q0 = frame m || awaiting_keyframe_ q ->
  push_case q m (count_dropped q0 1).
Proof. intros H1 H2 H3 H4 H5 Ha. apply case_refused; cbn; try done. by rewrite H3. Qed.
End Push.

Lemma push_cases q m :
  0 <= max_bytes (limits_ q) < 2 ^ 60 -> zlen (payload m) < 2 ^ 60 ->
  queued_bytes_ q = total (queue_ q) -> total (queue_ q) < 2 ^ 63 ->
  0 <= dropped_ q < 2 ^ 64 -> push_case q m (push q m).1.
Proof.
  intros Hl Hm Hq Ht Hd. unfold push, over_limit. pose proof (zlen_nonneg (payload m)) as Hz.
  pose proof (total_nonneg (queue_ q)) as Ht0.
  assert (Hu : u64 (queued_bytes_ q + zlen (payload m)) = total (queue_ q) + zlen (payload m))
    by (unfold u64; rewrite Hq, Z.mod_small; lia).
  rewrite Hu. destruct (closed_ q) eqn:Hc; [by apply case_closed|].
  destruct (Z.ltb_spec (max_bytes (limits_ q)) (total (queue_ q) + zlen (payload m))) as [Hb|Hb];
    [|destruct (max_messages (limits_ q) <? u64 (zlen (queue_ q) + 1))]; cbn [orb].
  all: destruct (video m) eqn:Hv; cbn [andb].
  all: assert (Hf : frame m = video m && (keyframe m || negb (sequence_header m))) by done; rewrite Hv in Hf; cbn [andb] in Hf.
  all: try (destruct (keyframe m) eqn:Hk; cbn [orb] in Hf).
  all: try (destruct (sequence_header m); cbn [negb] in Hf |- * ).
  all: try (destruct (u64 (max_bytes (limits_ q) * kHardCapMultiple) <? total (queue_ q) + zlen (payload m)) eqn:Hcap).
  all: try (destruct (awaiting_keyframe_ q) eqn:Ha; cbn [orb]).
  all: cbn [fst].
  all: try (apply refused_as; cbn; rewrite ?Hf, ?Ha; done).
  all: try (apply admitted_as_is; cbn; rewrite ?Hf, ?Ha; auto; 
     unfold u64, kHardCapMultiple in *; try rewrite Z.mod_small in Hcap by lia; lia).
  all: try (apply (case_admitted _ _ []); cbn; rewrite ?Hf; auto; unfold u64; f_equal; rewrite ?zlen_nil; lia).
Qed.

Lemma given_fold ops : forall h, given (fold_left step ops h) = given h ++ pushes ops.
Proof.
  induction ops as [|op ops IH]; intros h; cbn [fold_left]; [by rewrite app_nil_r|].
  rewrite IH. destruct op as [m| | |]; cbn; [by rewrite <- app_assoc| |done|done].
  unfold pop. destruct (queue_ (now h)); [by destruct (closed_ (now h))|done].
Qed.
Lemma given_run limits ops : given (run limits ops) = pushes ops.
Proof. apply (given_fold ops (start limits)). Qed.

Lemma zlen_pushes ops : zlen (pushes ops) <= Z.of_nat (length ops).
Proof.
  induction ops as [|op ops IH]; [done|]. destruct op; cbn; rewrite ?zlen_cons; unfold pushes in IH; lia.
Qed.

Section Sound.
Context (limits : HandoffLimits) (largest : Z).
Hypothesis limits_fit : 0 <= max_bytes limits < 2 ^ 60 /\ 0 <= largest < 2 ^ 60.

Definition sized (m : HandoffMessage) : Prop := zlen (payload m) <= largest.

Lemma start_sound : sound limits largest (start limits).
Proof.
  split; cbn; try done; try lia. exists false. split; [constructor|done].
Qed.

Lemma push_sound h m :
  sound limits largest h -> sized m -> zlen (given h) < 2 ^ 63 ->
  sound limits largest (step h (Push m)).
Proof.
  intros [Hl (w & Hg & Hw) Hb Hm Hc [Hn1 Hn2] ] Hs Hg63. unfold sized in Hs.
  pose proof (zlen_nonneg (popped h)). pose proof (zlen_nonneg (queue_ (now h))).
  assert (Hcase : push_case (now h) m (push (now h) m).1).
  { apply push_cases; rewrite ?Hl; try done; lia. }
  set (q' := (push (now h) m).1) in *. unfold step. fold q'.
  destruct Hcase as [Hcl|kept q' Hcl Hk Hq Hqb Ht Hd Hlim Hcl' Hf Ha|q' Hcl Hq Hqb Hd Hlim Hcl' Ha];
    split; cbn [now given popped refused_late]; rewrite ?Hcl, ?Hlim; try done.
  - destruct (frame m) eqn:Hfm.
    + exists true. split; [by eapply gate_refused|auto].
    + exists w. split; [by apply gate_other_refused|auto].
  - zlia.
  - lia.
  - rewrite Hq, app_assoc, Ha. cbn [orb].
    assert (Hgk : exists w', gated false (frames (given h)) (frames (popped h ++ kept)) w' /\
        (w' = w \/ keyframe m = true /\ frame m = true)).
    { destruct Hk as [->|(-> & Hkm & Hfm)]; [exists w; auto|]. rewrite app_nil_r.
      rewrite frames_app in Hg. apply gated_cut in Hg as [w' Hg]. exists w'. auto. }
    destruct Hgk as (w' & Hgk & Hww). destruct (frame m) eqn:Hfm.
    + exists false. split; [|done]. eapply gate_admitted; [done..|].
      destruct Hww as [->|[? _] ]; [|by right].
      destruct (Hf eq_refl) as [?|?]; [by right|left]. destruct w; [|done].
      destruct (Hw eq_refl); congruence.
    + exists w'. split; [by apply gate_other|]. destruct Hww as [->|[_ ?] ]; [|done].
      intros ->. destruct (Hw eq_refl); auto; congruence.
  - rewrite Hq, Hqb, total_app. change (total [m]) with (zlen (payload m) + 0). unfold u64.
    assert (Hkt : total kept <= total (queue_ (now h)))
      by (destruct Hk as [->|[-> _] ]; [lia|apply total_nonneg]).
    pose proof (total_nonneg kept). pose proof (zlen_nonneg (payload m)). rewrite Z.mod_small; lia.
  - rewrite Hq. rewrite Hl in Ht. destruct Ht as [Ht|Ht]; [lia|]. subst kept.
    change (total ([] ++ [m])) with (zlen (payload m) + 0). lia.
  - rewrite Hq, Hd. unfold u64. assert (Hkl : zlen kept <= zlen (queue_ (now h)))
      by (destruct Hk as [->|[-> _] ]; [lia|zlia]).
    rewrite Z.mod_small by (pose proof (zlen_nonneg kept); lia). zlia.
  - rewrite Hd. split; [|lia]. apply Z.mod_pos_bound. lia.
  - rewrite Hq, Ha. destruct (frame m) eqn:Hfm; cbn [orb].
    + exists true. split; [by eapply gate_refused|auto].
    + exists w. split; [by apply gate_other_refused|]. intros ->. destruct (Hw eq_refl); auto; congruence.
  - by rewrite Hq, Hqb.
  - by rewrite Hq.
  - rewrite Hq, Hd. unfold u64. rewrite Z.mod_small by lia. zlia.
  - rewrite Hd. split; [|lia]. apply Z.mod_pos_bound. lia.
Qed.

Lemma pop_sound h : sound limits largest h -> sound limits largest (step h Pop).
Proof.
  intros Hs. pose proof Hs as [Hl (w & Hg & Hw) Hb Hm Hc Hn]. unfold step, pop.
  destruct (queue_ (now h)) as [|m rest] eqn:Hq.
  { destruct (closed_ (now h)); by destruct h. }
  change (total (m :: rest)) with (zlen (payload m) + total rest) in *.
  pose proof (zlen_nonneg (payload m)). pose proof (total_nonneg rest).
  split; cbn [now given popped refused_late queue_ queued_bytes_ dropped_ limits_ awaiting_keyframe_ closed_]; try done.
  - exists w. rewrite <- app_assoc. done.
  - rewrite Hb. unfold u64. rewrite Z.mod_small; lia.
  - lia.
  - zlia.
Qed.

Lemma quiet_sound h op :
  op = Close \/ op = TakeResync -> sound limits largest h -> sound limits largest (step h op).
Proof.
  intros [-> | ->] [Hl (w & Hg & Hw) Hb Hm Hc Hn]; split; cbn; try done; exists w; auto.
Qed.

Lemma run_sound ops :
  Forall sized (pushes ops) -> Z.of_nat (length ops) < 2 ^ 63 ->
  sound limits largest (run limits ops).
Proof.
  unfold run. induction ops as [|op ops IH] using rev_ind; intros Hs Hl; [apply start_sound|].
  rewrite fold_left_app. cbn [fold_left]. rewrite length_app in Hl. cbn in Hl.
  unfold pushes in Hs. rewrite omap_app, Forall_app in Hs. destruct Hs as [Hs1 Hs2].
  assert (IH' := IH Hs1 ltac:(lia)). clear IH.
  destruct op as [m| | |]; [|by apply pop_sound|by apply quiet_sound; [left|]|by apply quiet_sound; [right|]].
  apply push_sound; [done|by inversion Hs2|].
  change (fold_left step ops (start limits)) with (run limits ops). rewrite given_run.
  pose proof (zlen_pushes ops). lia.
Qed.
End Sound.

(** C36. Whatever is pushed, and whatever the interleaving of pushes, pops, resync polls and
    close, what the worker gets of the video is what was pushed with frames left out only up
    to a message marked as a keyframe: after a frame has been dropped nothing but such a
    message follows.  The bytes the queue accounts for are those of the messages in it and
    never exceed four times its limit (or one keyframe, if that is larger); and every message
    pushed while it was open is delivered, still queued, or counted as dropped.  (That the
    sinks of the repository mark AVC sequence headers as keyframes, so that one of them ends
    a drop, is a finding.) *)
Theorem handoff_contract limits largest ops :
  0 <= max_bytes limits < 2 ^ 60 -> 0 <= largest < 2 ^ 60 ->
  Forall (sized largest) (pushes ops) -> Z.of_nat (length ops) < 2 ^ 63 ->
  let h := run limits ops in
  let s := stats (now h) in
  (exists w, gated false (frames (pushes ops)) (frames (popped h)) w) /\
  queued_bytes s = total (queue_ (now h)) /\
  queued_bytes s <= Z.max (4 * max_bytes limits) largest /\
  zlen (pushes ops) = zlen (popped h) + queued_messages s + dropped s + refused_late h.
Proof.
  intros Hm Hl Hs Hn. destruct (run_sound limits largest (conj Hm Hl) ops Hs Hn) as [_ (w & Hg & _) Hb Hbd Hc _].
  rewrite given_run in *. split; [rewrite frames_app in Hg; by eapply gated_cut|]. cbn. rewrite Hb. done.
Qed.

(** A frame, a sequence header and a keyframe, for the witnesses. *)
Definition delta (n : Z) : HandoffMessage := mkHandoffMessage true false false false n [x00].
Definition key (n : Z) : HandoffMessage := mkHandoffMessage true false true false n [x00].
Definition header (n : Z) : HandoffMessage := mkHandoffMessage true false false true n [x00].
Definition tight : HandoffLimits := mkHandoffLimits 100 2.
Definition sample_ops : list operation :=
  [Push (key 1); Push (delta 2); Push (delta 3); Pop; Push (delta 4); Push (header 5); Push (key 6);
   Pop; TakeResync; Push (delta 7); Close; Push (key 8); Pop; Pop].

Lemma sample_sized : Forall (sized 1) (pushes sample_ops).
Proof. repeat (constructor; [by vm_compute|]). constructor. Qed.

Lemma handoff_contract_witness :
  let h := run tight sample_ops in
  map timestamp (popped h) = [1; 6; 7] /\ dropped (stats (now h)) = 4 /\
  (exists w, gated false (frames (pushes sample_ops)) (frames (popped h)) w) /\
  zlen (pushes sample_ops) = 3 + 0 + 4 + 1.
Proof.
  intros h. split; [reflexivity|]. split; [reflexivity|].
  destruct (handoff_contract tight 1 sample_ops) as (H1 & _ & _ & H4); [cbn; lia|lia|exact sample_sized|cbn; lia|].
  split; [exact H1|exact H4].
Defined.

(** * Where more is meant than the queue does *)

(** Pictures, without the headers. *)
Definition pictures (l : list HandoffMessage) : list HandoffMessage :=
  List.filter (fun m => video m && negb (sequence_header m)) l.


(** The publisher sinks mark an H.264 sequence header, whose tag says keyframe, as both
    keyframe and sequence header, and [push] looks at the keyframe flag first.  So a
    sequence header that comes while frames are being dropped ends the drop: here the
    worker gets frame 3 without frame 2, which it refers to. *)
Theorem sequence_header_ends_drop :
  let inter n := handoff_video [x27; x01; x00; x00; x00; x41] n in
  let intra n := handoff_video [x17; x01; x00; x00; x00; x65] n in
  let avc_header n := handoff_video [x17; x00; x00; x00; x00; x01] n in
  let h := run (mkHandoffLimits 100 1)
             [Push (intra 1); Push (inter 2); Pop; Push (avc_header 3); Pop; Push (inter 4); Pop] in
  (forall n, keyframe (avc_header n) = true /\ sequence_header (avc_header n) = true) /\
  pictures (popped h) = [intra 1; inter 4] /\ pictures (given h) = [intra 1; inter 2; inter 4] /\
  ~ exists w, gated false (pictures (given h)) (pictures (popped h)) w.
Proof.
  cbn zeta. split_and!; [done|reflexivity|reflexivity|].
  intros (w & H). vm_compute in H.
  inversion H as [|? ? ? ? ? _ H1|? ? ? ? ? H1]; subst; clear H.
  - inversion H1 as [| |? ? ? ? ? H2]; subst; clear H1.
    inversion H2 as [|? ? ? ? ? Hk _|? ? ? ? ? H3]; subst.
    + by destruct Hk.
    + inversion H3.
  - inversion H1 as [| |? ? ? ? ? H2]; subst; clear H1.
    inversion H2 as [| |? ? ? ? ? H3]; subst. inversion H3.
Qed.

(** A keyframe that finds the queue full throws away everything in it, including audio
    and the sequence headers that the keyframe itself needs. *)
Theorem full_queue_loses_headers q m :
  closed_ q = false -> video m = true -> keyframe m = true ->
  over_limit q (zlen (payload m)) = true -> queue_ (push q m).1 = [m].
Proof.
  intros Hc Hv Hk Ho. unfold push. rewrite Hc, Hv, Hk. cbn [andb]. by rewrite Ho.
Qed.

Lemma full_queue_loses_headers_witness :
  let q := (push (push (make_queue tight) (header 1)).1 (handoff_audio [x00] 2)).1 in
  over_limit q 1 = true /\ map sequence_header (queue_ q) = [true; false] /\
  queue_ (push q (key 3)).1 = [key 3].
Proof.
  cbn zeta. split_and!; [reflexivity|reflexivity|].
  apply full_queue_loses_headers; reflexivity.
Defined.

(** ** The unwrapper *)

(** The clock stands at [t], a time that is not reduced modulo 2^32. *)
Definition stands_at (c : TimestampUnwrapper) (t : Z) : Prop :=
  last_ c = Some (t mod 2 ^ 32) /\ epoch_ c = t - t mod 2 ^ 32.

Lemma unwrap_first t : 0 <= t < 2 ^ 32 -> 
  (unwrap make_unwrapper t).2 = t /\ stands_at (unwrap make_unwrapper t).1 t.
Proof.
  intros Ht. unfold unwrap, stands_at, u64. cbn. rewrite !Z.mod_small by lia. split_and!; [lia|done|lia].
Qed.

Lemma unwrap_next c t t' :
  stands_at c t -> 0 <= t < 2 ^ 63 -> 0 <= t' < 2 ^ 63 ->
  t <= t' < t + 2 ^ 31 \/ (t' < t <= t' + 2 ^ 31 /\ t' / 2 ^ 32 = t / 2 ^ 32) ->
  (unwrap c (t' mod 2 ^ 32)).2 = t' /\ stands_at (unwrap c (t' mod 2 ^ 32)).1 t'.
Proof.
  intros [Hl He] Ht Ht' Hd. unfold unwrap. rewrite Hl, He. unfold stands_at. cbn [last_ epoch_ fst snd].
  assert (Hep : (if (t' mod 2 ^ 32 <? t mod 2 ^ 32) && (0x80000000 <? u32 (t mod 2 ^ 32 - t' mod 2 ^ 32))
    then u64 (t - t mod 2 ^ 32 + 2 ^ 32) else t - t mod 2 ^ 32) = t' - t' mod 2 ^ 32).
  { unfold u32, u64.
    destruct (Z.ltb_spec (t' mod 2 ^ 32) (t mod 2 ^ 32)); cbn [andb];
      [destruct (Z.ltb_spec 0x80000000 ((t mod 2 ^ 32 - t' mod 2 ^ 32) mod 2 ^ 32)) as [Hw|Hw];
       rewrite (Z.mod_small (t mod 2 ^ 32 - t' mod 2 ^ 32)) in Hw by (Z.to_euclidean_division_equations; lia)|].
    - rewrite Z.mod_small by (Z.to_euclidean_division_equations; lia).
      Z.to_euclidean_division_equations; lia.
    - Z.to_euclidean_division_equations; lia.
    - Z.to_euclidean_division_equations; lia. }
  rewrite Hep. split_and!; [|done|done]. unfold u64. rewrite Z.mod_small; lia.
Qed.

(** Times that never step back and advance by less than 2^31 at a time. *)
Fixpoint advancing (t : Z) (times : list Z) : Prop :=
  match times with
  | [] => True
  | t' :: times => t <= t' < t + 2 ^ 31 /\ t' < 2 ^ 63 /\ advancing t' times
  end.

Lemma unwrap_advancing times : forall c t,
  stands_at c t -> 0 <= t < 2 ^ 63 -> advancing t times ->
  unwrap_all c (map (fun t => t mod 2 ^ 32) times) = times.
Proof.
  induction times as [|t' times IH]; intros c t Hc Ht Ha; [done|]. destruct Ha as (H1 & H2 & Ha).
  cbn [map unwrap_all]. destruct (unwrap_next c t t' Hc Ht) as [Ho Hs]; [lia|by left|].
  destruct (unwrap c (t' mod 2 ^ 32)) as [c' o]. cbn [fst snd] in Ho, Hs. subst o.
  f_equal. apply (IH c' t' Hs); [lia|exact Ha].
Qed.

(** The unwrapper gives back the times behind any sequence of 32-bit timestamps that
    never steps back, across any number of wraps. *)
Theorem unwrapper_exact t times :
  0 <= t < 2 ^ 32 -> advancing t times ->
  unwrap_all make_unwrapper (map (fun t => t mod 2 ^ 32) (t :: times)) = t :: times.
Proof.
  intros Ht Ha. cbn [map unwrap_all]. rewrite Z.mod_small by lia.
  destruct (unwrap_first t Ht) as [Ho Hs]. destruct (unwrap make_unwrapper t) as [c o].
  cbn [fst snd] in Ho, Hs. subst o. f_equal. eapply unwrap_advancing; [done|lia|done].
Qed.

Lemma unwrapper_exact_witness :
  0 <= 2 ^ 32 - 5 < 2 ^ 32 /\ advancing (2 ^ 32 - 5) [2 ^ 32 + 3; 2 ^ 32 + 40] /\
  unwrap_all make_unwrapper [2 ^ 32 - 5; 3; 40] = [2 ^ 32 - 5; 2 ^ 32 + 3; 2 ^ 32 + 40].
Proof.
  assert (Ha : advancing (2 ^ 32 - 5) [2 ^ 32 + 3; 2 ^ 32 + 40]) by (cbn; lia).
  split_and!; [lia|lia|exact Ha|].
  apply (unwrapper_exact (2 ^ 32 - 5) [2 ^ 32 + 3; 2 ^ 32 + 40]); [lia|exact Ha].
Defined.

(** One timestamp that is a little late at the wrap moves the clock 2^32 ms ahead, for
    good: it is not recognised as belonging to the previous epoch, and the next one in
    order then counts as another wrap. *)
Theorem late_timestamp_jumps :
  unwrap_all make_unwrapper [2 ^ 32 - 5; 3; 2 ^ 32 - 2; 10]
  = [2 ^ 32 - 5; 2 ^ 32 + 3; 2 * 2 ^ 32 - 2; 2 * 2 ^ 32 + 10].
Proof. reflexivity. Qed.
