(* ===== verification/HlsSegment.v ===== *)
(** hls/segment.hpp: segments, partial segments and the keys they are encrypted under.
    A [core::SharedBuffer] is immutable shared bytes: a list. *)

From S2P Require Import Prelude.

Record EncryptionKeyInfo := mkEncryptionKeyInfo {
  key_method : string;
  key_uri : string;
  iv_hex : string;
  key_format : string;
  key_format_versions : string
}.
Definition encrypted (k : EncryptionKeyInfo) : bool :=
  negb (String.eqb (key_method k) "") && negb (String.eqb (key_method k) "NONE").

Record Part := mkPart {
  part_segment_sequence : Z;
  part_index : Z;
  part_name : string;
  part_data : list byte;
  part_duration : Z;
  part_independent : bool
}.

Definition part_size_bytes (p : Part) : Z := zlen (part_data p).

Record Segment := mkSegment {
  seg_sequence : Z;
  seg_name : string;
  seg_data : list byte;
  seg_duration : Z;
  seg_discontinuity : bool;
  seg_parts : list Part;
  seg_key : option EncryptionKeyInfo;
  seg_iframe_prefix_bytes : Z
}.
Definition size_bytes (s : Segment) : Z := zlen (seg_data s).
