(* ===== verification/HlsSegmenter.v ===== *)
(** hls/segmenter.cpp: one publisher's audio and video, repackaged as MPEG-TS segments and
    low-latency parts.

    The callbacks are events, in the order of the calls; durations and timestamps are
    milliseconds.  A handler returns [Res] because the parsers it calls do; the
    totality theorem shows that it always comes back.  Counters are unbounded here. *)

From S2P Require Import Prelude Bytes Nal Avc Chunk TsMuxer Text HlsSegment.
From S2P Require Aac.

Record SegmenterConfig := mkSegmenterConfig {
  target_duration : Z;
  max_segment_bytes : Z;
  max_segment_duration : Z;
  discontinuity_threshold : Z;
  segment_name_prefix : string;
  segment_name_suffix : string;
  initial_sequence : Z;
  part_target_duration : Z
}.
Definition default_segmenter_config : SegmenterConfig :=
  mkSegmenterConfig 4000 (16 * 1024 * 1024) 20000 5000 "segment-" ".ts" 0 0.

Record SegmenterStats := mkSegmenterStats {
  segments_produced : Z;
  video_frames : Z;
  audio_frames : Z;
  discontinuities : Z;
  dropped_frames : Z;
  forced_cuts : Z;
  sequence_header_changes : Z;
  parts_produced : Z
}.
Definition no_stats : SegmenterStats := mkSegmenterStats 0 0 0 0 0 0 0 0.

(** The members about the segment being built. *)
Record OpenSegment := mkOpenSegment {
  current_ : list byte;
  segment_open_ : bool;
  segment_start_ts_ : Z;
  open_parts_ : list Part;
  part_start_offset_ : Z;
  part_index_ : Z;
  part_start_ts_ : Z;
  part_independent_ : bool;
  part_has_media_ : bool;
  iframe_prefix_bytes_ : Z
}.
Definition no_segment : OpenSegment := mkOpenSegment [] false 0 [] 0 0 0 false false 0.

Record Segmenter := mkSegmenter {
  config_ : SegmenterConfig;
  stats_ : SegmenterStats;
  muxer_ : TsMuxer;
  video_config_ : option AvcDecoderConfig;
  audio_config_ : option Aac.AudioSpecificConfig;
  seg_ : OpenSegment;
  last_ts_ : Z;
  have_last_ts_ : bool;
  pending_discontinuity_ : bool;
  next_sequence_ : Z;
  timeline_base_ms_ : Z;
  finalized_ : bool;
  sps_first_bytes_ : list byte
}.
Definition make_segmenter (config : SegmenterConfig) : Segmenter :=
  mkSegmenter config no_stats (make_muxer default_config) None None no_segment 0 false false
    (initial_sequence config) 0 false [].

Inductive hls_event := OnPart (p : Part) | OnSegment (s : Segment).

(** ** Assignments *)

Definition set_stats (s : Segmenter) (st : SegmenterStats) : Segmenter :=
  mkSegmenter (config_ s) st (muxer_ s) (video_config_ s) (audio_config_ s) (seg_ s) (last_ts_ s)
    (have_last_ts_ s) (pending_discontinuity_ s) (next_sequence_ s) (timeline_base_ms_ s)
    (finalized_ s) (sps_first_bytes_ s).
Definition set_seg (s : Segmenter) (o : OpenSegment) : Segmenter :=
  mkSegmenter (config_ s) (stats_ s) (muxer_ s) (video_config_ s) (audio_config_ s) o (last_ts_ s)
    (have_last_ts_ s) (pending_discontinuity_ s) (next_sequence_ s) (timeline_base_ms_ s)
    (finalized_ s) (sps_first_bytes_ s).
Definition set_muxer (s : Segmenter) (m : TsMuxer) : Segmenter :=
  mkSegmenter (config_ s) (stats_ s) m (video_config_ s) (audio_config_ s) (seg_ s) (last_ts_ s)
    (have_last_ts_ s) (pending_discontinuity_ s) (next_sequence_ s) (timeline_base_ms_ s)
    (finalized_ s) (sps_first_bytes_ s).
Definition set_configs (s : Segmenter) (v : option AvcDecoderConfig)
    (a : option Aac.AudioSpecificConfig) (sps_bytes : list byte) : Segmenter :=
  mkSegmenter (config_ s) (stats_ s) (muxer_ s) v a (seg_ s) (last_ts_ s)
    (have_last_ts_ s) (pending_discontinuity_ s) (next_sequence_ s) (timeline_base_ms_ s)
    (finalized_ s) sps_bytes.
Definition set_pending (s : Segmenter) (b : bool) : Segmenter :=
  mkSegmenter (config_ s) (stats_ s) (muxer_ s) (video_config_ s) (audio_config_ s) (seg_ s) (last_ts_ s)
    (have_last_ts_ s) b (next_sequence_ s) (timeline_base_ms_ s) (finalized_ s) (sps_first_bytes_ s).
(** [last_ts_], [have_last_ts_] and [timeline_base_ms_]. *)
Definition set_clock (s : Segmenter) (last : Z) (have : bool) (base : Z) : Segmenter :=
  mkSegmenter (config_ s) (stats_ s) (muxer_ s) (video_config_ s) (audio_config_ s) (seg_ s) last
    have (pending_discontinuity_ s) (next_sequence_ s) base (finalized_ s) (sps_first_bytes_ s).

Definition dropped (s : Segmenter) : Segmenter :=
  let t := stats_ s in
  set_stats s (mkSegmenterStats (segments_produced t) (video_frames t) (audio_frames t)
    (discontinuities t) (dropped_frames t + 1) (forced_cuts t) (sequence_header_changes t)
    (parts_produced t)).
Definition forced_cut (s : Segmenter) : Segmenter :=
  let t := stats_ s in
  set_stats s (mkSegmenterStats (segments_produced t) (video_frames t) (audio_frames t)
    (discontinuities t) (dropped_frames t) (forced_cuts t + 1) (sequence_header_changes t)
    (parts_produced t)).
Definition header_changed (s : Segmenter) : Segmenter :=
  let t := stats_ s in
  set_stats s (mkSegmenterStats (segments_produced t) (video_frames t) (audio_frames t)
    (discontinuities t) (dropped_frames t) (forced_cuts t) (sequence_header_changes t + 1)
    (parts_produced t)).
Definition count_part (s : Segmenter) : Segmenter :=
  let t := stats_ s in
  set_stats s (mkSegmenterStats (segments_produced t) (video_frames t) (audio_frames t)
    (discontinuities t) (dropped_frames t) (forced_cuts t) (sequence_header_changes t)
    (parts_produced t + 1)).
Definition count_segment (s : Segmenter) (discontinuous : bool) : Segmenter :=
  let t := stats_ s in
  set_stats s (mkSegmenterStats (segments_produced t + 1) (video_frames t) (audio_frames t)
    (discontinuities t + if discontinuous then 1 else 0) (dropped_frames t) (forced_cuts t)
    (sequence_header_changes t) (parts_produced t)).
Definition count_frames (s : Segmenter) (video audio : Z) : Segmenter :=
  let t := stats_ s in
  set_stats s (mkSegmenterStats (segments_produced t) (video_frames t + video)
    (audio_frames t + audio) (discontinuities t) (dropped_frames t) (forced_cuts t)
    (sequence_header_changes t) (parts_produced t)).

(** * segmenter.cpp *)

Definition to_90k (s : Segmenter) (milliseconds : Z) : Z :=
  let shifted := milliseconds + timeline_base_ms_ s in
  let clamped := if shifted <? 0 then 0 else shifted in
  u64 (clamped * 90).

(** [%02X] of a byte. *)
Definition hex_digit (v : Z) : string :=
  default "" (["0"; "1"; "2"; "3"; "4"; "5"; "6"; "7"; "8"; "9"; "A"; "B"; "C"; "D"; "E"; "F"]%string
              !! Z.to_nat v).
Definition hex2 (b : byte) : string :=
  (hex_digit (b2z b / 16) ++ hex_digit (b2z b mod 16))%string.

Definition codecs_attribute (s : Segmenter) : string :=
  let codecs :=
    match video_config_ s, sps_first_bytes_ s with
    | Some _, _ :: b1 :: b2 :: b3 :: _ => ("avc1." ++ hex2 b1 ++ hex2 b2 ++ hex2 b3)%string
    | _, _ => ""%string
    end in
  match audio_config_ s with
  | Some a =>
      ((if String.eqb codecs "" then codecs else codecs ++ ",")
       ++ "mp4a.40." ++ to_string (Aac.object_type a))%string
  | None => codecs
  end.

Definition is_discontinuous (s : Segmenter) (timestamp : Z) : bool :=
  have_last_ts_ s && (discontinuity_threshold (config_ s) <? Z.abs (timestamp - last_ts_ s)).

(** The part members after a part has been closed at [timestamp]. *)
Definition next_part (o : OpenSegment) (timestamp : Z) (part : Part) : OpenSegment :=
  mkOpenSegment (current_ o) (segment_open_ o) (segment_start_ts_ o) (open_parts_ o ++ [part])
    (zlen (current_ o)) (part_index_ o + 1) timestamp false false (iframe_prefix_bytes_ o).

Definition maybe_close_part (s : Segmenter) (timestamp : Z) (force : bool)
    : Segmenter * list hls_event :=
  let o := seg_ s in
  if part_target_duration (config_ s) <=? 0 then (s, []) else
  if negb (segment_open_ o) then (s, []) else
  if zlen (current_ o) <=? part_start_offset_ o then (s, []) else
  if negb force && (timestamp - part_start_ts_ o <? part_target_duration (config_ s)) then (s, []) else
  let name := (segment_name_prefix (config_ s) ++ to_string (next_sequence_ s) ++ "."
               ++ to_string (part_index_ o) ++ segment_name_suffix (config_ s))%string in
  let part := mkPart (next_sequence_ s) (part_index_ o) name
                (drop (Z.to_nat (part_start_offset_ o)) (current_ o))
                (Z.max 0 (timestamp - part_start_ts_ o)) (part_independent_ o) in
  (count_part (set_seg s (next_part o timestamp part)), [OnPart part]).

Definition closed (o : OpenSegment) : OpenSegment :=
  mkOpenSegment (current_ o) false (segment_start_ts_ o) (open_parts_ o) (part_start_offset_ o)
    (part_index_ o) (part_start_ts_ o) (part_independent_ o) (part_has_media_ o)
    (iframe_prefix_bytes_ o).
Definition emptied (o : OpenSegment) : OpenSegment :=
  mkOpenSegment [] false (segment_start_ts_ o) (open_parts_ o) (part_start_offset_ o)
    (part_index_ o) (part_start_ts_ o) (part_independent_ o) (part_has_media_ o)
    (iframe_prefix_bytes_ o).
Definition published (o : OpenSegment) : OpenSegment :=
  mkOpenSegment [] false (segment_start_ts_ o) [] 0 0 (part_start_ts_ o) (part_independent_ o)
    false 0.

Definition set_next_sequence (s : Segmenter) (n : Z) : Segmenter :=
  mkSegmenter (config_ s) (stats_ s) (muxer_ s) (video_config_ s) (audio_config_ s) (seg_ s) (last_ts_ s)
    (have_last_ts_ s) (pending_discontinuity_ s) n (timeline_base_ms_ s) (finalized_ s)
    (sps_first_bytes_ s).

Definition flush_segment (s : Segmenter) : Segmenter * list hls_event :=
  let o := seg_ s in
  if negb (segment_open_ o) || empty (current_ o) then (set_seg s (closed o), []) else
  if zlen (current_ o) <=? 2 * kPacketSize then (set_seg s (emptied o), []) else
  let '(s, events) := maybe_close_part s (last_ts_ s) true in
  let o := seg_ s in
  let sequence := next_sequence_ s in
  let segment :=
    mkSegment sequence
      (segment_name_prefix (config_ s) ++ to_string sequence ++ segment_name_suffix (config_ s))
      (current_ o) (Z.max 0 (last_ts_ s - segment_start_ts_ o)) (pending_discontinuity_ s)
      (open_parts_ o) None (iframe_prefix_bytes_ o) in
  let discontinuous := pending_discontinuity_ s in
  let s := set_next_sequence (set_seg s (published o)) (sequence + 1) in
  let s := count_segment (set_pending s false) discontinuous in
  (s, events ++ [OnSegment segment]).

(** [timeline_base_ms_ += last_ts_ + 1], with the rest of a reconnect. *)
Definition mark_publisher_reconnect (s : Segmenter) : Segmenter * list hls_event :=
  let '(s, events) := flush_segment s in
  let s := set_pending s true in
  let s := set_muxer s (reset_continuity (muxer_ s)) in
  let s := set_clock s (last_ts_ s) false (timeline_base_ms_ s + (last_ts_ s + 1)) in
  (set_configs s None None (sps_first_bytes_ s), events).

Definition mark_media_discontinuity (s : Segmenter) : Segmenter * list hls_event :=
  let '(s, events) := flush_segment s in
  let s := set_pending s true in
  let s := set_muxer s (reset_continuity (muxer_ s)) in
  (set_configs s None None (sps_first_bytes_ s), events).

Definition start_segment (s : Segmenter) (timestamp : Z) : Segmenter :=
  let '(m, current) := write_program_tables (muxer_ s) [] in
  set_seg (set_muxer s m) (mkOpenSegment current true timestamp [] 0 0 timestamp false false 0).

(** ** Video *)

Definition same_parameter_sets (a b : AvcDecoderConfig) : bool :=
  bool_decide (sps a = sps b) && bool_decide (pps a = pps b).

Definition first_sps (config : AvcDecoderConfig) (otherwise : list byte) : list byte :=
  match sps config with nal :: _ => nal | [] => otherwise end.

Definition video_header (s : Segmenter) (tag : VideoTag) : Res (Segmenter * list hls_event) :=
  match parse_decoder_config (body tag) with
  | Err _ => Ok (dropped s, [])
  | Ok config =>
      let changed := match video_config_ s with
                     | Some old => negb (same_parameter_sets old config)
                     | None => false
                     end in
      let '(s, events) :=
        if changed then
          let '(s, events) := flush_segment (header_changed s) in (set_pending s true, events)
        else (s, []) in
      Ok (set_configs s (Some config) (audio_config_ s) (first_sps config (sps_first_bytes_ s)),
          events)
  | Fault => Fault
  | OutOfFuel => OutOfFuel
  end.

(** A jump in the timestamps: close the segment and keep the output timeline going. *)
Definition bridge_jump (s : Segmenter) (timestamp : Z) : Segmenter * list hls_event :=
  if is_discontinuous s timestamp then
    let '(s, events) := flush_segment s in
    let s := set_pending s true in
    let s := set_clock s (last_ts_ s) (have_last_ts_ s)
               (timeline_base_ms_ s + (last_ts_ s - timestamp + 1)) in
    (set_muxer s (reset_continuity (muxer_ s)), events)
  else (s, []).

(** The cuts at a keyframe, and at the bounds on size and duration. *)
Definition cut_segment (s : Segmenter) (is_key : bool) (timestamp : Z)
    : Segmenter * list hls_event :=
  let elapsed := timestamp - segment_start_ts_ (seg_ s) in
  let over_size := max_segment_bytes (config_ s) <=? zlen (current_ (seg_ s)) in
  let over_time := max_segment_duration (config_ s) <=? elapsed in
  if segment_open_ (seg_ s) then
    if is_key && (target_duration (config_ s) <=? elapsed) then flush_segment s
    else if over_size || over_time then
      let '(s, events) := flush_segment (forced_cut s) in (set_pending s true, events)
    else (s, [])
  else (s, []).

(** What writing an access unit does to the members of the open segment. *)
Definition wrote_video (o : OpenSegment) (is_key : bool) (current : list byte) : OpenSegment :=
  mkOpenSegment current (segment_open_ o) (segment_start_ts_ o) (open_parts_ o)
    (part_start_offset_ o) (part_index_ o) (part_start_ts_ o)
    (if is_key && negb (part_has_media_ o) then true else part_independent_ o) true
    (if is_key && (iframe_prefix_bytes_ o =? 0) then zlen current else iframe_prefix_bytes_ o).

Definition video_frame (s : Segmenter) (config : AvcDecoderConfig) (tag : VideoTag) (timestamp : Z)
    : Res (Segmenter * list hls_event) :=
  let '(s, jump_events) := bridge_jump s timestamp in
  let '(s, cut_events) := cut_segment s (is_keyframe tag) timestamp in
  let s := if negb (segment_open_ (seg_ s)) then start_segment s timestamp else s in
  let events := jump_events ++ cut_events in
  match avcc_to_annexb (body tag) config (is_keyframe tag) [] with
  | (_, Err _) => Ok (dropped s, events)
  | (annexb, Ok _) =>
      let dts := to_90k s timestamp in
      let pts := to_90k s (timestamp + composition_time_ms tag) in
      let o := seg_ s in
      (* (void)muxer_.write_video(...) *)
      '(m, current) <-
        (match write_video (muxer_ s) (current_ o) annexb pts dts (is_keyframe tag) with
         | Err _ => Ok (muxer_ s, current_ o)
         | r => r
         end) ;;
      let s := set_seg (set_muxer s m) (wrote_video o (is_keyframe tag) current) in
      let s := set_clock (count_frames s 1 0) timestamp true (timeline_base_ms_ s) in
      let '(s, part_events) := maybe_close_part s timestamp false in
      Ok (s, events ++ part_events)
  | (_, Fault) => Fault
  | (_, OutOfFuel) => OutOfFuel
  end.

Definition on_video (s : Segmenter) (message : RtmpMessage) : Res (Segmenter * list hls_event) :=
  if finalized_ s || empty (payload message) then Ok (s, []) else
  match parse_video_tag (payload message) with
  | Err _ => Ok (dropped s, [])
  | Ok tag =>
      if avc_packet_type tag =? kAvcPacketTypeSequenceHeader then video_header s tag
      else if negb (avc_packet_type tag =? kAvcPacketTypeNalu) then Ok (s, [])
      else match video_config_ s with
           | None => Ok (dropped s, [])
           | Some config => video_frame s config tag (timestamp message)
           end
  | Fault => Fault
  | OutOfFuel => OutOfFuel
  end.

(** ** Audio *)

Definition same_audio (a b : Aac.AudioSpecificConfig) : bool :=
  (Aac.sampling_frequency_index a =? Aac.sampling_frequency_index b) &&
  (Aac.channel_configuration a =? Aac.channel_configuration b) &&
  (Aac.object_type a =? Aac.object_type b).

Definition audio_header (s : Segmenter) (tag : Aac.AudioTag) : Res (Segmenter * list hls_event) :=
  match Aac.parse_audio_specific_config (Aac.body tag) with
  | Err _ => Ok (dropped s, [])
  | Ok config =>
      let changed := match audio_config_ s with
                     | Some old => negb (same_audio old config)
                     | None => false
                     end in
      let '(s, events) :=
        if changed then
          let '(s, events) := flush_segment (header_changed s) in (set_pending s true, events)
        else (s, []) in
      Ok (set_configs s (video_config_ s) (Some config) (sps_first_bytes_ s), events)
  | Fault => Fault
  | OutOfFuel => OutOfFuel
  end.

Definition wrote_audio (o : OpenSegment) (current : list byte) : OpenSegment :=
  mkOpenSegment current (segment_open_ o) (segment_start_ts_ o) (open_parts_ o)
    (part_start_offset_ o) (part_index_ o) (part_start_ts_ o) (part_independent_ o) true
    (iframe_prefix_bytes_ o).

Definition audio_frame (s : Segmenter) (config : Aac.AudioSpecificConfig) (tag : Aac.AudioTag)
    (timestamp : Z) : Res (Segmenter * list hls_event) :=
  let adts := Aac.append_adts_header [] config (zlen (Aac.body tag)) ++ Aac.body tag in
  let o := seg_ s in
  (* (void)muxer_.write_audio(...) *)
  '(m, current) <-
    (match write_audio (muxer_ s) (current_ o) adts (to_90k s timestamp) with
     | Err _ => Ok (muxer_ s, current_ o)
     | r => r
     end) ;;
  let s := count_frames (set_seg (set_muxer s m) (wrote_audio o current)) 0 1 in
  let s := if negb (have_last_ts_ s) then set_clock s timestamp true (timeline_base_ms_ s) else s in
  Ok (maybe_close_part s timestamp false).

Definition on_audio (s : Segmenter) (message : RtmpMessage) : Res (Segmenter * list hls_event) :=
  if finalized_ s || empty (payload message) then Ok (s, []) else
  match Aac.parse_audio_tag (payload message) with
  | Err _ => Ok (dropped s, [])
  | Ok tag =>
      if Aac.aac_packet_type tag =? Aac.kAacPacketTypeSequenceHeader then audio_header s tag
      else match audio_config_ s with
           | None => Ok (dropped s, [])
           | Some config =>
               if negb (segment_open_ (seg_ s)) then Ok (dropped s, [])
               else if empty (Aac.body tag) then Ok (s, [])
               else audio_frame s config tag (timestamp message)
           end
  | Fault => Fault
  | OutOfFuel => OutOfFuel
  end.

Definition on_metadata (s : Segmenter) (message : RtmpMessage) : Segmenter * list hls_event := (s, []).

Definition set_finalized (s : Segmenter) : Segmenter :=
  mkSegmenter (config_ s) (stats_ s) (muxer_ s) (video_config_ s) (audio_config_ s) (seg_ s) (last_ts_ s)
    (have_last_ts_ s) (pending_discontinuity_ s) (next_sequence_ s) (timeline_base_ms_ s) true
    (sps_first_bytes_ s).
Definition finalize (s : Segmenter) : Segmenter * list hls_event :=
  if finalized_ s then (s, []) else flush_segment (set_finalized s).

(** * Histories *)

Inductive hls_input :=
| VideoMessage (m : RtmpMessage)
| AudioMessage (m : RtmpMessage)
| MetadataMessage (m : RtmpMessage)
| Reconnect
| MediaGap
| Finalize.

Definition step (s : Segmenter) (i : hls_input) : Res (Segmenter * list hls_event) :=
  match i with
  | VideoMessage m => on_video s m
  | AudioMessage m => on_audio s m
  | MetadataMessage m => Ok (on_metadata s m)
  | Reconnect => Ok (mark_publisher_reconnect s)
  | MediaGap => Ok (mark_media_discontinuity s)
  | Finalize => Ok (finalize s)
  end.
Fixpoint run (s : Segmenter) (inputs : list hls_input) : Res (Segmenter * list hls_event) :=
  match inputs with
  | [] => Ok (s, [])
  | i :: inputs => '(s, events) <- step s i ;; '(s, more) <- run s inputs ;; Ok (s, events ++ more)
  end.

Definition segments_of (events : list hls_event) : list Segment :=
  omap (fun e => match e with OnSegment s => Some s | OnPart _ => None end) events.
Definition parts_of (events : list hls_event) : list Part :=
  omap (fun e => match e with OnPart p => Some p | OnSegment _ => None end) events.
