(* ===== verification/HlsFaithful.v ===== *)
(** What the HLS segmenter (HlsSegmenter.v) publishes: every segment demultiplexes on its
    own to the access units accepted since it was opened, none is lost between segments,
    sequence numbers are consecutive, and the parts of a segment add up to it. *)

From S2P Require Import Prelude Bytes Nal Avc Chunk TsMuxer TsDemuxer TsRoundTrip Text HlsSegment HlsSegmenter.
From S2P Require Aac.

(** * The access units a message contributes *)

(** A video sample that converts: its Annex B form, on the timeline after the jump. *)
Definition frame_writes (s : Segmenter) (config : AvcDecoderConfig) (tag : VideoTag)
    (timestamp : Z) : list ts_write :=
  match avcc_to_annexb (body tag) config (is_keyframe tag) [] with
  | (annexb, Ok _) =>
      let s := (bridge_jump s timestamp).1 in
      [Video annexb (to_90k s (timestamp + composition_time_ms tag)) (to_90k s timestamp)
             (is_keyframe tag)]
  | _ => []
  end.

Definition video_writes (s : Segmenter) (message : RtmpMessage) : list ts_write :=
  if finalized_ s || empty (payload message) then [] else
  match parse_video_tag (payload message), video_config_ s with
  | Ok tag, Some config =>
      if avc_packet_type tag =? kAvcPacketTypeSequenceHeader then []
      else if negb (avc_packet_type tag =? kAvcPacketTypeNalu) then []
      else frame_writes s config tag (timestamp message)
  | _, _ => []
  end.

(** A raw AAC frame while a segment is open: its ADTS form, unless it is too large for a
    PES packet. *)
Definition audio_unit_writes (s : Segmenter) (config : Aac.AudioSpecificConfig)
    (tag : Aac.AudioTag) (timestamp : Z) : list ts_write :=
  let w := Audio (Aac.append_adts_header [] config (zlen (Aac.body tag)) ++ Aac.body tag)
             (to_90k s timestamp) in
  if oversized w then [] else [w].

Definition audio_writes (s : Segmenter) (message : RtmpMessage) : list ts_write :=
  if finalized_ s || empty (payload message) then [] else
  match Aac.parse_audio_tag (payload message), audio_config_ s with
  | Ok tag, Some config =>
      if Aac.aac_packet_type tag =? Aac.kAacPacketTypeSequenceHeader then []
      else if negb (segment_open_ (seg_ s)) then []
      else if empty (Aac.body tag) then []
      else audio_unit_writes s config tag (timestamp message)
  | _, _ => []
  end.

Definition writes (s : Segmenter) (i : hls_input) : list ts_write :=
  match i with
  | VideoMessage m => video_writes s m
  | AudioMessage m => audio_writes s m
  | _ => []
  end.
Fixpoint all_writes (s : Segmenter) (inputs : list hls_input) : list ts_write :=
  match inputs with
  | [] => []
  | i :: inputs =>
      writes s i ++ match step s i with Ok (s, _) => all_writes s inputs | _ => [] end
  end.

(** * The invariant *)

Definition default_muxer (m : TsMuxer) : Prop :=
  valid_muxer m /\ TsMuxer.config_ m = default_config.

(** [holds s ws]: the open segment is the program tables and then [ws]. *)
Record holds (s : Segmenter) (ws : list ts_write) : Prop := {
  h_muxer : default_muxer (muxer_ s);
  h_open : segment_open_ (seg_ s) = true ->
    exists m0, default_muxer m0 /\
      write_all m0 [] (Tables :: ws) = Ok (muxer_ s, current_ (seg_ s));
  h_shut : segment_open_ (seg_ s) = false -> ws = [] /\ current_ (seg_ s) = [];
  h_stamps : Forall stamps_nonneg ws;
  h_parts : segment_open_ (seg_ s) = true -> 0 < part_target_duration (config_ s) ->
    concat (map part_data (open_parts_ (seg_ s)))
      = take (Z.to_nat (part_start_offset_ (seg_ s))) (current_ (seg_ s)) /\
    0 <= part_start_offset_ (seg_ s) <= zlen (current_ (seg_ s))
}.

(** A published segment that carries [ws]. *)
Definition carries (c : SegmenterConfig) (seg : Segment) (ws : list ts_write) : Prop :=
  ws <> [] /\ demuxes_to (seg_data seg) ws /\
  seg_name seg = (segment_name_prefix c ++ to_string (seg_sequence seg) ++ segment_name_suffix c)%string /\
  (0 < part_target_duration c -> concat (map part_data (seg_parts seg)) = seg_data seg).

Record moved (s : Segmenter) (ws acc : list ts_write) (s' : Segmenter) (events : list hls_event)
    (ws' : list ts_write) : Prop := {
  m_holds : holds s' ws';
  m_config : config_ s' = config_ s;
  m_next : next_sequence_ s' = next_sequence_ s + zlen (segments_of events);
  m_sequences : map seg_sequence (segments_of events)
                = seqZ (next_sequence_ s) (zlen (segments_of events));
  m_carried : exists wss, ws ++ acc = concat wss ++ ws' /\
    Forall2 (carries (config_ s)) (segments_of events) wss
}.

Lemma seqZ_app a m n : 0 <= m -> 0 <= n -> seqZ a (m + n) = seqZ a m ++ seqZ (a + m) n.
Proof. intros Hm Hn. by apply seqZ_app. Qed.

Lemma moved_trans s ws a1 s1 e1 ws1 a2 s2 e2 ws2 :
  moved s ws a1 s1 e1 ws1 -> moved s1 ws1 a2 s2 e2 ws2 -> moved s ws (a1 ++ a2) s2 (e1 ++ e2) ws2.
Proof.
  intros [H1 C1 N1 Q1 (w1 & W1 & F1)] [H2 C2 N2 Q2 (w2 & W2 & F2)].
  assert (Hseg : segments_of (e1 ++ e2) = segments_of e1 ++ segments_of e2) by apply omap_app.
  split; rewrite ?Hseg, ?zlen_app; [done|congruence|lia| |].
  - rewrite map_app, Q1, Q2, N1, seqZ_app by apply zlen_nonneg. done.
  - exists (w1 ++ w2). rewrite concat_app, <- app_assoc, <- W2, !app_assoc, W1. split; [done|].
    apply Forall2_app; [done|]. by rewrite <- C1.
Qed.

(** Nothing that matters here has changed, and no segment came out. *)
Lemma moved_still s ws s' events :
  holds s ws -> muxer_ s' = muxer_ s -> seg_ s' = seg_ s -> config_ s' = config_ s ->
  next_sequence_ s' = next_sequence_ s -> segments_of events = [] -> moved s ws [] s' events ws.
Proof.
  intros [M O S T P] Hm Hs Hc Hn He. split; rewrite ?He, ?Hn; [|done|rewrite zlen_nil; lia|done|].
  - split; rewrite ?Hm, ?Hs, ?Hc; done.
  - exists []. by rewrite app_nil_r.
Qed.

Lemma moved_nil s ws s' : moved s ws [] s' [] ws -> holds s' ws.
Proof. apply m_holds. Qed.

(** ** Sizes of what is written *)

Lemma zlen_concat_packets ps : Forall transport_packet ps -> zlen (concat ps) = 188 * zlen ps.
Proof.
  induction 1 as [|p ps [Hp _] _ IH]; [done|]. cbn [concat]. rewrite zlen_app, IH, Hp, zlen_cons.
  unfold kPacketSize. lia.
Qed.

Lemma no_packets_no_pes pid cc first pes ps cc' : pes_packets pid cc first pes ps cc' -> ps = [] -> pes = [].
Proof. by destruct 1. Qed.

Lemma wrote_packets m w ps m' : wrote m w ps m' -> ps <> [].
Proof.
  destruct 1 as [|annexb pts dts key ps cc Hne Hp|adts pts ps cc Hne Hp]; [done| |]; intros ->;
    pose proof (no_packets_no_pes _ _ _ _ _ _ Hp eq_refl) as He.
  - rewrite video_pes_eq in He. apply app_nil in He as [_ ->]. by apply Hne.
  - rewrite audio_pes_eq in He. apply app_nil in He as [_ ->]. by apply Hne.
Qed.

(** Every write adds at least one packet. *)
Lemma write_all_size ws : forall m out m' out',
  valid_muxer m -> write_all m out ws = Ok (m', out') ->
  zlen out + 188 * zlen ws <= zlen out' /\ (ws = [] -> out' = out).
Proof.
  induction ws as [|w ws IH]; intros m out m' out' Hm; cbn [write_all].
  - intros [= <- <-]. change (zlen (@nil ts_write)) with 0. split; [lia|done].
  - intros H. res_inv H. destruct a as [m1 out1]. apply write_one_Ok in Ha as (ps & Hw & ->).
    pose proof (wrote_packets _ _ _ _ Hw) as Hps.
    destruct (wrote_counts _ _ _ _ Hm Hw) as [ (_ & Ht & _) Hm1].
    destruct (IH _ _ _ _ Hm1 H) as [IH1 _]. rewrite zlen_app, zlen_concat_packets in IH1 by done.
    rewrite zlen_cons. assert (1 <= zlen ps) by (destruct ps; [done|zlia]). split; [lia|done].
Qed.

Lemma open_size m0 ws m' out :
  valid_muxer m0 -> write_all m0 [] (Tables :: ws) = Ok (m', out) ->
  376 + 188 * zlen ws <= zlen out /\ (ws = [] -> zlen out = 376).
Proof.
  intros Hm H. cbn [write_all] in H. res_inv H. destruct a as [m1 out1].
  apply write_one_Ok in Ha as (ps & Hw & ->).
  destruct (wrote_counts _ _ _ _ Hm Hw) as [ (_ & Ht & _) Hm1].
  apply write_all_size in H as [H1 H2]; [|done]. inversion Hw; subst.
  cbn [app] in *. rewrite zlen_concat_packets in H1 by done. split; [exact H1|].
  intros ->. rewrite H2, zlen_concat_packets by done. done.
Qed.

Lemma write_all_app ws1 : forall ws2 m out,
  write_all m out (ws1 ++ ws2) = ('(m, out) <- write_all m out ws1 ;; write_all m out ws2).
Proof.
  induction ws1 as [|w ws1 IH]; intros ws2 m out; [done|]. cbn [app write_all].
  destruct (write_one m out w) as [ [m1 out1]| | |]; cbn [rbind]; done.
Qed.

Lemma write_snoc m0 ws m out w m' out' :
  write_all m0 [] (Tables :: ws) = Ok (m, out) -> write_one m out w = Ok (m', out') ->
  write_all m0 [] (Tables :: (ws ++ [w])) = Ok (m', out').
Proof.
  intros H1 H2. change (Tables :: (ws ++ [w])) with ((Tables :: ws) ++ [w]).
  rewrite write_all_app, H1. cbn [rbind write_all]. by rewrite H2.
Qed.

Lemma write_one_default m out w m' out' :
  default_muxer m -> write_one m out w = Ok (m', out') -> default_muxer m' /\ exists l, out' = out ++ l.
Proof.
  intros [Hv Hc] H. apply write_one_Ok in H as (ps & Hw & ->).
  pose proof (wrote_counts _ _ _ _ Hv Hw) as [_ Hv'].
  split; [|by eexists]. split; [done|]. by rewrite (wrote_config _ _ _ _ Hw).
Qed.

Lemma default_muxer_make : default_muxer (make_muxer default_config).
Proof. split; [apply default_muxer_valid|done]. Qed.

Lemma reset_default m : default_muxer m -> default_muxer (reset_continuity m).
Proof.
  intros [ (Hc & _) Hd]. split; [|done]. unfold valid_muxer, counter. cbn. split_and!; try done.
Qed.

(** * Moving through the operations *)

Lemma maybe_close_part_moved s ws timestamp force :
  holds s ws ->
  moved s ws [] (maybe_close_part s timestamp force).1 (maybe_close_part s timestamp force).2 ws.
Proof.
  intros H. unfold maybe_close_part.
  destruct (Z.leb_spec (part_target_duration (config_ s)) 0); [by apply moved_still|].
  destruct (segment_open_ (seg_ s)) eqn:Ho; cbn [negb]; [|by apply moved_still].
  destruct (Z.leb_spec (zlen (current_ (seg_ s))) (part_start_offset_ (seg_ s))); [by apply moved_still|].
  destruct (_ && _); [by apply moved_still|]. destruct H as [M O S T P].
  destruct (P Ho) as [Hc Hb]; [lia|].
  split; cbn [fst snd]; [|done|by rewrite Z.add_0_r|done|exists []; split; [by rewrite app_nil_r|constructor] ].
  split; [exact M|exact O|exact S|exact T|]. intros _ _.
  cbn [count_part set_seg set_stats seg_ next_part open_parts_ current_ part_start_offset_].
  rewrite map_app, concat_app, Hc. cbn [map concat part_data]. rewrite app_nil_r, take_drop.
  unfold zlen. rewrite Nat2Z.id, firstn_all. split; [done|lia].
Qed.

(** [moved] looks only at the muxer, the open segment, the configuration and the
    sequence number. *)
Definition alike (s s' : Segmenter) : Prop :=
  muxer_ s' = muxer_ s /\ seg_ s' = seg_ s /\ config_ s' = config_ s /\
  next_sequence_ s' = next_sequence_ s.

Lemma moved_after s ws acc s1 events ws1 s2 :
  moved s ws acc s1 events ws1 -> alike s1 s2 -> moved s ws acc s2 events ws1.
Proof.
  intros Hm (H1 & H2 & H3 & H4). rewrite <- (app_nil_r acc), <- (app_nil_r events).
  eapply moved_trans; [exact Hm|]. apply moved_still; try done. by destruct Hm.
Qed.
Lemma moved_before s ws acc s1 events ws1 s0 :
  holds s0 ws -> alike s0 s -> moved s ws acc s1 events ws1 -> moved s0 ws acc s1 events ws1.
Proof.
  intros H (H1 & H2 & H3 & H4) Hm. change (moved s0 ws ([] ++ acc) s1 ([] ++ events) ws1).
  eapply moved_trans; [|exact Hm]. by apply moved_still.
Qed.
Lemma holds_alike s ws s' : holds s ws -> alike s s' -> holds s' ws.
Proof. intros H (H1 & H2 & H3 & H4). eapply moved_nil. by apply moved_still. Qed.

(** A part closed by force leaves no byte of the segment out. *)
Lemma forced_part_complete s timestamp ws :
  holds s ws -> segment_open_ (seg_ s) = true ->
  let s' := (maybe_close_part s timestamp true).1 in
  muxer_ s' = muxer_ s /\ config_ s' = config_ s /\ next_sequence_ s' = next_sequence_ s /\
  pending_discontinuity_ s' = pending_discontinuity_ s /\
  current_ (seg_ s') = current_ (seg_ s) /\ segment_open_ (seg_ s') = true /\
  (0 < part_target_duration (config_ s) ->
     concat (map part_data (open_parts_ (seg_ s'))) = current_ (seg_ s)).
Proof.
  intros H Ho. pose proof (h_parts _ _ H Ho) as P. unfold maybe_close_part. rewrite Ho. cbn [negb].
  destruct (Z.leb_spec (part_target_duration (config_ s)) 0); [cbn; split_and!; try done; lia|].
  destruct P as [Hc Hb]; [lia|].
  destruct (Z.leb_spec (zlen (current_ (seg_ s))) (part_start_offset_ (seg_ s))).
  - cbn. split_and!; try done. intros _. rewrite Hc, take_ge; [done|unfold zlen in *; lia].
  - cbn. split_and!; try done. intros _. rewrite map_app, concat_app, Hc. cbn.
    by rewrite app_nil_r, take_drop.
Qed.

Lemma flush_closes s : segment_open_ (seg_ (flush_segment s).1) = false.
Proof.
  unfold flush_segment. destruct (_ || _); [done|]. destruct (_ <=? _); [done|].
  by destruct (maybe_close_part _ _ _).
Qed.
Lemma flush_base s : timeline_base_ms_ (flush_segment s).1 = timeline_base_ms_ s.
Proof.
  unfold flush_segment. destruct (_ || _); [done|]. destruct (_ <=? _); [done|].
  unfold maybe_close_part. destruct (_ <=? 0); [done|]. destruct (negb _); [done|].
  destruct (_ <=? _); [done|]. by destruct (_ && _).
Qed.

Lemma shut_holds s : default_muxer (muxer_ s) -> segment_open_ (seg_ s) = false ->
  current_ (seg_ s) = [] -> holds s [].
Proof. intros Hm Ho Hc. split; try done; by rewrite Ho. Qed.

(** Publishing the segment: everything written since it was opened comes out. *)
Lemma flush_moved s ws :
  holds s ws -> moved s ws [] (flush_segment s).1 (flush_segment s).2 [].
Proof.
  intros H. pose proof H as [M O S T P]. unfold flush_segment.
  destruct (segment_open_ (seg_ s)) eqn:Ho; cbn [negb orb].
  2: { destruct (S eq_refl) as [-> Hc]. split; [by apply shut_holds|done|by rewrite Z.add_0_r|done|].
       exists []. split; [done|constructor]. }
  destruct (O eq_refl) as (m0 & [Hv Hd] & Hw). pose proof (open_size _ _ _ _ Hv Hw) as [Hs1 Hs2].
  pose proof (zlen_nonneg ws). destruct (empty (current_ (seg_ s))) eqn:He.
  { destruct (current_ (seg_ s)); [|done]. rewrite zlen_nil in Hs1. lia. }
  destruct (Z.leb_spec (zlen (current_ (seg_ s))) (2 * kPacketSize)) as [Hs|Hs].
  { destruct ws; [|rewrite zlen_cons in *; unfold kPacketSize in *; pose proof (zlen_nonneg ws); lia].
    split; [by apply shut_holds|done|by rewrite Z.add_0_r|done|]. exists []. split; [done|constructor]. }
  pose proof (forced_part_complete s (last_ts_ s) ws H Ho) as (F1 & F2 & F3 & F4 & F5 & F6 & F7).
  pose proof (maybe_close_part_moved s ws (last_ts_ s) true H) as Hm.
  destruct (maybe_close_part s (last_ts_ s) true) as [s1 e1]. cbn [fst snd] in *.
  change (moved s ws ([] ++ [])
    (count_segment (set_pending (set_next_sequence (set_seg s1 (published (seg_ s1)))
       (next_sequence_ s1 + 1)) false) (pending_discontinuity_ s1))
    (e1 ++ [OnSegment (mkSegment (next_sequence_ s1) (segment_name_prefix (config_ s1) ++
       to_string (next_sequence_ s1) ++ segment_name_suffix (config_ s1)) (current_ (seg_ s1))
       (Z.max 0 (last_ts_ s1 - segment_start_ts_ (seg_ s1))) (pending_discontinuity_ s1)
       (open_parts_ (seg_ s1)) None (iframe_prefix_bytes_ (seg_ s1)))]) []).
  eapply moved_trans; [exact Hm|]. split; [apply shut_holds; [|done..]; cbn; by rewrite F1|done|done|done|].
  exists [ws]. cbn. rewrite !app_nil_r. split; [done|]. constructor; [|constructor].
  rewrite F2, F5. unfold carries. cbn. split_and!; [|by eapply writes_demux; rewrite ?Hd|done|done].
  intros ->. specialize (Hs2 eq_refl). unfold kPacketSize in *. lia.
Qed.

(** A flush, then a change of the members that [moved] does not look at, or a reset of
    the continuity counters. *)
Lemma flush_reset_moved s ws s' :
  holds s ws -> seg_ s' = seg_ (flush_segment s).1 ->
  muxer_ s' = reset_continuity (muxer_ (flush_segment s).1) ->
  config_ s' = config_ (flush_segment s).1 ->
  next_sequence_ s' = next_sequence_ (flush_segment s).1 ->
  moved s ws [] s' (flush_segment s).2 [].
Proof.
  intros H Hseg Hmux Hcfg Hnext. pose proof (flush_moved s ws H) as [M1 C1 N1 Q1 W1].
  split; [|congruence|congruence|done|done]. pose proof (flush_closes s) as Hc.
  apply shut_holds; rewrite ?Hseg, ?Hmux; [apply reset_default, (h_muxer _ _ M1)|done|].
  by apply (h_shut _ _ M1).
Qed.

Lemma flush_then s ws s' :
  holds s ws -> alike (flush_segment s).1 s' -> moved s ws [] s' (flush_segment s).2 [].
Proof. intros H Ha. eapply moved_after; [by apply flush_moved|done]. Qed.

Lemma reconnect_moved s ws :
  holds s ws -> exists ws', moved s ws [] (mark_publisher_reconnect s).1 (mark_publisher_reconnect s).2 ws'.
Proof.
  intros H. pose proof (flush_reset_moved s ws) as Hf. unfold mark_publisher_reconnect.
  destruct (flush_segment s) as [s1 e1]. exists []. by apply Hf.
Qed.
Lemma media_gap_moved s ws :
  holds s ws -> exists ws', moved s ws [] (mark_media_discontinuity s).1 (mark_media_discontinuity s).2 ws'.
Proof.
  intros H. pose proof (flush_reset_moved s ws) as Hf. unfold mark_media_discontinuity.
  destruct (flush_segment s) as [s1 e1]. exists []. by apply Hf.
Qed.
Lemma finalize_moved s ws :
  holds s ws -> exists ws', moved s ws [] (finalize s).1 (finalize s).2 ws'.
Proof.
  intros H. unfold finalize. destruct (finalized_ s); [exists ws; by apply moved_still|].
  exists []. eapply moved_before; [done| |apply flush_moved, (holds_alike s)]; done.
Qed.

Lemma bridge_moved s ws timestamp :
  holds s ws -> exists ws', moved s ws [] (bridge_jump s timestamp).1 (bridge_jump s timestamp).2 ws'.
Proof.
  intros H. pose proof (flush_reset_moved s ws) as Hf. unfold bridge_jump.
  destruct (is_discontinuous s timestamp); [|exists ws; by apply moved_still].
  destruct (flush_segment s) as [s1 e1]. exists []. by apply Hf.
Qed.

Lemma forced_flush_moved s ws (mark : Segmenter -> Segmenter) :
  (forall s, alike s (mark s)) -> holds s ws ->
  moved s ws [] (set_pending (flush_segment (mark s)).1 true) (flush_segment (mark s)).2 [].
Proof.
  intros Hmark H. eapply moved_before; [done|apply Hmark|].
  apply flush_then; [by eapply holds_alike|done].
Qed.

Lemma cut_moved s ws key timestamp :
  holds s ws ->
  exists ws', moved s ws [] (cut_segment s key timestamp).1 (cut_segment s key timestamp).2 ws'.
Proof.
  intros H. unfold cut_segment. destruct (segment_open_ (seg_ s)); [|exists ws; by apply moved_still].
  destruct (_ && _); [exists []; by apply flush_moved|].
  destruct (_ || _); [|exists ws; by apply moved_still].
  pose proof (forced_flush_moved s ws forced_cut) as Hf.
  destruct (flush_segment (forced_cut s)) as [s1 e1]. exists []. by apply Hf.
Qed.
Lemma cut_base s key timestamp :
  timeline_base_ms_ (cut_segment s key timestamp).1 = timeline_base_ms_ s.
Proof.
  unfold cut_segment. destruct (segment_open_ (seg_ s)); [|done].
  destruct (_ && _); [apply flush_base|]. destruct (_ || _); [|done].
  pose proof (flush_base (forced_cut s)) as Hf. by destruct (flush_segment (forced_cut s)).
Qed.

(** Opening a segment, when none is open, leaves one that holds its program tables. *)
Definition opened (s : Segmenter) (timestamp : Z) : Segmenter :=
  if negb (segment_open_ (seg_ s)) then start_segment s timestamp else s.

Lemma opened_moved s ws timestamp :
  holds s ws -> moved s ws [] (opened s timestamp) [] ws /\
    segment_open_ (seg_ (opened s timestamp)) = true.
Proof.
  intros H. pose proof H as [M O S T P]. unfold opened.
  destruct (segment_open_ (seg_ s)) eqn:Ho; cbn [negb]; [split; [by apply moved_still|done]|].
  unfold start_segment. destruct (S eq_refl) as [-> Hc].
  destruct (write_one_default (muxer_ s) [] Tables (write_program_tables (muxer_ s) []).1
    (write_program_tables (muxer_ s) []).2) as [Hd _]; [done|by cbn [write_one]; destruct write_program_tables|].
  assert (Hw : write_all (muxer_ s) [] [Tables] = Ok (write_program_tables (muxer_ s) [])) by done.
  destruct (write_program_tables (muxer_ s) []) as [m current]. cbn [fst snd] in *. split; [|done].
  split; [|done|by rewrite Z.add_0_r|done|by exists []].
  split; [exact Hd|by exists (muxer_ s)|done|done|].
  intros _ _. split; [done|]. cbn [seg_ set_seg current_ part_start_offset_].
  pose proof (zlen_nonneg current). lia.
Qed.

Lemma opened_base s timestamp : timeline_base_ms_ (opened s timestamp) = timeline_base_ms_ s.
Proof.
  unfold opened, start_segment. destruct (negb _); [|done]. by destruct (write_program_tables _ _).
Qed.

(** One access unit into the open segment. *)
Lemma unit_moved s ws w m current o :
  holds s ws -> segment_open_ (seg_ s) = true -> stamps_nonneg w ->
  write_one (muxer_ s) (current_ (seg_ s)) w = Ok (m, current) ->
  current_ o = current -> segment_open_ o = true -> open_parts_ o = open_parts_ (seg_ s) ->
  part_start_offset_ o = part_start_offset_ (seg_ s) ->
  moved s ws [w] (set_seg (set_muxer s m) o) [] (ws ++ [w]).
Proof.
  intros [M O S T P] Ho Hw Hone Hc Hopen Hparts Hoff.
  destruct (O Ho) as (m0 & Hm0 & Hall). destruct (write_one_default _ _ _ _ _ M Hone) as [Hm [l Hl] ].
  split; [|done|by rewrite Z.add_0_r|done|by exists []; split; [rewrite ?app_nil_r|] ].
  split; cbn [muxer_ seg_ config_ set_seg set_muxer].
  - done.
  - intros _. exists m0. split; [done|]. rewrite Hc. by eapply write_snoc.
  - by rewrite Hopen.
  - by apply Forall_app; split; [|constructor].
  - intros _ Hp. destruct (P Ho Hp) as [P1 P2]. rewrite Hparts, Hoff, Hc, Hl, P1, zlen_app.
    pose proof (zlen_nonneg l). split; [|lia]. rewrite take_app_le; [done|unfold zlen in *; lia].
Qed.

(** A write whose result the code throws away, and the state after it. *)
Lemma ignored_write m out w :
  exists m1 out1,
    (match write_one m out w with Err _ => Ok (m, out) | r => r end) = Ok (m1, out1) /\
    (if empty_unit w || oversized w then m1 = m /\ out1 = out else write_one m out w = Ok (m1, out1)).
Proof.
  pose proof (write_one_eq m out w) as Hw. destruct (empty_unit w); cbn [orb].
  { destruct Hw as (? & ->). by exists m, out. }
  destruct (oversized w); [destruct Hw as (? & ->); by exists m, out|].
  destruct Hw as (ps & m' & _ & ->). by eexists _, _.
Qed.

Lemma stamps_90k s t1 t2 annexb key :
  stamps_nonneg (Video annexb (to_90k s t1) (to_90k s t2) key).
Proof. split; unfold to_90k, u64; apply Z.mod_pos_bound; lia. Qed.

Lemma avcc_returns sample config insert :
  (exists annexb, annexb <> [] /\ avcc_to_annexb sample config insert [] = (annexb, Ok tt)) \/
  (exists out e, avcc_to_annexb sample config insert [] = (out, Err e)).
Proof.
  destruct (decide (1 <= nalu_length_size config <= 4)) as [Hw|Hw].
  - rewrite avcc_to_annexb_loop by done.
    replace (nalu_length_size config) with (Z.of_nat (Z.to_nat (nalu_length_size config))) by lia.
    pose proof (copy_nals_inv (Z.to_nat (nalu_length_size config)) (skip_nal insert)
      (malformed "truncated AVCC NAL length prefix") (malformed "AVCC NAL runs past end of sample")
      ltac:(lia) (S (length sample)) sample 0 sample ([] ++ annexb (aud :: parameter_sets config insert))
      (at_suffix_0 _) ltac:(lia)) as Hi.
    destruct (copy_nals _ _ _ _ _ _ _ _) as [out [ [] |e| |] ]; [left|right; by eexists _, _|done..].
    exists out. split; [|done]. destruct Hi as (nals & _ & _ & ->). by destruct insert.
  - right. unfold avcc_to_annexb.
    assert ((nalu_length_size config <? 1) || (4 <? nalu_length_size config) = true) as -> by lia.
    by eexists _, _.
Qed.

Lemma video_frame_moved s ws config tag timestamp :
  holds s ws -> exists s' events ws', video_frame s config tag timestamp = Ok (s', events) /\
    moved s ws (frame_writes s config tag timestamp) s' events ws'.
Proof.
  intros H. unfold video_frame, frame_writes. destruct (bridge_moved s ws timestamp H) as [w1 M1].
  destruct (bridge_jump s timestamp) as [s1 e1]. cbn [fst snd] in *.
  destruct (cut_moved s1 w1 (is_keyframe tag) timestamp) as [w2 M2]; [by destruct M1|].
  pose proof (cut_base s1 (is_keyframe tag) timestamp) as Hb.
  destruct (cut_segment s1 (is_keyframe tag) timestamp) as [s2 e2]. cbn [fst snd] in *.
  fold (opened s2 timestamp). pose proof (opened_base s2 timestamp) as Hb2.
  destruct (opened_moved s2 w2 timestamp) as [M3 Ho]; [by destruct M2|].
  generalize dependent (opened s2 timestamp). intros s3 Hb2 M3 Ho.
  pose proof (moved_trans _ _ _ _ _ _ _ _ _ _ (moved_trans _ _ _ _ _ _ _ _ _ _ M1 M2) M3) as M.
  rewrite !app_nil_r in M. cbn [app] in M.
  destruct (avcc_returns (body tag) config (is_keyframe tag)) as [(annexb & Hne & ->)|(out & e & ->)].
  2: { eexists _, _, _. split; [done|]. by eapply moved_after. }
  assert (Ht : forall t, to_90k s3 t = to_90k s1 t) by (intros t; unfold to_90k; by rewrite Hb2, Hb).
  rewrite !Ht. set (w := Video _ _ _ _).
  change (write_video _ _ _ _ _ _) with (write_one (muxer_ s3) (current_ (seg_ s3)) w).
  destruct (ignored_write (muxer_ s3) (current_ (seg_ s3)) w) as (m & current & -> & Hw).
  cbn [rbind]. cbn [empty_unit oversized w] in Hw. rewrite (proj2 (Z.eqb_neq _ _)) in Hw.
  2: { intros Hz. by apply Hne, zlen_0_nil. }
  cbn [orb] in Hw.
  pose proof (unit_moved s3 w2 w m current (wrote_video (seg_ s3) (is_keyframe tag) current)
    (m_holds _ _ _ _ _ _ M3) Ho (stamps_90k _ _ _ _ _) Hw eq_refl Ho eq_refl eq_refl) as M4.
  set (s4 := set_clock _ _ _ _).
  assert (M5 : moved s3 w2 [w] s4 [] (w2 ++ [w])) by by eapply moved_after.
  pose proof (maybe_close_part_moved s4 _ timestamp false (m_holds _ _ _ _ _ _ M5)) as M6.
  destruct (maybe_close_part s4 timestamp false) as [s5 e5]. cbn [fst snd] in *.
  eexists _, _, _. split; [done|].
  pose proof (moved_trans _ _ _ _ _ _ _ _ _ _ (moved_trans _ _ _ _ _ _ _ _ _ _ M M5) M6) as M7.
  by rewrite !app_nil_r in M7.
Qed.

Lemma audio_frame_moved s ws config tag timestamp :
  holds s ws -> segment_open_ (seg_ s) = true ->
  exists s' events ws', audio_frame s config tag timestamp = Ok (s', events) /\
    moved s ws (audio_unit_writes s config tag timestamp) s' events ws'.
Proof.
  intros H Ho. unfold audio_frame, audio_unit_writes. set (w := Audio _ _).
  change (write_audio _ _ _ _) with (write_one (muxer_ s) (current_ (seg_ s)) w).
  destruct (ignored_write (muxer_ s) (current_ (seg_ s)) w) as (m & current & -> & Hw). cbn [rbind].
  assert (Hemp : empty_unit w = false).
  { cbn [empty_unit w]. apply Z.eqb_neq. unfold Aac.append_adts_header.
    rewrite !zlen_app, !zlen_cons, !zlen_nil. pose proof (zlen_nonneg (Aac.body tag)). lia. }
  rewrite Hemp in Hw. cbn [orb] in Hw.
  set (s1 := if negb (have_last_ts_ _) then _ else _).
  assert (M : exists ws1, moved s ws (if oversized w then [] else [w]) s1 [] ws1).
  { assert (Ha : alike (set_seg (set_muxer s m) (wrote_audio (seg_ s) current)) s1).
    { subst s1. by destruct (negb _). }
    destruct (oversized w); [destruct Hw as [-> ->]; exists ws|exists (ws ++ [w])];
      (eapply moved_after; [|exact Ha]).
    - destruct H as [M O S T P]. split; [|done|by rewrite Z.add_0_r|done|by exists []; rewrite app_nil_r].
      by split.
    - eapply unit_moved; try done. cbn. unfold to_90k, u64. apply Z.mod_pos_bound. lia. }
  destruct M as [ws1 M]. destruct (maybe_close_part s1 timestamp false) as [s2 e2] eqn:Hp.
  pose proof (maybe_close_part_moved s1 ws1 timestamp false (m_holds _ _ _ _ _ _ M)) as M2.
  rewrite Hp in M2. cbn [fst snd] in M2. eexists _, _, _. split; [done|].
  pose proof (moved_trans _ _ _ _ _ _ _ _ _ _ M M2) as M3. by rewrite app_nil_r in M3.
Qed.

(** A new sequence header: a changed one closes the segment. *)
Lemma header_moved s ws changed v a b :
  holds s ws -> exists ws',
    let r := if changed : bool then
               let '(s, events) := flush_segment (header_changed s) in (set_pending s true, events)
             else (s, []) in
    moved s ws [] (set_configs r.1 v a b) r.2 ws'.
Proof.
  intros H. destruct changed; [|exists ws; by apply moved_still].
  pose proof (forced_flush_moved s ws header_changed) as Hf.
  destruct (flush_segment (header_changed s)) as [s1 e1]. exists [].
  eapply moved_after; [by apply Hf|done].
Qed.

Lemma short_reads w : forall data off v,
  0 <= off -> off + Z.of_nat w <= zlen data -> returns (read_be_loop w data off v).
Proof.
  induction w as [|w IH]; intros data off v H0 Hn; cbn [read_be_loop]; [done|].
  apply returns_bind; [apply u8_at_returns; lia|]. intros b _. apply IH; lia.
Qed.

Ltac parses :=
  repeat first [ apply returns_Ok | apply returns_Err | apply u8_at_returns; lia | apply subspan_from_returns; lia
               | apply short_reads; lia
               | apply returns_bind; [|intros ? _] | match goal with |- returns (if ?b then _ else _) =>
                   first [match b with ?n <? ?k => destruct (Z.ltb_spec n k) end | destruct b] end
               | match goal with |- returns (let '(_, _) := ?p in _) => destruct p end ].

Lemma audio_tag_returns payload : returns (Aac.parse_audio_tag payload).
Proof. unfold Aac.parse_audio_tag. parses. Qed.
Lemma audio_config_returns record : returns (Aac.parse_audio_specific_config record).
Proof. unfold Aac.parse_audio_specific_config. cbv zeta. parses. Qed.
Lemma video_tag_returns payload : returns (parse_video_tag payload).
Proof. unfold parse_video_tag, read_be. cbv zeta. parses. Qed.
Lemma decoder_config_returns record : returns (parse_decoder_config record).
Proof.
  destruct (parse_decoder_config_cases record) as [(? & ? & ? & _ & _ & _ & ->)|(? & -> & _)]; done.
Qed.

Lemma on_video_moved s ws m :
  holds s ws -> exists s' events ws', on_video s m = Ok (s', events) /\
    moved s ws (video_writes s m) s' events ws'.
Proof.
  intros H. assert (Hstill : forall s', alike s s' -> moved s ws [] s' [] ws).
  { intros s' (H1 & H2 & H3 & H4). by apply moved_still. }
  unfold on_video, video_writes. destruct (_ || _); [by eexists _, _, _; split; [|apply Hstill]|].
  pose proof (video_tag_returns (payload m)) as Hr.
  destruct (parse_video_tag (payload m)) as [tag|e| |]; [|by eexists _, _, _; split; [|apply Hstill]|done..].
  destruct (avc_packet_type tag =? kAvcPacketTypeSequenceHeader).
  - assert (Hnil : forall (o : option AvcDecoderConfig), (match o with Some _ => [] | None => [] end) = @nil ts_write)
      by (by intros []).
    rewrite Hnil. unfold video_header. pose proof (decoder_config_returns (body tag)) as Hc.
    destruct (parse_decoder_config (body tag)) as [c|e| |]; [|by eexists _, _, _; split; [|apply Hstill]|done..].
    cbv zeta. set (changed := match video_config_ s with Some _ => _ | None => _ end).
    destruct (header_moved s ws changed (Some c) (audio_config_ s)
      (first_sps c (sps_first_bytes_ (if changed then (flush_segment (header_changed s)).1 else s))) H)
      as [ws' M]. cbv zeta in M. destruct changed.
    + destruct (flush_segment (header_changed s)) as [s1 e1] eqn:Hf.
      eexists _, _, _. split; [done|]. eapply moved_after; [exact M|done].
    + by eexists _, _, _.
  - destruct (negb _).
    { eexists _, _, _. split; [done|]. destruct (video_config_ s); by apply Hstill. }
    destruct (video_config_ s) as [c|]; [by apply video_frame_moved|].
    eexists _, _, _. split; [done|]. by apply Hstill.
Qed.

Lemma on_audio_moved s ws m :
  holds s ws -> exists s' events ws', on_audio s m = Ok (s', events) /\
    moved s ws (audio_writes s m) s' events ws'.
Proof.
  intros H. assert (Hstill : forall s', alike s s' -> moved s ws [] s' [] ws).
  { intros s' (H1 & H2 & H3 & H4). by apply moved_still. }
  unfold on_audio, audio_writes. destruct (_ || _); [by eexists _, _, _; split; [|apply Hstill]|].
  pose proof (audio_tag_returns (payload m)) as Hr.
  destruct (Aac.parse_audio_tag (payload m)) as [tag|e| |];
    [|by eexists _, _, _; split; [|apply Hstill]|done..].
  destruct (Aac.aac_packet_type tag =? Aac.kAacPacketTypeSequenceHeader).
  - unfold audio_header. pose proof (audio_config_returns (Aac.body tag)) as Hc.
    destruct (Aac.parse_audio_specific_config (Aac.body tag)) as [c|e| |]; [| |done..].
    2: { eexists _, _, _. split; [done|]. destruct (audio_config_ s); by apply Hstill. }
    cbv zeta. set (changed := match audio_config_ s with Some _ => _ | None => _ end).
    destruct (header_moved s ws changed (video_config_ s) (Some c) (sps_first_bytes_ s) H) as [ws' M].
    assert (Hnil : match audio_config_ s with Some _ => [] | None => [] end = @nil ts_write)
      by (by destruct (audio_config_ s)).
    rewrite Hnil. cbv zeta in M. destruct changed.
    + destruct (flush_segment (header_changed s)) as [s1 e1] eqn:Hf.
      eexists _, _, _. split; [done|]. eapply moved_after; [exact M|done].
    + by eexists _, _, _.
  - destruct (audio_config_ s) as [c|]; [|by eexists _, _, _; split; [|apply Hstill]].
    destruct (segment_open_ (seg_ s)) eqn:Ho; cbn [negb]; [|by eexists _, _, _; split; [|apply Hstill]].
    destruct (empty (Aac.body tag)); [by eexists _, _, _; split; [|apply Hstill]|].
    destruct (audio_frame_moved s ws c tag (timestamp m) H Ho) as (s' & e & ws' & He & M).
    by exists s', e, ws'.
Qed.

Lemma step_moved s ws i :
  holds s ws -> exists s' events ws', step s i = Ok (s', events) /\
    moved s ws (writes s i) s' events ws'.
Proof.
  intros H. destruct i as [m|m|m| | |]; cbn [step writes].
  - by apply on_video_moved.
  - by apply on_audio_moved.
  - eexists _, _, _. split; [done|]. by apply moved_still.
  - destruct (reconnect_moved s ws H) as [ws' M]. destruct (mark_publisher_reconnect s).
    by eexists _, _, _.
  - destruct (media_gap_moved s ws H) as [ws' M]. destruct (mark_media_discontinuity s).
    by eexists _, _, _.
  - destruct (finalize_moved s ws H) as [ws' M]. destruct (finalize s). by eexists _, _, _.
Qed.

(** ** Once finalized, nothing is open *)

Lemma part_finalized s timestamp force :
  finalized_ (maybe_close_part s timestamp force).1 = finalized_ s.
Proof. unfold maybe_close_part. by repeat case_match. Qed.
Lemma flush_finalized s : finalized_ (flush_segment s).1 = finalized_ s.
Proof.
  unfold flush_segment. destruct (_ || _); [done|]. destruct (_ <=? _); [done|].
  pose proof (part_finalized s (last_ts_ s) true). by destruct (maybe_close_part _ _ _).
Qed.
Lemma marked_finalized s (mark : Segmenter -> Segmenter) :
  (forall s, finalized_ (mark s) = finalized_ s) ->
  finalized_ (flush_segment (mark s)).1 = finalized_ s.
Proof. intros Hm. by rewrite flush_finalized, Hm. Qed.

Lemma video_frame_finalized s config tag timestamp s' events :
  video_frame s config tag timestamp = Ok (s', events) -> finalized_ s' = finalized_ s.
Proof.
  unfold video_frame. intros H.
  assert (Hb : finalized_ (bridge_jump s timestamp).1 = finalized_ s).
  { unfold bridge_jump. destruct (is_discontinuous _ _); [|done]. pose proof (flush_finalized s).
    by destruct (flush_segment s). }
  destruct (bridge_jump s timestamp) as [s1 e1]. cbn [fst] in Hb. rewrite <- Hb. clear Hb.
  assert (Hc : finalized_ (cut_segment s1 (is_keyframe tag) timestamp).1 = finalized_ s1).
  { unfold cut_segment. destruct (segment_open_ _); [|done].
    destruct (_ && _); [apply flush_finalized|]. destruct (_ || _); [|done].
    pose proof (marked_finalized s1 forced_cut). destruct (flush_segment (forced_cut s1)). auto. }
  destruct (cut_segment s1 _ timestamp) as [s2 e2]. cbn [fst] in Hc. rewrite <- Hc. clear Hc.
  fold (opened s2 timestamp) in H.
  assert (Ho : finalized_ (opened s2 timestamp) = finalized_ s2).
  { unfold opened, start_segment. destruct (negb _); [|done]. by destruct (write_program_tables _ _). }
  rewrite <- Ho. generalize dependent (opened s2 timestamp). intros s3 H Ho. clear Ho.
  destruct (avcc_to_annexb _ _ _ _) as [annexb [ [] |e| |] ]; [|by simplify_eq|done..].
  res_inv H. destruct a as [m current].
  match type of H with (let '(_, _) := maybe_close_part ?x _ _ in _) = _ =>
    pose proof (part_finalized x timestamp false) as Hp end.
  destruct (maybe_close_part _ _ _). by simplify_eq.
Qed.

Lemma header_finalized s changed v a b :
  let r := if changed : bool then
             let '(s, events) := flush_segment (header_changed s) in (set_pending s true, events)
           else (s, []) in
  finalized_ (set_configs r.1 v a b) = finalized_ s.
Proof.
  destruct changed; [|done]. pose proof (marked_finalized s header_changed).
  destruct (flush_segment (header_changed s)). auto.
Qed.

Lemma on_video_finalized s m s' events :
  on_video s m = Ok (s', events) -> finalized_ s' = finalized_ s.
Proof.
  unfold on_video. destruct (_ || _); [by intros [= <- <-]|].
  destruct (parse_video_tag _) as [tag|e| |]; [|by intros [= <- <-]|done..].
  destruct (avc_packet_type tag =? kAvcPacketTypeSequenceHeader).
  - unfold video_header. destruct (parse_decoder_config _) as [c|e| |]; [|by intros [= <- <-]|done..].
    cbv zeta. set (changed := match video_config_ s with Some _ => _ | None => _ end).
    intros H. pose proof (header_finalized s changed (Some c) (audio_config_ s) []) as Hh.
    cbv zeta in Hh. destruct (if changed then _ else _) as [s1 e1]. injection H as <- <-. exact Hh.
  - destruct (negb _); [by intros [= <- <-]|]. destruct (video_config_ s); [|by intros [= <- <-] ].
    apply video_frame_finalized.
Qed.

Lemma on_audio_finalized s m s' events :
  on_audio s m = Ok (s', events) -> finalized_ s' = finalized_ s.
Proof.
  unfold on_audio. destruct (_ || _); [by intros [= <- <-]|].
  destruct (Aac.parse_audio_tag _) as [tag|e| |]; [|by intros [= <- <-]|done..].
  destruct (Aac.aac_packet_type tag =? Aac.kAacPacketTypeSequenceHeader).
  - unfold audio_header.
    destruct (Aac.parse_audio_specific_config _) as [c|e| |]; [|by intros [= <- <-]|done..].
    cbv zeta. set (changed := match audio_config_ s with Some _ => _ | None => _ end).
    intros H. pose proof (header_finalized s changed (video_config_ s) (Some c) []) as Hh.
    cbv zeta in Hh. destruct (if changed then _ else _) as [s1 e1]. injection H as <- <-. exact Hh.
  - destruct (audio_config_ s) as [cfg|]; [|by intros [= <- <-] ].
    destruct (negb _); [by intros [= <- <-]|]. destruct (empty _); [by intros [= <- <-]|].
    unfold audio_frame. intros H. apply bind_Ok_inv in H as ([m1 current] & _ & H).
    injection H as H. rewrite <- (f_equal fst H : _ = s'), part_finalized.
    by destruct (negb (have_last_ts_ _)).
Qed.

Lemma step_closed s i s' events :
  (finalized_ s = true -> segment_open_ (seg_ s) = false) -> step s i = Ok (s', events) ->
  finalized_ s' = true -> segment_open_ (seg_ s') = false.
Proof.
  intros Hs H Hf. destruct i as [m|m|m| | |]; cbn [step] in H.
  - pose proof (on_video_finalized _ _ _ _ H) as He. rewrite Hf in He. symmetry in He.
    unfold on_video in H. rewrite He in H. injection H as <- <-. auto.
  - pose proof (on_audio_finalized _ _ _ _ H) as He. rewrite Hf in He. symmetry in He.
    unfold on_audio in H. rewrite He in H. injection H as <- <-. auto.
  - simplify_eq. auto.
  - injection H as H. rewrite <- (f_equal fst H : _ = s'). unfold mark_publisher_reconnect.
    pose proof (flush_closes s). by destruct (flush_segment s).
  - injection H as H. rewrite <- (f_equal fst H : _ = s'). unfold mark_media_discontinuity.
    pose proof (flush_closes s). by destruct (flush_segment s).
  - injection H as H. rewrite <- (f_equal fst H : _ = s'). unfold finalize.
    destruct (finalized_ s); [auto|apply flush_closes].
Qed.

(** * Histories *)

Lemma make_holds config : holds (make_segmenter config) [].
Proof. apply shut_holds; [apply default_muxer_make|done..]. Qed.

Lemma run_moved inputs : forall s ws,
  holds s ws -> (finalized_ s = true -> segment_open_ (seg_ s) = false) ->
  exists s' events ws', run s inputs = Ok (s', events) /\
    moved s ws (all_writes s inputs) s' events ws' /\
    (finalized_ s' = true -> segment_open_ (seg_ s') = false).
Proof.
  induction inputs as [|i inputs IH]; intros s ws H Hf; cbn [run all_writes].
  - eexists _, _, _. split_and!; [done|by apply moved_still|done].
  - destruct (step_moved s ws i H) as (s1 & e1 & ws1 & Hs & M1). rewrite Hs. cbn [rbind].
    destruct (IH s1 ws1 (m_holds _ _ _ _ _ _ M1)) as (s2 & e2 & ws2 & -> & M2 & Hf2).
    { by eapply step_closed. }
    cbn [rbind]. eexists _, _, _. split_and!; [done|by eapply moved_trans|done].
Qed.

Lemma run_app s xs ys :
  run s (xs ++ ys) = ('(s, e1) <- run s xs ;; '(s, e2) <- run s ys ;; Ok (s, e1 ++ e2)).
Proof.
  revert s. induction xs as [|x xs IH]; intros s; cbn [app run].
  - cbn [rbind]. destruct (run s ys) as [ [? ?]|?| |]; done.
  - destruct (step s x) as [ [s1 e1]|?| |]; cbn [rbind]; [|done..]. rewrite IH.
    destruct (run s1 xs) as [ [s2 e2]|?| |]; cbn [rbind]; [|done..].
    destruct (run s2 ys) as [ [s3 e3]|?| |]; cbn [rbind]; [|done..]. by rewrite app_assoc.
Qed.

Lemma finalize_closes s :
  (finalized_ s = true -> segment_open_ (seg_ s) = false) ->
  segment_open_ (seg_ (finalize s).1) = false.
Proof. unfold finalize. destruct (finalized_ s); [auto|intros _; apply flush_closes]. Qed.

(** C18. Whatever the publisher sends, the segmenter gets through it; once the stream is
    finalized, every access unit it accepted is in exactly one published segment, in
    order.  Each segment carries at least one unit, demultiplexes on its own, whatever
    the read sizes, to exactly the units it carries, is named after its sequence
    number, and is the concatenation of its low-latency parts; the sequence numbers are
    consecutive from the configured first one. *)
Theorem hls_stream_complete config inputs :
  exists s' events wss,
    run (make_segmenter config) (inputs ++ [Finalize]) = Ok (s', events) /\
    concat wss = all_writes (make_segmenter config) inputs /\
    Forall2 (carries config) (segments_of events) wss /\
    map seg_sequence (segments_of events)
      = seqZ (initial_sequence config) (zlen (segments_of events)).
Proof.
  destruct (run_moved inputs _ _ (make_holds config) (fun H => eq_refl))
    as (s1 & e1 & ws1 & Hr & M1 & Hf).
  destruct (finalize_moved s1 ws1 (m_holds _ _ _ _ _ _ M1)) as [ws2 M2].
  pose proof (finalize_closes s1 Hf) as Hc. rewrite run_app, Hr. cbn [rbind run step].
  destruct (finalize s1) as [s2 e2]. cbn [fst snd rbind] in *.
  pose proof (moved_trans _ _ _ _ _ _ _ _ _ _ M1 M2) as [H _ _ Hq (wss & Hw & Hfa)].
  destruct (h_shut _ _ H Hc) as [-> _]. rewrite !app_nil_r in Hw. rewrite app_nil_r.
  by exists s2, (e1 ++ e2), wss.
Qed.

(** At every moment of a live stream nothing is lost and nothing is duplicated: the
    units accepted so far are those of the published segments followed by those of the
    open one. *)
Theorem hls_live_invariant config inputs s' events :
  run (make_segmenter config) inputs = Ok (s', events) ->
  exists wss ws, concat wss ++ ws = all_writes (make_segmenter config) inputs /\
    Forall2 (carries config) (segments_of events) wss /\ holds s' ws /\
    next_sequence_ s' = initial_sequence config + zlen (segments_of events).
Proof.
  intros Hr. destruct (run_moved inputs _ _ (make_holds config) (fun H => eq_refl))
    as (s1 & e1 & ws1 & Hr1 & [H _ Hn _ (wss & Hw & Hfa)] & _).
  rewrite Hr in Hr1. injection Hr1 as <- <-. by exists wss, ws1.
Qed.

(** ** What the bounds on a segment do not bound *)

(** A raw AAC message: the tag and the frame. *)
Definition aac_message (timestamp : Z) (frame : list byte) : RtmpMessage :=
  mkRtmpMessage 4 1 8 timestamp (z2b 0xAF :: z2b 0x01 :: frame).

Lemma aac_message_parses timestamp frame :
  Aac.parse_audio_tag (payload (aac_message timestamp frame)) = Ok (Aac.mkAudioTag 10 1 frame).
Proof.
  unfold Aac.parse_audio_tag, aac_message. cbn [payload].
  rewrite (proj2 (Z.ltb_ge _ _)) by zlia.
  change (u8_at (z2b 0xAF :: z2b 0x01 :: frame) 0) with (Ok 0xAF).
  change (u8_at (z2b 0xAF :: z2b 0x01 :: frame) 1) with (Ok 1). cbn [rbind].
  unfold subspan_from. assert ((0 <=? 2) && (2 <=? zlen (z2b 0xAF :: z2b 0x01 :: frame)) = true)
    as -> by zlia. done.
Qed.

(** A state in which raw audio is written: a segment is open and nothing is finalized. *)
Definition takes_audio (s : Segmenter) : Prop :=
  finalized_ s = false /\ segment_open_ (seg_ s) = true /\ audio_config_ s <> None.

Lemma part_no_segment s timestamp force :
  segments_of (maybe_close_part s timestamp force).2 = [] /\
  segment_open_ (seg_ (maybe_close_part s timestamp force).1) = segment_open_ (seg_ s) /\
  audio_config_ (maybe_close_part s timestamp force).1 = audio_config_ s.
Proof. unfold maybe_close_part. by repeat case_match. Qed.

Lemma raw_audio_no_cut s timestamp frame s' events :
  takes_audio s -> on_audio s (aac_message timestamp frame) = Ok (s', events) ->
  segments_of events = [] /\ takes_audio s'.
Proof.
  intros (Hf & Ho & Ha) H. pose proof (on_audio_finalized _ _ _ _ H) as Hf'.
  unfold on_audio in H. rewrite Hf, aac_message_parses in H.
  cbn [orb empty payload aac_message Aac.aac_packet_type Aac.body] in H. change (1 =? _) with false in H.
  destruct (audio_config_ s) as [c|] eqn:Hc; [|done]. rewrite Ho in H. cbn [negb] in H.
  destruct (empty frame); [by injection H as <- <-; split; [|split_and!; rewrite ?Hc]|].
  unfold audio_frame in H. apply bind_Ok_inv in H as ([m current] & _ & H). injection H as H.
  match type of H with maybe_close_part ?x ?t _ = _ =>
    pose proof (part_no_segment x t false) as (P1 & P2 & P3) end.
  rewrite H in P1, P2, P3. cbn [fst snd] in *. split; [done|].
  split_and!; [congruence| |]; [rewrite P2|rewrite P3]; destruct (negb (have_last_ts_ _));
    [done..|by rewrite <- Hc in Ha|by rewrite <- Hc in Ha].
Qed.

Lemma raw_audio_kept s ws timestamp frame :
  holds s ws -> takes_audio s -> frame <> [] -> zlen frame <= 65520 ->
  exists s' events w, step s (AudioMessage (aac_message timestamp frame)) = Ok (s', events) /\
    segments_of events = [] /\ takes_audio s' /\ holds s' (ws ++ [w]).
Proof.
  intros H Ht Hne Hlen.
  destruct (step_moved s ws (AudioMessage (aac_message timestamp frame)) H) as (s' & ev & ws' & Hs & M).
  destruct (raw_audio_no_cut _ _ _ _ _ Ht Hs) as [He Ht'].
  destruct M as [H' _ _ _ (wss & Hw & Hfa)]. rewrite He in Hfa. inversion Hfa; subst wss.
  cbn [concat app writes] in Hw. destruct Ht as (Hf & Ho & Ha). unfold audio_writes in Hw.
  rewrite Hf, aac_message_parses, Ho in Hw. destruct (audio_config_ s) as [c|]; [|done].
  cbn [orb negb empty payload aac_message Aac.aac_packet_type Aac.body] in Hw.
  change (1 =? _) with false in Hw. destruct frame as [|b frame]; [done|]. cbn [empty] in Hw.
  unfold audio_unit_writes in Hw. cbv zeta in Hw. cbn [oversized Aac.body] in Hw.
  rewrite (proj2 (Z.ltb_ge _ _)) in Hw.
  - eexists s', ev, _. split_and!; [done..|]. rewrite Hw. exact H'.
  - unfold Aac.append_adts_header. rewrite !zlen_app, !zlen_cons, !zlen_nil in *. lia.
Qed.

(** The bounds on a segment are tested for video only: once a segment is open, any
    number of audio frames, at any timestamps, goes into it and no segment is published,
    whatever [max_segment_bytes] and [max_segment_duration] are.  segmenter.hpp
    promises a forced cut at the next access unit once the size is exceeded. *)
Theorem audio_grows_a_segment_unboundedly frames : forall s ws,
  holds s ws -> takes_audio s ->
  Forall (fun f => f.2 <> [] /\ zlen f.2 <= 65520) frames ->
  exists s' events,
    run s (map (fun f => AudioMessage (aac_message f.1 f.2)) frames) = Ok (s', events) /\
    segments_of events = [] /\ takes_audio s' /\
    376 + 188 * (zlen ws + zlen frames) <= zlen (current_ (seg_ s')).
Proof.
  induction frames as [|[t f] frames IH]; intros s ws H Ht Hs; cbn [map run].
  - eexists _, _. split_and!; [done..|]. destruct Ht as (_ & Ho & _).
    destruct (h_open _ _ H Ho) as (m0 & [Hv _] & Hw). pose proof (open_size _ _ _ _ Hv Hw) as [Hz _].
    change (zlen (@nil (Z * list byte))) with 0. lia.
  - apply list.Forall_cons in Hs as [ [Hne Hl] Hs].
    destruct (raw_audio_kept s ws t f H Ht Hne Hl) as (s1 & e1 & w & Hst & He & Ht1 & H1).
    cbn [fst snd]. rewrite Hst. cbn [rbind].
    destruct (IH s1 (ws ++ [w]) H1 Ht1 Hs) as (s2 & e2 & -> & He2 & Ht2 & Hz). cbn [rbind].
    eexists _, _. split_and!; [done| |done|].
    + unfold segments_of in *. by rewrite omap_app, He, He2.
    + rewrite zlen_app, zlen_cons, zlen_nil in Hz. rewrite zlen_cons. lia.
Qed.

(** * A stream *)

Definition avc_message (timestamp kind : Z) (packet_type : Z) (data : list byte) : RtmpMessage :=
  mkRtmpMessage 6 1 9 timestamp ([z2b (kind * 16 + 7); z2b packet_type; z2b 0; z2b 0; z2b 0] ++ data).
Definition avc_record : list byte :=
  [z2b 1; z2b 0x64; z2b 0; z2b 0x1F; z2b 0xFF; z2b 0xE1; z2b 0; z2b 4;
   z2b 0x67; z2b 0x64; z2b 0; z2b 0x1F; z2b 1; z2b 0; z2b 2; z2b 0x68; z2b 0xEE].
Definition key_frame (timestamp : Z) : RtmpMessage :=
  avc_message timestamp 1 1 (length_prefixed 4 [ [z2b 0x65; z2b 7] ]).
Definition inter_frame (timestamp : Z) : RtmpMessage :=
  avc_message timestamp 2 1 (length_prefixed 4 [ [z2b 0x41; z2b 9] ]).
Definition video_config_message : RtmpMessage := avc_message 0 1 0 avc_record.
Definition audio_config_message : RtmpMessage :=
  mkRtmpMessage 4 1 8 0 [z2b 0xAF; z2b 0; z2b 0x12; z2b 0x10].

(** Two GOPs and some audio: two segments. *)
Definition sample_stream : list hls_input :=
  [VideoMessage video_config_message; AudioMessage audio_config_message;
   VideoMessage (key_frame 0); AudioMessage (aac_message 10 [z2b 1]);
   VideoMessage (inter_frame 40); VideoMessage (key_frame 4000);
   AudioMessage (aac_message 4010 [z2b 2; z2b 3])].
Example sample_stream_segments :
  match run (make_segmenter default_segmenter_config) (sample_stream ++ [Finalize]) with
  | Ok (s, events) =>
      map (fun g => (seg_sequence g, seg_duration g, zlen (seg_data g))) (segments_of events)
      = [(0, 40, 940); (1, 0, 752)] /\
      codecs_attribute s = "avc1.64001F,mp4a.40.2"%string
  | _ => False
  end.
Proof. vm_compute. done. Qed.

Definition ready (s : Segmenter) : bool :=
  negb (finalized_ s) && segment_open_ (seg_ s) && bool_decide (is_Some (audio_config_ s)).
Lemma ready_takes s : ready s = true -> takes_audio s.
Proof.
  unfold ready, takes_audio. rewrite !andb_true_iff, negb_true_iff, bool_decide_eq_true.
  intros [ [Hf Ho] [c Hc] ]. by rewrite Hc.
Qed.
Lemma sample_opening :
  match run (make_segmenter default_segmenter_config) (take 3 sample_stream) with
  | Ok (s, _) => ready s
  | _ => false
  end = true.
Proof. vm_compute. done. Qed.

Lemma audio_grows_a_segment_unboundedly_witness :
  exists s0 ws s' events,
    holds s0 ws /\ takes_audio s0 /\
    run s0 (map (fun f => AudioMessage (aac_message f.1 f.2)) (replicate 100 (7, [z2b 1]))) = Ok (s', events) /\
    segments_of events = [] /\ takes_audio s' /\
    376 + 188 * (zlen ws + 100) <= zlen (current_ (seg_ s')).
Proof.
  destruct (run_moved (take 3 sample_stream) _ _ (make_holds default_segmenter_config)
    (fun H => eq_refl)) as (s0 & e & ws & Hr & M & _).
  assert (Ht : takes_audio s0).
  { pose proof sample_opening as Hs. rewrite Hr in Hs. by apply ready_takes. }
  destruct (audio_grows_a_segment_unboundedly (replicate 100 (7, [z2b 1])) s0 ws
    (m_holds _ _ _ _ _ _ M) Ht) as (s' & ev & H1 & H2 & H3 & H4).
  - apply list.Forall_forall. intros x [-> _]%elem_of_replicate. by vm_compute.
  - exists s0, ws, s', ev. exact (conj (m_holds _ _ _ _ _ _ M) (conj Ht (conj H1 (conj H2 (conj H3 H4))))).
Defined.

(** docs/hls.md says that segments always start on a keyframe; a publisher whose
    first access unit after the sequence header is not one gets a segment, without a
    forced cut and not marked discontinuous, that starts there and carries no keyframe
    at all. *)
Theorem segment_without_keyframe :
  exists s events segment,
    run (make_segmenter default_segmenter_config)
      [VideoMessage video_config_message; VideoMessage (inter_frame 0);
       VideoMessage (inter_frame 40); Finalize] = Ok (s, events) /\
    segments_of events = [segment] /\ seg_discontinuity segment = false /\
    seg_iframe_prefix_bytes segment = 0 /\ forced_cuts (stats_ s) = 0.
Proof. eexists _, _, _. vm_compute. split_and!; reflexivity. Qed.
