(* ===== verification/HlsPlaylist.v ===== *)
(** hls/playlist.hpp and playlist.cpp: the media and master playlists.

    A playlist is built line by line, as the source appends whole lines.  A [double]
    number of seconds (or frames per second) is given here in thousandths, which
    "%.3f" prints exactly; shared pointers to segments and parts are not null. *)

From S2P Require Import Prelude Text HlsSegment.
From Stdlib Require Import Ascii.

#[export] Instance EncryptionKeyInfo_eq_dec : EqDecision EncryptionKeyInfo.
Proof. solve_decision. Defined.

Record MediaPlaylistOptions := mkMediaPlaylistOptions {
  target_duration_seconds : Z;
  version : Z;
  discontinuity_sequence : Z;
  ended : bool;
  segment_uri_prefix : string;
  emit_server_control : bool;
  hold_back_seconds : Z;
  low_latency : bool;
  part_target_seconds : Z;
  part_hold_back_seconds : Z;
  part_window_segments : Z;
  open_parts : list Part;
  preload_hint_uri : string;
  iframes_only : bool
}.
Definition default_playlist_options : MediaPlaylistOptions :=
  mkMediaPlaylistOptions 4 3 0 false "" true 0 false 0 0 3 [] "" false.

(** The double quote. *)
Definition quote : text := ["034"%char].
Definition digit_char (d : Z) : ascii := ascii_of_N (Z.to_N (48 + d)).

(** [%.3f] of a number of thousandths. *)
Definition format_duration (ms : Z) : text :=
  let m := Z.abs ms in
  (if ms <? 0 then str "-" else []) ++ dec (m / 1000) ++ str "." ++
  [digit_char (m mod 1000 / 100); digit_char (m mod 100 / 10); digit_char (m mod 10)].
Definition format_seconds (seconds : Z) : text := format_duration seconds.

Definition same_key (a b : option EncryptionKeyInfo) : bool := bool_decide (a = b).

Definition attribute_if (s : string) (t : text) : text := if String.eqb s "" then [] else t.

Definition append_key_tag (key : option EncryptionKeyInfo) : text :=
  match key with
  | Some k =>
      if negb (encrypted k) then str "#EXT-X-KEY:METHOD=NONE" else
      str "#EXT-X-KEY:METHOD=" ++ str (key_method k) ++
      str ",URI=" ++ quote ++ str (key_uri k) ++ quote ++
      attribute_if (iv_hex k) (str ",IV=" ++ str (iv_hex k)) ++
      attribute_if (key_format k) (str ",KEYFORMAT=" ++ quote ++ str (key_format k) ++ quote) ++
      attribute_if (key_format_versions k)
        (str ",KEYFORMATVERSIONS=" ++ quote ++ str (key_format_versions k) ++ quote)
  | None => str "#EXT-X-KEY:METHOD=NONE"
  end.

Definition append_part_tag (uri_prefix : string) (part : Part) : text :=
  str "#EXT-X-PART:DURATION=" ++ format_duration (part_duration part) ++
  str ",URI=" ++ quote ++ str uri_prefix ++ str (part_name part) ++ quote ++
  (if part_independent part then str ",INDEPENDENT=YES" else []).

(** ** The header *)

Definition rounded_seconds (s : Segment) : Z := u32 (Z.quot (seg_duration s + 999) 1000).
Definition playlist_target (o : MediaPlaylistOptions) (segments : list Segment) : Z :=
  let target := fold_left (fun target s => Z.max target (rounded_seconds s)) segments
                  (target_duration_seconds o) in
  if target =? 0 then 1 else target.

Definition playlist_version (o : MediaPlaylistOptions) : Z :=
  let version := version o in
  let version := if low_latency o then Z.max version 9 else version in
  if iframes_only o then Z.max version 4 else version.

Definition media_sequence (segments : list Segment) : Z :=
  match segments with s :: _ => seg_sequence s | [] => 0 end.

Definition server_control_line (o : MediaPlaylistOptions) (target : Z) : text :=
  str "#EXT-X-SERVER-CONTROL:CAN-BLOCK-RELOAD=" ++ (if low_latency o then str "YES" else str "NO") ++
  (if 0 <? hold_back_seconds o
   then str ",HOLD-BACK=" ++ format_seconds (Z.max (hold_back_seconds o) (3 * (target * 1000)))
   else []) ++
  (if low_latency o && (0 <? part_target_seconds o)
   then str ",PART-HOLD-BACK=" ++
        format_seconds (Z.max (part_hold_back_seconds o) (3 * part_target_seconds o))
   else []).

Definition header_lines (o : MediaPlaylistOptions) (segments : list Segment) : list text :=
  let target := playlist_target o segments in
  [str "#EXTM3U"; str "#EXT-X-VERSION:" ++ dec (playlist_version o);
   str "#EXT-X-TARGETDURATION:" ++ dec target;
   str "#EXT-X-MEDIA-SEQUENCE:" ++ dec (media_sequence segments)] ++
  (if 0 <? discontinuity_sequence o
   then [str "#EXT-X-DISCONTINUITY-SEQUENCE:" ++ dec (discontinuity_sequence o)] else []) ++
  (if iframes_only o then [str "#EXT-X-I-FRAMES-ONLY"] else []) ++
  (if emit_server_control o then [server_control_line o target] else []) ++
  (if low_latency o && (0 <? part_target_seconds o)
   then [str "#EXT-X-PART-INF:PART-TARGET=" ++ format_seconds (part_target_seconds o)] else []).

(** ** The segments *)

Definition first_part_segment (o : MediaPlaylistOptions) (count : Z) : Z :=
  if low_latency o && (part_window_segments o <? count) then count - part_window_segments o else 0.

(** The lines of one segment, without its key. *)
Definition segment_entry (o : MediaPlaylistOptions) (with_parts : bool) (s : Segment) : list text :=
  (if seg_discontinuity s then [str "#EXT-X-DISCONTINUITY"] else []) ++
  (if with_parts then map (append_part_tag (segment_uri_prefix o)) (seg_parts s) else []) ++
  [str "#EXTINF:" ++ format_duration (seg_duration s) ++ str ","] ++
  (if iframes_only o
   then [str "#EXT-X-BYTERANGE:" ++ dec (seg_iframe_prefix_bytes s) ++ str "@0"] else []) ++
  [str (segment_uri_prefix o) ++ str (seg_name s)].

Fixpoint segment_lines (o : MediaPlaylistOptions) (first_part : Z)
    (active_key : option EncryptionKeyInfo) (key_tag_written : bool) (index : Z)
    (segments : list Segment) : list text :=
  match segments with
  | [] => []
  | s :: segments =>
      if iframes_only o && (seg_iframe_prefix_bytes s =? 0) then
        segment_lines o first_part active_key key_tag_written (index + 1) segments
      else
      let changed := negb key_tag_written || negb (same_key active_key (seg_key s)) in
      let tag := changed && (bool_decide (is_Some (seg_key s)) || key_tag_written) in
      (if tag then [append_key_tag (seg_key s)] else []) ++
      segment_entry o (low_latency o && (first_part <=? index)) s ++
      segment_lines o first_part (if changed then seg_key s else active_key)
        (key_tag_written || tag) (index + 1) segments
  end.

Definition open_lines (o : MediaPlaylistOptions) : list text :=
  if low_latency o && negb (iframes_only o) then
    map (append_part_tag (segment_uri_prefix o)) (open_parts o) ++
    (if String.eqb (preload_hint_uri o) "" then [] else
       [str "#EXT-X-PRELOAD-HINT:TYPE=PART,URI=" ++ quote ++ str (segment_uri_prefix o) ++
        str (preload_hint_uri o) ++ quote])
  else [].

Definition playlist_lines (segments : list Segment) (o : MediaPlaylistOptions) : list text :=
  header_lines o segments ++
  segment_lines o (first_part_segment o (zlen segments)) None false 0 segments ++
  open_lines o ++
  (if ended o then [str "#EXT-X-ENDLIST"] else []).

Definition build_media_playlist (segments : list Segment) (o : MediaPlaylistOptions) : text :=
  unlines (playlist_lines segments o).

(** * The master playlist *)

Record Rendition := mkRendition {
  rendition_uri : string;
  bandwidth : Z;
  average_bandwidth : Z;
  codecs : string;
  width : Z;
  height : Z;
  frame_rate : Z;
  rendition_name : string;
  iframe_uri : string
}.

(** [std::sort]: renditions of the same bandwidth may come in any order; here they keep
    theirs. *)
Fixpoint insert_rendition (r : Rendition) (l : list Rendition) : list Rendition :=
  match l with
  | [] => [r]
  | x :: l => if bandwidth r <=? bandwidth x then r :: x :: l else x :: insert_rendition r l
  end.
Definition sort_renditions (l : list Rendition) : list Rendition := fold_right insert_rendition [] l.

Definition resolution_attribute (r : Rendition) : text :=
  if (0 <? width r) && (0 <? height r)
  then str ",RESOLUTION=" ++ dec (width r) ++ str "x" ++ dec (height r) else [].
Definition codecs_attribute (r : Rendition) : text :=
  attribute_if (codecs r) (str ",CODECS=" ++ quote ++ str (codecs r) ++ quote).

Definition stream_inf_lines (r : Rendition) : list text :=
  [str "#EXT-X-STREAM-INF:BANDWIDTH=" ++ dec (bandwidth r) ++
   (if 0 <? average_bandwidth r
    then str ",AVERAGE-BANDWIDTH=" ++ dec (average_bandwidth r) else []) ++
   resolution_attribute r ++
   (if 0 <? frame_rate r then str ",FRAME-RATE=" ++ format_duration (frame_rate r) else []) ++
   codecs_attribute r ++
   attribute_if (rendition_name r) (str ",NAME=" ++ quote ++ str (rendition_name r) ++ quote);
   str (rendition_uri r)].

Definition iframe_stream_inf_lines (r : Rendition) : list text :=
  if String.eqb (iframe_uri r) "" then [] else
  [str "#EXT-X-I-FRAME-STREAM-INF:BANDWIDTH=" ++ dec (bandwidth r) ++ resolution_attribute r ++
   codecs_attribute r ++ str ",URI=" ++ quote ++ str (iframe_uri r) ++ quote].

Definition build_master_playlist (renditions : list Rendition) : text :=
  let sorted := sort_renditions renditions in
  let any_iframe_playlist := existsb (fun r => negb (String.eqb (iframe_uri r) "")) sorted in
  unlines
    ([str "#EXTM3U";
      if any_iframe_playlist then str "#EXT-X-VERSION:4" else str "#EXT-X-VERSION:3"] ++
     concat (map stream_inf_lines sorted) ++
     concat (map iframe_stream_inf_lines sorted)).
