(* ===== verification/HlsPuller.v ===== *)
(** transcoding/native/hls_playlist.hpp and hls_playlist.cpp: the playlists another server
    sends, as the pulling side of the transcoder reads them.

    A [double] is kept as the text [to_double] converts. *)

From S2P Require Import Prelude Text HlsSegment HlsPlaylist.
From Stdlib Require Import Ascii.

Record HlsSegmentRef := mkHlsSegmentRef {
  ref_uri : text;
  ref_duration : text;
  ref_sequence : Z;
  ref_discontinuity : bool
}.

Record HlsMediaPlaylist := mkHlsMediaPlaylist {
  segments : list HlsSegmentRef;
  target_duration : text;
  pl_media_sequence : Z;
  endlist : bool;
  unsupported_feature : string
}.
Definition empty_playlist : HlsMediaPlaylist := mkHlsMediaPlaylist [] [] 0 false "".

Record HlsVariant := mkHlsVariant {
  variant_uri : text;
  variant_bandwidth : Z;
  variant_width : Z;
  variant_height : Z
}.

Definition blank (c : ascii) : bool :=
  Ascii.eqb c " " || Ascii.eqb c "009" || Ascii.eqb c "013".

Fixpoint trim_front (l : text) : text :=
  match l with
  | c :: rest => if blank c then trim_front rest else l
  | [] => []
  end.
Definition trim (l : text) : text := rev (trim_front (rev (trim_front l))).

(** The value of an attribute: quoted, or up to the next comma. *)
Definition attribute_value (l : text) : text :=
  match l with
  | c :: rest =>
      if Ascii.eqb c "034" then match find_char "034" rest with Some n => take n rest | None => rest end
      else match find_char "," l with Some n => take n l | None => l end
  | [] => []
  end.

(** The search of [attribute], over what is left of the line; [prev] is the character
    before it. *)
Fixpoint attribute_from (fuel : nat) (at_start : bool) (prev : ascii) (line key : text) : text :=
  match fuel with
  | O => []
  | S fuel =>
      match find_text key line with
      | None => []
      | Some pos =>
          let before := match pos with O => prev | S n => default prev (line !! n) end in
          let boundary := (at_start && Nat.eqb pos 0) || Ascii.eqb before "," || Ascii.eqb before ":"
                          || Ascii.eqb before " " in
          let rest := drop (pos + length key) line in
          match boundary, rest with
          | true, "="%char :: value => attribute_value value
          | _, _ =>
              attribute_from fuel false
                (default prev (line !! (pos + length key - 1)%nat)) rest key
          end
      end
  end.
Definition attribute (line key : text) : text :=
  attribute_from (S (length line)) true " " line key.

Definition to_u64 (s : text) : Z :=
  let v := fst (scan_digits 0 s) in if v <? 2 ^ 64 then v else 0.

Definition lines_of (t : text) : list text := map trim (split_lines t).

Definition resolve_url (base reference : text) : text :=
  let reference := trim reference in
  match reference with
  | [] => base
  | c :: _ =>
      if bool_decide (is_Some (find_text (str "://") reference)) then reference else
      let host_start := match find_text (str "://") base with Some n => (n + 3)%nat | None => O end in
      let origin := match find_char "/" (drop host_start base) with
                    | Some n => take (host_start + n) base
                    | None => base
                    end in
      if Ascii.eqb c "/" then origin ++ reference else
      let dir := match rfind_char "/" base with
                 | Some last_slash =>
                     if Nat.ltb last_slash host_start then origin else take last_slash base
                 | None => origin
                 end in
      dir ++ str "/" ++ reference
  end.

Definition is_master_playlist (t : text) : bool :=
  bool_decide (is_Some (find_text (str "#EXT-X-STREAM-INF") t)).

Definition byte_order_mark : text := ["239"; "187"; "191"]%char.
Definition is_hls_playlist (t : text) : bool :=
  let t := trim t in
  let t := if begins byte_order_mark t then drop 3 t else t in
  begins (str "#EXTM3U") t.

(** ** Master playlists *)

(** The next line that is neither empty nor a comment. *)
Fixpoint next_uri (base_url : text) (lines : list text) : text :=
  match lines with
  | [] => []
  | [] :: lines => next_uri base_url lines
  | (c :: l) :: lines =>
      if Ascii.eqb c "#" then next_uri base_url lines else resolve_url base_url (c :: l)
  end.

Definition variant_of (base_url line : text) (rest : list text) : HlsVariant :=
  let bandwidth := to_u64 (attribute line (str "BANDWIDTH")) in
  let resolution := attribute line (str "RESOLUTION") in
  let '(w, h) := match find_char "x" resolution with
                 | Some x => (u32 (to_u64 (take x resolution)), u32 (to_u64 (drop (x + 1) resolution)))
                 | None => (0, 0)
                 end in
  mkHlsVariant (next_uri base_url rest) bandwidth w h.

Fixpoint master_loop (base_url : text) (lines : list text) : list HlsVariant :=
  match lines with
  | [] => []
  | line :: lines =>
      if begins (str "#EXT-X-STREAM-INF") line then
        let variant := variant_of base_url line lines in
        (match variant_uri variant with [] => [] | _ => [variant] end) ++ master_loop base_url lines
      else master_loop base_url lines
  end.
Definition parse_master_playlist (t base_url : text) : list HlsVariant :=
  master_loop base_url (lines_of t).

(** ** Media playlists *)

Record MediaParse := mkMediaParse {
  playlist : HlsMediaPlaylist;
  pending_duration : text;
  pending_discontinuity : bool;
  sequence : Z;
  sequence_seen : bool
}.
Definition parse_start : MediaParse := mkMediaParse empty_playlist [] false 0 false.

Definition set_unsupported (p : HlsMediaPlaylist) (what : string) : HlsMediaPlaylist :=
  mkHlsMediaPlaylist (segments p) (target_duration p) (pl_media_sequence p) (endlist p) what.
Definition unsupported (s : MediaParse) (what : string) : MediaParse :=
  mkMediaParse (set_unsupported (playlist s) what) (pending_duration s) (pending_discontinuity s)
    (sequence s) (sequence_seen s).

Definition add_segment_ref (base_url line : text) (s : MediaParse) : MediaParse :=
  let p := playlist s in
  let seg := mkHlsSegmentRef (resolve_url base_url line) (pending_duration s)
               (if sequence_seen s then sequence s else zlen (segments p)) (pending_discontinuity s) in
  mkMediaParse
    (mkHlsMediaPlaylist (segments p ++ [seg]) (target_duration p) (pl_media_sequence p) (endlist p)
       (unsupported_feature p))
    [] false (u64 (sequence s + 1)) (sequence_seen s).

Definition parse_line (base_url line : text) (s : MediaParse) : MediaParse :=
  let p := playlist s in
  match line with
  | [] => s
  | c :: _ =>
      if begins (str "#EXT-X-TARGETDURATION:") line then
        mkMediaParse (mkHlsMediaPlaylist (segments p) (drop 22 line) (pl_media_sequence p) (endlist p)
                        (unsupported_feature p))
          (pending_duration s) (pending_discontinuity s) (sequence s) (sequence_seen s)
      else if begins (str "#EXT-X-MEDIA-SEQUENCE:") line then
        let n := to_u64 (drop 22 line) in
        mkMediaParse (mkHlsMediaPlaylist (segments p) (target_duration p) n (endlist p)
                        (unsupported_feature p))
          (pending_duration s) (pending_discontinuity s) n true
      else if begins (str "#EXT-X-DISCONTINUITY") line &&
              negb (begins (str "#EXT-X-DISCONTINUITY-SEQUENCE") line) then
        mkMediaParse p (pending_duration s) true (sequence s) (sequence_seen s)
      else if begins (str "#EXTINF:") line then
        mkMediaParse p (drop 8 line) (pending_discontinuity s) (sequence s) (sequence_seen s)
      else if begins (str "#EXT-X-MAP:") line then
        unsupported s "fragmented-MP4 HLS (#EXT-X-MAP) is not supported by the native TS demuxer"
      else if begins (str "#EXT-X-BYTERANGE:") line then
        unsupported s "byte-range HLS segments are not supported by the native puller"
      else if begins (str "#EXT-X-KEY:") line &&
              negb (bool_decide (is_Some (find_text (str "METHOD=NONE") line))) then
        unsupported s "encrypted HLS is not supported by the native puller"
      else if bool_decide (line = str "#EXT-X-ENDLIST") then
        mkMediaParse (mkHlsMediaPlaylist (segments p) (target_duration p) (pl_media_sequence p) true
                        (unsupported_feature p))
          (pending_duration s) (pending_discontinuity s) (sequence s) (sequence_seen s)
      else if negb (Ascii.eqb c "#") then add_segment_ref base_url line s
      else s
  end.

Definition parse_media_playlist (t base_url : text) : HlsMediaPlaylist :=
  playlist (fold_left (fun s line => parse_line base_url line s) (lines_of t) parse_start).

(** ** Choosing a variant *)

(** The best of the variants [keep] lets through: the first of the highest bandwidth. *)
Definition better (keep : HlsVariant -> bool) (best : option HlsVariant) (v : HlsVariant)
    : option HlsVariant :=
  if keep v then
    match best with
    | None => Some v
    | Some b => if variant_bandwidth b <? variant_bandwidth v then Some v else best
    end
  else best.
Definition best_of (keep : HlsVariant -> bool) (variants : list HlsVariant) : option HlsVariant :=
  fold_left (better keep) variants None.

Definition select_variant (variants : list HlsVariant) (bitrate_cap : Z) : text :=
  let under v := (bitrate_cap =? 0) || (variant_bandwidth v <=? bitrate_cap) in
  match best_of under variants with
  | Some v => variant_uri v
  | None => match best_of (fun _ => true) variants with Some v => variant_uri v | None => [] end
  end.
