(* ===== verification/HlsReadBack.v ===== *)
(** What the playlist reader (HlsPuller.v) makes of the playlists this server writes
    (HlsPlaylist.v), and what a player may rely on in them. *)

From S2P Require Import Prelude Text HlsSegment HlsPlaylist HlsPuller.
From Stdlib Require Import Ascii.

(** * Lines that survive *)

Definition one_line (l : text) : bool := forallb (fun c => negb (Ascii.eqb c newline)) l.
(** A last character that [trim] keeps. *)
Definition tight_end (l : text) : Prop := exists l' c, l = l' ++ [c] /\ blank c = false.
Definition tight (l : text) : Prop :=
  (exists c l', l = c :: l' /\ blank c = false) /\ tight_end l.

Lemma one_line_spec l : one_line l = true <-> newline ∉ l.
Proof.
  unfold one_line. induction l as [|c l IH]; cbn [forallb]; [set_solver|].
  rewrite andb_true_iff, IH, negb_true_iff, Ascii.eqb_neq. set_solver.
Qed.
Lemma one_line_app l1 l2 : one_line (l1 ++ l2) = one_line l1 && one_line l2.
Proof. apply forallb_app. Qed.

Lemma digit_plain c : digit c -> Ascii.eqb c newline = false /\ blank c = false.
Proof.
  intros [v Hv]. assert (Hn : forall d, digit_value d = None -> c <> d) by congruence.
  assert (H : forall d, digit_value d = None -> Ascii.eqb c d = false)
    by (intros d Hd; apply Ascii.eqb_neq; auto).
  split; [by apply H|]. unfold blank. by rewrite !H.
Qed.
Lemma one_line_digits l : Forall digit l -> one_line l = true.
Proof.
  induction 1 as [|c l Hc _ IH]; [done|]. unfold one_line in *. cbn [forallb].
  by rewrite (proj1 (digit_plain c Hc)).
Qed.
Lemma one_line_dec z : 0 <= z -> one_line (dec z) = true.
Proof. intros Hz. by apply one_line_digits, dec_digits. Qed.

Lemma digit_char_digit d : 0 <= d < 10 -> digit (digit_char d).
Proof.
  intros Hd. assert (Hc : d = 0 \/ d = 1 \/ d = 2 \/ d = 3 \/ d = 4 \/ d = 5 \/ d = 6 \/ d = 7 \/
    d = 8 \/ d = 9) by lia.
  destruct_or! Hc; subst d; by eexists.
Qed.
Lemma format_duration_last ms : exists l c, format_duration ms = l ++ [c] /\ digit c.
Proof.
  unfold format_duration. eexists _, _. split; [rewrite !app_assoc;
    change [?a; ?b; ?c] with ([a; b] ++ [c]); rewrite app_assoc; done|].
  apply digit_char_digit. apply Z.mod_pos_bound. lia.
Qed.
Lemma one_line_duration ms : one_line (format_duration ms) = true.
Proof.
  unfold format_duration. rewrite !one_line_app, one_line_dec by (apply Z.div_pos; lia).
  rewrite (one_line_digits [_; _; _]); [by destruct (ms <? 0)|].
  repeat constructor; apply digit_char_digit; Z.to_euclidean_division_equations; lia.
Qed.

Lemma tight_end_app l1 l2 : tight_end l2 -> tight_end (l1 ++ l2).
Proof. intros (l & c & -> & Hc). exists (l1 ++ l), c. by rewrite app_assoc. Qed.
Lemma tight_end_duration ms : tight_end (format_duration ms).
Proof.
  destruct (format_duration_last ms) as (l & c & -> & Hc). exists l, c.
  split; [done|by apply digit_plain].
Qed.
Lemma tight_end_dec z : 0 <= z -> tight_end (dec z).
Proof.
  intros Hz. pose proof (dec_digits z Hz) as Hd. destruct (scan_dec z Hz) as [_ Hne].
  destruct (exists_last Hne) as (l & c & He). exists l, c. split; [done|]. rewrite He in Hd.
  apply Forall_app in Hd as [_ Hd]. inversion Hd; subst. by apply digit_plain.
Qed.

Lemma trim_tight l : tight l -> trim l = l.
Proof.
  intros ((c & l' & -> & Hc) & (m & d & He & Hd)). unfold trim. cbn [trim_front]. rewrite Hc, He.
  rewrite rev_app_distr. cbn [rev app trim_front]. rewrite Hd. cbn [rev]. by rewrite rev_involutive.
Qed.

(** * Lines the reader passes over *)

Lemma differs_neq p q rest : differs p q = true -> q ++ rest <> p.
Proof.
  intros Hd He. apply (differs_begins _ _ rest) in Hd. rewrite He in Hd.
  assert (begins p p = true) by (apply begins_spec; exists []; by rewrite app_nil_r). congruence.
Qed.

Definition reader_tags : list text :=
  [str "#EXT-X-TARGETDURATION:"; str "#EXT-X-MEDIA-SEQUENCE:"; str "#EXT-X-DISCONTINUITY";
   str "#EXTINF:"; str "#EXT-X-MAP:"; str "#EXT-X-BYTERANGE:"; str "#EXT-X-KEY:";
   str "#EXT-X-ENDLIST"].

(** A line that begins with [q], whatever follows, means nothing to the reader. *)
Lemma parse_ignored base q rest s :
  forallb (fun p => differs p q) reader_tags = true -> begins (str "#") q = true ->
  parse_line base (q ++ rest) s = s.
Proof.
  intros Hd Hh. cbn [forallb reader_tags] in Hd. rewrite !andb_true_iff in Hd.
  destruct Hd as (D1 & D2 & D3 & D4 & D5 & D6 & D7 & D8 & _).
  apply begins_spec in Hh as [q' ->]. unfold parse_line. 
  change ((str "#" ++ q') ++ rest) with ("#"%char :: q' ++ rest).
  change (str "#" ++ q') with ("#"%char :: q') in *.
  change ("#"%char :: q' ++ rest) with (("#"%char :: q') ++ rest).
  rewrite (differs_begins _ _ rest D1), (differs_begins _ _ rest D2), (differs_begins _ _ rest D3),
    (differs_begins _ _ rest D4), (differs_begins _ _ rest D5), (differs_begins _ _ rest D6),
    (differs_begins _ _ rest D7).
  cbn [app andb]. rewrite bool_decide_eq_false_2; [done|].
  exact (differs_neq _ ("#"%char :: q') rest D8).
Qed.
Lemma parse_ignored_line base q s :
  forallb (fun p => differs p q) reader_tags = true -> begins (str "#") q = true ->
  parse_line base q s = s.
Proof. intros Hd Hh. rewrite <- (app_nil_r q). by apply parse_ignored. Qed.

(** [reads base s lines s']: the reader goes from [s] to [s'] over [lines]. *)
Definition reads (base : text) (s : MediaParse) (lines : list text) (s' : MediaParse) : Prop :=
  fold_left (fun s line => parse_line base line s) lines s = s'.

Lemma reads_app base s l1 s1 l2 s2 :
  reads base s l1 s1 -> reads base s1 l2 s2 -> reads base s (l1 ++ l2) s2.
Proof. unfold reads. intros H1 H2. by rewrite fold_left_app, H1. Qed.
Lemma reads_ignored base s lines :
  Forall (fun l => forall s, parse_line base l s = s) lines -> reads base s lines s.
Proof. intros H. revert s. induction H as [|l ls Hl _ IH]; intros s; [done|]. unfold reads. cbn. rewrite Hl. apply IH. Qed.

Lemma part_line_ignored base prefix p s : parse_line base (append_part_tag prefix p) s = s.
Proof. apply (parse_ignored base (str "#EXT-X-PART:DURATION=")); by vm_compute. Qed.
Lemma parts_ignored base prefix ps s : reads base s (map (append_part_tag prefix) ps) s.
Proof.
  apply reads_ignored. induction ps as [|p ps IH]; constructor; [apply part_line_ignored|done].
Qed.

(** * Reading the playlist back *)

(** A URI the reader takes for one: of one line, not a comment, not cut by [trim]. *)
Definition uri_ok (l : text) : Prop :=
  one_line l = true /\ (exists c l', l = c :: l' /\ blank c = false /\ c <> "#"%char) /\ tight_end l.

Definition with_target (s : MediaParse) (t : text) : MediaParse :=
  let p := playlist s in
  mkMediaParse (mkHlsMediaPlaylist (segments p) t (pl_media_sequence p) (endlist p)
                  (unsupported_feature p))
    (pending_duration s) (pending_discontinuity s) (sequence s) (sequence_seen s).

Lemma parse_target base z s :
  parse_line base (str "#EXT-X-TARGETDURATION:" ++ dec z) s = with_target s (dec z).
Proof. done. Qed.

Lemma to_u64_dec z : 0 <= z < 2 ^ 64 -> to_u64 (dec z) = z.
Proof.
  intros Hz. unfold to_u64. destruct (scan_dec z) as [-> _]; [lia|]. cbn [fst].
  by rewrite (proj2 (Z.ltb_lt _ _)) by lia.
Qed.

Lemma parse_sequence base z s :
  0 <= z < 2 ^ 64 ->
  parse_line base (str "#EXT-X-MEDIA-SEQUENCE:" ++ dec z) s =
  mkMediaParse (mkHlsMediaPlaylist (segments (playlist s)) (target_duration (playlist s)) z
                  (endlist (playlist s)) (unsupported_feature (playlist s)))
    (pending_duration s) (pending_discontinuity s) z true.
Proof.
  intros Hz. rewrite <- (to_u64_dec z Hz) at 2 3. done.
Qed.

Lemma parse_duration base ms s :
  parse_line base (str "#EXTINF:" ++ format_duration ms ++ str ",") s =
  mkMediaParse (playlist s) (format_duration ms ++ str ",") (pending_discontinuity s) (sequence s)
    (sequence_seen s).
Proof. done. Qed.

Lemma parse_uri base l s :
  uri_ok l -> parse_line base l s = add_segment_ref base l s.
Proof.
  intros (_ & (c & l' & -> & _ & Hc) & _). unfold parse_line.
  assert (Hb : forall p, begins (str (String "#" p)) (c :: l') = false).
  { intros p. change (Ascii.eqb "#" c && begins (str p) l' = false).
    destruct (Ascii.eqb_spec "#" c); [congruence|done]. }
  rewrite !Hb. cbn [andb]. rewrite bool_decide_eq_false_2 by (intros [= ? ?]; congruence).
  by rewrite (proj2 (Ascii.eqb_neq c "#")).
Qed.

(** The segments of a playlist, as a reader sees them. *)
Definition refs (base : text) (o : MediaPlaylistOptions) (segs : list Segment) : list HlsSegmentRef :=
  map (fun s => mkHlsSegmentRef (resolve_url base (str (segment_uri_prefix o) ++ str (seg_name s)))
                  (format_duration (seg_duration s) ++ str ",") (seg_sequence s)
                  (seg_discontinuity s)) segs.

(** What a playlist must be for the reader: nothing the native puller refuses, names it
    can read, consecutive numbers. *)
Record readable (o : MediaPlaylistOptions) (segs : list Segment) : Prop := {
  r_whole : iframes_only o = false;
  r_clear : Forall (fun s => seg_key s = None) segs;
  r_uris : Forall (fun s => uri_ok (str (segment_uri_prefix o) ++ str (seg_name s))) segs;
  r_prefix : one_line (str (segment_uri_prefix o)) = true;
  r_parts : Forall (fun p => one_line (str (part_name p)) = true)
              (concat (map seg_parts segs) ++ open_parts o);
  r_hint : one_line (str (preload_hint_uri o)) = true;
  r_numbers : map seg_sequence segs = seqZ (media_sequence segs) (zlen segs);
  r_range : 0 <= media_sequence segs /\ media_sequence segs + zlen segs < 2 ^ 64;
  r_options : 0 <= target_duration_seconds o /\ 0 <= version o /\ 0 <= discontinuity_sequence o
}.

Definition at_segment (p : HlsMediaPlaylist) (n : Z) : MediaParse := mkMediaParse p [] false n true.
Definition with_segments (p : HlsMediaPlaylist) (l : list HlsSegmentRef) : HlsMediaPlaylist :=
  mkHlsMediaPlaylist (segments p ++ l) (target_duration p) (pl_media_sequence p) (endlist p)
    (unsupported_feature p).

Lemma with_segments_nil p : with_segments p [] = p.
Proof. destruct p as [l ? ? ? ?]. unfold with_segments. cbn. by rewrite app_nil_r. Qed.

Lemma segment_entry_read base o with_parts s p :
  iframes_only o = false -> uri_ok (str (segment_uri_prefix o) ++ str (seg_name s)) ->
  seg_sequence s + 1 < 2 ^ 64 -> 0 <= seg_sequence s ->
  reads base (at_segment p (seg_sequence s)) (segment_entry o with_parts s)
    (at_segment (with_segments p (refs base o [s])) (seg_sequence s + 1)).
Proof.
  intros Hi Hu Hs H0. unfold segment_entry. rewrite Hi.
  eapply reads_app with (s1 := mkMediaParse p [] (seg_discontinuity s) (seg_sequence s) true).
  { by destruct (seg_discontinuity s). }
  eapply reads_app; [by destruct with_parts; [apply parts_ignored|]|].
  eapply reads_app; [unfold reads; cbn [fold_left]; apply parse_duration|]. cbn [app].
  unfold reads. cbn [fold_left]. rewrite parse_uri by done.
  unfold add_segment_ref, at_segment, with_segments, refs. cbn [playlist pending_duration
    pending_discontinuity sequence sequence_seen map]. unfold u64. rewrite Z.mod_small by lia. done.
Qed.

Lemma segment_lines_read base o first_part segs : forall index p n,
  iframes_only o = false -> Forall (fun s => seg_key s = None) segs ->
  Forall (fun s => uri_ok (str (segment_uri_prefix o) ++ str (seg_name s))) segs ->
  map seg_sequence segs = seqZ n (zlen segs) -> 0 <= n -> n + zlen segs < 2 ^ 64 ->
  reads base (at_segment p n) (segment_lines o first_part None false index segs)
    (at_segment (with_segments p (refs base o segs)) (n + zlen segs)).
Proof.
  induction segs as [|s segs IH]; intros index p n Hi Hk Hu Hn H0 H64; cbn [segment_lines].
  - change (zlen (@nil Segment)) with 0. by rewrite Z.add_0_r, with_segments_nil.
  - apply list.Forall_cons in Hk as [Hk1 Hk], Hu as [Hu1 Hu]. rewrite Hi, Hk1.
    pose proof (zlen_nonneg segs). rewrite zlen_cons in *.
    rewrite seqZ_cons in Hn by lia. cbn [map] in Hn. injection Hn as Hn1 Hn.
    replace (Z.pred (1 + zlen segs)) with (zlen segs) in Hn by lia.
    change (same_key None None) with true. cbn [negb orb andb].
    rewrite bool_decide_eq_false_2 by (by intros [? ?]). cbn [andb orb app].
    eapply reads_app; [rewrite <- Hn1; apply segment_entry_read; try done; lia|].
    change (Z.succ n) with (n + 1) in Hn.
    pose proof (IH (index + 1) (with_segments p (refs base o [s])) (n + 1) Hi Hk Hu Hn
      ltac:(lia) ltac:(lia)) as Hr.
    rewrite Hn1. replace (n + (1 + zlen segs)) with (n + 1 + zlen segs) by lia.
    replace (with_segments p (refs base o (s :: segs)))
      with (with_segments (with_segments p (refs base o [s])) (refs base o segs)); [exact Hr|].
    unfold with_segments. cbn. by rewrite <- app_assoc.
Qed.

Lemma header_read base o segs :
  iframes_only o = false -> 0 <= media_sequence segs < 2 ^ 64 ->
  reads base parse_start (header_lines o segs)
    (at_segment (mkHlsMediaPlaylist [] (dec (playlist_target o segs)) (media_sequence segs) false "")
       (media_sequence segs)).
Proof.
  intros Hi Hm. unfold header_lines. rewrite Hi. 
  eapply reads_app; [|eapply reads_app; [|eapply reads_app; [|eapply reads_app] ] ].
  - unfold reads. cbn [fold_left].
    rewrite (parse_ignored_line base (str "#EXTM3U")), (parse_ignored base (str "#EXT-X-VERSION:")),
      parse_target, parse_sequence by (done || by vm_compute).
    reflexivity.
  - destruct (0 <? discontinuity_sequence o); [|done]. done.
  - done.
  - destruct (emit_server_control o); [|done]. unfold reads. cbn [fold_left].
    apply (parse_ignored base (str "#EXT-X-SERVER-CONTROL:CAN-BLOCK-RELOAD=")); by vm_compute.
  - destruct (_ && _); [|done]. unfold reads. cbn [fold_left].
    apply (parse_ignored base (str "#EXT-X-PART-INF:PART-TARGET=")); by vm_compute.
Qed.

Lemma ending_read base o p n :
  reads base (at_segment p n) (open_lines o ++ (if ended o then [str "#EXT-X-ENDLIST"] else []))
    (at_segment (mkHlsMediaPlaylist (segments p) (target_duration p) (pl_media_sequence p)
                   (ended o || endlist p) (unsupported_feature p)) n).
Proof.
  eapply reads_app.
  - unfold open_lines. destruct (_ && _); [|done]. eapply reads_app; [apply parts_ignored|].
    destruct (String.eqb _ _); [done|]. unfold reads. cbn [fold_left].
    apply (parse_ignored base (str "#EXT-X-PRELOAD-HINT:TYPE=PART,URI=")); by vm_compute.
  - destruct (ended o); [done|]. by destruct p.
Qed.

(** ** Every line survives *)

Definition good (l : text) : Prop := one_line l = true /\ tight l.

Lemma tight_end_check l : (match rev l with c :: _ => negb (blank c) | [] => false end) = true -> tight_end l.
Proof.
  intros H. destruct (rev l) as [|c r] eqn:Hr; [done|]. apply negb_true_iff in H.
  exists (rev r), c. split; [|done]. rewrite <- (rev_involutive l), Hr. done.
Qed.

(** A tag [q] and its value. *)
Lemma good_tag q rest :
  begins (str "#") q = true -> one_line q = true -> one_line rest = true -> tight_end rest ->
  good (q ++ rest).
Proof.
  intros [q' ->]%begins_spec Hq Hr He. split; [by rewrite one_line_app, Hq|].
  split; [|by apply tight_end_app]. by eexists _, _.
Qed.
Lemma good_const q :
  begins (str "#") q = true -> one_line q = true ->
  (match rev q with c :: _ => negb (blank c) | [] => false end) = true -> good q.
Proof.
  intros Hb Hq He. split; [done|]. split; [|by apply tight_end_check].
  apply begins_spec in Hb as [q' ->]. by eexists _, _.
Qed.

Lemma good_uri l : uri_ok l -> good l.
Proof. intros (H1 & (c & l' & -> & Hc & _) & H3). split; [done|]. split; [by eexists _, _|done]. Qed.

Lemma tight_end_quote l : tight_end (l ++ quote).
Proof. by exists l, "034"%char. Qed.

Lemma good_part_tag prefix p :
  one_line (str prefix) = true -> one_line (str (part_name p)) = true -> good (append_part_tag prefix p).
Proof.
  intros Hp Hn. apply good_tag; [done|done| |].
  - rewrite !one_line_app, one_line_duration, Hp, Hn. by destruct (part_independent p).
  - do 5 apply tight_end_app. destruct (part_independent p); [by apply tight_end_check|].
    rewrite app_nil_r. apply (tight_end_quote []).
Qed.
Lemma good_part_tags prefix ps :
  one_line (str prefix) = true -> Forall (fun p => one_line (str (part_name p)) = true) ps ->
  Forall good (map (append_part_tag prefix) ps).
Proof. intros Hp. induction 1; constructor; [by apply good_part_tag|done]. Qed.

Lemma playlist_target_positive o segs : 0 <= target_duration_seconds o -> 1 <= playlist_target o segs.
Proof.
  intros Ho. unfold playlist_target.
  assert (Hf : forall t, 0 <= t -> 0 <= fold_left (fun t s => Z.max t (rounded_seconds s)) segs t).
  { induction segs as [|s segs IH]; intros t Ht; [done|]. apply IH. lia. }
  specialize (Hf _ Ho). destruct (Z.eqb_spec (fold_left (fun t s => Z.max t (rounded_seconds s)) segs
    (target_duration_seconds o)) 0); lia.
Qed.

Lemma good_server_control o target : good (server_control_line o target).
Proof.
  unfold server_control_line. apply good_tag; [done|done| |].
  - rewrite !one_line_app. unfold format_seconds.
    destruct (low_latency o), (0 <? hold_back_seconds o); cbn [andb];
      try destruct (0 <? part_target_seconds o); rewrite ?one_line_app, ?one_line_duration; done.
  - unfold format_seconds. rewrite app_assoc.
    destruct (low_latency o && (0 <? part_target_seconds o)).
    { apply tight_end_app, tight_end_app, tight_end_duration. }
    rewrite app_nil_r. destruct (0 <? hold_back_seconds o).
    { apply tight_end_app, tight_end_app, tight_end_duration. }
    rewrite app_nil_r. destruct (low_latency o); by apply tight_end_check.
Qed.

Lemma good_header o segs :
  iframes_only o = false -> 0 <= media_sequence segs ->
  0 <= target_duration_seconds o -> 0 <= version o ->
  Forall good (header_lines o segs).
Proof.
  intros Hi Hm Ht Hv. pose proof (playlist_target_positive o segs Ht) as Hp.
  assert (Hpv : 0 <= playlist_version o) by (unfold playlist_version; rewrite Hi; destruct (low_latency o); lia).
  assert (Hd : forall q z, begins (str "#") q = true -> one_line q = true -> 0 <= z -> good (q ++ dec z)).
  { intros q z H1 H2 H3. apply good_tag; auto using one_line_dec, tight_end_dec. }
  unfold header_lines. rewrite Hi. repeat (apply Forall_app; split).
  - rewrite !list.Forall_cons. split_and!; [by apply good_const|apply Hd; done || lia..|constructor].
  - destruct (Z.ltb_spec 0 (discontinuity_sequence o)); [|constructor].
    apply Forall_singleton, Hd; done || lia.
  - done.
  - destruct (emit_server_control o); [|constructor]. apply Forall_singleton, good_server_control.
  - destruct (_ && _); [|constructor]. apply Forall_singleton, good_tag; try done; [apply one_line_duration|].
    apply tight_end_duration.
Qed.

Lemma good_entry o with_parts s :
  iframes_only o = false -> uri_ok (str (segment_uri_prefix o) ++ str (seg_name s)) ->
  one_line (str (segment_uri_prefix o)) = true ->
  Forall (fun p => one_line (str (part_name p)) = true) (seg_parts s) ->
  Forall good (segment_entry o with_parts s).
Proof.
  intros Hi Hu Hp Hn. unfold segment_entry. rewrite Hi. repeat (apply Forall_app; split).
  - destruct (seg_discontinuity s); [|constructor]. apply Forall_singleton. by apply good_const.
  - destruct with_parts; [by apply good_part_tags|constructor].
  - apply Forall_singleton, good_tag; try done; [by rewrite one_line_app, one_line_duration|].
    apply tight_end_app. by apply tight_end_check.
  - done.
  - by apply Forall_singleton, good_uri.
Qed.

Lemma good_segment_lines o first_part segs : forall index,
  iframes_only o = false -> Forall (fun s => seg_key s = None) segs ->
  Forall (fun s => uri_ok (str (segment_uri_prefix o) ++ str (seg_name s))) segs ->
  one_line (str (segment_uri_prefix o)) = true ->
  Forall (fun p => one_line (str (part_name p)) = true) (concat (map seg_parts segs)) ->
  Forall good (segment_lines o first_part None false index segs).
Proof.
  induction segs as [|s segs IH]; intros index Hi Hk Hu Hp Hn; cbn [segment_lines]; [constructor|].
  apply list.Forall_cons in Hk as [Hk1 Hk], Hu as [Hu1 Hu]. cbn [map concat] in Hn.
  apply Forall_app in Hn as [Hn1 Hn]. rewrite Hi, Hk1. change (same_key None None) with true.
  cbn [negb orb andb]. rewrite bool_decide_eq_false_2 by (by intros [? ?]). cbn [andb orb app].
  apply Forall_app. split; [by apply good_entry|by apply IH].
Qed.

Lemma good_open o :
  one_line (str (segment_uri_prefix o)) = true -> one_line (str (preload_hint_uri o)) = true ->
  Forall (fun p => one_line (str (part_name p)) = true) (open_parts o) ->
  Forall good (open_lines o).
Proof.
  intros Hp Hh Hn. unfold open_lines. destruct (_ && _); [|constructor].
  apply Forall_app. split; [by apply good_part_tags|].
  destruct (String.eqb _ _); [constructor|]. apply Forall_singleton, good_tag; [done|done| |].
  - by rewrite !one_line_app, Hp, Hh.
  - do 3 apply tight_end_app. apply (tight_end_quote []).
Qed.

Lemma good_playlist o segs : readable o segs -> Forall good (playlist_lines segs o).
Proof.
  intros [R1 R2 R3 R4 R5 R6 _ [R8 _] (R9 & R10 & _)]. apply Forall_app in R5 as [R5 R5'].
  unfold playlist_lines. rewrite !Forall_app. split_and!.
  - by apply good_header.
  - by apply good_segment_lines.
  - by apply good_open.
  - destruct (ended o); [|constructor]. apply Forall_singleton. by apply good_const.
Qed.

(** A media playlist this server writes is understood by its own pulling side: the
    segments come back in order with their URIs resolved against the playlist's, their
    durations, numbers and discontinuities, with the target duration, the first
    sequence number and the end mark; low-latency parts, hints and server control are
    passed over. *)
Theorem playlist_read_back o segs base :
  readable o segs ->
  parse_media_playlist (build_media_playlist segs o) base =
  mkHlsMediaPlaylist (refs base o segs) (dec (playlist_target o segs)) (media_sequence segs)
    (ended o) "".
Proof.
  intros H. pose proof (good_playlist o segs H) as Hg. destruct H as [R1 R2 R3 R4 R5 R6 R7 [R8 R8'] R9].
  pose proof (zlen_nonneg segs).
  unfold parse_media_playlist, build_media_playlist, lines_of.
  rewrite split_unlines by (eapply list.Forall_impl; [exact Hg|]; intros l [Hl _]; by apply one_line_spec).
  rewrite map_app. replace (map trim (playlist_lines segs o)) with (playlist_lines segs o).
  2: { clear -Hg. induction Hg as [|l ls [_ Hl] _ IH]; [done|]. cbn [map]. by rewrite trim_tight, <- IH. }
  rewrite fold_left_app. unfold playlist_lines.
  epose proof (reads_app base _ _ _ _ _ (header_read base o segs R1 ltac:(lia))
    (reads_app base _ _ _ _ _
       (segment_lines_read base o (first_part_segment o (zlen segs)) segs 0 _ _ R1 R2 R3 R7 R8 R8')
       (ending_read base o _ _))) as Hr.
  unfold reads in Hr. rewrite Hr. cbn. by rewrite orb_false_r.
Qed.

Definition sample_part (n : Z) : Part :=
  mkPart 8 n ("segment-8." +:+ to_string n +:+ ".ts") [] 500 (n =? 0).
Definition sample_segments : list Segment :=
  [mkSegment 7 "segment-7.ts" [] 4004 true [] None 0;
   mkSegment 8 "segment-8.ts" [] 6500 false [sample_part 0; sample_part 1] None 0].
Definition sample_options : MediaPlaylistOptions :=
  mkMediaPlaylistOptions 4 3 2 true "hls/" true 5000 true 500 0 3 [sample_part 2] "segment-9.0.ts" false.

Lemma uri_ok_check l :
  one_line l && (match l with c :: _ => negb (blank c || Ascii.eqb c "#") | [] => false end) &&
  (match rev l with c :: _ => negb (blank c) | [] => false end) = true -> uri_ok l.
Proof.
  rewrite !andb_true_iff. intros [ [H1 H2] H3]. split; [done|]. split; [|by apply tight_end_check].
  destruct l as [|c l]; [done|]. apply negb_true_iff, orb_false_iff in H2 as [H2 H2'].
  exists c, l. split_and!; [done|done|by apply Ascii.eqb_neq].
Qed.

Lemma sample_readable : readable sample_options sample_segments.
Proof.
  split; try (by vm_compute); try (cbn; lia).
  - repeat constructor.
  - repeat (apply Forall_cons_2 || apply Forall_nil_2); by apply uri_ok_check.
  - repeat (apply Forall_cons_2 || apply Forall_nil_2); by vm_compute.
Qed.

Lemma playlist_read_back_witness :
  readable sample_options sample_segments /\
  segments (parse_media_playlist (build_media_playlist sample_segments sample_options)
              (str "http://edge.example/live/index.m3u8")) =
  [mkHlsSegmentRef (str "http://edge.example/live/hls/segment-7.ts") (str "4.004,") 7 true;
   mkHlsSegmentRef (str "http://edge.example/live/hls/segment-8.ts") (str "6.500,") 8 false].
Proof.
  split; [exact sample_readable|].
  rewrite (playlist_read_back sample_options sample_segments) by exact sample_readable.
  vm_compute. reflexivity.
Defined.

(** * Keys *)

(** RFC 8216, 4.3.2.4: an EXT-X-KEY applies to everything that follows up to the next one.
    [announced key lines]: the media the lines announce (URIs and partial segments), each
    with the key in force; [None] is no encryption. *)
Definition announce (key : option text) (line : text) : option text * list (option text * text) :=
  if begins (str "#EXT-X-KEY:") line then
    ((if bool_decide (line = str "#EXT-X-KEY:METHOD=NONE") then None else Some line), [])
  else if begins (str "#EXT-X-PART:") line || negb (begins (str "#") line) then (key, [(key, line)])
  else (key, []).
Fixpoint announced (key : option text) (lines : list text) : option text * list (option text * text) :=
  match lines with
  | [] => (key, [])
  | line :: lines =>
      let '(key, l1) := announce key line in
      let '(key, l2) := announced key lines in (key, l1 ++ l2)
  end.

Lemma announced_app key l1 l2 :
  announced key (l1 ++ l2) =
  let '(key, a1) := announced key l1 in let '(key, a2) := announced key l2 in (key, a1 ++ a2).
Proof.
  revert key. induction l1 as [|l l1 IH]; intros key; cbn [app announced]; [by destruct (announced key l2)|].
  destruct (announce key l) as [k a]. rewrite IH. destruct (announced k l1) as [k1 a1].
  destruct (announced k1 l2) as [k2 a2]. by rewrite app_assoc.
Qed.

(** The EXT-X-KEY line a segment's media is encrypted under. *)
Definition key_of (key : option EncryptionKeyInfo) : option text :=
  match key with
  | Some k => if encrypted k then Some (append_key_tag (Some k)) else None
  | None => None
  end.

Definition listed (o : MediaPlaylistOptions) (s : Segment) : bool :=
  negb (iframes_only o && (seg_iframe_prefix_bytes s =? 0)).

(** What the playlist should announce for its [index]-th segment. *)
Definition media_of (o : MediaPlaylistOptions) (first_part index : Z) (s : Segment) : list text :=
  if listed o s then
    (if low_latency o && (first_part <=? index)
     then map (append_part_tag (segment_uri_prefix o)) (seg_parts s) else []) ++
    [str (segment_uri_prefix o) ++ str (seg_name s)]
  else [].
Fixpoint media_of_all (o : MediaPlaylistOptions) (first_part index : Z) (segs : list Segment)
    : list (option text * text) :=
  match segs with
  | [] => []
  | s :: segs =>
      map (pair (key_of (seg_key s))) (media_of o first_part index s) ++
      media_of_all o first_part (index + 1) segs
  end.

Definition quiet_tags : list text := [str "#EXT-X-KEY:"; str "#EXT-X-PART:"].
Lemma announce_quiet key q rest :
  forallb (fun p => differs p q) quiet_tags = true -> begins (str "#") q = true ->
  announce key (q ++ rest) = (key, []).
Proof.
  intros Hd [q' ->]%begins_spec. cbn [forallb quiet_tags] in Hd. rewrite !andb_true_iff in Hd.
  destruct Hd as (D1 & D2 & _). unfold announce.
  by rewrite (differs_begins _ _ rest D1), (differs_begins _ _ rest D2).
Qed.
Lemma announce_quiet_line key q :
  forallb (fun p => differs p q) quiet_tags = true -> begins (str "#") q = true ->
  announce key q = (key, []).
Proof. intros Hd Hb. rewrite <- (app_nil_r q). by apply announce_quiet. Qed.

Lemma announced_quiet key lines :
  Forall (fun l => announce key l = (key, [])) lines -> announced key lines = (key, []).
Proof. induction 1 as [|l lines Hl _ IH]; [done|]. cbn [announced]. by rewrite Hl, IH. Qed.

Lemma announced_parts key prefix ps :
  announced key (map (append_part_tag prefix) ps) = (key, map (pair key) (map (append_part_tag prefix) ps)).
Proof.
  induction ps as [|p ps IH]; [done|]. cbn [map announced].
  assert (announce key (append_part_tag prefix p) = (key, [(key, append_part_tag prefix p)])) as -> by done.
  by rewrite IH.
Qed.

Lemma announce_uri key l :
  (exists c l', l = c :: l' /\ c <> "#"%char) -> announce key l = (key, [(key, l)]).
Proof.
  intros (c & l' & -> & Hc). unfold announce.
  assert (Hb : forall p, begins (str (String "#" p)) (c :: l') = false).
  { intros p. change (Ascii.eqb "#" c && begins (str p) l' = false).
    destruct (Ascii.eqb_spec "#" c); [congruence|done]. }
  by rewrite !Hb, orb_true_r.
Qed.

Lemma announce_key key k : announce key (append_key_tag k) = (key_of k, []).
Proof.
  destruct k as [k|]; [|done]. unfold append_key_tag, key_of. destruct (encrypted k) eqn:He; [|done].
  cbn [negb append_key_tag]. rewrite He. cbn [negb]. unfold announce.
  rewrite (proj2 (begins_spec (str "#EXT-X-KEY:") _)) by (by eexists).
  rewrite bool_decide_eq_false_2; [done|]. intros Hx.
  apply (f_equal length) in Hx. rewrite !length_app in Hx.
  change (length (str "#EXT-X-KEY:METHOD=")) with 18%nat in Hx.
  change (length (str ",URI=")) with 5%nat in Hx. change (length quote) with 1%nat in Hx.
  change (length (str "#EXT-X-KEY:METHOD=NONE")) with 22%nat in Hx. lia.
Qed.

Lemma announced_entry o key with_parts s :
  (exists c l', str (segment_uri_prefix o) ++ str (seg_name s) = c :: l' /\ c <> "#"%char) ->
  announced key (segment_entry o with_parts s) =
  (key, map (pair key) ((if with_parts then map (append_part_tag (segment_uri_prefix o)) (seg_parts s)
                         else []) ++ [str (segment_uri_prefix o) ++ str (seg_name s)])).
Proof.
  intros Hu. unfold segment_entry. rewrite announced_app.
  rewrite (announced_quiet key (if seg_discontinuity s then _ else _)).
  2: { destruct (seg_discontinuity s); [|constructor]. by apply Forall_singleton. }
  assert (Hp : announced key (if with_parts then map (append_part_tag (segment_uri_prefix o)) (seg_parts s)
                 else []) = (key, map (pair key) (if with_parts
                 then map (append_part_tag (segment_uri_prefix o)) (seg_parts s) else []))).
  { destruct with_parts; [apply announced_parts|done]. }
  rewrite announced_app, Hp, announced_app, (announced_quiet key [_])
    by (apply Forall_singleton; by apply (announce_quiet _ (str "#EXTINF:"))).
  rewrite announced_app.
  rewrite (announced_quiet key (if iframes_only o then _ else _)).
  2: { destruct (iframes_only o); [|constructor]. apply Forall_singleton.
       by apply (announce_quiet _ (str "#EXT-X-BYTERANGE:")). }
  cbn [announced]. rewrite announce_uri by done. by rewrite map_app.
Qed.

Lemma header_quiet o segs key : announced key (header_lines o segs) = (key, []).
Proof.
  apply announced_quiet. unfold header_lines. rewrite !Forall_app. split_and!.
  - rewrite !list.Forall_cons. split_and!; [done|by apply (announce_quiet _ (str "#EXT-X-VERSION:"))|
      by apply (announce_quiet _ (str "#EXT-X-TARGETDURATION:"))|
      by apply (announce_quiet _ (str "#EXT-X-MEDIA-SEQUENCE:"))|constructor].
  - destruct (0 <? discontinuity_sequence o); [|constructor].
    apply Forall_singleton. by apply (announce_quiet _ (str "#EXT-X-DISCONTINUITY-SEQUENCE:")).
  - destruct (iframes_only o); [|constructor]. by apply Forall_singleton.
  - destruct (emit_server_control o); [|constructor]. apply Forall_singleton.
    by apply (announce_quiet _ (str "#EXT-X-SERVER-CONTROL:")).
  - destruct (_ && _); [|constructor]. apply Forall_singleton.
    by apply (announce_quiet _ (str "#EXT-X-PART-INF:")).
Qed.

(** The key in force after the tags written so far. *)
Definition key_state (active : option EncryptionKeyInfo) (written : bool) : option text :=
  if written then key_of active else None.

Definition last_key (o : MediaPlaylistOptions) (key : option text) (segs : list Segment) : option text :=
  fold_left (fun key s => if listed o s then key_of (seg_key s) else key) segs key.

Lemma announced_segments o first_part segs : forall active written index,
  Forall (fun s => exists c l', str (segment_uri_prefix o) ++ str (seg_name s) = c :: l' /\ c <> "#"%char) segs ->
  (written = false -> active = None) ->
  announced (key_state active written) (segment_lines o first_part active written index segs) =
  (last_key o (key_state active written) segs, media_of_all o first_part index segs).
Proof.
  induction segs as [|s segs IH]; intros active written index Hu Hw; cbn [segment_lines media_of_all]; [done|].
  unfold last_key. cbn [fold_left]. fold (last_key o).
  apply list.Forall_cons in Hu as [Hu1 Hu]. unfold media_of, listed.
  destruct (iframes_only o && (seg_iframe_prefix_bytes s =? 0)); cbn [negb]; [by apply IH|].
  fold (last_key o (key_of (seg_key s)) segs).
  set (changed := negb written || negb (same_key active (seg_key s))).
  set (tag := changed && (bool_decide (is_Some (seg_key s)) || written)).
  set (active' := if changed then seg_key s else active).
  assert (Hk : key_state active' (written || tag) = key_of (seg_key s) /\
    (written || tag = false -> active' = None) /\
    announced (key_state active written) (if tag then [append_key_tag (seg_key s)] else [])
    = (key_of (seg_key s), [])).
  { assert (Hn : announced (key_state active written) [append_key_tag (seg_key s)]
      = (key_of (seg_key s), [])) by (cbn [announced]; by rewrite announce_key).
    subst tag active' changed. unfold same_key in *.
    destruct written; cbn [negb orb andb].
    - destruct (bool_decide_reflect (active = seg_key s)) as [Hs|Hs]; cbn [negb orb andb].
      + unfold key_state. by rewrite Hs.
      + rewrite orb_true_r. by unfold key_state.
    - rewrite orb_false_r. destruct (seg_key s) as [k|].
      + rewrite bool_decide_eq_true_2 by done. by unfold key_state.
      + rewrite bool_decide_eq_false_2 by (by intros [? ?]). done. }
  destruct Hk as (Hk & Hw' & Ha). rewrite announced_app, Ha, announced_app, announced_entry by done.
  pose proof (IH active' (written || tag) (index + 1) Hu Hw') as Hr. rewrite Hk in Hr.
  rewrite Hr. done.
Qed.

(** Whatever keys the segments have, on every playlist: the key in force (or none) at each
    segment's URI, and at each of its partial segments, is the key of that segment; at
    the partial segments of the segment still open it is the key of the last one listed. *)
Theorem keys_in_force o segs :
  Forall (fun s => exists c l', str (segment_uri_prefix o) ++ str (seg_name s) = c :: l' /\ c <> "#"%char) segs ->
  snd (announced None (playlist_lines segs o)) =
  media_of_all o (first_part_segment o (zlen segs)) 0 segs ++
  map (pair (last_key o None segs)) (if low_latency o && negb (iframes_only o)
                    then map (append_part_tag (segment_uri_prefix o)) (open_parts o) else []).
Proof.
  intros Hu. unfold playlist_lines. rewrite announced_app, header_quiet, announced_app.
  pose proof (announced_segments o (first_part_segment o (zlen segs)) segs None false 0 Hu ltac:(done))
    as Hk. unfold key_state in Hk. rewrite Hk. set (key := last_key o None segs).
  assert (Ho : announced key (open_lines o ++ (if ended o then [str "#EXT-X-ENDLIST"] else [])) =
    (key, map (pair key) (if low_latency o && negb (iframes_only o)
                    then map (append_part_tag (segment_uri_prefix o)) (open_parts o) else []))).
  { rewrite announced_app. unfold open_lines. destruct (low_latency o && negb (iframes_only o)).
    - rewrite announced_app, announced_parts.
      rewrite (announced_quiet key (if String.eqb _ _ then _ else _)).
      2: { destruct (String.eqb _ _); [constructor|]. apply Forall_singleton.
           by apply (announce_quiet _ (str "#EXT-X-PRELOAD-HINT:")). }
      destruct (ended o); cbn [announced]; rewrite ?announce_quiet_line by done; by rewrite !app_nil_r.
    - cbn [announced]. by destruct (ended o). }
  by rewrite Ho.
Qed.

Lemma keys_in_force_witness :
  let aes n := Some (mkEncryptionKeyInfo "AES-128" "key/a.bin" n "" "") in
  let seg n key := mkSegment n ("segment-" +:+ to_string n +:+ ".ts") [] 4000 false [] key 0 in
  snd (announced None (playlist_lines [seg 1 None; seg 2 (aes "0x02"); seg 3 (aes "0x03"); seg 4 None]
    default_playlist_options)) =
  [(None, str "segment-1.ts");
   (Some (str "#EXT-X-KEY:METHOD=AES-128,URI=" ++ quote ++ str "key/a.bin" ++ quote ++ str ",IV=0x02"),
    str "segment-2.ts");
   (Some (str "#EXT-X-KEY:METHOD=AES-128,URI=" ++ quote ++ str "key/a.bin" ++ quote ++ str ",IV=0x03"),
    str "segment-3.ts");
   (None, str "segment-4.ts")].
Proof.
  cbv zeta. rewrite keys_in_force; [vm_compute; reflexivity|].
  rewrite !list.Forall_cons. split_and!; try constructor; eexists _, _; split; vm_compute; done.
Defined.

(** * Trick play *)

(** The numbers of an I-frame playlist are those of the first segments of the window, not
    of the segments it lists: a segment that has no I-frame prefix is left out without
    being counted.  So the number of one and the same URI changes from one playlist to
    the next, which RFC 8216 (6.2.1) forbids. *)
Definition iframe_numbers (o : MediaPlaylistOptions) (segs : list Segment) : list (Z * text) :=
  map (fun r => (ref_sequence r, ref_uri r))
    (segments (parse_media_playlist (build_media_playlist segs o) (str "http://h/p.m3u8"))).

Theorem iframe_numbers_shift :
  let o := mkMediaPlaylistOptions 4 4 0 false "" false 0 false 0 0 3 [] "" true in
  let seg n bytes := mkSegment n ("segment-" +:+ to_string n +:+ ".ts") [] 4000 false [] None bytes in
  iframe_numbers o [seg 5 0; seg 6 900] = [(5, str "http://h/segment-6.ts")] /\
  iframe_numbers o [seg 6 900; seg 7 900]
  = [(6, str "http://h/segment-6.ts"); (7, str "http://h/segment-7.ts")].
Proof. vm_compute. done. Qed.
