(* ===== verification/HlsMaster.v ===== *)
(** What the playlist reader makes of the master playlists this server writes, and the
    variant it chooses. *)

From S2P Require Import Prelude Text HlsSegment HlsPlaylist HlsPuller HlsReadBack.
From Stdlib Require Import Ascii Sorted.

(** * Finding an attribute *)

(** The value of an attribute that a separator introduces. *)
Lemma attribute_found key q sep value :
  avoids key (q ++ [sep]) = true -> key <> [] -> sep = ","%char \/ sep = ":"%char ->
  attribute (q ++ [sep] ++ key ++ str "=" ++ value) key = attribute_value value.
Proof.
  intros Hq Hk Hsep. unfold attribute. cbn [attribute_from].
  rewrite app_assoc, find_avoids by done. rewrite find_begins by (apply begins_spec; by eexists).
  cbn [fmap option_fmap option_map]. rewrite Nat.add_0_r.
  assert (Hd : drop (length (q ++ [sep]) + length key) ((q ++ [sep]) ++ key ++ str "=" ++ value)
    = "="%char :: value).
  { rewrite <- length_app, app_assoc. by rewrite drop_app_length. }
  rewrite Hd. rewrite length_app. cbn [length]. rewrite Nat.add_1_r.
  rewrite <- app_assoc, lookup_app_r, Nat.sub_diag by lia. cbn [app lookup list_lookup default].
  by destruct Hsep as [-> | -> ]; rewrite ?orb_true_r.
Qed.

(** Digits before a comma. *)
Lemma value_up_to_comma v rest :
  (exists c v', v = c :: v' /\ c <> "034"%char) -> ","%char ∉ v ->
  (rest = [] \/ exists r, rest = ","%char :: r) ->
  attribute_value (v ++ rest) = v.
Proof.
  intros (c & v' & -> & Hc) Hv Hr. unfold attribute_value. cbn [app].
  rewrite (proj2 (Ascii.eqb_neq c "034")) by done.
  change (c :: v' ++ rest) with ((c :: v') ++ rest). destruct Hr as [-> |[r -> ] ].
  - rewrite app_nil_r. by rewrite (proj2 (find_char_None _ _)).
  - rewrite find_char_app by done. by rewrite take_app_length.
Qed.

(** * The best variant *)

Lemma best_fold keep variants : forall best,
  (forall b, best = Some b -> keep b = true) ->
  match fold_left (better keep) variants best with
  | Some v => (best = Some v \/ v ∈ variants) /\ keep v = true /\
      (forall b, best = Some b -> variant_bandwidth b <= variant_bandwidth v) /\
      (forall w, w ∈ variants -> keep w = true -> variant_bandwidth w <= variant_bandwidth v)
  | None => best = None /\ forall w, w ∈ variants -> keep w = false
  end.
Proof.
  induction variants as [|x variants IH]; intros best Hb; cbn [fold_left].
  - destruct best as [b|]; [|split; [done|set_solver]].
    split_and!; [by left|by apply Hb|by intros b' [= ->]|set_solver].
  - assert (Hb' : forall b, better keep best x = Some b -> keep b = true).
    { unfold better. intros b. destruct (keep x) eqn:Hx; [|apply Hb].
      destruct best as [c|]; [|by intros [= <-]]. destruct (_ <? _); [by intros [= <-]|]. auto. }
    specialize (IH (better keep best x) Hb'). destruct (fold_left _ variants _) as [v|].
    + destruct IH as (I1 & I2 & I3 & I4). unfold better in *. split_and!; [|done|..].
      * destruct I1 as [I1|I1]; [|set_solver]. destruct (keep x); [|by left].
        destruct best as [c|]; [|right; injection I1 as <-; set_solver].
        destruct (_ <? _); [right; injection I1 as <-; set_solver|by left].
      * intros b ->. destruct (keep x); [|by apply I3].
        destruct (Z.ltb_spec (variant_bandwidth b) (variant_bandwidth x)); [|by apply I3].
        specialize (I3 x eq_refl). lia.
      * intros w [-> |Hw]%elem_of_cons Hk; [|by apply I4]. rewrite Hk in *.
        destruct best as [c|]; [|by apply I3].
        destruct (Z.ltb_spec (variant_bandwidth c) (variant_bandwidth x)); [by apply I3|].
        specialize (I3 c eq_refl). lia.
    + destruct IH as [I1 I2]. unfold better in I1. split.
      * destruct (keep x); [|done]. destruct best as [c|]; [|done]. by destruct (_ <? _).
      * intros w Hw. apply elem_of_cons in Hw as [Hw|Hw]; [|by apply I2]. subst w.
        destruct (keep x); [|done].
        destruct best as [c|]; [|done]. by destruct (_ <? _).
Qed.

(** The chosen variant is one of those offered; under the cap when one is, and then of
    the highest bandwidth among these; otherwise of the highest bandwidth of all. *)
Theorem select_variant_best variants cap :
  variants <> [] ->
  exists v, v ∈ variants /\ select_variant variants cap = variant_uri v /\
    let under w := cap = 0 \/ variant_bandwidth w <= cap in
    ((under v /\ forall w, w ∈ variants -> under w -> variant_bandwidth w <= variant_bandwidth v) \/
     (forall w, w ∈ variants -> ~ under w /\ variant_bandwidth w <= variant_bandwidth v)).
Proof.
  intros Hne. unfold select_variant.
  set (keep := fun v => (cap =? 0) || (variant_bandwidth v <=? cap)).
  assert (Hkeep : forall w, keep w = true <-> cap = 0 \/ variant_bandwidth w <= cap)
    by (intros w; subst keep; cbn; lia).
  pose proof (best_fold keep variants None ltac:(done)) as H1. unfold best_of.
  destruct (fold_left (better keep) variants None) as [v|].
  - destruct H1 as ([|Hv] & Hk & _ & Hb); [done|]. exists v. split_and!; [done|done|]. left.
    split; [by apply Hkeep|]. intros w Hw Hu. by apply Hb, Hkeep.
  - destruct H1 as [_ H1]. pose proof (best_fold (fun _ => true) variants None ltac:(done)) as H2.
    destruct (fold_left (better _) variants None) as [v|].
    + destruct H2 as ([|Hv] & _ & _ & Hb); [done|]. exists v. split_and!; [done|done|]. right.
      intros w Hw. split; [|by apply Hb]. rewrite <- Hkeep, (H1 w Hw). done.
    + destruct H2 as [_ H2]. destruct variants as [|w ws]; [done|]. specialize (H2 w). set_solver.
Qed.

(** * Reading the master playlist back *)

Record renderable (r : Rendition) : Prop := {
  d_bandwidth : 0 <= bandwidth r < 2 ^ 64;
  d_average : 0 <= average_bandwidth r;
  d_width : 0 < width r < 2 ^ 32;
  d_height : 0 < height r < 2 ^ 32;
  d_uri : uri_ok (str (rendition_uri r));
  d_iframe_uri : one_line (str (iframe_uri r)) = true;
  d_codecs : one_line (str (codecs r)) = true;
  d_name : one_line (str (rendition_name r)) = true
}.

Definition average_attribute (r : Rendition) : text :=
  if 0 <? average_bandwidth r then str ",AVERAGE-BANDWIDTH=" ++ dec (average_bandwidth r) else [].
Definition tail_attributes (r : Rendition) : text :=
  (if 0 <? frame_rate r then str ",FRAME-RATE=" ++ format_duration (frame_rate r) else []) ++
  codecs_attribute r ++
  attribute_if (rendition_name r) (str ",NAME=" ++ quote ++ str (rendition_name r) ++ quote).
Definition resolution_value (r : Rendition) : text := dec (width r) ++ str "x" ++ dec (height r).

Definition stream_inf (r : Rendition) : text :=
  str "#EXT-X-STREAM-INF:BANDWIDTH=" ++ dec (bandwidth r) ++ average_attribute r ++
  str ",RESOLUTION=" ++ resolution_value r ++ tail_attributes r.

Lemma stream_inf_lines_eq r : renderable r ->
  stream_inf_lines r = [stream_inf r; str (rendition_uri r)].
Proof.
  intros [_ _ Hw Hh _ _ _ _]. unfold stream_inf_lines, stream_inf, resolution_attribute.
  rewrite (proj2 (Z.ltb_lt 0 (width r))), (proj2 (Z.ltb_lt 0 (height r))) by lia.
  unfold average_attribute, tail_attributes, resolution_value. cbn [andb]. by rewrite <- !app_assoc.
Qed.

(** A value is followed by nothing or by the next attribute. *)
Definition ends_value (l : text) : Prop := l = [] \/ exists r, l = ","%char :: r.
Lemma ends_value_app l1 l2 : ends_value l1 -> ends_value l2 -> ends_value (l1 ++ l2).
Proof. intros [-> |[r -> ] ] H2; [done|]. right. by eexists. Qed.
Lemma ends_tail r : ends_value (tail_attributes r).
Proof.
  unfold tail_attributes, codecs_attribute, attribute_if.
  repeat apply ends_value_app.
  - destruct (0 <? frame_rate r); [right; by eexists|by left].
  - destruct (String.eqb _ _); [by left|right; by eexists].
  - destruct (String.eqb _ _); [by left|right; by eexists].
Qed.

Lemma digit_not c d : digit c -> digit_value d = None -> c <> d.
Proof. intros [v Hv] Hd ->. congruence. Qed.
Lemma not_in_dec d z : 0 <= z -> digit_value d = None -> d ∉ dec z.
Proof.
  intros Hz Hd Hin. pose proof (dec_digits z Hz) as Hf. rewrite list.Forall_forall in Hf.
  by apply (digit_not d d (Hf d Hin) Hd).
Qed.
Lemma dec_head z : 0 <= z -> exists c l, dec z = c :: l /\ digit c.
Proof.
  intros Hz. pose proof (dec_digits z Hz) as Hf. destruct (scan_dec z Hz) as [_ Hne].
  destruct (dec z) as [|c l]; [done|]. inversion Hf; subst. by exists c, l.
Qed.
Lemma read_bandwidth r : renderable r -> to_u64 (attribute (stream_inf r) (str "BANDWIDTH")) = bandwidth r.
Proof.
  intros H. pose proof (d_bandwidth _ H) as Hb.
  change (stream_inf r) with (str "#EXT-X-STREAM-INF" ++ [":"%char] ++ str "BANDWIDTH" ++ str "=" ++
    (dec (bandwidth r) ++ average_attribute r ++ str ",RESOLUTION=" ++ resolution_value r ++
     tail_attributes r)).
  rewrite attribute_found by (done || by right).
  rewrite value_up_to_comma; [apply to_u64_dec; lia| | |].
  - destruct (dec_head (bandwidth r)) as (c & v & -> & Hc); [lia|]. exists c, v. split; [done|by apply digit_not].
  - apply not_in_dec; [lia|done].
  - unfold average_attribute. destruct (0 <? _); right; by eexists.
Qed.

Lemma read_resolution r : renderable r -> attribute (stream_inf r) (str "RESOLUTION") = resolution_value r.
Proof.
  intros H. destruct H as [Hb Ha Hw Hh _ _ _ _].
  assert (He : stream_inf r = (str "#EXT-X-STREAM-INF:BANDWIDTH=" ++ dec (bandwidth r) ++ average_attribute r) ++
    [","%char] ++ str "RESOLUTION" ++ str "=" ++ (resolution_value r ++ tail_attributes r)).
  { unfold stream_inf. by rewrite <- !app_assoc. }
  assert (Hd : forall z, 0 <= z -> avoids (str "RESOLUTION") (dec z) = true).
  { intros z Hz. apply avoids_digits; [done|by apply dec_digits]. }
  rewrite He, attribute_found; [|repeat apply avoids_app|done|by left].
  - unfold resolution_value. rewrite value_up_to_comma; [done| | |apply ends_tail].
    + destruct (dec_head (width r)) as (c & v & -> & Hc); [lia|]. eexists c, _. split; [done|by apply digit_not].
    + rewrite !not_elem_of_app. split_and!; [apply not_in_dec; [lia|done]|set_solver|apply not_in_dec; [lia|done] ].
  - by vm_compute.
  - apply Hd. lia.
  - unfold average_attribute. destruct (0 <? _); [|done]. apply avoids_app; [by vm_compute|by apply Hd].
  - by vm_compute.
Qed.

Definition variant (base : text) (r : Rendition) : HlsVariant :=
  mkHlsVariant (resolve_url base (str (rendition_uri r))) (bandwidth r) (width r) (height r).

Lemma variant_of_stream_inf base r rest : renderable r ->
  variant_of base (stream_inf r) (str (rendition_uri r) :: rest) = variant base r.
Proof.
  intros H. unfold variant_of. rewrite (read_resolution r H), (read_bandwidth r H).
  destruct H as [_ _ Hw Hh (_ & (c & l & Hu & _ & Hc) & _) _ _ _]. unfold resolution_value, variant.
  change (str "x" ++ dec (height r)) with ("x"%char :: dec (height r)).
  rewrite find_char_app by (apply not_in_dec; [lia|done]). rewrite take_app_length.
  replace (length (dec (width r)) + 1)%nat with (length (dec (width r) ++ [("x"%char)]))
    by (rewrite length_app; done).
  change (dec (width r) ++ "x"%char :: dec (height r)) with (dec (width r) ++ [("x"%char)] ++ dec (height r)).
  rewrite app_assoc, drop_app_length, !to_u64_dec by lia. unfold u32. rewrite !Z.mod_small by lia.
  cbn [next_uri]. rewrite Hu. by rewrite (proj2 (Ascii.eqb_neq c "#")).
Qed.

Lemma resolve_url_not_empty base l : uri_ok l -> resolve_url base l <> [].
Proof.
  intros (H1 & (c & l' & -> & Hc & Hh) & He). unfold resolve_url.
  rewrite trim_tight by (split; [by eexists _, _|done]).
  destruct (bool_decide _); [done|]. cbv zeta.
  destruct (Ascii.eqb c "/"); intros Hx; apply app_nil in Hx as [_ Hx]; discriminate Hx.
Qed.

Lemma master_streams base rs rest :
  Forall renderable rs ->
  master_loop base (concat (map stream_inf_lines rs) ++ rest) = map (variant base) rs ++ master_loop base rest.
Proof.
  induction 1 as [|r rs Hr _ IH]; [done|]. cbn [map concat]. rewrite stream_inf_lines_eq by done.
  cbn [app master_loop]. change (begins (str "#EXT-X-STREAM-INF") (stream_inf r)) with true. cbv iota.
  rewrite variant_of_stream_inf by done.
  pose proof (resolve_url_not_empty base _ (d_uri _ Hr)) as Hne.
  assert (Hb : begins (str "#EXT-X-STREAM-INF") (str (rendition_uri r)) = false).
  { destruct (d_uri _ Hr) as (_ & (c & l & -> & _ & Hc) & _).
    change (Ascii.eqb "#" c && begins (str "EXT-X-STREAM-INF") l = false).
    by rewrite (proj2 (Ascii.eqb_neq "#" c)). }
  rewrite Hb, IH. change (variant_uri (variant base r)) with (resolve_url base (str (rendition_uri r))).
  by destruct (resolve_url base (str (rendition_uri r))).
Qed.

Lemma master_rest base lines :
  Forall (fun l => begins (str "#EXT-X-STREAM-INF") l = false) lines -> master_loop base lines = [].
Proof. induction 1 as [|l lines Hl _ IH]; [done|]. cbn [master_loop]. by rewrite Hl. Qed.

Ltac to_closing_quote := repeat first [apply (tight_end_quote []) | apply tight_end_app].

Lemma good_stream_inf r : renderable r -> good (stream_inf r).
Proof.
  intros [Hb Ha Hw Hh _ _ Hc Hn]. unfold stream_inf. apply good_tag; [done|done| |].
  - unfold average_attribute, resolution_value, tail_attributes, codecs_attribute, attribute_if.
    rewrite !one_line_app, !one_line_dec by lia.
    destruct (0 <? average_bandwidth r), (0 <? frame_rate r), (String.eqb (codecs r) ""),
      (String.eqb (rendition_name r) ""); rewrite ?one_line_app, ?one_line_dec, ?one_line_duration, ?Hc, ?Hn by lia;
      done.
  - unfold tail_attributes, codecs_attribute, attribute_if. do 3 apply tight_end_app.
    destruct (String.eqb (rendition_name r) ""); [|to_closing_quote].
    rewrite app_nil_r. destruct (String.eqb (codecs r) ""); [|to_closing_quote].
    rewrite app_nil_r. destruct (0 <? frame_rate r).
    { do 2 apply tight_end_app. apply tight_end_duration. }
    rewrite app_nil_r. unfold resolution_value. do 2 apply tight_end_app. apply tight_end_dec. lia.
Qed.

Lemma good_iframe_line r : renderable r -> Forall good (iframe_stream_inf_lines r).
Proof.
  intros [Hb Ha Hw Hh _ Hi Hc Hn]. unfold iframe_stream_inf_lines.
  destruct (String.eqb _ _); [constructor|]. apply Forall_singleton, good_tag; [done|done| |].
  - unfold resolution_attribute, codecs_attribute, attribute_if.
    rewrite !one_line_app, !one_line_dec, Hi by lia.
    destruct ((0 <? width r) && (0 <? height r)), (String.eqb (codecs r) "");
      rewrite ?one_line_app, ?one_line_dec, ?Hc by lia; done.
  - to_closing_quote.
Qed.

Lemma insert_rendition_perm r l : insert_rendition r l ≡ₚ r :: l.
Proof.
  induction l as [|x l IH]; [done|]. cbn [insert_rendition].
  destruct (_ <=? _); [done|]. rewrite IH. apply Permutation_swap.
Qed.

Lemma sort_renditions_perm rs : sort_renditions rs ≡ₚ rs.
Proof.
  induction rs as [|r rs IH]; [done|]. cbn [sort_renditions fold_right].
  rewrite insert_rendition_perm. by f_equiv.
Qed.

Definition by_bandwidth (a b : Rendition) : Prop := bandwidth a <= bandwidth b.
Lemma sort_renditions_sorted rs : StronglySorted by_bandwidth (sort_renditions rs).
Proof.
  induction rs as [|r rs IH]; [constructor|]. cbn [sort_renditions fold_right].
  fold (sort_renditions rs). induction IH as [|x l Hl IHl Hx]; [repeat constructor|].
  cbn [insert_rendition]. destruct (Z.leb_spec (bandwidth r) (bandwidth x)).
  - constructor; [by constructor|]. constructor; [done|]. eapply list.Forall_impl; [exact Hx|].
    unfold by_bandwidth. lia.
  - constructor; [done|]. rewrite list.Forall_forall in *. intros y Hy.
    rewrite insert_rendition_perm in Hy. apply elem_of_cons in Hy as [-> |Hy]; [unfold by_bandwidth; lia|by apply Hx].
Qed.

Lemma good_master rs :
  Forall renderable rs ->
  Forall good (concat (map stream_inf_lines rs)) /\ Forall good (concat (map iframe_stream_inf_lines rs)).
Proof.
  induction 1 as [|r rs Hr _ [IH1 IH2] ]; [done|]. cbn [map concat]. rewrite !Forall_app.
  split_and!; [|done|by apply good_iframe_line|done]. rewrite stream_inf_lines_eq by done.
  rewrite !list.Forall_cons. split_and!; [by apply good_stream_inf|apply good_uri, Hr|constructor].
Qed.

(** The renditions of a master playlist this server writes come back from its own
    reader: all of them, lowest bandwidth first, with their URIs resolved, their
    bandwidths and their picture sizes, whatever their codecs, names and trick-play
    playlists. *)
Theorem master_read_back rs base :
  Forall renderable rs ->
  exists sorted, sorted ≡ₚ rs /\ StronglySorted by_bandwidth sorted /\
    parse_master_playlist (build_master_playlist rs) base = map (variant base) sorted.
Proof.
  intros Hr. exists (sort_renditions rs). split; [apply sort_renditions_perm|].
  split; [apply sort_renditions_sorted|]. rewrite <- (sort_renditions_perm rs) in Hr.
  unfold parse_master_playlist, build_master_playlist, lines_of. cbv zeta.
  set (l := sort_renditions rs) in *. destruct (good_master l Hr) as [G1 G2].
  set (head := [str "#EXTM3U"; _]).
  assert (G0 : Forall good head).
  { subst head. rewrite !list.Forall_cons. split_and!; [by apply good_const| |constructor].
    destruct (existsb _ l); by apply good_const. }
  assert (G : Forall good (head ++ concat (map stream_inf_lines l) ++ concat (map iframe_stream_inf_lines l)))
    by (rewrite !Forall_app; done).
  rewrite split_unlines by (eapply list.Forall_impl; [exact G|]; intros x [Hx _]; by apply one_line_spec).
  rewrite map_app. replace (map trim (head ++ _)) with (head ++ concat (map stream_inf_lines l) ++
    concat (map iframe_stream_inf_lines l)).
  2: { clear -G. induction G as [|x ls [_ Hx] _ IH]; [done|]. cbn [map]. by rewrite trim_tight, <- IH. }
  rewrite <- !app_assoc.
  assert (Hh : forall rest, master_loop base (head ++ rest) = master_loop base rest).
  { intros rest. subst head. cbn [app master_loop]. by destruct (existsb _ l). }
  rewrite Hh, master_streams by done. rewrite master_rest; [by rewrite app_nil_r|].
  apply Forall_app. split; [|by repeat constructor]. clear.
  induction l as [|r l IH]; [constructor|]. cbn [map concat]. apply Forall_app. split; [|done].
  unfold iframe_stream_inf_lines. destruct (String.eqb _ _); [constructor|]. by apply Forall_singleton.
Qed.

Definition sample_renditions : list Rendition :=
  [mkRendition "hd/index.m3u8" 5000000 4500000 "avc1.640028,mp4a.40.2" 1920 1080 29970 "1080p" "hd/iframes.m3u8";
   mkRendition "sd/index.m3u8" 900000 0 "" 640 360 0 "" ""].

Lemma master_read_back_witness :
  Forall renderable sample_renditions /\
  exists variants, parse_master_playlist (build_master_playlist sample_renditions) (str "http://h/m.m3u8")
    = variants /\ length variants = 2%nat.
Proof.
  assert (H : Forall renderable sample_renditions).
  { unfold sample_renditions. rewrite !list.Forall_cons. split_and!; [| |constructor];
      (split; [cbn; lia|cbn; lia|cbn; lia|cbn; lia|by apply uri_ok_check|done|done|done]). }
  split; [exact H|].
  destruct (master_read_back sample_renditions (str "http://h/m.m3u8") H) as (l & Hp & _ & ->).
  eexists. split; [reflexivity|]. rewrite length_map. by rewrite Hp.
Defined.

Lemma select_variant_best_witness :
  let v n := mkHlsVariant (dec n) n 0 0 in
  exists w, w ∈ [v 900; v 5000] /\ select_variant [v 900; v 5000] 1000 = variant_uri w.
Proof.
  cbv zeta. edestruct (select_variant_best [mkHlsVariant (dec 900) 900 0 0; mkHlsVariant (dec 5000) 5000 0 0]
    1000) as (w & Hw & He & _); [done|]. exists w. split; [exact Hw|exact He].
Defined.
