(* ===== verification/HlsKeys.v ===== *)
(** hls/encryption.cpp: the keys of HLS segments and their encryption.  OpenSSL's cipher
    is a parameter; the clock and the random bytes of each call are its arguments. *)

From S2P Require Import Prelude Text HlsSegment.
From Stdlib Require Import Ascii.

Definition kAesKeyBytes : Z := 16.
Definition kAesBlockBytes : Z := 16.

Record EncryptionConfig := mkEncryptionConfig {
  enabled_ : bool;
  rotation_interval : Z;  (* seconds *)
  retained_keys : Z;
  key_uri_template : string;
  config_key_format : string;
  config_key_format_versions : string
}.

Record ContentKey := mkContentKey {
  key_id : string;
  key_bytes : list byte
}.

(** A [SegmentEncryptor]: newest key last; times in nanoseconds of the steady clock. *)
Record SegmentEncryptor := mkSegmentEncryptor {
  enc_config : EncryptionConfig;
  keys_ : list ContentKey;
  key_minted_at_ : Z
}.

(** What a call finds outside: the time, and the random bytes for a key it may mint. *)
Record Moment := mkMoment {
  now : Z;
  id_bytes : list byte;    (* [generate_secure_token] draws 16 *)
  fresh_bytes : list byte  (* [secure_random_bytes] fills [kAesKeyBytes] *)
}.

Definition hex_char (v : Z) : ascii := nth (Z.to_nat v) (str "0123456789abcdef") "0"%char.
Definition hex_byte (b : byte) : text :=
  [hex_char (Z.shiftr (b2z b) 4); hex_char (Z.land (b2z b) 0x0F)].
Definition hex_bytes (l : list byte) : text := concat (map hex_byte l).

(** core/random.cpp. *)
Definition generate_secure_token (raw : list byte) : string := String.string_of_list_ascii (hex_bytes raw).

Definition iv_byte (sequence : Z) (i : Z) : byte := z2b (Z.land (Z.shiftr sequence (8 * i)) 0xFF).
Definition iv_from_sequence (sequence : Z) : list byte :=
  repeat x00 8 ++ map (iv_byte sequence) [7; 6; 5; 4; 3; 2; 1; 0].

Definition iv_to_hex (iv : list byte) : string := String.string_of_list_ascii (str "0x" ++ hex_bytes iv).

(** [replace_all] goes on behind what it has put in; the fuel is the length of what is left
    to search, which each round shortens by the length of a needle. *)
Fixpoint replace_loop (fuel : nat) (subject needle value : text) : text :=
  match fuel with
  | O => subject
  | S fuel =>
      match find_text needle subject with
      | None => subject
      | Some position =>
          take position subject ++ value ++
          replace_loop fuel (drop (position + length needle) subject) needle value
      end
  end.
Definition replace_all (subject needle value : string) : string :=
  String.string_of_list_ascii (replace_loop (length (str subject)) (str subject) (str needle) (str value)).

Definition make_encryptor (config : EncryptionConfig) : SegmentEncryptor :=
  mkSegmentEncryptor
    (if retained_keys config =? 0
     then mkEncryptionConfig (enabled_ config) (rotation_interval config) 1 (key_uri_template config)
            (config_key_format config) (config_key_format_versions config)
     else config) [] 0.

Definition enabled (e : SegmentEncryptor) : bool := enabled_ (enc_config e).

Definition new_key (m : Moment) : ContentKey :=
  mkContentKey (generate_secure_token (id_bytes m)) (fresh_bytes m).

(** [while (keys_.size() > config_.retained_keys) keys_.pop_front();] *)
Fixpoint retire (retained : Z) (keys : list ContentKey) : list ContentKey :=
  match keys with
  | [] => []
  | _ :: rest => if retained <? zlen keys then retire retained rest else keys
  end.

Definition mint (e : SegmentEncryptor) (m : Moment) : SegmentEncryptor :=
  mkSegmentEncryptor (enc_config e)
    (retire (retained_keys (enc_config e)) (keys_ e ++ [new_key m])) (now m).

Definition rotation_due (e : SegmentEncryptor) (m : Moment) : bool :=
  (0 <? rotation_interval (enc_config e)) &&
  (rotation_interval (enc_config e) * 1000000000 <=? now m - key_minted_at_ e).

(** [current_key_locked]; [keys_.back()] of an empty deque would be undefined. *)
Definition current_key_locked (e : SegmentEncryptor) (m : Moment) : Res (SegmentEncryptor * ContentKey) :=
  let e := if (match keys_ e with [] => true | _ => false end) || rotation_due e m then mint e m else e in
  match list.last (keys_ e) with
  | Some key => Ok (e, key)
  | None => Fault
  end.

Definition crypto_failure (what : string) : Error := mkError ErrorCode.Unknown ErrorCategory.Internal what.

(** How a pass through the EVP interface ends: no context, a call that fails, or the bytes
    the update and the final call have written. *)
Inductive EvpPass :=
| NoContext
| InitFailed
| UpdateFailed
| FinalFailed
| Written (updated final : list byte).

Section Cipher.
Context (evp_aes_128_cbc : list byte -> list byte -> list byte -> EvpPass). (* key, iv, plain *)

Definition aes_128_cbc_encrypt (plain key iv : list byte) : Res (list byte) :=
  match evp_aes_128_cbc key iv plain with
  | NoContext => Err (crypto_failure "EVP_CIPHER_CTX_new failed")
  | InitFailed => Err (crypto_failure "EVP_EncryptInit_ex failed")
  | UpdateFailed => Err (crypto_failure "EVP_EncryptUpdate failed")
  | FinalFailed => Err (crypto_failure "EVP_EncryptFinal_ex failed")
  | Written updated final => Ok (updated ++ final)
  end.

(** The key is drawn whether or not the cipher then fails. *)
Definition encrypt_segment (e : SegmentEncryptor) (m : Moment) (plain : list byte) (sequence : Z) :
  Res (SegmentEncryptor * Res (list byte)) :=
  if negb (enabled e) then Ok (e, Ok plain) else
  '(e, key) <- current_key_locked e m ;;
  Ok (e, aes_128_cbc_encrypt plain (key_bytes key) (iv_from_sequence sequence)).

Definition encrypt_part (e : SegmentEncryptor) (m : Moment) (plain : list byte) (segment_sequence : Z) :
  Res (SegmentEncryptor * Res (list byte)) :=
  encrypt_segment e m plain segment_sequence.

Definition key_description (e : SegmentEncryptor) (id : string) (sequence : Z) : EncryptionKeyInfo :=
  mkEncryptionKeyInfo "AES-128" (replace_all (key_uri_template (enc_config e)) "{kid}" id)
    (iv_to_hex (iv_from_sequence sequence)) (config_key_format (enc_config e))
    (config_key_format_versions (enc_config e)).

Definition key_info (e : SegmentEncryptor) (m : Moment) (sequence : Z) :
  Res (SegmentEncryptor * option EncryptionKeyInfo) :=
  if negb (enabled e) then Ok (e, None) else
  '(e, key) <- current_key_locked e m ;;
  Ok (e, Some (key_description e (key_id key) sequence)).

End Cipher.

Definition find_key (e : SegmentEncryptor) (id : string) : option ContentKey :=
  List.find (fun key => String.eqb (key_id key) id) (keys_ e).

Definition rotate (e : SegmentEncryptor) (m : Moment) : SegmentEncryptor :=
  if 0 <? rotation_interval (enc_config e)
  then mkSegmentEncryptor (enc_config e) (keys_ e) (now m - rotation_interval (enc_config e) * 1000000000)
  else mint e m.

(** * The vector of a sequence number *)

Definition hex_value (c : ascii) : Z :=
  match find_char c (str "0123456789abcdef") with Some n => Z.of_nat n | None => 0 end.
(** What the digits of a hexadecimal-sequence attribute mean (RFC 8216, 4.2). *)
Definition hex_number (l : text) : Z := fold_left (fun acc c => 16 * acc + hex_value c) l 0.

Lemma hex_number_app l1 l2 :
  hex_number (l1 ++ l2) = hex_number l1 * 16 ^ zlen l2 + hex_number l2.
Proof.
  unfold hex_number. rewrite fold_left_app. generalize (fold_left (fun acc c => 16 * acc + hex_value c) l1 0).
  induction l2 as [|c l2 IH] using rev_ind; intros z; [change (zlen (@nil ascii)) with 0; cbn; lia|].
  rewrite !fold_left_app, zlen_app, IH. change (zlen [c]) with 1. rewrite Z.pow_add_r by zlia. cbn. lia.
Qed.

Lemma hex_number_byte b : hex_number (hex_byte b) = b2z b.
Proof.
  destruct b; vm_compute; reflexivity.
Qed.

Lemma zlen_hex_bytes l : zlen (hex_bytes l) = 2 * zlen l.
Proof.
  induction l as [|b l IH]; [done|]. unfold hex_bytes in *. cbn [map concat].
  rewrite zlen_app, IH, zlen_cons. change (zlen (hex_byte b)) with 2. lia.
Qed.

Lemma hex_number_cons b l :
  hex_number (hex_bytes (b :: l)) = b2z b * 256 ^ zlen l + hex_number (hex_bytes l).
Proof.
  change (hex_bytes (b :: l)) with (hex_byte b ++ hex_bytes l).
  rewrite hex_number_app, hex_number_byte, zlen_hex_bytes. by rewrite Z.pow_mul_r by zlia.
Qed.

Ltac closed_powers :=
  repeat match goal with |- context [?b ^ ?e] =>
    let v := eval vm_compute in (b ^ e) in lazymatch v with Zpos _ => change (b ^ e) with v end end.

Lemma iv_byte_value sequence i : 0 <= i -> b2z (iv_byte sequence i) = sequence / 2 ^ (8 * i) mod 256.
Proof.
  intros Hi. unfold iv_byte. rewrite b2z_z2b, land_255, Z.shiftr_div_pow2, Zmod_mod by lia. done.
Qed.

Lemma byte_of_shift sequence i : 0 <= i ->
  sequence / 2 ^ (8 * i) mod 256 = sequence / 2 ^ (8 * i) - 256 * (sequence / 2 ^ (8 * (i + 1))).
Proof.
  intros Hi. replace (8 * (i + 1)) with (8 * i + 8) by lia. rewrite Z.pow_add_r by lia.
  rewrite <- Z.div_div by lia. change (2 ^ 8) with 256. rewrite Z.mod_eq by lia. lia.
Qed.

(** The initialization vector an EXT-X-KEY tag carries is the media sequence number of
    the segment as a 128-bit number, which is the vector RFC 8216 derives when there is
    none; its sixteen bytes are the big-endian number. *)
Theorem iv_hex_is_sequence sequence :
  0 <= sequence < 2 ^ 64 ->
  zlen (iv_from_sequence sequence) = kAesBlockBytes /\
  exists digits, str (iv_to_hex (iv_from_sequence sequence)) = str "0x" ++ digits /\
    zlen digits = 2 * kAesBlockBytes /\ hex_number digits = sequence.
Proof.
  intros Hs. split; [done|]. exists (hex_bytes (iv_from_sequence sequence)). split_and!.
  - unfold iv_to_hex, str. by rewrite String.list_ascii_of_string_of_list_ascii.
  - by rewrite zlen_hex_bytes.
  - unfold iv_from_sequence. cbn [repeat map app].
    rewrite !hex_number_cons, !zlen_cons. change (zlen (@nil byte)) with 0. change (hex_number (hex_bytes [])) with 0.
    change (b2z x00) with 0. rewrite !iv_byte_value by lia.
    rewrite !byte_of_shift by lia. change (8 * 0) with 0. rewrite Z.pow_0_r, Z.div_1_r.
    rewrite (Z.div_small sequence (2 ^ (8 * (7 + 1)))) by lia. closed_powers.
    repeat match goal with |- context [sequence / ?d] => generalize (sequence / d); intros ? end. lia.
Qed.

(** * How long a key stays fetchable *)

Record key_store (e : SegmentEncryptor) : Prop := {
  k_retained : 1 <= retained_keys (enc_config e);
  k_bound : zlen (keys_ e) <= retained_keys (enc_config e)
}.

Lemma make_encryptor_store config : 0 <= retained_keys config -> key_store (make_encryptor config).
Proof.
  intros Hr. unfold make_encryptor. destruct (Z.eqb_spec (retained_keys config) 0); split; cbn;
    change (zlen (@nil ContentKey)) with 0; lia.
Qed.

Lemma retire_spec n keys : 0 <= n ->
  exists older, keys = older ++ retire n keys /\ zlen (retire n keys) = Z.min n (zlen keys).
Proof.
  intros Hn. induction keys as [|k keys (older & He & Hl)].
  { exists []. cbn. change (zlen (@nil ContentKey)) with 0. split; [done|lia]. }
  cbn [retire]. destruct (Z.ltb_spec n (zlen (k :: keys))) as [Hk|Hk].
  - exists (k :: older). rewrite zlen_cons in *. split; [cbn; by f_equal|lia].
  - exists []. split; [done|lia].
Qed.

Definition mints (e : SegmentEncryptor) (m : Moment) : bool :=
  (match keys_ e with [] => true | _ => false end) || rotation_due e m.

(** What the server does with an encryptor: encrypt, describe a key, rotate. *)
Inductive KeyOp :=
| Encrypt (m : Moment) (plain : list byte) (sequence : Z)
| Describe (m : Moment) (sequence : Z)
| Rotate (m : Moment).

Section Retention.
Context (evp : list byte -> list byte -> list byte -> EvpPass).

Definition key_step (e : SegmentEncryptor) (op : KeyOp) : Res SegmentEncryptor :=
  match op with
  | Encrypt m plain sequence => '(e, _) <- encrypt_segment evp e m plain sequence ;; Ok e
  | Describe m sequence => '(e, _) <- key_info e m sequence ;; Ok e
  | Rotate m => Ok (rotate e m)
  end.

Definition op_mints (e : SegmentEncryptor) (op : KeyOp) : bool :=
  match op with
  | Encrypt m _ _ | Describe m _ => enabled e && mints e m
  | Rotate _ => negb (0 <? rotation_interval (enc_config e))
  end.

(** The encryptor after some operations, with the number of keys minted on the way. *)
Fixpoint key_run (e : SegmentEncryptor) (ops : list KeyOp) : Res (SegmentEncryptor * Z) :=
  match ops with
  | [] => Ok (e, 0)
  | op :: ops =>
      e' <- key_step e op ;;
      '(e'', n) <- key_run e' ops ;;
      Ok (e'', (if op_mints e op then 1 else 0) + n)
  end.

(** [key] is held, and at most [n] newer ones are. *)
Definition aged (key : ContentKey) (n : Z) (e : SegmentEncryptor) : Prop :=
  exists older newer, keys_ e = older ++ key :: newer /\ zlen newer <= n.

Lemma mint_store e m : key_store e -> key_store (mint e m) /\ list.last (keys_ (mint e m)) = Some (new_key m).
Proof.
  intros [Hr Hb]. pose proof (zlen_nonneg (keys_ e)).
  destruct (retire_spec (retained_keys (enc_config e)) (keys_ e ++ [new_key m]) ltac:(lia)) as (older & He & Hl).
  rewrite zlen_app in Hl. change (zlen [new_key m]) with 1 in Hl. split; [split; cbn; lia|].
  cbn [mint keys_]. destruct (list.last (retire _ _)) as [k|] eqn:Hk.
  - assert (Hs : list.last (keys_ e ++ [new_key m]) = Some k) by (by rewrite He, last_app, Hk).
    by rewrite last_snoc in Hs.
  - apply last_None in Hk. rewrite Hk in Hl. change (zlen (@nil ContentKey)) with 0 in Hl. lia.
Qed.

(** Once an operation has minted, a key is one newer key older. *)
Lemma mint_ages e m key n :
  key_store e -> aged key n e -> n + 1 < retained_keys (enc_config e) -> aged key (n + 1) (mint e m).
Proof.
  intros Hs (older & newer & He & Hn) Hlt. destruct (proj1 (mint_store e m Hs)) as [_ Hb]. destruct Hs as [Hr _].
  destruct (retire_spec (retained_keys (enc_config e)) (keys_ e ++ [new_key m]) ltac:(lia)) as (gone & Hg & Hl).
  cbn [mint keys_] in *. set (kept := retire _ _) in *. rewrite He, <- app_assoc in Hg. cbn [app] in Hg.
  assert (Hz : zlen (newer ++ [new_key m]) < zlen kept).
  { pose proof (zlen_nonneg older). rewrite He, !zlen_app, (zlen_cons key) in Hl. rewrite zlen_app.
    change (zlen [new_key m]) with 1 in *. lia. }
  unfold aged. cbn [mint keys_]. fold kept. apply app_eq_inv in Hg as [(l & -> & Hk)|(l & -> & Hk)].
  - exists l, (newer ++ [new_key m]). split; [done|]. rewrite zlen_app. change (zlen [new_key m]) with 1. lia.
  - destruct l as [|x l].
    + exists [], (newer ++ [new_key m]). split; [by rewrite Hk|]. rewrite zlen_app.
      change (zlen [new_key m]) with 1. lia.
    + cbn in Hk. injection Hk as -> Hk. rewrite Hk, zlen_app in Hz. pose proof (zlen_nonneg l). lia.
Qed.

Lemma current_key_spec e m : key_store e ->
  exists key, let e' := if mints e m then mint e m else e in
    current_key_locked e m = Ok (e', key) /\ list.last (keys_ e') = Some key /\ key_store e'.
Proof.
  intros Hs. unfold current_key_locked, mints. destruct (mint_store e m Hs) as [Hm Hl].
  destruct ((match keys_ e with [] => true | _ => false end) || rotation_due e m) eqn:Hd.
  - exists (new_key m). cbv zeta. by rewrite Hl.
  - destruct (list.last (keys_ e)) as [key|] eqn:Hk; [by exists key|].
    apply last_None in Hk. by rewrite Hk in Hd.
Qed.

Lemma minted_ages (b : bool) e m key n :
  key_store e -> aged key n e -> n + (if b then 1 else 0) < retained_keys (enc_config e) ->
  aged key (n + (if b then 1 else 0)) (if b then mint e m else e).
Proof. intros Hs Ha Hn. destruct b; [by apply mint_ages|by rewrite Z.add_0_r]. Qed.

Lemma key_step_spec e op : key_store e ->
  exists e', key_step e op = Ok e' /\ key_store e' /\
    retained_keys (enc_config e') = retained_keys (enc_config e) /\
    (forall key n, aged key n e -> n + (if op_mints e op then 1 else 0) < retained_keys (enc_config e) ->
       aged key (n + (if op_mints e op then 1 else 0)) e').
Proof.
  intros Hs. destruct op as [m plain sequence|m sequence|m].
  - cbn [key_step op_mints]. unfold encrypt_segment. destruct (enabled e).
    + destruct (current_key_spec e m Hs) as (key & Hc & _ & Hs'). cbn [negb andb]. rewrite Hc. eexists.
      split; [reflexivity|]. split; [done|]. split; [by destruct (mints e m)|]. intros. by apply minted_ages.
    + exists e. split_and!; try done. intros key n Ha _. by rewrite Z.add_0_r.
  - cbn [key_step op_mints]. unfold key_info. destruct (enabled e).
    + destruct (current_key_spec e m Hs) as (key & Hc & _ & Hs'). cbn [negb andb]. rewrite Hc. eexists.
      split; [reflexivity|]. split; [done|]. split; [by destruct (mints e m)|]. intros. by apply minted_ages.
    + exists e. split_and!; try done. intros key n Ha _. by rewrite Z.add_0_r.
  - cbn [key_step op_mints]. unfold rotate. destruct (0 <? rotation_interval (enc_config e)).
    + eexists. split; [reflexivity|]. destruct Hs. split; [done|]. split; [done|].
      intros key n Ha _. by rewrite Z.add_0_r.
    + eexists. split; [reflexivity|]. split; [by apply mint_store|]. split; [done|].
      intros key n Ha Hn. by apply mint_ages.
Qed.

Lemma key_run_spec ops : forall e, key_store e ->
  exists e' minted, key_run e ops = Ok (e', minted) /\ 0 <= minted /\ key_store e' /\
    (forall key n, aged key n e -> n + minted < retained_keys (enc_config e) -> aged key (n + minted) e').
Proof.
  induction ops as [|op ops IH]; intros e Hs.
  { exists e, 0. split_and!; [done|lia|done|]. intros key n Ha _. by rewrite Z.add_0_r. }
  destruct (key_step_spec e op Hs) as (e1 & H1 & Hs1 & Hr & Ha1).
  destruct (IH e1 Hs1) as (e2 & minted & H2 & Hm & Hs2 & Ha2). cbn [key_run]. rewrite H1. cbn [rbind].
  rewrite H2. cbn [rbind]. eexists _, _. split; [reflexivity|].
  split; [by destruct (op_mints e op); lia|]. split; [done|]. intros key n Ha Hn. rewrite Z.add_assoc.
  apply Ha2; [|rewrite Hr; lia]. apply Ha1; [done|]. lia.
Qed.

(** Encryption and key description never fail on the key ring.  A key that the playlist
    names stays in the ring until as many new keys have been minted as the configuration
    retains, whatever is encrypted, described and rotated in the meantime; as long as no
    two keys share an identifier, the delivery endpoint answers with that very key. *)
Theorem published_key_fetchable e m sequence ops :
  key_store e -> enabled e = true ->
  exists key e1 e2 minted,
    key_info e m sequence = Ok (e1, Some (key_description e1 (key_id key) sequence)) /\
    key_run e1 ops = Ok (e2, minted) /\
    zlen (keys_ e2) <= retained_keys (enc_config e2) /\
    (minted < retained_keys (enc_config e) ->
       key ∈ keys_ e2 /\ (NoDup (map key_id (keys_ e2)) -> find_key e2 (key_id key) = Some key)).
Proof.
  intros Hs He. destruct (current_key_spec e m Hs) as (key & Hc & Hl & Hs1).
  set (e1 := if mints e m then mint e m else e) in *.
  destruct (key_run_spec ops e1 Hs1) as (e2 & minted & Hr & _ & Hs2 & Ha). exists key, e1, e2, minted.
  split; [unfold key_info; rewrite He; cbn [negb]; by rewrite Hc|]. split; [done|]. split; [apply Hs2|].
  intros Hm. assert (H0 : aged key 0 e1).
  { apply last_Some in Hl as (older & Hl). exists older, []. split; [done|]. change (zlen (@nil ContentKey)) with 0. lia. }
  apply Ha in H0 as (older & newer & Hk & _); [|by unfold e1; destruct (mints e m)].
  rewrite Hk. split; [apply elem_of_app; right; apply elem_of_cons; by left|].
  intros Hd. unfold find_key. rewrite map_app in Hd. rewrite Hk. clear -Hd.
  induction older as [|k older IH]; cbn [app List.find map] in *; [by rewrite String.eqb_refl|].
  apply list.NoDup_cons in Hd as [Hn Hd]. destruct (String.eqb_spec (key_id k) (key_id key)) as [Hx|_]; [|by apply IH].
  exfalso. apply Hn. rewrite Hx. apply elem_of_app. right. apply elem_of_cons; by left.
Qed.

End Retention.

Definition sample_config : EncryptionConfig := mkEncryptionConfig true 10 2 "key/{kid}.bin" "" "".
Definition sample_moment (t : Z) : Moment := mkMoment t (repeat (z2b t) 16) (repeat (z2b (t + 1)) 16).

Lemma published_key_fetchable_witness :
  exists key e1 e2 minted,
    key_info (make_encryptor sample_config) (sample_moment 3) 7 =
      Ok (e1, Some (key_description e1 (key_id key) 7)) /\
    key_run (fun _ _ plain => Written plain []) e1
      [Encrypt (sample_moment 5) [x01] 7; Describe (sample_moment 20000000000) 8] = Ok (e2, minted) /\
    minted = 1 /\ find_key e2 (key_id key) = Some key.
Proof.
  destruct (published_key_fetchable (fun _ _ plain => Written plain []) (make_encryptor sample_config)
    (sample_moment 3) 7 [Encrypt (sample_moment 5) [x01] 7; Describe (sample_moment 20000000000) 8])
    as (key & e1 & e2 & minted & H1 & H2 & _ & H3); [by apply make_encryptor_store|done|].
  exists key, e1, e2, minted. split; [exact H1|]. split; [exact H2|].
  vm_compute in H1. injection H1 as <- Hk. vm_compute in H2. injection H2 as <- <-. split; [done|].
  apply H3; [done|]. vm_compute. apply list.NoDup_cons. split; [|apply NoDup_singleton].
  rewrite list_elem_of_singleton. done.
Defined.

Lemma iv_hex_is_sequence_witness :
  exists digits, str (iv_to_hex (iv_from_sequence 300)) = str "0x" ++ digits /\ hex_number digits = 300.
Proof.
  destruct (iv_hex_is_sequence 300) as (_ & digits & H1 & _ & H2); [lia|]. by exists digits.
Defined.
