(* ===== verification/HlsStore.v ===== *)
(** hls/segment_store.cpp: the store a stream's segments and parts are served from.
    The encryptor is shared between stores, so it is passed in and handed back.  The
    steady clock is in nanoseconds, a duration in milliseconds.  Null pointers, which
    [add_segment] and [add_part] ignore, are not in the model; counters, byte counts and
    sequence numbers are not wrapped at 64 bits. *)

From S2P Require Import Prelude Text HlsSegment HlsPlaylist HlsKeys.

Record SegmentStoreConfig := mkSegmentStoreConfig {
  live_window_segments : Z;
  retention_grace_segments : Z;
  max_total_bytes : Z;
  cfg_target_duration_seconds : Z;
  playlist_version : Z;
  playlist_hold_back_seconds : Z;  (* thousandths *)
  repeat_last_segment_on_stall : bool;
  seamless_fallback_recovery : bool;
  cfg_low_latency : bool;
  part_target_duration : Z;
  cfg_part_window_segments : Z;
  cfg_part_hold_back_seconds : Z   (* thousandths *)
}.
Definition default_store_config : SegmentStoreConfig :=
  mkSegmentStoreConfig 6 4 (256 * 1024 * 1024) 4 3 0 false false false 0 3 0.

Record LiveEdge := mkLiveEdge {
  edge_sequence : Z;
  edge_part_index : Z;
  has_media : bool
}.

Record SegmentStoreStats := mkSegmentStoreStats {
  parts_added : Z;
  parts_evicted : Z;
  part_hits : Z;
  part_misses : Z;
  segments_added : Z;
  real_segments_added : Z;
  segments_evicted : Z;
  bytes_held : Z;
  playlist_requests : Z;
  segment_hits : Z;
  segment_misses : Z;
  fallback_segments_added : Z
}.
Definition no_store_stats : SegmentStoreStats := mkSegmentStoreStats 0 0 0 0 0 0 0 0 0 0 0 0.

Record SegmentStore := mkSegmentStore {
  store_config : SegmentStoreConfig;
  segments_ : list Segment;
  by_name_ : gmap string Segment;
  open_parts_ : list Part;
  parts_by_name_ : gmap string Part;
  bytes_held_ : Z;
  discontinuity_sequence_ : Z;
  ended_ : bool;
  fallback_active_ : bool;
  last_segment_added_at_ : option Z;
  stats_ : SegmentStoreStats;
  notifier_ : bool  (* whether an update notifier is set *)
}.
Definition make_store (config : SegmentStoreConfig) : SegmentStore :=
  mkSegmentStore config [] ∅ [] ∅ 0 0 false false None no_store_stats false.
Definition set_update_notifier (s : SegmentStore) (notifier : bool) : SegmentStore :=
  mkSegmentStore (store_config s) (segments_ s) (by_name_ s) (open_parts_ s) (parts_by_name_ s) (bytes_held_ s)
    (discontinuity_sequence_ s) (ended_ s) (fallback_active_ s) (last_segment_added_at_ s) (stats_ s) notifier.

Definition with_stats (s : SegmentStore) (stats : SegmentStoreStats) : SegmentStore :=
  mkSegmentStore (store_config s) (segments_ s) (by_name_ s) (open_parts_ s) (parts_by_name_ s) (bytes_held_ s)
    (discontinuity_sequence_ s) (ended_ s) (fallback_active_ s) (last_segment_added_at_ s) stats (notifier_ s).

(** [unordered_map::emplace]: a name that is there keeps its value. *)
Definition emplace {A} (name : string) (v : A) (m : gmap string A) : gmap string A :=
  match m !! name with Some _ => m | None => <[name := v]> m end.

(** [std::string::rfind]. *)
Fixpoint rfind_text (p l : text) : option nat :=
  match l with
  | [] => if begins p [] then Some O else None
  | _ :: rest =>
      match rfind_text p rest with
      | Some n => Some (S n)
      | None => if begins p l then Some O else None
      end
  end.

Definition name_with_sequence (source : Segment) (sequence : Z) : string :=
  let old_sequence := dec (seg_sequence source) in
  let name := str (seg_name source) in
  match rfind_text old_sequence name with
  | Some position =>
      String.string_of_list_ascii
        (take position name ++ dec sequence ++ drop (position + length old_sequence) name)
  | None => "segment-" +:+ to_string sequence +:+ ".ts"
  end.

Definition copy_with_sequence (source : Segment) (sequence : Z) (force_discontinuity : bool) : Segment :=
  mkSegment sequence (name_with_sequence source sequence) (seg_data source) (seg_duration source)
    (seg_discontinuity source || force_discontinuity) [] (seg_key source) 0.

Definition count_part_evicted (t : SegmentStoreStats) : SegmentStoreStats :=
  mkSegmentStoreStats (parts_added t) (parts_evicted t + 1) (part_hits t) (part_misses t) (segments_added t)
    (real_segments_added t) (segments_evicted t) (bytes_held t) (playlist_requests t) (segment_hits t)
    (segment_misses t) (fallback_segments_added t).
Definition count_segment_evicted (t : SegmentStoreStats) : SegmentStoreStats :=
  mkSegmentStoreStats (parts_added t) (parts_evicted t) (part_hits t) (part_misses t) (segments_added t)
    (real_segments_added t) (segments_evicted t + 1) (bytes_held t) (playlist_requests t) (segment_hits t)
    (segment_misses t) (fallback_segments_added t).
Definition count_appended (t : SegmentStoreStats) (fallback : bool) : SegmentStoreStats :=
  mkSegmentStoreStats (parts_added t) (parts_evicted t) (part_hits t) (part_misses t) (segments_added t + 1)
    (real_segments_added t + if fallback then 0 else 1) (segments_evicted t) (bytes_held t)
    (playlist_requests t) (segment_hits t) (segment_misses t)
    (fallback_segments_added t + if fallback then 1 else 0).
Definition note_bytes (t : SegmentStoreStats) (bytes : Z) : SegmentStoreStats :=
  mkSegmentStoreStats (parts_added t) (parts_evicted t) (part_hits t) (part_misses t) (segments_added t)
    (real_segments_added t) (segments_evicted t) bytes (playlist_requests t) (segment_hits t)
    (segment_misses t) (fallback_segments_added t).
Definition count_part_added (t : SegmentStoreStats) : SegmentStoreStats :=
  mkSegmentStoreStats (parts_added t + 1) (parts_evicted t) (part_hits t) (part_misses t) (segments_added t)
    (real_segments_added t) (segments_evicted t) (bytes_held t) (playlist_requests t) (segment_hits t)
    (segment_misses t) (fallback_segments_added t).
Definition count_segment_lookup (t : SegmentStoreStats) (hit : bool) : SegmentStoreStats :=
  mkSegmentStoreStats (parts_added t) (parts_evicted t) (part_hits t) (part_misses t) (segments_added t)
    (real_segments_added t) (segments_evicted t) (bytes_held t) (playlist_requests t)
    (segment_hits t + if hit then 1 else 0) (segment_misses t + if hit then 0 else 1)
    (fallback_segments_added t).
Definition count_part_lookup (t : SegmentStoreStats) (hit : bool) : SegmentStoreStats :=
  mkSegmentStoreStats (parts_added t) (parts_evicted t) (part_hits t + if hit then 1 else 0)
    (part_misses t + if hit then 0 else 1) (segments_added t) (real_segments_added t) (segments_evicted t)
    (bytes_held t) (playlist_requests t) (segment_hits t) (segment_misses t) (fallback_segments_added t).
Definition count_playlist (t : SegmentStoreStats) : SegmentStoreStats :=
  mkSegmentStoreStats (parts_added t) (parts_evicted t) (part_hits t) (part_misses t) (segments_added t)
    (real_segments_added t) (segments_evicted t) (bytes_held t) (playlist_requests t + 1) (segment_hits t)
    (segment_misses t) (fallback_segments_added t).

(** The parts of the segment that goes, and the bytes they held. *)
Definition drop_part (s : SegmentStore) (part : Part) : SegmentStore :=
  mkSegmentStore (store_config s) (segments_ s) (by_name_ s) (open_parts_ s)
    (delete (part_name part) (parts_by_name_ s))
    (bytes_held_ s - Z.min (bytes_held_ s) (part_size_bytes part))
    (discontinuity_sequence_ s) (ended_ s) (fallback_active_ s) (last_segment_added_at_ s)
    (count_part_evicted (stats_ s)) (notifier_ s).
Definition forget_front (s : SegmentStore) (front : Segment) : SegmentStore :=
  mkSegmentStore (store_config s) (segments_ s) (delete (seg_name front) (by_name_ s)) (open_parts_ s)
    (parts_by_name_ s) (bytes_held_ s - Z.min (bytes_held_ s) (size_bytes front))
    (discontinuity_sequence_ s + if seg_discontinuity front then 1 else 0) (ended_ s) (fallback_active_ s)
    (last_segment_added_at_ s) (stats_ s) (notifier_ s).
Definition pop_front (s : SegmentStore) (rest : list Segment) : SegmentStore :=
  mkSegmentStore (store_config s) rest (by_name_ s) (open_parts_ s) (parts_by_name_ s) (bytes_held_ s)
    (discontinuity_sequence_ s) (ended_ s) (fallback_active_ s) (last_segment_added_at_ s)
    (count_segment_evicted (stats_ s)) (notifier_ s).
Definition drop_front (s : SegmentStore) (front : Segment) (rest : list Segment) : SegmentStore :=
  pop_front (fold_left drop_part (seg_parts front) (forget_front s front)) rest.

Definition max_retained (c : SegmentStoreConfig) : Z := live_window_segments c + retention_grace_segments c.

(** Both loops of [evict_locked], on the segments held: the first until their number is
    within bounds, the second until the bytes are, or one is left. *)
Fixpoint evict_count (held : list Segment) (s : SegmentStore) : SegmentStore :=
  match held with
  | [] => s
  | front :: rest =>
      if max_retained (store_config s) <? zlen held then evict_count rest (drop_front s front rest) else s
  end.
Fixpoint evict_bytes (held : list Segment) (s : SegmentStore) : SegmentStore :=
  match held with
  | [] => s
  | front :: rest =>
      if (max_total_bytes (store_config s) <? bytes_held_ s) && (1 <? zlen held)
      then evict_bytes rest (drop_front s front rest) else s
  end.
Definition evict_locked (s : SegmentStore) : SegmentStore :=
  let s := evict_count (segments_ s) s in
  evict_bytes (segments_ s) s.

Definition push_segment (s : SegmentStore) (segment : Segment) (fallback : bool) (at_time : Z) : SegmentStore :=
  mkSegmentStore (store_config s) (segments_ s ++ [segment]) (emplace (seg_name segment) segment (by_name_ s))
    (open_parts_ s) (parts_by_name_ s) (bytes_held_ s + size_bytes segment) (discontinuity_sequence_ s)
    (ended_ s) fallback (Some at_time) (count_appended (stats_ s) fallback) (notifier_ s).
Definition append_locked (s : SegmentStore) (segment : Segment) (fallback : bool) (at_time : Z) : SegmentStore :=
  let s := evict_locked (push_segment s segment fallback at_time) in
  with_stats s (note_bytes (stats_ s) (bytes_held_ s)).

(** What one operation is called with from outside: two readings for the encryptor, and the
    times the appends are stamped with. *)
Inductive store_event := Updated.
Definition notify (s : SegmentStore) : list store_event := if notifier_ s then [Updated] else [].

Section Encrypted.
Context (evp : list byte -> list byte -> list byte -> EvpPass).

Definition encrypted_copy (segment : Segment) (data : list byte) (key : option EncryptionKeyInfo) : Segment :=
  mkSegment (seg_sequence segment) (seg_name segment) data (seg_duration segment) (seg_discontinuity segment)
    (seg_parts segment) key 0.
Definition protect_segment (encryptor : option SegmentEncryptor) (m1 m2 : Moment) (segment : Segment) :
  Res (option SegmentEncryptor * Segment) :=
  match encryptor with
  | None => Ok (None, segment)
  | Some e =>
      if negb (enabled e) then Ok (Some e, segment) else
      '(e, data) <- encrypt_segment evp e m1 (seg_data segment) (seg_sequence segment) ;;
      match data with
      | Ok data =>
          '(e, key) <- key_info e m2 (seg_sequence segment) ;;
          Ok (Some e, encrypted_copy segment data key)
      | Err _ => Ok (Some e, segment)
      | Fault => Fault
      | OutOfFuel => OutOfFuel
      end
  end.

Definition renumber (s : SegmentStore) (segment : Segment) : Res Segment :=
  if repeat_last_segment_on_stall (store_config s) && negb (match segments_ s with [] => true | _ => false end) then
    match list.last (segments_ s) with
    | None => Fault
    | Some back =>
        let next := seg_sequence back + 1 in
        if negb (seg_sequence segment =? next) || fallback_active_ s then
          Ok (copy_with_sequence segment next
                (fallback_active_ s && negb (seamless_fallback_recovery (store_config s))))
        else Ok segment
    end
  else Ok segment.

Definition set_parts (segment : Segment) (parts : list Part) : Segment :=
  mkSegment (seg_sequence segment) (seg_name segment) (seg_data segment) (seg_duration segment)
    (seg_discontinuity segment) parts (seg_key segment) (seg_iframe_prefix_bytes segment).
Definition clear_open_parts (s : SegmentStore) : SegmentStore :=
  mkSegmentStore (store_config s) (segments_ s) (by_name_ s) [] (parts_by_name_ s) (bytes_held_ s)
    (discontinuity_sequence_ s) (ended_ s) (fallback_active_ s) (last_segment_added_at_ s) (stats_ s) (notifier_ s).
Definition take_parts (s : SegmentStore) (segment : Segment) : SegmentStore * Segment :=
  if cfg_low_latency (store_config s) && negb (match open_parts_ s with [] => true | _ => false end)
  then (clear_open_parts s, set_parts segment (open_parts_ s))
  else (s, segment).

Definition add_segment (s : SegmentStore) (encryptor : option SegmentEncryptor) (segment : Segment)
    (m1 m2 : Moment) (at_time : Z) : Res (SegmentStore * option SegmentEncryptor * list store_event) :=
  '(encryptor, segment) <- protect_segment encryptor m1 m2 segment ;;
  segment <- renumber s segment ;;
  let '(s, segment) := take_parts s segment in
  let s := append_locked s segment false at_time in
  Ok (s, encryptor, notify s).

Definition protect_part (encryptor : option SegmentEncryptor) (m : Moment) (part : Part) :
  Res (option SegmentEncryptor * Part) :=
  match encryptor with
  | None => Ok (None, part)
  | Some e =>
      if negb (enabled e) then Ok (Some e, part) else
      '(e, data) <- encrypt_part evp e m (part_data part) (part_segment_sequence part) ;;
      match data with
      | Ok data =>
          Ok (Some e, mkPart (part_segment_sequence part) (part_index part) (part_name part) data
                        (part_duration part) (part_independent part))
      | Err _ => Ok (Some e, part)
      | Fault => Fault
      | OutOfFuel => OutOfFuel
      end
  end.

Definition push_part (s : SegmentStore) (part : Part) : SegmentStore :=
  let bytes := bytes_held_ s + part_size_bytes part in
  mkSegmentStore (store_config s) (segments_ s) (by_name_ s) (open_parts_ s ++ [part])
    (emplace (part_name part) part (parts_by_name_ s)) bytes (discontinuity_sequence_ s) (ended_ s)
    (fallback_active_ s) (last_segment_added_at_ s) (note_bytes (count_part_added (stats_ s)) bytes) (notifier_ s).
Definition add_part (s : SegmentStore) (encryptor : option SegmentEncryptor) (part : Part) (m : Moment) :
  Res (SegmentStore * option SegmentEncryptor * list store_event) :=
  if negb (cfg_low_latency (store_config s)) then Ok (s, encryptor, []) else
  '(encryptor, part) <- protect_part encryptor m part ;;
  let s := push_part s part in
  Ok (s, encryptor, notify s).

End Encrypted.

(** The cadence of the repeated segments and the time a healthy publisher may take, in
    milliseconds. *)
Definition stall_interval (s : SegmentStore) (back : Segment) : Z :=
  if seg_duration back <=? 0 then Z.max 1 (cfg_target_duration_seconds (store_config s)) * 1000
  else seg_duration back.
Definition initial_grace (s : SegmentStore) (interval : Z) : Z :=
  if fallback_active_ s then 0 else Z.min (Z.quot interval 4) 500.
Definition backfill_count (s : SegmentStore) (elapsed cadence : Z) : Z :=
  Z.min (Z.max 1 (Z.quot (Z.quot elapsed 1000000) (Z.max 1 cadence))) (Z.max 1 (max_retained (store_config s))).

(** One append after the other; each is stamped with the time it is made at. *)
Fixpoint backfill (s : SegmentStore) (count : nat) (times : nat -> Z) : Res SegmentStore :=
  match count with
  | O => Ok s
  | S count =>
      match list.last (segments_ s) with
      | None => Fault
      | Some back =>
          let fallback := copy_with_sequence back (seg_sequence back + 1) false in
          backfill (append_locked s fallback true (times O)) count (fun n => times (S n))
      end
  end.
Definition append_fallback_if_due_locked (s : SegmentStore) (now : Z) (times : nat -> Z) : Res SegmentStore :=
  if negb (repeat_last_segment_on_stall (store_config s)) || ended_ s then Ok s else
  match list.last (segments_ s), last_segment_added_at_ s with
  | Some back, Some added_at =>
      let interval := stall_interval s back in
      let cadence := interval + initial_grace s interval in
      let elapsed := now - added_at in
      if elapsed <? cadence * 1000000 then Ok s
      else backfill s (Z.to_nat (backfill_count s elapsed cadence)) times
  | _, _ => Ok s
  end.

Definition find_segment (s : SegmentStore) (name : string) : SegmentStore * option Segment :=
  match by_name_ s !! name with
  | None => (with_stats s (count_segment_lookup (stats_ s) false), None)
  | Some segment => (with_stats s (count_segment_lookup (stats_ s) true), Some segment)
  end.
Definition find_part (s : SegmentStore) (name : string) : SegmentStore * option Part :=
  match parts_by_name_ s !! name with
  | None => (with_stats s (count_part_lookup (stats_ s) false), None)
  | Some part => (with_stats s (count_part_lookup (stats_ s) true), Some part)
  end.

Definition part_index_of (parts : list Part) : Z :=
  match list.last parts with Some part => part_index part | None => -1 end.
Definition live_edge (s : SegmentStore) : LiveEdge :=
  match list.last (open_parts_ s) with
  | Some part => mkLiveEdge (part_segment_sequence part) (part_index part) true
  | None =>
      match list.last (segments_ s) with
      | None => mkLiveEdge 0 (-1) false
      | Some last => mkLiveEdge (seg_sequence last) (part_index_of (seg_parts last)) true
      end
  end.

(** [has_reached_locked] computes the same edge over again. *)
Definition has_reached (s : SegmentStore) (sequence part_index : Z) : bool :=
  if ended_ s then true else
  let edge := live_edge s in
  if negb (has_media edge) then false else
  if sequence <? edge_sequence edge then true else
  if edge_sequence edge <? sequence then false else
  if part_index <? 0 then
    match list.last (segments_ s) with Some last => sequence <=? seg_sequence last | None => false end
  else part_index <=? edge_part_index edge.

Definition live_window (s : SegmentStore) : list Segment :=
  let count := Z.min (live_window_segments (store_config s)) (zlen (segments_ s)) in
  drop (Z.to_nat (zlen (segments_ s) - count)) (segments_ s).
Definition before_window (s : SegmentStore) : list Segment :=
  let count := Z.min (live_window_segments (store_config s)) (zlen (segments_ s)) in
  take (Z.to_nat (zlen (segments_ s) - count)) (segments_ s).
Definition discontinuities (l : list Segment) : Z :=
  fold_left (fun n segment => n + if seg_discontinuity segment then 1 else 0) l 0.

Definition iframe_options (s : SegmentStore) (prefix : string) : MediaPlaylistOptions :=
  let c := store_config s in
  mkMediaPlaylistOptions (cfg_target_duration_seconds c) (Z.max (playlist_version c) 4) 0 (ended_ s) prefix
    false 0 false 0 0 3 [] "" true.
Definition iframe_playlist (s : SegmentStore) (prefix : string) : SegmentStore * text :=
  (with_stats s (count_playlist (stats_ s)), build_media_playlist (live_window s) (iframe_options s prefix)).

Definition preload_hint (s : SegmentStore) : string :=
  let open_sequence :=
    match list.last (open_parts_ s) with
    | Some part => part_segment_sequence part
    | None => match list.last (segments_ s) with Some last => seg_sequence last + 1 | None => 0 end
    end in
  let next_index := match list.last (open_parts_ s) with Some part => u32 (part_index part + 1) | None => 0 end in
  "segment-" +:+ to_string open_sequence +:+ "." +:+ to_string next_index +:+ ".ts".

Definition playlist_options (s : SegmentStore) (prefix : string) : MediaPlaylistOptions :=
  let c := store_config s in
  let before := discontinuity_sequence_ s + discontinuities (before_window s) in
  if cfg_low_latency c then
    mkMediaPlaylistOptions (cfg_target_duration_seconds c) (playlist_version c) before (ended_ s) prefix true
      (playlist_hold_back_seconds c) true (part_target_duration c) (cfg_part_hold_back_seconds c)
      (cfg_part_window_segments c) (open_parts_ s) (preload_hint s) false
  else
    mkMediaPlaylistOptions (cfg_target_duration_seconds c) (playlist_version c) before (ended_ s) prefix true
      (playlist_hold_back_seconds c) false 0 0 3 [] "" false.

Definition playlist (s : SegmentStore) (prefix : string) (now : Z) (times : nat -> Z) : Res (SegmentStore * text) :=
  let s := with_stats s (count_playlist (stats_ s)) in
  s <- append_fallback_if_due_locked s now times ;;
  Ok (s, build_media_playlist (live_window s) (playlist_options s prefix)).

Definition set_ended (s : SegmentStore) (b : bool) : SegmentStore :=
  mkSegmentStore (store_config s) (segments_ s) (by_name_ s) (open_parts_ s) (parts_by_name_ s) (bytes_held_ s)
    (discontinuity_sequence_ s) b (fallback_active_ s) (last_segment_added_at_ s) (stats_ s) (notifier_ s).
Definition mark_ended (s : SegmentStore) : SegmentStore * list store_event := (set_ended s true, notify s).
Definition mark_live (s : SegmentStore) : SegmentStore := set_ended s false.
Definition clear (s : SegmentStore) : SegmentStore :=
  mkSegmentStore (store_config s) [] ∅ [] ∅ 0 0 false false None (note_bytes (stats_ s) 0) (notifier_ s).
Definition segment_count (s : SegmentStore) : Z := zlen (segments_ s).
Definition next_sequence (s : SegmentStore) : Z :=
  match list.last (segments_ s) with Some last => seg_sequence last + 1 | None => 0 end.
