(* ===== verification/HlsStoreSafe.v ===== *)
(** What the segment store guarantees: its bounds and accounts, that what it lists can be
    fetched, the numbers of its playlists, and the live edge. *)

From S2P Require Import Prelude Text HlsSegment HlsPlaylist HlsKeys HlsStore.
From Stdlib Require Import Sorted.

(** * Names *)

Section Store.
Context (prefix : string).

(** How the segmenter names segment [n]. *)
Definition file_name (n : Z) : string := prefix +:+ to_string n +:+ ".ts".

Lemma str_file_name n : str (file_name n) = str prefix ++ dec n ++ str ".ts".
Proof. unfold file_name. by rewrite !str_app. Qed.

Lemma file_name_inj a b : 0 <= a -> 0 <= b -> file_name a = file_name b -> a = b.
Proof.
  intros Ha Hb H. apply (f_equal str) in H. rewrite !str_file_name in H. apply app_inv_head in H.
  apply app_inv_tail in H. apply list_ascii_inj in H. by apply to_string_inj.
Qed.

Lemma rfind_nowhere p l : (forall n, begins p (drop n l) = false) -> rfind_text p l = None.
Proof.
  induction l as [|c l IH]; intros H; cbn [rfind_text].
  - by rewrite (H O : begins p [] = false).
  - rewrite IH by (intros n; exact (H (S n))). by rewrite (H O : begins p (c :: l) = false).
Qed.

Lemma rfind_last p pre l :
  begins p l = true -> (forall n, begins p (drop (S n) l) = false) ->
  rfind_text p (pre ++ l) = Some (length pre).
Proof.
  intros Hb Hl. induction pre as [|c pre IH]; cbn [app length rfind_text]; [|by rewrite IH].
  destruct l as [|c l]; cbn [rfind_text]; [by rewrite Hb|].
  rewrite rfind_nowhere by exact Hl. by rewrite Hb.
Qed.

(** A run of digits does not occur later in itself followed by something else. *)
Lemma digits_end l rest n :
  Forall digit l -> l <> [] -> Forall (fun c => ~ digit c) rest -> begins l (drop (S n) (l ++ rest)) = false.
Proof.
  intros Hd Hn Hr. destruct (begins l (drop (S n) (l ++ rest))) eqn:Hb; [|done].
  exfalso. apply begins_spec in Hb as [tl Hb].
  assert (Hx : (length l <= S n)%nat \/ (S n < length l)%nat) by lia. destruct Hx as [Hx|Hx].
  - rewrite drop_app_ge in Hb by lia. destruct l as [|c l]; [done|]. apply list.Forall_cons in Hd as [Hc _].
    apply (list.Forall_drop _ (S n - length (c :: l))) in Hr. rewrite Hb in Hr. cbn [app] in Hr.
    by apply list.Forall_cons in Hr as [Hr _].
  - rewrite drop_app_le in Hb by lia. assert (Hlen : length (drop (S n) l) = (length l - S n)%nat) by apply length_drop.
    destruct rest as [|c rest].
    + rewrite app_nil_r in Hb. apply (f_equal length) in Hb. rewrite length_app in Hb. lia.
    + assert (Hc : l !! (length l - S n)%nat = Some c).
      { assert (He : (drop (S n) l ++ c :: rest) !! (length l - S n)%nat = Some c)
          by (rewrite lookup_app_r, Hlen, Nat.sub_diag by lia; done).
        rewrite Hb, lookup_app_l in He by lia. done. }
      apply list.Forall_cons in Hr as [Hr _]. apply Hr. rewrite list.Forall_forall in Hd. apply Hd.
      by eapply list_elem_of_lookup_2.
Qed.

Lemma name_with_sequence_file x n :
  0 <= seg_sequence x -> 0 <= n -> seg_name x = file_name (seg_sequence x) ->
  name_with_sequence x n = file_name n.
Proof.
  intros Hx Hn Hf. unfold name_with_sequence. rewrite Hf, str_file_name.
  assert (Hd : Forall (fun c => ~ digit c) (str ".ts")).
  { change (str ".ts") with [Ascii.ascii_of_N 46; Ascii.ascii_of_N 116; Ascii.ascii_of_N 115].
    rewrite !list.Forall_cons. split_and!; [..|constructor]; by intros [v Hv]. }
  rewrite rfind_last.
  - apply list_ascii_inj. fold (str (file_name n)). rewrite str_file_name.
    rewrite String.list_ascii_of_string_of_list_ascii, take_app_length. f_equal. f_equal.
    by rewrite drop_app_add', drop_app_length.
  - apply begins_spec. by eexists.
  - intros k. apply digits_end; [by apply dec_digits|by apply (scan_dec _ Hx)|done].
Qed.

(** * What is held *)

Definition parts_total (ps : list Part) : Z := foldr (fun p n => part_size_bytes p + n) 0 ps.
Definition weight (x : Segment) : Z := size_bytes x + parts_total (seg_parts x).
Definition total (l : list Segment) : Z := foldr (fun x n => weight x + n) 0 l.
Definition held_parts (s : SegmentStore) : list Part := concat (map seg_parts (segments_ s)) ++ open_parts_ s.

Definition increasing (l : list Segment) : Prop := StronglySorted Z.lt (map seg_sequence l).
Definition named (l : list Segment) : Prop :=
  Forall (fun x => 0 <= seg_sequence x /\ seg_name x = file_name (seg_sequence x)) l.
Fixpoint chained (l : list Segment) : Prop :=
  match l with
  | a :: (b :: _) as rest => seg_sequence b = seg_sequence a + 1 /\ chained rest
  | _ => True
  end.

(** Both indexes hold exactly what is retained, and the byte count is that of it. *)
Record store_ok (s : SegmentStore) : Prop := {
  so_increasing : increasing (segments_ s);
  so_named : named (segments_ s);
  so_chained : repeat_last_segment_on_stall (store_config s) = true -> chained (segments_ s);
  so_by_name : forall name x, by_name_ s !! name = Some x <-> x ∈ segments_ s /\ seg_name x = name;
  so_part_names : NoDup (map part_name (held_parts s));
  so_parts : forall name p, parts_by_name_ s !! name = Some p <-> p ∈ held_parts s /\ part_name p = name;
  so_bytes : bytes_held_ s = total (segments_ s) + parts_total (open_parts_ s)
}.

Lemma parts_total_cons p ps : parts_total (p :: ps) = part_size_bytes p + parts_total ps.
Proof. done. Qed.
Lemma segments_total_cons x l : total (x :: l) = weight x + total l.
Proof. done. Qed.
Lemma parts_total_app a b : parts_total (a ++ b) = parts_total a + parts_total b.
Proof. induction a as [|p a IH]; [done|]. cbn [app]. rewrite !parts_total_cons. lia. Qed.
Lemma parts_total_nonneg a : 0 <= parts_total a.
Proof.
  induction a as [|p a IH]; [done|]. rewrite parts_total_cons. unfold part_size_bytes.
  pose proof (zlen_nonneg (part_data p)). lia.
Qed.
Lemma weight_nonneg x : 0 <= weight x.
Proof.
  unfold weight, size_bytes. pose proof (parts_total_nonneg (seg_parts x)). pose proof (zlen_nonneg (seg_data x)). lia.
Qed.
Lemma segments_total_app a b : total (a ++ b) = total a + total b.
Proof. induction a as [|x a IH]; [done|]. cbn [app]. rewrite !segments_total_cons. lia. Qed.
Lemma segments_total_nonneg a : 0 <= total a.
Proof. induction a as [|x a IH]; [done|]. rewrite segments_total_cons. pose proof (weight_nonneg x). lia. Qed.

Lemma sorted_app_inv (a b : list Segment) : increasing (a ++ b) ->
  increasing a /\ increasing b /\ (forall x y, x ∈ a -> y ∈ b -> seg_sequence x < seg_sequence y).
Proof.
  unfold increasing. induction a as [|x a IH]; cbn [app map]; intros H.
  { split_and!; [constructor|done|]. intros x y Hx. by apply elem_of_nil in Hx. }
  apply StronglySorted_inv in H as [H Hx]. destruct (IH H) as (Ha & Hb & Hab). split; [|split].
  - constructor; [done|]. rewrite map_app in Hx. by apply Forall_app in Hx as [Hx _].
  - done.
  - intros u v Hu Hv. apply elem_of_cons in Hu as [-> |Hu]; [|by apply Hab].
    rewrite list.Forall_forall in Hx. apply Hx, list_elem_of_fmap. exists v. split; [done|].
    apply elem_of_app. by right.
Qed.

Lemma sorted_app (a b : list Segment) :
  increasing a -> increasing b -> (forall x y, x ∈ a -> y ∈ b -> seg_sequence x < seg_sequence y) ->
  increasing (a ++ b).
Proof.
  unfold increasing. intros Ha Hb Hab. induction a as [|x a IH]; [done|]. cbn [app map] in *.
  apply StronglySorted_inv in Ha as [Ha Hx]. constructor.
  - apply IH; [done|]. intros u v Hu Hv. apply Hab; [|done]. apply elem_of_cons. by right.
  - rewrite map_app. apply Forall_app. split; [done|]. apply list.Forall_forall. intros n Hn.
    apply list_elem_of_fmap in Hn as (v & -> & Hv). apply Hab; [|done]. apply elem_of_cons. by left.
Qed.

Lemma increasing_NoDup l : increasing l -> NoDup (map seg_sequence l).
Proof.
  unfold increasing. generalize (map seg_sequence l). induction 1 as [|n ns _ IH Hn]; constructor; [|done].
  intros Hin. rewrite list.Forall_forall in Hn. apply Hn in Hin. lia.
Qed.

Lemma names_unique l x y : increasing l -> named l -> x ∈ l -> y ∈ l -> seg_name x = seg_name y -> x = y.
Proof.
  intros Hs Hn Hx Hy He. unfold named in Hn. rewrite list.Forall_forall in Hn.
  destruct (Hn x Hx) as [Hx0 Hxn], (Hn y Hy) as [Hy0 Hyn]. rewrite Hxn, Hyn in He.
  apply file_name_inj in He; [|done|done]. apply increasing_NoDup in Hs.
  apply list_elem_of_lookup in Hx as [i Hi], Hy as [j Hj].
  assert (i = j); [|congruence]. eapply (NoDup_lookup (map seg_sequence l)); [done| |].
  - rewrite (list_lookup_fmap seg_sequence l), Hi. reflexivity.
  - rewrite (list_lookup_fmap seg_sequence l), Hj. cbn. by rewrite He.
Qed.

Lemma chained_app_inv a b : chained (a ++ b) -> chained a /\ chained b.
Proof.
  induction a as [|x a IH]; [done|]. cbn [app]. intros H.
  destruct a as [|y a]; cbn [app chained] in *; [by destruct b as [|z b]; [|destruct H]|].
  destruct H as [H1 H2]. destruct (IH H2). done.
Qed.

Lemma chained_snoc l x :
  chained l -> (forall back, list.last l = Some back -> seg_sequence x = seg_sequence back + 1) -> chained (l ++ [x]).
Proof.
  induction l as [|a l IH]; [done|]. intros H Hl. destruct l as [|b l]; cbn [app chained] in *.
  - split; [|done]. by apply Hl.
  - destruct H as [H1 H2]. split; [done|]. by apply IH.
Qed.

Lemma chained_seqZ l x : chained (x :: l) -> map seg_sequence (x :: l) = seqZ (seg_sequence x) (zlen (x :: l)).
Proof.
  revert x. induction l as [|y l IH]; intros x H; [by rewrite seqZ_cons by done|].
  destruct H as [Hy H]. rewrite zlen_cons. rewrite seqZ_cons by zlia. cbn [map]. f_equal.
  specialize (IH y H). cbn [map] in IH. rewrite IH, Hy. f_equal; lia.
Qed.

(** * Eviction *)

(** What is left after the segments [gone] went from the front. *)
Record evicts (gone : list Segment) (s s' : SegmentStore) : Prop := {
  ev_segments : segments_ s = gone ++ segments_ s';
  ev_discontinuities : discontinuity_sequence_ s' = discontinuity_sequence_ s + discontinuities gone;
  ev_config : store_config s' = store_config s;
  ev_open : open_parts_ s' = open_parts_ s;
  ev_ended : ended_ s' = ended_ s;
  ev_fallback : fallback_active_ s' = fallback_active_ s;
  ev_at : last_segment_added_at_ s' = last_segment_added_at_ s
}.

Lemma discontinuities_from l : forall n,
  fold_left (fun n segment => n + if seg_discontinuity segment then 1 else 0) l n = n + discontinuities l.
Proof.
  unfold discontinuities. induction l as [|x l IH]; intros n; cbn [fold_left]; [lia|].
  rewrite IH, (IH (0 + _)). lia.
Qed.
Lemma discontinuities_cons x l :
  discontinuities (x :: l) = (if seg_discontinuity x then 1 else 0) + discontinuities l.
Proof. unfold discontinuities at 1. cbn [fold_left]. rewrite discontinuities_from. lia. Qed.
Lemma discontinuities_app a b : discontinuities (a ++ b) = discontinuities a + discontinuities b.
Proof. induction a as [|x a IH]; [done|]. cbn [app]. rewrite !discontinuities_cons, IH. lia. Qed.

Lemma evicts_refl s : evicts [] s s.
Proof. split; try done. unfold discontinuities. cbn. lia. Qed.
Lemma evicts_trans g1 g2 s1 s2 s3 : evicts g1 s1 s2 -> evicts g2 s2 s3 -> evicts (g1 ++ g2) s1 s3.
Proof.
  intros [A1 A2 A3 A4 A5 A6 A7] [B1 B2 B3 B4 B5 B6 B7]. split; try congruence.
  - by rewrite A1, B1, app_assoc.
  - rewrite B2, A2, discontinuities_app. lia.
Qed.

Definition forget_parts (ps : list Part) (m : gmap string Part) : gmap string Part :=
  fold_left (fun m p => delete (part_name p) m) ps m.

Lemma forget_parts_lookup ps : forall m name,
  forget_parts ps m !! name = if bool_decide (name ∈ map part_name ps) then None else m !! name.
Proof.
  induction ps as [|p ps IH]; intros m name; [done|]. cbn [map]. unfold forget_parts. cbn [fold_left].
  fold (forget_parts ps (delete (part_name p) m)). rewrite IH.
  destruct (decide (name = part_name p)) as [-> |Hn].
  - rewrite lookup_delete_eq. rewrite (bool_decide_eq_true_2 (_ ∈ part_name p :: _)) by (apply elem_of_cons; by left).
    by destruct (bool_decide _).
  - rewrite lookup_delete_ne by done. rewrite (bool_decide_ext (name ∈ part_name p :: map part_name ps)
      (name ∈ map part_name ps)); [done|]. rewrite elem_of_cons. naive_solver.
Qed.

Lemma drop_parts_fields ps : forall s, parts_total ps <= bytes_held_ s ->
  exists t, fold_left drop_part ps s =
    mkSegmentStore (store_config s) (segments_ s) (by_name_ s) (open_parts_ s) (forget_parts ps (parts_by_name_ s))
      (bytes_held_ s - parts_total ps) (discontinuity_sequence_ s) (ended_ s) (fallback_active_ s)
      (last_segment_added_at_ s) t (notifier_ s).
Proof.
  induction ps as [|p ps IH]; intros s H.
  { exists (stats_ s). cbn. rewrite Z.sub_0_r. by destruct s. }
  rewrite parts_total_cons in *. pose proof (parts_total_nonneg ps).
  assert (Hb : bytes_held_ (drop_part s p) = bytes_held_ s - part_size_bytes p) by (cbn; lia).
  destruct (IH (drop_part s p)) as [t Ht]; [rewrite Hb; lia|].
  exists t. cbn [fold_left]. rewrite Ht, Hb. cbn. f_equal. lia.
Qed.

Lemma drop_front_ok s front rest :
  store_ok s -> segments_ s = front :: rest ->
  store_ok (drop_front s front rest) /\ evicts [front] s (drop_front s front rest).
Proof.
  intros [Hi Hn Hc Hb Hp1 Hp2 Hz] Hs. unfold held_parts in *. rewrite Hs in *. rewrite segments_total_cons in Hz.
  unfold weight in Hz. pose proof (segments_total_nonneg rest). pose proof (parts_total_nonneg (open_parts_ s)).
  pose proof (parts_total_nonneg (seg_parts front)).
  assert (Hf : bytes_held_ (forget_front s front) = bytes_held_ s - size_bytes front) by (cbn; lia).
  unfold drop_front. destruct (drop_parts_fields (seg_parts front) (forget_front s front)) as [t ->]; [rewrite Hf; lia|].
  rewrite Hf. cbn [map concat] in *. rewrite <- app_assoc in *. rewrite map_app in Hp1.
  apply list.NoDup_app in Hp1 as (Hp0 & Hpd & Hp1). split; split; unfold held_parts;
    cbn [segments_ store_config by_name_ parts_by_name_ open_parts_ bytes_held_ discontinuity_sequence_
         ended_ fallback_active_ last_segment_added_at_ pop_front forget_front] in *; try done.
  - by apply (sorted_app_inv [front]) in Hi as (_ & Hi & _).
  - by apply list.Forall_cons in Hn as [_ Hn].
  - intros Hr. by apply (chained_app_inv [front]) in Hc as [_ Hc].
  - intros name x. destruct (decide (name = seg_name front)) as [-> |Hne].
    + rewrite lookup_delete_eq. split; [done|]. intros [Hx He]. exfalso.
      assert (x = front).
      { eapply names_unique; [exact Hi|exact Hn|apply elem_of_cons; by right|apply elem_of_cons; by left|done]. }
      subst x. apply (sorted_app_inv [front]) in Hi as (_ & _ & Hi).
      specialize (Hi front front ltac:(apply elem_of_cons; by left) Hx). lia.
    + rewrite lookup_delete_ne by done. rewrite Hb, elem_of_cons. naive_solver.
  - intros name p. rewrite forget_parts_lookup. case_bool_decide as Hin.
    + split; [done|]. intros [Hx <-]. exfalso. apply (Hpd _ Hin). apply list_elem_of_fmap. by exists p.
    + rewrite Hp2, elem_of_app. split; [|naive_solver]. intros [[Hx|Hx] <-]; [|done].
      exfalso. apply Hin, list_elem_of_fmap. by exists p.
  - lia.
Qed.

Lemma evict_count_spec : forall held s, store_ok s -> segments_ s = held ->
  exists gone, evicts gone s (evict_count held s) /\ store_ok (evict_count held s) /\
    (0 <= max_retained (store_config s) -> zlen (segments_ (evict_count held s)) <= max_retained (store_config s)) /\
    (1 <= max_retained (store_config s) -> held <> [] -> segments_ (evict_count held s) <> []).
Proof.
  induction held as [|front rest IH]; intros s Hok Hs.
  { exists []. cbn [evict_count]. rewrite Hs. split_and!; [apply evicts_refl|done|by intros|done]. }
  cbn [evict_count]. destruct (Z.ltb_spec (max_retained (store_config s)) (zlen (front :: rest))) as [Hl|Hl].
  - destruct (drop_front_ok s front rest Hok Hs) as [Hok1 He1]. pose proof (ev_config _ _ _ He1) as Hc.
    destruct (IH (drop_front s front rest) Hok1 eq_refl) as (gone & He & Hok2 & Hb & Hn). rewrite Hc in *.
    exists ([front] ++ gone). split; [by eapply evicts_trans|]. split; [done|]. split; [done|].
    intros H1 _. apply Hn; [done|]. intros ->. change (zlen [front]) with 1 in Hl. lia.
  - exists []. rewrite Hs. split_and!; [apply evicts_refl|done|by intros|done].
Qed.

Lemma evict_bytes_spec : forall held s, store_ok s -> segments_ s = held ->
  exists gone, evicts gone s (evict_bytes held s) /\ store_ok (evict_bytes held s) /\
    (bytes_held_ (evict_bytes held s) <= max_total_bytes (store_config s) \/
     zlen (segments_ (evict_bytes held s)) <= 1) /\
    (held <> [] -> segments_ (evict_bytes held s) <> []).
Proof.
  induction held as [|front rest IH]; intros s Hok Hs.
  { exists []. cbn [evict_bytes]. rewrite Hs. split_and!; [apply evicts_refl|done| |done].
    right. change (zlen (@nil Segment)) with 0. lia. }
  cbn [evict_bytes]. destruct (Z.ltb_spec (max_total_bytes (store_config s)) (bytes_held_ s)) as [Hm|Hm]; cbn [andb].
  2: { exists []. rewrite Hs. split_and!; [apply evicts_refl|done|by left|done]. }
  destruct (Z.ltb_spec 1 (zlen (front :: rest))) as [Hl|Hl].
  2: { exists []. rewrite Hs. split_and!; [apply evicts_refl|done|by right|done]. }
  destruct (drop_front_ok s front rest Hok Hs) as [Hok1 He1]. pose proof (ev_config _ _ _ He1) as Hc.
  destruct (IH (drop_front s front rest) Hok1 eq_refl) as (gone & He & Hok2 & Hb & Hn). rewrite Hc in *.
  exists ([front] ++ gone). split; [by eapply evicts_trans|]. split; [done|]. split; [done|].
  intros _. apply Hn. intros ->. change (zlen [front]) with 1 in Hl. lia.
Qed.

(** Its bounds hold after every append: the number of segments, and the bytes unless one
    segment alone exceeds them. *)
Definition bounded (s : SegmentStore) : Prop :=
  zlen (segments_ s) <= max_retained (store_config s) /\
  (total (segments_ s) <= max_total_bytes (store_config s) \/ zlen (segments_ s) <= 1).

Lemma evict_locked_spec s :
  store_ok s -> 1 <= max_retained (store_config s) -> segments_ s <> [] ->
  exists gone, evicts gone s (evict_locked s) /\ store_ok (evict_locked s) /\
    segments_ (evict_locked s) <> [] /\ bounded (evict_locked s).
Proof.
  intros Hok Hm Hn. unfold evict_locked.
  destruct (evict_count_spec (segments_ s) s Hok eq_refl) as (g1 & E1 & O1 & B1 & N1).
  set (s1 := evict_count (segments_ s) s) in *.
  destruct (evict_bytes_spec (segments_ s1) s1 O1 eq_refl) as (g2 & E2 & O2 & B2 & N2).
  set (s2 := evict_bytes (segments_ s1) s1) in *. exists (g1 ++ g2).
  split; [by eapply evicts_trans|]. split; [done|]. split; [by apply N2, N1|].
  unfold bounded. rewrite (ev_config _ _ _ E2), (ev_config _ _ _ E1) in *.
  pose proof (f_equal zlen (ev_segments _ _ _ E2)) as Hz. rewrite zlen_app in Hz. pose proof (zlen_nonneg g2).
  split; [lia|]. destruct B2 as [B2|B2]; [|by right]. left. rewrite (so_bytes _ O2) in B2.
  pose proof (parts_total_nonneg (open_parts_ s2)). lia.
Qed.

(** * Appending *)

(** A segment that may come next. *)
Record next_ok (s : SegmentStore) (x : Segment) : Prop := {
  nx_number : 0 <= seg_sequence x;
  nx_name : seg_name x = file_name (seg_sequence x);
  nx_after : forall back, list.last (segments_ s) = Some back -> seg_sequence back < seg_sequence x;
  nx_chained : repeat_last_segment_on_stall (store_config s) = true ->
    forall back, list.last (segments_ s) = Some back -> seg_sequence x = seg_sequence back + 1
}.

Lemma last_greatest l back x : increasing l -> list.last l = Some back -> x ∈ l -> seg_sequence x <= seg_sequence back.
Proof.
  intros Hi Hl Hx. apply last_Some in Hl as [l' ->]. apply elem_of_app in Hx as [Hx|Hx].
  - apply sorted_app_inv in Hi as (_ & _ & Hi). specialize (Hi x back Hx ltac:(apply elem_of_cons; by left)). lia.
  - apply list_elem_of_singleton in Hx as ->. lia.
Qed.

Lemma next_increasing s x : store_ok s -> next_ok s x -> increasing (segments_ s ++ [x]).
Proof.
  intros Hok Hx. apply sorted_app; [apply Hok|repeat constructor|]. intros u v Hu Hv.
  apply list_elem_of_singleton in Hv as ->. destruct (list.last (segments_ s)) as [back|] eqn:Hl.
  - pose proof (last_greatest _ _ _ (so_increasing _ Hok) Hl Hu). pose proof (nx_after _ _ Hx back Hl). lia.
  - apply last_None in Hl. rewrite Hl in Hu. by apply elem_of_nil in Hu.
Qed.

Lemma emplace_lookup {A} (m : gmap string A) name v k :
  m !! name = None -> emplace name v m !! k = if bool_decide (k = name) then Some v else m !! k.
Proof.
  intros Hn. unfold emplace. rewrite Hn. case_bool_decide as Hk; [subst; by rewrite lookup_insert_eq|].
  by rewrite lookup_insert_ne.
Qed.

(** A segment arrives without parts, or takes those that were open. *)
Definition parts_ok (s : SegmentStore) (x : Segment) : Prop :=
  seg_parts x = [] \/ (cfg_low_latency (store_config s) = true /\ open_parts_ s <> []).

(** Which of the open parts go to the new segment: all of them or none. *)
Record hands_over (s : SegmentStore) (x : Segment) (s1 : SegmentStore) (x1 : Segment) : Prop := {
  ho_parts : seg_parts x1 ++ open_parts_ s1 = open_parts_ s;
  ho_store : s1 = s \/ s1 = clear_open_parts s;
  ho_segment : x1 = x \/ x1 = set_parts x (open_parts_ s)
}.

Lemma keeps_parts s x : seg_parts x = [] -> hands_over s x s x.
Proof. intros Hx. split; [by rewrite Hx|by left|by left]. Qed.

Lemma take_parts_spec s x : parts_ok s x ->
  exists s1 x1, take_parts s x = (s1, x1) /\ hands_over s x s1 x1 /\
    (cfg_low_latency (store_config s) = true -> open_parts_ s1 = []).
Proof.
  intros Hp. unfold take_parts. destruct (cfg_low_latency (store_config s)) eqn:Hl; cbn [andb].
  - destruct (open_parts_ s) as [|p ps] eqn:Ho; cbn [negb].
    + exists s, x. destruct Hp as [Hp|[_ Hp] ]; [|done]. split_and!; [done|by apply keeps_parts|done].
    + exists (clear_open_parts s), (set_parts x (p :: ps)). split; [done|]. split; [|done].
      split; [cbn; by rewrite app_nil_r|by right|right; by rewrite Ho].
  - exists s, x. destruct Hp as [Hp|[Hp _] ]; [|congruence]. split_and!; [done|by apply keeps_parts|done].
Qed.

Lemma push_segment_ok s x fallback at_time s1 x1 :
  store_ok s -> next_ok s x -> hands_over s x s1 x1 -> store_ok (push_segment s1 x1 fallback at_time).
Proof.
  intros Hok Hx [Hparts Hs Hxx]. pose proof (next_increasing s x Hok Hx) as Hinc.
  destruct Hok as [Hi Hn Hc Hb Hp1 Hp2 Hz], Hx as [X1 X2 X3 X4].
  assert (Hf : store_config s1 = store_config s /\ segments_ s1 = segments_ s /\ by_name_ s1 = by_name_ s /\
    parts_by_name_ s1 = parts_by_name_ s /\ bytes_held_ s1 = bytes_held_ s) by (destruct Hs as [-> | ->]; done).
  destruct Hf as (F1 & F2 & F3 & F4 & F5).
  assert (Hg : seg_sequence x1 = seg_sequence x /\ seg_name x1 = seg_name x /\ size_bytes x1 = size_bytes x)
    by (destruct Hxx as [-> | ->]; done).
  destruct Hg as (G1 & G2 & G3).
  assert (Hmap : map seg_sequence (segments_ s ++ [x1]) = map seg_sequence (segments_ s ++ [x]))
    by (rewrite !map_app; cbn; by rewrite G1).
  assert (Hheld : held_parts (push_segment s1 x1 fallback at_time) = held_parts s).
  { unfold held_parts. cbn [push_segment segments_ open_parts_]. rewrite F2, map_app, concat_app. cbn [map concat].
    by rewrite app_nil_r, <- app_assoc, Hparts. }
  assert (Hinc1 : increasing (segments_ s ++ [x1])) by (unfold increasing; by rewrite Hmap).
  split; rewrite ?Hheld; cbn [push_segment segments_ store_config by_name_ parts_by_name_ open_parts_ bytes_held_];
    rewrite ?F1, ?F2, ?F3, ?F4, ?F5; try done.
  - unfold named. apply Forall_app. split; [done|]. apply Forall_singleton. by rewrite G1, G2.
  - intros Hr. apply chained_snoc; [by apply Hc|]. rewrite G1. by apply X4.
  - assert (Hfresh : by_name_ s !! seg_name x1 = None).
    { destruct (by_name_ s !! seg_name x1) as [y|] eqn:Hy; [|done]. apply Hb in Hy as [Hin Hy]. exfalso.
      apply sorted_app_inv in Hinc as (_ & _ & Hlt). specialize (Hlt y x Hin ltac:(apply elem_of_cons; by left)).
      unfold named in Hn. rewrite list.Forall_forall in Hn. destruct (Hn y Hin) as [Hy0 Hyn].
      rewrite Hyn, G2, X2 in Hy. apply file_name_inj in Hy; [lia|done|done]. }
    intros name y. rewrite emplace_lookup by done. rewrite elem_of_app, list_elem_of_singleton.
    case_bool_decide as Hk.
    + subst name. split; [intros [= <-]; by auto|]. intros [[Hy|Hy] He]; [|by subst].
      assert (by_name_ s !! seg_name x1 = Some y) by (by apply Hb). congruence.
    + rewrite Hb. naive_solver.
  - rewrite segments_total_app, segments_total_cons. change (total []) with 0. rewrite Hz, G3, <- Hparts, parts_total_app.
    unfold weight. rewrite G3. lia.
Qed.

(** The log of what has been published only grows, and what has left it is counted. *)
Definition advances (s s' : SegmentStore) : Prop :=
  store_config s' = store_config s /\
  exists new gone, segments_ s ++ new = gone ++ segments_ s' /\
    discontinuity_sequence_ s' = discontinuity_sequence_ s + discontinuities gone /\
    increasing (segments_ s ++ new) /\ (segments_ s ++ new <> [] -> segments_ s' <> []).

Lemma advances_still s s' :
  store_ok s -> store_config s' = store_config s -> segments_ s' = segments_ s ->
  discontinuity_sequence_ s' = discontinuity_sequence_ s -> advances s s'.
Proof.
  intros Hok H0 H1 H2. split; [done|]. exists [], []. rewrite app_nil_r. split_and!; [done|rewrite H2; unfold discontinuities; cbn; lia|apply Hok|by rewrite H1].
Qed.

Lemma increasing_glue a l b : l <> [] -> increasing (a ++ l) -> increasing (l ++ b) -> increasing (a ++ l ++ b).
Proof.
  intros Hl H1 H2. apply sorted_app_inv in H1 as (Ha & Hl1 & Hal). pose proof H2 as H2'.
  apply sorted_app_inv in H2' as (_ & _ & Hlb). apply sorted_app; [done|done|].
  intros x y Hx Hy. apply elem_of_app in Hy as [Hy|Hy]; [by apply Hal|].
  destruct l as [|z l]; [done|]. etransitivity; [apply Hal, elem_of_cons; [done|by left]|].
  apply Hlb; [apply elem_of_cons; by left|done].
Qed.

Lemma advances_trans s1 s2 s3 : advances s1 s2 -> advances s2 s3 -> advances s1 s3.
Proof.
  intros (C1 & n1 & g1 & A1 & A2 & A3 & A4) (C2 & n2 & g2 & B1 & B2 & B3 & B4).
  split; [congruence|]. exists (n1 ++ n2), (g1 ++ g2). split_and!.
  - by rewrite app_assoc, A1, <- app_assoc, B1, app_assoc.
  - rewrite B2, A2, discontinuities_app. lia.
  - rewrite app_assoc. destruct (decide (segments_ s2 = [])) as [He|He].
    + assert (segments_ s1 ++ n1 = []) as -> by (destruct (decide (segments_ s1 ++ n1 = [])); [done|by destruct (A4 ltac:(done))]).
      by rewrite He in B3.
    + rewrite A1, <- app_assoc. apply increasing_glue; [done|by rewrite <- A1|done].
  - intros Hn. apply B4. intros He. apply app_eq_nil in He as [He ->]. apply Hn. rewrite app_nil_r.
    destruct (decide (segments_ s1 ++ n1 = [])) as [Hx|Hx]; [done|by destruct (A4 Hx)].
Qed.

Lemma append_locked_spec s x fallback at_time s1 x1 :
  store_ok s -> 1 <= max_retained (store_config s) -> next_ok s x -> hands_over s x s1 x1 ->
  let s' := append_locked s1 x1 fallback at_time in
  store_ok s' /\ bounded s' /\ advances s s' /\ bytes_held (stats_ s') = bytes_held_ s' /\
  segments_ s' <> [] /\ open_parts_ s' = open_parts_ s1 /\ ended_ s' = ended_ s /\
  list.last (segments_ s') = Some x1 /\ fallback_active_ s' = fallback.
Proof.
  intros Hok Hm Hx Ht. pose proof (push_segment_ok s x fallback at_time s1 x1 Hok Hx Ht) as Hpush.
  pose proof (next_increasing s x Hok Hx) as Hinc. destruct Ht as [_ Hs Hxx].
  assert (Hf : store_config s1 = store_config s /\ segments_ s1 = segments_ s /\ ended_ s1 = ended_ s /\
    discontinuity_sequence_ s1 = discontinuity_sequence_ s)
    by (destruct Hs as [-> | ->]; done). destruct Hf as (F1 & F2 & F3 & F4).
  set (p := push_segment s1 x1 fallback at_time) in *.
  destruct (evict_locked_spec p Hpush) as (gone & [E1 E2 E3 E4 E5 E6 E7] & Ho & Hne & Hb).
  { subst p. cbn. by rewrite F1. } { subst p. cbn. by destruct (segments_ s1). }
  assert (Hlast : list.last (segments_ (evict_locked p)) = Some x1).
  { assert (Hl : list.last (segments_ p) = Some x1) by (subst p; cbn; by rewrite last_snoc).
    rewrite E1, last_app in Hl. destruct (list.last (segments_ (evict_locked p))) eqn:Hq; [done|].
    by apply last_None in Hq. }
  unfold append_locked. fold p. cbv zeta. split_and!; try done.
  - destruct Ho. by split.
  - split; [cbn in *; congruence|]. exists [x1], gone. cbn [with_stats segments_ discontinuity_sequence_].
    rewrite <- E1. subst p. cbn [push_segment segments_ discontinuity_sequence_] in *. split_and!.
    + by rewrite F2.
    + by rewrite E2, F4.
    + unfold increasing in *. rewrite map_app in *. cbn in *. by destruct Hxx as [-> | ->].
    + done.
  - cbn [with_stats ended_]. rewrite E5. subst p. cbn. done.
Qed.

(** * Operations *)

Definition enc_ok (encryptor : option SegmentEncryptor) : Prop :=
  match encryptor with Some e => key_store e | None => True end.

(** What a producer may hand to the store: segments named by their number, that go up
    unless the store renumbers them, and parts of new names. *)
Record arrives (s : SegmentStore) (x : Segment) : Prop := {
  ar_number : 0 <= seg_sequence x;
  ar_name : seg_name x = file_name (seg_sequence x);
  ar_after : repeat_last_segment_on_stall (store_config s) = false ->
    forall back, list.last (segments_ s) = Some back -> seg_sequence back < seg_sequence x;
  ar_parts : parts_ok s x
}.
Definition fresh_part (s : SegmentStore) (p : Part) : Prop := part_name p ∉ map part_name (held_parts s).

Lemma last_in (s : SegmentStore) back : list.last (segments_ s) = Some back -> back ∈ segments_ s.
Proof. intros H. apply last_Some in H as [l ->]. apply elem_of_app. right. apply elem_of_cons. by left. Qed.
Lemma last_named s back : store_ok s -> list.last (segments_ s) = Some back ->
  0 <= seg_sequence back /\ seg_name back = file_name (seg_sequence back).
Proof.
  intros Hok Hl. pose proof (so_named _ Hok) as Hn. unfold named in Hn. rewrite list.Forall_forall in Hn.
  by apply Hn, last_in.
Qed.

(** A copy of [x] under the number after the last one. *)
Lemma copy_next s x back force :
  store_ok s -> 0 <= seg_sequence x -> seg_name x = file_name (seg_sequence x) ->
  list.last (segments_ s) = Some back ->
  next_ok s (copy_with_sequence x (seg_sequence back + 1) force).
Proof.
  intros Hok Hx Hxn Hl. destruct (last_named s back Hok Hl) as [H0 Hn]. split; cbn.
  - lia.
  - apply name_with_sequence_file; [done|lia|done].
  - intros b Hb. rewrite Hl in Hb. injection Hb as <-. lia.
  - intros _ b Hb. rewrite Hl in Hb. by injection Hb as <-.
Qed.

Lemma renumber_spec s x : store_ok s -> arrives s x ->
  exists x', renumber s x = Ok x' /\ next_ok s x' /\ parts_ok s x' /\
    (repeat_last_segment_on_stall (store_config s) = false -> x' = x).
Proof.
  intros Hok [A1 A2 A3 A4]. unfold renumber.
  destruct (repeat_last_segment_on_stall (store_config s)) eqn:Hr; cbn [andb].
  2: { exists x. split_and!; try done. split; try done; [by apply A3|congruence]. }
  destruct (list.last (segments_ s)) as [back|] eqn:Hl.
  2: { pose proof Hl as Hl'. apply last_None in Hl'. rewrite Hl'. cbn [negb]. exists x. split_and!; try done.
       split; try done; rewrite Hl; by intros. }
  destruct (segments_ s) eqn:Hs; [by cbn in Hl|]. cbn [negb]. rewrite <- Hs in *.
  pose proof (copy_next s x back (fallback_active_ s && negb (seamless_fallback_recovery (store_config s)))
    Hok A1 A2 Hl) as Hcopy.
  destruct (Z.eqb_spec (seg_sequence x) (seg_sequence back + 1)) as [He|He]; cbn [negb orb].
  2: { eexists. split; [reflexivity|]. split_and!; [exact Hcopy|by left|done]. }
  destruct (fallback_active_ s).
  { eexists. split; [reflexivity|]. split_and!; [exact Hcopy|by left|done]. }
  exists x. split_and!; try done. split; try done.
  - intros b Hb. rewrite Hl in Hb. injection Hb as <-. lia.
  - intros _ b Hb. rewrite Hl in Hb. by injection Hb as <-.
Qed.

Section Operations.
Context (evp : list byte -> list byte -> list byte -> EvpPass).

Lemma aes_answers plain key iv : exists r, aes_128_cbc_encrypt evp plain key iv = r /\ returns r.
Proof. unfold aes_128_cbc_encrypt. destruct (evp key iv plain); by eexists. Qed.

Lemma current_key_store e m : key_store e ->
  exists e' key, current_key_locked e m = Ok (e', key) /\ key_store e'.
Proof. intros He. destruct (current_key_spec e m He) as (key & H1 & _ & H2). by eexists _, key. Qed.

Lemma encrypt_segment_spec e m plain sequence : key_store e ->
  exists e' r, encrypt_segment evp e m plain sequence = Ok (e', r) /\ returns r /\ key_store e'.
Proof.
  intros He. unfold encrypt_segment. destruct (enabled e); cbn [negb]; [|by exists e, (Ok plain)].
  destruct (current_key_store e m He) as (e' & key & -> & H2). cbn [rbind].
  destruct (aes_answers plain (key_bytes key) (iv_from_sequence sequence)) as (r & -> & Hr). by eexists _, _.
Qed.

Lemma protect_segment_spec encryptor m1 m2 x : enc_ok encryptor ->
  exists encryptor' x', protect_segment evp encryptor m1 m2 x = Ok (encryptor', x') /\ enc_ok encryptor' /\
    seg_sequence x' = seg_sequence x /\ seg_name x' = seg_name x /\ seg_parts x' = seg_parts x /\
    seg_duration x' = seg_duration x /\ seg_discontinuity x' = seg_discontinuity x.
Proof.
  intros He. destruct encryptor as [e|]; cbn [protect_segment]; [|by exists None, x].
  destruct (enabled e) eqn:Hn; cbn [negb]; [|by exists (Some e), x].
  destruct (encrypt_segment_spec e m1 (seg_data x) (seg_sequence x) He) as (e1 & r & -> & Hr & H1). cbn [rbind].
  destruct r as [data|err| |]; try done; [|by exists (Some e1), x]. unfold key_info.
  destruct (enabled e1); cbn [negb]; [|by eexists _, _].
  destruct (current_key_store e1 m2 H1) as (e2 & key & -> & H2). by eexists _, _.
Qed.

Lemma protect_part_spec encryptor m p : enc_ok encryptor ->
  exists encryptor' p', protect_part evp encryptor m p = Ok (encryptor', p') /\ enc_ok encryptor' /\
    part_name p' = part_name p /\ part_segment_sequence p' = part_segment_sequence p /\
    part_index p' = part_index p.
Proof.
  intros He. destruct encryptor as [e|]; cbn [protect_part]; [|by exists None, p].
  destruct (enabled e) eqn:Hn; cbn [negb]; [|by exists (Some e), p]. unfold encrypt_part.
  destruct (encrypt_segment_spec e m (part_data p) (part_segment_sequence p) He) as (e1 & r & -> & Hr & H1).
  cbn [rbind]. destruct r as [data|err| |]; try done; by eexists _, _.
Qed.

(** What every operation keeps. *)
Record sound (s : SegmentStore) (encryptor : option SegmentEncryptor) : Prop := {
  sd_ok : store_ok s;
  sd_bounded : bounded s;
  sd_stats : bytes_held (stats_ s) = bytes_held_ s;
  sd_retained : 1 <= max_retained (store_config s);
  sd_enc : enc_ok encryptor;
  sd_discontinuities : 0 <= discontinuity_sequence_ s
}.

Lemma discontinuities_nonneg l : 0 <= discontinuities l.
Proof.
  induction l as [|x l IH]; [unfold discontinuities; cbn; lia|]. rewrite discontinuities_cons.
  destruct (seg_discontinuity x); lia.
Qed.
Lemma advances_count s s' : advances s s' -> 0 <= discontinuity_sequence_ s -> 0 <= discontinuity_sequence_ s'.
Proof. intros (_ & new & gone & _ & -> & _) H. pose proof (discontinuities_nonneg gone). lia. Qed.

Lemma add_segment_spec s encryptor x m1 m2 at_time :
  sound s encryptor -> arrives s x ->
  exists s' encryptor' events, add_segment evp s encryptor x m1 m2 at_time = Ok (s', encryptor', events) /\
    sound s' encryptor' /\ advances s s' /\ ended_ s' = ended_ s /\ segments_ s' <> [] /\
    (cfg_low_latency (store_config s) = true -> open_parts_ s' = []) /\
    exists x', list.last (segments_ s') = Some x' /\ seg_parts x' ++ open_parts_ s' = open_parts_ s /\
      (repeat_last_segment_on_stall (store_config s) = false -> seg_sequence x' = seg_sequence x).
Proof.
  intros [Hok Hb Hst Hm He Hd] Hx. unfold add_segment.
  destruct (protect_segment_spec encryptor m1 m2 x He) as (e1 & x1 & -> & He1 & P1 & P2 & P3 & _). cbn [rbind].
  assert (Hx1 : arrives s x1).
  { destruct Hx as [A1 A2 A3 A4]. split; [congruence|congruence| |by unfold parts_ok; rewrite P3].
    intros Hr back Hl. rewrite P1. by apply A3. }
  destruct (renumber_spec s x1 Hok Hx1) as (x2 & -> & Hn2 & Hp2 & Hsame). cbn [rbind].
  destruct (take_parts_spec s x2 Hp2) as (s3 & x3 & Ht & Hh & Ho). rewrite Ht.
  destruct (append_locked_spec s x2 false at_time s3 x3 Hok Hm Hn2 Hh) as (R1 & R2 & R3 & R4 & R5 & R6 & R7 & R8 & _).
  eexists _, _, _. split; [reflexivity|]. split; [split; try done; [by rewrite (proj1 R3)|by eapply advances_count]|].
  split_and!; try done. { intros Hl. rewrite R6. by apply Ho. }
  exists x3. split; [done|]. destruct Hh as [Hh1 _ Hh3]. split; [by rewrite R6|]. intros Hr.
  rewrite (Hsame Hr) in Hh3. by destruct Hh3 as [-> | ->].
Qed.

Lemma add_part_spec s encryptor p m :
  sound s encryptor -> fresh_part s p ->
  exists s' encryptor' events, add_part evp s encryptor p m = Ok (s', encryptor', events) /\
    sound s' encryptor' /\ advances s s' /\ segments_ s' = segments_ s /\ ended_ s' = ended_ s.
Proof.
  intros Hs Hf. unfold add_part. destruct (cfg_low_latency (store_config s)) eqn:Hl; cbn [negb].
  2: { exists s, encryptor, []. split_and!; try done. apply advances_still; by try apply Hs. }
  destruct Hs as [Hok Hb Hst Hm He Hd].
  destruct (protect_part_spec encryptor m p He) as (e1 & p1 & -> & He1 & P1 & _). cbn [rbind].
  eexists _, _, _. split; [reflexivity|]. split; [|split_and!; try done; by apply advances_still].
  destruct Hok as [Hi Hn Hc Hbn Hp1 Hp2 Hz].
  assert (Hheld : held_parts (push_part s p1) = held_parts s ++ [p1])
    by (unfold held_parts; cbn; by rewrite app_assoc).
  split; try done. split; try done; rewrite ?Hheld.
  - rewrite map_app. apply list.NoDup_app. split_and!; [done| |apply NoDup_singleton].
    intros n Hn1 Hn2. apply list_elem_of_singleton in Hn2 as ->. rewrite P1 in Hn1. by apply Hf.
  - assert (Hfresh : parts_by_name_ s !! part_name p1 = None).
    { destruct (parts_by_name_ s !! part_name p1) as [q|] eqn:Hq; [|done]. apply Hp2 in Hq as [Hin Hq].
      exfalso. apply Hf. rewrite <- P1, <- Hq. apply list_elem_of_fmap. by exists q. }
    intros name q. cbn [push_part parts_by_name_]. rewrite emplace_lookup by done.
    rewrite elem_of_app, list_elem_of_singleton. case_bool_decide as Hk.
    + subst name. split; [intros [= <-]; by auto|]. intros [[Hq|Hq] Hx]; [|by subst].
      assert (parts_by_name_ s !! part_name p1 = Some q) by (by apply Hp2). congruence.
    + rewrite Hp2. naive_solver.
  - cbn [push_part bytes_held_ segments_ open_parts_]. rewrite Hz, parts_total_app, parts_total_cons.
    change (parts_total []) with 0. lia.
Qed.

End Operations.

Lemma backfill_spec count : forall s times encryptor,
  sound s encryptor -> segments_ s <> [] ->
  exists s', backfill s count times = Ok s' /\ sound s' encryptor /\ advances s s' /\ segments_ s' <> [] /\
    open_parts_ s' = open_parts_ s /\ ended_ s' = ended_ s.
Proof.
  induction count as [|count IH]; intros s times encryptor Hs Hne; cbn [backfill].
  { exists s. split_and!; try done. apply advances_still; try done. apply Hs. }
  destruct (list.last (segments_ s)) as [back|] eqn:Hl; [|by apply last_None in Hl].
  pose proof Hs as [Hok Hb Hst Hm He Hd]. destruct (last_named s back Hok Hl) as [H0 Hn].
  pose proof (copy_next s back back false Hok H0 Hn Hl) as Hnx.
  set (copy := copy_with_sequence back _ _) in *.
  destruct (append_locked_spec s copy true (times O) s copy Hok Hm Hnx (keeps_parts s copy eq_refl))
    as (R1 & R2 & R3 & R4 & R5 & R6 & R7 & _).
  set (s1 := append_locked s copy true (times O)) in *.
  destruct (IH s1 (fun n => times (S n)) encryptor) as (s2 & -> & S2 & A2 & N2 & O2 & D2); [|done|].
  { split; try done; [by rewrite (proj1 R3)|by eapply advances_count]. }
  exists s2. split_and!; try done; [by eapply advances_trans|congruence|congruence].
Qed.

Lemma append_fallback_spec s now times encryptor :
  sound s encryptor ->
  exists s', append_fallback_if_due_locked s now times = Ok s' /\ sound s' encryptor /\ advances s s' /\
    open_parts_ s' = open_parts_ s /\ ended_ s' = ended_ s.
Proof.
  intros Hs. unfold append_fallback_if_due_locked.
  assert (Hstill : exists s', Ok s = Ok s' /\ sound s' encryptor /\ advances s s' /\ open_parts_ s' = open_parts_ s /\
    ended_ s' = ended_ s) by (exists s; split_and!; try done; apply advances_still; try done; apply Hs).
  destruct (negb (repeat_last_segment_on_stall (store_config s)) || ended_ s); [done|].
  destruct (list.last (segments_ s)) as [back|] eqn:Hl; [|done].
  destruct (last_segment_added_at_ s) as [added|]; [|done]. cbv zeta. destruct (_ <? _); [done|].
  destruct (backfill_spec (Z.to_nat (backfill_count s (now - added)
    (stall_interval s back + initial_grace s (stall_interval s back)))) s times encryptor Hs)
    as (s' & R1 & R2 & R3 & _ & R5 & R6).
  { intros Hx. by rewrite Hx in Hl. }
  by exists s'.
Qed.

Lemma sound_stats s encryptor t : sound s encryptor -> bytes_held t = bytes_held (stats_ s) -> sound (with_stats s t) encryptor.
Proof. intros [Hok Hb Hst Hm He Hd] Ht. split; try done; [by destruct Hok|cbn; congruence]. Qed.

(** * The store in use *)

(** The calls of the producer, of the HTTP workers and of the owner. *)
Inductive StoreOp :=
| AddSegment (x : Segment) (m1 m2 : Moment) (at_time : Z)
| AddPart (p : Part) (m : Moment)
| FindSegment (name : string)
| FindPart (name : string)
| GetPlaylist (uri_prefix : string) (at_time : Z) (times : nat -> Z)
| GetIframePlaylist (uri_prefix : string)
| MarkEnded
| MarkLive
| Clear
| SetNotifier (b : bool).

Definition allowed (s : SegmentStore) (op : StoreOp) : Prop :=
  match op with
  | AddSegment x _ _ _ => arrives s x
  | AddPart p _ => fresh_part s p
  | _ => True
  end.

Section Reach.
Context (evp : list byte -> list byte -> list byte -> EvpPass).

Definition store_step (s : SegmentStore) (encryptor : option SegmentEncryptor) (op : StoreOp) :
  Res (SegmentStore * option SegmentEncryptor) :=
  match op with
  | AddSegment x m1 m2 t => '(s, encryptor, _) <- add_segment evp s encryptor x m1 m2 t ;; Ok (s, encryptor)
  | AddPart p m => '(s, encryptor, _) <- add_part evp s encryptor p m ;; Ok (s, encryptor)
  | FindSegment name => Ok (fst (find_segment s name), encryptor)
  | FindPart name => Ok (fst (find_part s name), encryptor)
  | GetPlaylist uri_prefix t times => '(s, _) <- playlist s uri_prefix t times ;; Ok (s, encryptor)
  | GetIframePlaylist uri_prefix => Ok (fst (iframe_playlist s uri_prefix), encryptor)
  | MarkEnded => Ok (fst (mark_ended s), encryptor)
  | MarkLive => Ok (mark_live s, encryptor)
  | Clear => Ok (clear s, encryptor)
  | SetNotifier b => Ok (set_update_notifier s b, encryptor)
  end.

Inductive reach (s0 : SegmentStore) (e0 : option SegmentEncryptor) : bool -> SegmentStore -> option SegmentEncryptor -> Prop :=
| reach_start : reach s0 e0 false s0 e0
| reach_step cleared s e op s' e' :
    reach s0 e0 cleared s e -> allowed s op -> store_step s e op = Ok (s', e') ->
    reach s0 e0 (cleared || match op with Clear => true | _ => false end) s' e'.

Lemma store_step_spec s encryptor op :
  sound s encryptor -> allowed s op ->
  exists s' encryptor', store_step s encryptor op = Ok (s', encryptor') /\ sound s' encryptor' /\
    store_config s' = store_config s /\ (op <> Clear -> advances s s').
Proof.
  intros Hs Ha. pose proof (sd_ok _ _ Hs) as Hok.
  assert (Hstill : forall s', sound s' encryptor -> store_config s' = store_config s -> segments_ s' = segments_ s ->
    discontinuity_sequence_ s' = discontinuity_sequence_ s ->
    exists s'' encryptor', Ok (s', encryptor) = Ok (s'', encryptor') /\ sound s'' encryptor' /\
      store_config s'' = store_config s /\ (op <> Clear -> advances s s'')).
  { intros s' H1 H2 H3 H4. exists s', encryptor. split_and!; try done. intros _. by apply advances_still. }
  destruct op as [x m1 m2 t|p m|name|name|up t times|up| | | |b]; cbn [store_step allowed] in *.
  - destruct (add_segment_spec evp s encryptor x m1 m2 t Hs Ha) as (s' & e' & ev & -> & R1 & R2 & _). cbn [rbind].
    exists s', e'. split; [done|]. split; [done|]. split; [apply R2|by intros _].
  - destruct (add_part_spec evp s encryptor p m Hs Ha) as (s' & e' & ev & -> & R1 & R2 & _). cbn [rbind].
    exists s', e'. split; [done|]. split; [done|]. split; [apply R2|by intros _].
  - apply Hstill; unfold find_segment; destruct (by_name_ s !! name); try done; by apply sound_stats.
  - apply Hstill; unfold find_part; destruct (parts_by_name_ s !! name); try done; by apply sound_stats.
  - unfold playlist. assert (H1 : sound (with_stats s (count_playlist (stats_ s))) encryptor) by by apply sound_stats.
    destruct (append_fallback_spec _ t times encryptor H1) as (s' & -> & R1 & R2 & _). cbn [rbind].
    exists s', encryptor. split; [done|]. split; [done|]. split; [apply R2|]. intros _.
    eapply advances_trans; [|exact R2]. by apply advances_still.
  - apply Hstill; try done. by apply sound_stats.
  - apply Hstill; try done. destruct Hs as [[] ]. by split.
  - apply Hstill; try done. destruct Hs as [[] ]. by split.
  - exists (clear s), encryptor. split_and!; try done. destruct Hs as [_ [Hb _] Hst Hm He Hd]. split; try done.
    + split; try done; cbn.
      * constructor.
      * constructor.
      * intros name x. rewrite lookup_empty. split; [done|]. intros [H _]. by apply elem_of_nil in H.
      * constructor.
      * intros name x. rewrite lookup_empty. split; [done|]. intros [H _]. by apply elem_of_nil in H.
    + split; cbn; change (zlen (@nil Segment)) with 0; [|right]; lia.
  - apply Hstill; try done. destruct Hs as [[] ]. by split.
Qed.

Lemma make_store_sound c encryptor : 1 <= max_retained c -> enc_ok encryptor -> sound (make_store c) encryptor.
Proof.
  intros Hm He. split; try done.
  - split; try done; cbn.
    + constructor.
    + constructor.
    + intros name x. rewrite lookup_empty. split; [done|]. intros [H _]. by apply elem_of_nil in H.
    + constructor.
    + intros name x. rewrite lookup_empty. split; [done|]. intros [H _]. by apply elem_of_nil in H.
  - split; cbn; change (zlen (@nil Segment)) with 0; [|right]; lia.
Qed.

Lemma reach_sound s0 e0 cleared s e : sound s0 e0 -> reach s0 e0 cleared s e ->
  sound s e /\ store_config s = store_config s0 /\ (cleared = false -> advances s0 s).
Proof.
  intros H0. induction 1 as [|cleared s e op s' e' Hr (IH1 & IH2 & IH3) Ha Hs].
  { split_and!; try done. intros _. apply advances_still; try done. apply H0. }
  destruct (store_step_spec s e op IH1 Ha) as (s1 & e1 & H1 & H2 & H3 & H4). rewrite Hs in H1. injection H1 as <- <-.
  split_and!; [done|congruence|]. intros Hc. apply orb_false_iff in Hc as [Hc Hop].
  eapply advances_trans; [by apply IH3|]. apply H4. by intros ->.
Qed.

(** In every state the store can reach: each call returns, no call looks at the back of
    an empty deque; the segments retained are at most the live window plus the grace, and
    their bytes within the cap unless a single one exceeds it; the byte count is that of
    the segments, their parts and the open parts; and whatever a playlist lists, segment or
    part, is found by its name, with nothing found that is not retained. *)
Theorem store_serves c e0 cleared s e uri_prefix :
  1 <= max_retained c -> enc_ok e0 -> reach (make_store c) e0 cleared s e ->
  (forall op, allowed s op -> exists s' e', store_step s e op = Ok (s', e')) /\
  zlen (segments_ s) <= max_retained c /\
  (total (segments_ s) <= max_total_bytes c \/ zlen (segments_ s) <= 1) /\
  bytes_held_ s = total (segments_ s) + parts_total (open_parts_ s) /\ bytes_held (stats_ s) = bytes_held_ s /\
  Forall (fun x => snd (find_segment s (seg_name x)) = Some x /\
                   Forall (fun p => snd (find_part s (part_name p)) = Some p) (seg_parts x)) (live_window s) /\
  Forall (fun p => snd (find_part s (part_name p)) = Some p) (open_parts (playlist_options s uri_prefix)) /\
  (forall name x, snd (find_segment s name) = Some x -> x ∈ segments_ s) /\
  (forall name p, snd (find_part s name) = Some p -> p ∈ held_parts s).
Proof.
  intros Hm He Hr. destruct (reach_sound _ _ _ _ _ (make_store_sound c e0 Hm He) Hr) as (Hs & Hc & _).
  cbn [make_store store_config] in Hc. destruct (sd_bounded _ _ Hs) as [B1 B2]. rewrite Hc in B1, B2.
  split; [intros op Ha; destruct (store_step_spec s e op Hs Ha) as (s' & e' & H & _); by exists s', e'|].
  pose proof (sd_ok _ _ Hs) as Hok. split; [done|]. split; [done|]. split; [apply Hok|]. split; [apply Hs|].
  assert (Hfind : forall x, x ∈ segments_ s -> snd (find_segment s (seg_name x)) = Some x).
  { intros x Hx. unfold find_segment. assert (by_name_ s !! seg_name x = Some x) as -> by (by apply Hok). done. }
  assert (Hpart : forall p, p ∈ held_parts s -> snd (find_part s (part_name p)) = Some p).
  { intros p Hp. unfold find_part. assert (parts_by_name_ s !! part_name p = Some p) as -> by (by apply Hok). done. }
  split.
  { apply list.Forall_forall. intros x Hx. assert (Hin : x ∈ segments_ s).
    { unfold live_window in Hx. rewrite <- (take_drop (Z.to_nat (zlen (segments_ s) -
        Z.min (live_window_segments (store_config s)) (zlen (segments_ s)))) (segments_ s)).
      apply elem_of_app. by right. }
    split; [by apply Hfind|]. apply list.Forall_forall. intros p Hp. apply Hpart. unfold held_parts.
    apply elem_of_app. left. apply list_elem_of_In, in_concat. exists (seg_parts x).
    split; [by apply in_map, list_elem_of_In|by apply list_elem_of_In]. }
  split.
  { unfold playlist_options. destruct (cfg_low_latency (store_config s)); [|constructor]. cbn [open_parts].
    apply list.Forall_forall. intros p Hp. apply Hpart. apply elem_of_app. by right. }
  split.
  - intros name x. unfold find_segment. destruct (by_name_ s !! name) as [y|] eqn:Hy; [|done].
    intros [= <-]. by apply Hok in Hy as [Hy _].
  - intros name p. unfold find_part. destruct (parts_by_name_ s !! name) as [y|] eqn:Hy; [|done].
    intros [= <-]. by apply Hok in Hy as [Hy _].
Qed.

End Reach.

End Store.

(** * Examples *)

(** A cipher that shows its key. *)
Definition show_key (key iv plain : list byte) : EvpPass := Written key plain.
Definition plain_segment (n : Z) : Segment :=
  mkSegment n ("segment-" +:+ to_string n +:+ ".ts") [x07] 4000 false [] None 0.
Definition plain_part (n i : Z) : Part :=
  mkPart n i ("segment-" +:+ to_string n +:+ "." +:+ to_string i +:+ ".ts") [x08] 500 true.
Definition seconds (t : Z) : Moment := sample_moment (t * 1000000000 + t).

Definition short_config (repeat : bool) : SegmentStoreConfig :=
  mkSegmentStoreConfig 2 1 1000 4 3 0 repeat false false 0 3 0.
Definition broken_segment (n : Z) : Segment :=
  mkSegment n ("segment-" +:+ to_string n +:+ ".ts") [x07; x08] 4000 true [] None 0.
Definition after (s : SegmentStore) (x : Segment) : SegmentStore :=
  match add_segment show_key s None x (seconds 0) (seconds 0) 0 with Ok r => r.1.1 | _ => s end.
Definition store_1 (repeat : bool) : SegmentStore :=
  after (after (make_store (short_config repeat)) (plain_segment 0)) (broken_segment 1).
Definition store_2 (repeat : bool) : SegmentStore := after (store_1 repeat) (plain_segment 2).

Ltac arrive := split; [done|done|intros _ back; vm_compute; try done; intros [= <-]; done|by left].

Lemma sample_arrives (repeat : bool) :
  arrives "segment-" (make_store (short_config repeat)) (plain_segment 0) /\
  arrives "segment-" (after (make_store (short_config repeat)) (plain_segment 0)) (broken_segment 1) /\
  arrives "segment-" (store_1 repeat) (plain_segment 2).
Proof. destruct repeat; split_and!; arrive. Qed.

Lemma reach_add prefix s0 e0 s x m1 m2 t s' :
  reach prefix show_key s0 e0 false s None -> arrives prefix s x ->
  store_step show_key s None (AddSegment x m1 m2 t) = Ok (s', None) -> reach prefix show_key s0 e0 false s' None.
Proof. intros H1 H2 H3. exact (reach_step prefix show_key s0 e0 false s None (AddSegment x m1 m2 t) s' None H1 H2 H3). Qed.

Lemma sample_reach (repeat : bool) :
  reach "segment-" show_key (make_store (short_config repeat)) None false (store_1 repeat) None /\
  reach "segment-" show_key (store_1 repeat) None false (store_2 repeat) None.
Proof.
  destruct (sample_arrives repeat) as (A1 & A2 & A3). split.
  - eapply (reach_add _ _ _ _ _ (seconds 0) (seconds 0) 0); [|exact A2|destruct repeat; vm_compute; reflexivity].
    eapply (reach_add _ _ _ _ _ (seconds 0) (seconds 0) 0); [apply reach_start|exact A1|].
    destruct repeat; vm_compute; reflexivity.
  - eapply (reach_add _ _ _ _ _ (seconds 0) (seconds 0) 0); [apply reach_start|exact A3|].
    destruct repeat; vm_compute; reflexivity.
Qed.

Lemma sample_sound (repeat : bool) : sound "segment-" (store_1 repeat) None /\ sound "segment-" (store_2 repeat) None.
Proof.
  destruct (sample_reach repeat) as [H1 H2].
  assert (H : sound "segment-" (make_store (short_config repeat)) None) by (apply make_store_sound; done).
  apply (reach_sound _ _ _ _ _ _ _ H) in H1 as [H1 _]. split; [done|].
  by apply (reach_sound _ _ _ _ _ _ _ H1) in H2 as [H2 _].
Qed.

Lemma store_serves_witness :
  zlen (segments_ (store_1 false)) <= 3 /\
  Forall (fun x => snd (find_segment (store_1 false) (seg_name x)) = Some x /\
                   Forall (fun p => snd (find_part (store_1 false) (part_name p)) = Some p) (seg_parts x))
    (live_window (store_1 false)).
Proof.
  destruct (store_serves "segment-" show_key (short_config false) None false (store_1 false) None "")
    as (_ & H1 & _ & _ & _ & H2 & _).
  - vm_compute. discriminate.
  - done.
  - apply sample_reach.
  - split; [exact H1|exact H2].
Defined.
