(* ===== verification/HlsStoreLive.v ===== *)
(** The numbers of the store's playlists from one to the next, the live edge, what a player
    reads in a playlist, and where the store departs from its contract. *)

From S2P Require Import Prelude Text HlsSegment HlsPlaylist HlsPuller HlsReadBack HlsKeys HlsStore HlsStoreSafe.
From Stdlib Require Import Ascii.

(** * Discontinuity numbers *)

Lemma same_place l1 (x : Segment) l2 m1 y m2 :
  increasing (l1 ++ x :: l2) -> l1 ++ x :: l2 = m1 ++ y :: m2 -> seg_sequence x = seg_sequence y -> l1 = m1 /\ x = y.
Proof.
  intros Hi He Hs. apply app_eq_inv in He as [(k & -> & Hk)|(k & -> & Hk)].
  - destruct k as [|z k]; [injection Hk as -> _; by rewrite app_nil_r|]. injection Hk as <- Hk.
    rewrite <- app_assoc in Hi. apply (sorted_app_inv) in Hi as (_ & Hi & _).
    apply (sorted_app_inv (y :: k)) in Hi as (_ & _ & Hi).
    specialize (Hi y x ltac:(apply elem_of_cons; by left) ltac:(apply elem_of_cons; by left)). lia.
  - destruct k as [|z k]; [injection Hk as -> _; by rewrite app_nil_r|]. injection Hk as <- Hk. subst l2.
    apply sorted_app_inv in Hi as (_ & Hi & _).
    apply (sorted_app_inv (x :: k)) in Hi as (_ & _ & Hi).
    specialize (Hi x y ltac:(apply elem_of_cons; by left) ltac:(apply elem_of_cons; by left)). lia.
Qed.

Lemma window_split s : segments_ s = before_window s ++ live_window s.
Proof. unfold before_window, live_window. by rewrite take_drop. Qed.

Lemma options_discontinuities s uri_prefix :
  discontinuity_sequence (playlist_options s uri_prefix) =
  discontinuity_sequence_ s + discontinuities (before_window s).
Proof. unfold playlist_options. by destruct (cfg_low_latency (store_config s)). Qed.

(** What a player counts up to the last of the segments [listed] of a playlist. *)
Definition discontinuity_number (s : SegmentStore) (uri_prefix : string) (listed : list Segment) : Z :=
  discontinuity_sequence (playlist_options s uri_prefix) + discontinuities listed.

(** As long as the stream is not cleared, a segment has one discontinuity number: the
    EXT-X-DISCONTINUITY-SEQUENCE of a playlist, with the discontinuities it lists up to and
    including the segment, comes to the same in every playlist that lists it, however many
    segments have gone and come; and its number identifies the segment. *)
Theorem discontinuity_numbers_stable prefix evp s0 e0 s e uri_prefix l1 x l2 m1 y m2 :
  sound prefix s0 e0 -> reach prefix evp s0 e0 false s e ->
  live_window s0 = l1 ++ x :: l2 -> live_window s = m1 ++ y :: m2 -> seg_sequence x = seg_sequence y ->
  x = y /\ discontinuity_number s0 uri_prefix (l1 ++ [x]) = discontinuity_number s uri_prefix (m1 ++ [y]).
Proof.
  intros H0 Hr Hl Hm Hs. unfold discontinuity_number. destruct (reach_sound _ _ _ _ _ _ _ H0 Hr) as (_ & _ & Ha).
  destruct (Ha eq_refl) as (_ & new & gone & A1 & A2 & A3 & _).
  rewrite !options_discontinuities. rewrite (window_split s0), Hl in *. rewrite (window_split s), Hm in A1.
  replace (before_window s0 ++ l1 ++ x :: l2) with ((before_window s0 ++ l1) ++ x :: l2) in * by (by rewrite <- app_assoc).
  rewrite <- (app_assoc _ (x :: l2)) in *. cbn [app] in *.
  replace (gone ++ before_window s ++ m1 ++ y :: m2) with ((gone ++ before_window s ++ m1) ++ y :: m2) in A1
    by (by rewrite <- !app_assoc).
  destruct (same_place _ _ _ _ _ _ A3 A1 Hs) as [Hp <-]. split; [done|].
  apply (f_equal discontinuities) in Hp. rewrite !discontinuities_app in *. lia.
Qed.

(** * The live edge *)

(** A producer in step: parts come in order within the segment that is open, which is the
    next one, and the segment they belong to follows them. *)
Definition in_order (s : SegmentStore) (op : StoreOp) : Prop :=
  match op with
  | AddSegment x _ _ _ =>
      (forall part, list.last (open_parts_ s) = Some part -> part_segment_sequence part = seg_sequence x) /\
      (forall back, list.last (segments_ s) = Some back -> seg_sequence back < seg_sequence x)
  | AddPart p _ =>
      0 <= part_index p /\
      (forall part, list.last (open_parts_ s) = Some part ->
         part_segment_sequence part = part_segment_sequence p /\ part_index part < part_index p) /\
      (forall back, list.last (segments_ s) = Some back -> seg_sequence back < part_segment_sequence p)
  | Clear | MarkLive => False
  | _ => True
  end.

(** Where a store stands, and the order of such positions. *)
Definition edge_le (a b : SegmentStore) : Prop :=
  (has_media (live_edge a) = true -> has_media (live_edge b) = true /\
     (edge_sequence (live_edge a) < edge_sequence (live_edge b) \/
      edge_sequence (live_edge a) = edge_sequence (live_edge b) /\
      edge_part_index (live_edge a) <= edge_part_index (live_edge b))) /\
  (forall x, list.last (segments_ a) = Some x ->
     exists y, list.last (segments_ b) = Some y /\ seg_sequence x <= seg_sequence y) /\
  (ended_ a = true -> ended_ b = true).

Lemma edge_le_reached a b n p : edge_le a b -> has_reached a n p = true -> has_reached b n p = true.
Proof.
  intros (He & Hl & Hd). unfold has_reached. destruct (ended_ a); [by rewrite Hd|]. destruct (ended_ b); [done|].
  destruct (has_media (live_edge a)) eqn:Ha; cbn [negb]; [|done]. destruct (He eq_refl) as [-> Hp]. cbn [negb].
  destruct (Z.ltb_spec n (edge_sequence (live_edge b))) as [|Hb]; [done|].
  destruct (Z.ltb_spec n (edge_sequence (live_edge a))) as [|Ha1]; [lia|].
  destruct (Z.ltb_spec (edge_sequence (live_edge a)) n) as [|Ha2]; [done|].
  destruct (Z.ltb_spec (edge_sequence (live_edge b)) n) as [|Hb2]; [lia|].
  destruct (p <? 0).
  - destruct (list.last (segments_ a)) as [x|]; [|done]. destruct (Hl x eq_refl) as (y & -> & Hxy).
    rewrite !Z.leb_le. lia.
  - rewrite !Z.leb_le. lia.
Qed.

Lemma edge_le_same a b :
  segments_ b = segments_ a -> open_parts_ b = open_parts_ a -> (ended_ a = true -> ended_ b = true) -> edge_le a b.
Proof.
  intros H1 H2 H3. unfold edge_le, live_edge. rewrite H1, H2. split_and!; [|by eexists|done].
  intros ->. split; [done|]. right. lia.
Qed.

Lemma step_edge prefix evp s e op s' e' :
  sound prefix s e -> repeat_last_segment_on_stall (store_config s) = false ->
  allowed prefix s op -> in_order s op -> store_step evp s e op = Ok (s', e') -> edge_le s s'.
Proof.
  intros Hs Hr Ha Ho Hstep. destruct op as [x m1 m2 t|p m|name|name|up t times|up| | | |b]; cbn [store_step allowed in_order] in *;
    try done.
  - destruct (add_segment_spec prefix evp s e x m1 m2 t Hs Ha) as (s1 & e1 & ev & Heq & _ & _ & R1 & _ & _ & x' & R2 & R3 & R4).
    rewrite Heq in Hstep. injection Hstep as <- <-. specialize (R4 Hr). destruct Ho as [O1 O2].
    split_and!; [| |by rewrite R1].
    + intros Hm. unfold live_edge. rewrite R2. destruct (list.last (open_parts_ s)) as [part|] eqn:Hp.
      * specialize (O1 part eq_refl). rewrite <- R3 in Hp. rewrite last_app in Hp.
        destruct (list.last (open_parts_ s1)) as [q|] eqn:Hq; [injection Hp as ->; cbn; split; [done|]; right; lia|].
        cbn. unfold part_index_of. rewrite Hp. split; [done|]. right. lia.
      * unfold live_edge in Hm. rewrite Hp in Hm. destruct (list.last (segments_ s)) as [back|] eqn:Hb; [|done].
        specialize (O2 back eq_refl). apply last_None in Hp. rewrite Hp in R3. apply app_eq_nil in R3 as [_ ->].
        cbn. split; [done|]. left. lia.
    + intros back Hb. exists x'. split; [done|]. specialize (O2 back Hb). lia.
  - destruct (add_part_spec prefix evp s e p m Hs Ha) as (s1 & e1 & ev & Heq & _ & _ & R1 & R2).
    pose proof Heq as Heq'. rewrite Heq in Hstep. injection Hstep as <- <-. unfold add_part in Heq'.
    destruct (negb (cfg_low_latency (store_config s))); [injection Heq' as <- <- <-; by apply edge_le_same|].
    destruct (protect_part_spec evp e m p (sd_enc _ _ _ Hs)) as (e2 & p' & Hp & _ & _ & P1 & P2).
    rewrite Hp in Heq'. injection Heq' as <- _ _. destruct Ho as (O1 & O2 & O3).
    split_and!; [| |by rewrite R2].
    + intros Hm. unfold live_edge in *. cbn [push_part open_parts_]. rewrite last_snoc. cbn [edge_sequence edge_part_index has_media].
      rewrite P1, P2. split; [done|]. destruct (list.last (open_parts_ s)) as [part|].
      * destruct (O2 part eq_refl). right. cbn. lia.
      * destruct (list.last (segments_ s)) as [back|]; [|done]. specialize (O3 back eq_refl). left. cbn. lia.
    + intros back Hb. exists back. cbn [push_part segments_]. split; [done|lia].
  - injection Hstep as <- <-. unfold find_segment. by destruct (by_name_ s !! name); apply edge_le_same.
  - injection Hstep as <- <-. unfold find_part. by destruct (parts_by_name_ s !! name); apply edge_le_same.
  - unfold playlist, append_fallback_if_due_locked in Hstep. cbn [store_config with_stats] in Hstep.
    rewrite Hr in Hstep. injection Hstep as <- <-. by apply edge_le_same.
  - injection Hstep as <- <-. by apply edge_le_same.
  - injection Hstep as <- <-. by apply edge_le_same.
  - injection Hstep as <- <-. by apply edge_le_same.
Qed.

(** A stretch of operations of a producer in step. *)
Inductive runs_in_order (prefix : string) (evp : list byte -> list byte -> list byte -> EvpPass) :
  SegmentStore -> option SegmentEncryptor -> SegmentStore -> option SegmentEncryptor -> Prop :=
| runs_none s e : runs_in_order prefix evp s e s e
| runs_step s e op s1 e1 s2 e2 :
    allowed prefix s op -> in_order s op -> store_step evp s e op = Ok (s1, e1) ->
    runs_in_order prefix evp s1 e1 s2 e2 -> runs_in_order prefix evp s e s2 e2.

(** A blocking reload that could be answered stays answerable, and the live edge does
    not go back, while a producer that keeps its parts and segments in order goes on, whatever is
    evicted, looked up or ended in between (a store that does not repeat segments on a
    stall). *)
Theorem reached_stays_reached prefix evp s e s' e' sequence part_index :
  sound prefix s e -> repeat_last_segment_on_stall (store_config s) = false ->
  runs_in_order prefix evp s e s' e' ->
  has_reached s sequence part_index = true -> has_reached s' sequence part_index = true.
Proof.
  intros Hs Hr Hrun. induction Hrun as [|s e op s1 e1 s2 e2 Ha Ho Hstep Hrun IH]; [done|]. intros Hp.
  destruct (store_step_spec prefix evp s e op Hs Ha) as (s1' & e1' & H1 & H2 & H3 & _).
  rewrite Hstep in H1. injection H1 as <- <-. apply IH; [done|by rewrite H3|].
  eapply edge_le_reached; [|done]. by eapply step_edge.
Qed.

(** * From the store to a player *)

Lemma one_line_dec_any z : one_line (dec z) = true.
Proof.
  destruct (Z.le_gt_cases 0 z) as [H|H]; [by apply one_line_dec|].
  replace (dec z) with (dec 0); [by apply one_line_dec|]. unfold dec, to_string. by destruct z.
Qed.

Lemma one_line_hint s : one_line (str (preload_hint s)) = true.
Proof.
  unfold preload_hint. rewrite !str_app, !one_line_app. fold (dec (match list.last (open_parts_ s) with
    | Some part => u32 (part_index part + 1) | None => 0 end)).
  fold (dec (match list.last (open_parts_ s) with Some part => part_segment_sequence part
    | None => match list.last (segments_ s) with Some l => seg_sequence l + 1 | None => 0 end end)).
  by rewrite !one_line_dec_any.
Qed.

(** A name a playlist can print: on one line, starting with neither a blank nor a [#]. *)
Definition printable (l : text) : Prop :=
  one_line l = true /\ exists c l', l = c :: l' /\ blank c = false /\ c <> "#"%char.

Lemma file_uri_ok prefix uri_prefix n :
  0 <= n -> printable (str uri_prefix ++ str prefix) ->
  uri_ok (str uri_prefix ++ str (file_name prefix n)).
Proof.
  intros Hn [H1 (c & l & H2 & H3 & H4)]. rewrite str_file_name, app_assoc. split; [|split].
  - by rewrite one_line_app, H1, one_line_app, one_line_dec.
  - rewrite H2. by exists c, (l ++ dec n ++ str ".ts").
  - rewrite app_assoc. exists ((str uri_prefix ++ str prefix) ++ dec n ++ str ".t"), "s"%char.
    split; [|done]. by rewrite <- !app_assoc.
Qed.

(** C39. What a player of this server's own kind reads in the playlist of a store that keeps
    its numbers gapless ([repeat_last_segment_on_stall]), as long as names are printable and
    no segment of the live window is encrypted (this reader refuses keys): exactly the live
    window, in order, with resolved URIs, durations, numbers and discontinuities, each
    segment of which the store then hands out under the name the player asks for. *)
Theorem store_to_player prefix s e uri_prefix at_time times base s' t :
  sound prefix s e -> repeat_last_segment_on_stall (store_config s) = true ->
  0 <= cfg_target_duration_seconds (store_config s) -> 0 <= playlist_version (store_config s) ->
  printable (str uri_prefix ++ str prefix) -> one_line (str uri_prefix) = true ->
  playlist s uri_prefix at_time times = Ok (s', t) ->
  Forall (fun x => seg_key x = None) (live_window s') ->
  media_sequence (live_window s') + zlen (live_window s') < 2 ^ 64 ->
  Forall (fun p => one_line (str (part_name p)) = true) (held_parts s') ->
  parse_media_playlist t base =
    mkHlsMediaPlaylist (refs base (playlist_options s' uri_prefix) (live_window s'))
      (dec (playlist_target (playlist_options s' uri_prefix) (live_window s')))
      (media_sequence (live_window s')) (ended_ s') "" /\
  Forall (fun x => snd (find_segment s' (seg_name x)) = Some x) (live_window s').
Proof.
  intros Hs Hr Ht Hv Hu Hup Hp Hk Hmax Hparts. unfold playlist in Hp.
  assert (H1 : sound prefix (with_stats s (count_playlist (stats_ s))) e) by by apply sound_stats.
  destruct (append_fallback_spec prefix _ at_time times e H1) as (s1 & Ha & S1 & A1 & O1 & D1).
  rewrite Ha in Hp. injection Hp as <- <-. pose proof (proj1 A1) as Hc. cbn [with_stats store_config] in Hc.
  pose proof (sd_ok _ _ _ S1) as Hok. pose proof (window_split s1) as Hw.
  assert (Hin : forall x, x ∈ live_window s1 -> x ∈ segments_ s1) by (intros x Hx; rewrite Hw; apply elem_of_app; by right).
  split.
  2: { apply list.Forall_forall. intros x Hx. unfold find_segment.
       assert (by_name_ s1 !! seg_name x = Some x) as -> by (apply Hok; by auto). done. }
  assert (Hend : ended (playlist_options s1 uri_prefix) = ended_ s1)
    by (unfold playlist_options; by destruct (cfg_low_latency _)).
  rewrite <- Hend. apply playlist_read_back.
  assert (Hpref : segment_uri_prefix (playlist_options s1 uri_prefix) = uri_prefix)
    by (unfold playlist_options; by destruct (cfg_low_latency _)).
  pose proof (so_named _ _ Hok) as Hn. unfold named in Hn. rewrite list.Forall_forall in Hn.
  assert (Hch : chained (live_window s1)).
  { pose proof (so_chained _ _ Hok) as Hch. rewrite Hc in Hch. specialize (Hch Hr). rewrite Hw in Hch.
    by apply chained_app_inv in Hch as [_ Hch]. }
  split.
  - unfold playlist_options. by destruct (cfg_low_latency _).
  - done.
  - apply list.Forall_forall. intros x Hx. rewrite Hpref. destruct (Hn x (Hin x Hx)) as [Hx0 ->]. by apply file_uri_ok.
  - by rewrite Hpref.
  - unfold held_parts in Hparts. apply Forall_app in Hparts as [Hp1 Hp2]. apply Forall_app. split.
    + rewrite Hw, map_app, concat_app in Hp1. by apply Forall_app in Hp1 as [_ Hp1].
    + unfold playlist_options. destruct (cfg_low_latency _); [done|constructor].
  - unfold playlist_options. destruct (cfg_low_latency _); [apply one_line_hint|done].
  - destruct (live_window s1) as [|x l] eqn:Hl; [done|]. by rewrite (chained_seqZ l x Hch).
  - destruct (live_window s1) as [|x l] eqn:Hl; [cbn; change (zlen (@nil Segment)) with 0; lia|].
    destruct (Hn x (Hin x ltac:(apply elem_of_cons; by left))) as [Hx0 _]. done.
  - unfold playlist_options. rewrite Hc. pose proof (sd_discontinuities _ _ _ S1).
    pose proof (discontinuities_nonneg (before_window s1)). destruct (cfg_low_latency _); cbn; lia.
Qed.

(** * Encryption *)

Section Encryption.
Context (evp : list byte -> list byte -> list byte -> EvpPass).

(** [x'] is [x] encrypted under a key, and its tag says which. *)
Definition stored_under (e : SegmentEncryptor) (key : ContentKey) (x x' : Segment) : Prop :=
  (exists updated final,
     evp (key_bytes key) (iv_from_sequence (seg_sequence x)) (seg_data x) = Written updated final /\
     seg_data x' = updated ++ final) /\
  seg_key x' = Some (key_description e (key_id key) (seg_sequence x)).

(** Unless the key is rotated between the two calls, a segment that is added is stored
    encrypted under a key of the ring and the vector of its number, and its EXT-X-KEY
    names that key and that vector, or else stored in the clear and without a key. *)
Theorem encrypted_segment_labelled e m1 m2 x :
  key_store e -> enabled e = true -> seg_key x = None ->
  rotation_due (if mints e m1 then mint e m1 else e) m2 = false ->
  exists e' x', protect_segment evp (Some e) m1 m2 x = Ok (Some e', x') /\
    ((seg_key x' = None /\ seg_data x' = seg_data x) \/
     exists key, list.last (keys_ e') = Some key /\ stored_under e' key x x').
Proof.
  intros Hs He Hx Hrot. cbn [protect_segment]. rewrite He. cbn [negb]. unfold encrypt_segment. rewrite He. cbn [negb].
  destruct (current_key_spec e m1 Hs) as (key & -> & Hl & Hs1). cbn [rbind]. set (e1 := if mints e m1 then _ else _) in *.
  unfold aes_128_cbc_encrypt.
  destruct (evp (key_bytes key) (iv_from_sequence (seg_sequence x)) (seg_data x)) as [| | | |u f] eqn:Hevp.
  1-4: exists e1, x; split; [reflexivity|by left].
  unfold key_info. assert (enabled e1 = true) as -> by (subst e1; by destruct (mints e m1)). cbn [negb].
  destruct (current_key_spec e1 m2 Hs1) as (key2 & Hc & Hl2 & _). rewrite Hc. cbn [rbind].
  assert (Hm : mints e1 m2 = false).
  { unfold mints. rewrite Hrot, orb_false_r. destruct (keys_ e1); [by cbn in Hl|done]. }
  rewrite Hm in *. eexists _, _. split; [reflexivity|]. right. exists key. split; [done|].
  split; [by exists u, f|]. cbn. by rewrite Hl in Hl2; injection Hl2 as ->.
Qed.

End Encryption.

(** * Departures *)

(** The key description is drawn after the encryption: when a rotation falls between the two,
    the segment is announced under a key that does not decrypt it. *)
Lemma rotation_mislabels_segment :
  exists e x key1 key2,
    protect_segment show_key (Some (make_encryptor sample_config)) (seconds 3) (seconds 13) (plain_segment 7)
      = Ok (Some e, x) /\
    keys_ e = [key1; key2] /\ key_bytes key1 <> key_bytes key2 /\
    seg_data x = key_bytes key1 ++ [x07] /\ seg_key x = Some (key_description e (key_id key2) 7).
Proof. eexists _, _, _, _. split; [vm_compute; reflexivity|]. split; [vm_compute; reflexivity|]. vm_compute. split_and!; done. Qed.

Definition low_latency_config (repeat : bool) : SegmentStoreConfig :=
  mkSegmentStoreConfig 6 4 (256 * 1024 * 1024) 4 3 0 repeat false true 500 3 0.

(** Partial segments are encrypted as they come and announced under the key of the segment
    they end in: a rotation while the segment is open makes them useless. *)
Lemma rotation_mislabels_parts :
  exists s e x key1 key2,
    (r <- add_part show_key (make_store (low_latency_config false)) (Some (make_encryptor sample_config))
            (plain_part 7 0) (seconds 3) ;;
     add_segment show_key r.1.1 r.1.2 (plain_segment 7) (seconds 14) (seconds 14) 0) = Ok (s, Some e, []) /\
    keys_ e = [key1; key2] /\ key_bytes key1 <> key_bytes key2 /\ live_window s = [x] /\
    map part_data (seg_parts x) = [key_bytes key1 ++ [x08]] /\
    seg_key x = Some (key_description e (key_id key2) 7).
Proof.
  eexists _, _, _, _, _. split; [vm_compute; reflexivity|]. split; [vm_compute; reflexivity|].
  split; [vm_compute; done|]. split; [vm_compute; reflexivity|]. vm_compute. split_and!; done.
Qed.

(** On a store that repeats segments, the parts keep the producer's numbers while segments
    are renumbered: the live edge goes back, and a reload that was answered is held again. *)
Lemma live_edge_goes_back :
  exists s1 s2 t,
    (r <- add_segment show_key (make_store (low_latency_config true)) None (plain_segment 0) (seconds 0) (seconds 0) 0 ;;
     playlist r.1.1 "" 9000000000 (fun _ => 9000000000)) = Ok (s1, t) /\
    add_part show_key s1 None (plain_part 1 0) (seconds 9) = Ok (s2, None, []) /\
    has_reached s1 2 (-1) = true /\ has_reached s2 2 (-1) = false.
Proof.
  eexists _, _, _. split; [vm_compute; reflexivity|]. split; [vm_compute; reflexivity|].
  split; vm_compute; reflexivity.
Qed.

(** The copies made on a stall keep the discontinuity flag of what they repeat. *)
Lemma repeats_are_discontinuous :
  exists s t,
    (r <- add_segment show_key (make_store (low_latency_config true)) None
            (mkSegment 0 "segment-0.ts" [x07] 4000 true [] None 0) (seconds 0) (seconds 0) 0 ;;
     playlist r.1.1 "" 14000000000 (fun _ => 14000000000)) = Ok (s, t) /\
    map seg_discontinuity (live_window s) = [true; true; true; true].
Proof. eexists _, _. split; [vm_compute; reflexivity|]. vm_compute. done. Qed.

(** * Examples *)

Lemma discontinuity_numbers_stable_witness :
  exists x y, live_window (store_1 false) = [plain_segment 0; x] /\ live_window (store_2 false) = [y; plain_segment 2] /\
    x = y /\
    discontinuity_number (store_1 false) "" [plain_segment 0; x] = discontinuity_number (store_2 false) "" [y].
Proof.
  exists (broken_segment 1), (broken_segment 1). split; [vm_compute; reflexivity|]. split; [vm_compute; reflexivity|].
  apply (discontinuity_numbers_stable "segment-" show_key (store_1 false) None (store_2 false) None ""
    [plain_segment 0] (broken_segment 1) [] [] (broken_segment 1) [plain_segment 2]).
  - apply sample_sound.
  - apply sample_reach.
  - vm_compute. reflexivity.
  - vm_compute. reflexivity.
  - reflexivity.
Defined.

Lemma reached_stays_reached_witness :
  has_reached (store_1 false) 1 (-1) = true /\ has_reached (store_2 false) 1 (-1) = true.
Proof.
  split; [vm_compute; reflexivity|].
  apply (reached_stays_reached "segment-" show_key (store_1 false) None (store_2 false) None).
  - apply sample_sound.
  - reflexivity.
  - eapply (runs_step "segment-" show_key _ _ (AddSegment (plain_segment 2) (seconds 0) (seconds 0) 0));
      [apply sample_arrives| |vm_compute; reflexivity|apply runs_none].
    split; intros back; vm_compute; try done. intros [= <-]. done.
  - vm_compute. reflexivity.
Defined.

Lemma store_to_player_witness :
  exists t, playlist (store_1 true) "hls/" 0 (fun _ => 0) =
      Ok (with_stats (store_1 true) (count_playlist (stats_ (store_1 true))), t) /\
    segments (parse_media_playlist t (str "http://h/live.m3u8")) =
    [mkHlsSegmentRef (str "http://h/hls/segment-0.ts") (str "4.000,") 0 false;
     mkHlsSegmentRef (str "http://h/hls/segment-1.ts") (str "4.000,") 1 true].
Proof.
  eexists. split; [reflexivity|].
  edestruct (store_to_player "segment-" (store_1 true) None "hls/" 0 (fun _ => 0) (str "http://h/live.m3u8")
    (with_stats (store_1 true) (count_playlist (stats_ (store_1 true))))) as [H _]; last first.
  { rewrite H. vm_compute. reflexivity. }
  all: try reflexivity; try (vm_compute; discriminate).
  - vm_compute. repeat constructor.
  - vm_compute. repeat constructor.
  - split; [reflexivity|]. eexists _, _. split; [vm_compute; reflexivity|]. done.
  - apply sample_sound.
Defined.

Lemma encrypted_segment_labelled_witness :
  exists e' x', protect_segment show_key (Some (make_encryptor sample_config)) (seconds 3) (seconds 4) (plain_segment 7)
      = Ok (Some e', x') /\
    exists key, list.last (keys_ e') = Some key /\ seg_key x' = Some (key_description e' (key_id key) 7).
Proof.
  destruct (encrypted_segment_labelled show_key (make_encryptor sample_config) (seconds 3) (seconds 4) (plain_segment 7))
    as (e' & x' & H & [[Hk _] | (key & H1 & _ & H2)]).
  - by apply make_encryptor_store.
  - reflexivity.
  - reflexivity.
  - vm_compute. reflexivity.
  - exfalso. vm_compute in H. injection H as _ <-. done.
  - exists e', x'. split; [exact H|]. by exists key.
Defined.
