(* ===== verification/Flv.v ===== *)
(** media/flv/flv_writer.cpp: the FLV container, its onMetaData tag and its reader.  A
    double is the 64 bits [std::bit_cast] gives. *)

From S2P Require Import Prelude Bytes Amf0 Amf0RoundTrip.

Definition kTagTypeAudio : Z := 8.
Definition kTagTypeVideo : Z := 9.
Definition kTagTypeScriptData : Z := 18.
Definition kFileHeaderSize : Z := 9.
Definition kPreviousTagSize : Z := 4.
Definition kFileHeaderTotalSize : Z := kFileHeaderSize + kPreviousTagSize.
Definition kTagHeaderSize : Z := 11.
Definition kFlagAudio : Z := 0x04.
Definition kFlagVideo : Z := 0x01.

Definition append_u24_be (out : list byte) (value : Z) : list byte := out ++ write_u24_be value.
Definition append_u32_be (out : list byte) (value : Z) : list byte := out ++ write_u32_be value.

Definition append_amf0_string_body (out : list byte) (s : string) : list byte :=
  out ++ write_u16_be (u16 (string_size s)) ++ string_bytes s.
Definition append_amf0_key (out : list byte) (key : string) : list byte := append_amf0_string_body out key.

Definition encode_double_be (bits : Z) : list byte :=
  map (fun i => z2b (Z.land (Z.shiftr bits (56 - 8 * i)) 0xFF)) [0; 1; 2; 3; 4; 5; 6; 7].

Definition encode_file_header (has_audio has_video : bool) : list byte :=
  let flags := 0 in
  let flags := if has_audio then Z.lor flags kFlagAudio else flags in
  let flags := if has_video then Z.lor flags kFlagVideo else flags in
  [z2b 0x46; z2b 0x4C; z2b 0x56; z2b 1; z2b flags; z2b 0; z2b 0; z2b 0; z2b 9; z2b 0; z2b 0; z2b 0; z2b 0].

Definition append_tag (out : list byte) (tag_type : Z) (data : list byte) (timestamp : Z) : list byte :=
  let data_size := u32 (zlen data) in
  let out := out ++ [z2b tag_type] in
  let out := append_u24_be out data_size in
  let out := append_u24_be out (Z.land timestamp 0x00FFFFFF) in
  let out := out ++ [z2b (Z.land (Z.shiftr timestamp 24) 0xFF)] in
  let out := append_u24_be out 0 in
  let out := out ++ data in
  append_u32_be out (u32 (kTagHeaderSize + data_size)).

(** The doubles are their bits; 7, 10 and 16 are the defaults of three of them. *)
Record OnMetaData := mkOnMetaData {
  duration : Z;
  width : Z;
  height : Z;
  framerate : Z;
  videocodecid : Z;
  audiocodecid : Z;
  audiosamplerate : Z;
  audiosamplesize : Z;
  stereo : bool;
  filesize : Z
}.
Definition default_metadata : OnMetaData :=
  mkOnMetaData 0 0 0 0 0x401C000000000000 0x4024000000000000 0 0x4030000000000000 true 0.

Record MetadataTag := mkMetadataTag {
  tag_bytes : list byte;
  duration_value_offset : Z;
  filesize_value_offset : Z
}.

(** [NumberProp]s, and one loop over them: the bytes, and where the value of the property
    that is to be patched begins. *)
Definition numbers_a (meta : OnMetaData) : list (string * Z) :=
  [("duration", duration meta); ("width", width meta); ("height", height meta); ("framerate", framerate meta);
   ("videocodecid", videocodecid meta); ("audiosamplerate", audiosamplerate meta);
   ("audiosamplesize", audiosamplesize meta)].
Definition numbers_b (meta : OnMetaData) : list (string * Z) :=
  [("audiocodecid", audiocodecid meta); ("filesize", filesize meta)].
Fixpoint append_numbers (patched : string) (props : list (string * Z)) (body : list byte) (off : Z) : list byte * Z :=
  match props with
  | [] => (body, off)
  | (key, value) :: props =>
      let body := append_amf0_key body key ++ [x00] in
      let off := if String.eqb key patched then zlen body else off in
      append_numbers patched props (body ++ encode_double_be value) off
  end.

Definition build_onmetadata_tag (meta : OnMetaData) (timestamp : Z) : MetadataTag :=
  let body := [x02] in
  let body := append_amf0_string_body body "onMetaData" in
  let body := body ++ [x08] in
  let member_count := u32 (zlen (numbers_a meta) + 1 + zlen (numbers_b meta)) in
  let body := append_u32_be body member_count in
  let '(body, duration_off) := append_numbers "duration" (numbers_a meta) body 0 in
  let body := append_amf0_key body "stereo" in
  let body := body ++ [x01] ++ [if stereo meta then x01 else x00] in
  let '(body, filesize_off) := append_numbers "filesize" (numbers_b meta) body 0 in
  let body := body ++ [x00; x00; x09] in
  mkMetadataTag (append_tag [] kTagTypeScriptData body timestamp)
    (kTagHeaderSize + duration_off) (kTagHeaderSize + filesize_off).

Record ParsedTag := mkParsedTag {
  tag_type : Z;
  data_size : Z;
  timestamp : Z;
  previous_tag_size : Z;
  tag_data_offset : Z
}.
Record ParsedFlv := mkParsedFlv {
  flv_version : Z;
  has_audio : bool;
  has_video : bool;
  data_offset : Z;
  previous_tag_size0 : Z;
  tags : list ParsedTag
}.

Definition flv_fail (msg : string) : Error := mkError ErrorCode.MalformedChunk ErrorCategory.Storage msg.

(** One turn of the loop: the tag at [pos], and where the next begins. *)
Definition parse_tag (data : list byte) (pos : Z) : Res (ParsedTag * Z) :=
  if zlen data <? pos + kTagHeaderSize then Err (flv_fail "truncated FLV tag header") else
  type <- u8_at data pos ;;
  size <- read_u24_be_at data (pos + 1) ;;
  ts_low <- read_u24_be_at data (pos + 4) ;;
  ts_ext <- u8_at data (pos + 7) ;;
  let next := pos + kTagHeaderSize + size in
  if zlen data <? next + kPreviousTagSize then Err (flv_fail "FLV tag data runs past end of file") else
  previous <- read_u32_be_at data next ;;
  Ok (mkParsedTag type size (Z.lor (u32 (Z.shiftl ts_ext 24)) ts_low) previous (pos + kTagHeaderSize),
      next + kPreviousTagSize).

(** Each turn moves on by at least a tag header: a unit of fuel per byte suffices. *)
Fixpoint parse_tags (fuel : nat) (data : list byte) (pos : Z) (out : list ParsedTag) : Res (list ParsedTag) :=
  if zlen data <=? pos then Ok out else
  match fuel with
  | O => OutOfFuel
  | S fuel =>
      '(tag, pos) <- parse_tag data pos ;;
      parse_tags fuel data pos (out ++ [tag])
  end.

Definition parse_flv (data : list byte) : Res ParsedFlv :=
  if zlen data <? kFileHeaderTotalSize then Err (flv_fail "FLV shorter than 13-byte header") else
  b0 <- byte_at data 0 ;; b1 <- byte_at data 1 ;; b2 <- byte_at data 2 ;;
  if negb (bool_decide (b0 = z2b 0x46)) || negb (bool_decide (b1 = z2b 0x4C)) || negb (bool_decide (b2 = z2b 0x56))
  then Err (flv_fail "bad FLV signature") else
  version <- u8_at data 3 ;;
  flags <- u8_at data 4 ;;
  offset <- read_u32_be_at data 5 ;;
  if (offset <? kFileHeaderSize) || (zlen data - kPreviousTagSize <? offset)
  then Err (flv_fail "FLV DataOffset out of range") else
  previous <- read_u32_be_at data offset ;;
  tags <- parse_tags (length data) data (offset + kPreviousTagSize) [] ;;
  Ok (mkParsedFlv version (negb (Z.land flags kFlagAudio =? 0)) (negb (Z.land flags kFlagVideo =? 0))
        offset previous tags).

(** * Any file *)

Definition is_flv_error (e : Error) : Prop :=
  error_code e = ErrorCode.MalformedChunk /\ error_category e = ErrorCategory.Storage.

(** What a tag that was read promises: it lies in the file with its size field. *)
Definition tag_within (data : list byte) (t : ParsedTag) : Prop :=
  kFileHeaderTotalSize <= tag_data_offset t - kTagHeaderSize /\ 0 <= data_size t < 2 ^ 24 /\
  tag_data_offset t + data_size t + kPreviousTagSize <= zlen data /\ 0 <= timestamp t < 2 ^ 32.

Lemma u8_at_ok data i : 0 <= i < zlen data -> exists v, u8_at data i = Ok v /\ 0 <= v < 256.
Proof.
  intros Hi. unfold u8_at, byte_at. rewrite (proj2 (Z.leb_le 0 i)) by lia.
  destruct (data !! Z.to_nat i) as [b|] eqn:Hb; [exists (b2z b); split; [done|apply b2z_range]|].
  apply lookup_ge_None in Hb. unfold zlen in Hi. lia.
Qed.

Lemma parse_tag_yields data pos :
  kFileHeaderTotalSize <= pos ->
  yields is_flv_error (fun r => tag_within data r.1 /\ pos + kTagHeaderSize <= r.2 <= zlen data) (parse_tag data pos).
Proof.
  intros Hp. unfold parse_tag, kFileHeaderTotalSize, kFileHeaderSize, kPreviousTagSize, kTagHeaderSize in *.
  destruct (Z.ltb_spec (zlen data) (pos + 11)) as [|Hl]; [done|].
  destruct (u8_at_ok data pos) as (v & -> & _); [lia|]. cbn [rbind].
  destruct (read_u24_be_at_ok data (pos + 1)) as (size & -> & Hs); [lia..|]. cbn [rbind].
  destruct (read_u24_be_at_ok data (pos + 4)) as (low & -> & Hlow); [lia..|]. cbn [rbind].
  destruct (u8_at_ok data (pos + 7)) as (ext & -> & He); [lia|]. cbn [rbind]. cbv zeta.
  destruct (Z.ltb_spec (zlen data) (pos + 11 + size + 4)) as [|Hn]; [done|].
  destruct (read_u32_be_at_ok data (pos + 11 + size)) as (prev & -> & _); [lia..|]. cbn [rbind yields].
  unfold tag_within, kFileHeaderTotalSize, kFileHeaderSize, kPreviousTagSize, kTagHeaderSize.
  cbn [fst snd tag_data_offset data_size timestamp].
  rewrite u32_shiftl, lor_mult_add by lia. lia.
Qed.

Lemma parse_tags_yields fuel : forall data pos out,
  kFileHeaderTotalSize <= pos -> zlen data - pos <= Z.of_nat fuel -> Forall (tag_within data) out ->
  yields is_flv_error (Forall (tag_within data)) (parse_tags fuel data pos out).
Proof.
  induction fuel as [|fuel IH]; intros data pos out Hp Hf Ho; cbn [parse_tags];
    destruct (Z.leb_spec (zlen data) pos) as [Hz|Hz]; try done; [lia|].
  pose proof (parse_tag_yields data pos Hp) as Ht. destruct (parse_tag data pos) as [[t next]|e| |]; try done.
  cbn [rbind]. destruct Ht as [Ht Hn]. cbn [fst snd] in *. unfold kTagHeaderSize in Hn.
  apply IH; [lia|lia|]. apply Forall_app. split; [done|by apply Forall_singleton].
Qed.

(** Reading arbitrary bytes as FLV comes to an end and never leaves the buffer; the
    answer is a storage error or tags that lie in the file with their size fields. *)
Theorem parse_flv_safe data :
  yields is_flv_error
    (fun f => kFileHeaderSize <= data_offset f /\ Forall (tag_within data) (tags f)) (parse_flv data).
Proof.
  unfold parse_flv, kFileHeaderTotalSize, kFileHeaderSize, kPreviousTagSize.
  destruct (Z.ltb_spec (zlen data) (9 + 4)) as [|Hl]; [done|].
  assert (Hb : forall i, 0 <= i < 13 -> exists b, byte_at data i = Ok b).
  { intros i Hi. unfold byte_at. rewrite (proj2 (Z.leb_le 0 i)) by lia.
    destruct (data !! Z.to_nat i) as [b|] eqn:Hb; [by exists b|]. apply lookup_ge_None in Hb. unfold zlen in Hl. lia. }
  destruct (Hb 0) as [b0 ->]; [lia|]. destruct (Hb 1) as [b1 ->]; [lia|]. destruct (Hb 2) as [b2 ->]; [lia|].
  cbn [rbind]. destruct (_ || _ || _); [done|].
  destruct (u8_at_ok data 3) as (v & -> & _); [lia|]. destruct (u8_at_ok data 4) as (fl & -> & _); [lia|]. cbn [rbind].
  destruct (read_u32_be_at_ok data 5) as (off & -> & Hoff); [lia..|]. cbn [rbind].
  destruct (Z.ltb_spec off 9) as [|H9]; [done|]. destruct (Z.ltb_spec (zlen data - 4) off) as [|H4]; [done|]. cbn [orb].
  destruct (read_u32_be_at_ok data off) as (prev & -> & _); [lia..|]. cbn [rbind].
  assert (Ht : yields is_flv_error (Forall (tag_within data)) (parse_tags (length data) data (off + 4) [])).
  { apply parse_tags_yields; unfold kFileHeaderTotalSize, kFileHeaderSize, kPreviousTagSize, zlen; try lia. constructor. }
  by destruct (parse_tags _ _ _ _).
Qed.

(** * Files this server writes *)

(** A tag as it is written, and what the reader says of it at its place in the file. *)
Record FlvTag := mkFlvTag {
  ft_type : Z;
  ft_data : list byte;
  ft_timestamp : Z
}.
Definition tag_ok (t : FlvTag) : Prop :=
  0 <= ft_type t < 256 /\ zlen (ft_data t) < 2 ^ 24 /\ 0 <= ft_timestamp t < 2 ^ 32.
Definition write_tags (out : list byte) (ts : list FlvTag) : list byte :=
  fold_left (fun out t => append_tag out (ft_type t) (ft_data t) (ft_timestamp t)) ts out.
Fixpoint tags_at (pos : Z) (ts : list FlvTag) : list ParsedTag :=
  match ts with
  | [] => []
  | t :: ts =>
      mkParsedTag (ft_type t) (zlen (ft_data t)) (ft_timestamp t) (kTagHeaderSize + zlen (ft_data t))
        (pos + kTagHeaderSize) ::
      tags_at (pos + kTagHeaderSize + zlen (ft_data t) + kPreviousTagSize) ts
  end.

Definition tag_wire (t : FlvTag) : list byte :=
  z2b (ft_type t) :: write_u24_be (zlen (ft_data t)) ++ write_u24_be (Z.land (ft_timestamp t) 0x00FFFFFF) ++
  [z2b (Z.land (Z.shiftr (ft_timestamp t) 24) 0xFF)] ++ write_u24_be 0 ++ ft_data t ++
  write_u32_be (kTagHeaderSize + zlen (ft_data t)).

Lemma append_tag_wire out t : tag_ok t -> append_tag out (ft_type t) (ft_data t) (ft_timestamp t) = out ++ tag_wire t.
Proof.
  intros (_ & Hd & _). pose proof (zlen_nonneg (ft_data t)).
  assert (Hu : u32 (zlen (ft_data t)) = zlen (ft_data t)) by (apply Z.mod_small; lia).
  assert (Hv : u32 (kTagHeaderSize + zlen (ft_data t)) = kTagHeaderSize + zlen (ft_data t))
    by (apply Z.mod_small; unfold kTagHeaderSize; lia).
  unfold append_tag, append_u24_be, append_u32_be, tag_wire. rewrite Hu, Hv. cbn [app]. by rewrite <- !app_assoc.
Qed.

Lemma zlen_tag_wire t : zlen (tag_wire t) = kTagHeaderSize + zlen (ft_data t) + kPreviousTagSize.
Proof.
  unfold tag_wire. rewrite zlen_cons, !zlen_app, !zlen_write_u24_be, zlen_write_u32_be.
  change (zlen [z2b (Z.land (Z.shiftr (ft_timestamp t) 24) 0xFF)]) with 1.
  unfold kTagHeaderSize, kPreviousTagSize. lia.
Qed.

Lemma write_tags_wire ts : forall out, Forall tag_ok ts -> write_tags out ts = out ++ concat (map tag_wire ts).
Proof.
  induction ts as [|t ts IH]; intros out Hok; [by rewrite app_nil_r|]. apply list.Forall_cons in Hok as [Ht Hok].
  unfold write_tags. cbn [fold_left]. rewrite append_tag_wire by done. fold (write_tags (out ++ tag_wire t) ts).
  rewrite IH by done. cbn [map concat]. by rewrite <- app_assoc.
Qed.

Lemma parse_tag_written data pos t rest :
  tag_ok t -> at_suffix data pos (tag_wire t ++ rest) ->
  parse_tag data pos =
    Ok (mkParsedTag (ft_type t) (zlen (ft_data t)) (ft_timestamp t) (kTagHeaderSize + zlen (ft_data t))
          (pos + kTagHeaderSize), pos + zlen (tag_wire t)).
Proof.
  intros Hok Hs. pose proof (at_suffix_zlen _ _ _ Hs) as Hz. rewrite zlen_app, zlen_tag_wire in *.
  pose proof (zlen_nonneg rest). pose proof (zlen_nonneg (ft_data t)). destruct Hok as (Ht & Hd & Hts).
  unfold tag_wire in Hs. rewrite <- app_comm_cons, <- !app_assoc in Hs.
  set (ext := z2b (Z.land (Z.shiftr (ft_timestamp t) 24) 0xFF)) in *.
  pose proof (at_suffix_cons _ _ _ _ Hs) as S1. pose proof (at_suffix_app _ _ _ _ S1) as S2.
  rewrite zlen_write_u24_be in S2. pose proof (at_suffix_app _ _ _ _ S2) as S3. rewrite zlen_write_u24_be in S3.
  pose proof (at_suffix_app _ _ [ext] _ S3) as S4. change (zlen [ext]) with 1 in S4.
  pose proof (at_suffix_app _ _ _ _ S4) as S5. rewrite zlen_write_u24_be in S5.
  pose proof (at_suffix_app _ _ _ _ S5) as S6.
  unfold parse_tag. unfold kTagHeaderSize, kPreviousTagSize in *.
  rewrite (proj2 (Z.ltb_ge _ _)) by lia. rewrite (u8_at_suffix _ _ _ _ Hs). cbn [rbind].
  rewrite (read_u24_be_at_suffix _ _ _ _ S1). cbn [rbind].
  replace (pos + 4) with (pos + 1 + 3) by lia. rewrite (read_u24_be_at_suffix _ _ _ _ S2). cbn [rbind].
  replace (pos + 7) with (pos + 1 + 3 + 3) by lia. rewrite (u8_at_suffix _ _ _ _ S3). cbn [rbind]. cbv zeta.
  rewrite (Z.mod_small (zlen (ft_data t))) by lia. rewrite (proj2 (Z.ltb_ge _ _)) by lia.
  replace (pos + 11 + zlen (ft_data t)) with (pos + 1 + 3 + 3 + 1 + 3 + zlen (ft_data t)) by lia.
  rewrite (read_u32_be_at_suffix _ _ _ _ S6). cbn [rbind].
  assert (Hu : u32 (11 + zlen (ft_data t)) = 11 + zlen (ft_data t)) by (apply Z.mod_small; lia). rewrite Hu.
  assert (He : b2z ext = ft_timestamp t / 2 ^ 24) by (subst ext; rewrite byte_field by lia; apply Z.mod_small; Z.div_mod_to_equations; lia).
  assert (Hlow : Z.land (ft_timestamp t) 16777215 mod 2 ^ 24 = ft_timestamp t mod 2 ^ 24).
  { change 16777215 with (2 ^ 24 - 1). rewrite land_ones_mod by lia. by rewrite Zmod_mod. }
  rewrite Hlow, He. rewrite u32_shiftl by (Z.div_mod_to_equations; lia).
  rewrite lor_mult_add by (Z.div_mod_to_equations; lia).
  assert (Hj : ft_timestamp t / 2 ^ 24 * 2 ^ 24 + ft_timestamp t mod 2 ^ 24 = ft_timestamp t)
    by (Z.div_mod_to_equations; lia).
  rewrite Hj, b2z_z2b, (Z.mod_small (ft_type t)) by lia. do 2 f_equal. lia.
Qed.

Lemma parse_tags_written ts : forall fuel data pos out,
  Forall tag_ok ts -> at_suffix data pos (concat (map tag_wire ts)) -> (length ts <= fuel)%nat ->
  parse_tags fuel data pos out = Ok (out ++ tags_at pos ts).
Proof.
  induction ts as [|t ts IH]; intros fuel data pos out Hok Hs Hf.
  - cbn [map concat] in Hs. apply at_suffix_zlen in Hs. change (zlen (@nil byte)) with 0 in Hs.
    destruct fuel; cbn [parse_tags tags_at]; rewrite (proj2 (Z.leb_le _ _)) by lia; by rewrite app_nil_r.
  - apply list.Forall_cons in Hok as [Ht Hok]. cbn [map concat] in Hs.
    pose proof (at_suffix_zlen _ _ _ Hs) as Hz. rewrite zlen_app, zlen_tag_wire in Hz.
    pose proof (zlen_nonneg (ft_data t)). pose proof (zlen_nonneg (concat (map tag_wire ts))).
    unfold kTagHeaderSize, kPreviousTagSize in Hz.
    destruct fuel as [|fuel]; [cbn in Hf; lia|]. cbn [parse_tags]. rewrite (proj2 (Z.leb_gt _ _)) by lia.
    rewrite (parse_tag_written _ _ _ _ Ht Hs). cbn [rbind]. apply at_suffix_app in Hs.
    rewrite IH by (done || (cbn in Hf; lia)). cbn [tags_at]. rewrite <- app_assoc. cbn [app].
    by rewrite zlen_tag_wire, !Z.add_assoc.
Qed.

Lemma zlen_file_header a v : zlen (encode_file_header a v) = kFileHeaderTotalSize.
Proof. done. Qed.

Lemma flv_wire_roundtrip a v ts :
  Forall tag_ok ts ->
  parse_flv (write_tags (encode_file_header a v) ts) =
    Ok (mkParsedFlv 1 a v kFileHeaderSize 0 (tags_at kFileHeaderTotalSize ts)).
Proof.
  intros Hok. rewrite write_tags_wire by done. set (wire := concat (map tag_wire ts)).
  pose proof (at_suffix_intro (encode_file_header a v) wire) as Hs. rewrite zlen_file_header in Hs.
  set (data := encode_file_header a v ++ wire) in *.
  assert (Hlen : zlen data = 13 + zlen wire) by (subst data; by rewrite zlen_app).
  pose proof (zlen_nonneg wire). unfold parse_flv. unfold kFileHeaderTotalSize, kFileHeaderSize, kPreviousTagSize in *.
  rewrite (proj2 (Z.ltb_ge _ _)) by lia.
  assert (H0 : forall i b, 0 <= i -> encode_file_header a v !! Z.to_nat i = Some b -> byte_at data i = Ok b).
  { intros i b Hi Hb. unfold byte_at. rewrite (proj2 (Z.leb_le _ _)) by lia. subst data.
    by rewrite (lookup_app_l_Some _ _ _ _ Hb). }
  rewrite (H0 0 _ ltac:(lia) eq_refl), (H0 1 _ ltac:(lia) eq_refl), (H0 2 _ ltac:(lia) eq_refl). cbn [rbind].
  rewrite !bool_decide_eq_true_2 by done. cbn [negb orb]. unfold u8_at.
  rewrite (H0 3 _ ltac:(lia) eq_refl), (H0 4 _ ltac:(lia) eq_refl). cbn [rbind].
  assert (Hoff : read_u32_be_at data 5 = Ok 9).
  { apply (read_u32_be_at_suffix data 5 (write_u32_be 0 ++ wire) 9).
    exact (at_suffix_intro (take 5 (encode_file_header a v)) (write_u32_be 9 ++ write_u32_be 0 ++ wire)). }
  assert (Hprev : read_u32_be_at data 9 = Ok 0).
  { apply (read_u32_be_at_suffix data 9 wire 0).
    exact (at_suffix_intro (take 9 (encode_file_header a v)) (write_u32_be 0 ++ wire)). }
  rewrite Hoff. cbn [rbind]. rewrite (proj2 (Z.ltb_ge _ 9)), (proj2 (Z.ltb_ge _ 9)) by lia. cbn [orb].
  rewrite Hprev. cbn [rbind]. rewrite (parse_tags_written ts); [|done|done|].
  - cbn [rbind]. by destruct a, v.
  - unfold zlen in Hlen. assert (length ts <= length wire)%nat; [|lia]. subst wire. clear.
    induction ts as [|t ts IH]; [done|]. cbn [map concat length]. rewrite length_app.
    pose proof (zlen_tag_wire t) as Hz. pose proof (zlen_nonneg (ft_data t)).
    unfold zlen, kTagHeaderSize, kPreviousTagSize in *. lia.
Qed.

(** What this server writes as FLV it reads back: the header flags, and every tag with
    its type, size, 32-bit time stamp, place in the file and the size field behind it. *)
Theorem flv_roundtrip a v ts :
  Forall tag_ok ts ->
  parse_flv (write_tags (encode_file_header a v) ts) =
    Ok (mkParsedFlv 1 a v kFileHeaderSize 0 (tags_at kFileHeaderTotalSize ts)).
Proof. apply flv_wire_roundtrip. Qed.

(** * The onMetaData tag *)

Definition metadata_properties (meta : OnMetaData) : Amf0PropertyList :=
  map (fun kv => (kv.1, Number kv.2)) (numbers_a meta) ++ [("stereo", Boolean (stereo meta))] ++
  map (fun kv => (kv.1, Number kv.2)) (numbers_b meta).
Definition metadata_body (meta : OnMetaData) : list byte :=
  encode (String "onMetaData") ++ encode (EcmaArray (metadata_properties meta)).

Lemma metadata_tag_body meta ts :
  tag_bytes (build_onmetadata_tag meta ts) = append_tag [] kTagTypeScriptData (metadata_body meta) ts.
Proof. destruct meta as [? ? ? ? ? ? ? ? [] ?]; reflexivity. Qed.

Definition metadata_ok (meta : OnMetaData) : Prop :=
  Forall (fun bits => 0 <= bits < 2 ^ 64) (map snd (numbers_a meta ++ numbers_b meta)).
Definition with_results (meta : OnMetaData) (d f : Z) : OnMetaData :=
  mkOnMetaData d (width meta) (height meta) (framerate meta) (videocodecid meta) (audiocodecid meta)
    (audiosamplerate meta) (audiosamplesize meta) (stereo meta) f.

(** [FileSink::patch]: bytes of the file overwritten in place. *)
Definition overwrite (file : list byte) (offset : Z) (bytes : list byte) : list byte :=
  take (Z.to_nat offset) file ++ bytes ++ drop (Z.to_nat offset + length bytes) file.

(** The metadata tag holds what an AMF0 reader takes for the string onMetaData and an
    ECMA array of the ten properties, and overwriting the eight bytes at each of the two
    offsets it comes with gives the tag with that duration and that file size. *)
Theorem metadata_tag_patched meta ts d f :
  metadata_ok meta ->
  decode_all (metadata_body meta) = Ok [String "onMetaData"; EcmaArray (metadata_properties meta)] /\
  let tag := build_onmetadata_tag meta ts in
  tag_bytes tag = append_tag [] kTagTypeScriptData (metadata_body meta) ts /\
  overwrite (overwrite (tag_bytes tag) (duration_value_offset tag) (encode_double_be d))
    (filesize_value_offset tag) (encode_double_be f) =
  tag_bytes (build_onmetadata_tag (with_results meta d f) ts).
Proof.
  intros Hok. split; [|split; [apply metadata_tag_body|]].
  - assert (He : metadata_body meta = encode_items [String "onMetaData"; EcmaArray (metadata_properties meta)])
      by (unfold metadata_body; cbn [encode_items]; by rewrite app_nil_r).
    rewrite He. apply amf0_decode_all_encoded. rewrite !list.Forall_cons. split_and!; [done| |constructor].
    split; [|done]. unfold metadata_ok in Hok. destruct meta as [d0 w h fr vc ac ar asz st fs]. cbn in Hok.
    rewrite !list.Forall_cons in Hok. decompose [and] Hok. cbn [encodable metadata_properties].
    cbn. rewrite !(proj2 (Z.leb_le 0 _)), !(proj2 (Z.ltb_lt _ (Z.pow_pos 2 64))) by done. done.
  - destruct meta as [? ? ? ? ? ? ? ? [] ?]; reflexivity.
Qed.

(** * Examples *)

Definition sample_tags : list FlvTag :=
  [mkFlvTag 9 [x17; x00] 0; mkFlvTag 8 [xaf; x01; x21] 40; mkFlvTag 9 [x27; x01] 0x01000028].

Lemma flv_roundtrip_witness :
  tags_at 13 sample_tags =
    [mkParsedTag 9 2 0 13 24; mkParsedTag 8 3 40 14 41; mkParsedTag 9 2 0x01000028 13 59] /\
  parse_flv (write_tags (encode_file_header true true) sample_tags) =
    Ok (mkParsedFlv 1 true true 9 0 (tags_at 13 sample_tags)).
Proof.
  split; [reflexivity|]. apply flv_roundtrip.
  unfold sample_tags. rewrite !list.Forall_cons. split_and!; [..|constructor]; unfold tag_ok, zlen; cbn; lia.
Defined.

Lemma metadata_tag_patched_witness :
  let tag := build_onmetadata_tag default_metadata 0 in
  duration_value_offset tag = 40 /\
  overwrite (overwrite (tag_bytes tag) (duration_value_offset tag) (encode_double_be 0x4014000000000000))
    (filesize_value_offset tag) (encode_double_be 0x40C3880000000000) =
  tag_bytes (build_onmetadata_tag (with_results default_metadata 0x4014000000000000 0x40C3880000000000) 0).
Proof.
  split; [reflexivity|].
  apply (metadata_tag_patched default_metadata 0 0x4014000000000000 0x40C3880000000000).
  unfold metadata_ok. cbn. rewrite !list.Forall_cons. split_and!; [..|constructor]; lia.
Defined.
