(* ===== verification/Recorder.v ===== *)
(** recording/recorder.cpp: a stream recorded as FLV through a [FileSink]
    (recording/file_sink.hpp), and recording/recording_path.cpp. *)

From S2P Require Import Prelude Bytes Amf0 Amf0RoundTrip Chunk Flv.
From Stdlib Require Import SpecFloat.

(** * Doubles *)

(** The 64 bits of a binary64 number in canonical form. *)
Definition double_bits (f : spec_float) : Z :=
  match f with
  | S754_zero s => if s then 2 ^ 63 else 0
  | S754_infinity s => (if s then 2 ^ 63 else 0) + 2047 * 2 ^ 52
  | S754_nan => 4095 * 2 ^ 51
  | S754_finite s m e =>
      (if s then 2 ^ 63 else 0) +
      (if Zpos m <? 2 ^ 52 then Zpos m else (e + 1075) * 2 ^ 52 + (Zpos m - 2 ^ 52))
  end.
(** [static_cast<double>] of an unsigned integer, and the division by a double. *)
Definition double_of (z : Z) : spec_float := binary_normalize 53 1024 z 0 false.
Definition seconds_bits (ms : Z) : Z := double_bits (SFdiv 53 1024 (double_of ms) (double_of 1000)).

(** * The sink *)

(** file_sink.hpp. *)
Class FileSink (S : Type) := {
  append : S -> list byte -> S * Res unit;
  patch : S -> Z -> list byte -> S * Res unit;
  sink_finalize : S -> S * Res unit;
  pending_bytes : S -> Z
}.

Definition is_exhausted (e : Error) : bool :=
  match error_code e with ErrorCode.ResourceExhausted => true | _ => false end.

(** What file_sink.hpp promises: [contents] are the bytes accepted so far, as they will end
    up in the file; an append adds to the end, a patch overwrites in place, closing changes
    nothing, and an append refused for want of room leaves no trace.  A patch that is not
    inside what has been appended is outside the contract: no contents then. *)
Class FileSinkLaws (S : Type) `{FileSink S} := {
  contents : S -> option (list byte);
  append_done s data s' c : append s data = (s', Ok tt) -> contents s = Some c -> contents s' = Some (c ++ data);
  append_refused s data s' e : append s data = (s', Err e) -> is_exhausted e = true -> contents s' = contents s;
  append_returns s data : returns (snd (append s data));
  patch_done s offset data s' c : patch s offset data = (s', Ok tt) -> contents s = Some c ->
    0 <= offset -> offset + zlen data <= zlen c -> contents s' = Some (overwrite c offset data);
  patch_returns s offset data : returns (snd (patch s offset data));
  finalize_done s s' r : sink_finalize s = (s', r) -> contents s' = contents s
}.

(** * The recorder *)

Record RecorderStats := mkRecorderStats {
  tags_written : Z;
  bytes_written : Z;
  audio_tags : Z;
  video_tags : Z;
  dropped_frames : Z;
  dropped_bytes : Z;
  max_timestamp : Z;
  metadata_written : bool;
  failed : bool
}.
Definition no_recorder_stats : RecorderStats := mkRecorderStats 0 0 0 0 0 0 0 false false.

Section Recorder.
Context {S : Type} `{FileSink S}.

(** A [Recorder]: [RecorderConfig] has one field, [max_queued_bytes]. *)
Record Recorder := mkRecorder {
  sink_ : S;
  max_queued_bytes : Z;
  stats_ : RecorderStats;
  started_ : bool;
  finalized_ : bool;
  file_offset_ : Z;
  meta_ : OnMetaData;
  duration_patch_offset_ : option Z;
  filesize_patch_offset_ : option Z
}.
Definition make_recorder (sink : S) (config : Z) : Recorder :=
  mkRecorder sink config no_recorder_stats false false 0 default_metadata None None.

Definition copy_number (obj : Amf0Value) (key : string) (out : Z) : Z :=
  match find obj key with Some (Number bits) => bits | _ => out end.

Definition merge_metadata (obj : Amf0Value) (m : OnMetaData) : OnMetaData :=
  mkOnMetaData (copy_number obj "duration" (duration m)) (copy_number obj "width" (width m))
    (copy_number obj "height" (height m)) (copy_number obj "framerate" (framerate m))
    (copy_number obj "videocodecid" (videocodecid m)) (copy_number obj "audiocodecid" (audiocodecid m))
    (copy_number obj "audiosamplerate" (audiosamplerate m)) (copy_number obj "audiosamplesize" (audiosamplesize m))
    (match find obj "stereo" with Some (Boolean b) => b | _ => stereo m end) (filesize m).
Fixpoint first_metadata (values : list Amf0Value) (m : OnMetaData) : OnMetaData :=
  match values with
  | [] => m
  | (Object _ | EcmaArray _) as value :: _ => merge_metadata value m
  | _ :: values => first_metadata values m
  end.
(** A decoder that does not answer would hang the recorder: there is none such. *)
Definition extract_metadata (payload : list byte) (m : OnMetaData) : Res OnMetaData :=
  match decode_all payload with
  | Ok values => Ok (first_metadata values m)
  | Err _ => Ok m
  | Fault => Fault
  | OutOfFuel => OutOfFuel
  end.

Definition set_sink (r : Recorder) (sink : S) : Recorder :=
  mkRecorder sink (max_queued_bytes r) (stats_ r) (started_ r) (finalized_ r) (file_offset_ r) (meta_ r)
    (duration_patch_offset_ r) (filesize_patch_offset_ r).
Definition set_stats (r : Recorder) (t : RecorderStats) : Recorder :=
  mkRecorder (sink_ r) (max_queued_bytes r) t (started_ r) (finalized_ r) (file_offset_ r) (meta_ r)
    (duration_patch_offset_ r) (filesize_patch_offset_ r).
Definition set_started (r : Recorder) : Recorder :=
  mkRecorder (sink_ r) (max_queued_bytes r) (stats_ r) true (finalized_ r) (file_offset_ r) (meta_ r)
    (duration_patch_offset_ r) (filesize_patch_offset_ r).
Definition set_finalized (r : Recorder) : Recorder :=
  mkRecorder (sink_ r) (max_queued_bytes r) (stats_ r) (started_ r) true (file_offset_ r) (meta_ r)
    (duration_patch_offset_ r) (filesize_patch_offset_ r).
Definition set_meta (r : Recorder) (m : OnMetaData) : Recorder :=
  mkRecorder (sink_ r) (max_queued_bytes r) (stats_ r) (started_ r) (finalized_ r) (file_offset_ r) m
    (duration_patch_offset_ r) (filesize_patch_offset_ r).

(** Without the log line. *)
Definition mark_failed (r : Recorder) : Recorder :=
  let t := stats_ r in
  if failed t then r else
  set_stats r (mkRecorderStats (tags_written t) (bytes_written t) (audio_tags t) (video_tags t) (dropped_frames t)
                 (dropped_bytes t) (max_timestamp t) (metadata_written t) true).

(** [file_offset_ += n; stats_.bytes_written += n], with the rest of an append that went
    through. *)
Definition advanced (r : Recorder) (n : Z) (t : RecorderStats -> RecorderStats) : Recorder :=
  mkRecorder (sink_ r) (max_queued_bytes r) (t (stats_ r)) (started_ r) (finalized_ r) (file_offset_ r + n) (meta_ r)
    (duration_patch_offset_ r) (filesize_patch_offset_ r).
Definition count_header (n : Z) (t : RecorderStats) : RecorderStats :=
  mkRecorderStats (tags_written t) (bytes_written t + n) (audio_tags t) (video_tags t) (dropped_frames t)
    (dropped_bytes t) (max_timestamp t) (metadata_written t) (failed t).
Definition count_metadata (n : Z) (t : RecorderStats) : RecorderStats :=
  mkRecorderStats (tags_written t + 1) (bytes_written t + n) (audio_tags t) (video_tags t) (dropped_frames t)
    (dropped_bytes t) (max_timestamp t) true (failed t).
Definition count_tag (n ts : Z) (t : RecorderStats) : RecorderStats :=
  mkRecorderStats (tags_written t + 1) (bytes_written t + n) (audio_tags t) (video_tags t) (dropped_frames t)
    (dropped_bytes t) (if max_timestamp t <? ts then ts else max_timestamp t) (metadata_written t) (failed t).
Definition count_drop (n : Z) (t : RecorderStats) : RecorderStats :=
  mkRecorderStats (tags_written t) (bytes_written t) (audio_tags t) (video_tags t) (dropped_frames t + 1)
    (dropped_bytes t + n) (max_timestamp t) (metadata_written t) (failed t).
Definition count_kind (audio : bool) (t : RecorderStats) : RecorderStats :=
  mkRecorderStats (tags_written t) (bytes_written t) (audio_tags t + if audio then 1 else 0)
    (video_tags t + if audio then 0 else 1) (dropped_frames t) (dropped_bytes t) (max_timestamp t)
    (metadata_written t) (failed t).

Definition ensure_started (r : Recorder) : Recorder :=
  if started_ r || failed (stats_ r) then r else
  let r := set_started r in
  let header := encode_file_header true true in
  let '(sink, res) := append (sink_ r) header in
  let r := set_sink r sink in
  match res with
  | Ok _ => advanced r (zlen header) (count_header (zlen header))
  | _ => mark_failed r
  end.

Definition set_patches (r : Recorder) (d f : Z) : Recorder :=
  mkRecorder (sink_ r) (max_queued_bytes r) (stats_ r) (started_ r) (finalized_ r) (file_offset_ r) (meta_ r)
    (Some d) (Some f).
Definition ensure_metadata_written (r : Recorder) : Recorder :=
  if metadata_written (stats_ r) || failed (stats_ r) then r else
  let r := ensure_started r in
  if failed (stats_ r) then r else
  let tag := build_onmetadata_tag (meta_ r) 0 in
  let base := file_offset_ r in
  let '(sink, res) := append (sink_ r) (tag_bytes tag) in
  let r := set_sink r sink in
  match res with
  | Ok _ =>
      let r := set_patches r (base + duration_value_offset tag) (base + filesize_value_offset tag) in
      advanced r (zlen (tag_bytes tag)) (count_metadata (zlen (tag_bytes tag)))
  | _ => mark_failed r
  end.

Definition write_tag (r : Recorder) (type : Z) (payload : list byte) (ts : Z) : Recorder :=
  if failed (stats_ r) || finalized_ r then r else
  let framed := append_tag [] type payload ts in
  if max_queued_bytes r <? pending_bytes (sink_ r) + zlen framed then
    set_stats r (count_drop (zlen framed) (stats_ r)) else
  let '(sink, res) := append (sink_ r) framed in
  let r := set_sink r sink in
  match res with
  | Ok _ => advanced r (zlen framed) (count_tag (zlen framed) ts)
  | Err e =>
      if is_exhausted e then set_stats r (count_drop (zlen framed) (stats_ r)) else mark_failed r
  | _ => mark_failed r
  end.

Definition on_metadata (r : Recorder) (message : RtmpMessage) : Res Recorder :=
  if finalized_ r || failed (stats_ r) then Ok r else
  if negb (metadata_written (stats_ r)) then
    m <- extract_metadata (payload message) (meta_ r) ;;
    Ok (ensure_metadata_written (set_meta r m))
  else Ok r.

Definition on_media (audio : bool) (r : Recorder) (message : RtmpMessage) : Recorder :=
  if finalized_ r || failed (stats_ r) || match payload message with [] => true | _ => false end then r else
  let r := ensure_metadata_written r in
  if failed (stats_ r) then r else
  let r := write_tag r (if audio then kTagTypeAudio else kTagTypeVideo) (payload message) (Chunk.timestamp message) in
  set_stats r (count_kind audio (stats_ r)).
Definition on_audio (r : Recorder) (message : RtmpMessage) : Recorder := on_media true r message.
Definition on_video (r : Recorder) (message : RtmpMessage) : Recorder := on_media false r message.

Definition patch_results (r : Recorder) : Recorder :=
  match duration_patch_offset_ r, filesize_patch_offset_ r with
  | Some doff, Some foff =>
      if failed (stats_ r) then r else
      let '(sink, res) := patch (sink_ r) doff (encode_double_be (seconds_bits (max_timestamp (stats_ r)))) in
      let r := set_sink r sink in
      let r := match res with Ok _ => r | _ => mark_failed r end in
      if failed (stats_ r) then r else
      let '(sink, res) := patch (sink_ r) foff (encode_double_be (double_bits (double_of (file_offset_ r)))) in
      let r := set_sink r sink in
      match res with Ok _ => r | _ => mark_failed r end
  | _, _ => r
  end.
Definition finalize (r : Recorder) : Recorder :=
  if finalized_ r then r else
  let r := set_finalized r in
  let r := if failed (stats_ r) then r else ensure_metadata_written r in
  let r := patch_results r in
  let '(sink, res) := sink_finalize (sink_ r) in
  let r := set_sink r sink in
  match res with Ok _ => r | _ => mark_failed r end.

End Recorder.
Arguments Recorder S : clear implicits.
