(* ===== verification/RecorderFile.v ===== *)
(** What is in the file a recorder writes. *)

From S2P Require Import Prelude Bytes Amf0 Amf0RoundTrip Chunk Flv Recorder.

Section Recorded.
Context {S : Type} `{FileSinkLaws S}.
Implicit Types (r : Recorder S) (acc : list FlvTag).

Definition script_tag (m : OnMetaData) : FlvTag := mkFlvTag kTagTypeScriptData (metadata_body m) 0.

Definition file_of r acc : list byte :=
  (if started_ r then encode_file_header true true else []) ++
  (if metadata_written (stats_ r) then tag_wire (script_tag (meta_ r)) else []) ++ concat (map tag_wire acc).

Definition latest (ts : list FlvTag) : Z := fold_left (fun m t => Z.max m (ft_timestamp t)) ts 0.

(** A recorder that has not failed has put down the header, the metadata and the tags
    [acc], and knows where it is. *)
Record recorded r acc : Prop := {
  rc_content : contents (sink_ r) = Some (file_of r acc);
  rc_offset : file_offset_ r = zlen (file_of r acc);
  rc_bytes : bytes_written (stats_ r) = file_offset_ r;
  rc_patches : metadata_written (stats_ r) = true ->
    started_ r = true /\
    duration_patch_offset_ r = Some (kFileHeaderTotalSize + duration_value_offset (build_onmetadata_tag (meta_ r) 0)) /\
    filesize_patch_offset_ r = Some (kFileHeaderTotalSize + filesize_value_offset (build_onmetadata_tag (meta_ r) 0));
  rc_none : metadata_written (stats_ r) = false -> acc = [];
  rc_count : tags_written (stats_ r) = (if metadata_written (stats_ r) then 1 else 0) + zlen acc;
  rc_max : max_timestamp (stats_ r) = latest acc;
  rc_ok : Forall tag_ok acc
}.

Lemma script_tag_ok m : tag_ok (script_tag m).
Proof. split; [cbn; unfold kTagTypeScriptData; lia|]. split; [|cbn; lia]. destruct m as [? ? ? ? ? ? ? ? [] ?]; reflexivity. Qed.

Lemma script_tag_bytes m : tag_bytes (build_onmetadata_tag m 0) = tag_wire (script_tag m).
Proof. rewrite metadata_tag_body. apply (append_tag_wire [] (script_tag m)). apply script_tag_ok. Qed.

Lemma mark_failed_failed r : failed (stats_ (mark_failed r)) = true.
Proof. unfold mark_failed. by destruct (failed (stats_ r)) eqn:Hf. Qed.

(** What an append through the sink comes to, for a recorder that goes on. *)
Lemma append_outcome r data c :
  contents (sink_ r) = Some c ->
  (exists s', append (sink_ r) data = (s', Ok tt) /\ contents s' = Some (c ++ data)) \/
  (exists s' e, append (sink_ r) data = (s', Err e) /\ (is_exhausted e = true -> contents s' = Some c)).
Proof.
  intros Hc. pose proof (append_returns (sink_ r) data) as Hr. destruct (append (sink_ r) data) as [s' res] eqn:Ha. cbn in Hr.
  destruct res as [ [] |e| |]; try done.
  - left. exists s'. split; [done|]. by eapply append_done.
  - right. exists s', e. split; [done|]. intros Hx. rewrite <- Hc. by eapply append_refused.
Qed.

Lemma ensure_started_recorded r :
  recorded r [] -> metadata_written (stats_ r) = false -> failed (stats_ r) = false ->
  let r' := ensure_started r in
  meta_ r' = meta_ r /\ finalized_ r' = finalized_ r /\ metadata_written (stats_ r') = false /\
  dropped_frames (stats_ r') = dropped_frames (stats_ r) /\
  (failed (stats_ r') = false -> recorded r' [] /\ started_ r' = true).
Proof.
  intros Hr Hm Hf. unfold ensure_started. rewrite Hf, orb_false_r. destruct (started_ r) eqn:Hs; [by split_and!|].
  cbv zeta. destruct (append_outcome (set_started r) (encode_file_header true true) _ (rc_content _ _ Hr))
    as [(s' & -> & Ha) | (s' & e & -> & _)]; cbn [set_started sink_] in *.
  2: { unfold mark_failed. cbn [set_sink stats_ set_started]. rewrite Hf. by split_and!. }
  split_and!; try done. intros _. split; [|done]. destruct Hr as [R1 R2 R3 R4 R5 R6 R7 R8].
  unfold file_of in *. rewrite Hs, Hm in R1, R2, Ha.
  split; unfold file_of; cbn [advanced set_sink set_started sink_ started_ stats_ meta_ file_offset_ count_header metadata_written
              bytes_written duration_patch_offset_ filesize_patch_offset_ tags_written max_timestamp]; try done.
  - by rewrite Ha, Hm.
  - rewrite R2, Hm. done.
  - by rewrite R3.
  - by rewrite Hm.
Qed.

Lemma ensure_metadata_recorded r acc :
  recorded r acc -> failed (stats_ r) = false ->
  let r' := ensure_metadata_written r in
  meta_ r' = meta_ r /\ finalized_ r' = finalized_ r /\ dropped_frames (stats_ r') = dropped_frames (stats_ r) /\
  (failed (stats_ r') = false -> recorded r' acc /\ metadata_written (stats_ r') = true).
Proof.
  intros Hr Hf. unfold ensure_metadata_written. rewrite Hf, orb_false_r.
  destruct (metadata_written (stats_ r)) eqn:Hm; [by split_and!|].
  pose proof (rc_none _ _ Hr Hm) as ->.
  destruct (ensure_started_recorded r Hr Hm Hf) as (E1 & E2 & E3 & E4 & E5). cbv zeta.
  set (r1 := ensure_started r) in *. destruct (failed (stats_ r1)) eqn:Hf1; [by rewrite Hf1; split_and!|].
  destruct (E5 eq_refl) as [Hr1 Hs1]. rewrite !script_tag_bytes.
  destruct (append_outcome r1 (tag_wire (script_tag (meta_ r1))) _ (rc_content _ _ Hr1)) as [(s' & -> & Ha) | (s' & e & -> & _)].
  2: { unfold mark_failed. cbn [set_sink stats_]. rewrite Hf1. by split_and!. }
  split_and!; try done. intros _. split; [|done]. destruct Hr1 as [R1 R2 R3 R4 R5 R6 R7 R8].
  unfold file_of in *. rewrite Hs1, E3 in *.
  split; unfold file_of; cbn [advanced set_sink set_patches sink_ started_ stats_ meta_ file_offset_ count_metadata metadata_written
              bytes_written duration_patch_offset_ filesize_patch_offset_ tags_written max_timestamp]; try done.
  - rewrite Ha, Hs1. cbn [map concat app]. by rewrite !app_nil_r.
  - rewrite R2, Hs1. cbn [map concat app]. by rewrite !zlen_app, !zlen_nil, !Z.add_0_r.
  - by rewrite R3.
  - intros _. rewrite R2. by rewrite zlen_app, zlen_file_header.
  - rewrite R6. change (zlen (@nil FlvTag)) with 0. lia.
Qed.

Lemma latest_snoc acc t : latest (acc ++ [t]) = Z.max (latest acc) (ft_timestamp t).
Proof. unfold latest. by rewrite fold_left_app. Qed.

Lemma write_tag_recorded r acc t :
  recorded r acc -> failed (stats_ r) = false -> metadata_written (stats_ r) = true -> finalized_ r = false -> tag_ok t ->
  let r' := write_tag r (ft_type t) (ft_data t) (ft_timestamp t) in
  meta_ r' = meta_ r /\ finalized_ r' = false /\
  (failed (stats_ r') = false ->
     (recorded r' (acc ++ [t]) /\ dropped_frames (stats_ r') = dropped_frames (stats_ r)) \/
     (recorded r' acc /\ dropped_frames (stats_ r') = dropped_frames (stats_ r) + 1)).
Proof.
  intros Hr Hf Hm Hfin Ht. unfold write_tag. rewrite Hf, Hfin. cbn [orb]. cbv zeta.
  rewrite (append_tag_wire [] t Ht). cbn [app].
  assert (Hdrop : forall s', contents s' = Some (file_of r acc) ->
    recorded (set_stats (set_sink r s') (count_drop (zlen (tag_wire t)) (stats_ r))) acc).
  { intros s' Ha. destruct Hr as [R1 R2 R3 R4 R5 R6 R7 R8]. by split. }
  destruct (Z.ltb_spec (max_queued_bytes r) (pending_bytes (sink_ r) + zlen (tag_wire t))).
  { split_and!; try done. intros _. right. split; [|done]. apply (Hdrop (sink_ r)). apply Hr. }
  destruct (append_outcome r (tag_wire t) _ (rc_content _ _ Hr)) as [(s' & -> & Ha) | (s' & e & -> & Ha)].
  - split_and!; try done. intros _. left. split; [|done]. destruct Hr as [R1 R2 R3 R4 R5 R6 R7 R8].
    destruct (R4 Hm) as (Hs & _). unfold file_of in *. rewrite Hs, Hm in *.
    split; unfold file_of; cbn [advanced set_sink sink_ started_ stats_ meta_ file_offset_ count_tag metadata_written
              bytes_written duration_patch_offset_ filesize_patch_offset_ tags_written max_timestamp]; rewrite ?Hs, ?Hm; try done.
    + rewrite Ha, map_app, concat_app. cbn [map concat].
      by rewrite app_nil_r, <- !app_assoc.
    + rewrite R2, map_app, concat_app. cbn [map concat]. rewrite app_nil_r, !zlen_app. lia.
    + by rewrite R3.
    + rewrite R6, zlen_app. change (zlen [t]) with 1. lia.
    + rewrite R7, latest_snoc. destruct (Z.ltb_spec (latest acc) (ft_timestamp t)); lia.
    + apply Forall_app. split; [done|by apply Forall_singleton].
  - destruct (is_exhausted e) eqn:He.
    + split_and!; try done. intros _. right. split; [|done]. apply Hdrop. by apply Ha.
    + unfold mark_failed. cbn [set_sink stats_]. rewrite Hf. by split_and!.
Qed.

(** * A recording *)

Inductive RecorderEvent :=
| Metadata (message : RtmpMessage)
| Audio (message : RtmpMessage)
| Video (message : RtmpMessage).

Definition record_event r (e : RecorderEvent) : Res (Recorder S) :=
  match e with
  | Metadata message => on_metadata r message
  | Audio message => Ok (on_audio r message)
  | Video message => Ok (on_video r message)
  end.
Fixpoint record_events r (es : list RecorderEvent) : Res (Recorder S) :=
  match es with [] => Ok r | e :: es => r <- record_event r e ;; record_events r es end.

(** The tags of the media messages; an empty message makes none. *)
Definition media_tag (e : RecorderEvent) : list FlvTag :=
  match e with
  | Metadata _ => []
  | Audio m => if payload m then [] else [mkFlvTag kTagTypeAudio (payload m) (Chunk.timestamp m)]
  | Video m => if payload m then [] else [mkFlvTag kTagTypeVideo (payload m) (Chunk.timestamp m)]
  end.
Definition media_tags (es : list RecorderEvent) : list FlvTag := concat (map media_tag es).
Definition event_message (e : RecorderEvent) : RtmpMessage :=
  match e with Metadata m | Audio m | Video m => m end.
Definition event_ok (e : RecorderEvent) : Prop :=
  zlen (payload (event_message e)) < 2 ^ 24 /\ 0 <= Chunk.timestamp (event_message e) < 2 ^ 32.

(** Where a recording stands after the media [given] to it. *)
Definition going r (given : list FlvTag) : Prop :=
  failed (stats_ r) = false ->
  exists acc, recorded r acc /\ acc `sublist_of` given /\ zlen acc + dropped_frames (stats_ r) = zlen given.

Lemma on_media_going (audio : bool) r given m :
  going r given -> finalized_ r = false -> event_ok (if audio then Audio m else Video m) ->
  let r' := on_media audio r m in
  finalized_ r' = false /\ going r' (given ++ media_tag (if audio then Audio m else Video m)).
Proof.
  intros Hg Hfin Hm. unfold on_media. rewrite Hfin. cbn [orb]. cbv zeta.
  destruct (failed (stats_ r)) eqn:Hf; cbn [orb]; [split; [done|]; unfold going; by rewrite Hf|].
  destruct (payload m) as [|b bs] eqn:Hp.
  { split; [done|]. destruct audio; cbn [media_tag]; rewrite Hp, app_nil_r; done. }
  destruct (Hg Hf) as (acc & Hr & Hsub & Hlen).
  destruct (ensure_metadata_recorded r acc Hr Hf) as (_ & E2 & E3 & E4). set (r1 := ensure_metadata_written r) in *.
  destruct (failed (stats_ r1)) eqn:Hf1; [split; [congruence|]; unfold going; by rewrite Hf1|].
  destruct (E4 eq_refl) as [Hr1 Hm1].
  set (t := mkFlvTag (if audio then kTagTypeAudio else kTagTypeVideo) (payload m) (Chunk.timestamp m)).
  assert (Ht : tag_ok t).
  { destruct Hm as [Hm2 Hm3]. unfold tag_ok, t. cbn [ft_type ft_data ft_timestamp].
    destruct audio; cbn in *; unfold kTagTypeAudio, kTagTypeVideo; lia. }
  assert (Hmt : media_tag (if audio then Audio m else Video m) = [t]) by (subst t; destruct audio; cbn; by rewrite Hp).
  rewrite Hmt, <- Hp. destruct (write_tag_recorded r1 acc t Hr1 Hf1 Hm1 ltac:(congruence) Ht) as (W1 & W2 & W3).
  cbn [t ft_type ft_data ft_timestamp] in *. set (r2 := write_tag r1 _ _ _) in *. split; [done|]. intros Hf2.
  assert (Hc : forall acc', recorded r2 acc' -> recorded (set_stats r2 (count_kind audio (stats_ r2))) acc')
    by (intros acc' []; by split).
  change (failed (stats_ r2) = false) in Hf2. cbn [set_stats stats_ count_kind dropped_frames]. rewrite zlen_app.
  change (zlen [t]) with 1. destruct (W3 Hf2) as [[Hw Hd] | [Hw Hd] ].
  - exists (acc ++ [t]). split; [by apply Hc|]. split; [by apply sublist_app|]. rewrite zlen_app.
    change (zlen [t]) with 1. lia.
  - exists acc. split; [by apply Hc|]. split; [by apply sublist_inserts_r|]. lia.
Qed.

Lemma extract_metadata_answers p m : exists m', extract_metadata p m = Ok m'.
Proof.
  unfold extract_metadata. pose proof (decode_all_returns p) as Hd. destruct (decode_all p); try done; by eexists.
Qed.

Lemma set_meta_recorded r m acc : recorded r acc -> metadata_written (stats_ r) = false -> recorded (set_meta r m) acc.
Proof.
  intros [R1 R2 R3 R4 R5 R6 R7 R8] Hm. unfold file_of in *.
  split; unfold file_of; cbn [set_meta sink_ started_ stats_ meta_ file_offset_ duration_patch_offset_ filesize_patch_offset_];
    rewrite ?Hm in *; try done.
Qed.

Lemma on_metadata_going r given m :
  going r given -> finalized_ r = false ->
  exists r', on_metadata r m = Ok r' /\ finalized_ r' = false /\ going r' given.
Proof.
  intros Hg Hfin. unfold on_metadata. rewrite Hfin. cbn [orb].
  destruct (failed (stats_ r)) eqn:Hf; [by exists r|]. destruct (metadata_written (stats_ r)) eqn:Hm; cbn [negb]; [by exists r|].
  destruct (extract_metadata_answers (payload m) (meta_ r)) as [m' ->]. cbn [rbind]. eexists. split; [reflexivity|].
  destruct (Hg Hf) as (acc & Hr & Hsub & Hlen).
  destruct (ensure_metadata_recorded (set_meta r m') acc (set_meta_recorded r m' acc Hr Hm) Hf) as (_ & E2 & E3 & E4).
  cbn [set_meta finalized_ stats_] in *. split; [congruence|]. intros Hf'. destruct (E4 Hf') as [Hr' _].
  exists acc. split; [done|]. split; [done|]. by rewrite E3.
Qed.

Lemma record_event_going r given e :
  going r given -> finalized_ r = false -> event_ok e ->
  exists r', record_event r e = Ok r' /\ finalized_ r' = false /\ going r' (given ++ media_tag e).
Proof.
  intros Hg Hfin He. destruct e as [m|m|m]; cbn [record_event].
  - cbn [media_tag]. rewrite app_nil_r. by apply on_metadata_going.
  - exists (on_audio r m). split; [done|]. by apply (on_media_going true).
  - exists (on_video r m). split; [done|]. by apply (on_media_going false).
Qed.

Lemma record_events_going es : forall r given,
  going r given -> finalized_ r = false -> Forall event_ok es ->
  exists r', record_events r es = Ok r' /\ finalized_ r' = false /\ going r' (given ++ media_tags es).
Proof.
  induction es as [|e es IH]; intros r given Hg Hfin He.
  { exists r. unfold media_tags. cbn. by rewrite app_nil_r. }
  apply list.Forall_cons in He as [He Hes]. destruct (record_event_going r given e Hg Hfin He) as (r1 & H1 & F1 & G1).
  cbn [record_events]. rewrite H1. cbn [rbind]. destruct (IH r1 _ G1 F1 Hes) as (r2 & H2 & F2 & G2).
  exists r2. split; [done|]. split; [done|]. unfold media_tags in *. cbn [map concat]. by rewrite app_assoc.
Qed.

Lemma make_recorder_recorded (s : S) limit : contents s = Some [] -> recorded (make_recorder s limit) [].
Proof. intros Hs. split; try done; cbn; try constructor. Qed.

(** * The end of a recording *)

Lemma overwrite_app_l a b offset bytes :
  0 <= offset -> offset + zlen bytes <= zlen a -> overwrite (a ++ b) offset bytes = overwrite a offset bytes ++ b.
Proof.
  intros Hz Hl. unfold overwrite, zlen in *. rewrite take_app_le by lia. rewrite drop_app_le by lia.
  by rewrite <- !app_assoc.
Qed.
Lemma overwrite_app_r a b offset bytes :
  0 <= offset -> overwrite (a ++ b) (zlen a + offset) bytes = a ++ overwrite b offset bytes.
Proof.
  intros Hz. unfold overwrite, zlen. rewrite Z2Nat.inj_add, Nat2Z.id by lia.
  rewrite take_app_add. by rewrite <- Nat.add_assoc, drop_app_add, <- app_assoc.
Qed.
Lemma zlen_overwrite a offset bytes :
  0 <= offset -> offset + zlen bytes <= zlen a -> zlen (overwrite a offset bytes) = zlen a.
Proof.
  intros Hz Hl. unfold overwrite, zlen in *. rewrite !length_app, length_take, length_drop. lia.
Qed.

Lemma zlen_encode_double bits : zlen (encode_double_be bits) = 8.
Proof. done. Qed.

(** Where the two placeholders of the tag are; checked on the tag itself. *)
Lemma metadata_offsets m :
  duration_value_offset (build_onmetadata_tag m 0) = 40 /\
  filesize_value_offset (build_onmetadata_tag m 0) = 220 /\ zlen (tag_wire (script_tag m)) = 235.
Proof. rewrite <- script_tag_bytes. destruct m as [? ? ? ? ? ? ? ? [] ?]; by split_and!. Qed.

(** The file of a finished recording: the results in the metadata, then the tags. *)
Definition finished_file (m : OnMetaData) (size : Z) acc : list byte :=
  write_tags (encode_file_header true true)
    (script_tag (with_results m (seconds_bits (latest acc)) (double_bits (double_of size))) :: acc).

Lemma patched_file m acc d f :
  overwrite (overwrite (encode_file_header true true ++ tag_wire (script_tag m) ++ concat (map tag_wire acc))
    (13 + duration_value_offset (build_onmetadata_tag m 0)) (encode_double_be d))
    (13 + filesize_value_offset (build_onmetadata_tag m 0)) (encode_double_be f) =
  encode_file_header true true ++ tag_wire (script_tag (with_results m d f)) ++ concat (map tag_wire acc).
Proof.
  destruct (metadata_offsets m) as (O1 & O2 & O3).
  change 13 with (zlen (encode_file_header true true)). rewrite overwrite_app_r by lia.
  rewrite (overwrite_app_l (tag_wire (script_tag m))) by (rewrite ?O3, ?zlen_encode_double; lia).
  rewrite overwrite_app_r by lia. f_equal.
Qed.

Lemma mark_failed_still r : failed (stats_ (mark_failed r)) = false -> False.
Proof. by rewrite mark_failed_failed. Qed.

Lemma patch_results_file r acc :
  recorded r acc -> metadata_written (stats_ r) = true -> failed (stats_ r) = false ->
  let r' := patch_results r in
  meta_ r' = meta_ r /\ finalized_ r' = finalized_ r /\ dropped_frames (stats_ r') = dropped_frames (stats_ r) /\
  file_offset_ r' = file_offset_ r /\
  (failed (stats_ r') = false -> contents (sink_ r') = Some (finished_file (meta_ r) (file_offset_ r) acc)).
Proof.
  intros Hr Hm Hf. pose proof Hr as [R1 R2 R3 R4 R5 R6 R7 R8]. destruct (R4 Hm) as (Hs & Hd & Hfs).
  destruct (metadata_offsets (meta_ r)) as (O1 & O2 & O3). unfold file_of in *. rewrite Hs, Hm in *.
  unfold patch_results. rewrite Hd, Hfs, Hf. cbv zeta.
  set (d := seconds_bits (max_timestamp (stats_ r))). set (f := double_bits (double_of (file_offset_ r))).
  destruct (patch (sink_ r) _ (encode_double_be d)) as [s1 res1] eqn:Hp1.
  pose proof (patch_returns (sink_ r) (kFileHeaderTotalSize + duration_value_offset (build_onmetadata_tag (meta_ r) 0))
    (encode_double_be d)) as Hr1. rewrite Hp1 in Hr1. cbn in Hr1.
  assert (Hfail : forall r0 : Recorder S, meta_ r0 = meta_ r /\ finalized_ r0 = finalized_ r /\
      dropped_frames (stats_ r0) = dropped_frames (stats_ r) /\ file_offset_ r0 = file_offset_ r /\
      failed (stats_ r0) = false ->
    meta_ (mark_failed r0) = meta_ r /\ finalized_ (mark_failed r0) = finalized_ r /\
    dropped_frames (stats_ (mark_failed r0)) = dropped_frames (stats_ r) /\
    file_offset_ (mark_failed r0) = file_offset_ r /\ (failed (stats_ (mark_failed r0)) = false -> False)).
  { intros r0 (A1 & A2 & A3 & A4 & A5). unfold mark_failed. rewrite A5. by split_and!. }
  destruct res1 as [ [] |e| |]; try done.
  2: { destruct (Hfail (set_sink r s1)) as (F1 & F2 & F3 & F4 & F5); [by split_and!|].
       rewrite (mark_failed_failed (set_sink r s1)). split_and!; try done; by rewrite mark_failed_failed. }
  cbn [set_sink stats_]. rewrite Hf. cbn [set_sink sink_ file_offset_].
  destruct (patch s1 _ (encode_double_be (double_bits _))) as [s2 res2] eqn:Hp2.
  pose proof (patch_returns s1 (kFileHeaderTotalSize + filesize_value_offset (build_onmetadata_tag (meta_ r) 0))
    (encode_double_be f)) as Hr2. unfold f in Hr2. rewrite Hp2 in Hr2. cbn in Hr2.
  destruct res2 as [ [] |e| |]; try done.
  2: { destruct (Hfail (set_sink (set_sink r s1) s2)) as (F1 & F2 & F3 & F4 & F5); [by split_and!|].
       by split_and!. }
  split_and!; try done. intros _. cbn [set_sink sink_] in *.
  pose proof (zlen_nonneg (concat (map tag_wire acc))). unfold kFileHeaderTotalSize, kFileHeaderSize, kPreviousTagSize in *.
  assert (Hlen : zlen (encode_file_header true true ++ tag_wire (script_tag (meta_ r)) ++ concat (map tag_wire acc)) =
    13 + 235 + zlen (concat (map tag_wire acc))) by (rewrite !zlen_app, zlen_file_header, O3; unfold kFileHeaderTotalSize, kFileHeaderSize, kPreviousTagSize; lia).
  pose proof (patch_done _ _ _ _ _ Hp1 R1 ltac:(lia) ltac:(rewrite Hlen, zlen_encode_double; lia)) as Hc1.
  rewrite (patch_done _ _ _ _ _ Hp2 Hc1) by (rewrite ?zlen_overwrite; rewrite ?Hlen, ?zlen_encode_double; lia).
  f_equal. unfold finished_file, d. rewrite R7. fold f.
  rewrite write_tags_wire by (constructor; [apply script_tag_ok|done]). cbn [map concat].
  exact (patched_file (meta_ r) acc (seconds_bits (latest acc)) f).
Qed.

(** How a recorder that has not failed ends. *)
Lemma finalize_recorded r acc :
  recorded r acc -> finalized_ r = false -> failed (stats_ r) = false ->
  failed (stats_ (finalize r)) = false ->
  finalized_ (finalize r) = true /\ dropped_frames (stats_ (finalize r)) = dropped_frames (stats_ r) /\
  contents (sink_ (finalize r)) = Some (finished_file (meta_ r) (file_offset_ (finalize r)) acc) /\
  file_offset_ (finalize r) = zlen (finished_file (meta_ r) (file_offset_ (finalize r)) acc).
Proof.
  intros Hr Hfin Hf. assert (Hr0 : recorded (set_finalized r) acc) by (destruct Hr; by split).
  destruct (ensure_metadata_recorded (set_finalized r) acc Hr0 Hf) as (E1 & E2 & E3 & E4).
  unfold finalize. rewrite Hfin. cbv zeta. change (failed (stats_ (set_finalized r))) with (failed (stats_ r)). rewrite Hf.
  set (r1 := ensure_metadata_written (set_finalized r)) in *. destruct (failed (stats_ r1)) eqn:Hf1.
  { assert (patch_results r1 = r1) as ->.
    { unfold patch_results. rewrite Hf1. by destruct (duration_patch_offset_ r1), (filesize_patch_offset_ r1). }
    destruct (sink_finalize (sink_ r1)) as [s' [u|e| |] ]; cbn; rewrite ?mark_failed_failed; cbn; by rewrite ?Hf1. }
  destruct (E4 eq_refl) as [Hr1 Hm1]. destruct (patch_results_file r1 acc Hr1 Hm1 Hf1) as (P1 & P2 & P3 & P4 & P5).
  set (r2 := patch_results r1) in *. destruct (sink_finalize (sink_ r2)) as [s' res] eqn:Hs.
  destruct res as [u|e| |]; try (rewrite mark_failed_failed; done). cbn [set_sink stats_ sink_ finalized_ file_offset_].
  intros Hf2. specialize (P5 Hf2).
  rewrite (finalize_done _ _ _ Hs), P5, P4. split_and!; [by rewrite P2, E2|by rewrite P3, E3|by rewrite E1|].
  rewrite (rc_offset _ _ Hr1). destruct (rc_patches _ _ Hr1 Hm1) as (Hst & _). unfold file_of, finished_file.
  rewrite Hst, Hm1, write_tags_wire by (constructor; [apply script_tag_ok|apply Hr1]). cbn [map concat].
  rewrite !zlen_app. pose proof (fun m => proj2 (proj2 (metadata_offsets m))) as Hz. by rewrite !Hz.
Qed.

(** A recording, over any sink that keeps to its contract and whatever it refuses or
    fails: the recorder answers every message, and when it ends without having failed, the
    accepted bytes read back as FLV with the metadata first and then the media messages
    that were not dropped, in order, with their types, sizes and time stamps; every other
    one is counted as dropped; the duration in the metadata is the last time stamp and the
    file size is the size of the file. *)
Lemma recording_reads_back sink limit es :
  contents sink = Some [] -> Forall event_ok es ->
  exists r, record_events (make_recorder sink limit) es = Ok r /\ finalized_ r = false /\
    (failed (stats_ (finalize r)) = false ->
     exists acc m c,
       contents (sink_ (finalize r)) = Some c /\
       acc `sublist_of` media_tags es /\
       zlen acc + dropped_frames (stats_ (finalize r)) = zlen (media_tags es) /\
       c = finished_file m (zlen c) acc /\
       parse_flv c =
         Ok (mkParsedFlv 1 true true kFileHeaderSize 0
               (tags_at kFileHeaderTotalSize
                  (script_tag (with_results m (seconds_bits (latest acc)) (double_bits (double_of (zlen c)))) :: acc)))).
Proof.
  intros Hs He. assert (Hg : going (make_recorder sink limit) []).
  { intros _. exists []. split; [by apply make_recorder_recorded|]. by split. }
  destruct (record_events_going es _ [] Hg eq_refl He) as (r & Hr & Hfin & Hgo). exists r. split; [done|]. split; [done|].
  intros Hf. assert (Hf0 : failed (stats_ r) = false).
  { destruct (failed (stats_ r)) eqn:Hx; [|done]. unfold finalize in Hf. rewrite Hfin in Hf.
    cbn [set_finalized stats_] in Hf. rewrite Hx in Hf. unfold patch_results in Hf. cbn in Hf. rewrite Hx in Hf.
    destruct (duration_patch_offset_ r), (filesize_patch_offset_ r); cbn in Hf;
      destruct (sink_finalize (sink_ r)) as [s' [u|e| |] ]; cbn in Hf; rewrite ?mark_failed_failed in Hf; cbn in Hf;
      congruence. }
  destruct (Hgo Hf0) as (acc & Hrec & Hsub & Hlen). cbn [app] in *.
  destruct (finalize_recorded r acc Hrec Hfin Hf0 Hf) as (_ & Hd & Hc & Ho).
  exists acc, (meta_ r), (finished_file (meta_ r) (file_offset_ (finalize r)) acc). split; [done|]. split; [done|].
  split; [by rewrite Hd|]. rewrite <- Ho. split; [done|].
  apply flv_wire_roundtrip. constructor; [apply script_tag_ok|apply Hrec].
Qed.

End Recorded.

(** * What calls keep *)

Section Kept.
Context {S : Type} `{FileSink S} (P : S -> Prop).
Hypothesis P_append : forall s bytes, P s -> P (fst (append s bytes)).
Hypothesis P_patch : forall s offset bytes, P s -> P (fst (patch s offset bytes)).
Implicit Types r : Recorder S.

Lemma mark_failed_sink r : sink_ (mark_failed r) = sink_ r.
Proof. unfold mark_failed. by destruct (failed (stats_ r)). Qed.
Ltac kept := repeat first [rewrite mark_failed_sink | progress cbn [set_sink set_stats set_started set_patches advanced sink_] ].

Lemma ensure_started_keeps r : P (sink_ r) -> P (sink_ (ensure_started r)).
Proof.
  intros Hp. unfold ensure_started. destruct (_ || _); [done|]. cbv zeta. pose proof (P_append (sink_ r) (encode_file_header true true) Hp).
  cbn [set_started sink_]. destruct (append (sink_ r) _) as [s [u|e| |] ]; by kept.
Qed.
Lemma ensure_metadata_keeps r : P (sink_ r) -> P (sink_ (ensure_metadata_written r)).
Proof.
  intros Hp. unfold ensure_metadata_written. destruct (_ || _); [done|]. cbv zeta.
  apply ensure_started_keeps in Hp. set (r1 := ensure_started r) in *. destruct (failed (stats_ r1)); [done|].
  pose proof (P_append (sink_ r1) (tag_bytes (build_onmetadata_tag (meta_ r1) 0)) Hp).
  destruct (append (sink_ r1) _) as [s [u|e| |] ]; by kept.
Qed.
Lemma write_tag_keeps r type payload ts : P (sink_ r) -> P (sink_ (write_tag r type payload ts)).
Proof.
  intros Hp. unfold write_tag. destruct (_ || _); [done|]. cbv zeta. destruct (_ <? _); [done|].
  pose proof (P_append (sink_ r) (append_tag [] type payload ts) Hp).
  destruct (append (sink_ r) _) as [s [u|e| |] ]; kept; try done. by destruct (is_exhausted e); kept.
Qed.
Lemma record_event_keeps r e r' : record_event r e = Ok r' -> P (sink_ r) -> P (sink_ r').
Proof.
  intros He Hp. assert (Hm : forall audio m, P (sink_ (on_media audio r m))).
  { intros audio m. unfold on_media. destruct (_ || _); [done|]. cbv zeta. apply ensure_metadata_keeps in Hp.
    destruct (failed _); [done|]. kept. by apply write_tag_keeps. }
  destruct e as [m|m|m]; cbn [record_event] in He; [|injection He as <-; by apply Hm..].
  unfold on_metadata in He. destruct (_ || _); [by injection He as <-|]. destruct (negb _); [|by injection He as <-].
  destruct (extract_metadata _ _); cbn [rbind] in He; try done. injection He as <-. by apply ensure_metadata_keeps.
Qed.
Lemma record_events_keeps es : forall r r', record_events r es = Ok r' -> P (sink_ r) -> P (sink_ r').
Proof.
  induction es as [|e es IH]; intros r r' Hr Hp; [by injection Hr as <-|]. cbn [record_events] in Hr.
  destruct (record_event r e) as [r1| | |] eqn:He; cbn [rbind] in Hr; try done.
  apply (IH r1 r' Hr). by apply (record_event_keeps r e).
Qed.
Lemma patch_results_keeps r : P (sink_ r) -> P (sink_ (patch_results r)).
Proof.
  intros Hp. unfold patch_results. destruct (duration_patch_offset_ r) as [doff|]; [|done].
  destruct (filesize_patch_offset_ r) as [foff|]; [|done]. destruct (failed (stats_ r)); [done|].
  pose proof (P_patch (sink_ r) doff (encode_double_be (seconds_bits (max_timestamp (stats_ r)))) Hp) as H1.
  destruct (patch (sink_ r) doff _) as [s1 res1]. cbv zeta.
  assert (H2 : P (sink_ match res1 with Ok _ => set_sink r s1 | _ => mark_failed (set_sink r s1) end)) by (by destruct res1; kept).
  set (r1 := match res1 with Ok _ => _ | _ => _ end) in *. destruct (failed (stats_ r1)); [done|].
  pose proof (P_patch (sink_ r1) foff (encode_double_be (double_bits (double_of (file_offset_ r1)))) H2) as H3.
  destruct (patch (sink_ r1) foff _) as [s2 [u|e| |] ]; by kept.
Qed.
(** The last thing a recorder does with its sink is to close it. *)
Lemma recorder_closes_sink r :
  P (sink_ r) -> finalized_ r = false -> exists s, P s /\ sink_ (finalize r) = fst (sink_finalize s).
Proof.
  intros Hp Hf. unfold finalize. rewrite Hf. cbv zeta. set (r1 := if failed _ then _ else _).
  assert (Hp1 : P (sink_ r1)) by (unfold r1; destruct (failed _); [done|]; by apply ensure_metadata_keeps).
  apply patch_results_keeps in Hp1. exists (sink_ (patch_results r1)). split; [done|].
  destruct (sink_finalize _) as [s [u|e| |] ]; by kept.
Qed.
End Kept.
