(* ===== verification/AsyncSink.v ===== *)
(** recording/async_file_sink.cpp: the file sink with a writer thread, as producer calls and
    writer steps.  A turn of [writer_loop] is one step: what it does between taking an
    operation off the queue and looking at it again touches nothing the producer sees but
    [healthy_].  The system calls answer from a script.  [data] is what has gone to the
    .part file, [published] whether it has been renamed to its final name.  Metrics, log
    lines, the error texts of errno and the destructor (which only waits) are left out. *)

From S2P Require Import Prelude Bytes Flv Recorder.

Record Options := mkOptions {
  max_queue_bytes : Z;
  min_free_bytes : Z;
  disk_check_interval_bytes : Z;
  fsync_on_finalize : bool
}.

Record SinkStats := mkSinkStats {
  sink_bytes_written : Z;
  queue_high_water : Z;
  overflow_events : Z;
  patches_applied : Z;
  stats_finalized : bool;
  renamed : bool
}.

Inductive Op :=
| Append (bytes : list byte)
| Patch (offset : Z) (bytes : list byte).
Definition op_data (op : Op) : list byte := match op with Append bytes | Patch _ bytes => bytes end.

Record AsyncFileSink := mkAsyncFileSink {
  data : list byte;
  published : bool;
  open_ : bool;  (* fd_ >= 0 *)
  options_ : Options;
  queue_ : list Op;
  finalize_requested_ : bool;
  finalize_done_ : bool;
  sink_stats : SinkStats;
  failure_ : option Error;
  queued_bytes_ : Z;
  healthy_ : bool;
  write_offset_ : Z;
  bytes_since_disk_check_ : Z
}.

Definition storage_error (code : ErrorCode.t) (what : string) : Error := mkError code ErrorCategory.Storage what.

(** [AsyncFileSink::open], when ::open gives a file; it is truncated. *)
Definition open_sink (path : string) (options : Options) (opened : bool) : Res AsyncFileSink :=
  if String.eqb path "" then
    Err (storage_error ErrorCode.InvalidConfiguration "recording path is empty") else
  if max_queue_bytes options =? 0 then
    Err (storage_error ErrorCode.InvalidConfiguration "max_queue_bytes must be non-zero") else
  if negb opened then Err (storage_error ErrorCode.StorageUnavailable "open") else
  Ok (mkAsyncFileSink [] false true options [] false false (mkSinkStats 0 0 0 0 false false) None 0 true 0 0).

(** * The producer's side *)

Definition with_queue (s : AsyncFileSink) (queue : list Op) (bytes : Z) (t : SinkStats) : AsyncFileSink :=
  mkAsyncFileSink (data s) (published s) (open_ s) (options_ s) queue (finalize_requested_ s) (finalize_done_ s) t
    (failure_ s) bytes (healthy_ s) (write_offset_ s) (bytes_since_disk_check_ s).
Definition count_overflow (t : SinkStats) : SinkStats :=
  mkSinkStats (sink_bytes_written t) (queue_high_water t) (overflow_events t + 1) (patches_applied t)
    (stats_finalized t) (renamed t).
Definition note_high_water (t : SinkStats) (now : Z) : SinkStats :=
  mkSinkStats (sink_bytes_written t) (if queue_high_water t <? now then now else queue_high_water t)
    (overflow_events t) (patches_applied t) (stats_finalized t) (renamed t).
Definition failure (s : AsyncFileSink) : Error :=
  match failure_ s with Some e => e | None => mkError ErrorCode.None ErrorCategory.Protocol "" end.

Definition sink_append (s : AsyncFileSink) (bytes : list byte) : AsyncFileSink * Res unit :=
  if match bytes with [] => true | _ => false end then (s, Ok tt) else
  if negb (healthy_ s) then (s, Err (failure s)) else
  if finalize_requested_ s then
    (s, Err (storage_error ErrorCode.InvalidStateTransition "append after finalize")) else
  let queued := queued_bytes_ s in
  if max_queue_bytes (options_ s) <? queued + zlen bytes then
    (with_queue s (queue_ s) queued (count_overflow (sink_stats s)),
     Err (storage_error ErrorCode.ResourceExhausted "recording queue full")) else
  let now := queued + zlen bytes in
  (with_queue s (queue_ s ++ [Append bytes]) now (note_high_water (sink_stats s) now), Ok tt).

Definition sink_patch (s : AsyncFileSink) (offset : Z) (bytes : list byte) : AsyncFileSink * Res unit :=
  if match bytes with [] => true | _ => false end then (s, Ok tt) else
  if negb (healthy_ s) then (s, Err (failure s)) else
  let queued := queued_bytes_ s in
  if max_queue_bytes (options_ s) <? queued + zlen bytes then
    (with_queue s (queue_ s) queued (count_overflow (sink_stats s)),
     Err (storage_error ErrorCode.ResourceExhausted "recording queue full (patch)")) else
  (with_queue s (queue_ s ++ [Patch offset bytes]) (queued + zlen bytes) (sink_stats s), Ok tt).

Definition request_finalize (s : AsyncFileSink) : AsyncFileSink * Res unit :=
  if finalize_requested_ s then (s, Ok tt) else
  (mkAsyncFileSink (data s) (published s) (open_ s) (options_ s) (queue_ s) true (finalize_done_ s) (sink_stats s)
     (failure_ s) (queued_bytes_ s) (healthy_ s) (write_offset_ s) (bytes_since_disk_check_ s), Ok tt).

(** * The writer's side *)

(** What the system calls of one turn answer. *)
Inductive PwriteAnswer :=
| Wrote (n : Z)      (* n > 0 bytes of the rest, or all of it *)
| Interrupted        (* EINTR *)
| NoProgress
| WriteError.
Record Script := mkScript {
  writes : list PwriteAnswer;   (* then everything is written *)
  free_bytes : option Z;        (* statvfs; [None]: it failed *)
  fsync_answers : list bool;    (* [true]: EINTR, [false]: an error; then success *)
  rename_works : bool
}.

Definition mark_sink_failed (s : AsyncFileSink) (e : Error) : AsyncFileSink :=
  match failure_ s with
  | Some _ => s
  | None =>
      mkAsyncFileSink (data s) (published s) (open_ s) (options_ s) (queue_ s) (finalize_requested_ s)
        (finalize_done_ s) (sink_stats s) (Some e) (queued_bytes_ s) false (write_offset_ s)
        (bytes_since_disk_check_ s)
  end.

(** [::pwrite]: a gap before [offset] reads as zeroes. *)
Definition pwrite (file : list byte) (offset : Z) (bytes : list byte) : list byte :=
  take (Z.to_nat offset) (file ++ repeat x00 (Z.to_nat offset - length file)) ++ bytes ++
  drop (Z.to_nat offset + length bytes) file.

Definition set_data (s : AsyncFileSink) (file : list byte) : AsyncFileSink :=
  mkAsyncFileSink file (published s) (open_ s) (options_ s) (queue_ s) (finalize_requested_ s) (finalize_done_ s)
    (sink_stats s) (failure_ s) (queued_bytes_ s) (healthy_ s) (write_offset_ s) (bytes_since_disk_check_ s).

(** The loop of [apply]: the bytes left go to [offset]. *)
Fixpoint write_loop (answers : list PwriteAnswer) (s : AsyncFileSink) (offset : Z) (bytes : list byte) :
  AsyncFileSink * bool :=
  match bytes with
  | [] => (s, true)
  | _ =>
      match answers with
      | [] => (set_data s (pwrite (data s) offset bytes), true)
      | Interrupted :: answers => write_loop answers s offset bytes
      | NoProgress :: _ =>
          (mark_sink_failed s (storage_error ErrorCode.StorageWriteFailed "pwrite made no progress"), false)
      | WriteError :: _ => (mark_sink_failed s (storage_error ErrorCode.StorageWriteFailed "pwrite"), false)
      | Wrote n :: answers =>
          let n := Z.to_nat (Z.max 1 (Z.min n (zlen bytes))) in
          let s := set_data s (pwrite (data s) offset (take n bytes)) in
          write_loop answers s (offset + Z.of_nat n) (drop n bytes)
      end
  end.

Definition note_append (s : AsyncFileSink) (n : Z) : AsyncFileSink :=
  let t := sink_stats s in
  mkAsyncFileSink (data s) (published s) (open_ s) (options_ s) (queue_ s) (finalize_requested_ s) (finalize_done_ s)
    (mkSinkStats (sink_bytes_written t + n) (queue_high_water t) (overflow_events t) (patches_applied t)
       (stats_finalized t) (renamed t))
    (failure_ s) (queued_bytes_ s) (healthy_ s) (write_offset_ s + n) (bytes_since_disk_check_ s).
Definition note_patch (s : AsyncFileSink) : AsyncFileSink :=
  let t := sink_stats s in
  with_queue s (queue_ s) (queued_bytes_ s)
    (mkSinkStats (sink_bytes_written t) (queue_high_water t) (overflow_events t) (patches_applied t + 1)
       (stats_finalized t) (renamed t)).

Definition apply_op (s : AsyncFileSink) (op : Op) (answers : list PwriteAnswer) : AsyncFileSink * bool :=
  let offset := match op with Patch offset _ => offset | Append _ => write_offset_ s end in
  let '(s, ok) := write_loop answers s offset (op_data op) in
  if negb ok then (s, false) else
  match op with
  | Append bytes => (note_append s (zlen bytes), true)
  | Patch _ _ => (note_patch s, true)
  end.

Definition check_disk_space (s : AsyncFileSink) (script : Script) : AsyncFileSink :=
  match free_bytes script with
  | None => s
  | Some free =>
      if free <? min_free_bytes (options_ s)
      then mark_sink_failed s (storage_error ErrorCode.StorageUnavailable "free disk space below configured minimum")
      else s
  end.

(** [while (::fsync(fd_) != 0)]: an interrupted call is made again. *)
Fixpoint fsync_fails (answers : list bool) : bool :=
  match answers with
  | [] => false
  | true :: answers => fsync_fails answers
  | false :: _ => true
  end.
Definition closed (s : AsyncFileSink) (published done : bool) (t : SinkStats) : AsyncFileSink :=
  mkAsyncFileSink (data s) published false (options_ s) (queue_ s) (finalize_requested_ s) done t (failure_ s)
    (queued_bytes_ s) (healthy_ s) (write_offset_ s) (bytes_since_disk_check_ s).
Definition do_finalize (s : AsyncFileSink) (script : Script) : AsyncFileSink :=
  let s :=
    if healthy_ s && fsync_on_finalize (options_ s) && open_ s && fsync_fails (fsync_answers script)
    then mark_sink_failed s (storage_error ErrorCode.StorageWriteFailed "fsync") else s in
  let s := closed s (published s) (finalize_done_ s) (sink_stats s) in
  let moved := healthy_ s && rename_works script in
  let s :=
    if healthy_ s && negb (rename_works script)
    then mark_sink_failed s (storage_error ErrorCode.StorageWriteFailed "rename") else s in
  let t := sink_stats s in
  closed s (published s || moved) true
    (mkSinkStats (sink_bytes_written t) (queue_high_water t) (overflow_events t) (patches_applied t) true moved).

Definition count_checked (s : AsyncFileSink) (n : Z) : AsyncFileSink :=
  mkAsyncFileSink (data s) (published s) (open_ s) (options_ s) (queue_ s) (finalize_requested_ s) (finalize_done_ s)
    (sink_stats s) (failure_ s) (queued_bytes_ s) (healthy_ s) (write_offset_ s) n.

(** A turn of [writer_loop]: nothing while it waits, and nothing once it has returned. *)
Definition writer_step (s : AsyncFileSink) (script : Script) : AsyncFileSink :=
  if finalize_done_ s then s else
  match queue_ s with
  | [] => if finalize_requested_ s then do_finalize s script else s
  | op :: rest =>
      let s := with_queue s rest (queued_bytes_ s - zlen (op_data op)) (sink_stats s) in
      if negb (healthy_ s) then s else
      let '(s, ok) := apply_op s op (writes script) in
      if negb ok then s else
      let n := bytes_since_disk_check_ s + zlen (op_data op) in
      if disk_check_interval_bytes (options_ s) <=? n
      then check_disk_space (count_checked s 0) script
      else count_checked s n
  end.
Definition writer_steps (s : AsyncFileSink) (scripts : list Script) : AsyncFileSink :=
  fold_left writer_step scripts s.
