(* ===== verification/AsyncSinkFile.v ===== *)
(** The asynchronous sink keeps to the contract of a [FileSink] under every interleaving of
    the recorder and the writer thread, a published recording reads back, and finalizing
    ends. *)

From S2P Require Import Prelude Bytes Amf0 Amf0RoundTrip Chunk Flv Recorder RecorderFile AsyncSink.

(** * What the accepted operations come to *)

(** An operation on a file; a patch has to stay within what is there. *)
Definition replay_op (file : option (list byte)) (op : Op) : option (list byte) :=
  f ← file;
  match op with
  | Append bytes => Some (f ++ bytes)
  | Patch offset bytes =>
      if (0 <=? offset) && (offset + zlen bytes <=? zlen f) then Some (overwrite f offset bytes) else None
  end.
Definition replay (ops : list Op) : option (list byte) := fold_left replay_op ops (Some []).

Lemma replay_snoc ops op : replay (ops ++ [op]) = replay_op (replay ops) op.
Proof. unfold replay. by rewrite fold_left_app. Qed.
Lemma replay_none ops : fold_left replay_op ops None = None.
Proof. by induction ops. Qed.
Lemma replay_before ops ops' : replay (ops ++ ops') <> None -> replay ops <> None.
Proof. unfold replay. rewrite fold_left_app. intros Hr Hn. rewrite Hn, replay_none in Hr. done. Qed.

(** * One write *)

Lemma pwrite_within file offset bytes :
  0 <= offset <= zlen file -> pwrite file offset bytes = overwrite file offset bytes.
Proof.
  intros Ho. unfold pwrite, overwrite, zlen in *.
  replace (Z.to_nat offset - length file)%nat with 0%nat by lia. cbn [repeat]. by rewrite app_nil_r.
Qed.
Lemma overwrite_end file bytes : overwrite file (zlen file) bytes = file ++ bytes.
Proof. unfold overwrite, zlen. rewrite Nat2Z.id, take_ge, drop_ge by lia. by rewrite app_nil_r. Qed.
Lemma overwrite_nil file offset : 0 <= offset -> overwrite file offset [] = file.
Proof. intros Ho. unfold overwrite. rewrite Nat.add_0_r. cbn. apply take_drop. Qed.
(** Two writes one after the other are one. *)
Lemma overwrite_twice file offset n bytes :
  0 <= offset <= zlen file -> (n <= length bytes)%nat ->
  overwrite (overwrite file offset (take n bytes)) (offset + Z.of_nat n) (drop n bytes) = overwrite file offset bytes.
Proof.
  intros Ho Hn. unfold overwrite, zlen in *. set (o := Z.to_nat offset).
  replace (Z.to_nat (offset + Z.of_nat n)) with (o + n)%nat by lia.
  assert (Hl : length (take o file ++ take n bytes) = (o + n)%nat) by (rewrite length_app, !length_take; lia).
  rewrite (app_assoc (take o file)), <- Hl, take_app_length, drop_app_add, drop_drop, length_take, length_drop.
  replace (o + n `min` length bytes + (length bytes - n))%nat with (o + length bytes)%nat by lia.
  by rewrite <- app_assoc, (app_assoc (take n bytes)), take_drop.
Qed.

(** What a writer leaves alone. *)
Definition frame (s s' : AsyncFileSink) : Prop :=
  queue_ s' = queue_ s /\ options_ s' = options_ s /\ finalize_requested_ s' = finalize_requested_ s /\
  finalize_done_ s' = finalize_done_ s /\ published s' = published s /\ queued_bytes_ s' = queued_bytes_ s /\
  write_offset_ s' = write_offset_ s /\ open_ s' = open_ s.
#[export] Instance frame_preorder : PreOrder frame.
Proof. split; [intros s; by split_and! | intros s1 s2 s3 H1 H2; unfold frame in *; intuition congruence]. Qed.

(** A sink is healthy until it has a failure to show. *)
Definition coherent (s : AsyncFileSink) : Prop := healthy_ s = true <-> failure_ s = None.

Lemma mark_sink_failed_spec s e :
  coherent s ->
  frame s (mark_sink_failed s e) /\ coherent (mark_sink_failed s e) /\ healthy_ (mark_sink_failed s e) = false.
Proof.
  unfold mark_sink_failed, coherent. intros Hc. destruct (failure_ s) eqn:Hf.
  - split; [done|]. rewrite Hf. split; [done|]. by destruct (healthy_ s); [discriminate (proj1 Hc eq_refl)|].
  - split; [by split_and!|]. cbn. split; [split; discriminate|done].
Qed.

Lemma write_loop_spec answers : forall s offset bytes s' ok,
  write_loop answers s offset bytes = (s', ok) -> coherent s ->
  frame s s' /\ coherent s' /\ (healthy_ s = true -> healthy_ s' = ok) /\ (healthy_ s = false -> healthy_ s' = false) /\
  (ok = true -> 0 <= offset <= zlen (data s) -> data s' = overwrite (data s) offset bytes).
Proof.
  induction answers as [|answer answers IH]; intros s offset bytes s' ok Hw Hc.
  { destruct bytes as [|b bs]; injection Hw as <- <-.
    - split_and!; try done. intros _ Ho. by rewrite overwrite_nil by lia.
    - split_and!; try done. intros _ Ho. cbn [set_data data]. by apply pwrite_within. }
  destruct bytes as [|b bs].
  { injection Hw as <- <-. split_and!; try done. intros _ Ho. by rewrite overwrite_nil by lia. }
  cbn [write_loop] in Hw. destruct answer as [n| | |].
  2: by apply IH.
  2,3: injection Hw as <- <-;
    destruct (mark_sink_failed_spec s (storage_error ErrorCode.StorageWriteFailed "pwrite made no progress") Hc) as (F1 & C1 & U1);
    destruct (mark_sink_failed_spec s (storage_error ErrorCode.StorageWriteFailed "pwrite") Hc) as (F2 & C2 & U2);
    by split_and!.
  set (k := Z.to_nat (Z.max 1 (Z.min n (zlen (b :: bs))))) in *.
  assert (Hk : (k <= length (b :: bs))%nat) by (unfold k, zlen; cbn [length]; lia).
  destruct (IH _ _ _ _ _ Hw Hc) as (F & C & U1 & U2 & D). split_and!; try done. intros Hok Ho.
  rewrite pwrite_within in D by done. cbn [set_data data] in D. rewrite D.
  - by apply overwrite_twice.
  - done.
  - split; [lia|]. unfold overwrite, zlen in *. rewrite !length_app, !length_take, length_drop. lia.
Qed.

(** * One turn of the writer *)

(** A sink between operations, when [accepted] are the operations it has taken so far: as
    long as it is healthy the file is the result of those that have left the queue. *)
Record sound (accepted : list Op) (s : AsyncFileSink) : Prop := {
  so_coherent : coherent s;
  so_queued : queued_bytes_ s = fold_right (fun op n => zlen (op_data op) + n) 0 (queue_ s);
  so_bound : queued_bytes_ s <= max_queue_bytes (options_ s);
  so_done : finalize_done_ s = true -> finalize_requested_ s = true;
  so_published : published s = true -> healthy_ s = true /\ finalize_done_ s = true;
  so_file : healthy_ s = true -> replay accepted <> None ->
    exists before, accepted = before ++ queue_ s /\ replay before = Some (data s) /\ write_offset_ s = zlen (data s)
}.

Lemma replay_op_write before op file s' s offset :
  replay before = Some file -> replay_op (Some file) op <> None ->
  offset = match op with Patch offset _ => offset | Append _ => zlen file end ->
  (0 <= offset <= zlen file -> data s' = overwrite file offset (op_data op)) -> data s = data s' ->
  replay (before ++ [op]) = Some (data s).
Proof.
  intros Hb Hop -> Hd ->. rewrite replay_snoc, Hb. destruct op as [bytes|offset bytes]; cbn in *.
  - rewrite Hd, overwrite_end; [done|]. pose proof (zlen_nonneg file). lia.
  - destruct (Z.leb_spec 0 offset); [|done]. destruct (Z.leb_spec (offset + zlen bytes) (zlen file)); [|done]. cbn in *.
    rewrite Hd; [done|]. pose proof (zlen_nonneg bytes). lia.
Qed.

Lemma apply_op_spec s op answers s' ok :
  apply_op s op answers = (s', ok) -> coherent s ->
  queue_ s' = queue_ s /\ options_ s' = options_ s /\ finalize_requested_ s' = finalize_requested_ s /\
  finalize_done_ s' = finalize_done_ s /\ published s' = published s /\ queued_bytes_ s' = queued_bytes_ s /\
  open_ s' = open_ s /\ coherent s' /\ (healthy_ s = true -> healthy_ s' = ok) /\
  (forall before, ok = true -> replay before = Some (data s) -> write_offset_ s = zlen (data s) ->
     replay (before ++ [op]) <> None ->
     replay (before ++ [op]) = Some (data s') /\ write_offset_ s' = zlen (data s')).
Proof.
  unfold apply_op. intros Ha Hc.
  destruct (write_loop answers s _ (op_data op)) as [s1 ok1] eqn:Hw.
  destruct (write_loop_spec _ _ _ _ _ _ Hw Hc) as ((F1 & F2 & F3 & F4 & F5 & F6 & F7 & F8) & C1 & U1 & _ & D1).
  assert (Hfile : forall before s2, ok1 = true -> data s2 = data s1 -> replay before = Some (data s) ->
    write_offset_ s = zlen (data s) -> replay (before ++ [op]) <> None -> replay (before ++ [op]) = Some (data s2)).
  { intros before s2 Hok Hd Hb Hz Hn. eapply (replay_op_write before op (data s) s1); try done.
    - by rewrite replay_snoc, Hb in Hn.
    - intros Ho. rewrite <- Hz in Ho |- *. apply D1; [done|]. rewrite <- Hz. by destruct op. }
  destruct ok1; cbn [negb] in Ha; [|injection Ha as <- <-; by split_and!].
  assert (Hlen : forall before s2, replay before = Some (data s) -> replay (before ++ [op]) = Some (data s2) ->
    write_offset_ s = zlen (data s) ->
    zlen (data s2) = write_offset_ s + match op with Append bytes => zlen bytes | Patch _ _ => 0 end).
  { intros before s2 Hb Hn Hz. rewrite replay_snoc, Hb, Hz in *. destruct op as [bytes|offset bytes]; cbn in Hn.
    - injection Hn as <-. by rewrite zlen_app.
    - destruct (Z.leb_spec 0 offset); [|done]. destruct (Z.leb_spec (offset + zlen bytes) (zlen (data s))); [|done].
      injection Hn as <-. rewrite zlen_overwrite; lia. }
  destruct op as [bytes|offset bytes]; injection Ha as <- <-;
    (split_and!; try done; intros before _ Hb Hz Hn).
  - pose proof (Hfile before (note_append s1 (zlen bytes)) eq_refl eq_refl Hb Hz Hn) as Hr. split; [done|].
    rewrite (Hlen before _ Hb Hr Hz). cbn [note_append write_offset_]. by rewrite F7.
  - pose proof (Hfile before (note_patch s1) eq_refl eq_refl Hb Hz Hn) as Hr. split; [done|].
    rewrite (Hlen before _ Hb Hr Hz). cbn [note_patch with_queue write_offset_]. rewrite F7. lia.
Qed.

Lemma zlen_data_nonneg s : 0 <= fold_right (fun op n => zlen (op_data op) + n) 0 (queue_ s).
Proof. induction (queue_ s) as [|op q IH]; cbn; [lia|]. pose proof (zlen_nonneg (op_data op)). lia. Qed.

Lemma do_finalize_sound accepted s script :
  sound accepted s -> finalize_requested_ s = true -> finalize_done_ s = false -> queue_ s = [] ->
  sound accepted (do_finalize s script).
Proof.
  intros [S1 S2 S3 S4 S5 S6] Hreq Hdone Hq.
  assert (Hpub : published s = false) by (destruct (published s); [by destruct (S5 eq_refl); congruence|done]).
  unfold do_finalize. set (s1 := if _ && fsync_fails _ then _ else s).
  assert (Hs1 : frame s s1 /\ coherent s1 /\ (healthy_ s1 = true -> s1 = s)).
  { unfold s1. destruct (healthy_ s && _ && _ && _); [|done].
    destruct (mark_sink_failed_spec s (storage_error ErrorCode.StorageWriteFailed "fsync") S1) as (F & C & U).
    split_and!; try done. congruence. }
  destruct Hs1 as ((F1 & F2 & F3 & F4 & F5 & F6 & F7 & F8) & C1 & U1). cbn [closed healthy_].
  set (s2 := closed s1 _ _ _).
  destruct (healthy_ s1) eqn:Hh; cbn [andb].
  - pose proof (U1 eq_refl) as E1. destruct (rename_works script) eqn:Hr; cbn [negb].
    + split; cbn [s2 closed queued_bytes_ queue_ options_ healthy_ finalize_done_ finalize_requested_ published data write_offset_];
        rewrite ?E1; try done. intros _. by rewrite <- E1.
    + destruct (mark_sink_failed_spec s2 (storage_error ErrorCode.StorageWriteFailed "rename")) as ((G1 & G2 & G3 & G4 & G5 & G6 & G7 & G8) & C2 & U2); [done|].
      split; cbn [closed queued_bytes_ queue_ options_ healthy_ finalize_done_ finalize_requested_ published data write_offset_];
        rewrite ?G1, ?G2, ?G3, ?G6, ?G5, ?U2; cbn [s2 closed queued_bytes_ queue_ options_ finalize_requested_ published]; try congruence; try done.
      rewrite F5, Hpub. done.
  - split; cbn [s2 closed queued_bytes_ queue_ options_ healthy_ finalize_done_ finalize_requested_ published data write_offset_];
      try congruence; try done. rewrite F5, Hpub. done.
Qed.

Lemma writer_step_sound accepted s script : sound accepted s -> sound accepted (writer_step s script).
Proof.
  intros Hs. unfold writer_step. destruct (finalize_done_ s) eqn:Hdone; [done|].
  destruct (queue_ s) as [|op rest] eqn:Hq.
  { destruct (finalize_requested_ s) eqn:Hreq; [|done]. by apply do_finalize_sound. }
  destruct Hs as [S1 S2 S3 S4 S5 S6]. rewrite Hq in *. cbn [fold_right] in S2.
  pose proof (zlen_nonneg (op_data op)). set (s0 := with_queue s rest _ _).
  assert (Hpub : published s = false) by (destruct (published s); [by destruct (S5 eq_refl); congruence|done]).
  destruct (healthy_ s0) eqn:Hh; cbn [negb].
  2: { cbn in Hh. split; cbn [s0 with_queue queued_bytes_ queue_ options_ healthy_ finalize_done_ finalize_requested_ published];
         try done; rewrite ?Hh; try done; try lia. }
  change (healthy_ s = true) in Hh. destruct (apply_op s0 op (writes script)) as [s1 ok] eqn:Ha.
  destruct (apply_op_spec _ _ _ _ _ Ha S1) as (F1 & F2 & F3 & F4 & F5 & F6 & F7 & C1 & U1 & D1).
  specialize (U1 Hh).
  assert (Hs1 : sound accepted s1).
  { split; rewrite ?F1, ?F2, ?F3, ?F4, ?F5, ?F6; cbn [s0 with_queue queued_bytes_ queue_ options_ finalize_done_ finalize_requested_ published];
      try done; try congruence; try lia.
    intros Hh1 Hn. destruct (S6 Hh Hn) as (before & -> & Hb & Hz). exists (before ++ [op]). rewrite <- app_assoc. split; [done|].
    apply D1; [congruence|done|done|]. apply (replay_before _ rest). by rewrite <- app_assoc. }
  destruct ok; cbn [negb]; [|done].
  assert (Hc : forall n, sound accepted (count_checked s1 n)) by (intros n; destruct Hs1; by split).
  destruct (_ <=? _); [|done]. unfold check_disk_space. destruct (free_bytes script); [|done].
  destruct (_ <? _); [|done]. set (s2 := count_checked s1 0). destruct (Hc 0) as [T1 T2 T3 T4 T5 T6]. fold s2 in T1, T2, T3, T4, T5, T6.
  edestruct (mark_sink_failed_spec s2) as ((G1 & G2 & G3 & G4 & G5 & G6 & G7 & G8) & C2 & U2); [done|].
  split; rewrite ?G1, ?G2, ?G3, ?G4, ?G5, ?G6, ?U2; try done. cbn. rewrite F5. cbn. by rewrite Hpub.
Qed.
Lemma writer_steps_sound accepted scripts : forall s, sound accepted s -> sound accepted (writer_steps s scripts).
Proof. induction scripts as [|script scripts IH]; [done|]. intros s Hs. by apply IH, writer_step_sound. Qed.

(** Health does not come back. *)
Lemma mark_sink_failed_healthy s e : healthy_ (mark_sink_failed s e) = true -> healthy_ s = true.
Proof. unfold mark_sink_failed. by destruct (failure_ s). Qed.
Lemma writer_step_healthy s script : healthy_ (writer_step s script) = true -> healthy_ s = true.
Proof.
  unfold writer_step. destruct (finalize_done_ s); [done|]. destruct (healthy_ s) eqn:Hh; [done|].
  destruct (queue_ s); cbn [with_queue healthy_]; rewrite ?Hh; cbn; [|congruence].
  destruct (finalize_requested_ s); [|congruence]. unfold do_finalize. rewrite Hh. cbn. rewrite Hh. cbn. by rewrite Hh.
Qed.
Lemma writer_steps_healthy scripts : forall s, healthy_ (writer_steps s scripts) = true -> healthy_ s = true.
Proof.
  induction scripts as [|script scripts IH]; [done|]. intros s Hs. by eapply writer_step_healthy, IH.
Qed.

(** The writer does not ask for the end. *)
Lemma writer_step_requested s script :
  coherent s -> finalize_requested_ (writer_step s script) = finalize_requested_ s.
Proof.
  intros Hc. unfold writer_step. destruct (finalize_done_ s); [done|]. destruct (queue_ s) as [|op rest].
  { destruct (finalize_requested_ s) eqn:Hr; [|done]. unfold do_finalize, mark_sink_failed.
    destruct (failure_ s) eqn:Hf, (healthy_ s); cbn; repeat (case_match; cbn); done. }
  set (s0 := with_queue s rest _ _). destruct (healthy_ s0); [|done]. cbn [negb].
  destruct (apply_op s0 op (writes script)) as [s1 ok] eqn:Ha.
  destruct (apply_op_spec _ _ _ _ _ Ha Hc) as (_ & _ & F3 & _). destruct ok; [|done]. cbn [negb].
  destruct (_ <=? _); [|done]. unfold check_disk_space. destruct (free_bytes script); [|done].
  destruct (_ <? _); [|done]. unfold mark_sink_failed. by destruct (failure_ _).
Qed.
Lemma writer_steps_requested accepted scripts : forall s,
  sound accepted s -> finalize_requested_ (writer_steps s scripts) = finalize_requested_ s.
Proof.
  induction scripts as [|script scripts IH]; [done|]. intros s Hs. cbn [writer_steps fold_left].
  etrans; [by apply IH, writer_step_sound|]. apply writer_step_requested. apply Hs.
Qed.

(** * The producer's calls *)

Definition sink_append_op (bytes : list byte) : list Op := match bytes with [] => [] | _ => [Append bytes] end.
Definition sink_patch_op (offset : Z) (bytes : list byte) : list Op :=
  match bytes with [] => [] | _ => [Patch offset bytes] end.

Lemma enqueue_sound accepted s op t :
  sound accepted s -> finalize_done_ s = false -> queued_bytes_ s + zlen (op_data op) <= max_queue_bytes (options_ s) ->
  sound (accepted ++ [op]) (with_queue s (queue_ s ++ [op]) (queued_bytes_ s + zlen (op_data op)) t).
Proof.
  intros [S1 S2 S3 S4 S5 S6] Hd Hb. split; try done; cbn [with_queue queued_bytes_ queue_ options_ finalize_done_
    finalize_requested_ published healthy_ data write_offset_].
  - rewrite S2. clear. induction (queue_ s) as [|o q IH]; cbn; lia.
  - intros Hh Hn. apply replay_before in Hn as Hn'. destruct (S6 Hh Hn') as (before & -> & Hr & Hz).
    exists before. by rewrite app_assoc.
Qed.

Lemma sink_append_sound accepted s bytes s' r :
  sink_append s bytes = (s', r) -> sound accepted s -> finalize_done_ s = false ->
  sound (accepted ++ match r with Ok _ => sink_append_op bytes | _ => [] end) s' /\
  finalize_requested_ s' = finalize_requested_ s /\ finalize_done_ s' = false.
Proof.
  unfold sink_append. intros Ha Hs Hd. destruct bytes as [|b bs]; [injection Ha as <- <-; by rewrite app_nil_r|].
  destruct (healthy_ s); cbn [negb] in Ha; [|injection Ha as <- <-; by rewrite app_nil_r].
  destruct (finalize_requested_ s) eqn:Hr; [injection Ha as <- <-; by rewrite app_nil_r|].
  destruct (Z.ltb_spec (max_queue_bytes (options_ s)) (queued_bytes_ s + zlen (b :: bs))); injection Ha as <- <-;
    (split; [|done]).
  - rewrite app_nil_r. destruct Hs; by split.
  - by apply (enqueue_sound accepted s (Append (b :: bs))).
Qed.
Lemma sink_patch_sound accepted s offset bytes s' r :
  sink_patch s offset bytes = (s', r) -> sound accepted s -> finalize_done_ s = false ->
  sound (accepted ++ match r with Ok _ => sink_patch_op offset bytes | _ => [] end) s' /\
  finalize_requested_ s' = finalize_requested_ s /\ finalize_done_ s' = false.
Proof.
  unfold sink_patch. intros Ha Hs Hd. destruct bytes as [|b bs]; [injection Ha as <- <-; by rewrite app_nil_r|].
  destruct (healthy_ s); cbn [negb] in Ha; [|injection Ha as <- <-; by rewrite app_nil_r].
  destruct (Z.ltb_spec (max_queue_bytes (options_ s)) (queued_bytes_ s + zlen (b :: bs))); injection Ha as <- <-;
    (split; [|done]).
  - rewrite app_nil_r. destruct Hs; by split.
  - by apply (enqueue_sound accepted s (Patch offset (b :: bs))).
Qed.

(** * The sink under a schedule *)

(** A sink with the turns its writer will take: before the producer's next call, and, when
    the producer looks at [pending_bytes] first, before and after that look; and with the
    operations accepted so far, which nothing reads. *)
Record Scheduled := mkScheduled {
  sink : AsyncFileSink;
  turns : list (list Script * list Script);
  accepted : list Op
}.
Definition scheduled_now (s : Scheduled) : AsyncFileSink :=
  match turns s with [] => sink s | (now, later) :: _ => writer_steps (sink s) (now ++ later) end.
Definition scheduled_pending (s : Scheduled) : Z :=
  match turns s with [] => queued_bytes_ (sink s) | (now, _) :: _ => queued_bytes_ (writer_steps (sink s) now) end.
Definition after_call (s : Scheduled) (call : AsyncFileSink * Res unit) (ops : list Op) : Scheduled * Res unit :=
  (mkScheduled (fst call) (tail (turns s)) (accepted s ++ match snd call with Ok _ => ops | _ => [] end), snd call).

#[export] Instance scheduled_sink : FileSink Scheduled := {
  append s bytes := after_call s (sink_append (scheduled_now s) bytes) (sink_append_op bytes);
  patch s offset bytes := after_call s (sink_patch (scheduled_now s) offset bytes) (sink_patch_op offset bytes);
  sink_finalize s := after_call s (request_finalize (scheduled_now s)) [];
  pending_bytes := scheduled_pending
}.

Lemma sink_append_returns s bytes : returns (snd (sink_append s bytes)).
Proof. unfold sink_append. destruct bytes; [done|]. destruct (negb _); [done|]. destruct (finalize_requested_ s); [done|]. by destruct (_ <? _). Qed.
Lemma sink_patch_returns s offset bytes : returns (snd (sink_patch s offset bytes)).
Proof. unfold sink_patch. destruct bytes; [done|]. destruct (negb _); [done|]. by destruct (_ <? _). Qed.

Lemma replayed_append ops bytes c :
  replay ops = Some c -> replay (ops ++ sink_append_op bytes) = Some (c ++ bytes).
Proof.
  intros Hc. destruct bytes as [|b bs]; cbn [sink_append_op]; [by rewrite !app_nil_r|]. by rewrite replay_snoc, Hc.
Qed.
Lemma replayed_patch ops offset bytes c :
  replay ops = Some c -> 0 <= offset -> offset + zlen bytes <= zlen c ->
  replay (ops ++ sink_patch_op offset bytes) = Some (overwrite c offset bytes).
Proof.
  intros Hc Ho Hl. destruct bytes as [|b bs]; cbn [sink_patch_op]; [by rewrite app_nil_r, overwrite_nil|].
  rewrite replay_snoc, Hc. cbn. destruct (Z.leb_spec 0 offset); [|lia].
  by destruct (Z.leb_spec (offset + zlen (b :: bs)) (zlen c)); [|lia].
Qed.

#[export, refine] Instance scheduled_laws : FileSinkLaws Scheduled := { contents s := replay (accepted s) }.
Proof.
  - intros s bytes s' c [= <- Hr] Hc. cbn. rewrite Hr. by apply replayed_append.
  - intros s bytes s' e [= <- Hr] _. cbn. by rewrite Hr, app_nil_r.
  - intros s bytes. apply sink_append_returns.
  - intros s offset bytes s' c [= <- Hr] Hc Ho Hl. cbn. rewrite Hr. by apply replayed_patch.
  - intros s offset bytes. apply sink_patch_returns.
  - intros s s' r [= <- Hr]. cbn. by destruct (snd _); rewrite app_nil_r.
Defined.

(** A sink in use: sound, and not asked to end. *)
Definition in_use (s : Scheduled) : Prop := sound (accepted s) (sink s) /\ finalize_requested_ (sink s) = false.

Lemma scheduled_now_in_use s :
  in_use s -> sound (accepted s) (scheduled_now s) /\ finalize_requested_ (scheduled_now s) = false /\
    finalize_done_ (scheduled_now s) = false.
Proof.
  intros [Hs Hr]. assert (Hn : sound (accepted s) (scheduled_now s) /\ finalize_requested_ (scheduled_now s) = false).
  { unfold scheduled_now. destruct (turns s) as [|[now later] ts]; [done|]. split; [by apply writer_steps_sound|].
    by rewrite (writer_steps_requested (accepted s)). }
  destruct Hn as [Hn1 Hn2]. split; [done|]. split; [done|]. pose proof (so_done _ _ Hn1).
  destruct (finalize_done_ (scheduled_now s)); [|done]. rewrite <- Hn2. by symmetry; auto.
Qed.
Lemma append_in_use s bytes : in_use s -> in_use (fst (append s bytes)).
Proof.
  intros Hs. destruct (scheduled_now_in_use s Hs) as (H1 & H2 & H3). cbn [append scheduled_sink after_call fst].
  destruct (sink_append (scheduled_now s) bytes) as [s' r] eqn:Ha.
  destruct (sink_append_sound _ _ _ _ _ Ha H1 H3) as (G1 & G2 & _). split; [done|]. cbn. congruence.
Qed.
Lemma patch_in_use s offset bytes : in_use s -> in_use (fst (patch s offset bytes)).
Proof.
  intros Hs. destruct (scheduled_now_in_use s Hs) as (H1 & H2 & H3). cbn [patch scheduled_sink after_call fst].
  destruct (sink_patch (scheduled_now s) offset bytes) as [s' r] eqn:Ha.
  destruct (sink_patch_sound _ _ _ _ _ _ Ha H1 H3) as (G1 & G2 & _). split; [done|]. cbn. congruence.
Qed.
Lemma finalize_sound s : in_use s ->
  sound (accepted (fst (sink_finalize s))) (sink (fst (sink_finalize s))) /\
  finalize_requested_ (sink (fst (sink_finalize s))) = true /\
  finalize_done_ (sink (fst (sink_finalize s))) = false.
Proof.
  intros Hs. destruct (scheduled_now_in_use s Hs) as (H1 & H2 & H3). cbn [sink_finalize scheduled_sink after_call fst].
  unfold request_finalize. rewrite H2. cbn. rewrite app_nil_r. split; [|done]. destruct H1. by split.
Qed.

Lemma open_sink_sound path options opened s : open_sink path options opened = Ok s -> 0 <= max_queue_bytes options ->
  sound [] s /\ finalize_requested_ s = false.
Proof.
  unfold open_sink. destruct (_ =? _)%string; [done|]. destruct (_ =? _); [done|]. destruct (negb opened); [done|].
  intros [= <-] Hm. split; [|done]. split; try done. intros _ _. by exists [].
Qed.

(** After the end the file stays as it is. *)
Lemma done_stays scripts : forall s, finalize_done_ s = true -> writer_steps s scripts = s.
Proof.
  induction scripts as [|script scripts IH]; [done|]. intros s Hd. cbn [writer_steps fold_left].
  replace (writer_step s script) with s; [by apply IH|]. unfold writer_step. by rewrite Hd.
Qed.

(** When the writer ends it has emptied the queue. *)
Lemma writer_step_drained s script :
  (finalize_done_ s = true -> queue_ s = []) -> coherent s ->
  finalize_done_ (writer_step s script) = true -> queue_ (writer_step s script) = [].
Proof.
  intros Hs Hc. unfold writer_step. destruct (finalize_done_ s) eqn:Hd; [by auto|]. destruct (queue_ s) as [|op rest] eqn:Hq.
  - destruct (finalize_requested_ s); [|done]. intros _. unfold do_finalize, mark_sink_failed.
    destruct (failure_ s) eqn:Hf, (healthy_ s); cbn; repeat (case_match; cbn); done.
  - set (s0 := with_queue s rest _ _). destruct (healthy_ s0); cbn [negb]; [|cbn; congruence].
    destruct (apply_op s0 op (writes script)) as [s1 ok] eqn:Ha.
    destruct (apply_op_spec _ _ _ _ _ Ha Hc) as (_ & _ & _ & F4 & _). cbn in F4.
    destruct ok; [|cbn; congruence]. cbn [negb].
    destruct (_ <=? _); [|cbn; congruence]. unfold check_disk_space. destruct (free_bytes script); [|cbn; congruence].
    destruct (_ <? _); [|cbn; congruence]. unfold mark_sink_failed. destruct (failure_ _); cbn; congruence.
Qed.
Lemma writer_steps_drained ops scripts : forall s,
  sound ops s -> (finalize_done_ s = true -> queue_ s = []) ->
  finalize_done_ (writer_steps s scripts) = true -> queue_ (writer_steps s scripts) = [].
Proof.
  induction scripts as [|script scripts IH]; [done|]. intros s Hs Hq. cbn [writer_steps fold_left].
  apply IH; [by apply writer_step_sound|]. apply writer_step_drained; [done|]. apply Hs.
Qed.

(** * The end *)

(** System calls that do not fail; short and interrupted ones are allowed. *)
Definition works (options : Options) (script : Script) : bool :=
  forallb (fun a => match a with Wrote _ | Interrupted => true | _ => false end) (writes script) &&
  match free_bytes script with Some free => min_free_bytes options <=? free | None => true end &&
  negb (fsync_fails (fsync_answers script)) && rename_works script.

Lemma write_loop_works answers : forall s offset bytes,
  forallb (fun a => match a with Wrote _ | Interrupted => true | _ => false end) answers = true ->
  snd (write_loop answers s offset bytes) = true.
Proof.
  induction answers as [|a answers IH]; intros s offset [|b bs] Hw; try done. cbn in Hw. apply andb_prop in Hw as [Ha Hw].
  cbn [write_loop]. destruct a; try done; by apply IH.
Qed.

Lemma do_finalize_ends s script :
  coherent s -> finalize_done_ s = false -> published s = false ->
  let s' := do_finalize s script in
  finalize_done_ s' = true /\ queue_ s' = queue_ s /\ open_ s' = false /\
  published s' = healthy_ s' /\ coherent s' /\
  (works (options_ s) script = true -> healthy_ s' = healthy_ s).
Proof.
  intros Hc Hd Hp. unfold do_finalize, works, coherent, mark_sink_failed in *.
  destruct (healthy_ s) eqn:Hh; [rewrite (proj1 Hc eq_refl)|]; destruct (failure_ s) eqn:Hf; cbn; try (by destruct (proj1 Hc eq_refl));
    destruct (fsync_on_finalize (options_ s)), (open_ s), (fsync_fails (fsync_answers script)), (rename_works script);
    cbn; rewrite ?Hh, ?Hf, ?Hp; cbn; rewrite ?Hh, ?Hf, ?Hp; cbn; rewrite ?andb_false_r; split_and!; try done; try tauto; intuition congruence.
Qed.

(** One turn with the end asked for: either an operation goes, or the writer ends. *)
Lemma writer_step_ends accepted s script :
  sound accepted s -> finalize_requested_ s = true -> finalize_done_ s = false ->
  let s' := writer_step s script in
  options_ s' = options_ s /\
  (finalize_done_ s' = false -> S (length (queue_ s')) = length (queue_ s)) /\
  (finalize_done_ s' = true -> queue_ s = [] /\ queue_ s' = [] /\ open_ s' = false /\ published s' = healthy_ s') /\
  (works (options_ s) script = true -> healthy_ s' = healthy_ s).
Proof.
  intros [S1 S2 S3 S4 S5 S6] Hreq Hd. unfold writer_step. rewrite Hd.
  assert (Hpub : published s = false) by (destruct (published s); [by destruct (S5 eq_refl); congruence|done]).
  destruct (queue_ s) as [|op rest] eqn:Hq.
  { rewrite Hreq. destruct (do_finalize_ends s script S1 Hd Hpub) as (E1 & E2 & E3 & E4 & E5 & E6). rewrite E1, E2, Hq.
    split; [|done]. unfold do_finalize, mark_sink_failed. destruct (failure_ s) eqn:Hf, (healthy_ s); cbn; repeat (case_match; cbn); done. }
  cbv zeta. set (s0 := with_queue s rest _ _). destruct (healthy_ s0) eqn:Hh; cbn [negb].
  2: { cbn in Hh |- *. split_and!; try done; congruence. }
  change (healthy_ s = true) in Hh. destruct (apply_op s0 op (writes script)) as [s1 ok] eqn:Ha.
  destruct (apply_op_spec _ _ _ _ _ Ha S1) as (F1 & F2 & F3 & F4 & F5 & F6 & F7 & C1 & U1 & _). specialize (U1 Hh).
  assert (Hok : works (options_ s) script = true -> ok = true).
  { unfold works. intros Hw. apply andb_prop in Hw as [Hw _]. apply andb_prop in Hw as [Hw _]. apply andb_prop in Hw as [Hw _].
    pose proof (write_loop_works (writes script) s0 (match op with Patch offset _ => offset | Append _ => write_offset_ s0 end) (op_data op) Hw) as Hl.
    unfold apply_op in Ha. destruct (write_loop _ _ _ _) as [s2 ok2]. cbn in Hl. subst ok2. destruct op; by injection Ha as <- <-. }
  cbn in F1, F2, F4. destruct ok; cbn [negb].
  2: { rewrite F1, F2, F4. split_and!; try done; [congruence|]. intros Hw. by specialize (Hok Hw). }
  assert (Hcase : forall s2, options_ s2 = options_ s1 -> queue_ s2 = queue_ s1 -> finalize_done_ s2 = finalize_done_ s1 ->
    (works (options_ s) script = true -> healthy_ s2 = healthy_ s1) ->
    options_ s2 = options_ s /\ (finalize_done_ s2 = false -> S (length (queue_ s2)) = length (op :: rest)) /\
    (finalize_done_ s2 = true -> op :: rest = [] /\ queue_ s2 = [] /\ open_ s2 = false /\ published s2 = healthy_ s2) /\
    (works (options_ s) script = true -> healthy_ s2 = healthy_ s)).
  { intros s2 G1 G2 G3 G4. rewrite G1, G2, G3, F1, F2, F4. split_and!; try done; [congruence|].
    intros Hw. rewrite (G4 Hw). congruence. }
  destruct (_ <=? _); [|by apply Hcase]. unfold check_disk_space. destruct (free_bytes script) as [free|] eqn:Hfree; [|by apply Hcase].
  destruct (Z.ltb_spec free (min_free_bytes (options_ (count_checked s1 0)))) as [Hlow|]; [|by apply Hcase].
  unfold mark_sink_failed. destruct (failure_ _); (apply Hcase; try done). unfold works. rewrite Hfree. cbn in Hlow. rewrite F2 in Hlow.
  destruct (Z.leb_spec (min_free_bytes (options_ s)) free); [lia|]. by rewrite andb_false_r.
Qed.

(** The end of a recording: once it is asked for, the writer is done after at most one
    more turn than there are operations queued, whatever the system calls answer; the
    queue is empty and the file closed, and it has come to its final name exactly when
    no failure was recorded.  If no system call fails from then on, a sink that was
    healthy publishes its file. *)
Theorem finalize_ends accepted s scripts :
  sound accepted s -> finalize_requested_ s = true -> finalize_done_ s = false ->
  (length (queue_ s) < length scripts)%nat ->
  let s' := writer_steps s scripts in
  finalize_done_ s' = true /\ queue_ s' = [] /\ open_ s' = false /\
  (published s' = true <-> failure_ s' = None) /\
  (forallb (works (options_ s)) scripts = true -> healthy_ s = true -> published s' = true).
Proof.
  revert s. induction scripts as [|script scripts IH]; intros s Hs Hreq Hd Hl; [cbn in Hl; lia|].
  destruct (writer_step_ends accepted s script Hs Hreq Hd) as (E1 & E2 & E3 & E4).
  pose proof (writer_step_sound accepted s script Hs) as Hs1.
  pose proof (writer_step_requested s script (so_coherent _ _ Hs)) as Hr1. cbn [writer_steps fold_left] in *.
  change (fold_left writer_step scripts ?s) with (writer_steps s scripts) in *.
  set (s1 := writer_step s script) in *. destruct (finalize_done_ s1) eqn:Hd1.
  - destruct (E3 eq_refl) as (H1 & H2 & H3 & H4). rewrite done_stays by done. split_and!; try done.
    + rewrite H4. apply Hs1.
    + intros Hw Hh. cbn in Hw. apply andb_prop in Hw as [Hw _]. by rewrite H4, E4.
  - specialize (E2 eq_refl). cbn in Hl. destruct (IH s1 Hs1) as (I1 & I2 & I3 & I4 & I5); [congruence|done|lia|].
    split_and!; try done. intros Hw Hh. cbn in Hw. apply andb_prop in Hw as [Hw Hw']. rewrite E1 in I5.
    apply I5; [done|]. by rewrite E4.
Qed.

(** C26. A recording into the asynchronous sink, whatever the interleaving of the recorder and
    the writer thread and whatever the system calls answer: if the recorder has not failed
    and the file has come to its final name, then the file reads back as FLV with the
    metadata first, its duration the last time stamp and its size the size of the file,
    and then the media messages that were not counted as dropped, in order. *)
Theorem published_recording_reads_back path options opened s turns limit es after :
  open_sink path options opened = Ok s -> 0 <= max_queue_bytes options -> Forall event_ok es ->
  exists r, record_events (make_recorder (mkScheduled s turns []) limit) es = Ok r /\
    let file := writer_steps (sink (sink_ (finalize r))) after in
    (failed (stats_ (finalize r)) = false -> published file = true ->
     exists acc m,
       acc `sublist_of` media_tags es /\
       zlen acc + dropped_frames (stats_ (finalize r)) = zlen (media_tags es) /\
       data file = finished_file m (zlen (data file)) acc /\
       parse_flv (data file) =
         Ok (mkParsedFlv 1 true true kFileHeaderSize 0
               (tags_at kFileHeaderTotalSize
                  (script_tag (with_results m (seconds_bits (latest acc))
                     (double_bits (double_of (zlen (data file))))) :: acc)))).
Proof.
  intros Ho Hm He. destruct (open_sink_sound _ _ _ _ Ho Hm) as [Hs0 Hq0]. set (s0 := mkScheduled s turns []).
  assert (Hc0 : contents s0 = Some []) by done.
  destruct (recording_reads_back s0 limit es Hc0 He) as (r & Hr & Hfin & Hback). exists r. split; [done|].
  intros file Hf Hpub.
  destruct (recorder_closes_sink in_use append_in_use patch_in_use r) as (s1 & Hs1 & Hlast); [|done|].
  { by apply (record_events_keeps in_use append_in_use es (make_recorder s0 limit)). }
  destruct (finalize_sound s1 Hs1) as (F1 & F2 & F3). rewrite <- Hlast in F1, F2, F3.
  assert (Hsound : sound (accepted (sink_ (finalize r))) file) by (by apply writer_steps_sound).
  destruct (so_published _ _ Hsound Hpub) as [Hh Hd].
  assert (Hq : queue_ file = []) by (eapply writer_steps_drained; [done|congruence|done]).
  destruct (Hback Hf) as (acc & m & c & Hc & Hback'). change (replay (accepted (sink_ (finalize r))) = Some c) in Hc.
  destruct (so_file _ _ Hsound Hh) as (before & Hb & Hrep & _); [by rewrite Hc|].
  rewrite Hq, app_nil_r in Hb. rewrite <- Hb, Hc in Hrep. injection Hrep as <-. by exists acc, m.
Qed.

(** * Samples *)

Definition sample_options : Options := mkOptions 4096 1000 64 true.
Definition sample_sink : AsyncFileSink := mkAsyncFileSink [] false true sample_options [] false false
  (mkSinkStats 0 0 0 0 false false) None 0 true 0 0.
Definition sample_turn : Script := mkScript [Interrupted; Wrote 3] (Some 5000) [true] true.
Definition sample_media (type ts : Z) (bytes : list byte) : RtmpMessage := mkRtmpMessage 4 1 type ts bytes.
Definition sample_events : list RecorderEvent :=
  [Audio (sample_media 8 0 [xaf; x01; x21]); Video (sample_media 9 40 [x17; x01]); Audio (sample_media 8 80 [])].
Definition sample_turns : list (list Script * list Script) := [([], []); ([], [sample_turn]); ([sample_turn], [])].
Definition sample_recorder : Recorder Scheduled :=
  match record_events (make_recorder (mkScheduled sample_sink sample_turns []) 4096) sample_events with
  | Ok r => r | _ => make_recorder (mkScheduled sample_sink [] []) 0
  end.
Definition sample_file : AsyncFileSink := writer_steps (sink (sink_ (finalize sample_recorder))) (repeat sample_turn 6).

Lemma published_recording_reads_back_witness :
  failed (stats_ (finalize sample_recorder)) = false /\ published sample_file = true /\
  exists acc m, acc `sublist_of` media_tags sample_events /\
    data sample_file = finished_file m (zlen (data sample_file)) acc.
Proof.
  split; [vm_compute; reflexivity|]. split; [vm_compute; reflexivity|].
  destruct (published_recording_reads_back "a.flv" sample_options true sample_sink sample_turns 4096 sample_events
    (repeat sample_turn 6)) as (r & Hr & Hb).
  - reflexivity.
  - vm_compute. discriminate.
  - repeat constructor; vm_compute; intuition discriminate.
  - assert (r = sample_recorder) as -> by (unfold sample_recorder; rewrite Hr; reflexivity).
    destruct Hb as (acc & m & H1 & _ & H3 & _); [vm_compute; reflexivity|vm_compute; reflexivity|].
    exists acc, m. split; [exact H1|exact H3].
Defined.

Lemma finalize_ends_witness :
  let s := with_queue (fst (request_finalize sample_sink)) [Append [x41; x42]] 2 (sink_stats sample_sink) in
  published (writer_steps s [sample_turn; sample_turn]) = true.
Proof.
  intros s. apply (finalize_ends [Append [x41; x42]] s [sample_turn; sample_turn]); try reflexivity; [|cbn; lia].
  split; try reflexivity; try done. intros _ _. by exists [].
Defined.
