(* ===== verification/Fmp4.v ===== *)
(** media/mp4/fmp4_muxer.cpp: init segments and fragments in ISO base media format, and the
    codec strings of RFC 6381.

    The muxer writes a nested box in one pass: it leaves room for the size and patches it
    when the box is closed.  [Box] is the tree such bytes stand for and [render] the bytes
    of a tree; the second half of the file shows that the one-pass writers produce the
    trees.  Sizes of what is in memory are unbounded integers until they are written. *)

From S2P Require Import Prelude Bytes Text Avc H264Sps HlsKeys.
From S2P Require Aac.

(** * fmp4_muxer.hpp *)

Definition kMovieTimescale : Z := 1000.
Definition kVideoTimescale : Z := 90000.
Definition kVideoTrackId : Z := 1.
Definition kAudioTrackId : Z := 2.

Inductive VideoCodec := NoVideo | H264 | Hevc.
#[export] Instance VideoCodec_eq_dec : EqDecision VideoCodec.
Proof. solve_decision. Defined.

(** [VideoDimensions::valid()]. *)
Definition valid_dimensions (d : VideoDimensions) : bool := (0 <? width d) && (0 <? height d).

Record Fmp4InitConfig := mkFmp4InitConfig {
  video_codec : VideoCodec;
  video_decoder_config : list byte;
  video_dimensions : VideoDimensions;
  has_audio : bool;
  audio_config : Aac.AudioSpecificConfig;
  audio_specific_config : list byte
}.
Definition has_video (c : Fmp4InitConfig) : bool := bool_decide (video_codec c <> NoVideo).

Record Fmp4Sample := mkFmp4Sample {
  sample_data : list byte;
  sample_duration : Z;
  composition_offset : Z;
  sample_keyframe : bool
}.
Record Fmp4TrackFragment := mkFmp4TrackFragment { base_decode_time : Z; samples : list Fmp4Sample }.
Definition no_samples (f : Fmp4TrackFragment) : bool := bool_decide (samples f = []).

(** [sequence_number_]. *)
Record Fmp4Muxer := mkFmp4Muxer { sequence_number_ : Z }.
Definition make_fmp4_muxer : Fmp4Muxer := mkFmp4Muxer 0.

(** * Bytes and boxes *)

Definition invalid (what : string) : Error := mkError ErrorCode.MalformedChunk ErrorCategory.Protocol what.

Definition put_u8 (out : list byte) (value : Z) : list byte := out ++ [z2b value].
Definition put_u16 (out : list byte) (value : Z) : list byte :=
  put_u8 (put_u8 out (u8 (Z.shiftr value 8))) (u8 value).
Definition put_u24 (out : list byte) (value : Z) : list byte :=
  put_u8 (put_u8 (put_u8 out (u8 (Z.shiftr value 16))) (u8 (Z.shiftr value 8))) (u8 value).
Definition put_u32 (out : list byte) (value : Z) : list byte :=
  put_u16 (put_u16 out (u16 (Z.shiftr value 16))) (u16 value).
Definition put_u64 (out : list byte) (value : Z) : list byte :=
  put_u32 (put_u32 out (u32 (Z.shiftr value 32))) (u32 value).
Definition fourcc (code : string) : list byte := map (fun c => z2b (char_code c)) (str code).
Definition put_fourcc (out : list byte) (code : string) : list byte := out ++ fourcc code.
Definition put_bytes (out data : list byte) : list byte := out ++ data.
Definition put_zeros (out : list byte) (count : nat) : list byte := out ++ repeat x00 count.

(** Indexing past the end of the vector is undefined. *)
Definition patch_u32 (out : list byte) (offset value : Z) : Res (list byte) :=
  if (0 <=? offset) && (offset + 4 <=? zlen out) then
    let at_ (i : Z) := Z.to_nat (offset + i) in
    let out := <[at_ 0 := z2b (Z.shiftr value 24)]> out in
    let out := <[at_ 1 := z2b (Z.shiftr value 16)]> out in
    let out := <[at_ 2 := z2b (Z.shiftr value 8)]> out in
    Ok (<[at_ 3 := z2b value]> out)
  else Fault.

Definition open_box (out : list byte) (type : string) : list byte * Z :=
  let start := zlen out in
  (put_fourcc (put_u32 out 0) type, start).
Definition close_box (out : list byte) (start : Z) : Res (list byte) :=
  patch_u32 out start (u32 (zlen out - start)).
Definition open_full_box (out : list byte) (type : string) (version flags : Z) : list byte * Z :=
  let '(out, start) := open_box out type in
  (put_u24 (put_u8 out version) flags, start).

Definition put_identity_matrix (out : list byte) : list byte :=
  fold_left put_u32 [0x00010000; 0; 0; 0; 0x00010000; 0; 0; 0; 0x40000000] out.

(** * The boxes of the init segment *)

Definition write_hdlr (out : list byte) (handler name : string) : Res (list byte) :=
  let '(out, box) := open_full_box out "hdlr" 0 0 in
  let out := put_u32 out 0 in
  let out := put_fourcc out handler in
  let out := put_zeros out 12 in
  let out := fold_left (fun out c => put_u8 out (char_code c)) (str name) out in
  let out := put_u8 out 0 in
  close_box out box.

Definition write_dinf (out : list byte) : Res (list byte) :=
  let '(out, dinf) := open_box out "dinf" in
  let '(out, dref) := open_full_box out "dref" 0 0 in
  let out := put_u32 out 1 in
  let '(out, url) := open_full_box out "url " 0 1 in
  out <- close_box out url ;;
  out <- close_box out dref ;;
  close_box out dinf.

Definition put_descriptor_header (out : list byte) (tag length : Z) : list byte :=
  put_u8 (put_u8 out tag) (u8 (Z.land length 0x7F)).

Definition write_esds (out asc : list byte) : Res (list byte) :=
  let '(out, esds) := open_full_box out "esds" 0 0 in
  let dsi_length := zlen asc in
  let dcd_length := 13 + 2 + dsi_length in
  let es_length := 3 + 2 + dcd_length + 2 + 1 in
  let out := put_descriptor_header out 0x03 es_length in
  let out := put_u16 out 0 in
  let out := put_u8 out 0 in
  let out := put_descriptor_header out 0x04 dcd_length in
  let out := put_u8 out 0x40 in
  let out := put_u8 out 0x15 in
  let out := put_u24 out 0 in
  let out := put_u32 out 0 in
  let out := put_u32 out 0 in
  let out := put_descriptor_header out 0x05 dsi_length in
  let out := put_bytes out asc in
  let out := put_descriptor_header out 0x06 1 in
  let out := put_u8 out 0x02 in
  close_box out esds.

Definition write_video_sample_entry (out : list byte) (codec : VideoCodec) (decoder_config : list byte)
    (dimensions : VideoDimensions) : Res (list byte) :=
  let '(out, entry) := if decide (codec = Hevc) then open_box out "hvc1" else open_box out "avc1" in
  let out := put_zeros out 6 in
  let out := put_u16 out 1 in
  let out := put_u16 out 0 in
  let out := put_u16 out 0 in
  let out := put_zeros out 12 in
  let out := put_u16 out (u16 (width dimensions)) in
  let out := put_u16 out (u16 (height dimensions)) in
  let out := put_u32 out 0x00480000 in
  let out := put_u32 out 0x00480000 in
  let out := put_u32 out 0 in
  let out := put_u16 out 1 in
  let out := put_zeros out 32 in
  let out := put_u16 out 0x0018 in
  let out := put_u16 out 0xFFFF in
  let '(out, config_box) := if decide (codec = Hevc) then open_box out "hvcC" else open_box out "avcC" in
  let out := put_bytes out decoder_config in
  out <- close_box out config_box ;;
  close_box out entry.

Definition write_audio_sample_entry (out : list byte) (config : Aac.AudioSpecificConfig) (asc : list byte)
    : Res (list byte) :=
  let '(out, entry) := open_box out "mp4a" in
  let out := put_zeros out 6 in
  let out := put_u16 out 1 in
  let out := put_zeros out 8 in
  let out := put_u16 out (Aac.channel_configuration config) in
  let out := put_u16 out 16 in
  let out := put_u16 out 0 in
  let out := put_u16 out 0 in
  let rate := Aac.sample_rate config in
  let out := put_u32 out (u32 (Z.shiftl (if 0xFFFF <? rate then 0xFFFF else rate) 16)) in
  out <- write_esds out asc ;;
  close_box out entry.

Definition write_empty_sample_tables (out : list byte) : Res (list byte) :=
  let '(out, stts) := open_full_box out "stts" 0 0 in
  let out := put_u32 out 0 in
  out <- close_box out stts ;;
  let '(out, stsc) := open_full_box out "stsc" 0 0 in
  let out := put_u32 out 0 in
  out <- close_box out stsc ;;
  let '(out, stsz) := open_full_box out "stsz" 0 0 in
  let out := put_u32 out 0 in
  let out := put_u32 out 0 in
  out <- close_box out stsz ;;
  let '(out, stco) := open_full_box out "stco" 0 0 in
  let out := put_u32 out 0 in
  close_box out stco.

Definition write_tkhd (out : list byte) (track_id : Z) (is_audio : bool) (dimensions : VideoDimensions)
    : Res (list byte) :=
  let '(out, tkhd) := open_full_box out "tkhd" 0 7 in
  let out := put_u32 out 0 in
  let out := put_u32 out 0 in
  let out := put_u32 out track_id in
  let out := put_u32 out 0 in
  let out := put_u32 out 0 in
  let out := put_zeros out 8 in
  let out := put_u16 out 0 in
  let out := put_u16 out 0 in
  let out := put_u16 out (if is_audio then 0x0100 else 0) in
  let out := put_u16 out 0 in
  let out := put_identity_matrix out in
  let out := put_u32 out (if is_audio then 0 else u32 (Z.shiftl (width dimensions) 16)) in
  let out := put_u32 out (if is_audio then 0 else u32 (Z.shiftl (height dimensions) 16)) in
  close_box out tkhd.

Definition write_trex (out : list byte) (track_id : Z) : Res (list byte) :=
  let '(out, trex) := open_full_box out "trex" 0 0 in
  let out := put_u32 out track_id in
  let out := put_u32 out 1 in
  let out := put_u32 out 0 in
  let out := put_u32 out 0 in
  let out := put_u32 out 0 in
  close_box out trex.

Definition write_ftyp (out : list byte) : Res (list byte) :=
  let '(out, ftyp) := open_box out "ftyp" in
  let out := put_fourcc out "iso6" in
  let out := put_u32 out 0 in
  let out := put_fourcc out "iso6" in
  let out := put_fourcc out "mp41" in
  let out := put_fourcc out "cmfc" in
  close_box out ftyp.

Definition write_mvhd (out : list byte) : Res (list byte) :=
  let '(out, mvhd) := open_full_box out "mvhd" 0 0 in
  let out := put_u32 out 0 in
  let out := put_u32 out 0 in
  let out := put_u32 out kMovieTimescale in
  let out := put_u32 out 0 in
  let out := put_u32 out 0x00010000 in
  let out := put_u16 out 0x0100 in
  let out := put_u16 out 0 in
  let out := put_zeros out 8 in
  let out := put_identity_matrix out in
  let out := put_zeros out 24 in
  let out := put_u32 out (kAudioTrackId + 1) in
  close_box out mvhd.

Definition write_mdhd (out : list byte) (timescale : Z) : Res (list byte) :=
  let '(out, mdhd) := open_full_box out "mdhd" 0 0 in
  let out := put_u32 out 0 in
  let out := put_u32 out 0 in
  let out := put_u32 out timescale in
  let out := put_u32 out 0 in
  let out := put_u16 out 0x55C4 in
  let out := put_u16 out 0 in
  close_box out mdhd.

Definition write_vmhd (out : list byte) : Res (list byte) :=
  let '(out, vmhd) := open_full_box out "vmhd" 0 1 in
  let out := put_u16 out 0 in
  let out := put_zeros out 6 in
  close_box out vmhd.

Definition write_smhd (out : list byte) : Res (list byte) :=
  let '(out, smhd) := open_full_box out "smhd" 0 0 in
  let out := put_u16 out 0 in
  let out := put_u16 out 0 in
  close_box out smhd.

Definition write_video_trak (out : list byte) (config : Fmp4InitConfig) : Res (list byte) :=
  let '(out, trak) := open_box out "trak" in
  out <- write_tkhd out kVideoTrackId false (video_dimensions config) ;;
  let '(out, mdia) := open_box out "mdia" in
  out <- write_mdhd out kVideoTimescale ;;
  out <- write_hdlr out "vide" "VideoHandler" ;;
  let '(out, minf) := open_box out "minf" in
  out <- write_vmhd out ;;
  out <- write_dinf out ;;
  let '(out, stbl) := open_box out "stbl" in
  let '(out, stsd) := open_full_box out "stsd" 0 0 in
  let out := put_u32 out 1 in
  out <- write_video_sample_entry out (video_codec config) (video_decoder_config config) (video_dimensions config) ;;
  out <- close_box out stsd ;;
  out <- write_empty_sample_tables out ;;
  out <- close_box out stbl ;;
  out <- close_box out minf ;;
  out <- close_box out mdia ;;
  close_box out trak.

Definition write_audio_trak (out : list byte) (config : Fmp4InitConfig) (timescale : Z) : Res (list byte) :=
  let '(out, trak) := open_box out "trak" in
  out <- write_tkhd out kAudioTrackId true (mkVideoDimensions 0 0) ;;
  let '(out, mdia) := open_box out "mdia" in
  out <- write_mdhd out timescale ;;
  out <- write_hdlr out "soun" "SoundHandler" ;;
  let '(out, minf) := open_box out "minf" in
  out <- write_smhd out ;;
  out <- write_dinf out ;;
  let '(out, stbl) := open_box out "stbl" in
  let '(out, stsd) := open_full_box out "stsd" 0 0 in
  let out := put_u32 out 1 in
  out <- write_audio_sample_entry out (audio_config config) (audio_specific_config config) ;;
  out <- close_box out stsd ;;
  out <- write_empty_sample_tables out ;;
  out <- close_box out stbl ;;
  out <- close_box out minf ;;
  out <- close_box out mdia ;;
  close_box out trak.

Definition init_segment (config : Fmp4InitConfig) : Res (list byte) :=
  if negb (has_video config) && negb (has_audio config) then
    Err (invalid "fMP4 init segment needs at least one of a video or an audio track") else
  if has_video config && bool_decide (video_decoder_config config = []) then
    Err (invalid "fMP4 video track declared without an avcC/hvcC decoder configuration") else
  if has_audio config && bool_decide (audio_specific_config config = []) then
    Err (invalid "fMP4 audio track declared without an AudioSpecificConfig") else
  if has_video config && negb (valid_dimensions (video_dimensions config)) then
    Err (invalid "fMP4 video track declared without usable picture dimensions") else
  out <- write_ftyp [] ;;
  let '(out, moov) := open_box out "moov" in
  out <- write_mvhd out ;;
  out <- (if has_video config then write_video_trak out config else Ok out) ;;
  out <- (if has_audio config then
            let timescale := Aac.sample_rate (audio_config config) in
            if timescale =? 0 then Err (invalid "AudioSpecificConfig carries a reserved sampling index")
            else write_audio_trak out config timescale
          else Ok out) ;;
  let '(out, mvex) := open_box out "mvex" in
  out <- (if has_video config then write_trex out kVideoTrackId else Ok out) ;;
  out <- (if has_audio config then write_trex out kAudioTrackId else Ok out) ;;
  out <- close_box out mvex ;;
  close_box out moov.

(** * Fragments *)

Definition kSampleFlagsSync : Z := 0x02000000.
Definition kSampleFlagsNonSync : Z := 0x01010000.

Definition total_sample_bytes (fragment : Fmp4TrackFragment) : Z :=
  fold_left (fun total sample => total + zlen (sample_data sample)) (samples fragment) 0.

Definition put_sample (out : list byte) (sample : Fmp4Sample) : list byte :=
  let out := put_u32 out (sample_duration sample) in
  let out := put_u32 out (u32 (zlen (sample_data sample))) in
  let out := put_u32 out (if sample_keyframe sample then kSampleFlagsSync else kSampleFlagsNonSync) in
  put_u32 out (u32 (composition_offset sample)).

(** The bytes and [data_offset_position]. *)
Definition write_traf (out : list byte) (moof_start track_id : Z) (fragment : Fmp4TrackFragment)
    : Res (list byte * Z) :=
  let '(out, traf) := open_box out "traf" in
  let '(out, tfhd) := open_full_box out "tfhd" 0 0x020000 in
  let out := put_u32 out track_id in
  out <- close_box out tfhd ;;
  let '(out, tfdt) := open_full_box out "tfdt" 1 0 in
  let out := put_u64 out (base_decode_time fragment) in
  out <- close_box out tfdt ;;
  let '(out, trun) := open_full_box out "trun" 1 0x000F01 in
  let out := put_u32 out (u32 (zlen (samples fragment))) in
  let data_offset_position := zlen out - moof_start in
  let out := put_u32 out 0 in
  let out := fold_left put_sample (samples fragment) out in
  out <- close_box out trun ;;
  out <- close_box out traf ;;
  Ok (out, data_offset_position).

Definition put_samples (out : list byte) (fragment : Fmp4TrackFragment) : list byte :=
  fold_left (fun out sample => put_bytes out (sample_data sample)) (samples fragment) out.

(** An error leaves the muxer and [out] as they were. *)
Definition write_fragment (m : Fmp4Muxer) (out : list byte) (video audio : Fmp4TrackFragment)
    : Res (Fmp4Muxer * list byte) :=
  if no_samples video && no_samples audio then Err (invalid "fMP4 fragment carries no samples") else
  let video_bytes := total_sample_bytes video in
  let audio_bytes := total_sample_bytes audio in
  let media_bytes := video_bytes + audio_bytes in
  if 2 ^ 32 - 1 <? media_bytes + 8 then Err (invalid "fMP4 fragment exceeds the 32-bit mdat size limit") else
  let m := mkFmp4Muxer (u32 (sequence_number_ m + 1)) in
  let '(moof, moof_start) := open_box [] "moof" in
  let '(moof, mfhd) := open_full_box moof "mfhd" 0 0 in
  let moof := put_u32 moof (sequence_number_ m) in
  moof <- close_box moof mfhd ;;
  '(moof, video_offset_position) <-
    (if no_samples video then Ok (moof, 0) else write_traf moof moof_start kVideoTrackId video) ;;
  '(moof, audio_offset_position) <-
    (if no_samples audio then Ok (moof, 0) else write_traf moof moof_start kAudioTrackId audio) ;;
  moof <- close_box moof moof_start ;;
  let moof_size := u32 (zlen moof) in
  moof <- (if no_samples video then Ok moof else patch_u32 moof video_offset_position (u32 (moof_size + 8))) ;;
  moof <- (if no_samples audio then Ok moof
           else patch_u32 moof audio_offset_position (u32 (moof_size + 8 + u32 video_bytes))) ;;
  let out := out ++ moof in
  let out := put_u32 out (u32 (media_bytes + 8)) in
  let out := put_fourcc out "mdat" in
  let out := put_samples out video in
  let out := put_samples out audio in
  Ok (m, out).

Definition write_styp (out : list byte) : Res (list byte) :=
  let '(out, styp) := open_box out "styp" in
  let out := put_fourcc out "msdh" in
  let out := put_u32 out 0 in
  let out := put_fourcc out "msdh" in
  let out := put_fourcc out "msix" in
  let out := put_fourcc out "cmfs" in
  close_box out styp.

Definition reset (m : Fmp4Muxer) : Fmp4Muxer := mkFmp4Muxer 0.
Definition next_sequence_number (m : Fmp4Muxer) : Z := u32 (sequence_number_ m + 1).

(** * Codec strings *)

(** The four compatibility bytes as one number, and that number with its bits reversed. *)
Definition compatibility_flags (decoder_config : list byte) : Res Z :=
  b0 <- u8_at decoder_config 2 ;; b1 <- u8_at decoder_config 3 ;;
  b2 <- u8_at decoder_config 4 ;; b3 <- u8_at decoder_config 5 ;;
  Ok (fold_left (fun flags b => Z.lor (u32 (Z.shiftl flags 8)) b) [b0; b1; b2; b3] 0).
Definition reverse_flags (compatibility : Z) : Z :=
  fold_left (fun reversed bit => Z.lor (u32 (Z.shiftl reversed 1)) (Z.land (Z.shiftr compatibility bit) 1))
    (seqZ 0 32) 0.

(** Hexadecimal digits without leading zeros, the last one always. *)
Definition compat_hex (reversed : Z) : text :=
  fold_left (fun hex shift =>
      let nibble := Z.land (Z.shiftr reversed shift) 0x0F in
      if bool_decide (hex = []) && (nibble =? 0) && negb (shift =? 0) then hex
      else hex ++ [hex_char nibble])
    [28; 24; 20; 16; 12; 8; 4; 0] [].

(** [std::toupper] in the C locale. *)
Definition to_upper (c : Ascii.ascii) : Ascii.ascii :=
  if (97 <=? char_code c) && (char_code c <=? 122)
  then Ascii.ascii_of_N (Z.to_N (char_code c - 32)) else c.

Definition last_significant (constraints : list byte) : nat :=
  fold_left (fun last ib => if decide (b2z ib.2 = 0) then last else S ib.1) (imap pair constraints) O.

Definition video_codec_string (codec : VideoCodec) (decoder_config : list byte) : Res text :=
  match codec with
  | H264 =>
      if zlen decoder_config <? 4 then Ok [] else
      b1 <- byte_at decoder_config 1 ;; b2 <- byte_at decoder_config 2 ;; b3 <- byte_at decoder_config 3 ;;
      Ok (str "avc1." ++ hex_byte b1 ++ hex_byte b2 ++ hex_byte b3)
  | Hevc =>
      if zlen decoder_config <? 13 then Ok [] else
      byte1 <- u8_at decoder_config 1 ;;
      let profile_space := Z.land (Z.shiftr byte1 6) 0x03 in
      let high_tier := negb (Z.land (Z.shiftr byte1 5) 0x01 =? 0) in
      let profile_idc := Z.land byte1 0x1F in
      compatibility <- compatibility_flags decoder_config ;;
      let reversed := reverse_flags compatibility in
      level <- u8_at decoder_config 12 ;;
      constraints <- subspan decoder_config 6 6 ;;
      Ok (str "hvc1." ++
          (if 0 <? profile_space then [Ascii.ascii_of_N (Z.to_N (65 + profile_space - 1))] else []) ++
          dec profile_idc ++ str "." ++ compat_hex reversed ++ str "." ++
          (if high_tier then str "H" else str "L") ++ dec level ++
          concat (map (fun b => str "." ++ map to_upper (hex_byte b)) (take (last_significant constraints) constraints)))
  | NoVideo => Ok []
  end.

Definition audio_codec_string (config : Aac.AudioSpecificConfig) : text :=
  str "mp4a.40." ++ dec (Aac.object_type config).

(** * The tree the bytes stand for *)

(** A box: its type, its own fields, and the boxes it holds. *)
Inductive Box := MkBox (type : string) (fields : list byte) (children : list Box).

Definition box (type : string) (payload : list byte) : list byte :=
  write_u32_be (8 + zlen payload) ++ fourcc type ++ payload.
Fixpoint render (b : Box) : list byte :=
  let '(MkBox type fields children) := b in box type (fields ++ concat (map render children)).
Definition renders (bs : list Box) : list byte := concat (map render bs).

(** Fields, as ISO/IEC 14496-12 gives them. *)
Definition u8_field (v : Z) : list byte := [z2b v].
Definition zeros (n : nat) : list byte := repeat x00 n.
Definition full (version flags : Z) : list byte := u8_field version ++ write_u24_be flags.
Definition matrix_field : list byte :=
  concat (map write_u32_be [0x00010000; 0; 0; 0; 0x00010000; 0; 0; 0; 0x40000000]).
Definition descriptor (tag : Z) (body : list byte) : list byte := u8_field tag ++ u8_field (zlen body mod 128) ++ body.

Definition hdlr_box (handler name : string) : Box :=
  MkBox "hdlr" (full 0 0 ++ write_u32_be 0 ++ fourcc handler ++ zeros 12 ++ fourcc name ++ u8_field 0) [].
Definition dinf_box : Box :=
  MkBox "dinf" [] [MkBox "dref" (full 0 0 ++ write_u32_be 1) [MkBox "url " (full 0 1) []]].
Definition esds_box (asc : list byte) : Box :=
  MkBox "esds" (full 0 0 ++ descriptor 3 (write_u16_be 0 ++ u8_field 0 ++
    descriptor 4 (u8_field 0x40 ++ u8_field 0x15 ++ write_u24_be 0 ++ write_u32_be 0 ++ write_u32_be 0 ++
      descriptor 5 asc) ++
    descriptor 6 (u8_field 2))) [].
Definition video_entry_box (codec : VideoCodec) (config : list byte) (d : VideoDimensions) : Box :=
  MkBox (if decide (codec = Hevc) then "hvc1" else "avc1")
    (zeros 6 ++ write_u16_be 1 ++ write_u16_be 0 ++ write_u16_be 0 ++ zeros 12 ++
     write_u16_be (width d) ++ write_u16_be (height d) ++ write_u32_be 0x00480000 ++ write_u32_be 0x00480000 ++
     write_u32_be 0 ++ write_u16_be 1 ++ zeros 32 ++ write_u16_be 24 ++ write_u16_be 0xFFFF)
    [MkBox (if decide (codec = Hevc) then "hvcC" else "avcC") config []].
Definition audio_entry_box (config : Aac.AudioSpecificConfig) (asc : list byte) : Box :=
  MkBox "mp4a" (zeros 6 ++ write_u16_be 1 ++ zeros 8 ++ write_u16_be (Aac.channel_configuration config) ++
    write_u16_be 16 ++ write_u16_be 0 ++ write_u16_be 0 ++
    write_u32_be (Z.min 0xFFFF (Aac.sample_rate config) * 2 ^ 16)) [esds_box asc].
Definition stbl_box (entry : Box) : Box :=
  let no_entries := full 0 0 ++ write_u32_be 0 in
  MkBox "stbl" [] [MkBox "stsd" (full 0 0 ++ write_u32_be 1) [entry]; MkBox "stts" no_entries [];
    MkBox "stsc" no_entries []; MkBox "stsz" (no_entries ++ write_u32_be 0) []; MkBox "stco" no_entries []].
Definition tkhd_box (track_id : Z) (is_audio : bool) (d : VideoDimensions) : Box :=
  MkBox "tkhd" (full 0 7 ++ write_u32_be 0 ++ write_u32_be 0 ++ write_u32_be track_id ++ write_u32_be 0 ++
    write_u32_be 0 ++ zeros 8 ++ write_u16_be 0 ++ write_u16_be 0 ++
    write_u16_be (if is_audio then 0x0100 else 0) ++ write_u16_be 0 ++ matrix_field ++
    write_u32_be (if is_audio then 0 else width d * 2 ^ 16) ++
    write_u32_be (if is_audio then 0 else height d * 2 ^ 16)) [].
Definition trex_box (track_id : Z) : Box :=
  MkBox "trex" (full 0 0 ++ write_u32_be track_id ++ write_u32_be 1 ++ write_u32_be 0 ++ write_u32_be 0 ++ write_u32_be 0) [].
Definition ftyp_box : Box :=
  MkBox "ftyp" (fourcc "iso6" ++ write_u32_be 0 ++ fourcc "iso6" ++ fourcc "mp41" ++ fourcc "cmfc") [].
Definition mvhd_box : Box :=
  MkBox "mvhd" (full 0 0 ++ write_u32_be 0 ++ write_u32_be 0 ++ write_u32_be kMovieTimescale ++ write_u32_be 0 ++
    write_u32_be 0x00010000 ++ write_u16_be 0x0100 ++ write_u16_be 0 ++ zeros 8 ++ matrix_field ++ zeros 24 ++
    write_u32_be (kAudioTrackId + 1)) [].
Definition mdhd_box (timescale : Z) : Box :=
  MkBox "mdhd" (full 0 0 ++ write_u32_be 0 ++ write_u32_be 0 ++ write_u32_be timescale ++ write_u32_be 0 ++
    write_u16_be 0x55C4 ++ write_u16_be 0) [].
Definition vmhd_box : Box := MkBox "vmhd" (full 0 1 ++ write_u16_be 0 ++ zeros 6) [].
Definition smhd_box : Box := MkBox "smhd" (full 0 0 ++ write_u16_be 0 ++ write_u16_be 0) [].
Definition trak_box (tkhd mdhd hdlr media_header entry : Box) : Box :=
  MkBox "trak" [] [tkhd; MkBox "mdia" [] [mdhd; hdlr; MkBox "minf" [] [media_header; dinf_box; stbl_box entry]]].
Definition video_trak_box (c : Fmp4InitConfig) : Box :=
  trak_box (tkhd_box kVideoTrackId false (video_dimensions c)) (mdhd_box kVideoTimescale)
    (hdlr_box "vide" "VideoHandler") vmhd_box
    (video_entry_box (video_codec c) (video_decoder_config c) (video_dimensions c)).
Definition audio_trak_box (c : Fmp4InitConfig) (timescale : Z) : Box :=
  trak_box (tkhd_box kAudioTrackId true (mkVideoDimensions 0 0)) (mdhd_box timescale)
    (hdlr_box "soun" "SoundHandler") smhd_box
    (audio_entry_box (audio_config c) (audio_specific_config c)).
Definition init_boxes (c : Fmp4InitConfig) : list Box :=
  [ftyp_box;
   MkBox "moov" [] (
     mvhd_box ::
     (if has_video c then [video_trak_box c] else []) ++
     (if has_audio c then [audio_trak_box c (Aac.sample_rate (audio_config c))] else []) ++
     [MkBox "mvex" []
       ((if has_video c then [trex_box kVideoTrackId] else []) ++
        (if has_audio c then [trex_box kAudioTrackId] else []))])].

Definition sample_entry (s : Fmp4Sample) : list byte :=
  write_u32_be (sample_duration s) ++ write_u32_be (zlen (sample_data s)) ++
  write_u32_be (if sample_keyframe s then kSampleFlagsSync else kSampleFlagsNonSync) ++
  write_u32_be (composition_offset s).
Definition write_u64_be (v : Z) : list byte := write_u32_be (Z.shiftr v 32) ++ write_u32_be v.
Definition traf_box (track_id : Z) (f : Fmp4TrackFragment) (data_offset : Z) : Box :=
  MkBox "traf" [] [
    MkBox "tfhd" (full 0 0x020000 ++ write_u32_be track_id) [];
    MkBox "tfdt" (full 1 0 ++ write_u64_be (base_decode_time f)) [];
    MkBox "trun" (full 1 0x000F01 ++ write_u32_be (zlen (samples f)) ++ write_u32_be data_offset ++
                  concat (map sample_entry (samples f))) []].
Definition media_bytes (f : Fmp4TrackFragment) : list byte := concat (map sample_data (samples f)).
Definition moof_box (sequence : Z) (video audio : Fmp4TrackFragment) (video_offset audio_offset : Z) : Box :=
  MkBox "moof" [] (
    MkBox "mfhd" (full 0 0 ++ write_u32_be sequence) [] ::
    (if no_samples video then [] else [traf_box kVideoTrackId video video_offset]) ++
    (if no_samples audio then [] else [traf_box kAudioTrackId audio audio_offset])).
Definition styp_box : Box :=
  MkBox "styp" (fourcc "msdh" ++ write_u32_be 0 ++ fourcc "msdh" ++ fourcc "msix" ++ fourcc "cmfs") [].
(** A fragment: the offsets point behind the [moof] and the header of the [mdat]. *)
Definition moof_length (video audio : Fmp4TrackFragment) : Z := zlen (render (moof_box 0 video audio 0 0)).
Definition fragment_boxes (sequence : Z) (video audio : Fmp4TrackFragment) : list Box :=
  let start := moof_length video audio + 8 in
  [moof_box sequence video audio start (start + zlen (media_bytes video));
   MkBox "mdat" (media_bytes video ++ media_bytes audio) []].

(** * The one-pass writers produce the trees *)

Create HintDb mp4.

Lemma z2b_eq a b : a mod 256 = b mod 256 -> z2b a = z2b b.
Proof. intros H. by rewrite <- (z2b_mod a), H, z2b_mod. Qed.
Ltac same_byte :=
  apply z2b_eq; rewrite ?land_255; unfold u8, u16, u32; rewrite ?Z.shiftr_div_pow2 by lia;
  rewrite ?Zmod_mod; change (2 ^ 8) with 256 in *; change (2 ^ 16) with 65536 in *;
  change (2 ^ 24) with 16777216 in *; change (2 ^ 32) with 4294967296 in *; Z.div_mod_to_equations; lia.

Ltac same_bytes :=
  repeat match goal with |- _ :: _ = _ :: _ => apply (f_equal2 cons); [same_byte|] end; reflexivity.

Lemma put_u8_field out v : put_u8 out v = out ++ u8_field v.
Proof. done. Qed.
Lemma u8_field_u8 v : u8_field (u8 v) = u8_field v.
Proof. unfold u8_field, u8. by rewrite z2b_mod. Qed.
Lemma put_u16_field out v : put_u16 out v = out ++ write_u16_be v.
Proof.
  unfold put_u16, put_u8, write_u16_be. rewrite <- app_assoc. f_equal. cbn [app]. same_bytes.
Qed.
Lemma put_u24_field out v : put_u24 out v = out ++ write_u24_be v.
Proof.
  unfold put_u24, put_u8, write_u24_be. rewrite <- !app_assoc. f_equal. cbn [app]. same_bytes.
Qed.
Lemma put_u32_field out v : put_u32 out v = out ++ write_u32_be v.
Proof.
  unfold put_u32. rewrite !put_u16_field, <- app_assoc. f_equal. unfold write_u16_be, write_u32_be. cbn [app].
  same_bytes.
Qed.
Lemma write_u32_be_u32 v : write_u32_be (u32 v) = write_u32_be v.
Proof. unfold write_u32_be. same_bytes. Qed.
Lemma write_u16_be_u16 v : write_u16_be (u16 v) = write_u16_be v.
Proof. unfold write_u16_be. same_bytes. Qed.
Lemma put_u64_field out v : put_u64 out v = out ++ write_u64_be v.
Proof. unfold put_u64, write_u64_be. by rewrite !put_u32_field, !write_u32_be_u32, <- app_assoc. Qed.
Lemma put_matrix_field out : put_identity_matrix out = out ++ matrix_field.
Proof.
  unfold put_identity_matrix, matrix_field. cbn [fold_left map concat].
  by rewrite !put_u32_field, <- !app_assoc, app_nil_r.
Qed.
Lemma fold_appends {A B} (f : list B -> A -> list B) (g : A -> list B) (l : list A) out :
  (forall out a, f out a = out ++ g a) -> fold_left f l out = out ++ concat (map g l).
Proof.
  intros H. revert out. induction l as [|a l IH]; intros out; cbn; [by rewrite app_nil_r|].
  by rewrite IH, H, <- app_assoc.
Qed.
Lemma put_name out name :
  fold_left (fun out c => put_u8 out (char_code c)) (str name) out = out ++ fourcc name.
Proof.
  rewrite (fold_appends _ (fun c => [z2b (char_code c)])) by done. f_equal. unfold fourcc.
  by induction (str name) as [|c l IH]; cbn; [|f_equal].
Qed.

Definition box_head (type : string) : list byte := write_u32_be 0 ++ fourcc type.
Lemma open_box_head out type : open_box out type = (out ++ box_head type, zlen out).
Proof. unfold open_box, put_fourcc, box_head. by rewrite put_u32_field, <- app_assoc. Qed.
Lemma open_full_box_head out type v f :
  open_full_box out type v f = ((out ++ box_head type) ++ u8_field v ++ write_u24_be f, zlen out).
Proof. unfold open_full_box. by rewrite open_box_head, put_u24_field, put_u8_field, <- !app_assoc. Qed.

(** Patching a field in place. *)
Lemma patch_field pre v0 post v :
  patch_u32 (pre ++ write_u32_be v0 ++ post) (zlen pre) v = Ok (pre ++ write_u32_be v ++ post).
Proof.
  unfold patch_u32. pose proof (zlen_nonneg pre). pose proof (zlen_nonneg post).
  rewrite !zlen_app, zlen_write_u32_be. rewrite (proj2 (Z.leb_le _ _)), (proj2 (Z.leb_le _ _)) by lia. cbn [andb].
  cbv zeta. f_equal. unfold zlen.
  replace (Z.to_nat (Z.of_nat (length pre) + 0)) with (length pre + 0)%nat by lia.
  replace (Z.to_nat (Z.of_nat (length pre) + 1)) with (length pre + 1)%nat by lia.
  replace (Z.to_nat (Z.of_nat (length pre) + 2)) with (length pre + 2)%nat by lia.
  replace (Z.to_nat (Z.of_nat (length pre) + 3)) with (length pre + 3)%nat by lia.
  rewrite !insert_app_r. f_equal. unfold write_u32_be. cbn. same_bytes.
Qed.

Lemma close_head pre type body : length (fourcc type) = 4%nat ->
  close_box ((pre ++ box_head type) ++ body) (zlen pre) = Ok (pre ++ box type body).
Proof.
  intros Ht. unfold close_box, box_head. rewrite <- !app_assoc, patch_field, write_u32_be_u32. unfold box.
  do 3 f_equal. rewrite !zlen_app, zlen_write_u32_be.
  unfold zlen at 2. rewrite Ht. f_equal. lia.
Qed.

#[export] Hint Rewrite put_u8_field u8_field_u8 put_u16_field put_u24_field put_u32_field put_u64_field
  write_u32_be_u32 write_u16_be_u16 put_matrix_field put_name : mp4.

(** One step of a one-pass writer: fields are appended, and the innermost box is closed. *)
Ltac body_of X pre :=
  lazymatch X with
  | pre ++ box_head _ => constr:(@nil byte)
  | (pre ++ box_head _) ++ ?z => z
  | ?Y ++ ?z => let b := body_of Y pre in constr:(b ++ z)
  end.
Ltac type_of X pre :=
  lazymatch X with
  | pre ++ box_head ?t => t
  | ?Y ++ _ => type_of Y pre
  end.
Ltac put_fields := autorewrite with mp4; unfold put_fourcc, put_zeros, put_bytes.
Ltac open_one :=
  first [rewrite open_full_box_head | rewrite open_box_head]; put_fields; cbv beta iota zeta.
Ltac close_one :=
  lazymatch goal with
  | |- context [close_box ?X (zlen ?pre)] =>
      let b := body_of X pre in let t := type_of X pre in
      replace X with ((pre ++ box_head t) ++ b) by (rewrite <- ?app_assoc; reflexivity);
      rewrite (close_head pre t b eq_refl); cbn [rbind]
  end.
Ltac same_tree :=
  unfold full, zeros, write_u64_be; cbn [render map concat]; rewrite <- ?app_assoc, ?app_nil_r, ?app_nil_l; reflexivity.
Ltac one_pass := repeat open_one; repeat close_one; apply (f_equal Ok); same_tree.

Lemma write_hdlr_box out handler name : write_hdlr out handler name = Ok (out ++ render (hdlr_box handler name)).
Proof. unfold write_hdlr. open_one. close_one. f_equal. unfold hdlr_box. same_tree. Qed.
Lemma write_dinf_box out : write_dinf out = Ok (out ++ render dinf_box).
Proof. unfold write_dinf. one_pass. Qed.
Lemma put_descriptor out tag n : put_descriptor_header out tag n = out ++ u8_field tag ++ u8_field (n mod 128).
Proof.
  unfold put_descriptor_header. rewrite !put_u8_field, u8_field_u8, <- !app_assoc.
  change 127 with (2 ^ 7 - 1). by rewrite land_ones_mod by lia.
Qed.
#[export] Hint Rewrite put_descriptor : mp4.
Lemma descriptor_of tag n body : n = zlen body ->
  u8_field tag ++ u8_field (n mod 128) ++ body = descriptor tag body.
Proof. by intros ->. Qed.
Lemma write_esds_box out asc : write_esds out asc = Ok (out ++ render (esds_box asc)).
Proof.
  unfold write_esds. open_one. close_one. f_equal. unfold esds_box, descriptor.
  autorewrite with bytes. change (zlen (u8_field _)) with 1. change (zlen (write_u24_be _)) with 3.
  replace (1 + (1 + (3 + (4 + (4 + (1 + (1 + zlen asc))))))) with (13 + 2 + zlen asc) by lia.
  replace (2 + (1 + (1 + (1 + (13 + 2 + zlen asc)) + (1 + (1 + 1))))) with (3 + 2 + (13 + 2 + zlen asc) + 2 + 1) by lia.
  same_tree.
Qed.
Lemma write_video_entry_box out codec config d :
  write_video_sample_entry out codec config d = Ok (out ++ render (video_entry_box codec config d)).
Proof.
  unfold write_video_sample_entry, video_entry_box. destruct (decide (codec = Hevc)); one_pass.
Qed.
Lemma write_audio_entry_box out config asc :
  write_audio_sample_entry out config asc = Ok (out ++ render (audio_entry_box config asc)).
Proof.
  unfold write_audio_sample_entry, audio_entry_box. open_one. rewrite write_esds_box. cbn [rbind]. close_one.
  f_equal. replace (Z.shiftl (if 65535 <? Aac.sample_rate config then 65535 else Aac.sample_rate config) 16)
    with (Z.min 65535 (Aac.sample_rate config) * 2 ^ 16); [same_tree|].
  rewrite Z.shiftl_mul_pow2 by lia. destruct (Z.ltb_spec 65535 (Aac.sample_rate config)); lia.
Qed.
Lemma write_tables_box out :
  write_empty_sample_tables out = Ok (out ++ renders [MkBox "stts" (full 0 0 ++ write_u32_be 0) [];
    MkBox "stsc" (full 0 0 ++ write_u32_be 0) []; MkBox "stsz" ((full 0 0 ++ write_u32_be 0) ++ write_u32_be 0) [];
    MkBox "stco" (full 0 0 ++ write_u32_be 0) []]).
Proof. unfold write_empty_sample_tables. do 4 (open_one; close_one). f_equal. unfold renders. same_tree. Qed.
Lemma shiftl_16 v : Z.shiftl v 16 = v * 2 ^ 16.
Proof. by rewrite Z.shiftl_mul_pow2. Qed.
Lemma write_tkhd_box out id a d : write_tkhd out id a d = Ok (out ++ render (tkhd_box id a d)).
Proof. unfold write_tkhd, tkhd_box. rewrite !shiftl_16. destruct a; one_pass. Qed.
Lemma write_trex_box out id : write_trex out id = Ok (out ++ render (trex_box id)).
Proof. unfold write_trex. one_pass. Qed.
Lemma write_ftyp_box out : write_ftyp out = Ok (out ++ render ftyp_box).
Proof. unfold write_ftyp. one_pass. Qed.
Lemma write_mvhd_box out : write_mvhd out = Ok (out ++ render mvhd_box).
Proof. unfold write_mvhd. one_pass. Qed.
Lemma write_mdhd_box out t : write_mdhd out t = Ok (out ++ render (mdhd_box t)).
Proof. unfold write_mdhd. one_pass. Qed.
Lemma write_vmhd_box out : write_vmhd out = Ok (out ++ render vmhd_box).
Proof. unfold write_vmhd. one_pass. Qed.
Lemma write_smhd_box out : write_smhd out = Ok (out ++ render smhd_box).
Proof. unfold write_smhd. one_pass. Qed.
Lemma write_styp_box out : write_styp out = Ok (out ++ render styp_box).
Proof. unfold write_styp. one_pass. Qed.
#[export] Hint Rewrite write_hdlr_box write_dinf_box write_esds_box write_video_entry_box write_audio_entry_box
  write_tables_box write_tkhd_box write_trex_box write_ftyp_box write_mvhd_box write_mdhd_box write_vmhd_box
  write_smhd_box write_styp_box : mp4.

Ltac sub_boxes := repeat (progress (autorewrite with mp4; cbn [rbind]; cbv beta iota zeta)).
Ltac trak_tree := unfold trak_box, stbl_box, renders; cbv zeta; same_tree.
Lemma write_video_trak_box out c : write_video_trak out c = Ok (out ++ render (video_trak_box c)).
Proof.
  unfold write_video_trak. do 5 (try open_one; sub_boxes). repeat (close_one; sub_boxes).
  apply (f_equal Ok). unfold video_trak_box. trak_tree.
Qed.
Lemma write_audio_trak_box out c t : write_audio_trak out c t = Ok (out ++ render (audio_trak_box c t)).
Proof.
  unfold write_audio_trak. do 5 (try open_one; sub_boxes). repeat (close_one; sub_boxes).
  apply (f_equal Ok). unfold audio_trak_box. trak_tree.
Qed.
#[export] Hint Rewrite write_video_trak_box write_audio_trak_box : mp4.

(** What an init segment needs. *)
Definition init_ok (c : Fmp4InitConfig) : bool :=
  (has_video c || has_audio c) &&
  (negb (has_video c) || negb (bool_decide (video_decoder_config c = [])) && valid_dimensions (video_dimensions c)) &&
  (negb (has_audio c) || negb (bool_decide (audio_specific_config c = [])) && negb (Aac.sample_rate (audio_config c) =? 0)).

Lemma write_moov_tree c (hv ha : bool) :
  (out <- write_ftyp [] ;;
   let '(out, moov) := open_box out "moov" in
   out <- write_mvhd out ;;
   out <- (if hv then write_video_trak out c else Ok out) ;;
   out <- (if ha then
             let timescale := Aac.sample_rate (audio_config c) in
             if timescale =? 0 then Err (invalid "AudioSpecificConfig carries a reserved sampling index")
             else write_audio_trak out c timescale
           else Ok out) ;;
   let '(out, mvex) := open_box out "mvex" in
   out <- (if hv then write_trex out kVideoTrackId else Ok out) ;;
   out <- (if ha then write_trex out kAudioTrackId else Ok out) ;;
   out <- close_box out mvex ;;
   close_box out moov) =
  if ha && (Aac.sample_rate (audio_config c) =? 0)
  then Err (invalid "AudioSpecificConfig carries a reserved sampling index")
  else Ok (renders [ftyp_box; MkBox "moov" [] (mvhd_box :: (if hv then [video_trak_box c] else []) ++
         (if ha then [audio_trak_box c (Aac.sample_rate (audio_config c))] else []) ++
         [MkBox "mvex" [] ((if hv then [trex_box kVideoTrackId] else []) ++ (if ha then [trex_box kAudioTrackId] else []))])]).
Proof.
  destruct hv, ha; cbn [andb]; try destruct (Aac.sample_rate (audio_config c) =? 0);
    do 4 (try open_one; sub_boxes); try reflexivity.
  all: repeat (close_one; sub_boxes); apply (f_equal Ok); unfold renders; same_tree.
Qed.

(** The one-pass writer of the init segment gives the bytes of its tree, or refuses exactly
    the configurations that lack something. *)
Lemma init_segment_tree c :
  if init_ok c then init_segment c = Ok (renders (init_boxes c))
  else exists what, init_segment c = Err (invalid what).
Proof.
  unfold init_ok, init_segment, init_boxes. rewrite write_moov_tree.
  destruct (has_video c), (has_audio c), (bool_decide (video_decoder_config c = [])),
    (bool_decide (audio_specific_config c = [])), (valid_dimensions (video_dimensions c));
    cbn [orb andb negb]; try (by eauto);
    destruct (Aac.sample_rate (audio_config c) =? 0); cbn [negb]; by eauto.
Qed.

(** ** Fragments *)

Lemma put_sample_entries samples out : fold_left put_sample samples out = out ++ concat (map sample_entry samples).
Proof.
  apply fold_appends. intros o s. unfold put_sample, sample_entry. by autorewrite with mp4; rewrite <- !app_assoc.
Qed.
Lemma total_sample_bytes_media f : total_sample_bytes f = zlen (media_bytes f).
Proof.
  unfold total_sample_bytes, media_bytes. rewrite <- (Z.add_0_l (zlen _)). generalize 0.
  induction (samples f) as [|s l IH]; intros z; cbn; [change (zlen (@nil byte)) with 0; lia|].
  rewrite IH, zlen_app. lia.
Qed.
Lemma put_samples_media out f : put_samples out f = out ++ media_bytes f.
Proof. unfold put_samples, put_bytes, media_bytes. by apply fold_appends. Qed.
#[export] Hint Rewrite put_sample_entries put_samples_media : mp4.

(** The bytes of a [traf] before and behind its data offset. *)
Definition traf_front (track_id : Z) (f : Fmp4TrackFragment) : list byte :=
  let entries := concat (map sample_entry (samples f)) in
  let tfhd := render (MkBox "tfhd" (full 0 0x020000 ++ write_u32_be track_id) []) in
  let tfdt := render (MkBox "tfdt" (full 1 0 ++ write_u64_be (base_decode_time f)) []) in
  write_u32_be (16 + zlen tfhd + zlen tfdt + 12 + zlen entries) ++ fourcc "traf" ++ tfhd ++ tfdt ++
  write_u32_be (8 + 12 + zlen entries) ++ fourcc "trun" ++ full 1 0x000F01 ++ write_u32_be (zlen (samples f)).
Lemma zlen_full v f : zlen (full v f) = 4.
Proof. done. Qed.
#[export] Hint Rewrite zlen_full : bytes.
Lemma render_traf id f off :
  render (traf_box id f off) = traf_front id f ++ write_u32_be off ++ concat (map sample_entry (samples f)).
Proof.
  unfold traf_box, traf_front. cbv zeta.
  set (tfhd := MkBox "tfhd" _ _). set (tfdt := MkBox "tfdt" _ _). cbn [render map concat].
  set (entries := concat (map sample_entry (samples f))).
  rewrite !app_nil_r, !app_nil_l. unfold box.
  autorewrite with bytes. rewrite ?zlen_app, ?zlen_cons, ?zlen_write_u32_be, ?zlen_full.
  change (zlen (fourcc "trun")) with 4. rewrite <- !app_assoc.
  apply (f_equal2 app); [f_equal; lia|]. do 3 (apply (f_equal2 app); [reflexivity|]).
  apply (f_equal2 app); [f_equal; lia|reflexivity].
Qed.

Lemma write_traf_box out start id f :
  write_traf out start id f = Ok (out ++ render (traf_box id f 0), zlen out + zlen (traf_front id f) - start).
Proof.
  unfold write_traf. open_one. open_one. close_one. open_one. close_one. open_one. close_one. close_one.
  apply (f_equal Ok), (f_equal2 pair); [unfold traf_box; same_tree|].
  unfold traf_front, full. cbn [render map concat]. rewrite !app_nil_r, !zlen_app, !zlen_write_u32_be.
  change (zlen (box_head _)) with 8. change (zlen (fourcc _)) with 4. lia.
Qed.

(** The tree of a [moof] whose offsets are still to be patched, around its offsets. *)
Lemma render_moof seq video audio vo ao :
  render (moof_box seq video audio vo ao) =
  let trafs := (if no_samples video then [] else render (traf_box kVideoTrackId video vo)) ++
               (if no_samples audio then [] else render (traf_box kAudioTrackId audio ao)) in
  let mfhd := render (MkBox "mfhd" (full 0 0 ++ write_u32_be seq) []) in
  write_u32_be (8 + zlen mfhd + zlen trafs) ++ fourcc "moof" ++ mfhd ++ trafs.
Proof.
  unfold moof_box. cbv zeta. set (mfhd := MkBox "mfhd" _ _). cbn [render map concat].
  rewrite app_nil_l, map_app, concat_app. unfold box.
  destruct (no_samples video), (no_samples audio); cbn [map concat]; rewrite ?app_nil_r, ?app_nil_l;
    (apply (f_equal2 app); [rewrite ?zlen_app; f_equal; try change (zlen (@nil byte)) with 0; lia|reflexivity]).
Qed.
Lemma zlen_render_traf id f off : zlen (render (traf_box id f off)) = zlen (traf_front id f) + 4 + zlen (concat (map sample_entry (samples f))).
Proof. rewrite render_traf, !zlen_app, zlen_write_u32_be. lia. Qed.
Lemma zlen_render_moof seq video audio vo ao : zlen (render (moof_box seq video audio vo ao)) = moof_length video audio.
Proof.
  unfold moof_length. rewrite !render_moof. cbv zeta. cbn [render map concat]. unfold box.
  rewrite !zlen_app, !zlen_write_u32_be. destruct (no_samples video), (no_samples audio); by rewrite ?zlen_render_traf.
Qed.

(** Where the offsets of a [moof] are, and what patching them gives. *)
Definition video_position (video : Fmp4TrackFragment) : Z := 24 + zlen (traf_front kVideoTrackId video).
Definition audio_position (video audio : Fmp4TrackFragment) : Z :=
  24 + (if no_samples video then 0 else zlen (render (traf_box kVideoTrackId video 0))) +
  zlen (traf_front kAudioTrackId audio).

Lemma patch_at pre v0 post offset v : offset = zlen pre ->
  patch_u32 (pre ++ write_u32_be v0 ++ post) offset v = Ok (pre ++ write_u32_be v ++ post).
Proof. intros ->. apply patch_field. Qed.

Lemma patch_video seq video audio vo ao w : no_samples video = false ->
  patch_u32 (render (moof_box seq video audio vo ao)) (video_position video) w =
  Ok (render (moof_box seq video audio w ao)).
Proof.
  intros Hv. rewrite !render_moof. cbv zeta. rewrite Hv, !render_traf.
  set (mfhd := render (MkBox "mfhd" _ _)). assert (Hm : zlen mfhd = 16) by done.
  set (rest := if no_samples audio then [] else _). set (entries := concat _). set (front := traf_front _ video).
  replace (zlen ((front ++ write_u32_be w ++ entries) ++ rest)) with (zlen ((front ++ write_u32_be vo ++ entries) ++ rest))
    by (rewrite !zlen_app, !zlen_write_u32_be; done).
  set (size := write_u32_be (8 + _ + _)).
  rewrite <- (app_assoc front), <- !(app_assoc (write_u32_be _) entries).
  rewrite !(app_assoc size), !(app_assoc (size ++ _)), !(app_assoc ((size ++ _) ++ _)).
  apply patch_at. unfold size. rewrite !zlen_app, zlen_write_u32_be, Hm. unfold video_position.
  change (zlen (fourcc "moof")) with 4. subst front. lia.
Qed.
Lemma patch_audio seq video audio vo ao w : no_samples audio = false ->
  patch_u32 (render (moof_box seq video audio vo ao)) (audio_position video audio) w =
  Ok (render (moof_box seq video audio vo w)).
Proof.
  intros Ha. rewrite !render_moof. cbv zeta. rewrite Ha, !render_traf.
  set (mfhd := render (MkBox "mfhd" _ _)). assert (Hm : zlen mfhd = 16) by done.
  set (first := if no_samples video then [] else _).
  assert (Hf : zlen first = if no_samples video then 0 else zlen (render (traf_box kVideoTrackId video 0))).
  { subst first. destruct (no_samples video); [done|]. rewrite <- render_traf. by rewrite !zlen_render_traf. }
  set (entries := concat (map _ (samples audio))). set (front := traf_front kAudioTrackId audio).
  replace (zlen (first ++ front ++ write_u32_be w ++ entries)) with (zlen (first ++ front ++ write_u32_be ao ++ entries))
    by (rewrite !zlen_app, !zlen_write_u32_be; done).
  set (size := write_u32_be (8 + _ + _)).
  rewrite !(app_assoc size), !(app_assoc (size ++ _)), !(app_assoc ((size ++ _) ++ _)), !(app_assoc (((size ++ _) ++ _) ++ _)).
  apply patch_at. unfold size. rewrite !zlen_app, zlen_write_u32_be, Hm, Hf. unfold audio_position.
  change (zlen (fourcc "moof")) with 4. subst front. lia.
Qed.

Lemma write_u32_be_cong a b : u32 a = u32 b -> write_u32_be a = write_u32_be b.
Proof. intros H. by rewrite <- (write_u32_be_u32 a), H, write_u32_be_u32. Qed.
Lemma render_moof_cong seq video audio vo vo' ao ao' : u32 vo = u32 vo' -> u32 ao = u32 ao' ->
  render (moof_box seq video audio vo ao) = render (moof_box seq video audio vo' ao').
Proof.
  intros Hv Ha. unfold moof_box, traf_box. by rewrite (write_u32_be_cong _ _ Hv), (write_u32_be_cong _ _ Ha).
Qed.

(** Whatever the fragments, the one-pass writer gives the bytes of the fragment's tree. *)
Lemma write_fragment_tree m out video audio :
  write_fragment m out video audio =
  if no_samples video && no_samples audio then Err (invalid "fMP4 fragment carries no samples") else
  if 2 ^ 32 - 1 <? zlen (media_bytes video) + zlen (media_bytes audio) + 8 then
    Err (invalid "fMP4 fragment exceeds the 32-bit mdat size limit") else
  let sequence := u32 (sequence_number_ m + 1) in
  Ok (mkFmp4Muxer sequence, out ++ renders (fragment_boxes sequence video audio)).
Proof.
  unfold write_fragment. rewrite !total_sample_bytes_media. cbv zeta.
  destruct (no_samples video && no_samples audio) eqn:Hn; [done|]. destruct (_ <? _); [done|].
  open_one. open_one. close_one. cbn [sequence_number_].
  set (seq := u32 (sequence_number_ m + 1)).
  set (mfhd := box "mfhd" _). assert (Hm : zlen mfhd = 16) by done.
  set (front := ([] ++ box_head "moof") ++ mfhd).
  assert (Hfront : zlen front = 24) by (unfold front; rewrite zlen_app, Hm; done).
  set (video_out := front ++ (if no_samples video then [] else render (traf_box kVideoTrackId video 0))).
  set (audio_out := video_out ++ (if no_samples audio then [] else render (traf_box kAudioTrackId audio 0))).
  assert (Hcv : (if no_samples video then Ok (front, 0) else write_traf front (zlen (@nil byte)) kVideoTrackId video) =
                Ok (video_out, if no_samples video then 0 else video_position video)).
  { unfold video_out, video_position. rewrite write_traf_box. change (zlen (@nil byte)) with 0.
    rewrite Z.sub_0_r, Hfront. destruct (no_samples video); by rewrite ?app_nil_r. }
  assert (Hca : (if no_samples audio then Ok (video_out, 0) else write_traf video_out (zlen (@nil byte)) kAudioTrackId audio) =
                Ok (audio_out, if no_samples audio then 0 else audio_position video audio)).
  { unfold audio_out, audio_position, video_out. rewrite write_traf_box, zlen_app, Hfront. change (zlen (@nil byte)) with 0.
    rewrite Z.sub_0_r. destruct (no_samples audio); [by rewrite app_nil_r|]. by destruct (no_samples video). }
  assert (Hcl : close_box audio_out (zlen (@nil byte)) = Ok (render (moof_box seq video audio 0 0))).
  { unfold audio_out, video_out, front. rewrite <- !(app_assoc (_ ++ box_head "moof")), close_head by done.
    rewrite render_moof. cbv zeta. unfold box at 1. subst mfhd. cbn [render map concat]. rewrite app_nil_r, app_nil_l.
    do 2 f_equal. unfold full. rewrite <- !app_assoc, !zlen_app. rewrite <- ?Z.add_assoc. done. }
  rewrite Hcv. cbn [rbind]. rewrite Hca. cbn [rbind]. rewrite Hcl. cbn [rbind]. rewrite zlen_render_moof.
  set (len := moof_length video audio).
  assert (Hpv : (if no_samples video then Ok (render (moof_box seq video audio 0 0))
                 else patch_u32 (render (moof_box seq video audio 0 0))
                        (if no_samples video then 0 else video_position video) (u32 (u32 len + 8))) =
                Ok (render (moof_box seq video audio (len + 8) 0))).
  { destruct (no_samples video) eqn:Hv.
    - unfold moof_box. by rewrite Hv.
    - rewrite patch_video by done. f_equal. apply render_moof_cong; [|done]. unfold u32. by rewrite !Zmod_mod, Zplus_mod_idemp_l. }
  rewrite Hpv. cbn [rbind].
  assert (Hpa : (if no_samples audio then Ok (render (moof_box seq video audio (len + 8) 0))
                 else patch_u32 (render (moof_box seq video audio (len + 8) 0))
                        (if no_samples audio then 0 else audio_position video audio)
                        (u32 (u32 len + 8 + u32 (zlen (media_bytes video))))) =
                Ok (render (moof_box seq video audio (len + 8) (len + 8 + zlen (media_bytes video))))).
  { destruct (no_samples audio) eqn:Ha.
    - unfold moof_box. by rewrite Ha.
    - rewrite patch_audio by done. f_equal. apply render_moof_cong; [done|]. unfold u32.
      by rewrite !Zmod_mod, Zplus_mod_idemp_r, <- Z.add_assoc, Zplus_mod_idemp_l, Z.add_assoc. }
  rewrite Hpa. cbn [rbind]. rewrite !put_samples_media, put_u32_field, write_u32_be_u32.
  apply (f_equal (fun l => Ok (mkFmp4Muxer seq, l))). unfold fragment_boxes, renders. cbv zeta. cbn [map concat]. rewrite !app_nil_r.
  fold len. cbn [render map concat]. unfold box at 1. rewrite app_nil_r, zlen_app, <- !app_assoc.
  do 2 (apply (f_equal2 app); [reflexivity|]). apply (f_equal2 app); [f_equal; lia|reflexivity].
Qed.
