(* ===== verification/Fmp4ReadBack.v ===== *)
(** What a player reads out of the init segments and fragments of media/mp4/fmp4_muxer.cpp.

    The reader is written from ISO/IEC 14496-12, 14496-14 and 14496-15, not from the
    writer: it walks the boxes by their sizes, finds the boxes it needs by type, and
    follows the offsets of a fragment into its data. *)

From S2P Require Import Prelude Bytes Text Avc H264Sps Fmp4.
From S2P Require Aac.

(** * Reading boxes *)

Declare Scope reader_scope.
Notation "'some' p := m 'in' k" := (match m with Some p => k | None => None end)
  (at level 200, p pattern, m at level 200, k at level 200) : reader_scope.
Open Scope reader_scope.

Definition take_u8 (l : list byte) : option (Z * list byte) :=
  match l with a :: l => Some (b2z a, l) | _ => None end.
Definition take_u16 (l : list byte) : option (Z * list byte) :=
  match l with a :: b :: l => Some (be16 a b, l) | _ => None end.
Definition take_u24 (l : list byte) : option (Z * list byte) :=
  match l with a :: b :: c :: l => Some (be24 a b c, l) | _ => None end.
Definition take_u32 (l : list byte) : option (Z * list byte) :=
  match l with a :: b :: c :: d :: l => Some (be32 a b c d, l) | _ => None end.
Definition take_n (n : Z) (l : list byte) : option (list byte * list byte) :=
  if (0 <=? n) && (n <=? zlen l) then Some (take (Z.to_nat n) l, drop (Z.to_nat n) l) else None.

(** A box as it is found: where it starts, its type, and its contents. *)
Record Found := mkFound { at_offset : Z; box_type : list byte; contents : list byte }.

Fixpoint walk (fuel : nat) (offset : Z) (l : list byte) : option (list Found) :=
  match fuel, l with
  | _, [] => Some []
  | O, _ => None
  | S fuel, _ =>
      some (size, l) := take_u32 l in
      some (type, l) := take_n 4 l in
      some (body, l) := take_n (size - 8) l in
      some rest := walk fuel (offset + size) l in
      Some (mkFound offset type body :: rest)
  end.
Definition boxes_in (l : list byte) : option (list Found) := walk (length l) 0 l.

Definition of_type (type : string) (f : Found) : bool := bool_decide (box_type f = fourcc type).
Definition find_box (type : string) (l : list byte) : option Found :=
  some fs := boxes_in l in
  head (filter (fun f => of_type type f = true) fs).
Definition child (type : string) (l : list byte) : option (list byte) := contents <$> find_box type l.
Definition children (type : string) (l : list byte) : option (list (list byte)) :=
  some fs := boxes_in l in
  Some (map contents (filter (fun f => of_type type f = true) fs)).

(** * Reading an init segment *)

Inductive TrackKind :=
| VideoTrack (codec : VideoCodec) (dimensions : VideoDimensions) (decoder_config : list byte)
| AudioTrack (channels : Z) (asc : list byte).
Record Track := mkTrack { track_id : Z; timescale : Z; kind : TrackKind }.

(** A descriptor of ISO/IEC 14496-1: its length is in groups of seven bits. *)
Fixpoint take_length (fuel : nat) (acc : Z) (l : list byte) : option (Z * list byte) :=
  match fuel with
  | O => None
  | S fuel =>
      some (b, l) := take_u8 l in
      let acc := acc * 128 + b mod 128 in
      if 128 <=? b then take_length fuel acc l else Some (acc, l)
  end.
Definition take_descriptor (tag : Z) (l : list byte) : option (list byte * list byte) :=
  some (t, l) := take_u8 l in
  if negb (t =? tag) then None else
  some (n, l) := take_length 4 0 l in
  take_n n l.

Definition read_esds (l : list byte) : option (list byte) :=
  some (_, l) := take_n 4 l in
  some (es, _) := take_descriptor 3 l in
  some (_, es) := take_n 3 es in
  some (config, _) := take_descriptor 4 es in
  some (_, config) := take_n 13 config in
  some (asc, _) := take_descriptor 5 config in
  Some asc.

Definition read_video_entry (codec : VideoCodec) (type : string) (l : list byte) : option TrackKind :=
  some (_, l) := take_n 24 l in
  some (w, l) := take_u16 l in
  some (h, l) := take_u16 l in
  some (_, l) := take_n 50 l in
  some config := child type l in
  Some (VideoTrack codec (mkVideoDimensions w h) config).
Definition read_audio_entry (l : list byte) : option TrackKind :=
  some (_, l) := take_n 16 l in
  some (channels, l) := take_u16 l in
  some (_, l) := take_n 10 l in
  some esds := child "esds" l in
  AudioTrack channels <$> read_esds esds.
Definition read_entry (f : Found) : option TrackKind :=
  if of_type "avc1" f then read_video_entry H264 "avcC" (contents f)
  else if of_type "hvc1" f then read_video_entry Hevc "hvcC" (contents f)
  else if of_type "mp4a" f then read_audio_entry (contents f)
  else None.

Definition read_track (trak : list byte) : option Track :=
  some tkhd := child "tkhd" trak in
  some (_, tkhd) := take_n 12 tkhd in
  some (id, _) := take_u32 tkhd in
  some mdia := child "mdia" trak in
  some mdhd := child "mdhd" mdia in
  some (_, mdhd) := take_n 12 mdhd in
  some (scale, _) := take_u32 mdhd in
  some minf := child "minf" mdia in
  some stbl := child "stbl" minf in
  some stsd := child "stsd" stbl in
  some (_, entries) := take_n 8 stsd in
  some entries := boxes_in entries in
  some entry := head entries in
  some k := read_entry entry in
  Some (mkTrack id scale k).

Definition read_init (l : list byte) : option (list Track) :=
  some moov := child "moov" l in
  some traks := children "trak" moov in
  mapM read_track traks.

(** * Reading a fragment *)

Definition i32 (v : Z) : Z := if 2 ^ 31 <=? v then v - 2 ^ 32 else v.

(** The entries of a [trun] with all four fields, and where the next sample's data is. *)
Fixpoint read_samples (fuel : nat) (count offset : Z) (entries file : list byte) : option (list Fmp4Sample) :=
  match fuel with
  | O => if count =? 0 then Some [] else None
  | S fuel =>
      if count =? 0 then Some [] else
      some (duration, entries) := take_u32 entries in
      some (size, entries) := take_u32 entries in
      some (flags, entries) := take_u32 entries in
      some (composition, entries) := take_u32 entries in
      some (_, from) := take_n offset file in
      some (data, _) := take_n size from in
      some rest := read_samples fuel (count - 1) (offset + size) entries file in
      Some (mkFmp4Sample data duration (i32 composition) (negb (Z.testbit flags 16)) :: rest)
  end.

Definition read_traf (moof_offset : Z) (file traf : list byte) : option (Z * Fmp4TrackFragment) :=
  some tfhd := child "tfhd" traf in
  some (flags, tfhd) := take_u32 tfhd in
  if negb (flags =? 0x020000) then None else
  some (id, _) := take_u32 tfhd in
  some tfdt := child "tfdt" traf in
  some (version, tfdt) := take_u32 tfdt in
  if negb (version =? 2 ^ 24) then None else
  some (high, tfdt) := take_u32 tfdt in
  some (low, _) := take_u32 tfdt in
  some trun := child "trun" traf in
  some (flags, trun) := take_u32 trun in
  if negb (flags =? 2 ^ 24 + 0x000F01) then None else
  some (count, trun) := take_u32 trun in
  some (offset, trun) := take_u32 trun in
  some samples := read_samples (length trun) count (moof_offset + i32 offset) trun file in
  Some (id, mkFmp4TrackFragment (high * 2 ^ 32 + low) samples).

(** The sequence number, and for each track its number and its samples. *)
Definition read_fragment (file : list byte) : option (Z * list (Z * Fmp4TrackFragment)) :=
  some moof := find_box "moof" file in
  some mfhd := child "mfhd" (contents moof) in
  some (_, mfhd) := take_n 4 mfhd in
  some (sequence, _) := take_u32 mfhd in
  some trafs := children "traf" (contents moof) in
  some fragments := mapM (read_traf (at_offset moof) file) trafs in
  Some (sequence, fragments).

(** * What is read of what was written *)

Create HintDb mp4_read.

Lemma take_u8_field v l : take_u8 (u8_field v ++ l) = Some (v mod 256, l).
Proof. cbn. by rewrite b2z_z2b. Qed.
Lemma take_u16_field v l : take_u16 (write_u16_be v ++ l) = Some (u16 v, l).
Proof. cbn. do 2 f_equal. pose proof (read_write_u16_be v) as H. unfold write_u16_be in H. rewrite read_u16_be_spec in H. by injection H. Qed.
Lemma take_u32_field v l : take_u32 (write_u32_be v ++ l) = Some (u32 v, l).
Proof. cbn. do 2 f_equal. pose proof (read_write_u32_be v) as H. unfold write_u32_be in H. rewrite read_u32_be_spec in H. by injection H. Qed.
Lemma take_n_app n l1 l2 : n = zlen l1 -> take_n n (l1 ++ l2) = Some (l1, l2).
Proof.
  intros ->. unfold take_n. rewrite zlen_app. rewrite (proj2 (Z.leb_le _ _)), (proj2 (Z.leb_le _ _)) by zlia. cbn [andb].
  unfold zlen. rewrite Nat2Z.id. by rewrite take_app_length, drop_app_length.
Qed.
Lemma take_n_all n l : n = zlen l -> take_n n l = Some (l, []).
Proof. intros Hn. rewrite <- (app_nil_r l) at 1. by apply take_n_app. Qed.

(** Boxes of a size that fits their header are walked as they are. *)
Definition type_name (b : Box) : list byte := let '(MkBox t _ _) := b in fourcc t.
Definition payload_of (b : Box) : list byte := let '(MkBox _ fields cs) := b in fields ++ renders cs.
Definition fits_header (b : Box) : bool :=
  bool_decide (length (type_name b) = 4%nat) && (8 + zlen (payload_of b) <? 2 ^ 32).

Lemma render_box b : render b = write_u32_be (8 + zlen (payload_of b)) ++ type_name b ++ payload_of b.
Proof. by destruct b. Qed.
Lemma zlen_render b : length (type_name b) = 4%nat -> zlen (render b) = 8 + zlen (payload_of b).
Proof. intros H. rewrite render_box, !zlen_app, zlen_write_u32_be. unfold zlen at 1. rewrite H. lia. Qed.

(** Where each of a row of boxes is found. *)
Fixpoint found (offset : Z) (bs : list Box) : list Found :=
  match bs with
  | [] => []
  | b :: bs => mkFound offset (type_name b) (payload_of b) :: found (offset + zlen (render b)) bs
  end.

Lemma walk_renders bs : forall fuel offset, forallb fits_header bs = true -> (length bs <= fuel)%nat ->
  walk fuel offset (renders bs) = Some (found offset bs).
Proof.
  induction bs as [|b bs IH]; intros fuel offset H Hf; [by destruct fuel|].
  cbn in H. apply andb_true_iff in H as [Hb H]. unfold fits_header in Hb. apply andb_true_iff in Hb as [Ht Hs].
  apply bool_decide_eq_true in Ht. apply Z.ltb_lt in Hs. destruct fuel as [|fuel]; [cbn in Hf; lia|].
  unfold renders. cbn [map concat found]. rewrite zlen_render by done. rewrite render_box, <- !app_assoc.
  destruct (write_u32_be _ ++ _) as [|x l] eqn:E; [done|]. cbn [walk]. rewrite <- E, take_u32_field.
  unfold u32. rewrite Z.mod_small by zlia. rewrite take_n_app by (unfold zlen; by rewrite Ht).
  rewrite take_n_app by lia. rewrite IH by (done || cbn in Hf; lia). done.
Qed.
Lemma length_renders bs : (length bs <= length (renders bs))%nat.
Proof.
  induction bs as [|b bs IH]; [done|]. unfold renders in *. cbn [map concat]. rewrite length_app, render_box, length_app.
  cbn [length]. change (length (write_u32_be _)) with 4%nat. lia.
Qed.
Lemma boxes_in_renders bs : forallb fits_header bs = true -> boxes_in (renders bs) = Some (found 0 bs).
Proof. intros H. apply walk_renders; [done|apply length_renders]. Qed.

Definition typed (bs : list Box) : bool := forallb (fun b => bool_decide (length (type_name b) = 4%nat)) bs.
Lemma fits_all bs : typed bs = true -> zlen (renders bs) < 2 ^ 32 -> forallb fits_header bs = true.
Proof.
  induction bs as [|b bs IH]; intros Ht Hz; [done|]. cbn in Ht. apply andb_true_iff in Ht as [Hb Ht].
  unfold renders in *. cbn [map concat] in Hz. rewrite zlen_app in Hz.
  rewrite zlen_render in Hz by (by apply bool_decide_eq_true in Hb).
  cbn. rewrite IH by (done || zlia). unfold fits_header. rewrite Hb, (proj2 (Z.ltb_lt _ _)) by zlia. done.
Qed.

Definition named (type : string) (b : Box) : bool := bool_decide (type_name b = fourcc type).
Definition first_box (type : string) (bs : list Box) : option Box := List.find (named type) bs.

Lemma found_first type bs : forall offset,
  contents <$> List.head (filter (fun f => of_type type f = true) (found offset bs)) = payload_of <$> first_box type bs.
Proof.
  induction bs as [|b bs IH]; intros offset; [done|]. cbn [found first_box List.find]. unfold first_box.
  change (of_type type (mkFound offset (type_name b) (payload_of b))) with (named type b).
  rewrite filter_cons. change (of_type type (mkFound offset (type_name b) (payload_of b))) with (named type b).
  destruct (named type b); [by rewrite decide_True|]. rewrite decide_False by done. apply IH.
Qed.
Lemma found_all type bs : forall offset,
  map contents (filter (fun f => of_type type f = true) (found offset bs)) = map payload_of (List.filter (named type) bs).
Proof.
  induction bs as [|b bs IH]; intros offset; [done|]. cbn [found List.filter].
  rewrite filter_cons. change (of_type type (mkFound offset (type_name b) (payload_of b))) with (named type b).
  destruct (named type b); [rewrite decide_True by done|rewrite decide_False by done]; cbn; by rewrite IH.
Qed.

(** Looking for a box in what a row of boxes renders to, when it is short enough. *)
Section look.
Context (bs : list Box) (Ht : typed bs = true) (Hz : zlen (renders bs) < 2 ^ 32).

Lemma child_first type b : first_box type bs = Some b -> child type (renders bs) = Some (payload_of b).
Proof.
  intros Hb. unfold child, find_box. rewrite boxes_in_renders by (by apply fits_all). by rewrite found_first, Hb.
Qed.
Lemma children_all type : children type (renders bs) = Some (map payload_of (List.filter (named type) bs)).
Proof. unfold children. rewrite boxes_in_renders by (by apply fits_all). by rewrite found_all. Qed.
Lemma boxes_in_row : boxes_in (renders bs) = Some (found 0 bs).
Proof. apply boxes_in_renders. by apply fits_all. Qed.
End look.

Lemma zlen_payload_in b bs : b ∈ bs -> zlen (payload_of b) <= zlen (renders bs).
Proof.
  induction bs as [|b' bs IH]; intros H; [by apply not_elem_of_nil in H|]. unfold renders in *. cbn [map concat]. rewrite zlen_app.
  apply elem_of_cons in H as [<-|H]; [|pose proof (IH H); zlia].
  rewrite render_box, !zlen_app. zlia.
Qed.

Lemma take_n_0 l : take_n 0 l = Some ([], l).
Proof. apply (take_n_app 0 [] l). done. Qed.
Lemma take_n_step n a l : zlen a <= n ->
  take_n n (a ++ l) = some p := take_n (n - zlen a) l in Some (a ++ p.1, p.2).
Proof.
  intros Hn. unfold take_n. rewrite zlen_app. pose proof (zlen_nonneg a).
  rewrite !(proj2 (Z.leb_le 0 _)) by lia. cbn [andb].
  destruct (Z.leb_spec n (zlen a + zlen l)), (Z.leb_spec (n - zlen a) (zlen l)); try lia; [|done].
  rewrite take_app_ge, drop_app_ge by (unfold zlen in *; lia). unfold zlen in *.
  replace (Z.to_nat n - length a)%nat with (Z.to_nat (n - Z.of_nat (length a))) by lia. done.
Qed.
(** Skipping fields of known width, and reading the next one. *)
Ltac skip_field :=
  match goal with |- context [take_n ?n (?a ++ ?l)] =>
    rewrite (take_n_step n a l) by (vm_compute; discriminate);
    let m := eval vm_compute in (n - zlen a) in change (n - zlen a) with m
  end.
Ltac skip := repeat skip_field; rewrite ?take_n_0; cbn [fst snd]; cbv beta iota.

Section track.
Context (id t : Z) (is_audio : bool) (d : VideoDimensions) (hdlr media entry : Box).
Context (Hh : type_name hdlr = fourcc "hdlr") (Hm : type_name media = fourcc "vmhd" \/ type_name media = fourcc "smhd").
Context (He : length (type_name entry) = 4%nat).

Lemma read_track_trak :
  zlen (payload_of (trak_box (tkhd_box id is_audio d) (mdhd_box t) hdlr media entry)) < 2 ^ 32 ->
  read_track (payload_of (trak_box (tkhd_box id is_audio d) (mdhd_box t) hdlr media entry)) =
  some k := read_entry (mkFound 0 (type_name entry) (payload_of entry)) in Some (mkTrack (u32 id) (u32 t) k).
Proof.
  set (stbl := stbl_box entry). set (minf := MkBox "minf" [] [media; dinf_box; stbl]).
  set (mdia := MkBox "mdia" [] [mdhd_box t; hdlr; minf]). set (tkhd := tkhd_box id is_audio d).
  change (payload_of (trak_box _ _ _ _ _)) with (renders [tkhd; mdia]). intros Hz.
  pose proof (zlen_payload_in mdia [tkhd; mdia] ltac:(set_solver)) as Hz1.
  change (payload_of mdia) with (renders [mdhd_box t; hdlr; minf]) in Hz1.
  pose proof (zlen_payload_in minf [mdhd_box t; hdlr; minf] ltac:(set_solver)) as Hz2.
  change (payload_of minf) with (renders [media; dinf_box; stbl]) in Hz2.
  pose proof (zlen_payload_in stbl [media; dinf_box; stbl] ltac:(set_solver)) as Hz3.
  assert (T1 : typed [mdhd_box t; hdlr; minf] = true) by (unfold typed; cbn [forallb]; rewrite Hh; reflexivity).
  assert (T2 : typed [media; dinf_box; stbl] = true) by (unfold typed; cbn [forallb]; destruct Hm as [->| ->]; reflexivity).
  assert (F1 : first_box "minf" [mdhd_box t; hdlr; minf] = Some minf)
    by (unfold first_box, named; cbn [List.find]; rewrite Hh; reflexivity).
  assert (F2 : first_box "stbl" [media; dinf_box; stbl] = Some stbl)
    by (unfold first_box, named; cbn [List.find]; destruct Hm as [->| ->]; reflexivity).
  unfold read_track.
  rewrite (child_first [tkhd; mdia] eq_refl Hz "tkhd" tkhd eq_refl), (child_first [tkhd; mdia] eq_refl Hz "mdia" mdia eq_refl).
  assert (Htk : exists rest, payload_of tkhd = full 0 7 ++ write_u32_be 0 ++ write_u32_be 0 ++ write_u32_be id ++ rest)
    by (eexists; unfold tkhd, tkhd_box, payload_of; rewrite <- !app_assoc; reflexivity).
  destruct Htk as (r1 & ->). skip. rewrite take_u32_field.
  change (payload_of mdia) with (renders [mdhd_box t; hdlr; minf]).
  rewrite (child_first _ T1 ltac:(lia) "mdhd" (mdhd_box t) eq_refl), (child_first _ T1 ltac:(lia) "minf" minf F1).
  assert (Hmd : exists rest, payload_of (mdhd_box t) = full 0 0 ++ write_u32_be 0 ++ write_u32_be 0 ++ write_u32_be t ++ rest)
    by (eexists; unfold mdhd_box, payload_of; rewrite <- !app_assoc; reflexivity).
  destruct Hmd as (r2 & ->). skip. rewrite take_u32_field.
  change (payload_of minf) with (renders [media; dinf_box; stbl]).
  rewrite (child_first _ T2 ltac:(lia) "stbl" stbl F2).
  set (stsd := MkBox "stsd" (full 0 0 ++ write_u32_be 1) [entry]).
  assert (Hst : exists rest, payload_of stbl = renders (stsd :: rest) /\ typed (stsd :: rest) = true) by (eexists; split; reflexivity).
  destruct Hst as (rest & Hst & T3). rewrite Hst in Hz3 |- *.
  pose proof (zlen_payload_in stsd (stsd :: rest) ltac:(set_solver)) as Hz4.
  rewrite (child_first _ T3 ltac:(lia) "stsd" stsd eq_refl).
  change (payload_of stsd) with ((full 0 0 ++ write_u32_be 1) ++ renders [entry]) in Hz4 |- *.
  rewrite <- !app_assoc. skip.
  rewrite (boxes_in_row [entry]); [done|unfold typed; cbn; by rewrite He|].
  rewrite zlen_app in Hz4. change (zlen (full 0 0 ++ write_u32_be 1)) with 8 in Hz4. lia.
Qed.
End track.

(** ** Descriptors *)

Lemma take_descriptor_written tag body rest : 0 <= tag < 128 -> zlen body < 128 ->
  take_descriptor tag (descriptor tag body ++ rest) = Some (body, rest).
Proof.
  intros Ht Hb. unfold take_descriptor, descriptor. rewrite <- !app_assoc, take_u8_field.
  rewrite Z.mod_small, Z.eqb_refl by lia. cbn [negb take_length]. rewrite take_u8_field.
  pose proof (zlen_nonneg body). rewrite !(Z.mod_small (zlen body)) by lia.
  rewrite (proj2 (Z.leb_gt _ _)) by lia. by rewrite take_n_app by lia.
Qed.
Lemma read_esds_written asc : zlen asc < 105 -> read_esds (payload_of (esds_box asc)) = Some asc.
Proof.
  intros Hn. unfold read_esds, esds_box, payload_of. rewrite <- !app_assoc.
  rewrite take_n_app by done.
  assert (Hd : forall tag body, zlen (descriptor tag body) = 2 + zlen body)
    by (intros tag body; unfold descriptor; rewrite !zlen_app; change (zlen (u8_field _)) with 1; lia).
  assert (Hu : forall v, zlen (u8_field v) = 1) by done.
  rewrite take_descriptor_written; [|lia|repeat (rewrite zlen_app || rewrite Hd || rewrite Hu); zlia].
  skip. rewrite take_descriptor_written; [|lia|repeat (rewrite zlen_app || rewrite Hd || rewrite Hu); zlia].
  skip. rewrite <- (app_nil_r (descriptor 5 asc)), take_descriptor_written by lia. done.
Qed.

(** ** Sample entries *)

Lemma sample_rate_range config : 0 <= Aac.sample_rate config < 2 ^ 32.
Proof.
  unfold Aac.sample_rate. destruct (_ <? _); [|done].
  destruct (Aac.kSamplingFrequencies !! _) eqn:E; [|done].
  apply list_elem_of_lookup_2 in E. unfold Aac.kSamplingFrequencies in E. cbn.
  repeat (apply elem_of_cons in E as [->|E]; [done|]). by apply not_elem_of_nil in E.
Qed.

Definition video_fields (d : VideoDimensions) : list byte :=
  write_u32_be 0x00480000 ++ write_u32_be 0x00480000 ++ write_u32_be 0 ++ write_u16_be 1 ++ zeros 32 ++
  write_u16_be 24 ++ write_u16_be 0xFFFF.
Lemma read_video_written codec config d : codec <> NoVideo ->
  0 <= width d < 2 ^ 16 -> 0 <= height d < 2 ^ 16 ->
  zlen (payload_of (video_entry_box codec config d)) < 2 ^ 32 ->
  read_entry (mkFound 0 (type_name (video_entry_box codec config d)) (payload_of (video_entry_box codec config d))) =
  Some (VideoTrack codec d config).
Proof.
  intros Hc Hw Hh Hz. unfold video_entry_box in *.
  set (cfg := MkBox (if decide (codec = Hevc) then "hvcC" else "avcC") config []) in *.
  unfold payload_of in *. rewrite !zlen_app in Hz. 
  assert (Hcfg : zlen (renders [cfg]) < 2 ^ 32) by zlia. clear Hz. rewrite <- !app_assoc.
  assert (Hread : forall name, first_box name [cfg] = Some cfg -> typed [cfg] = true ->
    read_video_entry codec name (zeros 6 ++ write_u16_be 1 ++ write_u16_be 0 ++ write_u16_be 0 ++ zeros 12 ++
      write_u16_be (width d) ++ write_u16_be (height d) ++ write_u32_be 0x00480000 ++ write_u32_be 0x00480000 ++
      write_u32_be 0 ++ write_u16_be 1 ++ zeros 32 ++ write_u16_be 24 ++ write_u16_be 0xFFFF ++ renders [cfg]) =
    Some (VideoTrack codec d config)).
  { intros name Hf Ht. unfold read_video_entry. skip. rewrite !take_u16_field. skip.
    rewrite (child_first _ Ht Hcfg name cfg Hf). subst cfg. cbn [payload_of]. unfold renders. cbn [map concat].
    rewrite app_nil_r. unfold u16. rewrite !Z.mod_small by lia. by destruct d. }
  unfold read_entry. destruct codec; [done|..]; rewrite Hread by done; done.
Qed.
Lemma read_audio_written config asc : 0 <= Aac.channel_configuration config < 2 ^ 16 -> zlen asc < 105 ->
  read_entry (mkFound 0 (type_name (audio_entry_box config asc)) (payload_of (audio_entry_box config asc))) =
  Some (AudioTrack (Aac.channel_configuration config) asc).
Proof.
  intros Hc Hn. unfold read_entry, audio_entry_box, payload_of.
  change (of_type "avc1" _) with false. change (of_type "hvc1" _) with false. change (of_type "mp4a" _) with true.
  cbv iota. cbn [contents]. unfold read_audio_entry. rewrite <- !app_assoc. skip. rewrite take_u16_field. skip.
  rewrite (child_first [esds_box asc] eq_refl) with (b := esds_box asc); [|..|done].
  - rewrite read_esds_written by done. unfold u16. by rewrite Z.mod_small by lia.
  - unfold renders. cbn [map concat]. rewrite app_nil_r, zlen_render by done. unfold esds_box, payload_of, descriptor.
    repeat rewrite zlen_app. change (zlen (u8_field _)) with 1. change (zlen (renders [])) with 0. zlia.
Qed.

Lemma entry_in_trak tkhd mdhd hdlr media entry :
  zlen (payload_of entry) <= zlen (payload_of (trak_box tkhd mdhd hdlr media entry)).
Proof.
  set (stbl := stbl_box entry). set (minf := MkBox "minf" [] [media; dinf_box; stbl]).
  set (mdia := MkBox "mdia" [] [mdhd; hdlr; minf]). set (stsd := MkBox "stsd" (full 0 0 ++ write_u32_be 1) [entry]).
  pose proof (zlen_payload_in mdia [tkhd; mdia] ltac:(set_solver)).
  pose proof (zlen_payload_in minf [mdhd; hdlr; minf] ltac:(set_solver)).
  pose proof (zlen_payload_in stbl [media; dinf_box; stbl] ltac:(set_solver)).
  assert (Hst : exists rest, payload_of stbl = renders (stsd :: rest)) by (eexists; reflexivity).
  destruct Hst as (rest & Hst). pose proof (zlen_payload_in stsd (stsd :: rest) ltac:(set_solver)). rewrite <- Hst in *.
  pose proof (zlen_payload_in entry [entry] ltac:(set_solver)).
  change (payload_of stsd) with ((full 0 0 ++ write_u32_be 1) ++ renders [entry]) in *. rewrite zlen_app in *.
  change (payload_of mdia) with (renders [mdhd; hdlr; minf]) in *.
  change (payload_of minf) with (renders [media; dinf_box; stbl]) in *.
  change (payload_of (trak_box _ _ _ _ _)) with (renders [tkhd; mdia]). zlia.
Qed.

(** * The init segment *)

(** What a player reads out of an init segment is its configuration: one track for the
    video with its codec, picture size and decoder configuration, one for the audio with
    its sampling rate as time scale, its channels and its AudioSpecificConfig. *)
Theorem init_segment_read_back c out :
  init_segment c = Ok out -> zlen out < 2 ^ 32 ->
  0 <= width (video_dimensions c) < 2 ^ 16 -> 0 <= height (video_dimensions c) < 2 ^ 16 ->
  0 <= Aac.channel_configuration (audio_config c) < 2 ^ 16 -> zlen (audio_specific_config c) < 105 ->
  read_init out = Some
    ((if has_video c
      then [mkTrack kVideoTrackId kVideoTimescale
              (VideoTrack (video_codec c) (video_dimensions c) (video_decoder_config c))] else []) ++
     (if has_audio c
      then [mkTrack kAudioTrackId (Aac.sample_rate (audio_config c))
              (AudioTrack (Aac.channel_configuration (audio_config c)) (audio_specific_config c))] else [])).
Proof.
  intros Hi Hz Hw Hh Hc Ha. pose proof (init_segment_tree c) as Ht. destruct (init_ok c); [|destruct Ht; congruence].
  rewrite Ht in Hi. injection Hi as <-. unfold init_boxes in *.
  set (video := if has_video c then [video_trak_box c] else []) in *.
  set (audio := if has_audio c then [audio_trak_box c (Aac.sample_rate (audio_config c))] else []) in *.
  set (mvex := MkBox "mvex" [] _) in *. set (moov := MkBox "moov" [] _) in *.
  pose proof (zlen_payload_in moov [ftyp_box; moov] ltac:(set_solver)) as Hm.
  change (payload_of moov) with (renders (mvhd_box :: video ++ audio ++ [mvex])) in Hm.
  unfold read_init. rewrite (child_first [ftyp_box; moov] eq_refl Hz "moov" moov eq_refl).
  change (payload_of moov) with (renders (mvhd_box :: video ++ audio ++ [mvex])).
  rewrite children_all; [|subst video audio mvex; by destruct (has_video c), (has_audio c)|lia].
  set (row := mvhd_box :: video ++ audio ++ [mvex]) in *.
  assert (Hf : List.filter (named "trak") row = video ++ audio)
    by (subst row video audio mvex; by destruct (has_video c), (has_audio c)). rewrite Hf.
  assert (Hvid : has_video c = true -> read_track (payload_of (video_trak_box c)) =
    Some (mkTrack kVideoTrackId kVideoTimescale (VideoTrack (video_codec c) (video_dimensions c) (video_decoder_config c)))).
  { intros Hv. assert (Hin : video_trak_box c ∈ row) by (subst row video; rewrite Hv; set_solver).
    apply zlen_payload_in in Hin. unfold video_trak_box in *.
    pose proof (entry_in_trak (tkhd_box kVideoTrackId false (video_dimensions c)) (mdhd_box kVideoTimescale)
      (hdlr_box "vide" "VideoHandler") vmhd_box
      (video_entry_box (video_codec c) (video_decoder_config c) (video_dimensions c))).
    unfold has_video in Hv. apply bool_decide_eq_true in Hv.
    rewrite read_track_trak; [|done|by left|by unfold video_entry_box; destruct (decide _)|lia].
    by rewrite read_video_written by (done || lia). }
  assert (Haud : has_audio c = true -> read_track (payload_of (audio_trak_box c (Aac.sample_rate (audio_config c)))) =
    Some (mkTrack kAudioTrackId (Aac.sample_rate (audio_config c))
            (AudioTrack (Aac.channel_configuration (audio_config c)) (audio_specific_config c)))).
  { intros Hau. assert (Hin : audio_trak_box c (Aac.sample_rate (audio_config c)) ∈ row)
      by (subst row video audio; rewrite Hau; set_solver).
    apply zlen_payload_in in Hin. unfold audio_trak_box in *.
    rewrite read_track_trak; [|done|by right|done|lia].
    rewrite read_audio_written by assumption. unfold u32. rewrite (Z.mod_small (Aac.sample_rate _)); [done|].
    apply sample_rate_range. }
  subst video audio. destruct (has_video c), (has_audio c); cbn [map app mapM mret mbind option_ret option_bind];
    rewrite ?Hvid, ?Haud by done; done.
Qed.

(** * Fragments *)

Definition sample_ok (s : Fmp4Sample) : bool :=
  (0 <=? sample_duration s) && (sample_duration s <? 2 ^ 32) &&
  (- 2 ^ 31 <=? composition_offset s) && (composition_offset s <? 2 ^ 31).
Definition fragment_ok (f : Fmp4TrackFragment) : bool :=
  (0 <=? base_decode_time f) && (base_decode_time f <? 2 ^ 64) && forallb sample_ok (samples f).

Lemma i32_u32 v : - 2 ^ 31 <= v < 2 ^ 31 -> i32 (u32 v) = v.
Proof.
  intros Hv. unfold i32, u32. destruct (Z.leb_spec (2 ^ 31) (v mod 2 ^ 32)); Z.div_mod_to_equations; lia.
Qed.
Lemma take_n_suffix file off l : at_suffix file off l -> take_n off file = Some (take (Z.to_nat off) file, l).
Proof.
  intros [Ho <-]. unfold take_n. by rewrite !(proj2 (Z.leb_le _ _)) by lia.
Qed.

Lemma read_samples_written file rest tail ss : forall fuel offset,
  forallb sample_ok ss = true -> at_suffix file offset (concat (map sample_data ss) ++ rest) -> zlen file < 2 ^ 32 ->
  (length ss <= fuel)%nat ->
  read_samples fuel (zlen ss) offset (concat (map sample_entry ss) ++ tail) file = Some ss.
Proof.
  induction ss as [|s ss IH]; intros fuel offset Hok Hs Hz Hf; [by destruct fuel|].
  cbn in Hok. apply andb_true_iff in Hok as [Ho Hok]. unfold sample_ok in Ho.
  apply andb_true_iff in Ho as [Ho H4]. apply andb_true_iff in Ho as [Ho H3]. apply andb_true_iff in Ho as [H1 H2].
  apply Z.leb_le in H1, H3. apply Z.ltb_lt in H2, H4.
  destruct fuel as [|fuel]; [cbn in Hf; lia|]. cbn [read_samples map concat].
  rewrite zlen_cons, (proj2 (Z.eqb_neq _ 0)) by zlia. unfold sample_entry at 1. rewrite <- !app_assoc.
  rewrite !take_u32_field. cbn [map concat] in Hs. rewrite <- app_assoc in Hs.
  pose proof (at_suffix_zlen _ _ _ Hs) as Hl. rewrite zlen_app in Hl. pose proof (at_suffix_nonneg _ _ _ Hs).
  assert (Hu : u32 (zlen (sample_data s)) = zlen (sample_data s)) by (unfold u32; rewrite Z.mod_small; zlia).
  rewrite (take_n_suffix _ _ _ Hs), !Hu, take_n_app by done.
  replace (1 + zlen ss - 1) with (zlen ss) by lia.
  rewrite IH; [|done|by apply at_suffix_app|done|cbn in Hf; lia].
  rewrite i32_u32 by lia. unfold u32. rewrite (Z.mod_small (sample_duration s)) by lia.
  destruct s as [data dur co []]; reflexivity.
Qed.

Lemma take_u32_u64 v l : 0 <= v < 2 ^ 64 ->
  (some (high, l) := take_u32 (write_u64_be v ++ l) in some (low, l) := take_u32 l in Some (high * 2 ^ 32 + low, l)) = Some (v, l).
Proof.
  intros Hv. unfold write_u64_be. rewrite <- app_assoc, !take_u32_field. do 2 f_equal. unfold u32.
  rewrite Z.shiftr_div_pow2 by lia. rewrite (Z.mod_small (v / 2 ^ 32)) by (Z.div_mod_to_equations; lia).
  Z.div_mod_to_equations; lia.
Qed.

Lemma take_full v f l : take_u32 (full (v mod 256) (f mod 2 ^ 24) ++ l) = Some (v mod 256 * 2 ^ 24 + f mod 2 ^ 24, l).
Proof.
  unfold full, u8_field, write_u24_be, take_u32. cbn [app]. unfold be32. do 2 f_equal.
  rewrite !byte_field, byte_field_0, b2z_z2b by lia. Z.div_mod_to_equations; lia.
Qed.

Lemma zlen_entries ss : zlen (concat (map sample_entry ss)) = 16 * zlen ss.
Proof.
  induction ss as [|s ss IH]; [done|]. cbn [map concat]. rewrite zlen_app, zlen_cons, IH.
  change (zlen (sample_entry s)) with 16. lia.
Qed.

Lemma read_traf_written file start id f offset rest :
  0 <= id < 2 ^ 32 -> fragment_ok f = true -> - 2 ^ 31 <= offset < 2 ^ 31 ->
  at_suffix file (start + offset) (media_bytes f ++ rest) -> zlen file < 2 ^ 31 ->
  zlen (payload_of (traf_box id f offset)) < 2 ^ 32 ->
  read_traf start file (payload_of (traf_box id f offset)) = Some (id, f).
Proof.
  intros Hid Hok Ho Hs Hz Hp. unfold fragment_ok in Hok. apply andb_true_iff in Hok as [Hb Hok].
  apply andb_true_iff in Hb as [Hb1 Hb2]. apply Z.leb_le in Hb1. apply Z.ltb_lt in Hb2.
  unfold traf_box in *. set (tfhd := MkBox "tfhd" _ _) in *. set (tfdt := MkBox "tfdt" _ _) in *.
  set (trun := MkBox "trun" _ _) in *. change (payload_of (MkBox "traf" _ _)) with (renders [tfhd; tfdt; trun]) in *.
  unfold read_traf.
  rewrite (child_first [tfhd; tfdt; trun] eq_refl Hp "tfhd" tfhd eq_refl), (child_first [tfhd; tfdt; trun] eq_refl Hp "tfdt" tfdt eq_refl),
    (child_first [tfhd; tfdt; trun] eq_refl Hp "trun" trun eq_refl).
  unfold tfhd, tfdt, trun, payload_of. rewrite <- !app_assoc.
  pose proof (take_full 0 0x020000) as F1. pose proof (take_full 1 0) as F2. pose proof (take_full 1 0x000F01) as F3.
  rewrite F1, take_u32_field, F2. cbn [Z.mul Z.add]. 
  pose proof (take_u32_u64 (base_decode_time f) (renders []) ltac:(lia)) as Hu.
  destruct (take_u32 (write_u64_be _ ++ _)) as [[high l1]|]; [|done]. destruct (take_u32 l1) as [[low l2]|]; [|done].
  injection Hu as Hu _. rewrite F3, !take_u32_field. cbn [negb].
  repeat match goal with |- context [if ?b then None else _] => change b with false; cbv iota end.
  pose proof (zlen_entries (samples f)) as He.
  assert (Hn : 16 * zlen (samples f) <= zlen (renders [tfhd; tfdt; trun])).
  { pose proof (zlen_payload_in trun [tfhd; tfdt; trun] ltac:(set_solver)) as Hin.
    assert (Ht : zlen (payload_of trun) = 12 + 16 * zlen (samples f)).
    { unfold trun, payload_of. rewrite !zlen_app, !zlen_write_u32_be, zlen_full, He. change (zlen (renders [])) with 0. lia. }
    lia. }
  assert (Hc : u32 (zlen (samples f)) = zlen (samples f)) by (unfold u32; rewrite Z.mod_small; zlia).
  rewrite i32_u32, Hc by lia.
  rewrite read_samples_written with (rest := rest); [|done|done|lia|rewrite length_app; unfold zlen in He; lia].
  rewrite Hu. unfold u32. rewrite Z.mod_small by lia. by destruct f.
Qed.

Lemma found_app bs1 bs2 : forall offset, found offset (bs1 ++ bs2) = found offset bs1 ++ found (offset + zlen (renders bs1)) bs2.
Proof.
  induction bs1 as [|b bs1 IH]; intros offset; cbn [app found]; [change (zlen (renders [])) with 0; by rewrite Z.add_0_r|].
  rewrite IH. unfold renders. cbn [map concat app]. rewrite zlen_app. do 3 f_equal. lia.
Qed.
Lemma renders_app bs1 bs2 : renders (bs1 ++ bs2) = renders bs1 ++ renders bs2.
Proof. unfold renders. by rewrite map_app, concat_app. Qed.
Lemma found_none type bs : forall offset, first_box type bs = None -> filter (fun f => of_type type f = true) (found offset bs) = [].
Proof.
  induction bs as [|b bs IH]; intros offset H; [done|]. cbn [found]. unfold first_box in H. cbn [List.find] in H.
  rewrite filter_cons. change (of_type type (mkFound offset (type_name b) (payload_of b))) with (named type b).
  destruct (named type b); [done|]. rewrite decide_False by done. by apply IH.
Qed.
Lemma find_box_behind type pre b rest : typed (pre ++ b :: rest) = true -> zlen (renders (pre ++ b :: rest)) < 2 ^ 32 ->
  first_box type pre = None -> named type b = true ->
  find_box type (renders (pre ++ b :: rest)) = Some (mkFound (zlen (renders pre)) (type_name b) (payload_of b)).
Proof.
  intros Ht Hz Hp Hb. unfold find_box. rewrite boxes_in_row by done. rewrite found_app, list.filter_app, found_none by done.
  cbn [app found]. rewrite filter_cons, decide_True; [done|exact Hb].
Qed.

(** The tracks a fragment has samples of. *)
Definition tracks_of (video audio : Fmp4TrackFragment) : list (Z * Fmp4TrackFragment) :=
  (if no_samples video then [] else [(kVideoTrackId, video)]) ++
  (if no_samples audio then [] else [(kAudioTrackId, audio)]).

Lemma read_fragment_boxes pre seq video audio :
  u32 seq = seq -> zlen (renders (pre ++ fragment_boxes seq video audio)) < 2 ^ 31 ->
  typed pre = true -> first_box "moof" pre = None -> fragment_ok video = true -> fragment_ok audio = true ->
  read_fragment (renders (pre ++ fragment_boxes seq video audio)) = Some (seq, tracks_of video audio).
Proof.
  intros Hseq Hz Ht Hp Hv Ha. unfold tracks_of.
  unfold fragment_boxes in *. set (len := moof_length video audio) in *.
  set (vo := len + 8) in *. set (ao := vo + zlen (media_bytes video)) in *.
  set (moof := moof_box seq video audio vo ao) in *. set (mdat := MkBox "mdat" _ []) in *.
  assert (Hty : typed (pre ++ [moof; mdat]) = true) by (unfold typed in *; rewrite forallb_app, Ht; reflexivity).
  unfold read_fragment. rewrite (find_box_behind "moof" pre moof [mdat] Hty ltac:(lia) Hp eq_refl). cbn [contents at_offset].
  set (file := renders (pre ++ [moof; mdat])) in *.
  assert (Hfile : file = (renders pre ++ render moof ++ write_u32_be (8 + zlen (payload_of mdat)) ++ fourcc "mdat") ++
                         media_bytes video ++ media_bytes audio).
  { unfold file. rewrite renders_app. unfold renders at 2. cbn [map concat]. rewrite (render_box mdat), app_nil_r.
    unfold mdat, payload_of. change (renders []) with (@nil byte). by rewrite app_nil_r, <- !app_assoc. }
  assert (Hlen : zlen (render moof) = len) by apply zlen_render_moof.
  assert (Hs : at_suffix file (zlen (renders pre) + vo) (media_bytes video ++ media_bytes audio)).
  { set (front := renders pre ++ _) in Hfile. assert (Hoff : zlen (renders pre) + vo = zlen front)
      by (unfold front; rewrite !zlen_app, zlen_write_u32_be, Hlen; unfold vo; change (zlen (fourcc "mdat")) with 4; lia).
    rewrite Hfile, Hoff. apply at_suffix_intro. }
  assert (Hs2 : at_suffix file (zlen (renders pre) + ao) (media_bytes audio ++ []))
    by (rewrite app_nil_r; unfold ao; rewrite Z.add_assoc; by apply at_suffix_app).
  pose proof (at_suffix_zlen _ _ _ Hs) as Hzs. rewrite zlen_app in Hzs.
  assert (Hmz : zlen (payload_of moof) < 2 ^ 31).
  { assert (Hin : moof ∈ pre ++ [moof; mdat]) by set_solver. apply zlen_payload_in in Hin. fold file in Hin. lia. }
  set (trafs := (if no_samples video then [] else [traf_box kVideoTrackId video vo]) ++
                (if no_samples audio then [] else [traf_box kAudioTrackId audio ao])).
  set (mfhd := MkBox "mfhd" (full 0 0 ++ write_u32_be seq) []).
  change (payload_of moof) with (renders (mfhd :: trafs)) in *.
  assert (Htm : typed (mfhd :: trafs) = true) by (subst trafs; by destruct (no_samples video), (no_samples audio)).
  rewrite (child_first _ Htm ltac:(lia) "mfhd" mfhd eq_refl), (children_all _ Htm ltac:(lia) "traf").
  unfold mfhd at 1, payload_of. rewrite <- app_assoc. skip. rewrite take_u32_field.
  assert (Hf : List.filter (named "traf") (mfhd :: trafs) = trafs) by (subst trafs; by destruct (no_samples video), (no_samples audio)).
  rewrite Hf. fold payload_of. 
  assert (Hrv : no_samples video = false -> read_traf (zlen (renders pre)) file (payload_of (traf_box kVideoTrackId video vo)) = Some (kVideoTrackId, video)).
  { intros Hn. assert (Hin : traf_box kVideoTrackId video vo ∈ mfhd :: trafs) by (subst trafs; rewrite Hn; set_solver).
    apply zlen_payload_in in Hin. eapply read_traf_written; try eassumption; [done| |lia]. zlia. }
  assert (Hra : no_samples audio = false -> read_traf (zlen (renders pre)) file (payload_of (traf_box kAudioTrackId audio ao)) = Some (kAudioTrackId, audio)).
  { intros Hn. assert (Hin : traf_box kAudioTrackId audio ao ∈ mfhd :: trafs) by (subst trafs; rewrite Hn; set_solver).
    apply zlen_payload_in in Hin. eapply read_traf_written; try eassumption; [done| |lia]. zlia. }
  rewrite Hseq. subst trafs. destruct (no_samples video), (no_samples audio); cbn [map app mapM mret mbind option_ret option_bind];
    rewrite ?Hrv, ?Hra by done; done.
Qed.

(** C20. What a player reads out of a fragment behind other boxes (a segment type, earlier
    fragments being other files) is what went in: the sequence number and, for each track
    that has samples, its number, its decode time, and every sample with its data,
    duration, composition offset and keyframe flag. *)
Theorem fragment_read_back pre m video audio m' out :
  write_fragment m (renders pre) video audio = Ok (m', out) -> zlen out < 2 ^ 31 ->
  typed pre = true -> first_box "moof" pre = None -> fragment_ok video = true -> fragment_ok audio = true ->
  read_fragment out = Some (next_sequence_number m, tracks_of video audio).
Proof.
  intros Hw Hz Ht Hp Hv Ha. rewrite write_fragment_tree in Hw.
  destruct (no_samples video && no_samples audio); [done|]. destruct (_ <? _); [done|]. injection Hw as <- <-.
  fold (next_sequence_number m) in *. rewrite <- renders_app in *. apply read_fragment_boxes; try done.
  unfold next_sequence_number, u32. by rewrite Zmod_mod.
Qed.

(** ** Samples *)

Definition sample_init : Fmp4InitConfig :=
  mkFmp4InitConfig H264 [x01; x64; x00; x1f; xff] (mkVideoDimensions 1280 720) true
    (Aac.mkAudioSpecificConfig 2 4 2) [x12; x10].
Lemma init_segment_read_back_witness :
  exists out, init_segment sample_init = Ok out /\
    read_init out = Some [mkTrack 1 90000 (VideoTrack H264 (mkVideoDimensions 1280 720) [x01; x64; x00; x1f; xff]);
                          mkTrack 2 44100 (AudioTrack 2 [x12; x10])].
Proof.
  destruct (init_segment sample_init) as [out| | |] eqn:E; [|by vm_compute in E..]. exists out. split; [done|].
  assert (Hz : zlen out < 2 ^ 32) by (vm_compute in E; injection E as <-; reflexivity).
  apply (init_segment_read_back sample_init out E Hz); vm_compute; intuition discriminate.
Defined.

Definition sample_video : Fmp4TrackFragment :=
  mkFmp4TrackFragment (2 ^ 33 + 5) [mkFmp4Sample [x01; x02; x03] 3000 0 true; mkFmp4Sample [x04] 3000 (-1500) false].
Definition sample_audio : Fmp4TrackFragment := mkFmp4TrackFragment 77 [mkFmp4Sample [x21; x22] 1024 0 true].
Lemma fragment_read_back_witness :
  exists m out, write_fragment make_fmp4_muxer (renders [styp_box]) sample_video sample_audio = Ok (m, out) /\
    read_fragment out = Some (1, [(1, sample_video); (2, sample_audio)]).
Proof.
  destruct (write_fragment make_fmp4_muxer (renders [styp_box]) sample_video sample_audio) as [ [m out]| | |] eqn:E;
    [|by vm_compute in E..]. exists m, out. split; [done|].
  assert (Hz : zlen out < 2 ^ 31) by (vm_compute in E; injection E as <- <-; reflexivity).
  apply (fragment_read_back [styp_box] make_fmp4_muxer sample_video sample_audio m out E Hz); vm_compute; reflexivity.
Defined.

(** The lengths of the descriptors have seven bits: behind a longer AudioSpecificConfig,
    which a publisher may well send, the track cannot be read. *)
Lemma long_config_unreadable :
  exists out, init_segment (mkFmp4InitConfig NoVideo [] (mkVideoDimensions 0 0) true (Aac.mkAudioSpecificConfig 2 4 2)
                              (x12 :: x10 :: repeat x00 110)) = Ok out /\ read_init out = None.
Proof. eexists. split; [vm_compute; reflexivity|vm_compute; reflexivity]. Qed.
