(* ===== verification/DashSegmenter.v ===== *)
(** dash/segmenter.cpp: one publisher's audio and video, repackaged as fragmented MP4.

    The callbacks are events, in the order of the calls; times are milliseconds.  A sample
    holds its data: the spans of the source into buffers the track owns are rebuilt
    whenever these move.  Counters are unbounded. *)

From S2P Require Import Prelude Bytes Text Nal Avc H264Sps Chunk Fmp4.
From S2P Require Aac.

(** * dash/segment.hpp, dash/segmenter.hpp *)

Record InitSegment := mkInitSegment { init_data : list byte; epoch : Z }.
Record Segment := mkSegment {
  seg_number : Z;
  seg_name : string;
  seg_data : list byte;
  seg_duration : Z;
  seg_init_epoch : Z
}.

Record SegmenterConfig := mkSegmenterConfig {
  target_duration : Z;
  max_segment_bytes : Z;
  max_segment_duration : Z;
  discontinuity_threshold : Z;
  segment_name_prefix : string;
  segment_name_suffix : string;
  initial_sequence : Z
}.
Definition default_segmenter_config : SegmenterConfig :=
  mkSegmenterConfig 4000 (16 * 1024 * 1024) 20000 5000 "chunk-" ".m4s" 0.

Record SegmenterStats := mkSegmenterStats {
  segments_produced : Z;
  video_frames : Z;
  audio_frames : Z;
  dropped_frames : Z;
  forced_cuts : Z;
  init_segments_produced : Z
}.
Definition no_stats : SegmenterStats := mkSegmenterStats 0 0 0 0 0 0.

Record PendingSample := mkPendingSample {
  pending_data : list byte;
  timestamp_ms : Z;
  pending_composition_ms : Z;
  pending_keyframe : bool;
  has : bool
}.
Definition no_pending : PendingSample := mkPendingSample [] 0 0 false false.

Record Track := mkTrack {
  track_samples : list Fmp4Sample;
  pending : PendingSample;
  last_duration_90k : Z;
  base_decode_time_90k : Z;
  base_set : bool
}.
Definition new_track : Track := mkTrack [] no_pending 0 0 false.
(** [Track::clear] and [Track::empty]. *)
Definition clear (t : Track) : Track :=
  mkTrack [] (pending t) (last_duration_90k t) (base_decode_time_90k t) (base_set t).
Definition empty_track (t : Track) : bool := bool_decide (track_samples t = []).

(** The members about codecs, about the segment being built, and about the clock. *)
Record Codecs := mkCodecs {
  video_config_ : option AvcDecoderConfig;
  audio_config_ : option Aac.AudioSpecificConfig;
  video_decoder_config_raw_ : list byte;
  audio_specific_config_raw_ : list byte;
  video_dimensions_ : VideoDimensions;
  init_epoch_ : Z
}.
Record OpenSegment := mkOpenSegment {
  video_track_ : Track;
  audio_track_ : Track;
  segment_open_ : bool;
  segment_start_ts_ : Z;
  segment_byte_estimate_ : Z
}.
Record Clock := mkClock { last_video_ts_ : Z; have_last_video_ts_ : bool; timeline_base_ms_ : Z }.
Record Segmenter := mkSegmenter {
  config_ : SegmenterConfig;
  stats_ : SegmenterStats;
  muxer_ : Fmp4Muxer;
  codecs_ : Codecs;
  open_ : OpenSegment;
  clock_ : Clock;
  next_sequence_ : Z;
  finalized_ : bool
}.
Definition make_segmenter (config : SegmenterConfig) : Segmenter :=
  mkSegmenter config no_stats make_fmp4_muxer (mkCodecs None None [] [] (mkVideoDimensions 0 0) 0)
    (mkOpenSegment new_track new_track false 0 0) (mkClock 0 false 0) (initial_sequence config) false.

Inductive dash_event := OnInit (i : InitSegment) | OnSegment (s : Segment).

(** ** Assignments *)

Definition set_stats (s : Segmenter) (st : SegmenterStats) : Segmenter :=
  mkSegmenter (config_ s) st (muxer_ s) (codecs_ s) (open_ s) (clock_ s) (next_sequence_ s) (finalized_ s).
Definition set_muxer (s : Segmenter) (m : Fmp4Muxer) : Segmenter :=
  mkSegmenter (config_ s) (stats_ s) m (codecs_ s) (open_ s) (clock_ s) (next_sequence_ s) (finalized_ s).
Definition set_codecs (s : Segmenter) (c : Codecs) : Segmenter :=
  mkSegmenter (config_ s) (stats_ s) (muxer_ s) c (open_ s) (clock_ s) (next_sequence_ s) (finalized_ s).
Definition set_open (s : Segmenter) (o : OpenSegment) : Segmenter :=
  mkSegmenter (config_ s) (stats_ s) (muxer_ s) (codecs_ s) o (clock_ s) (next_sequence_ s) (finalized_ s).
Definition set_clock (s : Segmenter) (c : Clock) : Segmenter :=
  mkSegmenter (config_ s) (stats_ s) (muxer_ s) (codecs_ s) (open_ s) c (next_sequence_ s) (finalized_ s).
Definition set_next_sequence (s : Segmenter) (n : Z) : Segmenter :=
  mkSegmenter (config_ s) (stats_ s) (muxer_ s) (codecs_ s) (open_ s) (clock_ s) n (finalized_ s).
Definition set_finalized (s : Segmenter) : Segmenter :=
  mkSegmenter (config_ s) (stats_ s) (muxer_ s) (codecs_ s) (open_ s) (clock_ s) (next_sequence_ s) true.

Definition add_stats (s : Segmenter) (segments video audio dropped forced inits : Z) : Segmenter :=
  let t := stats_ s in
  set_stats s (mkSegmenterStats (segments_produced t + segments) (video_frames t + video) (audio_frames t + audio)
    (dropped_frames t + dropped) (forced_cuts t + forced) (init_segments_produced t + inits)).
Definition dropped (s : Segmenter) : Segmenter := add_stats s 0 0 0 1 0 0.

Definition set_tracks (o : OpenSegment) (video audio : Track) : OpenSegment :=
  mkOpenSegment video audio (segment_open_ o) (segment_start_ts_ o) (segment_byte_estimate_ o).
Definition set_segment_open (o : OpenSegment) (b : bool) : OpenSegment :=
  mkOpenSegment (video_track_ o) (audio_track_ o) b (segment_start_ts_ o) (segment_byte_estimate_ o).

(** * segmenter.cpp *)

Definition to_90k (c : Clock) (milliseconds : Z) : Z :=
  let shifted := milliseconds + timeline_base_ms_ c in
  let clamped := if shifted <? 0 then 0 else shifted in
  u64 (clamped * 90).

Definition codecs_attribute (s : Segmenter) : Res text :=
  let c := codecs_ s in
  codecs <- (if bool_decide (is_Some (video_config_ c)) && negb (bool_decide (video_decoder_config_raw_ c = []))
             then video_codec_string H264 (video_decoder_config_raw_ c) else Ok []) ;;
  Ok (match audio_config_ c with
      | Some a => codecs ++ (if bool_decide (codecs = []) then [] else str ",") ++ audio_codec_string a
      | None => codecs
      end).

(** The [Fmp4InitConfig] of the codecs that are known. *)
Definition init_config (c : Codecs) : Fmp4InitConfig :=
  mkFmp4InitConfig (if bool_decide (is_Some (video_config_ c)) then H264 else NoVideo)
    (if bool_decide (is_Some (video_config_ c)) then video_decoder_config_raw_ c else [])
    (if bool_decide (is_Some (video_config_ c)) then video_dimensions_ c else mkVideoDimensions 0 0)
    (bool_decide (is_Some (audio_config_ c)))
    (default (Aac.mkAudioSpecificConfig 2 4 2) (audio_config_ c))
    (if bool_decide (is_Some (audio_config_ c)) then audio_specific_config_raw_ c else []).

Definition set_epoch (c : Codecs) (e : Z) : Codecs :=
  mkCodecs (video_config_ c) (audio_config_ c) (video_decoder_config_raw_ c) (audio_specific_config_raw_ c)
    (video_dimensions_ c) e.

Definition rebuild_init_segment (s : Segmenter) : Res (Segmenter * list dash_event) :=
  let c := codecs_ s in
  if negb (bool_decide (is_Some (video_config_ c))) && negb (bool_decide (is_Some (audio_config_ c))) then Ok (s, []) else
  match init_segment (init_config c) with
  | Err _ => Ok (s, [])
  | Ok data =>
      let s := set_codecs s (set_epoch c (init_epoch_ c + 1)) in
      Ok (add_stats s 0 0 0 0 0 1, [OnInit (mkInitSegment data (init_epoch_ c + 1))])
  | Fault => Fault
  | OutOfFuel => OutOfFuel
  end.

Definition commit_pending (k : Clock) (t : Track) (duration_90k : Z) : Track :=
  let p := pending t in
  if negb (has p) then t else
  let base := if base_set t then base_decode_time_90k t else to_90k k (timestamp_ms p) in
  let sample := mkFmp4Sample (pending_data p) duration_90k (pending_composition_ms p * 90) (pending_keyframe p) in
  mkTrack (track_samples t ++ [sample]) no_pending duration_90k base true.

Definition close_track_tail (config : SegmenterConfig) (k : Clock) (t : Track) : Track :=
  if negb (has (pending t)) then t else
  let duration :=
    if last_duration_90k t =? 0 then u32 (Z.max 1 (target_duration config) * 90) else last_duration_90k t in
  commit_pending k t duration.

Definition fragment_of (t : Track) : Fmp4TrackFragment :=
  if empty_track t then mkFmp4TrackFragment 0 [] else mkFmp4TrackFragment (base_decode_time_90k t) (track_samples t).

Definition flush_segment (s : Segmenter) : Res (Segmenter * list dash_event) :=
  let video := close_track_tail (config_ s) (clock_ s) (video_track_ (open_ s)) in
  let audio := close_track_tail (config_ s) (clock_ s) (audio_track_ (open_ s)) in
  let s := set_open s (set_tracks (open_ s) video audio) in
  if empty_track video && empty_track audio then Ok (set_open s (set_segment_open (open_ s) false), []) else
  out <- write_styp [] ;;
  let result := write_fragment (muxer_ s) out (fragment_of video) (fragment_of audio) in
  let start := segment_start_ts_ (open_ s) in
  let s := set_open s (mkOpenSegment (clear video) (clear audio) false start 0) in
  match result with
  | Err _ => Ok (dropped s, [])
  | Ok (m, out) =>
      let number := next_sequence_ s in
      let name := (segment_name_prefix (config_ s) +:+ to_string number +:+ segment_name_suffix (config_ s))%string in
      let span_ms := last_video_ts_ (clock_ s) - start in
      let segment := mkSegment number name out (if 0 <? span_ms then span_ms else 0) (init_epoch_ (codecs_ s)) in
      Ok (add_stats (set_next_sequence (set_muxer s m) (number + 1)) 1 0 0 0 0 0, [OnSegment segment])
  | Fault => Fault
  | OutOfFuel => OutOfFuel
  end.

Definition mark_publisher_reconnect (s : Segmenter) : Res (Segmenter * list dash_event) :=
  '(s, events) <- flush_segment s ;;
  let k := clock_ s in
  let s := set_clock s (mkClock (last_video_ts_ k) false (timeline_base_ms_ k + (last_video_ts_ k + 1))) in
  let c := codecs_ s in
  let s := set_codecs s (mkCodecs None None (video_decoder_config_raw_ c) (audio_specific_config_raw_ c)
                           (video_dimensions_ c) (init_epoch_ c)) in
  Ok (set_open s (set_tracks (open_ s) new_track new_track), events).

Definition on_metadata (s : Segmenter) (message : RtmpMessage) : Segmenter * list dash_event := (s, []).

(** ** Video *)

Definition same_parameter_sets (a b : AvcDecoderConfig) : bool :=
  bool_decide (sps a = sps b) && bool_decide (pps a = pps b).

Definition video_header (s : Segmenter) (tag : VideoTag) : Res (Segmenter * list dash_event) :=
  match parse_decoder_config (body tag) with
  | Err _ => Ok (dropped s, [])
  | Ok config =>
      let had_config := bool_decide (is_Some (video_config_ (codecs_ s))) in
      let changed := match video_config_ (codecs_ s) with
                     | Some old => negb (same_parameter_sets old config)
                     | None => false
                     end in
      '(s, events) <- (if changed then flush_segment s else Ok (s, [])) ;;
      let c := codecs_ s in
      let with_config (d : VideoDimensions) :=
        set_codecs s (mkCodecs (Some config) (audio_config_ c) (body tag) (audio_specific_config_raw_ c) d (init_epoch_ c)) in
      match parse_dimensions config with
      | Ok d =>
          if negb had_config || changed then
            '(s, more) <- rebuild_init_segment (with_config d) ;; Ok (s, events ++ more)
          else Ok (with_config d, events)
      | Err _ => Ok (with_config (video_dimensions_ c), events)
      | Fault => Fault
      | OutOfFuel => OutOfFuel
      end
  | Fault => Fault
  | OutOfFuel => OutOfFuel
  end.

Definition delta_of (k : Clock) (timestamp : Z) : Z :=
  if have_last_video_ts_ k then timestamp - last_video_ts_ k else 0.

(** A jump in the timestamps: close the segment and keep the output timeline going. *)
Definition bridge_jump (s : Segmenter) (timestamp : Z) : Res (Segmenter * list dash_event) :=
  let k := clock_ s in
  if have_last_video_ts_ k && (discontinuity_threshold (config_ s) <? Z.abs (delta_of k timestamp)) then
    '(s, events) <- flush_segment s ;;
    Ok (set_clock s (mkClock (last_video_ts_ k) (have_last_video_ts_ k)
                       (timeline_base_ms_ k + (last_video_ts_ k - timestamp + 1))), events)
  else Ok (s, []).

Definition cut_segment (s : Segmenter) (is_key : bool) (timestamp : Z) : Res (Segmenter * list dash_event) :=
  let o := open_ s in
  let elapsed := timestamp - segment_start_ts_ o in
  let over_size := max_segment_bytes (config_ s) <=? segment_byte_estimate_ o in
  let over_time := max_segment_duration (config_ s) <=? elapsed in
  if segment_open_ o then
    if is_key && (target_duration (config_ s) <=? elapsed) then flush_segment s
    else if over_size || over_time then flush_segment (add_stats s 0 0 0 0 1 0)
    else Ok (s, [])
  else Ok (s, []).

Definition open_segment (o : OpenSegment) (timestamp : Z) : OpenSegment :=
  if segment_open_ o then o
  else mkOpenSegment (video_track_ o) (audio_track_ o) true timestamp (segment_byte_estimate_ o).

Definition hold (t : Track) (p : PendingSample) : Track :=
  mkTrack (track_samples t) p (last_duration_90k t) (base_decode_time_90k t) (base_set t).
Definition grow (o : OpenSegment) (bytes : Z) : OpenSegment :=
  mkOpenSegment (video_track_ o) (audio_track_ o) (segment_open_ o) (segment_start_ts_ o) (segment_byte_estimate_ o + bytes).

Definition video_frame (s : Segmenter) (tag : VideoTag) (timestamp : Z) : Res (Segmenter * list dash_event) :=
  let delta := delta_of (clock_ s) timestamp in
  '(s, jump_events) <- bridge_jump s timestamp ;;
  '(s, cut_events) <- cut_segment s (is_keyframe tag) timestamp ;;
  let o := open_segment (open_ s) timestamp in
  (* without a pending sample, commit_pending does nothing *)
  let video := commit_pending (clock_ s) (video_track_ o) (u32 (Z.max 1 delta * 90)) in
  let video := hold video (mkPendingSample (body tag) timestamp (composition_time_ms tag) (is_keyframe tag) true) in
  let s := set_open s (grow (set_tracks o video (audio_track_ o)) (zlen (body tag))) in
  let s := add_stats s 0 1 0 0 0 0 in
  Ok (set_clock s (mkClock timestamp true (timeline_base_ms_ (clock_ s))), jump_events ++ cut_events).

Definition on_video (s : Segmenter) (message : RtmpMessage) : Res (Segmenter * list dash_event) :=
  if finalized_ s || bool_decide (payload message = []) then Ok (s, []) else
  match parse_video_tag (payload message) with
  | Err _ => Ok (dropped s, [])
  | Ok tag =>
      if avc_packet_type tag =? kAvcPacketTypeSequenceHeader then video_header s tag
      else if negb (avc_packet_type tag =? kAvcPacketTypeNalu) then Ok (s, [])
      else if negb (bool_decide (is_Some (video_config_ (codecs_ s)))) || (width (video_dimensions_ (codecs_ s)) =? 0)
      then Ok (dropped s, [])
      else video_frame s tag (timestamp message)
  | Fault => Fault
  | OutOfFuel => OutOfFuel
  end.

(** ** Audio *)

Definition same_audio (a b : Aac.AudioSpecificConfig) : bool :=
  (Aac.sampling_frequency_index a =? Aac.sampling_frequency_index b) &&
  (Aac.channel_configuration a =? Aac.channel_configuration b) &&
  (Aac.object_type a =? Aac.object_type b).

Definition audio_header (s : Segmenter) (tag : Aac.AudioTag) : Res (Segmenter * list dash_event) :=
  match Aac.parse_audio_specific_config (Aac.body tag) with
  | Err _ => Ok (dropped s, [])
  | Ok config =>
      let had_config := bool_decide (is_Some (audio_config_ (codecs_ s))) in
      let changed := match audio_config_ (codecs_ s) with
                     | Some old => negb (same_audio old config)
                     | None => false
                     end in
      '(s, events) <- (if changed then flush_segment s else Ok (s, [])) ;;
      let c := codecs_ s in
      let s := set_codecs s (mkCodecs (video_config_ c) (Some config) (video_decoder_config_raw_ c) (Aac.body tag)
                               (video_dimensions_ c) (init_epoch_ c)) in
      if negb had_config || changed then
        '(s, more) <- rebuild_init_segment s ;; Ok (s, events ++ more)
      else Ok (s, events)
  | Fault => Fault
  | OutOfFuel => OutOfFuel
  end.

Definition audio_frame (s : Segmenter) (tag : Aac.AudioTag) (timestamp : Z) : Segmenter :=
  let o := open_ s in
  let audio := audio_track_ o in
  let delta := timestamp - timestamp_ms (pending audio) in
  let audio := commit_pending (clock_ s) audio (u32 (Z.max 1 delta * 90)) in
  let audio := hold audio (mkPendingSample (Aac.body tag) timestamp 0 true true) in
  let s := set_open s (grow (set_tracks o (video_track_ o) audio) (zlen (Aac.body tag))) in
  add_stats s 0 0 1 0 0 0.

Definition on_audio (s : Segmenter) (message : RtmpMessage) : Res (Segmenter * list dash_event) :=
  if finalized_ s || bool_decide (payload message = []) then Ok (s, []) else
  match Aac.parse_audio_tag (payload message) with
  | Err _ => Ok (dropped s, [])
  | Ok tag =>
      if Aac.aac_packet_type tag =? Aac.kAacPacketTypeSequenceHeader then audio_header s tag
      else if negb (bool_decide (is_Some (audio_config_ (codecs_ s)))) then Ok (dropped s, [])
      else if negb (segment_open_ (open_ s)) then Ok (dropped s, [])
      else if bool_decide (Aac.body tag = []) then Ok (s, [])
      else Ok (audio_frame s tag (timestamp message), [])
  | Fault => Fault
  | OutOfFuel => OutOfFuel
  end.

Definition finalize (s : Segmenter) : Res (Segmenter * list dash_event) :=
  if finalized_ s then Ok (s, []) else flush_segment (set_finalized s).

(** * Histories *)

Inductive dash_input :=
| VideoMessage (m : RtmpMessage)
| AudioMessage (m : RtmpMessage)
| MetadataMessage (m : RtmpMessage)
| Reconnect
| Finalize.

Definition step (s : Segmenter) (i : dash_input) : Res (Segmenter * list dash_event) :=
  match i with
  | VideoMessage m => on_video s m
  | AudioMessage m => on_audio s m
  | MetadataMessage m => Ok (on_metadata s m)
  | Reconnect => mark_publisher_reconnect s
  | Finalize => finalize s
  end.
Fixpoint run (s : Segmenter) (inputs : list dash_input) : Res (Segmenter * list dash_event) :=
  match inputs with
  | [] => Ok (s, [])
  | i :: inputs => '(s, events) <- step s i ;; '(s, more) <- run s inputs ;; Ok (s, events ++ more)
  end.
