(* ===== verification/DashFaithful.v ===== *)
(** What is in the DASH segments of dash/segmenter.cpp: every access unit that was accepted,
    once and in order, and what a player reads there; and what they get wrong: the decode
    time they start at, and the clock of the audio. *)

From S2P Require Import Prelude Bytes Text Nal Avc H264Sps Chunk Fmp4 Fmp4ReadBack DashSegmenter.
From S2P Require Aac HlsFaithful.

(** * Access units *)

(** What a sample carries besides its place in time. *)
Definition unit : Type := list byte * Z * bool.
Definition unit_of (s : Fmp4Sample) : unit := (sample_data s, composition_offset s, sample_keyframe s).
Definition pending_unit (p : PendingSample) : list unit :=
  if has p then [(pending_data p, pending_composition_ms p * 90, pending_keyframe p)] else [].
Definition held (t : Track) : list unit := map unit_of (track_samples t) ++ pending_unit (pending t).

(** The units a message adds, in the state it arrives in. *)
Definition video_taken (s : Segmenter) (i : dash_input) : list unit :=
  match i with
  | VideoMessage m =>
      if finalized_ s || bool_decide (payload m = []) then [] else
      match parse_video_tag (payload m) with
      | Ok tag =>
          if (avc_packet_type tag =? kAvcPacketTypeNalu) && bool_decide (is_Some (video_config_ (codecs_ s))) &&
             negb (width (video_dimensions_ (codecs_ s)) =? 0)
          then [(body tag, composition_time_ms tag * 90, is_keyframe tag)] else []
      | _ => []
      end
  | _ => []
  end.
Definition audio_taken (s : Segmenter) (i : dash_input) : list unit :=
  match i with
  | AudioMessage m =>
      if finalized_ s || bool_decide (payload m = []) then [] else
      match Aac.parse_audio_tag (payload m) with
      | Ok tag =>
          if negb (Aac.aac_packet_type tag =? Aac.kAacPacketTypeSequenceHeader) &&
             bool_decide (is_Some (audio_config_ (codecs_ s))) && segment_open_ (open_ s) &&
             negb (bool_decide (Aac.body tag = []))
          then [(Aac.body tag, 0, true)] else []
      | _ => []
      end
  | _ => []
  end.
Fixpoint taken (f : Segmenter -> dash_input -> list unit) (s : Segmenter) (inputs : list dash_input) : list unit :=
  match inputs with
  | [] => []
  | i :: inputs => f s i ++ match step s i with Ok (s, _) => taken f s inputs | _ => [] end
  end.

(** * Cuts *)

(** What is cut off at a flush: a fragment of each track. *)
Definition cut : Type := Fmp4TrackFragment * Fmp4TrackFragment.
Definition units_of (f : Fmp4TrackFragment) : list unit := map unit_of (samples f).
Definition video_units (cs : list cut) : list unit := concat (map (fun c => units_of c.1) cs).
Definition audio_units (cs : list cut) : list unit := concat (map (fun c => units_of c.2) cs).
(** A fragment whose data an [mdat] can hold. *)
Definition publishable (c : cut) : bool := zlen (media_bytes c.1) + zlen (media_bytes c.2) + 8 <=? 2 ^ 32 - 1.
Definition cut_ok (c : cut) : bool :=
  fragment_ok c.1 && fragment_ok c.2 && negb (no_samples c.1 && no_samples c.2).

(** The events of a row of cuts, from and to the sequence numbers of the muxer and of the
    segments. *)
Inductive emits (config : SegmenterConfig) : Z * Z -> list cut -> list dash_event -> Z * Z -> Prop :=
| emits_nil p : emits config p [] [] p
| emits_init p cs i es q : emits config p cs es q -> emits config p cs (OnInit i :: es) q
| emits_lost p c cs es q : publishable c = false -> emits config p cs es q -> emits config p (c :: cs) es q
| emits_segment m n c cs seg es q :
    publishable c = true -> cut_ok c = true -> seg_number seg = n ->
    seg_name seg = (segment_name_prefix config +:+ to_string n +:+ segment_name_suffix config)%string ->
    seg_data seg = renders (styp_box :: fragment_boxes (u32 (m + 1)) c.1 c.2) ->
    emits config (u32 (m + 1), n + 1) cs es q ->
    emits config (m, n) (c :: cs) (OnSegment seg :: es) q.

Lemma cuts_app config p cs1 es1 q cs2 es2 r :
  emits config p cs1 es1 q -> emits config q cs2 es2 r -> emits config p (cs1 ++ cs2) (es1 ++ es2) r.
Proof.
  induction 1; intros Hnext; cbn [app]; [done|by apply emits_init; auto|by apply emits_lost; auto|].
  eapply emits_segment; eauto.
Qed.

(** * The invariant *)

Definition pending_ok (p : PendingSample) : bool :=
  (- 2 ^ 23 <=? pending_composition_ms p) && (pending_composition_ms p <? 2 ^ 23).
Definition track_ok (t : Track) : bool :=
  forallb sample_ok (track_samples t) && pending_ok (pending t) && (0 <=? last_duration_90k t) &&
  (last_duration_90k t <? 2 ^ 32) && (0 <=? base_decode_time_90k t) && (base_decode_time_90k t <? 2 ^ 64) &&
  (empty_track t || base_set t).
Definition tracks_ok (s : Segmenter) : bool := track_ok (video_track_ (open_ s)) && track_ok (audio_track_ (open_ s)).

Definition numbers (s : Segmenter) : Z * Z := (sequence_number_ (muxer_ s), next_sequence_ s).

(** The decode time of a track, once it has one; a fragment that starts at it. *)
Definition settled (t : Track) : option Z := if base_set t then Some (base_decode_time_90k t) else None.
Definition starts_at (f : Fmp4TrackFragment) (t : Track) : Prop :=
  no_samples f = true \/ settled t = Some (base_decode_time f).
Definition stays (t t' : Track) : Prop := forall b, settled t = Some b -> settled t' = Some b.

(** A piece of execution: what was held before and what was taken is, after it, cut off or
    still held; and unless the tracks are reset, they keep the decode time they have and
    everything cut off starts at it. *)
Record moves (reset : bool) (s : Segmenter) (video audio : list unit) (s' : Segmenter) (es : list dash_event) : Prop := {
  mv_config : config_ s' = config_ s;
  mv_final : finalized_ s' = finalized_ s;
  mv_ok : tracks_ok s' = true;
  mv_cuts : exists cs, emits (config_ s) (numbers s) cs es (numbers s') /\
    held (video_track_ (open_ s)) ++ video = video_units cs ++ held (video_track_ (open_ s')) /\
    held (audio_track_ (open_ s)) ++ audio = audio_units cs ++ held (audio_track_ (open_ s')) /\
    (reset = false -> stays (video_track_ (open_ s)) (video_track_ (open_ s')) /\
       stays (audio_track_ (open_ s)) (audio_track_ (open_ s')) /\
       Forall (fun c => starts_at c.1 (video_track_ (open_ s')) /\ starts_at c.2 (audio_track_ (open_ s'))) cs)
}.

Lemma video_units_app cs1 cs2 : video_units (cs1 ++ cs2) = video_units cs1 ++ video_units cs2.
Proof. unfold video_units. by rewrite map_app, concat_app. Qed.
Lemma audio_units_app cs1 cs2 : audio_units (cs1 ++ cs2) = audio_units cs1 ++ audio_units cs2.
Proof. unfold audio_units. by rewrite map_app, concat_app. Qed.

Lemma starts_at_stays f t t' : starts_at f t -> stays t t' -> starts_at f t'.
Proof. intros [H|H] Hs; [by left|right; by apply Hs]. Qed.

Lemma moves_trans r1 r2 s v1 a1 s1 e1 v2 a2 s2 e2 :
  moves r1 s v1 a1 s1 e1 -> moves r2 s1 v2 a2 s2 e2 -> moves (r1 || r2) s (v1 ++ v2) (a1 ++ a2) s2 (e1 ++ e2).
Proof.
  intros [C1 F1 O1 (c1 & E1 & V1 & A1 & P1)] [C2 F2 O2 (c2 & E2 & V2 & A2 & P2)]. split; [congruence|congruence|done|].
  exists (c1 ++ c2). split; [eapply cuts_app; [done|by rewrite <- C1]|].
  rewrite video_units_app, audio_units_app, !app_assoc, V1, A1, <- !app_assoc, V2, A2. split; [done|]. split; [done|].
  intros Hr. apply orb_false_iff in Hr as [Hr1 Hr2].
  destruct (P1 Hr1) as (S1 & T1 & Q1). destruct (P2 Hr2) as (S2 & T2 & Q2).
  split_and!; [by intros b Hb; apply S2, S1|by intros b Hb; apply T2, T1|].
  apply list.Forall_app. split; [|done]. eapply list.Forall_impl; [exact Q1|].
  intros c [Hc1 Hc2]. split; by eapply starts_at_stays.
Qed.

(** Nothing that matters here has changed. *)
Lemma moves_still s s' es : tracks_ok s = true -> config_ s' = config_ s -> finalized_ s' = finalized_ s -> muxer_ s' = muxer_ s ->
  next_sequence_ s' = next_sequence_ s -> video_track_ (open_ s') = video_track_ (open_ s) ->
  audio_track_ (open_ s') = audio_track_ (open_ s) ->
  (es = [] \/ exists i, es = [OnInit i]) -> moves false s [] [] s' es.
Proof.
  intros Ho Hc Hf Hm Hn Hv Ha He. split; [done|done|unfold tracks_ok in *; by rewrite Hv, Ha|].
  exists []. unfold numbers. rewrite Hm, Hn, Hv, Ha, !app_nil_r.
  split; [|split_and!; [done..|intros _; split_and!; [by intros b|by intros b|constructor]]].
  destruct He as [-> | (i & ->)]; repeat constructor.
Qed.

(** ** Flushing *)

Lemma u32_range v : 0 <= u32 v < 2 ^ 32.
Proof. apply Z.mod_pos_bound. lia. Qed.
Lemma to_90k_range k ms : 0 <= to_90k k ms < 2 ^ 64.
Proof. apply Z.mod_pos_bound. lia. Qed.

Ltac oks :=
  unfold track_ok, pending_ok, sample_ok, fragment_ok in *; cbn in *;
  rewrite ?forallb_app, ?andb_true_iff, ?Z.leb_le, ?Z.ltb_lt in *; cbn.

Lemma commit_pending_ok k t d : track_ok t = true -> 0 <= d < 2 ^ 32 -> track_ok (commit_pending k t d) = true.
Proof.
  intros Ht Hd. unfold commit_pending. destruct (has (pending t)) eqn:Hh; cbn [negb]; [|done].
  pose proof (to_90k_range k (timestamp_ms (pending t))) as Hk.
  oks. destruct (base_set t); intuition lia.
Qed.
Lemma commit_pending_held k t d :
  held (commit_pending k t d) = held t /\ pending_unit (pending (commit_pending k t d)) = [].
Proof.
  unfold commit_pending, held. destruct (has (pending t)) eqn:Hh; cbn [negb].
  - split; [|done]. cbn. rewrite map_app, app_nil_r. unfold pending_unit. by rewrite Hh.
  - split; [done|]. unfold pending_unit. by rewrite Hh.
Qed.
Lemma close_track_tail_ok config k t : track_ok t = true -> track_ok (close_track_tail config k t) = true.
Proof.
  intros Ht. unfold close_track_tail. destruct (has (pending t)); cbn [negb]; [|done].
  apply commit_pending_ok; [done|]. destruct (_ =? 0); [apply u32_range|]. oks. intuition lia.
Qed.
Lemma close_track_tail_held config k t :
  held (close_track_tail config k t) = held t /\ pending_unit (pending (close_track_tail config k t)) = [].
Proof.
  unfold close_track_tail. destruct (has (pending t)) eqn:Hh; cbn [negb]; [apply commit_pending_held|].
  split; [done|]. unfold pending_unit. by rewrite Hh.
Qed.

Lemma commit_pending_stays k t d : stays t (commit_pending k t d).
Proof.
  intros b. unfold commit_pending, settled. destruct (has (pending t)); cbn [negb]; [|done]. cbn.
  by destruct (base_set t).
Qed.
Lemma close_track_tail_stays config k t : stays t (close_track_tail config k t).
Proof. unfold close_track_tail. destruct (has (pending t)); cbn [negb]; [apply commit_pending_stays|by intros b]. Qed.
Lemma fragment_starts t : track_ok t = true -> starts_at (fragment_of t) (clear t).
Proof.
  intros Ht. unfold starts_at, fragment_of, no_samples, settled. cbn.
  destruct (empty_track t) eqn:He; [by left|]. right. unfold track_ok in Ht. apply andb_true_iff in Ht as [_ Hb].
  rewrite He in Hb. cbn in Hb. by rewrite Hb.
Qed.

Lemma clear_track t : track_ok t = true -> pending_unit (pending t) = [] -> track_ok (clear t) = true /\ held (clear t) = [].
Proof. intros Ht Hp. split; [oks; intuition lia|]. unfold held. cbn. by rewrite Hp. Qed.
Lemma fragment_of_ok t : track_ok t = true -> fragment_ok (fragment_of t) = true.
Proof. intros Ht. unfold fragment_of. destruct (empty_track t); [done|]. oks. intuition lia. Qed.
Lemma fragment_of_units t : pending_unit (pending t) = [] -> units_of (fragment_of t) = held t.
Proof.
  intros Hp. unfold fragment_of, units_of, held. rewrite Hp, app_nil_r. destruct (empty_track t) eqn:He; [|done].
  unfold empty_track in He. apply bool_decide_eq_true in He. by rewrite He.
Qed.
Lemma fragment_of_samples t : no_samples (fragment_of t) = empty_track t.
Proof.
  unfold fragment_of, no_samples. destruct (empty_track t) eqn:He; [done|]. exact He.
Qed.

(** A flush ends, publishes or loses what is held, and leaves nothing held. *)
Lemma flush_moves s : tracks_ok s = true ->
  exists s' es, flush_segment s = Ok (s', es) /\ moves false s [] [] s' es /\
    held (video_track_ (open_ s')) = [] /\ held (audio_track_ (open_ s')) = [] /\
    codecs_ s' = codecs_ s /\ clock_ s' = clock_ s /\ finalized_ s' = finalized_ s /\ segment_open_ (open_ s') = false.
Proof.
  intros Hok. unfold tracks_ok in Hok. apply andb_true_iff in Hok as [Hv Ha]. unfold flush_segment.
  pose proof (close_track_tail_ok (config_ s) (clock_ s) _ Hv) as Hv1.
  pose proof (close_track_tail_ok (config_ s) (clock_ s) _ Ha) as Ha1.
  pose proof (close_track_tail_held (config_ s) (clock_ s) (video_track_ (open_ s))) as [Vh Vp].
  pose proof (close_track_tail_held (config_ s) (clock_ s) (audio_track_ (open_ s))) as [Ah Ap].
  set (video := close_track_tail _ _ (video_track_ _)) in *. set (audio := close_track_tail _ _ (audio_track_ _)) in *.
  destruct (empty_track video && empty_track audio) eqn:He.
  - eexists _, _. split; [done|]. cbn.
    apply andb_true_iff in He as [E1 E2]. unfold empty_track in E1, E2. apply bool_decide_eq_true in E1, E2.
    assert (H1 : held video = []) by (unfold held; by rewrite E1, Vp).
    assert (H2 : held audio = []) by (unfold held; by rewrite E2, Ap).
    split_and!; try done. split; [done|done|unfold tracks_ok; cbn; by rewrite Hv1, Ha1|].
    exists []. cbn. rewrite !app_nil_r. split_and!; [constructor|congruence|congruence|].
    intros _. split_and!; [apply close_track_tail_stays..|constructor].
  - rewrite write_styp_box. cbn [rbind app]. rewrite write_fragment_tree, !fragment_of_samples. cbn [muxer_ set_open]. rewrite He.
    destruct (clear_track video Hv1 Vp) as [Vc1 Vc2]. destruct (clear_track audio Ha1 Ap) as [Ac1 Ac2].
    set (c := (fragment_of video, fragment_of audio)).
    assert (Hcut : held (video_track_ (open_ s)) ++ [] = video_units [c] ++ held (clear video) /\
                   held (audio_track_ (open_ s)) ++ [] = audio_units [c] ++ held (clear audio) /\
                   (false = false -> stays (video_track_ (open_ s)) (clear video) /\ stays (audio_track_ (open_ s)) (clear audio) /\
                     Forall (fun c => starts_at c.1 (clear video) /\ starts_at c.2 (clear audio)) [c])).
    { split_and!; [| |intros _; split_and!; [apply close_track_tail_stays..|apply list.Forall_cons; split; [by split; apply fragment_starts|constructor] ] ].
      all: unfold video_units, audio_units; cbn [map concat c fst snd]; by rewrite fragment_of_units, ?Vc2, ?Ac2, !app_nil_r. }
    destruct (Z.ltb_spec (2 ^ 32 - 1) (zlen (media_bytes (fragment_of video)) + zlen (media_bytes (fragment_of audio)) + 8)) as [Hbig|Hbig].
    + eexists _, _. split; [done|]. cbn. split_and!; try done. split; [done|done|unfold tracks_ok; cbn; by rewrite Vc1, Ac1|].
      exists [c]. split; [|exact Hcut]. apply emits_lost; [|constructor]. unfold publishable. apply Z.leb_gt. cbn. lia.
    + eexists _, _. split; [done|]. cbn. split_and!; try done. split; [done|done|unfold tracks_ok; cbn; by rewrite Vc1, Ac1|].
      exists [c]. split; [|exact Hcut].
      eapply emits_segment; [| |done|done|done|constructor].
      * unfold publishable. apply Z.leb_le. cbn. lia.
      * unfold cut_ok. cbn [c fst snd]. rewrite !fragment_of_ok, !fragment_of_samples, He by done. done.
Qed.

(** ** The handlers *)

Lemma read_be_loop_range n : forall data off v r k, (k + n <= 4)%nat -> 0 <= v < 2 ^ (8 * Z.of_nat k) ->
  read_be_loop n data off v = Ok r -> 0 <= r < 2 ^ (8 * Z.of_nat (k + n)).
Proof.
  induction n as [|n IH]; intros data off v r k Hk Hv H; cbn [read_be_loop] in H.
  - injection H as <-. by rewrite Nat.add_0_r.
  - res_inv H. apply u8_at_range in Ha. replace (k + S n)%nat with (S k + n)%nat by lia.
    eapply IH; [lia| |exact H].
    assert (Hp : 2 ^ (8 * Z.of_nat (S k)) = 2 ^ (8 * Z.of_nat k) * 2 ^ 8)
      by (rewrite <- Z.pow_add_r by lia; f_equal; lia).
    assert (Hle : 2 ^ (8 * Z.of_nat (S k)) <= 2 ^ 32) by (apply Z.pow_le_mono_r; lia).
    unfold u32. rewrite Z.shiftl_mul_pow2, Z.mod_small by lia.
    rewrite <- (Z.shiftl_mul_pow2 v 8), lor_shiftl_add by lia. lia.
Qed.
Lemma composition_range payload tag : parse_video_tag payload = Ok tag -> - 2 ^ 23 <= composition_time_ms tag < 2 ^ 23.
Proof.
  unfold parse_video_tag. destruct (_ <? _); [done|]. intros H. res_inv H. destruct (negb _); [done|]. res_inv H.
  cbn [composition_time_ms].
  apply (read_be_loop_range 3 _ _ 0 _ 0) in Ha1; [|lia|done]. cbn in Ha1.
  rewrite sign_extend_24 by done. pose proof (Z.mod_pos_bound (a1 + 2 ^ 23) (2 ^ 24) eq_refl). lia.
Qed.

Lemma rebuild_moves s : tracks_ok s = true ->
  exists s' es, rebuild_init_segment s = Ok (s', es) /\ moves false s [] [] s' es /\ open_ s' = open_ s.
Proof.
  intros Ho. unfold rebuild_init_segment. destruct (negb _ && negb _).
  { eexists _, _. split; [done|]. split; [|done]. apply moves_still; by auto. }
  pose proof (init_segment_tree (init_config (codecs_ s))) as Ht. destruct (init_ok _).
  - rewrite Ht. eexists _, _. split; [done|]. split; [|done]. apply moves_still; eauto.
  - destruct Ht as (what & ->). eexists _, _. split; [done|]. split; [|done]. apply moves_still; by auto.
Qed.

(** A sequence header the SPS parser comes back on (see H264Sps.v for those it does not). *)
Definition sps_readable (i : dash_input) : bool :=
  match i with
  | VideoMessage m =>
      match parse_video_tag (payload m) with
      | Ok tag =>
          match parse_decoder_config (body tag) with
          | Ok config => match parse_dimensions config with Fault | OutOfFuel => false | _ => true end
          | _ => true
          end
      | _ => true
      end
  | _ => true
  end.

(** What [flush_segment] does when it is called, and what happens when it is not. *)
Lemma flush_if_moves s (b : bool) : tracks_ok s = true ->
  exists s' es, (if b then flush_segment s else Ok (s, [])) = Ok (s', es) /\ moves false s [] [] s' es /\
    codecs_ s' = codecs_ s /\ clock_ s' = clock_ s.
Proof.
  intros Ho. destruct b.
  - destruct (flush_moves s Ho) as (s' & es & H & M & _ & _ & Hc & Hk & _). by exists s', es.
  - eexists _, _. split; [done|]. split; [|done]. apply moves_still; by auto.
Qed.

Lemma moves_ends r s v a s1 e1 s2 e2 : moves r s v a s1 e1 -> moves false s1 [] [] s2 e2 -> moves r s v a s2 (e1 ++ e2).
Proof. intros M1 M2. rewrite <- (app_nil_r v), <- (app_nil_r a), <- (orb_false_r r). by eapply moves_trans. Qed.
Lemma moves_then_still r s v a s1 e1 s2 : moves r s v a s1 e1 -> config_ s2 = config_ s1 -> finalized_ s2 = finalized_ s1 -> muxer_ s2 = muxer_ s1 ->
  next_sequence_ s2 = next_sequence_ s1 -> video_track_ (open_ s2) = video_track_ (open_ s1) ->
  audio_track_ (open_ s2) = audio_track_ (open_ s1) -> moves r s v a s2 e1.
Proof.
  intros M Hc Hf Hm Hn Hv Ha. rewrite <- (app_nil_r e1). eapply moves_ends; [done|].
  apply moves_still; auto. apply (mv_ok _ _ _ _ _ _ M).
Qed.

Lemma video_header_moves s tag : tracks_ok s = true ->
  match parse_decoder_config (body tag) with
  | Ok config => parse_dimensions config <> Fault /\ parse_dimensions config <> OutOfFuel
  | _ => True end ->
  exists s' es, video_header s tag = Ok (s', es) /\ moves false s [] [] s' es.
Proof.
  intros Ho Hr. unfold video_header. pose proof (HlsFaithful.decoder_config_returns (body tag)) as Hc.
  destruct (parse_decoder_config (body tag)) as [c|e| |]; [|eexists _, _; split; [done|by apply moves_still; auto]|done..].
  cbv zeta. set (changed := match video_config_ (codecs_ s) with Some old => _ | None => false end).
  destruct (flush_if_moves s changed Ho) as (s1 & e1 & H1 & M1 & Hco & _). rewrite H1. cbn [rbind].
  destruct (parse_dimensions c) as [d|e| |]; [| |by destruct Hr..].
  - set (sd := set_codecs s1 _).
    assert (Md : moves false s [] [] sd e1) by (by eapply moves_then_still; [exact M1|..]).
    destruct (negb _ || changed); [|by eexists _, _].
    destruct (rebuild_moves sd (mv_ok _ _ _ _ _ _ Md)) as (s2 & e2 & H2 & M2 & _). rewrite H2. cbn [rbind].
    eexists _, _. split; [done|]. by eapply moves_ends.
  - eexists _, _. split; [done|]. by eapply moves_then_still; [exact M1|..].
Qed.

Lemma audio_header_moves s tag : tracks_ok s = true ->
  exists s' es, audio_header s tag = Ok (s', es) /\ moves false s [] [] s' es.
Proof.
  intros Ho. unfold audio_header. pose proof (HlsFaithful.audio_config_returns (Aac.body tag)) as Hc.
  destruct (Aac.parse_audio_specific_config _) as [c|e| |]; [|eexists _, _; split; [done|by apply moves_still; auto]|done..].
  cbv zeta. set (changed := match audio_config_ (codecs_ s) with Some old => _ | None => false end).
  destruct (flush_if_moves s changed Ho) as (s1 & e1 & H1 & M1 & Hco & _). rewrite H1. cbn [rbind].
  set (sd := set_codecs s1 _). assert (Md : moves false s [] [] sd e1) by (by eapply moves_then_still; [exact M1|..]).
  destruct (negb _ || changed); [|by eexists _, _].
  destruct (rebuild_moves sd (mv_ok _ _ _ _ _ _ Md)) as (s2 & e2 & H2 & M2 & _). rewrite H2. cbn [rbind].
  eexists _, _. split; [done|]. by eapply moves_ends.
Qed.

(** Committing the pending sample and holding the next. *)
Definition commit_and_hold (k : Clock) (t : Track) (d : Z) (p : PendingSample) : Track := hold (commit_pending k t d) p.
Lemma commit_and_hold_spec k t d p : track_ok t = true -> 0 <= d < 2 ^ 32 -> pending_ok p = true ->
  track_ok (commit_and_hold k t d p) = true /\ held (commit_and_hold k t d p) = held t ++ pending_unit p /\
  stays t (commit_and_hold k t d p).
Proof.
  intros Ht Hd Hp. pose proof (commit_pending_ok k t d Ht Hd) as Hc. destruct (commit_pending_held k t d) as [Hh Hn].
  unfold commit_and_hold. split_and!; [unfold track_ok, hold in *; cbn; oks; intuition lia| |exact (commit_pending_stays k t d)].
  rewrite <- Hh. unfold held, hold. cbn. by rewrite Hn, app_nil_r.
Qed.

Lemma video_frame_moves s tag ts : tracks_ok s = true -> - 2 ^ 23 <= composition_time_ms tag < 2 ^ 23 ->
  exists s' es, video_frame s tag ts = Ok (s', es) /\
    moves false s [(body tag, composition_time_ms tag * 90, is_keyframe tag)] [] s' es.
Proof.
  intros Ho Hc. unfold video_frame. cbv zeta.
  assert (Hj : exists s1 e1, bridge_jump s ts = Ok (s1, e1) /\ moves false s [] [] s1 e1).
  { unfold bridge_jump. destruct (_ && _); [|eexists _, _; split; [done|by apply moves_still; auto]].
    destruct (flush_moves s Ho) as (s1 & e1 & H1 & M1 & _). rewrite H1. eexists _, _. split; [done|].
    by eapply moves_then_still; [exact M1|..]. }
  destruct Hj as (s1 & e1 & -> & M1). cbn [rbind].
  assert (Hcut : exists s2 e2, cut_segment s1 (is_keyframe tag) ts = Ok (s2, e2) /\ moves false s1 [] [] s2 e2).
  { unfold cut_segment. pose proof (mv_ok _ _ _ _ _ _ M1) as O1.
    destruct (segment_open_ (open_ s1)); [|eexists _, _; split; [done|by apply moves_still; auto]].
    destruct (is_keyframe tag && _); [destruct (flush_moves s1 O1) as (s2 & e2 & H2 & M2 & _); by exists s2, e2|].
    destruct (_ || _); [|eexists _, _; split; [done|by apply moves_still; auto]].
    destruct (flush_moves (add_stats s1 0 0 0 0 1 0) O1) as (s2 & e2 & H2 & [C2 F2 O2 X2] & _). exists s2, e2. split; [done|]. by split. }
  destruct Hcut as (s2 & e2 & -> & M2). cbn [rbind].
  pose proof (moves_ends _ _ _ _ _ _ _ _ M1 M2) as M. eexists _, _. split; [done|].
  pose proof (mv_ok _ _ _ _ _ _ M) as O2. unfold tracks_ok in O2. apply andb_true_iff in O2 as [Ov Oa].
  assert (Htr : video_track_ (open_segment (open_ s2) ts) = video_track_ (open_ s2) /\
                audio_track_ (open_segment (open_ s2) ts) = audio_track_ (open_ s2))
    by (unfold open_segment; by destruct (segment_open_ (open_ s2))).
  destruct Htr as [Tv Ta].
  set (p := mkPendingSample (body tag) ts (composition_time_ms tag) (is_keyframe tag) true).
  assert (Hp : pending_ok p = true) by (oks; lia).
  destruct (commit_and_hold_spec (clock_ s2) (video_track_ (open_ s2)) (u32 (Z.max 1 (delta_of (clock_ s) ts) * 90)) p Ov
              (u32_range _) Hp) as (Hn & Hh & Hst).
  rewrite <- (app_nil_r (e1 ++ e2)). eapply (moves_trans false false s [] []); [exact M|]. fold p. rewrite Tv, Ta.
  set (vt := commit_and_hold _ _ _ _) in Hn, Hh, Hst. change (hold (commit_pending _ _ _) p) with vt. clearbody vt.
  split; [done|done|unfold tracks_ok; cbn; by rewrite Hn, Oa|].
  exists []. split; [constructor|]. cbn.
  split_and!; [by rewrite Hh|by rewrite app_nil_r|intros _; split_and!; [exact Hst|by intros b|constructor] ].
Qed.

Lemma audio_frame_moves s tag ts : tracks_ok s = true ->
  moves false s [] [(Aac.body tag, 0, true)] (audio_frame s tag ts) [].
Proof.
  intros Ho. unfold tracks_ok in Ho. apply andb_true_iff in Ho as [Ov Oa].
  set (p := mkPendingSample (Aac.body tag) ts 0 true true).
  destruct (commit_and_hold_spec (clock_ s) (audio_track_ (open_ s)) (u32 (Z.max 1 (ts - timestamp_ms (pending (audio_track_ (open_ s)))) * 90)) p Oa
              (u32_range _) eq_refl) as (Hn & Hh & Hst).
  unfold audio_frame. cbv zeta. fold p. set (at' := commit_and_hold _ _ _ _) in Hn, Hh, Hst.
  change (hold (commit_pending _ _ _) p) with at'. clearbody at'.
  split; [done|done|unfold tracks_ok; cbn; by rewrite Ov, Hn|].
  exists []. split; [constructor|]. cbn.
  split_and!; [by rewrite app_nil_r|by rewrite Hh|intros _; split_and!; [by intros b|exact Hst|constructor] ].
Qed.

Lemma on_video_moves s m : tracks_ok s = true -> sps_readable (VideoMessage m) = true ->
  exists s' es, on_video s m = Ok (s', es) /\ moves false s (video_taken s (VideoMessage m)) [] s' es.
Proof.
  intros Ho Hr. unfold on_video, video_taken, sps_readable in *.
  destruct (finalized_ s || _); [eexists _, _; split; [done|by apply moves_still; auto]|].
  pose proof (HlsFaithful.video_tag_returns (payload m)) as Ht.
  destruct (parse_video_tag (payload m)) as [tag|e| |] eqn:Hp; [|eexists _, _; split; [done|by apply moves_still; auto]|done..].
  destruct (Z.eqb_spec (avc_packet_type tag) kAvcPacketTypeSequenceHeader) as [Hh|Hh].
  { rewrite Hh. cbn [kAvcPacketTypeSequenceHeader kAvcPacketTypeNalu Z.eqb andb].
    apply video_header_moves; [done|]. destruct (parse_decoder_config _); try done. by destruct (parse_dimensions _). }
  destruct (avc_packet_type tag =? kAvcPacketTypeNalu); cbn [negb andb];
    [|eexists _, _; split; [done|by apply moves_still; auto]].
  destruct (bool_decide (is_Some (video_config_ (codecs_ s)))); cbn [negb orb andb];
    [|eexists _, _; split; [done|by apply moves_still; auto]].
  destruct (width (video_dimensions_ (codecs_ s)) =? 0); cbn [negb];
    [eexists _, _; split; [done|by apply moves_still; auto]|].
  apply video_frame_moves; [done|]. by apply composition_range in Hp.
Qed.
Lemma on_audio_moves s m : tracks_ok s = true ->
  exists s' es, on_audio s m = Ok (s', es) /\ moves false s [] (audio_taken s (AudioMessage m)) s' es.
Proof.
  intros Ho. unfold on_audio, audio_taken.
  destruct (finalized_ s || _); [eexists _, _; split; [done|by apply moves_still; auto]|].
  pose proof (HlsFaithful.audio_tag_returns (payload m)) as Ht.
  destruct (Aac.parse_audio_tag (payload m)) as [tag|e| |] eqn:Hp; [|eexists _, _; split; [done|by apply moves_still; auto]|done..].
  destruct (Aac.aac_packet_type tag =? Aac.kAacPacketTypeSequenceHeader); cbn [negb andb]; [by apply audio_header_moves|].
  destruct (bool_decide (is_Some _)); cbn [negb andb]; [|eexists _, _; split; [done|by apply moves_still; auto]].
  destruct (segment_open_ _); cbn [negb andb]; [|eexists _, _; split; [done|by apply moves_still; auto]].
  destruct (bool_decide (Aac.body tag = [])); cbn [negb]; [eexists _, _; split; [done|by apply moves_still; auto]|].
  eexists _, _. split; [done|by apply audio_frame_moves].
Qed.
Lemma reconnect_moves s : tracks_ok s = true ->
  exists s' es, mark_publisher_reconnect s = Ok (s', es) /\ moves true s [] [] s' es.
Proof.
  intros Ho. unfold mark_publisher_reconnect.
  destruct (flush_moves s Ho) as (s1 & e1 & -> & [C1 F1 O1 (cs & E1 & V1 & A1 & _)] & Hv & Ha & _). cbn [rbind].
  eexists _, _. split; [done|]. split; [done|done|done|].
  exists cs. cbn. rewrite Hv in V1. rewrite Ha in A1. split_and!; [done..|]. intros H; discriminate H.
Qed.

Definition before_end (i : dash_input) : bool := match i with Finalize => false | _ => true end.
Definition resets (i : dash_input) : bool := match i with Reconnect => true | _ => false end.

Lemma step_moves s i : tracks_ok s = true -> sps_readable i = true -> before_end i = true ->
  exists s' es, step s i = Ok (s', es) /\ moves (resets i) s (video_taken s i) (audio_taken s i) s' es.
Proof.
  intros Ho Hr He. destruct i as [m|m|m| |]; cbn [step video_taken audio_taken resets]; [..|done].
  - by apply on_video_moves.
  - by apply on_audio_moves.
  - eexists _, _. split; [done|by apply moves_still; auto].
  - by apply reconnect_moves.
Qed.

Lemma run_moves inputs : forall s, tracks_ok s = true -> forallb sps_readable inputs = true -> forallb before_end inputs = true ->
  exists s' es, run s inputs = Ok (s', es) /\
    moves (existsb resets inputs) s (taken video_taken s inputs) (taken audio_taken s inputs) s' es.
Proof.
  induction inputs as [|i inputs IH]; intros s Ho Hr He; cbn [run taken existsb].
  - eexists _, _. split; [done|by apply moves_still; auto].
  - cbn in Hr, He. apply andb_true_iff in Hr as [Hr1 Hr]. apply andb_true_iff in He as [He1 He].
    destruct (step_moves s i Ho Hr1 He1) as (s1 & e1 & H1 & M1). rewrite H1. cbn [rbind].
    destruct (IH s1 (mv_ok _ _ _ _ _ _ M1) Hr He) as (s2 & e2 & -> & M2). cbn [rbind].
    eexists _, _. split; [done|by eapply moves_trans].
Qed.
Lemma dash_run_app inputs1 : forall s inputs2, run s (inputs1 ++ inputs2) =
  ('(s, es) <- run s inputs1 ;; '(s, more) <- run s inputs2 ;; Ok (s, es ++ more)).
Proof.
  induction inputs1 as [|i inputs1 IH]; intros s inputs2; cbn [app run].
  - cbn [rbind]. by destruct (run s inputs2) as [ [s2 e2]| | |].
  - destruct (step s i) as [ [s1 e1]| | |]; cbn [rbind]; [|done..]. rewrite IH.
    destruct (run s1 inputs1) as [ [s2 e2]| | |]; cbn [rbind]; [|done..].
    destruct (run s2 inputs2) as [ [s3 e3]| | |]; cbn [rbind]; [|done..]. by rewrite app_assoc.
Qed.

(** A publisher's whole stream, to its end. *)
Lemma whole_stream config inputs : forallb sps_readable inputs = true -> forallb before_end inputs = true ->
  exists s es cs, run (make_segmenter config) (inputs ++ [Finalize]) = Ok (s, es) /\
    emits config (0, initial_sequence config) cs es (numbers s) /\
    video_units cs = taken video_taken (make_segmenter config) inputs /\
    audio_units cs = taken audio_taken (make_segmenter config) inputs /\
    (existsb resets inputs = false ->
       Forall (fun c => starts_at c.1 (video_track_ (open_ s)) /\ starts_at c.2 (audio_track_ (open_ s))) cs).
Proof.
  intros Hr He. destruct (run_moves inputs (make_segmenter config) eq_refl Hr He) as (s1 & e1 & H1 & M1).
  rewrite dash_run_app, H1. cbn [rbind run step]. unfold finalize. rewrite (mv_final _ _ _ _ _ _ M1).
  change (finalized_ (make_segmenter config)) with false. cbv iota.
  assert (Mf : moves (existsb resets inputs) (make_segmenter config) (taken video_taken (make_segmenter config) inputs)
                 (taken audio_taken (make_segmenter config) inputs) s1 e1) by done.
  destruct (flush_moves (set_finalized s1) (mv_ok _ _ _ _ _ _ M1)) as (s2 & e2 & -> & M2 & Hv & Ha & _). cbn [rbind].
  destruct M1 as [C1 _ _ (c1 & E1 & V1 & A1 & P1)]. destruct M2 as [_ _ _ (c2 & E2 & V2 & A2 & P2)].
  rewrite !app_nil_r in *. cbn in V1, A1, V2, A2. rewrite Hv, app_nil_r in V2. rewrite Ha, app_nil_r in A2.
  exists s2, (e1 ++ e2), (c1 ++ c2). split_and!; [done| | | |].
  - eapply cuts_app; [exact E1|]. change (numbers (set_finalized s1)) with (numbers s1) in E2. cbn in E2. by rewrite C1 in E2.
  - rewrite video_units_app, <- V2. by rewrite V1.
  - rewrite audio_units_app, <- A2. by rewrite A1.
  - intros Hx. destruct (P1 Hx) as (_ & _ & Q1). destruct (P2 eq_refl) as (S2 & T2 & Q2).
    apply list.Forall_app. split; [|done]. eapply list.Forall_impl; [exact Q1|].
    intros c [Hc1 Hc2]. split; by eapply starts_at_stays.
Qed.

(** * The segments *)

Definition segments_of (es : list dash_event) : list Segment :=
  omap (fun e => match e with OnSegment seg => Some seg | OnInit _ => None end) es.

(** A segment is named after its number, and a player reads the fragment that was cut. *)
Definition carries (config : SegmenterConfig) (seg : Segment) (c : cut) : Prop :=
  seg_name seg = (segment_name_prefix config +:+ to_string (seg_number seg) +:+ segment_name_suffix config)%string /\
  (zlen (seg_data seg) < 2 ^ 31 ->
   exists sequence, read_fragment (seg_data seg) = Some (sequence, tracks_of c.1 c.2)).

Lemma emits_segments config p cs es q : emits config p cs es q ->
  map seg_number (segments_of es) = seqZ p.2 (zlen (segments_of es)) /\
  Forall2 (carries config) (segments_of es) (List.filter publishable cs).
Proof.
  induction 1 as [p|p cs i es q _ IH|p c cs es q Hp _ IH|m n c cs seg es q Hp Hc Hn Hname Hdata _ IH]; [by split|done| |].
  - cbn [List.filter]. by rewrite Hp.
  - cbn [List.filter]. rewrite Hp. destruct IH as [IH1 IH2].
    change (segments_of (OnSegment seg :: es)) with (seg :: segments_of es). split.
    + cbn [map]. rewrite IH1, Hn. cbn [snd]. rewrite zlen_cons.
      rewrite (seqZ_cons n) by zlia. by replace (Z.pred (1 + zlen (segments_of es))) with (zlen (segments_of es)) by lia.
    + constructor; [|done]. split; [by rewrite Hn|]. rewrite Hdata. intros Hz. exists (u32 (m + 1)).
      unfold cut_ok in Hc. apply andb_true_iff in Hc as [Hc _]. apply andb_true_iff in Hc as [Hc1 Hc2].
      apply (read_fragment_boxes [styp_box]); try done. unfold u32. by rewrite Zmod_mod.
Qed.

(** C40. Whatever a publisher sends, the DASH segmenter gets through it (unless a sequence
    header overflows the SPS parser), and once it is finalized every access unit it has
    accepted is in exactly one cut, in order, with its data, composition offset and
    keyframe flag.  The segments it has published are the cuts an mdat can hold, numbered
    from the first number on and named after their numbers; a player reads out of each
    segment of less than 2 GiB the samples of its cut, track by track. *)
Theorem dash_stream_complete config inputs :
  forallb sps_readable inputs = true -> forallb before_end inputs = true ->
  exists s es cuts, run (make_segmenter config) (inputs ++ [Finalize]) = Ok (s, es) /\
    video_units cuts = taken video_taken (make_segmenter config) inputs /\
    audio_units cuts = taken audio_taken (make_segmenter config) inputs /\
    map seg_number (segments_of es) = seqZ (initial_sequence config) (zlen (segments_of es)) /\
    Forall2 (carries config) (segments_of es) (List.filter publishable cuts).
Proof.
  intros Hr He. destruct (whole_stream config inputs Hr He) as (s & es & cs & Hrun & Hem & Hv & Ha & _).
  apply emits_segments in Hem as [H1 H2]. by exists s, es, cs.
Qed.

(** C21. All the segments of a publisher start at the same decode time: a track's decode time
    is set with its first sample and only reset on a reconnect, so the times a player
    reads out of the second and later segments (and of what it downloads when it joins
    or seeks) are those of the first. *)
Theorem decode_times_frozen config inputs s es :
  forallb sps_readable inputs = true -> forallb before_end inputs = true -> existsb resets inputs = false ->
  run (make_segmenter config) (inputs ++ [Finalize]) = Ok (s, es) ->
  exists video audio, forall seg, seg ∈ segments_of es -> zlen (seg_data seg) < 2 ^ 31 ->
    exists sequence tracks, read_fragment (seg_data seg) = Some (sequence, tracks) /\
      Forall (fun t => base_decode_time t.2 = if t.1 =? kVideoTrackId then video else audio) tracks.
Proof.
  intros Hr He Hx Hrun. destruct (whole_stream config inputs Hr He) as (s' & es' & cs & Hrun' & Hem & _ & _ & Hst).
  rewrite Hrun in Hrun'. injection Hrun' as <- <-. specialize (Hst Hx).
  exists (base_decode_time_90k (video_track_ (open_ s))), (base_decode_time_90k (audio_track_ (open_ s))).
  intros seg Hin Hz. apply emits_segments in Hem as [_ H2].
  apply list_elem_of_lookup in Hin as (i & Hi). destruct (Forall2_lookup_l _ _ _ _ _ H2 Hi) as (c & Hc & _ & Hread).
  destruct (Hread Hz) as (sequence & Hs). exists sequence, (tracks_of c.1 c.2). split; [done|].
  assert (Hcin : c ∈ cs) by (apply list_elem_of_lookup_2 in Hc; apply list_elem_of_In, filter_In in Hc as [Hc _]; by apply list_elem_of_In).
  rewrite list.Forall_forall in Hst. destruct (Hst c Hcin) as [S1 S2].
  assert (Hone : forall f t, starts_at f t -> no_samples f = false -> base_decode_time f = base_decode_time_90k t)
    by (intros f t [Hf|Hf] Hn; [congruence|unfold settled in Hf; destruct (base_set t); congruence]).
  unfold tracks_of. destruct (no_samples c.1) eqn:N1, (no_samples c.2) eqn:N2; repeat constructor; cbn; eauto.
Qed.

(** * A stream *)

Definition avc_payload (kind packet_type : Z) (data : list byte) : list byte :=
  [z2b (kind * 16 + 7); z2b packet_type; x00; x00; x00] ++ data.
Definition avc_record : list byte :=
  [x01; x42; x00; x1e; xff; xe1; x00; x07; x67; x42; x00; x1e; xdc; x96; x40; x01; x00; x02; x68; xee].
Definition video_message (kind packet_type ts : Z) (data : list byte) : dash_input :=
  VideoMessage (mkRtmpMessage 6 1 9 ts (avc_payload kind packet_type data)).
Definition audio_message (packet_type ts : Z) (data : list byte) : dash_input :=
  AudioMessage (mkRtmpMessage 4 1 8 ts (xaf :: z2b packet_type :: data)).
(** Three GOPs of two frames with 44.1 kHz audio, every frame 23 ms long. *)
Definition sample_stream : list dash_input :=
  [video_message 1 0 0 avc_record; audio_message 0 0 [x12; x10];
   video_message 1 1 0 [x00; x00; x00; x01; x65]; audio_message 1 10 [x01]; audio_message 1 33 [x02];
   video_message 2 1 40 [x00; x00; x00; x01; x41];
   video_message 1 1 4000 [x00; x00; x00; x01; x65]; audio_message 1 4010 [x03];
   video_message 2 1 4040 [x00; x00; x00; x01; x41]; video_message 1 1 8000 [x00; x00; x00; x01; x65]].
Definition sample_run : list dash_event :=
  match run (make_segmenter default_segmenter_config) (sample_stream ++ [Finalize]) with Ok (_, es) => es | _ => [] end.

Lemma dash_stream_complete_witness :
  map seg_name (segments_of sample_run) = ["chunk-0.m4s"; "chunk-1.m4s"; "chunk-2.m4s"]%string /\
  exists s es cuts, run (make_segmenter default_segmenter_config) (sample_stream ++ [Finalize]) = Ok (s, es) /\
    video_units cuts = taken video_taken (make_segmenter default_segmenter_config) sample_stream /\
    length (video_units cuts) = 5%nat /\ length (audio_units cuts) = 3%nat.
Proof.
  split; [vm_compute; reflexivity|].
  destruct (dash_stream_complete default_segmenter_config sample_stream) as (s & es & cuts & H & Hv & Ha & _);
    [vm_compute; reflexivity..|].
  exists s, es, cuts. rewrite Hv, Ha. repeat split; [exact H|vm_compute; reflexivity..].
Defined.

(** The segments start at 0, 4 and 8 seconds, and all say 0. *)
Lemma decode_times_frozen_witness :
  map (fun seg => match read_fragment (seg_data seg) with
                  | Some (_, tracks) => map (fun t => base_decode_time t.2) tracks | None => [] end)
    (segments_of sample_run) = [[0; 900]; [0; 900]; [0]] /\
  exists video audio, forall seg, seg ∈ segments_of sample_run -> zlen (seg_data seg) < 2 ^ 31 ->
    exists sequence tracks, read_fragment (seg_data seg) = Some (sequence, tracks) /\
      Forall (fun t => base_decode_time t.2 = if t.1 =? kVideoTrackId then video else audio) tracks.
Proof.
  split; [vm_compute; reflexivity|]. unfold sample_run.
  destruct (run (make_segmenter default_segmenter_config) (sample_stream ++ [Finalize])) as [ [s es]| | |] eqn:E;
    [|by vm_compute in E..].
  apply (decode_times_frozen default_segmenter_config sample_stream s es); [vm_compute; reflexivity..|exact E].
Defined.

(** The audio is timed in 90 kHz like the video, in a track whose time scale is its sampling
    rate: a frame of 23 ms lasts 47 ms at 44.1 kHz. *)
Lemma audio_clock_mismatch :
  match sample_run with
  | [OnInit _; OnInit init; OnSegment seg; _; _] =>
      option_map (map timescale) (read_init (init_data init)) = Some [90000; 44100] /\
      option_map (fun r => map (fun t => map sample_duration (samples t.2)) r.2) (read_fragment (seg_data seg)) =
        Some [[3600; 3600]; [2070; 2070]]
  | _ => False
  end.
Proof. vm_compute. done. Qed.
