(* ===== verification/DashStore.v ===== *)
(** dash/segment_store.cpp and dash/stream_sink.hpp: the segments of one representation, as
    many as the bounds allow, and the pipeline that fills them.

    The mutexes make each operation atomic.  [by_name_] is a map; [emplace] keeps an entry
    that is there.  Bytes are counted in 64 bits, segments without a bound. *)

From S2P Require Import Prelude Bytes Text Chunk Fmp4 DashSegmenter.

(** * segment_store.hpp *)

Record SegmentStoreConfig := mkSegmentStoreConfig {
  live_window_segments : Z;
  retention_grace_segments : Z;
  max_total_bytes : Z;
  target_duration_seconds : Z
}.
Definition default_store_config : SegmentStoreConfig := mkSegmentStoreConfig 6 4 (256 * 1024 * 1024) 4.

Record SegmentStoreStats := mkSegmentStoreStats {
  segments_added : Z;
  segments_evicted : Z;
  stat_bytes_held : Z;
  segment_hits : Z;
  segment_misses : Z
}.

Record SegmentStore := mkSegmentStore {
  store_config : SegmentStoreConfig;
  segments_ : list Segment;
  by_name_ : gmap string Segment;
  bytes_held_ : Z;
  ended_ : bool;
  store_stats : SegmentStoreStats;
  init_segment_ : option InitSegment
}.
Definition make_store (config : SegmentStoreConfig) : SegmentStore :=
  mkSegmentStore config [] ∅ 0 false (mkSegmentStoreStats 0 0 0 0 0) None.

Definition size_bytes (s : Segment) : Z := zlen (seg_data s).

Definition set_held (st : SegmentStore) (segs : list Segment) (names : gmap string Segment) (bytes : Z) : SegmentStore :=
  mkSegmentStore (store_config st) segs names bytes (ended_ st) (store_stats st) (init_segment_ st).
Definition set_ended (st : SegmentStore) (b : bool) : SegmentStore :=
  mkSegmentStore (store_config st) (segments_ st) (by_name_ st) (bytes_held_ st) b (store_stats st) (init_segment_ st).
Definition set_store_stats (st : SegmentStore) (t : SegmentStoreStats) : SegmentStore :=
  mkSegmentStore (store_config st) (segments_ st) (by_name_ st) (bytes_held_ st) (ended_ st) t (init_segment_ st).

Definition count_lookup (st : SegmentStore) (hit : bool) : SegmentStore :=
  let t := store_stats st in
  set_store_stats st (mkSegmentStoreStats (segments_added t) (segments_evicted t) (stat_bytes_held t)
    (segment_hits t + if hit then 1 else 0) (segment_misses t + if hit then 0 else 1)).

Definition set_init_segment (st : SegmentStore) (init : InitSegment) : SegmentStore :=
  mkSegmentStore (store_config st) (segments_ st) (by_name_ st) (bytes_held_ st) (ended_ st) (store_stats st) (Some init).
Definition current_init (st : SegmentStore) : option InitSegment := init_segment_ st.

(** [drop_front]; the callers have seen that there is a front. *)
Definition drop_front (st : SegmentStore) (front : Segment) (rest : list Segment) : SegmentStore :=
  let st := set_held st rest (delete (seg_name front) (by_name_ st))
              (bytes_held_ st - Z.min (bytes_held_ st) (size_bytes front)) in
  let t := store_stats st in
  set_store_stats st (mkSegmentStoreStats (segments_added t) (segments_evicted t + 1) (stat_bytes_held t)
    (segment_hits t) (segment_misses t)).

(** The loop over the number of segments, and the one over their bytes, which leaves one. *)
Fixpoint evict_count (st : SegmentStore) (segs : list Segment) : SegmentStore :=
  let max_retained := live_window_segments (store_config st) + retention_grace_segments (store_config st) in
  match segs with
  | front :: rest => if max_retained <? zlen segs then evict_count (drop_front st front rest) rest else st
  | [] => st
  end.
Fixpoint evict_bytes (st : SegmentStore) (segs : list Segment) : SegmentStore :=
  match segs with
  | front :: rest =>
      if (max_total_bytes (store_config st) <? bytes_held_ st) && (1 <? zlen segs)
      then evict_bytes (drop_front st front rest) rest else st
  | [] => st
  end.
Definition evict_locked (st : SegmentStore) : SegmentStore :=
  let st := evict_count st (segments_ st) in
  evict_bytes st (segments_ st).

(** [by_name_.emplace]. *)
Definition emplace (names : gmap string Segment) (s : Segment) : gmap string Segment :=
  match names !! seg_name s with Some _ => names | None => <[seg_name s := s]> names end.

Definition count_added (st : SegmentStore) : SegmentStore :=
  let t := store_stats st in
  set_store_stats st (mkSegmentStoreStats (segments_added t + 1) (segments_evicted t) (stat_bytes_held t)
    (segment_hits t) (segment_misses t)).
Definition record_bytes (st : SegmentStore) : SegmentStore :=
  let t := store_stats st in
  set_store_stats st (mkSegmentStoreStats (segments_added t) (segments_evicted t) (bytes_held_ st)
    (segment_hits t) (segment_misses t)).

Definition add_segment (st : SegmentStore) (s : Segment) : SegmentStore :=
  let st := set_held st (segments_ st ++ [s]) (emplace (by_name_ st) s) (u64 (bytes_held_ st + size_bytes s)) in
  record_bytes (evict_locked (count_added st)).

Definition find_segment (st : SegmentStore) (name : string) : SegmentStore * option Segment :=
  match by_name_ st !! name with
  | None => (count_lookup st false, None)
  | Some s => (count_lookup st true, Some s)
  end.

(** From the back. *)
Definition find_segment_by_number (st : SegmentStore) (number : Z) : SegmentStore * option Segment :=
  match List.find (fun s => seg_number s =? number) (rev (segments_ st)) with
  | Some s => (count_lookup st true, Some s)
  | None => (count_lookup st false, None)
  end.

Definition start_number (st : SegmentStore) : Z :=
  match segments_ st with [] => 0 | front :: _ => seg_number front end.
Definition next_number (st : SegmentStore) : Z :=
  match list.last (segments_ st) with None => 0 | Some back => seg_number back + 1 end.
Definition mark_ended (st : SegmentStore) : SegmentStore := set_ended st true.
Definition store_clear (st : SegmentStore) : SegmentStore :=
  let st := set_ended (set_held st [] ∅ 0) false in record_bytes st.
Definition segment_count (st : SegmentStore) : Z := zlen (segments_ st).

(** * stream_sink.hpp *)

Record StreamSink := mkStreamSink { sink_store : SegmentStore; segmenter_ : Segmenter; sink_finalized_ : bool }.

Definition make_sink (st : SegmentStore) (config : SegmenterConfig) : StreamSink :=
  mkStreamSink (store_clear st) (make_segmenter config) false.

(** The callbacks the constructor sets. *)
Definition handle_event (st : SegmentStore) (e : dash_event) : SegmentStore :=
  match e with OnSegment s => add_segment st s | OnInit i => set_init_segment st i end.
Definition handle_events (st : SegmentStore) (es : list dash_event) : SegmentStore := fold_left handle_event es st.

(** Every handler passes its message on until the sink is finalized. *)
Definition sink_feed (k : StreamSink) (i : dash_input) : Res StreamSink :=
  if sink_finalized_ k then Ok k else
  '(s, es) <- step (segmenter_ k) i ;;
  Ok (mkStreamSink (handle_events (sink_store k) es) s false).
Definition sink_finalize (k : StreamSink) : Res StreamSink :=
  if sink_finalized_ k then Ok k else
  '(s, es) <- finalize (segmenter_ k) ;;
  Ok (mkStreamSink (mark_ended (handle_events (sink_store k) es)) s true).
Fixpoint sink_run (k : StreamSink) (inputs : list dash_input) : Res StreamSink :=
  match inputs with
  | [] => sink_finalize k
  | i :: inputs => k <- sink_feed k i ;; sink_run k inputs
  end.

(** * What the store holds *)

(** The latest of the segments that were added since the store was cleared. *)
Record holds (st : SegmentStore) (added : list Segment) : Prop := {
  hd_suffix : exists evicted, added = evicted ++ segments_ st;
  hd_bytes : bytes_held_ st = zlen (concat (map seg_data (segments_ st)));
  hd_names : forall name s, by_name_ st !! name = Some s <-> s ∈ segments_ st /\ seg_name s = name
}.

(** The bounds hold after every addition: on the number of segments, and on their bytes
    unless a single one exceeds it. *)
Definition bounded (st : SegmentStore) : Prop :=
  zlen (segments_ st) <= Z.max 0 (live_window_segments (store_config st) + retention_grace_segments (store_config st)) /\
  (bytes_held_ st <= max_total_bytes (store_config st) \/ zlen (segments_ st) <= 1).

Lemma zlen_concat_cons (s : Segment) segs :
  zlen (concat (map seg_data (s :: segs))) = size_bytes s + zlen (concat (map seg_data segs)).
Proof. cbn [map concat]. by rewrite zlen_app. Qed.

Lemma drop_front_holds st front rest added : NoDup (map seg_name added) ->
  segments_ st = front :: rest -> holds st added -> holds (drop_front st front rest) added.
Proof.
  intros Hn Hs [ (ev & He) Hb Hm]. rewrite Hs in *. split.
  - exists (ev ++ [front]). cbn. by rewrite <- app_assoc.
  - cbn [bytes_held_ segments_ drop_front set_store_stats set_held]. rewrite Hb, zlen_concat_cons.
    pose proof (zlen_nonneg (concat (map seg_data rest))). unfold size_bytes. zlia.
  - intros name s. cbn. rewrite lookup_delete_Some, Hm, elem_of_cons.
    rewrite He, map_app, list.NoDup_app in Hn. destruct Hn as (_ & _ & Hn). cbn in Hn.
    apply list.NoDup_cons in Hn as [Hf Hn]. split.
    + intros [Hne [ [->|Hin] Hnm] ]; [congruence|done].
    + intros [Hin Hnm]. split; [|auto]. intros Heq. apply Hf. rewrite Heq, <- Hnm. by apply list_elem_of_fmap_2.
Qed.

Section evict.
Context (added : list Segment) (Hn : NoDup (map seg_name added)).

Lemma evict_count_holds : forall segs st, segs = segments_ st -> holds st added ->
  holds (evict_count st segs) added /\ store_config (evict_count st segs) = store_config st /\
  zlen (segments_ (evict_count st segs)) <= Z.max 0 (live_window_segments (store_config st) + retention_grace_segments (store_config st)) /\
  (length (segments_ (evict_count st segs)) <= length segs)%nat.
Proof.
  induction segs as [|front rest IH]; intros st Hs H; cbn [evict_count].
  - rewrite <- Hs. split_and!; [done|done|change (zlen (@nil Segment)) with 0; lia|done].
  - destruct (Z.ltb_spec (live_window_segments (store_config st) + retention_grace_segments (store_config st)) (zlen (front :: rest))) as [Hl|Hl].
    + destruct (IH (drop_front st front rest) eq_refl (drop_front_holds _ _ _ _ Hn (eq_sym Hs) H)) as (I1 & I2 & I3 & I4).
      split_and!; [done|by rewrite I2|done|cbn; lia].
    + rewrite <- Hs. split_and!; [done|done|lia|done].
Qed.
Lemma evict_bytes_holds : forall segs st, segs = segments_ st -> holds st added ->
  holds (evict_bytes st segs) added /\ store_config (evict_bytes st segs) = store_config st /\
  (bytes_held_ (evict_bytes st segs) <= max_total_bytes (store_config st) \/ zlen (segments_ (evict_bytes st segs)) <= 1) /\
  (length (segments_ (evict_bytes st segs)) <= length segs)%nat.
Proof.
  induction segs as [|front rest IH]; intros st Hs H; cbn [evict_bytes].
  - rewrite <- Hs. split_and!; [done|done|right; done|done].
  - destruct (Z.ltb_spec (max_total_bytes (store_config st)) (bytes_held_ st)) as [Hb|Hb]; cbn [andb].
    + destruct (Z.ltb_spec 1 (zlen (front :: rest))) as [Hl|Hl].
      * destruct (IH (drop_front st front rest) eq_refl (drop_front_holds _ _ _ _ Hn (eq_sym Hs) H)) as (I1 & I2 & I3 & I4).
        split_and!; [done|by rewrite I2|done|cbn; lia].
      * rewrite <- Hs. split_and!; [done|done|by right|done].
    + rewrite <- Hs. split_and!; [done|done|by left|done].
Qed.
Lemma evict_locked_holds st : holds st added -> holds (evict_locked st) added /\ bounded (evict_locked st) /\
  store_config (evict_locked st) = store_config st.
Proof.
  intros H. unfold evict_locked. destruct (evict_count_holds _ st eq_refl H) as (H1 & C1 & B1 & _).
  destruct (evict_bytes_holds _ (evict_count st (segments_ st)) eq_refl H1) as (H2 & C2 & B2 & L2).
  split; [done|]. unfold bounded. rewrite C2, C1. split; [|done]. split; [unfold zlen in *; lia|by rewrite <- C1].
Qed.
End evict.

Lemma emplace_fresh names s : names !! seg_name s = None -> emplace names s = <[seg_name s := s]> names.
Proof. intros H. unfold emplace. by rewrite H. Qed.

(** Adding a segment with a name of its own keeps everything right, as long as the bytes
    held can be counted. *)
Lemma add_segment_holds st added s : holds st added -> NoDup (map seg_name (added ++ [s])) ->
  bytes_held_ st + size_bytes s < 2 ^ 64 ->
  holds (add_segment st s) (added ++ [s]) /\ bounded (add_segment st s) /\ store_config (add_segment st s) = store_config st.
Proof.
  intros [ (ev & He) Hb Hm] Hn Hsz. unfold add_segment.
  set (st1 := count_added _).
  assert (Hfresh : by_name_ st !! seg_name s = None).
  { destruct (by_name_ st !! seg_name s) as [s'|] eqn:E; [|done]. apply Hm in E as [Hin Hnm].
    rewrite map_app, list.NoDup_app in Hn. destruct Hn as (_ & Hd & _). exfalso. apply (Hd (seg_name s)).
    - rewrite <- Hnm, He, map_app. apply elem_of_app. right. by apply list_elem_of_fmap_2.
    - cbn. set_solver. }
  assert (H1 : holds st1 (added ++ [s])).
  { split.
    - exists ev. cbn. by rewrite He, app_assoc.
    - cbn. rewrite map_app, concat_app, zlen_app. cbn. rewrite app_nil_r, Hb. unfold u64. rewrite Z.mod_small; [done|].
      rewrite Hb in Hsz. unfold size_bytes in *. zlia.
    - intros name s'. cbn. rewrite emplace_fresh by done. rewrite lookup_insert_Some, Hm, elem_of_app, list_elem_of_singleton.
      split; [intros [ [? ->]|[Hne [? ?] ] ]; auto|]. intros [ [Hin| ->] Hnm]; [|by left].
      right. split; [|done]. intros Heq. assert (E : by_name_ st !! name = Some s') by (by apply Hm). congruence. }
  destruct (evict_locked_holds _ Hn st1 H1) as ([G1 G2 G3] & G4 & G5). split_and!; [|done|done].
  by split.
Qed.
