(* ===== verification/DashServes.v ===== *)
(** What the DASH pipeline of dash/stream_sink.hpp serves: the segments of dash/segmenter.cpp
    out of the store of dash/segment_store.cpp. *)

From S2P Require Import Prelude Bytes Text Chunk Fmp4 Fmp4ReadBack DashSegmenter DashFaithful DashStore.

(** * From the segmenter into the store *)

(** Sizes the byte counter has room for, whatever is held. *)
Definition countable (config : SegmentStoreConfig) (segs : list Segment) : Prop :=
  max_total_bytes config < 2 ^ 63 /\ Forall (fun s => size_bytes s < 2 ^ 63) segs.

Lemma held_below st added : holds st added -> bounded st -> countable (store_config st) added -> bytes_held_ st < 2 ^ 63.
Proof.
  intros [ (ev & He) Hb _] [_ [Hm|Hm] ] [Hc Hs]; [lia|].
  rewrite He in Hs. apply list.Forall_app in Hs as [_ Hs]. rewrite Hb.
  destruct (segments_ st) as [|s [|s2 segs] ]; [done| |rewrite !zlen_cons in Hm; zlia].
  apply list.Forall_cons in Hs as [Hs _]. cbn. by rewrite app_nil_r.
Qed.

Lemma handle_events_holds es : forall st added, holds st added -> bounded st ->
  NoDup (map seg_name (added ++ segments_of es)) -> countable (store_config st) (added ++ segments_of es) ->
  holds (handle_events st es) (added ++ segments_of es) /\ bounded (handle_events st es) /\
  store_config (handle_events st es) = store_config st.
Proof.
  induction es as [|[i|s] es IH]; intros st added H Hb Hn Hc.
  - change (segments_of []) with (@nil Segment) in *. by rewrite app_nil_r.
  - change (segments_of (OnInit i :: es)) with (segments_of es) in *.
    apply (IH (set_init_segment st i)); [|done..]. destruct H as [H1 H2 H3]. by split.
  - change (segments_of (OnSegment s :: es)) with (s :: segments_of es) in *.
    change (added ++ s :: segments_of es) with (added ++ [s] ++ segments_of es) in *. rewrite app_assoc in *.
    pose proof Hn as Hn1. rewrite map_app in Hn1. apply list.NoDup_app in Hn1 as [Hn1 _].
    assert (Hc1 : countable (store_config st) (added ++ [s])).
    { destruct Hc as [Hc1 Hc2]. apply list.Forall_app in Hc2 as [Hc2 _]. done. }
    assert (Hc0 : countable (store_config st) added) by (destruct Hc1 as [C1 C2]; apply list.Forall_app in C2 as [C2 _]; done).
    pose proof (held_below _ _ H Hb Hc0) as Hlow.
    assert (Hs : size_bytes s < 2 ^ 63) by (destruct Hc1 as [_ C2]; apply list.Forall_app in C2 as [_ C2]; by apply list.Forall_cons in C2 as [C2 _]).
    destruct (add_segment_holds st added s H Hn1 ltac:(lia)) as (H1 & B1 & C1).
    destruct (IH _ _ H1 B1 Hn) as (H2 & B2 & C2); [by rewrite C1|]. split_and!; [done|done|].
    etransitivity; [exact C2|done].
Qed.

Lemma handle_events_app st es1 es2 : handle_events st (es1 ++ es2) = handle_events (handle_events st es1) es2.
Proof. apply fold_left_app. Qed.

(** Feeding the sink is running the segmenter and handing its events to the store. *)
Lemma sink_run_events inputs : forall st s s' es, forallb before_end inputs = true -> 
  run s (inputs ++ [Finalize]) = Ok (s', es) ->
  sink_run (mkStreamSink st s false) inputs = Ok (mkStreamSink (mark_ended (handle_events st es)) s' true).
Proof.
  induction inputs as [|i inputs IH]; intros st s s' es He H; cbn [app run sink_run] in *.
  - unfold sink_finalize. cbn [sink_finalized_ segmenter_ sink_store]. cbn [step] in H.
    destruct (finalize s) as [ [s1 e1]| | |]; cbn [rbind] in *; try done. injection H as <- <-. by rewrite app_nil_r.
  - cbn in He. apply andb_true_iff in He as [_ He]. unfold sink_feed. cbn [sink_finalized_ segmenter_ sink_store].
    destruct (step s i) as [ [s1 e1]| | |]; cbn [rbind] in *; try done.
    destruct (run s1 (inputs ++ [Finalize])) as [ [s2 e2]| | |] eqn:E; cbn [rbind] in H; try done. injection H as <- <-.
    rewrite (IH _ _ _ _ He E). by rewrite handle_events_app.
Qed.

(** * Names and numbers *)

Lemma segment_names config segs cuts n0 : 0 <= n0 ->
  map seg_number segs = seqZ n0 (zlen segs) -> Forall2 (carries config) segs cuts -> NoDup (map seg_name segs).
Proof.
  intros Hn0 Hnum Hc.
  assert (Hnames : map seg_name segs =
    map (fun n => segment_name_prefix config +:+ to_string n +:+ segment_name_suffix config)%string (map seg_number segs)).
  { rewrite map_map. clear Hnum. induction Hc as [|seg c segs cs [Hname _] _ IH]; [done|]. cbn. by rewrite IH, <- Hname. }
  rewrite Hnames, Hnum. apply NoDup_fmap_2_strong; [|apply NoDup_seqZ].
  intros a b Ha Hb Heq. apply elem_of_seqZ in Ha, Hb. apply (f_equal str) in Heq. rewrite !str_app in Heq.
  apply app_inv_head, app_inv_tail, list_ascii_inj in Heq. apply to_string_inj; [lia|lia|done].
Qed.

Lemma find_back segs n0 seg : map seg_number segs = seqZ n0 (zlen segs) -> seg ∈ segs ->
  List.find (fun s => seg_number s =? seg_number seg) (rev segs) = Some seg.
Proof.
  intros Hnum Hin. destruct (List.find _ _) as [s'|] eqn:E.
  - apply find_some in E as [Hs' Heq]. apply Z.eqb_eq in Heq. apply in_rev in Hs'. f_equal.
    apply list_elem_of_In in Hs'. apply list_elem_of_lookup in Hin as (i & Hi), Hs' as (j & Hj).
    assert (Hi' : map seg_number segs !! i = Some (seg_number seg)) by (by rewrite list_lookup_fmap, Hi).
    assert (Hj' : map seg_number segs !! j = Some (seg_number s')) by (by rewrite list_lookup_fmap, Hj).
    rewrite Heq in Hj'. rewrite Hnum in Hi', Hj'.
    assert (i = j) by (eapply NoDup_lookup; [apply NoDup_seqZ|exact Hi'|exact Hj']). congruence.
  - exfalso. apply list_elem_of_In in Hin. rewrite in_rev in Hin.
    pose proof (find_none _ _ E _ Hin) as H. cbn in H. by rewrite Z.eqb_refl in H.
Qed.

Lemma start_next st a : map seg_number (segments_ st) = seqZ a (zlen (segments_ st)) -> segments_ st <> [] ->
  start_number st = a /\ next_number st = a + zlen (segments_ st).
Proof.
  unfold start_number, next_number. intros Hnum Hne. destruct (segments_ st) as [|s segs] eqn:E; [done|].
  assert (Hh : map seg_number (s :: segs) !! 0%nat = Some (seg_number s)) by done.
  rewrite Hnum, lookup_seqZ in Hh. destruct Hh as [Hh _]. split; [lia|].
  rewrite list.last_lookup. destruct ((s :: segs) !! pred (length (s :: segs))) as [b|] eqn:Hb;
    [|apply lookup_ge_None in Hb; cbn in Hb; lia].
  assert (Hl : map seg_number (s :: segs) !! pred (length (s :: segs)) = Some (seg_number b)) by (by rewrite list_lookup_fmap, Hb).
  rewrite Hnum, lookup_seqZ in Hl. destruct Hl as [-> _]. unfold zlen. cbn. lia.
Qed.

Lemma suffix_numbers evicted segs n0 : map seg_number (evicted ++ segs) = seqZ n0 (zlen (evicted ++ segs)) ->
  map seg_number segs = seqZ (n0 + zlen evicted) (zlen segs).
Proof.
  intros H. rewrite map_app, zlen_app, seqZ_app in H by zlia.
  apply app_inj_1 in H as [_ H]; [done|]. unfold zlen. rewrite length_map, length_seqZ. lia.
Qed.

(** C19. What a DASH player gets: after a publisher's whole stream, whatever was sent, the
    store holds the latest of the segments that were cut, within its bounds, and marks the
    end.  Every segment it holds is found by its name and by its number, every number from
    the first to the next one finds its segment, and what the segment carries is what was
    accepted from the publisher. *)
Theorem dash_sink_serves st config inputs :
  forallb sps_readable inputs = true -> forallb before_end inputs = true -> 0 <= initial_sequence config ->
  (forall s es, run (make_segmenter config) (inputs ++ [Finalize]) = Ok (s, es) -> countable (store_config st) (segments_of es)) ->
  exists k produced cuts, sink_run (make_sink st config) inputs = Ok k /\
    video_units cuts = taken video_taken (make_segmenter config) inputs /\
    audio_units cuts = taken audio_taken (make_segmenter config) inputs /\
    Forall2 (carries config) produced (List.filter publishable cuts) /\
    (exists evicted, produced = evicted ++ segments_ (sink_store k)) /\
    bounded (sink_store k) /\ ended_ (sink_store k) = true /\
    (forall seg, seg ∈ segments_ (sink_store k) ->
       (find_segment (sink_store k) (seg_name seg)).2 = Some seg /\
       (find_segment_by_number (sink_store k) (seg_number seg)).2 = Some seg) /\
    (forall n, start_number (sink_store k) <= n < next_number (sink_store k) ->
       exists seg, (find_segment_by_number (sink_store k) n).2 = Some seg /\ seg_number seg = n).
Proof.
  intros Hr He Hn0 Hcount. destruct (whole_stream config inputs Hr He) as (s & es & cs & Hrun & Hem & Hv & Ha & _).
  apply emits_segments in Hem as [Hnum Hcar]. cbn [snd] in Hnum. specialize (Hcount _ _ Hrun).
  set (st0 := store_clear st).
  assert (H0 : holds st0 []).
  { split; [by exists []|done|]. intros name seg. cbn. rewrite lookup_empty. split; [done|]. intros [Hin _]. by apply not_elem_of_nil in Hin. }
  assert (B0 : bounded st0) by (split; [change (zlen (segments_ st0)) with 0; lia|right; done]).
  destruct (handle_events_holds es st0 [] H0 B0 (segment_names _ _ _ _ Hn0 Hnum Hcar) Hcount) as ([ (ev & Hev) Hb Hm] & B & C).
  rewrite app_nil_l in Hev. set (st' := handle_events st0 es) in *.
  exists (mkStreamSink (mark_ended st') s true), (segments_of es), cs.
  assert (Hnum' : map seg_number (segments_ st') = seqZ (initial_sequence config + zlen ev) (zlen (segments_ st')))
    by (apply suffix_numbers; by rewrite <- Hev).
  assert (Hfind : forall seg, seg ∈ segments_ st' -> (find_segment_by_number (mark_ended st') (seg_number seg)).2 = Some seg).
  { intros seg Hin. unfold find_segment_by_number. change (segments_ (mark_ended st')) with (segments_ st').
    by rewrite (find_back _ _ _ Hnum' Hin). }
  split_and!; try done.
  - by apply sink_run_events.
  - by exists ev.
  - intros seg Hin. split; [|by apply Hfind]. unfold find_segment. change (by_name_ (sink_store _)) with (by_name_ st').
    assert (E : by_name_ st' !! seg_name seg = Some seg) by (by apply Hm). by rewrite E.
  - intros n Hn. change (start_number (sink_store _)) with (start_number st') in Hn.
    change (next_number (sink_store _)) with (next_number st') in Hn.
    destruct (decide (segments_ st' = [])) as [Hnil|Hne]; [unfold start_number, next_number in Hn; rewrite Hnil in Hn; cbn in Hn; lia|].
    destruct (start_next st' _ Hnum' Hne) as [Hs Hx]. rewrite Hs, Hx in Hn.
    assert (Hl : map seg_number (segments_ st') !! Z.to_nat (n - (initial_sequence config + zlen ev)) = Some n)
      by (rewrite Hnum'; apply lookup_seqZ; lia).
    apply list_lookup_fmap_Some in Hl as (seg & -> & Hl). exists seg. split; [|done]. apply Hfind. by eapply list_elem_of_lookup_2.
Qed.

Definition two_segments : SegmentStoreConfig := mkSegmentStoreConfig 1 1 (2 ^ 20) 4.
Lemma dash_sink_serves_witness :
  exists k, sink_run (make_sink (make_store two_segments) default_segmenter_config) sample_stream = Ok k /\
    map seg_name (segments_ (sink_store k)) = ["chunk-1.m4s"; "chunk-2.m4s"]%string /\
    exists seg, (find_segment_by_number (sink_store k) 2).2 = Some seg.
Proof.
  destruct (dash_sink_serves (make_store two_segments) default_segmenter_config sample_stream) as
    (k & produced & cuts & Hk & _ & _ & _ & _ & _ & _ & _ & Hfind); [vm_compute; done..| |].
  - intros s es H. split; [done|]. vm_compute in H. injection H as <- <-. repeat constructor.
  - assert (H : map seg_name (segments_ (sink_store k)) = ["chunk-1.m4s"; "chunk-2.m4s"]%string /\
                start_number (sink_store k) <= 2 < next_number (sink_store k)).
    { clear - Hk. vm_compute in Hk. injection Hk as <-. split; [vm_compute; reflexivity|vm_compute; split; [discriminate|reflexivity] ]. }
    destruct H as [H1 H2]. destruct (Hfind 2 H2) as (seg & Hs & _). exists k. split; [exact Hk|]. split; [exact H1|]. by exists seg.
Defined.

(** segment.hpp says that a segment of an older epoch must not be served with a newer init
    segment.  The store keeps it: after a change of the audio parameters it hands out the
    new init segment and the old segments. *)
Lemma older_epoch_served :
  match sink_run (make_sink (make_store default_store_config) default_segmenter_config)
          (take 6 sample_stream ++ [audio_message 0 60 [x11; x90]]) with
  | Ok k => option_map epoch (current_init (sink_store k)) = Some 3 /\
            map (fun seg => (seg_name seg, seg_init_epoch seg)) (segments_ (sink_store k)) = [("chunk-0.m4s"%string, 2)]
  | _ => False
  end.
Proof. vm_compute. done. Qed.
