(* ===== verification/TcpConnection.v ===== *)
(** network/tcp_connection.cpp and .hpp: the state and the write queue of a TCP connection.

    The members that belong to the event loop (the descriptor, the handlers) are modelled
    with it, in EventLoop.v; so are the calls into it: [enqueue_write] is [async_write] up
    to the call it decides on. *)

From S2P Require Import Prelude.

Module ConnectionState.
Inductive t :=
| Accepted | Handshaking | Connected | Authenticating | Publishing | Playing | Closing | Closed
| Failed.
#[global] Instance t_eq_dec : EqDecision t.
Proof. solve_decision. Defined.
End ConnectionState.

Record TcpConnection := mkTcpConnection {
  connection_id_ : Z;
  generation_ : Z;
  client_ip_ : string;
  state_ : ConnectionState.t;
  write_queue_ : list (list byte);
  front_offset_ : Z;
  queued_bytes_ : Z;
  max_write_queue_bytes_ : Z;
  max_write_queue_packets_ : Z;
  send_in_flight_ : bool;
  partial_send_count_ : Z;
  idle_timeout_operation_id_ : Z
}.

Definition make_connection (connection_id generation : Z) (client_ip : string)
    (max_write_queue_bytes max_write_queue_packets : Z) : TcpConnection :=
  mkTcpConnection connection_id generation client_ip ConnectionState.Accepted [] 0 0
    max_write_queue_bytes max_write_queue_packets false 0 0.

Definition set_state (t : TcpConnection) (s : ConnectionState.t) : TcpConnection :=
  mkTcpConnection (connection_id_ t) (generation_ t) (client_ip_ t) s (write_queue_ t)
    (front_offset_ t) (queued_bytes_ t) (max_write_queue_bytes_ t) (max_write_queue_packets_ t)
    (send_in_flight_ t) (partial_send_count_ t) (idle_timeout_operation_id_ t).
Definition set_idle_timeout_operation_id (t : TcpConnection) (id : Z) : TcpConnection :=
  mkTcpConnection (connection_id_ t) (generation_ t) (client_ip_ t) (state_ t) (write_queue_ t)
    (front_offset_ t) (queued_bytes_ t) (max_write_queue_bytes_ t) (max_write_queue_packets_ t)
    (send_in_flight_ t) (partial_send_count_ t) id.
(** The members the write mutex guards. *)
Definition with_queue (t : TcpConnection) (queue : list (list byte)) (offset bytes : Z)
    (in_flight : bool) (partials : Z) : TcpConnection :=
  mkTcpConnection (connection_id_ t) (generation_ t) (client_ip_ t) (state_ t) queue offset bytes
    (max_write_queue_bytes_ t) (max_write_queue_packets_ t) in_flight partials
    (idle_timeout_operation_id_ t).

Definition is_open (t : TcpConnection) : bool :=
  negb (bool_decide (state_ t = ConnectionState.Closed)).
Definition has_pending_write (t : TcpConnection) : bool :=
  match write_queue_ t with [] => false | _ :: _ => true end.
Definition pending_write_bytes (t : TcpConnection) : Z := queued_bytes_ t.
Definition pending_write_packets (t : TcpConnection) : Z := zlen (write_queue_ t).
Definition pending_write_backlog (t : TcpConnection) : Z * Z :=
  (queued_bytes_ t, zlen (write_queue_ t)).

(** * Writing *)

Inductive WriteOutcome :=
| Ignored
| Overflow
| Queued (should_submit : bool).

Definition is_closing (t : TcpConnection) : bool :=
  bool_decide (state_ t = ConnectionState.Closed) || bool_decide (state_ t = ConnectionState.Closing).

Definition bytes_over (t : TcpConnection) (size : Z) : bool :=
  negb (max_write_queue_bytes_ t =? 0) &&
  (u64 (max_write_queue_bytes_ t - Z.min (queued_bytes_ t) (max_write_queue_bytes_ t)) <? size).
Definition packets_over (t : TcpConnection) : bool :=
  negb (max_write_queue_packets_ t =? 0) && (max_write_queue_packets_ t <=? zlen (write_queue_ t)).

Definition enqueue_write (t : TcpConnection) (buffer : list byte) : TcpConnection * WriteOutcome :=
  if is_closing t then (t, Ignored)
  else if bytes_over t (zlen buffer) || packets_over t then (t, Overflow)
  else
    (with_queue t (write_queue_ t ++ [buffer]) (front_offset_ t)
       (u64 (queued_bytes_ t + zlen buffer)) true (partial_send_count_ t),
     Queued (negb (send_in_flight_ t))).

Definition next_write_buffer (t : TcpConnection) : list byte :=
  match write_queue_ t with [] => [] | front :: _ => front end.
Definition next_write_offset (t : TcpConnection) : Z := front_offset_ t.

Definition pop_write_buffer (t : TcpConnection) : TcpConnection :=
  match write_queue_ t with
  | [] => with_queue t [] 0 (queued_bytes_ t) (send_in_flight_ t) (partial_send_count_ t)
  | front :: rest =>
      let remaining := u64 (zlen front - Z.min (front_offset_ t) (zlen front)) in
      with_queue t rest 0 (u64 (queued_bytes_ t - Z.min (queued_bytes_ t) remaining))
        (send_in_flight_ t) (partial_send_count_ t)
  end.

Definition on_send_completion (t : TcpConnection) (bytes_sent : Z) (success : bool) : TcpConnection :=
  match write_queue_ t with
  | front :: rest =>
      if success then
        let accepted := Z.min bytes_sent (u64 (zlen front - front_offset_ t)) in
        let offset := u64 (front_offset_ t + accepted) in
        let bytes := u64 (queued_bytes_ t - Z.min (queued_bytes_ t) accepted) in
        if zlen front <=? offset then
          with_queue t rest 0 bytes (match rest with [] => false | _ => true end)
            (partial_send_count_ t)
        else with_queue t (front :: rest) offset bytes true (u64 (partial_send_count_ t + 1))
      else with_queue t (front :: rest) 0 (queued_bytes_ t) true (partial_send_count_ t)
  | [] =>
      with_queue t [] (if success then front_offset_ t else 0) (queued_bytes_ t) false
        (partial_send_count_ t)
  end.

(** * The queue as a byte stream *)

(** The bytes accepted from the session and not yet reported sent. *)
Definition unsent (t : TcpConnection) : list byte :=
  drop (Z.to_nat (front_offset_ t)) (concat (write_queue_ t)).

(** What the loop hands to the kernel for this connection. *)
Definition next_view (t : TcpConnection) : list byte :=
  drop (Z.to_nat (front_offset_ t)) (next_write_buffer t).

(** The accounting of the queue is exact, and it is within its limits. *)
Record queue_ok (t : TcpConnection) : Prop := mkQueueOk {
  qo_bytes : queued_bytes_ t = zlen (unsent t);
  qo_offset : match write_queue_ t with
              | [] => front_offset_ t = 0
              | front :: _ => 0 <= front_offset_ t /\
                              (front_offset_ t < zlen front \/ (front = [] /\ front_offset_ t = 0))
              end;
  qo_in_flight : send_in_flight_ t = true <-> write_queue_ t <> [];
  qo_limits : 0 < max_write_queue_bytes_ t < 2 ^ 63 /\ 0 < max_write_queue_packets_ t;
  qo_within : queued_bytes_ t <= max_write_queue_bytes_ t /\
              zlen (write_queue_ t) <= max_write_queue_packets_ t;
  qo_fronts : Forall (fun b => zlen b <= max_write_queue_bytes_ t) (write_queue_ t)
}.

Lemma u64_id z : 0 <= z < 2 ^ 64 -> u64 z = z.
Proof. intros H. unfold u64. by apply Z.mod_small. Qed.

Lemma unsent_front t front rest :
  write_queue_ t = front :: rest -> 0 <= front_offset_ t <= zlen front ->
  unsent t = drop (Z.to_nat (front_offset_ t)) front ++ concat rest.
Proof.
  intros E H. unfold unsent. rewrite E. cbn. apply drop_app_le. unfold zlen in H. lia.
Qed.

Lemma queue_ok_offset t front rest :
  queue_ok t -> write_queue_ t = front :: rest -> 0 <= front_offset_ t <= zlen front.
Proof.
  intros H E. pose proof (qo_offset t H) as Ho. rewrite E in Ho.
  destruct Ho as [Hp [ Hl|[-> H0] ] ]; [lia|]. rewrite H0. done.
Qed.

Lemma next_view_unsent t :
  queue_ok t -> exists rest, unsent t = next_view t ++ rest.
Proof.
  intros H. unfold next_view, next_write_buffer. destruct (write_queue_ t) as [|f r] eqn:E.
  - exists []. unfold unsent. rewrite E. cbn. by rewrite !drop_nil.
  - exists (concat r). apply unsent_front; [done|]. by eapply queue_ok_offset.
Qed.

Lemma next_view_size t : queue_ok t -> zlen (next_view t) <= zlen (next_write_buffer t).
Proof. intros _. unfold next_view, zlen. rewrite length_drop. lia. Qed.

(** A front buffer that is not empty has bytes left to send. *)
Lemma next_view_nonempty t :
  queue_ok t -> next_write_buffer t <> [] -> next_view t <> [] /\ front_offset_ t < zlen (next_write_buffer t).
Proof.
  intros H. unfold next_view, next_write_buffer. destruct (write_queue_ t) as [|f r] eqn:E; [done|].
  intros Hf. pose proof (qo_offset t H) as Ho. rewrite E in Ho.
  destruct Ho as [Hp [Hl|[-> _] ] ]; [|done]. split; [|done].
  intros Hn. apply (f_equal length) in Hn. rewrite length_drop in Hn. cbn in Hn. unfold zlen in Hl. lia.
Qed.

Lemma make_connection_ok c g ip mb mp :
  0 < mb < 2 ^ 63 -> 0 < mp -> queue_ok (make_connection c g ip mb mp).
Proof. intros Hb Hp. split; cbn; try done; unfold zlen; cbn; lia. Qed.

Lemma set_state_queue_ok t s : queue_ok t -> queue_ok (set_state t s).
Proof. intros []. by split. Qed.
Lemma set_idle_queue_ok t i : queue_ok t -> queue_ok (set_idle_timeout_operation_id t i).
Proof. intros []. by split. Qed.

Lemma concat_snoc {A} (l : list (list A)) b : concat (l ++ [b]) = concat l ++ b.
Proof. rewrite concat_app. cbn. by rewrite app_nil_r. Qed.

Lemma offset_within t : queue_ok t -> (Z.to_nat (front_offset_ t) <= length (concat (write_queue_ t)))%nat.
Proof.
  intros H. destruct (write_queue_ t) as [|f r] eqn:E.
  - pose proof (qo_offset t H) as Ho. rewrite E in Ho. rewrite Ho. done.
  - pose proof (queue_ok_offset t f r H E). cbn. rewrite length_app. unfold zlen in *. lia.
Qed.

(** ** Queueing a buffer *)

Lemma enqueue_write_queued t buffer t' submit :
  queue_ok t -> enqueue_write t buffer = (t', Queued submit) ->
  queue_ok t' /\ unsent t' = unsent t ++ buffer /\ submit = negb (send_in_flight_ t) /\
  is_closing t = false /\
  (write_queue_ t = [] -> next_view t' = buffer) /\
  (write_queue_ t <> [] -> next_view t' = next_view t) /\
  t' = with_queue t (write_queue_ t ++ [buffer]) (front_offset_ t) (queued_bytes_ t + zlen buffer) true
         (partial_send_count_ t).
Proof.
  intros H. unfold enqueue_write. destruct (is_closing t); [discriminate|].
  destruct (bytes_over t (zlen buffer) || packets_over t) eqn:Ho; [discriminate|].
  intros [= <- <-]. apply orb_false_iff in Ho as [Hb Hp].
  destruct H as [Hq Hf Hi [Hm Hk] [Hw Hw'] Hfr].
  unfold bytes_over in Hb. rewrite Z.min_l in Hb by lia.
  assert (Hn : (max_write_queue_bytes_ t =? 0) = false) by lia. rewrite Hn in Hb. cbn in Hb.
  assert (Hqn : 0 <= queued_bytes_ t) by (rewrite Hq; apply zlen_nonneg).
  rewrite u64_id in Hb by lia.
  assert (Hs : queued_bytes_ t + zlen buffer <= max_write_queue_bytes_ t) by lia.
  rewrite (u64_id (queued_bytes_ t + _)) by (zpos; lia).
  unfold packets_over in Hp.
  assert (Hn' : (max_write_queue_packets_ t =? 0) = false) by lia. rewrite Hn' in Hp. cbn in Hp.
  assert (E : drop (Z.to_nat (front_offset_ t)) (concat (write_queue_ t ++ [buffer])) = unsent t ++ buffer).
  { rewrite concat_snoc. apply drop_app_le. apply offset_within. by split. }
  split; [|split; [exact E|split; [done|split; [done|split; [|split; [|done] ] ] ] ] ].
  - split; cbn; unfold unsent; cbn.
    + rewrite E, Hq. unfold zlen. rewrite length_app. lia.
    + destruct (write_queue_ t) as [|f r]; cbn; [|done]. rewrite Hf. split; [done|].
      destruct buffer; [by right|left; unfold zlen; cbn; lia].
    + split; [|done]. intros _. by destruct (write_queue_ t).
    + done.
    + split; [lia|]. rewrite zlen_app. unfold zlen at 2. cbn. lia.
    + apply Forall_app. split; [done|]. constructor; [lia|done].
  - intros Hnil. unfold next_view, next_write_buffer. cbn. rewrite Hnil in *. cbn. by rewrite Hf.
  - intros Hnn. unfold next_view, next_write_buffer. cbn. by destruct (write_queue_ t).
Qed.

Lemma enqueue_write_refused t buffer t' o :
  enqueue_write t buffer = (t', o) -> o = Ignored \/ o = Overflow -> t' = t.
Proof.
  unfold enqueue_write. repeat case_match; intros [= <- <-] [?|?]; congruence.
Qed.

(** ** A completed send *)

Lemma on_send_completion_success t n :
  queue_ok t -> 0 < n <= zlen (next_view t) ->
  queue_ok (on_send_completion t n true) /\
  unsent (on_send_completion t n true) = drop (Z.to_nat n) (unsent t).
Proof.
  intros H Hn. unfold next_view, next_write_buffer in Hn.
  destruct (write_queue_ t) as [|f r] eqn:E; [rewrite drop_nil in Hn; unfold zlen in Hn; cbn in Hn; lia|].
  pose proof (queue_ok_offset t f r H E) as Ho. pose proof (unsent_front t f r E Ho) as Hu.
  destruct H as [Hq Hf Hi [Hm Hk] [Hw Hw'] Hfr]. rewrite E in *.
  assert (Hv : zlen (drop (Z.to_nat (front_offset_ t)) f) = zlen f - front_offset_ t)
    by (unfold zlen in *; rewrite length_drop; lia).
  rewrite Hv in Hn. pose proof (Forall_inv Hfr) as Hff; apply Forall_inv_tail in Hfr; cbn beta in Hff.
  assert (Hz : zlen (unsent t) = zlen f - front_offset_ t + zlen (concat r)) by (rewrite Hu, zlen_app, Hv; done).
  unfold on_send_completion. rewrite E.
  assert (Hu64 : u64 (zlen f - front_offset_ t) = zlen f - front_offset_ t) by (apply u64_id; zpos; lia).
  rewrite Hu64. cbv zeta.
  assert (Hmin : Z.min n (zlen f - front_offset_ t) = n) by lia. rewrite Hmin.
  assert (Hmin' : Z.min (queued_bytes_ t) n = n) by (rewrite Hq; zpos; lia). rewrite Hmin'.
  assert (Hu1 : u64 (front_offset_ t + n) = front_offset_ t + n) by (apply u64_id; lia). rewrite Hu1.
  assert (Hu2 : u64 (queued_bytes_ t - n) = queued_bytes_ t - n) by (apply u64_id; zpos; lia).
  rewrite Hu2. destruct (zlen f <=? front_offset_ t + n) eqn:Hd.
  - assert (Hdn : drop (Z.to_nat n) (unsent t) = concat r).
    { rewrite Hu, drop_app_ge by (unfold zlen in *; lia). replace (_ - _)%nat with 0%nat by (unfold zlen in *; lia). done. }
    rewrite Hdn. split; [|done].
    split; cbn; unfold unsent; cbn.
    + change (drop (Z.to_nat 0) (concat r)) with (concat r). lia.
    + destruct r as [|f' r]; [done|]. split; [done|]. destruct f'; [by right|left; unfold zlen; cbn; lia].
    + destruct r; split; (done || discriminate).
    + done.
    + rewrite zlen_cons in Hw'. lia.
    + done.
  - assert (Hdn : drop (Z.to_nat n) (unsent t) = drop (Z.to_nat (front_offset_ t + n)) (concat (f :: r))).
    { unfold unsent. rewrite E, drop_drop. f_equal. lia. }
    rewrite Hdn. split; [|done].
    split; cbn; unfold unsent; cbn -[concat].
    + rewrite <- Hdn, Hq. unfold zlen in *. rewrite length_drop. lia.
    + split; [lia|left; lia].
    + split; [done|done].
    + done.
    + lia.
    + by constructor.
Qed.
