(* ===== verification/EventLoop.v ===== *)
(** io/io_uring/event_loop.cpp with operation_registry.hpp, core/buffer.hpp's pool,
    server/connection/connection_registry.hpp and the parts of network/tcp_connection.cpp
    that call into the loop: what one worker does with the completions of its ring.

    The kernel, the connections' sessions and the hub are its environment.  A completion
    comes with what the code reads from outside: the result the kernel reports, whether the
    peer is admitted, and the calls a handler makes into the transport while it runs, in
    their order ([Call]); any handler of Connection.v is one such list.  A submitted
    operation stays in [kernel_], which stands for the ring.  [objects_] holds every
    connection ever accepted, so that a reference that is held on the stack can still be
    used after [connections_], the registry, has dropped it; weak references are resolved by
    [lock].  Random ids and free submission entries come from two streams. *)

From S2P Require Import Prelude TcpConnection.

(** * Operations (operation.hpp) *)

Module OperationType.
Inductive t := Accept | Receive | Send | Timeout | Cancel | Close | FileWrite | Wakeup | Shutdown.
#[global] Instance t_eq_dec : EqDecision t.
Proof. solve_decision. Defined.
End OperationType.

Module TimeoutPurpose.
Inductive t :=
| None | IdleConnection | Handshake | Authentication | PublisherInactivity | Write
| ShutdownDeadline.
#[global] Instance t_eq_dec : EqDecision t.
Proof. solve_decision. Defined.
End TimeoutPurpose.

(** [op_connection] is the weak pointer, by the id of the connection. *)
Record OperationContext := mkOperationContext {
  op_type : OperationType.t;
  operation_id : Z;
  op_connection_id : Z;
  op_generation : Z;
  op_connection : option Z;
  timeout_purpose : TimeoutPurpose.t;
  zero_copy : bool
}.

(** What is submitted: a receive into a buffer of the pool, a send of some bytes, ... *)
Inductive Sqe :=
| SqeAccept
| SqeRecv (connection buffer : Z)
| SqeSend (connection : Z) (zero_copy : bool) (view : list byte)
| SqeTimeout (milliseconds : Z)
| SqeCancel (target : Z)
| SqePoll.

(** What an observer of the loop sees: a buffer taken over from a session, and the
    accounting calls of [services_]. *)
Inductive LoopEvent :=
| QueuedWrite (connection : Z) (buffer : list byte)
| ReleasedConnection (client_ip : string)
| RefusedConnection.

(** The members of core::ServerConfig the loop reads. *)
Record ServerConfig := mkServerConfig {
  provided_buffer_count : Z;
  provided_buffer_size : Z;
  maximum_connections : Z;
  idle_timeout : Z;
  handshake_timeout : Z;
  subscriber_queue_max_bytes : Z;
  subscriber_queue_max_packets : Z;
  maximum_rtmp_message_size : Z;
  worker_id : Z;
  has_router : bool;
  send_zero_copy : bool
}.

(** The loop's members.  [kernel_], [objects_], [log_] and [reopened_] are the model's: the
    ring, the heap, the events, and whether a handshake completed on a connection that had
    been closed. *)
Record Loop := mkLoop {
  ids_drawn : nat;
  sqes_asked : nat;
  kernel_ : gmap Z Sqe;
  operations_ : gmap Z OperationContext;
  free_list_ : list Z;
  exhausted_count_ : Z;
  receive_buffers_ : gmap Z Z;
  timeout_specs_ : gmap Z Z;
  zero_copy_buffers_ : gmap Z (list byte);
  handshake_sessions_ : gset Z;
  handshake_timeout_operation_ids_ : gmap Z Z;
  rtmp_sessions_ : gset Z;
  objects_ : gmap Z TcpConnection;
  connections_ : gset Z;
  zero_copy_send_enabled_ : bool;
  stopping_ : bool;
  shutdown_initiated_ : bool;
  shutdown_deadline_ : Z;
  next_connection_id_ : Z;
  next_generation_ : Z;
  pending_accept_operation_id_ : Z;
  pending_router_poll_operation_id_ : Z;
  log_ : list LoopEvent;
  reopened_ : bool
}.
Definition set_ids_drawn (l : Loop) (v : nat) : Loop :=
    mkLoop v (sqes_asked l) (kernel_ l) (operations_ l) (free_list_ l) (exhausted_count_ l)
    (receive_buffers_ l) (timeout_specs_ l) (zero_copy_buffers_ l) (handshake_sessions_ l)
    (handshake_timeout_operation_ids_ l) (rtmp_sessions_ l) (objects_ l) (connections_ l)
    (zero_copy_send_enabled_ l) (stopping_ l) (shutdown_initiated_ l) (shutdown_deadline_ l)
    (next_connection_id_ l) (next_generation_ l) (pending_accept_operation_id_ l)
    (pending_router_poll_operation_id_ l) (log_ l) (reopened_ l).
Definition set_sqes_asked (l : Loop) (v : nat) : Loop :=
    mkLoop (ids_drawn l) v (kernel_ l) (operations_ l) (free_list_ l) (exhausted_count_ l)
    (receive_buffers_ l) (timeout_specs_ l) (zero_copy_buffers_ l) (handshake_sessions_ l)
    (handshake_timeout_operation_ids_ l) (rtmp_sessions_ l) (objects_ l) (connections_ l)
    (zero_copy_send_enabled_ l) (stopping_ l) (shutdown_initiated_ l) (shutdown_deadline_ l)
    (next_connection_id_ l) (next_generation_ l) (pending_accept_operation_id_ l)
    (pending_router_poll_operation_id_ l) (log_ l) (reopened_ l).
Definition set_kernel (l : Loop) (v : gmap Z Sqe) : Loop :=
    mkLoop (ids_drawn l) (sqes_asked l) v (operations_ l) (free_list_ l) (exhausted_count_ l)
    (receive_buffers_ l) (timeout_specs_ l) (zero_copy_buffers_ l) (handshake_sessions_ l)
    (handshake_timeout_operation_ids_ l) (rtmp_sessions_ l) (objects_ l) (connections_ l)
    (zero_copy_send_enabled_ l) (stopping_ l) (shutdown_initiated_ l) (shutdown_deadline_ l)
    (next_connection_id_ l) (next_generation_ l) (pending_accept_operation_id_ l)
    (pending_router_poll_operation_id_ l) (log_ l) (reopened_ l).
Definition set_operations (l : Loop) (v : gmap Z OperationContext) : Loop :=
    mkLoop (ids_drawn l) (sqes_asked l) (kernel_ l) v (free_list_ l) (exhausted_count_ l)
    (receive_buffers_ l) (timeout_specs_ l) (zero_copy_buffers_ l) (handshake_sessions_ l)
    (handshake_timeout_operation_ids_ l) (rtmp_sessions_ l) (objects_ l) (connections_ l)
    (zero_copy_send_enabled_ l) (stopping_ l) (shutdown_initiated_ l) (shutdown_deadline_ l)
    (next_connection_id_ l) (next_generation_ l) (pending_accept_operation_id_ l)
    (pending_router_poll_operation_id_ l) (log_ l) (reopened_ l).
Definition set_free_list (l : Loop) (v : list Z) : Loop :=
    mkLoop (ids_drawn l) (sqes_asked l) (kernel_ l) (operations_ l) v (exhausted_count_ l)
    (receive_buffers_ l) (timeout_specs_ l) (zero_copy_buffers_ l) (handshake_sessions_ l)
    (handshake_timeout_operation_ids_ l) (rtmp_sessions_ l) (objects_ l) (connections_ l)
    (zero_copy_send_enabled_ l) (stopping_ l) (shutdown_initiated_ l) (shutdown_deadline_ l)
    (next_connection_id_ l) (next_generation_ l) (pending_accept_operation_id_ l)
    (pending_router_poll_operation_id_ l) (log_ l) (reopened_ l).
Definition set_exhausted_count (l : Loop) (v : Z) : Loop :=
    mkLoop (ids_drawn l) (sqes_asked l) (kernel_ l) (operations_ l) (free_list_ l) v
    (receive_buffers_ l) (timeout_specs_ l) (zero_copy_buffers_ l) (handshake_sessions_ l)
    (handshake_timeout_operation_ids_ l) (rtmp_sessions_ l) (objects_ l) (connections_ l)
    (zero_copy_send_enabled_ l) (stopping_ l) (shutdown_initiated_ l) (shutdown_deadline_ l)
    (next_connection_id_ l) (next_generation_ l) (pending_accept_operation_id_ l)
    (pending_router_poll_operation_id_ l) (log_ l) (reopened_ l).
Definition set_receive_buffers (l : Loop) (v : gmap Z Z) : Loop :=
    mkLoop (ids_drawn l) (sqes_asked l) (kernel_ l) (operations_ l) (free_list_ l)
    (exhausted_count_ l) v (timeout_specs_ l) (zero_copy_buffers_ l) (handshake_sessions_ l)
    (handshake_timeout_operation_ids_ l) (rtmp_sessions_ l) (objects_ l) (connections_ l)
    (zero_copy_send_enabled_ l) (stopping_ l) (shutdown_initiated_ l) (shutdown_deadline_ l)
    (next_connection_id_ l) (next_generation_ l) (pending_accept_operation_id_ l)
    (pending_router_poll_operation_id_ l) (log_ l) (reopened_ l).
Definition set_timeout_specs (l : Loop) (v : gmap Z Z) : Loop :=
    mkLoop (ids_drawn l) (sqes_asked l) (kernel_ l) (operations_ l) (free_list_ l)
    (exhausted_count_ l) (receive_buffers_ l) v (zero_copy_buffers_ l) (handshake_sessions_ l)
    (handshake_timeout_operation_ids_ l) (rtmp_sessions_ l) (objects_ l) (connections_ l)
    (zero_copy_send_enabled_ l) (stopping_ l) (shutdown_initiated_ l) (shutdown_deadline_ l)
    (next_connection_id_ l) (next_generation_ l) (pending_accept_operation_id_ l)
    (pending_router_poll_operation_id_ l) (log_ l) (reopened_ l).
Definition set_zero_copy_buffers (l : Loop) (v : gmap Z (list byte)) : Loop :=
    mkLoop (ids_drawn l) (sqes_asked l) (kernel_ l) (operations_ l) (free_list_ l)
    (exhausted_count_ l) (receive_buffers_ l) (timeout_specs_ l) v (handshake_sessions_ l)
    (handshake_timeout_operation_ids_ l) (rtmp_sessions_ l) (objects_ l) (connections_ l)
    (zero_copy_send_enabled_ l) (stopping_ l) (shutdown_initiated_ l) (shutdown_deadline_ l)
    (next_connection_id_ l) (next_generation_ l) (pending_accept_operation_id_ l)
    (pending_router_poll_operation_id_ l) (log_ l) (reopened_ l).
Definition set_handshake_sessions (l : Loop) (v : gset Z) : Loop :=
    mkLoop (ids_drawn l) (sqes_asked l) (kernel_ l) (operations_ l) (free_list_ l)
    (exhausted_count_ l) (receive_buffers_ l) (timeout_specs_ l) (zero_copy_buffers_ l) v
    (handshake_timeout_operation_ids_ l) (rtmp_sessions_ l) (objects_ l) (connections_ l)
    (zero_copy_send_enabled_ l) (stopping_ l) (shutdown_initiated_ l) (shutdown_deadline_ l)
    (next_connection_id_ l) (next_generation_ l) (pending_accept_operation_id_ l)
    (pending_router_poll_operation_id_ l) (log_ l) (reopened_ l).
Definition set_handshake_timeout_operation_ids (l : Loop) (v : gmap Z Z) : Loop :=
    mkLoop (ids_drawn l) (sqes_asked l) (kernel_ l) (operations_ l) (free_list_ l)
    (exhausted_count_ l) (receive_buffers_ l) (timeout_specs_ l) (zero_copy_buffers_ l)
    (handshake_sessions_ l) v (rtmp_sessions_ l) (objects_ l) (connections_ l)
    (zero_copy_send_enabled_ l) (stopping_ l) (shutdown_initiated_ l) (shutdown_deadline_ l)
    (next_connection_id_ l) (next_generation_ l) (pending_accept_operation_id_ l)
    (pending_router_poll_operation_id_ l) (log_ l) (reopened_ l).
Definition set_rtmp_sessions (l : Loop) (v : gset Z) : Loop :=
    mkLoop (ids_drawn l) (sqes_asked l) (kernel_ l) (operations_ l) (free_list_ l)
    (exhausted_count_ l) (receive_buffers_ l) (timeout_specs_ l) (zero_copy_buffers_ l)
    (handshake_sessions_ l) (handshake_timeout_operation_ids_ l) v (objects_ l) (connections_
    l) (zero_copy_send_enabled_ l) (stopping_ l) (shutdown_initiated_ l) (shutdown_deadline_
    l) (next_connection_id_ l) (next_generation_ l) (pending_accept_operation_id_ l)
    (pending_router_poll_operation_id_ l) (log_ l) (reopened_ l).
Definition set_objects (l : Loop) (v : gmap Z TcpConnection) : Loop :=
    mkLoop (ids_drawn l) (sqes_asked l) (kernel_ l) (operations_ l) (free_list_ l)
    (exhausted_count_ l) (receive_buffers_ l) (timeout_specs_ l) (zero_copy_buffers_ l)
    (handshake_sessions_ l) (handshake_timeout_operation_ids_ l) (rtmp_sessions_ l) v
    (connections_ l) (zero_copy_send_enabled_ l) (stopping_ l) (shutdown_initiated_ l)
    (shutdown_deadline_ l) (next_connection_id_ l) (next_generation_ l)
    (pending_accept_operation_id_ l) (pending_router_poll_operation_id_ l) (log_ l) (reopened_
    l).
Definition set_connections (l : Loop) (v : gset Z) : Loop :=
    mkLoop (ids_drawn l) (sqes_asked l) (kernel_ l) (operations_ l) (free_list_ l)
    (exhausted_count_ l) (receive_buffers_ l) (timeout_specs_ l) (zero_copy_buffers_ l)
    (handshake_sessions_ l) (handshake_timeout_operation_ids_ l) (rtmp_sessions_ l) (objects_
    l) v (zero_copy_send_enabled_ l) (stopping_ l) (shutdown_initiated_ l) (shutdown_deadline_
    l) (next_connection_id_ l) (next_generation_ l) (pending_accept_operation_id_ l)
    (pending_router_poll_operation_id_ l) (log_ l) (reopened_ l).
Definition set_zero_copy_send_enabled (l : Loop) (v : bool) : Loop :=
    mkLoop (ids_drawn l) (sqes_asked l) (kernel_ l) (operations_ l) (free_list_ l)
    (exhausted_count_ l) (receive_buffers_ l) (timeout_specs_ l) (zero_copy_buffers_ l)
    (handshake_sessions_ l) (handshake_timeout_operation_ids_ l) (rtmp_sessions_ l) (objects_
    l) (connections_ l) v (stopping_ l) (shutdown_initiated_ l) (shutdown_deadline_ l)
    (next_connection_id_ l) (next_generation_ l) (pending_accept_operation_id_ l)
    (pending_router_poll_operation_id_ l) (log_ l) (reopened_ l).
Definition set_stopping (l : Loop) (v : bool) : Loop :=
    mkLoop (ids_drawn l) (sqes_asked l) (kernel_ l) (operations_ l) (free_list_ l)
    (exhausted_count_ l) (receive_buffers_ l) (timeout_specs_ l) (zero_copy_buffers_ l)
    (handshake_sessions_ l) (handshake_timeout_operation_ids_ l) (rtmp_sessions_ l) (objects_
    l) (connections_ l) (zero_copy_send_enabled_ l) v (shutdown_initiated_ l)
    (shutdown_deadline_ l) (next_connection_id_ l) (next_generation_ l)
    (pending_accept_operation_id_ l) (pending_router_poll_operation_id_ l) (log_ l) (reopened_
    l).
Definition set_shutdown_initiated (l : Loop) (v : bool) : Loop :=
    mkLoop (ids_drawn l) (sqes_asked l) (kernel_ l) (operations_ l) (free_list_ l)
    (exhausted_count_ l) (receive_buffers_ l) (timeout_specs_ l) (zero_copy_buffers_ l)
    (handshake_sessions_ l) (handshake_timeout_operation_ids_ l) (rtmp_sessions_ l) (objects_
    l) (connections_ l) (zero_copy_send_enabled_ l) (stopping_ l) v (shutdown_deadline_ l)
    (next_connection_id_ l) (next_generation_ l) (pending_accept_operation_id_ l)
    (pending_router_poll_operation_id_ l) (log_ l) (reopened_ l).
Definition set_shutdown_deadline (l : Loop) (v : Z) : Loop :=
    mkLoop (ids_drawn l) (sqes_asked l) (kernel_ l) (operations_ l) (free_list_ l)
    (exhausted_count_ l) (receive_buffers_ l) (timeout_specs_ l) (zero_copy_buffers_ l)
    (handshake_sessions_ l) (handshake_timeout_operation_ids_ l) (rtmp_sessions_ l) (objects_
    l) (connections_ l) (zero_copy_send_enabled_ l) (stopping_ l) (shutdown_initiated_ l) v
    (next_connection_id_ l) (next_generation_ l) (pending_accept_operation_id_ l)
    (pending_router_poll_operation_id_ l) (log_ l) (reopened_ l).
Definition set_next_connection_id (l : Loop) (v : Z) : Loop :=
    mkLoop (ids_drawn l) (sqes_asked l) (kernel_ l) (operations_ l) (free_list_ l)
    (exhausted_count_ l) (receive_buffers_ l) (timeout_specs_ l) (zero_copy_buffers_ l)
    (handshake_sessions_ l) (handshake_timeout_operation_ids_ l) (rtmp_sessions_ l) (objects_
    l) (connections_ l) (zero_copy_send_enabled_ l) (stopping_ l) (shutdown_initiated_ l)
    (shutdown_deadline_ l) v (next_generation_ l) (pending_accept_operation_id_ l)
    (pending_router_poll_operation_id_ l) (log_ l) (reopened_ l).
Definition set_next_generation (l : Loop) (v : Z) : Loop :=
    mkLoop (ids_drawn l) (sqes_asked l) (kernel_ l) (operations_ l) (free_list_ l)
    (exhausted_count_ l) (receive_buffers_ l) (timeout_specs_ l) (zero_copy_buffers_ l)
    (handshake_sessions_ l) (handshake_timeout_operation_ids_ l) (rtmp_sessions_ l) (objects_
    l) (connections_ l) (zero_copy_send_enabled_ l) (stopping_ l) (shutdown_initiated_ l)
    (shutdown_deadline_ l) (next_connection_id_ l) v (pending_accept_operation_id_ l)
    (pending_router_poll_operation_id_ l) (log_ l) (reopened_ l).
Definition set_pending_accept_operation_id (l : Loop) (v : Z) : Loop :=
    mkLoop (ids_drawn l) (sqes_asked l) (kernel_ l) (operations_ l) (free_list_ l)
    (exhausted_count_ l) (receive_buffers_ l) (timeout_specs_ l) (zero_copy_buffers_ l)
    (handshake_sessions_ l) (handshake_timeout_operation_ids_ l) (rtmp_sessions_ l) (objects_
    l) (connections_ l) (zero_copy_send_enabled_ l) (stopping_ l) (shutdown_initiated_ l)
    (shutdown_deadline_ l) (next_connection_id_ l) (next_generation_ l) v
    (pending_router_poll_operation_id_ l) (log_ l) (reopened_ l).
Definition set_pending_router_poll_operation_id (l : Loop) (v : Z) : Loop :=
    mkLoop (ids_drawn l) (sqes_asked l) (kernel_ l) (operations_ l) (free_list_ l)
    (exhausted_count_ l) (receive_buffers_ l) (timeout_specs_ l) (zero_copy_buffers_ l)
    (handshake_sessions_ l) (handshake_timeout_operation_ids_ l) (rtmp_sessions_ l) (objects_
    l) (connections_ l) (zero_copy_send_enabled_ l) (stopping_ l) (shutdown_initiated_ l)
    (shutdown_deadline_ l) (next_connection_id_ l) (next_generation_ l)
    (pending_accept_operation_id_ l) v (log_ l) (reopened_ l).
Definition set_log (l : Loop) (v : list LoopEvent) : Loop :=
    mkLoop (ids_drawn l) (sqes_asked l) (kernel_ l) (operations_ l) (free_list_ l)
    (exhausted_count_ l) (receive_buffers_ l) (timeout_specs_ l) (zero_copy_buffers_ l)
    (handshake_sessions_ l) (handshake_timeout_operation_ids_ l) (rtmp_sessions_ l) (objects_
    l) (connections_ l) (zero_copy_send_enabled_ l) (stopping_ l) (shutdown_initiated_ l)
    (shutdown_deadline_ l) (next_connection_id_ l) (next_generation_ l)
    (pending_accept_operation_id_ l) (pending_router_poll_operation_id_ l) v (reopened_ l).
Definition set_reopened (l : Loop) (v : bool) : Loop :=
    mkLoop (ids_drawn l) (sqes_asked l) (kernel_ l) (operations_ l) (free_list_ l)
    (exhausted_count_ l) (receive_buffers_ l) (timeout_specs_ l) (zero_copy_buffers_ l)
    (handshake_sessions_ l) (handshake_timeout_operation_ids_ l) (rtmp_sessions_ l) (objects_
    l) (connections_ l) (zero_copy_send_enabled_ l) (stopping_ l) (shutdown_initiated_ l)
    (shutdown_deadline_ l) (next_connection_id_ l) (next_generation_ l)
    (pending_accept_operation_id_ l) (pending_router_poll_operation_id_ l) (log_ l) v.

Definition kZeroCopySendMinimumBytes : Z := 16 * 1024.
(** In milliseconds, the unit of the times below. *)
Definition kShutdownDeadline : Z := 10000.
Definition ECANCELED : Z := 125.
Definition EOPNOTSUPP : Z := 95.
Definition EINVAL : Z := 22.
Definition ENOSYS : Z := 38.
Definition ENOMEM : Z := 12.

Section EventLoop.
Context (id64 : nat -> Z) (sqe_available : nat -> bool) (config_ : ServerConfig).

Definition make_loop : Loop :=
  mkLoop 0 0 ∅ ∅ (seqZ 0 (provided_buffer_count config_)) 0 ∅ ∅ ∅ ∅ ∅ ∅ ∅ ∅
    (send_zero_copy config_) false false 0 1 1 0 0 [] false.

Definition emit_log (l : Loop) (e : LoopEvent) : Loop := set_log l (log_ l ++ [e]).
Definition put_object (l : Loop) (t : TcpConnection) : Loop :=
  set_objects l (<[connection_id_ t := t]> (objects_ l)).

(** [unordered_map::emplace] leaves an entry that is there. *)
Definition emplace {A} (m : gmap Z A) (k : Z) (v : A) : gmap Z A :=
  match m !! k with Some _ => m | None => <[k := v]> m end.

(** * The registries *)

(** [weak_ptr::lock], where [held] is a strong reference on the stack. *)
Definition lock (l : Loop) (held : option Z) (weak : option Z) : option TcpConnection :=
  match weak with
  | Some c => if bool_decide (c ∈ connections_ l \/ held = Some c) then objects_ l !! c else None
  | None => None
  end.

(** core/random.cpp; [id64] gives the random bits. *)
Definition generate_id64 (n : nat) : Z := if id64 n =? 0 then 1 else id64 n.

(** [OperationRegistry::create]. *)
Definition create (l : Loop) (op : OperationContext) : Loop * Z :=
  let id := generate_id64 (ids_drawn l) in
  let op := mkOperationContext (op_type op) id (op_connection_id op) (op_generation op)
              (op_connection op) (timeout_purpose op) (zero_copy op) in
  let l := set_ids_drawn l (S (ids_drawn l)) in
  (set_operations l (emplace (operations_ l) id op), id).
(** [OperationRegistry::take]. *)
Definition take_operation (l : Loop) (id : Z) : Loop * option OperationContext :=
  (set_operations l (delete id (operations_ l)), operations_ l !! id).
Definition pending_count (l : Loop) : Z := Z.of_nat (size (operations_ l)).
Definition find_all_for_connection (l : Loop) (connection_id : Z) : list Z :=
  (filter (fun p => op_connection_id p.2 = connection_id) (map_to_list (operations_ l))).*1.

(** [io_uring_get_sqe]. *)
Definition get_sqe (l : Loop) : Loop * bool :=
  (set_sqes_asked l (S (sqes_asked l)), sqe_available (sqes_asked l)).
(** [operations_.create] and [io_uring_sqe_set_data64] of a prepared entry. *)
Definition submit (l : Loop) (op : OperationContext) (sqe : Sqe) : Loop * Z :=
  let '(l, id) := create l op in (set_kernel l (<[id := sqe]> (kernel_ l)), id).

(** [BufferPool::acquire] takes from the back, [release] appends. *)
Definition acquire (l : Loop) : Loop * option Z :=
  match list.last (free_list_ l) with
  | None => (set_exhausted_count l (u64 (exhausted_count_ l + 1)), None)
  | Some b => (set_free_list l (removelast (free_list_ l)), Some b)
  end.
Definition release (l : Loop) (b : option Z) : Loop :=
  match b with Some b => set_free_list l (free_list_ l ++ [b]) | None => l end.

(** * Submitting *)

Definition submit_accept (l : Loop) : Loop :=
  let '(l, ok) := get_sqe l in
  if negb ok then l else
  let '(l, id) := submit l (mkOperationContext OperationType.Accept 0 0 0 None TimeoutPurpose.None false)
                    SqeAccept in
  set_pending_accept_operation_id l id.

Definition submit_router_poll (l : Loop) : Loop :=
  let '(l, ok) := get_sqe l in
  if negb ok then l else
  let '(l, id) := submit l (mkOperationContext OperationType.Wakeup 0 0 0 None TimeoutPurpose.None false)
                    SqePoll in
  set_pending_router_poll_operation_id l id.

Definition submit_receive (l : Loop) (c : Z) : Loop :=
  match objects_ l !! c with
  | None => l
  | Some t =>
      if negb (is_open t) then l else
      match acquire l with
      | (l, None) => l
      | (l, Some b) =>
          let '(l, ok) := get_sqe l in
          if negb ok then release l (Some b) else
          let '(l, id) := submit l (mkOperationContext OperationType.Receive 0 (connection_id_ t)
                                      (generation_ t) (Some c) TimeoutPurpose.None false)
                            (SqeRecv c b) in
          set_receive_buffers l (emplace (receive_buffers_ l) id b)
      end
  end.

Definition submit_send (l : Loop) (c : Z) : Loop :=
  match objects_ l !! c with
  | None => l
  | Some t =>
      if negb (is_open t) then l else
      let buffer := next_write_buffer t in
      if zlen buffer =? 0 then l else
      let '(l, ok) := get_sqe l in
      if negb ok then l else
      let offset := next_write_offset t in
      if zlen buffer <=? offset then put_object l (pop_write_buffer t) else
      let view := drop (Z.to_nat offset) buffer in
      let use_zero_copy := zero_copy_send_enabled_ l && (kZeroCopySendMinimumBytes <=? zlen view) in
      let '(l, id) := submit l (mkOperationContext OperationType.Send 0 (connection_id_ t)
                                  (generation_ t) (Some c) TimeoutPurpose.None use_zero_copy)
                        (SqeSend c use_zero_copy view) in
      if use_zero_copy then
        set_zero_copy_buffers l (emplace (zero_copy_buffers_ l) id buffer)
      else l
  end.

Definition cancel_operation (l : Loop) (target : Z) : Loop :=
  let '(l, ok) := get_sqe l in
  if negb ok then l else
  (submit l (mkOperationContext OperationType.Cancel 0 0 0 None TimeoutPurpose.None false)
     (SqeCancel target)).1.

Definition cancel_all_operations_for_connection (l : Loop) (connection_id : Z) : Loop :=
  fold_left cancel_operation (find_all_for_connection l connection_id) l.

Definition arm_idle_timeout (l : Loop) (c : Z) : Loop :=
  match objects_ l !! c with
  | None => l
  | Some t =>
      if idle_timeout config_ <=? 0 then l else
      if negb (is_open t) then l else
      let '(l, t) :=
        if idle_timeout_operation_id_ t =? 0 then (l, t)
        else let t' := set_idle_timeout_operation_id t 0 in
             (put_object (cancel_operation l (idle_timeout_operation_id_ t)) t', t') in
      let '(l, ok) := get_sqe l in
      if negb ok then l else
      let '(l, id) := submit l (mkOperationContext OperationType.Timeout 0 (connection_id_ t)
                                  (generation_ t) (Some c) TimeoutPurpose.IdleConnection false)
                        (SqeTimeout (idle_timeout config_)) in
      let l := put_object l (set_idle_timeout_operation_id t id) in
      set_timeout_specs l (emplace (timeout_specs_ l) id (idle_timeout config_))
  end.

Definition arm_handshake_timeout (l : Loop) (c : Z) : Loop :=
  match objects_ l !! c with
  | None => l
  | Some t =>
      if handshake_timeout config_ <=? 0 then l else
      if negb (is_open t) then l else
      let l :=
        match handshake_timeout_operation_ids_ l !! c with
        | Some id => set_handshake_timeout_operation_ids (cancel_operation l id)
                       (delete c (handshake_timeout_operation_ids_ l))
        | None => l
        end in
      let '(l, ok) := get_sqe l in
      if negb ok then l else
      let '(l, id) := submit l (mkOperationContext OperationType.Timeout 0 c
                                  (generation_ t) (Some c) TimeoutPurpose.Handshake false)
                        (SqeTimeout (handshake_timeout config_)) in
      let l := set_handshake_timeout_operation_ids l (<[c := id]> (handshake_timeout_operation_ids_ l)) in
      set_timeout_specs l (emplace (timeout_specs_ l) id (handshake_timeout config_))
  end.

(** * Closing a connection *)

Definition cleanup_handshake_state (l : Loop) (c : Z) : Loop :=
  let l := set_handshake_sessions l (handshake_sessions_ l ∖ {[c]}) in
  let timeout_id := default 0 (handshake_timeout_operation_ids_ l !! c) in
  let l := set_handshake_timeout_operation_ids l (delete c (handshake_timeout_operation_ids_ l)) in
  if timeout_id =? 0 then l else cancel_operation l timeout_id.

(** The calls that [on_connection_closed] of the session makes into other connections
    follow the close in the list of calls. *)
Definition cleanup_rtmp_session_state (l : Loop) (c : Z) : Loop :=
  set_rtmp_sessions l (rtmp_sessions_ l ∖ {[c]}).

Definition on_peer_closed (t : TcpConnection) : TcpConnection := set_state t ConnectionState.Closed.

Definition close_connection (l : Loop) (c : Z) : Loop :=
  match objects_ l !! c with
  | None => l
  | Some t =>
      let t := set_state t ConnectionState.Closing in
      let l := put_object l t in
      let l := cancel_all_operations_for_connection l (connection_id_ t) in
      let l := cleanup_handshake_state l (connection_id_ t) in
      let l := cleanup_rtmp_session_state l (connection_id_ t) in
      let l := emit_log l (ReleasedConnection (client_ip_ t)) in
      let t := set_state t ConnectionState.Closed in
      let l := put_object l t in
      let l := set_connections l (connections_ l ∖ {[connection_id_ t]}) in
      put_object l (on_peer_closed t)
  end.

(** [TcpConnection::close]. *)
Definition close (l : Loop) (c : Z) : Loop :=
  match objects_ l !! c with
  | None => l
  | Some t =>
      if is_closing t then l
      else close_connection (put_object l (set_state t ConnectionState.Closing)) c
  end.

(** [TcpConnection::async_write]. *)
Definition async_write (l : Loop) (c : Z) (buffer : list byte) : Loop :=
  match objects_ l !! c with
  | None => l
  | Some t =>
      match enqueue_write t buffer with
      | (_, Ignored) => l
      | (_, Overflow) => close l c
      | (t, Queued should_submit) =>
          let l := emit_log (put_object l t) (QueuedWrite c buffer) in
          if should_submit then submit_send l c else l
      end
  end.

(** * What sessions do while they run *)

(** The handlers [start_rtmp_session] installs: bytes of some connection's session, and its
    close handler. *)
Inductive SessionCall :=
| WriteTo (connection : Z) (buffer : list byte)
| CloseFrom (connection : Z).

(** The handlers of a handshake, beside its writes: complete and fail.  [start] of the new
    session and the bytes that came with C2 make calls of their own. *)
Inductive Call :=
| Session (call : SessionCall)
| HandshakeComplete (connection : Z) (calls : list SessionCall)
| HandshakeFailed (connection : Z) (calls : list SessionCall).

Definition run_session_call (held : option Z) (l : Loop) (call : SessionCall) : Loop :=
  match call with
  | WriteTo c buffer =>
      match lock l held (Some c) with Some _ => async_write l c buffer | None => l end
  | CloseFrom c =>
      match lock l held (Some c) with Some _ => close_connection l c | None => l end
  end.
Definition run_session_calls (held : option Z) (l : Loop) (calls : list SessionCall) : Loop :=
  fold_left (run_session_call held) calls l.

Definition start_rtmp_session (l : Loop) (held : option Z) (c : Z) (calls : list SessionCall) : Loop :=
  let l := set_rtmp_sessions l ({[c]} ∪ rtmp_sessions_ l) in
  run_session_calls held l calls.

(** The complete handler of [start_handshake]; it holds the connection. *)
Definition handshake_complete (l : Loop) (held : option Z) (c : Z) (calls : list SessionCall) : Loop :=
  match lock l held (Some c) with
  | None => l
  | Some t =>
      let l := if bool_decide (c ∈ connections_ l) then l else set_reopened l true in
      let l := put_object l (set_state t ConnectionState.Connected) in
      let l := cleanup_handshake_state l c in
      let l := start_rtmp_session l (Some c) c calls in
      arm_idle_timeout l c
  end.
Definition handshake_failed (l : Loop) (held : option Z) (c : Z) (calls : list SessionCall) : Loop :=
  match lock l held (Some c) with
  | None => l
  | Some _ => run_session_calls (Some c) (close_connection (cleanup_handshake_state l c) c) calls
  end.

Definition run_call (held : option Z) (l : Loop) (call : Call) : Loop :=
  match call with
  | Session call => run_session_call held l call
  | HandshakeComplete c calls => handshake_complete l held c calls
  | HandshakeFailed c calls => handshake_failed l held c calls
  end.
Definition run_calls (held : option Z) (l : Loop) (calls : list Call) : Loop :=
  fold_left (run_call held) calls l.

Definition start_handshake (l : Loop) (c : Z) : Loop :=
  set_handshake_sessions l ({[c]} ∪ handshake_sessions_ l).

(** * Completions *)

(** The worker in the top byte, the worker's own sequence below. *)
Definition make_connection_id (next : Z) : Z :=
  let kWorkerIdShift := 56 in
  let kLocalIdMask := Z.shiftl 1 kWorkerIdShift - 1 in
  let local_connection_id := Z.land next kLocalIdMask in
  Z.lor (u64 (Z.shiftl (u64 (worker_id config_ + 1)) kWorkerIdShift)) local_connection_id.

Definition handle_accept_completion (l : Loop) (result : Z) (client_ip : string) (admitted : bool)
    : Loop :=
  let l := if stopping_ l then l else submit_accept l in
  if result <? 0 then l else
  if maximum_connections config_ <=? Z.of_nat (size (connections_ l)) then
    emit_log l RefusedConnection
  else if negb admitted then emit_log l RefusedConnection else
  let connection_id := make_connection_id (next_connection_id_ l) in
  let l := set_next_connection_id l (u64 (next_connection_id_ l + 1)) in
  let generation := next_generation_ l in
  let l := set_next_generation l (u64 (next_generation_ l + 1)) in
  let max_write_queue_bytes := u64 (subscriber_queue_max_bytes config_ + maximum_rtmp_message_size config_) in
  let max_write_queue_packets := u64 (subscriber_queue_max_packets config_ + 64) in
  let t := make_connection connection_id generation client_ip max_write_queue_bytes
             max_write_queue_packets in
  let l := put_object l t in
  let l := set_connections l ({[connection_id]} ∪ connections_ l) in
  let l := put_object l (set_state t ConnectionState.Handshaking) in
  let l := start_handshake l connection_id in
  let l := submit_receive l connection_id in
  arm_handshake_timeout l connection_id.

(** The bytes themselves are the receive handler's, whose calls are given. *)
Definition handle_receive_completion (l : Loop) (op : OperationContext) (result : Z)
    (calls : list Call) (closing : list SessionCall) : Loop :=
  let buffer := receive_buffers_ l !! operation_id op in
  let l := set_receive_buffers l (delete (operation_id op) (receive_buffers_ l)) in
  let connection := lock l None (op_connection op) in
  if result <=? 0 then
    let l := release l buffer in
    match connection with
    | Some t => if result =? - ECANCELED then l
                else run_session_calls (Some (connection_id_ t)) (close_connection l (connection_id_ t)) closing
    | None => l
    end
  else
    let committed := match buffer with Some _ => result <=? provided_buffer_size config_ | None => false end in
    match connection with
    | None => release l buffer
    | Some t =>
        let c := connection_id_ t in
        let l := if committed && is_open t then run_calls (Some c) l calls else l in
        let l := release l buffer in
        match objects_ l !! c with
        | Some t =>
            if is_open t then
              let l := submit_receive l c in
              if bool_decide (c ∈ handshake_sessions_ l) then arm_handshake_timeout l c
              else arm_idle_timeout l c
            else l
        | None => l
        end
    end.

Definition handle_send_completion (l : Loop) (op : OperationContext) (result : Z)
    (closing : list SessionCall) : Loop :=
  match lock l None (op_connection op) with
  | None => l
  | Some t =>
      let success := 0 <? result in
      let c := connection_id_ t in
      let l := put_object l (on_send_completion t (if success then result else 0) success) in
      if negb success then run_session_calls (Some c) (close_connection l c) closing else
      match objects_ l !! c with
      | Some t => if is_open t && has_pending_write t then submit_send l c else l
      | None => l
      end
  end.

Definition handle_timeout_completion (l : Loop) (op : OperationContext) (result : Z)
    (closing : list SessionCall) : Loop :=
  let l := set_timeout_specs l (delete (operation_id op) (timeout_specs_ l)) in
  match lock l None (op_connection op) with
  | None => l
  | Some t =>
      let c := connection_id_ t in
      let '(l, t) :=
        if idle_timeout_operation_id_ t =? operation_id op then
          let t := set_idle_timeout_operation_id t 0 in (put_object l t, t)
        else (l, t) in
      let '(l, handshake_session) :=
        if decide (timeout_purpose op = TimeoutPurpose.Handshake /\
                   handshake_timeout_operation_ids_ l !! c = Some (operation_id op)) then
          (set_handshake_timeout_operation_ids l (delete c (handshake_timeout_operation_ids_ l)),
           bool_decide (c ∈ handshake_sessions_ l))
        else (l, false) in
      if result =? - ECANCELED then l else
      if bool_decide (timeout_purpose op = TimeoutPurpose.IdleConnection) && is_open t then
        run_session_calls (Some c) (close_connection l c) closing
      else if bool_decide (timeout_purpose op = TimeoutPurpose.Handshake) && handshake_session && is_open t then
        (* on_timeout of a handshake that has not ended calls its fail handler *)
        handshake_failed l (Some c) c closing
      else l
  end.

(** [drain_router_frames] hands frames to the hub, whose sinks write. *)
Definition handle_wakeup_completion (l : Loop) (result : Z) (calls : list SessionCall) : Loop :=
  let l := if 0 <=? result then run_session_calls None l calls else l in
  if stopping_ l then l else submit_router_poll l.

(** What the environment adds to a completion. *)
Record Reads := mkReads {
  read_calls : list Call;          (** of a receive handler *)
  read_session_calls : list SessionCall;  (** of a close, or of the hub *)
  read_client_ip : string;
  read_admitted : bool
}.
Definition no_reads : Reads := mkReads [] [] ""%string true.

Definition zero_copy_refusal (result : Z) : bool :=
  (result =? - EOPNOTSUPP) || (result =? - EINVAL) || (result =? - ENOSYS) || (result =? - ENOMEM).

(** [more] and [notif] are the flags IORING_CQE_F_MORE and IORING_CQE_F_NOTIF. *)
Definition process_completion (l : Loop) (id result : Z) (more notif : bool) (r : Reads) : Loop :=
  if notif then set_zero_copy_buffers l (delete id (zero_copy_buffers_ l)) else
  match take_operation l id with
  | (l, None) => l
  | (l, Some op) =>
      let l := if zero_copy op && negb more then
                 set_zero_copy_buffers l (delete id (zero_copy_buffers_ l)) else l in
      let l := match op_type op with
               | OperationType.Accept => set_pending_accept_operation_id l 0
               | OperationType.Wakeup => set_pending_router_poll_operation_id l 0
               | _ => l
               end in
      match op_type op with
      | OperationType.Accept => handle_accept_completion l result (read_client_ip r) (read_admitted r)
      | OperationType.Receive => handle_receive_completion l op result (read_calls r) (read_session_calls r)
      | OperationType.Send =>
          if zero_copy op && zero_copy_refusal result then
            let l := set_zero_copy_send_enabled l false in
            match lock l None (op_connection op) with
            | Some t => if is_open t then submit_send l (connection_id_ t) else l
            | None => l
            end
          else handle_send_completion l op result (read_session_calls r)
      | OperationType.Timeout => handle_timeout_completion l op result (read_session_calls r)
      | OperationType.Wakeup => handle_wakeup_completion l result (read_session_calls r)
      | _ => l
      end
  end.

(** * Starting and stopping *)

(** [run] up to its loop. *)
Definition start_loop (l : Loop) : Loop :=
  let l := submit_accept l in
  if has_router config_ then submit_router_poll l else l.

Definition stop (l : Loop) : Loop := set_stopping l true.

(** [snapshot] is the order the registry gives its connections in, each with the calls its
    close leads to; [now] is the reading of the clock. *)
Definition begin_shutdown (l : Loop) (now : Z) (snapshot : list (Z * list SessionCall)) : Loop :=
  let l := set_shutdown_initiated l true in
  let l := set_shutdown_deadline l (now + kShutdownDeadline) in
  let l := if pending_accept_operation_id_ l =? 0 then l
           else cancel_operation l (pending_accept_operation_id_ l) in
  let l := if pending_router_poll_operation_id_ l =? 0 then l
           else cancel_operation l (pending_router_poll_operation_id_ l) in
  fold_left (fun l '(c, calls) => run_session_calls (Some c) (close l c) calls) snapshot l.

(** The test at the head of the loop of [run]: true where the loop is left, at the time [now]. *)
Definition run_breaks (l : Loop) (now : Z) : bool :=
  if shutdown_initiated_ l then
    let zero_copy_buffers_pending := Z.of_nat (size (zero_copy_buffers_ l)) in
    if (pending_count l =? 0) && (zero_copy_buffers_pending =? 0) then true
    else shutdown_deadline_ l <=? now
  else false.

End EventLoop.
