(* ===== verification/EventLoopSafe.v ===== *)
(** The runs of the event loop against the kernel, and the invariant of its state. *)

From S2P Require Import Prelude TcpConnection EventLoop.

Section EventLoopSafe.
Context (id64 : nat -> Z) (sqe_available : nat -> bool) (config_ : ServerConfig).
Notation generate_id64 := (generate_id64 id64).
Notation submit := (submit id64).
Notation make_connection_id := (make_connection_id config_).

(** * Runs *)

(** The loop, the bytes the kernel has put on each connection, and the zero-copy sends
    whose notification is still to come. *)
Record Machine := mkMachine {
  loop_of : Loop;
  sent_ : list (Z * list byte);
  notifications_ : gset Z
}.

Definition cancelled (l : Loop) (id : Z) : Prop :=
  exists id', kernel_ l !! id' = Some (SqeCancel id).

(** What io_uring documents of its answers: a receive fills no more than its buffer, a send
    takes no more than it was given, a notification is only announced for a zero-copy send,
    and a timeout that nobody cancelled does not report a cancellation.  Fewer than 2^56
    connections are accepted. *)
Definition kernel_may_answer (l : Loop) (id result : Z) (more : bool) : Prop :=
  match kernel_ l !! id with
  | Some SqeAccept => more = false /\ (0 <= result -> next_connection_id_ l < 2 ^ 56)
  | Some (SqeRecv _ _) => more = false /\ result <= provided_buffer_size config_
  | Some (SqeSend _ zero_copy view) => (more = true -> zero_copy = true) /\ result <= zlen view
  | Some (SqeTimeout _) => more = false /\ (result = - ECANCELED -> cancelled l id)
  | Some (SqeCancel _) | Some SqePoll => more = false
  | None => False
  end.

(** The bytes a completion reports as sent. *)
Definition sent_by (l : Loop) (id result : Z) : list (Z * list byte) :=
  match kernel_ l !! id with
  | Some (SqeSend c _ view) => if 0 <? result then [(c, take (Z.to_nat result) view)] else []
  | _ => []
  end.

Inductive step (m : Machine) : Machine -> Prop :=
| step_completion id op result more r :
    operations_ (loop_of m) !! id = Some op ->
    kernel_may_answer (loop_of m) id result more ->
    step m (mkMachine (process_completion id64 sqe_available config_ (loop_of m) id result more false r)
              (sent_ m ++ sent_by (loop_of m) id result)
              (if more then {[id]} ∪ notifications_ m else notifications_ m))
| step_notification id :
    id ∈ notifications_ m ->
    step m (mkMachine (process_completion id64 sqe_available config_ (loop_of m) id 0 false true no_reads)
              (sent_ m) (notifications_ m ∖ {[id]}))
| step_stop : step m (mkMachine (stop (loop_of m)) (sent_ m) (notifications_ m))
| step_shutdown now snapshot :
    stopping_ (loop_of m) = true -> shutdown_initiated_ (loop_of m) = false ->
    snapshot.*1 ≡ₚ elements (connections_ (loop_of m)) ->
    step m (mkMachine (begin_shutdown id64 sqe_available (loop_of m) now snapshot)
              (sent_ m) (notifications_ m)).

Definition initial : Machine :=
  mkMachine (start_loop id64 sqe_available config_ (make_loop config_)) [] ∅.
Definition reachable (m : Machine) : Prop := rtc step initial m.

(** * The streams of a connection *)

Definition written_on (c : Z) (e : LoopEvent) : option (list byte) :=
  match e with
  | QueuedWrite c' buffer => if decide (c' = c) then Some buffer else None
  | _ => None
  end.
(** What the sessions wrote and the connection took, and what went out. *)
Definition written (l : Loop) (c : Z) : list byte := concat (omap (written_on c) (log_ l)).
Definition wire (sent : list (Z * list byte)) (c : Z) : list byte :=
  concat (omap (fun p => if decide (p.1 = c) then Some p.2 else None) sent).

Definition sends (l : Loop) (c id : Z) : Prop :=
  exists op, operations_ l !! id = Some op /\ op_type op = OperationType.Send /\ op_connection op = Some c.

Record flow (sent : list (Z * list byte)) (l : Loop) (c : Z) (rest : list byte) : Prop := mkFlow {
  fl_written : written l c = wire sent c ++ rest;
  fl_view : forall id, sends l c id ->
    exists zc view, kernel_ l !! id = Some (SqeSend c zc view) /\ view <> [] /\ view `prefix_of` rest;
  fl_one : forall id1 id2, sends l c id1 -> sends l c id2 -> id1 = id2;
  fl_open : forall t, objects_ l !! c = Some t -> c ∈ connections_ l ->
    rest = unsent t /\
    forall id, sends l c id ->
      send_in_flight_ t = true /\ exists zc, kernel_ l !! id = Some (SqeSend c zc (next_view t))
}.

(** * The invariant *)

(** Every pending operation is what was submitted under its id, and the memory the kernel
    was given is held. *)
Definition op_ok (l : Loop) (id : Z) (op : OperationContext) : Prop :=
  operation_id op = id /\
  match op_type op with
  | OperationType.Accept => kernel_ l !! id = Some SqeAccept /\ op_connection op = None
  | OperationType.Receive =>
      exists c b, op_connection op = Some c /\ kernel_ l !! id = Some (SqeRecv c b) /\
        is_Some (objects_ l !! c) /\ receive_buffers_ l !! id = Some b
  | OperationType.Send =>
      exists c view, op_connection op = Some c /\ kernel_ l !! id = Some (SqeSend c (zero_copy op) view) /\
        is_Some (objects_ l !! c) /\
        (zero_copy op = true -> exists buffer, zero_copy_buffers_ l !! id = Some buffer /\ view `suffix_of` buffer)
  | OperationType.Timeout =>
      exists c ms, op_connection op = Some c /\ kernel_ l !! id = Some (SqeTimeout ms) /\
        is_Some (objects_ l !! c) /\ timeout_specs_ l !! id = Some ms
  | OperationType.Cancel => (exists target, kernel_ l !! id = Some (SqeCancel target)) /\ op_connection op = None
  | OperationType.Wakeup => kernel_ l !! id = Some SqePoll /\ op_connection op = None
  | _ => False
  end /\
  (zero_copy op = true -> op_type op = OperationType.Send).

Definition object_ok (l : Loop) (c : Z) (t : TcpConnection) : Prop :=
  connection_id_ t = c /\
  (c ∈ connections_ l -> is_closing t = false /\ queue_ok t) /\
  (c ∉ connections_ l -> state_ t = ConnectionState.Closed) /\
  exists n, 1 <= n < next_connection_id_ l /\ c = make_connection_id n.

(** A zero-copy send that has completed and whose bytes the kernel still refers to. *)
Definition notif_ok (l : Loop) (id : Z) : Prop :=
  operations_ l !! id = None /\
  exists c view buffer, kernel_ l !! id = Some (SqeSend c true view) /\
    zero_copy_buffers_ l !! id = Some buffer /\ view `suffix_of` buffer.

(** [notifs] are the zero-copy sends the kernel still refers to, [held] is what the handler
    that is running has on its stack. *)
Record Inv (notifs : gset Z) (sent : list (Z * list byte)) (held : list Z) (l : Loop) : Prop := mkInv {
  inv_ids : forall id sqe, kernel_ l !! id = Some sqe -> exists n, (n < ids_drawn l)%nat /\ id = generate_id64 n;
  inv_ops : forall id op, operations_ l !! id = Some op -> op_ok l id op;
  inv_pool : free_list_ l ++ (map_to_list (receive_buffers_ l)).*2 ++ held
             ≡ₚ seqZ 0 (provided_buffer_count config_);
  inv_receives : forall id b, receive_buffers_ l !! id = Some b ->
    exists op, operations_ l !! id = Some op /\ op_type op = OperationType.Receive;
  inv_specs : forall id ms, timeout_specs_ l !! id = Some ms -> is_Some (kernel_ l !! id);
  inv_zero_copy : forall id b, zero_copy_buffers_ l !! id = Some b ->
    exists c view, kernel_ l !! id = Some (SqeSend c true view);
  inv_notifs : forall id, id ∈ notifs -> notif_ok l id;
  inv_objects : forall c t, objects_ l !! c = Some t -> object_ok l c t;
  inv_connections : forall c, c ∈ connections_ l -> is_Some (objects_ l !! c);
  inv_silent : forall c, objects_ l !! c = None -> written l c = [] /\ wire sent c = [];
  inv_next : 1 <= next_connection_id_ l <= 2 ^ 56;
  inv_flow : forall c, exists rest, flow sent l c rest
}.

Definition core (l : Loop) :=
  (ids_drawn l, kernel_ l, operations_ l, free_list_ l, receive_buffers_ l, timeout_specs_ l,
   zero_copy_buffers_ l, objects_ l, connections_ l, next_connection_id_ l).

(** * The rules of the invariant *)

Lemma op_ok_mono l l' id op :
  op_ok l id op -> kernel_ l ⊆ kernel_ l' ->
  (forall c, is_Some (objects_ l !! c) -> is_Some (objects_ l' !! c)) ->
  (op_type op = OperationType.Receive -> forall b, receive_buffers_ l !! id = Some b -> receive_buffers_ l' !! id = Some b) ->
  (op_type op = OperationType.Timeout -> forall b, timeout_specs_ l !! id = Some b -> timeout_specs_ l' !! id = Some b) ->
  (zero_copy op = true -> forall b, zero_copy_buffers_ l !! id = Some b -> zero_copy_buffers_ l' !! id = Some b) ->
  op_ok l' id op.
Proof.
  intros (Hid & H & Hzc) Hk Ho Hr Ht Hz. split; [done|split; [|done] ].
  assert (Hk' : forall s, kernel_ l !! id = Some s -> kernel_ l' !! id = Some s)
    by (intros s Hs; eapply lookup_weaken; eauto).
  destruct (op_type op); naive_solver.
Qed.

Lemma flow_mono sent l l' c rest :
  flow sent l c rest -> kernel_ l ⊆ kernel_ l' -> (forall id, sends l' c id -> sends l c id) ->
  written l' c = written l c ->
  (forall t', objects_ l' !! c = Some t' -> c ∈ connections_ l' ->
     c ∈ connections_ l /\ exists t, objects_ l !! c = Some t /\ unsent t = unsent t' /\
       send_in_flight_ t = send_in_flight_ t' /\ next_view t = next_view t') ->
  flow sent l' c rest.
Proof.
  intros [Hw Hv H1 Ho] Hk Hs Ew Hobj. split.
  - by rewrite Ew.
  - intros id Hid. destruct (Hv id (Hs _ Hid)) as (zc & view & Hkk & ? & ?). exists zc, view.
    split; [by eapply lookup_weaken|done].
  - auto.
  - intros t' Ht' Hc. destruct (Hobj t' Ht' Hc) as (Hc0 & t & Ht & Eu & Ef & Ev).
    destruct (Ho t Ht Hc0) as [-> Hp]. split; [done|]. intros id Hid.
    destruct (Hp id (Hs _ Hid)) as [? [zc Hz] ]. rewrite <- Ef, <- Ev. split; [done|]. exists zc.
    by eapply lookup_weaken.
Qed.

Lemma inv_same notifs sent held l l' :
  core l' = core l -> (forall c, written l' c = written l c) -> Inv notifs sent held l -> Inv notifs sent held l'.
Proof.
  unfold core. intros E Ew H. injection E as E1 E2 E3 E4 E5 E6 E7 E8 E9 E10.
  destruct H. split; rewrite ?E1, ?E2, ?E3, ?E4, ?E5, ?E6, ?E7, ?E8, ?E9, ?E10; try done.
  - intros id op Hop. eapply op_ok_mono; [by apply inv_ops0|..]; by rewrite ?E2, ?E8, ?E5, ?E6, ?E7.
  - intros id Hid. unfold notif_ok. rewrite E2, E3, E7. by apply inv_notifs0.
  - intros c t Ht. unfold object_ok. rewrite E9, E10. by apply inv_objects0.
  - intros c. rewrite Ew. apply inv_silent0.
  - intros c. destruct (inv_flow0 c) as [rest Hf]. exists rest. eapply flow_mono; [done|..].
    + by rewrite E2.
    + unfold sends. by rewrite E3.
    + done.
    + rewrite E8, E9. intros t' Ht' Hc. split; [done|]. by exists t'.
Qed.

(** The new id of an operation is new everywhere. *)
Record fresh_in (l : Loop) (id : Z) : Prop := mkFresh {
  fr_kernel : kernel_ l !! id = None;
  fr_operations : operations_ l !! id = None;
  fr_receive : receive_buffers_ l !! id = None;
  fr_spec : timeout_specs_ l !! id = None;
  fr_zero_copy : zero_copy_buffers_ l !! id = None
}.

Definition with_id (op : OperationContext) (id : Z) : OperationContext :=
  mkOperationContext (op_type op) id (op_connection_id op) (op_generation op) (op_connection op)
    (timeout_purpose op) (zero_copy op).
Definition submitted (l : Loop) (op : OperationContext) (sqe : Sqe) (id : Z) : Loop :=
  set_kernel (set_operations (set_ids_drawn l (S (ids_drawn l))) (<[id := with_id op id]> (operations_ l)))
    (<[id := sqe]> (kernel_ l)).

Hypothesis draw_inj : forall n m, generate_id64 n = generate_id64 m -> n = m.

Lemma op_kernel notifs sent held l id op :
  Inv notifs sent held l -> operations_ l !! id = Some op -> is_Some (kernel_ l !! id).
Proof.
  intros H Hop. destruct (inv_ops _ _ _ _ H id op Hop) as (_ & Hk & _).
  destruct (op_type op); naive_solver.
Qed.

Lemma next_id_fresh notifs sent held l : Inv notifs sent held l -> fresh_in l (generate_id64 (ids_drawn l)).
Proof.
  intros H. assert (Hk : kernel_ l !! generate_id64 (ids_drawn l) = None).
  { destruct (kernel_ l !! _) as [s|] eqn:E; [|done]. apply (inv_ids _ _ _ _ H) in E as (n & Hn & E).
    apply draw_inj in E. lia. }
  assert (Hnot : forall A (m : gmap Z A), (forall id v, m !! id = Some v -> is_Some (kernel_ l !! id)) ->
    m !! generate_id64 (ids_drawn l) = None).
  { intros A m Hm. destruct (m !! _) as [v|] eqn:E; [|done]. apply Hm in E. rewrite Hk in E. by destruct E. }
  split; [done|apply Hnot..].
  - intros id v. by eapply op_kernel.
  - intros id b Hb. destruct (inv_receives _ _ _ _ H id b Hb) as (op & Hop & _). by eapply op_kernel.
  - apply (inv_specs _ _ _ _ H).
  - intros i b Hb. destruct (inv_zero_copy _ _ _ _ H i b Hb) as (c & view & ->). by eexists.
Qed.

Lemma submit_fresh notifs sent held l op sqe :
  Inv notifs sent held l ->
  submit l op sqe = (submitted l op sqe (generate_id64 (ids_drawn l)), generate_id64 (ids_drawn l)).
Proof.
  intros H. unfold EventLoop.submit, create, emplace. cbn.
  by rewrite (fr_operations _ _ (next_id_fresh _ _ _ _ H)).
Qed.

(** ** Submitting *)

Lemma sends_submitted l l' op id c id' :
  operations_ l' = <[id := with_id op id]> (operations_ l) ->
  (op_type op = OperationType.Send -> op_connection op <> Some c) ->
  sends l' c id' -> sends l c id'.
Proof.
  intros E Hn (op' & Hop & Ht & Hc). rewrite E in Hop. apply lookup_insert_Some in Hop as [ [<- <-]|[_ Hop] ].
  - by destruct (Hn Ht).
  - by exists op'.
Qed.

Lemma inv_submitted notifs sent held held' l l' op sqe id :
  Inv notifs sent held l -> id = generate_id64 (ids_drawn l) ->
  ids_drawn l' = S (ids_drawn l) ->
  kernel_ l' = <[id := sqe]> (kernel_ l) -> operations_ l' = <[id := with_id op id]> (operations_ l) ->
  objects_ l' = objects_ l -> connections_ l' = connections_ l ->
  next_connection_id_ l' = next_connection_id_ l -> log_ l' = log_ l ->
  receive_buffers_ l ⊆ receive_buffers_ l' -> timeout_specs_ l ⊆ timeout_specs_ l' ->
  zero_copy_buffers_ l ⊆ zero_copy_buffers_ l' ->
  op_ok l' id (with_id op id) ->
  free_list_ l' ++ (map_to_list (receive_buffers_ l')).*2 ++ held' ≡ₚ seqZ 0 (provided_buffer_count config_) ->
  (forall i b, receive_buffers_ l' !! i = Some b -> receive_buffers_ l !! i = Some b \/ (i = id /\ op_type op = OperationType.Receive)) ->
  (forall i b, timeout_specs_ l' !! i = Some b -> timeout_specs_ l !! i = Some b \/ i = id) ->
  (forall i b, zero_copy_buffers_ l' !! i = Some b ->
     zero_copy_buffers_ l !! i = Some b \/ (i = id /\ exists c view, sqe = SqeSend c true view)) ->
  (forall c rest, op_type op = OperationType.Send -> op_connection op = Some c -> flow sent l c rest -> flow sent l' c rest) ->
  Inv notifs sent held' l'.
Proof.
  intros H -> Ed Ek Eo Eobj Ec En El Hr Ht Hz Hnew Hpool Hrec Hsp Hzc Hflow.
  pose proof (next_id_fresh _ _ _ _ H) as Hfr. pose proof H as [Hids Hops _ Hrs Hsps Hzs Hnt Hobjs Hcs Hsil Hnx Hfl].
  set (id := generate_id64 (ids_drawn l)) in *.
  assert (Hsub : kernel_ l ⊆ kernel_ l') by (rewrite Ek; apply insert_subseteq, (fr_kernel _ _ Hfr)).
  split; rewrite ?Eobj, ?Ec, ?En; try done.
  - intros i s. rewrite Ek, Ed. intros [ [<- _]|[_ Hs] ]%lookup_insert_Some; [exists (ids_drawn l); split; [lia|done]|].
    destruct (Hids i s Hs) as (n & Hn & ->). exists n. split; [lia|done].
  - intros i o. rewrite Eo. intros [ [<- <-]|[_ Ho] ]%lookup_insert_Some; [done|].
    eapply op_ok_mono; [by apply Hops|done|by rewrite Eobj|..]; intros _ b Hb; by eapply lookup_weaken.
  - intros i b Hb. rewrite Eo. destruct (Hrec i b Hb) as [Hold|[-> Hty] ].
    + destruct (Hrs i b Hold) as (o & Ho & Hto). exists o. split; [|done]. apply lookup_insert_Some. right.
      split; [|done]. intros <-. rewrite (fr_operations _ _ Hfr) in Ho. done.
    + exists (with_id op id). split; [apply lookup_insert_eq|done].
  - intros i b Hb. rewrite Ek. apply lookup_insert_is_Some'. destruct (Hsp i b Hb) as [Hold|Heq]; [right; by eapply Hsps|by left].
  - intros i b Hb. rewrite Ek. destruct (Hzc i b Hb) as [Hold|[-> (c & view & ->)] ].
    + destruct (Hzs i b Hold) as (c & view & Hkk). exists c, view. apply lookup_insert_Some. right. split; [|done].
      intros <-. rewrite (fr_kernel _ _ Hfr) in Hkk. done.
    + exists c, view. apply lookup_insert_eq.
  - intros i Hi. destruct (Hnt i Hi) as (Hio & c & view & b & Hik & Hib & Hsuf). split.
    + rewrite Eo. apply lookup_insert_None. split; [done|]. intros <-. rewrite (fr_zero_copy _ _ Hfr) in Hib. done.
    + exists c, view, b. split; [by eapply lookup_weaken|]. split; [by eapply lookup_weaken|done].
  - intros c t Ht'. unfold object_ok. rewrite Ec, En. by apply Hobjs.
  - intros c. unfold written. rewrite El. apply Hsil.
  - intros c. destruct (Hfl c) as [rest Hf]. exists rest.
    destruct (decide (op_type op = OperationType.Send /\ op_connection op = Some c)) as [ [Ho Hoc]|Hno]; [by apply Hflow|].
    eapply flow_mono; [done|done| | |].
    + intros i. eapply sends_submitted; [done|naive_solver].
    + unfold written. by rewrite El.
    + rewrite Eobj, Ec. intros t' Ht' Hc'. split; [done|]. by exists t'.
Qed.

Definition plain (op : OperationContext) (sqe : Sqe) : Prop :=
  zero_copy op = false /\ op_connection op = None /\
  match op_type op with
  | OperationType.Accept => sqe = SqeAccept
  | OperationType.Cancel => exists target, sqe = SqeCancel target
  | OperationType.Wakeup => sqe = SqePoll
  | _ => False
  end.

Lemma inv_submit_plain notifs sent held l op sqe :
  plain op sqe -> Inv notifs sent held l -> Inv notifs sent held (submit l op sqe).1.
Proof.
  intros (Hzc & Hc & Hp) H. rewrite (submit_fresh _ _ _ _ _ _ H). cbn [fst].
  eapply (inv_submitted _ _ _ _ _ _ op sqe); [exact H|reflexivity..| | | | | |]; try done; try (by left).
  - split; [done|]. split; [|cbn; congruence]. cbn.
    destruct (op_type op) eqn:Et; try done; try (split; [|done]); rewrite ?lookup_insert_eq; try congruence.
    destruct Hp as [target ->]. by exists target.
  - apply (inv_pool _ _ _ _ H).
  - intros c rest Hs. by rewrite Hs in Hp.
Qed.

Lemma inv_submit_timeout notifs sent held l l' c ms purpose cid gen id :
  Inv notifs sent held l -> is_Some (objects_ l !! c) ->
  submit l (mkOperationContext OperationType.Timeout 0 cid gen (Some c) purpose false) (SqeTimeout ms) = (l', id) ->
  Inv notifs sent held (set_timeout_specs l' (emplace (timeout_specs_ l') id ms)).
Proof.
  intros H Hc. rewrite (submit_fresh _ _ _ _ _ _ H). intros [= <- <-].
  pose proof (next_id_fresh _ _ _ _ H) as Hfr.
  eapply (inv_submitted _ _ _ _ _ _ (mkOperationContext OperationType.Timeout 0 cid gen (Some c) purpose false));
    [exact H|reflexivity..| | | | | | | |]; cbn; try done;
    unfold emplace; rewrite ?(fr_spec _ _ Hfr).
  - apply insert_subseteq, (fr_spec _ _ Hfr).
  - split; [done|]. split; [|done]. cbn. exists c, ms. rewrite !lookup_insert_eq. done.
  - apply (inv_pool _ _ _ _ H).
  - intros i b Hb. by left.
  - intros i b [ [<- _]|[_ Hb] ]%lookup_insert_Some; [by right|by left].
  - intros i b Hb. by left.
Qed.

(** ** The pool *)

Lemma inv_pool_change notifs sent held held' l l' :
  core (set_free_list l' (free_list_ l)) = core l -> (forall c, written l' c = written l c) ->
  free_list_ l' ++ (map_to_list (receive_buffers_ l)).*2 ++ held' ≡ₚ
    free_list_ l ++ (map_to_list (receive_buffers_ l)).*2 ++ held ->
  Inv notifs sent held l -> Inv notifs sent held' l'.
Proof.
  intros E Ew Hp H. pose proof (inv_same notifs sent held l _ E Ew H) as H'.
  destruct H'. split; try done.
  - cbn in *. unfold core in E. injection E as _ _ _ Er _ _ _ _ _. rewrite Er, Hp. apply (inv_pool _ _ _ _ H).
  - intros c. destruct (inv_flow0 c) as [rest Hf]. exists rest.
    eapply flow_mono; [exact Hf|done..|]. intros t' Ht' Hc. split; [done|]. by exists t'.
Qed.

Lemma inv_acquire notifs sent held l l' b :
  Inv notifs sent held l -> acquire l = (l', Some b) -> Inv notifs sent (b :: held) l'.
Proof.
  unfold acquire. destruct (list.last (free_list_ l)) as [b'|] eqn:E; [|discriminate].
  intros H [= <- <-]. eapply inv_pool_change; [| |  |exact H]; [done|done|]. cbn.
  apply last_Some in E as [fl E]. rewrite E, removelast_last. solve_Permutation.
Qed.

Lemma inv_acquire_none notifs sent held l l' :
  Inv notifs sent held l -> acquire l = (l', None) -> Inv notifs sent held l'.
Proof.
  unfold acquire. destruct (list.last (free_list_ l)) as [b'|] eqn:E; [discriminate|].
  intros H [= <-]. by eapply inv_same; [| |exact H].
Qed.

Lemma inv_release notifs sent held l b : Inv notifs sent (b :: held) l -> Inv notifs sent held (release l (Some b)).
Proof.
  intros H. eapply inv_pool_change; [| | |exact H]; [done|done|]. cbn. solve_Permutation.
Qed.

Lemma inv_submit_receive notifs sent held l l' c b cid gen id :
  Inv notifs sent (b :: held) l -> is_Some (objects_ l !! c) ->
  submit l (mkOperationContext OperationType.Receive 0 cid gen (Some c) TimeoutPurpose.None false) (SqeRecv c b) = (l', id) ->
  Inv notifs sent held (set_receive_buffers l' (emplace (receive_buffers_ l') id b)).
Proof.
  intros H Hc. rewrite (submit_fresh _ _ _ _ _ _ H). intros [= <- <-].
  pose proof (next_id_fresh _ _ _ _ H) as Hfr.
  eapply (inv_submitted _ _ _ _ _ _ (mkOperationContext OperationType.Receive 0 cid gen (Some c) TimeoutPurpose.None false));
    [exact H|reflexivity..| | | | | | | | |]; cbn; try done;
    unfold emplace; rewrite ?(fr_receive _ _ Hfr).
  - apply insert_subseteq, (fr_receive _ _ Hfr).
  - split; [done|]. split; [|done]. cbn. exists c, b. rewrite !lookup_insert_eq. done.
  - rewrite map_to_list_insert by apply (fr_receive _ _ Hfr). cbn.
    etransitivity; [|apply (inv_pool _ _ _ _ H)]. solve_Permutation.
  - intros i b' [ [<- _]|[_ Hb] ]%lookup_insert_Some; [by right|by left].
  - intros i b' Hb. by left.
  - intros i b' Hb. by left.
Qed.

(** ** Sending *)

Lemma inv_submit_send notifs sent held l l' c t zc cid gen id :
  Inv notifs sent held l -> c ∈ connections_ l -> objects_ l !! c = Some t ->
  send_in_flight_ t = true -> next_view t <> [] -> (forall i, ~ sends l c i) ->
  submit l (mkOperationContext OperationType.Send 0 cid gen (Some c) TimeoutPurpose.None zc)
    (SqeSend c zc (next_view t)) = (l', id) ->
  Inv notifs sent held (if zc then set_zero_copy_buffers l' (emplace (zero_copy_buffers_ l') id (next_write_buffer t)) else l').
Proof.
  intros H Hc Ht Hf Hv Hno. rewrite (submit_fresh _ _ _ _ _ _ H). intros [= <- <-].
  pose proof (next_id_fresh _ _ _ _ H) as Hfr.
  set (op := mkOperationContext OperationType.Send 0 cid gen (Some c) TimeoutPurpose.None zc).
  set (id := generate_id64 (ids_drawn l)) in *.
  assert (Hz : zero_copy_buffers_ l ⊆ emplace (zero_copy_buffers_ l) id (next_write_buffer t)).
  { unfold emplace. rewrite (fr_zero_copy _ _ Hfr). apply insert_subseteq, (fr_zero_copy _ _ Hfr). }
  destruct (inv_flow _ _ _ _ H c) as [rest Hfl]. pose proof (fl_open _ _ _ _ Hfl t Ht Hc) as [Hrest _].
  destruct (inv_objects _ _ _ _ H c t Ht) as (_ & Hq & _). destruct (Hq Hc) as [_ Hqo].
  destruct (next_view_unsent t Hqo) as [r' Hr'].
  assert (Hnewflow : forall l0, kernel_ l0 = <[id := SqeSend c zc (next_view t)]> (kernel_ l) ->
    operations_ l0 = <[id := with_id op id]> (operations_ l) -> objects_ l0 = objects_ l ->
    connections_ l0 = connections_ l -> log_ l0 = log_ l -> flow sent l0 c rest).
  { intros l0 Ek Eo Eobj Ec El.
    assert (Hs : forall i, sends l0 c i -> i = id).
    { intros i (o & Ho & Hto & Hco). rewrite Eo in Ho. apply lookup_insert_Some in Ho as [ [-> _]|[_ Ho] ]; [done|].
      destruct (Hno i). by exists o. }
    split.
    - unfold written. rewrite El. apply (fl_written _ _ _ _ Hfl).
    - intros i ->%Hs. exists zc, (next_view t). rewrite Ek, lookup_insert_eq. split; [done|]. split; [done|].
      rewrite Hrest, Hr'. by apply prefix_app_r.
    - by intros i1 i2 ->%Hs ->%Hs.
    - intros t' Ht' _. rewrite Eobj in Ht'. simplify_eq. split; [done|]. intros i ->%Hs. split; [done|].
      exists zc. by rewrite Ek, lookup_insert_eq. }
  assert (Hok : forall l0, kernel_ l0 = <[id := SqeSend c zc (next_view t)]> (kernel_ l) -> objects_ l0 = objects_ l ->
    (zc = true -> zero_copy_buffers_ l0 !! id = Some (next_write_buffer t)) -> op_ok l0 id (with_id op id)).
  { intros l0 Ek Eobj Hb. split; [done|]. split; [|done]. cbn. exists c, (next_view t).
    rewrite Ek, Eobj, lookup_insert_eq. split; [done|]. split; [done|]. split; [by exists t|].
    intros Ezc. exists (next_write_buffer t). split; [auto|]. apply suffix_drop. }
  destruct zc.
  - eapply (inv_submitted _ _ _ _ _ _ op); [exact H|reflexivity..| | | | | | | | |]; cbn; try done.
    + apply Hok; [done|done|]. intros _. cbn. unfold emplace. rewrite (fr_zero_copy _ _ Hfr). apply lookup_insert_eq.
    + apply (inv_pool _ _ _ _ H).
    + intros i b Hb. by left.
    + intros i b Hb. by left.
    + intros i b. unfold emplace. rewrite (fr_zero_copy _ _ Hfr).
      intros [ [<- _]|[_ Hb] ]%lookup_insert_Some; [right; split; [done|by eexists _, _]|by left].
    + intros c' rest' _ [= <-] Hfl'.
      assert (rest' = rest) as -> by (destruct Hfl' as [Hw' _ _ _]; rewrite (fl_written _ _ _ _ Hfl) in Hw'; by apply app_inv_head in Hw').
      by apply Hnewflow.
  - eapply (inv_submitted _ _ _ _ _ _ op); [exact H|reflexivity..| | | | | | | | |]; cbn; try done.
    + by apply Hok.
    + apply (inv_pool _ _ _ _ H).
    + intros i b Hb. by left.
    + intros i b Hb. by left.
    + intros i b Hb. by left.
    + intros c' rest' _ [= <-] Hfl'.
      assert (rest' = rest) as -> by (destruct Hfl' as [Hw' _ _ _]; rewrite (fl_written _ _ _ _ Hfl) in Hw'; by apply app_inv_head in Hw').
      by apply Hnewflow.
Qed.

(** ** The connections *)

(** Everything but the objects and the registry. *)
Definition rest_of_core (l : Loop) :=
  (ids_drawn l, kernel_ l, operations_ l, free_list_ l, receive_buffers_ l, timeout_specs_ l,
   zero_copy_buffers_ l, next_connection_id_ l).

Lemma inv_one_object notifs sent held l l' c t t' :
  Inv notifs sent held l -> objects_ l !! c = Some t -> objects_ l' = <[c := t']> (objects_ l) ->
  rest_of_core l' = rest_of_core l ->
  connections_ l' = connections_ l \/ connections_ l' = connections_ l ∖ {[c]} ->
  object_ok l' c t' -> (forall c', c' <> c -> written l' c' = written l c') ->
  (forall rest, flow sent l c rest -> exists rest', flow sent l' c rest') ->
  Inv notifs sent held l'.
Proof.
  unfold rest_of_core. intros H Ht Eo E Hc Hok Hw Hfl. injection E as E1 E2 E3 E4 E5 E6 E7 E8.
  assert (Hsome : forall c', is_Some (objects_ l' !! c') <-> is_Some (objects_ l !! c')).
  { intros c'. rewrite Eo, lookup_insert_is_Some'. split; [intros [<-|?]; [by exists t|done]|by right]. }
  destruct H as [Hids Hops Hpool Hrs Hsp Hzc Hnt Hobj Hcs Hsil Hn Hflow].
  assert (Hin : forall c', c' <> c -> c' ∈ connections_ l' <-> c' ∈ connections_ l) by (destruct Hc as [-> | ->]; set_solver).
  split; rewrite ?E1, ?E2, ?E3, ?E4, ?E5, ?E6, ?E7, ?E8; try done.
  - intros id op Hop. eapply op_ok_mono; [by apply Hops|..]; rewrite ?E2, ?E5, ?E6, ?E7; try done. intros c'. apply Hsome.
  - intros i Hi. unfold notif_ok. rewrite E2, E3, E7. by apply Hnt.
  - intros c' t0. rewrite Eo. intros [ [<- <-]|[Hne Ht0] ]%lookup_insert_Some; [done|].
    destruct (Hobj c' t0 Ht0) as (? & ? & ? & ?). unfold object_ok. rewrite E8, Hin by done. done.
  - intros c' Hc'. apply Hsome, Hcs. destruct Hc as [Hc|Hc]; rewrite Hc in Hc'; set_solver.
  - intros c' Hnone. rewrite Eo in Hnone. apply lookup_insert_None in Hnone as [Hnone Hne].
    rewrite Hw by done. by apply Hsil.
  - intros c'. destruct (Hflow c') as [rest Hf]. destruct (decide (c' = c)) as [->|Hne]; [by eapply Hfl|].
    exists rest. eapply flow_mono; [exact Hf|by rewrite E2|unfold sends; by rewrite E3|by apply Hw|].
    rewrite Eo, lookup_insert_ne by done. intros t0 Ht0 Hc0. split; [by apply Hin|]. by exists t0.
Qed.

(** An object whose queue stays as it is. *)
Lemma inv_put_object notifs sent held l t t' :
  let c := connection_id_ t' in
  Inv notifs sent held l -> objects_ l !! c = Some t ->
  unsent t' = unsent t -> next_view t' = next_view t -> send_in_flight_ t' = send_in_flight_ t ->
  (queue_ok t -> queue_ok t') ->
  (c ∈ connections_ l -> is_closing t' = false) -> (c ∉ connections_ l -> state_ t' = ConnectionState.Closed) ->
  Inv notifs sent held (put_object l t').
Proof.
  intros c H Ht Eu Ev Ef Hq Hin Hout. destruct (inv_objects _ _ _ _ H c t Ht) as (Hid & Hopen & Hclosed & Hn).
  eapply inv_one_object; [exact H|exact Ht|done|done|by left|..].
  - split; [done|]. split; [intros Hc; split; [by apply Hin|by apply Hq, Hopen]|]. by split.
  - done.
  - intros rest Hf. exists rest. eapply flow_mono; [exact Hf|done..|]. cbn. fold c. rewrite lookup_insert_eq.
    intros ? [= <-] Hc. split; [done|]. by exists t.
Qed.

Lemma inv_enqueue notifs sent held l c t t' buffer submit :
  Inv notifs sent held l -> objects_ l !! c = Some t -> enqueue_write t buffer = (t', Queued submit) ->
  Inv notifs sent held (emit_log (put_object l t') (QueuedWrite c buffer)) /\
  (submit = true -> forall i, ~ sends l c i).
Proof.
  intros H Ht He. destruct (inv_objects _ _ _ _ H c t Ht) as (Hid & Hopen & Hclosed & Hn).
  assert (Hc : c ∈ connections_ l).
  { destruct (decide (c ∈ connections_ l)) as [|Hno]; [done|]. apply Hclosed in Hno.
    unfold enqueue_write, is_closing in He. rewrite Hno in He. discriminate. }
  destruct (Hopen Hc) as [Hcl Hq].
  destruct (enqueue_write_queued t buffer t' submit Hq He) as (Hq' & Hu & Hs & _ & Hv0 & Hv1 & Et).
  assert (Eid : connection_id_ t' = c) by (rewrite Et; done).
  assert (Hno : submit = true -> forall i, ~ sends l c i).
  { intros Hsub i Hi. destruct (inv_flow _ _ _ _ H c) as [rest Hf].
    destruct (fl_open _ _ _ _ Hf t Ht Hc) as [_ Hp]. destruct (Hp i Hi) as [Hin _]. rewrite Hs, Hin in Hsub. done. }
  split; [|done]. eapply (inv_one_object _ _ _ l _ c t t'); [exact H|exact Ht|cbn; by rewrite Eid|done|by left|..].
  - split; [done|]. split; [intros _; split; [|done]|split; [done|done] ].
    rewrite Et. exact Hcl.
  - intros c' Hne. unfold written. cbn. rewrite omap_app. cbn. rewrite decide_False by done. by rewrite app_nil_r.
  - intros rest [Hw Hvw H1 Ho]. exists (rest ++ buffer). destruct (Ho t Ht Hc) as [Er Hp]. split.
    + unfold written in *. cbn. rewrite omap_app, concat_app, Hw. cbn. rewrite decide_True by done. cbn.
      by rewrite app_nil_r, app_assoc.
    + intros id Hid0. destruct (Hvw id Hid0) as (zc & view & Hk & Hne & Hpre). exists zc, view.
      split; [done|]. split; [done|]. by apply prefix_app_r.
    + exact H1.
    + cbn. rewrite Eid, lookup_insert_eq. intros ? [= <-] _. split; [by rewrite Hu, Er|].
      intros id Hid0. destruct (Hp id Hid0) as [Hfl [zc Hz] ]. split; [rewrite Et; done|]. exists zc.
      rewrite Hv1; [done|]. by apply (qo_in_flight t Hq).
Qed.

Lemma inv_remove notifs sent held l t t' :
  let c := connection_id_ t' in
  Inv notifs sent held l -> objects_ l !! c = Some t -> state_ t' = ConnectionState.Closed ->
  Inv notifs sent held (set_connections (put_object l t') (connections_ l ∖ {[c]})).
Proof.
  intros c H Ht Hs. destruct (inv_objects _ _ _ _ H c t Ht) as (Hid & Hopen & Hclosed & Hn).
  eapply inv_one_object; [exact H|exact Ht|done|done|by right|..].
  - split; [done|]. cbn. split; [set_solver|]. by split.
  - done.
  - intros rest Hf. exists rest. eapply flow_mono; [exact Hf|done..|]. cbn. set_solver.
Qed.

(** ** Taking a completed operation *)

Lemma sends_taken l l' id c i :
  operations_ l' = delete id (operations_ l) -> sends l' c i -> sends l c i /\ i <> id.
Proof.
  intros E (op & Hop & ?). rewrite E in Hop. apply lookup_delete_Some in Hop as [Hne Hop].
  split; [by exists op|done].
Qed.

Lemma inv_take notifs sent held l id op :
  Inv notifs sent held l -> operations_ l !! id = Some op -> op_type op <> OperationType.Receive ->
  Inv notifs sent held (set_operations l (delete id (operations_ l))).
Proof.
  intros H Hop Hty. destruct H as [Hids Hops Hpool Hrs Hsp Hzc Hnt Hobj Hcs Hsil Hn Hflow].
  split; try done; cbn.
  - intros i o [Hne Ho]%lookup_delete_Some. eapply op_ok_mono; [by apply Hops|done..].
  - intros i b Hb. destruct (Hrs i b Hb) as (o & Ho & Hto). exists o. split; [|done].
    apply lookup_delete_Some. split; [|done]. intros <-. simplify_eq.
  - intros i Hi. destruct (Hnt i Hi) as [Hio Hik]. split; [|done]. cbn. rewrite lookup_delete_None. by right.
  - intros c. destruct (Hflow c) as [rest Hf]. exists rest. eapply flow_mono; [exact Hf|done| |done|].
    + intros i (o & Ho & Hs). cbn in Ho. apply lookup_delete_Some in Ho as [_ Ho]. by exists o.
    + intros t' Ht' Hc. split; [done|]. by exists t'.
Qed.

Lemma inv_take_receive notifs sent held l id op b :
  Inv notifs sent held l -> operations_ l !! id = Some op -> receive_buffers_ l !! id = Some b ->
  Inv notifs sent (b :: held)
    (set_receive_buffers (set_operations l (delete id (operations_ l))) (delete id (receive_buffers_ l))).
Proof.
  intros H Hop Hb. pose proof H as [Hids Hops Hpool Hrs Hsp Hzc Hnt Hobj Hcs Hsil Hn Hflow].
  split; try done; cbn.
  - intros i o [Hne Ho]%lookup_delete_Some. eapply op_ok_mono; [by apply Hops|done..| |done|done].
    intros _ b' Hb'. cbn. by rewrite lookup_delete_ne.
  - rewrite <- Hpool. rewrite <- (map_to_list_delete (receive_buffers_ l) id b Hb). cbn. solve_Permutation.
  - intros i b' [Hne Hb']%lookup_delete_Some. destruct (Hrs i b' Hb') as (o & Ho & Hto). exists o.
    by rewrite lookup_delete_ne.
  - intros i Hi. destruct (Hnt i Hi) as [Hio Hik]. split; [|done]. cbn. rewrite lookup_delete_None. by right.
  - intros c. destruct (Hflow c) as [rest Hf]. exists rest. eapply flow_mono; [exact Hf|done| |done|].
    + intros i (o & Ho & Hs). cbn in Ho. apply lookup_delete_Some in Ho as [_ Ho]. by exists o.
    + intros t' Ht' Hc. split; [done|]. by exists t'.
Qed.

Lemma inv_drop_zero_copy notifs sent held l id :
  Inv notifs sent held l -> operations_ l !! id = None -> id ∉ notifs ->
  Inv notifs sent held (set_zero_copy_buffers l (delete id (zero_copy_buffers_ l))).
Proof.
  intros H Hno Hnn. destruct H as [Hids Hops Hpool Hrs Hsp Hzc Hnt Hobj Hcs Hsil Hn Hflow].
  split; try done; cbn.
  - intros i o Ho. eapply op_ok_mono; [by apply Hops|done..|]. intros _ b Hb. cbn.
    rewrite lookup_delete_ne; [done|]. intros ->. simplify_eq.
  - intros i b [_ Hb]%lookup_delete_Some. by eapply Hzc.
  - intros i Hi. destruct (Hnt i Hi) as (Hio & c & view & b & Hik & Hib & Hsuf). split; [done|].
    exists c, view, b. cbn. rewrite lookup_delete_ne; [done|]. by intros ->.
  - intros c. destruct (Hflow c) as [rest Hf]. exists rest. eapply flow_mono; [exact Hf|done..|].
    intros t' Ht' Hc. split; [done|]. by exists t'.
Qed.

Lemma inv_notifs_change notifs notifs' sent held l :
  (forall id, id ∈ notifs' -> notif_ok l id) -> Inv notifs sent held l -> Inv notifs' sent held l.
Proof. intros Hn []. by split. Qed.

Lemma inv_drop_spec notifs sent held l id :
  Inv notifs sent held l -> operations_ l !! id = None ->
  Inv notifs sent held (set_timeout_specs l (delete id (timeout_specs_ l))).
Proof.
  intros H Hno. destruct H as [Hids Hops Hpool Hrs Hsp Hzc Hnt Hobj Hcs Hsil Hn Hflow].
  split; try done; cbn.
  - intros i o Ho. eapply op_ok_mono; [by apply Hops|done..| |done]. intros _ b Hb. cbn.
    rewrite lookup_delete_ne; [done|]. intros ->. simplify_eq.
  - intros i b [_ Hb]%lookup_delete_Some. by eapply Hsp.
  - intros c. destruct (Hflow c) as [rest Hf]. exists rest. eapply flow_mono; [exact Hf|done..|].
    intros t' Ht' Hc. split; [done|]. by exists t'.
Qed.

(** ** A new connection *)

Lemma make_connection_id_inj n m :
  0 <= n < 2 ^ 56 -> 0 <= m < 2 ^ 56 -> make_connection_id n = make_connection_id m -> n = m.
Proof.
  assert (Hlow : forall n, 0 <= n < 2 ^ 56 -> make_connection_id n mod 2 ^ 56 = n).
  { clear. intros n Hn. unfold EventLoop.make_connection_id.
    change (Z.shiftl 1 56 - 1) with (Z.ones 56). rewrite Z.land_ones by lia. rewrite (Z.mod_small n) by lia.
    rewrite <- Z.land_ones by lia. rewrite Z.land_lor_distr_l, !Z.land_ones by lia.
    rewrite (Z.mod_small n) by lia. unfold u64. rewrite Z.shiftl_mul_pow2 by lia.
    assert (E : (u64 (worker_id config_ + 1) * 2 ^ 56) mod 2 ^ 64 mod 2 ^ 56 = 0).
    { change (2 ^ 64) with (2 ^ 56 * 2 ^ 8). rewrite Z.rem_mul_r by lia. rewrite Z.mod_mul by lia.
      rewrite Z.add_0_l, (Z.mul_comm (2 ^ 56)), Z.mod_mul by lia. done. }
    unfold u64 in E. rewrite E. apply Z.lor_0_l. }
  intros Hn Hm E. rewrite <- (Hlow n Hn), E. by apply Hlow.
Qed.

Lemma inv_new_connection notifs sent held l l' t :
  let c := connection_id_ t in
  Inv notifs sent held l -> next_connection_id_ l < 2 ^ 56 -> c = make_connection_id (next_connection_id_ l) ->
  is_closing t = false -> queue_ok t -> unsent t = [] ->
  objects_ l' = <[c := t]> (objects_ l) -> connections_ l' = {[c]} ∪ connections_ l ->
  next_connection_id_ l' = next_connection_id_ l + 1 -> log_ l' = log_ l ->
  (ids_drawn l', kernel_ l', operations_ l', free_list_ l', receive_buffers_ l', timeout_specs_ l', zero_copy_buffers_ l')
  = (ids_drawn l, kernel_ l, operations_ l, free_list_ l, receive_buffers_ l, timeout_specs_ l, zero_copy_buffers_ l) ->
  Inv notifs sent held l'.
Proof.
  intros c H Hlt Hcid Hcl Hq Hu Eo Ec En El E. injection E as E1 E2 E3 E4 E5 E6 E7.
  destruct H as [Hids Hops Hpool Hrs Hsp Hzc Hnt Hobj Hcs Hsil Hn Hflow].
  assert (Hnone : objects_ l !! c = None).
  { destruct (objects_ l !! c) as [t0|] eqn:Ht0; [|done]. destruct (Hobj c t0 Ht0) as (_ & _ & _ & n & Hnn & Hc).
    rewrite Hcid in Hc. apply make_connection_id_inj in Hc; lia. }
  assert (Hnoc : c ∉ connections_ l) by (intros Hin; apply Hcs in Hin; rewrite Hnone in Hin; by destruct Hin).
  assert (Hmono : forall c', is_Some (objects_ l !! c') -> is_Some (objects_ l' !! c'))
    by (intros c' ?; rewrite Eo; apply lookup_insert_is_Some'; by right).
  assert (Hw : forall c', written l' c' = written l c') by (intros c'; unfold written; by rewrite El).
  split; rewrite ?E1, ?E2, ?E3, ?E4, ?E5, ?E6, ?E7; try done.
  - intros id op Hop. eapply op_ok_mono; [by apply Hops|..]; rewrite ?E2, ?E5, ?E6, ?E7; done.
  - intros i Hi. unfold notif_ok. rewrite E2, E3, E7. by apply Hnt.
  - intros c' t'. rewrite Eo. intros [ [<- <-]|[Hne Ht'] ]%lookup_insert_Some; unfold object_ok; rewrite Ec, En.
    + split; [done|]. split; [done|]. split; [set_solver|]. exists (next_connection_id_ l). split; [lia|done].
    + destruct (Hobj c' t' Ht') as (? & Hin & Hout & n & ? & ?). split; [done|].
      split; [intros Hc'; apply Hin; set_solver|]. split; [intros Hc'; apply Hout; set_solver|].
      exists n. split; [lia|done].
  - intros c' Hc'. rewrite Eo. apply lookup_insert_is_Some'. rewrite Ec in Hc'.
    apply elem_of_union in Hc' as [->%elem_of_singleton|Hc']; [by left|right; by apply Hcs].
  - intros c'. rewrite Eo. intros [Hc' _]%lookup_insert_None. rewrite Hw. by apply Hsil.
  - rewrite En. lia.
  - intros c'. destruct (Hflow c') as [rest Hf]. exists rest. destruct (decide (c' = c)) as [->|Hne].
    + destruct (Hsil c Hnone) as [Hw0 Hs0].
      assert (Hno : forall i, ~ sends l' c i).
      { intros i (op & Hop & Hty & Hco). rewrite E3 in Hop. destruct (Hops i op Hop) as (_ & Hk & _).
        rewrite Hty in Hk. destruct Hk as (c0 & view & Hc0 & _ & Hs & _). simplify_eq. rewrite Hnone in Hs. by destruct Hs. }
      pose proof (fl_written _ _ _ _ Hf) as Hw1. rewrite Hw0, Hs0 in Hw1. cbn in Hw1. subst rest.
      split; [by rewrite Hw, Hw0, Hs0|intros i Hi; by destruct (Hno i)|intros i1 i2 Hi; by destruct (Hno i1)|].
      rewrite Eo, lookup_insert_eq. intros ? [= <-] _. split; [done|]. intros i Hi. by destruct (Hno i).
    + eapply flow_mono; [exact Hf|by rewrite E2|unfold sends; by rewrite E3|done|].
      rewrite Eo, Ec, lookup_insert_ne by done. intros t' Ht' Hc'. split; [set_solver|]. by exists t'.
Qed.

(** ** A completed send *)

Lemma wire_snoc sent c c' bs : wire (sent ++ [(c', bs)]) c = wire sent c ++ (if decide (c' = c) then bs else []).
Proof. unfold wire. rewrite omap_app, concat_app. cbn. case_decide; cbn; by rewrite ?app_nil_r. Qed.

(** [l'] is the loop after the operation has been taken and, for an open connection, its
    queue advanced. *)
Lemma inv_sent notifs sent held l id op c zc view n :
  Inv notifs sent held l -> operations_ l !! id = Some op -> op_type op = OperationType.Send ->
  op_connection op = Some c -> kernel_ l !! id = Some (SqeSend c zc view) -> 0 < n <= zlen view ->
  let l1 := set_operations l (delete id (operations_ l)) in
  let sent' := sent ++ [(c, take (Z.to_nat n) view)] in
  (c ∉ connections_ l -> Inv notifs sent' held l1) /\
  (forall t, c ∈ connections_ l -> objects_ l !! c = Some t -> Inv notifs sent' held (put_object l1 (on_send_completion t n true))) /\
  forall i, ~ sends l1 c i.
Proof.
  intros H Hop Hty Hco Hk Hn l1 sent'.
  assert (Hs : sends l c id) by (by exists op).
  pose proof (inv_take _ _ _ _ _ _ H Hop ltac:(congruence)) as H1.
  assert (Hno : forall i, ~ sends l1 c i).
  { intros i Hi. destruct (sends_taken l l1 id c i eq_refl Hi) as [Hi' Hne].
    destruct (inv_flow _ _ _ _ H c) as [rest Hf]. apply Hne. by eapply (fl_one _ _ _ _ Hf). }
  destruct (inv_flow _ _ _ _ H c) as [rest Hf].
  destruct (fl_view _ _ _ _ Hf id Hs) as (zc' & view' & Hk' & Hvne & [r Hr]). simplify_eq.
  assert (Hwr : written l c = wire sent' c ++ drop (Z.to_nat n) view ++ r).
  { rewrite (fl_written _ _ _ _ Hf). unfold sent'. rewrite wire_snoc, decide_True by done.
    rewrite <- !app_assoc. f_equal. by rewrite app_assoc, take_drop. }
  assert (Hothers : forall c', c' <> c -> wire sent' c' = wire sent c').
  { intros c' Hne. unfold sent'. rewrite wire_snoc, decide_False by done. by rewrite app_nil_r. }
  assert (Hobj : is_Some (objects_ l !! c)).
  { destruct (inv_ops _ _ _ _ H id op Hop) as (_ & Hkk & _). rewrite Hty in Hkk. naive_solver. }
  assert (Hflow' : forall l2 c', c' <> c -> kernel_ l2 = kernel_ l -> operations_ l2 = operations_ l1 ->
    log_ l2 = log_ l -> objects_ l2 !! c' = objects_ l !! c' -> connections_ l2 = connections_ l ->
    exists rest, flow sent' l2 c' rest).
  { intros l2 c' Hne Ek Eo El Eob Ec. destruct (inv_flow _ _ _ _ H1 c') as [rest' [Hw Hv Ho Hop'] ]. exists rest'. split.
    - rewrite Hothers by done. rewrite <- Hw. unfold written. by rewrite El.
    - intros i (o & Hoo & ?). rewrite Eo in Hoo. rewrite Ek. apply Hv. by exists o.
    - intros i1 i2 (o1 & Ho1 & ?) (o2 & Ho2 & ?). rewrite Eo in *. apply Ho; by eexists.
    - rewrite Eob, Ec. intros t Ht Hc. destruct (Hop' t Ht Hc) as [-> Hp]. split; [done|].
      intros i (o & Hoo & ?). rewrite Eo in Hoo. rewrite Ek. apply Hp. by exists o. }
  split; [|split; [|done] ].
  - intros Hc. destruct H1. split; try done.
    + intros c' Hnone. destruct (inv_silent0 c' Hnone) as [Hw0 Hs0]. rewrite Hothers; [done|].
      intros ->. cbn in Hnone. rewrite Hnone in Hobj. by destruct Hobj.
    + intros c'. destruct (decide (c' = c)) as [->|Hne]; [|by apply Hflow'].
      exists (drop (Z.to_nat n) view ++ r). split; [exact Hwr|intros i Hi; by destruct (Hno i)|intros i ? Hi; by destruct (Hno i)|done].
  - intros t Hc Ht. destruct (fl_open _ _ _ _ Hf t Ht Hc) as [Hrest Hp]. destruct (Hp id Hs) as [Hfl [zc2 Hk2] ].
    simplify_eq. destruct (inv_objects _ _ _ _ H c t Ht) as (Hid & Hin & Hout & Hnum). destruct (Hin Hc) as [Hcl Hq].
    destruct (on_send_completion_success t n Hq Hn) as [Hq' Hu].
    assert (Eid : connection_id_ (on_send_completion t n true) = c)
      by (rewrite <- Hid; unfold on_send_completion; repeat case_match; done).
    assert (Ecl : is_closing (on_send_completion t n true) = false)
      by (rewrite <- Hcl; unfold on_send_completion; repeat case_match; done).
    destruct H1. split; try done.
    + intros i o Ho. eapply op_ok_mono; [by apply inv_ops0|done| |done..].
      intros c' Hc'. cbn. apply lookup_insert_is_Some'. by right.
    + intros c' t'. cbn. rewrite Eid. intros [ [<- <-]|[Hne Ht'] ]%lookup_insert_Some; [|by apply inv_objects0].
      split; [done|]. split; [done|]. by split.
    + intros c' Hc'. cbn. apply lookup_insert_is_Some'. right. by apply inv_connections0.
    + intros c'. cbn. rewrite Eid. intros [Hnone Hne]%lookup_insert_None.
      destruct (inv_silent0 c' Hnone) as [Hw0 Hs0]. rewrite Hothers by done. done.
    + intros c'. destruct (decide (c' = c)) as [->|Hne].
      * exists (drop (Z.to_nat n) (next_view t) ++ r).
        split; [exact Hwr|intros i Hi; by destruct (Hno i)|intros i ? Hi; by destruct (Hno i)|].
        cbn. rewrite Eid, lookup_insert_eq. intros ? [= <-] _. split; [|intros i Hi; by destruct (Hno i)].
        rewrite Hu, <- Hrest. rewrite drop_app_le; [done|]. unfold zlen in Hn. lia.
      * apply Hflow'; try done. cbn. by rewrite Eid, lookup_insert_ne.
Qed.

End EventLoopSafe.
