(* ===== verification/EventLoopRuns.v ===== *)
(** Every operation of the event loop keeps its invariant; what that gives over every run. *)

From S2P Require Import Prelude TcpConnection EventLoop EventLoopSafe.

(** * What changes, and how *)

(** What no operation does once its completion has been taken: end a pending operation, or
    hold the buffer of a send that is not pending. *)
Record mild (l l' : Loop) : Prop := mkMild {
  mi_reopened : reopened_ l = true -> reopened_ l' = true;
  mi_stopping : stopping_ l' = stopping_ l;
  mi_shutdown : shutdown_initiated_ l' = shutdown_initiated_ l;
  mi_deadline : shutdown_deadline_ l' = shutdown_deadline_ l;
  mi_operations : operations_ l ⊆ operations_ l';
  mi_zero_copy : forall id, is_Some (zero_copy_buffers_ l' !! id) ->
    is_Some (zero_copy_buffers_ l !! id) \/ is_Some (operations_ l' !! id)
}.
(** But for an accept, the registry only loses connections, and the log only grows. *)
Record quiet (l l' : Loop) : Prop := mkQuiet {
  qt_mild : mild l l';
  qt_connections : connections_ l' ⊆ connections_ l;
  qt_next : next_connection_id_ l' = next_connection_id_ l;
  qt_log : log_ l `prefix_of` log_ l'
}.
#[export] Instance mild_preorder : PreOrder mild.
Proof.
  split; [intros l; split; auto|]. intros l1 l2 l3 [R12 S12 D12 T12 O12 Z12] [R23 S23 D23 T23 O23 Z23].
  split; [auto|congruence..|by etransitivity|]. intros id [H|H]%Z23; [|by right].
  apply Z12 in H as [H|[op Hop] ]; [by left|]. right. exists op. by eapply lookup_weaken.
Qed.
#[export] Instance quiet_preorder : PreOrder quiet.
Proof.
  split; [by intros l; split|]. intros l1 l2 l3 [] []. split; [by etransitivity|set_solver|congruence|by etransitivity].
Qed.
Lemma qt_reopened l l' : quiet l l' -> reopened_ l = true -> reopened_ l' = true.
Proof. intros [ [] ]. done. Qed.
Lemma qt_stopping l l' : quiet l l' -> stopping_ l' = stopping_ l.
Proof. intros [ [] ]. done. Qed.
Lemma qt_shutdown l l' : quiet l l' -> shutdown_initiated_ l' = shutdown_initiated_ l.
Proof. intros [ [] ]. done. Qed.
Lemma qt_deadline l l' : quiet l l' -> shutdown_deadline_ l' = shutdown_deadline_ l.
Proof. intros [ [] ]. done. Qed.

Lemma emplace_subseteq {A} (m : gmap Z A) k v : m ⊆ emplace m k v.
Proof. unfold emplace. destruct (m !! k) eqn:E; [done|]. by apply insert_subseteq. Qed.
Lemma emplace_is_Some {A} (m : gmap Z A) k v i : is_Some (emplace m k v !! i) <-> i = k \/ is_Some (m !! i).
Proof.
  unfold emplace. destruct (m !! k) eqn:E; [|rewrite lookup_insert_is_Some'; naive_solver].
  split; [by right|]. intros [->|?]; [by exists a|done].
Qed.

Lemma mild_same l l' :
  reopened_ l' = reopened_ l -> stopping_ l' = stopping_ l -> shutdown_initiated_ l' = shutdown_initiated_ l ->
  shutdown_deadline_ l' = shutdown_deadline_ l -> operations_ l ⊆ operations_ l' -> zero_copy_buffers_ l' = zero_copy_buffers_ l -> mild l l'.
Proof. intros E1 E2 E3 E4 E5 E6. split; [by rewrite E1|done..|]. intros id. rewrite E6. by left. Qed.
Lemma quiet_same l l' :
  mild l l' -> connections_ l' = connections_ l -> next_connection_id_ l' = next_connection_id_ l ->
  log_ l' = log_ l -> quiet l l'.
Proof. intros H E1 E2 E3. split; [done|by rewrite E1|done|by rewrite E3]. Qed.
(** Close a goal whose right side is a record built from the left side's fields, with at most
    an operation more. *)
Ltac mild_fields := apply mild_same; [reflexivity|reflexivity|reflexivity|reflexivity|solve [reflexivity|apply emplace_subseteq]|reflexivity].
Ltac quiet_fields := apply quiet_same; [mild_fields|reflexivity|reflexivity|reflexivity].

Lemma fold_quiet {A} (f : Loop -> A -> Loop) xs l :
  (forall l x, quiet l (f l x)) -> quiet l (fold_left f xs l).
Proof. intros Hf. revert l. induction xs as [|x xs IH]; intros l; [reflexivity|]. etransitivity; [apply Hf|apply IH]. Qed.

Section Quiet.
Context (id64 : nat -> Z) (sqe_available : nat -> bool) (config_ : ServerConfig).

Lemma submit_accept_quiet l : quiet l (submit_accept id64 sqe_available l).
Proof. unfold submit_accept. cbn. case_match; quiet_fields. Qed.
Lemma submit_router_poll_quiet l : quiet l (submit_router_poll id64 sqe_available l).
Proof. unfold submit_router_poll. cbn. case_match; quiet_fields. Qed.
Lemma cancel_operation_quiet l i : quiet l (cancel_operation id64 sqe_available l i).
Proof. unfold cancel_operation. cbn. case_match; quiet_fields. Qed.
Lemma put_object_quiet l t : quiet l (put_object l t).
Proof. quiet_fields. Qed.
Lemma set_rtmp_quiet l v : quiet l (set_rtmp_sessions l v).
Proof. quiet_fields. Qed.
Lemma acquire_quiet l : quiet l (acquire l).1.
Proof. unfold acquire. case_match; quiet_fields. Qed.
Lemma release_quiet l b : quiet l (release l b).
Proof. destruct b; [quiet_fields|reflexivity]. Qed.
Lemma submit_quiet l op sqe : quiet l (submit id64 l op sqe).1.
Proof. quiet_fields. Qed.

Lemma submit_receive_quiet l c : quiet l (submit_receive id64 sqe_available l c).
Proof.
  unfold submit_receive. case_match; [|reflexivity]. case_match; [reflexivity|].
  pose proof (acquire_quiet l) as Ha. destruct (acquire l) as [l0 [b|] ]; [|exact Ha].
  etransitivity; [exact Ha|]. cbn. case_match; quiet_fields.
Qed.
Lemma submit_send_quiet l c : quiet l (submit_send id64 sqe_available l c).
Proof.
  unfold submit_send. destruct (objects_ l !! c) as [t|]; [|reflexivity]. destruct (negb (is_open t)); [reflexivity|].
  destruct (zlen _ =? 0); [reflexivity|]. unfold get_sqe. destruct (negb _); [quiet_fields|].
  destruct (_ <=? _); [quiet_fields|]. unfold submit, create. cbv zeta. destruct (_ && _); [|quiet_fields].
  split; [|reflexivity..]. split; [done|done|done|done|apply emplace_subseteq|].
  intros i. cbn. rewrite emplace_is_Some. intros [->|?]; [|by left]. right. apply emplace_is_Some. by left.
Qed.
Lemma cancel_all_quiet l c : quiet l (cancel_all_operations_for_connection id64 sqe_available l c).
Proof. apply fold_quiet, cancel_operation_quiet. Qed.
Lemma arm_idle_timeout_quiet l c : quiet l (arm_idle_timeout id64 sqe_available config_ l c).
Proof.
  unfold arm_idle_timeout. case_match; [|reflexivity]. do 2 (case_match; [reflexivity|]).
  match goal with |- quiet _ (let '(_, _) := ?X in _) => destruct X as [l0 t0] eqn:E end.
  transitivity l0; [|cbn; destruct (sqe_available _); quiet_fields].
  revert E. destruct (_ =? 0); intros [= <- <-]; [reflexivity|].
  etransitivity; [apply cancel_operation_quiet|quiet_fields].
Qed.
Lemma arm_handshake_timeout_quiet l c : quiet l (arm_handshake_timeout id64 sqe_available config_ l c).
Proof.
  unfold arm_handshake_timeout. case_match; [|reflexivity]. do 2 (case_match; [reflexivity|]).
  match goal with |- context [get_sqe _ ?X] => set (l0 := X) end.
  transitivity l0; [|clearbody l0; cbn; destruct (sqe_available _); quiet_fields].
  subst l0. case_match; [|reflexivity]. etransitivity; [apply cancel_operation_quiet|quiet_fields].
Qed.
Lemma cleanup_handshake_quiet l c : quiet l (cleanup_handshake_state id64 sqe_available l c).
Proof.
  unfold cleanup_handshake_state. cbv zeta. case_match; [quiet_fields|].
  etransitivity; [|apply cancel_operation_quiet]. quiet_fields.
Qed.
Lemma close_connection_quiet l c : quiet l (close_connection id64 sqe_available l c).
Proof.
  unfold close_connection. case_match; [|reflexivity]. cbv zeta.
  etransitivity; [apply put_object_quiet|]. etransitivity; [apply cancel_all_quiet|].
  etransitivity; [apply cleanup_handshake_quiet|].
  split; cbn; [mild_fields|set_solver|done|by apply prefix_app_r].
Qed.
Lemma close_quiet l c : quiet l (close id64 sqe_available l c).
Proof.
  unfold close. case_match; [|reflexivity]. case_match; [reflexivity|].
  etransitivity; [apply put_object_quiet|apply close_connection_quiet].
Qed.
Lemma async_write_quiet l c b : quiet l (async_write id64 sqe_available l c b).
Proof.
  unfold async_write. case_match; [|reflexivity]. case_match. case_match; [reflexivity|apply close_quiet|].
  transitivity (emit_log (put_object l t0) (QueuedWrite c b)).
  - split; [mild_fields|done|done|]. cbn. by apply prefix_app_r.
  - case_match; [apply submit_send_quiet|reflexivity].
Qed.
Lemma run_session_call_quiet held l call : quiet l (run_session_call id64 sqe_available held l call).
Proof. destruct call; cbn; case_match; try reflexivity; [apply async_write_quiet|apply close_connection_quiet]. Qed.
Lemma run_session_calls_quiet held l calls : quiet l (run_session_calls id64 sqe_available held l calls).
Proof. apply fold_quiet, run_session_call_quiet. Qed.
Lemma handshake_complete_quiet l held c calls : quiet l (handshake_complete id64 sqe_available config_ l held c calls).
Proof.
  unfold handshake_complete. case_match; [|reflexivity]. cbv zeta.
  etransitivity; [|apply arm_idle_timeout_quiet]. unfold start_rtmp_session. cbv zeta.
  etransitivity; [|apply run_session_calls_quiet]. etransitivity; [|apply set_rtmp_quiet].
  etransitivity; [|apply cleanup_handshake_quiet]. etransitivity; [|apply put_object_quiet].
  case_match; [reflexivity|]. split; try done. split; try done. by left.
Qed.
Lemma handshake_failed_quiet l held c calls : quiet l (handshake_failed id64 sqe_available l held c calls).
Proof.
  unfold handshake_failed. case_match; [|reflexivity]. etransitivity; [|apply run_session_calls_quiet].
  etransitivity; [|apply close_connection_quiet]. apply cleanup_handshake_quiet.
Qed.
Lemma run_call_quiet held l call : quiet l (run_call id64 sqe_available config_ held l call).
Proof.
  destruct call; [apply run_session_call_quiet|apply handshake_complete_quiet|apply handshake_failed_quiet].
Qed.
Lemma run_calls_quiet held l calls : quiet l (run_calls id64 sqe_available config_ held l calls).
Proof. apply fold_quiet, run_call_quiet. Qed.

End Quiet.

(** * Keeping the invariant *)

(** [H] is the invariant of a loop that differs in nothing the invariant reads. *)
Ltac same_core H := eapply inv_same; [| |exact H]; [reflexivity|intros ?; reflexivity].

Section Keeps.
Context (id64 : nat -> Z) (sqe_available : nat -> bool) (config_ : ServerConfig).
Hypothesis draw_inj : forall n m, generate_id64 id64 n = generate_id64 id64 m -> n = m.
Variable notifs : gset Z.
Notation Inv := (Inv id64 config_ notifs).

Lemma set_sqes_asked_keeps sent held l n : Inv sent held l -> Inv sent held (set_sqes_asked l n).
Proof. intros H. same_core H. Qed.

Lemma cancel_operation_keeps sent held l i : Inv sent held l -> Inv sent held (cancel_operation id64 sqe_available l i).
Proof.
  intros H. unfold cancel_operation, get_sqe. destruct (negb _); [by apply set_sqes_asked_keeps|].
  apply inv_submit_plain; [done| |by apply set_sqes_asked_keeps].
  split; [done|]. split; [done|]. by exists i.
Qed.
Lemma submit_accept_keeps sent held l : Inv sent held l -> Inv sent held (submit_accept id64 sqe_available l).
Proof.
  intros H. unfold submit_accept, get_sqe. destruct (negb _); [by apply set_sqes_asked_keeps|].
  match goal with |- context [submit _ ?L ?O ?S] =>
    assert (H' : Inv sent held (submit id64 L O S).1)
      by (apply inv_submit_plain; [done|by split|by apply set_sqes_asked_keeps]);
    destruct (submit id64 L O S) as [l' id]
  end. cbn in H'. same_core H'.
Qed.
Lemma submit_router_poll_keeps sent held l : Inv sent held l -> Inv sent held (submit_router_poll id64 sqe_available l).
Proof.
  intros H. unfold submit_router_poll, get_sqe. destruct (negb _); [by apply set_sqes_asked_keeps|].
  match goal with |- context [submit _ ?L ?O ?S] =>
    assert (H' : Inv sent held (submit id64 L O S).1)
      by (apply inv_submit_plain; [done|by split|by apply set_sqes_asked_keeps]);
    destruct (submit id64 L O S) as [l' id]
  end. cbn in H'. same_core H'.
Qed.

Lemma submit_receive_keeps sent held l c : Inv sent held l -> Inv sent held (submit_receive id64 sqe_available l c).
Proof.
  intros H. unfold submit_receive. destruct (objects_ l !! c) as [t|] eqn:Ht; [|done].
  destruct (negb (is_open t)); [done|]. destruct (acquire l) as [l1 [b|] ] eqn:Ha; [|by eapply inv_acquire_none].
  assert (Eo : objects_ l1 = objects_ l) by (unfold acquire in Ha; destruct (list.last _); by simplify_eq).
  apply (inv_acquire _ _ _ _ _ _ _ _ H) in Ha. unfold get_sqe. destruct (negb _).
  - apply inv_release. by apply set_sqes_asked_keeps.
  - destruct (submit _ _ _ _) as [l2 id] eqn:E. eapply inv_submit_receive; [done| | |exact E].
    + by apply set_sqes_asked_keeps.
    + cbn. rewrite Eo. by exists t.
Qed.

Lemma is_open_in sent held l c t :
  Inv sent held l -> objects_ l !! c = Some t -> is_open t = true -> c ∈ connections_ l.
Proof.
  intros H Ht Ho. destruct (inv_objects _ _ _ _ _ _ H c t Ht) as (_ & _ & Hc & _).
  destruct (decide (c ∈ connections_ l)) as [|Hno]; [done|]. unfold is_open in Ho. by rewrite (Hc Hno) in Ho.
Qed.

(** [submit_send] of a connection that has no send under way. *)
Lemma submit_send_keeps sent held l c :
  Inv sent held l -> (forall i, ~ sends l c i) -> Inv sent held (submit_send id64 sqe_available l c).
Proof.
  intros H Hno. unfold submit_send. destruct (objects_ l !! c) as [t|] eqn:Ht; [|done].
  destruct (is_open t) eqn:Hop; cbn [negb]; [|done]. pose proof (is_open_in _ _ _ _ _ H Ht Hop) as Hc.
  destruct (inv_objects _ _ _ _ _ _ H c t Ht) as (Hid & Hq & _). destruct (Hq Hc) as [_ Hqo].
  destruct (zlen (next_write_buffer t) =? 0) eqn:Hz; [done|].
  unfold get_sqe. destruct (negb _); [by apply set_sqes_asked_keeps|].
  assert (Hne : next_write_buffer t <> []) by (intros E; by rewrite E in Hz).
  destruct (next_view_nonempty t Hqo Hne) as [Hv Hlt].
  assert (Hle : (zlen (next_write_buffer t) <=? next_write_offset t) = false) by (unfold next_write_offset; lia).
  rewrite Hle. cbv zeta. change (drop (Z.to_nat (next_write_offset t)) (next_write_buffer t)) with (next_view t).
  destruct (submit _ _ _ _) as [l2 id] eqn:E.
  eapply inv_submit_send in E; [exact E|done|by apply set_sqes_asked_keeps|done|done| |done|done].
  apply (qo_in_flight t Hqo). intros En. apply Hne. unfold next_write_buffer. by rewrite En.
Qed.

(** ** Closing *)

Lemma cancel_operation_outside l i :
  let l' := cancel_operation id64 sqe_available l i in
  objects_ l' = objects_ l /\ connections_ l' = connections_ l /\ log_ l' = log_ l /\
  handshake_timeout_operation_ids_ l' = handshake_timeout_operation_ids_ l /\
  handshake_sessions_ l' = handshake_sessions_ l.
Proof. unfold cancel_operation, get_sqe. by destruct (negb _). Qed.
Lemma cancel_operation_put l t i :
  cancel_operation id64 sqe_available (put_object l t) i = put_object (cancel_operation id64 sqe_available l i) t.
Proof. unfold cancel_operation, get_sqe. cbn. by destruct (negb _). Qed.

Lemma cancels_keep sent held ids l :
  Inv sent held l -> Inv sent held (fold_left (cancel_operation id64 sqe_available) ids l).
Proof. revert l. induction ids as [|i ids IH]; [done|]. intros l H. apply IH. by apply cancel_operation_keeps. Qed.
Lemma cancels_outside ids l :
  let l' := fold_left (cancel_operation id64 sqe_available) ids l in
  objects_ l' = objects_ l /\ connections_ l' = connections_ l /\ log_ l' = log_ l /\
  handshake_timeout_operation_ids_ l' = handshake_timeout_operation_ids_ l /\
  handshake_sessions_ l' = handshake_sessions_ l.
Proof.
  revert l. induction ids as [|i ids IH]; [done|]. intros l. cbn. specialize (IH (cancel_operation id64 sqe_available l i)).
  cbn in IH. pose proof (cancel_operation_outside l i) as Ho. cbn in Ho. destruct IH as (-> & -> & -> & -> & ->). done.
Qed.
Lemma cancels_put ids l t :
  fold_left (cancel_operation id64 sqe_available) ids (put_object l t) =
  put_object (fold_left (cancel_operation id64 sqe_available) ids l) t.
Proof. revert l. induction ids as [|i ids IH]; [done|]. intros l. cbn [fold_left]. by rewrite cancel_operation_put, IH. Qed.

Lemma cleanup_handshake_keeps sent held l c :
  Inv sent held l -> Inv sent held (cleanup_handshake_state id64 sqe_available l c).
Proof.
  intros H. unfold cleanup_handshake_state. cbv zeta. destruct (_ =? 0); [same_core H|].
  apply cancel_operation_keeps. same_core H.
Qed.
Lemma cleanup_handshake_outside l c :
  let l' := cleanup_handshake_state id64 sqe_available l c in
  objects_ l' = objects_ l /\ connections_ l' = connections_ l /\ log_ l' = log_ l.
Proof.
  unfold cleanup_handshake_state. cbv zeta. destruct (_ =? 0); [done|].
  match goal with |- context [cancel_operation _ _ ?L ?I] =>
    destruct (cancel_operation_outside L I) as (Eo & Ec & El & _)
  end. by rewrite Eo, Ec, El.
Qed.
Lemma cleanup_handshake_put l t c :
  cleanup_handshake_state id64 sqe_available (put_object l t) c = put_object (cleanup_handshake_state id64 sqe_available l c) t.
Proof.
  unfold cleanup_handshake_state. cbn -[cancel_operation]. destruct (_ =? 0); [done|].
  match goal with |- _ = put_object (cancel_operation _ _ ?L ?I) _ => exact (cancel_operation_put L t I) end.
Qed.

(** What a close does before the connection leaves the registry. *)
Definition teardown (l : Loop) (c : Z) : Loop :=
  cleanup_handshake_state id64 sqe_available (cancel_all_operations_for_connection id64 sqe_available l c) c.

Lemma teardown_outside l c :
  objects_ (teardown l c) = objects_ l /\ connections_ (teardown l c) = connections_ l /\ log_ (teardown l c) = log_ l.
Proof.
  unfold teardown. pose proof (cleanup_handshake_outside (cancel_all_operations_for_connection id64 sqe_available l c) c) as H1.
  pose proof (cancels_outside (find_all_for_connection l c) l) as H2. cbn in H1, H2.
  destruct H1 as (-> & -> & ->). unfold cancel_all_operations_for_connection. naive_solver.
Qed.
Lemma teardown_put l t c : teardown (put_object l t) c = put_object (teardown l c) t.
Proof.
  unfold teardown, cancel_all_operations_for_connection.
  change (find_all_for_connection (put_object l t) c) with (find_all_for_connection l c).
  by rewrite cancels_put, cleanup_handshake_put.
Qed.
Lemma loop_teardown_keeps sent held l c : Inv sent held l -> Inv sent held (teardown l c).
Proof. intros H. apply cleanup_handshake_keeps. by apply cancels_keep. Qed.

(** The states the object goes through on the way leave no trace. *)
Lemma close_connection_core l c t :
  objects_ l !! c = Some t -> connection_id_ t = c ->
  core (close_connection id64 sqe_available l c) =
  core (set_connections (put_object (teardown l c) (set_state t ConnectionState.Closed)) (connections_ l ∖ {[c]})) /\
  log_ (close_connection id64 sqe_available l c) = log_ l ++ [ReleasedConnection (client_ip_ t)].
Proof.
  intros Ht Hid. unfold close_connection. rewrite Ht. cbv zeta. cbn [connection_id_ set_state]. rewrite Hid.
  set (l2 := put_object l (set_state t ConnectionState.Closing)).
  change (cleanup_handshake_state id64 sqe_available (cancel_all_operations_for_connection id64 sqe_available l2 c) c) with (teardown l2 c).
  assert (E : teardown l2 c = put_object (teardown l c) (set_state t ConnectionState.Closing)) by apply teardown_put.
  rewrite E. destruct (teardown_outside l c) as (Eo & Ec & El). split.
  - unfold core. cbn. rewrite Hid, Ec. by rewrite !insert_insert_eq.
  - cbn. by rewrite El.
Qed.
Lemma close_connection_keeps_from sent held l c t :
  Inv sent held l -> objects_ l !! c = Some t ->
  forall t1, connection_id_ t1 = c ->
  Inv sent held (close_connection id64 sqe_available (put_object l t1) c).
Proof.
  intros H Ht t1 Hid.
  destruct (close_connection_core (put_object l t1) c t1) as [E El]; [cbn; by rewrite Hid, lookup_insert_eq|done|].
  destruct (teardown_outside l c) as (Eo & Ec & Elg).
  apply (inv_same _ _ _ _ _ (set_connections (put_object (teardown l c) (set_state t1 ConnectionState.Closed))
                               (connections_ (teardown l c) ∖ {[c]}))).
  - rewrite E. unfold core. rewrite teardown_put. cbn. by rewrite Hid, Ec, insert_insert_eq.
  - intros c'. unfold written. rewrite El. cbn. rewrite omap_app. cbn. by rewrite app_nil_r, Elg.
  - pose proof (inv_remove id64 config_ draw_inj notifs sent held (teardown l c) t (set_state t1 ConnectionState.Closed)) as Hr. cbn in Hr.
    rewrite Hid in Hr. apply Hr; [by apply loop_teardown_keeps|by rewrite Eo|done].
Qed.

Lemma close_connection_keeps sent held l c :
  Inv sent held l -> Inv sent held (close_connection id64 sqe_available l c).
Proof.
  intros H. destruct (objects_ l !! c) as [t|] eqn:Ht; [|unfold close_connection; by rewrite Ht].
  destruct (inv_objects _ _ _ _ _ _ H c t Ht) as (Hid & _).
  pose proof (close_connection_keeps_from sent held l c t H Ht t Hid) as Hk.
  assert (E : put_object l t = set_objects l (objects_ l)) by (unfold put_object; by rewrite Hid, insert_id).
  rewrite E in Hk. unfold close_connection in *. cbn [objects_ set_objects] in Hk. rewrite Ht in *. by destruct l.
Qed.

Lemma close_keeps sent held l c : Inv sent held l -> Inv sent held (close id64 sqe_available l c).
Proof.
  intros H. unfold close. destruct (objects_ l !! c) as [t|] eqn:Ht; [|done].
  destruct (is_closing t); [done|]. destruct (inv_objects _ _ _ _ _ _ H c t Ht) as (Hid & _).
  by eapply close_connection_keeps_from.
Qed.

(** ** Sessions *)

Lemma async_write_keeps sent held l c b : Inv sent held l -> Inv sent held (async_write id64 sqe_available l c b).
Proof.
  intros H. unfold async_write. destruct (objects_ l !! c) as [t|] eqn:Ht; [|done].
  destruct (enqueue_write t b) as [t' [| |submit] ] eqn:He; [done|by apply close_keeps|].
  destruct (inv_enqueue _ _ draw_inj _ _ _ _ _ _ _ _ _ H Ht He) as [H' Hno].
  destruct submit; [|done]. apply submit_send_keeps; [done|]. by apply Hno.
Qed.

Lemma run_session_call_keeps sent held h l call :
  Inv sent held l -> Inv sent held (run_session_call id64 sqe_available h l call).
Proof.
  intros H. destruct call; cbn; case_match; try done; [by apply async_write_keeps|by apply close_connection_keeps].
Qed.
Lemma run_session_calls_keeps sent held h l calls :
  Inv sent held l -> Inv sent held (run_session_calls id64 sqe_available h l calls).
Proof.
  revert l. induction calls as [|call calls IH]; [done|]. intros l H. apply IH. by apply run_session_call_keeps.
Qed.

(** ** Timeouts *)

Lemma inv_set_idle sent held l c t i :
  Inv sent held l -> objects_ l !! c = Some t -> Inv sent held (put_object l (set_idle_timeout_operation_id t i)).
Proof.
  intros H Ht. destruct (inv_objects _ _ _ _ _ _ H c t Ht) as (Hid & Hin & Hout & _).
  eapply inv_put_object; [done|done|cbn; by rewrite Hid|done..| | |].
  - apply set_idle_queue_ok.
  - cbn. rewrite Hid. intros Hc. by apply Hin.
  - cbn. rewrite Hid. by apply Hout.
Qed.

Lemma arm_timeout_keeps sent held l c t ms purpose :
  Inv sent held l -> objects_ l !! c = Some t ->
  forall l' id, submit id64 (set_sqes_asked l (S (sqes_asked l)))
    (mkOperationContext OperationType.Timeout 0 c (generation_ t) (Some c) purpose false) (SqeTimeout ms) = (l', id) ->
  Inv sent held (set_timeout_specs l' (emplace (timeout_specs_ l') id ms)) /\ objects_ l' = objects_ l.
Proof.
  intros H Ht l' id E. split.
  - eapply inv_submit_timeout; [done|by apply set_sqes_asked_keeps| |exact E]. cbn. by exists t.
  - injection E as <- <-. done.
Qed.

Lemma arm_idle_timeout_keeps sent held l c :
  Inv sent held l -> Inv sent held (arm_idle_timeout id64 sqe_available config_ l c).
Proof.
  intros H. unfold arm_idle_timeout. destruct (objects_ l !! c) as [t|] eqn:Ht; [|done].
  destruct (idle_timeout config_ <=? 0); [done|]. destruct (negb (is_open t)); [done|].
  destruct (inv_objects _ _ _ _ _ _ H c t Ht) as (Hid & _).
  match goal with |- Inv _ _ (let '(_, _) := ?X in _) => destruct X as [l1 t1] eqn:E end.
  assert (H1 : Inv sent held l1 /\ objects_ l1 !! c = Some t1 /\ connection_id_ t1 = c).
  { destruct (idle_timeout_operation_id_ t =? 0); injection E as <- <-; [done|].
    destruct (cancel_operation_outside l (idle_timeout_operation_id_ t)) as (Eo & _).
    split; [|split; [|done] ].
    - eapply inv_set_idle; [by apply cancel_operation_keeps|by rewrite Eo].
    - cbn. by rewrite Hid, lookup_insert_eq. }
  clear E. destruct H1 as (H1 & Ht1 & Hid1). unfold get_sqe. destruct (negb _); [by apply set_sqes_asked_keeps|].
  rewrite Hid1. destruct (submit _ _ _ _) as [l2 i] eqn:E.
  destruct (arm_timeout_keeps _ _ _ _ _ _ _ H1 Ht1 _ _ E) as [H2 Eo2].
  pose proof (inv_set_idle _ _ _ c t1 i H2) as H3. cbn in H3. rewrite Eo2 in H3. specialize (H3 Ht1). same_core H3.
Qed.

Lemma arm_handshake_timeout_keeps sent held l c :
  Inv sent held l -> Inv sent held (arm_handshake_timeout id64 sqe_available config_ l c).
Proof.
  intros H. unfold arm_handshake_timeout. destruct (objects_ l !! c) as [t|] eqn:Ht; [|done].
  destruct (handshake_timeout config_ <=? 0); [done|]. destruct (negb (is_open t)); [done|].
  match goal with |- context [get_sqe _ ?X] => set (l1 := X) end.
  assert (H1 : Inv sent held l1 /\ objects_ l1 !! c = Some t).
  { subst l1. destruct (handshake_timeout_operation_ids_ l !! c) as [i|]; [|done].
    destruct (cancel_operation_outside l i) as (Eo & _). split.
    - pose proof (cancel_operation_keeps sent held l i H) as Hk. same_core Hk.
    - rewrite <- Ht, <- Eo. done. }
  clearbody l1. destruct H1 as [H1 Ht1]. unfold get_sqe. destruct (negb _); [by apply set_sqes_asked_keeps|].
  destruct (submit _ _ _ _) as [l2 i] eqn:E.
  destruct (arm_timeout_keeps _ _ _ _ _ _ _ H1 Ht1 _ _ E) as [H2 _]. same_core H2.
Qed.

(** ** The handlers of a connection *)

Lemma lock_Some l h c t : lock l h (Some c) = Some t -> objects_ l !! c = Some t.
Proof. unfold lock. by case_bool_decide. Qed.
Lemma lock_registered l w t :
  lock l None w = Some t -> exists c, w = Some c /\ c ∈ connections_ l /\ objects_ l !! c = Some t.
Proof.
  unfold lock. destruct w as [c|]; [|done]. case_bool_decide as Hb; [|done]. intros Ht. exists c.
  destruct Hb as [Hb|?]; [done|discriminate].
Qed.

Lemma handshake_complete_keeps sent held l h c calls :
  Inv sent held l -> reopened_ (handshake_complete id64 sqe_available config_ l h c calls) = false ->
  Inv sent held (handshake_complete id64 sqe_available config_ l h c calls).
Proof.
  intros H. unfold handshake_complete. destruct (lock l h (Some c)) as [t|] eqn:Ht; [|done]. apply lock_Some in Ht.
  cbv zeta. intros Hr. apply arm_idle_timeout_keeps. unfold start_rtmp_session in *. apply run_session_calls_keeps.
  match goal with |- Inv _ _ (set_rtmp_sessions ?L ?V) => assert (HL : Inv sent held L); [|same_core HL] end.
  apply cleanup_handshake_keeps. case_bool_decide as Hc.
  - destruct (inv_objects _ _ _ _ _ _ H c t Ht) as (Hid & Hin & Hout & _).
    eapply inv_put_object; [done|done|cbn; by rewrite Hid|done..|apply set_state_queue_ok|done|]. cbn. by rewrite Hid.
  - exfalso. revert Hr. match goal with |- ?G = false -> _ => enough (Hr : G = true) by (rewrite Hr; discriminate) end.
    apply (qt_reopened _ _ (arm_idle_timeout_quiet _ _ _ _ _)), (qt_reopened _ _ (run_session_calls_quiet _ _ _ _ _)).
    cbn. apply (qt_reopened _ _ (cleanup_handshake_quiet _ _ _ _)). done.
Qed.

Lemma handshake_failed_keeps sent held l h c calls :
  Inv sent held l -> Inv sent held (handshake_failed id64 sqe_available l h c calls).
Proof.
  intros H. unfold handshake_failed. case_match; [|done].
  apply run_session_calls_keeps, close_connection_keeps, cleanup_handshake_keeps, H.
Qed.

Lemma run_call_keeps sent held h l call :
  Inv sent held l -> reopened_ (run_call id64 sqe_available config_ h l call) = false ->
  Inv sent held (run_call id64 sqe_available config_ h l call).
Proof.
  intros H. destruct call; cbn [run_call]; intros Hr;
    [by apply run_session_call_keeps|by apply handshake_complete_keeps|by apply handshake_failed_keeps].
Qed.

(** Nothing unsets [reopened_]. *)
Lemma quiet_reopened l l' : quiet l l' -> reopened_ l' = false -> reopened_ l = false.
Proof. intros H E. destruct (reopened_ l) eqn:Er; [|done]. by rewrite (qt_reopened _ _ H Er) in E. Qed.

Lemma run_calls_keeps sent held h l calls :
  Inv sent held l -> reopened_ (run_calls id64 sqe_available config_ h l calls) = false ->
  Inv sent held (run_calls id64 sqe_available config_ h l calls).
Proof.
  revert l. induction calls as [|call calls IH]; [done|]. intros l H Hr. cbn in *. apply IH; [|exact Hr].
  apply run_call_keeps; [done|]. eapply quiet_reopened; [|exact Hr]. apply run_calls_quiet.
Qed.

(** ** Completions *)

Definition limits_ok : Prop :=
  0 < u64 (subscriber_queue_max_bytes config_ + maximum_rtmp_message_size config_) < 2 ^ 63 /\
  0 < u64 (subscriber_queue_max_packets config_ + 64).
Hypothesis config_ok : limits_ok.

Lemma handle_accept_keeps sent held l result ip admitted :
  Inv sent held l -> (0 <= result -> next_connection_id_ l < 2 ^ 56) ->
  Inv sent held (handle_accept_completion id64 sqe_available config_ l result ip admitted).
Proof.
  intros H Hn. unfold handle_accept_completion.
  match goal with |- context [result <? 0] => idtac end.
  set (l0 := if stopping_ l then l else submit_accept id64 sqe_available l).
  assert (H0 : Inv sent held l0 /\ next_connection_id_ l0 = next_connection_id_ l).
  { subst l0. destruct (stopping_ l); [done|]. split; [by apply submit_accept_keeps|].
    apply (qt_next _ _ (submit_accept_quiet _ _ _)). }
  clearbody l0. destruct H0 as [H0 En]. cbv zeta. destruct (result <? 0) eqn:Hres; [done|].
  rewrite <- En in Hn. specialize (Hn ltac:(lia)).
  destruct (_ <=? _); [|destruct (negb admitted)];
    [apply (inv_same _ _ _ _ _ l0); [done|intros c; unfold written; cbn; by rewrite omap_app, app_nil_r|done] ..|].
  apply arm_handshake_timeout_keeps, submit_receive_keeps.
  pose proof (inv_next _ _ _ _ _ _ H0) as Hnx.
  assert (Hu : u64 (next_connection_id_ l0 + 1) = next_connection_id_ l0 + 1) by (apply u64_id; lia).
  destruct config_ok as [Hb Hp].
  eapply (inv_new_connection _ _ draw_inj notifs sent held l0 _
            (set_state (make_connection (make_connection_id config_ (next_connection_id_ l0)) (next_generation_ l0) ip
               (u64 (subscriber_queue_max_bytes config_ + maximum_rtmp_message_size config_))
               (u64 (subscriber_queue_max_packets config_ + 64))) ConnectionState.Handshaking));
    [done|done|done|done|apply set_state_queue_ok, make_connection_ok; [exact Hb|exact Hp]|done|..]; cbn; try done.
  by rewrite insert_insert_eq.
Qed.

Lemma run_or_not_keeps sent held h l calls (b : bool) :
  Inv sent held l ->
  reopened_ (if b then run_calls id64 sqe_available config_ h l calls else l) = false ->
  Inv sent held (if b then run_calls id64 sqe_available config_ h l calls else l).
Proof. destruct b; [apply run_calls_keeps|done]. Qed.

(** Reading on after the handler has returned. *)
Definition read_on (l : Loop) (c : Z) : Loop :=
  match objects_ l !! c with
  | Some t =>
      if is_open t then
        let l := submit_receive id64 sqe_available l c in
        if bool_decide (c ∈ handshake_sessions_ l)
        then arm_handshake_timeout id64 sqe_available config_ l c
        else arm_idle_timeout id64 sqe_available config_ l c
      else l
  | None => l
  end.
Lemma read_on_keeps sent held l c : Inv sent held l -> Inv sent held (read_on l c).
Proof.
  intros H. unfold read_on. repeat case_match; try done;
    [apply arm_handshake_timeout_keeps|apply arm_idle_timeout_keeps]; by apply submit_receive_keeps.
Qed.
Lemma read_on_quiet l c : quiet l (read_on l c).
Proof.
  unfold read_on. repeat case_match; try reflexivity; (etransitivity; [apply submit_receive_quiet|]);
    [apply arm_handshake_timeout_quiet|apply arm_idle_timeout_quiet].
Qed.

Lemma handle_receive_keeps sent l op result calls closing b :
  let l1 := set_operations l (delete (operation_id op) (operations_ l)) in
  let l' := handle_receive_completion id64 sqe_available config_ l1 op result calls closing in
  Inv sent [] l -> operations_ l !! operation_id op = Some op -> receive_buffers_ l !! operation_id op = Some b ->
  reopened_ l' = false -> Inv sent [] l'.
Proof.
  intros l1 l' H Hop Hb. subst l'. unfold handle_receive_completion. cbv zeta.
  change (receive_buffers_ l1) with (receive_buffers_ l). rewrite Hb.
  pose proof (inv_take_receive _ _ _ _ _ _ _ _ _ H Hop Hb) as H2. fold l1 in H2.
  change (receive_buffers_ l1) with (receive_buffers_ l) in *.
  set (l2 := set_receive_buffers l1 (delete (operation_id op) (receive_buffers_ l))) in *. clearbody l2. clear l1.
  destruct (result <=? 0).
  - intros _. pose proof (inv_release _ _ _ _ _ _ _ H2) as H3. destruct (lock l2 None (op_connection op)); [|exact H3].
    destruct (_ =? _); [exact H3|]. by apply run_session_calls_keeps, close_connection_keeps.
  - destruct (lock l2 None (op_connection op)) as [t|]; [|intros _; by apply inv_release].
    match goal with |- context [if ?g then run_calls _ _ _ _ _ _ else _] => set (go := g) end.
    fold (read_on (release (if go then run_calls id64 sqe_available config_ (Some (connection_id_ t)) l2 calls else l2)
                     (Some b)) (connection_id_ t)).
    intros Hr. apply read_on_keeps, inv_release, run_or_not_keeps; [done|].
    eapply quiet_reopened; [|exact Hr]. etransitivity; [apply (release_quiet _ (Some b))|apply read_on_quiet].
Qed.

Lemma handle_timeout_keeps sent l id op result closing :
  Inv sent [] l -> operations_ l !! operation_id op = None -> id = operation_id op ->
  Inv sent [] (handle_timeout_completion id64 sqe_available l op result closing).
Proof.
  intros H Hno ->. unfold handle_timeout_completion. cbv zeta.
  pose proof (inv_drop_spec _ _ _ _ _ _ _ H Hno) as H1.
  set (l1 := set_timeout_specs l (delete (operation_id op) (timeout_specs_ l))) in *. clearbody l1.
  destruct (lock l1 None (op_connection op)) as [t|] eqn:Hl; [|done].
  apply lock_registered in Hl as (c & _ & Hc & Ht). destruct (inv_objects _ _ _ _ _ _ H1 c t Ht) as (Hid & _).
  rewrite Hid.
  match goal with |- Inv _ _ (let '(_, _) := ?X in _) => destruct X as [l2 t2] eqn:E end.
  assert (H2 : Inv sent [] l2).
  { destruct (_ =? _) in E; injection E as <- <-; [|done]. by eapply inv_set_idle. }
  clear E. match goal with |- Inv _ _ (let '(_, _) := ?X in _) => destruct X as [l3 hs] eqn:E end.
  assert (H3 : Inv sent [] l3) by (destruct (decide _) in E; injection E as <- <-; [same_core H2|done]).
  clear E. destruct (_ =? _); [done|]. destruct (_ && _); [by apply run_session_calls_keeps, close_connection_keeps|].
  destruct (_ && _); [|done]. by apply handshake_failed_keeps.
Qed.

Lemma handle_wakeup_keeps sent held l result calls :
  Inv sent held l -> Inv sent held (handle_wakeup_completion id64 sqe_available l result calls).
Proof.
  intros H. unfold handle_wakeup_completion. cbv zeta.
  assert (H1 : Inv sent held (if 0 <=? result then run_session_calls id64 sqe_available None l calls else l))
    by (case_match; [by apply run_session_calls_keeps|done]).
  destruct (stopping_ _); [done|]. by apply submit_router_poll_keeps.
Qed.

(** ** Starting and stopping *)

Lemma start_loop_keeps sent held l : Inv sent held l -> Inv sent held (start_loop id64 sqe_available config_ l).
Proof.
  intros H. unfold start_loop. pose proof (submit_accept_keeps _ _ _ H) as H1.
  destruct (has_router config_); [by apply submit_router_poll_keeps|done].
Qed.

Lemma begin_shutdown_keeps sent held l now snapshot :
  Inv sent held l -> Inv sent held (begin_shutdown id64 sqe_available l now snapshot).
Proof.
  intros H. unfold begin_shutdown. cbv zeta.
  match goal with |- Inv _ _ (fold_left _ _ ?L) => assert (HL : Inv sent held L) end.
  { assert (H0 : Inv sent held (set_shutdown_deadline (set_shutdown_initiated l true) (now + kShutdownDeadline))) by same_core H.
    assert (H1 : forall L b i, Inv sent held L -> Inv sent held (if (b : bool) then L else cancel_operation id64 sqe_available L i))
      by (intros L [] i HL; [done|by apply cancel_operation_keeps]).
    apply H1, H1, H0. }
  revert HL. match goal with |- Inv _ _ ?L -> _ => generalize L end. clear H. intros l0 H.
  revert l0 H. induction snapshot as [|[c calls] snapshot IH]; [done|]. intros l0 H. cbn. apply IH.
  by apply run_session_calls_keeps, close_keeps.
Qed.

End Keeps.


(** * Completions *)

Section Completions.
Context (id64 : nat -> Z) (sqe_available : nat -> bool) (config_ : ServerConfig).
Hypothesis draw_inj : forall n m, generate_id64 id64 n = generate_id64 id64 m -> n = m.
Hypothesis config_ok : limits_ok config_.
Notation Inv := (Inv id64 config_).

Lemma make_loop_inv : Inv ∅ [] [] (make_loop config_).
Proof.
  assert (Hno : forall c i, ~ sends (make_loop config_) c i).
  { intros c i (op & Hop & _). cbn in Hop. by rewrite lookup_empty in Hop. }
  split; cbn; try done.
  - rewrite map_to_list_empty. cbn. by rewrite app_nil_r.
  - intros c. exists []. split; [done|intros i Hi; by destruct (Hno c i)|intros i ? Hi; by destruct (Hno c i)|].
    cbn. intros t Ht. by rewrite lookup_empty in Ht.
Qed.

Lemma inv_op N sent held l id op :
  Inv N sent held l -> operations_ l !! id = Some op -> op_ok l id op.
Proof. intros H. apply (inv_ops _ _ _ _ _ _ H). Qed.

(** The loop after the operation has been taken and, if [drop], its buffer let go. *)
Definition taken (l : Loop) (id : Z) (drop : bool) : Loop :=
  let l1 := set_operations l (delete id (operations_ l)) in
  if drop then set_zero_copy_buffers l1 (delete id (zero_copy_buffers_ l1)) else l1.
(** The sends the kernel still refers to after a completion. *)
Definition still_referred (N : gset Z) (id : Z) (more : bool) : gset Z := if more then {[id]} ∪ N else N.

(** A zero-copy send whose completion announces a notification keeps its buffer. *)
Lemma inv_after_taken N sent l op l1 id more :
  Inv N sent [] l1 -> op_ok l id op -> (more = true -> zero_copy op = true) ->
  operations_ l !! id = Some op -> id ∉ N ->
  operations_ l1 = delete id (operations_ l) -> kernel_ l1 = kernel_ l -> zero_copy_buffers_ l1 = zero_copy_buffers_ l ->
  Inv (still_referred N id more) sent []
    (if zero_copy op && negb more then set_zero_copy_buffers l1 (delete id (zero_copy_buffers_ l1)) else l1).
Proof.
  intros H1 (_ & Hty & Hzc) Hmore Hop HN Eo Ek Ez.
  assert (Hno : operations_ l1 !! id = None) by (rewrite Eo; apply lookup_delete_eq).
  destruct more; cbn [still_referred negb].
  - rewrite andb_false_r. eapply inv_notifs_change; [|exact H1]. intros i Hi.
    apply elem_of_union in Hi as [->%elem_of_singleton|Hi]; [|by apply (inv_notifs _ _ _ _ _ _ H1)].
    split; [done|]. specialize (Hmore eq_refl). rewrite (Hzc Hmore) in Hty.
    destruct Hty as (c & view & _ & Hk & _ & Hb). destruct (Hb Hmore) as (b & Hb' & Hs).
    exists c, view, b. rewrite Ek, Ez, Hk, Hmore. done.
  - rewrite andb_true_r. destruct (zero_copy op); [|done]. by apply inv_drop_zero_copy.
Qed.

Lemma not_notified N sent held l id op : Inv N sent held l -> operations_ l !! id = Some op -> id ∉ N.
Proof. intros H Hop Hin. destruct (inv_notifs _ _ _ _ _ _ H id Hin) as [Hno _]. congruence. Qed.

Lemma on_send_completion_id t n s : connection_id_ (on_send_completion t n s) = connection_id_ t.
Proof. unfold on_send_completion. by repeat case_match. Qed.

(** One completion, of the operation [op] with the id [id]. *)
Section One.
Variables (N : gset Z) (sent : list (Z * list byte)) (l : Loop) (id : Z) (op : OperationContext) (more : bool).
Hypothesis H : Inv N sent [] l.
Hypothesis Hop : operations_ l !! id = Some op.
Hypothesis Hmore : more = true -> zero_copy op = true.
Notation l2 := (taken l id (zero_copy op && negb more)).
Notation N' := (still_referred N id more).

Lemma taken_fields :
  objects_ l2 = objects_ l /\ connections_ l2 = connections_ l /\ operations_ l2 = delete id (operations_ l).
Proof. unfold taken. by destruct (_ && _). Qed.

Lemma taken_keeps : op_type op <> OperationType.Receive -> Inv N' sent [] l2.
Proof.
  intros Hty. eapply inv_after_taken; [by eapply inv_take|by eapply inv_op|done|done|by eapply not_notified|done..].
Qed.

Lemma no_sends_taken c : op_type op = OperationType.Send -> op_connection op = Some c -> forall i, ~ sends l2 c i.
Proof.
  intros Hty Hco i (o & Ho & Hs). destruct (inv_flow _ _ _ _ _ _ H c) as [rest Hf].
  destruct taken_fields as (_ & _ & Eo). rewrite Eo in Ho. apply lookup_delete_Some in Ho as [Hne Ho].
  apply Hne. eapply (fl_one _ _ _ _ Hf); by eexists.
Qed.

(** The queue of an open connection advances by what was sent. *)
Lemma advance_keeps result c zc view t :
  op_type op = OperationType.Send -> op_connection op = Some c ->
  kernel_ l !! id = Some (SqeSend c zc view) -> 0 < result <= zlen view ->
  c ∈ connections_ l -> objects_ l !! c = Some t ->
  Inv N' (sent ++ [(c, take (Z.to_nat result) view)]) [] (put_object l2 (on_send_completion t result true)).
Proof.
  intros Hty Hco Hk Hres Hc Ht.
  destruct (inv_sent _ _ _ _ _ _ _ _ _ _ _ result H Hop Hty Hco Hk Hres) as (_ & Hopen & _). specialize (Hopen t Hc Ht).
  eapply (inv_after_taken N _ l op _ id more) in Hopen;
    [|exact (inv_op _ _ _ _ _ _ H Hop)|done|done|exact (not_notified _ _ _ _ _ _ H Hop)|done..].
  unfold taken. destruct (_ && _); [same_core Hopen|exact Hopen].
Qed.

Lemma handle_send_keeps result closing c zc view :
  op_type op = OperationType.Send -> op_connection op = Some c ->
  kernel_ l !! id = Some (SqeSend c zc view) -> result <= zlen view ->
  Inv N' (sent ++ (if 0 <? result then [(c, take (Z.to_nat result) view)] else [])) []
    (handle_send_completion id64 sqe_available l2 op result closing).
Proof.
  intros Hty Hco Hk Hres. pose proof (taken_keeps ltac:(congruence)) as H1.
  destruct taken_fields as (Ho1 & Hc1 & _). pose proof (no_sends_taken c Hty Hco) as Hno.
  unfold handle_send_completion. rewrite Hco.
  destruct (lock l2 None (Some c)) as [t|] eqn:Hl.
  - apply lock_registered in Hl as (c' & [= <-] & Hc & Ht). rewrite Ho1 in Ht. rewrite Hc1 in Hc. cbv zeta.
    destruct (inv_objects _ _ _ _ _ _ H c t Ht) as (Hid & _). rewrite Hid.
    destruct (0 <? result) eqn:Hpos; cbn [negb].
    + pose proof (advance_keeps result c zc view t Hty Hco Hk ltac:(lia) Hc Ht) as H2.
      set (l3 := put_object l2 (on_send_completion t result true)) in *.
      assert (Hno3 : forall i, ~ sends l3 c i) by (intros i (o & ? & ?); apply (Hno i); by exists o). clearbody l3.
      repeat case_match; first [done|by apply submit_send_keeps].
    + rewrite app_nil_r. apply run_session_calls_keeps; [done|].
      eapply close_connection_keeps_from; [done|done|by rewrite Ho1|]. by rewrite on_send_completion_id.
  - destruct (0 <? result) eqn:Hpos; [|by rewrite app_nil_r].
    assert (Hc : c ∉ connections_ l).
    { intros Hc. unfold lock in Hl. rewrite bool_decide_true in Hl by (left; by rewrite Hc1).
      rewrite Ho1 in Hl. destruct (inv_connections _ _ _ _ _ _ H c Hc) as [t Ht]. by rewrite Ht in Hl. }
    destruct (inv_sent _ _ _ _ _ _ _ _ _ _ _ result H Hop Hty Hco Hk ltac:(lia)) as (Hclosed & _ & _).
    specialize (Hclosed Hc).
    eapply (inv_after_taken N _ l op _ id more); [exact Hclosed|exact (inv_op _ _ _ _ _ _ H Hop)|done|done| |done..].
    exact (not_notified _ _ _ _ _ _ H Hop).
Qed.

Lemma refused_send_keeps c :
  op_type op = OperationType.Send -> op_connection op = Some c ->
  let l3 := set_zero_copy_send_enabled l2 false in
  Inv N' sent [] (match lock l3 None (op_connection op) with
                  | Some t => if is_open t then submit_send id64 sqe_available l3 (connection_id_ t) else l3
                  | None => l3
                  end).
Proof.
  intros Hty Hco l3. pose proof (taken_keeps ltac:(congruence)) as H1. pose proof (no_sends_taken c Hty Hco) as Hno.
  assert (H3 : Inv N' sent [] l3) by same_core H1.
  assert (Hno3 : forall i, ~ sends l3 c i) by (intros i (o & ? & ?); apply (Hno i); by exists o).
  clearbody l3. rewrite Hco. destruct (lock l3 None (Some c)) as [t|] eqn:Hl; [|done].
  apply lock_Some in Hl. destruct (inv_objects _ _ _ _ _ _ H3 c t Hl) as (Hid & _). rewrite Hid.
  destruct (is_open t); [|done]. by apply submit_send_keeps.
Qed.
End One.

Lemma sent_by_not_send l id result s :
  kernel_ l !! id = Some s -> match s with SqeSend _ _ _ => False | _ => True end -> sent_by l id result = [].
Proof. intros Hk Hs. unfold sent_by. rewrite Hk. by destruct s. Qed.

(** A flag that announces a notification is on a zero-copy send. *)
Lemma answer_more l id op result more :
  op_ok l id op -> kernel_may_answer config_ l id result more -> more = true -> zero_copy op = true.
Proof.
  intros (_ & Hty & _) Hans ->. unfold kernel_may_answer in Hans. destruct (op_type op); try done; destruct_and?;
    repeat match goal with H : exists _, _ |- _ => destruct H | H : _ /\ _ |- _ => destruct H end;
    match goal with Hk : kernel_ l !! id = _ |- _ => rewrite Hk in Hans end; naive_solver.
Qed.

Lemma process_completion_keeps N sent l id op result more r :
  let l' := process_completion id64 sqe_available config_ l id result more false r in
  Inv N sent [] l -> operations_ l !! id = Some op -> kernel_may_answer config_ l id result more ->
  reopened_ l' = false -> Inv (still_referred N id more) (sent ++ sent_by l id result) [] l'.
Proof.
  intros l' H Hop Hans. subst l'. unfold process_completion, take_operation. rewrite Hop. cbv zeta.
  fold (taken l id (zero_copy op && negb more)). pose proof (inv_op _ _ _ _ _ _ H Hop) as Hok.
  pose proof (answer_more _ _ _ _ _ Hok Hans) as Hmore. destruct Hok as (Hid & Hty & Hzc).
  pose proof (taken_keeps N sent l id op more H Hop Hmore) as H1.
  unfold kernel_may_answer in Hans. destruct (op_type op) eqn:Et; try done.
  - destruct Hty as [Hk _]. rewrite Hk in Hans. rewrite (sent_by_not_send _ _ _ _ Hk), app_nil_r by done. intros _.
    specialize (H1 ltac:(congruence)). apply handle_accept_keeps; [done|done|same_core H1|].
    intros Hr. destruct Hans as [_ Hn]. unfold taken. by destruct (_ && _); apply Hn.
  - destruct Hty as (c & b & Hco & Hk & _ & Hb). rewrite Hk in Hans. destruct Hans as [-> _].
    rewrite (sent_by_not_send _ _ _ _ Hk), app_nil_r by done. clear H1.
    destruct (zero_copy op) eqn:Ez; [by specialize (Hzc eq_refl)|]. cbn [andb].
    unfold taken, still_referred. rewrite <- Hid in Hop, Hb |- *. by eapply handle_receive_keeps.
  - destruct Hty as (c & view & Hco & Hk & _ & _). rewrite Hk in Hans. destruct Hans as [_ Hres].
    unfold sent_by. rewrite Hk. intros _. destruct (zero_copy op && zero_copy_refusal result) eqn:Eref.
    + assert (Hneg : (0 <? result) = false).
      { apply andb_true_iff in Eref as [_ Eref]. unfold zero_copy_refusal, EOPNOTSUPP, EINVAL, ENOSYS, ENOMEM in Eref. lia. }
      rewrite Hneg, app_nil_r. by eapply refused_send_keeps.
    + by eapply handle_send_keeps.
  - destruct Hty as (c & ms & _ & Hk & _). rewrite (sent_by_not_send _ _ _ _ Hk), app_nil_r by done. intros _.
    apply (handle_timeout_keeps _ _ _ draw_inj _ _ _ id); [apply H1; congruence| |done].
    rewrite Hid. unfold taken. destruct (_ && _); apply lookup_delete_eq.
  - destruct Hty as [ [target Hk] _]. rewrite (sent_by_not_send _ _ _ _ Hk), app_nil_r by done. intros _.
    apply H1; congruence.
  - destruct Hty as [Hk _]. rewrite (sent_by_not_send _ _ _ _ Hk), app_nil_r by done. intros _.
    specialize (H1 ltac:(congruence)). apply handle_wakeup_keeps; [done|]. same_core H1.
Qed.

(** * Runs *)

Definition machine_inv (m : Machine) : Prop := Inv (notifications_ m) (sent_ m) [] (loop_of m).

Lemma step_keeps m m' :
  step id64 sqe_available config_ m m' -> reopened_ (loop_of m') = false -> machine_inv m -> machine_inv m'.
Proof.
  unfold machine_inv. intros Hs Hr H. destruct Hs as [id op result more r Hop Hans|id Hid| |now snapshot Hst Hsh Hsnap].
  - by eapply process_completion_keeps.
  - cbn. destruct (inv_notifs _ _ _ _ _ _ H id Hid) as [Hno _]. apply inv_drop_zero_copy; [|done|set_solver].
    eapply inv_notifs_change; [|exact H]. intros i Hi. apply (inv_notifs _ _ _ _ _ _ H). set_solver.
  - cbn. same_core H.
  - cbn. by apply begin_shutdown_keeps.
Qed.


(** ** The flag is kept, and where connections come from *)

Lemma handle_accept_mild l result ip admitted :
  mild l (handle_accept_completion id64 sqe_available config_ l result ip admitted).
Proof.
  unfold handle_accept_completion. set (l0 := if stopping_ l then l else submit_accept id64 sqe_available l).
  transitivity l0; [subst l0; destruct (stopping_ l); [reflexivity|apply qt_mild, submit_accept_quiet]|].
  clearbody l0. cbv zeta. destruct (result <? 0); [reflexivity|].
  destruct (_ <=? _); [mild_fields|]. destruct (negb admitted); [mild_fields|].
  etransitivity; [|apply qt_mild, arm_handshake_timeout_quiet].
  etransitivity; [|apply qt_mild, submit_receive_quiet]. mild_fields.
Qed.

Lemma handle_receive_quiet l op result calls closing :
  quiet l (handle_receive_completion id64 sqe_available config_ l op result calls closing).
Proof.
  unfold handle_receive_completion. cbv zeta.
  set (l2 := set_receive_buffers l (delete (operation_id op) (receive_buffers_ l))).
  assert (H2 : quiet l l2) by quiet_fields. etransitivity; [exact H2|]. clearbody l2. clear H2.
  destruct (result <=? 0).
  - destruct (lock l2 None (op_connection op)); [|apply release_quiet].
    etransitivity; [apply (release_quiet _ (receive_buffers_ l !! operation_id op))|].
    destruct (_ =? _); [reflexivity|].
    etransitivity; [apply close_connection_quiet|apply run_session_calls_quiet].
  - destruct (lock l2 None (op_connection op)) as [t|]; [|apply release_quiet].
    match goal with |- context [if ?g then run_calls _ _ _ _ _ _ else _] => set (go := g) end.
    fold (read_on id64 sqe_available config_ (release (if go then run_calls id64 sqe_available config_ (Some (connection_id_ t)) l2 calls else l2)
            (receive_buffers_ l !! operation_id op)) (connection_id_ t)).
    etransitivity; [|apply read_on_quiet]. etransitivity; [|apply release_quiet].
    destruct go; [apply run_calls_quiet|reflexivity].
Qed.
Lemma handle_send_quiet l op result closing : quiet l (handle_send_completion id64 sqe_available l op result closing).
Proof.
  unfold handle_send_completion. destruct (lock l None (op_connection op)) as [t|]; [|reflexivity]. cbv zeta.
  match goal with |- context [put_object l ?T] => transitivity (put_object l T); [apply put_object_quiet|] end.
  destruct (negb _); [etransitivity; [apply close_connection_quiet|apply run_session_calls_quiet]|].
  repeat case_match; try reflexivity; apply submit_send_quiet.
Qed.
Lemma handle_timeout_quiet l op result closing : quiet l (handle_timeout_completion id64 sqe_available l op result closing).
Proof.
  unfold handle_timeout_completion. cbv zeta.
  set (l1 := set_timeout_specs l (delete (operation_id op) (timeout_specs_ l))).
  assert (H1 : quiet l l1) by quiet_fields. etransitivity; [exact H1|]. clearbody l1. clear H1.
  destruct (lock l1 None (op_connection op)) as [t|]; [|reflexivity].
  match goal with |- quiet _ (let '(_, _) := ?X in _) => destruct X as [l2 t2] eqn:E end.
  transitivity l2; [destruct (_ =? _) in E; injection E as <- <-; [apply put_object_quiet|reflexivity]|]. clear E.
  match goal with |- quiet _ (let '(_, _) := ?X in _) => destruct X as [l3 hs] eqn:E end.
  transitivity l3; [destruct (decide _) in E; injection E as <- <-; [quiet_fields|reflexivity]|]. clear E.
  destruct (_ =? _); [reflexivity|].
  destruct (_ && _); [etransitivity; [apply close_connection_quiet|apply run_session_calls_quiet]|].
  destruct (_ && _); [apply handshake_failed_quiet|reflexivity].
Qed.
Lemma handle_wakeup_quiet l result calls : quiet l (handle_wakeup_completion id64 sqe_available l result calls).
Proof.
  unfold handle_wakeup_completion. cbv zeta.
  assert (H : quiet l (if 0 <=? result then run_session_calls id64 sqe_available None l calls else l))
    by (case_match; [apply run_session_calls_quiet|reflexivity]).
  etransitivity; [exact H|]. destruct (stopping_ _); [reflexivity|apply submit_router_poll_quiet].
Qed.

Lemma process_completion_mild l id op result more r :
  operations_ l !! id = Some op ->
  mild (taken l id (zero_copy op && negb more)) (process_completion id64 sqe_available config_ l id result more false r).
Proof.
  intros Hop. unfold process_completion, take_operation. rewrite Hop. cbv zeta.
  fold (taken l id (zero_copy op && negb more)). set (l1 := taken l id (zero_copy op && negb more)). clearbody l1.
  destruct (op_type op); try reflexivity.
  - etransitivity; [|apply handle_accept_mild]. mild_fields.
  - apply qt_mild, handle_receive_quiet.
  - destruct (zero_copy op && zero_copy_refusal result); [|apply qt_mild, handle_send_quiet].
    transitivity (set_zero_copy_send_enabled l1 false); [mild_fields|].
    repeat case_match; try reflexivity; apply qt_mild, submit_send_quiet.
  - apply qt_mild, handle_timeout_quiet.
  - etransitivity; [|apply qt_mild, handle_wakeup_quiet]. mild_fields.
Qed.

Lemma begin_shutdown_fields l now snapshot :
  let l' := begin_shutdown id64 sqe_available l now snapshot in
  quiet (set_shutdown_deadline (set_shutdown_initiated l true) (now + kShutdownDeadline)) l'.
Proof.
  cbv zeta. unfold begin_shutdown. cbv zeta.
  assert (Hc : forall L b i, quiet L (if (b : bool) then L else cancel_operation id64 sqe_available L i))
    by (intros L [] i; [reflexivity|apply cancel_operation_quiet]).
  etransitivity; [apply Hc|]. etransitivity; [apply Hc|].
  apply fold_quiet. intros L [c calls]. etransitivity; [apply close_quiet|apply run_session_calls_quiet].
Qed.

Lemma step_reopened m m' :
  step id64 sqe_available config_ m m' -> reopened_ (loop_of m) = true -> reopened_ (loop_of m') = true.
Proof.
  intros Hs Hr. destruct Hs as [id op result more r Hop Hans|id Hid| |now snapshot Hst Hsh Hsnap]; [|exact Hr..|].
  - apply (mi_reopened _ _ (process_completion_mild _ _ _ result more r Hop)). unfold taken. by destruct (_ && _).
  - exact (qt_reopened _ _ (begin_shutdown_fields _ now snapshot) Hr).
Qed.
Lemma steps_reopened m m' :
  rtc (step id64 sqe_available config_) m m' -> reopened_ (loop_of m') = false -> reopened_ (loop_of m) = false.
Proof.
  intros Hs Hr. destruct (reopened_ (loop_of m)) eqn:E; [|done]. rewrite <- Hr. symmetry.
  induction Hs as [m|m m1 m' Hst Hs IH]; [done|]. apply IH; [done|]. by eapply step_reopened.
Qed.

(** The invariant over every run, unless a handshake completed on a closed connection. *)
Lemma reachable_inv m :
  reachable id64 sqe_available config_ m -> reopened_ (loop_of m) = false -> machine_inv m.
Proof.
  unfold reachable. intros Hs. assert (H0 : machine_inv (initial id64 sqe_available config_)).
  { unfold machine_inv, initial. cbn. apply start_loop_keeps; [done|apply make_loop_inv]. }
  revert H0. induction Hs as [m|m m1 m' Hst Hs IH]; [done|]. intros H0 Hr. apply IH; [|done].
  eapply step_keeps; [exact Hst| |done]. by eapply steps_reopened.
Qed.

End Completions.
