(* ===== verification/EventLoopContract.v ===== *)
(** What the event loop promises, over every run: the byte stream of a connection, the
    memory the kernel was lent, and runs that can be computed, with what goes wrong in some
    of them. *)

From S2P Require Import Prelude TcpConnection EventLoop EventLoopSafe EventLoopRuns.

(** * The promises *)

(** What goes out on a connection is what its session wrote, in order, up to what its queue
    still holds; the queue is counted exactly and within its limits. *)
Definition in_order (m : Machine) (c : Z) : Prop :=
  exists rest, written (loop_of m) c = wire (sent_ m) c ++ rest /\
    forall t, objects_ (loop_of m) !! c = Some t -> c ∈ connections_ (loop_of m) ->
      rest = unsent t /\ pending_write_backlog t = (zlen rest, zlen (write_queue_ t)) /\
      zlen rest <= max_write_queue_bytes_ t /\ zlen (write_queue_ t) <= max_write_queue_packets_ t.

(** The memory of a pending operation: a receive has a buffer of the pool to itself, a
    timeout its time, a zero-copy send its buffer, and an ordinary send of an open connection
    is at the front of the queue. *)
Definition lent (l : Loop) (id : Z) : Prop :=
  match kernel_ l !! id with
  | Some (SqeRecv c b) =>
      receive_buffers_ l !! id = Some b /\ b ∉ free_list_ l /\
      forall id', receive_buffers_ l !! id' = Some b -> id' = id
  | Some (SqeTimeout ms) => timeout_specs_ l !! id = Some ms
  | Some (SqeSend c true view) =>
      exists buffer, zero_copy_buffers_ l !! id = Some buffer /\ view `suffix_of` buffer
  | Some (SqeSend c false view) =>
      c ∈ connections_ l -> exists t front rest, objects_ l !! c = Some t /\
        write_queue_ t = front :: rest /\ view `suffix_of` front
  | _ => True
  end.
(** A zero-copy send keeps its buffer until the kernel says it is done with it. *)
Definition memory_lent (m : Machine) : Prop :=
  (forall id op, operations_ (loop_of m) !! id = Some op -> lent (loop_of m) id) /\
  (forall id, id ∈ notifications_ m -> is_Some (zero_copy_buffers_ (loop_of m) !! id)).

Section Contract.
Context (id64 : nat -> Z) (sqe_available : nat -> bool) (config_ : ServerConfig).
Hypothesis draw_inj : forall n m, generate_id64 id64 n = generate_id64 id64 m -> n = m.
Hypothesis config_ok : limits_ok config_.
Notation reachable := (reachable id64 sqe_available config_).

Lemma backlog_exact m c :
  machine_inv id64 config_ m -> in_order m c.
Proof.
  intros H. destruct (inv_flow _ _ _ _ _ _ H c) as [rest Hf]. exists rest.
  split; [apply (fl_written _ _ _ _ Hf)|]. intros t Ht Hc.
  destruct (fl_open _ _ _ _ Hf t Ht Hc) as [-> _].
  destruct (inv_objects _ _ _ _ _ _ H c t Ht) as (_ & Hin & _). destruct (Hin Hc) as [_ Hq].
  unfold pending_write_backlog. rewrite <- (qo_bytes t Hq).
  split; [done|]. split; [done|]. apply (qo_within t Hq).
Qed.

Lemma pool_once notifs sent l id b :
  Inv id64 config_ notifs sent [] l -> receive_buffers_ l !! id = Some b ->
  b ∉ free_list_ l /\ forall id', receive_buffers_ l !! id' = Some b -> id' = id.
Proof.
  intros H Hb. pose proof (inv_pool _ _ _ _ _ _ H) as Hp. rewrite app_nil_r in Hp.
  assert (Hnd : NoDup (free_list_ l ++ (map_to_list (receive_buffers_ l)).*2)) by (rewrite Hp; apply NoDup_seqZ).
  apply list.NoDup_app in Hnd as (_ & Hdis & Hnd). split.
  - intros Hin. apply (Hdis b Hin). apply list_elem_of_fmap. exists (id, b). split; [done|]. by apply elem_of_map_to_list.
  - intros id' Hb'. apply elem_of_map_to_list in Hb, Hb'.
    apply list_elem_of_lookup in Hb as [i Hi]. apply list_elem_of_lookup in Hb' as [j Hj].
    assert (E : i = j).
    { eapply NoDup_lookup; [exact Hnd| |]; rewrite list_lookup_fmap; [by rewrite Hi|by rewrite Hj]. }
    subst j. congruence.
Qed.

Lemma memory_is_lent m : machine_inv id64 config_ m -> memory_lent m.
Proof.
  intros H. split.
  - intros id op Hop. destruct (inv_ops _ _ _ _ _ _ H id op Hop) as (_ & Hty & _). unfold lent.
    destruct (op_type op) eqn:Et; try done.
    + by destruct Hty as [-> _].
    + destruct Hty as (c & b & _ & -> & _ & Hb). split; [done|]. by eapply pool_once.
    + destruct Hty as (c & view & Hco & Hk & _ & Hz). rewrite Hk. destruct (zero_copy op) eqn:Ez; [by apply Hz|].
      intros Hc. destruct (inv_connections _ _ _ _ _ _ H c Hc) as [t Ht].
      destruct (inv_flow _ _ _ _ _ _ H c) as [rest Hf]. destruct (fl_open _ _ _ _ Hf t Ht Hc) as [_ Hp].
      destruct (Hp id) as [Hfl [zc Hk'] ]; [by exists op|]. rewrite Hk in Hk'. simplify_eq.
      destruct (inv_objects _ _ _ _ _ _ H c t Ht) as (_ & Hin & _). destruct (Hin Hc) as [_ Hq].
      exists t. apply (qo_in_flight t Hq) in Hfl. destruct (write_queue_ t) as [|front r] eqn:Ew; [done|].
      exists front, r. split; [done|]. split; [done|]. unfold next_view, next_write_buffer. rewrite Ew. apply suffix_drop.
    + by destruct Hty as (c & ms & _ & -> & _ & Hs).
    + by destruct Hty as [ [target ->] _].
    + by destruct Hty as [-> _].
  - intros id Hid. destruct (inv_notifs _ _ _ _ _ _ H id Hid) as (_ & c & view & b & _ & Hb & _). by exists b.
Qed.
End Contract.

(** C4. Whatever the kernel answers, in whatever order, and whatever the sessions do while
    they are called, the bytes put on a connection are a prefix of the bytes its session
    wrote: none is lost, repeated or out of order across partial sends, zero-copy refusals
    and closes.  While the connection is open, what is missing is exactly what its queue
    holds, and the backlog it reports is exact and within its limits. *)
Theorem peers_get_what_was_written id64 sqe_available config_ m c :
  (forall i j, generate_id64 id64 i = generate_id64 id64 j -> i = j) -> limits_ok config_ ->
  reachable id64 sqe_available config_ m -> reopened_ (loop_of m) = false -> in_order m c.
Proof. intros Hinj Hcfg Hm Hr. eapply backlog_exact, reachable_inv; done. Qed.

(** C6. In every run, the memory of every operation the kernel has not completed is held:
    no receive buffer is given out twice or returned to the pool while a receive into it is
    pending, timeouts keep their time, zero-copy sends keep their buffer until the
    notification, and an ordinary send of an open connection is at the front of its queue. *)
Theorem kernel_memory_is_held id64 sqe_available config_ m :
  (forall i j, generate_id64 id64 i = generate_id64 id64 j -> i = j) -> limits_ok config_ ->
  reachable id64 sqe_available config_ m -> reopened_ (loop_of m) = false -> memory_lent m.
Proof. intros Hinj Hcfg Hm Hr. eapply memory_is_lent, reachable_inv; done. Qed.

(** * Runs that can be computed *)

#[global] Instance Sqe_eq_dec : EqDecision Sqe.
Proof. solve_decision. Defined.

Inductive Choice :=
| Complete (id result : Z) (more : bool) (r : Reads)
| Notify (id : Z)
| StopNow
| ShutdownNow (now : Z) (snapshot : list (Z * list SessionCall)).

Section Perform.
Context (id64 : nat -> Z) (sqe_available : nat -> bool) (config_ : ServerConfig).

Definition perform (m : Machine) (choice : Choice) : Machine :=
  match choice with
  | Complete id result more r =>
      mkMachine (process_completion id64 sqe_available config_ (loop_of m) id result more false r)
        (sent_ m ++ sent_by (loop_of m) id result)
        (if more then {[id]} ∪ notifications_ m else notifications_ m)
  | Notify id =>
      mkMachine (process_completion id64 sqe_available config_ (loop_of m) id 0 false true no_reads)
        (sent_ m) (notifications_ m ∖ {[id]})
  | StopNow => mkMachine (stop (loop_of m)) (sent_ m) (notifications_ m)
  | ShutdownNow now snapshot =>
      mkMachine (begin_shutdown id64 sqe_available (loop_of m) now snapshot) (sent_ m) (notifications_ m)
  end.
Definition perform_all (m : Machine) (choices : list Choice) : Machine := fold_left perform choices m.

Definition cancelledb (l : Loop) (id : Z) : bool :=
  existsb (fun p => bool_decide (p.2 = SqeCancel id)) (map_to_list (kernel_ l)).
Definition may_answerb (l : Loop) (id result : Z) (more : bool) : bool :=
  match kernel_ l !! id with
  | Some SqeAccept => negb more && ((result <? 0) || (next_connection_id_ l <? 2 ^ 56))
  | Some (SqeRecv _ _) => negb more && (result <=? provided_buffer_size config_)
  | Some (SqeSend _ zero_copy view) => (negb more || zero_copy) && (result <=? zlen view)
  | Some (SqeTimeout _) => negb more && (negb (result =? - ECANCELED) || cancelledb l id)
  | Some (SqeCancel _) | Some SqePoll => negb more
  | None => false
  end.
Definition allowed (m : Machine) (choice : Choice) : bool :=
  match choice with
  | Complete id result more _ =>
      bool_decide (is_Some (operations_ (loop_of m) !! id)) && may_answerb (loop_of m) id result more
  | Notify id => bool_decide (id ∈ notifications_ m)
  | StopNow => true
  | ShutdownNow now snapshot =>
      stopping_ (loop_of m) && negb (shutdown_initiated_ (loop_of m)) &&
      bool_decide (snapshot.*1 = elements (connections_ (loop_of m)))
  end.
Fixpoint all_allowed (m : Machine) (choices : list Choice) : bool :=
  match choices with
  | [] => true
  | choice :: choices => allowed m choice && all_allowed (perform m choice) choices
  end.

Lemma cancelledb_spec l id : cancelledb l id = true -> cancelled l id.
Proof.
  unfold cancelledb. rewrite existsb_exists. intros ([i s] & Hin & Hb). apply bool_decide_eq_true in Hb. cbn in Hb. subst s.
  exists i. by apply elem_of_map_to_list, list_elem_of_In.
Qed.
Lemma may_answerb_spec l id result more :
  may_answerb l id result more = true -> kernel_may_answer config_ l id result more.
Proof.
  unfold may_answerb, kernel_may_answer. destruct (kernel_ l !! id) as [ [ | | | | | ]|]; try done;
    rewrite ?andb_true_iff, ?orb_true_iff, ?negb_true_iff; intros Hb; try done.
  - destruct Hb as [-> Hb]. split; [done|]. lia.
  - destruct Hb as [-> Hb]. split; [done|]. lia.
  - destruct Hb as [Hb Hr]. split; [naive_solver|lia].
  - destruct Hb as [-> Hb]. split; [done|]. intros ->. destruct Hb as [Hb|Hb]; [by rewrite Z.eqb_refl in Hb|by apply cancelledb_spec].
Qed.
Lemma allowed_step m choice : allowed m choice = true -> step id64 sqe_available config_ m (perform m choice).
Proof.
  destruct choice as [id result more r|id| |snapshot]; cbn [allowed perform].
  - intros [Hop Hans]%andb_true_iff. apply bool_decide_eq_true in Hop as [op Hop].
    eapply step_completion; [exact Hop|by apply may_answerb_spec].
  - intros Hid%bool_decide_eq_true. by apply step_notification.
  - intros _. apply step_stop.
  - rewrite !andb_true_iff, negb_true_iff, bool_decide_eq_true. intros [ [Hs Hi] E]. apply step_shutdown; [done|done|by rewrite E].
Qed.
Lemma performed_reachable choices :
  all_allowed (initial id64 sqe_available config_) choices = true ->
  reachable id64 sqe_available config_ (perform_all (initial id64 sqe_available config_) choices).
Proof.
  unfold reachable. generalize (initial id64 sqe_available config_). induction choices as [|choice choices IH]; intros m; cbn.
  - reflexivity.
  - intros [Ha Hb]%andb_true_iff. eapply rtc_l; [by apply allowed_step|by apply IH].
Qed.
End Perform.

(** * A run, and four that go wrong *)

Definition some_ids (n : nat) : Z := Z.of_nat n + 1.
Definition free_ring (n : nat) : bool := true.
Definition some_config : ServerConfig :=
  mkServerConfig 4 64 100 60000 5000 100000 8 100000 0 false true.
Definition first_connection : Z := 2 ^ 56 + 1.
Definition reads (calls : list Call) : Reads := mkReads calls [] ""%string true.

Lemma some_ids_inj i j : generate_id64 some_ids i = generate_id64 some_ids j -> i = j.
Proof. unfold generate_id64, some_ids. repeat case_match; lia. Qed.
Lemma some_limits : limits_ok some_config.
Proof. vm_compute. by split. Qed.

(** A peer connects, its handshake completes, and its session writes five bytes. *)
Definition opening : list Choice :=
  [Complete 1 7 false no_reads;
   Complete 3 10 false (reads [HandshakeComplete first_connection [WriteTo first_connection [x01; x02; x03; x04; x05] ] ])].
Notation run := (perform_all some_ids free_ring some_config (initial some_ids free_ring some_config)).

Lemma peers_get_what_was_written_witness :
  let m := run (opening ++ [Complete 6 2 false no_reads]) in
  wire (sent_ m) first_connection = [x01; x02] /\ in_order m first_connection.
Proof.
  intros m. split; [vm_compute; reflexivity|].
  apply (peers_get_what_was_written some_ids free_ring some_config).
  - apply some_ids_inj.
  - apply some_limits.
  - apply performed_reachable. vm_compute. reflexivity.
  - vm_compute. reflexivity.
Defined.

(** A large buffer goes out without a copy: its send has completed, its notification not. *)
Definition large_write : list Choice :=
  [Complete 1 7 false no_reads;
   Complete 3 10 false (reads [HandshakeComplete first_connection [WriteTo first_connection (replicate 16384 x01)] ]);
   Complete 6 16384 true no_reads].
Lemma kernel_memory_is_held_witness :
  let m := run large_write in 6 ∈ notifications_ m /\ memory_lent m.
Proof.
  intros m. split; [vm_compute; reflexivity|].
  apply (kernel_memory_is_held some_ids free_ring some_config).
  - apply some_ids_inj.
  - apply some_limits.
  - apply performed_reachable. vm_compute. reflexivity.
  - vm_compute. reflexivity.
Defined.

(** The peer closes while an ordinary send is under way.  The connection leaves the registry,
    which was its only owner, and with it goes its queue; the send is still pending, and
    nothing keeps the bytes the kernel reads. *)
Lemma closed_send_unheld :
  exists m op view, reachable some_ids free_ring some_config m /\ reopened_ (loop_of m) = false /\
    operations_ (loop_of m) !! 6 = Some op /\ op_type op = OperationType.Send /\
    kernel_ (loop_of m) !! 6 = Some (SqeSend first_connection false view) /\ view <> [] /\
    first_connection ∉ connections_ (loop_of m) /\ zero_copy_buffers_ (loop_of m) !! 6 = None.
Proof.
  exists (run (opening ++ [Complete 8 0 false no_reads])). eexists _, _.
  split; [apply performed_reachable; vm_compute; reflexivity|].
  split; [vm_compute; reflexivity|]. split; [vm_compute; reflexivity|]. split; [vm_compute; reflexivity|].
  split; [vm_compute; reflexivity|]. split; [discriminate|]. split; [|vm_compute; reflexivity].
  apply (bool_decide_eq_false_1 _). vm_compute. reflexivity.
Qed.

(** The ring is full when the session writes first.  [send_in_flight_] stays set with no send
    under way, so that no later write starts one. *)
Definition ring_full_once (n : nat) : bool := negb (Nat.eqb n 5).
Definition two_writes : list Choice :=
  opening ++ [Complete 7 10 false (reads [Session (WriteTo first_connection [x06])])].
Lemma full_ring_stalls :
  let m := perform_all some_ids ring_full_once some_config (initial some_ids ring_full_once some_config) two_writes in
  all_allowed some_ids ring_full_once some_config (initial some_ids ring_full_once some_config) two_writes = true /\
  first_connection ∈ connections_ (loop_of m) /\
  option_map write_queue_ (objects_ (loop_of m) !! first_connection) = Some [ [x01; x02; x03; x04; x05]; [x06] ] /\
  filter (fun p => op_type p.2 = OperationType.Send) (map_to_list (operations_ (loop_of m))) = [].
Proof.
  split; [vm_compute; reflexivity|]. split; [apply (bool_decide_eq_true_1 _); vm_compute; reflexivity|].
  split; vm_compute; reflexivity.
Qed.

(** So does an empty buffer at the front of the queue. *)
Definition empty_write : list Choice :=
  [Complete 1 7 false no_reads;
   Complete 3 10 false (reads [HandshakeComplete first_connection [WriteTo first_connection []; WriteTo first_connection [x01] ] ])].
Lemma empty_write_stalls :
  let m := run empty_write in
  all_allowed some_ids free_ring some_config (initial some_ids free_ring some_config) empty_write = true /\
  first_connection ∈ connections_ (loop_of m) /\
  option_map write_queue_ (objects_ (loop_of m) !! first_connection) = Some [ []; [x01] ] /\
  filter (fun p => op_type p.2 = OperationType.Send) (map_to_list (operations_ (loop_of m))) = [].
Proof.
  split; [vm_compute; reflexivity|]. split; [apply (bool_decide_eq_true_1 _); vm_compute; reflexivity|].
  split; vm_compute; reflexivity.
Qed.

(** An idle timeout that fired just before the connection was read from, and was replaced
    by a new one (operation 10), still closes the connection: [handle_timeout_completion] does not ask
    whether the timeout is the one that is armed. *)
Lemma stale_timeout_closes :
  let m := run opening in
  let m' := run (opening ++ [Complete 7 (-62) false no_reads]) in
  all_allowed some_ids free_ring some_config (initial some_ids free_ring some_config) (opening ++ [Complete 7 (-62) false no_reads]) = true /\
  option_map idle_timeout_operation_id_ (objects_ (loop_of m) !! first_connection) = Some 10 /\
  first_connection ∈ connections_ (loop_of m) /\ first_connection ∉ connections_ (loop_of m').
Proof.
  split; [vm_compute; reflexivity|]. split; [vm_compute; reflexivity|].
  split; [apply (bool_decide_eq_true_1 _); vm_compute; reflexivity|apply (bool_decide_eq_false_1 _); vm_compute; reflexivity].
Qed.

(** With a write queue too short for the handshake's own reply, the reply closes the
    connection; the handshake then completes on the closed connection and leaves a session
    that nothing will remove. *)
Definition short_queue : ServerConfig := mkServerConfig 4 64 100 60000 5000 1000 8 1000 0 false true.
Definition overflowing_handshake : list Choice :=
  [Complete 1 7 false no_reads;
   Complete 3 64 false (reads [Session (WriteTo first_connection (replicate 3073 x00)); HandshakeComplete first_connection [] ])].
Lemma handshake_completes_when_closed :
  let m := perform_all some_ids free_ring short_queue (initial some_ids free_ring short_queue) overflowing_handshake in
  all_allowed some_ids free_ring short_queue (initial some_ids free_ring short_queue) overflowing_handshake = true /\
  reopened_ (loop_of m) = true /\ first_connection ∉ connections_ (loop_of m) /\ first_connection ∈ rtmp_sessions_ (loop_of m).
Proof.
  split; [vm_compute; reflexivity|]. split; [vm_compute; reflexivity|].
  split; [apply (bool_decide_eq_false_1 _); vm_compute; reflexivity|apply (bool_decide_eq_true_1 _); vm_compute; reflexivity].
Qed.
