(* ===== verification/EventLoopLive.v ===== *)
(** What is queued gets sent: as long as the ring has room, an open connection whose next
    buffer is not empty has a send under way, so everything written can go out. *)

From S2P Require Import Prelude TcpConnection EventLoop EventLoopSafe EventLoopRuns EventLoopContract.

(** An open connection with something to send is sending. *)
Definition sending (l : Loop) (c : Z) : Prop :=
  forall t, c ∈ connections_ l -> objects_ l !! c = Some t -> next_write_buffer t <> [] -> exists id, sends l c id.

(** From one loop to the next: sends stay under way, and what an open connection has to send
    it had before, or it has a send. *)
Record carries (l l' : Loop) : Prop := mkCarries {
  ca_sends : forall c id, sends l c id -> sends l' c id;
  ca_next : forall c t', c ∈ connections_ l' -> objects_ l' !! c = Some t' -> next_write_buffer t' <> [] ->
    (exists id, sends l' c id) \/
    c ∈ connections_ l /\ exists t, objects_ l !! c = Some t /\ next_write_buffer t = next_write_buffer t'
}.
#[export] Instance carries_preorder : PreOrder carries.
Proof.
  split.
  - intros l. split; [done|]. intros c t Hc Ht _. right. split; [done|]. by exists t.
  - intros l1 l2 l3 [S12 N12] [S23 N23]. split; [auto|]. intros c t3 Hc3 Ht3 Hn.
    destruct (N23 c t3 Hc3 Ht3 Hn) as [?|(Hc2 & t2 & Ht2 & E)]; [by left|]. rewrite <- E in Hn.
    destruct (N12 c t2 Hc2 Ht2 Hn) as [ [id Hid]|(Hc1 & t1 & Ht1 & E1)]; [left; exists id; auto|].
    right. split; [done|]. exists t1. by rewrite E1.
Qed.

Lemma carries_sending l l' c : carries l l' -> sending l c -> sending l' c.
Proof.
  intros [Hs Hn] H t' Hc Ht Hne. destruct (Hn c t' Hc Ht Hne) as [?|(Hc0 & t & Ht0 & E)]; [done|].
  rewrite <- E in Hne. destruct (H t Hc0 Ht0 Hne) as [id Hid]. exists id. auto.
Qed.

Lemma carries_same l l' :
  operations_ l ⊆ operations_ l' -> objects_ l' = objects_ l -> connections_ l' ⊆ connections_ l -> carries l l'.
Proof.
  intros Eo Eb Ec. split.
  - intros c id (op & Hop & H). exists op. split; [by eapply lookup_weaken|done].
  - intros c t Hc Ht _. right. rewrite Eb in Ht. split; [set_solver|]. by exists t.
Qed.
(** Closes a goal between loops with the same objects and connections. *)
Ltac carries_fields := apply carries_same; [solve [reflexivity|apply emplace_subseteq]|reflexivity|set_solver].

Lemma carries_put l t t' :
  objects_ l !! connection_id_ t' = Some t -> next_write_buffer t = next_write_buffer t' -> carries l (put_object l t').
Proof.
  intros Ht E. split; [done|]. intros c t0 Hc. cbn. intros [ [<- <-]|[_ Ht0] ]%lookup_insert_Some _; right; split; try done; eauto.
Qed.
Lemma fold_carries {A} (f : Loop -> A -> Loop) xs l : (forall l x, carries l (f l x)) -> carries l (fold_left f xs l).
Proof. intros Hf. revert l. induction xs as [|x xs IH]; intros l; [reflexivity|]. etransitivity; [apply Hf|apply IH]. Qed.

Section Live.
Context (id64 : nat -> Z) (sqe_available : nat -> bool) (config_ : ServerConfig).

Lemma submit_carries l op sqe : carries l (submit id64 l op sqe).1.
Proof. carries_fields. Qed.
Lemma asked_carries l n : carries l (set_sqes_asked l n).
Proof. carries_fields. Qed.
Lemma submit_accept_carries l : carries l (submit_accept id64 sqe_available l).
Proof. unfold submit_accept, get_sqe. destruct (negb _); carries_fields. Qed.
Lemma submit_router_poll_carries l : carries l (submit_router_poll id64 sqe_available l).
Proof. unfold submit_router_poll, get_sqe. destruct (negb _); carries_fields. Qed.
Lemma cancel_operation_carries l i : carries l (cancel_operation id64 sqe_available l i).
Proof. unfold cancel_operation, get_sqe. destruct (negb _); carries_fields. Qed.
Lemma release_carries l b : carries l (release l b).
Proof. destruct b; [carries_fields|reflexivity]. Qed.
Lemma submit_receive_carries l c : carries l (submit_receive id64 sqe_available l c).
Proof.
  unfold submit_receive. destruct (objects_ l !! c) as [t|]; [|reflexivity]. destruct (negb (is_open t)); [reflexivity|].
  assert (Ha : carries l (acquire l).1) by (unfold acquire; destruct (list.last _); carries_fields).
  destruct (acquire l) as [l0 [b|] ]; [|exact Ha]. etransitivity; [exact Ha|]. unfold get_sqe.
  destruct (negb _); carries_fields.
Qed.
Lemma cancel_all_carries l c : carries l (cancel_all_operations_for_connection id64 sqe_available l c).
Proof. apply fold_carries, cancel_operation_carries. Qed.
Lemma cleanup_handshake_carries l c : carries l (cleanup_handshake_state id64 sqe_available l c).
Proof.
  unfold cleanup_handshake_state. cbv zeta. destruct (_ =? 0); [carries_fields|].
  etransitivity; [|apply cancel_operation_carries]. carries_fields.
Qed.

End Live.

(** * With the invariant *)

Section Carried.
Context (id64 : nat -> Z) (sqe_available : nat -> bool) (config_ : ServerConfig).
Hypothesis draw_inj : forall n m, generate_id64 id64 n = generate_id64 id64 m -> n = m.
Hypothesis ring_free : forall n, sqe_available n = true.
Variable notifs : gset Z.
Notation Inv := (Inv id64 config_ notifs).

Lemma object_id sent held l c t : Inv sent held l -> objects_ l !! c = Some t -> connection_id_ t = c.
Proof. intros H Ht. by destruct (inv_objects _ _ _ _ _ _ H c t Ht). Qed.

Lemma closing_carries l c t t1 :
  objects_ l !! c = Some t -> connection_id_ t1 = c ->
  carries l (close_connection id64 sqe_available (put_object l t1) c).
Proof.
  intros Ht Hid.
  destruct (close_connection_core id64 sqe_available (put_object l t1) c t1) as [E _]; [cbn; by rewrite Hid, lookup_insert_eq|done|].
  rewrite teardown_put in E. unfold core in E. cbn in E. injection E as _ _ Eo _ _ _ _ Eb Ec _.
  assert (Ht0 : carries l (teardown id64 sqe_available l c)).
  { etransitivity; [apply cancel_all_carries|apply cleanup_handshake_carries]. }
  destruct (teardown_outside id64 sqe_available l c) as (Ebt & Ect & _). split.
  - intros c' id Hs. apply (ca_sends _ _ Ht0) in Hs as (op & Hop & Hs). exists op. by rewrite Eo.
  - intros c' t'. rewrite Eb, Ec, Hid, Ebt, insert_insert_eq. intros Hc'.
    rewrite lookup_insert_ne by set_solver. intros Ht' _. right. split; [set_solver|]. by exists t'.
Qed.

Lemma close_connection_carries sent held l c :
  Inv sent held l -> carries l (close_connection id64 sqe_available l c).
Proof.
  intros H. destruct (objects_ l !! c) as [t|] eqn:Ht; [|unfold close_connection; by rewrite Ht].
  pose proof (object_id _ _ _ _ _ H Ht) as Hid. pose proof (closing_carries l c t t Ht Hid) as Hk.
  assert (E : put_object l t = set_objects l (objects_ l)) by (unfold put_object; by rewrite Hid, insert_id).
  rewrite E in Hk. unfold close_connection in *. cbn [objects_ set_objects] in Hk. rewrite Ht in *. by destruct l.
Qed.
Lemma close_carries sent held l c : Inv sent held l -> carries l (close id64 sqe_available l c).
Proof.
  intros H. unfold close. destruct (objects_ l !! c) as [t|] eqn:Ht; [|done]. destruct (is_closing t); [done|].
  eapply closing_carries; [exact Ht|]. cbn. by eapply object_id.
Qed.

(** [submit_send] of an open connection with a buffer to send and none under way. *)
Lemma submit_send_starts sent held l c t :
  Inv sent held l -> objects_ l !! c = Some t -> c ∈ connections_ l -> next_write_buffer t <> [] ->
  exists id, sends (submit_send id64 sqe_available l c) c id.
Proof.
  intros H Ht Hc Hne. destruct (inv_objects _ _ _ _ _ _ H c t Ht) as (Hid & Hin & _). destruct (Hin Hc) as [Hcl Hq].
  unfold submit_send. rewrite Ht.
  assert (Ho : is_open t = true).
  { unfold is_closing in Hcl. apply orb_false_iff in Hcl as [Hcl _]. unfold is_open. by rewrite Hcl. }
  rewrite Ho. cbn [negb]. destruct (zlen (next_write_buffer t) =? 0) eqn:Hz.
  { exfalso. apply Hne, zlen_0_nil. lia. }
  unfold get_sqe. rewrite ring_free. cbn [negb]. destruct (next_view_nonempty t Hq Hne) as [_ Hlt].
  assert (Hle : (zlen (next_write_buffer t) <=? next_write_offset t) = false) by (unfold next_write_offset; lia).
  rewrite Hle. cbv zeta.
  pose proof (set_sqes_asked_keeps _ _ _ _ _ _ (S (sqes_asked l)) H) as H0.
  rewrite (submit_fresh _ _ draw_inj _ _ _ _ _ _ H0).
  assert (Hs : forall l' o i, operations_ l' = <[i := o]> (operations_ l) -> op_type o = OperationType.Send ->
    op_connection o = Some c -> exists id, sends l' c id).
  { intros l' o i E Hty Hco. exists i. exists o. by rewrite E, lookup_insert_eq. }
  case_match; eapply Hs; reflexivity.
Qed.
Lemma submit_send_carries sent held l c :
  Inv sent held l -> carries l (submit_send id64 sqe_available l c).
Proof.
  intros H. unfold submit_send. destruct (objects_ l !! c) as [t|] eqn:Ht; [|done].
  destruct (is_open t) eqn:Hop; cbn [negb]; [|done]. pose proof (is_open_in _ _ _ _ _ _ _ _ H Ht Hop) as Hc.
  destruct (inv_objects _ _ _ _ _ _ H c t Ht) as (Hid & Hq & _). destruct (Hq Hc) as [_ Hqo].
  destruct (zlen (next_write_buffer t) =? 0) eqn:Hz; [done|].
  assert (Hne : next_write_buffer t <> []) by (intros E; by rewrite E in Hz).
  destruct (next_view_nonempty t Hqo Hne) as [_ Hlt]. unfold get_sqe. destruct (negb _); [carries_fields|].
  assert (Hle : (zlen (next_write_buffer t) <=? next_write_offset t) = false) by (unfold next_write_offset; lia).
  rewrite Hle. cbv zeta. destruct (submit _ _ _ _) as [l2 id] eqn:E.
  assert (Hl2 : carries l l2).
  { etransitivity; [apply (asked_carries l (S (sqes_asked l)))|]. change l2 with (l2, id).1. rewrite <- E. apply submit_carries. }
  case_match; [|exact Hl2]. etransitivity; [exact Hl2|]. carries_fields.
Qed.

Lemma async_write_carries sent held l c b : Inv sent held l -> carries l (async_write id64 sqe_available l c b).
Proof.
  intros H. unfold async_write. destruct (objects_ l !! c) as [t|] eqn:Ht; [|done].
  destruct (enqueue_write t b) as [t' [| |submit] ] eqn:He; [done|by eapply close_carries|].
  destruct (inv_enqueue _ _ draw_inj _ _ _ _ _ _ _ _ _ H Ht He) as [H' Hno].
  pose proof (object_id _ _ _ _ _ H Ht) as Hid.
  assert (Hc : c ∈ connections_ l).
  { destruct (inv_objects _ _ _ _ _ _ H c t Ht) as (_ & _ & Hout & _).
    destruct (decide (c ∈ connections_ l)) as [|Hn]; [done|]. apply Hout in Hn.
    unfold enqueue_write, is_closing in He. by rewrite Hn in He. }
  destruct (inv_objects _ _ _ _ _ _ H c t Ht) as (_ & Hin & _). destruct (Hin Hc) as [_ Hq].
  destruct (enqueue_write_queued t b t' submit Hq He) as (_ & _ & Hsub & _ & _ & _ & Et).
  assert (Hid' : connection_id_ t' = c) by (by rewrite Et).
  set (l1 := emit_log (put_object l t') (QueuedWrite c b)) in *.
  assert (Ht1 : objects_ l1 !! c = Some t') by (cbn; by rewrite Hid', lookup_insert_eq).
  assert (Hothers : forall l2, carries l1 l2 -> (next_write_buffer t' <> next_write_buffer t -> sending l2 c) -> carries l l2).
  { intros l2 [Hs Hn] Hsend. split; [intros c' id Hs'; by apply Hs|]. intros c' t2 Hc2 Ht2 Hne.
    destruct (Hn c' t2 Hc2 Ht2 Hne) as [?|(Hc1 & t1 & Ht1' & E1)]; [by left|].
    cbn in Ht1'. rewrite Hid' in Ht1'. apply lookup_insert_Some in Ht1' as [ [<- <-]|[Hne' Ht1'] ]; [|right; eauto].
    destruct (decide (next_write_buffer t' = next_write_buffer t)) as [E|E].
    - right. split; [done|]. exists t. split; [done|congruence].
    - left. by apply (Hsend E t2). }
  destruct submit.
  - apply Hothers; [by eapply submit_send_carries|]. intros _ t2 Hc2 Ht2 Hne.
    destruct (decide (next_write_buffer t' = [])) as [E|E].
    + pose proof (ca_next _ _ (submit_send_carries _ _ _ c H') c t2 Hc2 Ht2 Hne) as [?|(_ & t1 & Ht1' & E1)]; [done|].
      rewrite Ht1 in Ht1'. simplify_eq. congruence.
    + by eapply submit_send_starts.
  - apply Hothers; [reflexivity|]. intros Hdiff. exfalso. apply Hdiff.
    assert (Hne : write_queue_ t <> []) by (apply (qo_in_flight t Hq); by destruct (send_in_flight_ t)).
    rewrite Et. unfold next_write_buffer. cbn. by destruct (write_queue_ t).
Qed.

Lemma run_session_call_carries sent held h l call :
  Inv sent held l -> carries l (run_session_call id64 sqe_available h l call).
Proof.
  intros H. destruct call; cbn; case_match; try done; [by eapply async_write_carries|by eapply close_connection_carries].
Qed.
Lemma run_session_calls_carries sent held h calls l :
  Inv sent held l -> carries l (run_session_calls id64 sqe_available h l calls).
Proof.
  revert l. induction calls as [|call calls IH]; [done|]. intros l H. cbn.
  etransitivity; [by eapply run_session_call_carries|]. apply IH. by apply run_session_call_keeps.
Qed.

Lemma set_idle_carries sent held l c t i :
  Inv sent held l -> objects_ l !! c = Some t -> carries l (put_object l (set_idle_timeout_operation_id t i)).
Proof.
  intros H Ht. apply (carries_put l t); [|done]. cbn. by rewrite (object_id _ _ _ _ _ H Ht).
Qed.

Lemma arm_idle_timeout_carries sent held l c :
  Inv sent held l -> carries l (arm_idle_timeout id64 sqe_available config_ l c).
Proof.
  intros H. unfold arm_idle_timeout. destruct (objects_ l !! c) as [t|] eqn:Ht; [|done].
  destruct (_ <=? 0); [done|]. destruct (negb (is_open t)); [done|]. pose proof (object_id _ _ _ _ _ H Ht) as Hid.
  match goal with |- carries _ (let '(_, _) := ?X in _) => destruct X as [l1 t1] eqn:E end.
  assert (H1 : carries l l1 /\ objects_ l1 !! c = Some t1 /\ connection_id_ t1 = c).
  { destruct (idle_timeout_operation_id_ t =? 0); injection E as <- <-; [done|].
    destruct (cancel_operation_outside id64 sqe_available l (idle_timeout_operation_id_ t)) as (Eo & _). split; [|split; [|done] ].
    - etransitivity; [apply cancel_operation_carries|]. eapply set_idle_carries; [by apply cancel_operation_keeps|by rewrite Eo].
    - cbn. by rewrite Hid, lookup_insert_eq. }
  clear E. destruct H1 as (H1 & Ht1 & Hid1). etransitivity; [exact H1|]. clear H1. unfold get_sqe.
  destruct (negb _); [apply asked_carries|].
  match goal with |- context [submit id64 ?L ?O ?S] => pose proof (submit_carries id64 L O S) as Hs; destruct (submit id64 L O S) as [l2 i] eqn:E end.
  cbn in Hs. etransitivity; [apply (asked_carries l1 (S (sqes_asked l1)))|]. etransitivity; [exact Hs|].
  transitivity (put_object l2 (set_idle_timeout_operation_id t1 i)); [|carries_fields].
  apply (carries_put l2 t1); [|done]. cbn. rewrite Hid1. by injection E as <- _.
Qed.

Lemma arm_handshake_timeout_carries l c : carries l (arm_handshake_timeout id64 sqe_available config_ l c).
Proof.
  unfold arm_handshake_timeout. destruct (objects_ l !! c) as [t|] eqn:Ht; [|done].
  destruct (_ <=? 0); [done|]. destruct (negb (is_open t)); [done|].
  match goal with |- context [get_sqe _ ?X] => set (l1 := X) end.
  transitivity l1.
  { subst l1. destruct (handshake_timeout_operation_ids_ l !! c) as [i|]; [|done].
    etransitivity; [apply (cancel_operation_carries id64 sqe_available l i)|carries_fields]. }
  clearbody l1. unfold get_sqe. destruct (negb _); carries_fields.
Qed.

Lemma handshake_complete_carries sent held l h c calls :
  Inv sent held l -> reopened_ (handshake_complete id64 sqe_available config_ l h c calls) = false ->
  carries l (handshake_complete id64 sqe_available config_ l h c calls).
Proof.
  intros H. unfold handshake_complete. destruct (lock l h (Some c)) as [t|] eqn:Ht; [|done]. apply lock_Some in Ht.
  pose proof (object_id _ _ _ _ _ H Ht) as Hid. cbv zeta. unfold start_rtmp_session. intros Hr.
  case_bool_decide as Hc.
  - assert (H1 : Inv sent held (put_object l (set_state t ConnectionState.Connected))).
    { destruct (inv_objects _ _ _ _ _ _ H c t Ht) as (_ & Hin & Hout & _).
      eapply inv_put_object; [done|done|cbn; by rewrite Hid|done..|apply set_state_queue_ok|done|]. cbn. by rewrite Hid. }
    pose proof (cleanup_handshake_keeps _ sqe_available _ draw_inj _ _ _ _ c H1) as H2.
    match goal with |- carries l (arm_idle_timeout _ _ _ (run_session_calls _ _ _ ?L _) _) =>
      assert (H3 : Inv sent held L) by same_core H2; assert (Hcar : carries l L) end.
    { etransitivity; [apply (carries_put l t (set_state t ConnectionState.Connected)); [cbn; by rewrite Hid|done]|].
      etransitivity; [apply (cleanup_handshake_carries id64 sqe_available _ c)|]. carries_fields. }
    etransitivity; [exact Hcar|]. etransitivity; [eapply run_session_calls_carries; exact H3|].
    eapply arm_idle_timeout_carries. by apply run_session_calls_keeps.
  - exfalso. revert Hr. match goal with |- ?G = false -> _ => enough (Hr : G = true) by (rewrite Hr; discriminate) end.
    apply (qt_reopened _ _ (arm_idle_timeout_quiet _ _ _ _ _)), (qt_reopened _ _ (run_session_calls_quiet _ _ _ _ _)).
    cbn. apply (qt_reopened _ _ (cleanup_handshake_quiet _ _ _ _)). done.
Qed.
Lemma handshake_failed_carries sent held l h c calls :
  Inv sent held l -> carries l (handshake_failed id64 sqe_available l h c calls).
Proof.
  intros H. unfold handshake_failed. case_match; [|done].
  pose proof (cleanup_handshake_keeps _ sqe_available _ draw_inj _ _ _ _ c H) as H1.
  etransitivity; [apply (cleanup_handshake_carries id64 sqe_available l c)|].
  etransitivity; [eapply close_connection_carries; exact H1|].
  eapply run_session_calls_carries. by apply close_connection_keeps.
Qed.
Lemma run_call_carries sent held h l call :
  Inv sent held l -> reopened_ (run_call id64 sqe_available config_ h l call) = false ->
  carries l (run_call id64 sqe_available config_ h l call).
Proof.
  intros H. destruct call; cbn [run_call]; intros Hr;
    [by eapply run_session_call_carries|by eapply handshake_complete_carries|by eapply handshake_failed_carries].
Qed.
Lemma run_calls_carries sent held h calls l :
  Inv sent held l -> reopened_ (run_calls id64 sqe_available config_ h l calls) = false ->
  carries l (run_calls id64 sqe_available config_ h l calls).
Proof.
  revert l. induction calls as [|call calls IH]; [done|]. intros l H Hr. cbn in *.
  assert (Hr1 : reopened_ (run_call id64 sqe_available config_ h l call) = false)
    by (eapply quiet_reopened; [apply run_calls_quiet|exact Hr]).
  etransitivity; [by eapply run_call_carries|]. apply IH; [by apply run_call_keeps|exact Hr].
Qed.

Lemma read_on_carries sent held l c :
  Inv sent held l -> carries l (read_on id64 sqe_available config_ l c).
Proof.
  intros H. unfold read_on. destruct (objects_ l !! c) as [t|]; [|done]. destruct (is_open t); [|done].
  pose proof (submit_receive_keeps _ sqe_available _ draw_inj _ _ _ _ c H) as H1.
  etransitivity; [apply (submit_receive_carries id64 sqe_available l c)|].
  case_bool_decide; [apply arm_handshake_timeout_carries|by eapply arm_idle_timeout_carries].
Qed.

(** ** Completions *)

Definition all_sending (l : Loop) : Prop := forall c, sending l c.
Lemma carries_all l l' : carries l l' -> all_sending l -> all_sending l'.
Proof. intros Hc H c. eapply carries_sending; [exact Hc|apply H]. Qed.

Lemma taken_carries l id op drop :
  operations_ l !! id = Some op -> op_type op <> OperationType.Send -> carries l (taken l id drop).
Proof.
  intros Hop Hty.
  assert (E : operations_ (taken l id drop) = delete id (operations_ l) /\ objects_ (taken l id drop) = objects_ l /\
              connections_ (taken l id drop) = connections_ l) by (unfold taken; by destruct drop).
  destruct E as (Eo & Eb & Ec). split.
  - intros c i (o & Ho & Ht & Hco). exists o. rewrite Eo, lookup_delete_ne; [done|]. intros <-. congruence.
  - intros c t. rewrite Eb, Ec. intros Hc Ht _. right. split; [done|]. by exists t.
Qed.

Lemma handle_receive_carries sent l op result calls closing b :
  let l1 := set_operations l (delete (operation_id op) (operations_ l)) in
  let l' := handle_receive_completion id64 sqe_available config_ l1 op result calls closing in
  Inv sent [] l -> operations_ l !! operation_id op = Some op -> receive_buffers_ l !! operation_id op = Some b ->
  reopened_ l' = false -> carries l1 l'.
Proof.
  intros l1 l' H Hop Hb. subst l'. unfold handle_receive_completion. cbv zeta.
  change (receive_buffers_ l1) with (receive_buffers_ l). rewrite Hb.
  pose proof (inv_take_receive _ _ _ _ _ _ _ _ _ H Hop Hb) as H2. fold l1 in H2.
  set (l2 := set_receive_buffers l1 (delete (operation_id op) (receive_buffers_ l))) in *.
  assert (H12 : carries l1 l2) by carries_fields. intros Hr. etransitivity; [exact H12|]. revert Hr.
  clearbody l2. clear l1 H12.
  destruct (result <=? 0).
  - intros _. pose proof (inv_release _ _ _ _ _ _ _ H2) as H3.
    etransitivity; [apply (release_carries l2 (Some b))|].
    destruct (lock l2 None (op_connection op)); [|done]. destruct (_ =? _); [done|].
    etransitivity; [eapply close_connection_carries; exact H3|]. eapply run_session_calls_carries.
    by apply close_connection_keeps.
  - destruct (lock l2 None (op_connection op)) as [t|]; [|intros _; apply release_carries].
    match goal with |- context [if ?g then run_calls _ _ _ _ _ _ else _] => set (go := g) end.
    set (l3 := if go then run_calls id64 sqe_available config_ (Some (connection_id_ t)) l2 calls else l2).
    fold (read_on id64 sqe_available config_ (release l3 (Some b)) (connection_id_ t)). intros Hr.
    assert (Hr3 : reopened_ l3 = false)
      by (eapply quiet_reopened; [|exact Hr]; etransitivity; [apply (release_quiet _ (Some b))|apply read_on_quiet]).
    assert (H3 : Inv sent [b] l3) by (by apply run_or_not_keeps).
    assert (H23 : carries l2 l3) by (subst l3; destruct go; [by eapply run_calls_carries|done]).
    etransitivity; [exact H23|]. etransitivity; [apply (release_carries l3 (Some b))|].
    eapply read_on_carries. by apply inv_release.
Qed.

Lemma handle_timeout_carries sent l op result closing :
  Inv sent [] l -> operations_ l !! operation_id op = None ->
  carries l (handle_timeout_completion id64 sqe_available l op result closing).
Proof.
  intros H Hno. unfold handle_timeout_completion. cbv zeta.
  pose proof (inv_drop_spec _ _ _ _ _ _ _ H Hno) as H1.
  set (l1 := set_timeout_specs l (delete (operation_id op) (timeout_specs_ l))) in *.
  assert (H01 : carries l l1) by carries_fields. etransitivity; [exact H01|]. clearbody l1. clear H01 H.
  destruct (lock l1 None (op_connection op)) as [t|] eqn:Hl; [|done].
  apply lock_registered in Hl as (c & _ & Hc & Ht). rewrite (object_id _ _ _ _ _ H1 Ht).
  match goal with |- carries _ (let '(_, _) := ?X in _) => destruct X as [l2 t2] eqn:E end.
  assert (H2 : Inv sent [] l2 /\ carries l1 l2).
  { destruct (_ =? _) in E; injection E as <- <-; [|done]. split; [by eapply inv_set_idle|by eapply set_idle_carries]. }
  clear E. destruct H2 as [H2 H12]. etransitivity; [exact H12|].
  match goal with |- carries _ (let '(_, _) := ?X in _) => destruct X as [l3 hs] eqn:E end.
  assert (H3 : Inv sent [] l3 /\ carries l2 l3)
    by (destruct (decide _) in E; injection E as <- <-; [split; [same_core H2|carries_fields]|done]).
  clear E. destruct H3 as [H3 H23]. etransitivity; [exact H23|]. destruct (_ =? _); [done|].
  destruct (_ && _).
  - etransitivity; [by eapply close_connection_carries|]. eapply run_session_calls_carries. by apply close_connection_keeps.
  - destruct (_ && _); [|done]. by eapply handshake_failed_carries.
Qed.

Lemma handle_wakeup_carries sent held l result calls :
  Inv sent held l -> carries l (handle_wakeup_completion id64 sqe_available l result calls).
Proof.
  intros H. unfold handle_wakeup_completion. cbv zeta.
  assert (H1 : carries l (if 0 <=? result then run_session_calls id64 sqe_available None l calls else l))
    by (case_match; [by eapply run_session_calls_carries|done]).
  etransitivity; [exact H1|]. destruct (stopping_ _); [done|apply submit_router_poll_carries].
Qed.

Lemma handle_accept_sending sent held l result ip admitted :
  limits_ok config_ -> Inv sent held l -> (0 <= result -> next_connection_id_ l < 2 ^ 56) ->
  all_sending l -> all_sending (handle_accept_completion id64 sqe_available config_ l result ip admitted).
Proof.
  intros Hcfg H Hn Hs. unfold handle_accept_completion.
  set (l0 := if stopping_ l then l else submit_accept id64 sqe_available l).
  assert (H0 : all_sending l0)
    by (subst l0; case_match; [done|eapply carries_all; [apply submit_accept_carries|done] ]).
  clearbody l0. cbv zeta. destruct (result <? 0) eqn:Hres; [done|].
  destruct (_ <=? _); [|destruct (negb admitted)]; [intros c t; apply H0|intros c t; apply H0|].
  match goal with |- all_sending (arm_handshake_timeout _ _ _ (submit_receive _ _ ?L ?C) ?C) =>
    eapply carries_all; [apply arm_handshake_timeout_carries|]; eapply carries_all; [apply (submit_receive_carries id64 sqe_available L C)|];
    set (c := C)
  end.
  intros c' t. cbn. change (make_connection_id config_ (next_connection_id_ l0)) with c.
  rewrite insert_insert_eq. intros Hc' [ [<- <-]|[Hne Ht] ]%lookup_insert_Some Hw; [done|].
  destruct (H0 c' t) as [id (o & Ho)]; [set_solver|done|done|]. exists id. by exists o.
Qed.

End Carried.

(** * Runs *)

Section Sent.
Context (id64 : nat -> Z) (sqe_available : nat -> bool) (config_ : ServerConfig).
Hypothesis draw_inj : forall n m, generate_id64 id64 n = generate_id64 id64 m -> n = m.
Hypothesis config_ok : limits_ok config_.
Hypothesis ring_free : forall n, sqe_available n = true.
Notation Inv := (Inv id64 config_).

(** [l3] is the loop after a completed send of [c] has been taken. *)
Lemma send_again N sent l3 c t :
  Inv N sent [] l3 -> (forall c', c' <> c -> sending l3 c') -> objects_ l3 !! c = Some t ->
  all_sending (if is_open t && has_pending_write t then submit_send id64 sqe_available l3 c else l3).
Proof.
  intros H Hothers Ht c'. destruct (is_open t) eqn:Hop; cbn [andb].
  - pose proof (is_open_in _ _ _ _ _ _ _ _ H Ht Hop) as Hc. destruct (has_pending_write t) eqn:Hp.
    + pose proof (submit_send_carries _ sqe_available _ _ _ _ _ c H) as Hcar.
      destruct (decide (c' = c)) as [->|Hne]; [|by eapply carries_sending; [exact Hcar|apply Hothers] ].
      intros t' Hc' Ht' Hw. destruct (ca_next _ _ Hcar c t' Hc' Ht' Hw) as [?|(_ & t0 & Ht0 & E)]; [done|].
      eapply submit_send_starts; [done|done|exact H|exact Ht|done|]. simplify_eq. congruence.
    + destruct (decide (c' = c)) as [->|Hne]; [|by apply Hothers]. intros t' _ Ht' Hw. simplify_eq.
      unfold has_pending_write, next_write_buffer in *. by destruct (write_queue_ t).
  - destruct (decide (c' = c)) as [->|Hne]; [|by apply Hothers]. intros t' Hc' Ht' Hw. simplify_eq.
    destruct (inv_objects _ _ _ _ _ _ H c t Ht) as (_ & Hin & _). destruct (Hin Hc') as [Hcl _].
    unfold is_closing in Hcl. unfold is_open in Hop. apply negb_false_iff in Hop. by rewrite Hop in Hcl.
Qed.

Section One.
Variables (N : gset Z) (sent : list (Z * list byte)) (l : Loop) (id : Z) (op : OperationContext) (more : bool) (c : Z).
Hypothesis H : Inv N sent [] l.
Hypothesis Hop : operations_ l !! id = Some op.
Hypothesis Hmore : more = true -> zero_copy op = true.
Hypothesis Hty : op_type op = OperationType.Send.
Hypothesis Hco : op_connection op = Some c.
Hypothesis Hs : all_sending l.
Notation l2 := (taken l id (zero_copy op && negb more)).
Notation N' := (still_referred N id more).

Lemma others_send l3 c' :
  operations_ l3 = operations_ l2 -> connections_ l3 = connections_ l -> objects_ l3 !! c' = objects_ l !! c' ->
  c' <> c -> sending l3 c'.
Proof.
  intros Eo Ec Eb Hne t Hc Ht Hw. rewrite Ec in Hc. rewrite Eb in Ht. destruct (Hs c' t Hc Ht Hw) as [i (o & Ho & Hto & Hoc)].
  exists i, o. destruct (taken_fields l id op more) as (_ & _ & E). rewrite Eo, E, lookup_delete_ne; [done|].
  intros <-. congruence.
Qed.

Lemma handle_send_sending result closing zc view :
  kernel_ l !! id = Some (SqeSend c zc view) -> result <= zlen view ->
  all_sending (handle_send_completion id64 sqe_available l2 op result closing).
Proof.
  intros Hk Hres. destruct (taken_fields l id op more) as (Ho1 & Hc1 & _). unfold handle_send_completion. rewrite Hco.
  pose proof (taken_keeps _ _ _ _ _ _ _ _ H Hop Hmore ltac:(congruence)) as H1.
  destruct (lock l2 None (Some c)) as [t|] eqn:Hl.
  - apply lock_registered in Hl as (c' & [= <-] & Hc & Ht). rewrite Ho1 in Ht. rewrite Hc1 in Hc. cbv zeta.
    pose proof (object_id _ _ _ _ _ _ _ _ H Ht) as Hid. rewrite Hid.
    assert (Hput : forall t', connection_id_ t' = c -> forall c', c' <> c -> sending (put_object l2 t') c').
    { intros t' Hid' c' Hne. apply others_send; [done|done| |done]. cbn. rewrite Hid', lookup_insert_ne by done. by rewrite Ho1. }
    destruct (0 <? result) eqn:Hpos; cbn [negb].
    + pose proof (advance_keeps _ _ N sent l id op more H Hop Hmore result c zc view t Hty Hco Hk ltac:(lia) Hc Ht) as H3.
      set (l3 := put_object l2 (on_send_completion t result true)) in *.
      assert (Ht3 : objects_ l3 !! c = Some (on_send_completion t result true))
        by (subst l3; cbn; by rewrite on_send_completion_id, Hid, lookup_insert_eq).
      rewrite Ht3. eapply send_again; [exact H3| |exact Ht3]. apply Hput. by rewrite on_send_completion_id.
    + set (t1 := on_send_completion t 0 false). assert (Hid1 : connection_id_ t1 = c) by (unfold t1; by rewrite on_send_completion_id).
      assert (Hcl : all_sending (close_connection id64 sqe_available (put_object l2 t1) c)).
      { assert (Hcar : carries (put_object l2 t1) (close_connection id64 sqe_available (put_object l2 t1) c)).
        { pose proof (closing_carries id64 sqe_available draw_inj ring_free (put_object l2 t1) c t1 t1 ltac:(cbn; by rewrite Hid1, lookup_insert_eq) Hid1) as Hk2.
          assert (E : put_object (put_object l2 t1) t1 = put_object l2 t1).
          { unfold put_object. cbn. by rewrite insert_insert_eq. }
          by rewrite E in Hk2. }
        intros c'. destruct (decide (c' = c)) as [->|Hne]; [|by eapply carries_sending; [exact Hcar|apply Hput] ].
        intros t' Hc'. exfalso.
        destruct (close_connection_core id64 sqe_available (put_object l2 t1) c t1) as [E _]; [cbn; by rewrite Hid1, lookup_insert_eq|done|].
        unfold core in E. injection E as _ _ _ _ _ _ _ _ Ec _. rewrite Ec in Hc'. cbn in Hc'. set_solver. }
      eapply carries_all; [|exact Hcl].
      eapply run_session_calls_carries; [done|done|].
      eapply close_connection_keeps_from; [done|exact H1|by rewrite Ho1|done].
  - intros c' t Hc Ht Hw. destruct (decide (c' = c)) as [->|Hne].
    2: { assert (Hss : sending l2 c') by (apply others_send; [done|done|by rewrite Ho1|done]). by apply (Hss t). }
    exfalso. unfold lock in Hl. rewrite bool_decide_true in Hl by (by left). by rewrite Ht in Hl.
Qed.

Lemma refused_send_sending :
  let l3 := set_zero_copy_send_enabled l2 false in
  all_sending (match lock l3 None (op_connection op) with
               | Some t => if is_open t then submit_send id64 sqe_available l3 (connection_id_ t) else l3
               | None => l3
               end).
Proof.
  intros l3. destruct (taken_fields l id op more) as (Ho1 & Hc1 & _).
  pose proof (taken_keeps _ _ _ _ _ _ _ _ H Hop Hmore ltac:(congruence)) as H1.
  assert (H3 : Inv N' sent [] l3) by same_core H1. rewrite Hco.
  assert (Hoth : forall c', c' <> c -> sending l3 c').
  { intros c' Hne. apply others_send; [done|done| |done]. cbn. by rewrite Ho1. }
  destruct (lock l3 None (Some c)) as [t|] eqn:Hl.
  - apply lock_Some in Hl. rewrite (object_id _ _ _ _ _ _ _ _ H3 Hl).
    pose proof (send_again _ _ _ _ _ H3 Hoth Hl) as Hsa. destruct (is_open t) eqn:Hop'; cbn [andb] in Hsa.
    + destruct (has_pending_write t) eqn:Hp; [exact Hsa|]. eapply carries_all; [|exact Hsa].
      by eapply submit_send_carries.
    + exact Hsa.
  - intros c' t Hc Ht Hw. destruct (decide (c' = c)) as [->|Hne]; [|by apply (Hoth c' Hne t)].
    exfalso. unfold lock in Hl. rewrite bool_decide_true in Hl by (by left). by rewrite Ht in Hl.
Qed.
End One.

Lemma process_completion_sending N sent l id op result more r :
  let l' := process_completion id64 sqe_available config_ l id result more false r in
  Inv N sent [] l -> operations_ l !! id = Some op -> kernel_may_answer config_ l id result more ->
  reopened_ l' = false -> all_sending l -> all_sending l'.
Proof.
  intros l' H Hop Hans. subst l'. unfold process_completion, take_operation. rewrite Hop. cbv zeta.
  fold (taken l id (zero_copy op && negb more)). pose proof (inv_op _ _ _ _ _ _ _ _ H Hop) as Hok.
  pose proof (answer_more _ _ _ _ _ _ Hok Hans) as Hmore. destruct Hok as (Hid & Hty & Hzc).
  pose proof (taken_keeps _ _ N sent l id op more H Hop Hmore) as H1.
  pose proof (taken_carries l id op (zero_copy op && negb more) Hop) as Hcar.
  unfold kernel_may_answer in Hans. destruct (op_type op) eqn:Et; try done.
  - destruct Hty as [Hk _]. rewrite Hk in Hans. destruct Hans as [_ Hn]. intros _ Hs. specialize (H1 ltac:(congruence)).
    eapply handle_accept_sending; [done|done|done|same_core H1| |].
    + intros Hr. unfold taken. by destruct (_ && _); apply Hn.
    + intros c t. by apply (carries_all _ _ (Hcar ltac:(congruence)) Hs).
  - destruct Hty as (c & b & Hco & Hk & _ & Hb). destruct (zero_copy op) eqn:Ez; [by specialize (Hzc eq_refl)|].
    cbn [andb] in *. intros Hr Hs. eapply carries_all; [|apply (carries_all _ _ (Hcar ltac:(congruence)) Hs)].
    unfold taken in *. rewrite <- Hid in Hop, Hb, Hr |- *. by eapply handle_receive_carries.
  - destruct Hty as (c & view & Hco & Hk & _ & _). rewrite Hk in Hans. destruct Hans as [_ Hres]. intros _ Hs.
    destruct (zero_copy op && zero_copy_refusal result); [by eapply refused_send_sending|by eapply handle_send_sending].
  - intros _ Hs. eapply carries_all; [|apply (carries_all _ _ (Hcar ltac:(congruence)) Hs)].
    eapply handle_timeout_carries; [done|done|apply H1; congruence|].
    rewrite Hid. unfold taken. destruct (_ && _); apply lookup_delete_eq.
  - intros _ Hs. apply (carries_all _ _ (Hcar ltac:(congruence)) Hs).
  - intros _ Hs. specialize (H1 ltac:(congruence)).
    assert (H2 : Inv (still_referred N id more) sent [] (set_pending_router_poll_operation_id (taken l id (zero_copy op && negb more)) 0))
      by same_core H1.
    eapply carries_all; [by eapply handle_wakeup_carries|].
    intros c t. by apply (carries_all _ _ (Hcar ltac:(congruence)) Hs).
Qed.

Lemma begin_shutdown_carries N sent held l now snapshot :
  Inv N sent held l -> carries l (begin_shutdown id64 sqe_available l now snapshot).
Proof.
  intros H. unfold begin_shutdown. cbv zeta.
  match goal with |- carries _ (fold_left _ _ ?L) => assert (HL : Inv N sent held L /\ carries l L) end.
  { assert (H0 : Inv N sent held (set_shutdown_deadline (set_shutdown_initiated l true) (now + kShutdownDeadline))) by same_core H.
    assert (H1 : forall L b i, Inv N sent held L /\ carries l L ->
      Inv N sent held (if (b : bool) then L else cancel_operation id64 sqe_available L i) /\
      carries l (if (b : bool) then L else cancel_operation id64 sqe_available L i)).
    { intros L [] i [HL Hc]; [done|]. split; [by apply cancel_operation_keeps|].
      etransitivity; [exact Hc|apply cancel_operation_carries]. }
    apply H1, H1. split; [exact H0|carries_fields]. }
  revert HL. match goal with |- Inv _ _ _ ?L /\ _ -> _ => generalize L end. intros l0 [H0 Hc0].
  etransitivity; [exact Hc0|]. clear Hc0 H. revert l0 H0. induction snapshot as [|[c calls] snapshot IH]; [done|]. intros l0 H. cbn.
  pose proof (close_keeps _ sqe_available _ draw_inj _ _ _ _ c H) as H1.
  etransitivity; [by eapply close_carries|].
  etransitivity; [eapply run_session_calls_carries; [done|done|exact H1]|]. apply IH. by apply run_session_calls_keeps.
Qed.

Lemma step_sending m m' :
  step id64 sqe_available config_ m m' -> reopened_ (loop_of m') = false -> machine_inv id64 config_ m ->
  all_sending (loop_of m) -> all_sending (loop_of m').
Proof.
  unfold machine_inv. intros Hs Hr H. destruct Hs as [id op result more r Hop Hans|id Hid| |now snapshot Hst Hsh Hsnap].
  - by eapply process_completion_sending.
  - intros Ha c t. apply Ha.
  - intros Ha c t. apply Ha.
  - intros Ha. eapply carries_all; [|exact Ha]. by eapply begin_shutdown_carries.
Qed.

Lemma reachable_sending m :
  reachable id64 sqe_available config_ m -> reopened_ (loop_of m) = false -> all_sending (loop_of m).
Proof.
  unfold reachable. intros Hs Hr.
  assert (H0 : machine_inv id64 config_ (initial id64 sqe_available config_) /\ all_sending (loop_of (initial id64 sqe_available config_))).
  { split; [unfold machine_inv, initial; cbn; apply start_loop_keeps; [done|apply make_loop_inv]|].
    assert (Hc : carries (make_loop config_) (start_loop id64 sqe_available config_ (make_loop config_))).
    { unfold start_loop. etransitivity; [apply (submit_accept_carries id64 sqe_available)|].
      case_match; [apply submit_router_poll_carries|done]. }
    eapply carries_all; [exact Hc|]. intros c t Hc0. cbn in Hc0. set_solver. }
  destruct H0 as [H0 Ha]. revert H0 Ha Hr. induction Hs as [m|m m1 m' Hst Hs IH]; [done|]. intros H0 Ha Hr.
  assert (Hr1 : reopened_ (loop_of m1) = false) by (by eapply steps_reopened).
  apply IH; [by eapply step_keeps|by eapply step_sending|done].
Qed.

(** ** Draining a queue *)

Lemma submit_send_fields N sent held l c :
  Inv N sent held l ->
  let l' := submit_send id64 sqe_available l c in
  objects_ l' = objects_ l /\ connections_ l' = connections_ l /\ log_ l' = log_ l /\ reopened_ l' = reopened_ l.
Proof.
  intros H. cbv zeta. unfold submit_send. destruct (objects_ l !! c) as [t|] eqn:Ht; [|done].
  destruct (is_open t) eqn:Hop; cbn [negb]; [|done]. pose proof (is_open_in _ _ _ _ _ _ _ _ H Ht Hop) as Hc.
  destruct (inv_objects _ _ _ _ _ _ H c t Ht) as (Hid & Hq & _). destruct (Hq Hc) as [_ Hqo].
  destruct (zlen (next_write_buffer t) =? 0) eqn:Hz; [done|].
  assert (Hne : next_write_buffer t <> []) by (intros E; by rewrite E in Hz).
  destruct (next_view_nonempty t Hqo Hne) as [_ Hlt]. unfold get_sqe. destruct (negb _); [done|].
  assert (Hle : (zlen (next_write_buffer t) <=? next_write_offset t) = false) by (unfold next_write_offset; lia).
  rewrite Hle. cbv zeta. cbn. by case_match.
Qed.

Lemma on_send_completion_buffers t n :
  Forall (fun b => b <> []) (write_queue_ t) -> Forall (fun b => b <> []) (write_queue_ (on_send_completion t n true)).
Proof.
  unfold on_send_completion. destruct (write_queue_ t) as [|front rest]; [done|]. intros Hf. inversion Hf; subst.
  cbv zeta. by case_match; [|constructor].
Qed.

End Sent.

(** Answers to the sends of [c], and nothing else: the kernel takes some bytes of what it was
    given, one at least. *)
Inductive send_answer (id64 : nat -> Z) (sqe_available : nat -> bool) (config_ : ServerConfig) (c : Z)
    (m : Machine) : Machine -> Prop :=
| send_answered id result more r :
    sends (loop_of m) c id -> kernel_may_answer config_ (loop_of m) id result more -> 0 < result ->
    send_answer id64 sqe_available config_ c m
      (mkMachine (process_completion id64 sqe_available config_ (loop_of m) id result more false r)
         (sent_ m ++ sent_by (loop_of m) id result)
         (if more then {[id]} ∪ notifications_ m else notifications_ m)).

(** Whatever the answers to the sends of [c] are, there is always one to come until the peer
    has been sent [bytes], and that is after finitely many of them. *)
Inductive goes_out (id64 : nat -> Z) (sqe_available : nat -> bool) (config_ : ServerConfig) (c : Z)
    (bytes : list byte) (m : Machine) : Prop :=
| gone_out : wire (sent_ m) c = bytes -> goes_out id64 sqe_available config_ c bytes m
| going_out :
    (exists m', send_answer id64 sqe_available config_ c m m') ->
    (forall m', send_answer id64 sqe_available config_ c m m' -> goes_out id64 sqe_available config_ c bytes m') ->
    goes_out id64 sqe_available config_ c bytes m.

Lemma send_answer_step id64 sqe_available config_ c m m' :
  send_answer id64 sqe_available config_ c m m' -> step id64 sqe_available config_ m m'.
Proof. intros [id result more r (op & Hop & _) Hok _]. by eapply step_completion. Qed.

Section Drain.
Context (id64 : nat -> Z) (sqe_available : nat -> bool) (config_ : ServerConfig).
Hypothesis draw_inj : forall n m, generate_id64 id64 n = generate_id64 id64 m -> n = m.
Hypothesis config_ok : limits_ok config_.
Hypothesis ring_room : forall n, sqe_available n = true.
Notation step := (step id64 sqe_available config_).
Notation send_answer := (send_answer id64 sqe_available config_).

(** A connection on its way to an empty queue. *)
Record draining (bytes : list byte) (c : Z) (t : TcpConnection) (m : Machine) : Prop := mkDraining {
  dr_inv : machine_inv id64 config_ m;
  dr_sending : all_sending (loop_of m);
  dr_reopened : reopened_ (loop_of m) = false;
  dr_open : c ∈ connections_ (loop_of m);
  dr_object : objects_ (loop_of m) !! c = Some t;
  dr_buffers : Forall (fun b => b <> []) (write_queue_ t);
  dr_written : written (loop_of m) c = bytes
}.

Lemma draining_wire bytes c t m : draining bytes c t m -> bytes = wire (sent_ m) c ++ unsent t.
Proof.
  intros [H _ _ Hc Ht _ <-]. destruct (inv_flow _ _ _ _ _ _ H c) as [rest Hfl].
  destruct (fl_open _ _ _ _ Hfl t Ht Hc) as [<- _]. exact (fl_written _ _ _ _ Hfl).
Qed.

(** The send of an open connection, and what the kernel was given. *)
Lemma draining_view bytes c t m id :
  draining bytes c t m -> sends (loop_of m) c id ->
  exists zc, kernel_ (loop_of m) !! id = Some (SqeSend c zc (next_view t)).
Proof.
  intros [H _ _ Hc Ht _ _] Hid. destruct (inv_flow _ _ _ _ _ _ H c) as [rest Hfl].
  destruct (fl_open _ _ _ _ Hfl t Ht Hc) as [_ Hp]. by destruct (Hp id Hid).
Qed.

Lemma draining_answer bytes c t m : draining bytes c t m -> unsent t <> [] -> exists m', send_answer c m m'.
Proof.
  intros Hd Hu. pose proof Hd as [H Ha Hr Hc Ht Hf _].
  assert (Hnw : next_write_buffer t <> []).
  { intros E. apply Hu. unfold next_write_buffer, unsent in *. destruct (write_queue_ t); [apply drop_nil|]. by inversion Hf. }
  destruct (Ha c t Hc Ht Hnw) as [id Hid]. destruct (draining_view _ _ _ _ id Hd Hid) as [zc Hk].
  destruct (inv_objects _ _ _ _ _ _ H c t Ht) as (_ & Hin & _). destruct (Hin Hc) as [_ Hq].
  destruct (next_view_nonempty t Hq Hnw) as [Hv _]. eexists. apply (send_answered _ _ _ _ _ id (zlen (next_view t)) false no_reads Hid).
  - unfold kernel_may_answer. rewrite Hk. split; [done|lia].
  - destruct (next_view t); [done|rewrite zlen_cons; zlia].
Qed.

Lemma draining_step bytes c t m m' :
  draining bytes c t m -> send_answer c m m' ->
  exists t', draining bytes c t' m' /\ (length (unsent t') < length (unsent t))%nat.
Proof.
  intros Hd Hs. pose proof (send_answer_step _ _ _ _ _ _ Hs) as Hstep.
  destruct Hs as [id result more r Hid Hok Hpos]. destruct (draining_view _ _ _ _ id Hd Hid) as [zc Hk].
  destruct Hd as [H Ha Hr Hc Ht Hf Hw]. destruct Hid as (op & Hop & Hty & Hco).
  destruct (inv_objects _ _ _ _ _ _ H c t Ht) as (Hcid & Hin & _). destruct (Hin Hc) as [_ Hq].
  assert (Hres : result <= zlen (next_view t)) by (unfold kernel_may_answer in Hok; rewrite Hk in Hok; tauto).
  pose proof (inv_op _ _ _ _ _ _ _ _ H Hop) as Hopk. pose proof (answer_more _ _ _ _ _ _ Hopk Hok) as Hmore.
  assert (E : process_completion id64 sqe_available config_ (loop_of m) id result more false r =
    handle_send_completion id64 sqe_available (taken (loop_of m) id (zero_copy op && negb more)) op result (read_session_calls r)).
  { unfold process_completion, take_operation. rewrite Hop. cbv zeta. rewrite Hty.
    assert (Hz : zero_copy_refusal result = false) by (unfold zero_copy_refusal, EOPNOTSUPP, EINVAL, ENOSYS, ENOMEM; lia).
    by rewrite Hz, andb_false_r. }
  assert (Hl : length (unsent (on_send_completion t result true)) = (length (unsent t) - Z.to_nat result)%nat)
    by (rewrite (proj2 (on_send_completion_success t result Hq ltac:(lia))); apply length_drop).
  pose proof (advance_keeps _ _ _ _ (loop_of m) id op more H Hop Hmore result c zc (next_view t) t Hty Hco Hk ltac:(lia) Hc Ht) as H3.
  assert (Hshort : zlen (next_view t) <= zlen (unsent t))
    by (destruct (next_view_unsent t Hq) as [r' ->]; rewrite zlen_app; zlia).
  destruct (taken_fields (loop_of m) id op more) as (Ho1 & Hc1 & _).
  set (l2 := taken (loop_of m) id (zero_copy op && negb more)) in *.
  assert (Hlk : lock l2 None (Some c) = Some t)
    by (unfold lock; rewrite bool_decide_true by (left; by rewrite Hc1); by rewrite Ho1).
  assert (Hlg : log_ l2 = log_ (loop_of m) /\ reopened_ l2 = false) by (unfold l2, taken; by destruct (_ && _)).
  set (t1 := on_send_completion t result true) in *.
  assert (Hid1 : connection_id_ t1 = c) by (unfold t1; by rewrite on_send_completion_id).
  assert (Hb : let l' := process_completion id64 sqe_available config_ (loop_of m) id result more false r in
    objects_ l' !! c = Some t1 /\ c ∈ connections_ l' /\ log_ l' = log_ (loop_of m) /\ reopened_ l' = false).
  { cbv zeta. rewrite E. unfold handle_send_completion. rewrite Hco, Hlk. cbv zeta. rewrite Hcid.
    assert (Hgt : (0 <? result) = true) by lia. rewrite Hgt. cbn [negb]. fold t1.
    assert (Ht1 : objects_ (put_object l2 t1) !! c = Some t1) by (cbn; by rewrite Hid1, lookup_insert_eq). rewrite Ht1.
    destruct (is_open t1 && has_pending_write t1).
    - destruct (submit_send_fields id64 sqe_available config_ _ _ _ _ c H3) as (Eo & Ec & El & Er). rewrite Eo, Ec, El, Er. cbn. by rewrite Hid1, lookup_insert_eq, Hc1.
    - cbn. by rewrite Hid1, lookup_insert_eq, Hc1. }
  destruct Hb as (Hb1 & Hb2 & Hb3 & Hb4). exists t1. split.
  - split; [by eapply step_keeps|by eapply step_sending|exact Hb4|exact Hb2|exact Hb1|by apply on_send_completion_buffers|].
    unfold written in *. cbn [loop_of]. by rewrite Hb3.
  - unfold zlen in *. lia.
Qed.

Lemma drain_queue n bytes m c t :
  (length (unsent t) <= n)%nat -> draining bytes c t m -> goes_out id64 sqe_available config_ c bytes m.
Proof.
  revert m t. induction n as [|n IH]; intros m t Hlen Hd;
    (destruct (unsent t) as [|b u] eqn:Eu; [apply gone_out; rewrite (draining_wire _ _ _ _ Hd), Eu; by rewrite app_nil_r|]); [cbn in Hlen; lia|].
  apply going_out; [eapply draining_answer; [done|by rewrite Eu]|]. intros m' Hs.
  destruct (draining_step _ _ _ _ _ Hd Hs) as (t' & Hd' & Hlt). rewrite Eu in Hlt. cbn in *. apply (IH m' t'); [lia|done].
Qed.
End Drain.

(** C5. While the submission ring has room and no connection has been reopened (a handshake
    that completed on a closed one), no open connection is forgotten: in every reachable
    state, if its next buffer is not empty then a send of it is under way, and unless an
    empty buffer was queued, the kernel's answers to the sends of that connection alone put
    everything its session has written on the wire, however few bytes, one at least, each
    of them takes: there is always a send to be answered until then, and then is after
    finitely many answers. *)
Theorem queued_writes_go_out id64 sqe_available config_ m c t :
  (forall i j, generate_id64 id64 i = generate_id64 id64 j -> i = j) -> limits_ok config_ ->
  (forall n, sqe_available n = true) ->
  reachable id64 sqe_available config_ m -> reopened_ (loop_of m) = false ->
  c ∈ connections_ (loop_of m) -> objects_ (loop_of m) !! c = Some t ->
  sending (loop_of m) c /\
  (Forall (fun b => b <> []) (write_queue_ t) -> goes_out id64 sqe_available config_ c (written (loop_of m) c) m).
Proof.
  intros Hinj Hcfg Hring Hm Hr Hc Ht.
  pose proof (reachable_sending _ _ _ Hinj Hcfg Hring m Hm Hr) as Ha. split; [apply Ha|]. intros Hf.
  pose proof (reachable_inv _ _ _ Hinj Hcfg m Hm Hr) as H.
  by eapply (drain_queue _ _ _ Hinj Hcfg Hring _ _ m c t (Nat.le_refl _)).
Qed.

Lemma queued_writes_go_out_witness :
  let m := perform_all some_ids free_ring some_config (initial some_ids free_ring some_config) opening in
  written (loop_of m) first_connection = [x01; x02; x03; x04; x05] /\
  wire (sent_ m) first_connection = [] /\
  goes_out some_ids free_ring some_config first_connection [x01; x02; x03; x04; x05] m.
Proof.
  intros m. assert (Hw : written (loop_of m) first_connection = [x01; x02; x03; x04; x05]) by (vm_compute; reflexivity).
  split; [exact Hw|]. split; [vm_compute; reflexivity|]. rewrite <- Hw.
  edestruct (queued_writes_go_out some_ids free_ring some_config m first_connection) as [_ H];
    [apply some_ids_inj|apply some_limits|reflexivity|apply performed_reachable; vm_compute; reflexivity
    |vm_compute; reflexivity|apply (bool_decide_eq_true_1 _); vm_compute; reflexivity|vm_compute; reflexivity|].
  apply H. vm_compute. by repeat constructor.
Defined.
