(* ===== verification/EventLoopStops.v ===== *)
(** Graceful shutdown: once it has begun every connection is closed, and every completion
    after it brings the loop nearer to its end, unless a connection is accepted late. *)

From S2P Require Import Prelude TcpConnection EventLoop EventLoopSafe EventLoopRuns EventLoopContract.

(** * The buffers of zero-copy sends *)

(** A buffer is kept only for a send that is pending or to be notified. *)
Definition buffers_used (m : Machine) : Prop :=
  forall id, is_Some (zero_copy_buffers_ (loop_of m) !! id) ->
    is_Some (operations_ (loop_of m) !! id) \/ id ∈ notifications_ m.

Section Stops.
Context (id64 : nat -> Z) (sqe_available : nat -> bool) (config_ : ServerConfig).
Hypothesis draw_inj : forall n m, generate_id64 id64 n = generate_id64 id64 m -> n = m.
Hypothesis config_ok : limits_ok config_.
Notation step := (step id64 sqe_available config_).
Notation machine_inv := (machine_inv id64 config_).

(** Only a zero-copy send has a buffer. *)
Lemma buffer_zero_copy m id op :
  machine_inv m -> operations_ (loop_of m) !! id = Some op ->
  is_Some (zero_copy_buffers_ (loop_of m) !! id) -> zero_copy op = true.
Proof.
  intros H Hop [b Hb]. destruct (inv_zero_copy _ _ _ _ _ _ H id b Hb) as (c & view & Hk).
  destruct (inv_op _ _ _ _ _ _ _ _ H Hop) as (_ & Hty & _).
  destruct (op_type op); try done;
    repeat match goal with Hx : exists _, _ |- _ => destruct Hx | Hx : _ /\ _ |- _ => destruct Hx end; congruence.
Qed.

Lemma step_buffers m m' : step m m' -> machine_inv m -> buffers_used m -> buffers_used m'.
Proof.
  intros Hs H Hu. destruct Hs as [id op result more r Hop Hans|id Hid| |now snapshot Hst Hsh Hsnap]; cbn.
  - intros i Hi. pose proof (process_completion_mild id64 sqe_available config_ _ _ _ result more r Hop) as Hm.
    cbn in Hi. apply (mi_zero_copy _ _ Hm) in Hi as [Hi|Hi]; [|by left].
    assert (Hold : is_Some (zero_copy_buffers_ (loop_of m) !! i)).
    { unfold taken in Hi. destruct (_ && _); [|exact Hi]. cbn in Hi. destruct Hi as [b Hb].
      apply lookup_delete_Some in Hb as [_ Hb]. by exists b. }
    destruct (decide (i = id)) as [->|Hne].
    + pose proof (buffer_zero_copy m id op H Hop Hold) as Hz. unfold taken in Hi. rewrite Hz in Hi.
      destruct more; [right; set_solver|]. cbn in Hi. rewrite lookup_delete_eq in Hi. by destruct Hi.
    + destruct (Hu i Hold) as [ [o Ho]|Hn]; [left|right; destruct more; set_solver]. exists o.
      eapply lookup_weaken; [|apply (mi_operations _ _ Hm)].
      unfold taken. destruct (_ && _); cbn; by rewrite lookup_delete_ne.
  - intros i Hi. cbn in *. destruct Hi as [b Hb]. apply lookup_delete_Some in Hb as [Hne Hb].
    destruct (Hu i ltac:(by exists b)) as [?|?]; [by left|right; set_solver].
  - exact Hu.
  - intros i Hi. pose proof (qt_mild _ _ (begin_shutdown_fields id64 sqe_available (loop_of m) now snapshot)) as Hm.
    cbn in Hi. apply (mi_zero_copy _ _ Hm) in Hi as [Hi|Hi]; [|by left].
    destruct (Hu i Hi) as [ [o Ho]|?]; [left|by right]. exists o. eapply lookup_weaken; [|apply (mi_operations _ _ Hm)]. done.
Qed.

Lemma reachable_buffers m :
  reachable id64 sqe_available config_ m -> reopened_ (loop_of m) = false -> buffers_used m.
Proof.
  unfold reachable. intros Hs Hr.
  assert (H0 : machine_inv (initial id64 sqe_available config_) /\ buffers_used (initial id64 sqe_available config_)).
  { split; [unfold EventLoopRuns.machine_inv, initial; cbn; apply start_loop_keeps; [done|apply make_loop_inv]|].
    assert (Hm : mild (make_loop config_) (start_loop id64 sqe_available config_ (make_loop config_))).
    { unfold start_loop. etransitivity; [apply qt_mild, submit_accept_quiet|].
      case_match; [apply qt_mild, submit_router_poll_quiet|reflexivity]. }
    intros i Hi. apply (mi_zero_copy _ _ Hm) in Hi as [Hi|Hi]; [|by left].
    cbn in Hi. rewrite lookup_empty in Hi. by destruct Hi. }
  destruct H0 as [H0 Hu]. revert H0 Hu Hr. induction Hs as [m|m m1 m' Hst Hs IH]; [done|]. intros H0 Hu Hr.
  apply IH; [|by eapply step_buffers|done]. eapply step_keeps; [done|done|done| |done]. by eapply steps_reopened.
Qed.

(** * Closing every connection *)

Lemma close_leaves N sent held l c :
  Inv id64 config_ N sent held l -> c ∉ connections_ (close id64 sqe_available l c).
Proof.
  intros H. unfold close. destruct (objects_ l !! c) as [t|] eqn:Ht.
  - destruct (inv_objects _ _ _ _ _ _ H c t Ht) as (Hid & Hin & _). destruct (is_closing t) eqn:Hcl.
    + intros Hc. destruct (Hin Hc) as [Hcl' _]. congruence.
    + set (t1 := set_state t ConnectionState.Closing).
      destruct (close_connection_core id64 sqe_available (put_object l t1) c t1) as [E _];
        [cbn; by rewrite Hid, lookup_insert_eq|done|].
      unfold core in E. injection E as _ _ _ _ _ _ _ _ Ec _. rewrite Ec. cbn. set_solver.
  - intros Hc. destruct (inv_connections _ _ _ _ _ _ H c Hc) as [t Ht']. congruence.
Qed.

Lemma begin_shutdown_closes N sent held l now snapshot :
  Inv id64 config_ N sent held l -> snapshot.*1 ≡ₚ elements (connections_ l) ->
  connections_ (begin_shutdown id64 sqe_available l now snapshot) = ∅.
Proof.
  intros H Hp. unfold begin_shutdown. cbv zeta.
  match goal with |- connections_ (fold_left _ _ ?L) = _ => assert (HL : Inv id64 config_ N sent held L /\ connections_ L = connections_ l) end.
  { assert (H1 : forall L b i, Inv id64 config_ N sent held L /\ connections_ L = connections_ l ->
      Inv id64 config_ N sent held (if (b : bool) then L else cancel_operation id64 sqe_available L i) /\
      connections_ (if b then L else cancel_operation id64 sqe_available L i) = connections_ l).
    { intros L [] i [HL E]; [done|]. split; [by apply cancel_operation_keeps|].
      by destruct (cancel_operation_outside id64 sqe_available L i) as (_ & -> & _). }
    apply H1, H1. split; [same_core H|done]. }
  revert HL. match goal with |- _ /\ _ -> connections_ (fold_left _ _ ?L) = _ => generalize L end. intros l0 [H0 E0].
  assert (Hsub : connections_ l0 ⊆ list_to_set snapshot.*1).
  { rewrite E0. intros c Hc. apply elem_of_list_to_set. rewrite Hp. by apply elem_of_elements. }
  clear Hp E0 H. revert l0 H0 Hsub. induction snapshot as [|[c calls] snapshot IH]; intros l0 H0 Hsub; cbn in *.
  - set_solver.
  - pose proof (close_keeps _ sqe_available _ draw_inj _ _ _ _ c H0) as H1.
    pose proof (close_leaves _ _ _ _ c H0) as Hl.
    pose proof (qt_connections _ _ (close_quiet id64 sqe_available l0 c)) as Hq1.
    pose proof (qt_connections _ _ (run_session_calls_quiet id64 sqe_available (Some c) (close id64 sqe_available l0 c) calls)) as Hq2.
    apply IH; [by apply run_session_calls_keeps|]. set_solver.
Qed.

(** * Completions with no connection left *)

Lemma lock_none l w : connections_ l = ∅ -> lock l None w = None.
Proof. intros E. unfold lock. destruct w as [c|]; [|done]. rewrite bool_decide_false; [done|]. rewrite E. set_solver. Qed.
Lemma run_session_calls_none l calls : connections_ l = ∅ -> run_session_calls id64 sqe_available None l calls = l.
Proof.
  intros E. unfold run_session_calls. induction calls as [|call calls IH]; [done|]. cbn.
  replace (run_session_call id64 sqe_available None l call) with l; [done|].
  destruct call; unfold run_session_call; by rewrite lock_none.
Qed.

Lemma settle l id op result more r :
  let l' := process_completion id64 sqe_available config_ l id result more false r in
  operations_ l !! id = Some op -> connections_ l = ∅ -> stopping_ l = true ->
  (op_type op = OperationType.Accept -> result < 0) ->
  operations_ l' = delete id (operations_ l) /\ connections_ l' = ∅ /\ stopping_ l' = true /\
  reopened_ l' = reopened_ l.
Proof.
  cbv zeta. intros Hop Hc Hs Ha. unfold process_completion, take_operation. rewrite Hop. cbv zeta.
  fold (taken l id (zero_copy op && negb more)). set (l1 := taken l id (zero_copy op && negb more)).
  assert (Hl1 : operations_ l1 = delete id (operations_ l) /\ connections_ l1 = ∅ /\ stopping_ l1 = true /\ reopened_ l1 = reopened_ l)
    by (unfold l1, taken; by destruct (_ && _)).
  clearbody l1. destruct Hl1 as (E1 & E2 & E3 & E4). destruct (op_type op) eqn:Et; try done.
  - unfold handle_accept_completion. cbn [stopping_ set_pending_accept_operation_id]. rewrite E3. cbv zeta.
    assert (Hr : (result <? 0) = true) by (specialize (Ha eq_refl); lia). by rewrite Hr.
  - unfold handle_receive_completion. cbv zeta.
    set (l2 := set_receive_buffers l1 (delete (operation_id op) (receive_buffers_ l1))).
    rewrite (lock_none l2) by done. destruct (result <=? 0); destruct (receive_buffers_ l1 !! operation_id op); done.
  - destruct (_ && _).
    + by rewrite (lock_none (set_zero_copy_send_enabled l1 false)).
    + unfold handle_send_completion. by rewrite lock_none.
  - unfold handle_timeout_completion. cbv zeta. by rewrite lock_none.
  - unfold handle_wakeup_completion. cbv zeta.
    rewrite (run_session_calls_none (set_pending_router_poll_operation_id l1 0)) by done.
    assert (E : (if 0 <=? result then set_pending_router_poll_operation_id l1 0 else set_pending_router_poll_operation_id l1 0)
                = set_pending_router_poll_operation_id l1 0) by (by case_match).
    rewrite E. cbn [stopping_ set_pending_router_poll_operation_id]. by rewrite E3.
Qed.
End Stops.

(** * The end of [run] *)

(** What the kernel still owes: completions, and notifications. *)
Definition outstanding (m : Machine) : nat := (2 * size (operations_ (loop_of m)) + size (notifications_ m))%nat.
Definition late_accept (m : Machine) (choice : Choice) : bool :=
  match choice with
  | Complete id result _ _ =>
      match operations_ (loop_of m) !! id with
      | Some op => bool_decide (op_type op = OperationType.Accept) && (0 <=? result)
      | None => false
      end
  | _ => false
  end.
Definition is_completion (choice : Choice) : bool :=
  match choice with Complete _ _ _ _ | Notify _ => true | _ => false end.

Section Ends.
Context (id64 : nat -> Z) (sqe_available : nat -> bool) (config_ : ServerConfig).
Hypothesis draw_inj : forall n m, generate_id64 id64 n = generate_id64 id64 m -> n = m.
Hypothesis config_ok : limits_ok config_.
Notation perform := (perform id64 sqe_available config_).
Notation allowed := (allowed config_).

(** Completions only, none of them a new connection. *)
Fixpoint all_settling (m : Machine) (choices : list Choice) : bool :=
  match choices with
  | [] => true
  | choice :: choices =>
      is_completion choice && negb (late_accept m choice) && allowed m choice && all_settling (perform m choice) choices
  end.

Record closing (deadline : Z) (m : Machine) : Prop := mkClosing {
  cl_inv : machine_inv id64 config_ m;
  cl_buffers : buffers_used m;
  cl_connections : connections_ (loop_of m) = ∅;
  cl_stopping : stopping_ (loop_of m) = true;
  cl_shutdown : shutdown_initiated_ (loop_of m) = true;
  cl_deadline : shutdown_deadline_ (loop_of m) = deadline;
  cl_reopened : reopened_ (loop_of m) = false
}.

Lemma closing_step d m choice :
  closing d m -> is_completion choice = true -> late_accept m choice = false -> allowed m choice = true ->
  closing d (perform m choice) /\ (S (outstanding (perform m choice)) <= outstanding m)%nat.
Proof.
  intros [Hinv Hbuf Hc Hs Hsh Hd Hr] Hcompl Hlate Hall.
  pose proof (allowed_step id64 sqe_available config_ m choice Hall) as Hstep.
  destruct choice as [id result more r|id| |]; try done; cbn [perform allowed late_accept] in *.
  - apply andb_true_iff in Hall as [Hop Hans]. apply bool_decide_eq_true in Hop as [op Hop].
    assert (Hna : op_type op = OperationType.Accept -> result < 0).
    { intros Ht. rewrite Hop in Hlate. rewrite bool_decide_true in Hlate by done. cbn in Hlate. lia. }
    destruct (settle id64 sqe_available config_ draw_inj config_ok (loop_of m) id op result more r Hop Hc Hs Hna) as (E1 & E2 & E3 & E4).
    pose proof (process_completion_mild id64 sqe_available config_ (loop_of m) id op result more r Hop) as Hm. split.
    + assert (Hr' : reopened_ (process_completion id64 sqe_available config_ (loop_of m) id result more false r) = false) by congruence.
      split; [by eapply step_keeps|by eapply step_buffers|done|done| | |done].
      * etransitivity; [apply (mi_shutdown _ _ Hm)|]. unfold taken. by destruct (_ && _).
      * etransitivity; [apply (mi_deadline _ _ Hm)|]. unfold taken. by destruct (_ && _).
    + unfold outstanding. cbn [loop_of notifications_]. rewrite E1, (map_size_delete_Some id (operations_ (loop_of m)) (mk_is_Some _ _ Hop)).
      assert (Hpos : size (operations_ (loop_of m)) <> 0%nat)
        by (intros E0; apply map_size_empty_inv in E0; rewrite E0, lookup_empty in Hop; discriminate).
      assert (Hu : (size ({[id]} ∪ notifications_ m) <= S (size (notifications_ m)))%nat).
      { rewrite size_union_alt, size_singleton.
        pose proof (subseteq_size (notifications_ m ∖ {[id]}) (notifications_ m) ltac:(set_solver)). lia. }
      destruct more; lia.
  - apply bool_decide_eq_true in Hall. split.
    + split; [by eapply step_keeps|by eapply step_buffers|done..].
    + unfold outstanding. cbn. rewrite size_difference by set_solver. rewrite size_singleton.
      assert (Hpos : (1 <= size (notifications_ m))%nat)
        by (rewrite <- (size_singleton (C := gset Z) id); apply subseteq_size; set_solver). lia.
Qed.

Lemma closing_run d m choices :
  closing d m -> all_settling m choices = true ->
  let m' := perform_all id64 sqe_available config_ m choices in
  closing d m' /\ (length choices + outstanding m' <= outstanding m)%nat.
Proof.
  revert m. induction choices as [|choice choices IH]; intros m H; cbn [all_settling length perform_all fold_left]; [done|].
  rewrite !andb_true_iff, negb_true_iff. intros [ [ [Hc Hl] Ha] Hall].
  destruct (closing_step d m choice H Hc Hl Ha) as [H1 Hm]. destruct (IH _ H1 Hall) as [H2 Hm2]. split; [exact H2|].
  unfold perform_all in *. lia.
Qed.

Lemma closing_quiet d m :
  closing d m -> (pending_count (loop_of m) =? 0) && (Z.of_nat (size (zero_copy_buffers_ (loop_of m))) =? 0) = true <-> outstanding m = 0%nat.
Proof.
  intros [Hinv Hbuf Hc Hs Hsh Hd Hr]. unfold outstanding, pending_count.
  rewrite andb_true_iff, !Z.eqb_eq. split.
  - intros [Ho Hz]. assert (Eo : size (operations_ (loop_of m)) = 0%nat) by lia. rewrite Eo. cbn.
    apply size_empty_iff. intros id. split; [|set_solver]. intros Hid.
    destruct (inv_notifs _ _ _ _ _ _ Hinv id Hid) as (_ & c & view & b & _ & Hb & _).
    assert (Ez : size (zero_copy_buffers_ (loop_of m)) = 0%nat) by lia. apply map_size_empty_inv in Ez.
    rewrite Ez, lookup_empty in Hb. done.
  - intros E. assert (Eo : size (operations_ (loop_of m)) = 0%nat) by lia. assert (En : size (notifications_ m) = 0%nat) by lia.
    split; [lia|]. apply map_size_empty_inv in Eo. apply size_empty_inv in En.
    assert (Ez : zero_copy_buffers_ (loop_of m) = ∅).
    { apply map_empty. intros id. destruct (zero_copy_buffers_ (loop_of m) !! id) as [b|] eqn:Hb; [|done].
      destruct (Hbuf id ltac:(by exists b)) as [ [o Ho]|Hn]; [rewrite Eo, lookup_empty in Ho; done|set_solver]. }
    rewrite Ez. by rewrite map_size_empty.
Qed.
Lemma closing_breaks d m now :
  closing d m -> run_breaks (loop_of m) now = true <-> outstanding m = 0%nat \/ d <= now.
Proof.
  intros H. rewrite <- (closing_quiet d m H). unfold run_breaks. rewrite (cl_shutdown _ _ H), (cl_deadline _ _ H). cbv zeta.
  destruct (_ && _); [tauto|]. rewrite Z.leb_le. naive_solver.
Qed.
End Ends.

(** C7. Graceful shutdown ends.  When it begins, every connection is closed, in whatever
    order and whatever their sessions do; from then on, as long as no accept succeeds late,
    every completion and notification brings the loop nearer to its end, and none of them
    submits anything new; and whenever [run] is at the head of its loop it leaves it exactly
    when nothing is outstanding, after at most as many completions as were due, or the ten
    seconds of [kShutdownDeadline] are over. *)
Theorem shutdown_ends id64 sqe_available config_ m begun snapshot choices :
  (forall i j, generate_id64 id64 i = generate_id64 id64 j -> i = j) -> limits_ok config_ ->
  reachable id64 sqe_available config_ m -> stopping_ (loop_of m) = true ->
  shutdown_initiated_ (loop_of m) = false -> snapshot.*1 ≡ₚ elements (connections_ (loop_of m)) ->
  let m1 := perform id64 sqe_available config_ m (ShutdownNow begun snapshot) in
  reopened_ (loop_of m1) = false ->
  all_settling id64 sqe_available config_ m1 choices = true ->
  let m2 := perform_all id64 sqe_available config_ m1 choices in
  connections_ (loop_of m2) = ∅ /\ (length choices + outstanding m2 <= outstanding m1)%nat /\
  forall now, run_breaks (loop_of m2) now = true <-> outstanding m2 = 0%nat \/ begun + kShutdownDeadline <= now.
Proof.
  intros Hinj Hcfg Hm Hst Hsh Hp m1 Hr Hall m2.
  pose proof (step_shutdown id64 sqe_available config_ m begun snapshot Hst Hsh Hp) as Hs.
  assert (Hr0 : reopened_ (loop_of m) = false) by (eapply steps_reopened; [by apply rtc_once|exact Hr]).
  pose proof (reachable_inv _ _ _ Hinj Hcfg m Hm Hr0) as Hi.
  pose proof (reachable_buffers _ _ _ Hinj Hcfg m Hm Hr0) as Hb.
  pose proof (begin_shutdown_fields id64 sqe_available (loop_of m) begun snapshot) as Hq.
  assert (H1 : closing id64 config_ (begun + kShutdownDeadline) m1).
  { split; [by eapply step_keeps|by eapply step_buffers|by eapply begin_shutdown_closes| | | |exact Hr].
    - cbn. by rewrite (qt_stopping _ _ Hq).
    - cbn. by rewrite (qt_shutdown _ _ Hq).
    - cbn. by rewrite (qt_deadline _ _ Hq). }
  destruct (closing_run _ _ _ Hinj Hcfg _ m1 choices H1 Hall) as [H2 Hm2].
  split; [apply (cl_connections _ _ _ _ H2)|]. split; [exact Hm2|]. intros now. by eapply closing_breaks.
Qed.

(** An open connection with a send under way, and SIGTERM: fourteen operations come to their end. *)
Definition stopping : list Choice := opening ++ [StopNow].
Definition last_completions : list Choice :=
  map (fun id => Complete id (- ECANCELED) false no_reads) [2; 4; 6; 7; 8; 10] ++
  map (fun id => Complete id 0 false no_reads) [5; 9; 11; 12; 13; 14; 15; 16].
Lemma shutdown_ends_witness :
  let m := perform_all some_ids free_ring some_config (initial some_ids free_ring some_config) stopping in
  let m1 := perform some_ids free_ring some_config m (ShutdownNow 5000 [(first_connection, [])]) in
  let m2 := perform_all some_ids free_ring some_config m1 last_completions in
  first_connection ∈ connections_ (loop_of m) /\
  run_breaks (loop_of m1) 14999 = false /\ run_breaks (loop_of m1) 15000 = true /\
  run_breaks (loop_of m2) 5001 = true /\
  connections_ (loop_of m2) = ∅ /\ (length last_completions + outstanding m2 <= outstanding m1)%nat /\
  forall now, run_breaks (loop_of m2) now = true <-> outstanding m2 = 0%nat \/ 5000 + kShutdownDeadline <= now.
Proof.
  intros m m1 m2. split; [apply (bool_decide_eq_true_1 _); vm_compute; reflexivity|].
  split; [vm_compute; reflexivity|]. split; [vm_compute; reflexivity|]. split; [vm_compute; reflexivity|].
  apply (shutdown_ends some_ids free_ring some_config m 5000 [(first_connection, [])] last_completions).
  - apply some_ids_inj.
  - apply some_limits.
  - apply performed_reachable. vm_compute. reflexivity.
  - vm_compute. reflexivity.
  - vm_compute. reflexivity.
  - vm_compute. reflexivity.
  - vm_compute. reflexivity.
  - vm_compute. reflexivity.
Defined.

(** A connection the kernel accepted just before its accept was cancelled is taken in after
    [begin_shutdown] has closed the others; nothing closes it, and the loop waits for it,
    until the deadline. *)
Definition late : list Choice := [StopNow; ShutdownNow 5000 []; Complete 1 9 false no_reads].
Lemma late_accept_stays :
  let m := perform_all some_ids free_ring some_config (initial some_ids free_ring some_config) late in
  all_allowed some_ids free_ring some_config (initial some_ids free_ring some_config) late = true /\
  shutdown_initiated_ (loop_of m) = true /\ first_connection ∈ connections_ (loop_of m) /\ run_breaks (loop_of m) 14999 = false.
Proof.
  split; [vm_compute; reflexivity|]. split; [vm_compute; reflexivity|].
  split; [apply (bool_decide_eq_true_1 _); vm_compute; reflexivity|vm_compute; reflexivity].
Qed.
