(* ===== verification/CrossWorkerRouter.v ===== *)
(** The router between workers (io/io_uring/cross_worker_router.hpp, cross_worker_router.cpp).

    Every worker has a bounded queue of frames that other workers published, a set of
    streams that wait for a keyframe because something of them was lost, a set of streams
    whose end is queued, and an eventfd that wakes it.  Each access to a queue holds its
    mutex, so that what happens to one queue is a sequence of [push_frame], [end_stream] and
    [take_frames]; the theorems on a queue are about every such sequence, and so cover every
    interleaving of the workers.  The eventfd of [forward] is written after the mutex is
    released; the machine of [no_lost_wakeup] has that as a step of its own.

    A stream id is its raw integer.  The counters of a stream are an element of the map; the
    code reads them through a shared pointer it took before, so that [forward] may go by
    counters that [on_stream_end] has just dropped: the theorems on a queue hold whichever
    frames the demand test lets through. *)

From S2P Require Import Prelude GopCache.
#[local] Open Scope Z_scope.

Module FrameKind.
Inductive t := Video | Audio | Metadata | StreamEnd.
#[global] Instance t_eq_dec : EqDecision t.
Proof. solve_decision. Defined.
End FrameKind.

Record QueuedFrame := mkQueuedFrame {
  qf_stream_id : Z;
  qf_frame : SharedMediaFrame;
  qf_kind : FrameKind.t;
  qf_is_sticky : bool;
  qf_is_keyframe : bool
}.
Definition payload_size (f : QueuedFrame) : Z := zlen (frame_payload (qf_frame f)).

(** [PerWorkerQueue]; [wake_fd] is the counter of the eventfd, if there is one. *)
Record PerWorkerQueue := mkQueue {
  frames : list QueuedFrame;
  waiting_for_keyframe : gset Z;
  queued_stream_ends : gset Z;
  queued_bytes : Z;
  wake_fd : option Z
}.
Definition make_worker_queue (fd : option Z) : PerWorkerQueue := mkQueue [] ∅ ∅ 0 fd.
Definition set_frames (q : PerWorkerQueue) (fs : list QueuedFrame) (bytes : Z) : PerWorkerQueue :=
  mkQueue fs (waiting_for_keyframe q) (queued_stream_ends q) bytes (wake_fd q).
Definition set_waiting (q : PerWorkerQueue) (w : gset Z) : PerWorkerQueue :=
  mkQueue (frames q) w (queued_stream_ends q) (queued_bytes q) (wake_fd q).
Definition set_ends (q : PerWorkerQueue) (e : gset Z) : PerWorkerQueue :=
  mkQueue (frames q) (waiting_for_keyframe q) e (queued_bytes q) (wake_fd q).
Definition set_wake_fd (q : PerWorkerQueue) (fd : option Z) : PerWorkerQueue :=
  mkQueue (frames q) (waiting_for_keyframe q) (queued_stream_ends q) (queued_bytes q) fd.

(** The two bounds of a queue; 0 is none. *)
Record QueueBounds := mkBounds { max_queue_frames : Z; max_queue_bytes : Z }.
Definition default_bounds : QueueBounds := mkBounds 4096 (32 * 1024 * 1024).

(** [queued_bytes -= std::min(queued_bytes, size)]. *)
Definition less_bytes (bytes size : Z) : Z := bytes - Z.min bytes size.

(** Writing 1 to the eventfd: the counter stops short of 2^64 - 1, where a write would block. *)
Definition signal (q : PerWorkerQueue) : PerWorkerQueue :=
  set_wake_fd q (option_map (fun n => Z.min (n + 1) (2 ^ 64 - 2)) (wake_fd q)).
(** Reading it until it is empty. *)
Definition discard_wakes (q : PerWorkerQueue) : PerWorkerQueue :=
  set_wake_fd q (option_map (fun _ => 0) (wake_fd q)).

(** The loops that erase the frames [p] picks: what is left, its bytes, and how many went. *)
Fixpoint erase_frames (p : QueuedFrame -> bool) (fs : list QueuedFrame) (bytes : Z)
    : list QueuedFrame * Z * Z :=
  match fs with
  | [] => ([], bytes, 0)
  | f :: fs =>
      if p f then
        let '(rest, bytes, n) := erase_frames p fs (less_bytes bytes (payload_size f)) in
        (rest, bytes, n + 1)
      else
        let '(rest, bytes, n) := erase_frames p fs bytes in (f :: rest, bytes, n)
  end.
Definition erase_from (q : PerWorkerQueue) (p : QueuedFrame -> bool) : PerWorkerQueue * Z :=
  let '(rest, bytes, n) := erase_frames p (frames q) (queued_bytes q) in
  (set_frames q rest bytes, n).

(** ** forward *)

Definition same_sticky (f g : QueuedFrame) : bool :=
  (qf_stream_id g =? qf_stream_id f) && qf_is_sticky g && bool_decide (qf_kind g = qf_kind f).
Definition same_media (f g : QueuedFrame) : bool :=
  (qf_stream_id g =? qf_stream_id f) && negb (qf_is_sticky g).
Definition is_video_keyframe (f : QueuedFrame) : bool :=
  bool_decide (qf_kind f = FrameKind.Video) && qf_is_keyframe f.

Definition would_overflow (b : QueueBounds) (q : PerWorkerQueue) (frame_bytes : Z) : bool :=
  let frames_full := negb (max_queue_frames b =? 0) && (max_queue_frames b <=? zlen (frames q)) in
  let bytes_full := negb (max_queue_bytes b =? 0) &&
                    (max_queue_bytes b - Z.min (queued_bytes q) (max_queue_bytes b) <? frame_bytes) in
  frames_full || bytes_full.

(** Only the newest sticky frame of each kind stays. *)
Definition coalesce (q : PerWorkerQueue) (f : QueuedFrame) : PerWorkerQueue :=
  if qf_is_sticky f then (erase_from q (same_sticky f)).1 else q.

(** When the queue is full the frames of the stream go as one unit. *)
Definition make_room (b : QueueBounds) (q : PerWorkerQueue) (f : QueuedFrame) : PerWorkerQueue * Z :=
  if would_overflow b q (payload_size f) then
    let '(q, dropped) := erase_from q (same_media f) in
    let q := if negb (qf_is_sticky f) && negb (is_video_keyframe f)
             then set_waiting q ({[qf_stream_id f]} ∪ waiting_for_keyframe q) else q in
    (q, dropped)
  else (q, 0).

Record Pushed := mkPushed { pushed : bool; should_wake : bool; dropped : Z }.

(** The body of the loop over destinations, under the mutex of the queue. *)
Definition push_frame (b : QueueBounds) (q : PerWorkerQueue) (f : QueuedFrame)
    : PerWorkerQueue * Pushed :=
  let stream_raw := qf_stream_id f in
  let q := coalesce q f in
  let waiting := bool_decide (stream_raw ∈ waiting_for_keyframe q) in
  if waiting && negb (qf_is_sticky f) && negb (is_video_keyframe f) then
    (q, mkPushed false false 1)
  else
    let q := if waiting && is_video_keyframe f
             then set_waiting q (waiting_for_keyframe q ∖ {[stream_raw]}) else q in
    let '(q, dropped) := make_room b q f in
    if negb (would_overflow b q (payload_size f)) &&
       (qf_is_sticky f || negb (bool_decide (stream_raw ∈ waiting_for_keyframe q))) then
      (set_frames q (frames q ++ [f]) (u64 (queued_bytes q + payload_size f)),
       mkPushed true (match frames q with [] => true | _ => false end) dropped)
    else
      let q := if qf_is_sticky f then q
               else set_waiting q ({[stream_raw]} ∪ waiting_for_keyframe q) in
      (q, mkPushed false false (dropped + 1)).

(** ** on_stream_end *)

Definition stream_end_frame (stream_id : Z) : QueuedFrame :=
  mkQueuedFrame stream_id (mkFrame [] 0 0) FrameKind.StreamEnd false false.

(** The body of its loop; [notify] is false for the worker the stream ended on. *)
Definition end_stream (q : PerWorkerQueue) (stream_id : Z) (notify : bool) : PerWorkerQueue * bool :=
  let q := set_waiting q (waiting_for_keyframe q ∖ {[stream_id]}) in
  let q := set_ends q (queued_stream_ends q ∖ {[stream_id]}) in
  let q := (erase_from q (fun g => qf_stream_id g =? stream_id)).1 in
  if notify && negb (bool_decide (stream_id ∈ queued_stream_ends q)) then
    let q := set_ends q ({[stream_id]} ∪ queued_stream_ends q) in
    (set_frames q (stream_end_frame stream_id :: frames q) (queued_bytes q), true)
  else (q, false).

(** ** drain *)

Fixpoint take_frames (q : PerWorkerQueue) (count : nat) : PerWorkerQueue * list QueuedFrame :=
  match count, frames q with
  | S count, f :: rest =>
      let q := set_frames q rest (less_bytes (queued_bytes q) (payload_size f)) in
      let q := if decide (qf_kind f = FrameKind.StreamEnd)
               then set_ends q (queued_stream_ends q ∖ {[qf_stream_id f]}) else q in
      let '(q, drained) := take_frames q count in (q, f :: drained)
  | _, _ => (q, [])
  end.
Definition drain_queue (q : PerWorkerQueue) (max_frames : nat) : PerWorkerQueue * list QueuedFrame :=
  let '(q, drained) := take_frames q (Nat.min max_frames (length (frames q))) in
  (match frames q with [] => q | _ => signal q end, drained).

(** * The router *)

Record Router := mkRouter {
  bounds_ : QueueBounds;
  counts_ : gmap Z (list Z);
  queues_ : list PerWorkerQueue;
  dropped_frames_ : Z
}.
Definition worker_count_ (r : Router) : nat := length (queues_ r).
(** [fds] are the eventfds the kernel gave. *)
Definition make_router (b : QueueBounds) (fds : list (option Z)) : Router :=
  mkRouter b ∅ (map make_worker_queue fds) 0.
Definition set_queue (r : Router) (w : nat) (q : PerWorkerQueue) : Router :=
  mkRouter (bounds_ r) (counts_ r) (<[w := q]> (queues_ r)) (dropped_frames_ r).
Definition set_counts (r : Router) (c : gmap Z (list Z)) : Router :=
  mkRouter (bounds_ r) c (queues_ r) (dropped_frames_ r).
Definition count_dropped (r : Router) (n : Z) : Router :=
  mkRouter (bounds_ r) (counts_ r) (queues_ r)
    (if 0 <? n then u64 (dropped_frames_ r + n) else dropped_frames_ r).

(** The atomic arithmetic on a counter: no wrap below zero. *)
Definition count_by (n delta : Z) : Z :=
  if 0 <? delta then u32 (n + u32 delta) else if delta <? 0 then (if 0 <? n then n - 1 else n) else n.
Definition note_subscription (r : Router) (worker : nat) (stream_id delta : Z) : Router :=
  if (worker_count_ r <=? worker)%nat then r else
  let counters := default (replicate (worker_count_ r) 0) (counts_ r !! stream_id) in
  set_counts r (<[stream_id := alter (fun n => count_by n delta) worker counters]> (counts_ r)).

Definition demanded (r : Router) (stream_id : Z) (destination : nat) : bool :=
  match counts_ r !! stream_id with
  | Some counters => negb (default 0 (counters !! destination) =? 0)
  | None => false
  end.

Definition forward_to (r : Router) (destination : nat) (f : QueuedFrame) : Router :=
  if negb (qf_is_sticky f) && negb (demanded r (qf_stream_id f) destination) then r else
  match queues_ r !! destination with
  | None => r
  | Some q =>
      let '(q, p) := push_frame (bounds_ r) q f in
      let q := if pushed p && should_wake p then signal q else q in
      count_dropped (set_queue r destination q) (dropped p)
  end.

Definition frame_kind (is_video is_audio : bool) : FrameKind.t :=
  if is_video then FrameKind.Video else if is_audio then FrameKind.Audio else FrameKind.Metadata.

Definition forward (r : Router) (source_worker : nat) (stream_id : Z) (frame : SharedMediaFrame)
    (is_video is_audio is_sticky is_keyframe : bool) : Router :=
  if (worker_count_ r <=? source_worker)%nat then r else
  if bool_decide (counts_ r !! stream_id = None) && negb is_sticky then r else
  let f := mkQueuedFrame stream_id frame (frame_kind is_video is_audio) is_sticky is_keyframe in
  fold_left (fun r destination => if Nat.eqb destination source_worker then r
                                  else forward_to r destination f)
            (seq 0 (worker_count_ r)) r.

Definition end_stream_at (stream_id : Z) (source_worker : nat) (r : Router) (destination : nat) : Router :=
  match queues_ r !! destination with
  | None => r
  | Some q =>
      let '(q, wake) := end_stream q stream_id (negb (Nat.eqb destination source_worker)) in
      set_queue r destination (if wake then signal q else q)
  end.
Definition on_stream_end (r : Router) (source_worker : nat) (stream_id : Z) : Router :=
  let r := set_counts r (delete stream_id (counts_ r)) in
  fold_left (end_stream_at stream_id source_worker) (seq 0 (worker_count_ r)) r.
(** The overload without a source. *)
Definition on_stream_end_everywhere (r : Router) (stream_id : Z) : Router :=
  on_stream_end r (worker_count_ r) stream_id.

Definition drain (r : Router) (worker max_frames : nat) : Router * list QueuedFrame :=
  match queues_ r !! worker with
  | None => (r, [])
  | Some q => let '(q, drained) := drain_queue q max_frames in (set_queue r worker q, drained)
  end.

(** * Histories *)

(** What is done to one queue. *)
Inductive QueueOp :=
| Push (f : QueuedFrame)
| End (stream_id : Z) (notify : bool)
| Drain (max_frames : nat).

Definition queue_step (b : QueueBounds) (q : PerWorkerQueue) (op : QueueOp)
    : PerWorkerQueue * list QueuedFrame :=
  match op with
  | Push f => ((push_frame b q f).1, [])
  | End s notify => ((end_stream q s notify).1, [])
  | Drain n => drain_queue q n
  end.

(** What is done to the router. *)
Inductive RouterOp :=
| NoteSubscription (worker : nat) (stream_id delta : Z)
| Forward (source_worker : nat) (stream_id : Z) (frame : SharedMediaFrame)
          (is_video is_audio is_sticky is_keyframe : bool)
| OnStreamEnd (source_worker : nat) (stream_id : Z)
| DrainFor (worker max_frames : nat).
Definition router_step (r : Router) (op : RouterOp) : Router :=
  match op with
  | NoteSubscription w s d => note_subscription r w s d
  | Forward w s f v a st k => forward r w s f v a st k
  | OnStreamEnd w s => on_stream_end r w s
  | DrainFor w n => (drain r w n).1
  end.
Definition router_run (r : Router) (ops : list RouterOp) : Router := fold_left router_step ops r.

(** * What each operation does to the frames *)

Fixpoint total_size (fs : list QueuedFrame) : Z :=
  match fs with [] => 0 | f :: fs => payload_size f + total_size fs end.
Definition keep (p : QueuedFrame -> bool) (fs : list QueuedFrame) : list QueuedFrame :=
  List.filter (fun f => negb (p f)) fs.

Lemma payload_size_nonneg f : 0 <= payload_size f.
Proof. unfold payload_size, zlen. lia. Qed.
Lemma total_size_nonneg fs : 0 <= total_size fs.
Proof. induction fs as [|f fs IH]; cbn; [lia|pose proof (payload_size_nonneg f); lia]. Qed.
#[export] Hint Resolve payload_size_nonneg total_size_nonneg : rtmp.
Lemma total_size_app fs gs : total_size (fs ++ gs) = total_size fs + total_size gs.
Proof. induction fs; cbn; lia. Qed.

Lemma erase_frames_spec p fs bytes :
  let '(rest, bytes', n) := erase_frames p fs bytes in
  rest = keep p fs /\ n = zlen fs - zlen rest /\
  (total_size fs <= bytes -> bytes' = bytes - (total_size fs - total_size rest)).
Proof.
  revert bytes. induction fs as [|f fs IH]; intros bytes; cbn; [split_and!; [done|done|intros _; lia]|].
  pose proof (payload_size_nonneg f). pose proof (total_size_nonneg fs).
  destruct (p f); cbn.
  - specialize (IH (less_bytes bytes (payload_size f))). destruct (erase_frames _ _ _) as [ [rest b] n].
    destruct IH as (-> & -> & Hb). split_and!; [done|unfold zlen; cbn; lia|].
    intros Ht. unfold less_bytes in Hb. rewrite Z.min_r in Hb by lia. rewrite Hb; lia.
  - specialize (IH bytes). destruct (erase_frames _ _ _) as [ [rest b] n]. destruct IH as (-> & -> & Hb).
    split_and!; [done|unfold zlen; cbn; lia|]. intros Ht. rewrite Hb by lia. cbn. lia.
Qed.

Lemma erase_from_spec q p :
  let '(q', n) := erase_from q p in
  frames q' = keep p (frames q) /\ n = zlen (frames q) - zlen (frames q') /\
  waiting_for_keyframe q' = waiting_for_keyframe q /\ queued_stream_ends q' = queued_stream_ends q /\
  wake_fd q' = wake_fd q /\
  (queued_bytes q = total_size (frames q) -> queued_bytes q' = total_size (frames q')).
Proof.
  unfold erase_from. pose proof (erase_frames_spec p (frames q) (queued_bytes q)) as H.
  destruct (erase_frames _ _ _) as [ [rest b] n]. destruct H as (-> & -> & Hb). cbn.
  split_and!; try done. intros Hq. rewrite Hb; lia.
Qed.

Lemma keep_length p fs : zlen (keep p fs) <= zlen fs.
Proof. unfold zlen, keep. induction fs as [|f fs IH]; cbn; [lia|]. destruct (negb (p f)); cbn; lia. Qed.
Lemma keep_total p fs : total_size (keep p fs) <= total_size fs.
Proof.
  unfold keep.
  induction fs as [|f fs IH]; cbn; [lia|]. pose proof (payload_size_nonneg f).
  destruct (negb (p f)); cbn; lia.
Qed.
Lemma keep_elem p f fs : f ∈ keep p fs <-> f ∈ fs /\ p f = false.
Proof.
  unfold keep. rewrite !list_elem_of_In, filter_In, negb_true_iff. done.
Qed.
Lemma keep_app p fs gs : keep p (fs ++ gs) = keep p fs ++ keep p gs.
Proof. apply filter_app. Qed.
Lemma keep_all p fs : (forall f, f ∈ fs -> p f = false) -> keep p fs = fs.
Proof.
  induction fs as [|f fs IH]; intros H; cbn; [done|]. rewrite (H f) by set_solver. cbn.
  f_equal. apply IH. intros. apply H. set_solver.
Qed.

(** [push_frame] in stages: the queue after coalescing ([q1]), the waiting set after a
    keyframe has lifted it, and what making room leaves. *)
Inductive push_case (b : QueueBounds) (q : PerWorkerQueue) (f : QueuedFrame)
    : PerWorkerQueue * Pushed -> Prop :=
| PushGated :
    qf_is_sticky f = false -> qf_stream_id f ∈ waiting_for_keyframe q -> is_video_keyframe f = false ->
    push_case b q f (q, mkPushed false false 1)
| PushFits q1 :
    q1 = coalesce q f -> would_overflow b q1 (payload_size f) = false ->
    (qf_is_sticky f = true \/ qf_stream_id f ∉ waiting_for_keyframe q \/ is_video_keyframe f = true) ->
    push_case b q f
      (mkQueue (frames q1 ++ [f])
         (if is_video_keyframe f then waiting_for_keyframe q ∖ {[qf_stream_id f]} else waiting_for_keyframe q)
         (queued_stream_ends q1) (u64 (queued_bytes q1 + payload_size f)) (wake_fd q1),
       mkPushed true (match frames q1 with [] => true | _ => false end) 0)
| PushMakesRoom q1 q2 n :
    q1 = coalesce q f -> would_overflow b q1 (payload_size f) = true ->
    (q2, n) = erase_from q1 (same_media f) -> would_overflow b q2 (payload_size f) = false ->
    (qf_is_sticky f = true \/ is_video_keyframe f = true) ->
    push_case b q f
      (mkQueue (frames q2 ++ [f])
         (if is_video_keyframe f then waiting_for_keyframe q ∖ {[qf_stream_id f]} else waiting_for_keyframe q)
         (queued_stream_ends q2) (u64 (queued_bytes q2 + payload_size f)) (wake_fd q2),
       mkPushed true (match frames q2 with [] => true | _ => false end) n)
| PushLost q1 q2 n w :
    q1 = coalesce q f -> would_overflow b q1 (payload_size f) = true ->
    (q2, n) = erase_from q1 (same_media f) ->
    (would_overflow b q2 (payload_size f) = true \/ is_video_keyframe f = false) ->
    (qf_is_sticky f = false -> w = {[qf_stream_id f]} ∪ waiting_for_keyframe q) ->
    (qf_is_sticky f = true -> w = if is_video_keyframe f then waiting_for_keyframe q ∖ {[qf_stream_id f]}
                                  else waiting_for_keyframe q) ->
    push_case b q f (set_waiting q2 w, mkPushed false false (n + 1)).

Lemma coalesce_fields q f :
  waiting_for_keyframe (coalesce q f) = waiting_for_keyframe q /\
  queued_stream_ends (coalesce q f) = queued_stream_ends q /\ wake_fd (coalesce q f) = wake_fd q.
Proof.
  unfold coalesce. destruct (qf_is_sticky f); [|done].
  pose proof (erase_from_spec q (same_sticky f)) as H. destruct (erase_from _ _). cbn. tauto.
Qed.

Lemma erase_from_set_waiting q w p :
  erase_from (set_waiting q w) p = (set_waiting (erase_from q p).1 w, (erase_from q p).2).
Proof. unfold erase_from. cbn. by destruct (erase_frames _ _ _) as [ [rest b] n]. Qed.

Lemma regate (s : Z) (w : gset Z) : {[s]} ∪ w ∖ {[s]} = {[s]} ∪ w.
Proof. apply set_eq. intros x. destruct (decide (x = s)); set_solver. Qed.

Lemma push_frame_cases b q f : push_case b q f (push_frame b q f).
Proof.
  unfold push_frame. destruct (coalesce_fields q f) as (Hw & He & Hf). rewrite Hw.
  destruct (bool_decide (qf_stream_id f ∈ waiting_for_keyframe q) && negb (qf_is_sticky f) &&
            negb (is_video_keyframe f)) eqn:Hg.
  { apply andb_prop in Hg as [Hg Hk]. apply andb_prop in Hg as [Hin Hs]. apply negb_true_iff in Hk, Hs.
    unfold coalesce. rewrite Hs. apply PushGated; try done. by apply bool_decide_eq_true in Hin. }
  remember (coalesce q f) as q1 eqn:Eq1.
  set (w := if is_video_keyframe f then waiting_for_keyframe q ∖ {[qf_stream_id f]} else waiting_for_keyframe q).
  assert (Eq : (if bool_decide (qf_stream_id f ∈ waiting_for_keyframe q) && is_video_keyframe f
                then set_waiting q1 (waiting_for_keyframe q ∖ {[qf_stream_id f]}) else q1) = set_waiting q1 w).
  { subst w. case_bool_decide as Hin; destruct (is_video_keyframe f); cbn; try done.
    - unfold set_waiting. rewrite <- Hw. by destruct q1.
    - unfold set_waiting. replace (_ ∖ _) with (waiting_for_keyframe q1) by (rewrite Hw; set_solver). by destruct q1.
    - unfold set_waiting. rewrite <- Hw. by destruct q1. }
  rewrite Eq. unfold make_room.
  change (would_overflow b (set_waiting q1 w) (payload_size f)) with (would_overflow b q1 (payload_size f)).
  rewrite erase_from_set_waiting. destruct (would_overflow b q1 (payload_size f)) eqn:Ho.
  - destruct (erase_from q1 (same_media f)) as [q2 n] eqn:E2. cbn [fst snd].
    destruct (qf_is_sticky f) eqn:Hs; cbn [negb andb orb].
    + change (would_overflow b (set_waiting q2 w) (payload_size f)) with (would_overflow b q2 (payload_size f)).
      destruct (would_overflow b q2 (payload_size f)) eqn:Ho2; cbn [negb andb].
      * eapply PushLost; try done; [by left|congruence].
      * eapply (PushMakesRoom b q f q1 q2 n); [done..|by left].
    + destruct (is_video_keyframe f) eqn:Hk; cbn [negb andb].
      * change (would_overflow b (set_waiting q2 w) (payload_size f)) with (would_overflow b q2 (payload_size f)).
        rewrite (bool_decide_eq_false_2 (_ ∈ waiting_for_keyframe (set_waiting q2 w))) by (cbn; subst w; set_solver).
        destruct (would_overflow b q2 (payload_size f)) eqn:Ho2; cbn [negb andb].
        -- change (set_waiting (set_waiting q2 w) ?x) with (set_waiting q2 x). cbn [waiting_for_keyframe set_waiting].
           eapply PushLost; try done; [by left| |congruence]. intros _. subst w. apply regate.
        -- pose proof (PushMakesRoom b q f q1 q2 n Eq1 Ho (eq_sym E2) Ho2 (or_intror Hk)) as HP. rewrite Hk in HP. exact HP.
      * rewrite (bool_decide_eq_true_2 (_ ∈ waiting_for_keyframe (set_waiting _ _))) by (cbn; set_solver).
        rewrite andb_false_r. cbn [waiting_for_keyframe set_waiting frames queued_stream_ends queued_bytes wake_fd].
        match goal with |- push_case _ _ _ (?x, _) => change x with (set_waiting q2 ({[qf_stream_id f]} ∪ ({[qf_stream_id f]} ∪ w))) end.
        eapply PushLost; try done; [by right| |congruence]. intros _. subst w. set_solver.
  - cbn [negb andb].
    change (would_overflow b (set_waiting q1 w) (payload_size f)) with (would_overflow b q1 (payload_size f)).
    rewrite Ho. cbn [negb andb].
    assert (Hok : qf_is_sticky f = true \/ qf_stream_id f ∉ waiting_for_keyframe q \/ is_video_keyframe f = true).
    { destruct (qf_is_sticky f), (is_video_keyframe f); auto. right. left. intros Hin.
      rewrite (bool_decide_eq_true_2 _ Hin) in Hg. discriminate. }
    assert (Hp : qf_is_sticky f || negb (bool_decide (qf_stream_id f ∈ waiting_for_keyframe (set_waiting q1 w))) = true).
    { destruct Hok as [->|[Hn|Hk] ]; [done|..]; rewrite bool_decide_eq_false_2, orb_true_r; try done; cbn; subst w.
      - destruct (is_video_keyframe f); set_solver.
      - rewrite Hk. set_solver. }
    rewrite Hp. exact (PushFits b q f q1 Eq1 Ho Hok).
Qed.

Lemma end_stream_spec q s notify :
  let '(q', wake) := end_stream q s notify in
  wake = notify /\
  frames q' = (if notify then [stream_end_frame s] else []) ++ keep (fun g => qf_stream_id g =? s) (frames q) /\
  waiting_for_keyframe q' = waiting_for_keyframe q ∖ {[s]} /\
  queued_stream_ends q' = (if notify then {[s]} else ∅) ∪ queued_stream_ends q ∖ {[s]} /\
  wake_fd q' = wake_fd q /\
  (queued_bytes q = total_size (frames q) -> queued_bytes q' = total_size (frames q')).
Proof.
  unfold end_stream. set (q0 := set_ends _ _).
  pose proof (erase_from_spec q0 (fun g => qf_stream_id g =? s)) as H.
  destruct (erase_from q0 _) as [q1 n]. destruct H as (Ef & _ & Ew & Ee & Ev & Eb). cbn [fst].
  rewrite (bool_decide_eq_false_2 (s ∈ queued_stream_ends q1)) by (rewrite Ee; cbn; set_solver).
  destruct notify; cbn; rewrite Ef, Ew, Ee, Ev; cbn; split_and!; try done; try (intros Hb; rewrite Eb by exact Hb; by rewrite Ef).
  set_solver.
Qed.

Lemma take_frames_spec q n :
  let '(q', drained) := take_frames q n in
  drained = take n (frames q) /\ frames q' = drop n (frames q) /\
  waiting_for_keyframe q' = waiting_for_keyframe q /\ wake_fd q' = wake_fd q /\
  (forall s, s ∈ queued_stream_ends q' <-> s ∈ queued_stream_ends q /\
     forall f, f ∈ drained -> qf_kind f = FrameKind.StreamEnd -> qf_stream_id f <> s) /\
  (queued_bytes q = total_size (frames q) -> queued_bytes q' = total_size (frames q')).
Proof.
  revert q. induction n as [|n IH]; intros q; cbn [take_frames].
  { rewrite drop_0. split_and!; try done. set_solver. }
  destruct (frames q) as [|f rest] eqn:Ef.
  { rewrite Ef. split_and!; try done. set_solver. }
  cbv zeta.
  set (q0 := set_frames q rest (less_bytes (queued_bytes q) (payload_size f))).
  set (q1 := if decide (qf_kind f = FrameKind.StreamEnd) then set_ends q0 (queued_stream_ends q0 ∖ {[qf_stream_id f]}) else q0).
  specialize (IH q1). destruct (take_frames q1 n) as [q' drained]. destruct IH as (Hd & Hf & Hw & Hv & He & Hb).
  assert (E1 : frames q1 = rest) by (subst q1 q0; by case_decide).
  assert (E2 : waiting_for_keyframe q1 = waiting_for_keyframe q /\ wake_fd q1 = wake_fd q) by (subst q1 q0; by case_decide).
  assert (E3 : queued_bytes q1 = less_bytes (queued_bytes q) (payload_size f)) by (subst q1 q0; by case_decide).
  rewrite E1 in *. destruct E2 as [Ew Ev]. cbn [take drop total_size]. split_and!; try congruence.
  - intros s. rewrite He. subst q1 q0. pose proof (payload_size_nonneg f).
    case_decide as Hk; cbn; set_solver.
  - intros Hq. apply Hb. rewrite E3, Hq. unfold less_bytes. pose proof (payload_size_nonneg f).
    pose proof (total_size_nonneg rest). lia.
Qed.

Lemma drain_queue_spec q n :
  let '(q', drained) := drain_queue q n in
  drained = take n (frames q) /\ frames q' = drop n (frames q) /\
  waiting_for_keyframe q' = waiting_for_keyframe q /\
  wake_fd q' = (match drop n (frames q) with [] => wake_fd q | _ => wake_fd (signal q) end) /\
  (forall s, s ∈ queued_stream_ends q' <-> s ∈ queued_stream_ends q /\
     forall f, f ∈ drained -> qf_kind f = FrameKind.StreamEnd -> qf_stream_id f <> s) /\
  (queued_bytes q = total_size (frames q) -> queued_bytes q' = total_size (frames q')).
Proof.
  unfold drain_queue. pose proof (take_frames_spec q (Nat.min n (length (frames q)))) as H.
  assert (Et : take (Nat.min n (length (frames q))) (frames q) = take n (frames q)).
  { destruct (decide (n <= length (frames q))%nat); [by rewrite Nat.min_l|]. by rewrite Nat.min_r, !take_ge by lia. }
  assert (Ed : drop (Nat.min n (length (frames q))) (frames q) = drop n (frames q)).
  { destruct (decide (n <= length (frames q))%nat); [by rewrite Nat.min_l|]. by rewrite Nat.min_r, !drop_ge by lia. }
  rewrite Et, Ed in H. destruct (take_frames _ _) as [q' drained]. destruct H as (-> & Hf & Hw & Hv & He & Hb).
  assert (Es : frames (match frames q' with [] => q' | _ => signal q' end) = frames q' /\
               waiting_for_keyframe (match frames q' with [] => q' | _ => signal q' end) = waiting_for_keyframe q' /\
               queued_stream_ends (match frames q' with [] => q' | _ => signal q' end) = queued_stream_ends q' /\
               queued_bytes (match frames q' with [] => q' | _ => signal q' end) = queued_bytes q')
    by (destruct (frames q') eqn:E; cbn; by rewrite ?E).
  destruct Es as (E1 & E2 & E3 & E4). rewrite E1, E2, E3, E4. split_and!; try done.
  rewrite Hf. destruct (drop n (frames q)); [done|]. unfold signal. cbn. by rewrite Hv.
Qed.

(** * Bounds and bookkeeping *)

Create HintDb router.

Definition bounds_ok (b : QueueBounds) : Prop :=
  0 < max_queue_frames b /\ 0 < max_queue_bytes b < 2 ^ 64.

Definition is_end (f : QueuedFrame) : Prop := qf_kind f = FrameKind.StreamEnd.

(** The counter of bytes is right and within its bound; the ends of streams come first, one
    for a stream at most and only of streams that have one; the rest is within its bound. *)
Record bounded_queue (b : QueueBounds) (q : PerWorkerQueue) : Prop := mkBoundedQueue {
  bq_bytes : queued_bytes q = total_size (frames q);
  bq_within : queued_bytes q <= max_queue_bytes b;
  bq_shape : exists ends media, frames q = ends ++ media /\ Forall is_end ends /\
    NoDup (map qf_stream_id ends) /\ (forall f, f ∈ ends -> qf_stream_id f ∈ queued_stream_ends q) /\
    (forall f, f ∈ media -> ~ is_end f) /\ zlen media <= max_queue_frames b
}.

Lemma keep_sublist p fs : keep p fs `sublist_of` fs.
Proof.
  unfold keep. induction fs as [|f fs IH]; cbn; [constructor|]. destruct (negb (p f)); by constructor.
Qed.

Lemma shape_keep b q p ends media :
  frames q = ends ++ media -> Forall is_end ends -> NoDup (map qf_stream_id ends) ->
  (forall f, f ∈ media -> ~ is_end f) -> zlen media <= max_queue_frames b ->
  keep p (frames q) = keep p ends ++ keep p media /\ Forall is_end (keep p ends) /\
  NoDup (map qf_stream_id (keep p ends)) /\ (forall f, f ∈ keep p media -> ~ is_end f) /\
  zlen (keep p media) <= max_queue_frames b.
Proof.
  intros E Hends Hnd Hmed Hlen. rewrite E. split; [apply keep_app|]. split_and!.
  - rewrite list.Forall_forall in *. intros f Hf. apply keep_elem in Hf as [Hf _]. by apply Hends.
  - eapply sublist_NoDup; [exact Hnd|]. apply (fmap_sublist qf_stream_id), keep_sublist.
  - intros f Hf. apply keep_elem in Hf as [Hf _]. by apply Hmed.
  - pose proof (keep_length p media). lia.
Qed.

Lemma erase_bounded b q p : bounded_queue b q -> bounded_queue b (erase_from q p).1.
Proof.
  intros [Hb Hw (ends & media & E & Hends & Hnd & Hin & Hmed & Hlen)].
  pose proof (erase_from_spec q p) as H. destruct (erase_from q p) as [q' n]. cbn.
  destruct H as (Ef & _ & _ & Ee & _ & Eb). specialize (Eb Hb).
  pose proof (keep_total p (frames q)) as Ht. rewrite <- Ef in Ht.
  split; [done|lia|].
  destruct (shape_keep b q p ends media E Hends Hnd Hmed Hlen) as (Ek & H1 & H2 & H3 & H4).
  exists (keep p ends), (keep p media). rewrite Ef, Ee. split_and!; try done.
  intros f Hf. apply keep_elem in Hf as [Hf _]. by apply Hin.
Qed.

Lemma coalesce_bounded b q f : bounded_queue b q -> bounded_queue b (coalesce q f).
Proof. unfold coalesce. destruct (qf_is_sticky f); [apply erase_bounded|done]. Qed.

Lemma append_bounded b q f w : bounds_ok b -> bounded_queue b q -> ~ is_end f ->
  would_overflow b q (payload_size f) = false ->
  bounded_queue b (mkQueue (frames q ++ [f]) w (queued_stream_ends q) (u64 (queued_bytes q + payload_size f)) (wake_fd q)).
Proof.
  intros [Hbf Hbb] [Hb Hw (ends & media & E & Hends & Hnd & Hin & Hmed & Hlen)] Hf Ho.
  unfold would_overflow in Ho. apply orb_false_elim in Ho as [Ho1 Ho2].
  pose proof (payload_size_nonneg f) as Hp. pose proof (total_size_nonneg (frames q)) as Ht.
  assert (H1 : zlen (frames q) < max_queue_frames b) by (destruct (max_queue_frames b =? 0) eqn:?; lia).
  assert (H2 : payload_size f <= max_queue_bytes b - queued_bytes q) by (destruct (max_queue_bytes b =? 0) eqn:?; lia).
  assert (E64 : u64 (queued_bytes q + payload_size f) = queued_bytes q + payload_size f)
    by (apply Z.mod_small; lia).
  split; cbn [queued_bytes frames queued_stream_ends]; rewrite ?E64.
  - rewrite total_size_app. cbn [total_size]. lia.
  - lia.
  - exists ends, (media ++ [f]). rewrite E, <- app_assoc. split_and!; try done.
    + intros g [Hg|Hg]%elem_of_app; [by apply Hmed|]. by apply list_elem_of_singleton in Hg as ->.
    + rewrite E in H1. unfold zlen in *. rewrite length_app in *. cbn. lia.
Qed.

Lemma push_frame_bounded b q f : bounds_ok b -> bounded_queue b q -> ~ is_end f ->
  bounded_queue b (push_frame b q f).1.
Proof.
  intros Hok Hq Hf. pose proof (coalesce_bounded b q f Hq) as Hc.
  destruct (push_frame_cases b q f) as [| q1 -> Ho | q1 q2 n -> _ E2 Ho2 _ | q1 q2 n w -> _ E2 _ _ _]; cbn [fst]; [done|..].
  - by apply append_bounded.
  - pose proof (erase_bounded b (coalesce q f) (same_media f) Hc) as Hm. rewrite <- E2 in Hm. by apply append_bounded.
  - pose proof (erase_bounded b (coalesce q f) (same_media f) Hc) as Hm. rewrite <- E2 in Hm.
    destruct Hm as [H1 H2 H3]. by split.
Qed.

Lemma end_stream_bounded b q s notify : bounded_queue b q -> bounded_queue b (end_stream q s notify).1.
Proof.
  intros [Hb Hw (ends & media & E & Hends & Hnd & Hin & Hmed & Hlen)].
  pose proof (end_stream_spec q s notify) as H. destruct (end_stream q s notify) as [q' wake]. cbn.
  destruct H as (_ & Ef & _ & Ee & _ & Eb). specialize (Eb Hb).
  set (p := fun g => qf_stream_id g =? s) in *. pose proof (keep_total p (frames q)) as Ht.
  destruct (shape_keep b q p ends media E Hends Hnd Hmed Hlen) as (Ek & H1 & H2 & H3 & H4).
  assert (Hi : forall f, f ∈ keep p ends -> qf_stream_id f ∈ queued_stream_ends q' /\ qf_stream_id f <> s).
  { intros f Hf. apply keep_elem in Hf as [Hf Hp]. subst p. cbn in Hp. apply Z.eqb_neq in Hp. split; [|done].
    rewrite Ee. specialize (Hin f Hf). set_solver. }
  split; [done| |].
  - rewrite Eb, Ef, total_size_app. destruct notify; cbn [total_size]; [|lia].
    change (payload_size (stream_end_frame s)) with 0. lia.
  - exists ((if notify then [stream_end_frame s] else []) ++ keep p ends), (keep p media).
    rewrite Ef, Ek, <- app_assoc. split_and!; try done.
    + apply Forall_app. split; [|done]. destruct notify; [by repeat constructor|constructor].
    + destruct notify; cbn; [|done]. constructor; [|done].
      intros Hs. apply list_elem_of_fmap in Hs as (g & Eg & Hg). destruct (Hi g Hg) as [_ Hn]. by rewrite <- Eg in Hn.
    + intros f [Hf|Hf]%elem_of_app; [|by apply Hi]. destruct notify; [|set_solver].
      apply list_elem_of_singleton in Hf as ->. rewrite Ee. cbn. set_solver.
Qed.

Lemma drain_queue_bounded b q n : bounded_queue b q -> bounded_queue b (drain_queue q n).1.
Proof.
  intros [Hb Hw (ends & media & E & Hends & Hnd & Hin & Hmed & Hlen)].
  pose proof (drain_queue_spec q n) as H. destruct (drain_queue q n) as [q' drained]. cbn.
  destruct H as (Ed & Ef & _ & _ & Ee & Eb). specialize (Eb Hb).
  pose proof (take_drop n (frames q)) as Htd. pose proof (f_equal total_size Htd) as Ht.
  rewrite total_size_app in Ht. pose proof (total_size_nonneg (take n (frames q))).
  split; [done|rewrite Eb, Ef; lia|].
  exists (drop n ends), (drop (n - length ends) media). rewrite Ef, E, drop_app. split_and!.
  - done.
  - by apply Forall_drop.
  - rewrite <- (take_drop n ends), map_app in Hnd. by apply list.NoDup_app in Hnd as (_ & _ & ?).
  - intros f Hf. apply Ee. split; [apply Hin; by eapply subseteq_drop|]. intros g Hg Hk Es.
    rewrite Ed, E, take_app in Hg. apply elem_of_app in Hg as [Hg|Hg].
    + rewrite <- (take_drop n ends), map_app in Hnd. apply list.NoDup_app in Hnd as (_ & Hd & _).
      apply (Hd (qf_stream_id g)); [by apply list_elem_of_fmap_2|]. rewrite Es. by apply list_elem_of_fmap_2.
    + apply (Hmed g); [by eapply subseteq_take|done].
  - intros f Hf. apply Hmed. by eapply subseteq_drop.
  - unfold zlen in *. rewrite length_drop. lia.
Qed.

(** What the hub forwards: never an end, and no keyframe is sticky. *)
Definition frame_ok (f : QueuedFrame) : Prop := ~ is_end f /\ (qf_is_sticky f = true -> qf_is_keyframe f = false).
Definition op_ok (op : QueueOp) : Prop := match op with Push f => frame_ok f | _ => True end.
Lemma queue_step_bounded b q op : bounds_ok b -> op_ok op -> bounded_queue b q ->
  bounded_queue b (queue_step b q op).1.
Proof.
  intros Hb Hop Hq. destruct op; cbn [queue_step fst].
  - apply push_frame_bounded; [done|done|apply Hop].
  - by apply end_stream_bounded.
  - by apply drain_queue_bounded.
Qed.
Lemma signal_bounded b q : bounded_queue b q -> bounded_queue b (signal q).
Proof. intros [H1 H2 H3]. by split. Qed.
#[export] Hint Resolve push_frame_bounded end_stream_bounded drain_queue_bounded signal_bounded : router.

(** ** The queues of the router *)

(** [forward] and [on_stream_end] do one thing to every queue. *)
Lemma forward_to_queue r d f d' :
  queues_ (forward_to r d f) !! d' =
  if decide (d' = d) then
    (fun q => if negb (qf_is_sticky f) && negb (demanded r (qf_stream_id f) d) then q else
       let '(q', p) := push_frame (bounds_ r) q f in if pushed p && should_wake p then signal q' else q')
    <$> (queues_ r !! d)
  else queues_ r !! d'.
Proof.
  unfold forward_to. destruct (decide (d' = d)) as [->|Hn];
    destruct (negb (qf_is_sticky f) && negb (demanded r (qf_stream_id f) d)).
  - by destruct (queues_ r !! d).
  - destruct (queues_ r !! d) as [q|] eqn:Eq; [|by rewrite Eq]. destruct (push_frame _ _ _) as [q' p] eqn:Ep.
    cbn [queues_ count_dropped set_queue fmap option_fmap option_map]. cbv beta. rewrite Ep.
    apply list_lookup_insert_eq. by eapply lookup_lt_Some.
  - done.
  - destruct (queues_ r !! d) as [q|] eqn:Eq; [|done]. destruct (push_frame _ _ _) as [q' p]. cbn. by apply list_lookup_insert_ne.
Qed.
Lemma forward_to_rest r d f :
  bounds_ (forward_to r d f) = bounds_ r /\ counts_ (forward_to r d f) = counts_ r /\
  worker_count_ (forward_to r d f) = worker_count_ r.
Proof.
  unfold forward_to, worker_count_. destruct (_ && _); [done|]. destruct (queues_ r !! d); [|done].
  destruct (push_frame _ _ _). cbn. by rewrite length_insert.
Qed.

Lemma end_stream_at_queue s src r d d' :
  queues_ (end_stream_at s src r d) !! d' =
  if decide (d' = d) then
    (fun q => let '(q', wake) := end_stream q s (negb (Nat.eqb d src)) in if wake then signal q' else q') <$> (queues_ r !! d)
  else queues_ r !! d'.
Proof.
  unfold end_stream_at. destruct (decide (d' = d)) as [->|Hn]; destruct (queues_ r !! d) as [q|] eqn:Eq; cbn; try done.
  - destruct (end_stream _ _ _) as [q' wake]. cbn. apply list_lookup_insert_eq. by eapply lookup_lt_Some.
  - destruct (end_stream _ _ _) as [q' wake]. cbn. by apply list_lookup_insert_ne.
Qed.
Lemma end_stream_at_rest s src r d :
  bounds_ (end_stream_at s src r d) = bounds_ r /\ counts_ (end_stream_at s src r d) = counts_ r /\
  worker_count_ (end_stream_at s src r d) = worker_count_ r.
Proof.
  unfold end_stream_at, worker_count_. destruct (queues_ r !! d); [|done].
  destruct (end_stream _ _ _). cbn. by rewrite length_insert.
Qed.

(** A loop whose round for [d] changes nothing but the queue of [d], and what that depends on. *)
Lemma fold_queues (step : Router -> nat -> Router) (g : nat -> PerWorkerQueue -> PerWorkerQueue) b counts n ds r d' :
  (forall r d d', bounds_ r = b -> counts_ r = counts -> worker_count_ r = n -> 
     queues_ (step r d) !! d' = (if decide (d' = d) then g d <$> queues_ r !! d else queues_ r !! d') /\
     bounds_ (step r d) = b /\ counts_ (step r d) = counts /\ worker_count_ (step r d) = n) ->
  bounds_ r = b -> counts_ r = counts -> worker_count_ r = n -> NoDup ds ->
  queues_ (fold_left step ds r) !! d' = (if decide (d' ∈ ds) then g d' <$> queues_ r !! d' else queues_ r !! d').
Proof.
  intros Hstep. revert r. induction ds as [|d ds IH]; intros r Eb Ec En Hnd; cbn [fold_left].
  - rewrite decide_False; [done|set_solver].
  - apply list.NoDup_cons in Hnd as [Hd Hnd].
    destruct (Hstep r d d' Eb Ec En) as (Eq & Eb' & Ec' & En'). rewrite IH by done. rewrite Eq.
    destruct (decide (d' = d)) as [->|Hn].
    + rewrite (decide_False (P := d ∈ ds)) by done. rewrite decide_True by set_solver. done.
    + destruct (decide (d' ∈ ds)); [rewrite decide_True by set_solver|rewrite decide_False by set_solver]; done.
Qed.

(** What an operation of the router does to the queue of worker [d]. *)
Definition queue_ops (r : Router) (op : RouterOp) (d : nat) : list QueueOp :=
  match op with
  | NoteSubscription _ _ _ => []
  | Forward src s fr v a st k =>
      let f := mkQueuedFrame s fr (frame_kind v a) st k in
      if (worker_count_ r <=? src)%nat || Nat.eqb d src || negb (st || demanded r s d) then [] else [Push f]
  | OnStreamEnd src s => [End s (negb (Nat.eqb d src))]
  | DrainFor w n => if Nat.eqb d w then [Drain n] else []
  end.
Definition queue_run (b : QueueBounds) (q : PerWorkerQueue) (ops : list QueueOp) : PerWorkerQueue :=
  fold_left (fun q op => (queue_step b q op).1) ops q.
Fixpoint worker_ops (r : Router) (ops : list RouterOp) (d : nat) : list QueueOp :=
  match ops with
  | [] => []
  | op :: ops => queue_ops r op d ++ worker_ops (router_step r op) ops d
  end.

(** The queue apart from its eventfd. *)
Definition unsignalled (q : PerWorkerQueue) : PerWorkerQueue := set_wake_fd q None.

Lemma erase_from_unsignalled q p :
  erase_from (unsignalled q) p = (unsignalled (erase_from q p).1, (erase_from q p).2).
Proof. unfold erase_from. cbn. by destruct (erase_frames _ _ _) as [ [rest b] n]. Qed.
Lemma coalesce_unsignalled q f : coalesce (unsignalled q) f = unsignalled (coalesce q f).
Proof. unfold coalesce. destruct (qf_is_sticky f); [by rewrite erase_from_unsignalled|done]. Qed.
Lemma make_room_unsignalled b q f :
  make_room b (unsignalled q) f = (unsignalled (make_room b q f).1, (make_room b q f).2).
Proof.
  unfold make_room. change (would_overflow b (unsignalled q)) with (would_overflow b q).
  destruct (would_overflow b q _); [|done]. rewrite erase_from_unsignalled. destruct (erase_from q _) as [q' n].
  cbn [fst snd]. by destruct (_ && _).
Qed.
Lemma push_frame_unsignalled b q f :
  push_frame b (unsignalled q) f = (unsignalled (push_frame b q f).1, (push_frame b q f).2).
Proof.
  unfold push_frame. rewrite coalesce_unsignalled. generalize (coalesce q f). intros q1.
  change (waiting_for_keyframe (unsignalled q1)) with (waiting_for_keyframe q1).
  destruct (_ && negb (qf_is_sticky f) && _); [done|].
  assert (Ew : forall c w, (if c : bool then set_waiting (unsignalled q1) w else unsignalled q1) =
                           unsignalled (if c then set_waiting q1 w else q1)) by (by intros []).
  rewrite Ew. generalize (if bool_decide (qf_stream_id f ∈ waiting_for_keyframe q1) && is_video_keyframe f
    then set_waiting q1 (waiting_for_keyframe q1 ∖ {[qf_stream_id f]}) else q1). intros q2.
  rewrite make_room_unsignalled. destruct (make_room b q2 f) as [q3 n]. cbn [fst snd].
  change (would_overflow b (unsignalled q3)) with (would_overflow b q3).
  change (waiting_for_keyframe (unsignalled q3)) with (waiting_for_keyframe q3).
  destruct (_ && _); [done|]. by destruct (qf_is_sticky f).
Qed.
Lemma end_stream_unsignalled q s n :
  end_stream (unsignalled q) s n = (unsignalled (end_stream q s n).1, (end_stream q s n).2).
Proof.
  unfold end_stream.
  change (set_ends (set_waiting (unsignalled q) (waiting_for_keyframe (unsignalled q) ∖ {[s]}))
           (queued_stream_ends (set_waiting (unsignalled q) (waiting_for_keyframe (unsignalled q) ∖ {[s]})) ∖ {[s]}))
    with (unsignalled (set_ends (set_waiting q (waiting_for_keyframe q ∖ {[s]})) (queued_stream_ends q ∖ {[s]}))).
  rewrite erase_from_unsignalled. cbn [fst snd].
  set (q1 := (erase_from _ _).1). change (queued_stream_ends (unsignalled q1)) with (queued_stream_ends q1).
  by destruct (_ && _).
Qed.
Lemma take_frames_unsignalled q n :
  take_frames (unsignalled q) n = (unsignalled (take_frames q n).1, (take_frames q n).2).
Proof.
  revert q. induction n as [|n IH]; intros q; cbn [take_frames]; [done|].
  change (frames (unsignalled q)) with (frames q). destruct (frames q) as [|f rest]; [done|].
  cbv zeta. case_decide.
  - change (set_ends _ _) with (unsignalled (set_ends (set_frames q rest (less_bytes (queued_bytes q) (payload_size f))) (queued_stream_ends q ∖ {[qf_stream_id f]}))) at 1.
    rewrite IH. by destruct (take_frames _ n).
  - change (set_frames (unsignalled q) rest _) with (unsignalled (set_frames q rest (less_bytes (queued_bytes q) (payload_size f)))).
    rewrite IH. by destruct (take_frames _ n).
Qed.
Lemma drain_queue_unsignalled q n :
  unsignalled (drain_queue (unsignalled q) n).1 = unsignalled (drain_queue q n).1 /\
  (drain_queue (unsignalled q) n).2 = (drain_queue q n).2.
Proof.
  unfold drain_queue. change (frames (unsignalled q)) with (frames q). rewrite take_frames_unsignalled.
  destruct (take_frames q _) as [q' drained]. cbn [fst snd]. split; [|done].
  change (frames (unsignalled q')) with (frames q'). by destruct (frames q').
Qed.

Lemma unsignalled_signal q : unsignalled (signal q) = unsignalled q.
Proof. done. Qed.
Lemma unsignalled_again q : unsignalled (unsignalled q) = unsignalled q.
Proof. done. Qed.

Lemma queue_step_unsignalled b q op :
  unsignalled (queue_step b (unsignalled q) op).1 = unsignalled (queue_step b q op).1 /\
  (queue_step b (unsignalled q) op).2 = (queue_step b q op).2.
Proof.
  destruct op; cbn [queue_step fst snd].
  - by rewrite push_frame_unsignalled.
  - by rewrite end_stream_unsignalled.
  - apply drain_queue_unsignalled.
Qed.
Lemma queue_run_unsignalled b q q' ops : unsignalled q = unsignalled q' ->
  unsignalled (queue_run b q ops) = unsignalled (queue_run b q' ops).
Proof.
  revert q q'. induction ops as [|op ops IH]; intros q q' E; cbn [queue_run fold_left]; [done|]. apply IH.
  rewrite <- (proj1 (queue_step_unsignalled b q op)), <- (proj1 (queue_step_unsignalled b q' op)). by rewrite E.
Qed.

(** Whatever the router does, each of its queues goes through the operations [queue_ops] lists. *)
Lemma router_step_queue r op d :
  unsignalled <$> queues_ (router_step r op) !! d =
  (fun q => unsignalled (queue_run (bounds_ r) q (queue_ops r op d))) <$> queues_ r !! d.
Proof.
  assert (Hsame : unsignalled <$> queues_ r !! d =
                  (fun q => unsignalled (queue_run (bounds_ r) q [])) <$> queues_ r !! d) by done.
  destruct op as [w s delta|src s fr v a st k|src s|w n]; cbn [router_step queue_ops].
  - unfold note_subscription. by destruct (_ <=? _)%nat.
  - unfold forward. destruct (worker_count_ r <=? src)%nat eqn:Hsrc; [done|].
    set (f := mkQueuedFrame _ _ _ _ _). cbn [orb].
    destruct (bool_decide (counts_ r !! s = None) && negb st) eqn:Hn.
    { apply andb_prop in Hn as [Hn Hs]. apply bool_decide_eq_true in Hn. apply negb_true_iff in Hs. subst st.
      unfold demanded. rewrite Hn. cbn [negb orb]. by rewrite orb_true_r. }
    rewrite (fold_queues _ (fun d q => if Nat.eqb d src then q else
       if negb (qf_is_sticky f) && negb (demanded r (qf_stream_id f) d) then q else
       let '(q', p) := push_frame (bounds_ r) q f in if pushed p && should_wake p then signal q' else q')
       (bounds_ r) (counts_ r) (worker_count_ r)).
    2:{ intros r0 d0 d' Eb Ec En. destruct (Nat.eqb d0 src).
        - split_and!; try done. case_decide as E; [subst d'|done]. by destruct (queues_ r0 !! d0).
        - rewrite forward_to_queue, Eb. unfold demanded. rewrite Ec. 
          destruct (forward_to_rest r0 d0 f) as (H1 & H2 & H3). by rewrite H1, H2, H3. }
    2-4: done. 2: apply NoDup_seq.
    destruct (queues_ r !! d) as [q|] eqn:Eq; [|by case_decide].
    rewrite decide_True by (apply elem_of_seq; apply lookup_lt_Some in Eq; unfold worker_count_; lia).
    cbn [fmap option_fmap option_map]. f_equal. destruct (Nat.eqb d src); [done|]. cbn [orb].
    subst f. cbn [qf_is_sticky qf_stream_id]. destruct st; cbn [negb andb orb].
    + unfold queue_run. cbn [fold_left queue_step fst]. destruct (push_frame _ _ _) as [q' p]. by destruct (pushed p && should_wake p).
    + destruct (demanded r s d); cbn [negb]; [|done].
      unfold queue_run. cbn [fold_left queue_step fst]. destruct (push_frame _ _ _) as [q' p]. by destruct (pushed p && should_wake p).
  - unfold on_stream_end.
    rewrite (fold_queues _ (fun d q => let '(q', wake) := end_stream q s (negb (Nat.eqb d src)) in if wake then signal q' else q')
       (bounds_ r) (delete s (counts_ r)) (worker_count_ r)).
    2:{ intros r0 d0 d' Eb Ec En. rewrite end_stream_at_queue.
        destruct (end_stream_at_rest s src r0 d0) as (H1 & H2 & H3). by rewrite H1, H2, H3. }
    2-4: done. 2: apply NoDup_seq.
    cbn [queues_ set_counts]. destruct (queues_ r !! d) as [q|] eqn:Eq; [|by case_decide].
    rewrite decide_True by (apply elem_of_seq; apply lookup_lt_Some in Eq; unfold worker_count_; cbn; lia).
    cbn [fmap option_fmap option_map]. unfold queue_run. cbn [fold_left queue_step fst].
    destruct (end_stream _ _ _) as [q' wake]. by destruct wake.
  - unfold drain. destruct (queues_ r !! w) as [q|] eqn:Eq.
    + destruct (drain_queue q n) as [q' drained] eqn:Ed. cbn [fst set_queue queues_].
      destruct (Nat.eqb d w) eqn:E; [apply Nat.eqb_eq in E; subst d|apply Nat.eqb_neq in E].
      * rewrite list_lookup_insert_eq by (by eapply lookup_lt_Some). rewrite Eq.
        cbn [fmap option_fmap option_map]. unfold queue_run. cbn [fold_left queue_step fst]. by rewrite Ed.
      * by rewrite list_lookup_insert_ne by done.
    + cbn [fst]. destruct (Nat.eqb d w) eqn:E; [apply Nat.eqb_eq in E; subst d; by rewrite Eq|done].
Qed.

Lemma router_step_bounds r op : bounds_ (router_step r op) = bounds_ r.
Proof.
  destruct op as [w s delta|src s fr v a st k|src s|w n]; cbn [router_step].
  - unfold note_subscription. by destruct (_ <=? _)%nat.
  - unfold forward. destruct (_ <=? _)%nat; [done|]. destruct (_ && _); [done|].
    generalize (seq 0 (worker_count_ r)). intros l. revert r. induction l as [|d l IH]; intros r; cbn; [done|].
    rewrite IH. destruct (Nat.eqb d src); [done|]. apply forward_to_rest.
  - unfold on_stream_end. generalize (seq 0 (worker_count_ (set_counts r (delete s (counts_ r))))). intros l.
    change (bounds_ r) with (bounds_ (set_counts r (delete s (counts_ r)))).
    generalize (set_counts r (delete s (counts_ r))). clear r. 
    induction l as [|d l IH]; intros r; cbn; [done|]. rewrite IH. apply end_stream_at_rest.
  - unfold drain. destruct (queues_ r !! w) as [q|]; [|done]. by destruct (drain_queue q n).
Qed.

Lemma queue_run_app b q ops ops' : queue_run b q (ops ++ ops') = queue_run b (queue_run b q ops) ops'.
Proof. apply fold_left_app. Qed.

Lemma router_run_queue r ops d :
  unsignalled <$> queues_ (router_run r ops) !! d =
  (fun q => unsignalled (queue_run (bounds_ r) q (worker_ops r ops d))) <$> queues_ r !! d.
Proof.
  revert r. induction ops as [|op ops IH]; intros r; cbn [worker_ops router_run fold_left]; [done|].
  unfold router_run in IH. rewrite IH, router_step_bounds.
  pose proof (router_step_queue r op d) as Hs.
  destruct (queues_ (router_step r op) !! d) as [q1|], (queues_ r !! d) as [q|]; try done.
  change (Some (unsignalled q1) = Some (unsignalled (queue_run (bounds_ r) q (queue_ops r op d)))) in Hs.
  apply (inj Some) in Hs. apply (f_equal Some). rewrite queue_run_app. by apply queue_run_unsignalled.
Qed.

(** The operations the hubs make of the router. *)
Definition router_op_ok (op : RouterOp) : Prop :=
  match op with Forward _ _ _ _ _ st k => st = true -> k = false | _ => True end.
Lemma queue_ops_ok r op d : router_op_ok op -> Forall op_ok (queue_ops r op d).
Proof.
  destruct op as [w s delta|src s fr v a st k|src s|w n]; cbn [queue_ops router_op_ok]; intros H.
  - constructor.
  - destruct (_ || _ || _); constructor; [|constructor]. split; [|done]. unfold is_end. cbn. by destruct v, a.
  - by repeat constructor.
  - destruct (Nat.eqb d w); by repeat constructor.
Qed.
Lemma worker_ops_ok r ops d : Forall router_op_ok ops -> Forall op_ok (worker_ops r ops d).
Proof.
  revert r. induction ops as [|op ops IH]; intros r H; cbn; [constructor|]. inversion H; subst.
  apply Forall_app. split; [by apply queue_ops_ok|by apply IH].
Qed.

Lemma make_worker_queue_bounded b fd : bounds_ok b -> bounded_queue b (make_worker_queue fd).
Proof.
  intros [Hf Hb]. split; [done|cbn; lia|]. exists [], []. split_and!; try done; try constructor; try set_solver.
  unfold zlen. cbn. lia.
Qed.
Lemma queue_run_bounded b q ops : bounds_ok b -> Forall op_ok ops -> bounded_queue b q -> bounded_queue b (queue_run b q ops).
Proof.
  intros Hb. revert q. induction ops as [|op ops IH]; intros q Hops Hq; cbn; [done|]. inversion Hops; subst.
  apply IH; [done|]. by apply queue_step_bounded.
Qed.

(** Whatever the workers do, the queue of each stays within its bounds: its counter of
    bytes is the size of what it holds and at most the configured maximum, it holds at most
    the configured number of frames, and beside them only the ends of streams, which come
    first, one for a stream. *)
Theorem router_bounded b fds ops d q :
  bounds_ok b -> Forall router_op_ok ops ->
  queues_ (router_run (make_router b fds) ops) !! d = Some q -> bounded_queue b q.
Proof.
  intros Hb Hops Hq. pose proof (router_run_queue (make_router b fds) ops d) as H. rewrite Hq in H.
  cbn [queues_ make_router bounds_] in H. rewrite list_lookup_fmap in H. destruct (fds !! d) as [fd|]; [|done].
  change (Some (unsignalled q) = Some (unsignalled (queue_run b (make_worker_queue fd) (worker_ops (make_router b fds) ops d)))) in H.
  apply (inj Some) in H.
  assert (Hr : bounded_queue b (queue_run b (make_worker_queue fd) (worker_ops (make_router b fds) ops d))).
  { apply queue_run_bounded; [done|by apply worker_ops_ok|by apply make_worker_queue_bounded]. }
  destruct Hr as [H1 H2 H3]. destruct q as [fs w e n v].
  unfold unsignalled, set_wake_fd in H. cbn in H. injection H as -> -> -> ->. by split.
Qed.

(** Three frames fit; the fourth makes room by dropping the stream's queued frames. *)
Definition some_frame (n : Z) : SharedMediaFrame := mkFrame [z2b n] 9 n.
Definition video (src : nat) (n : Z) (key : bool) : RouterOp := Forward src 5 (some_frame n) true false false key.
Definition crowded : list RouterOp :=
  [NoteSubscription 1 5 1; video 0 1 true; video 0 2 false; video 0 3 false; video 0 4 true].
Definition small_bounds : QueueBounds := mkBounds 3 1000.
Lemma router_bounded_witness :
  let r := router_run (make_router small_bounds [Some 0; Some 0]) crowded in
  exists q, queues_ r !! 1%nat = Some q /\ bounded_queue small_bounds q /\
    map (fun f => frame_timestamp (qf_frame f)) (frames q) = [4] /\ dropped_frames_ r = 3.
Proof.
  intros r. eexists. split; [vm_compute; reflexivity|]. split; [|vm_compute; by split].
  apply (router_bounded small_bounds [Some 0; Some 0] crowded 1%nat).
  - by split.
  - by repeat constructor.
  - vm_compute. reflexivity.
Defined.
