(* ===== verification/CrossWorkerContract.v ===== *)
(** What the router between workers promises its destinations, whichever way the workers
    interleave: a stream that loses frames goes on with a keyframe, and no frame waits in a
    queue whose worker is asleep; and where the code falls short of it. *)

From S2P Require Import Prelude GopCache CrossWorkerRouter.
#[local] Open Scope Z_scope.

(** * Loss *)

(** The media of stream [s]: neither sticky state nor the end of the stream. *)
Definition media_of (s : Z) (f : QueuedFrame) : bool :=
  (qf_stream_id f =? s) && negb (qf_is_sticky f) && negb (bool_decide (qf_kind f = FrameKind.StreamEnd)).

(** Of the media [s] since it last ended: what the queue was offered, and what its worker has
    taken from it. *)
Record Line := mkLine { offered : list QueuedFrame; handed : list QueuedFrame }.
Definition observe (s : Z) (q : PerWorkerQueue) (l : Line) (op : QueueOp) : Line :=
  match op with
  | Push f => if media_of s f then mkLine (offered l ++ [f]) (handed l) else l
  | End s' _ => if s' =? s then mkLine [] [] else l
  | Drain n => mkLine (offered l) (handed l ++ List.filter (media_of s) (drain_queue q n).2)
  end.
Definition step_observed (b : QueueBounds) (s : Z) (ql : PerWorkerQueue * Line) (op : QueueOp)
    : PerWorkerQueue * Line := ((queue_step b ql.1 op).1, observe s ql.1 ql.2 op).
Definition run_observed (b : QueueBounds) (s : Z) (ops : list QueueOp) (ql : PerWorkerQueue * Line)
    : PerWorkerQueue * Line := fold_left (step_observed b s) ops ql.

(** [skips F L lost]: [L] is [F] with frames left out, and after each loss the next one that
    is there is a video keyframe; [lost] says whether the end of [F] is missing. *)
Inductive skips : list QueuedFrame -> list QueuedFrame -> bool -> Prop :=
| skips_nil : skips [] [] false
| skips_take F L lost f :
    skips F L lost -> (lost = true -> is_video_keyframe f = true) -> skips (F ++ [f]) (L ++ [f]) false
| skips_lose F L lost f : skips F L lost -> skips (F ++ [f]) L true.

(** Frames that are lost from the end of what was there. *)
Lemma skips_purge F D Q lost : skips F (D ++ Q) lost -> exists lost', skips F D lost'.
Proof.
  intros H. remember (D ++ Q) as L eqn:E. revert Q E.
  induction H as [|F L lost f H IH Hk|F L lost f H IH]; intros Q E.
  - destruct D; [|done]. eexists. constructor.
  - destruct Q as [|g Q _] using rev_ind.
    + rewrite app_nil_r in E. subst D. eexists. by eapply skips_take.
    + rewrite app_assoc in E. apply app_inj_tail in E as [-> ->].
      destruct (IH Q eq_refl) as [lost' Hl]. eexists. by eapply skips_lose.
  - destruct (IH Q E) as [lost' Hl]. eexists. by eapply skips_lose.
Qed.

(** A sticky frame of [s] that finds the queue full. *)
Definition sticky_overflow (b : QueueBounds) (s : Z) (q : PerWorkerQueue) (op : QueueOp) : bool :=
  match op with
  | Push f => qf_is_sticky f && (qf_stream_id f =? s) && would_overflow b (coalesce q f) (payload_size f)
  | _ => false
  end.
Fixpoint sticky_fits (b : QueueBounds) (s : Z) (q : PerWorkerQueue) (ops : list QueueOp) : bool :=
  match ops with
  | [] => true
  | op :: ops => negb (sticky_overflow b s q op) && sticky_fits b s (queue_step b q op).1 ops
  end.

Definition on_line (s : Z) (q : PerWorkerQueue) (l : Line) : Prop :=
  exists lost, skips (offered l) (handed l ++ List.filter (media_of s) (frames q)) lost /\
    (lost = true -> s ∈ waiting_for_keyframe q).

Lemma filter_keep s p fs : (forall f, media_of s f = true -> p f = false) ->
  List.filter (media_of s) (keep p fs) = List.filter (media_of s) fs.
Proof.
  intros H. unfold keep. induction fs as [|f fs IH]; cbn; [done|].
  destruct (media_of s f) eqn:Em.
  - rewrite (H f Em). cbn. by rewrite Em, IH.
  - destruct (negb (p f)); cbn; [by rewrite Em|done].
Qed.
Lemma filter_gone s p fs : (forall f, media_of s f = true -> p f = true) -> List.filter (media_of s) (keep p fs) = [].
Proof.
  intros H. unfold keep. induction fs as [|f fs IH]; cbn; [done|].
  destruct (negb (p f)) eqn:Ep; cbn; [|done]. destruct (media_of s f) eqn:Em; [|done].
  by rewrite (H f Em) in Ep.
Qed.
Lemma media_stream s f : media_of s f = true -> qf_stream_id f = s /\ qf_is_sticky f = false /\ ~ is_end f.
Proof.
  unfold media_of, is_end. rewrite !andb_true_iff, !negb_true_iff, bool_decide_eq_false, Z.eqb_eq. tauto.
Qed.

Lemma filter_coalesce s q f : List.filter (media_of s) (frames (coalesce q f)) = List.filter (media_of s) (frames q).
Proof.
  unfold coalesce. destruct (qf_is_sticky f); [|done].
  pose proof (erase_from_spec q (same_sticky f)) as H. destruct (erase_from _ _) as [q' n]. destruct H as (Ef & _). cbn.
  rewrite Ef. apply filter_keep. intros g Hg. apply media_stream in Hg as (_ & Hg & _).
  unfold same_sticky. by rewrite Hg, andb_false_r.
Qed.
Lemma filter_purged s q f q' n : (q', n) = erase_from q (same_media f) ->
  List.filter (media_of s) (frames q') =
  if qf_stream_id f =? s then [] else List.filter (media_of s) (frames q).
Proof.
  intros E. pose proof (erase_from_spec q (same_media f)) as H. rewrite <- E in H. destruct H as (Ef & _). rewrite Ef.
  destruct (qf_stream_id f =? s) eqn:Es; [apply filter_gone|apply filter_keep]; intros g Hg;
    apply media_stream in Hg as (Hg & Hs & _); unfold same_media; rewrite Hs, Hg.
  - apply Z.eqb_eq in Es. by rewrite Es, Z.eqb_refl.
  - apply Z.eqb_neq in Es. by rewrite (proj2 (Z.eqb_neq s (qf_stream_id f))) by congruence.
Qed.

Lemma media_end s s' : media_of s (stream_end_frame s') = false.
Proof. unfold media_of. cbn. by rewrite andb_false_r. Qed.

(** The stages of [push_frame] as the line of [s] sees them. *)
Lemma push_on_line b s q l f : frame_ok f -> sticky_overflow b s q (Push f) = false -> on_line s q l ->
  on_line s (push_frame b q f).1 (observe s q l (Push f)).
Proof.
  intros [Hend Hsk] Hfit (lost & Hl & Hw). cbn [observe sticky_overflow] in *.
  assert (Hkey : is_video_keyframe f = true -> qf_is_sticky f = false).
  { unfold is_video_keyframe. intros Hk. destruct (qf_is_sticky f); [|done].
    by rewrite Hsk, andb_false_r in Hk. }
  assert (Hm : media_of s f = (qf_stream_id f =? s) && negb (qf_is_sticky f)).
  { unfold media_of. rewrite bool_decide_eq_false_2 by done. by rewrite andb_true_r. }
  destruct (push_frame_cases b q f) as [Hs Hin Hk| q1 -> Ho Hor | q1 q2 n -> Ho E2 Ho2 Hor | q1 q2 n w -> Ho E2 Hor Hw1 Hw2]; cbn [fst].
  - destruct (media_of s f) eqn:Em; [|by exists lost]. exists true. cbn [offered handed].
    split; [by eapply skips_lose|]. intros _. apply media_stream in Em as [<- _]. done.
  - unfold on_line. cbn [frames waiting_for_keyframe]. rewrite filter_app, filter_coalesce. cbn [List.filter].
    destruct (media_of s f) eqn:Em; cbn [offered handed].
    + apply media_stream in Em as (Es & Est & _). exists false. split; [|done]. rewrite app_assoc.
      eapply skips_take; [done|]. intros ->. rewrite Est, Es in Hor. destruct Hor as [?|[Hn|?] ]; [done| |done]. destruct Hn. by apply Hw.
    + exists lost. rewrite app_nil_r. split; [done|]. intros ->. specialize (Hw eq_refl).
      destruct (is_video_keyframe f) eqn:Hk; [|done]. rewrite Hkey, andb_true_r in Hm by done.
      symmetry in Hm. apply Z.eqb_neq in Hm. set_solver.
  - unfold on_line. cbn [frames waiting_for_keyframe].
    rewrite filter_app, (filter_purged s _ f q2 n E2), filter_coalesce. cbn [List.filter].
    destruct (qf_stream_id f =? s) eqn:Es.
    + rewrite Ho, andb_true_r in Hfit. cbn [andb] in Hfit. rewrite andb_true_r in Hfit. rewrite Hm, Hfit. cbn [andb negb app offered handed].
      apply skips_purge in Hl as [lost' Hl]. exists false. split; [|done]. eapply skips_take; [done|].
      intros _. destruct Hor as [Hor|Hor]; congruence.
    + rewrite Hm. cbn [andb]. rewrite app_nil_r. exists lost. split; [done|]. intros ->. specialize (Hw eq_refl).
      apply Z.eqb_neq in Es. destruct (is_video_keyframe f); set_solver.
  - unfold on_line. cbn [frames waiting_for_keyframe set_waiting].
    rewrite (filter_purged s _ f q2 n E2), filter_coalesce.
    destruct (qf_stream_id f =? s) eqn:Es.
    + rewrite Ho, andb_true_r in Hfit. cbn [andb] in Hfit. rewrite andb_true_r in Hfit. rewrite Hm, Hfit. cbn [andb negb offered handed].
      apply skips_purge in Hl as [lost' Hl]. exists true. rewrite app_nil_r. split; [by eapply skips_lose|].
      intros _. rewrite Hw1 by done. apply Z.eqb_eq in Es. set_solver.
    + rewrite Hm. cbn [andb]. exists lost. split; [done|]. intros ->. specialize (Hw eq_refl). apply Z.eqb_neq in Es.
      destruct (qf_is_sticky f); [rewrite Hw2 by done; destruct (is_video_keyframe f)|rewrite Hw1 by done]; set_solver.
Qed.

Lemma end_on_line s q l s' n : on_line s q l -> on_line s (end_stream q s' n).1 (observe s q l (End s' n)).
Proof.
  intros (lost & Hl & Hw). cbn [observe]. pose proof (end_stream_spec q s' n) as H.
  destruct (end_stream q s' n) as [q' wake]. destruct H as (_ & Ef & Ew & _). unfold on_line. cbn [fst].
  rewrite Ef, Ew, filter_app.
  assert (En : List.filter (media_of s) (if n then [stream_end_frame s'] else []) = []).
  { destruct n; [|done]. cbn [List.filter]. by rewrite media_end. }
  rewrite En. cbn [app]. destruct (s' =? s) eqn:Es.
  - apply Z.eqb_eq in Es as ->. exists false. split; [|done]. cbn. rewrite filter_gone; [constructor|].
    intros f Hf. apply media_stream in Hf as [-> _]. apply Z.eqb_refl.
  - apply Z.eqb_neq in Es. exists lost. rewrite filter_keep; [split; [done|intros ->; specialize (Hw eq_refl); set_solver]|].
    intros f Hf. apply media_stream in Hf as [-> _]. by apply Z.eqb_neq.
Qed.

Lemma drain_on_line s q l n : on_line s q l -> on_line s (drain_queue q n).1 (observe s q l (Drain n)).
Proof.
  intros (lost & Hl & Hw). cbn [observe]. pose proof (drain_queue_spec q n) as H.
  destruct (drain_queue q n) as [q' drained]. destruct H as (Ed & Ef & Ew & _). cbn [fst snd]. exists lost. cbn [offered handed].
  rewrite <- app_assoc, <- filter_app, Ed, Ef, take_drop, Ew. by split.
Qed.

(** Every history of one queue, and so every interleaving of the workers. *)
Lemma run_on_line b s ops q l : Forall op_ok ops -> sticky_fits b s q ops = true -> on_line s q l ->
  let ql := run_observed b s ops (q, l) in on_line s ql.1 ql.2.
Proof.
  revert q l. induction ops as [|op ops IH]; intros q l Hops Hfit H; cbn [run_observed fold_left]; [done|].
  inversion Hops as [|? ? Hop Hops']; subst. cbn [sticky_fits] in Hfit. apply andb_prop in Hfit as [Hfit Hfits].
  apply negb_true_iff in Hfit. apply IH; [done|done|]. destruct op as [f|s' n|n]; cbn [step_observed fst snd queue_step].
  - by apply push_on_line.
  - by apply end_on_line.
  - by apply drain_on_line.
Qed.
Lemma run_observed_queue b s ops ql : (run_observed b s ops ql).1 = queue_run b ql.1 ops.
Proof. revert ql. induction ops as [|op ops IH]; intros ql; [done|]. apply (IH (step_observed b s ql op)). Qed.

(** The line of stream [s] to worker [d] after a run of the router. *)
Definition line_to (b : QueueBounds) (s : Z) (ops : list QueueOp) : Line :=
  (run_observed b s ops (make_worker_queue None, mkLine [] [])).2.

(** C9. The frames of a stream that a worker takes from its queue, followed by those still in
    the queue, are the ones that were forwarded to it, with frames left out; after each loss
    the next frame is a video keyframe, so that no decoder is given a frame that depends on
    one it has not seen; and if the end is missing the stream waits for a keyframe.  That is
    so as long as no sticky frame of the stream finds the queue full. *)
Theorem no_silent_hole b fds ops d s q :
  Forall router_op_ok ops ->
  queues_ (router_run (make_router b fds) ops) !! d = Some q ->
  let qops := worker_ops (make_router b fds) ops d in
  sticky_fits b s (make_worker_queue None) qops = true ->
  let l := line_to b s qops in
  exists lost, skips (offered l) (handed l ++ List.filter (media_of s) (frames q)) lost /\
    (lost = true -> s ∈ waiting_for_keyframe q).
Proof.
  intros Hops Hq qops Hfit l. pose proof (router_run_queue (make_router b fds) ops d) as H. rewrite Hq in H.
  cbn [queues_ make_router bounds_] in H. rewrite list_lookup_fmap in H. destruct (fds !! d) as [fd|]; [|done].
  change (Some (unsignalled q) = Some (unsignalled (queue_run b (make_worker_queue fd) qops))) in H. apply (inj Some) in H.
  rewrite (queue_run_unsignalled b (make_worker_queue fd) (make_worker_queue None) qops eq_refl) in H.
  pose proof (run_on_line b s qops (make_worker_queue None) (mkLine [] []) (worker_ops_ok _ ops d Hops) Hfit) as Hr.
  cbv zeta in Hr. rewrite run_observed_queue in Hr. cbn [fst] in Hr.
  destruct Hr as (lost & Hl & Hw); [exists false; split; [constructor|done]|].
  exists lost. set (q0 := queue_run _ _ _) in *.
  assert (Ef : frames q = frames q0 /\ waiting_for_keyframe q = waiting_for_keyframe q0).
  { destruct q, q0. unfold unsignalled, set_wake_fd in H. cbn in H. injection H as -> -> -> ->. done. }
  destruct Ef as [-> ->]. by split.
Qed.

(** Of six frames the queue takes three, drops them for a fourth it cannot do without its
    predecessors, and goes on with the keyframe. *)
Definition lossy : list RouterOp :=
  [NoteSubscription 1 5 1; video 0 1 true; video 0 2 false; video 0 3 false; video 0 4 false;
   video 0 5 false; video 0 6 true; DrainFor 1 10; video 0 7 false].
Lemma no_silent_hole_witness :
  let qops := worker_ops (make_router small_bounds [Some 0; Some 0]) lossy 1 in
  let l := line_to small_bounds 5 qops in
  map (fun f => frame_timestamp (qf_frame f)) (offered l) = [1; 2; 3; 4; 5; 6; 7] /\
  map (fun f => frame_timestamp (qf_frame f)) (handed l) = [6] /\
  exists q lost, queues_ (router_run (make_router small_bounds [Some 0; Some 0]) lossy) !! 1%nat = Some q /\
    skips (offered l) (handed l ++ List.filter (media_of 5) (frames q)) lost /\
    (lost = true -> 5 ∈ waiting_for_keyframe q).
Proof.
  intros qops l. split; [vm_compute; reflexivity|]. split; [vm_compute; reflexivity|].
  edestruct (no_silent_hole small_bounds [Some 0; Some 0] lossy 1%nat 5) as (lost & H);
    [by repeat constructor|vm_compute; reflexivity|vm_compute; reflexivity|].
  eexists _, lost. split; [vm_compute; reflexivity|exact H].
Defined.

(** ** Where a stream goes on with a hole in it *)

Definition times (fs : list QueuedFrame) : list Z := map (fun f => frame_timestamp (qf_frame f)) fs.
Definition header (n : Z) : RouterOp := Forward 0 5 (some_frame n) true false true false.
Definition two_workers (b : QueueBounds) (ops : list RouterOp) : Router := router_run (make_router b [Some 0; Some 0]) ops.

(** A sticky frame that finds the queue full drops the frames of its stream and takes their
    place; [waiting_for_keyframe] is not set, and the next frame goes on without them. *)
Lemma sticky_overflow_leaves_a_hole :
  let b := mkBounds 2 1000 in
  let ops := [NoteSubscription 1 5 1; video 0 1 true; video 0 2 false; header 3; video 0 4 false] in
  let l := line_to b 5 (worker_ops (make_router b [Some 0; Some 0]) ops 1) in
  times (offered l) = [1; 2; 4] /\
  exists q, queues_ (two_workers b ops) !! 1%nat = Some q /\ times (frames q) = [3; 4] /\
    map is_video_keyframe (frames q) = [false; false] /\ waiting_for_keyframe q = ∅.
Proof.
  split; [vm_compute; reflexivity|]. eexists. split; [vm_compute; reflexivity|].
  split; [vm_compute; reflexivity|]. split; [vm_compute; reflexivity|]. by apply (bool_decide_eq_true_1 _).
Qed.

(** A worker whose last viewer leaves is not sent the stream; when a viewer comes again it is
    sent on from the middle, and nothing waits for a keyframe. *)
Lemma unwatched_frames_leave_a_hole :
  let ops := [NoteSubscription 1 5 1; video 0 1 true; NoteSubscription 1 5 (-1); video 0 2 false;
              NoteSubscription 1 5 1; video 0 3 false] in
  exists q, queues_ (two_workers default_bounds ops) !! 1%nat = Some q /\ times (frames q) = [1; 3] /\
    waiting_for_keyframe q = ∅.
Proof.
  eexists. split; [vm_compute; reflexivity|]. split; [vm_compute; reflexivity|]. by apply (bool_decide_eq_true_1 _).
Qed.

(** Making room drops the end of the stream's last publication with the frames of the new one:
    the worker's viewers are not told, and its hub keeps the old state. *)
Lemma overflow_drops_a_stream_end :
  let b := mkBounds 2 1000 in
  let ops := [OnStreamEnd 0 5; NoteSubscription 1 5 1; video 0 1 true; video 0 2 false] in
  exists q, queues_ (two_workers b ops) !! 1%nat = Some q /\ frames q = [] /\ 5 ∈ queued_stream_ends q.
Proof.
  eexists. split; [vm_compute; reflexivity|]. split; [vm_compute; reflexivity|]. by apply (bool_decide_eq_true_1 _).
Qed.

(** A new sequence header takes the place of one that is still queued, behind the frames that
    were encoded with the old one. *)
Lemma header_overtaken_by_its_frames :
  let ops := [NoteSubscription 1 5 1; header 1; video 0 2 true; video 0 3 false; header 4] in
  exists q, queues_ (two_workers default_bounds ops) !! 1%nat = Some q /\ times (frames q) = [2; 3; 4].
Proof. eexists. split; vm_compute; reflexivity. Qed.

(** A stream without video that once found the queue full waits for a keyframe that never
    comes: whatever it sends from then on is dropped. *)
Lemma audio_stays_gated b q s fs : s ∈ waiting_for_keyframe q ->
  (forall f, f ∈ fs -> qf_stream_id f = s /\ qf_is_sticky f = false /\ qf_kind f = FrameKind.Audio) ->
  queue_run b q (map Push fs) = q.
Proof.
  intros Hs. induction fs as [|f fs IH]; intros H; [done|]. unfold queue_run in *. cbn [map fold_left queue_step fst].
  destruct (H f ltac:(set_solver)) as (Es & Est & Ek).
  assert (Ep : (push_frame b q f).1 = q).
  { unfold push_frame, coalesce. rewrite Est, Es, bool_decide_eq_true_2 by done.
    unfold is_video_keyframe. by rewrite Ek. }
  rewrite Ep. apply IH. intros g Hg. apply H. set_solver.
Qed.

(** * Waking *)

(** [drain_router_frames] takes this many frames at a time. *)
Definition frames_per_wakeup : nat := 1024.

(** A queue with the writes to its eventfd that are on their way, and whether its worker has
    read the eventfd and not yet drained ([handle_wakeup_completion]). *)
Record Waking := mkWaking { waking_queue : PerWorkerQueue; pending_writes : nat; reading : bool }.

(** What brings the frames to the worker: writes arrive, its poll completes, it drains. *)
Inductive worker_step : Waking -> Waking -> Prop :=
| write_arrives q n rd : worker_step (mkWaking q (S n) rd) (mkWaking (signal q) n rd)
| poll_completes q n wakes : wake_fd q = Some wakes -> 0 < wakes ->
    worker_step (mkWaking q n false) (mkWaking (discard_wakes q) n true)
| worker_drains q n :
    worker_step (mkWaking q n true) (mkWaking (drain_queue q frames_per_wakeup).1 n false).

(** What others do: [forward], [on_stream_end] and [stop]. *)
Inductive others_step (b : QueueBounds) : Waking -> Waking -> Prop :=
| frame_comes q n rd f q' p : push_frame b q f = (q', p) ->
    others_step b (mkWaking q n rd) (mkWaking q' (if pushed p && should_wake p then S n else n) rd)
| stream_ends q n rd s notify q' wake : end_stream q s notify = (q', wake) ->
    others_step b (mkWaking q n rd) (mkWaking q' (if wake then S n else n) rd)
| loop_stops q n rd : others_step b (mkWaking q n rd) (mkWaking (signal q) n rd).
Definition waking_step (b : QueueBounds) (m m' : Waking) : Prop := worker_step m m' \/ others_step b m m'.
Definition asleep : Waking := mkWaking (make_worker_queue (Some 0)) 0 false.

(** Something is on its way to the worker. *)
Definition awaited (m : Waking) : Prop :=
  exists wakes, wake_fd (waking_queue m) = Some wakes /\ 0 <= wakes /\
    (frames (waking_queue m) <> [] -> 0 < wakes \/ pending_writes m <> 0%nat \/ reading m = true).

Lemma push_wakes b q f q' p : push_frame b q f = (q', p) -> wake_fd q' = wake_fd q /\
  (frames q' <> [] -> frames q <> [] \/ pushed p && should_wake p = true).
Proof.
  intros E. pose proof (push_frame_cases b q f) as H. rewrite E in H. destruct (coalesce_fields q f) as (_ & _ & Ew).
  assert (Hc : frames (coalesce q f) <> [] -> frames q <> []).
  { unfold coalesce. destruct (qf_is_sticky f); [|done]. pose proof (erase_from_spec q (same_sticky f)) as He.
    destruct (erase_from _ _). destruct He as (Ef & _). cbn. rewrite Ef. intros Hn Hq. apply Hn. by rewrite Hq. }
  inversion H as [| q1 -> Ho Hor | q1 q2 n -> Ho E2 Ho2 Hor | q1 q2 n w -> Ho E2 Hor Hw1 Hw2]; subst; cbn [wake_fd frames set_waiting pushed should_wake].
  - split; [done|by left].
  - split; [done|]. intros _. destruct (frames (coalesce q f)) eqn:Ef; [by right|left; by apply Hc].
  - pose proof (erase_from_spec (coalesce q f) (same_media f)) as He. rewrite <- E2 in He.
    destruct He as (Ef & _ & _ & _ & Ev & _). split; [congruence|]. intros _.
    destruct (frames q2) eqn:Eq2; [by right|left]. apply Hc. intros Hn. rewrite Hn in Ef. done.
  - pose proof (erase_from_spec (coalesce q f) (same_media f)) as He. rewrite <- E2 in He.
    destruct He as (Ef & _ & _ & _ & Ev & _). split; [congruence|]. intros Hn. left. apply Hc. intros Hc0.
    rewrite Hc0 in Ef. done.
Qed.

Lemma awaited_step b m m' : awaited m -> waking_step b m m' -> awaited m'.
Proof.
  intros (wakes & Ew & Hw & Hf) [H|H].
  - destruct H as [q n rd|q n wakes' E Hp|q n]; cbn in *.
    + exists (Z.min (wakes + 1) (2 ^ 64 - 2)). unfold signal. cbn. rewrite Ew. cbn. split; [done|]. lia.
    + exists 0. unfold discard_wakes. cbn. rewrite Ew. cbn. split_and!; [done|lia|]. intros _. by do 2 right.
    + pose proof (drain_queue_spec q frames_per_wakeup) as Hd. destruct (drain_queue _ _) as [q' drained].
      destruct Hd as (_ & Ef & _ & Ev & _). unfold awaited. cbn [fst waking_queue pending_writes reading].
      rewrite Ef, Ev. destruct (drop _ _).
      * exists wakes. by split_and!.
      * exists (Z.min (wakes + 1) (2 ^ 64 - 2)). unfold signal. cbn. rewrite Ew. split; [done|]. lia.
  - destruct H as [q n rd f q' p E|q n rd s notify q' wake E|q n rd]; cbn in *.
    + destruct (push_wakes b q f q' p E) as [Ev Hn]. exists wakes. cbn. split_and!; [congruence|done|].
      intros Hne. destruct (Hn Hne) as [Hq|Hp].
      * destruct (Hf Hq) as [?|[?|?] ]; [by left| |by do 2 right]. right. left. by destruct (_ && _).
      * rewrite Hp. right. by left.
    + pose proof (end_stream_spec q s notify) as He. rewrite E in He. destruct He as (-> & Ef & _ & _ & Ev & _).
      exists wakes. cbn. split_and!; [congruence|done|]. intros Hne. destruct notify; [right; by left|].
      apply Hf. intros Hq. rewrite Hq in Ef. done.
    + exists (Z.min (wakes + 1) (2 ^ 64 - 2)). unfold signal. cbn. rewrite Ew. cbn. split; [done|]. lia.
Qed.

Lemma awaited_worker_steps m m' : rtc worker_step m m' -> awaited m -> awaited m'.
Proof. induction 1; [done|]. intros Hm. apply IHrtc. eapply (awaited_step default_bounds); [done|by left]. Qed.

(** A worker that is awaited gets to the point where it has read its eventfd. *)
Lemma awaited_reads m : awaited m -> frames (waking_queue m) <> [] ->
  exists q n, rtc worker_step m (mkWaking q n true) /\ frames q = frames (waking_queue m).
Proof.
  intros (wakes & Ew & Hw & Hf) Hne. destruct m as [q n rd]. cbn in *.
  destruct rd; [by exists q, n|]. destruct (Hf Hne) as [Hp|[Hp|?] ]; [| |done].
  - exists (discard_wakes q), n. split; [apply rtc_once; by eapply poll_completes|done].
  - destruct n as [|n]; [done|]. exists (discard_wakes (signal q)), n. split; [|done].
    eapply rtc_l; [apply write_arrives|]. apply rtc_once. eapply poll_completes; [cbn; by rewrite Ew|]. lia.
Qed.

Lemma awaited_drains m : awaited m -> exists m', rtc worker_step m m' /\ frames (waking_queue m') = [].
Proof.
  remember (length (frames (waking_queue m))) as k eqn:Ek. revert m Ek.
  induction (lt_wf k) as [k _ IH]. intros m Ek Hm.
  destruct (decide (frames (waking_queue m) = [])) as [E|Hne]; [by exists m|].
  destruct (awaited_reads m Hm Hne) as (q & n & Hsteps & Eq).
  set (m1 := mkWaking (drain_queue q frames_per_wakeup).1 n false).
  assert (Hm1 : rtc worker_step m m1) by (eapply rtc_r; [exact Hsteps|apply worker_drains]).
  assert (El : frames (waking_queue m1) = drop frames_per_wakeup (frames (waking_queue m))).
  { subst m1. cbn. pose proof (drain_queue_spec q frames_per_wakeup) as Hd. destruct (drain_queue _ _).
    destruct Hd as (_ & Ef & _). cbn. by rewrite Ef, Eq. }
  destruct (IH (length (frames (waking_queue m1)))) with (m := m1) as (m' & Hm' & E'); [|done| |].
  - rewrite El, length_drop. subst k. destruct (frames (waking_queue m)); [done|].
    assert (0 < frames_per_wakeup)%nat by (apply Nat.ltb_lt; vm_compute; reflexivity). cbn [length]. lia.
  - by eapply awaited_worker_steps.
  - exists m'. split; [by etransitivity|done].
Qed.

(** C10. No wake-up is lost: however the workers interleave, and although [forward] writes to
    the eventfd after it has released the queue, whenever there is a frame in the queue its
    worker is on its way: the eventfd is readable, or a write to it is pending, or the worker
    has read it and is about to drain.  From every reachable state those steps alone bring
    all frames to the worker. *)
Theorem queued_frames_arrive b m : rtc (waking_step b) asleep m ->
  awaited m /\ exists m', rtc worker_step m m' /\ frames (waking_queue m') = [].
Proof.
  intros Hm. assert (Ha : awaited m).
  { assert (H0 : awaited asleep) by (exists 0; cbn; split_and!; [done|lia|done]).
    revert H0. induction Hm as [|x y z Hxy _ IH]; [done|]. intros Hx. apply IH. by eapply awaited_step. }
  split; [done|]. by apply awaited_drains.
Qed.

(** A frame is in the queue, and the write that tells its worker is pending. *)
Definition waiting_frame : QueuedFrame := mkQueuedFrame 5 (some_frame 1) FrameKind.Video false true.
Definition in_flight : Waking :=
  mkWaking (push_frame small_bounds (make_worker_queue (Some 0)) waiting_frame).1 1 false.
Lemma queued_frames_arrive_witness :
  frames (waking_queue in_flight) <> [] /\ awaited in_flight /\
  exists m', rtc worker_step in_flight m' /\ frames (waking_queue m') = [].
Proof.
  split; [vm_compute; discriminate|]. apply (queued_frames_arrive small_bounds).
  apply rtc_once. right.
  refine (frame_comes small_bounds (make_worker_queue (Some 0)) 0 false waiting_frame
            (push_frame small_bounds (make_worker_queue (Some 0)) waiting_frame).1 (mkPushed true true 0) _).
  vm_compute. reflexivity.
Defined.
