(* ===== verification/CrossWorkerHub.v ===== *)
(** The hubs of all workers, joined by the router (io/io_uring/event_loop.cpp, its hooks and
    [drain_router_frames]).

    A stream is published on one worker, whose hub forwards what it is given; another worker
    takes it from its queue and gives it to its own hub as replayed.  The theorem is that the
    hubs agree on the start-up headers of the stream: what a viewer is sent before anything
    else does not depend on the worker it came to. *)

From S2P Require Import Prelude ViewerQueue GopCache LiveFanout CrossWorkerRouter CrossWorkerContract.
#[local] Open Scope Z_scope.

(** * The joints *)

(** The call of the hub a queued frame becomes. *)
Definition replayed {Sink} (f : QueuedFrame) : @FanoutOp Sink :=
  match qf_kind f with
  | FrameKind.Video => LiveFanout.Video (qf_stream_id f) (qf_frame f) true
  | FrameKind.Audio => LiveFanout.Audio (qf_stream_id f) (qf_frame f) true
  | FrameKind.Metadata => LiveFanout.Metadata (qf_stream_id f) (qf_frame f) true
  | FrameKind.StreamEnd => PublisherStopped (qf_stream_id f) true
  end.

(** The hooks the loop installs on its hub. *)
Definition run_hook (worker : nat) (r : Router) (e : FanoutEvent) : Router :=
  match e with
  | LiveFanout.Forward s f v a st k => forward r worker s f v a st k
  | Subscription s delta => note_subscription r worker s delta
  | LiveFanout.StreamEnd s => on_stream_end r worker s
  | Metric _ _ => r
  end.
Definition run_hooks (worker : nat) (r : Router) (evs : list FanoutEvent) : Router :=
  fold_left (run_hook worker) evs r.

Section Workers.
Context {Sink W : Type} `{EqDecision Sink} (invoke : Sink -> SinkCall -> W -> W * bool).

Record Workers := mkWorkers { hubs_ : list (@LiveFanout Sink); router_ : Router; world_ : W }.

(** A call of a hub with the hooks it fires. *)
Definition hub_call (sys : Workers) (worker : nat) (op : FanoutOp) : Workers :=
  match hubs_ sys !! worker with
  | None => sys
  | Some fo =>
      let '(w, fo, evs) := fanout_step invoke fo op (world_ sys) in
      mkWorkers (<[worker := fo]> (hubs_ sys)) (run_hooks worker (router_ sys) evs) w
  end.

Definition drain_router_frames (sys : Workers) (worker : nat) : Workers :=
  let '(r, drained) := drain (router_ sys) worker frames_per_wakeup in
  fold_left (fun sys f => hub_call sys worker (replayed f)) drained
    (mkWorkers (hubs_ sys) r (world_ sys)).

(** What the sessions of a worker ask of its hub, and its wake-ups. *)
Inductive WorkersOp := Call (worker : nat) (op : @FanoutOp Sink) | Wakeup (worker : nat).
Definition workers_step (sys : Workers) (op : WorkersOp) : Workers :=
  match op with
  | Call worker op => hub_call sys worker op
  | Wakeup worker => drain_router_frames sys worker
  end.
Definition workers_run (sys : Workers) (ops : list WorkersOp) : Workers := fold_left workers_step ops sys.

(** * Headers *)

Definition Headers : Type := option SharedMediaFrame * option SharedMediaFrame * option SharedMediaFrame.
Definition headers (fo : @LiveFanout Sink) (s : Z) : Headers :=
  (s_metadata (stream_for fo s), s_video_sequence_header (stream_for fo s),
   s_audio_sequence_header (stream_for fo s)).

(** What a queued frame makes of the headers of stream [s]. *)
Definition sees (s : Z) (h : Headers) (f : QueuedFrame) : Headers :=
  if negb (qf_stream_id f =? s) then h else
  let '(m, v, a) := h in
  match qf_kind f with
  | FrameKind.Metadata => (Some (qf_frame f), v, a)
  | FrameKind.Video => (m, if classify_is_video_sequence_header (qf_frame f) then Some (qf_frame f) else v, a)
  | FrameKind.Audio => (m, v, if classify_is_audio_sequence_header (qf_frame f) then Some (qf_frame f) else a)
  | FrameKind.StreamEnd => (None, None, None)
  end.
Definition see_all (s : Z) (h : Headers) (fs : list QueuedFrame) : Headers := fold_left (sees s) fs h.

(** What a hub forwards of a call. *)
Definition forwarded (op : @FanoutOp Sink) : option QueuedFrame :=
  match op with
  | LiveFanout.Video s f false =>
      let sticky := classify_is_video_sequence_header f in
      Some (mkQueuedFrame s f FrameKind.Video sticky (negb sticky && classify_is_video_keyframe f))
  | LiveFanout.Audio s f false =>
      Some (mkQueuedFrame s f FrameKind.Audio (classify_is_audio_sequence_header f) false)
  | LiveFanout.Metadata s f false => Some (mkQueuedFrame s f FrameKind.Metadata true false)
  | _ => None
  end.
(** What it does to the headers, replayed or not. *)
Definition effect (op : @FanoutOp Sink) : option QueuedFrame :=
  match op with
  | LiveFanout.Video s f _ => Some (mkQueuedFrame s f FrameKind.Video false false)
  | LiveFanout.Audio s f _ => Some (mkQueuedFrame s f FrameKind.Audio false false)
  | LiveFanout.Metadata s f _ => Some (mkQueuedFrame s f FrameKind.Metadata false false)
  | PublisherStopped s _ => Some (stream_end_frame s)
  | _ => None
  end.

(** ** The hub *)

Lemma headers_put fo id st s :
  headers (put_stream fo id st) s =
  if decide (s = id) then (s_metadata st, s_video_sequence_header st, s_audio_sequence_header st) else headers fo s.
Proof. unfold headers. rewrite stream_for_put. by case_decide. Qed.

Lemma headers_dispatch fo id st f v a k sticky r w s :
  let '(_, fo', _) := dispatch_frame invoke fo id st f v a k sticky r w in
  headers fo' s = if decide (s = id) then (s_metadata st, s_video_sequence_header st, s_audio_sequence_header st)
                  else headers fo s.
Proof.
  pose proof (dispatch_frame_startup invoke fo id st f v a k sticky r w) as H.
  destruct (dispatch_frame _ _ _ _ _ _ _ _ _ _ _) as [ [w' fo'] evs]. destruct H as (st' & -> & E).
  rewrite headers_put. unfold startup_state in E. injection E as -> -> -> _. done.
Qed.

Lemma headers_stopped fo id r w s :
  let '(_, fo', _) := publisher_stopped invoke fo id r w in
  headers fo' s = if decide (s = id) then (None, None, None) else headers fo s.
Proof.
  unfold publisher_stopped. destruct (f_streams fo !! id) as [st|] eqn:E.
  - unfold headers, stream_for. cbn [f_streams f_gop_limits]. case_decide as Es.
    + subst. by rewrite lookup_delete_eq.
    + by rewrite lookup_delete_ne by done.
  - unfold headers, stream_for. case_decide as Es; [|done]. subst. by rewrite E.
Qed.

Ltac dispatched fo id f r w s :=
  match goal with |- context [dispatch_frame _ _ _ ?st f ?v ?a ?k ?sk r w] =>
    let H := fresh in
    pose proof (headers_dispatch fo id st f v a k sk r w s) as H;
    destruct (dispatch_frame _ _ _ st f v a k sk r w) as [ [? ?] ?]; rewrite H; clear H
  end.
Ltac by_stream id s :=
  destruct (decide (s = id)) as [->|?];
  [by rewrite Z.eqb_refl|by rewrite (proj2 (Z.eqb_neq id s)) by congruence].

Lemma headers_step fo op w s :
  let '(_, fo', _) := fanout_step invoke fo op w in
  headers fo' s = match effect op with Some f => sees s (headers fo s) f | None => headers fo s end.
Proof.
  destruct op as [id f r|id f r|id f r|id sub sink ip|id sub|id r]; cbn [fanout_step effect].
  - unfold on_video. destruct (classify_is_video_sequence_header f) eqn:Ef; dispatched fo id f r w s.
    all: unfold sees; cbn [qf_stream_id qf_kind qf_frame]; rewrite Ef; by_stream id s.
  - unfold on_audio. destruct (classify_is_audio_sequence_header f) eqn:Ef; dispatched fo id f r w s.
    all: unfold sees; cbn [qf_stream_id qf_kind qf_frame]; rewrite Ef; by_stream id s.
  - unfold on_metadata. dispatched fo id f r w s. unfold sees. cbn [qf_stream_id qf_kind qf_frame]. by_stream id s.
  - unfold subscribe. destruct (replay _ _ _ _) as [w' bytes].
    match goal with |- context [add_egress ?st bytes] =>
      pose proof (add_egress_startup st bytes) as He; destruct (add_egress st bytes) as [st' evs] end.
    unfold startup_state in He. cbn [fst] in He. injection He as E1 E2 E3 _. rewrite headers_put, E1, E2, E3.
    case_decide; [by subst|done].
  - unfold unsubscribe. destruct (f_streams fo !! id) as [st|] eqn:E; [|done].
    destruct (subscribers st !! sub); [|done]. rewrite headers_put. case_decide; [subst|done].
    unfold headers, stream_for. by rewrite E.
  - pose proof (headers_stopped fo id r w s) as H. destruct (publisher_stopped _ _ _ _ _) as [ [w' fo'] evs]. rewrite H.
    unfold sees. cbn. destruct (headers fo s) as [ [m v] a]. by_stream id s.
Qed.

(** ** The hooks *)

Definition quiet (e : FanoutEvent) : Prop := match e with Metric _ _ | Subscription _ _ => True | _ => False end.
Definition forward_op (worker : nat) (f : QueuedFrame) : RouterOp :=
  Forward worker (qf_stream_id f) (qf_frame f) (bool_decide (qf_kind f = FrameKind.Video))
    (bool_decide (qf_kind f = FrameKind.Audio)) (qf_is_sticky f) (qf_is_keyframe f).
(** What the router hears of a call. *)
Definition announced (fo : @LiveFanout Sink) (worker : nat) (op : @FanoutOp Sink) : list RouterOp :=
  match forwarded op with
  | Some f => [forward_op worker f]
  | None =>
      match op with
      | PublisherStopped s false => match f_streams fo !! s with Some _ => [OnStreamEnd worker s] | None => [] end
      | _ => []
      end
  end.

Ltac quiet_list := repeat (apply List.Forall_cons; [exact I|]); apply List.Forall_nil.
Lemma quiet_app l l' : Forall quiet l -> Forall quiet l' -> Forall quiet (l ++ l').
Proof. intros. by apply Forall_app. Qed.

Lemma dispatch_loop_quiet st id f v a k todo table : Forall quiet (dispatch_loop (Sink := Sink) st id f v a k todo table).2.
Proof.
  revert table. induction todo as [|[sid sub] todo IH]; intros table; cbn [dispatch_loop]; [constructor|].
  destruct (dispatch_one st id f v a k sid sub) as [ [kept delivery] ev] eqn:E.
  assert (Hev : Forall quiet ev).
  { unfold dispatch_one in E. destruct (offer _ _ _ _ _) as [q decision].
    destruct decision, v, a; injection E as _ _ <-; by repeat constructor. }
  specialize (IH (match kept with Some sub => <[sid := sub]> table | None => delete sid table end)).
  destruct (dispatch_loop _ _ _ _ _ _ _ _) as [ [table' ds] evs]. cbn in *. by apply quiet_app.
Qed.

Lemma fold_results_quiet m results table : Forall quiet (fold_results (Sink := Sink) m results table).2.
Proof.
  revert table. induction results as [|[dl ok] results IH]; intros table; cbn [fold_results]; [constructor|].
  destruct (is_evict _); [done|]. destruct (table !! _) as [sub|]; [|done]. destruct (negb _); [done|].
  destruct ok; [done|]. destruct (m <? _);
    match goal with |- context [fold_results m results ?t] => specialize (IH t); destruct (fold_results m results t) as [ [table' sinks] evs] end;
    cbn in *; (apply quiet_app; [destruct (pd_kind dl); quiet_list|done]).
Qed.

Lemma evict_all_quiet id sinks w : Forall quiet (evict_all invoke id sinks w).2.
Proof.
  revert w. induction sinks as [|sink sinks IH]; intros w; cbn [evict_all]; [constructor|].
  destruct (invoke _ _ _) as [w1 ok]. specialize (IH w1). destruct (evict_all _ _ _ _) as [w2 evs]. cbn in *.
  by repeat constructor.
Qed.

Lemma add_egress_quiet (st : StreamState) n : Forall quiet (add_egress (Sink := Sink) st n).2.
Proof. unfold add_egress. destruct (0 <? n); by repeat constructor. Qed.

Lemma dispatch_frame_events fo id st f v a k sticky r w :
  let '(_, _, evs) := dispatch_frame invoke fo id st f v a k sticky r w in
  exists q, Forall quiet q /\ evs = q ++ (if r then [] else [LiveFanout.Forward id f v a sticky k]).
Proof.
  unfold dispatch_frame, dispatch_locked.
  pose proof (dispatch_loop_quiet st id f v a k (map_to_list (subscribers st)) (subscribers st)) as H1.
  destruct (dispatch_loop _ _ _ _ _ _ _ _) as [ [table ds] ev1]. unfold run_deliveries.
  destruct (deliver_all invoke f ds w) as [w1 [bytes results] ].
  match goal with |- context [fold_results ?m results ?t] =>
    pose proof (fold_results_quiet m results t) as H2; destruct (fold_results m results t) as [ [table' sinks] ev2] end.
  pose proof (evict_all_quiet id sinks w1) as H3. destruct (evict_all _ id sinks w1) as [w2 ev3].
  match goal with |- context [add_egress ?s0 bytes] =>
    pose proof (add_egress_quiet s0 bytes) as H4; destruct (add_egress s0 bytes) as [s' ev4] end.
  cbn in *. exists (ev1 ++ ev2 ++ ev3 ++ ev4). split; [by repeat apply quiet_app|]. by rewrite !app_assoc.
Qed.

Definition hook_op (worker : nat) (e : FanoutEvent) : list RouterOp :=
  match e with
  | LiveFanout.Forward s f v a st k => [Forward worker s f v a st k]
  | Subscription s delta => [NoteSubscription worker s delta]
  | LiveFanout.StreamEnd s => [OnStreamEnd worker s]
  | Metric _ _ => []
  end.
Lemma run_hooks_ops worker r evs : run_hooks worker r evs = router_run r (concat (map (hook_op worker) evs)).
Proof.
  revert r. induction evs as [|e evs IH]; intros r; [done|]. unfold router_run in *. cbn [map concat].
  rewrite fold_left_app, <- IH. by destruct e.
Qed.

Ltac framed fo id f r w Hsplit :=
  match goal with |- context [dispatch_frame _ _ _ ?st f ?v ?a ?k ?sk r w] =>
    let He := fresh in let q := fresh "q" in let Hq := fresh in
    pose proof (dispatch_frame_events fo id st f v a k sk r w) as He;
    destruct (dispatch_frame _ _ _ st f v a k sk r w) as [ [? ?] ?];
    destruct He as (q & Hq & ->); exists q; (split; [exact Hq|]); rewrite Hsplit; f_equal
  end.

Lemma fanout_step_events fo worker op w :
  let '(_, _, evs) := fanout_step invoke fo op w in
  exists q, Forall quiet q /\ concat (map (hook_op worker) evs) = concat (map (hook_op worker) q) ++ announced fo worker op.
Proof.
  assert (Hsplit : forall q l, concat (map (hook_op worker) (q ++ l)) =
            concat (map (hook_op worker) q) ++ concat (map (hook_op worker) l)) by (intros; by rewrite map_app, concat_app).
  destruct op as [id f r|id f r|id f r|id sub sink ip|id sub|id r]; cbn [fanout_step].
  - unfold on_video. destruct (classify_is_video_sequence_header f) eqn:Ef; framed fo id f r w Hsplit;
      destruct r; unfold announced, forwarded, forward_op; rewrite ?Ef; done.
  - unfold on_audio. destruct (classify_is_audio_sequence_header f) eqn:Ef; framed fo id f r w Hsplit;
      destruct r; unfold announced, forwarded, forward_op; rewrite ?Ef; done.
  - unfold on_metadata. framed fo id f r w Hsplit. by destruct r.
  - unfold subscribe. destruct (replay _ _ _ _) as [w' bytes].
    match goal with |- context [add_egress ?st bytes] =>
      pose proof (add_egress_quiet st bytes) as He; destruct (add_egress st bytes) as [st' evs] end.
    exists (evs ++ [Metric ActiveViewers 1; Subscription id 1]). cbn [announced forwarded]. rewrite app_nil_r.
    split; [|done]. apply quiet_app; [done|by repeat constructor].
  - unfold unsubscribe. destruct (f_streams fo !! id) as [st|]; [|by exists []].
    destruct (subscribers st !! sub); [|by exists []]. eexists. rewrite app_nil_r. split; [|done]. by repeat constructor.
  - unfold publisher_stopped, announced. cbn [forwarded]. destruct (f_streams fo !! id) as [st|] eqn:E.
    + set (n := zlen _). exists ([Metric PublisherDisconnects 1] ++ (if 0 <? n then [Metric ActiveViewers (- n); Metric ViewerDisconnects n] else [])).
      split; [destruct (0 <? n); by repeat constructor|]. rewrite app_assoc, Hsplit. f_equal. by destruct r.
    + exists []. split; [constructor|]. by destruct r.
Qed.

Lemma quiet_hooks worker r q : Forall quiet q ->
  let r' := router_run r (concat (map (hook_op worker) q)) in
  bounds_ r' = bounds_ r /\ queues_ r' = queues_ r.
Proof.
  revert r. induction q as [|e q IH]; intros r H; [done|]. inversion H as [|? ? He Hq]; subst.
  cbn [map concat]. unfold router_run in *. rewrite fold_left_app.
  destruct e; try done; cbn [hook_op fold_left router_step]; [by apply IH|].
  destruct (IH (note_subscription r worker stream_id delta) Hq) as [-> ->].
  unfold note_subscription. by destruct (_ <=? _)%nat.
Qed.

(** A call of a hub: its own headers, and what the router hears after changes to its counters. *)
Lemma hub_call_spec sys worker op fo : hubs_ sys !! worker = Some fo ->
  exists fo' r1, hubs_ (hub_call sys worker op) = <[worker := fo']> (hubs_ sys) /\
    (forall s, headers fo' s = match effect op with Some f => sees s (headers fo s) f | None => headers fo s end) /\
    bounds_ r1 = bounds_ (router_ sys) /\ queues_ r1 = queues_ (router_ sys) /\
    router_ (hub_call sys worker op) = router_run r1 (announced fo worker op).
Proof.
  intros E. unfold hub_call. rewrite E.
  pose proof (fun s => headers_step fo op (world_ sys) s) as Hh.
  pose proof (fanout_step_events fo worker op (world_ sys)) as He.
  destruct (fanout_step _ _ _ _) as [ [w' fo'] evs]. destruct He as (q & Hq & Ec).
  exists fo', (router_run (router_ sys) (concat (map (hook_op worker) q))).
  destruct (quiet_hooks worker (router_ sys) q Hq) as [Hb Hqu]. split_and!; try done.
  cbn [router_]. rewrite run_hooks_ops, Ec. unfold router_run. by rewrite fold_left_app.
Qed.

(** ** The queue between two hubs *)

(** A frame as a hub forwards it: sticky exactly when it is one of the headers. *)
Definition typed_frame (f : QueuedFrame) : Prop :=
  match qf_kind f with
  | FrameKind.Metadata => qf_is_sticky f = true
  | FrameKind.Video => qf_is_sticky f = classify_is_video_sequence_header (qf_frame f)
  | FrameKind.Audio => qf_is_sticky f = classify_is_audio_sequence_header (qf_frame f)
  | FrameKind.StreamEnd => False
  end.
Lemma forwarded_typed op f : forwarded op = Some f -> typed_frame f.
Proof. destruct op as [id g []|id g []|id g []|id sub sink ip|id sub|id r]; by intros [= <-]. Qed.

(** The same but for the header frames of kind [k] set. *)
Definition like (k : FrameKind.t) (h h' : Headers) : Prop :=
  match k with
  | FrameKind.Metadata => h.1.2 = h'.1.2 /\ h.2 = h'.2
  | FrameKind.Video => h.1.1 = h'.1.1 /\ h.2 = h'.2
  | FrameKind.Audio => h.1 = h'.1
  | FrameKind.StreamEnd => h = h'
  end.
Lemma like_refl k h : like k h h.
Proof. by destruct k. Qed.
Lemma like_sees s k h h' f : like k h h' -> like k (sees s h f) (sees s h' f).
Proof.
  unfold sees. destruct (negb _); [done|]. destruct h as [ [m v] a], h' as [ [m' v'] a'].
  destruct k, (qf_kind f); cbn; intros; destruct_and?; simplify_eq; done.
Qed.
Lemma like_same s k h f : qf_kind f = k -> k <> FrameKind.StreamEnd -> like k (sees s h f) h.
Proof.
  intros <- Hk. unfold sees. destruct (negb _); [apply like_refl|]. destruct h as [ [m v] a].
  destruct (qf_kind f); cbn; try done.
Qed.
Lemma like_set s h h' f : qf_stream_id f = s -> typed_frame f -> qf_is_sticky f = true -> like (qf_kind f) h h' ->
  sees s h f = sees s h' f.
Proof.
  intros <- Ht Hs. unfold sees. rewrite Z.eqb_refl. cbn [negb]. destruct h as [ [m v] a], h' as [ [m' v'] a'].
  unfold typed_frame in Ht. destruct (qf_kind f); cbn; try rewrite <- Ht, Hs.
  - by intros [-> ->].
  - by intros [= -> ->].
  - by intros [-> ->].
  - done.
Qed.
Lemma like_sym k h h' : like k h h' -> like k h' h.
Proof. destruct k; cbn; try done; by intros [-> ->]. Qed.
Lemma like_trans k h1 h2 h3 : like k h1 h2 -> like k h2 h3 -> like k h1 h3.
Proof. destruct k; cbn; try (intros -> ->; done); intros [-> ->] [-> ->]; done. Qed.
Lemma see_all_like s k fs h h' : like k h h' -> like k (see_all s h fs) (see_all s h' fs).
Proof. revert h h'. induction fs as [|f fs IH]; intros h h' H; cbn; [done|]. apply IH. by apply like_sees. Qed.

Lemma see_all_keep_like s k p fs h : k <> FrameKind.StreamEnd -> (forall g, p g = true -> qf_kind g = k) ->
  like k (see_all s h (keep p fs)) (see_all s h fs).
Proof.
  intros Hk Hp. revert h. unfold keep. induction fs as [|f fs IH]; intros h; [apply like_refl|]. cbn.
  destruct (p f) eqn:E; cbn [negb].
  - eapply like_trans; [apply IH|]. apply see_all_like, like_sym. apply like_same; [by apply Hp|done].
  - apply IH.
Qed.

Lemma sees_other s h f : qf_stream_id f <> s -> sees s h f = h.
Proof. intros H. unfold sees. by rewrite (proj2 (Z.eqb_neq _ _)) by done. Qed.
Lemma see_all_others s h fs : (forall f, f ∈ fs -> qf_stream_id f <> s) -> see_all s h fs = h.
Proof.
  revert h. induction fs as [|f fs IH]; intros h H; cbn; [done|]. rewrite sees_other by (apply H; set_solver).
  apply IH. intros g Hg. apply H. set_solver.
Qed.
Lemma see_all_app s h fs gs : see_all s h (fs ++ gs) = see_all s (see_all s h fs) gs.
Proof. apply fold_left_app. Qed.
Lemma see_all_keep_others s h p fs : (forall g, p g = true -> qf_stream_id g <> s) -> see_all s h (keep p fs) = see_all s h fs.
Proof.
  intros H. revert h. unfold keep. induction fs as [|f fs IH]; intros h; cbn; [done|].
  destruct (p f) eqn:E; cbn; [rewrite sees_other by (by apply H)|]; apply IH.
Qed.

(** A frame of [s] that the queue of its destination has room for: what the queue says of the
    headers is what the frame makes of them. *)
Definition room_for (b : QueueBounds) (q : PerWorkerQueue) (f : QueuedFrame) : bool :=
  negb (would_overflow b (coalesce q f) (payload_size f)).

Lemma see_coalesced s h q f : qf_stream_id f = s -> typed_frame f ->
  sees s (see_all s h (frames (coalesce q f))) f = sees s (see_all s h (frames q)) f.
Proof.
  intros Es Ht. unfold coalesce. destruct (qf_is_sticky f) eqn:Hs; [|done].
  pose proof (erase_from_spec q (same_sticky f)) as H. destruct (erase_from _ _) as [q' n]. destruct H as (Ef & _).
  cbn [fst]. rewrite Ef. apply like_set; [done..|]. apply see_all_keep_like.
  - unfold typed_frame in Ht. by destruct (qf_kind f).
  - intros g. unfold same_sticky. rewrite !andb_true_iff, bool_decide_eq_true. tauto.
Qed.
Lemma sees_plain s h f : typed_frame f -> qf_is_sticky f = false -> sees s h f = h.
Proof.
  intros Ht Hs. unfold sees. destruct (negb _); [done|]. destruct h as [ [m v] a]. unfold typed_frame in Ht.
  destruct (qf_kind f); try done; by rewrite <- Ht, Hs || rewrite Hs in Ht.
Qed.

Lemma see_push s b q h f : qf_stream_id f = s -> typed_frame f -> room_for b q f = true ->
  see_all s h (frames (push_frame b q f).1) = sees s (see_all s h (frames q)) f.
Proof.
  intros Es Ht Hroom. unfold room_for in Hroom. apply negb_true_iff in Hroom.
  destruct (push_frame_cases b q f) as [Hs _ _| q1 -> Ho _ | q1 q2 n -> Ho | q1 q2 n w -> Ho]; cbn [fst frames]; try congruence.
  - by rewrite sees_plain.
  - rewrite see_all_app. by apply see_coalesced.
Qed.

Lemma see_push_other s b q h f : qf_stream_id f <> s ->
  see_all s h (frames (push_frame b q f).1) = see_all s h (frames q) /\
  (forall g, g ∈ frames (push_frame b q f).1 -> g = f \/ g ∈ frames q).
Proof.
  intros Es.
  assert (Hc : see_all s h (frames (coalesce q f)) = see_all s h (frames q) /\ forall g, g ∈ frames (coalesce q f) -> g ∈ frames q).
  { unfold coalesce. destruct (qf_is_sticky f); [|done]. pose proof (erase_from_spec q (same_sticky f)) as H.
    destruct (erase_from _ _) as [q' n]. destruct H as (Ef & _). cbn [fst]. rewrite Ef. split; [apply see_all_keep_others|intros g Hg; by apply keep_elem in Hg as [? _] ].
    intros g. unfold same_sticky. rewrite !andb_true_iff, Z.eqb_eq. intros [ [-> _] _]. done. }
  assert (Hp : forall q2 n, (q2, n) = erase_from (coalesce q f) (same_media f) ->
             see_all s h (frames q2) = see_all s h (frames q) /\ forall g, g ∈ frames q2 -> g ∈ frames q).
  { intros q2 n E. pose proof (erase_from_spec (coalesce q f) (same_media f)) as H. rewrite <- E in H. destruct H as (-> & _).
    split; [rewrite see_all_keep_others; [apply Hc|]|intros g Hg; apply keep_elem in Hg as [Hg _]; by apply Hc].
    intros g. unfold same_media. rewrite andb_true_iff, Z.eqb_eq. intros [-> _]. done. }
  assert (Hsnoc : forall g fs, g ∈ fs ++ [f] -> g = f \/ g ∈ fs) by set_solver.
  destruct (push_frame_cases b q f) as [_ _ _| q1 -> _ _ | q1 q2 n -> _ E2 _ _ | q1 q2 n w -> _ E2]; cbn [fst frames set_waiting].
  - split; [done|by right].
  - rewrite see_all_app, (proj1 Hc). cbn. rewrite sees_other by done. split; [done|].
    intros g Hg. apply Hsnoc in Hg as [?|Hg]; [by left|right; by apply Hc].
  - destruct (Hp q2 n E2) as [E Hin]. rewrite see_all_app, E. cbn. rewrite sees_other by done. split; [done|].
    intros g Hg. apply Hsnoc in Hg as [?|Hg]; [by left|right; by apply Hin].
  - destruct (Hp q2 n E2) as [E Hin]. split; [exact E|]. intros g Hg. right. by apply Hin.
Qed.

Lemma see_end s q h s' notify :
  see_all s h (frames (end_stream q s' notify).1) =
    (if s' =? s then (if notify then (None, None, None) else h) else see_all s h (frames q)) /\
  (forall g, g ∈ frames (end_stream q s' notify).1 -> (g = stream_end_frame s' /\ notify = true) \/ g ∈ frames q).
Proof.
  pose proof (end_stream_spec q s' notify) as H. destruct (end_stream q s' notify) as [q' wake]. destruct H as (_ & Ef & _).
  cbn [fst]. rewrite Ef. split.
  - rewrite see_all_app. destruct (s' =? s) eqn:E.
    + apply Z.eqb_eq in E as ->. rewrite (see_all_others s _ (keep _ _)).
      * destruct notify; [|done]. cbn. unfold sees. cbn. rewrite Z.eqb_refl. by destruct h as [ [m v] a].
      * intros f Hf. apply keep_elem in Hf as [_ Hf]. by apply Z.eqb_neq.
    + apply Z.eqb_neq in E. rewrite see_all_keep_others.
      * f_equal. destruct notify; [|done]. cbn. by apply sees_other.
      * intros g Hg. apply Z.eqb_eq in Hg. congruence.
  - intros g [Hg|Hg]%elem_of_app; [left|right; by apply keep_elem in Hg as [? _] ].
    destruct notify; [split; [by apply list_elem_of_singleton in Hg|done]|set_solver].
Qed.

(** * Every worker *)

Definition is_replay (op : @FanoutOp Sink) : bool :=
  match op with
  | LiveFanout.Video _ _ r | LiveFanout.Audio _ _ r | LiveFanout.Metadata _ _ r | PublisherStopped _ r => r
  | _ => false
  end.
(** Whether a call publishes, or ends, stream [s]. *)
Definition touches (s : Z) (op : @FanoutOp Sink) : bool :=
  match effect op with Some f => qf_stream_id f =? s | None => false end.

(** Sessions do not replay; [s] is published on [src] only; and the queue of [d] has room for
    the frames of [s]. *)
Definition proper_call (src d : nat) (s : Z) (sys : Workers) (op : WorkersOp) : bool :=
  match op with
  | Wakeup _ => true
  | Call w op =>
      negb (is_replay op) && (negb (touches s op) || Nat.eqb w src) &&
      match forwarded op, queues_ (router_ sys) !! d with
      | Some f, Some q => negb (qf_stream_id f =? s) || room_for (bounds_ (router_ sys)) q f
      | _, _ => true
      end
  end.
Fixpoint all_proper (src d : nat) (s : Z) (sys : Workers) (ops : list WorkersOp) : bool :=
  match ops with
  | [] => true
  | op :: ops => proper_call src d s sys op && all_proper src d s (workers_step sys op) ops
  end.

(** What worker [d] has and has coming makes up what [src] has; nothing of [s] comes to [src]. *)
Definition agree (src d : nat) (s : Z) (sys : Workers) : Prop :=
  exists q qs hd hs,
    queues_ (router_ sys) !! d = Some q /\ queues_ (router_ sys) !! src = Some qs /\
    hubs_ sys !! d = Some hd /\ hubs_ sys !! src = Some hs /\
    see_all s (headers hd s) (frames q) = headers hs s /\
    (forall f, f ∈ frames qs -> qf_stream_id f <> s).

Lemma router_step_frames r op d q : queues_ r !! d = Some q ->
  exists q', queues_ (router_step r op) !! d = Some q' /\
    frames q' = frames (queue_run (bounds_ r) q (queue_ops r op d)).
Proof.
  intros E. pose proof (router_step_queue r op d) as H. rewrite E in H.
  destruct (queues_ (router_step r op) !! d) as [q'|]; [|done]. exists q'. split; [done|].
  change (Some (unsignalled q') = Some (unsignalled (queue_run (bounds_ r) q (queue_ops r op d)))) in H.
  apply (inj Some) in H. by apply (f_equal frames) in H.
Qed.

Lemma forward_op_queue r w f d : queue_ops r (forward_op w f) d =
  if (worker_count_ r <=? w)%nat || Nat.eqb d w || negb (qf_is_sticky f || demanded r (qf_stream_id f) d) then []
  else [Push (mkQueuedFrame (qf_stream_id f) (qf_frame f)
     (frame_kind (bool_decide (qf_kind f = FrameKind.Video)) (bool_decide (qf_kind f = FrameKind.Audio)))
     (qf_is_sticky f) (qf_is_keyframe f))].
Proof. done. Qed.
Lemma forward_op_frame f : typed_frame f ->
  mkQueuedFrame (qf_stream_id f) (qf_frame f)
     (frame_kind (bool_decide (qf_kind f = FrameKind.Video)) (bool_decide (qf_kind f = FrameKind.Audio)))
     (qf_is_sticky f) (qf_is_keyframe f) = f.
Proof. unfold typed_frame. destruct f as [i fr k st kf]. cbn. by destruct k. Qed.

Lemma forwarded_effect op f : forwarded op = Some f ->
  exists f', effect op = Some f' /\ qf_stream_id f' = qf_stream_id f /\ forall s h, sees s h f' = sees s h f.
Proof. destruct op as [id g []|id g []|id g []|id sub sink ip|id sub|id r]; intros [= <-]; by eexists. Qed.

(** A call that does not touch [s] leaves what every queue says of it. *)
Lemma announced_elsewhere r fo w op s d q h : touches s op = false -> queues_ r !! d = Some q ->
  exists q', queues_ (router_run r (announced fo w op)) !! d = Some q' /\
    see_all s h (frames q') = see_all s h (frames q) /\
    (forall f, f ∈ frames q' -> qf_stream_id f <> s \/ f ∈ frames q).
Proof.
  intros Ht E. unfold announced. destruct (forwarded op) as [f|] eqn:Ef.
  - destruct (forwarded_effect op f Ef) as (f' & Ee & Es & _).
    unfold touches in Ht. rewrite Ee, Es in Ht. apply Z.eqb_neq in Ht.
    destruct (router_step_frames r (forward_op w f) d q E) as (q' & E' & Hf). exists q'. split; [exact E'|].
    rewrite forward_op_queue, forward_op_frame in Hf by (by eapply forwarded_typed).
    destruct (_ || _ || _); cbn in Hf; rewrite Hf; [split; [done|by right]|].
    destruct (see_push_other s (bounds_ r) q h f Ht) as [H1 H2]. split; [done|].
    intros g Hg. destruct (H2 g Hg) as [->|?]; [by left|by right].
  - destruct op as [| | | | |s' []]; try (exists q; split_and!; [done|done|by right]).
    unfold touches in Ht. cbn in Ht. apply Z.eqb_neq in Ht.
    destruct (f_streams fo !! s'); [|exists q; split_and!; [done|done|by right] ].
    destruct (router_step_frames r (OnStreamEnd w s') d q E) as (q' & E' & Hf). exists q'. split; [exact E'|].
    cbn in Hf. rewrite Hf. destruct (see_end s q h s' (negb (Nat.eqb d w))) as [H1 H2].
    rewrite (proj2 (Z.eqb_neq _ _)) in H1 by done. split; [done|].
    intros g Hg. destruct (H2 g Hg) as [ [-> _]|?]; [by left|by right].
Qed.

(** One that does, on its own worker, says the same to the others. *)
Lemma announced_to r fo src op s d q h h' f :
  touches s op = true -> is_replay op = false -> effect op = Some f -> d <> src -> (src < worker_count_ r)%nat ->
  queues_ r !! d = Some q -> see_all s h (frames q) = h' -> h' = headers fo s ->
  (forall g, forwarded op = Some g -> room_for (bounds_ r) q g = true) ->
  exists q', queues_ (router_run r (announced fo src op)) !! d = Some q' /\ see_all s h (frames q') = sees s h' f.
Proof.
  intros Ht Hr Ee Hd Hsrc E Hh Hh' Hroom. unfold announced. unfold touches in Ht. rewrite Ee in Ht. apply Z.eqb_eq in Ht.
  destruct (forwarded op) as [g|] eqn:Eg.
  - destruct (forwarded_effect op g Eg) as (f' & Ee' & Es & Hsees). assert (f' = f) as -> by congruence.
    pose proof (forwarded_typed op g Eg) as Htyped.
    destruct (router_step_frames r (forward_op src g) d q E) as (q' & E' & Hf). exists q'. split; [exact E'|].
    rewrite forward_op_queue, forward_op_frame in Hf by done.
    rewrite (proj2 (Nat.leb_gt _ _)), (proj2 (Nat.eqb_neq _ _)) in Hf by done. cbn [orb] in Hf. rewrite Hsees.
    destruct (qf_is_sticky g || demanded r (qf_stream_id g) d) eqn:Eor; cbn in Hf; rewrite Hf.
    + rewrite see_push by (try done; try congruence; by apply Hroom). by rewrite Hh.
    + apply orb_false_elim in Eor as [Est _]. by rewrite sees_plain, Hh.
  - destruct op as [id fr []|id fr []|id fr []|id sub sink ip|id sub|s' []]; try done.
    cbn in Ee. injection Ee as <-. cbn in Ht. subst s'.
    assert (Hnone : forall h0, sees s h0 (stream_end_frame s) = (None, None, None)).
    { intros [ [m v] a]. unfold sees. cbn. by rewrite Z.eqb_refl. }
    rewrite Hnone. destruct (f_streams fo !! s) as [st|] eqn:Est.
    + destruct (router_step_frames r (OnStreamEnd src s) d q E) as (q' & E' & Hf). exists q'. split; [exact E'|].
      cbn in Hf. rewrite Hf, (proj1 (see_end s q h s _)), Z.eqb_refl, (proj2 (Nat.eqb_neq _ _)) by done. done.
    + exists q. split; [done|]. rewrite Hh, Hh'. unfold headers, stream_for. by rewrite Est.
Qed.

(** Nothing of [s] comes back to its own worker. *)
Lemma announced_back r fo src op s q : touches s op = true -> is_replay op = false -> queues_ r !! src = Some q ->
  (forall f, f ∈ frames q -> qf_stream_id f <> s) ->
  exists q', queues_ (router_run r (announced fo src op)) !! src = Some q' /\ forall f, f ∈ frames q' -> qf_stream_id f <> s.
Proof.
  intros Ht Hr E Hq. unfold announced. destruct (forwarded op) as [g|] eqn:Eg.
  - destruct (router_step_frames r (forward_op src g) src q E) as (q' & E' & Hf). exists q'. split; [exact E'|].
    rewrite forward_op_queue, Nat.eqb_refl, orb_true_r in Hf. cbn in Hf. by rewrite Hf.
  - destruct op as [id fr []|id fr []|id fr []|id sub sink ip|id sub|s' []]; try done; try (by exists q).
    unfold touches in Ht. cbn in Ht. apply Z.eqb_eq in Ht. subst s'.
    destruct (f_streams fo !! s); [|by exists q].
    destruct (router_step_frames r (OnStreamEnd src s) src q E) as (q' & E' & Hf). exists q'. split; [exact E'|].
    cbn in Hf. rewrite Nat.eqb_refl in Hf. cbn in Hf. rewrite Hf. intros f Hin.
    destruct (see_end s q (None, None, None) s false) as [_ H2]. destruct (H2 f Hin) as [ [_ ?]|?]; [done|by apply Hq].
Qed.

Lemma hubs_after (hubs : list (@LiveFanout Sink)) w fo fo' x hx : hubs !! w = Some fo -> hubs !! x = Some hx ->
  (<[w := fo']> hubs : list LiveFanout) !! x = Some (if decide (x = w) then fo' else hx).
Proof.
  intros Ew Ex. case_decide as E; [subst x; apply list_lookup_insert_eq; by eapply lookup_lt_Some|].
  by rewrite list_lookup_insert_ne by done.
Qed.

Lemma call_agrees src d s sys w op : d <> src -> agree src d s sys -> proper_call src d s sys (Call w op) = true ->
  agree src d s (hub_call sys w op).
Proof.
  intros Hd (q & qs & hd & hs & Eq & Eqs & Ehd & Ehs & Hsee & Hback) Hp.
  unfold proper_call in Hp. rewrite Eq in Hp. apply andb_prop in Hp as [Hp Hroom]. apply andb_prop in Hp as [Hr Hsrc].
  apply negb_true_iff in Hr. destruct (hubs_ sys !! w) as [fo|] eqn:Ew.
  2:{ unfold hub_call. rewrite Ew. by exists q, qs, hd, hs. }
  destruct (hub_call_spec sys w op fo Ew) as (fo' & r1 & Eh & Hh & Eb & Equ & Er).
  rewrite <- Equ in Eq, Eqs.
  pose proof (hubs_after (hubs_ sys) w fo fo' d hd Ew Ehd) as Ehd'. pose proof (hubs_after (hubs_ sys) w fo fo' src hs Ew Ehs) as Ehs'.
  rewrite <- Eh in Ehd', Ehs'. unfold agree. rewrite Er.
  destruct (touches s op) eqn:Ht.
  - cbn [negb orb] in Hsrc. apply Nat.eqb_eq in Hsrc. subst w. assert (fo = hs) as -> by congruence.
    destruct (effect op) as [f|] eqn:Ee; [|by unfold touches in Ht; rewrite Ee in Ht].
    destruct (announced_to r1 hs src op s d q (headers hd s) (headers hs s) f) as (q' & Eq' & Hs'); try done.
    { unfold worker_count_. by eapply lookup_lt_Some. }
    { intros g Eg. rewrite Eg in Hroom. destruct (forwarded_effect op g Eg) as (f' & Ee' & Es & _).
      assert (f' = f) as -> by congruence. unfold touches in Ht. rewrite Ee, Es in Ht. rewrite Ht in Hroom. by rewrite Eb. }
    destruct (announced_back r1 hs src op s qs Ht Hr Eqs Hback) as (qs' & Eqs' & Hback').
    rewrite decide_False in Ehd' by done. rewrite decide_True in Ehs' by done.
    exists q', qs', hd, fo'. split_and!; try done. by rewrite Hs', (Hh s).
  - assert (Hsame : headers fo' s = headers fo s).
    { rewrite (Hh s). unfold touches in Ht. destruct (effect op) as [f|]; [|done]. apply sees_other. by apply Z.eqb_neq. }
    destruct (announced_elsewhere r1 fo w op s d q (headers hd s) Ht Eq) as (q' & Eq' & Hs' & _).
    destruct (announced_elsewhere r1 fo w op s src qs (headers hd s) Ht Eqs) as (qs' & Eqs' & _ & Hback').
    exists q', qs', (if decide (d = w) then fo' else hd), (if decide (src = w) then fo' else hs). split_and!; try done.
    + replace (headers (if decide (d = w) then fo' else hd) s) with (headers hd s)
        by (destruct (decide (d = w)); [subst w; congruence|done]).
      replace (headers (if decide (src = w) then fo' else hs) s) with (headers hs s)
        by (destruct (decide (src = w)); [subst w; congruence|done]).
      congruence.
    + intros f Hf. destruct (Hback' f Hf) as [?|?]; [done|by apply Hback].
Qed.

(** ** Replaying what a queue gives *)

Lemma replay_call sys w f fo : hubs_ sys !! w = Some fo ->
  exists fo', hubs_ (hub_call sys w (replayed f)) = <[w := fo']> (hubs_ sys) /\
    (forall s, headers fo' s = sees s (headers fo s) f) /\
    queues_ (router_ (hub_call sys w (replayed f))) = queues_ (router_ sys).
Proof.
  intros E. destruct (hub_call_spec sys w (replayed f) fo E) as (fo' & r1 & Eh & Hh & _ & Equ & Er).
  exists fo'. split; [done|]. split.
  - intros s. rewrite (Hh s). unfold replayed. unfold sees. by destruct (qf_kind f).
  - rewrite Er. unfold announced, replayed. by destruct (qf_kind f).
Qed.

Lemma replay_calls sys w fs fo : hubs_ sys !! w = Some fo ->
  let sys' := fold_left (fun sys f => hub_call sys w (replayed f)) fs sys in
  exists fo', hubs_ sys' = <[w := fo']> (hubs_ sys) /\ (forall s, headers fo' s = see_all s (headers fo s) fs) /\
    queues_ (router_ sys') = queues_ (router_ sys).
Proof.
  revert sys fo. induction fs as [|f fs IH]; intros sys fo E; cbn [fold_left].
  - exists fo. split_and!; [by rewrite list_insert_id|done|done].
  - destruct (replay_call sys w f fo E) as (fo1 & Eh & Hh & Equ).
    assert (E1 : hubs_ (hub_call sys w (replayed f)) !! w = Some fo1).
    { rewrite Eh. apply list_lookup_insert_eq. by eapply lookup_lt_Some. }
    destruct (IH _ fo1 E1) as (fo' & Eh' & Hh' & Equ'). exists fo'. rewrite Eh', Eh, Equ', Equ, list_insert_insert_eq.
    split_and!; [done| |done]. intros s. by rewrite Hh', Hh.
Qed.
Lemma replay_nowhere sys w fs : hubs_ sys !! w = None ->
  fold_left (fun sys f => hub_call sys w (replayed f)) fs sys = sys.
Proof. intros E. induction fs as [|f fs IH]; cbn; [done|]. unfold hub_call at 2. by rewrite E. Qed.

Lemma wakeup_agrees src d s sys w : d <> src -> agree src d s sys -> agree src d s (drain_router_frames sys w).
Proof.
  intros Hd (q & qs & hd & hs & Eq & Eqs & Ehd & Ehs & Hsee & Hback). unfold drain_router_frames, drain.
  destruct (queues_ (router_ sys) !! w) as [qw|] eqn:Eqw.
  2:{ by exists q, qs, hd, hs. }
  pose proof (drain_queue_spec qw frames_per_wakeup) as Hdr. destruct (drain_queue qw _) as [qw' drained].
  destruct Hdr as (Edr & Efr & _). set (sys1 := mkWorkers _ _ _).
  assert (Hq1 : forall x qx, queues_ (router_ sys) !! x = Some qx ->
            queues_ (router_ sys1) !! x = Some (if decide (x = w) then qw' else qx)).
  { intros x qx Ex. cbn. case_decide as E; [subst; apply list_lookup_insert_eq; by eapply lookup_lt_Some|].
    by rewrite list_lookup_insert_ne by done. }
  destruct (hubs_ sys !! w) as [fo|] eqn:Ew.
  - destruct (replay_calls sys1 w drained fo Ew) as (fo' & Eh & Hh & Equ). cbv zeta in Equ, Eh.
    pose proof (hubs_after (hubs_ sys) w fo fo' d hd Ew Ehd) as Ehd'. pose proof (hubs_after (hubs_ sys) w fo fo' src hs Ew Ehs) as Ehs'.
    change (hubs_ sys1) with (hubs_ sys) in Eh. rewrite <- Eh in Ehd', Ehs'.
    eexists _, _, _, _. rewrite Equ. split_and!; [by apply Hq1|by apply Hq1|exact Ehd'|exact Ehs'| |].
    + assert (Hsrc : headers (if decide (src = w) then fo' else hs) s = headers hs s).
      { destruct (decide (src = w)) as [E|]; [|done]. subst w. rewrite Hh. assert (fo = hs) as -> by congruence. apply see_all_others.
        intros f Hf. apply Hback. assert (qw = qs) as -> by congruence. rewrite Edr in Hf. by eapply subseteq_take. }
      rewrite Hsrc, <- Hsee. destruct (decide (d = w)) as [E|]; [|done]. subst w. rewrite Hh.
      assert (fo = hd) as -> by congruence. assert (qw = q) as -> by congruence.
      by rewrite Efr, Edr, <- see_all_app, take_drop.
    + intros f Hf. destruct (decide (src = w)) as [E|]; [|by apply Hback]. subst w. assert (qw = qs) as -> by congruence.
      apply Hback. rewrite Efr in Hf. by eapply subseteq_drop.
  - rewrite replay_nowhere by done. exists q, qs, hd, hs.
    assert (w <> d /\ w <> src) as [? ?] by (split; intros ->; congruence).
    rewrite (Hq1 d q Eq), (Hq1 src qs Eqs), !decide_False by done. by split_and!.
Qed.

Lemma run_agrees src d s ops sys : d <> src -> agree src d s sys -> all_proper src d s sys ops = true ->
  agree src d s (workers_run sys ops).
Proof.
  intros Hd. revert sys. induction ops as [|op ops IH]; intros sys H Hp; [done|]. cbn [all_proper] in Hp.
  apply andb_prop in Hp as [Hp Hps]. apply IH; [|done]. destruct op; cbn [workers_step].
  - by apply call_agrees.
  - by apply wakeup_agrees.
Qed.

Definition make_workers (g : GopLimits) (ql : QueueLimits) (max_waiting : Z) (b : QueueBounds) (fds : list (option Z))
    (world : W) : Workers :=
  mkWorkers (map (fun _ => make_fanout g ql max_waiting) fds) (make_router b fds) world.

(** C8. The hubs of all workers agree on what a viewer is sent first.  Whatever their sessions
    do and however the wake-ups of the workers fall between, if a stream is published on one
    worker only and the queue of another has room for its frames, then the stream's metadata
    and sequence headers at that other worker, brought up to date with what its queue holds,
    are those of the publishing worker; once the queue holds nothing of the stream a viewer
    gets the same headers on either. *)
Theorem headers_reach_every_worker g ql mw b fds world ops src d s :
  let sys0 := make_workers g ql mw b fds world in
  d <> src -> (src < length fds)%nat -> (d < length fds)%nat -> all_proper src d s sys0 ops = true ->
  let sys := workers_run sys0 ops in
  exists q hd hs, queues_ (router_ sys) !! d = Some q /\ hubs_ sys !! d = Some hd /\ hubs_ sys !! src = Some hs /\
    see_all s (headers hd s) (frames q) = headers hs s /\
    ((forall f, f ∈ frames q -> qf_stream_id f <> s) ->
     startup_headers (stream_for hd s) = startup_headers (stream_for hs s)).
Proof.
  intros sys0 Hd Hsrc Hdst Hp sys. assert (H : agree src d s sys).
  { apply run_agrees; [done| |done]. destruct (lookup_lt_is_Some_2 fds d Hdst) as [fd Efd].
    destruct (lookup_lt_is_Some_2 fds src Hsrc) as [fs Efs].
    exists (make_worker_queue fd), (make_worker_queue fs), (make_fanout g ql mw), (make_fanout g ql mw).
    cbn. rewrite !list_lookup_fmap, Efd, Efs. split_and!; try done. set_solver. }
  destruct H as (q & qs & hd & hs & Eq & _ & Ehd & Ehs & Hsee & _). exists q, hd, hs. split_and!; try done.
  intros Hno. rewrite see_all_others in Hsee by done. unfold headers in Hsee. injection Hsee as E1 E2 E3.
  unfold startup_headers. by rewrite E1, E2, E3.
Qed.
End Workers.

(** A publisher on worker 0 and a viewer who comes to worker 1 after its headers were sent. *)
Definition two_hubs : @Workers Z (list (Z * SinkCall)) :=
  make_workers default_gop_limits default_queue_limits 2 default_bounds [Some 0; Some 0] [].
Definition late_viewer : list (@WorkersOp Z) :=
  [Call 0 (LiveFanout.Metadata 7 (mkFrame [z2b 1] 18 0) false);
   Call 0 (LiveFanout.Video 7 (avc_frame [0x17; 0; 0; 0; 0]) false);
   Call 0 (LiveFanout.Audio 7 (mkFrame (map z2b [0xAF; 0; 0x12; 0x10]) 8 0) false);
   Wakeup 1; Call 1 (Subscribe 7 1 10 ""%string);
   Call 0 (LiveFanout.Video 7 (avc_frame [0x17; 1; 0; 0; 0; 9]) false); Wakeup 1].
Lemma headers_reach_every_worker_witness :
  let sys := workers_run log_sink two_hubs late_viewer in
  map fst (world_ sys) = [10; 10; 10; 10] /\
  exists q hd hs, queues_ (router_ sys) !! 1%nat = Some q /\ hubs_ sys !! 1%nat = Some hd /\ hubs_ sys !! 0%nat = Some hs /\
    see_all 7 (headers hd 7) (frames q) = headers hs 7 /\
    ((forall f, f ∈ frames q -> qf_stream_id f <> 7) ->
     startup_headers (stream_for hd 7) = startup_headers (stream_for hs 7)).
Proof.
  intros sys. split; [vm_compute; reflexivity|].
  pose proof (headers_reach_every_worker log_sink default_gop_limits default_queue_limits 2 default_bounds [Some 0; Some 0]
                [] late_viewer 0%nat 1%nat 7) as H. cbv zeta in H. subst sys. unfold two_hubs. apply H.
  - done.
  - apply Nat.ltb_lt. reflexivity.
  - apply Nat.ltb_lt. reflexivity.
  - vm_compute. reflexivity.
Defined.
