(* ===== verification/HttpMessage.v ===== *)
(** control/http_message.cpp, with the request and the response of control/http_server.hpp:
    the parser of request heads, the serializer of response heads, and what a client makes
    of a stream of responses. *)

From S2P Require Import Prelude Text.
From Stdlib Require Import Ascii.

Definition cr : ascii := "013"%char.
Definition lf : ascii := "010"%char.
Definition crlf : text := [cr; lf].
Definition blank_line : text := [cr; lf; cr; lf].

(** An [unordered_map] is a [gmap]; bodies are bytes, as characters. *)
Record HttpRequest := mkHttpRequest {
  method : text;
  path : text;
  query : text;
  http_version : text;
  request_headers : gmap text text;
  request_body : text;
  client_ip : text
}.
Definition no_request : HttpRequest := mkHttpRequest [] [] [] [] ∅ [] [].

(** [deferred] is the pointer to a [DeferredResponse]. *)
Record HttpResponse := mkHttpResponse {
  status : Z;
  content_type : text;
  body : text;
  shared_body : text;
  shared_body_offset : Z;
  shared_body_length : Z;
  response_headers : gmap text text;
  deferred : option Z
}.
Definition default_response : HttpResponse :=
  mkHttpResponse 200 (str "application/json") [] [] 0 0 ∅ None.

Definition payload_size (r : HttpResponse) : Z :=
  match shared_body r with [] => zlen (body r) | _ => shared_body_length r end.

Definition lower_char (c : ascii) : ascii :=
  let n := char_code c in
  if (65 <=? n) && (n <=? 90) then ascii_of_N (Z.to_N (n + 32)) else c.
Definition to_lower (s : text) : text := map lower_char s.

Fixpoint drop_spaces (l : text) : text :=
  match l with
  | c :: rest => if Ascii.eqb c " " then drop_spaces rest else l
  | [] => []
  end.

(** One header line. *)
Definition add_header (h : gmap text text) (line : text) : gmap text text :=
  match find_char ":" line with
  | Some colon => <[to_lower (take colon line) := drop_spaces (drop (S colon) line)]> h
  | None => h
  end.

(** The loop over the header lines; a round moves [pos] by two characters at least, so the
    length of what is left is fuel enough. *)
Fixpoint parse_header_lines (fuel : nat) (rest : text) (h : gmap text text) : gmap text text :=
  match fuel with
  | O => h
  | S fuel =>
      match rest with
      | [] => h
      | _ =>
          let next := default (length rest) (find_text crlf rest) in
          parse_header_lines fuel (drop (next + 2) rest) (add_header h (take next rest))
      end
  end.

Definition split_target (target : text) : text * text :=
  match find_char "?" target with
  | Some qpos => (take qpos target, drop (S qpos) target)
  | None => (target, [])
  end.

Definition parse_request_head (head : text) (out : HttpRequest) : option HttpRequest :=
  let line_end := find_text crlf head in
  let request_line := match line_end with Some n => take n head | None => head end in
  match find_char " " request_line with
  | None => None
  | Some sp1 =>
      let behind := drop (S sp1) request_line in
      match find_char " " behind with
      | None => None
      | Some sp2 =>
          let '(p, q) := split_target (take sp2 behind) in
          let h := match line_end with
                   | None => request_headers out
                   | Some n =>
                       let rest := drop (n + 2) head in
                       parse_header_lines (length rest) rest (request_headers out)
                   end in
          Some (mkHttpRequest (take sp1 request_line) p q (drop (S sp2) behind) h
                              (request_body out) (client_ip out))
      end
  end.

(** [std::from_chars] of a [size_t]: digits only, and an error above 64 bits. *)
Definition content_length_of (request : HttpRequest) : Z * bool :=
  match request_headers request !! str "content-length" with
  | None => (0, true)
  | Some value =>
      let '(length, rest) := scan_digits 0 value in
      match value, rest with
      | _ :: _, [] => if length <? 2 ^ 64 then (length, true) else (0, false)
      | _, _ => (0, false)
      end
  end.

Definition reason_phrase (status : Z) : text :=
  str match status with
  | 200 => "OK" | 201 => "Created" | 204 => "No Content" | 206 => "Partial Content"
  | 302 => "Found" | 304 => "Not Modified" | 400 => "Bad Request" | 401 => "Unauthorized"
  | 403 => "Forbidden" | 404 => "Not Found" | 405 => "Method Not Allowed" | 409 => "Conflict"
  | 413 => "Payload Too Large" | 416 => "Range Not Satisfiable" | 429 => "Too Many Requests"
  | 431 => "Request Header Fields Too Large" | 500 => "Internal Server Error"
  | 503 => "Service Unavailable"
  | _ => if (status <? 400)%Z then "OK" else "Error"
  end%string.

(** [std::to_string] of an [int]. *)
Definition int_to_text (z : Z) : text := if z <? 0 then "-"%char :: dec (- z) else dec z.

Definition header_line (kv : text * text) : text := kv.1 ++ str ": " ++ kv.2.

Definition serialize_response_head (response : HttpResponse) (keep_alive : bool) : text :=
  str "HTTP/1.1 " ++ int_to_text (status response) ++ str " " ++ reason_phrase (status response) ++ crlf
  ++ str "Content-Type: " ++ content_type response ++ crlf
  ++ (match response_headers response !! str "Content-Length" with
      | Some _ => []
      | None => str "Content-Length: " ++ dec (payload_size response) ++ crlf
      end)
  ++ (if keep_alive then str "Connection: keep-alive" ++ crlf else str "Connection: close" ++ crlf)
  ++ concat (map (fun kv => header_line kv ++ crlf) (map_to_list (response_headers response)))
  ++ crlf.

(** What a server sends as the body of a response: its bytes, or the slice of the shared
    buffer it names; nothing when the slice is outside. *)
Definition payload (r : HttpResponse) : option text :=
  match shared_body r with
  | [] => Some (body r)
  | view =>
      if (zlen view <? shared_body_offset r) || (zlen view - shared_body_offset r <? shared_body_length r)
      then None
      else Some (take (Z.to_nat (shared_body_length r)) (drop (Z.to_nat (shared_body_offset r)) view))
  end.

(** What a server writes for a response. *)
Definition wire (r : HttpResponse) (keep_alive : bool) : text :=
  serialize_response_head r keep_alive ++ default [] (payload r).

(** Lines separated by CRLF, the last one without, as the servers cut a head. *)
Fixpoint join_lines (ls : list text) : text :=
  match ls with
  | [] => []
  | [l] => l
  | l :: ls => l ++ crlf ++ join_lines ls
  end.

(** A request as a client writes its head: [target] is the path, with a query or not. *)
Definition request_line (m target v : text) : text := m ++ " "%char :: target ++ " "%char :: v.
Definition field_line (kv : text * text) : text := kv.1 ++ ":"%char :: kv.2.
Definition request_head (m target v : text) (fields : list (text * text)) : text :=
  join_lines (request_line m target v :: map field_line fields).

(** The fields as a map: names in lower case, values without the spaces in front, the last
    of equal names. *)
Definition field_map (fields : list (text * text)) : gmap text text :=
  foldl (fun h kv => <[to_lower kv.1 := drop_spaces kv.2]> h) ∅ fields.

(** A client reading a response off a stream: the head up to the first empty line, then as
    many bytes as its Content-Length says. *)
Record Received := mkReceived { status_line : text; received_headers : gmap text text; received_body : text }.

Definition read_response (l : text) : option (Received * text) :=
  match find_text blank_line l with
  | None => None
  | Some n =>
      let head := take n l in
      let rest := drop (n + 4) l in
      let first := default (length head) (find_text crlf head) in
      let lines := drop (first + 2) head in
      let hs := parse_header_lines (length lines) lines ∅ in
      match hs !! str "content-length" with
      | None => None
      | Some v =>
          let size := Z.to_nat (scan_digits 0 v).1 in
          if (length rest <? size)%nat then None
          else Some (mkReceived (take first head) hs (take size rest), drop size rest)
      end
  end.

Fixpoint read_responses (n : nat) (l : text) : option (list Received * text) :=
  match n with
  | O => Some ([], l)
  | S n =>
      match read_response l with
      | None => None
      | Some (r, rest) => (fun '(rs, tail) => (r :: rs, tail)) <$> read_responses n rest
      end
  end.

(** Header text a handler may give: nothing that ends a line, no separator in a name, and
    the length left to the server. *)
Definition clean (l : text) : Prop := cr ∉ l.
#[export] Instance clean_dec l : Decision (clean l).
Proof. unfold clean. apply _. Defined.
Definition well_formed_header (kv : text * text) : Prop :=
  clean kv.1 /\ clean kv.2 /\ ":"%char ∉ kv.1 /\ to_lower kv.1 <> str "content-length".
#[export] Instance well_formed_header_dec kv : Decision (well_formed_header kv).
Proof. unfold well_formed_header. apply _. Defined.
Definition well_formed_response (r : HttpResponse) : Prop :=
  clean (content_type r) /\ Forall well_formed_header (map_to_list (response_headers r))
  /\ is_Some (payload r) /\ 0 <= payload_size r /\ 0 <= shared_body_offset r.

Definition response_line (s : Z) : text := str "HTTP/1.1 " ++ int_to_text s ++ str " " ++ reason_phrase s.

(** * Lines *)

Lemma avoids_clean key l : clean l -> avoids (cr :: key) l = true.
Proof.
  unfold clean. induction l as [|c l IH]; [done|]. rewrite not_elem_of_cons. intros [Hc Hl].
  cbn [avoids differs]. rewrite IH, andb_true_r by done. apply orb_true_iff. left.
  apply negb_true_iff, Ascii.eqb_neq. done.
Qed.
Lemma find_clean key l : clean l -> find_text (cr :: key) l = None.
Proof.
  intros H. rewrite <- (app_nil_r l), find_avoids by by apply avoids_clean. done.
Qed.
Lemma find_crlf l rest : clean l -> find_text crlf (l ++ crlf ++ rest) = Some (length l).
Proof.
  intros H. unfold crlf. rewrite find_avoids by by apply avoids_clean.
  rewrite find_begins by done. cbn. f_equal. lia.
Qed.
Lemma find_text_fits key l n : find_text key l = Some n -> (n + length key <= length l)%nat.
Proof.
  revert n. induction l as [|c l IH]; intros n H.
  - cbn in H. destruct key; [|done]. injection H as <-. done.
  - cbn [find_text] in H. destruct (begins key (c :: l)) eqn:E.
    + injection H as <-. apply begins_spec in E as [rest E]. rewrite E, length_app. lia.
    + destruct (find_text key l) as [m|]; [|done]. injection H as <-. specialize (IH m eq_refl). cbn. lia.
Qed.
Lemma begins_take key l : begins key l = true <-> take (length key) l = key.
Proof.
  rewrite begins_spec. split.
  - intros [rest ->]. apply take_app_length.
  - intros H. exists (drop (length key) l). by rewrite <- H at 1; rewrite take_drop.
Qed.
(** An occurrence stays the first one when text is added behind. *)
Lemma find_text_more key l n more : find_text key l = Some n -> find_text key (l ++ more) = Some n.
Proof.
  revert n. induction l as [|c l IH]; intros n H.
  - cbn in H. destruct key; [|done]. injection H as <-. by destruct more.
  - pose proof (find_text_fits _ _ _ H) as Hf. cbn [find_text app] in *.
    replace (begins key (c :: l ++ more)) with (begins key (c :: l)).
    + destruct (begins key (c :: l)); [done|]. destruct (find_text key l) as [m|]; [|done].
      injection H as <-. by rewrite (IH m eq_refl).
    + apply eq_true_iff_eq. rewrite !begins_take, app_comm_cons, take_app_le by lia. done.
Qed.
Lemma clean_app a b : clean (a ++ b) <-> clean a /\ clean b.
Proof. unfold clean. rewrite not_elem_of_app. done. Qed.

Lemma join_lines_cons l ls : ls <> [] -> join_lines (l :: ls) = l ++ crlf ++ join_lines ls.
Proof. by destruct ls. Qed.

Lemma add_header_nil h : add_header h [] = h.
Proof. done. Qed.

Lemma parse_joined ls : Forall clean ls -> forall fuel h, (length (join_lines ls) <= fuel)%nat ->
  parse_header_lines fuel (join_lines ls) h = foldl add_header h ls.
Proof.
  induction 1 as [|l ls Hl Hls IH]; intros fuel h Hf.
  - by destruct fuel.
  - destruct ls as [|l2 ls].
    + cbn [join_lines foldl] in *. destruct l as [|c l].
      { by destruct fuel; rewrite add_header_nil. }
      destruct fuel as [|fuel]; [cbn in Hf; lia|]. cbn [parse_header_lines].
      unfold crlf. rewrite find_clean by done. cbn [default id]. rewrite take_ge, drop_ge by lia.
      by destruct fuel.
    + rewrite join_lines_cons in * by done. rewrite !length_app in Hf. cbn [length crlf] in Hf.
      destruct fuel as [|fuel]; [lia|]. cbn [parse_header_lines].
      rewrite find_crlf by done. cbn [default id].
      destruct (l ++ crlf ++ join_lines (l2 :: ls)) as [|c t] eqn:E; [by destruct l|]. rewrite <- E.
      rewrite take_app_length, app_assoc.
      rewrite drop_app_length' by (rewrite length_app; cbn; lia).
      cbn [foldl]. apply IH. lia.
Qed.

Lemma add_field h kv : ":"%char ∉ kv.1 ->
  add_header h (field_line kv) = <[to_lower kv.1 := drop_spaces kv.2]> h.
Proof.
  intros H. unfold add_header, field_line. rewrite find_char_app by done.
  rewrite take_app_length. do 2 f_equal. rewrite cons_middle, app_assoc.
  rewrite drop_app_length' by (rewrite length_app; cbn; lia). done.
Qed.
Lemma foldl_fields fields : forall h, Forall (fun kv : text * text => ":"%char ∉ kv.1) fields ->
  foldl add_header h (map field_line fields)
  = foldl (fun h kv => <[to_lower kv.1 := drop_spaces kv.2]> h) h fields.
Proof.
  induction fields as [|kv fields IH]; intros h H; [done|]. inversion H; subst.
  cbn [map foldl]. rewrite add_field by done. by apply IH.
Qed.

(** * Requests *)

Lemma drop_behind (c : ascii) a b : drop (S (length a)) (a ++ c :: b) = b.
Proof. rewrite cons_middle, app_assoc, drop_app_length' by (rewrite length_app; cbn; lia). done. Qed.

Lemma parse_head_line m target v head out : " "%char ∉ m -> " "%char ∉ target ->
  (match find_text crlf head with Some n => take n head | None => head end) = request_line m target v ->
  parse_request_head head out
  = Some (mkHttpRequest m (split_target target).1 (split_target target).2 v
            (match find_text crlf head with
             | None => request_headers out
             | Some n => parse_header_lines (length (drop (n + 2) head)) (drop (n + 2) head) (request_headers out)
             end) (request_body out) (client_ip out)).
Proof.
  intros Hm Ht Hl. unfold parse_request_head. rewrite Hl. unfold request_line.
  rewrite find_char_app, drop_behind, find_char_app, !take_app_length, drop_behind by done.
  by destruct (split_target target).
Qed.

Definition target_of (p : text) (q : option text) : text :=
  p ++ match q with Some q => "?"%char :: q | None => [] end.

Lemma split_target_of p q : "?"%char ∉ p -> split_target (target_of p q) = (p, default [] q).
Proof.
  intros Hp. unfold split_target, target_of. destruct q as [q|].
  - by rewrite find_char_app, take_app_length, drop_behind.
  - rewrite app_nil_r. by rewrite (proj2 (find_char_None _ _) Hp).
Qed.

Lemma elem_of_target c p q : c <> "?"%char -> c ∉ p -> c ∉ default [] q -> c ∉ target_of p q.
Proof.
  intros Hc Hp Hq. unfold target_of. destruct q; rewrite not_elem_of_app, ?not_elem_of_cons; [done|].
  split; [done|apply not_elem_of_nil].
Qed.

(** A request head is parsed back exactly: a method and a target without spaces, a
    version, header fields without line ends and names without a colon give the method, the
    path and the query, the version, and the fields as a map from lower-case names, the last
    of equal names kept. *)
Theorem request_head_roundtrip m p q v fields :
  " "%char ∉ m -> clean m -> " "%char ∉ p -> clean p -> "?"%char ∉ p ->
  " "%char ∉ default [] q -> clean (default [] q) -> clean v ->
  Forall (fun kv => clean kv.1 /\ clean kv.2 /\ ":"%char ∉ kv.1) fields ->
  parse_request_head (request_head m (target_of p q) v fields) no_request
  = Some (mkHttpRequest m p (default [] q) v (field_map fields) [] []).
Proof.
  intros Hm Hmc Hp Hpc Hpq Hq Hqc Hv Hf.
  assert (Ht : " "%char ∉ target_of p q) by by apply elem_of_target.
  assert (Hline : clean (request_line m (target_of p q) v)).
  { unfold request_line, clean in *. rewrite not_elem_of_app, not_elem_of_cons, not_elem_of_app, not_elem_of_cons.
    repeat split; try done. by apply elem_of_target. }
  assert (Hfold : foldl add_header ∅ (map field_line fields) = field_map fields).
  { apply foldl_fields. eapply list.Forall_impl; [exact Hf|]. by intros kv (_ & _ & ?). }
  assert (Hlines : Forall clean (map field_line fields)).
  { apply Forall_map. eapply list.Forall_impl; [exact Hf|]. intros kv (H1 & H2 & _).
    unfold field_line, clean in *. cbn. rewrite not_elem_of_app, not_elem_of_cons. done. }
  unfold request_head. destruct fields as [|f fields].
  - cbn [map join_lines]. assert (Hn : find_text crlf (request_line m (target_of p q) v) = None) by by apply find_clean.
    rewrite (parse_head_line m (target_of p q) v) by (rewrite ?Hn; done).
    rewrite split_target_of, Hn by done. done.
  - rewrite join_lines_cons by done.
    rewrite (parse_head_line m (target_of p q) v) by (rewrite ?find_crlf, ?take_app_length; done).
    rewrite split_target_of, find_crlf by done.
    rewrite app_assoc, drop_app_length' by (rewrite length_app; cbn; lia).
    rewrite parse_joined, <- Hfold by done. done.
Qed.

(** A head without a request line is refused, and only that: [parse_request_head]
    returns false exactly when the first line has fewer than two spaces. *)
Theorem request_head_refused head out :
  parse_request_head head out = None
  <-> forall m target v, (match find_text crlf head with Some n => take n head | None => head end)
                         <> request_line m target v \/ " "%char ∈ m \/ " "%char ∈ target.
Proof.
  split.
  - intros H m target v. destruct (decide (" "%char ∈ m)) as [|Hm]; [by right; left|].
    destruct (decide (" "%char ∈ target)) as [|Ht]; [by right; right|]. left. intros Hl.
    by rewrite (parse_head_line m target v) in H.
  - intros H. unfold parse_request_head.
    set (line := match find_text crlf head with Some n => take n head | None => head end) in *.
    destruct (find_char " " line) as [sp1|] eqn:E1; [|done].
    destruct (find_char " " (drop (S sp1) line)) as [sp2|] eqn:E2; [|done]. exfalso.
    apply find_char_Some in E1 as [E1 H1]. apply find_char_Some in E2 as [E2 H2].
    specialize (H (take sp1 line) (take sp2 (drop (S sp1) line)) (drop (S sp2) (drop (S sp1) line))).
    unfold request_line in H. rewrite <- E2, <- E1 in H. tauto.
Qed.

(** * Responses *)

Lemma find_blank ls : ls <> [] -> Forall (fun l => clean l /\ l <> []) ls -> forall rest,
  find_text blank_line (join_lines ls ++ blank_line ++ rest) = Some (length (join_lines ls)).
Proof.
  intros Hne H rest. destruct ls as [|l ls]; [done|]. clear Hne. revert l H.
  induction ls as [|l2 ls IH]; intros l H.
  - inversion H as [|?? [Hl _] _]; subst. cbn [join_lines]. unfold blank_line.
    rewrite find_avoids by by apply avoids_clean. rewrite find_begins by done. cbn. f_equal. lia.
  - inversion H as [|?? [Hl _] Hr]; subst. rewrite join_lines_cons by done.
    rewrite <- !app_assoc. unfold blank_line at 1. rewrite find_avoids by by apply avoids_clean.
    inversion Hr as [|?? [Hl2 Hn2] _]; subst. destruct l2 as [|c l2]; [done|].
    assert (Hc : Ascii.eqb cr c = false).
    { apply not_true_is_false. intros Ec. apply Ascii.eqb_eq in Ec. apply Hl2. rewrite Ec. left. }
    specialize (IH (c :: l2) Hr). unfold crlf at 1.
    assert (E : exists t, join_lines ((c :: l2) :: ls) = c :: t) by (destruct ls; cbn; eauto).
    destruct E as [t E]. rewrite E in *. cbn [app] in *. 
    change (find_text [cr; lf; cr; lf] (cr :: lf :: c :: t ++ blank_line ++ rest)) with
      (if begins [cr; lf; cr; lf] (cr :: lf :: c :: t ++ blank_line ++ rest) then Some O
       else S <$> (if begins [cr; lf; cr; lf] (lf :: c :: t ++ blank_line ++ rest) then Some O
                   else S <$> find_text [cr; lf; cr; lf] (c :: t ++ blank_line ++ rest))).
    fold blank_line. rewrite IH.
    replace (begins blank_line (cr :: lf :: c :: t ++ blank_line ++ rest)) with false
      by (unfold blank_line; cbn [begins]; rewrite Hc; done).
    change (begins blank_line (lf :: c :: t ++ blank_line ++ rest)) with false.
    cbn [fmap option_fmap option_map]. f_equal. rewrite !length_app. cbn. lia.
Qed.

Definition head_lines (r : HttpResponse) (keep_alive : bool) : list text :=
  response_line (status r) :: (str "Content-Type: " ++ content_type r)
  :: (match response_headers r !! str "Content-Length" with
      | Some _ => []
      | None => [str "Content-Length: " ++ dec (payload_size r)]
      end)
  ++ (if keep_alive then str "Connection: keep-alive" else str "Connection: close")
  :: map header_line (map_to_list (response_headers r)).

Lemma join_lines_end ls : ls <> [] -> join_lines ls ++ crlf = concat (map (fun l => l ++ crlf) ls).
Proof.
  induction ls as [|l ls IH]; [done|]. intros _. destruct ls as [|l2 ls].
  - cbn. by rewrite app_nil_r.
  - rewrite join_lines_cons by done. specialize (IH ltac:(done)). rewrite <- !app_assoc, IH.
    cbn [map concat]. by rewrite <- !app_assoc.
Qed.

Lemma serialize_lines r ka : serialize_response_head r ka = join_lines (head_lines r ka) ++ blank_line.
Proof.
  change blank_line with (crlf ++ crlf). rewrite app_assoc, join_lines_end by done.
  unfold serialize_response_head, head_lines, response_line. cbn [map concat].
  rewrite map_app, concat_app. cbn [map concat]. rewrite map_map, <- !app_assoc.
  destruct (response_headers r !! str "Content-Length"), ka; cbn [map concat]; rewrite <- ?app_assoc; done.
Qed.

Lemma clean_digits l : Forall digit l -> clean l.
Proof.
  intros H Hin. rewrite list.Forall_forall in H. apply H in Hin as [v Hv]. done.
Qed.
Lemma clean_str s : forallb (fun c => negb (Ascii.eqb c cr)) (str s) = true -> clean (str s).
Proof.
  intros H Hin. rewrite forallb_forall in H. apply list_elem_of_In, H in Hin. done.
Qed.
Lemma clean_int z : clean (int_to_text z).
Proof.
  unfold int_to_text. destruct (z <? 0) eqn:E; apply Z.ltb_lt in E || apply Z.ltb_ge in E.
  - unfold clean. rewrite not_elem_of_cons. split; [done|]. apply clean_digits, dec_digits. lia.
  - apply clean_digits, dec_digits. lia.
Qed.
Lemma clean_reason s : clean (reason_phrase s).
Proof. apply clean_str. unfold reason_phrase. repeat case_match; reflexivity. Qed.

Lemma head_lines_clean r ka : well_formed_response r ->
  Forall (fun l => clean l /\ l <> []) (head_lines r ka).
Proof.
  intros (Hct & Hh & _ & Hp & _). unfold head_lines, response_line.
  constructor; [split; [|done]|constructor; [split; [|done]|apply Forall_app; split; [|constructor; [|apply Forall_map]]]].
  - rewrite !clean_app. repeat split; try apply clean_int; try apply clean_reason; by apply clean_str.
  - rewrite clean_app. split; [by apply clean_str|done].
  - destruct (response_headers r !! _); [done|]. apply Forall_singleton. split; [|done].
    apply clean_app. split; [by apply clean_str|]. by apply clean_digits, dec_digits.
  - destruct ka; (split; [by apply clean_str|done]).
  - eapply list.Forall_impl; [exact Hh|]. intros [k v] (H1 & H2 & _).
    unfold header_line. split; [|by destruct k]. rewrite !clean_app. repeat split; try done. by apply clean_str.
Qed.

Lemma header_fields l : forall h, Forall well_formed_header l ->
  foldl add_header h (map header_line l) !! str "content-length" = h !! str "content-length".
Proof.
  induction l as [|[k v] l IH]; intros h H; [done|]. inversion H as [|?? (Hk & Hv & Hc & Hn) Hr]; subst.
  cbn [map foldl]. rewrite IH by done. change (header_line (k, v)) with (field_line (k, " "%char :: v)).
  rewrite add_field by done. cbn [fst] in *. by rewrite lookup_insert_ne.
Qed.

Lemma no_own_length r : Forall well_formed_header (map_to_list (response_headers r)) ->
  response_headers r !! str "Content-Length" = None.
Proof.
  intros H. destruct (response_headers r !! str "Content-Length") as [v|] eqn:E; [|done].
  apply elem_of_map_to_list in E. rewrite list.Forall_forall in H. destruct (H _ E) as (_ & _ & _ & Hn).
  by destruct Hn.
Qed.

Lemma dec_first z : 0 <= z -> drop_spaces (dec z) = dec z.
Proof.
  intros Hz. pose proof (dec_digits z Hz) as Hd. destruct (dec z) as [|c l]; [done|].
  inversion Hd as [|?? [v Hv] _]; subst. cbn [drop_spaces].
  destruct (Ascii.eqb c " ") eqn:E; [|done]. apply Ascii.eqb_eq in E. by subst.
Qed.

(** The fields a client finds in a head. *)
Definition sent_headers (r : HttpResponse) (keep_alive : bool) : gmap text text :=
  foldl add_header ∅ (tail (head_lines r keep_alive)).

Lemma sent_length r ka : well_formed_response r ->
  sent_headers r ka !! str "content-length" = Some (dec (payload_size r)).
Proof.
  intros (Hct & Hh & _ & Hp & _). unfold sent_headers, head_lines. cbn [tail foldl].
  rewrite no_own_length by done. cbn [app foldl]. rewrite header_fields by done.
  change (str "Content-Length: " ++ dec (payload_size r))
    with (field_line (str "Content-Length", " "%char :: dec (payload_size r))).
  rewrite add_field by by apply (bool_decide_eq_true_1 _).
  change (if ka then str "Connection: keep-alive" else str "Connection: close")
    with (if ka then field_line (str "Connection", str " keep-alive") else field_line (str "Connection", str " close")).
  assert (Hc : forall h v, add_header h (field_line (str "Connection", v)) !! str "content-length" = h !! str "content-length").
  { intros h v. rewrite add_field by by apply (bool_decide_eq_true_1 _). by rewrite lookup_insert_ne. }
  destruct ka; rewrite Hc, lookup_insert; cbn [snd drop_spaces]; rewrite decide_True by done;
    f_equal; change (Ascii.eqb " " " ") with true; cbn iota; by apply dec_first.
Qed.

Lemma payload_length r b : payload r = Some b -> 0 <= payload_size r ->
  0 <= shared_body_offset r -> zlen b = payload_size r.
Proof.
  unfold payload, payload_size, zlen. destruct (shared_body r) as [|c view]; [by intros [= ->]|].
  set (l := c :: view). destruct (_ || _) eqn:E; [done|]. intros [= <-] Hp Ho.
  apply orb_false_iff in E as [E1 E2]. apply Z.ltb_ge in E1, E2.
  rewrite length_take, length_drop. unfold l in *. lia.
Qed.

Lemma read_wire r ka b rest : well_formed_response r -> payload r = Some b ->
  read_response (wire r ka ++ rest)
  = Some (mkReceived (response_line (status r)) (sent_headers r ka) b, rest).
Proof.
  intros Hr Hb. pose proof (head_lines_clean r ka Hr) as Hl. pose proof Hr as (Hct & Hh & _ & Hp & Ho).
  unfold wire. rewrite Hb, serialize_lines. cbn [default]. rewrite <- !app_assoc. unfold read_response.
  assert (Hls : head_lines r ka = response_line (status r) :: tail (head_lines r ka)) by done.
  rewrite find_blank by done. rewrite take_app_length.
  cbn [id]. replace (drop (length (join_lines (head_lines r ka)) + 4) _) with (b ++ rest).
  2:{ rewrite app_assoc, drop_app_length' by (rewrite length_app; cbn; lia). done. }
  assert (Hf : find_text crlf (join_lines (head_lines r ka)) = Some (length (response_line (status r)))).
  { rewrite Hls, join_lines_cons by done. apply find_crlf. by inversion Hl as [|?? [? _] _]. }
  rewrite Hf. cbn [default id].
  replace (drop (length (response_line (status r)) + 2) (join_lines (head_lines r ka)))
    with (join_lines (tail (head_lines r ka))).
  2:{ rewrite Hls, join_lines_cons, app_assoc, drop_app_length' by first [done|rewrite length_app; cbn; lia]. done. }
  rewrite parse_joined.
  2:{ rewrite Hls in Hl. inversion Hl as [|?? _ Ht]; subst. eapply list.Forall_impl; [exact Ht|]. by intros l [? _]. }
  2:{ lia. }
  fold (sent_headers r ka). rewrite sent_length by done.
  rewrite (proj1 (scan_dec _ Hp)). cbn [fst].
  pose proof (payload_length r b Hb Hp Ho) as Hlen. unfold zlen in Hlen.
  rewrite (proj2 (Nat.ltb_ge _ _)) by (rewrite length_app; lia).
  rewrite take_app_length', drop_app_length' by lia. do 3 f_equal.
  rewrite Hls, join_lines_cons, take_app_length by done. done.
Qed.

(** Responses written one behind the other are told apart by the client: reading as
    many responses as were written gives their status lines and their bodies, in order, and
    leaves what follows.  A body is the inline one or the slice of the shared segment. *)
Theorem responses_cut_back rs rest :
  Forall (fun rk => well_formed_response rk.1) rs ->
  read_responses (length rs) (concat (map (fun rk => wire rk.1 rk.2) rs) ++ rest)
  = Some (map (fun rk => mkReceived (response_line (status rk.1)) (sent_headers rk.1 rk.2)
                                    (default [] (payload rk.1))) rs, rest).
Proof.
  induction 1 as [|[r ka] rs Hr _ IH]; [done|]. cbn [map concat length read_responses fst snd].
  cbn [fst] in Hr. rewrite <- app_assoc. destruct (proj1 (proj2 (proj2 Hr))) as [b Hb].
  rewrite (read_wire r ka b) by done. rewrite IH, Hb. done.
Qed.

Lemma request_head_roundtrip_witness :
  parse_request_head
    (request_head (str "GET") (target_of (str "/hls/a.m3u8") (Some (str "x=1"))) (str "HTTP/1.1")
       [(str "Host", str " h"); (str "Range", str "bytes=0-4"); (str "HOST", str "  g")]) no_request
  = Some (mkHttpRequest (str "GET") (str "/hls/a.m3u8") (str "x=1") (str "HTTP/1.1")
            {[str "host" := str "g"; str "range" := str "bytes=0-4"]} [] []).
Proof.
  pose proof (request_head_roundtrip (str "GET") (str "/hls/a.m3u8") (Some (str "x=1")) (str "HTTP/1.1")
    [(str "Host", str " h"); (str "Range", str "bytes=0-4"); (str "HOST", str "  g")]) as H.
  cbn [default id] in H. rewrite H.
  - vm_compute. reflexivity.
  - apply (bool_decide_eq_true_1 _). vm_compute. reflexivity.
  - apply (bool_decide_eq_true_1 _). vm_compute. reflexivity.
  - apply (bool_decide_eq_true_1 _). vm_compute. reflexivity.
  - apply (bool_decide_eq_true_1 _). vm_compute. reflexivity.
  - apply (bool_decide_eq_true_1 _). vm_compute. reflexivity.
  - apply (bool_decide_eq_true_1 _). vm_compute. reflexivity.
  - apply (bool_decide_eq_true_1 _). vm_compute. reflexivity.
  - apply (bool_decide_eq_true_1 _). vm_compute. reflexivity.
  - unfold clean. apply (bool_decide_eq_true_1 _). vm_compute. reflexivity.
Defined.

(** A playlist and a slice of a segment, on one connection. *)
Definition playlist_response : HttpResponse :=
  mkHttpResponse 200 (str "application/vnd.apple.mpegurl") (str "#EXTM3U") [] 0 0
    {[str "Cache-Control" := str "no-store"]} None.
Definition segment_response : HttpResponse :=
  mkHttpResponse 206 (str "video/mp2t") [] (str "0123456789") 2 5 ∅ None.

Lemma responses_cut_back_witness :
  read_responses 2 (wire playlist_response true ++ wire segment_response false ++ [])
  = Some ([mkReceived (str "HTTP/1.1 200 OK") (sent_headers playlist_response true) (str "#EXTM3U");
           mkReceived (str "HTTP/1.1 206 Partial Content") (sent_headers segment_response false) (str "23456")], []).
Proof.
  pose proof (responses_cut_back [(playlist_response, true); (segment_response, false)] []) as H.
  cbn [map concat length fst snd] in H. rewrite app_nil_r, app_nil_r in H. rewrite app_nil_r, H.
  - reflexivity.
  - constructor; [|constructor; [|constructor]]; cbn [fst];
      (split; [|split; [|split; [eexists; reflexivity|split; by compute]]]);
      apply (bool_decide_eq_true_1 _); vm_compute; reflexivity.
Defined.
