(* ===== verification/AsyncHttp.v ===== *)
(** control/async_http_server.cpp: the event-driven HTTP server, with the [DeferredResponse]
    of control/http_server.hpp.  Every loop thread owns its connections; what other threads
    reach of a loop (its mailbox, the connections handed to it, its wake-up pipe, its stop
    flag) and the counters are shared. *)

From S2P Require Import Prelude Text HttpMessage.
From Stdlib Require Import Ascii.

(** * Deferred responses *)

(** What [attach] installs: the loop whose mailbox it posts to, the descriptor and the id of
    the connection. *)
Record Completion := mkCompletion { target_loop : nat; target_fd : Z; target_id : Z }.

(** The code shares a [DeferredResponse] by pointer: it is an entry of a heap. *)
Record DeferredResponse := mkDeferredResponse {
  timeout_response : HttpResponse;
  timeout : Z;
  completion_ : option Completion;
  response_ : HttpResponse;
  resolved_ : bool;
  delivered_ : bool
}.

(** Each operation is its critical section: the new state, and the call of the completion it
    makes after the lock is released. *)
Definition attach (c : Completion) (d : DeferredResponse) :
    DeferredResponse * option (Completion * HttpResponse) :=
  if delivered_ d then (d, None)
  else if negb (resolved_ d) then
    (mkDeferredResponse (timeout_response d) (timeout d) (Some c) (response_ d) false false, None)
  else
    (mkDeferredResponse (timeout_response d) (timeout d) (completion_ d) (response_ d) true true,
     Some (c, response_ d)).

Definition resolve (response : HttpResponse) (d : DeferredResponse) :
    DeferredResponse * option (Completion * HttpResponse) :=
  if resolved_ d || delivered_ d then (d, None)
  else match completion_ d with
       | None => (mkDeferredResponse (timeout_response d) (timeout d) None response true false, None)
       | Some c =>
           (mkDeferredResponse (timeout_response d) (timeout d) None (response_ d) true true,
            Some (c, response))
       end.

Definition cancel (d : DeferredResponse) : DeferredResponse * bool :=
  if delivered_ d then (d, false)
  else (mkDeferredResponse (timeout_response d) (timeout d) None (response_ d) (resolved_ d) true, true).

(** * The state *)

Module State.
Inductive t := ReadingHead | ReadingBody | Writing | Deferred.
End State.

#[export] Instance State_eq : EqDecision State.t.
Proof. solve_decision. Defined.

(** The bits kReadable and kWritable. *)
Inductive Interest := kNone | kReadable | kWritable.
#[export] Instance Interest_eq : EqDecision Interest.
Proof. solve_decision. Defined.

Record Connection := mkConnection {
  fd : Z;
  id : Z;  (* monotonic within the loop *)
  peer_ip : text;  (* [client_ip] *)
  state : State.t;
  inbox : text;  (* bytes read but not yet consumed *)
  request : HttpRequest;
  expected_body : Z;
  out_head : text;
  head_sent : nat;
  out_body : text;  (* the shared buffer *)
  body_offset : nat;
  body_length : nat;
  body_sent : nat;
  out_inline_body : text;
  keep_alive : bool;
  parked : option Z;  (* [deferred] *)
  deferred_keep_alive : bool;
  requests_served : Z;
  interest : Interest;
  deadline : Z
}.
Definition set_state (v : State.t) (c : Connection) : Connection :=
    mkConnection (fd c) (id c) (peer_ip c) v (inbox c) (request c) (expected_body c) (out_head
    c) (head_sent c) (out_body c) (body_offset c) (body_length c) (body_sent c) (out_inline_body
    c) (keep_alive c) (parked c) (deferred_keep_alive c) (requests_served c) (interest c)
    (deadline c).
Definition set_inbox (v : text) (c : Connection) : Connection :=
    mkConnection (fd c) (id c) (peer_ip c) (state c) v (request c) (expected_body c) (out_head
    c) (head_sent c) (out_body c) (body_offset c) (body_length c) (body_sent c) (out_inline_body
    c) (keep_alive c) (parked c) (deferred_keep_alive c) (requests_served c) (interest c)
    (deadline c).
Definition set_request (v : HttpRequest) (c : Connection) : Connection :=
    mkConnection (fd c) (id c) (peer_ip c) (state c) (inbox c) v (expected_body c) (out_head c)
    (head_sent c) (out_body c) (body_offset c) (body_length c) (body_sent c) (out_inline_body c)
    (keep_alive c) (parked c) (deferred_keep_alive c) (requests_served c) (interest c) (deadline
    c).
Definition set_expected_body (v : Z) (c : Connection) : Connection :=
    mkConnection (fd c) (id c) (peer_ip c) (state c) (inbox c) (request c) v (out_head c)
    (head_sent c) (out_body c) (body_offset c) (body_length c) (body_sent c) (out_inline_body c)
    (keep_alive c) (parked c) (deferred_keep_alive c) (requests_served c) (interest c) (deadline
    c).
Definition set_out_head (v : text) (c : Connection) : Connection :=
    mkConnection (fd c) (id c) (peer_ip c) (state c) (inbox c) (request c) (expected_body c) v
    (head_sent c) (out_body c) (body_offset c) (body_length c) (body_sent c) (out_inline_body c)
    (keep_alive c) (parked c) (deferred_keep_alive c) (requests_served c) (interest c) (deadline
    c).
Definition set_head_sent (v : nat) (c : Connection) : Connection :=
    mkConnection (fd c) (id c) (peer_ip c) (state c) (inbox c) (request c) (expected_body c)
    (out_head c) v (out_body c) (body_offset c) (body_length c) (body_sent c) (out_inline_body
    c) (keep_alive c) (parked c) (deferred_keep_alive c) (requests_served c) (interest c)
    (deadline c).
Definition set_out_body (v : text) (c : Connection) : Connection :=
    mkConnection (fd c) (id c) (peer_ip c) (state c) (inbox c) (request c) (expected_body c)
    (out_head c) (head_sent c) v (body_offset c) (body_length c) (body_sent c) (out_inline_body
    c) (keep_alive c) (parked c) (deferred_keep_alive c) (requests_served c) (interest c)
    (deadline c).
Definition set_body_offset (v : nat) (c : Connection) : Connection :=
    mkConnection (fd c) (id c) (peer_ip c) (state c) (inbox c) (request c) (expected_body c)
    (out_head c) (head_sent c) (out_body c) v (body_length c) (body_sent c) (out_inline_body c)
    (keep_alive c) (parked c) (deferred_keep_alive c) (requests_served c) (interest c) (deadline
    c).
Definition set_body_length (v : nat) (c : Connection) : Connection :=
    mkConnection (fd c) (id c) (peer_ip c) (state c) (inbox c) (request c) (expected_body c)
    (out_head c) (head_sent c) (out_body c) (body_offset c) v (body_sent c) (out_inline_body c)
    (keep_alive c) (parked c) (deferred_keep_alive c) (requests_served c) (interest c) (deadline
    c).
Definition set_body_sent (v : nat) (c : Connection) : Connection :=
    mkConnection (fd c) (id c) (peer_ip c) (state c) (inbox c) (request c) (expected_body c)
    (out_head c) (head_sent c) (out_body c) (body_offset c) (body_length c) v (out_inline_body
    c) (keep_alive c) (parked c) (deferred_keep_alive c) (requests_served c) (interest c)
    (deadline c).
Definition set_out_inline_body (v : text) (c : Connection) : Connection :=
    mkConnection (fd c) (id c) (peer_ip c) (state c) (inbox c) (request c) (expected_body c)
    (out_head c) (head_sent c) (out_body c) (body_offset c) (body_length c) (body_sent c) v
    (keep_alive c) (parked c) (deferred_keep_alive c) (requests_served c) (interest c) (deadline
    c).
Definition set_keep_alive (v : bool) (c : Connection) : Connection :=
    mkConnection (fd c) (id c) (peer_ip c) (state c) (inbox c) (request c) (expected_body c)
    (out_head c) (head_sent c) (out_body c) (body_offset c) (body_length c) (body_sent c)
    (out_inline_body c) v (parked c) (deferred_keep_alive c) (requests_served c) (interest c)
    (deadline c).
Definition set_parked (v : option Z) (c : Connection) : Connection :=
    mkConnection (fd c) (id c) (peer_ip c) (state c) (inbox c) (request c) (expected_body c)
    (out_head c) (head_sent c) (out_body c) (body_offset c) (body_length c) (body_sent c)
    (out_inline_body c) (keep_alive c) v (deferred_keep_alive c) (requests_served c) (interest
    c) (deadline c).
Definition set_deferred_keep_alive (v : bool) (c : Connection) : Connection :=
    mkConnection (fd c) (id c) (peer_ip c) (state c) (inbox c) (request c) (expected_body c)
    (out_head c) (head_sent c) (out_body c) (body_offset c) (body_length c) (body_sent c)
    (out_inline_body c) (keep_alive c) (parked c) v (requests_served c) (interest c) (deadline
    c).
Definition set_requests_served (v : Z) (c : Connection) : Connection :=
    mkConnection (fd c) (id c) (peer_ip c) (state c) (inbox c) (request c) (expected_body c)
    (out_head c) (head_sent c) (out_body c) (body_offset c) (body_length c) (body_sent c)
    (out_inline_body c) (keep_alive c) (parked c) (deferred_keep_alive c) v (interest c)
    (deadline c).
Definition set_interest (v : Interest) (c : Connection) : Connection :=
    mkConnection (fd c) (id c) (peer_ip c) (state c) (inbox c) (request c) (expected_body c)
    (out_head c) (head_sent c) (out_body c) (body_offset c) (body_length c) (body_sent c)
    (out_inline_body c) (keep_alive c) (parked c) (deferred_keep_alive c) (requests_served c) v
    (deadline c).
Definition set_deadline (v : Z) (c : Connection) : Connection :=
    mkConnection (fd c) (id c) (peer_ip c) (state c) (inbox c) (request c) (expected_body c)
    (out_head c) (head_sent c) (out_body c) (body_offset c) (body_length c) (body_sent c)
    (out_inline_body c) (keep_alive c) (parked c) (deferred_keep_alive c) (requests_served c)
    (interest c) v.

Record EventLoop := mkEventLoop {
  id_ : nat;
  connections_ : gmap Z Connection;  (* by descriptor *)
  next_connection_id_ : Z;
  next_sweep_ : Z
}.
Definition set_connections (v : gmap Z Connection) (l : EventLoop) : EventLoop :=
    mkEventLoop (id_ l) v (next_connection_id_ l) (next_sweep_ l).
Definition set_next_connection_id (v : Z) (l : EventLoop) : EventLoop :=
    mkEventLoop (id_ l) (connections_ l) v (next_sweep_ l).
Definition set_next_sweep (v : Z) (l : EventLoop) : EventLoop :=
    mkEventLoop (id_ l) (connections_ l) (next_connection_id_ l) v.

Record Inbound := mkInbound {
  resolved : list (Z * Z * HttpResponse);  (* the mailbox: descriptor, connection id, response *)
  closed : bool;  (* the mailbox of a loop that is gone *)
  handoff_ : list (Z * text);
  wakeup_pipe : Z;  (* bytes in the pipe *)
  stopping_ : bool
}.
Definition set_resolved (v : list (Z * Z * HttpResponse)) (b : Inbound) : Inbound :=
    mkInbound v (closed b) (handoff_ b) (wakeup_pipe b) (stopping_ b).
Definition set_closed (v : bool) (b : Inbound) : Inbound :=
    mkInbound (resolved b) v (handoff_ b) (wakeup_pipe b) (stopping_ b).
Definition set_handoff (v : list (Z * text)) (b : Inbound) : Inbound :=
    mkInbound (resolved b) (closed b) v (wakeup_pipe b) (stopping_ b).
Definition set_wakeup_pipe (v : Z) (b : Inbound) : Inbound :=
    mkInbound (resolved b) (closed b) (handoff_ b) v (stopping_ b).
Definition set_stopping (v : bool) (b : Inbound) : Inbound :=
    mkInbound (resolved b) (closed b) (handoff_ b) (wakeup_pipe b) v.

(** What happens to a connection, named by its loop and its id, and to deferred responses. *)
Inductive ConnEvent :=
  | Opened (ip : text)
  | Got (b : text)
  | Dispatched (r : HttpRequest) (answer : HttpResponse)
  | Began (r : HttpResponse) (ka : bool)
  | Wrote (b : text)
  | Shut.
Inductive Event :=
  | OnConnection (k : nat * Z) (e : ConnEvent)
  | Resolved (d : Z) (r : HttpResponse).

Record Server := mkServer {
  handler_set : bool;  (* [handler_] holds a function *)
  shard_accepts_ : bool;
  inbounds : gmap nat Inbound;  (* what other threads may reach of each loop *)
  next_loop_ : Z;
  active_connections_ : Z;
  accepted_ : Z;
  rejected_over_limit_ : Z;
  requests_ : Z;
  timeouts_ : Z;
  deferreds : gmap Z DeferredResponse;  (* the heap *)
  next_pointer : Z;
  posting : list (Completion * HttpResponse);  (* completions being called by other threads *)
  waking : list nat;  (* loops whose pipe such a call is about to write *)
  touched_dead : bool;  (* a closed connection was used *)
  log : list Event
}.
Definition set_inbounds (v : gmap nat Inbound) (s : Server) : Server :=
    mkServer (handler_set s) (shard_accepts_ s) v (next_loop_ s) (active_connections_ s)
    (accepted_ s) (rejected_over_limit_ s) (requests_ s) (timeouts_ s) (deferreds s)
    (next_pointer s) (posting s) (waking s) (touched_dead s) (log s).
Definition set_next_loop (v : Z) (s : Server) : Server :=
    mkServer (handler_set s) (shard_accepts_ s) (inbounds s) v (active_connections_ s)
    (accepted_ s) (rejected_over_limit_ s) (requests_ s) (timeouts_ s) (deferreds s)
    (next_pointer s) (posting s) (waking s) (touched_dead s) (log s).
Definition set_active_connections (v : Z) (s : Server) : Server :=
    mkServer (handler_set s) (shard_accepts_ s) (inbounds s) (next_loop_ s) v (accepted_ s)
    (rejected_over_limit_ s) (requests_ s) (timeouts_ s) (deferreds s) (next_pointer s) (posting
    s) (waking s) (touched_dead s) (log s).
Definition set_accepted (v : Z) (s : Server) : Server :=
    mkServer (handler_set s) (shard_accepts_ s) (inbounds s) (next_loop_ s) (active_connections_
    s) v (rejected_over_limit_ s) (requests_ s) (timeouts_ s) (deferreds s) (next_pointer s)
    (posting s) (waking s) (touched_dead s) (log s).
Definition set_rejected_over_limit (v : Z) (s : Server) : Server :=
    mkServer (handler_set s) (shard_accepts_ s) (inbounds s) (next_loop_ s) (active_connections_
    s) (accepted_ s) v (requests_ s) (timeouts_ s) (deferreds s) (next_pointer s) (posting s)
    (waking s) (touched_dead s) (log s).
Definition set_requests (v : Z) (s : Server) : Server :=
    mkServer (handler_set s) (shard_accepts_ s) (inbounds s) (next_loop_ s) (active_connections_
    s) (accepted_ s) (rejected_over_limit_ s) v (timeouts_ s) (deferreds s) (next_pointer s)
    (posting s) (waking s) (touched_dead s) (log s).
Definition set_timeouts (v : Z) (s : Server) : Server :=
    mkServer (handler_set s) (shard_accepts_ s) (inbounds s) (next_loop_ s) (active_connections_
    s) (accepted_ s) (rejected_over_limit_ s) (requests_ s) v (deferreds s) (next_pointer s)
    (posting s) (waking s) (touched_dead s) (log s).
Definition set_deferreds (v : gmap Z DeferredResponse) (s : Server) : Server :=
    mkServer (handler_set s) (shard_accepts_ s) (inbounds s) (next_loop_ s) (active_connections_
    s) (accepted_ s) (rejected_over_limit_ s) (requests_ s) (timeouts_ s) v (next_pointer s)
    (posting s) (waking s) (touched_dead s) (log s).
Definition set_next_pointer (v : Z) (s : Server) : Server :=
    mkServer (handler_set s) (shard_accepts_ s) (inbounds s) (next_loop_ s) (active_connections_
    s) (accepted_ s) (rejected_over_limit_ s) (requests_ s) (timeouts_ s) (deferreds s) v
    (posting s) (waking s) (touched_dead s) (log s).
Definition set_posting (v : list (Completion * HttpResponse)) (s : Server) : Server :=
    mkServer (handler_set s) (shard_accepts_ s) (inbounds s) (next_loop_ s) (active_connections_
    s) (accepted_ s) (rejected_over_limit_ s) (requests_ s) (timeouts_ s) (deferreds s)
    (next_pointer s) v (waking s) (touched_dead s) (log s).
Definition set_waking (v : list nat) (s : Server) : Server :=
    mkServer (handler_set s) (shard_accepts_ s) (inbounds s) (next_loop_ s) (active_connections_
    s) (accepted_ s) (rejected_over_limit_ s) (requests_ s) (timeouts_ s) (deferreds s)
    (next_pointer s) (posting s) v (touched_dead s) (log s).
Definition set_touched_dead (v : bool) (s : Server) : Server :=
    mkServer (handler_set s) (shard_accepts_ s) (inbounds s) (next_loop_ s) (active_connections_
    s) (accepted_ s) (rejected_over_limit_ s) (requests_ s) (timeouts_ s) (deferreds s)
    (next_pointer s) (posting s) (waking s) v (log s).
Definition set_log (v : list Event) (s : Server) : Server :=
    mkServer (handler_set s) (shard_accepts_ s) (inbounds s) (next_loop_ s) (active_connections_
    s) (accepted_ s) (rejected_over_limit_ s) (requests_ s) (timeouts_ s) (deferreds s)
    (next_pointer s) (posting s) (waking s) (touched_dead s) v.

(** What the system answers: a receive gives at most the bytes of the buffer, none when the
    peer has shut down; a send takes at least one byte and at most those it is offered. *)
Inductive RecvResult := Received (b : text) | RecvAgain | RecvInterrupted | RecvError.
Inductive SendResult := Sent (n : Z) | SendAgain | SendInterrupted | SendError.

(** What the handler answers: a response, or a deferral it has made for this request, which
    may have been resolved before the handler returns. *)
Inductive Answer :=
  | Now (r : HttpResponse)
  | Later (timeout_response : HttpResponse) (timeout : Z) (already : option HttpResponse).

(** One call sees one time; when the lists run out, sends would block and the handler gives
    the default response. *)
Record Outside := mkOutside {
  now : Z;
  sends : list SendResult;
  answers : list Answer;
  nonblocking_ok : Z -> bool;  (* [fcntl] *)
  poller_ok : Z -> bool  (* [epoll_ctl] *)
}.
Definition set_sends (v : list SendResult) (o : Outside) : Outside :=
    mkOutside (now o) v (answers o) (nonblocking_ok o) (poller_ok o).
Definition set_answers (v : list Answer) (o : Outside) : Outside :=
    mkOutside (now o) (sends o) v (nonblocking_ok o) (poller_ok o).

Record W := mkW {
  own : EventLoop;
  srv : Server;
  outside : Outside
}.
Definition set_own (v : EventLoop) (w : W) : W :=
    mkW v (srv w) (outside w).
Definition set_srv (v : Server) (w : W) : W :=
    mkW (own w) v (outside w).
Definition set_outside (v : Outside) (w : W) : W :=
    mkW (own w) (srv w) v.

Record AsyncHttpServerOptions := mkOptions {
  max_connections : Z;
  max_header_bytes : Z;
  max_body_bytes : Z;
  enable_keep_alive : bool;
  keep_alive_idle_timeout : Z;
  request_timeout : Z;
  max_requests_per_connection : Z
}.
Definition default_options : AsyncHttpServerOptions :=
  mkOptions 0 (16 * 1024) (128 * 1024) true 15000 30000 1000.

Definition kTimeoutSweepInterval : Z := 500.
Definition kChunk : nat := Z.to_nat (16 * 1024).

Definition on_srv (f : Server -> Server) (w : W) : W := set_srv (f (srv w)) w.
Definition on_own (f : EventLoop -> EventLoop) (w : W) : W := set_own (f (own w)) w.

Definition emit (e : Event) (s : Server) : Server := set_log (log s ++ [e]) s.
Definition note (c : Connection) (e : ConnEvent) (w : W) : W :=
  on_srv (emit (OnConnection (id_ (own w), id c) e)) w.

Definition connection (w : W) (fd : Z) : option Connection := connections_ (own w) !! fd.
Definition put (c : Connection) (w : W) : W :=
  on_own (fun l => set_connections (<[fd c := c]> (connections_ l)) l) w.
Definition dead (w : W) : W := on_srv (set_touched_dead true) w.

Definition on_inbound (i : nat) (f : Inbound -> Inbound) (s : Server) : Server :=
  set_inbounds (alter f i (inbounds s)) s.

Definition take_send (w : W) : SendResult * W :=
  match sends (outside w) with
  | [] => (SendAgain, w)
  | r :: rest => (r, set_outside (set_sends rest (outside w)) w)
  end.
Definition take_answer (w : W) : Answer * W :=
  match answers (outside w) with
  | [] => (Now default_response, w)
  | a :: rest => (a, set_outside (set_answers rest (outside w)) w)
  end.

(** The bodies of the answers the server gives by itself. *)
Definition quote : text := ["034"%char].
Definition json_error (what : string) : text :=
  str "{" ++ quote ++ str "error" ++ quote ++ str ":" ++ quote ++ str what ++ quote ++ str "}".
Definition json (status : Z) (b : text) : HttpResponse :=
  mkHttpResponse status (content_type default_response) b [] 0 0 ∅ None.

Section Loop.
Context (options : AsyncHttpServerOptions).
(** [inet_pton] accepts the text as an IPv4 or an IPv6 address. *)
Context (is_ip_literal : text -> bool).

(** * Connections *)

Definition close_connection (fd : Z) (w : W) : W :=
  match connection w fd with
  | None => w
  | Some c =>
      on_srv (fun s => set_active_connections (active_connections_ s - 1) s)
        (on_own (fun l => set_connections (delete fd (connections_ l)) l) (note c Shut w))
  end.

Definition touch (budget : Z) (w : W) (c : Connection) : Connection :=
  set_deadline (now (outside w) + budget) c.

Definition update_interest (i : Interest) (c : Connection) : Connection :=
  if decide (interest c = i) then c else set_interest i c.

(** [body_bytes]: where the body starts, and none for a null pointer. *)
Definition body_bytes (c : Connection) : option text :=
  match out_body c with
  | [] => match out_inline_body c with [] => None | inline => Some inline end
  | view => Some (drop (body_offset c) view)
  end.

(** The two vectors of a [sendmsg]. *)
Definition head_vector (c : Connection) : text := drop (head_sent c) (out_head c).
Definition body_vector (c : Connection) : text :=
  match body_bytes c with
  | None => []
  | Some bytes => take (body_length c - body_sent c) (drop (body_sent c) bytes)
  end.
Definition vectors (c : Connection) : nat :=
  (if (head_sent c <? length (out_head c))%nat then 1 else 0)
  + (if bool_decide (body_bytes c <> None) && (body_sent c <? body_length c)%nat then 1 else 0).

Definition advance (written : nat) (c : Connection) : Connection :=
  let head_step := Nat.min written (length (out_head c) - head_sent c) in
  set_body_sent (body_sent c + (written - head_step)) (set_head_sent (head_sent c + head_step) c).

Inductive SendLoop := FullyWritten | WouldBlock | Broken.

(** The loop of [flush], over what the system answers to each [sendmsg]. *)
Fixpoint send_loop (sends : list SendResult) (c : Connection) (written : text) :
    SendLoop * Connection * text * list SendResult :=
  if (vectors c =? 0)%nat then (FullyWritten, c, written, sends)
  else match sends with
       | [] => (WouldBlock, c, written, [])
       | SendInterrupted :: rest => send_loop rest c written
       | SendAgain :: rest => (WouldBlock, c, written, rest)
       | SendError :: rest => (Broken, c, written, rest)
       | Sent n :: rest =>
           let offered := head_vector c ++ body_vector c in
           let n := Nat.max 1 (Nat.min (Z.to_nat n) (length offered)) in
           send_loop rest (advance n c) (written ++ take n offered)
       end.

(** Ready for the next request; what was read past this one stays in the inbox. *)
Definition reset_for_next (w : W) (c : Connection) : Connection :=
  touch (keep_alive_idle_timeout options) w
    (update_interest kReadable
       (set_body_sent 0 (set_head_sent 0 (set_body_length 0 (set_body_offset 0 (set_out_body []
          (set_out_inline_body [] (set_out_head [] (set_state State.ReadingHead c))))))))).

Definition flush (fd : Z) (w : W) : W * bool :=
  match connection w fd with
  | None => (dead w, false)
  | Some c =>
      let '(outcome, c, written, rest) := send_loop (sends (outside w)) c [] in
      let w := note c (Wrote written) (set_outside (set_sends rest (outside w)) w) in
      match outcome with
      | WouldBlock => (put (update_interest kWritable c) w, true)
      | Broken => (close_connection fd (put c w), false)
      | FullyWritten =>
          if negb (keep_alive c) then (close_connection fd (put c w), false)
          else (put (reset_for_next w c) w, true)
      end
  end.

Definition begin_response (fd : Z) (response : HttpResponse) (ka : bool) (w : W) : W * bool :=
  match connection w fd with
  | None => (dead w, false)
  | Some c =>
      let w := note c (Began response ka) w in
      let c := set_body_sent 0 (set_head_sent 0
                 (set_out_head (serialize_response_head response ka) (set_keep_alive ka c))) in
      match shared_body response with
      | [] =>
          let c := set_out_inline_body (body response)
                     (set_body_length (length (body response)) (set_body_offset 0 (set_out_body [] c))) in
          flush fd (put (touch (request_timeout options) w (set_state State.Writing c)) w)
      | view =>
          if (zlen view <? shared_body_offset response)
             || (zlen view - shared_body_offset response <? shared_body_length response)
          then (close_connection fd (put c w), false)
          else
            let c := set_out_inline_body []
                       (set_body_length (Z.to_nat (shared_body_length response))
                          (set_body_offset (Z.to_nat (shared_body_offset response)) (set_out_body view c))) in
            flush fd (put (touch (request_timeout options) w (set_state State.Writing c)) w)
      end
  end.

Definition fail (fd status : Z) (w : W) : W * bool :=
  begin_response fd (json status (json_error "bad_request")) false w.

(** * Requests *)

Definition find_header (name : string) (r : HttpRequest) : option text := request_headers r !! str name.

Definition trim_back (l : text) : text := reverse (drop_spaces (reverse l)).
Definition set_client_ip (ip : text) (r : HttpRequest) : HttpRequest :=
  mkHttpRequest (method r) (path r) (query r) (http_version r) (request_headers r) (request_body r) ip.
Definition set_request_body (b : text) (r : HttpRequest) : HttpRequest :=
  mkHttpRequest (method r) (path r) (query r) (http_version r) (request_headers r) b (client_ip r).

(** X-Forwarded-For, trusted from loopback only. *)
Definition forwarded_ip (peer : text) (r : HttpRequest) : HttpRequest :=
  if bool_decide (peer = str "127.0.0.1") then
    match find_header "x-forwarded-for" r with
    | None => r
    | Some v =>
        let first := match find_char "," v with Some n => take n v | None => v end in
        let candidate := trim_back (drop_spaces first) in
        if is_ip_literal candidate then set_client_ip candidate r else r
    end
  else r.

Definition keeps_alive (served : Z) (r : HttpRequest) : bool :=
  let connection_header := find_header "connection" r in
  let client_wants_close := bool_decide (connection_header = Some (str "close")) in
  let client_wants_keep_alive := bool_decide (connection_header = Some (str "keep-alive")) in
  let http_1_1 := bool_decide (http_version r = str "HTTP/1.1") in
  enable_keep_alive options && negb client_wants_close && (http_1_1 || client_wants_keep_alive)
  && (served + 1 <? max_requests_per_connection options).

Definition undeferred (r : HttpResponse) : HttpResponse :=
  mkHttpResponse (status r) (content_type r) (body r) (shared_body r) (shared_body_offset r)
    (shared_body_length r) (response_headers r) None.
Definition with_deferral (d : Z) (r : HttpResponse) : HttpResponse :=
  mkHttpResponse (status r) (content_type r) (body r) (shared_body r) (shared_body_offset r)
    (shared_body_length r) (response_headers r) (Some d).

(** A deferral the handler makes, and the memory it takes. *)
Definition new_deferred (tr : HttpResponse) (budget : Z) (already : option HttpResponse) : DeferredResponse :=
  let cell := mkDeferredResponse tr budget None default_response false false in
  match already with None => cell | Some r => fst (resolve r cell) end.
Definition allocate (cell : DeferredResponse) (s : Server) : Server :=
  set_next_pointer (next_pointer s + 1) (set_deferreds (<[next_pointer s := cell]> (deferreds s)) s).

(** The handler's call.  A deferral is a new object. *)
Definition call_handler (w : W) : HttpResponse * W :=
  if handler_set (srv w) then
    let '(a, w) := take_answer w in
    match a with
    | Now r => (undeferred r, w)
    | Later tr budget already =>
        let d := next_pointer (srv w) in
        let s := allocate (new_deferred tr budget already) (srv w) in
        let s := match already with None => s | Some r => emit (Resolved d r) s end in
        (with_deferral d default_response, set_srv s w)
    end
  else (json 503 (json_error "no_handler"), w).

(** The completion [defer_response] attaches: it posts to the mailbox, unless the loop is
    gone, and writes a byte to the pipe. *)
Definition post (call : Completion * HttpResponse) (s : Server) : Server * list nat :=
  let '(t, r) := call in
  match inbounds s !! target_loop t with
  | None => (s, [])
  | Some b =>
      if closed b then (s, [])
      else (on_inbound (target_loop t) (set_resolved (resolved b ++ [(target_fd t, target_id t, r)])) s,
            [target_loop t])
  end.

(** A byte to the pipe; a pipe that is full refuses it, and is readable all the same. *)
Definition kPipe : Z := 65536.
Definition wake (i : nat) (s : Server) : Server :=
  on_inbound i (fun b => set_wakeup_pipe (Z.min kPipe (wakeup_pipe b + 1)) b) s.

Definition set_deferred_cell (d : Z) (cell : DeferredResponse) (s : Server) : Server :=
  set_deferreds (<[d := cell]> (deferreds s)) s.

Definition attach_to (d : Z) (t : Completion) (s : Server) : Server :=
  match deferreds s !! d with
  | None => s
  | Some cell =>
      let '(cell, call) := attach t cell in
      let s := set_deferred_cell d cell s in
      match call with
      | None => s
      | Some call => let '(s, wakes) := post call s in fold_right wake s wakes
      end
  end.

Definition defer_response (fd d : Z) (ka : bool) (w : W) : W * bool :=
  match connection w fd with
  | None => (dead w, false)
  | Some c =>
      let own_budget := match deferreds (srv w) !! d with Some cell => timeout cell | None => 0 end in
      let budget := if 0 <? own_budget then Z.min own_budget (request_timeout options)
                    else request_timeout options in
      let c := touch budget w (update_interest kNone
                 (set_deferred_keep_alive ka (set_parked (Some d) (set_state State.Deferred c)))) in
      (on_srv (attach_to d (mkCompletion (id_ (own w)) fd (id c))) (put c w), true)
  end.

Definition dispatch (fd : Z) (w : W) : W * bool :=
  match connection w fd with
  | None => (dead w, false)
  | Some c =>
      let r := forwarded_ip (peer_ip c) (request c) in
      let '(response, w) := call_handler w in
      let w := note c (Dispatched r response) (on_srv (fun s => set_requests (requests_ s + 1) s) w) in
      let ka := keeps_alive (requests_served c) r in
      let w := put (set_requests_served (requests_served c + 1) (set_request r c)) w in
      match deferred response with
      | Some d => defer_response fd d ka w
      | None => begin_response fd response ka w
      end
  end.

(** The head, when the inbox has all of it. *)
Inductive HeadStep := NeedsMore | Refused (status : Z) (c : Connection) | HeadRead (c : Connection).
Definition read_head (c : Connection) : HeadStep :=
  match find_text blank_line (inbox c) with
  | None => if max_header_bytes options <=? zlen (inbox c) then Refused 431 c else NeedsMore
  | Some marker =>
      if max_header_bytes options <? Z.of_nat marker then Refused 431 c
      else
        let blank := set_client_ip (peer_ip c) no_request in
        match parse_request_head (take marker (inbox c)) blank with
        | None => Refused 400 (set_request blank c)
        | Some r =>
            let '(length, valid) := content_length_of r in
            let c := set_expected_body length (set_request r c) in
            if negb valid then Refused 400 c
            else if max_body_bytes options <? length then Refused 413 c
            else HeadRead (set_state State.ReadingBody (set_inbox (drop (marker + 4) (inbox c)) c))
        end
  end.

(** The body moves from the inbox to the request; what follows it begins the next request. *)
Definition take_body (c : Connection) : Connection :=
  let n := Z.to_nat (expected_body c) in
  set_inbox (drop n (inbox c)) (set_request (set_request_body (take n (inbox c)) (request c)) c).

(** A round that goes on has taken a head off the inbox, but for the first, which may find one
    read already: its length, and two, is fuel enough. *)
Fixpoint consume_input (fuel : nat) (fd : Z) (w : W) : W * bool :=
  match fuel with
  | O => (dead w, false)
  | S fuel =>
      match connection w fd with
      | None => (dead w, false)
      | Some c =>
          match (match state c with State.ReadingHead => read_head c | _ => HeadRead c end) with
          | Refused status c => fail fd status (put c w)
          | NeedsMore => (w, true)
          | HeadRead c =>
              let w := put c w in
              match state c with
              | State.ReadingBody =>
                  if zlen (inbox c) <? expected_body c then (w, true)
                  else
                    let '(w, open) := dispatch fd (put (take_body c) w) in
                    if negb open then (w, false)
                    else match connection w fd with
                         | None => (dead w, false)
                         | Some c =>
                             match state c, inbox c with
                             | State.ReadingHead, _ :: _ => consume_input fuel fd w
                             | _, _ => (w, true)
                             end
                         end
              | _ => (w, true)
              end
          end
      end
  end.
Definition consume (fd : Z) (w : W) : W * bool :=
  match connection w fd with
  | None => (dead w, false)
  | Some c => consume_input (S (S (length (inbox c)))) fd w
  end.

(** * Readiness *)

(** The loop of [on_readable], over what the system answers to each [recv]. *)
Fixpoint receive_loop (reads : list RecvResult) (fd : Z) (w : W) : W :=
  match reads with
  | [] => w
  | RecvInterrupted :: rest => receive_loop rest fd w
  | RecvAgain :: _ => w
  | RecvError :: _ => close_connection fd w
  | Received b :: rest =>
      match take kChunk b with
      | [] => close_connection fd w
      | chunk =>
          match connection w fd with
          | None => dead w
          | Some c =>
              let w := put (set_inbox (inbox c ++ chunk) c) (note c (Got chunk) w) in
              let '(w, open) := consume fd w in
              if negb open then w
              else match connection w fd with
                   | None => dead w
                   | Some c => match state c with State.Writing => w | _ => receive_loop rest fd w end
                   end
          end
      end
  end.
Definition on_readable (reads : list RecvResult) (fd : Z) (w : W) : W :=
  match connection w fd with
  | None => dead w
  | Some c => match state c with State.Writing => w | _ => receive_loop reads fd w end
  end.

Definition on_writable (fd : Z) (w : W) : W :=
  match connection w fd with
  | None => dead w
  | Some c =>
      match state c with
      | State.Writing =>
          let '(w, open) := flush fd w in
          if negb open then w
          else match connection w fd with
               | None => w
               | Some c =>
                   match state c, inbox c with
                   | State.ReadingHead, _ :: _ => fst (consume fd w)
                   | _, _ => w
                   end
               end
      | _ => w
      end
  end.

(** * Resolutions and timeouts *)

(** A handler must not defer twice. *)
Definition settled (r : HttpResponse) : HttpResponse :=
  match deferred r with
  | None => r
  | Some _ =>
      mkHttpResponse 500 (content_type r) (json_error "nested_deferral") (shared_body r) (shared_body_offset r)
        (shared_body_length r) (response_headers r) None
  end.

Definition apply_resolved (w : W) (entry : Z * Z * HttpResponse) : W :=
  let '(fd, id', response) := entry in
  match connection w fd with
  | None => w
  | Some c =>
      match state c with
      | State.Deferred =>
          if decide (id c = id') then
            fst (begin_response fd (settled response) (deferred_keep_alive c) (put (set_parked None c) w))
          else w
      | _ => w
      end
  end.

Definition own_inbound (w : W) : Inbound :=
  default (mkInbound [] false [] 0 false) (inbounds (srv w) !! id_ (own w)).

Definition drain_resolved (w : W) : W :=
  let ready := resolved (own_inbound w) in
  foldl apply_resolved (on_srv (on_inbound (id_ (own w)) (set_resolved [])) w) ready.

Definition timeout_answer (r : HttpResponse) : HttpResponse :=
  let r := undeferred r in
  if status r =? 0 then
    mkHttpResponse 503 (content_type r) (body r) (shared_body r) (shared_body_offset r)
      (shared_body_length r) (response_headers r) None
  else r.

Definition count_timeout (w : W) : W := on_srv (fun s => set_timeouts (timeouts_ s + 1) s) w.

Definition expire (w : W) (fd : Z) : W :=
  match connection w fd with
  | None => w
  | Some c =>
      match state c, parked c with
      | State.Deferred, Some d =>
          let w := put (set_parked None c) w in
          match deferreds (srv w) !! d with
          | None => dead w
          | Some cell =>
              let '(cell', taken) := cancel cell in
              let w := on_srv (set_deferred_cell d cell') w in
              if taken then
                fst (begin_response fd (timeout_answer (timeout_response cell)) (deferred_keep_alive c)
                       (count_timeout w))
              else put (touch (request_timeout options) w (set_parked None c)) w
          end
      | _, _ => close_connection fd (count_timeout w)
      end
  end.

Definition expired (w : W) : list Z :=
  (filter (fun p : Z * Connection => deadline p.2 <= now (outside w)) (map_to_list (connections_ (own w)))).*1.
Definition sweep_timeouts (w : W) : W := foldl expire w (expired w).

(** * New connections *)

Definition add_connection (fd : Z) (ip : text) (w : W) : W :=
  let refuse := on_srv (fun s => set_active_connections (active_connections_ s - 1) s) in
  if negb (nonblocking_ok (outside w) fd) then refuse w
  else
    let i := next_connection_id_ (own w) in
    let c := mkConnection fd i ip State.ReadingHead [] no_request 0 [] 0 [] 0 0 0 [] false None false 0
               kReadable (now (outside w) + request_timeout options) in
    let w := on_own (set_next_connection_id (i + 1)) w in
    if negb (poller_ok (outside w) fd) then refuse w
    else match connection w fd with
         | Some _ => w
         | None => put c (note c (Opened ip) w)
         end.

(** [hand_off] under its lock; the byte it then writes to the pipe is [wake]. *)
Definition hand_off (i : nat) (fd : Z) (ip : text) (s : Server) : Server :=
  on_inbound i (fun b => set_handoff (handoff_ b ++ [(fd, ip)]) b) s.

(** What [accept] gives; the loop ends when it would block or fails.  The 503 a connection
    over the limit is sent, if its socket takes it, is not recorded. *)
Inductive AcceptResult := Accepted (fd : Z) (ip : text) | AcceptRetry.

(** The counter's [fetch_add], and what it gives. *)
Definition count_connection (w : W) : W * Z :=
  let open := active_connections_ (srv w) + 1 in
  (on_srv (set_active_connections open) w, open).
Definition over_limit (open : Z) : bool :=
  negb (max_connections options =? 0) && (max_connections options <? open).
Definition refuse_connection (w : W) : W :=
  on_srv (fun s => set_rejected_over_limit (rejected_over_limit_ s + 1)
                     (set_active_connections (active_connections_ s - 1) s)) w.
(** Where a connection within the limit goes; a loop it is handed to is to be woken. *)
Definition place_connection (fd : Z) (ip : text) (w : W) : W * option nat :=
  let w := on_srv (fun s => set_accepted (accepted_ s + 1) s) w in
  if shard_accepts_ (srv w) then (add_connection fd ip w, None)
  else
    let target := Z.to_nat (next_loop_ (srv w) mod Z.of_nat (size (inbounds (srv w)))) in
    let w := on_srv (fun s => set_next_loop (u64 (next_loop_ s + 1)) s) w in
    if (target =? id_ (own w))%nat then (add_connection fd ip w, None)
    else (on_srv (hand_off target fd ip) w, Some target).
Definition accept_one (w : W) (fd : Z) (ip : text) : W :=
  let '(w, open) := count_connection w in
  if over_limit open then refuse_connection w
  else
    let '(w, woken) := place_connection fd ip w in
    match woken with Some target => on_srv (wake target) w | None => w end.

Definition accept_ready (results : list AcceptResult) (w : W) : W :=
  foldl (fun w r => match r with Accepted fd ip => accept_one w fd ip | AcceptRetry => w end) w results.

Definition adopt (w : W) (handed : Z * text) : W :=
  if stopping_ (own_inbound w) then
    on_srv (fun s => set_active_connections (active_connections_ s - 1) s) w
  else add_connection handed.1 handed.2 w.

(** [drain_wakeup] in the order of its three parts. *)
Definition read_wakeup (w : W) : W := on_srv (on_inbound (id_ (own w)) (set_wakeup_pipe 0)) w.
Definition drain_handoff (w : W) : W :=
  let pending := handoff_ (own_inbound w) in
  foldl adopt (on_srv (on_inbound (id_ (own w)) (set_handoff [])) w) pending.
Definition drain_wakeup (w : W) : W := drain_handoff (drain_resolved (read_wakeup w)).

(** * The loop *)

Inductive ReadyEvent :=
  | WakeupReady
  | ListenReady (results : list AcceptResult)
  | Ready (fd : Z) (readable writable hangup : bool) (reads : list RecvResult).

Definition process_event (w : W) (e : ReadyEvent) : W :=
  match e with
  | WakeupReady => drain_wakeup w
  | ListenReady results => accept_ready results w
  | Ready fd readable writable hangup reads =>
      match connection w fd with
      | None => w
      | Some _ =>
          if hangup && negb readable then close_connection fd w
          else
            let w := if writable then on_writable fd w else w in
            match connection w fd with
            | None => w
            | Some _ => if readable then on_readable reads fd w else w
            end
      end
  end.

(** One round of [run]: the ready events, then the sweep when it is due. *)
Definition run_round (w : W) (ready : list ReadyEvent) : W :=
  let w := foldl process_event w ready in
  if next_sweep_ (own w) <=? now (outside w) then
    let w := sweep_timeouts w in
    on_own (set_next_sweep (now (outside w) + kTimeoutSweepInterval)) w
  else w.

(** What [run] does when its loop has ended. *)
Definition close_all (w : W) : W :=
  foldl (fun w fd => close_connection fd w) w (map_to_list (connections_ (own w))).*1.
Definition finish (w : W) : W := close_all (drain_wakeup w).

(** * In turns *)

(** Other threads, and other loops, may come between the atomic operations of [drain_wakeup]
    and of [accept_ready]: where a loop is in them, with what it holds. *)
Inductive Turn :=
  | Idle
  | PipeRead
  | MailboxTaken
  | ConnectionCounted (fd : Z) (ip : text) (open : Z)
  | HandedOff (target : nat).

(** The first operation, and the one that follows. *)
Definition begin_drain (w : W) : W * Turn := (read_wakeup w, PipeRead).
Definition begin_accept (fd : Z) (ip : text) (w : W) : W * Turn :=
  let '(w, open) := count_connection w in (w, ConnectionCounted fd ip open).
Definition resume (t : Turn) (w : W) : W * Turn :=
  match t with
  | Idle => (w, Idle)
  | PipeRead => (drain_resolved w, MailboxTaken)
  | MailboxTaken => (drain_handoff w, Idle)
  | ConnectionCounted fd ip open =>
      if over_limit open then (refuse_connection w, Idle)
      else
        let '(w, woken) := place_connection fd ip w in
        (w, match woken with Some target => HandedOff target | None => Idle end)
  | HandedOff target => (on_srv (wake target) w, Idle)
  end.

(** Uninterrupted, the turns are [drain_wakeup] and the body of the loop of [accept_ready]. *)
Definition resume_next (r : W * Turn) : W * Turn := resume r.2 r.1.
Lemma drain_in_turns w : resume_next (resume_next (begin_drain w)) = (drain_wakeup w, Idle).
Proof. done. Qed.
Lemma accept_in_turns fd ip w : resume_next (resume_next (begin_accept fd ip w)) = (accept_one w fd ip, Idle).
Proof.
  unfold begin_accept, accept_one. destruct (count_connection w) as [w1 open]. unfold resume_next at 2. cbn [fst snd resume].
  destruct (over_limit open); [done|]. by destruct (place_connection fd ip w1) as [w2 [target|] ].
Qed.

End Loop.

(** * Other threads *)

(** [resolve] on the shared object: its critical section, after which the completion is
    about to be called. *)
Definition resolve_deferred (d : Z) (r : HttpResponse) (s : Server) : Server :=
  match deferreds s !! d with
  | None => s
  | Some cell =>
      if resolved_ cell || delivered_ cell then s
      else
        let '(cell', call) := resolve r cell in
        let s := emit (Resolved d r) (set_deferred_cell d cell' s) in
        match call with None => s | Some call => set_posting (posting s ++ [call]) s end
  end.
(** The completion that thread calls: into the mailbox, then a byte to the pipe. *)
Definition post_next (n : nat) (s : Server) : Server :=
  match posting s !! n with
  | None => s
  | Some call =>
      let '(s, wakes) := post call (set_posting (delete n (posting s)) s) in
      set_waking (waking s ++ wakes) s
  end.
Definition wake_next (n : nat) (s : Server) : Server :=
  match waking s !! n with
  | None => s
  | Some i => wake i (set_waking (delete n (waking s)) s)
  end.

Definition request_stop (i : nat) (s : Server) : Server := wake i (on_inbound i (set_stopping true) s).
(** The destructor of a loop, which runs when its thread has been joined. *)
Definition close_mailbox (i : nat) (s : Server) : Server := on_inbound i (set_closed true) s.

(** A server with [n] loops. *)
Definition make_inbound : Inbound := mkInbound [] false [] 0 false.
Definition make_loop (i : nat) (now : Z) : EventLoop := mkEventLoop i ∅ 1 (now + kTimeoutSweepInterval).
Definition make_server (handler shard : bool) (n : nat) : Server :=
  mkServer handler shard (list_to_map (map (fun i => (i, make_inbound)) (seq 0 n))) 0 0 0 0 0 0 ∅ 1 [] [] false [].
