(* ===== verification/AsyncHttpSafe.v ===== *)
(** The loops of the HTTP server beside the threads that resolve deferred responses, as a
    step relation, and its invariant: what every connection has been sent, against the bytes
    it has received. *)

From S2P Require Import Prelude Text HttpMessage AsyncHttp.
From Stdlib Require Import Ascii.

(** * What a connection has seen *)

Record Trace := mkTrace {
  peer : text;
  received : text;                                    (* bytes read *)
  dispatched : list (HttpRequest * HttpResponse);     (* requests, with the handler's answers *)
  began : list (HttpResponse * bool);                 (* responses begun, with the keep-alive *)
  wrote : text                                        (* bytes the socket has taken *)
}.
Definition no_trace : Trace := mkTrace [] [] [] [] [].
Definition see (t : Trace) (e : ConnEvent) : Trace :=
  match e with
  | Opened ip => mkTrace ip (received t) (dispatched t) (began t) (wrote t)
  | Got b => mkTrace (peer t) (received t ++ b) (dispatched t) (began t) (wrote t)
  | Dispatched r a => mkTrace (peer t) (received t) (dispatched t ++ [(r, a)]) (began t) (wrote t)
  | Began r ka => mkTrace (peer t) (received t) (dispatched t) (began t ++ [(r, ka)]) (wrote t)
  | Wrote b => mkTrace (peer t) (received t) (dispatched t) (began t) (wrote t ++ b)
  | Shut => t
  end.
Definition see_event (k : nat * Z) (t : Trace) (e : Event) : Trace :=
  match e with
  | OnConnection k' e => if decide (k' = k) then see t e else t
  | Resolved _ _ => t
  end.
Definition trace_of (k : nat * Z) (l : list Event) : Trace := foldl (see_event k) no_trace l.

(** * The requests in a stream of bytes *)

Section Frames.
Context (options : AsyncHttpServerOptions) (is_ip_literal : text -> bool).

Definition blank_request (ip : text) : HttpRequest := set_client_ip ip no_request.

(** The head at the front of [b], and what is behind it. *)
Definition head_of (ip b : text) : option (HttpRequest * Z * text) :=
  match find_text blank_line b with
  | None => None
  | Some marker =>
      if max_header_bytes options <? Z.of_nat marker then None
      else match parse_request_head (take marker b) (blank_request ip) with
           | None => None
           | Some r =>
               let '(n, valid) := content_length_of r in
               if valid && (n <=? max_body_bytes options) then Some (r, n, drop (marker + 4) b) else None
           end
  end.

(** The request at the front of [b], as the handler is to see it. *)
Definition frame (ip b : text) : option (HttpRequest * text) :=
  match head_of ip b with
  | None => None
  | Some (r, n, rest) =>
      if zlen rest <? n then None
      else Some (forwarded_ip is_ip_literal ip (set_request_body (take (Z.to_nat n) rest) r),
                 drop (Z.to_nat n) rest)
  end.

(** [b] is the requests [rs], one behind the other, and then [rest]. *)
Inductive Frames (ip : text) : text -> list HttpRequest -> text -> Prop :=
  | Frames_nil b : Frames ip b [] b
  | Frames_cons b r b' rs rest : frame ip b = Some (r, b') -> Frames ip b' rs rest -> Frames ip b (r :: rs) rest.

Lemma head_of_more ip b r n rest more : head_of ip b = Some (r, n, rest) ->
  head_of ip (b ++ more) = Some (r, n, rest ++ more).
Proof.
  unfold head_of. destruct (find_text blank_line b) as [m|] eqn:E; [|done].
  rewrite (find_text_more _ _ _ more E). pose proof (find_text_fits _ _ _ E) as Hf. cbn in Hf.
  rewrite take_app_le, drop_app_le by lia. repeat (case_match; try done). by intros [= <- <- <-].
Qed.
Lemma frame_more ip b r rest more : frame ip b = Some (r, rest) -> frame ip (b ++ more) = Some (r, rest ++ more).
Proof.
  unfold frame. destruct (head_of ip b) as [ [ [r0 n] b']|] eqn:E; [|done].
  rewrite (head_of_more _ _ _ _ _ more E). destruct (Z.ltb_spec (zlen b') n); [done|].
  unfold zlen in *. rewrite length_app. destruct (Z.ltb_spec (Z.of_nat (length b' + length more)) n); [lia|].
  rewrite take_app_le, drop_app_le by lia. by intros [= <- <-].
Qed.

Lemma Frames_more ip b rs rest more : Frames ip b rs rest -> Frames ip (b ++ more) rs (rest ++ more).
Proof. induction 1; econstructor; [by apply frame_more|done]. Qed.
Lemma Frames_snoc ip b rs b' r rest : Frames ip b rs b' -> frame ip b' = Some (r, rest) ->
  Frames ip b (rs ++ [r]) rest.
Proof. induction 1; intros Hf; econstructor; [done|constructor|done|by apply IHFrames]. Qed.
Lemma Frames_det ip b rs rest : Frames ip b rs rest -> forall rs2 rest2, Frames ip b rs2 rest2 ->
  frame ip rest = None -> frame ip rest2 = None -> rs = rs2 /\ rest = rest2.
Proof.
  induction 1 as [b|b r b' rs rest Hf _ IH]; intros rs2 rest2 H2 Hn Hn2.
  - inversion H2; subst; [done|congruence].
  - inversion H2 as [|? r2 b2 rs3 ? Hf2 H3]; subst; [congruence|].
    rewrite Hf in Hf2. injection Hf2 as <- <-. by destruct (IH _ _ H3 Hn Hn2) as [-> ->].
Qed.
End Frames.

(** * The invariant *)

Definition wires (b : list (HttpResponse * bool)) : text := concat (map (fun rk => wire rk.1 rk.2) b).
Definition refusal (status : Z) : HttpResponse := json status (json_error "bad_request").
Definition pending (c : Connection) : text := head_vector c ++ body_vector c.

Notation key := (nat * Z)%type.
Definition key_of (t : Completion) : key := (target_loop t, target_id t).

(** A response belongs to a request: it is what the handler answered; or what the deferral
    the handler made for it was resolved with, or its answer for when time runs out. *)
Definition answer_for (s : Server) (d : HttpRequest * HttpResponse) (r : HttpResponse) : Prop :=
  match deferred d.2 with
  | None => r = d.2
  | Some p =>
      (exists r0, Resolved p r0 ∈ log s /\ r = settled r0)
      \/ (exists cell, deferreds s !! p = Some cell /\ r = timeout_answer (timeout_response cell))
  end.

(** Completions on their way to the mailbox of a loop, or in it; [ex] are those the loop has
    taken out and has not come to yet. *)
Definition mailbox (s : Server) (i : nat) : list (Completion * HttpResponse) :=
  match inbounds s !! i with
  | None => []
  | Some b => map (fun '(f, n, r) => (mkCompletion i f n, r)) (resolved b)
  end.
Definition inflight (ex : list (Completion * HttpResponse)) (s : Server) (k : key) :
    list (Completion * HttpResponse) :=
  filter (fun call => key_of call.1 = k) (ex ++ posting s ++ mailbox s k.1).
Definition untouched (k : key) (cell : DeferredResponse) : Prop :=
  forall t, completion_ cell = Some t -> key_of t <> k.
Definition no_tokens ex (s : Server) (k : key) : Prop :=
  inflight ex s k = [] /\ forall d cell, deferreds s !! d = Some cell -> untouched k cell.

(** The last request of the connection was deferred, by the deferral [d]. *)
Definition waits_for (t : Trace) (d : Z) : Prop :=
  exists d0 r a, dispatched t = d0 ++ [(r, a)] /\ deferred a = Some d.

Definition tokens_ok ex (s : Server) (k : key) (t : Trace) : Prop :=
  (length (inflight ex s k) <= 1)%nat
  /\ (forall call, call ∈ inflight ex s k -> exists d cell, waits_for t d
        /\ deferreds s !! d = Some cell /\ delivered_ cell = true /\ Resolved d call.2 ∈ log s)
  /\ (forall d cell, deferreds s !! d = Some cell -> ~ untouched k cell ->
        delivered_ cell = false /\ resolved_ cell = false /\ waits_for t d).

Section Server.
Context (options : AsyncHttpServerOptions) (is_ip_literal : text -> bool).

(** The responses begun answer the requests, one each and in order; they keep the connection
    open as the request and the count of requests ask. *)
Definition answered (s : Server) (d : list (HttpRequest * HttpResponse)) (b : list (HttpResponse * bool)) : Prop :=
  Forall2 (fun d b => answer_for s d b.1) d b
  /\ b.*2 = imap (fun n d => keeps_alive options (Z.of_nat n) d.1) d.

(** What holds of a connection whatever has become of it. *)
Definition trace_ok (s : Server) (t : Trace) : Prop :=
  exists rest d1 d2 b1 b2,
    Frames options is_ip_literal (peer t) (received t) (dispatched t).*1 rest
    /\ dispatched t = d1 ++ d2 /\ began t = b1 ++ b2 /\ answered s d1 b1
    /\ (length d2 <= 1)%nat
    /\ (b2 = [] \/ d2 = [] /\ exists status, b2 = [(refusal status, false)])
    /\ wrote t `prefix_of` wires (began t).

Definition reading_ok (c : Connection) (t : Trace) : Prop :=
  exists b, Frames options is_ip_literal (peer t) (received t) (dispatched t).*1 b
    /\ match state c with
       | State.ReadingBody => head_of options (peer t) b = Some (request c, expected_body c, inbox c)
       | _ => b = inbox c
       end.
Definition answers_ok (i : nat) (s : Server) (c : Connection) (t : Trace) : Prop :=
  match state c with
  | State.ReadingHead | State.ReadingBody => answered s (dispatched t) (began t)
  | State.Writing =>
      exists b r, began t = b ++ [(r, keep_alive c)]
        /\ (answered s (dispatched t) (began t)
            \/ answered s (dispatched t) b /\ keep_alive c = false /\ exists status, r = refusal status)
  | State.Deferred =>
      exists d0 r a d cell, dispatched t = d0 ++ [(r, a)] /\ answered s d0 (began t)
        /\ deferred a = Some d /\ deferred_keep_alive c = keeps_alive options (Z.of_nat (length d0)) r
        /\ (parked c = None \/ parked c = Some d)
        /\ deferreds s !! d = Some cell
        /\ (delivered_ cell = false -> completion_ cell = Some (mkCompletion i (fd c) (id c)))
  end.
Definition alive_ok ex (i : nat) (s : Server) (c : Connection) (t : Trace) : Prop :=
  peer t = peer_ip c
  /\ requests_served c = Z.of_nat (length (dispatched t))
  /\ reading_ok c t
  /\ match state c with
     | State.Writing => wrote t ++ pending c = wires (began t)
     | _ => wrote t = wires (began t)
     end
  /\ answers_ok i s c t
  /\ (state c <> State.Deferred -> no_tokens ex s (i, id c)).

(** Nothing that could be handled is left in the inbox, as long as no answer has been
    deferred; and what is there is bounded. *)
Definition undeferred_trace (t : Trace) : Prop := Forall (fun d => deferred d.2 = None) (dispatched t).
Definition inbox_limit : Z :=
  Z.max 0 (Z.max (max_header_bytes options) (max_body_bytes options)) + 16 * 1024.
Definition quiet (c : Connection) : Prop :=
  match state c with
  | State.ReadingHead => find_text blank_line (inbox c) = None /\ zlen (inbox c) <= Z.max 0 (max_header_bytes options)
  | State.ReadingBody => zlen (inbox c) < expected_body c /\ expected_body c <= max_body_bytes options
  | _ => True
  end /\ zlen (inbox c) <= inbox_limit.

Definition KInv ex (ls : gmap nat EventLoop) (s : Server) (k : key) : Prop :=
  let t := trace_of k (log s) in
  trace_ok s t /\ tokens_ok ex s k t
  /\ forall l f c, ls !! k.1 = Some l -> connections_ l !! f = Some c -> id c = k.2 ->
       alive_ok ex k.1 s c t /\ (undeferred_trace t -> quiet c).

Definition loop_ok (s : Server) (i : nat) (l : EventLoop) : Prop :=
  id_ l = i /\ is_Some (inbounds s !! i)
  /\ (forall f c, connections_ l !! f = Some c -> fd c = f /\ id c < next_connection_id_ l)
  /\ (forall f1 f2 c1 c2, connections_ l !! f1 = Some c1 -> connections_ l !! f2 = Some c2 ->
        id c1 = id c2 -> f1 = f2)
  /\ (forall n, next_connection_id_ l <= n -> trace_of (i, n) (log s) = no_trace).
Definition shape_ok (ls : gmap nat EventLoop) (s : Server) : Prop :=
  (forall i l, ls !! i = Some l -> loop_ok s i l)
  /\ touched_dead s = false
  /\ (forall d cell, deferreds s !! d = Some cell -> d < next_pointer s).

Definition Inv ex (ls : gmap nat EventLoop) (s : Server) : Prop :=
  shape_ok ls s /\ forall k, KInv ex ls s k.

(** * What the rest of the server does not notice *)

Definition heap_frame (k : key) (s s' : Server) : Prop :=
  forall d, match deferreds s !! d, deferreds s' !! d with
    | Some x, Some y =>
        timeout_response y = timeout_response x
        /\ (y = x \/ delivered_ x = false /\ untouched k x /\ untouched k y)
    | None, Some y => untouched k y
    | None, None => True
    | Some _, None => False
    end.

(** The server has only gone on. *)
Definition later (s s' : Server) : Prop :=
  (forall d r, Resolved d r ∈ log s -> Resolved d r ∈ log s')
  /\ (forall d x, deferreds s !! d = Some x -> exists y, deferreds s' !! d = Some y /\ timeout_response y = timeout_response x).

Lemma answer_for_later s s' d r : later s s' -> answer_for s d r -> answer_for s' d r.
Proof.
  intros [Hl Hd]. unfold answer_for. destruct (deferred d.2) as [p|]; [|done].
  intros [ (r0 & Hr & ->)|(cell & Hc & ->)]; [left; eauto|]. right.
  destruct (Hd _ _ Hc) as (y & Hy & <-). eauto.
Qed.
Lemma answered_later s s' d b : later s s' -> answered s d b -> answered s' d b.
Proof.
  intros Hl [H1 H2]. split; [|done]. eapply list.Forall2_impl; [exact H1|]. intros; by eapply answer_for_later.
Qed.
Lemma trace_ok_later s s' t : later s s' -> trace_ok s t -> trace_ok s' t.
Proof.
  intros Hl (rest & d1 & d2 & b1 & b2 & H1 & H2 & H3 & H4 & H5).
  exists rest, d1, d2, b1, b2. split_and!; try tauto. by eapply answered_later.
Qed.

Lemma heap_frame_later k s s' : heap_frame k s s' ->
  (forall d r, Resolved d r ∈ log s -> Resolved d r ∈ log s') -> later s s'.
Proof.
  intros Hh Hr. split; [done|]. intros d x Hx. specialize (Hh d). rewrite Hx in Hh.
  destruct (deferreds s' !! d) as [y|]; [|done]. exists y. by destruct Hh.
Qed.

Lemma tokens_frame ex ex' s s' k t : heap_frame k s s' ->
  (forall d r, Resolved d r ∈ log s -> Resolved d r ∈ log s') ->
  inflight ex' s' k = inflight ex s k -> tokens_ok ex s k t -> tokens_ok ex' s' k t.
Proof.
  intros Hh Hr Hi (H1 & H2 & H3). rewrite <- Hi in *. split; [done|split].
  - intros call Hc. destruct (H2 call Hc) as (d & cell & Hw & Hd & Hdel & Hres).
    pose proof (Hh d) as Hx. rewrite Hd in Hx. destruct (deferreds s' !! d) as [y|] eqn:Ey; [|done].
    destruct Hx as [_ [->|(Hf & _)]]; [|congruence]. exists d, cell. eauto.
  - intros d cell Hd Hu. specialize (Hh d). rewrite Hd in Hh.
    destruct (deferreds s !! d) as [x|] eqn:Ex; [|done]. destruct Hh as [_ [->|(_ & _ & Hc)]]; [|done].
    by apply (H3 d x).
Qed.
Lemma no_tokens_frame ex ex' s s' k : heap_frame k s s' -> inflight ex' s' k = inflight ex s k ->
  no_tokens ex s k -> no_tokens ex' s' k.
Proof.
  intros Hh Hi [H1 H2]. split; [by rewrite Hi|]. intros d cell Hd. specialize (Hh d). rewrite Hd in Hh.
  destruct (deferreds s !! d) as [x|] eqn:Ex; [|done]. destruct Hh as [_ [->|(_ & _ & Hc)]]; [|done].
  by apply (H2 d).
Qed.

Lemma alive_frame ex ex' i s s' c t : heap_frame (i, id c) s s' ->
  (forall d r, Resolved d r ∈ log s -> Resolved d r ∈ log s') ->
  inflight ex' s' (i, id c) = inflight ex s (i, id c) ->
  alive_ok ex i s c t -> alive_ok ex' i s' c t.
Proof.
  intros Hh Hr Hi (H1 & H2 & H3 & H4 & H5 & H6). pose proof (heap_frame_later _ _ _ Hh Hr) as Hl.
  do 4 (split; [done|]). split; [|intros Hs; by eapply no_tokens_frame, H6].
  unfold answers_ok in *. destruct (state c).
  - by eapply answered_later.
  - by eapply answered_later.
  - destruct H5 as (b & r & Hb & Ha). exists b, r. split; [done|].
    destruct Ha as [Ha|[Ha ?] ]; [left|right; split; [|done] ]; by eapply answered_later.
  - destruct H5 as (d0 & r & a & d & cell & Hd & Ha & Hp & Hk & Hpk & Hc & Hdel).
    pose proof (Hh d) as Hx. rewrite Hc in Hx. destruct (deferreds s' !! d) as [y|] eqn:Ey; [|done].
    exists d0, r, a, d, y. split_and!; try done; [by eapply answered_later|].
    destruct Hx as [_ [->|(Hf & Hu & _)]]; [done|]. exfalso. by apply (Hu _ (Hdel Hf)).
Qed.

Lemma KInv_frame ex ex' ls ls' s s' k : KInv ex ls s k ->
  trace_of k (log s') = trace_of k (log s) ->
  (forall d r, Resolved d r ∈ log s -> Resolved d r ∈ log s') ->
  heap_frame k s s' -> inflight ex' s' k = inflight ex s k ->
  (forall l' f c, ls' !! k.1 = Some l' -> connections_ l' !! f = Some c -> id c = k.2 ->
     exists l, ls !! k.1 = Some l /\ connections_ l !! f = Some c) ->
  KInv ex' ls' s' k.
Proof.
  intros (H1 & H2 & H3) Ht Hr Hh Hi Hc. unfold KInv. rewrite Ht. split; [|split].
  - eapply trace_ok_later; [|exact H1]. by eapply heap_frame_later.
  - by eapply tokens_frame.
  - intros l' f c Hl Hf Hid. destruct (Hc _ _ _ Hl Hf Hid) as (l & Hl0 & Hf0).
    destruct (H3 l f c Hl0 Hf0 Hid) as [Ha Hq]. split; [|done].
    destruct k as [i n]. cbn in *. subst n. by eapply alive_frame.
Qed.
End Server.
