(* ===== verification/AsyncHttpRuns.v ===== *)
(** Every operation of a loop of the HTTP server keeps the invariant of AsyncHttpSafe.v: what
    an operation on one connection leaves alone, and what it makes of that connection. *)

From S2P Require Import Prelude Text HttpMessage AsyncHttp AsyncHttpSafe.
From Stdlib Require Import Ascii.

(** * What an operation leaves alone *)

Definition heap_bounded (s : Server) : Prop := forall d cell, deferreds s !! d = Some cell -> d < next_pointer s.

(** The server has changed in what concerns the connection [k] only. *)
Definition srv_frame ex ex' (k : nat * Z) (s s' : Server) : Prop :=
  (forall d r, Resolved d r ∈ log s -> Resolved d r ∈ log s')
  /\ (forall k', k' <> k -> trace_of k' (log s') = trace_of k' (log s) /\ heap_frame k' s s'
                          /\ inflight ex' s' k' = inflight ex s k')
  /\ (forall i, is_Some (inbounds s !! i) -> is_Some (inbounds s' !! i))
  /\ touched_dead s' = touched_dead s
  /\ (heap_bounded s -> heap_bounded s')
  /\ log s `prefix_of` log s'.

(** ... and the loop, in the connection [f] only. *)
Definition wframe ex ex' (f : Z) (k : nat * Z) (w w' : W) : Prop :=
  srv_frame ex ex' k (srv w) (srv w') /\ id_ (own w') = id_ (own w)
  /\ next_connection_id_ (own w') = next_connection_id_ (own w)
  /\ (forall f', f' <> f -> connections_ (own w') !! f' = connections_ (own w) !! f')
  /\ (connections_ (own w) !! f = None -> connections_ (own w') !! f = None).

Lemma heap_frame_refl k s : heap_frame k s s.
Proof. intros d. destruct (deferreds s !! d); auto. Qed.
Lemma heap_frame_same k s s' : deferreds s' = deferreds s -> heap_frame k s s'.
Proof. intros E d. rewrite E. destruct (deferreds s !! d); auto. Qed.
Lemma heap_frame_trans k s1 s2 s3 : heap_frame k s1 s2 -> heap_frame k s2 s3 -> heap_frame k s1 s3.
Proof.
  intros H1 H2 d. specialize (H1 d). specialize (H2 d).
  destruct (deferreds s1 !! d) as [x|], (deferreds s2 !! d) as [y|], (deferreds s3 !! d) as [z|]; try done.
  - destruct H1 as [E1 H1], H2 as [E2 H2]. split; [congruence|].
    destruct H1 as [->|(? & ? & ?)]; [done|]. destruct H2 as [->|(? & ? & ?)]; auto.
  - destruct H2 as [_ [->|(_ & _ & ?)]]; done.
Qed.

Lemma srv_frame_refl ex k s : srv_frame ex ex k s s.
Proof. split_and!; auto. intros k' _. split_and!; auto using heap_frame_refl. Qed.
Lemma srv_frame_trans ex1 ex2 ex3 k s1 s2 s3 :
  srv_frame ex1 ex2 k s1 s2 -> srv_frame ex2 ex3 k s2 s3 -> srv_frame ex1 ex3 k s1 s3.
Proof.
  intros (A1 & A2 & A3 & A4 & A5 & A6) (B1 & B2 & B3 & B4 & B5 & B6). split_and!; auto; [|congruence|by etrans].
  intros k' Hk. destruct (A2 k' Hk) as (? & ? & ?), (B2 k' Hk) as (? & ? & ?).
  split_and!; [congruence|by eapply heap_frame_trans|congruence].
Qed.
Lemma wframe_refl ex f k w : wframe ex ex f k w w.
Proof. split_and!; auto using srv_frame_refl. Qed.
Lemma wframe_trans ex1 ex2 ex3 f k w1 w2 w3 :
  wframe ex1 ex2 f k w1 w2 -> wframe ex2 ex3 f k w2 w3 -> wframe ex1 ex3 f k w1 w3.
Proof.
  intros (A1 & A2 & A3 & A4 & A5) (B1 & B2 & B3 & B4 & B5). split_and!; try congruence.
  - by eapply srv_frame_trans.
  - intros f' Hf. rewrite B4, A4 by done. done.
  - auto.
Qed.

(** Changes that touch neither logs nor tokens. *)
Lemma srv_frame_core ex k s s' : log s' = log s -> deferreds s' = deferreds s ->
  next_pointer s' = next_pointer s -> posting s' = posting s -> touched_dead s' = touched_dead s ->
  (forall i, mailbox s' i = mailbox s i) -> (forall i, is_Some (inbounds s !! i) -> is_Some (inbounds s' !! i)) ->
  srv_frame ex ex k s s'.
Proof.
  intros El Ed En Ep Et Em Ei. split_and!; auto.
  - intros d r. by rewrite El.
  - intros k' _. rewrite El. split_and!; [done|by apply heap_frame_same|].
    unfold inflight. by rewrite Ep, Em.
  - unfold heap_bounded. by rewrite Ed, En.
  - by rewrite El.
Qed.

Lemma trace_of_app k l e : trace_of k (l ++ [e]) = see_event k (trace_of k l) e.
Proof. unfold trace_of. by rewrite foldl_app. Qed.

Lemma srv_frame_emit ex k s e : match e with OnConnection k' _ => k' = k | Resolved _ _ => True end ->
  srv_frame ex ex k s (emit e s).
Proof.
  intros He. split_and!; auto.
  - intros d r Hr. cbn. rewrite elem_of_app. by left.
  - intros k' Hk. change (log (emit e s)) with (log s ++ [e]). rewrite trace_of_app. split_and!; [|by apply heap_frame_same|done].
    destruct e as [k2 e|]; [|done]. subst k2. cbn. by rewrite decide_False.
  - by apply prefix_app_r.
Qed.

(** * One connection *)

Section Runs.
Context (options : AsyncHttpServerOptions) (is_ip_literal : text -> bool).

Notation trace_ok := (trace_ok options is_ip_literal).
Notation alive_ok := (alive_ok options is_ip_literal).
Notation answered := (answered options).
Notation answers_ok := (answers_ok options).
Notation reading_ok := (reading_ok options is_ip_literal).
Context (i : nat).
Notation the_trace w n := (trace_of (i, n) (log (srv w))).

(** The connection [n] is open, on [f]; or it has been closed. *)
Definition held ex (f n : Z) (w : W) : Prop :=
  tokens_ok ex (srv w) (i, n) (the_trace w n)
  /\ exists c, connection w f = Some c /\ fd c = f /\ id c = n
       /\ alive_ok ex i (srv w) c (the_trace w n).
Definition gone ex (f n : Z) (w : W) : Prop :=
  connection w f = None /\ trace_ok (srv w) (the_trace w n)
  /\ tokens_ok ex (srv w) (i, n) (the_trace w n).
Definition left_as ex (f n : Z) (open : bool) (w w' : W) : Prop :=
  wframe ex ex f (i, n) w w' /\ if open then held ex f n w' else gone ex f n w'.

Lemma alive_trace ex s c t : alive_ok ex i s c t -> trace_ok s t.
Proof.
  intros (Hp & Hn & (b & Hf & Hb) & Hw & Ha & Ht). unfold answers_ok in Ha.
  assert (Hpre : wrote t `prefix_of` wires (began t)).
  { destruct (state c); try (by rewrite Hw). rewrite <- Hw. by apply prefix_app_r. }
  destruct (state c).
  - exists b, (dispatched t), [], (began t), []. rewrite !app_nil_r. split_and!; auto.
  - exists b, (dispatched t), [], (began t), []. rewrite !app_nil_r. split_and!; auto.
  - destruct Ha as (b1 & r & Hbg & [Ha|(Ha & Hk & st & ->)]).
    + exists b, (dispatched t), [], (began t), []. rewrite !app_nil_r. split_and!; auto.
    + exists b, (dispatched t), [], b1, [(refusal st, false)]. rewrite app_nil_r. rewrite Hk in Hbg.
      split_and!; eauto.
  - destruct Ha as (d0 & r & a & d & cell & Hd & Ha & _).
    exists b, d0, [(r, a)], (began t), []. rewrite app_nil_r. split_and!; auto.
Qed.

Lemma tokens_same ex s s' k t t' : tokens_ok ex s k t -> dispatched t' = dispatched t ->
  deferreds s' = deferreds s -> inflight ex s' k = inflight ex s k ->
  (forall d r, Resolved d r ∈ log s -> Resolved d r ∈ log s') -> tokens_ok ex s' k t'.
Proof.
  intros H Ht Hd Hi Hr. eapply (tokens_frame ex ex s s') in H; eauto using heap_frame_same.
  assert (Hw : forall d, waits_for t d -> waits_for t' d) by (intros d; unfold waits_for; by rewrite Ht).
  destruct H as (H1 & H2 & H3). split_and!; [done| |].
  - intros call Hc. destruct (H2 call Hc) as (d & cell & ? & ?). exists d, cell. auto.
  - intros d cell Hc Hu. destruct (H3 d cell Hc Hu) as (? & ? & ?). auto.
Qed.

(** * Sending *)

Lemma no_vectors c : vectors c = 0%nat -> pending c = [].
Proof.
  unfold vectors, pending, head_vector, body_vector. intros H.
  destruct (Nat.ltb_spec (head_sent c) (length (out_head c))); [cbn in H; lia|].
  rewrite drop_ge by done. destruct (body_bytes c) as [bytes|]; [|done].
  rewrite bool_decide_eq_true_2 in H by done. cbn [andb] in H.
  destruct (Nat.ltb_spec (body_sent c) (body_length c)); [cbn in H; lia|].
  by replace (body_length c - body_sent c)%nat with 0%nat by lia.
Qed.

Lemma pending_advance n c : pending (advance n c) = drop n (pending c).
Proof.
  unfold pending, advance, head_vector, body_vector. cbn [head_sent out_head set_body_sent set_head_sent].
  change (body_bytes (set_body_sent _ _)) with (body_bytes c).
  destruct (le_lt_dec n (length (out_head c) - head_sent c)).
  - rewrite Nat.min_l, Nat.sub_diag, Nat.add_0_r, <- drop_drop by lia.
    rewrite drop_app_le by (rewrite length_drop; lia). done.
  - rewrite Nat.min_r by lia. rewrite (drop_ge (out_head c)) by lia.
    rewrite drop_app_ge by (rewrite length_drop; lia). rewrite length_drop. cbn [app].
    destruct (body_bytes c) as [bytes|]; [|by rewrite drop_nil].
    cbn [body_sent body_length set_body_sent set_head_sent]. rewrite <- drop_drop. set (m := (n - (length (out_head c) - head_sent c))%nat).
    rewrite skipn_firstn_comm. f_equal. lia.
Qed.
Lemma send_loop_ok sends : forall c wr o c' wr' rest,
  send_loop sends c wr = (o, c', wr', rest) ->
  exists x h b, wr' = wr ++ x /\ x ++ pending c' = pending c
    /\ c' = set_body_sent b (set_head_sent h c) /\ (o = FullyWritten -> pending c' = []).
Proof.
  induction sends as [|r sends IH]; intros c wr o c' wr' rest H; cbn [send_loop] in H.
  - assert (Hc : exists h b, c = set_body_sent b (set_head_sent h c)).
    { exists (head_sent c), (body_sent c). by destruct c. }
    destruct Hc as (h & b & Hc).
    destruct (vectors c =? 0)%nat eqn:E.
    + injection H as <- <- <- <-. exists [], h, b. rewrite app_nil_r. split_and!; try done. intros _.
      apply Nat.eqb_eq in E. by apply no_vectors.
    + injection H as <- <- <- <-. exists [], h, b. rewrite app_nil_r. split_and!; done.
  - assert (Hc : exists h b, c = set_body_sent b (set_head_sent h c)).
    { exists (head_sent c), (body_sent c). by destruct c. }
    destruct Hc as (h & b & Hc).
    destruct (vectors c =? 0)%nat eqn:E.
    { injection H as <- <- <- <-. exists [], h, b. rewrite app_nil_r. split_and!; try done. intros _.
      apply Nat.eqb_eq in E. by apply no_vectors. }
    destruct r as [n| | |].
    + apply IH in H as (x & h2 & b2 & -> & Hx & -> & Hp). rewrite pending_advance in Hx.
      eexists _, h2, b2. rewrite <- app_assoc. split_and!; [done| |by destruct c|done].
      rewrite <- app_assoc, Hx. apply take_drop.
    + injection H as <- <- <- <-. exists [], h, b. rewrite app_nil_r. split_and!; done.
    + by eapply IH.
    + injection H as <- <- <- <-. exists [], h, b. rewrite app_nil_r. split_and!; done.
Qed.
(** * The pieces of an operation *)

Lemma resolved_emit e s d r : Resolved d r ∈ log s -> Resolved d r ∈ log (emit e s).
Proof. cbn. rewrite elem_of_app. by left. Qed.
Lemma alive_emit ex s c t e : alive_ok ex i s c t -> alive_ok ex i (emit e s) c t.
Proof. apply alive_frame; [by apply heap_frame_same|apply resolved_emit|done]. Qed.
Lemma trace_emit s t e : trace_ok s t -> trace_ok (emit e s) t.
Proof.
  apply trace_ok_later. split; [apply resolved_emit|]. eauto.
Qed.
Lemma answered_emit s d b e : answered s d b -> answered (emit e s) d b.
Proof. apply answered_later. split; [apply resolved_emit|]. eauto. Qed.
Lemma tokens_emit ex s k t e e' : tokens_ok ex s k t -> dispatched (see t e) = dispatched t ->
  tokens_ok ex (emit e' s) k (see t e).
Proof. intros H Hd. eapply tokens_same; [exact H|done|done|done|apply resolved_emit]. Qed.
Lemma no_tokens_emit ex s k e : no_tokens ex s k -> no_tokens ex (emit e s) k.
Proof. by intros [H1 H2]. Qed.

Lemma trace_note w c e n : id_ (own w) = i -> id c = n -> the_trace (note c e w) n = see (the_trace w n) e.
Proof.
  intros Hi <-. unfold note. rewrite Hi. change (log (srv (on_srv ?f w))) with (log (f (srv w))).
  unfold emit. cbn [log set_log]. rewrite trace_of_app. cbn. by rewrite decide_True.
Qed.

Lemma frame_note ex f n c e w : id_ (own w) = i -> id c = n -> wframe ex ex f (i, n) w (note c e w).
Proof. intros <- <-. split_and!; try done. by apply srv_frame_emit. Qed.
Lemma frame_put ex f k c c0 w : connection w f = Some c0 -> fd c = f -> wframe ex ex f k w (put c w).
Proof.
  unfold connection. intros Hc <-. split_and!; try done; [apply srv_frame_refl| |congruence].
  intros f' Hf. cbn. by rewrite lookup_insert_ne.
Qed.
Lemma frame_outside ex f k o w : wframe ex ex f k w (set_outside o w).
Proof. split_and!; try done. apply srv_frame_refl. Qed.
Lemma frame_srv ex f k s w : srv_frame ex ex k (srv w) s -> wframe ex ex f k w (set_srv s w).
Proof. intros H. split_and!; done. Qed.
Lemma put_connection c w : connection (put c w) (fd c) = Some c.
Proof. unfold connection, put. cbn. by rewrite lookup_insert, decide_True. Qed.

Lemma close_ok ex f n c w : id_ (own w) = i -> connection w f = Some c -> fd c = f -> id c = n ->
  trace_ok (srv w) (the_trace w n) -> tokens_ok ex (srv w) (i, n) (the_trace w n) ->
  wframe ex ex f (i, n) w (close_connection f w) /\ gone ex f n (close_connection f w).
Proof.
  intros Hi Hc Hf Hn Ht Hk. unfold close_connection. rewrite Hc. split.
  - eapply wframe_trans; [by apply (frame_note ex f n c Shut w)|]. split_and!; try done.
    + by apply srv_frame_core.
    + intros f' Hf'. cbn. by rewrite lookup_delete_ne.
    + intros _. cbn. by rewrite lookup_delete, decide_True.
  - assert (E : the_trace (note c Shut w) n = the_trace w n) by by rewrite trace_note.
    split_and!.
    + unfold connection. cbn. by rewrite lookup_delete, decide_True.
    + change (trace_ok (emit (OnConnection (id_ (own w), id c) Shut) (srv w)) (the_trace (note c Shut w) n)).
      rewrite E. by apply trace_emit.
    + change (tokens_ok ex (emit (OnConnection (id_ (own w), id c) Shut) (srv w)) (i, n) (the_trace (note c Shut w) n)).
      rewrite trace_note by done. by apply tokens_emit.
Qed.
Lemma alive_interest ex s c t j : alive_ok ex i s c t -> alive_ok ex i s (update_interest j c) t.
Proof. unfold update_interest. by destruct (decide _). Qed.
Lemma fields_interest j c : fd (update_interest j c) = fd c /\ id (update_interest j c) = id c
  /\ state (update_interest j c) = state c /\ inbox (update_interest j c) = inbox c.
Proof. unfold update_interest. by destruct (decide _). Qed.

(** The connection after some of its response has been taken. *)
Lemma alive_wrote ex s c t x h b :
  state c = State.Writing -> alive_ok ex i s c t ->
  x ++ pending (set_body_sent b (set_head_sent h c)) = pending c ->
  alive_ok ex i s (set_body_sent b (set_head_sent h c)) (see t (Wrote x)).
Proof.
  intros Hs (Hp & Hn & Hr & Hw & Ha & Ht) Hx. rewrite Hs in Hw.
  split; [exact Hp|split; [exact Hn|split; [exact Hr|split; [|split; [|exact Ht] ] ] ] ].
  - change (state (set_body_sent b (set_head_sent h c))) with (state c). rewrite Hs. cbn [wrote began see].
    by rewrite <- app_assoc, Hx.
  - unfold answers_ok in *. change (state (set_body_sent b (set_head_sent h c))) with (state c).
    rewrite Hs in *. exact Ha.
Qed.

(** A response that is fully written leaves the connection ready for the next request. *)
Lemma reset_fields w c : let c' := reset_for_next options w c in
  fd c' = fd c /\ id c' = id c /\ peer_ip c' = peer_ip c /\ requests_served c' = requests_served c
  /\ state c' = State.ReadingHead /\ inbox c' = inbox c.
Proof.
  unfold reset_for_next, touch, update_interest. destruct (decide _); split_and!; reflexivity.
Qed.
Lemma alive_reading ex s c t b :
  state c = State.ReadingHead -> peer t = peer_ip c ->
  requests_served c = Z.of_nat (length (dispatched t)) ->
  Frames options is_ip_literal (peer t) (received t) (dispatched t).*1 b -> b = inbox c ->
  wrote t = wires (began t) -> answered s (dispatched t) (began t) -> no_tokens ex s (i, id c) ->
  alive_ok ex i s c t.
Proof.
  intros Hs Hp Hn Hf Hb Hw Ha Ht. unfold alive_ok, reading_ok, answers_ok. rewrite Hs. split_and!; eauto.
Qed.
Lemma alive_reset ex s w c t :
  state c = State.Writing -> keep_alive c = true -> pending c = [] ->
  alive_ok ex i s c t -> alive_ok ex i s (reset_for_next options w c) t.
Proof.
  intros Hs Hk Hq (Hp & Hn & (b & Hb & Hb2) & Hw & Ha & Ht).
  destruct (reset_fields w c) as (_ & E1 & E2 & E3 & E4 & E5). cbv zeta in *.
  rewrite Hs in Hb2, Hw. rewrite Hq, app_nil_r in Hw. unfold answers_ok in Ha. rewrite Hs in Ha.
  apply alive_reading with (b := b); try congruence.
  - destruct Ha as (b1 & r & Hbg & [Ha|(_ & Hf & _)]); [exact Ha|congruence].
  - rewrite E1. apply Ht. by rewrite Hs.
Qed.

Lemma flush_ok ex f n c w : id_ (own w) = i -> connection w f = Some c -> fd c = f -> id c = n -> state c = State.Writing ->
  alive_ok ex i (srv w) c (the_trace w n) ->
  tokens_ok ex (srv w) (i, n) (the_trace w n) ->
  let '(w', open) := flush options f w in left_as ex f n open w w'.
Proof.
  intros Hi Hc Hf Hn Hs Ha Ht. unfold flush. rewrite Hc.
  destruct (send_loop (sends (outside w)) c []) as [ [ [o c1] written] rest] eqn:El.
  apply send_loop_ok in El as (x & h & b & -> & Hx & Hc1 & Hp). cbn [app].
  pose proof (alive_wrote _ _ _ _ x h b Hs Ha) as Ha1. rewrite <- Hc1 in Ha1. specialize (Ha1 Hx).
  set (w1 := set_outside (set_sends rest (outside w)) w).
  assert (Hid1 : id c1 = n) by by rewrite Hc1.
  assert (Hfd1 : fd c1 = f) by by rewrite Hc1.
  assert (Hst1 : state c1 = State.Writing) by by rewrite Hc1.
  set (w2 := note c1 (Wrote x) w1).
  assert (Htr : the_trace w2 n = see (the_trace w n) (Wrote x)) by (by apply (trace_note w1)).
  assert (Hfr : wframe ex ex f (i, n) w w2).
  { eapply wframe_trans; [apply (frame_outside ex f _ (set_sends rest (outside w)))|]. by apply (frame_note ex f n c1 _ w1). }
  assert (Ha2 : alive_ok ex i (srv w2) c1 (the_trace w2 n)).
  { rewrite Htr. by apply alive_emit. }
  assert (Ht2 : tokens_ok ex (srv w2) (i, n) (the_trace w2 n)).
  { rewrite Htr. by apply tokens_emit. }
  assert (Hc2 : connection w2 f = Some c) by done.
  assert (Hi2 : id_ (own w2) = i) by done.
  clearbody w2.
  assert (Hclose : left_as ex f n false w (close_connection f (put c1 w2))).
  { destruct (close_ok ex f n c1 (put c1 w2)) as [H1 H2]; try done.
    - rewrite <- Hfd1. apply put_connection.
    - by eapply alive_trace.
    - split; [|exact H2]. eapply wframe_trans; [done|]. eapply wframe_trans; [by eapply frame_put|]. done. }
  assert (Hopen : forall c3, fd c3 = f -> id c3 = n ->
            alive_ok ex i (srv w2) c3 (the_trace w2 n) -> left_as ex f n true w (put c3 w2)).
  { intros c3 Hf3 Hn3 Ha3. split.
    - eapply wframe_trans; [done|by eapply frame_put].
    - split; [exact Ht2|]. exists c3. split; [rewrite <- Hf3; apply put_connection|done]. }
  destruct o.
  - destruct (keep_alive c1) eqn:Ek; cbn [negb]; [|done]. apply Hopen.
    + destruct (reset_fields w2 c1) as (-> & _). done.
    + destruct (reset_fields w2 c1) as (_ & -> & _). done.
    + apply alive_reset; auto.
  - destruct (fields_interest kWritable c1) as (H1 & H2 & _). apply Hopen; [congruence|congruence|by apply alive_interest].
  - done.
Qed.
(** * Responses *)

(** The connection may be given the response [r]: it answers the last request, or refuses
    what is in the inbox. *)
Definition may_begin ex (s : Server) (c : Connection) (t : Trace) (r : HttpResponse) (ka : bool) : Prop :=
  peer t = peer_ip c /\ requests_served c = Z.of_nat (length (dispatched t))
  /\ Frames options is_ip_literal (peer t) (received t) (dispatched t).*1 (inbox c)
  /\ wrote t = wires (began t) /\ no_tokens ex s (i, id c)
  /\ (answered s (dispatched t) (began t ++ [(r, ka)])
      \/ answered s (dispatched t) (began t) /\ ka = false /\ exists status, r = refusal status).

Lemma wires_snoc b r ka : wires (b ++ [(r, ka)]) = wires b ++ wire r ka.
Proof. unfold wires. rewrite map_app, concat_app. cbn. by rewrite app_nil_r. Qed.

Lemma alive_writing ex s c0 c t r ka : may_begin ex s c0 t r ka ->
  state c = State.Writing -> peer_ip c = peer_ip c0 -> requests_served c = requests_served c0 ->
  inbox c = inbox c0 -> id c = id c0 -> keep_alive c = ka -> pending c = wire r ka ->
  alive_ok ex i s c (see t (Began r ka)).
Proof.
  intros (Hp & Hn & Hf & Hw & Ht & Ha) Hs E1 E2 E3 E4 E5 E6. unfold alive_ok, reading_ok, answers_ok.
  rewrite Hs, E1, E2, E3, E4, E5, E6. cbn [peer received dispatched began wrote see]. split_and!; eauto.
  by rewrite wires_snoc, Hw.
Qed.

Lemma may_begin_emit ex s c t r ka e : may_begin ex s c t r ka -> may_begin ex (emit e s) c t r ka.
Proof.
  intros (Hp & Hn & Hf & Hw & Ht & Ha). split_and!; auto.
  destruct Ha as [Ha|(Ha & Hk & Hr)]; [left|right; split_and!; auto]; by apply answered_emit.
Qed.
Lemma may_begin_trace ex s c t r ka : may_begin ex s c t r ka -> trace_ok s (see t (Began r ka)).
Proof.
  intros (Hp & Hn & Hf & Hw & Ht & Ha). unfold AsyncHttpSafe.trace_ok. cbn [peer received dispatched began wrote see].
  assert (Hpre : wrote t `prefix_of` wires (began t ++ [(r, ka)])).
  { rewrite wires_snoc, Hw. by apply prefix_app_r. }
  destruct Ha as [Ha|(Ha & -> & st & ->)].
  - exists (inbox c), (dispatched t), [], (began t ++ [(r, ka)]), []. rewrite !app_nil_r. split_and!; auto.
  - exists (inbox c), (dispatched t), [], (began t), [(refusal st, false)]. rewrite app_nil_r. split_and!; eauto.
Qed.

Lemma begin_response_ok ex f n c r ka w : id_ (own w) = i -> connection w f = Some c -> fd c = f -> id c = n ->
  may_begin ex (srv w) c (the_trace w n) r ka ->
  tokens_ok ex (srv w) (i, n) (the_trace w n) ->
  let '(w', open) := begin_response options f r ka w in left_as ex f n open w w'.
Proof.
  intros Hi Hc Hf Hn Hm Ht. unfold begin_response. rewrite Hc.
  pose proof (trace_note w c (Began r ka) n Hi Hn) as Htr.
  pose proof (frame_note ex f n c (Began r ka) w Hi Hn) as Hfr.
  assert (Hm1 : may_begin ex (srv (note c (Began r ka) w)) c (the_trace w n) r ka) by by apply may_begin_emit.
  assert (Ht1 : tokens_ok ex (srv (note c (Began r ka) w)) (i, n) (the_trace (note c (Began r ka) w) n)).
  { rewrite Htr. by apply tokens_emit. }
  assert (Hc1 : connection (note c (Began r ka) w) f = Some c) by done.
  assert (Hi1 : id_ (own (note c (Began r ka) w)) = i) by done.
  set (w1 := note c (Began r ka) w) in *. clearbody w1.
  assert (Hgo : forall c3, fd c3 = f -> id c3 = n -> state c3 = State.Writing ->
            alive_ok ex i (srv w1) c3 (the_trace w1 n) ->
            let '(w', open) := flush options f (put c3 w1) in left_as ex f n open w w').
  { intros c3 Hf3 Hn3 Hs3 Ha3. pose proof (flush_ok ex f n c3 (put c3 w1)) as H.
    destruct (flush options f (put c3 w1)) as [w' open]. destruct H as [H1 H2]; auto.
    - rewrite <- Hf3. apply put_connection.
    - split; [|done]. eapply wframe_trans; [done|]. eapply wframe_trans; [by eapply frame_put|]. done. }
  set (c1 := set_body_sent 0 (set_head_sent 0 (set_out_head (serialize_response_head r ka) (set_keep_alive ka c)))).
  destruct (shared_body r) as [|b0 view] eqn:Eb; cbv zeta.
  - apply Hgo; try done. rewrite Htr. eapply alive_writing; try done.
    unfold wire, payload. rewrite Eb. cbn [default id].
    unfold pending, head_vector, body_vector, body_bytes. cbn. destruct (body r) as [|x b]; [done|].
    cbn [id]. rewrite take_ge; [done|cbn; lia].
  - destruct (_ || _) eqn:Eo.
    + destruct (close_ok ex f n c1 (put c1 w1)) as [H1 H2]; try done.
      * rewrite <- Hf. apply (put_connection c1).
      * change (trace_ok (srv w1) (the_trace w1 n)). rewrite Htr. eapply may_begin_trace, Hm1.
      * split; [|exact H2]. eapply wframe_trans; [done|]. eapply wframe_trans; [by eapply (frame_put _ _ _ c1)|]. done.
    + apply Hgo; try done. rewrite Htr. eapply alive_writing; try done.
      unfold wire, payload. rewrite Eb, Eo. cbn [default id].
      unfold pending, head_vector, body_vector, body_bytes. cbn. by rewrite Nat.sub_0_r.
Qed.

Lemma fail_ok ex f n c st w : id_ (own w) = i -> connection w f = Some c -> fd c = f -> id c = n ->
  state c = State.ReadingHead -> alive_ok ex i (srv w) c (the_trace w n) ->
  tokens_ok ex (srv w) (i, n) (the_trace w n) ->
  let '(w', open) := fail options f st w in left_as ex f n open w w'.
Proof.
  intros Hi Hc Hf Hn Hs (Hp & Hsv & (b & Hfr & Hb) & Hw & Ha & Hnt) Ht. unfold answers_ok in Ha. rewrite Hs in *.
  subst b. unfold fail. eapply begin_response_ok; eauto. split_and!; try done; [by apply Hnt|].
  right. split_and!; [done|done|by exists st].
Qed.
(** * Deferrals *)

Lemma tokens_none ex s k t : no_tokens ex s k -> tokens_ok ex s k t.
Proof.
  intros [H1 H2]. split_and!.
  - rewrite H1. cbn. lia.
  - intros call. rewrite H1. by intros ?%not_elem_of_nil.
  - intros d cell Hd Hu. destruct Hu. by apply (H2 d).
Qed.

(** What a call of a completion changes: an entry in the mailbox of its loop. *)
Lemma post_spec call s s' wakes : post call s = (s', wakes) ->
  log s' = log s /\ deferreds s' = deferreds s /\ next_pointer s' = next_pointer s
  /\ posting s' = posting s /\ touched_dead s' = touched_dead s
  /\ (forall j, is_Some (inbounds s !! j) -> is_Some (inbounds s' !! j))
  /\ ((forall j, mailbox s' j = mailbox s j)
      \/ forall j, mailbox s' j = mailbox s j ++ if decide (j = target_loop call.1) then [call] else []).
Proof.
  unfold post. destruct call as [t r]. cbn [fst].
  destruct (inbounds s !! target_loop t) as [b|] eqn:E; [|intros [= <- <-]; split_and!; auto].
  destruct (closed b); [intros [= <- <-]; split_and!; auto|]. intros [= <- <-]. split_and!; try done.
  - intros j Hj. cbn. apply lookup_alter_is_Some. done.
  - right. intros j. unfold mailbox, on_inbound. cbn [inbounds set_inbounds].
    destruct (decide (j = target_loop t)) as [->|Hj].
    + rewrite lookup_alter_eq, E. cbn. rewrite map_app. cbn. by destruct t.
    + rewrite lookup_alter_ne by done. by rewrite app_nil_r.
Qed.

Lemma inflight_post ex s s' call wakes k : post call s = (s', wakes) ->
  inflight ex s' k = inflight ex s k
  \/ key_of call.1 = k /\ inflight ex s' k = inflight ex s k ++ [call].
Proof.
  intros H. apply post_spec in H as (_ & _ & _ & Hp & _ & _ & [Hm|Hm]); unfold inflight; rewrite Hp, Hm; [by left|].
  destruct (decide (k.1 = target_loop call.1)) as [E|E]; [|rewrite app_nil_r; by left].
  destruct (decide (key_of call.1 = k)) as [Hk|Hk].
  - right. split; [done|]. rewrite !list.filter_app, filter_cons_True, filter_nil, !app_assoc by done. done.
  - left. rewrite !list.filter_app, filter_cons_False, filter_nil, app_nil_r by done. done.
Qed.

Lemma wake_core ex k j s : srv_frame ex ex k s (wake j s).
Proof.
  apply srv_frame_core; try done.
  - intros i0. unfold mailbox, wake, on_inbound. cbn [inbounds set_inbounds].
    destruct (decide (i0 = j)) as [->|Hj]; [|by rewrite lookup_alter_ne].
    rewrite lookup_alter_eq. by destruct (inbounds s !! j).
  - intros i0 Hi0. cbn. by apply lookup_alter_is_Some.
Qed.
Lemma wakes_core ex k js s : srv_frame ex ex k s (fold_right wake s js)
  /\ log (fold_right wake s js) = log s /\ deferreds (fold_right wake s js) = deferreds s
  /\ forall k0, inflight ex (fold_right wake s js) k0 = inflight ex s k0.
Proof.
  induction js as [|j js (IH1 & IH2 & IH3 & IH4)]; cbn [fold_right]; [split_and!; auto using srv_frame_refl|].
  set (s1 := fold_right wake s js) in *. split_and!.
  - eapply srv_frame_trans; [exact IH1|apply wake_core].
  - done.
  - done.
  - intros k0. rewrite <- IH4. assert (Hk : k0 <> (S k0.1, k0.2)) by (destruct k0; intros [= ]; lia).
    destruct (wake_core ex (S k0.1, k0.2) j s1) as (_ & H & _). by apply H.
Qed.
(** Attaching a completion to a deferral nobody has attached to: it is kept there, or, when
    the deferral has been resolved, called. *)
Definition fresh_cell (s : Server) (d : Z) (cell : DeferredResponse) : Prop :=
  deferreds s !! d = Some cell /\ completion_ cell = None /\ delivered_ cell = false
  /\ (resolved_ cell = true -> Resolved d (response_ cell) ∈ log s).

Lemma heap_frame_cell k s d x y : deferreds s !! d = Some x -> timeout_response y = timeout_response x ->
  delivered_ x = false -> untouched k x -> untouched k y -> heap_frame k s (set_deferred_cell d y s).
Proof.
  intros Hx Ht Hd Hu Hv d'. cbn. destruct (decide (d' = d)) as [->|Hn].
  - rewrite Hx, lookup_insert, decide_True by done. auto.
  - rewrite lookup_insert_ne by done. destruct (deferreds s !! d'); auto.
Qed.
Lemma cell_bounded s d x y : deferreds s !! d = Some x -> heap_bounded s -> heap_bounded (set_deferred_cell d y s).
Proof.
  intros Hx Hb d' z. cbn. destruct (decide (d' = d)) as [->|Hn].
  - rewrite lookup_insert, decide_True by done. intros _. by apply (Hb d x).
  - rewrite lookup_insert_ne by done. apply Hb.
Qed.

Lemma attach_ok ex s d cell n f t : fresh_cell s d cell -> no_tokens ex s (i, n) -> waits_for t d ->
  let c := mkCompletion i f n in
  let s' := attach_to d c s in
  srv_frame ex ex (i, n) s s' /\ log s' = log s /\ tokens_ok ex s' (i, n) t
  /\ exists cell', deferreds s' !! d = Some cell' /\ (delivered_ cell' = false -> completion_ cell' = Some c)
     /\ later s s'.
Proof.
  intros (Hd & Hc & Hdel & Hres) [Hn1 Hn2] Hw c s'. unfold s', attach_to. rewrite Hd. unfold attach. rewrite Hdel.
  destruct (resolved_ cell) eqn:Er; cbn [negb].
  - set (cell' := mkDeferredResponse _ _ _ _ true true).
    assert (Hu : forall k, untouched k cell) by (intros k c0; rewrite Hc; done).
    assert (Hu' : forall k, untouched k cell') by (intros k c0; cbn; rewrite Hc; done).
    set (s1 := set_deferred_cell d cell' s).
    assert (Hh : forall k, heap_frame k s s1) by (intros k; by apply (heap_frame_cell k s d cell cell')).
    destruct (post (c, response_ cell) s1) as [s2 wakes] eqn:Ep.
    pose proof (fun k => inflight_post ex s1 s2 (c, response_ cell) wakes k Ep) as Hin.
    apply post_spec in Ep as Hp. destruct Hp as (P1 & P2 & P3 & P4 & P5 & P6 & _).
    destruct (wakes_core ex (i, n) wakes s2) as (W1 & W2 & W3 & W4).
    assert (Hd3 : deferreds (fold_right wake s2 wakes) !! d = Some cell').
    { rewrite W3, P2. cbn. by rewrite lookup_insert, decide_True. }
    assert (Hlog : log (fold_right wake s2 wakes) = log s) by (rewrite W2, P1; done).
    split_and!; [|done| |].
    + eapply srv_frame_trans; [|exact W1]. split_and!; try (rewrite P1 || rewrite P5; done).
      * intros k' Hk. rewrite P1. split_and!; [done| |].
        -- eapply heap_frame_trans; [apply Hh|by apply heap_frame_same].
        -- destruct (Hin k') as [E|[E _] ]; [|done]. rewrite E. done.
      * exact P6.
      * unfold heap_bounded. rewrite P2, P3. by apply (cell_bounded s d cell).
    + split_and!.
      * rewrite W4. destruct (Hin (i, n)) as [E|[_ E] ]; rewrite E; change (inflight ex s1 (i, n)) with (inflight ex s (i, n)); rewrite Hn1; cbn; lia.
      * intros call. rewrite W4. intros Hcall. exists d, cell'. split_and!; try done. rewrite Hlog.
        destruct (Hin (i, n)) as [E|[_ E] ]; rewrite E in Hcall; change (inflight ex s1 (i, n)) with (inflight ex s (i, n)) in Hcall;
          rewrite Hn1 in Hcall; [by apply not_elem_of_nil in Hcall|].
        cbn [app] in Hcall. apply list_elem_of_singleton in Hcall as ->. by apply Hres.
      * intros d' x Hx Hu2. rewrite W3, P2 in Hx. cbn in Hx. exfalso. apply Hu2.
        destruct (decide (d' = d)) as [->|Hne]; [rewrite lookup_insert, decide_True in Hx by done; injection Hx as <-; apply Hu'|].
        rewrite lookup_insert_ne in Hx by done. by apply (Hn2 d').
    + exists cell'. split_and!; [done|done|]. eapply heap_frame_later; [|by rewrite Hlog].
      eapply (heap_frame_trans (i, n)); [apply Hh|apply heap_frame_same]. by rewrite W3, P2.
  - set (cell' := mkDeferredResponse _ _ (Some c) _ false false).
    assert (Hu : forall k, untouched k cell) by (intros k c0; rewrite Hc; done).
    assert (Hu' : forall k, k <> (i, n) -> untouched k cell').
    { intros k Hk c0 E. injection E as <-. intros E. by apply Hk. }
    split_and!; [|done| |].
    + split_and!; auto.
      * intros k' Hk. split_and!; [done| |done]. apply (heap_frame_cell k' s d cell cell'); auto.
      * by apply (cell_bounded s d cell).
    + split_and!.
      * change (length (inflight ex s (i, n)) <= 1)%nat. rewrite Hn1. cbn. lia.
      * intros call Hcall. change (call ∈ inflight ex s (i, n)) in Hcall. rewrite Hn1 in Hcall. by apply not_elem_of_nil in Hcall.
      * intros d' x Hx Hu2. cbn in Hx. destruct (decide (d' = d)) as [->|Hne].
        -- rewrite lookup_insert, decide_True in Hx by done. injection Hx as <-. split_and!; done.
        -- rewrite lookup_insert_ne in Hx by done. destruct Hu2. by apply (Hn2 d').
    + exists cell'. split_and!; [cbn; by rewrite lookup_insert, decide_True|done|]. split; [done|].
      intros d' x Hx. cbn. destruct (decide (d' = d)) as [->|Hne].
      * rewrite lookup_insert, decide_True by done. rewrite Hd in Hx. injection Hx as <-. eauto.
      * rewrite lookup_insert_ne by done. eauto.
Qed.

(** The handler. *)
Lemma allocate_frame ex k cell s : completion_ cell = None -> heap_bounded s -> srv_frame ex ex k s (allocate cell s).
Proof.
  intros Hc Hb. assert (Hd : deferreds s !! next_pointer s = None).
  { apply eq_None_not_Some. intros [x Hx]. specialize (Hb _ _ Hx). lia. }
  split_and!; auto.
  - intros k' _. split_and!; [done| |done]. intros d'. cbn. destruct (decide (d' = next_pointer s)) as [->|Hn].
    + rewrite Hd, lookup_insert, decide_True by done. intros c0. by rewrite Hc.
    + rewrite lookup_insert_ne by done. destruct (deferreds s !! d'); auto.
  - intros _ d' x. cbn. destruct (decide (d' = next_pointer s)) as [->|Hn]; [lia|]. rewrite lookup_insert_ne by done.
    intros Hx. specialize (Hb _ _ Hx). lia.
Qed.
Lemma allocate_lookup cell s : deferreds (allocate cell s) !! next_pointer s = Some cell.
Proof. cbn. by rewrite lookup_insert, decide_True. Qed.

Lemma call_handler_ok ex k w : heap_bounded (srv w) ->
  let '(r, w') := call_handler w in
  srv_frame ex ex k (srv w) (srv w') /\ own w' = own w
  /\ match deferred r with None => True | Some d => exists cell, fresh_cell (srv w') d cell end.
Proof.
  intros Hb. unfold call_handler, take_answer.
  destruct (handler_set (srv w)); [|split_and!; [apply srv_frame_refl|done|exact I]].
  destruct (answers (outside w)) as [|a rest]; [split_and!; [apply srv_frame_refl|done|exact I]|].
  destruct a as [r|tr budget already]; [split_and!; [apply srv_frame_refl|done|exact I]|].
  change (srv (set_outside (set_answers rest (outside w)) w)) with (srv w).
  assert (Hc : completion_ (new_deferred tr budget already) = None
            /\ delivered_ (new_deferred tr budget already) = false) by by destruct already.
  destruct Hc as [Hc Hdel]. pose proof (allocate_frame ex k _ _ Hc Hb) as Hf.
  pose proof (allocate_lookup (new_deferred tr budget already) (srv w)) as Hl.
  cbn [deferred with_deferral]. destruct already as [r|]; (split_and!; [|done|]).
  - eapply srv_frame_trans; [exact Hf|by apply srv_frame_emit].
  - eexists. split; [exact Hl|split_and!; try done]. intros _. cbn. rewrite elem_of_app. right. by apply list_elem_of_singleton.
  - done.
  - eexists. split; [exact Hl|split_and!; done].
Qed.
(** A whole request has been taken off the inbox. *)
Definition ready ex (s : Server) (c : Connection) (t : Trace) : Prop :=
  peer t = peer_ip c /\ requests_served c = Z.of_nat (length (dispatched t))
  /\ (exists b, Frames options is_ip_literal (peer t) (received t) (dispatched t).*1 b
        /\ frame options is_ip_literal (peer t) b = Some (forwarded_ip is_ip_literal (peer_ip c) (request c), inbox c))
  /\ wrote t = wires (began t) /\ answered s (dispatched t) (began t) /\ no_tokens ex s (i, id c).

Lemma answered_snoc s d b x r : answered s d b -> answer_for s x r ->
  answered s (d ++ [x]) (b ++ [(r, keeps_alive options (Z.of_nat (length d)) x.1)]).
Proof.
  intros [H1 H2] Hr. split; [by apply Forall2_app; [|repeat constructor]|].
  rewrite fmap_app, imap_app, H2. cbn. by rewrite Nat.add_0_r.
Qed.

(** What dispatching says of the frame of the connection itself. *)
Lemma frame_self ex ex' (k : nat * Z) s s' : (forall k', srv_frame ex ex' k' s s') ->
  trace_of k (log s') = trace_of k (log s) /\ heap_frame k s s' /\ inflight ex' s' k = inflight ex s k.
Proof.
  intros H. destruct (H (S k.1, k.2)) as (_ & H2 & _). apply H2. destruct k. intros [= ]. lia.
Qed.

Lemma defer_ok ex f n c d ka w t cell : id_ (own w) = i -> connection w f = Some c -> fd c = f -> id c = n ->
  the_trace w n = t -> fresh_cell (srv w) d cell ->
  peer t = peer_ip c -> requests_served c = Z.of_nat (length (dispatched t)) ->
  Frames options is_ip_literal (peer t) (received t) (dispatched t).*1 (inbox c) ->
  wrote t = wires (began t) -> no_tokens ex (srv w) (i, n) ->
  (exists d0 r a, dispatched t = d0 ++ [(r, a)] /\ deferred a = Some d /\ answered (srv w) d0 (began t)
     /\ ka = keeps_alive options (Z.of_nat (length d0)) r) ->
  let '(w', open) := defer_response options f d ka w in left_as ex f n open w w'.
Proof.
  intros Hi Hc Hf Hn Ht Hcell Hp Hs Hfr Hw Hnt (d0 & r & a & Hd & Hda & Ha & Hka). unfold defer_response. rewrite Hc.
  set (c1 := touch _ w _).
  assert (E : fd c1 = f /\ id c1 = n /\ peer_ip c1 = peer_ip c /\ requests_served c1 = requests_served c
            /\ state c1 = State.Deferred /\ inbox c1 = inbox c /\ parked c1 = Some d /\ deferred_keep_alive c1 = ka).
  { unfold c1, touch, update_interest. destruct (decide _); split_and!; done. }
  clearbody c1. destruct E as (E1 & E2 & E3 & E4 & E5 & E6 & E7 & E8).
  assert (Hwf : waits_for t d) by by exists d0, r, a.
  rewrite Hi, E2. destruct (attach_ok ex (srv w) d cell n f t Hcell Hnt Hwf) as (Hsf & Hlog & Htok & cell' & Hc' & Hcomp & Hlat).
  cbv zeta in *. set (s' := attach_to d _ (srv w)) in *.
  split; [|split].
  - eapply wframe_trans; [by apply (frame_put ex f _ c1 c)|]. by apply frame_srv.
  - cbn [srv on_srv set_srv]. change (srv (put c1 w)) with (srv w). fold s'. rewrite Hlog, Ht. exact Htok.
  - exists c1. split; [rewrite <- E1; apply put_connection|split; [done|split; [done|] ] ].
    cbn [srv on_srv set_srv]. change (srv (put c1 w)) with (srv w). fold s'. rewrite Hlog, Ht.
    unfold AsyncHttpSafe.alive_ok, AsyncHttpSafe.reading_ok, AsyncHttpSafe.answers_ok. rewrite E1, E2, E3, E4, E5, E6, E7, E8.
    split_and!; eauto; [|intros Hne; by destruct Hne].
    exists d0, r, a, d, cell'. split_and!; auto. by eapply answered_later.
Qed.

Lemma dispatching_ok ex f n c w : id_ (own w) = i -> connection w f = Some c -> fd c = f -> id c = n ->
  heap_bounded (srv w) -> ready ex (srv w) c (the_trace w n) ->
  let '(w', open) := dispatch options is_ip_literal f w in left_as ex f n open w w'.
Proof.
  intros Hi Hc Hf Hn Hb (Hp & Hs & (b & Hfr & Hfm) & Hw & Ha & Hnt). unfold dispatch. rewrite Hc.
  set (r := forwarded_ip is_ip_literal (peer_ip c) (request c)) in *.
  pose proof (fun k => call_handler_ok ex k w Hb) as Hh. destruct (call_handler w) as [resp w1].
  assert (Hsf : forall k, srv_frame ex ex k (srv w) (srv w1)) by (intros k; apply (Hh k)).
  destruct (Hh (0%nat, 0)) as (_ & Hown & Hcell). clear Hh.
  destruct (frame_self ex ex (i, n) _ _ Hsf) as (Htr & Hhf & Hif).
  assert (Hlat : later (srv w) (srv w1)) by (eapply heap_frame_later; [exact Hhf|apply (Hsf (i, n))]).
  set (c1 := set_requests_served (requests_served c + 1) (set_request r c)).
  set (w2 := note c (Dispatched r resp) (on_srv (fun s => set_requests (requests_ s + 1) s) w1)).
  assert (Hown2 : own w2 = own w) by done.
  assert (Ht2 : the_trace w2 n = see (the_trace w n) (Dispatched r resp)).
  { unfold w2. rewrite trace_note; [|cbn; by rewrite Hown|done]. cbn [srv on_srv set_srv log set_requests]. by rewrite Htr. }
  assert (Hf2 : wframe ex ex f (i, n) w w2).
  { eapply (wframe_trans _ ex _ _ _ _ (on_srv (fun s => set_requests (requests_ s + 1) s) w1)).
    - split_and!; try (by rewrite Hown || done); try (intros; cbn; by rewrite Hown).
      cbn. eapply srv_frame_trans; [apply Hsf|by apply srv_frame_core].
    - apply frame_note; [cbn; by rewrite Hown|done]. }
  assert (Hnt2 : no_tokens ex (srv w2) (i, n)).
  { subst n. eapply no_tokens_frame; [| |exact Hnt]; [|exact Hif].
    eapply heap_frame_trans; [exact Hhf|by apply heap_frame_same]. }
  assert (Hlat2 : later (srv w) (srv w2)) by (eapply heap_frame_later; [|apply Hf2]; eapply (heap_frame_trans (i, n)); [exact Hhf|by apply heap_frame_same]).
  assert (Hfr2 : Frames options is_ip_literal (peer (the_trace w n)) (received (the_trace w n)) ((dispatched (the_trace w n)).*1 ++ [r]) (inbox c)).
  { by eapply Frames_snoc. }
  assert (Hcell2 : match deferred resp with None => True | Some d => exists cell, fresh_cell (srv w2) d cell end).
  { destruct (deferred resp) as [d|]; [|done]. destruct Hcell as (cell & C1 & C2 & C3 & C4). exists cell. split_and!; try done.
    intros Hr. specialize (C4 Hr). cbn. rewrite elem_of_app. by left. }
  clearbody w2.
  assert (Hc2 : connection (put c1 w2) f = Some c1) by (rewrite <- Hf; apply (put_connection c1)).
  assert (Hf3 : wframe ex ex f (i, n) w (put c1 w2)).
  { eapply wframe_trans; [exact Hf2|]. apply (frame_put ex f _ c1 c); [unfold connection; rewrite Hown2; exact Hc|done]. }
  assert (Hka : keeps_alive options (requests_served c) r = keeps_alive options (Z.of_nat (length (dispatched (the_trace w n)))) r) by by rewrite Hs.
  assert (Hi3 : id_ (own (put c1 w2)) = i) by (cbn; by rewrite Hown2).
  assert (Hsv : requests_served c1 = Z.of_nat (length (dispatched (the_trace w n) ++ [(r, resp)]))).
  { cbn. rewrite length_app, Hs. cbn. lia. }
  destruct (deferred resp) as [d|] eqn:Ed.
  - destruct Hcell2 as [cell Hcell2].
    pose proof (defer_ok ex f n c1 d (keeps_alive options (requests_served c) r) (put c1 w2) _ cell Hi3 Hc2 Hf Hn Ht2 Hcell2) as H.
    destruct (defer_response _ _ _ _ _) as [w' open]. destruct H as [H1 H2]; cbn [peer received dispatched began wrote see]; try done.
    + rewrite fmap_app. exact Hfr2.
    + exists (dispatched (the_trace w n)), r, resp. split_and!; try done. by eapply answered_later.
    + split; [|exact H2]. by eapply wframe_trans.
  - pose proof (begin_response_ok ex f n c1 resp (keeps_alive options (requests_served c) r) (put c1 w2) Hi3 Hc2 Hf Hn) as H.
    destruct (begin_response _ _ _ _ _) as [w' open]. change (srv (put c1 w2)) with (srv w2) in H. rewrite Ht2 in H.
    destruct H as [H1 H2].
    + split_and!; cbn [peer received dispatched began wrote see]; try done.
      * rewrite fmap_app. exact Hfr2.
      * by subst n.
      * left. rewrite Hka. apply (answered_snoc (srv w2) _ _ (r, resp)); [by eapply answered_later|]. unfold answer_for. cbn [snd]. by rewrite Ed.
    + by apply tokens_none.
    + split; [|exact H2]. by eapply wframe_trans.
Qed.
(** * Where an operation leaves the connection *)

Lemma dispatched_see t e : dispatched t `prefix_of` dispatched (see t e).
Proof. destruct e; cbn; try done. by apply prefix_app_r. Qed.
Lemma trace_prefix k l l' : l `prefix_of` l' -> dispatched (trace_of k l) `prefix_of` dispatched (trace_of k l').
Proof.
  intros [x ->]. induction x as [|e x IH] using rev_ind; [by rewrite app_nil_r|].
  rewrite app_assoc, trace_of_app. etrans; [exact IH|]. destruct e as [k' e|]; cbn; [|done].
  destruct (decide (k' = k)); [apply dispatched_see|done].
Qed.
Lemma undeferred_before ex f k n w w' : wframe ex ex f k w w' ->
  undeferred_trace (the_trace w' n) -> undeferred_trace (the_trace w n).
Proof.
  intros ((_ & _ & _ & _ & _ & Hl) & _) Hu. destruct (trace_prefix (i, n) _ _ Hl) as [x Hx].
  unfold undeferred_trace in *. rewrite Hx, Forall_app in Hu. apply Hu.
Qed.

Definition next_states (ka : bool) (st : State.t) : Prop :=
  match st with State.Writing => True | State.ReadingHead => ka = true | _ => False end.

Lemma flush_shape f c w : connection w f = Some c -> fd c = f -> state c = State.Writing ->
  let '(w', open) := flush options f w in
  open = true -> exists c', connection w' f = Some c' /\ inbox c' = inbox c /\ next_states (keep_alive c) (state c').
Proof.
  intros Hc Hf Hs. unfold flush. rewrite Hc.
  destruct (send_loop (sends (outside w)) c []) as [ [ [o c1] written] rest] eqn:El.
  apply send_loop_ok in El as (x & h & b & _ & _ & Hc1 & _). set (w2 := note c1 _ _).
  assert (E : fd c1 = f /\ inbox c1 = inbox c /\ state c1 = State.Writing /\ keep_alive c1 = keep_alive c) by (by rewrite Hc1).
  destruct E as (E1 & E2 & E3 & E4). clearbody w2. destruct o.
  - destruct (keep_alive c1) eqn:Ek; [|done]. intros _. destruct (reset_fields w2 c1) as (R1 & _ & _ & _ & R5 & R6). cbv zeta in *.
    exists (reset_for_next options w2 c1). rewrite R5, R6. split_and!; [|done|cbn; congruence].
    rewrite <- E1, <- R1. apply put_connection.
  - intros _. destruct (fields_interest kWritable c1) as (I1 & _ & I3 & I4).
    exists (update_interest kWritable c1). rewrite I3, I4, E3. split_and!; [|done|done]. rewrite <- E1, <- I1. apply put_connection.
  - done.
Qed.

Lemma begin_shape f c r ka w : connection w f = Some c -> fd c = f ->
  let '(w', open) := begin_response options f r ka w in
  open = true -> exists c', connection w' f = Some c' /\ inbox c' = inbox c /\ next_states ka (state c').
Proof.
  intros Hc Hf. unfold begin_response. rewrite Hc. set (w1 := note c _ w). clearbody w1.
  assert (Hgo : forall c3, fd c3 = f -> state c3 = State.Writing -> inbox c3 = inbox c -> keep_alive c3 = ka ->
            let '(w', open) := flush options f (put c3 w1) in
            open = true -> exists c', connection w' f = Some c' /\ inbox c' = inbox c /\ next_states ka (state c')).
  { intros c3 Hf3 Hs3 Hb3 Hk3. pose proof (flush_shape f c3 (put c3 w1)) as H. destruct (flush options f (put c3 w1)) as [w' open].
    rewrite <- Hb3, <- Hk3. apply H; [|done|done]. rewrite <- Hf3. apply put_connection. }
  destruct (shared_body r); cbv zeta; [by apply Hgo|]. destruct (_ || _); [done|by apply Hgo].
Qed.

Lemma dispatch_shape f c w : connection w f = Some c -> fd c = f ->
  let '(w', open) := dispatch options is_ip_literal f w in
  open = true -> exists c', connection w' f = Some c' /\ inbox c' = inbox c /\ state c' <> State.ReadingBody.
Proof.
  intros Hc Hf. unfold dispatch. rewrite Hc.
  set (r := forwarded_ip _ _ _). destruct (call_handler w) as [resp w1]. set (w2 := note c _ _). clearbody w2.
  set (c1 := set_requests_served (requests_served c + 1) (set_request r c)).
  assert (Hc2 : connection (put c1 w2) f = Some c1) by (rewrite <- Hf; apply (put_connection c1)).
  destruct (deferred resp) as [d|].
  - unfold defer_response. rewrite Hc2. intros _. set (c2 := touch _ _ _).
    assert (E : fd c2 = f /\ inbox c2 = inbox c /\ state c2 = State.Deferred).
    { unfold c2, touch, update_interest. destruct (decide _); split_and!; done. }
    destruct E as (E1 & E2 & E3). exists c2. split_and!; [|done|by rewrite E3]. rewrite <- E1. apply put_connection.
  - pose proof (begin_shape f c1 resp (keeps_alive options (requests_served c) r) _ Hc2 Hf) as H.
    destruct (begin_response _ _ _ _ _) as [w' open]. intros Ho. destruct (H Ho) as (c' & H1 & H2 & H3).
    exists c'. split_and!; try done. intros E. by rewrite E in H3.
Qed.
(** * Input *)

Definition within (c : Connection) (t : Trace) : Prop := undeferred_trace t -> zlen (inbox c) <= inbox_limit options.
Definition quiet_at (f n : Z) (w : W) : Prop :=
  forall c, connection w f = Some c -> undeferred_trace (the_trace w n) -> quiet options c.
Definition consumed ex (f n : Z) (w : W) (r : W * bool) : Prop :=
  left_as ex f n r.2 w r.1 /\ (r.2 = true -> quiet_at f n r.1).

Lemma limit_nonneg : 0 <= inbox_limit options.
Proof. unfold inbox_limit. lia. Qed.

Lemma read_head_spec c : match read_head options c with
  | NeedsMore => find_text blank_line (inbox c) = None /\ zlen (inbox c) <= Z.max 0 (max_header_bytes options)
  | Refused _ c' => fd c' = fd c /\ id c' = id c /\ peer_ip c' = peer_ip c /\ state c' = state c
      /\ requests_served c' = requests_served c /\ inbox c' = inbox c
  | HeadRead c' => fd c' = fd c /\ id c' = id c /\ peer_ip c' = peer_ip c /\ state c' = State.ReadingBody
      /\ requests_served c' = requests_served c /\ (length (inbox c') < length (inbox c))%nat
      /\ head_of options (peer_ip c) (inbox c) = Some (request c', expected_body c', inbox c')
  end.
Proof.
  unfold read_head, head_of. destruct (find_text blank_line (inbox c)) as [m|] eqn:Em.
  - destruct (_ <? _); [split_and!; done|]. fold (blank_request (peer_ip c)).
    destruct (parse_request_head _ _) as [r|]; [|split_and!; done].
    destruct (content_length_of r) as [len valid]. cbv zeta. destruct valid; cbn [negb andb]; [|split_and!; done].
    destruct (Z.ltb_spec (max_body_bytes options) len), (Z.leb_spec len (max_body_bytes options)); try lia; [split_and!; done|].
    apply find_text_fits in Em. cbn in Em. split_and!; try done. cbn. rewrite length_drop. lia.
  - destruct (Z.leb_spec (max_header_bytes options) (zlen (inbox c))); [split_and!; done|]. split; [done|lia].
Qed.

Lemma head_of_bound ip b r len rest : head_of options ip b = Some (r, len, rest) -> len <= max_body_bytes options.
Proof.
  unfold head_of. destruct (find_text _ _); [|done]. destruct (_ <? _); [done|].
  destruct (parse_request_head _ _) as [r0|]; [|done]. destruct (content_length_of r0) as [l v].
  destruct (v && (l <=? max_body_bytes options)) eqn:E; [|done]. intros [= <- <- <-].
  apply andb_true_iff in E as [_ E]. by apply Z.leb_le in E.
Qed.

(** A body that is complete makes a request for the handler. *)
Lemma take_body_ready ex s c t : alive_ok ex i s c t -> state c = State.ReadingBody ->
  expected_body c <= zlen (inbox c) -> ready ex s (take_body c) t.
Proof.
  intros (Hp & Hn & (b & Hf & Hb) & Hw & Ha & Ht) Hs Hlen. unfold answers_ok in Ha. rewrite Hs in *.
  split_and!; try done.
  - exists b. split; [done|]. unfold frame. rewrite Hb. destruct (Z.ltb_spec (zlen (inbox c)) (expected_body c)); [lia|].
    rewrite Hp. done.
  - by apply Ht.
Qed.

Lemma held_put ex f n c0 c w : connection w f = Some c0 -> fd c = f -> id c = n ->
  alive_ok ex i (srv w) c (the_trace w n) -> tokens_ok ex (srv w) (i, n) (the_trace w n) ->
  left_as ex f n true w (put c w).
Proof.
  intros Hc Hf Hn Ha Ht. split; [by eapply frame_put|]. split; [exact Ht|]. exists c. split_and!; try done.
  rewrite <- Hf. apply put_connection.
Qed.

Lemma quiet_put f n c w : fd c = f -> (undeferred_trace (the_trace w n) -> quiet options c) -> quiet_at f n (put c w).
Proof. intros <- H c' Hc Hu. rewrite put_connection in Hc. injection Hc as <-. by apply H. Qed.

Lemma consumed_trans ex f n w w1 r : wframe ex ex f (i, n) w w1 -> consumed ex f n w1 r -> consumed ex f n w r.
Proof. intros H [ [H1 H2] H3]. split; [|done]. split; [by eapply wframe_trans|done]. Qed.

Lemma consume_input_ok ex f n fuel : forall w c, id_ (own w) = i -> connection w f = Some c -> fd c = f -> id c = n ->
  heap_bounded (srv w) -> alive_ok ex i (srv w) c (the_trace w n) ->
  tokens_ok ex (srv w) (i, n) (the_trace w n) -> within c (the_trace w n) ->
  (length (inbox c) + (match state c with State.ReadingBody => 2 | _ => 1 end) <= fuel)%nat ->
  consumed ex f n w (consume_input options is_ip_literal fuel f w).
Proof.
  induction fuel as [|fuel IH]; intros w c Hi Hc Hf Hn Hb Ha Ht Hw Hfuel; [destruct (state c); lia|]. cbn [consume_input]. rewrite Hc.
  (* the part behind the head, for a connection [c1] that is reading a body *)
  assert (Hbody : forall c1, fd c1 = f -> id c1 = n -> state c1 = State.ReadingBody ->
            alive_ok ex i (srv w) c1 (the_trace w n) -> within c1 (the_trace w n) ->
            (length (inbox c1) < fuel)%nat ->
            consumed ex f n w
              (if zlen (inbox c1) <? expected_body c1 then (put c1 w, true)
               else let '(w, open) := dispatch options is_ip_literal f (put (take_body c1) (put c1 w)) in
                    if negb open then (w, false)
                    else match connection w f with
                         | None => (dead w, false)
                         | Some c => match state c, inbox c with
                                     | State.ReadingHead, _ :: _ => consume_input options is_ip_literal fuel f w
                                     | _, _ => (w, true)
                                     end
                         end)).
  { intros c1 Hf1 Hn1 Hs1 Ha1 Hw1 Hfuel1. destruct (Z.ltb_spec (zlen (inbox c1)) (expected_body c1)) as [Hlt|Hge].
    - split; [by eapply held_put|]. intros _. apply quiet_put; [done|]. intros Hu. unfold quiet. rewrite Hs1.
      split; [split; [done|]|by apply Hw1]. destruct Ha1 as (_ & _ & (b & _ & Hb1) & _). rewrite Hs1 in Hb1. by eapply head_of_bound.
    - set (c2 := take_body c1). set (w2 := put c2 (put c1 w)).
      assert (Hc2 : connection w2 f = Some c2) by (rewrite <- Hf1; apply (put_connection c2)).
      assert (Hfr2 : wframe ex ex f (i, n) w w2).
      { eapply wframe_trans; [by apply (frame_put ex f _ c1 c)|]. apply (frame_put ex f _ c2 c1); [rewrite <- Hf1; apply put_connection|done]. }
      pose proof (take_body_ready ex (srv w2) c1 _ Ha1 Hs1 Hge) as Hr.
      pose proof (dispatching_ok ex f n c2 w2 Hi Hc2 Hf1 Hn1 Hb Hr) as Hd.
      pose proof (dispatch_shape f c2 w2 Hc2 Hf1) as Hsh.
      assert (Hin2 : (length (inbox c2) <= length (inbox c1))%nat).
      { unfold c2, take_body. cbn. rewrite length_drop. lia. }
      destruct (dispatch options is_ip_literal f w2) as [w3 open]. destruct Hd as [Hfr3 Hd].
      assert (Hfr : wframe ex ex f (i, n) w w3) by by eapply wframe_trans.
      destruct open; cbn [negb]; [|by split].
      destruct (Hsh eq_refl) as (c3 & Hc3 & Hin3 & Hs3). rewrite Hc3.
      destruct Hd as [Htok (c3' & Hc3' & Hf3 & Hn3 & Ha3)]. rewrite Hc3 in Hc3'. injection Hc3' as <-.
      assert (Hw3 : within c3 (the_trace w3 n)).
      { intros Hu. apply (undeferred_before _ _ _ _ _ _ Hfr) in Hu. specialize (Hw1 Hu). rewrite Hin3. unfold zlen in *. lia. }
      assert (Hstop : match state c3 with State.ReadingHead => inbox c3 = [] | State.ReadingBody => False | _ => True end ->
                      consumed ex f n w (w3, true)).
      { intros Hq. split; [split; [done|by split; [|exists c3] ]|]. intros _ c4 Hc4 Hu. cbn [fst] in *. rewrite Hc3 in Hc4. injection Hc4 as <-.
        split; [|by apply Hw3]. destruct (state c3); try done. rewrite Hq. split; [done|]. rewrite zlen_nil. lia. }
      destruct (state c3) eqn:Es3; try (by apply Hstop); try done.
      destruct (inbox c3) as [|x l] eqn:Ei3; [by apply Hstop|].
      eapply consumed_trans; [exact Hfr|]. apply (IH w3 c3); try done.
      + by rewrite (proj1 (proj2 Hfr)).
      + by apply Hfr.
      + rewrite Es3, Ei3, Hin3. lia. }
  destruct (state c) eqn:Es.
  - (* reading a head *)
    pose proof (read_head_spec c) as Hh. destruct (read_head options c) as [|st c1|c1].
    + destruct Hh as [Hh1 Hh2]. split; [split; [apply wframe_refl|split; [done|by exists c] ]|].
      intros _ c4 Hc4 Hu. cbn [fst] in Hc4. rewrite Hc in Hc4. injection Hc4 as <-. split; [by rewrite Es|by apply Hw].
    + destruct Hh as (E1 & E2 & E3 & E4 & E5 & E6). eapply consumed_trans; [by apply (frame_put ex f _ c1 c); [|congruence]|].
      assert (Hc1 : connection (put c1 w) f = Some c1) by (rewrite <- Hf, <- E1; apply put_connection).
      assert (Ha1 : alive_ok ex i (srv (put c1 w)) c1 (the_trace (put c1 w) n)).
      { change (alive_ok ex i (srv w) c1 (the_trace w n)). destruct Ha as (Hp & Hsv & (b & Hfr & Hb0) & Hwr & Han & Hnt).
        unfold answers_ok in Han. rewrite Es in *. eapply alive_reading; try congruence; eauto; try congruence.
        rewrite E2. by apply Hnt. }
      pose proof (fail_ok ex f n c1 st (put c1 w) Hi Hc1 ltac:(congruence) ltac:(congruence) ltac:(congruence) Ha1 Ht) as Hfl.
      pose proof (begin_shape f c1 (json st (json_error "bad_request")) false (put c1 w) Hc1 ltac:(congruence)) as Hsh.
      unfold fail in *. destruct (begin_response _ _ _ _ _) as [w' open]. split; [exact Hfl|]. cbn [fst snd]. intros -> c4 Hc4 Hu.
      destruct (Hsh eq_refl) as (c5 & Hc5 & Hin5 & Hs5). rewrite Hc4 in Hc5. injection Hc5 as <-.
      destruct (state c4) eqn:Es4; try done. split; [by rewrite Es4|]. rewrite Hin5, E6. apply Hw.
      exact (undeferred_before _ _ _ _ _ _ (proj1 Hfl) Hu).
    + destruct Hh as (E1 & E2 & E3 & E4 & E5 & E6 & E7). rewrite E4. apply Hbody; try congruence; try lia.
      * destruct Ha as (Hp & Hsv & (b & Hfr & Hb0) & Hwr & Han & Hnt). unfold answers_ok in Han. rewrite Es in *.
        unfold AsyncHttpSafe.alive_ok, AsyncHttpSafe.reading_ok, AsyncHttpSafe.answers_ok. rewrite E2, E3, E4, E5. split_and!; try done.
        -- exists b. split; [done|]. by rewrite Hp, Hb0.
        -- intros _. by apply Hnt.
      * intros Hu. specialize (Hw Hu). unfold zlen in *. lia.
  - rewrite Es. apply Hbody; try done. lia.
  - rewrite Es. split; [by eapply held_put|]. intros _. apply quiet_put; [done|]. intros Hu. split; [by rewrite Es|by apply Hw].
  - rewrite Es. split; [by eapply held_put|]. intros _. apply quiet_put; [done|]. intros Hu. split; [by rewrite Es|by apply Hw].
Qed.

Lemma consume_ok ex f n w c : id_ (own w) = i -> connection w f = Some c -> fd c = f -> id c = n ->
  heap_bounded (srv w) -> alive_ok ex i (srv w) c (the_trace w n) ->
  tokens_ok ex (srv w) (i, n) (the_trace w n) -> within c (the_trace w n) ->
  consumed ex f n w (consume options is_ip_literal f w).
Proof.
  intros Hi Hc Hf Hn Hb Ha Ht Hw. unfold consume. rewrite Hc. eapply consume_input_ok; eauto. destruct (state c); lia.
Qed.
End Runs.
