(* ===== verification/AsyncHttpServer.v ===== *)
(** The whole HTTP server: its loops, each of which can be between two operations of a wake-up
    or of an accept while others act, and the threads that resolve deferred responses, post
    them and wake the loops.  The invariant holds along every execution. *)

From S2P Require Import Prelude Text HttpMessage AsyncHttp AsyncHttpSafe AsyncHttpRuns.
From Stdlib Require Import Ascii.

Section Loops.
Context (options : AsyncHttpServerOptions) (is_ip_literal : text -> bool).
Context (others : gmap nat EventLoop).

Notation Inv := (Inv options is_ip_literal).
Notation KInv := (KInv options is_ip_literal).
Notation trace_ok := (trace_ok options is_ip_literal).
Notation alive_ok := (alive_ok options is_ip_literal).
Notation held := (held options is_ip_literal).
Notation gone := (gone options is_ip_literal).
Notation left_as := (left_as options is_ip_literal).
Notation consumed := (consumed options is_ip_literal).

(** The loop that runs, beside the others. *)
Definition all (w : W) : gmap nat EventLoop := <[id_ (own w) := own w]> others.
Definition Good ex (w : W) : Prop := Inv ex (all w) (srv w).

Lemma own_lookup w : all w !! id_ (own w) = Some (own w).
Proof. unfold all. by rewrite lookup_insert, decide_True. Qed.
Lemma other_lookup w i : i <> id_ (own w) -> all w !! i = others !! i.
Proof. intros H. unfold all. by rewrite lookup_insert_ne. Qed.

(** What the invariant says of an open connection. *)
Lemma good_connection ex w f c : Good ex w -> connection w f = Some c ->
  fd c = f /\ alive_ok ex (id_ (own w)) (srv w) c (trace_of (id_ (own w), id c) (log (srv w)))
  /\ tokens_ok ex (srv w) (id_ (own w), id c) (trace_of (id_ (own w), id c) (log (srv w)))
  /\ (undeferred_trace (trace_of (id_ (own w), id c) (log (srv w))) -> quiet options c)
  /\ heap_bounded (srv w).
Proof.
  intros [ (Hl & _ & Hb) Hk] Hc. destruct (Hl _ _ (own_lookup w)) as (_ & _ & Hf & _).
  destruct (Hf f c Hc) as [Hfd _]. destruct (Hk (id_ (own w), id c)) as (_ & Ht & Ha).
  destruct (Ha (own w) f c (own_lookup w) Hc eq_refl) as [H1 H2]. split_and!; try done.
Qed.

(** An operation on one connection keeps the invariant, if it leaves that connection open and
    in order, or closed. *)
Lemma good_after ex ex' f c w w' : Good ex w -> connection w f = Some c ->
  wframe ex ex' f (id_ (own w), id c) w w' ->
  (held (id_ (own w)) ex' f (id c) w' /\ quiet_at options (id_ (own w)) f (id c) w')
  \/ gone (id_ (own w)) ex' f (id c) w' ->
  Good ex' w'.
Proof.
  intros [ (Hl & Hdead & Hb) Hk] Hc ((F1 & F2 & F3 & F4 & F5 & _) & G1 & G2 & G3 & _) Hpost.
  destruct (Hl _ _ (own_lookup w)) as (_ & Hin & Hf & Hinj & Hnew).
  destruct (Hf f c Hc) as [Hfd Hlt].
  assert (Hsame : forall f' c', connections_ (own w') !! f' = Some c' -> f' = f /\ fd c' = f /\ id c' = id c
            \/ f' <> f /\ connections_ (own w) !! f' = Some c' /\ id c' <> id c).
  { intros f' c' Hc'. destruct (decide (f' = f)) as [->|Hne].
    - left. destruct Hpost as [ [ [_ (c2 & H1 & H2 & H3 & _)] _]|[H1 _] ]; unfold connection in H1; [|congruence].
      rewrite Hc' in H1. injection H1 as ->. done.
    - right. rewrite G3 in Hc' by done. split_and!; try done. intros E. by apply Hne, (Hinj f' f c' c). }
  assert (Hall : forall i l', all w' !! i = Some l' -> i = id_ (own w) /\ l' = own w' \/ i <> id_ (own w) /\ all w !! i = Some l').
  { intros i l' Hi. destruct (decide (i = id_ (own w))) as [->|Hne].
    - rewrite <- G1, own_lookup in Hi. injection Hi as <-. auto.
    - rewrite other_lookup in Hi by (by rewrite G1). right. split; [done|]. by rewrite other_lookup. }
  split.
  - split_and!.
    + intros i l' Hi. destruct (Hall _ _ Hi) as [ [-> ->]|[Hne Hi0] ].
      * split_and!; try done; [by apply F3| | |].
        -- intros f' c' Hc'. rewrite G2. destruct (Hsame _ _ Hc') as [(-> & H1 & H2)|(Hne & H1 & H2)]; [split; [done|lia]|by apply Hf].
        -- intros f1 f2 c1 c2 H1 H2 E. destruct (Hsame _ _ H1) as [(-> & _ & E1)|(Hn1 & A1 & E1)], (Hsame _ _ H2) as [(-> & _ & E2)|(Hn2 & A2 & E2)]; try congruence.
           by apply (Hinj f1 f2 c1 c2).
        -- intros n Hn. rewrite G2 in Hn. rewrite (proj1 (F2 (id_ (own w), n) ltac:(intros [= ]; lia))). by apply Hnew.
      * destruct (Hl _ _ Hi0) as (L1 & L2 & L3 & L4 & L5). split_and!; try done; [by apply F3|].
        intros n Hn. rewrite (proj1 (F2 (i, n) ltac:(congruence))). by apply L5.
    + congruence.
    + by apply F5.
  - intros k. destruct (decide (k = (id_ (own w), id c))) as [->|Hne].
    + destruct Hpost as [ [ [Ht (c2 & H1 & H2 & H3 & H4)] Hq]|(H1 & H2 & H3)].
      * split; [by eapply alive_trace|split; [done|] ]. cbn. intros l f' c' Hi Hc' Hid.
        destruct (Hall _ _ Hi) as [ [_ ->]|[Hn _] ]; [|done].
        destruct (Hsame _ _ Hc') as [(-> & _ & _)|(_ & _ & Hn)]; [|done].
        unfold connection in H1. rewrite Hc' in H1. injection H1 as ->. split; [done|]. by apply Hq.
      * split; [done|split; [done|] ]. cbn. intros l f' c' Hi Hc' Hid.
        destruct (Hall _ _ Hi) as [ [_ ->]|[Hn _] ]; [|done].
        destruct (Hsame _ _ Hc') as [(-> & _ & _)|(_ & _ & Hn)]; [|done].
        unfold connection in H1. congruence.
    + destruct (F2 k Hne) as (T1 & T2 & T3). apply (KInv_frame _ _ ex ex' (all w) (all w') (srv w) (srv w') k (Hk k)); try done.
      intros l' f' c' Hi Hc' Hid. destruct (Hall _ _ Hi) as [ [E ->]|[Hn Hi0] ]; [|by exists l'].
      exists (own w). rewrite E. split; [apply own_lookup|].
      destruct (Hsame _ _ Hc') as [(-> & _ & E2)|(_ & H1 & _)]; [|done].
      destruct Hne. destruct k as [k1 k2]. cbn in *. congruence.
Qed.

Lemma consumed_good ex f c w r : Good ex w -> connection w f = Some c ->
  consumed (id_ (own w)) ex f (id c) w r -> Good ex r.1.
Proof.
  intros Hg Hc [ [H1 H2] H3]. eapply good_after; [exact Hg|exact Hc|exact H1|]. destruct r as [w' [|] ]; cbn in *; auto.
Qed.
Lemma close_good ex f w : Good ex w -> Good ex (close_connection f w).
Proof.
  intros Hg. destruct (connection w f) as [c|] eqn:Hc; [|unfold close_connection; by rewrite Hc].
  destruct (good_connection ex w f c Hg Hc) as (Hf & Ha & Ht & _).
  destruct (close_ok options is_ip_literal (id_ (own w)) ex f (id c) c w eq_refl Hc Hf eq_refl) as [H1 H2];
    [by eapply alive_trace|done|].
  eapply good_after; [exact Hg|exact Hc|exact H1|by right].
Qed.

(** * Reading and writing *)

Lemma chunk_size (b : text) : zlen (take kChunk b) <= 16 * 1024.
Proof. unfold zlen. rewrite length_take. unfold kChunk. lia. Qed.

Lemma alive_got ex i s c t b : state c <> State.Writing -> alive_ok ex i s c t ->
  alive_ok ex i s (set_inbox (inbox c ++ b) c) (see t (Got b)).
Proof.
  intros Hs (Hp & Hn & (b0 & Hf & Hb) & Hw & Ha & Ht). split_and!; try done.
  exists (b0 ++ b). split; [by apply Frames_more|]. cbn [state set_inbox peer see request expected_body inbox].
  destruct (state c); try (by rewrite Hb). by apply head_of_more.
Qed.

Lemma quiet_within c t s ex i : state c <> State.Writing -> alive_ok ex i s c t ->
  (undeferred_trace t -> quiet options c) -> undeferred_trace t ->
  zlen (inbox c) <= inbox_limit options - 16 * 1024.
Proof.
  intros Hs (_ & _ & _ & _ & Ha & _) Hq Hu. destruct (Hq Hu) as [H _]. unfold inbox_limit.
  unfold answers_ok in Ha. destruct (state c); [lia|lia|done|].
  destruct Ha as (d0 & r & a & d & cell & Hd & _ & Hda & _). unfold undeferred_trace in Hu.
  rewrite Hd, Forall_app in Hu. destruct Hu as [_ Hu]. inversion Hu; subst. cbn in *. congruence.
Qed.

Lemma receive_loop_good ex f reads : forall w c, Good ex w -> connection w f = Some c -> state c <> State.Writing ->
  Good ex (receive_loop options is_ip_literal reads f w).
Proof.
  induction reads as [|r reads IH]; intros w c Hg Hc Hs; [done|]. cbn [receive_loop].
  destruct r as [b| | |]; [|done|by eapply IH|by apply close_good].
  pose proof (chunk_size b) as Hsz. destruct (take kChunk b) as [|x chunk]; [by apply close_good|].
  rewrite Hc. set (got := x :: chunk) in *. destruct (good_connection ex w f c Hg Hc) as (Hf & Ha & Ht & Hq & Hb).
  set (c1 := set_inbox (inbox c ++ got) c). set (w1 := put c1 (note c (Got got) w)).
  set (i := id_ (own w)) in *. set (n := id c) in *.
  assert (Hc1 : connection w1 f = Some c1) by (rewrite <- Hf; apply (put_connection c1)).
  assert (Htr : trace_of (i, n) (log (srv w1)) = see (trace_of (i, n) (log (srv w))) (Got got)) by by apply (trace_note i).
  assert (Hfr : wframe ex ex f (i, n) w w1).
  { eapply wframe_trans; [by apply (frame_note i ex f n c (Got got) w)|]. by apply (frame_put ex f _ c1 c). }
  assert (Ha1 : alive_ok ex i (srv w1) c1 (trace_of (i, n) (log (srv w1)))).
  { rewrite Htr. apply (alive_emit _ _ i). by apply alive_got. }
  assert (Ht1 : tokens_ok ex (srv w1) (i, n) (trace_of (i, n) (log (srv w1)))).
  { rewrite Htr. by apply tokens_emit. }
  assert (Hw1 : within options c1 (trace_of (i, n) (log (srv w1)))).
  { intros Hu. rewrite Htr in Hu. pose proof (quiet_within c _ _ ex i Hs Ha Hq Hu) as Hlim.
    unfold c1. cbn [inbox set_inbox]. rewrite zlen_app. lia. }
  assert (Hb1 : heap_bounded (srv w1)) by by apply Hfr.
  pose proof (consume_ok options is_ip_literal i ex f n w1 c1 eq_refl Hc1 Hf eq_refl Hb1 Ha1 Ht1 Hw1) as Hcons.
  assert (Hg2 : Good ex (consume options is_ip_literal f w1).1).
  { eapply consumed_good; [exact Hg|exact Hc|]. by eapply consumed_trans. }
  destruct Hcons as [ [_ Hpost] _]. destruct (consume options is_ip_literal f w1) as [w2 open]. cbn [fst snd] in *.
  destruct open; cbn [negb]; [|done].
  destruct Hpost as [_ (c2 & Hc2 & _)]. rewrite Hc2. destruct (state c2) eqn:Es; try done; eapply IH; eauto; congruence.
Qed.

Lemma on_readable_good ex f reads w c : Good ex w -> connection w f = Some c ->
  Good ex (on_readable options is_ip_literal reads f w).
Proof.
  intros Hg Hc. unfold on_readable. rewrite Hc. destruct (state c) eqn:Es; try done; eapply receive_loop_good; eauto; congruence.
Qed.

Lemma on_writable_good ex f w c : Good ex w -> connection w f = Some c ->
  Good ex (on_writable options is_ip_literal f w).
Proof.
  intros Hg Hc. unfold on_writable. rewrite Hc. destruct (state c) eqn:Es; try done.
  destruct (good_connection ex w f c Hg Hc) as (Hf & Ha & Ht & Hq & Hb).
  set (i := id_ (own w)) in *. set (n := id c) in *.
  pose proof (flush_ok options is_ip_literal i ex f n c w eq_refl Hc Hf eq_refl Es Ha Ht) as Hfl.
  pose proof (flush_shape options f c w Hc Hf Es) as Hsh.
  destruct (flush options f w) as [w1 open]. destruct Hfl as [Hfr Hpost].
  destruct open; cbn [negb]; [|eapply good_after; [exact Hg|exact Hc|exact Hfr|by right] ].
  destruct (Hsh eq_refl) as (c1 & Hc1 & Hin & Hst). rewrite Hc1.
  pose proof Hpost as Hheld. destruct Hpost as [Ht1 (c1' & Hc1' & Hf1 & Hn1 & Ha1)]. rewrite Hc1 in Hc1'. injection Hc1' as <-.
  assert (Hw1 : within options c1 (trace_of (i, n) (log (srv w1)))).
  { intros Hu. rewrite Hin. apply (Hq (undeferred_before i ex f _ n w w1 Hfr Hu)). }
  assert (Hstop : match state c1 with State.ReadingHead => inbox c1 = [] | State.Writing => True | _ => False end -> Good ex w1).
  { intros Hstop. eapply good_after; [exact Hg|exact Hc|exact Hfr|left]. split; [done|].
    intros c4 Hc4 Hu. rewrite Hc1 in Hc4. injection Hc4 as <-. split; [|by apply Hw1].
    destruct (state c1); try done. rewrite Hstop. split; [done|]. rewrite zlen_nil. lia. }
  destruct (state c1) eqn:Es1; try done; [|by apply Hstop].
  destruct (inbox c1) as [|x l] eqn:Ei; [by apply Hstop|].
  eapply consumed_good; [exact Hg|exact Hc|]. eapply consumed_trans; [exact Hfr|].
  apply (consume_ok options is_ip_literal i ex f n w1 c1); try done; [by rewrite (proj1 (proj2 Hfr))|by apply Hfr].
Qed.
(** * The server alone *)

Lemma inv_srv ex ex' ls s s' : (forall k, srv_frame ex ex' k s s') -> Inv ex ls s -> Inv ex' ls s'.
Proof.
  intros Hs [ (Hl & Hd & Hb) Hk]. destruct (Hs (0%nat, 0)) as (F1 & _ & F3 & F4 & F5 & _). split.
  - split_and!; [|congruence|by apply F5]. intros i l Hi. destruct (Hl i l Hi) as (L1 & L2 & L3 & L4 & L5).
    split_and!; try done; [by apply F3|]. intros n Hn. rewrite (proj1 (frame_self ex ex' (i, n) _ _ Hs)). by apply L5.
  - intros k. destruct (frame_self ex ex' k _ _ Hs) as (T1 & T2 & T3).
    apply (KInv_frame _ _ ex ex' ls ls s s' k (Hk k)); eauto.
Qed.
Lemma good_srv ex ex' w w' : own w' = own w -> (forall k, srv_frame ex ex' k (srv w) (srv w')) ->
  Good ex w -> Good ex' w'.
Proof. intros Ho Hs. unfold Good, all. rewrite Ho. by apply inv_srv. Qed.

(** An entry that is dropped. *)
Lemma inv_drop ex ex' ls s : (forall k, inflight ex' s k `sublist_of` inflight ex s k) -> Inv ex ls s -> Inv ex' ls s.
Proof.
  intros Hsub [Hs Hk]. split; [done|]. intros k. specialize (Hsub k). destruct (Hk k) as (H1 & (T1 & T2 & T3) & H3).
  split; [done|split].
  - split_and!; [|intros call Hc; apply T2; by eapply elem_of_sublist|done]. etrans; [by apply sublist_length|done].
  - intros l f c Hl Hc Hn. destruct (H3 l f c Hl Hc Hn) as [ (A1 & A2 & A3 & A4 & A5 & A6) Hq]. split; [|done].
    split_and!; try done. intros Hne. destruct (A6 Hne) as [B1 B2]. split; [|done]. destruct k as [k1 k2]. cbn in *. subst k2.
    rewrite B1 in Hsub. by apply sublist_nil_r in Hsub.
Qed.
Lemma inflight_tail call ex s k : inflight ex s k `sublist_of` inflight (call :: ex) s k.
Proof. unfold inflight. cbn [app]. rewrite filter_cons. destruct (decide _); [by apply sublist_cons|done]. Qed.

(** * Deferred responses *)

Lemma waits_for_inj t d d' : waits_for t d -> waits_for t d' -> d = d'.
Proof.
  intros (d0 & r & a & H1 & H2) (d1 & r' & a' & H3 & H4). rewrite H1 in H3.
  apply app_inj_2 in H3 as [_ H3]; [|done]. congruence.
Qed.
Lemma waits_for_deferred t d : waits_for t d -> ~ undeferred_trace t.
Proof.
  intros (d0 & r & a & H1 & H2) Hu. unfold undeferred_trace in Hu. rewrite H1, Forall_app in Hu.
  destruct Hu as [_ Hu]. inversion Hu; subst. cbn in *. congruence.
Qed.

(** A parked connection whose deferral is over is given its response. *)
Lemma answer_parked ex f c w w1 c1 resp : Good ex w -> connection w f = Some c -> state c = State.Deferred ->
  wframe ex ex f (id_ (own w), id c) w w1 -> connection w1 f = Some c1 -> c1 = set_parked None c ->
  trace_of (id_ (own w), id c) (log (srv w1)) = trace_of (id_ (own w), id c) (log (srv w)) ->
  no_tokens ex (srv w1) (id_ (own w), id c) ->
  (forall d r a, waits_for (trace_of (id_ (own w), id c) (log (srv w))) d -> deferred a = Some d -> answer_for (srv w1) (r, a) resp) ->
  Good ex (begin_response options f resp (deferred_keep_alive c) w1).1.
Proof.
  intros Hg Hc Hs Hfr Hc1 -> Htr Hnt Hans. destruct (good_connection ex w f c Hg Hc) as (Hf & Ha & Ht & Hq & Hb).
  set (i := id_ (own w)) in *. set (n := id c) in *. set (t := trace_of (i, n) (log (srv w))) in *.
  assert (Hlat : later (srv w) (srv w1)).
  { destruct Hfr as ((F1 & F2 & _) & _). destruct (F2 (S i, n) ltac:(intros [= ]; lia)) as (_ & Hh & _). by eapply heap_frame_later. }
  destruct Ha as (Hp & Hsv & (b & Hfm & Hb0) & Hw & Han & _). unfold answers_ok in Han. rewrite Hs in *. subst b.
  destruct Han as (d0 & r & a & d & cell & Hd & Ha0 & Hda & Hka & _).
  assert (Hwf : waits_for t d) by by exists d0, r, a.
  assert (Hi1 : id_ (own w1) = i) by apply Hfr.
  pose proof (begin_response_ok options is_ip_literal i ex f n (set_parked None c) resp (deferred_keep_alive c) w1 Hi1 Hc1 Hf eq_refl) as H.
  destruct (begin_response options f resp (deferred_keep_alive c) w1) as [w2 open] eqn:Eb. rewrite Htr in H. fold t in H.
  destruct H as [H1 H2].
  - split_and!; try done. left. rewrite Hd, Hka. apply (answered_snoc options (srv w1) d0 (began t) (r, a) resp); [by eapply answered_later|].
    by eapply Hans.
  - by apply tokens_none.
  - assert (Hfr2 : wframe ex ex f (i, n) w w2) by by eapply wframe_trans.
    eapply good_after; [exact Hg|exact Hc|exact Hfr2|]. cbn [fst]. destruct open; [left|by right]. split; [exact H2|].
    intros c4 _ Hu. exfalso. eapply waits_for_deferred; [exact Hwf|]. exact (undeferred_before i ex f _ n w w2 Hfr2 Hu).
Qed.
Lemma good_drop call ex w : Good (call :: ex) w -> Good ex w.
Proof. apply inv_drop. intros k. apply inflight_tail. Qed.

(** The entry at hand is the only token of its connection. *)
Lemma entry_alone k call ex s t : key_of call.1 = k -> tokens_ok (call :: ex) s k t ->
  no_tokens ex s k /\ exists d, waits_for t d /\ Resolved d call.2 ∈ log s.
Proof.
  intros Hk (T1 & T2 & T3).
  assert (E : inflight (call :: ex) s k = call :: inflight ex s k).
  { unfold inflight. cbn [app]. by rewrite filter_cons_True. }
  rewrite E in *. destruct (T2 call (list_elem_of_here _ _)) as (d & cell & Hw & Hd & Hdel & Hr).
  split; [|by exists d]. split.
  - destruct (inflight ex s k); [done|cbn in T1; lia].
  - intros d' x Hx t0 Ht0 Hk0. destruct (T3 d' x Hx) as (Hf & _ & Hw'); [intros Hn; by apply (Hn t0)|].
    rewrite (waits_for_inj _ _ _ Hw' Hw) in Hx. congruence.
Qed.

Lemma apply_resolved_good ex w f n r : Good ((mkCompletion (id_ (own w)) f n, r) :: ex) w ->
  Good ex (apply_resolved options w (f, n, r)).
Proof.
  intros Hg. pose proof (good_drop _ _ _ Hg) as Hg'. unfold apply_resolved.
  destruct (connection w f) as [c|] eqn:Hc; [|done]. destruct (state c) eqn:Es; try done.
  destruct (decide (id c = n)) as [<-|]; [|done].
  destruct (good_connection _ w f c Hg Hc) as (Hf & _ & Ht & _).
  apply entry_alone in Ht as (Hnt & d & Hw & Hr); [|done].
  apply (answer_parked ex f c w (put (set_parked None c) w) (set_parked None c)); try done.
  - by apply (frame_put ex f _ (set_parked None c) c).
  - rewrite <- Hf. apply (put_connection (set_parked None c)).
  - intros d' q a Hw' Hda. rewrite (waits_for_inj _ _ _ Hw' Hw) in Hda. unfold answer_for. cbn [snd]. rewrite Hda.
    left. eauto.
Qed.

Lemma begin_response_own f r ka w : id_ (own (begin_response options f r ka w).1) = id_ (own w).
Proof.
  unfold begin_response, flush, close_connection. repeat (case_match; try done); simplify_eq; done.
Qed.
Lemma apply_resolved_own w e : id_ (own (apply_resolved options w e)) = id_ (own w).
Proof.
  unfold apply_resolved. destruct e as [ [f n] r]. repeat (case_match; try done). by rewrite begin_response_own.
Qed.

(** Taking the entries out of the mailbox. *)
Definition as_calls (i : nat) (entries : list (Z * Z * HttpResponse)) : list (Completion * HttpResponse) :=
  map (fun '(f, n, r) => (mkCompletion i f n, r)) entries.
Lemma filter_none {A} (P : A -> Prop) `{!forall x, Decision (P x)} (l : list A) :
  (forall x, x ∈ l -> ~ P x) -> filter P l = [].
Proof.
  induction l as [|x l IH]; intros Hn; [done|]. rewrite filter_cons_False by (apply Hn; left).
  apply IH. intros y Hy. apply Hn. by right.
Qed.
Lemma swap_inflight i b s k : inbounds s !! i = Some b ->
  inflight (as_calls i (resolved b)) (on_inbound i (set_resolved []) s) k ≡ₚ inflight [] s k.
Proof.
  intros Hb. set (s1 := on_inbound i (set_resolved []) s). unfold inflight. cbn [app].
  change (posting s1) with (posting s). destruct (decide (k.1 = i)) as [E|E].
  - assert (E1 : mailbox s1 k.1 = []) by (unfold mailbox; cbn; by rewrite E, lookup_alter_eq, Hb).
    assert (E2 : mailbox s k.1 = as_calls i (resolved b)) by (unfold mailbox; by rewrite E, Hb).
    rewrite E1, E2, app_nil_r, !list.filter_app. apply Permutation_app_comm.
  - assert (E1 : mailbox s1 k.1 = mailbox s k.1) by (unfold mailbox; cbn; by rewrite lookup_alter_ne).
    rewrite E1, list.filter_app, filter_none; [done|]. intros x Hx Hk. apply list_elem_of_In, in_map_iff in Hx.
    destruct Hx as ([ [f n] r] & <- & _). apply E. by rewrite <- Hk.
Qed.

Lemma inv_perm ex ex' ls s s' : log s' = log s -> deferreds s' = deferreds s -> next_pointer s' = next_pointer s ->
  touched_dead s' = touched_dead s -> (forall i, is_Some (inbounds s !! i) -> is_Some (inbounds s' !! i)) ->
  (forall k, inflight ex' s' k ≡ₚ inflight ex s k) -> Inv ex ls s -> Inv ex' ls s'.
Proof.
  intros El Ed En Et Ei Hp [ (Hl & Hd & Hb) Hk].
  assert (Hlat : later s s') by (split; [by rewrite El|rewrite Ed; eauto]). split.
  - split_and!; [|congruence|by rewrite Ed, En]. intros j l Hj. destruct (Hl j l Hj) as (L1 & L2 & L3 & L4 & L5).
    split_and!; auto. by rewrite El.
  - intros k. destruct (Hk k) as (H1 & (T1 & T2 & T3) & H3). unfold AsyncHttpSafe.KInv. rewrite El. split; [by eapply trace_ok_later|split].
    + split_and!; [by rewrite Hp|intros call; rewrite Hp, Ed, El; apply T2|by rewrite Ed].
    + intros l f c Hl1 Hc Hn. destruct (H3 l f c Hl1 Hc Hn) as [Ha Hq]. split; [|done].
      destruct Ha as (A1 & A2 & A3 & A4 & A5 & A6). split_and!; try done.
      * unfold answers_ok in *. unfold answered, answer_for in *. rewrite El, Ed. exact A5.
      * intros Hne. destruct (A6 Hne) as [B1 B2]. split; [|by rewrite Ed].
        destruct k as [k1 k2]. cbn in *. subst k2. apply Permutation_nil_r. by rewrite Hp, B1.
Qed.

Lemma apply_all_good entries : forall w, Good (as_calls (id_ (own w)) entries) w ->
  Good [] (foldl (apply_resolved options) w entries).
Proof.
  induction entries as [|[ [f n] r] entries IH]; intros w Hg; [done|]. cbn [foldl].
  apply IH. rewrite apply_resolved_own. by apply apply_resolved_good.
Qed.

Lemma own_inbound_lookup w : Good [] w -> inbounds (srv w) !! id_ (own w) = Some (own_inbound w).
Proof.
  intros [ (Hl & _) _]. destruct (Hl _ _ (own_lookup w)) as (_ & [b Hb] & _). unfold own_inbound. by rewrite Hb.
Qed.
Lemma drain_resolved_good w : Good [] w -> Good [] (drain_resolved options w).
Proof.
  intros Hg. pose proof (own_inbound_lookup w Hg) as Hb. apply apply_all_good. unfold Good in *. revert Hg.
  apply inv_perm; try done.
  - intros i Hi. cbn. by apply lookup_alter_is_Some.
  - intros k. by apply swap_inflight.
Qed.
(** * Timeouts *)

Lemma count_good f w : (forall s, log (f s) = log s /\ deferreds (f s) = deferreds s
    /\ next_pointer (f s) = next_pointer s /\ posting (f s) = posting s
    /\ touched_dead (f s) = touched_dead s /\ (forall j, mailbox (f s) j = mailbox s j)
    /\ (forall j, is_Some (inbounds s !! j) -> is_Some (inbounds (f s) !! j))) ->
  Good [] w -> Good [] (on_srv f w).
Proof.
  intros H. destruct (H (srv w)) as (H1 & H2 & H3 & H4 & H5 & H6 & H7). apply good_srv; [done|]. intros k.
  by apply srv_frame_core.
Qed.
Lemma count_timeout_good w : Good [] w -> Good [] (count_timeout w).
Proof. by apply count_good. Qed.

(** The answer for when time runs out belongs to the request. *)
Lemma cancel_ok w f c d cell : Good [] w -> connection w f = Some c -> state c = State.Deferred -> parked c = Some d ->
  deferreds (srv w) !! d = Some cell -> delivered_ cell = false ->
  Good [] (begin_response options f (timeout_answer (timeout_response cell)) (deferred_keep_alive c)
             (count_timeout (on_srv (set_deferred_cell d (fst (cancel cell))) (put (set_parked None c) w)))).1.
Proof.
  intros Hg Hc Hs Hpk Hcell Hdel. destruct (good_connection _ w f c Hg Hc) as (Hf & Ha & Ht & _ & Hb).
  set (i := id_ (own w)) in *. set (n := id c) in *. set (t := trace_of (i, n) (log (srv w))) in *.
  destruct Ha as (_ & _ & _ & _ & Han & _). unfold answers_ok in Han. rewrite Hs in Han.
  destruct Han as (d0 & r & a & d' & cell' & Hd & _ & Hda & _ & [Hp|Hp] & Hcell' & Hcomp); [congruence|].
  rewrite Hpk in Hp. injection Hp as <-. rewrite Hcell in Hcell'. injection Hcell' as <-. specialize (Hcomp Hdel).
  assert (Hwf : waits_for t d) by by exists d0, r, a.
  assert (Hcan : cancel cell = (mkDeferredResponse (timeout_response cell) (timeout cell) None (response_ cell) (resolved_ cell) true, true)).
  { unfold cancel. by rewrite Hdel. }
  rewrite Hcan. cbn [fst]. set (cell2 := mkDeferredResponse _ _ _ _ _ _). set (w1 := count_timeout _).
  assert (Hsrv : srv_frame [] [] (i, n) (srv w) (srv w1)).
  { eapply (srv_frame_trans [] [] []); [|by apply srv_frame_core]. split_and!; auto.
    - intros k' Hk. split_and!; [done| |done]. apply (heap_frame_cell k' (srv w) d cell cell2); try done.
      + intros t0 Ht0. rewrite Hcomp in Ht0. injection Ht0 as <-. intros E. by apply Hk.
    - by apply (cell_bounded (srv w) d cell). }
  assert (Hnt : no_tokens [] (srv w1) (i, n)).
  { destruct Ht as (T1 & T2 & T3). split.
    - change (inflight [] (srv w) (i, n) = []). destruct (inflight [] (srv w) (i, n)) as [|call rest] eqn:E; [done|]. exfalso.
      destruct (T2 call (list_elem_of_here _ _)) as (d2 & x & Hw2 & Hx & Hdx & _).
      rewrite (waits_for_inj _ _ _ Hw2 Hwf) in Hx. congruence.
    - intros d2 x Hx t0 Ht0 Hk0. cbn in Hx. destruct (decide (d2 = d)) as [->|Hne].
      + rewrite lookup_insert, decide_True in Hx by done. injection Hx as <-. done.
      + rewrite lookup_insert_ne in Hx by done. destruct (T3 d2 x Hx) as (_ & _ & Hw2); [intros Hu; by apply (Hu t0)|].
        by apply Hne, (waits_for_inj t). }
  apply (answer_parked [] f c w w1 (set_parked None c)); try done.
  - split_and!; try done; cbn; [|unfold connection in Hc; congruence]. intros f' Hne. rewrite Hf. by rewrite lookup_insert_ne.
  - rewrite <- Hf. apply (put_connection (set_parked None c)).
  - intros d2 q b Hw2 Hdb. rewrite (waits_for_inj _ _ _ Hw2 Hwf) in Hdb. unfold answer_for. cbn [snd]. rewrite Hdb.
    right. exists cell2. split; [|done]. cbn. by rewrite lookup_insert, decide_True.
Qed.

Lemma expire_good w f : Good [] w -> Good [] (expire options w f).
Proof.
  intros Hg. unfold expire. destruct (connection w f) as [c|] eqn:Hc; [|done].
  assert (Hcl : Good [] (close_connection f (count_timeout w))) by by apply close_good, count_timeout_good.
  destruct (state c) eqn:Es; try done. destruct (parked c) as [d|] eqn:Ep; [|done].
  destruct (good_connection _ w f c Hg Hc) as (Hf & Ha & Ht & Hq & Hb).
  set (i := id_ (own w)) in *. set (n := id c) in *. set (t := trace_of (i, n) (log (srv w))) in *.
  pose proof Ha as (A1 & A2 & A3 & A4 & Han & A6). unfold answers_ok in Han. rewrite Es in Han.
  destruct Han as (d0 & r & a & d' & cell & Hd & B1 & B2 & B3 & [Hp|Hp] & Hcell & B6); [congruence|].
  rewrite Ep in Hp. injection Hp as <-. cbv zeta. change (deferreds (srv (put _ w)) !! d) with (deferreds (srv w) !! d).
  rewrite Hcell. destruct (delivered_ cell) eqn:Edel.
  - unfold cancel. rewrite Edel. set (c1 := touch _ _ _).
    assert (E : fd c1 = f /\ id c1 = n /\ peer_ip c1 = peer_ip c /\ requests_served c1 = requests_served c /\ state c1 = State.Deferred
              /\ inbox c1 = inbox c /\ parked c1 = None /\ deferred_keep_alive c1 = deferred_keep_alive c) by (split_and!; done).
    clearbody c1. destruct E as (E1 & E2 & E3 & E4 & E5 & E6 & E7 & E8).
    set (w1 := on_srv (set_deferred_cell d cell) (put (set_parked None c) w)).
    assert (Hds : deferreds (srv w1) = deferreds (srv w)) by (cbn; by apply insert_id).
    assert (Hsrv : forall k, srv_frame [] [] k (srv w) (srv w1)).
    { intros k. split_and!; auto; [|by apply (cell_bounded (srv w) d cell)]. intros k' _. split_and!; [done|by apply heap_frame_same|done]. }
    assert (Hlat : later (srv w) (srv w1)) by (split; [done|rewrite Hds; eauto]).
    eapply (good_after _ _ f c); [exact Hg|exact Hc| |].
    + split_and!; try done; [|cbn; rewrite E1; unfold connection in Hc; congruence].
      intros f' Hne. cbn. rewrite E1, Hf. by rewrite !lookup_insert_ne.
    + left. split; [split|].
      * change (tokens_ok [] (srv w1) (i, n) t). by eapply tokens_same.
      * exists c1. split; [rewrite <- E1; apply put_connection|split_and!; try done].
        change (alive_ok [] i (srv w1) c1 t). unfold AsyncHttpSafe.alive_ok, reading_ok, answers_ok in *.
        rewrite E1, E2, E3, E4, E5, E6, E7, E8. rewrite Es in *. split_and!; try done.
        exists d0, r, a, d, cell. rewrite Hds. split_and!; auto; [by eapply answered_later|congruence].
      * intros c4 _ Hu. exfalso. apply (waits_for_deferred t d); [by exists d0, r, a|exact Hu].
  - pose proof (cancel_ok w f c d cell Hg Hc Es Ep Hcell Edel) as H. unfold cancel in *. rewrite Edel in *. exact H.
Qed.

Lemma expire_own w f : id_ (own (expire options w f)) = id_ (own w).
Proof.
  unfold expire, close_connection. repeat (case_match; try done); by rewrite ?begin_response_own.
Qed.
Lemma sweep_timeouts_good w : Good [] w -> Good [] (sweep_timeouts options w).
Proof.
  unfold sweep_timeouts. generalize (expired w). intros l. revert w.
  induction l as [|f l IH]; intros w Hg; [done|]. by apply IH, expire_good.
Qed.
(** * New connections *)

Lemma next_good w : Good [] w ->
  Good [] (on_own (set_next_connection_id (next_connection_id_ (own w) + 1)) w).
Proof.
  intros [ (Hl & Hd & Hb) Hk]. set (w1 := on_own _ w).
  assert (Hall : forall i l', all w1 !! i = Some l' -> exists l, all w !! i = Some l /\ connections_ l' = connections_ l
            /\ id_ l' = id_ l /\ next_connection_id_ l <= next_connection_id_ l').
  { intros i l' Hi. destruct (decide (i = id_ (own w))) as [->|Hne].
    - change (id_ (own w)) with (id_ (own w1)) in Hi. rewrite own_lookup in Hi. injection Hi as <-.
      exists (own w). rewrite own_lookup. split_and!; try done. cbn. lia.
    - rewrite other_lookup in Hi by done. exists l'. rewrite other_lookup by done. split_and!; try done. }
  split.
  - split_and!; [|done|done]. intros i l' Hi. destruct (Hall i l' Hi) as (l & Hi0 & E1 & E2 & E3).
    destruct (Hl i l Hi0) as (L1 & L2 & L3 & L4 & L5). rewrite <- E1, <- E2 in *. split_and!; try done.
    + intros f c Hc. destruct (L3 f c Hc). split; [done|lia].
    + intros n Hn. apply L5. lia.
  - intros k. apply (KInv_frame _ _ [] [] (all w) (all w1) (srv w) (srv w1) k (Hk k)); try done; [apply heap_frame_refl|].
    intros l' f c Hi Hc _. destruct (Hall _ _ Hi) as (l & Hi0 & E1 & _). exists l. by rewrite <- E1.
Qed.

(** A new connection has seen nothing. *)
Lemma no_trace_tokens ex s k : tokens_ok ex s k no_trace -> no_tokens ex s k.
Proof.
  intros (_ & T2 & T3). assert (Hn : forall d, ~ waits_for no_trace d).
  { intros d (d0 & r & a & H & _). cbn in H. by destruct d0. }
  split.
  - destruct (inflight ex s k) as [|call rest]; [done|]. exfalso.
    destruct (T2 call (list_elem_of_here _ _)) as (d & _ & Hw & _). by apply (Hn d).
  - intros d cell Hd t Ht Hk. destruct (T3 d cell Hd) as (_ & _ & Hw); [intros Hu; by apply (Hu t)|]. by apply (Hn d).
Qed.

Lemma add_good w f c : Good [] w -> connection w f = None ->
  id c < next_connection_id_ (own w) -> trace_of (id_ (own w), id c) (log (srv w)) = no_trace ->
  (forall f' c', connection w f' = Some c' -> id c' <> id c) ->
  fd c = f -> state c = State.ReadingHead -> inbox c = [] -> requests_served c = 0 ->
  Good [] (put c (note c (Opened (peer_ip c)) w)).
Proof.
  intros Hg Hnone Hlt Htr Hfresh Hf Hs Hin Hsv. set (w1 := put c _).
  set (i := id_ (own w)) in *. set (n := id c) in *.
  assert (Htr1 : trace_of (i, n) (log (srv w1)) = mkTrace (peer_ip c) [] [] [] []).
  { change (trace_of (i, n) (log (srv (note c (Opened (peer_ip c)) w))) = mkTrace (peer_ip c) [] [] [] []).
    rewrite (trace_note i) by done. by rewrite Htr. }
  assert (Hsf : srv_frame [] [] (i, n) (srv w) (srv w1)) by by apply srv_frame_emit.
  destruct Hg as [ (Hl & Hd & Hb) Hk]. destruct Hsf as (F1 & F2 & F3 & F4 & F5 & _).
  assert (Hnt : no_tokens [] (srv w1) (i, n)).
  { destruct (Hk (i, n)) as (_ & Ht & _). rewrite Htr in Ht. apply no_trace_tokens in Ht. exact Ht. }
  assert (Hall : forall j l', all w1 !! j = Some l' -> j = i /\ l' = own w1 \/ j <> i /\ all w !! j = Some l').
  { intros j l' Hj. destruct (decide (j = i)) as [->|Hne].
    - change i with (id_ (own w1)) in Hj. rewrite own_lookup in Hj. injection Hj as <-. auto.
    - right. rewrite other_lookup in Hj by done. by rewrite other_lookup. }
  assert (Hconn : forall f' c', connections_ (own w1) !! f' = Some c' -> f' = f /\ c' = c \/ f' <> f /\ connection w f' = Some c').
  { intros f' c' Hc'. unfold w1, put, connection in *. cbn in Hc'. rewrite Hf in Hc'. destruct (decide (f' = f)) as [->|Hne].
    - rewrite lookup_insert, decide_True in Hc' by done. injection Hc' as <-. auto.
    - rewrite lookup_insert_ne in Hc' by done. auto. }
  split.
  - split_and!; [|done|by apply F5]. intros j l' Hj. destruct (Hall _ _ Hj) as [ [-> ->]|[Hne Hj0] ].
    + destruct (Hl _ _ (own_lookup w)) as (L1 & L2 & L3 & L4 & L5). split_and!; try done.
      * intros f' c' Hc'. destruct (Hconn _ _ Hc') as [ [-> ->]|[_ Hc0] ]; [done|by apply L3].
      * intros f1 f2 c1 c2 H1 H2 E. destruct (Hconn _ _ H1) as [ [-> ->]|[N1 K1] ], (Hconn _ _ H2) as [ [-> ->]|[N2 K2] ]; try done.
        -- exfalso. by apply (Hfresh f2 c2).
        -- exfalso. by apply (Hfresh f1 c1).
        -- by apply (L4 f1 f2 c1 c2).
      * intros m Hm. change (next_connection_id_ (own w1)) with (next_connection_id_ (own w)) in Hm.
        rewrite (proj1 (F2 (i, m) ltac:(intros [= ]; lia))). by apply L5.
    + destruct (Hl _ _ Hj0) as (L1 & L2 & L3 & L4 & L5). split_and!; try done. intros m Hm.
      rewrite (proj1 (F2 (j, m) ltac:(congruence))). by apply L5.
  - intros k. destruct (decide (k = (i, n))) as [->|Hne].
    + assert (Ha : alive_ok [] i (srv w1) c (mkTrace (peer_ip c) [] [] [] [])).
      { eapply alive_reading with (b := []); try done. constructor. }
      split; [rewrite Htr1; by eapply alive_trace|split; [by apply tokens_none|] ]. cbn [fst snd]. intros l f' c' Hj Hc' Hid.
      destruct (Hall _ _ Hj) as [ [_ ->]|[Hn _] ]; [|done]. destruct (Hconn _ _ Hc') as [ [-> ->]|[_ Hc0] ]; [|by destruct (Hfresh f' c')].
      rewrite Htr1. split; [done|]. intros _. unfold quiet. rewrite Hs, Hin, zlen_nil. split_and!; [done|lia|apply limit_nonneg].
    + destruct (F2 k Hne) as (T1 & T2 & T3). apply (KInv_frame _ _ [] [] (all w) (all w1) (srv w) (srv w1) k (Hk k)); try done.
      intros l' f' c' Hj Hc' Hid. destruct (Hall _ _ Hj) as [ [E ->]|[Hn Hj0] ]; [|by exists l'].
      exists (own w). rewrite E. split; [apply own_lookup|]. destruct (Hconn _ _ Hc') as [ [-> ->]|[_ Hc0] ]; [|done].
      destruct Hne. by rewrite (surjective_pairing k), E, <- Hid.
Qed.

Lemma add_connection_good w f ip : Good [] w -> Good [] (add_connection options f ip w).
Proof.
  intros Hg. unfold add_connection. cbv zeta.
  destruct (nonblocking_ok _ _); cbn [negb]; [|by apply count_good].
  set (n := next_connection_id_ (own w)). pose proof (next_good w Hg) as Hg1. set (w1 := on_own _ w) in *.
  destruct (poller_ok _ _); cbn [negb]; [|by apply count_good].
  destruct (connection w1 f) as [c0|] eqn:Hc; [done|].
  destruct Hg as [ (Hl & _) _]. destruct (Hl _ _ (own_lookup w)) as (_ & _ & L3 & _ & L5).
  set (c := mkConnection f n ip _ _ _ _ _ _ _ _ _ _ _ _ _ _ _ _ _).
  apply (add_good w1 f c); try done.
  - cbn. unfold n. lia.
  - apply L5. cbn. unfold n. lia.
  - intros f' c' Hc'. destruct (L3 f' c' Hc') as [_ H]. cbn. unfold n. lia.
Qed.
Lemma add_connection_own w f ip : id_ (own (add_connection options f ip w)) = id_ (own w).
Proof. unfold add_connection. cbv zeta. repeat (case_match; try done). Qed.

Lemma mailbox_inbound i f s j : (forall b, resolved (f b) = resolved b) ->
  mailbox (on_inbound i f s) j = mailbox s j.
Proof.
  intros H. unfold mailbox, on_inbound. cbn. destruct (decide (j = i)) as [->|Hne]; [|by rewrite lookup_alter_ne].
  rewrite lookup_alter_eq. destruct (inbounds s !! i); [|done]. cbn. by rewrite H.
Qed.
Lemma inbound_good i f w : (forall b, resolved (f b) = resolved b) -> Good [] w -> Good [] (on_srv (on_inbound i f) w).
Proof.
  intros H. apply count_good. intros s. split_and!; try done; [intros j; by apply mailbox_inbound|].
  intros j Hj. cbn. by apply lookup_alter_is_Some.
Qed.

Lemma wake_good i w : Good [] w -> Good [] (on_srv (wake i) w).
Proof. by apply (inbound_good i (fun b => set_wakeup_pipe (Z.min kPipe (wakeup_pipe b + 1)) b)). Qed.
Lemma count_connection_good w : Good [] w -> Good [] (count_connection w).1.
Proof. by apply count_good. Qed.
Lemma refuse_good w : Good [] w -> Good [] (refuse_connection w).
Proof. by apply count_good. Qed.
Lemma place_good fd ip w : Good [] w -> Good [] (place_connection options fd ip w).1.
Proof.
  intros Hg. unfold place_connection. cbv zeta.
  set (w1 := on_srv _ w). assert (Hg1 : Good [] w1) by by apply count_good.
  destruct (shard_accepts_ (srv w1)); [by apply add_connection_good|].
  set (w2 := on_srv _ w1). assert (Hg2 : Good [] w2) by by apply count_good.
  destruct (_ =? _)%nat; [by apply add_connection_good|by apply inbound_good].
Qed.
Lemma accept_one_good w f ip : Good [] w -> Good [] (accept_one options w f ip).
Proof.
  intros Hg%count_connection_good. unfold accept_one. destruct (count_connection w) as [w1 open]. cbn [fst] in Hg.
  destruct (over_limit options open); [by apply refuse_good|].
  pose proof (place_good f ip w1 Hg) as H. destruct (place_connection options f ip w1) as [w2 [target|] ]; [by apply wake_good|done].
Qed.
Lemma accept_ready_good results : forall w, Good [] w -> Good [] (accept_ready options results w).
Proof.
  unfold accept_ready. induction results as [|r results IH]; intros w Hg; [done|]. apply IH. destruct r; [by apply accept_one_good|done].
Qed.

Lemma adopt_good w h : Good [] w -> Good [] (adopt options w h).
Proof.
  intros Hg. unfold adopt. destruct (stopping_ _); [by apply count_good|by apply add_connection_good].
Qed.
Lemma read_wakeup_good w : Good [] w -> Good [] (read_wakeup w).
Proof. by apply inbound_good. Qed.
Lemma drain_handoff_good w : Good [] w -> Good [] (drain_handoff options w).
Proof.
  intros Hg. unfold drain_handoff. cbv zeta.
  set (w1 := on_srv _ w). assert (Hg1 : Good [] w1) by by apply inbound_good.
  clearbody w1. generalize (handoff_ (own_inbound w)). intros l. revert w1 Hg1.
  induction l as [|h l IH]; intros w1 Hg1; [done|]. by apply IH, adopt_good.
Qed.
Lemma drain_wakeup_good w : Good [] w -> Good [] (drain_wakeup options w).
Proof. intros Hg. by apply drain_handoff_good, drain_resolved_good, read_wakeup_good. Qed.
Lemma resume_good t w : Good [] w -> Good [] (resume options t w).1.
Proof.
  intros Hg. destruct t as [| | |fd ip open|target]; cbn [resume fst];
    [done|by apply drain_resolved_good|by apply drain_handoff_good| |by apply wake_good].
  destruct (over_limit options open); [by apply refuse_good|].
  pose proof (place_good fd ip w Hg) as H. by destruct (place_connection options fd ip w).
Qed.

(** * The loop *)

Lemma process_event_good w e : Good [] w -> Good [] (process_event options is_ip_literal w e).
Proof.
  intros Hg. destruct e as [|results|f r wr h reads]; cbn [process_event]; [by apply drain_wakeup_good|by apply accept_ready_good|].
  destruct (connection w f) as [c|] eqn:Hc; [|done]. destruct (_ && _); [by apply close_good|]. cbv zeta.
  set (w1 := if wr then _ else _). assert (Hg1 : Good [] w1) by (unfold w1; destruct wr; [by eapply on_writable_good|done]).
  destruct (connection w1 f) as [c1|] eqn:Hc1; [|done]. destruct r; [by eapply on_readable_good|done].
Qed.

Lemma close_all_good w : Good [] w -> Good [] (close_all w).
Proof.
  unfold close_all. generalize (map_to_list (connections_ (own w))).*1. intros l. revert w.
  induction l as [|f l IH]; intros w Hg; [done|]. by apply IH, close_good.
Qed.
Lemma finish_good w : Good [] w -> Good [] (finish options w).
Proof. intros Hg. by apply close_all_good, drain_wakeup_good. Qed.
End Loops.

(** * Executions *)

(** A loop that [turns] does not name is between two events. *)
Record System := mkSystem { loops : gmap nat EventLoop; shared : Server; turns : gmap nat Turn }.
Definition make_system (handler shard : bool) (n : nat) (now : Z) : System :=
  mkSystem (list_to_map (map (fun i => (i, make_loop i now)) (seq 0 n))) (make_server handler shard n) ∅.
Definition turn_of (s : System) (i : nat) : Turn := default Idle (turns s !! i).

(** A loop keeps its number. *)
Definition put_back (w : W) (s : System) : System := mkSystem (<[id_ (own w) := own w]> (loops s)) (srv w) (turns s).
Definition put_turn (r : W * Turn) (s : System) : System :=
  mkSystem (<[id_ (own r.1) := own r.1]> (loops s)) (srv r.1) (<[id_ (own r.1) := r.2]> (turns s)).

Section Executions.
Context (options : AsyncHttpServerOptions) (is_ip_literal : text -> bool).

(** A loop that is idle handles an event, sweeps or finishes, whatever the system and the
    handler answer meanwhile; or it begins to drain its pipe, or to accept, and goes on one
    operation at a time while others take their turns; or another thread takes its next
    step. *)
Inductive step (s : System) : System -> Prop :=
  | Process i l o e : loops s !! i = Some l -> turn_of s i = Idle ->
      step s (put_back (process_event options is_ip_literal (mkW l (shared s) o) e) s)
  | Sweep i l o : loops s !! i = Some l -> turn_of s i = Idle ->
      step s (put_back (sweep_timeouts options (mkW l (shared s) o)) s)
  | Finish i l o : loops s !! i = Some l -> turn_of s i = Idle ->
      step s (put_back (finish options (mkW l (shared s) o)) s)
  | CloseAll i l o : loops s !! i = Some l -> turn_of s i = Idle ->
      step s (put_back (close_all (mkW l (shared s) o)) s)
  | BeginDrain i l o : loops s !! i = Some l -> turn_of s i = Idle ->
      step s (put_turn (begin_drain (mkW l (shared s) o)) s)
  | BeginAccept i l o fd ip : loops s !! i = Some l -> turn_of s i = Idle ->
      step s (put_turn (begin_accept fd ip (mkW l (shared s) o)) s)
  | Resume i l o : loops s !! i = Some l ->
      step s (put_turn (resume options (turn_of s i) (mkW l (shared s) o)) s)
  | ResolveDeferred d r : step s (mkSystem (loops s) (resolve_deferred d r (shared s)) (turns s))
  | PostNext n : step s (mkSystem (loops s) (post_next n (shared s)) (turns s))
  | WakeNext n : step s (mkSystem (loops s) (wake_next n (shared s)) (turns s))
  | RequestStop i : step s (mkSystem (loops s) (request_stop i (shared s)) (turns s))
  | CloseMailbox i : step s (mkSystem (loops s) (close_mailbox i (shared s)) (turns s)).

Inductive reachable (s0 : System) : System -> Prop :=
  | Start : reachable s0 s0
  | Next s s' : reachable s0 s -> step s s' -> reachable s0 s'.

Notation Inv := (Inv options is_ip_literal).
Notation KInv := (KInv options is_ip_literal).

Lemma inv_except ex ls s s' k : Inv ex ls s -> srv_frame ex ex k s s' ->
  trace_of k (log s') = trace_of k (log s) -> KInv ex ls s' k -> Inv ex ls s'.
Proof.
  intros [ (Hl & Hd & Hb) Hk] (F1 & F2 & F3 & F4 & F5 & _) Ht Hnew.
  assert (Htr : forall k', trace_of k' (log s') = trace_of k' (log s)).
  { intros k'. destruct (decide (k' = k)) as [->|Hne]; [done|by apply F2]. }
  split.
  - split_and!; [|congruence|by apply F5]. intros i l Hi. destruct (Hl i l Hi) as (L1 & L2 & L3 & L4 & L5).
    split_and!; try done; [by apply F3|]. intros n Hn. rewrite Htr. by apply L5.
  - intros k'. destruct (decide (k' = k)) as [->|Hne]; [done|]. destruct (F2 k' Hne) as (T1 & T2 & T3).
    apply (KInv_frame _ _ ex ex ls ls s s' k' (Hk k')); eauto.
Qed.

(** A deferral that is resolved while its connection waits: the response is on its way. *)
Lemma resolve_attached ls s d cell t r : Inv [] ls s -> deferreds s !! d = Some cell ->
  completion_ cell = Some t -> delivered_ cell = false ->
  Inv [] ls (set_posting (posting s ++ [(t, r)])
    (emit (Resolved d r) (set_deferred_cell d
       (mkDeferredResponse (timeout_response cell) (timeout cell) None (response_ cell) true true) s))).
Proof.
  intros Hi Hd Hc Hdel. set (k := key_of t). set (cell' := mkDeferredResponse _ _ _ _ _ _). set (s' := set_posting _ _).
  assert (Hun : forall k', k' <> k -> untouched k' cell).
  { intros k' Hk t0 Ht0. rewrite Hc in Ht0. injection Ht0 as <-. intros E. by apply Hk. }
  assert (Htr : forall k', trace_of k' (log s') = trace_of k' (log s)).
  { intros k'. change (log s') with (log s ++ [Resolved d r]). by rewrite trace_of_app. }
  assert (Hin : forall k', inflight [] s' k' ≡ₚ (if decide (k' = k) then [(t, r)] else []) ++ inflight [] s k').
  { intros k'. unfold inflight. cbn [app]. change (posting s') with (posting s ++ [(t, r)]). change (mailbox s' k'.1) with (mailbox s k'.1).
    rewrite !list.filter_app. rewrite (Permutation_app_comm (filter _ (posting s))), <- app_assoc. apply Permutation_app; [|done].
    destruct (decide (k' = k)) as [->|Hne]; [by rewrite filter_cons_True|]. rewrite filter_cons_False; [done|]. cbn. intros E. by apply Hne. }
  assert (Hres : forall d0 r0, Resolved d0 r0 ∈ log s -> Resolved d0 r0 ∈ log s') by (intros; cbn; rewrite elem_of_app; by left).
  assert (Hcells : forall d0 x, deferreds s' !! d0 = Some x -> d0 = d /\ x = cell' \/ d0 <> d /\ deferreds s !! d0 = Some x).
  { intros d0 x. cbn. destruct (decide (d0 = d)) as [->|Hne]; [rewrite lookup_insert, decide_True by done; intros [= <-]; auto|].
    rewrite lookup_insert_ne by done. auto. }
  assert (Hd' : deferreds s' !! d = Some cell') by (cbn; by rewrite lookup_insert, decide_True).
  assert (Hlat : later s s').
  { split; [done|]. intros d0 x Hx. destruct (decide (d0 = d)) as [->|Hne].
    - rewrite Hd in Hx. injection Hx as <-. eauto.
    - exists x. cbn. by rewrite lookup_insert_ne. }
  pose proof Hi as [Hshape Hk].
  apply (inv_except [] ls s s' k Hi); [|done|].
  - split_and!; auto.
    + intros k' Hne. split_and!; [done|by apply (heap_frame_cell k' s d cell cell'); auto; intros ?|].
      unfold inflight. cbn [app]. change (posting s') with (posting s ++ [(t, r)]). change (mailbox s' k'.1) with (mailbox s k'.1).
      rewrite <- app_assoc, !list.filter_app, filter_cons_False, filter_nil; [done|]. cbn. intros E. by apply Hne.
    + by apply (cell_bounded s d cell).
    + by apply prefix_app_r.
  - destruct (Hk k) as (H1 & (T1 & T2 & T3) & H3). unfold AsyncHttpSafe.KInv. rewrite Htr.
    destruct (T3 d cell Hd) as (_ & _ & Hw); [intros Hu; by apply (Hu t)|].
    assert (Hnil : inflight [] s k = []).
    { destruct (inflight [] s k) as [|call rest] eqn:E; [done|]. exfalso.
      destruct (T2 call (list_elem_of_here _ _)) as (d2 & x & Hw2 & Hx & Hdx & _).
      rewrite (waits_for_inj _ _ _ Hw2 Hw) in Hx. congruence. }
    specialize (Hin k). rewrite decide_True, Hnil, app_nil_r in Hin by done. apply Permutation_singleton_r in Hin.
    split; [by eapply trace_ok_later|split].
    + split_and!.
      * rewrite Hin. cbn. lia.
      * intros call. rewrite Hin. intros ->%list_elem_of_singleton. exists d, cell'. split_and!; try done.
        cbn. rewrite elem_of_app. right. by apply list_elem_of_singleton.
      * intros d0 x Hx Hu. destruct (Hcells d0 x Hx) as [ [-> ->]|[Hne Hx0] ]; [by destruct Hu|].
        destruct (T3 d0 x Hx0 Hu) as (_ & _ & Hw2). by destruct Hne; apply (waits_for_inj (trace_of k (log s))).
    + intros l f c Hl Hf Hn. destruct (H3 l f c Hl Hf Hn) as [ (A1 & A2 & A3 & A4 & A5 & A6) Hq]. split; [|done].
      assert (Hs : state c = State.Deferred).
      { destruct (decide (state c = State.Deferred)) as [E|E]; [done|]. destruct (A6 E) as [_ B2]. exfalso.
        apply (B2 d cell Hd t Hc). rewrite Hn. fold k. apply surjective_pairing. }
      unfold AsyncHttpSafe.alive_ok. rewrite Hs in *. split_and!; try done. unfold answers_ok in *. rewrite Hs in *.
      destruct A5 as (d0 & q & a & d1 & x & B1 & B2 & B3 & B4 & B5 & B6 & B7).
      assert (d1 = d) as -> by (apply (waits_for_inj (trace_of k (log s))); [by exists d0, q, a|done]).
      exists d0, q, a, d, cell'. split_and!; auto; [by eapply answered_later|done].
Qed.
Lemma resolve_inv ls s d r : Inv [] ls s -> Inv [] ls (resolve_deferred d r s).
Proof.
  intros Hi. unfold resolve_deferred. destruct (deferreds s !! d) as [cell|] eqn:Hd; [|done].
  destruct (resolved_ cell || delivered_ cell) eqn:Er; [done|]. pose proof Er as Er'. apply orb_false_iff in Er' as [_ Edel].
  unfold resolve. rewrite Er. destruct (completion_ cell) as [t|] eqn:Ec; [exact (resolve_attached ls s d cell t r Hi Hd Ec Edel)|].
  apply (inv_srv _ _ [] []) with (s := s); [|done]. intros k.
  eapply (srv_frame_trans [] [] []); [|by apply srv_frame_emit].
  split_and!; auto; [|by apply (cell_bounded s d cell)]. intros k' _. split_and!; [done| |done].
  apply (heap_frame_cell k' s d cell); try done. intros t Ht. congruence.
Qed.

Lemma post_inv ls s n : Inv [] ls s -> Inv [] ls (post_next n s).
Proof.
  intros Hi. unfold post_next. destruct (posting s !! n) as [call|] eqn:Hn; [|done].
  set (s1 := set_posting (delete n (posting s)) s). destruct (post call s1) as [s2 wakes] eqn:Ep.
  pose proof (fun k => inflight_post [] s1 s2 call wakes k Ep) as Hin. apply post_spec in Ep as (P1 & P2 & P3 & P4 & P5 & P6 & _).
  assert (Hperm : forall k, inflight [call] s1 k ≡ₚ inflight [] s k).
  { intros k. unfold inflight. cbn [app]. change (posting s1) with (delete n (posting s)). change (mailbox s1 k.1) with (mailbox s k.1).
    apply filter_Permutation. by rewrite app_comm_cons, <- delete_Permutation by done. }
  assert (H1 : Inv [call] ls s1) by (revert Hi; by apply inv_perm).
  (* either the entry is in the mailbox, or it is gone *)
  assert (H2 : Inv [] ls s2).
  { destruct (Hin (key_of call.1)) as [E|[_ E] ].
    - assert (H0 : Inv [] ls s1) by (revert H1; apply inv_drop; intros k; apply inflight_tail).
      revert H0. apply inv_perm; try done. intros k. destruct (Hin k) as [E2|[<- _] ]; [by rewrite E2|by rewrite E].
    - revert H1. apply inv_perm; try done. intros k. unfold inflight at 2. cbn [app].
      destruct (decide (key_of call.1 = k)) as [<-|Hne].
      + rewrite filter_cons_True, E by done. symmetry. apply Permutation_cons_append.
      + rewrite filter_cons_False by done. destruct (Hin k) as [E2|[Hk _] ]; [by rewrite E2|done]. }
  revert H2. by apply inv_perm.
Qed.

Lemma wake_inv ls s n : Inv [] ls s -> Inv [] ls (wake_next n s).
Proof.
  intros Hi. unfold wake_next. destruct (waking s !! n) as [i|]; [|done].
  apply (inv_srv _ _ [] []) with (s := set_waking (delete n (waking s)) s); [intros k; apply wake_core|]. revert Hi. by apply inv_perm.
Qed.
Lemma inbound_inv ls s i f : (forall b, resolved (f b) = resolved b) -> Inv [] ls s -> Inv [] ls (on_inbound i f s).
Proof.
  intros Hf. apply inv_srv. intros k. apply srv_frame_core; try done; [intros j; by apply mailbox_inbound|].
  intros j Hj. cbn. by apply lookup_alter_is_Some.
Qed.

Definition System_ok (s : System) : Prop := Inv [] (loops s) (shared s).

Lemma put_back_ok s i l o (g : W -> W) : (forall others w, Good options is_ip_literal others [] w -> Good options is_ip_literal others [] (g w)) ->
  System_ok s -> loops s !! i = Some l -> System_ok (put_back (g (mkW l (shared s) o)) s).
Proof.
  intros Hg Hs Hl. apply (Hg (loops s) (mkW l (shared s) o)). unfold Good, all. cbn [own srv].
  assert (Hid : id_ l = i) by (destruct Hs as [ (H & _) _]; by destruct (H i l Hl)).
  by rewrite Hid, insert_id.
Qed.

Lemma put_turn_ok s i l o (g : W -> W * Turn) : (forall others w, Good options is_ip_literal others [] w -> Good options is_ip_literal others [] (g w).1) ->
  System_ok s -> loops s !! i = Some l -> System_ok (put_turn (g (mkW l (shared s) o)) s).
Proof. exact (put_back_ok s i l o (fun w => (g w).1)). Qed.

Lemma step_ok s s' : System_ok s -> step s s' -> System_ok s'.
Proof.
  intros Hs Hst. destruct Hst.
  - apply (put_back_ok s i l o (fun w => process_event options is_ip_literal w e)); auto. intros. by apply process_event_good.
  - apply (put_back_ok s i l o (sweep_timeouts options)); auto. intros. by apply sweep_timeouts_good.
  - apply (put_back_ok s i l o (finish options)); auto. intros. by apply finish_good.
  - apply (put_back_ok s i l o close_all); auto. intros. by apply close_all_good.
  - apply (put_turn_ok s i l o begin_drain); [intros; by apply read_wakeup_good|done|done].
  - apply (put_turn_ok s i l o (begin_accept fd ip)); [intros; by apply (count_connection_good options is_ip_literal)|done|done].
  - apply (put_turn_ok s i l o (resume options (turn_of s i))); [intros; by apply resume_good|done|done].
  - by apply resolve_inv.
  - by apply post_inv.
  - by apply wake_inv.
  - unfold System_ok. cbn. apply (inv_srv _ _ [] []) with (s := on_inbound i (set_stopping true) (shared s)); [intros k; apply wake_core|].
    by apply inbound_inv.
  - by apply inbound_inv.
Qed.

Lemma numbered_lookup {A} (g : nat -> A) n i x :
  (list_to_map (map (fun i => (i, g i)) (seq 0 n)) : gmap nat A) !! i = Some x <-> (i < n)%nat /\ x = g i.
Proof.
  assert (Hfst : (map (fun i => (i, g i)) (seq 0 n)).*1 = seq 0 n).
  { rewrite <- (map_id (seq 0 n)) at 2. rewrite map_map. done. }
  rewrite <- elem_of_list_to_map by (rewrite Hfst; apply NoDup_seq).
  rewrite list_elem_of_In, in_map_iff. split.
  - intros (j & [= <- <-] & Hj). apply in_seq in Hj. split; [lia|done].
  - intros [Hi ->]. exists i. split; [done|]. apply in_seq. lia.
Qed.

Lemma make_system_ok handler shard n now : System_ok (make_system handler shard n now).
Proof.
  assert (Hm : forall j, mailbox (make_server handler shard n) j = []).
  { intros j. unfold mailbox, make_server. cbn [inbounds]. destruct (_ !! j) as [b|] eqn:E; [|done].
    apply (numbered_lookup (fun _ => make_inbound)) in E as [_ ->]. done. }
  split.
  - split_and!; [|done|done]. intros i l Hi. apply (numbered_lookup (fun i => make_loop i now)) in Hi as [Hi ->].
    split_and!; try done. eexists. by apply (numbered_lookup (fun _ => make_inbound)).
  - intros k. split; [|split].
    + change (trace_ok options is_ip_literal (make_server handler shard n) no_trace).
      exists [], [], [], [], []. split_and!; auto; [apply Frames_nil|split; [apply Forall2_nil_2|done] ].
    + apply tokens_none. split; [|done]. unfold inflight. cbn. by rewrite Hm.
    + intros l f c Hl Hf. apply (numbered_lookup (fun i => make_loop i now)) in Hl as [_ ->]. done.
Qed.

Lemma reachable_ok handler shard n now s : reachable (make_system handler shard n now) s -> System_ok s.
Proof. induction 1; [apply make_system_ok|by eapply step_ok]. Qed.
End Executions.
