(* ===== verification/AsyncHttpContract.v ===== *)
(** What the HTTP server promises its clients, over every execution: each connection's
    requests are the frames of the bytes it has sent, they are answered in order, one
    response each, and nothing that could be answered is left lying. *)

From S2P Require Import Prelude Text HttpMessage AsyncHttp AsyncHttpSafe AsyncHttpRuns AsyncHttpServer.
From Stdlib Require Import Ascii.

(** What the connection [k] has seen in a state of the server. *)
Definition seen (s : System) (k : nat * Z) : Trace := trace_of k (log (shared s)).

(** The connection [c] is open, on the loop [i]. *)
Definition open_on (s : System) (i : nat) (c : Connection) : Prop :=
  exists l, loops s !! i = Some l /\ connections_ l !! fd c = Some c.

(** [rs] are the requests in the bytes [b], all of them; [rest] is not one yet. *)
Definition requests_in options is_ip_literal (ip b : text) (rs : list HttpRequest) (rest : text) : Prop :=
  Frames options is_ip_literal ip b rs rest /\ frame options is_ip_literal ip rest = None.

Section Contract.
Context (options : AsyncHttpServerOptions) (is_ip_literal : text -> bool).
Context (handler shard : bool) (n : nat) (start : Z).

Notation reached s := (reachable options is_ip_literal (make_system handler shard n start) s).

Lemma open_facts s i c : reached s -> open_on s i c ->
  alive_ok options is_ip_literal [] i (shared s) c (seen s (i, id c))
  /\ (undeferred_trace (seen s (i, id c)) -> quiet options c).
Proof.
  intros Hr (l & Hl & Hc). destruct (reachable_ok _ _ _ _ _ _ _ Hr) as [_ Hk].
  destruct (Hk (i, id c)) as (_ & _ & H). exact (H l (fd c) c Hl Hc eq_refl).
Qed.

(** C11. Over every execution, for every connection that was ever open: the requests given
    to the handler are the frames of the bytes received, in order; the responses begun
    answer them, one each, in that order (what the handler answered; or what its deferral
    was resolved with, or its answer for a timeout), but for a last request that still
    waits, or a last refusal; and the bytes the socket has taken are a prefix of those
    responses, all of them when an open connection is not writing. *)
Theorem responses_in_order s i c :
  reached s ->
  (forall k, trace_ok options is_ip_literal (shared s) (seen s k))
  /\ (open_on s i c -> state c <> State.Writing ->
      wrote (seen s (i, id c)) = wires (began (seen s (i, id c)))
      /\ length (dispatched (seen s (i, id c)))
         = (length (began (seen s (i, id c))) + (if decide (state c = State.Deferred) then 1 else 0))%nat).
Proof.
  intros Hr. split; [intros k; by destruct (reachable_ok _ _ _ _ _ _ _ Hr) as [_ Hk]; destruct (Hk k)|].
  intros Ho Hs. destruct (open_facts s i c Hr Ho) as [ (_ & _ & _ & Hw & Ha & _) _].
  split; [by destruct (state c)|]. unfold answers_ok in Ha. destruct (state c); try done.
  - destruct Ha as [Ha _]. apply Forall2_length in Ha. rewrite decide_False by done. lia.
  - destruct Ha as [Ha _]. apply Forall2_length in Ha. rewrite decide_False by done. lia.
  - destruct Ha as (d0 & r & a & d & cell & -> & [Ha _] & _). apply Forall2_length in Ha. rewrite length_app, decide_True by done. cbn. lia.
Qed.

(** C12. However the bytes of a connection are cut into reads and its responses into writes,
    and however many requests one read brings: an open connection that waits for input, and
    none of whose answers was deferred, has answered every complete request it has received,
    and all of those responses are written. *)
Theorem idle_means_answered s i c rs rest :
  reached s -> open_on s i c -> state c = State.ReadingHead \/ state c = State.ReadingBody ->
  undeferred_trace (seen s (i, id c)) ->
  requests_in options is_ip_literal (peer_ip c) (received (seen s (i, id c))) rs rest ->
  rs = (dispatched (seen s (i, id c))).*1
  /\ answered options (shared s) (dispatched (seen s (i, id c))) (began (seen s (i, id c)))
  /\ wrote (seen s (i, id c)) = wires (began (seen s (i, id c))).
Proof.
  intros Hr Ho Hs Hu [Hf Hn]. destruct (open_facts s i c Hr Ho) as [ (Hp & _ & (b & Hb & Hst) & Hw & Ha & _) Hq].
  specialize (Hq Hu). rewrite Hp in *. unfold answers_ok in Ha.
  assert (Hb0 : frame options is_ip_literal (peer_ip c) b = None).
  { destruct Hq as [Hq _]. unfold frame. destruct Hs as [Hs|Hs]; rewrite Hs in *.
    - subst b. unfold head_of. by rewrite (proj1 Hq).
    - rewrite Hst. destruct (Z.ltb_spec (zlen (inbox c)) (expected_body c)); [done|lia]. }
  split; [by apply (Frames_det _ _ _ _ _ _ Hf _ _ Hb)|].
  destruct Hs as [Hs|Hs]; rewrite Hs in *; done.
Qed.

(** What an open connection has unread in memory is bounded by the limits on heads and
    bodies and one read more, as long as none of its answers was deferred. *)
Theorem inbox_bounded s i c :
  reached s -> open_on s i c -> undeferred_trace (seen s (i, id c)) ->
  zlen (inbox c) <= Z.max 0 (Z.max (max_header_bytes options) (max_body_bytes options)) + 16 * 1024.
Proof. intros Hr Ho Hu. destruct (open_facts s i c Hr Ho) as [_ Hq]. apply (Hq Hu). Qed.
End Contract.

(** * A server at work *)

(** One loop that accepts by itself, and what the system and the handler answer to it. *)
Definition no_literal (_ : text) : bool := false.
Definition world (ss : list SendResult) (answers : list Answer) : Outside :=
  mkOutside 0 ss answers (fun _ => true) (fun _ => true).
Notation Reached := (reachable default_options no_literal (make_system true true 1 0)).

Definition play (s : System) (oe : Outside * ReadyEvent) : System :=
  match loops s !! 0%nat, turn_of s 0 with
  | Some l, Idle => put_back (process_event default_options no_literal (mkW l (shared s) oe.1) oe.2) s
  | _, _ => s
  end.
Definition played (oes : list (Outside * ReadyEvent)) : System := foldl play (make_system true true 1 0) oes.

Lemma play_reachable oes : forall s, Reached s -> Reached (foldl play s oes).
Proof.
  induction oes as [|oe oes IH]; intros s Hs; [done|]. cbn [foldl]. apply IH. unfold play.
  destruct (loops s !! 0%nat) as [l|] eqn:Hl; [|done]. destruct (turn_of s 0) eqn:Ht; try done.
  eapply Next; [exact Hs|]. by apply (Process _ _ s 0).
Qed.
Lemma played_reached oes : Reached (played oes).
Proof. apply play_reachable, Start. Qed.

Definition get (what : string) : text := str "GET " ++ str what ++ str " HTTP/1.1" ++ blank_line.
Definition post_of (what : string) (b : string) : text :=
  str "POST " ++ str what ++ str " HTTP/1.1" ++ crlf ++ str "Content-Length: " ++ dec (zlen (str b)) ++ blank_line ++ str b.
Definition page (b : string) : HttpResponse :=
  mkHttpResponse 200 (str "text/plain") (str b) [] 0 0 ∅ None.
Definition client : text := str "192.0.2.7".
Definition sees (what b : string) : HttpRequest :=
  mkHttpRequest (str "GET") (str what) [] (str "HTTP/1.1") ∅ (str b) client.
Definition opening : Outside * ReadyEvent := (world [] [], ListenReady [Accepted 5 client]).
Definition connection_of (s : System) : option Connection :=
  match loops s !! 0%nat with Some l => connections_ l !! 5 | None => None end.

Lemma open_connection s c : connection_of s = Some c -> fd c = 5 -> open_on s 0 c.
Proof. unfold connection_of, open_on. intros H ->. destruct (loops s !! 0%nat) as [l|]; [eauto|done]. Qed.

(** Three requests, the second with a body, in two reads that cut a head in the middle; the
    socket takes a few bytes at a time. *)
Definition three : text := get "/a" ++ post_of "/b" "xyz" ++ get "/c".
Definition busy : list (Outside * ReadyEvent) :=
  [opening;
   (world [Sent 7; SendAgain] [Now (page "one"); Now (page "two"); Now (page "three")],
    Ready 5 true false false [Received (take 30 three); Received (drop 30 three); RecvAgain]);
   (world [SendInterrupted; Sent 500; Sent 500] [Now (page "two"); Now (page "three")], Ready 5 false true false []);
   (world [Sent 500; Sent 500] [Now (page "two"); Now (page "three")], Ready 5 true false false [Received (drop 30 three); RecvAgain])].

Lemma responses_in_order_witness :
  exists c, open_on (played busy) 0 c /\ state c = State.ReadingHead
  /\ length (dispatched (seen (played busy) (0%nat, 1))) = 3%nat
  /\ wrote (seen (played busy) (0%nat, 1)) = wires (began (seen (played busy) (0%nat, 1))).
Proof.
  destruct (connection_of (played busy)) as [c|] eqn:Hc; [|by vm_compute in Hc].
  assert (H : (fd c, id c, state c) = (5, 1, State.ReadingHead)).
  { change (from_option (fun c => (fd c, id c, state c)) (0, 0, State.Writing) (Some c) = (5, 1, State.ReadingHead)).
    rewrite <- Hc. vm_compute. reflexivity. }
  injection H as Hf Hi Hs. assert (Ho : open_on (played busy) 0 c) by by apply open_connection.
  destruct (responses_in_order default_options no_literal true true 1 0 (played busy) 0 c (played_reached busy)) as [_ H].
  destruct H as [Hw _]; [done|by rewrite Hs|]. rewrite Hi in Hw.
  exists c. split_and!; [done|done|vm_compute; reflexivity|done].
Defined.

Lemma idle_means_answered_witness :
  exists c ra rb rc,
    open_on (played busy) 0 c
    /\ received (seen (played busy) (0%nat, 1)) = three
    /\ [ra; rb; rc] = (dispatched (seen (played busy) (0%nat, 1))).*1
    /\ map request_body [ra; rb; rc] = [[]; str "xyz"; []] /\ map path [ra; rb; rc] = [str "/a"; str "/b"; str "/c"]
    /\ wrote (seen (played busy) (0%nat, 1)) = wires (began (seen (played busy) (0%nat, 1))).
Proof.
  destruct (connection_of (played busy)) as [c|] eqn:Hc; [|by vm_compute in Hc].
  assert (H : (fd c, id c, state c, peer_ip c) = (5, 1, State.ReadingHead, client)).
  { change (from_option (fun c => (fd c, id c, state c, peer_ip c)) (0, 0, State.Writing, []) (Some c) = (5, 1, State.ReadingHead, client)).
    rewrite <- Hc. vm_compute. reflexivity. }
  injection H as Hf Hi Hs Hp. assert (Ho : open_on (played busy) 0 c) by by apply open_connection.
  destruct (frame default_options no_literal client three) as [ [ra b1]|] eqn:Ea; [|by vm_compute in Ea].
  pose proof (f_equal (from_option snd []) Ea) as E1. vm_compute in E1. subst b1.
  match type of Ea with _ = Some (_, ?b) => destruct (frame default_options no_literal client b) as [ [rb b2]|] eqn:Eb; [|by vm_compute in Eb] end.
  pose proof (f_equal (from_option snd []) Eb) as E2. vm_compute in E2. subst b2.
  match type of Eb with _ = Some (_, ?b) => destruct (frame default_options no_literal client b) as [ [rc b3]|] eqn:Ec; [|by vm_compute in Ec] end.
  pose proof (f_equal (from_option snd []) Ec) as E3. vm_compute in E3. subst b3.
  assert (Hrec : received (seen (played busy) (0%nat, 1)) = three) by (vm_compute; reflexivity).
  destruct (idle_means_answered default_options no_literal true true 1 0 (played busy) 0 c [ra; rb; rc] []) as (Hr & _ & Hw);
    [apply played_reached|done|by left| | |].
  - rewrite Hi. apply (bool_decide_eq_true_1 _). vm_compute. reflexivity.
  - rewrite Hi, Hp, Hrec. split; [|done]. by repeat (econstructor; [eassumption|]); constructor.
  - rewrite Hi in Hr, Hw. exists c, ra, rb, rc. split; [exact Ho|]. split; [exact Hrec|]. split; [exact Hr|].
    split; [|split; [|exact Hw] ]; vm_compute in Ea, Eb, Ec; injection Ea as <-; injection Eb as <-; injection Ec as <-; reflexivity.
Defined.

(** Half a head has been read, behind a request that was answered. *)
Lemma inbox_bounded_witness :
  let s := played [opening; (world [Sent 500; Sent 500] [Now (page "one")], Ready 5 true false false [Received (take 30 three); RecvAgain])] in
  exists c, open_on s 0 c /\ zlen (inbox c) = 11 /\ 11 <= 128 * 1024 + 16 * 1024.
Proof.
  intros s. destruct (connection_of s) as [c|] eqn:Hc; [|by vm_compute in Hc].
  assert (H : (fd c, id c, zlen (inbox c)) = (5, 1, 11)).
  { change (from_option (fun c => (fd c, id c, zlen (inbox c))) (0, 0, 0) (Some c) = (5, 1, 11)).
    rewrite <- Hc. vm_compute. reflexivity. }
  injection H as Hf Hi Hz. assert (Ho : open_on s 0 c) by by apply open_connection.
  exists c. split; [exact Ho|]. split; [exact Hz|]. rewrite <- Hz.
  apply (inbox_bounded default_options no_literal true true 1 0 s 0 c); [apply played_reached|exact Ho|].
  rewrite Hi. apply (bool_decide_eq_true_1 _). vm_compute. reflexivity.
Defined.
