(* ===== verification/AsyncHttpCounts.v ===== *)
(** The counters and the wake-ups of the HTTP server: how many connections are open, on all
    loops and on their way between them, and that what other threads leave for a loop wakes
    it.  At the end: what becomes of a request behind a deferred one, of a client that sends
    while its request is parked, and of a chunked body. *)

From S2P Require Import Prelude Text HttpMessage AsyncHttp AsyncHttpSafe AsyncHttpRuns AsyncHttpServer AsyncHttpContract.
From Stdlib Require Import Ascii.

(** * What an operation on connections leaves alone *)

Definition sound (l : EventLoop) : Prop := forall f c, connections_ l !! f = Some c -> fd c = f.
Definition open_count (l : EventLoop) : Z := Z.of_nat (size (connections_ l)).
Definition hands (s : Server) : gmap nat (list (Z * text)) := handoff_ <$> inbounds s.

Section Promises.
(** Loops whose mailbox, and loops whose hand-off queue, will be looked at without another
    byte in their pipe. *)
Context (mail_due handoff_due : nat -> bool).

(** What is left for the loop [i] has been announced: it is due to be looked at, or there is
    a byte in the pipe, or a thread is about to write one. *)
Definition owed (i : nat) (b : Inbound) : Prop :=
  resolved b <> [] /\ mail_due i = false \/ handoff_ b <> [] /\ handoff_due i = false.
Definition announced (s : Server) (i : nat) : Prop :=
  forall b, inbounds s !! i = Some b ->
    0 <= wakeup_pipe b /\ (owed i b -> 0 < wakeup_pipe b \/ i ∈ waking s).

Definition plain (w w' : W) : Prop :=
  sound (own w) ->
  sound (own w') /\ id_ (own w') = id_ (own w)
  /\ active_connections_ (srv w') - open_count (own w') = active_connections_ (srv w) - open_count (own w)
  /\ active_connections_ (srv w') <= active_connections_ (srv w)
  /\ hands (srv w') = hands (srv w) /\ (forall i, announced (srv w) i -> announced (srv w') i).

Lemma plain_refl w : plain w w.
Proof. intros H. split_and!; auto; lia. Qed.
Lemma plain_trans w1 w2 w3 : plain w1 w2 -> plain w2 w3 -> plain w1 w3.
Proof.
  intros H1 H2 H. destruct (H1 H) as (A1 & A2 & A3 & A4 & A5 & A6). destruct (H2 A1) as (B1 & B2 & B3 & B4 & B5 & B6).
  split_and!; auto; try congruence; lia.
Qed.

(** The server's part in ... *)
Lemma plain_srv w f : active_connections_ (f (srv w)) = active_connections_ (srv w) ->
  inbounds (f (srv w)) = inbounds (srv w) -> waking (f (srv w)) = waking (srv w) -> plain w (on_srv f w).
Proof.
  intros Ha Hi Hw H. split_and!; [done|done|cbn; lia|cbn; lia|unfold hands; cbn; by rewrite Hi|].
  intros i. unfold announced. cbn. by rewrite Hi, Hw.
Qed.
Lemma plain_outside w o : plain w (set_outside o w).
Proof. intros H. split_and!; [done|done|cbn; lia|cbn; lia|done|done]. Qed.
Lemma plain_note c e w : plain w (note c e w).
Proof. by apply plain_srv. Qed.
Lemma plain_put c c0 w : connection w (fd c) = Some c0 -> plain w (put c w).
Proof.
  unfold connection. intros Hc H. split_and!; [|done| |cbn; lia|done|done].
  - intros f c1. cbn. destruct (decide (f = fd c)) as [->|Hne].
    + rewrite lookup_insert, decide_True by done. by intros [= <-].
    + rewrite lookup_insert_ne by done. apply H.
  - unfold open_count. cbn. by rewrite map_size_insert, Hc.
Qed.
Lemma plain_dead w : plain w (dead w).
Proof. by apply plain_srv. Qed.

Lemma plain_close f w : plain w (close_connection f w).
Proof.
  unfold close_connection, connection. destruct (connections_ (own w) !! f) as [c|] eqn:Hc; [|apply plain_refl].
  intros H. split_and!; [|done| |cbn; lia|done|done].
  - intros f' c'. cbn. rewrite lookup_delete_Some. intros [_ Hf]. by apply H.
  - unfold open_count. cbn. rewrite map_size_delete, Hc. cbn.
    assert (0 < size (connections_ (own w)))%nat; [|lia].
    destruct (size (connections_ (own w))) eqn:E; [|lia]. apply map_size_empty_inv in E. rewrite E in Hc. by rewrite lookup_empty in Hc.
Qed.

Section Counts.
Context (options : AsyncHttpServerOptions) (is_ip_literal : text -> bool).

(** The connection that is written back is the one that was found. *)
Lemma found w f c : sound (own w) -> connection w f = Some c -> fd c = f.
Proof. intros H Hc. by apply H. Qed.

Lemma plain_of w w' : (sound (own w) -> plain w w') -> plain w w'.
Proof. intros H Hs. by apply H. Qed.

Lemma plain_flush f w : plain w (flush options f w).1.
Proof.
  apply plain_of. intros Hs. unfold flush. destruct (connection w f) as [c|] eqn:Hc; [|apply plain_dead].
  pose proof (found _ _ _ Hs Hc) as Hf.
  destruct (send_loop (sends (outside w)) c []) as [ [ [o c1] written] rest] eqn:El.
  apply send_loop_ok in El as (x & h & b & _ & _ & Hc1 & _). set (w2 := note c1 _ _).
  assert (Hp : plain w w2) by (eapply plain_trans; [apply plain_outside|apply plain_note]).
  assert (Hf1 : fd c1 = f) by by rewrite Hc1.
  assert (Hc2 : connection w2 f = Some c) by done. clearbody w2.
  assert (Hput : forall c3, fd c3 = f -> plain w (put c3 w2)).
  { intros c3 H3. eapply plain_trans; [exact Hp|]. eapply plain_put. by rewrite H3. }
  assert (Hcl : plain w (close_connection f (put c1 w2))) by (eapply plain_trans; [by apply Hput|apply plain_close]).
  destruct o; [destruct (keep_alive c1)| |]; cbn [negb fst]; try done; apply Hput.
  - by destruct (reset_fields options w2 c1) as (-> & _).
  - by destruct (fields_interest kWritable c1) as (-> & _).
Qed.

Lemma plain_begin f r ka w : plain w (begin_response options f r ka w).1.
Proof.
  apply plain_of. intros Hs. unfold begin_response. destruct (connection w f) as [c|] eqn:Hc; [|apply plain_dead].
  pose proof (found _ _ _ Hs Hc) as Hf. pose proof (plain_note c (Began r ka) w) as Hp.
  assert (Hc1 : connection (note c (Began r ka) w) f = Some c) by done. set (w1 := note _ _ w) in *. clearbody w1.
  assert (Hput : forall c3, fd c3 = f -> plain w (put c3 w1)).
  { intros c3 H3. eapply plain_trans; [exact Hp|]. eapply plain_put. by rewrite H3. }
  destruct (shared_body r) as [|x view]; cbv zeta; [eapply plain_trans; [|apply plain_flush]; by apply Hput|].
  destruct (_ || _); [eapply plain_trans; [|apply plain_close]|eapply plain_trans; [|apply plain_flush] ]; by apply Hput.
Qed.

Lemma wake_announced i s j : announced s j -> announced (wake i s) j.
Proof.
  intros H b. unfold wake, on_inbound. cbn. destruct (decide (j = i)) as [->|Hne]; [|rewrite lookup_alter_ne by done; apply H].
  rewrite lookup_alter_eq. destruct (inbounds s !! i) as [b0|] eqn:Eb; [|done]. cbn. intros [= <-].
  destruct (H b0 Eb) as [H1 _]. cbn. unfold kPipe. split; [lia|]. intros _. left. lia.
Qed.
Lemma hands_wake i s : hands (wake i s) = hands s.
Proof.
  unfold hands, wake, on_inbound. cbn. apply map_eq. intros j. rewrite !lookup_fmap.
  destruct (decide (j = i)) as [->|Hne]; [rewrite lookup_alter_eq; by destruct (inbounds s !! i)|by rewrite lookup_alter_ne].
Qed.
(** A post is followed by its byte. *)
Lemma announced_same s s' i : inbounds s' = inbounds s -> waking s' = waking s -> announced s i -> announced s' i.
Proof. unfold announced. by intros -> ->. Qed.
Lemma post_wakes call s s' wakes : post call s = (s', wakes) ->
  hands s' = hands s /\ active_connections_ s' = active_connections_ s /\ waking s' = waking s
  /\ (forall i, announced s i -> i ∈ wakes \/ announced s' i)
  /\ (forall i b', inbounds s' !! i = Some b' -> exists b, inbounds s !! i = Some b /\ wakeup_pipe b' = wakeup_pipe b).
Proof.
  unfold post. destruct call as [t r]. destruct (inbounds s !! target_loop t) as [b|] eqn:E; [|intros [= <- <-]; split_and!; eauto].
  destruct (closed b); [intros [= <- <-]; split_and!; eauto|]. intros [= <- <-].
  assert (Hl : forall j, inbounds (on_inbound (target_loop t) (set_resolved (resolved b ++ [(target_fd t, target_id t, r)])) s) !! j
            = if decide (j = target_loop t) then Some (set_resolved (resolved b ++ [(target_fd t, target_id t, r)]) b) else inbounds s !! j).
  { intros j. cbn. destruct (decide (j = target_loop t)) as [->|Hne]; [by rewrite lookup_alter_eq, E|by rewrite lookup_alter_ne]. }
  split_and!; try done.
  - apply map_eq. intros j. unfold hands. rewrite !lookup_fmap, Hl. destruct (decide (j = target_loop t)) as [->|]; [by rewrite E|done].
  - intros i Hi. destruct (decide (i = target_loop t)) as [->|Hne]; [left; by apply list_elem_of_singleton|right].
    intros b0. rewrite Hl, decide_False by done. apply Hi.
  - intros i b'. rewrite Hl. destruct (decide (i = target_loop t)) as [->|Hne]; [intros [= <-]; eauto|eauto].
Qed.

Definition pipe_ok (s : Server) (i : nat) : Prop := forall b, inbounds s !! i = Some b -> 0 <= wakeup_pipe b.
Lemma wake_lookup i s j b : inbounds (wake i s) !! j = Some b ->
  exists b0, inbounds s !! j = Some b0
    /\ b = (if decide (j = i) then set_wakeup_pipe (Z.min kPipe (wakeup_pipe b0 + 1)) b0 else b0).
Proof.
  unfold wake, on_inbound. cbn. destruct (decide (j = i)) as [->|Hne].
  - rewrite lookup_alter_eq. destruct (inbounds s !! i) as [b0|]; [|done]. intros [= <-]. eauto.
  - rewrite lookup_alter_ne by done. eauto.
Qed.
Lemma wake_pipe i s j : pipe_ok s j -> pipe_ok (wake i s) j.
Proof.
  intros H b Hb. apply wake_lookup in Hb as (b0 & Hb0 & ->). specialize (H b0 Hb0). destruct (decide (j = i)); [|done].
  cbn. unfold kPipe. lia.
Qed.
Lemma wake_self i s : pipe_ok s i -> announced (wake i s) i.
Proof.
  intros H b Hb. apply wake_lookup in Hb as (b0 & Hb0 & ->). specialize (H b0 Hb0). rewrite decide_True by done.
  cbn. unfold kPipe. split; [lia|]. intros _. left. lia.
Qed.
Lemma wakes_all js s : hands (fold_right wake s js) = hands s
  /\ active_connections_ (fold_right wake s js) = active_connections_ s
  /\ (forall i, pipe_ok s i -> pipe_ok (fold_right wake s js) i)
  /\ forall i, (i ∈ js /\ pipe_ok s i \/ announced s i) -> announced (fold_right wake s js) i.
Proof.
  induction js as [|j js (IH1 & IH2 & IH4 & IH3)]; cbn [fold_right].
  - split_and!; try done. intros i [ [H _]|H]; [by apply not_elem_of_nil in H|done].
  - split_and!; [by rewrite hands_wake|by rewrite <- IH2|intros i Hi; by apply wake_pipe, IH4|]. intros i [ [Hin Hp]|Ha].
    + apply elem_of_cons in Hin as [->|Hin]; [by apply wake_self, IH4|apply wake_announced, IH3; by left].
    + apply wake_announced, IH3. by right.
Qed.

Lemma attach_announced d t s : hands (attach_to d t s) = hands s
  /\ active_connections_ (attach_to d t s) = active_connections_ s
  /\ forall i, announced s i -> announced (attach_to d t s) i.
Proof.
  unfold attach_to. destruct (deferreds s !! d) as [cell|]; [|done]. destruct (attach t cell) as [cell' [call|] ]; [|done].
  set (s1 := set_deferred_cell d cell' s). destruct (post call s1) as [s2 wakes] eqn:Ep.
  apply post_wakes in Ep as (P1 & P2 & P3 & P4 & P5). destruct (wakes_all wakes s2) as (W1 & W2 & _ & W3).
  split_and!; [by rewrite W1, P1|by rewrite W2, P2|]. intros i Hi. apply W3.
  destruct (P4 i Hi) as [Hin|Ha]; [left|by right]. split; [exact Hin|]. intros b' Hb'.
  destruct (P5 i b' Hb') as (b & Hb & ->). by apply (Hi b).
Qed.

Lemma plain_dispatch f w : plain w (dispatch options is_ip_literal f w).1.
Proof.
  apply plain_of. intros Hs. unfold dispatch. destruct (connection w f) as [c|] eqn:Hc; [|apply plain_dead].
  pose proof (found _ _ _ Hs Hc) as Hf. set (r := forwarded_ip _ _ _).
  assert (Hh : plain w (call_handler w).2 /\ own (call_handler w).2 = own w).
  { unfold call_handler, take_answer. destruct (handler_set (srv w)); [|split; [apply plain_refl|done] ].
    destruct (answers (outside w)) as [|a rest]; [split; [apply plain_refl|done]|].
    destruct a as [a|tr budget already]; [split; [apply plain_outside|done]|]. split; [|by destruct already].
    eapply plain_trans; [apply (plain_outside w (set_answers rest (outside w)))|]. cbv zeta.
    set (w0 := set_outside _ w). set (s' := match already with None => _ | Some _ => _ end).
    assert (E : active_connections_ s' = active_connections_ (srv w0) /\ inbounds s' = inbounds (srv w0) /\ waking s' = waking (srv w0)).
    { unfold s'. by destruct already. }
    destruct E as (E1 & E2 & E3). by apply (plain_srv w0 (fun _ => s')). }
  destruct (call_handler w) as [resp w1]. cbn [snd] in Hh. destruct Hh as [Hp Ho].
  set (w2 := note c _ _). assert (Hp2 : plain w w2).
  { eapply plain_trans; [exact Hp|]. eapply plain_trans; [|apply plain_note]. by apply plain_srv. }
  assert (Hc2 : connection w2 f = Some c) by (unfold connection; cbn; by rewrite Ho).
  clearbody w2. set (c1 := set_requests_served (requests_served c + 1) (set_request r c)).
  assert (Hp3 : plain w (put c1 w2)).
  { eapply plain_trans; [exact Hp2|]. eapply plain_put. cbn. by rewrite Hf. }
  assert (Hc3 : connection (put c1 w2) f = Some c1) by (rewrite <- Hf; apply (put_connection c1)).
  destruct (deferred resp) as [d|]; [|eapply plain_trans; [exact Hp3|apply plain_begin] ].
  unfold defer_response. rewrite Hc3. set (c2 := touch _ _ _).
  assert (Hf2 : fd c2 = f) by (unfold c2, touch, update_interest; by destruct (decide _)).
  clearbody c2. cbn [fst]. eapply plain_trans; [exact Hp3|].
  eapply (plain_trans _ (put c2 (put c1 w2))); [eapply plain_put; by rewrite Hf2|]. set (w3 := put c2 _). intros H.
  destruct (attach_announced d (mkCompletion (id_ (own (put c1 w2))) f (id c2)) (srv w3)) as (A1 & A2 & A3).
  cbn [own srv on_srv set_srv]. fold w3. split_and!; [done|done|by rewrite A2|by rewrite A2|done|done].
Qed.

Lemma plain_consume_input fuel : forall f w, plain w (consume_input options is_ip_literal fuel f w).1.
Proof.
  induction fuel as [|fuel IH]; intros f w; [apply plain_dead|]. apply plain_of. intros Hs. cbn [consume_input].
  destruct (connection w f) as [c|] eqn:Hc; [|apply plain_dead]. pose proof (found _ _ _ Hs Hc) as Hf.
  assert (Hput : forall c3, fd c3 = f -> plain w (put c3 w)) by (intros c3 H3; eapply plain_put; by rewrite H3).
  set (h := match state c with State.ReadingHead => read_head options c | _ => HeadRead c end).
  assert (Hh : match h with NeedsMore => True | Refused _ c1 | HeadRead c1 => fd c1 = f end).
  { unfold h. pose proof (read_head_spec options c) as H. destruct (state c); try done. destruct (read_head options c); [done|by destruct H as (-> & _)..]. }
  destruct h as [|st c1|c1]; [apply plain_refl|eapply plain_trans; [by apply Hput|apply plain_begin]|].
  cbv zeta. destruct (state c1); try by apply Hput. destruct (_ <? _); [by apply Hput|].
  pose proof (plain_dispatch f (put (take_body c1) (put c1 w))) as Hd.
  assert (Hp2 : plain w (put (take_body c1) (put c1 w))).
  { eapply plain_trans; [by apply Hput|]. eapply (plain_put (take_body c1) c1). apply (put_connection c1). }
  destruct (dispatch _ _ _ _) as [w3 open]. cbn [fst] in Hd. assert (Hp3 : plain w w3) by by eapply plain_trans.
  destruct open; cbn [negb]; [|done]. destruct (connection w3 f) as [c3|]; [|eapply plain_trans; [exact Hp3|apply plain_dead] ].
  destruct (state c3), (inbox c3); try done. eapply plain_trans; [exact Hp3|apply IH].
Qed.
Lemma plain_consume f w : plain w (consume options is_ip_literal f w).1.
Proof. unfold consume. destruct (connection w f); [apply plain_consume_input|apply plain_dead]. Qed.

Lemma plain_receive reads : forall f w, plain w (receive_loop options is_ip_literal reads f w).
Proof.
  induction reads as [|r reads IH]; intros f w; cbn [receive_loop]; [apply plain_refl|].
  destruct r as [b| | |]; [|apply plain_refl|apply IH|apply plain_close]. destruct (take kChunk b) as [|x chunk]; [apply plain_close|].
  apply plain_of. intros Hs. destruct (connection w f) as [c|] eqn:Hc; [|apply plain_dead]. pose proof (found _ _ _ Hs Hc) as Hf.
  set (c1 := set_inbox _ c). set (w1 := put c1 _).
  assert (Hp1 : plain w w1) by (eapply plain_trans; [apply plain_note|]; eapply plain_put; cbn; by rewrite Hf).
  pose proof (plain_consume f w1) as Hp2. destruct (consume _ _ _ _) as [w2 open]. cbn [fst] in Hp2.
  assert (Hp3 : plain w w2) by by eapply plain_trans.
  destruct open; cbn [negb]; [|done]. destruct (connection w2 f) as [c2|]; [|eapply plain_trans; [exact Hp3|apply plain_dead] ].
  destruct (state c2); try done; (eapply plain_trans; [exact Hp3|apply IH]).
Qed.
Lemma plain_readable reads f w : plain w (on_readable options is_ip_literal reads f w).
Proof.
  unfold on_readable. destruct (connection w f) as [c|]; [|apply plain_dead]. destruct (state c); apply plain_receive || apply plain_refl.
Qed.
Lemma plain_writable f w : plain w (on_writable options is_ip_literal f w).
Proof.
  unfold on_writable. destruct (connection w f) as [c|]; [|apply plain_dead]. destruct (state c); try apply plain_refl.
  pose proof (plain_flush f w) as Hp. destruct (flush options f w) as [w1 open]. cbn [fst] in Hp.
  destruct open; cbn [negb]; [|done]. destruct (connection w1 f) as [c1|]; [|done].
  destruct (state c1), (inbox c1); try done. eapply plain_trans; [exact Hp|apply plain_consume].
Qed.
Lemma plain_count f w : active_connections_ (f (srv w)) = active_connections_ (srv w) ->
  inbounds (f (srv w)) = inbounds (srv w) -> waking (f (srv w)) = waking (srv w) ->
  forall w', plain (on_srv f w) w' -> plain w w'.
Proof. intros H1 H2 H3 w' H. eapply plain_trans; [by apply plain_srv|exact H]. Qed.

Lemma plain_apply w e : plain w (apply_resolved options w e).
Proof.
  apply plain_of. intros Hs. unfold apply_resolved. destruct e as [ [f n] r].
  destruct (connection w f) as [c|] eqn:Hc; [|apply plain_refl]. destruct (state c); try apply plain_refl.
  destruct (decide (id c = n)); [|apply plain_refl]. eapply plain_trans; [|apply plain_begin].
  eapply plain_put. cbn. by rewrite (found _ _ _ Hs Hc).
Qed.
Lemma plain_expire w f : plain w (expire options w f).
Proof.
  apply plain_of. intros Hs. unfold expire. destruct (connection w f) as [c|] eqn:Hc; [|apply plain_refl].
  pose proof (found _ _ _ Hs Hc) as Hf.
  assert (Ht : forall w0, plain w0 (count_timeout w0)) by (intros w0; unfold count_timeout; by apply plain_srv).
  assert (Hcell : forall d x w0, plain w0 (on_srv (set_deferred_cell d x) w0)) by (intros d0 x w0; by apply plain_srv).
  assert (Hcl : plain w (close_connection f (count_timeout w))) by (eapply plain_trans; [apply Ht|apply plain_close]).
  destruct (state c); try done. destruct (parked c) as [d|]; [|done]. cbv zeta.
  assert (Hp1 : plain w (put (set_parked None c) w)) by (eapply plain_put; cbn; by rewrite Hf).
  set (w1 := put (set_parked None c) w) in *.
  assert (Hc1 : connection w1 f = Some (set_parked None c)) by (rewrite <- Hf; apply (put_connection (set_parked None c))).
  clearbody w1. destruct (deferreds (srv w1) !! d) as [cell|]; [|eapply plain_trans; [exact Hp1|apply plain_dead] ].
  destruct (cancel cell) as [cell' taken]. destruct taken.
  - eapply plain_trans; [exact Hp1|]. eapply plain_trans; [|apply plain_begin].
    eapply plain_trans; [apply Hcell|apply Ht].
  - eapply plain_trans; [exact Hp1|]. eapply plain_trans; [apply Hcell|].
    eapply plain_put. cbn. rewrite Hf. exact Hc1.
Qed.
Lemma plain_fold {A} (g : W -> A -> W) (l : list A) : (forall w a, plain w (g w a)) -> forall w, plain w (foldl g w l).
Proof.
  intros Hg. induction l as [|a l IH]; intros w; [apply plain_refl|]. cbn. eapply plain_trans; [apply Hg|apply IH].
Qed.
Lemma plain_sweep w : plain w (sweep_timeouts options w).
Proof. apply plain_fold, plain_expire. Qed.

Lemma inbound_lookup i f s j : inbounds (on_inbound i f s) !! j = (if decide (j = i) then f <$> inbounds s !! i else inbounds s !! j).
Proof.
  unfold on_inbound. cbn. destruct (decide (j = i)) as [->|Hne]; [by rewrite lookup_alter_eq|by rewrite lookup_alter_ne].
Qed.
Lemma hands_inbound i f s : (forall b, handoff_ (f b) = handoff_ b) -> hands (on_inbound i f s) = hands s.
Proof.
  intros H. apply map_eq. intros j. unfold hands. rewrite !lookup_fmap, inbound_lookup.
  destruct (decide (j = i)) as [->|]; [|done]. destruct (inbounds s !! i); [cbn; by rewrite H|done].
Qed.
Lemma plain_drain_resolved w : plain w (drain_resolved options w).
Proof.
  unfold drain_resolved. eapply plain_trans; [|apply plain_fold, plain_apply]. intros H.
  split_and!; [done|done|cbn; lia|cbn; lia|by apply hands_inbound|]. intros i Ha b. cbn [srv on_srv set_srv].
  rewrite inbound_lookup. destruct (decide (i = id_ (own w))) as [->|]; [|apply Ha].
  destruct (inbounds (srv w) !! id_ (own w)) as [b0|] eqn:E; [|done]. cbn. intros [= <-]. cbn.
  destruct (Ha b0 E) as [H1 H2]. split; [done|]. intros [ [Hr _]|Hh]; [done|apply H2; by right].
Qed.

(** * Connections on their way *)

Definition slack (w : W) : Z :=
  active_connections_ (srv w) - open_count (own w) - map_sum zlen (hands (srv w)).
(** [refused] is how much of the count is about to be taken back. *)
Definition within_limit (refused a : Z) : Prop :=
  max_connections options = 0 \/ a <= max_connections options + refused.

Definition counted (w w' : W) : Prop :=
  sound (own w) ->
  sound (own w') /\ id_ (own w') = id_ (own w) /\ slack w <= slack w'
  /\ (forall k, 0 <= k -> within_limit k (active_connections_ (srv w)) -> within_limit k (active_connections_ (srv w')))
  /\ ((forall i, announced (srv w) i) -> forall i, announced (srv w') i).
Lemma counted_refl w : counted w w.
Proof. intros H. split_and!; auto; lia. Qed.
Lemma counted_trans w1 w2 w3 : counted w1 w2 -> counted w2 w3 -> counted w1 w3.
Proof.
  intros H1 H2 H. destruct (H1 H) as (A1 & A2 & A3 & A4 & A5). destruct (H2 A1) as (B1 & B2 & B3 & B4 & B5).
  split_and!; auto; try congruence; lia.
Qed.
Lemma plain_counted w w' : plain w w' -> counted w w'.
Proof.
  intros Hp H. destruct (Hp H) as (A1 & A2 & A3 & A4 & A5 & A6). split_and!; auto.
  - unfold slack. rewrite A5. lia.
  - unfold within_limit. intros k _ [?|?]; [by left|right; lia].
Qed.

Lemma slack_by w w' : open_count (own w') = open_count (own w) -> inbounds (srv w') = inbounds (srv w) ->
  slack w' = slack w + (active_connections_ (srv w') - active_connections_ (srv w)).
Proof. intros H1 H2. unfold slack, hands. rewrite H1, H2. lia. Qed.

(** A connection that has been counted is added, or given up: one at most is used up. *)
Lemma add_slack f ip w : sound (own w) ->
  let w' := add_connection options f ip w in
  sound (own w') /\ id_ (own w') = id_ (own w) /\ slack w - 1 <= slack w'
  /\ active_connections_ (srv w') <= active_connections_ (srv w)
  /\ inbounds (srv w') = inbounds (srv w) /\ waking (srv w') = waking (srv w).
Proof.
  intros Hs w'. unfold w', add_connection. cbv zeta.
  destruct (nonblocking_ok _ _); cbn [negb].
  2:{ set (w1 := on_srv _ _). assert (active_connections_ (srv w1) = active_connections_ (srv w) - 1) by done.
      split_and!; try done; [rewrite (slack_by w w1) by done|]; lia. }
  set (w1 := on_own _ w). destruct (poller_ok _ _); cbn [negb].
  2:{ set (w2 := on_srv _ _). assert (active_connections_ (srv w2) = active_connections_ (srv w) - 1) by done.
      split_and!; try done; [rewrite (slack_by w w2) by done|]; lia. }
  destruct (connection w1 f) as [c0|] eqn:Hc.
  { split_and!; try done. rewrite (slack_by w w1) by done. change (srv w1) with (srv w). lia. }
  split_and!; try done.
  - intros f' c' Hc'. cbn in Hc'. destruct (decide (f' = f)) as [->|Hne].
    + rewrite lookup_insert, decide_True in Hc' by done. by injection Hc' as <-.
    + rewrite lookup_insert_ne in Hc' by done. by apply Hs.
  - unfold slack, open_count. cbn. change (handoff_ <$> inbounds (srv w)) with (hands (srv w)).
    unfold connection in Hc. change (connections_ (own w1)) with (connections_ (own w)) in Hc. rewrite map_size_insert, Hc. lia.
Qed.

Lemma announced_all_same s s' : inbounds s' = inbounds s -> waking s' = waking s ->
  (forall i, announced s i) -> forall i, announced s' i.
Proof. intros H1 H2 H i. by apply (announced_same s). Qed.

(** A connection within the limit is placed: on this loop, or on another that is then to be
    woken. *)
Lemma hand_off_sum target f ip s :
  map_sum zlen (hands (hand_off target f ip s)) <= map_sum zlen (hands s) + 1.
Proof.
  unfold hands. change (inbounds (hand_off target f ip s)) with
    (alter (fun b => set_handoff (handoff_ b ++ [(f, ip)]) b) target (inbounds s)).
  destruct (inbounds s !! target) as [b|] eqn:Eb.
  - rewrite <- (insert_id _ _ _ Eb) at 1. rewrite alter_insert_eq, fmap_insert, map_sum_insert, lookup_fmap, Eb.
    cbn [from_option fmap option_fmap option_map handoff_ set_handoff]. rewrite zlen_app. change (zlen [(f, ip)]) with 1. lia.
  - rewrite alter_id; [lia|]. intros b. by rewrite Eb.
Qed.
Lemma hand_off_pipe target f ip s : (forall i, announced s i) -> pipe_ok (hand_off target f ip s) target.
Proof.
  intros Ha b. unfold hand_off. rewrite inbound_lookup, decide_True by done.
  destruct (inbounds s !! target) as [b0|] eqn:Eb; [|done]. cbn. intros [= <-]. by apply (Ha target b0).
Qed.
Lemma hand_off_others target f ip s i : i <> target -> announced s i -> announced (hand_off target f ip s) i.
Proof. intros Hne Ha b. unfold hand_off. rewrite inbound_lookup, decide_False by done. apply Ha. Qed.

Lemma place_slack f ip w : sound (own w) ->
  let '(w', target) := place_connection options f ip w in
  sound (own w') /\ id_ (own w') = id_ (own w) /\ slack w - 1 <= slack w'
  /\ active_connections_ (srv w') <= active_connections_ (srv w)
  /\ match target with
     | None => inbounds (srv w') = inbounds (srv w) /\ waking (srv w') = waking (srv w)
     | Some i => exists s, inbounds s = inbounds (srv w) /\ waking s = waking (srv w) /\ srv w' = hand_off i f ip s
     end.
Proof.
  intros Hs. unfold place_connection. cbv zeta. set (w1 := on_srv _ w).
  assert (Hsl : slack w1 = slack w) by (rewrite (slack_by w w1) by done; unfold w1; cbn [srv on_srv set_srv active_connections_ set_accepted]; lia).
  destruct (shard_accepts_ (srv w1)).
  { destruct (add_slack f ip w1 Hs) as (A1 & A2 & A3 & A4 & A5 & A6). split_and!; done. }
  set (w2 := on_srv _ w1).
  assert (Hsl2 : slack w2 = slack w1) by (rewrite (slack_by w1 w2) by done; unfold w2; cbn [srv on_srv set_srv active_connections_ set_next_loop]; lia).
  destruct (_ =? _)%nat.
  { destruct (add_slack f ip w2 Hs) as (A1 & A2 & A3 & A4 & A5 & A6). split_and!; done. }
  set (target := Z.to_nat _). split_and!; [done|done| |cbn; lia|].
  - unfold slack in *. cbn [srv on_srv set_srv own]. change (active_connections_ (hand_off target f ip (srv w2))) with (active_connections_ (srv w2)).
    pose proof (hand_off_sum target f ip (srv w2)). change (own w2) with (own w) in *. lia.
  - exists (srv w2). done.
Qed.

Lemma counted_accept w f ip : counted w (accept_one options w f ip).
Proof.
  intros Hs. unfold accept_one, count_connection. set (w1 := on_srv _ w).
  assert (Hsl : slack w1 = slack w + 1) by (rewrite (slack_by w w1) by done; unfold w1; cbn [srv on_srv set_srv active_connections_ set_active_connections]; lia).
  destruct (over_limit options _) eqn:El.
  { unfold refuse_connection. set (w2 := on_srv _ w1).
    assert (Ea : active_connections_ (srv w2) = active_connections_ (srv w)).
    { cbn [w2 w1 srv on_srv set_srv active_connections_ set_rejected_over_limit set_active_connections]. lia. }
    split_and!; [done|done| |by rewrite Ea|by apply announced_all_same].
    rewrite (slack_by w w2) by done. rewrite Ea. lia. }
  assert (Hlim : forall k, 0 <= k -> within_limit k (active_connections_ (srv w1))).
  { intros k Hk. unfold within_limit. unfold over_limit in El. apply andb_false_iff in El as [El|El]; [left; by apply negb_false_iff, Z.eqb_eq in El|right].
    apply Z.ltb_ge in El. cbn. lia. }
  pose proof (place_slack f ip w1 Hs) as H. destruct (place_connection options f ip w1) as [w2 target].
  destruct H as (A1 & A2 & A3 & A4 & A5).
  assert (Hl2 : forall k, 0 <= k -> within_limit k (active_connections_ (srv w2)))
    by (intros k Hk; destruct (Hlim k Hk) as [?|?]; [by left|right; lia]).
  destruct target as [i|].
  - destruct A5 as (s & E1 & E2 & E3). split_and!; [done|done| |by intros k Hk _; apply (Hl2 k)|].
    + unfold slack in *. cbn [srv on_srv set_srv own]. rewrite hands_wake. change (active_connections_ (wake i (srv w2))) with (active_connections_ (srv w2)). lia.
    + intros Ha. assert (Hss : forall j, announced s j) by (by apply (announced_all_same (srv w) s)).
      intros j. cbn [srv on_srv set_srv]. rewrite E3.
      destruct (decide (j = i)) as [->|Hne]; [by apply wake_self, hand_off_pipe|by apply wake_announced, hand_off_others].
  - destruct A5 as [E1 E2]. split_and!; [done|done|lia|by intros k Hk _; apply (Hl2 k)|by apply announced_all_same].
Qed.

(** What is answered to a connection is nothing to the other loops. *)
Definition still (w w' : W) : Prop :=
  inbounds (srv w') = inbounds (srv w) /\ waking (srv w') = waking (srv w) /\ id_ (own w') = id_ (own w).
Lemma still_trans w1 w2 w3 : still w1 w2 -> still w2 w3 -> still w1 w3.
Proof. intros (H1 & H2 & H3) (H4 & H5 & H6). split_and!; congruence. Qed.
Lemma still_close f w : still w (close_connection f w).
Proof. unfold close_connection. by destruct (connection w f). Qed.
Lemma still_flush f w : still w (flush options f w).1.
Proof.
  unfold flush. destruct (connection w f) as [c|]; [|done]. destruct (send_loop _ _ _) as [ [ [o c1] written] rest].
  destruct o; [destruct (keep_alive c1)| |]; cbn [negb fst]; try done;
    (eapply (still_trans _ (put c1 (note c1 (Wrote written) (set_outside (set_sends rest (outside w)) w)))); [done|apply still_close]).
Qed.
Lemma still_begin f r ka w : still w (begin_response options f r ka w).1.
Proof.
  unfold begin_response. destruct (connection w f) as [c|]; [|done].
  destruct (shared_body r); cbv zeta; [eapply still_trans; [|apply still_flush]; done|].
  destruct (_ || _); [eapply still_trans; [|apply still_close]; done|eapply still_trans; [|apply still_flush]; done].
Qed.
Lemma still_apply w e : still w (apply_resolved options w e).
Proof.
  unfold apply_resolved. destruct e as [ [f n] r]. destruct (connection w f) as [c|]; [|done]. destruct (state c); try done.
  destruct (decide _); [|done]. eapply still_trans; [|apply still_begin]. done.
Qed.
Lemma still_fold l : forall w, still w (foldl (apply_resolved options) w l).
Proof. induction l as [|e l IH]; intros w; [done|]. cbn. eapply still_trans; [apply still_apply|apply IH]. Qed.

Lemma adopt_slack h w : sound (own w) ->
  let w' := adopt options w h in
  sound (own w') /\ id_ (own w') = id_ (own w) /\ slack w - 1 <= slack w'
  /\ active_connections_ (srv w') <= active_connections_ (srv w)
  /\ inbounds (srv w') = inbounds (srv w) /\ waking (srv w') = waking (srv w).
Proof.
  intros Hs w'. unfold w', adopt. destruct (stopping_ _); [|by apply add_slack].
  set (w1 := on_srv _ w). assert (active_connections_ (srv w1) = active_connections_ (srv w) - 1) by done.
  split_and!; try done; [rewrite (slack_by w w1) by done|]; lia.
Qed.
Lemma adopt_all l : forall w, sound (own w) ->
  let w' := foldl (adopt options) w l in
  sound (own w') /\ id_ (own w') = id_ (own w) /\ slack w - zlen l <= slack w'
  /\ active_connections_ (srv w') <= active_connections_ (srv w)
  /\ inbounds (srv w') = inbounds (srv w) /\ waking (srv w') = waking (srv w).
Proof.
  induction l as [|h l IH]; intros w Hs; cbn [foldl].
  - rewrite zlen_nil. split_and!; try done; lia.
  - destruct (adopt_slack h w Hs) as (A1 & A2 & A3 & A4 & A5 & A6). destruct (IH _ A1) as (B1 & B2 & B3 & B4 & B5 & B6).
    rewrite zlen_cons. split_and!; try done; try congruence; lia.
Qed.

Lemma clear_handoff w : map_sum zlen (hands (srv (on_srv (on_inbound (id_ (own w)) (set_handoff [])) w)))
  = map_sum zlen (hands (srv w)) - zlen (handoff_ (own_inbound w)).
Proof.
  unfold hands, own_inbound. cbn [srv on_srv set_srv on_inbound]. set (i := id_ (own w)).
  change (inbounds (on_inbound i ?g (srv w))) with (alter g i (inbounds (srv w))).
  destruct (inbounds (srv w) !! i) as [b|] eqn:Eb.
  - rewrite <- (insert_id _ _ _ Eb) at 1. rewrite alter_insert_eq, fmap_insert, map_sum_insert, lookup_fmap, Eb.
    change (handoff_ (set_handoff [] b)) with (@nil (Z * text)). change (default _ (Some b)) with b.
    change (from_option zlen 0 (handoff_ <$> Some b)) with (zlen (handoff_ b)). rewrite zlen_nil. lia.
  - rewrite alter_id; [|intros b; by rewrite Eb]. cbn [default handoff_]. rewrite zlen_nil. lia.
Qed.

(** The parts of a wake-up: each empties what it is about, for the loop itself. *)
Definition emptied_of (g : Inbound -> Inbound) (w w' : W) : Prop :=
  sound (own w') /\ id_ (own w') = id_ (own w) /\ slack w <= slack w'
  /\ active_connections_ (srv w') <= active_connections_ (srv w)
  /\ (forall j, inbounds (srv w') !! j = if decide (j = id_ (own w)) then g <$> inbounds (srv w) !! j else inbounds (srv w) !! j)
  /\ waking (srv w') = waking (srv w).
Lemma emptied_trans g h w1 w2 w3 : emptied_of g w1 w2 -> emptied_of h w2 w3 -> emptied_of (h ∘ g) w1 w3.
Proof.
  intros (A1 & A2 & A3 & A4 & A5 & A6) (B1 & B2 & B3 & B4 & B5 & B6). split_and!; [done|congruence|lia|lia| |congruence].
  intros j. rewrite B5, A5, A2. destruct (decide (j = id_ (own w1))); [|done]. by destruct (inbounds (srv w1) !! j).
Qed.
Lemma emptied_inbound g w : (forall b, handoff_ (g b) = handoff_ b) -> sound (own w) ->
  emptied_of g w (on_srv (on_inbound (id_ (own w)) g) w).
Proof.
  intros Hg Hs. split_and!; try done.
  - unfold slack. cbn [srv on_srv set_srv own]. rewrite hands_inbound by done. change (active_connections_ (on_inbound _ g (srv w))) with (active_connections_ (srv w)). lia.
  - intros j. cbn [srv on_srv set_srv]. rewrite inbound_lookup. by destruct (decide (j = id_ (own w))) as [->|].
Qed.
Lemma pipe_read w : sound (own w) -> emptied_of (set_wakeup_pipe 0) w (read_wakeup w).
Proof. by apply emptied_inbound. Qed.
Lemma mailbox_taken w : sound (own w) -> emptied_of (set_resolved []) w (drain_resolved options w).
Proof.
  intros Hs. unfold drain_resolved. cbv zeta. set (w1 := on_srv _ w). generalize (resolved (own_inbound w)). intros ready.
  destruct (emptied_inbound (set_resolved []) w ltac:(done) Hs) as (E1 & E2 & E3 & E4 & E5 & E6). fold w1 in E1, E2, E3, E4, E5, E6.
  destruct (still_fold ready w1) as (S1 & S2 & S3).
  destruct (plain_fold (apply_resolved options) ready plain_apply w1 E1) as (P1 & P2 & P3 & P4 & P5 & _).
  split_and!; [done|congruence| |lia|intros j; by rewrite S1|congruence]. unfold slack in *. rewrite P5. lia.
Qed.
Lemma handoff_taken w : sound (own w) -> emptied_of (set_handoff []) w (drain_handoff options w).
Proof.
  intros Hs. unfold drain_handoff. cbv zeta. set (w1 := on_srv _ w).
  destruct (adopt_all (handoff_ (own_inbound w)) w1 Hs) as (A1 & A2 & A3 & A4 & A5 & A6).
  split_and!; [done|done| |done| |done].
  - pose proof (clear_handoff w) as Hc. fold w1 in Hc. unfold slack in *.
    change (open_count (own w1)) with (open_count (own w)) in A3.
    change (active_connections_ (srv w1)) with (active_connections_ (srv w)) in A3. lia.
  - intros j. rewrite A5. cbn [w1 srv on_srv set_srv]. rewrite inbound_lookup. by destruct (decide (j = id_ (own w))) as [->|].
Qed.

(** What a wake-up leaves of what was there for the loop: nothing. *)
Lemma drained w : sound (own w) ->
  emptied_of (set_handoff [] ∘ (set_resolved [] ∘ set_wakeup_pipe 0)) w (drain_wakeup options w).
Proof.
  intros Hs. pose proof (pipe_read w Hs) as H1. pose proof (mailbox_taken _ (proj1 H1)) as H2.
  eapply emptied_trans; [by eapply emptied_trans|]. apply handoff_taken, H2.
Qed.

Lemma counted_drain w : counted w (drain_wakeup options w).
Proof.
  intros Hs. destruct (drained w Hs) as (D1 & D2 & D3 & D4 & D5 & D6). split_and!; try done.
  - intros k _ [?|?]; [by left|right; lia].
  - intros Ha j b. rewrite D5, D6. destruct (decide (j = id_ (own w))) as [->|Hne]; [|apply Ha].
    destruct (inbounds (srv w) !! id_ (own w)); [|done]. cbn [fmap option_fmap option_map]. intros [= <-]. cbn. split; [lia|]. by intros [ [? _]|[? _] ].
Qed.

Lemma counted_event w e : counted w (process_event options is_ip_literal w e).
Proof.
  destruct e as [|results|f r wr h reads]; cbn [process_event]; [apply counted_drain| |apply plain_counted].
  - unfold accept_ready. revert w. induction results as [|r results IH]; intros w; [apply counted_refl|]. cbn [foldl].
    eapply counted_trans; [|apply IH]. destruct r; [apply counted_accept|apply counted_refl].
  - destruct (connection w f); [|apply plain_refl]. destruct (_ && _); [apply plain_close|]. cbv zeta.
    set (w1 := if wr then _ else w). assert (H1 : plain w w1) by (unfold w1; destruct wr; [apply plain_writable|apply plain_refl]).
    clearbody w1. destruct (connection w1 f); [|done]. destruct r; [|done]. eapply plain_trans; [exact H1|apply plain_readable].
Qed.

Lemma counted_close_all w : counted w (close_all w).
Proof. apply plain_counted, (plain_fold (fun w f => close_connection f w)). intros. apply plain_close. Qed.
Lemma counted_finish w : counted w (finish options w).
Proof. unfold finish. eapply counted_trans; [apply counted_drain|apply counted_close_all]. Qed.
End Counts.
End Promises.

(** * Over every execution *)

#[export] Instance Turn_eq_dec : EqDecision Turn.
Proof. solve_decision. Defined.

(** A loop that has read its pipe will look at its mailbox, then at its hand-off queue; and a
    loop that has handed a connection over will write to the pipe. *)
Definition mail_due (s : System) (i : nat) : bool := bool_decide (turn_of s i = PipeRead).
Definition handoff_due (s : System) (i : nat) : bool :=
  bool_decide (turn_of s i = PipeRead \/ turn_of s i = MailboxTaken)
  || bool_decide (map_Exists (fun _ t => t = HandedOff i) (turns s)).

(** A connection that has been counted and is not placed yet, or about to be refused. *)
Definition held (t : Turn) : Z := match t with ConnectionCounted _ _ _ => 1 | _ => 0 end.
Definition refused (options : AsyncHttpServerOptions) (t : Turn) : Z :=
  match t with ConnectionCounted _ _ open => if over_limit options open then 1 else 0 | _ => 0 end.

Definition open_everywhere (s : System) : Z := map_sum open_count (loops s).
Definition on_their_way (s : System) : Z := map_sum zlen (hands (shared s)).
Definition in_hand (s : System) : Z := map_sum held (turns s).
Definition about_to_be_refused options (s : System) : Z := map_sum (refused options) (turns s).

Lemma announced_mono md hd md' hd' s i : (md i = true -> md' i = true) -> (hd i = true -> hd' i = true) ->
  announced md hd s i -> announced md' hd' s i.
Proof.
  intros Hm Hh Ha b Hb. destruct (Ha b Hb) as [H1 H2]. split; [done|]. intros Ho. apply H2.
  destruct Ho as [ [? E]|[? E] ]; [left|right]; (split; [done|]); [destruct (md i)|destruct (hd i)]; naive_solver.
Qed.

Lemma still_due s s' i t' j : turns s' = <[i := t']> (turns s) ->
  (j = i -> t' = PipeRead \/ turn_of s i <> PipeRead /\ (t' = MailboxTaken \/ turn_of s i <> MailboxTaken)) ->
  turn_of s i <> HandedOff j ->
  (mail_due s j = true -> mail_due s' j = true) /\ (handoff_due s j = true -> handoff_due s' j = true).
Proof.
  intros Ht Hi Hj. assert (Hself : turn_of s' i = t') by (unfold turn_of; by rewrite Ht, lookup_insert_eq).
  assert (Hne : j <> i -> turn_of s' j = turn_of s j) by (intros ?; unfold turn_of; by rewrite Ht, lookup_insert_ne).
  unfold mail_due, handoff_due. rewrite !orb_true_iff, !bool_decide_eq_true. split.
  - destruct (decide (j = i)) as [->|Hn]; [rewrite Hself|by rewrite Hne]. naive_solver.
  - intros [H|H]; [left; destruct (decide (j = i)) as [->|Hn]; [rewrite Hself|by rewrite Hne]; naive_solver|right].
    destruct H as (k & t & Hk & ->). destruct (decide (k = i)) as [->|Hn].
    + exfalso. apply Hj. unfold turn_of. by rewrite Hk.
    + exists k, (HandedOff j). split; [|done]. by rewrite Ht, lookup_insert_ne.
Qed.

Lemma map_sum_le {A} (f g : A -> Z) (m : gmap nat A) : (forall x, f x <= g x) -> map_sum f m <= map_sum g m.
Proof.
  intros Hf. induction m as [|k x m Hk IH] using map_ind; [by rewrite !map_sum_empty|].
  rewrite !map_sum_insert_fresh by done. specialize (Hf x). lia.
Qed.

Section Executions.
Context (options : AsyncHttpServerOptions) (is_ip_literal : text -> bool).

Definition Counted (s : System) : Prop :=
  (forall i l, loops s !! i = Some l -> id_ l = i /\ sound l)
  /\ open_everywhere s + on_their_way s + in_hand s <= active_connections_ (shared s)
  /\ within_limit options (about_to_be_refused options s) (active_connections_ (shared s))
  /\ forall i, announced (mail_due s) (handoff_due s) (shared s) i.

Lemma refused_range t : 0 <= refused options t <= 1.
Proof. destruct t; cbn; try lia. destruct (over_limit _ _); lia. Qed.
Lemma about_to_be_refused_nonneg s : 0 <= about_to_be_refused options s.
Proof. apply map_sum_nonneg. intros t. apply refused_range. Qed.

(** ** An event of a loop *)

Lemma put_back_counted s i l o g : (forall md hd w, counted md hd options w (g w)) -> Counted s -> loops s !! i = Some l ->
  Counted (put_back (g (mkW l (shared s) o)) s).
Proof.
  intros Hg (C1 & C2 & C3 & C4) Hl. destruct (C1 i l Hl) as [Hi Hs].
  destruct (Hg (mail_due s) (handoff_due s) (mkW l (shared s) o) Hs) as (G1 & G2 & G3 & G4 & G5).
  set (w' := g _) in *. clearbody w'. cbn [own srv] in *. unfold put_back. split_and!.
  - intros j l'. cbn [loops]. rewrite G2, Hi. destruct (decide (j = i)) as [->|Hne].
    + rewrite lookup_insert, decide_True by done. intros [= <-]. split; [congruence|done].
    + rewrite lookup_insert_ne by done. apply C1.
  - unfold open_everywhere, on_their_way, in_hand in *. cbn [loops shared turns]. rewrite G2, Hi, map_sum_insert, Hl.
    change (from_option open_count 0 (Some l)) with (open_count l). unfold slack in G3. cbn [own srv] in G3. lia.
  - apply G4; [apply about_to_be_refused_nonneg|exact C3].
  - by apply G5.
Qed.

(** ** A turn of a loop *)

(** The counts before and after. *)
Definition turned (t : Turn) (w : W) (r : W * Turn) : Prop :=
  sound (own w) ->
  sound (own r.1) /\ id_ (own r.1) = id_ (own w)
  /\ slack w - held t <= slack r.1 - held r.2
  /\ (forall k, refused options t <= k -> within_limit options k (active_connections_ (srv w)) ->
       within_limit options (k - refused options t + refused options r.2) (active_connections_ (srv r.1))).

Lemma turned_drain w : turned Idle w (begin_drain w).
Proof.
  intros Hs. destruct (pipe_read w Hs) as (E1 & E2 & E3 & E4 & _). split_and!; [done|done|cbn [held begin_drain snd fst]; lia|].
  intros k Hk. unfold within_limit. cbn [refused begin_drain snd fst] in *. intros [?|?]; [by left|right; lia].
Qed.
Lemma turned_accept fd ip w : turned Idle w (begin_accept fd ip w).
Proof.
  intros Hs. unfold begin_accept, count_connection. cbn [fst snd held refused]. set (w1 := on_srv _ w).
  assert (Ea : active_connections_ (srv w1) = active_connections_ (srv w) + 1) by done.
  split_and!; [done|done|rewrite (slack_by w w1) by done; lia|]. intros k Hk Hw. rewrite Ea. unfold within_limit in *.
  unfold over_limit. destruct (Z.eqb_spec (max_connections options) 0); [by left|]. cbn [negb andb].
  destruct (Z.ltb_spec (max_connections options) (active_connections_ (srv w) + 1)); right; lia.
Qed.
Lemma turned_resume t w : turned t w (resume options t w).
Proof.
  intros Hs. assert (Hle : forall a k c, within_limit options k a -> c <= a -> within_limit options (k - 0 + 0) c)
    by (intros a k c [?|?] ?; [by left|right; lia]).
  destruct t as [| | |fd ip open|target]; cbn [resume].
  - split_and!; [done|done|done|]. intros k _ Hw. eapply Hle; [exact Hw|done].
  - destruct (mailbox_taken (fun _ => true) (fun _ => true) options w Hs) as (E1 & E2 & E3 & E4 & _). cbn [fst snd held refused].
    split_and!; [done|done|lia|]. intros k _ Hw. by eapply Hle.
  - destruct (handoff_taken options w Hs) as (E1 & E2 & E3 & E4 & _). cbn [fst snd held refused].
    split_and!; [done|done|lia|]. intros k _ Hw. by eapply Hle.
  - destruct (over_limit options open) eqn:Eo.
    { unfold refuse_connection. set (w1 := on_srv _ w).
      assert (Ea : active_connections_ (srv w1) = active_connections_ (srv w) - 1) by done.
      cbn [fst snd held]. split_and!; [done|done|rewrite (slack_by w w1) by done; lia|].
      intros k _. unfold within_limit. rewrite Ea. cbn [refused]. rewrite Eo. intros [?|?]; [by left|right; lia]. }
    pose proof (place_slack options fd ip w Hs) as H. destruct (place_connection options fd ip w) as [w1 target].
    destruct H as (A1 & A2 & A3 & A4 & _). assert (Eh : held (match target with Some i => HandedOff i | None => Idle end) = 0) by by destruct target.
    assert (Er : refused options (match target with Some i => HandedOff i | None => Idle end) = 0) by by destruct target.
    cbn [fst snd]. rewrite Eh, Er. cbn [held refused]. rewrite Eo. split_and!; [done|done|lia|]. intros k _ Hw. by eapply Hle.
  - cbn [fst snd held refused]. split_and!; [done|done| |intros k _ Hw; by eapply Hle].
    unfold slack. cbn [srv on_srv set_srv own]. rewrite hands_wake. change (active_connections_ (wake target (srv w))) with (active_connections_ (srv w)). lia.
Qed.

(** What is announced before and after. *)
Notation due s := (announced (mail_due s) (handoff_due s)).

Lemma due_drain s s' i w : turn_of s i = Idle -> turns s' = <[i := PipeRead]> (turns s) -> id_ (own w) = i -> sound (own w) ->
  (forall j, due s (srv w) j) -> forall j, due s' (srv (read_wakeup w)) j.
Proof.
  intros Hi Ht Hid Hs Ha j. destruct (pipe_read w Hs) as (_ & _ & _ & _ & E5 & E6). rewrite Hid in E5.
  assert (Hself : turn_of s' i = PipeRead) by (unfold turn_of; by rewrite Ht, lookup_insert_eq).
  intros b. rewrite E5, E6. destruct (decide (j = i)) as [->|Hne].
  - destruct (inbounds (srv w) !! i); [|done]. intros [= <-]. cbn. split; [lia|]. intros [ [_ E]|[_ E] ]; exfalso; revert E.
    + unfold mail_due. by rewrite Hself.
    + unfold handoff_due. by rewrite Hself.
  - revert b. apply (announced_mono (mail_due s) (handoff_due s)); [..|apply Ha];
      apply (still_due s s' i PipeRead j Ht); try done; rewrite ?Hi; auto.
Qed.
Lemma due_mailbox s s' i w : turn_of s i = PipeRead -> turns s' = <[i := MailboxTaken]> (turns s) -> id_ (own w) = i -> sound (own w) ->
  (forall j, due s (srv w) j) -> forall j, due s' (srv (drain_resolved options w)) j.
Proof.
  intros Hi Ht Hid Hs Ha j. destruct (mailbox_taken (fun _ => true) (fun _ => true) options w Hs) as (_ & _ & _ & _ & E5 & E6). rewrite Hid in E5.
  assert (Hself : turn_of s' i = MailboxTaken) by (unfold turn_of; by rewrite Ht, lookup_insert_eq).
  intros b. rewrite E5, E6. destruct (decide (j = i)) as [->|Hne].
  - destruct (inbounds (srv w) !! i) as [b0|] eqn:Eb; [|done]. intros [= <-]. cbn. split; [by apply (Ha i b0)|].
    intros [ [E _]|[_ E] ]; [done|]. exfalso. revert E. unfold handoff_due. by rewrite Hself.
  - revert b. apply (announced_mono (mail_due s) (handoff_due s)); [..|apply Ha];
      apply (still_due s s' i MailboxTaken j Ht); try done; rewrite ?Hi; auto.
Qed.
Lemma due_handoff s s' i w : turn_of s i = MailboxTaken -> turns s' = <[i := Idle]> (turns s) -> id_ (own w) = i -> sound (own w) ->
  (forall j, due s (srv w) j) -> forall j, due s' (srv (drain_handoff options w)) j.
Proof.
  intros Hi Ht Hid Hs Ha j. destruct (handoff_taken options w Hs) as (_ & _ & _ & _ & E5 & E6). rewrite Hid in E5.
  intros b. rewrite E5, E6. destruct (decide (j = i)) as [->|Hne].
  - destruct (inbounds (srv w) !! i) as [b0|] eqn:Eb; [|done]. intros [= <-]. destruct (Ha i b0 Eb) as [H1 H2]. cbn. split; [done|].
    intros [ [E _]|[E _] ]; [|done]. apply H2. left. split; [exact E|]. unfold mail_due. by rewrite Hi.
  - revert b. apply (announced_mono (mail_due s) (handoff_due s)); [..|apply Ha];
      apply (still_due s s' i Idle j Ht); try done; rewrite ?Hi; auto.
Qed.

(** Between other turns nothing is due that was not. *)
Lemma due_other s s' i t' srv0 srv1 j : turns s' = <[i := t']> (turns s) -> t' <> PipeRead ->
  turn_of s i <> PipeRead -> turn_of s i <> MailboxTaken -> turn_of s i <> HandedOff j ->
  inbounds srv1 = inbounds srv0 -> waking srv1 = waking srv0 -> due s srv0 j -> due s' srv1 j.
Proof.
  intros Ht Ht' H1 H2 H3 Hi Hw Ha. apply (announced_same _ _ srv0); [done|done|]. revert Ha.
  apply announced_mono; apply (still_due s s' i t' j Ht); auto.
Qed.
Lemma due_counted s s' i fd ip open w : turn_of s i = ConnectionCounted fd ip open ->
  let r := resume options (turn_of s i) w in
  turns s' = <[i := r.2]> (turns s) -> id_ (own w) = i -> sound (own w) ->
  (forall j, due s (srv w) j) -> forall j, due s' (srv r.1) j.
Proof.
  intros Hi. rewrite Hi. cbn [resume]. destruct (over_limit options open) eqn:Eo; cbn [fst snd].
  { intros Ht Hid Hs Ha j. apply (due_other s s' i Idle (srv w)); try done; rewrite ?Hi; done. }
  pose proof (place_slack options fd ip w) as H. destruct (place_connection options fd ip w) as [w1 target]. cbn [fst snd].
  intros Ht Hid Hs Ha j. specialize (H Hs). destruct H as (_ & _ & _ & _ & A5). destruct target as [k|].
  2:{ destruct A5 as [A5 A6]. apply (due_other s s' i Idle (srv w)); try done; rewrite ?Hi; done. }
  destruct A5 as (s0 & E1 & E2 & ->). assert (H0 : due s s0 j) by (apply (announced_same _ _ (srv w)); [done|done|apply Ha]).
  assert (Hoth : due s' s0 j) by (apply (due_other s s' i (HandedOff k) s0); try done; rewrite ?Hi; done).
  destruct (decide (j = k)) as [->|Hne]; [|by apply hand_off_others]. intros b. unfold hand_off.
  rewrite inbound_lookup, decide_True by done. destruct (inbounds s0 !! k) as [b0|] eqn:Eb; [|done]. intros [= <-].
  destruct (Hoth b0 Eb) as [H1 H2]. split; [done|]. intros [ [E Em]|[_ E] ]; [apply H2; left; done|].
  exfalso. revert E. unfold handoff_due. rewrite Ht. rewrite (bool_decide_true (map_Exists _ _)); [by rewrite orb_true_r|].
  exists i, (HandedOff k). by rewrite lookup_insert_eq.
Qed.
Lemma due_woken s s' i target w : turn_of s i = HandedOff target -> turns s' = <[i := Idle]> (turns s) ->
  (forall j, due s (srv w) j) -> forall j, due s' (srv (on_srv (wake target) w)) j.
Proof.
  intros Hi Ht Ha j. cbn [srv on_srv set_srv].
  destruct (decide (j = target)) as [->|Hne]; [apply wake_self; intros b Hb; by apply (Ha target b)|].
  apply wake_announced. apply (due_other s s' i Idle (srv w)); try done; rewrite ?Hi; try done. congruence.
Qed.

Lemma due_resume s s' i w : turns s' = <[i := (resume options (turn_of s i) w).2]> (turns s) -> id_ (own w) = i -> sound (own w) ->
  (forall j, due s (srv w) j) -> forall j, due s' (srv (resume options (turn_of s i) w).1) j.
Proof.
  destruct (turn_of s i) as [| | |fd ip open|target] eqn:Hi; intros Ht Hid Hs Ha.
  - intros j. apply (due_other s s' i Idle (srv w)); try done; rewrite ?Hi; done.
  - by eapply due_mailbox.
  - by eapply due_handoff.
  - rewrite <- Hi in *. by eapply due_counted.
  - by eapply due_woken.
Qed.

Lemma put_turn_counted s i l o r : let w := mkW l (shared s) o in
  turned (turn_of s i) w r ->
  (forall s', turns s' = <[i := r.2]> (turns s) -> id_ l = i -> sound l ->
    (forall j, due s (shared s) j) -> forall j, due s' (srv r.1) j) ->
  Counted s -> loops s !! i = Some l -> Counted (put_turn r s).
Proof.
  intros w Ht Hd (C1 & C2 & C3 & C4) Hl. destruct (C1 i l Hl) as [Hi Hs]. destruct (Ht Hs) as (G1 & G2 & G3 & G4).
  cbn [own w] in G2. rewrite Hi in G2. unfold put_turn. rewrite G2.
  assert (Hold : forall (f : Turn -> Z), f Idle = 0 -> from_option f 0 (turns s !! i) = f (turn_of s i))
    by (intros f Hf; unfold turn_of; by destruct (turns s !! i)). split_and!.
  - intros j l'. cbn [loops]. destruct (decide (j = i)) as [->|Hne].
    + rewrite lookup_insert, decide_True by done. by intros [= <-].
    + rewrite lookup_insert_ne by done. apply C1.
  - unfold open_everywhere, on_their_way, in_hand in *. cbn [loops shared turns]. rewrite !map_sum_insert, Hl, (Hold held) by done.
    change (from_option open_count 0 (Some l)) with (open_count l). unfold slack in G3. cbn [own srv w] in G3. lia.
  - unfold about_to_be_refused in *. cbn [shared turns]. rewrite map_sum_insert, (Hold (refused options)) by done.
    replace (_ + refused options r.2 - _) with (map_sum (refused options) (turns s) - refused options (turn_of s i) + refused options r.2) by lia.
    apply G4; [|exact C3]. assert (Hnn : forall m : gmap nat Turn, 0 <= map_sum (refused options) m) by (intros m; apply map_sum_nonneg; intros t; apply refused_range).
    unfold turn_of. destruct (turns s !! i) as [t|] eqn:Et; [|apply Hnn]. cbn.
    specialize (Hnn (delete i (turns s))). rewrite (map_sum_delete _ _ _ t) in Hnn by done. lia.
  - by apply Hd.
Qed.

(** ** Other threads *)

Lemma shared_counted s s' : hands s' = hands (shared s) -> active_connections_ s' = active_connections_ (shared s) ->
  (forall md hd, (forall i, announced md hd (shared s) i) -> forall i, announced md hd s' i) ->
  Counted s -> Counted (mkSystem (loops s) s' (turns s)).
Proof.
  intros H1 H2 H3 (C1 & C2 & C3 & C4). split_and!; [done| |cbn; by rewrite H2|by apply (H3 (mail_due s) (handoff_due s))].
  unfold open_everywhere, on_their_way, in_hand in *. cbn [loops shared turns]. by rewrite H1, H2.
Qed.

Lemma resolve_counted s d r : Counted s -> Counted (mkSystem (loops s) (resolve_deferred d r (shared s)) (turns s)).
Proof.
  apply shared_counted; try done; unfold resolve_deferred; destruct (deferreds (shared s) !! d) as [cell|]; try done;
    destruct (_ || _); try done; by destruct (resolve r cell) as [cell' [call|] ].
Qed.
Lemma post_counted s n : Counted s -> Counted (mkSystem (loops s) (post_next n (shared s)) (turns s)).
Proof.
  apply shared_counted; try done; unfold post_next; destruct (posting (shared s) !! n) as [call|]; try done;
    set (s1 := set_posting _ _); destruct (post call s1) as [s2 wakes] eqn:Ep.
  - by apply (post_wakes (fun _ => true) (fun _ => true)) in Ep as (P1 & _).
  - by apply (post_wakes (fun _ => true) (fun _ => true)) in Ep as (_ & P2 & _).
  - intros md hd Ha i. destruct (post_wakes md hd _ _ _ _ Ep) as (P1 & P2 & P3 & P4 & P5). assert (Ha1 : announced md hd s1 i) by apply Ha.
    destruct (P4 i Ha1) as [Hin|Ha2].
    + intros b' Hb'. destruct (P5 i b' Hb') as (b & Hb & Hp). cbn. rewrite Hp. split; [by apply (Ha1 b)|].
      intros _. right. rewrite elem_of_app. by right.
    + intros b' Hb'. destruct (Ha2 b' Hb') as [Q1 Q2]. split; [done|]. intros Hn. destruct (Q2 Hn) as [?|?]; [by left|right].
      cbn. rewrite elem_of_app. by left.
Qed.
Lemma wake_counted s n : Counted s -> Counted (mkSystem (loops s) (wake_next n (shared s)) (turns s)).
Proof.
  apply shared_counted; try done; unfold wake_next; destruct (waking (shared s) !! n) as [i|] eqn:Ew; try done; [by rewrite hands_wake|].
  intros md hd Ha j. set (s1 := set_waking _ _).
  assert (Hp : pipe_ok s1 i) by (intros b Hb; by apply (Ha i b)).
  destruct (decide (j = i)) as [->|Hne]; [by apply wake_self|]. apply wake_announced. intros b Hb. destruct (Ha j b Hb) as [Q1 Q2].
  split; [done|]. intros Hn. destruct (Q2 Hn) as [?|Hw]; [by left|right]. cbn.
  rewrite (delete_Permutation _ _ _ Ew), elem_of_cons in Hw. by destruct Hw.
Qed.
Lemma inbound_announced md hd f i s : (forall b, resolved (f b) = resolved b /\ handoff_ (f b) = handoff_ b /\ wakeup_pipe (f b) = wakeup_pipe b) ->
  (forall j, announced md hd s j) -> forall j, announced md hd (on_inbound i f s) j.
Proof.
  intros Hf Ha j b. rewrite inbound_lookup. destruct (decide (j = i)) as [->|]; [|apply Ha].
  destruct (inbounds s !! i) as [b0|] eqn:E; [|done]. cbn. intros [= <-]. destruct (Hf b0) as (E1 & E2 & E3).
  destruct (Ha i b0 E) as [H1 H2]. unfold owed. rewrite E1, E2, E3. done.
Qed.
Lemma stop_counted s i : Counted s -> Counted (mkSystem (loops s) (request_stop i (shared s)) (turns s)).
Proof.
  apply shared_counted; try done; [unfold request_stop; rewrite hands_wake; by apply hands_inbound|].
  intros md hd Ha j. apply wake_announced. by apply inbound_announced.
Qed.
Lemma close_counted s i : Counted s -> Counted (mkSystem (loops s) (close_mailbox i (shared s)) (turns s)).
Proof. apply shared_counted; try done; [by apply hands_inbound|]. intros md hd. by apply inbound_announced. Qed.

Lemma step_counted s s' : Counted s -> step options is_ip_literal s s' -> Counted s'.
Proof.
  intros Hc Hst. destruct Hst as [i l o e Hl Ht|i l o Hl Ht|i l o Hl Ht|i l o Hl Ht|i l o Hl Ht|i l o fd ip Hl Ht|i l o Hl|d r|n|n|i|i].
  - apply (put_back_counted s i l o (fun w => process_event options is_ip_literal w e)); auto. intros. apply counted_event.
  - apply (put_back_counted s i l o (sweep_timeouts options)); auto. intros. apply plain_counted, plain_sweep.
  - apply (put_back_counted s i l o (finish options)); auto. intros. apply counted_finish.
  - apply (put_back_counted s i l o close_all); auto. intros. apply counted_close_all.
  - apply (put_turn_counted s i l o); [rewrite Ht; apply turned_drain| |done|done]. intros s' E1 E2 E3 E4. by eapply due_drain.
  - apply (put_turn_counted s i l o); [rewrite Ht; apply turned_accept| |done|done]. intros s' E1 E2 E3 E4 j.
    apply (due_other s s' i _ (shared s)) with (1 := E1); try done; rewrite ?Ht; done.
  - apply (put_turn_counted s i l o); [apply turned_resume| |done|done]. intros s' E1 E2 E3 E4. by apply due_resume.
  - by apply resolve_counted.
  - by apply post_counted.
  - by apply wake_counted.
  - by apply stop_counted.
  - by apply close_counted.
Qed.

Context (handler shard : bool) (n : nat) (start : Z).
Notation reached s := (reachable options is_ip_literal (make_system handler shard n start) s).

Lemma make_counted : 0 <= max_connections options -> Counted (make_system handler shard n start).
Proof.
  intros Hm. assert (Hb : forall i b, inbounds (make_server handler shard n) !! i = Some b -> b = make_inbound).
  { intros i b Hb. by apply (numbered_lookup (fun _ => make_inbound)) in Hb as [_ ->]. }
  split_and!.
  - intros i l Hi. by apply (numbered_lookup (fun i => make_loop i start)) in Hi as [_ ->].
  - unfold open_everywhere, on_their_way, in_hand. rewrite !map_sum_zero; [done|done| |].
    + intros k x. unfold hands. rewrite lookup_fmap, fmap_Some. intros (b & Hx & ->). by rewrite (Hb _ _ Hx).
    + intros k l Hl. by apply (numbered_lookup (fun i => make_loop i start)) in Hl as [_ ->].
  - right. unfold about_to_be_refused. rewrite map_sum_zero by done. cbn. lia.
  - intros i b Hi. rewrite (Hb _ _ Hi). cbn. split; [lia|]. by intros [ [? _]|[? _] ].
Qed.

Lemma reached_counted s : 0 <= max_connections options -> reached s -> Counted s.
Proof. intros Hm. induction 1 as [|s s' _ IH Hs]; [by apply make_counted|by eapply step_counted]. Qed.

(** C14. The connection limit holds over every execution, with the loops' turns interleaved:
    the connections open on all loops, those handed over and on their way to their loop, and
    those counted and not placed yet are never more than [active_connections_] counts; and,
    unless [max_connections] is zero, which means no limit, that is more than
    [max_connections] only by connections that have been counted in [accept_ready], found
    to be too many, and not been taken back yet: those open and on their way never are. *)
Theorem connections_bounded s :
  0 <= max_connections options -> reached s ->
  open_everywhere s + on_their_way s + in_hand s <= active_connections_ (shared s)
  /\ (max_connections options <> 0 ->
      active_connections_ (shared s) <= max_connections options + about_to_be_refused options s
      /\ open_everywhere s + on_their_way s <= max_connections options).
Proof.
  intros Hm Hr. destruct (reached_counted s Hm Hr) as (_ & H1 & [H2|H2] & _); split; intros; try done.
  split; [done|]. assert (Hle : about_to_be_refused options s <= in_hand s); [|lia].
  apply map_sum_le. intros t. destruct t; cbn; try lia. destruct (over_limit options open); lia.
Qed.

(** C13. No wake-up is lost, whatever other threads and loops do between the operations of
    [drain_wakeup]: whenever responses wait for a loop, its pipe holds a byte, or a thread
    is about to write one, or the loop has read its pipe and takes its mailbox next;
    whenever connections wait for it, the same, or it is about to take its hand-off queue.
    Taking them leaves none of them behind. *)
Theorem wakeups_not_lost s i b l o :
  0 <= max_connections options -> reached s -> inbounds (shared s) !! i = Some b -> loops s !! i = Some l ->
  (resolved b <> [] -> 0 < wakeup_pipe b \/ i ∈ waking (shared s) \/ turn_of s i = PipeRead)
  /\ (handoff_ b <> [] ->
      0 < wakeup_pipe b \/ i ∈ waking (shared s) \/ map_Exists (fun _ t => t = HandedOff i) (turns s)
      \/ turn_of s i = PipeRead \/ turn_of s i = MailboxTaken)
  /\ (turn_of s i = PipeRead ->
      inbounds (srv (resume options PipeRead (mkW l (shared s) o)).1) !! i = Some (set_resolved [] b))
  /\ (turn_of s i = MailboxTaken ->
      inbounds (srv (resume options MailboxTaken (mkW l (shared s) o)).1) !! i = Some (set_handoff [] b)).
Proof.
  intros Hm Hr Hb Hl. destruct (reached_counted s Hm Hr) as (C1 & _ & _ & C4). destruct (C1 i l Hl) as [Hi Hs].
  destruct (C4 i b Hb) as [_ Ha]. unfold owed in Ha. split_and!.
  - intros Hne. destruct (mail_due s i) eqn:E; [unfold mail_due in E; apply bool_decide_eq_true in E; auto|].
    destruct Ha as [?|?]; auto.
  - intros Hne. destruct (handoff_due s i) eqn:E; [|destruct Ha as [?|?]; auto].
    unfold handoff_due in E. rewrite orb_true_iff, !bool_decide_eq_true in E. tauto.
  - intros _. destruct (mailbox_taken (fun _ => true) (fun _ => true) options (mkW l (shared s) o) Hs) as (_ & _ & _ & _ & D5 & _).
    cbn [resume fst]. rewrite D5. cbn [own srv]. by rewrite Hi, decide_True, Hb by done.
  - intros _. destruct (handoff_taken options (mkW l (shared s) o) Hs) as (_ & _ & _ & _ & D5 & _).
    cbn [resume fst]. rewrite D5. cbn [own srv]. by rewrite Hi, decide_True, Hb by done.
Qed.
End Executions.

(** Two loops, a limit of two connections: of three that come at once, the first is added
    here, the second is handed to the other loop, and the third is refused. *)
Definition two_at_most : AsyncHttpServerOptions := mkOptions 2 (16 * 1024) (128 * 1024) true 15000 30000 1000.
Definition three_come : System :=
  put_back (process_event two_at_most no_literal (mkW (make_loop 0 0) (make_server true false 2) (world [] []))
              (ListenReady [Accepted 5 client; Accepted 6 client; Accepted 7 client]))
    (make_system true false 2 0).
Lemma three_come_reached : reachable two_at_most no_literal (make_system true false 2 0) three_come.
Proof. eapply Next; [apply Start|]. by apply (Process _ _ (make_system true false 2 0) 0). Qed.

(** A fourth comes: it has been counted, and not been looked at. *)
Definition a_fourth : System :=
  match loops three_come !! 0%nat with
  | Some l => put_turn (begin_accept 8 client (mkW l (shared three_come) (world [] []))) three_come
  | None => three_come
  end.
Lemma a_fourth_reached : reachable two_at_most no_literal (make_system true false 2 0) a_fourth.
Proof.
  unfold a_fourth. destruct (loops three_come !! 0%nat) as [l|] eqn:Hl; [|apply three_come_reached].
  eapply Next; [apply three_come_reached|]. by apply (BeginAccept _ _ three_come 0).
Qed.
Lemma connections_bounded_witness :
  open_everywhere a_fourth = 1 /\ on_their_way a_fourth = 1 /\ in_hand a_fourth = 1
  /\ active_connections_ (shared a_fourth) = 3 /\ about_to_be_refused two_at_most a_fourth = 1
  /\ rejected_over_limit_ (shared a_fourth) = 1
  /\ active_connections_ (shared a_fourth) <= 2 + about_to_be_refused two_at_most a_fourth
  /\ open_everywhere a_fourth + on_their_way a_fourth <= 2.
Proof.
  split_and!; [vm_compute; reflexivity..| |];
    by apply (connections_bounded two_at_most no_literal true false 2 0 a_fourth); [|apply a_fourth_reached|].
Defined.

(** The other loop has read its pipe: nothing is in it, and it will look at its queue. *)
Definition pipe_emptied : System :=
  put_turn (begin_drain (mkW (make_loop 1 0) (shared three_come) (world [] []))) three_come.
Lemma pipe_emptied_reached : reachable two_at_most no_literal (make_system true false 2 0) pipe_emptied.
Proof. eapply Next; [apply three_come_reached|]. by apply (BeginDrain _ _ three_come 1 (make_loop 1 0)); vm_compute. Qed.
Lemma wakeups_not_lost_witness :
  exists b, inbounds (shared pipe_emptied) !! 1%nat = Some b /\ handoff_ b = [(6, client)]
  /\ wakeup_pipe b = 0 /\ waking (shared pipe_emptied) = []
  /\ (0 < wakeup_pipe b \/ 1%nat ∈ waking (shared pipe_emptied)
      \/ map_Exists (fun _ t => t = HandedOff 1) (turns pipe_emptied)
      \/ turn_of pipe_emptied 1 = PipeRead \/ turn_of pipe_emptied 1 = MailboxTaken).
Proof.
  destruct (inbounds (shared pipe_emptied) !! 1%nat) as [b|] eqn:Hb; [|by vm_compute in Hb].
  assert (Hh : handoff_ b = [(6, client)]).
  { change (from_option handoff_ [] (Some b) = [(6, client)]). rewrite <- Hb. vm_compute. reflexivity. }
  assert (Hp : wakeup_pipe b = 0).
  { change (from_option wakeup_pipe 0 (Some b) = 0). rewrite <- Hb. vm_compute. reflexivity. }
  exists b. split; [done|]. split; [done|]. split; [done|]. split; [vm_compute; reflexivity|].
  apply (wakeups_not_lost two_at_most no_literal true false 2 0 pipe_emptied 1 b (make_loop 1 0) (world [] []));
    [done|apply pipe_emptied_reached|done|vm_compute; reflexivity|by rewrite Hh].
Defined.

(** * Executions worth knowing *)

(** * A request behind a deferred one *)

(** Two requests come in one read.  The handler defers the first. *)
Definition deferring : System :=
  played [opening;
          (world [Sent 500] [Later (page "late") 0 None; Now (page "b")],
           Ready 5 true false false [Received (get "/a" ++ get "/b"); RecvAgain])].
(** The media arrives: another thread resolves the deferral, and posts it. *)
Definition resolve_now (d : Z) (r : HttpResponse) (s : System) : System :=
  mkSystem (loops s) (wake_next 0 (post_next 0 (resolve_deferred d r (shared s)))) (turns s).
Definition resolving : System := resolve_now 1 (page "a") deferring.
(** The loop wakes up; the socket takes all it is given. *)
Definition answered_a : System := play resolving (world [Sent 500; Sent 500] [Now (page "b")], WakeupReady).
(** Nothing more comes from a client that waits for its second answer. *)
Definition swept : System :=
  match loops answered_a !! 0%nat, turn_of answered_a 0 with
  | Some l, Idle => put_back (sweep_timeouts default_options
                (mkW l (shared answered_a) (mkOutside 15000 [Sent 500; Sent 500] [Now (page "b")] (fun _ => true) (fun _ => true))))
                answered_a
  | _, _ => answered_a
  end.

Notation Reached := (reachable default_options no_literal (make_system true true 1 0)).

Lemma resolve_now_reached d r s : Reached s -> Reached (resolve_now d r s).
Proof.
  intros Hr. unfold resolve_now.
  apply (Next _ _ _ (mkSystem (loops s) (post_next 0 (resolve_deferred d r (shared s))) (turns s))); [|apply (WakeNext _ _ (mkSystem _ _ _))].
  apply (Next _ _ _ (mkSystem (loops s) (resolve_deferred d r (shared s)) (turns s))); [|apply (PostNext _ _ (mkSystem _ _ _))].
  apply (Next _ _ _ s); [done|apply ResolveDeferred].
Qed.
Lemma sweep_reached s i l o : Reached s -> loops s !! i = Some l -> turn_of s i = Idle ->
  Reached (put_back (sweep_timeouts default_options (mkW l (shared s) o)) s).
Proof. intros Hr Hl Ht. eapply Next; [exact Hr|by eapply Sweep]. Qed.
Lemma swept_reached : Reached swept.
Proof.
  unfold swept. assert (H : Reached answered_a).
  { apply (play_reachable [_]), resolve_now_reached, played_reached. }
  destruct (loops answered_a !! 0%nat) as [l|] eqn:Hl; [|exact H]. destruct (turn_of answered_a 0) eqn:Ht; try exact H.
  exact (sweep_reached _ 0 l _ H Hl Ht).
Qed.

(** The second request lies complete in the inbox when the first has been answered, and the
    connection waits for more to read: it is closed for idleness, the request unanswered. *)
Lemma request_behind_a_deferral_is_stranded :
  option_map (fun c => (state c, inbox c, interest c)) (connection_of answered_a)
  = Some (State.ReadingHead, get "/b", kReadable)
  /\ frame default_options no_literal client (get "/b") = Some (sees "/b" "", [])
  /\ (began (seen answered_a (0%nat, 1))).*1 = [page "a"]
  /\ connection_of swept = None /\ length (dispatched (seen swept (0%nat, 1))) = 1%nat.
Proof. split_and!; vm_compute; reflexivity. Qed.

(** * A client that goes on sending *)

Definition small_options : AsyncHttpServerOptions := mkOptions 0 64 64 true 15000 30000 1000.
Definition chunk_of_x : text := repeat "x"%char (16 * 1024).

Lemma parked_receives options is_ip_literal x n : x <> [] -> (length x <= kChunk)%nat -> forall w c,
  connection w (fd c) = Some c -> state c = State.Deferred ->
  exists c', connection (receive_loop options is_ip_literal (repeat (Received x) n) (fd c) w) (fd c) = Some c'
    /\ state c' = State.Deferred /\ zlen (inbox c') = zlen (inbox c) + Z.of_nat n * zlen x.
Proof.
  intros Hx Hl. induction n as [|n IH]; intros w c Hc Hs; [exists c; split_and!; [done|done|lia]|].
  cbn [repeat receive_loop]. rewrite take_ge by done. destruct x as [|y x0] eqn:Ex; [done|]. rewrite <- Ex in *. rewrite Hc.
  set (c1 := set_inbox _ c). set (w1 := put c1 _).
  assert (Hc1 : connection w1 (fd c) = Some c1) by apply (put_connection c1).
  assert (Hs1 : state c1 = State.Deferred) by done.
  unfold consume. rewrite Hc1. cbn [consume_input]. rewrite Hc1, Hs1, Hs1. cbn [negb].
  assert (Hc2 : connection (put c1 w1) (fd c) = Some c1) by apply (put_connection c1). rewrite Hc2, Hs1.
  destruct (IH (put c1 w1) c1 Hc2 Hs1) as (c' & H1 & H2 & H3). exists c'. split_and!; [done|done|].
  rewrite H3. unfold c1. cbn [inbox set_inbox]. rewrite zlen_app. lia.
Qed.

(** While a request is parked, what can be read is read, without a limit: [kReadable] is off,
    but the loop over [recv] that dispatched the request goes on until it would block. *)
Definition accepted_one : W :=
  set_outside (world [] [Later (page "late") 0 None])
    (process_event small_options no_literal (mkW (make_loop 0 0) (make_server true true 1) (world [] [])) (ListenReady [Accepted 5 client])).
Definition brief (c : Connection) : Z * State.t * text := (fd c, state c, inbox c).
Definition just_read : W :=
  match connection accepted_one 5 with
  | Some c => put (set_inbox (get "/a") c) (note c (Got (get "/a")) accepted_one)
  | None => accepted_one
  end.

Lemma parked_inbox_grows n :
  exists c, connection (process_event small_options no_literal accepted_one
                          (Ready 5 true false false (Received (get "/a") :: repeat (Received chunk_of_x) n))) 5 = Some c
    /\ state c = State.Deferred /\ zlen (inbox c) = Z.of_nat n * (16 * 1024).
Proof.
  assert (H0 : option_map brief (connection accepted_one 5) = Some (5, State.ReadingHead, [])) by (vm_compute; reflexivity).
  assert (H1 : (consume small_options no_literal 5 just_read).2 = true) by (vm_compute; reflexivity).
  assert (H2 : option_map brief (connection (consume small_options no_literal 5 just_read).1 5) = Some (5, State.Deferred, []))
    by (vm_compute; reflexivity).
  unfold just_read in *. generalize accepted_one, H0, H1, H2. clear H0 H1 H2. intros w H0.
  destruct (connection w 5) as [c0|] eqn:Hc0; [|done]. injection H0 as Hf0 Hs0 Hi0.
  intros H1 H2. cbn [process_event]. rewrite Hc0. cbn [andb]. cbv zeta iota. rewrite ?Hc0. unfold on_readable. rewrite ?Hc0, Hs0.
  cbn [receive_loop]. change (take kChunk (get "/a")) with (get "/a"). rewrite Hc0, Hi0.
  assert (Hg : exists x l, get "/a" = x :: l) by (eexists _, _; reflexivity). destruct Hg as (x & l & Hg). rewrite Hg in *. cbn [app].
  destruct (consume _ _ _ _) as [w2 open]. cbn [fst snd] in *. subst open. cbn [negb].
  destruct (connection w2 5) as [c|] eqn:Hc; [|done]. injection H2 as Hf Hs Hi. rewrite Hs.
  destruct (parked_receives small_options no_literal chunk_of_x n) with (w := w2) (c := c) as (c' & E1 & E2 & E3);
    [done|unfold chunk_of_x; by rewrite repeat_length|by rewrite Hf|done|].
  rewrite Hf in E1. exists c'. split_and!; [done|done|]. rewrite E3, Hi, zlen_nil. unfold zlen, chunk_of_x. rewrite repeat_length. lia.
Qed.

(** * A chunked body *)

(** The body of a request that has no Content-Length is taken for the next request. *)
Definition chunked : text :=
  str "POST /a HTTP/1.1" ++ crlf ++ str "Transfer-Encoding: chunked" ++ blank_line.
Definition hello : text := str "5" ++ crlf ++ str "hello" ++ crlf ++ str "0" ++ blank_line.

Lemma chunked_body_is_not_read :
  let s := played [opening;
             (world [Sent 500; Sent 500] [Now (page "ok")], Ready 5 true false false [Received (chunked ++ hello); RecvAgain])] in
  map (fun d => request_body d.1) (dispatched (seen s (0%nat, 1))) = [[]]
  /\ map (fun b => (status b.1, b.2)) (began (seen s (0%nat, 1))) = [(200, true); (400, false)]
  /\ connection_of s = None.
Proof. split_and!; vm_compute; reflexivity. Qed.
