(* ===== verification/HttpServer.v ===== *)
(** control/http_server.cpp: the blocking HTTP server.  A pool of threads, each of which
    reads a request, answers it and reads the next; a queue of accepted connections before
    it. *)

From S2P Require Import Prelude Text HttpMessage AsyncHttp AsyncHttpSafe.
From Stdlib Require Import Ascii.

Module Blocking.

Record HttpServerOptions := mkHttpServerOptions {
  max_pending_requests : Z;
  max_header_bytes : Z;
  max_body_bytes : Z;
  enable_keep_alive : bool;
  max_requests_per_connection : Z
}.

Definition kChunk : nat := Z.to_nat 4096.

Section Server.
Context (options : HttpServerOptions).
(** [inet_pton] accepts the text as an IPv4 or an IPv6 address. *)
Context (is_ip_literal : text -> bool).

(** * Reading a request *)

(** Both loops are over what the system answers to [recv].  It blocks without a timeout: when
    there are no more answers the thread waits in it, [None].  An interrupted call is an
    error here. *)
Fixpoint read_head (reads : list RecvResult) (buffer : text) : option ((Z + nat * text) * list RecvResult) :=
  if max_header_bytes options <=? zlen buffer then Some (inl 431, reads)
  else match reads with
       | Received b :: rest =>
           match take kChunk b with
           | [] => Some (inl 400, rest)
           | chunk =>
               let buffer := buffer ++ chunk in
               match find_text blank_line buffer with
               | Some header_end => Some (inr (header_end, buffer), rest)
               | None => read_head rest buffer
               end
           end
       | _ :: rest => Some (inl 400, rest)
       | [] => None
       end.

Fixpoint read_body (reads : list RecvResult) (b : text) (content_length : Z) : option (option text * list RecvResult) :=
  if content_length <=? zlen b then Some (Some b, reads)
  else match reads with
       | Received c :: rest =>
           match take kChunk c with
           | [] => Some (None, rest)
           | chunk => read_body rest (b ++ chunk) content_length
           end
       | _ :: rest => Some (None, rest)
       | [] => None
       end.

(** [inl]: the status of the refusal.  [resize] cuts what has been read past the body. *)
Definition read_request (reads : list RecvResult) (out : HttpRequest) : option ((Z + HttpRequest) * list RecvResult) :=
  match read_head reads [] with
  | None => None
  | Some (inl status, rest) => Some (inl status, rest)
  | Some (inr (header_end, buffer), rest) =>
      match parse_request_head (take header_end buffer) out with
      | None => Some (inl 400, rest)
      | Some r =>
          let leftover := drop (header_end + 4) buffer in
          let '(content_length, length_valid) := content_length_of r in
          if negb length_valid then Some (inl 400, rest)
          else if max_body_bytes options <? content_length then Some (inl 413, rest)
          else match read_body rest leftover content_length with
               | None => None
               | Some (None, rest) => Some (inl 400, rest)
               | Some (Some b, rest) => Some (inr (set_request_body (take (Z.to_nat content_length) b) r), rest)
               end
      end
  end.

(** * Writing a response *)

(** [send_all], over what the system answers to [send]: whether it has sent everything, what
    it has sent, and the answers left.  It blocks, too, when there are no more answers. *)
Inductive SendOutcome := AllSent | SendFails | SendBlocks.
Fixpoint send_all (sends : list SendResult) (data : text) : SendOutcome * text * list SendResult :=
  match data with
  | [] => (AllSent, [], sends)
  | _ =>
      match sends with
      | [] => (SendBlocks, [], [])
      | SendInterrupted :: rest => send_all rest data
      | Sent n :: rest =>
          if n <=? 0 then (SendFails, [], rest)
          else
            let n := Nat.min (Z.to_nat n) (length data) in
            let '(o, written, rest) := send_all rest (drop n data) in
            (o, take n data ++ written, rest)
      | _ :: rest => (SendFails, [], rest)
      end
  end.

Definition write_response (sends : list SendResult) (response : HttpResponse) (ka : bool) :
    SendOutcome * text * list SendResult :=
  let '(o, head, sends) := send_all sends (serialize_response_head response ka) in
  match o with
  | AllSent =>
      match payload response with
      | None => (SendFails, head, sends)
      | Some b => let '(o, written, sends) := send_all sends b in (o, head ++ written, sends)
      end
  | _ => (o, head, sends)
  end.

(** * A connection *)

(** What the system and the handler answer: receives, sends, the handler's answers, and
    whether [poll] sees the next request in time. *)
Record Peer := mkPeer {
  reads : list RecvResult;
  sends : list SendResult;
  answers : list Answer;
  polls : list bool
}.

(** A deferral is taken back at once, and its answer for a timeout given. *)
Definition call_handler (handler_set : bool) (answers : list Answer) : HttpResponse * list Answer :=
  if handler_set then
    match answers with
    | [] => (default_response, [])
    | Now r :: rest => (undeferred r, rest)
    | Later tr budget already :: rest =>
        let cell := new_deferred tr budget already in
        (timeout_answer (if snd (cancel cell) then timeout_response cell else default_response), rest)
    end
  else (json 503 (json_error "no_handler"), answers).

Definition keeps_alive (served : Z) (r : HttpRequest) : bool :=
  let connection_header := find_header "connection" r in
  let client_wants_close := bool_decide (connection_header = Some (str "close")) in
  let client_wants_keep_alive := bool_decide (connection_header = Some (str "keep-alive")) in
  let http_1_1 := bool_decide (http_version r = str "HTTP/1.1") in
  enable_keep_alive options && negb client_wants_close && (http_1_1 || client_wants_keep_alive)
  && (served + 1 <? max_requests_per_connection options).

Record Exchange := mkExchange { asked : HttpRequest; given : HttpResponse; kept : bool }.

(** The descriptor is closed, or the thread is left in a call that does not return. *)
Inductive Ending := IsClosed | WaitsToReceive | WaitsToSend.
Definition after_write (o : SendOutcome) : Ending := match o with SendBlocks => WaitsToSend | _ => IsClosed end.

(** The exchanges, the status of a refusal, all that was written, and the end.  A connection
    has at most [max_requests_per_connection] requests, or one: that many rounds are enough. *)
Fixpoint handle_connection (fuel : nat) (served : Z) (client_ip : text) (handler_set : bool) (p : Peer) :
    option (list Exchange * option Z * text * Ending) :=
  match fuel with
  | O => None
  | S fuel =>
      match read_request (reads p) (blank_request client_ip) with
      | None => Some ([], None, [], WaitsToReceive)
      | Some (inl status, _) =>
          if (served =? 0) || negb (status =? 400) then
            let '(o, written, _) := write_response (sends p) (refusal status) false in
            Some ([], Some status, written, after_write o)
          else Some ([], None, [], IsClosed)
      | Some (inr r, reads') =>
          let r := forwarded_ip is_ip_literal client_ip r in
          let '(response, answers') := call_handler handler_set (answers p) in
          let ka := keeps_alive served r in
          let '(o, written, sends') := write_response (sends p) response ka in
          let x := mkExchange r response ka in
          match o with
          | AllSent =>
              if negb ka then Some ([x], None, written, IsClosed)
              else match polls p with
                   | true :: polls' =>
                       match handle_connection fuel (served + 1) client_ip handler_set (mkPeer reads' sends' answers' polls') with
                       | None => None
                       | Some (xs, refused, out, ending) => Some (x :: xs, refused, written ++ out, ending)
                       end
                   | _ => Some ([x], None, written, IsClosed)
                   end
          | _ => Some ([x], None, written, after_write o)
          end
      end
  end.

(** * How long a request can be *)

(** The receives of a request: every one brings a byte at least. *)
Definition receives_per_request : Z := Z.max 0 (max_header_bytes options) + Z.max 0 (max_body_bytes options).

Lemma kChunk_take (b : text) x c : take kChunk b = x :: c -> 1 <= zlen (x :: c).
Proof. intros _. rewrite zlen_cons. zlia. Qed.
Lemma read_head_bound reads : forall buffer,
  match read_head reads buffer with
  | None => Z.of_nat (length reads) < max_header_bytes options - zlen buffer
  | Some (_, rest) => Z.of_nat (length reads) - Z.of_nat (length rest) <= Z.max 0 (max_header_bytes options - zlen buffer)
  end.
Proof.
  induction reads as [|x reads IH]; intros buffer; cbn [read_head];
    (destruct (Z.leb_spec (max_header_bytes options) (zlen buffer)); [cbn; lia|]); [cbn; lia|].
  destruct x as [b| | |]; try (cbn [length]; lia). destruct (take kChunk b) as [|y c] eqn:E; [cbn [length]; lia|].
  apply kChunk_take in E. destruct (find_text _ _); [cbn [length]; lia|]. specialize (IH (buffer ++ y :: c)). rewrite zlen_app in IH.
  destruct (read_head reads _) as [ [res rest]|]; cbn [length]; lia.
Qed.
Lemma read_body_bound reads n : forall b,
  match read_body reads b n with
  | None => Z.of_nat (length reads) < n - zlen b
  | Some (_, rest) => Z.of_nat (length reads) - Z.of_nat (length rest) <= Z.max 0 (n - zlen b)
  end.
Proof.
  induction reads as [|x reads IH]; intros b; cbn [read_body];
    (destruct (Z.leb_spec n (zlen b)); [cbn; lia|]); [cbn; lia|].
  destruct x as [c| | |]; try (cbn [length]; lia). destruct (take kChunk c) as [|y l] eqn:E; [cbn [length]; lia|].
  apply kChunk_take in E. specialize (IH (b ++ y :: l)). rewrite zlen_app in IH.
  destruct (read_body reads _ _) as [ [res rest]|]; cbn [length]; lia.
Qed.
Lemma read_request_bound reads r :
  match read_request reads r with
  | None => Z.of_nat (length reads) < receives_per_request
  | Some (_, rest) => Z.of_nat (length reads) - Z.of_nat (length rest) <= receives_per_request
  end.
Proof.
  unfold read_request, receives_per_request. pose proof (read_head_bound reads []) as Hh. change (zlen []) with 0 in Hh.
  destruct (read_head reads []) as [ [ [st|[m buffer] ] rest]|]; [lia| |lia].
  destruct (parse_request_head _ _) as [q|]; [|lia]. destruct (content_length_of q) as [n []]; cbn [negb]; [|lia].
  destruct (Z.ltb_spec (max_body_bytes options) n); [lia|]. set (left := drop _ _).
  pose proof (read_body_bound rest n left) as Hb. pose proof (zlen_nonneg left).
  destruct (read_body rest left n) as [ [ [b|] rest2]|]; lia.
Qed.

(** * What is written *)

(** The calls that took something. *)
Definition takes (l : list SendResult) : Z :=
  Z.of_nat (length (List.filter (fun x => match x with SendInterrupted => false | _ => true end) l)).

Lemma send_all_spec sends : forall data, let '(o, written, rest) := send_all sends data in
  match o with AllSent => written = data | SendFails => written `prefix_of` data | SendBlocks => written `prefix_of` data /\ written <> data /\ rest = [] end
  /\ (o <> SendFails -> takes sends - takes rest <= zlen written).
Proof.
  induction sends as [|s sends IH]; intros data; destruct data as [|c data]; cbn [send_all].
  - split; [done|]. intros _. unfold zlen. cbn [length]. lia.
  - split; [|intros _; unfold zlen; cbn [length]; lia]. split_and!; [apply prefix_nil|done|done].
  - split; [done|]. intros _. unfold zlen. cbn [length]. lia.
  - set (l := c :: data). destruct s as [n| | |]; [|split; [apply prefix_nil|done]|apply IH|split; [apply prefix_nil|done] ].
    destruct (Z.leb_spec n 0); [split; [apply prefix_nil|done]|]. set (k := Nat.min _ _). specialize (IH (drop k l)).
    assert (Hk : (1 <= k <= length l)%nat) by (unfold k, l; cbn [length]; lia). clearbody k.
    destruct (send_all sends (drop k l)) as [ [o written] rest]. destruct IH as [H1 H2]. split.
    + destruct o.
      * rewrite H1. apply take_drop.
      * rewrite <- (take_drop k l) at 2. by apply prefix_app.
      * destruct H1 as (H1 & H3 & H4). split_and!; [rewrite <- (take_drop k l) at 2; by apply prefix_app| |done].
        intros E. apply H3. rewrite <- (take_drop k l) in E at 2. by apply app_inv_head in E.
    + intros Ho. specialize (H2 Ho). rewrite zlen_app. unfold zlen at 1. rewrite length_take. unfold takes in *. cbn [List.filter length]. lia.
Qed.
Lemma write_response_spec sends r ka : let '(o, written, rest) := write_response sends r ka in
  written `prefix_of` wire r ka /\ (o = AllSent -> written = wire r ka)
  /\ (o = SendBlocks -> written <> wire r ka /\ rest = [])
  /\ (o <> SendFails -> takes sends - takes rest <= zlen written).
Proof.
  unfold write_response, wire. pose proof (send_all_spec sends (serialize_response_head r ka)) as H1.
  destruct (send_all sends _) as [ [o head] sends1]. destruct H1 as [H1 T1]. destruct o.
  - subst head. destruct (payload r) as [b|]; [|by split_and!; [apply prefix_app_r|..] ].
    pose proof (send_all_spec sends1 b) as H2. destruct (send_all sends1 b) as [ [o written] sends2]. destruct H2 as [H2 T2]. cbn [default id].
    split_and!.
    + destruct o; [by subst|by apply prefix_app|by apply prefix_app, H2].
    + intros ->. by subst.
    + intros ->. destruct H2 as (_ & H2 & ->). split; [|done]. intros E. apply H2. by apply app_inv_head in E.
    + intros Ho. specialize (T2 Ho). specialize (T1 ltac:(done)). rewrite zlen_app. lia.
  - by split_and!; [apply prefix_app_r|..].
  - destruct H1 as (H1 & H2 & ->). split_and!; [by apply prefix_app_r|done| |by intros _; apply T1].
    intros _. split; [|done]. intros E. apply H2. apply prefix_length_eq; [done|].
    apply (f_equal length) in E. rewrite length_app in E. lia.
Qed.

(** The responses of a connection, with the refusal at its end. *)
Definition responses (xs : list Exchange) (refused : option Z) : list (HttpResponse * bool) :=
  map (fun x => (given x, kept x)) xs ++ match refused with Some s => [(refusal s, false)] | None => [] end.

Lemma takes_nonneg l : 0 <= takes l.
Proof. unfold takes. lia. Qed.
Lemma receives_nonneg : 0 <= receives_per_request.
Proof. unfold receives_per_request. lia. Qed.

(** What is known of the end of a connection that may have [n] requests yet. *)
Definition ends_well (p : Peer) (n : Z) (xs : list Exchange) (refused : option Z) (out : text) (ending : Ending) : Prop :=
  Z.of_nat (length xs) <= n
  /\ out `prefix_of` wires (responses xs refused)
  /\ Forall (fun x => kept x = true) (removelast xs)
  /\ (ending = WaitsToReceive -> Z.of_nat (length (reads p)) < n * receives_per_request)
  /\ (ending = WaitsToSend -> takes (sends p) <= zlen out /\ out <> wires (responses xs refused)).

Lemma finishes ip handler_set fuel : forall served p, 0 <= served ->
  (Z.to_nat (max_requests_per_connection options - served) < fuel)%nat ->
  exists xs refused out ending, handle_connection fuel served ip handler_set p = Some (xs, refused, out, ending)
    /\ ends_well p (Z.max 1 (max_requests_per_connection options - served)) xs refused out ending.
Proof.
  induction fuel as [|fuel IH]; intros served p H0 Hf; [lia|]. cbn [handle_connection].
  pose proof (read_request_bound (reads p) (blank_request ip)) as Hrd. pose proof receives_nonneg as Hnn.
  destruct (read_request (reads p) _) as [ [ [st|r0] rest]|].
  3:{ exists [], None, [], WaitsToReceive. split; [done|]. split_and!; [cbn; lia|apply prefix_nil|done| |done]. intros _. nia. }
  - destruct (_ || _).
    + pose proof (write_response_spec (sends p) (refusal st) false) as Hw.
      destruct (write_response _ _ _) as [ [o written] rest']. exists [], (Some st), written, (after_write o). split; [done|].
      destruct Hw as (W1 & W2 & W3 & W4).
      assert (Ew : wires (responses [] (Some st)) = wire (refusal st) false) by (unfold responses, wires; cbn; by rewrite app_nil_r).
      unfold ends_well. rewrite Ew. split_and!; [cbn; lia|done|done|by destruct o|]. intros Eo.
      assert (o = SendBlocks) as -> by by destruct o. destruct (W3 eq_refl) as [W5 ->]. split; [|done]. specialize (W4 ltac:(done)). change (takes []) with 0 in W4. lia.
    + exists [], None, [], IsClosed. by split; [|split_and!; [cbn; lia|apply prefix_nil|..] ].
  - set (r := forwarded_ip _ _ _). destruct (call_handler handler_set (answers p)) as [response answers'].
    pose proof (write_response_spec (sends p) response (keeps_alive served r)) as Hw.
    destruct (write_response _ _ _) as [ [o written] sends']. destruct Hw as (W1 & W2 & W3 & W4).
    set (ka := keeps_alive served r) in *. set (x := mkExchange r response ka). cbv zeta.
    assert (Ew : wires (responses [x] None) = wire response ka) by (unfold responses, wires; cbn; by rewrite app_nil_r).
    assert (Hone : exists xs refused out ending, Some ([x], None, written, after_write o) = Some (xs, refused, out, ending)
      /\ ends_well p (Z.max 1 (max_requests_per_connection options - served)) xs refused out ending).
    { exists [x], (@None Z), written, (after_write o). split; [done|]. unfold ends_well. rewrite Ew.
      split_and!; [cbn; lia|done|done|by destruct o|]. intros Eo.
      assert (o = SendBlocks) as -> by by destruct o. destruct (W3 eq_refl) as [W5 ->]. split; [|done]. specialize (W4 ltac:(done)). change (takes []) with 0 in W4. lia. }
    destruct o; [|exact Hone..]. cbn [after_write] in Hone. destruct ka eqn:Hka; [|exact Hone]. cbn [negb].
    destruct (polls p) as [|[] polls']; [exact Hone| |exact Hone].
    unfold ka, keeps_alive in Hka. rewrite andb_true_iff, Z.ltb_lt in Hka. destruct Hka as [_ Hka].
    destruct (IH (served + 1) (mkPeer rest sends' answers' polls')) as (xs & refused & out & ending & E & H1 & H2 & H3 & H4 & H5); [lia..|].
    rewrite E. exists (x :: xs), refused, (written ++ out), ending. split; [done|].
    assert (Eall : wires (responses (x :: xs) refused) = written ++ wires (responses xs refused)).
    { unfold responses, wires in *. cbn [map app concat fst snd given kept x]. by rewrite W2. }
    unfold ends_well. rewrite Eall. split_and!.
    + cbn [length]. lia.
    + by apply prefix_app.
    + destruct xs; [done|]. by constructor.
    + intros Ee. specialize (H4 Ee). cbn [reads] in H4.
      replace (Z.max 1 (max_requests_per_connection options - served)) with (Z.max 1 (max_requests_per_connection options - (served + 1)) + 1) by lia.
      rewrite Z.mul_add_distr_r. lia.
    + intros Ee. destruct (H5 Ee) as [H6 H7]. cbn [sends] in H6. specialize (W4 ltac:(done)). rewrite zlen_app.
      split; [lia|]. intros E2. apply H7. by apply app_inv_head in E2.
Qed.

(** C34. A worker thread finishes every connection whose peer goes on sending and taking,
    however it does: it serves at most [max_requests_per_connection] requests (or one); what
    it has written is a prefix of its responses, one for each request and in their order,
    with a refusal behind them or not; only the last of them can end the connection; and it
    is left waiting in a receive only by a peer that has sent fewer times than the limits on
    heads, bodies and requests allow, and in a send only by one that has taken each time no
    more than it was written, and not all of it.  (That those calls have no timeout is a
    finding.) *)
Theorem connection_finishes ip handler_set p fuel :
  (Z.to_nat (max_requests_per_connection options) < fuel)%nat ->
  exists xs refused out ending, handle_connection fuel 0 ip handler_set p = Some (xs, refused, out, ending)
    /\ Z.of_nat (length xs) <= Z.max 1 (max_requests_per_connection options)
    /\ out `prefix_of` wires (responses xs refused)
    /\ Forall (fun x => kept x = true) (removelast xs)
    /\ (ending = WaitsToReceive ->
        Z.of_nat (length (reads p)) < Z.max 1 (max_requests_per_connection options)
          * (Z.max 0 (max_header_bytes options) + Z.max 0 (max_body_bytes options)))
    /\ (ending = WaitsToSend -> takes (sends p) <= zlen out /\ out <> wires (responses xs refused)).
Proof.
  intros Hf. destruct (finishes ip handler_set fuel 0 p) as (xs & refused & out & ending & H & He); [lia..|].
  rewrite Z.sub_0_r in He. by exists xs, refused, out, ending.
Qed.

(** * What is read *)

Definition a_chunk (c : text) : Prop := c <> [] /\ (length c <= kChunk)%nat.
(** The limits of this server, as the event-driven one has them. *)
Definition limits : AsyncHttpServerOptions :=
  mkOptions 0 (max_header_bytes options) (max_body_bytes options) (enable_keep_alive options) 0 0
    (max_requests_per_connection options).

Lemma find_text_cut key a b m : find_text key (a ++ b) = Some m -> (m + length key <= length a)%nat -> find_text key a = Some m.
Proof.
  intros H Hl. destruct (find_text key a) as [e|] eqn:E; [by rewrite (find_text_more _ _ _ b E) in H|]. exfalso.
  revert m H Hl. induction a as [|c a IH]; intros m H Hl.
  - destruct key; [done|cbn in Hl; lia].
  - cbn [app find_text] in *. destruct (begins key (c :: a)) eqn:Eb; [done|].
    destruct (begins key (c :: a ++ b)) eqn:Eb2.
    + injection H as <-. rewrite begins_take in Eb2. rewrite app_comm_cons, take_app_le in Eb2 by done.
      apply begins_take in Eb2. congruence.
    + destruct (find_text key a); [done|]. destruct (find_text key (a ++ b)) as [m'|]; [|done]. injection H as <-.
      apply (IH eq_refl m' eq_refl). cbn in Hl. lia.
Qed.

Lemma read_head_ok chunks more m : Forall a_chunk chunks -> forall buffer,
  find_text blank_line (buffer ++ concat chunks) = Some m -> find_text blank_line buffer = None ->
  Z.of_nat m + 4 <= max_header_bytes options ->
  exists used0 c rest, chunks = used0 ++ c :: rest /\ find_text blank_line (buffer ++ concat used0) = None
    /\ find_text blank_line (buffer ++ concat (used0 ++ [c])) = Some m
    /\ read_head (map Received chunks ++ more) buffer = Some (inr (m, buffer ++ concat (used0 ++ [c])), map Received rest ++ more).
Proof.
  induction 1 as [|c chunks [Hc Hl] _ IH]; intros buffer Hf Hn Hm; [rewrite app_nil_r in Hf; congruence|].
  cbn [concat] in Hf. cbn [map app read_head]. destruct (Z.leb_spec (max_header_bytes options) (zlen buffer)) as [Hz|_].
  { rewrite (find_text_cut blank_line buffer _ m Hf) in Hn; [done|]. unfold zlen in Hz. cbn. lia. }
  rewrite take_ge by done. destruct c as [|x c0] eqn:Ec; [done|]. rewrite <- Ec in *. rewrite app_assoc in Hf.
  destruct (find_text blank_line (buffer ++ c)) as [e|] eqn:E.
  - rewrite (find_text_more _ _ _ (concat chunks) E) in Hf. injection Hf as <-. exists [], c, chunks. cbn [concat app]. by rewrite !app_nil_r.
  - destruct (IH _ Hf E Hm) as (used0 & c1 & rest & -> & H1 & H2 & Hr). exists (c :: used0), c1, rest. cbn [concat app]. by rewrite !app_assoc.
Qed.
Lemma read_body_ok chunks more n : Forall a_chunk chunks -> forall b, n <= zlen (b ++ concat chunks) ->
  exists used rest, chunks = used ++ rest /\ n <= zlen (b ++ concat used)
    /\ (used = [] \/ zlen (b ++ concat (removelast used)) < n)
    /\ read_body (map Received chunks ++ more) b n = Some (Some (b ++ concat used), map Received rest ++ more).
Proof.
  induction 1 as [|c chunks [Hc Hl] Hr IH]; intros b Hn.
  - cbn [concat] in *. rewrite app_nil_r in Hn. exists [], []. cbn [concat map app]. rewrite app_nil_r. split_and!; [done|done|by left|].
    destruct more; cbn [read_body]; by rewrite (proj2 (Z.leb_le _ _)).
  - cbn [map app read_body]. destruct (Z.leb_spec n (zlen b)) as [Hz|Hz].
    { exists [], (c :: chunks). cbn [concat app]. rewrite app_nil_r. split_and!; [done|done|by left|done]. }
    rewrite take_ge by done. destruct c as [|x c0] eqn:Ec; [done|]. rewrite <- Ec in *. cbn [concat] in Hn. rewrite app_assoc in Hn.
    destruct (IH _ Hn) as (used & rest & -> & H1 & H2 & H3). exists (c :: used), rest. cbn [concat]. rewrite app_assoc. split_and!; [done|done| |done].
    right. destruct used as [|u used]; [cbn; by rewrite app_nil_r|]. destruct H2 as [H2|H2]; [done|].
    change (removelast (c :: u :: used)) with (c :: removelast (u :: used)). cbn [concat]. by rewrite app_assoc.
Qed.

Lemma chunks_none l : Forall a_chunk l -> concat l = [] -> l = [].
Proof. intros [|c ? [Hc _] _]; [done|]. cbn. intros [? _]%app_nil. done. Qed.

(** C30. The two servers read a request alike: when the bytes that come, in whatever chunks,
    have a request of the event-driven server at their front, and its head with the blank
    line is within [max_header_bytes], the blocking server reads that same request, from
    exactly those chunks that it takes to have all of it; and when they are that request and
    nothing more, it leaves nothing unread and drops nothing. *)
Theorem servers_frame_alike ip chunks more r tail m :
  Forall a_chunk chunks ->
  frame limits is_ip_literal ip (concat chunks) = Some (r, tail) ->
  find_text blank_line (concat chunks) = Some m -> Z.of_nat m + 4 <= max_header_bytes options ->
  exists r0 used rest,
    read_request (map Received chunks ++ more) (blank_request ip) = Some (inr r0, map Received rest ++ more)
    /\ forwarded_ip is_ip_literal ip r0 = r
    /\ chunks = used ++ rest /\ zlen (concat chunks) - zlen tail <= zlen (concat used)
    /\ zlen (concat (removelast used)) < zlen (concat chunks) - zlen tail
    /\ (tail = [] -> rest = []).
Proof.
  intros Hc Hfr Hm Hl. unfold frame, head_of in Hfr. rewrite Hm in Hfr. destruct (_ <? Z.of_nat m); [done|].
  destruct (parse_request_head (take m (concat chunks)) (blank_request ip)) as [q|] eqn:Hp; [|done].
  destruct (content_length_of q) as [n valid] eqn:Hlen. destruct valid; [|done]. cbn [andb] in Hfr.
  change (AsyncHttp.max_body_bytes limits) with (max_body_bytes options) in Hfr.
  destruct (Z.leb_spec n (max_body_bytes options)) as [Hn|]; [|done].
  destruct (Z.ltb_spec (zlen (drop (m + 4) (concat chunks))) n) as [|Hz]; [done|]. injection Hfr as Hr Ht.
  destruct (read_head_ok chunks more m Hc [] Hm eq_refl Hl) as (u0 & c & rest1 & -> & Hf0 & Hf1 & E1). cbn [app] in Hf0, Hf1, E1.
  replace (u0 ++ c :: rest1) with ((u0 ++ [c]) ++ rest1) in * by (by rewrite <- app_assoc). set (u1 := u0 ++ [c]) in *.
  apply list.Forall_app in Hc as [Hc1 Hc2]. rewrite concat_app in *. pose proof (find_text_fits _ _ _ Hf1) as Hfit. cbn in Hfit.
  rewrite take_app_le in Hp by lia. rewrite drop_app_le in Hz, Hr, Ht by lia.
  destruct (read_body_ok rest1 more n Hc2 (drop (m + 4) (concat u1)) Hz) as (u2 & rest & -> & Hz2 & Hmin & E2).
  assert (Hu0 : (length (concat u0) < m + 4)%nat).
  { destruct (decide (m + 4 <= length (concat u0))%nat) as [Hle|]; [|lia]. exfalso. unfold u1 in Hf1. rewrite concat_app in Hf1.
    rewrite (find_text_cut blank_line (concat u0) _ m Hf1) in Hf0 by (cbn; lia). done. }
  rewrite map_app, <- app_assoc in E1. unfold read_request. rewrite map_app, <- app_assoc, E1, Hp, Hlen. cbn [negb].
  rewrite (proj2 (Z.ltb_ge _ _)) by done. rewrite map_app, <- app_assoc in *. rewrite E2.
  eexists _, (u1 ++ u2), rest. split; [reflexivity|]. rewrite concat_app in *. unfold zlen in *. rewrite !length_app, length_drop in *.
  split; [|split; [by rewrite app_assoc|] ].
  - rewrite <- Hr. do 2 f_equal. rewrite (app_assoc _ (concat u2)), (take_app_le (_ ++ _)); [done|]. rewrite length_app, length_drop. lia.
  - rewrite (concat_app u1 u2), length_app. rewrite <- Ht, length_drop, !length_app, length_drop. split; [lia|]. split.
    + assert (Eu : removelast u1 = u0) by apply removelast_last.
      destruct u2 as [|u u2]; [rewrite app_nil_r, Eu; cbn [concat app length] in *; lia|]. destruct Hmin as [Hmin|Hmin]; [done|].
      rewrite removelast_app by done. rewrite concat_app, length_app. lia.
    + intros Hnil. apply chunks_none; [by apply list.Forall_app in Hc2 as [_ ?]|]. apply (f_equal length) in Hnil.
      rewrite length_drop, !length_app, length_drop in Hnil. cbn in Hnil. apply length_zero_iff_nil. lia.
Qed.
End Server.

(** * The queue *)

(** What the threads share; [accepting] and [serving]: whether the accepting thread runs,
    and the connections the workers have; and what has been accepted and closed. *)
Record Listener := mkListener {
  running_ : bool;
  accepting : bool;
  shutting_down_ : bool;
  pending_ : list (Z * text);
  serving : list Z;
  overloaded : list Z;  (* sent a 503 *)
  accepted_fds : list Z;
  closed_fds : list Z
}.
Definition started : Listener := mkListener true true false [] [] [] [] [].

Section Queue.
Context (options : HttpServerOptions).

(** What [accept_loop] does with a connection. *)
Definition accept_connection (fd : Z) (ip : text) (s : Listener) : Listener :=
  if shutting_down_ s then
    mkListener (running_ s) (accepting s) (shutting_down_ s) (pending_ s) (serving s) (overloaded s)
      (accepted_fds s ++ [fd]) (closed_fds s ++ [fd])
  else if max_pending_requests options <=? zlen (pending_ s) then
    mkListener (running_ s) (accepting s) (shutting_down_ s) (pending_ s) (serving s) (overloaded s ++ [fd])
      (accepted_fds s ++ [fd]) (closed_fds s ++ [fd])
  else
    mkListener (running_ s) (accepting s) (shutting_down_ s) (pending_ s ++ [(fd, ip)]) (serving s) (overloaded s)
      (accepted_fds s ++ [fd]) (closed_fds s).

(** A round of [worker_loop] up to [handle_connection], and the [close] at the end of that. *)
Definition take_connection (s : Listener) : Listener :=
  match pending_ s with
  | [] => s
  | (fd, _) :: rest =>
      mkListener (running_ s) (accepting s) (shutting_down_ s) rest (fd :: serving s) (overloaded s)
        (accepted_fds s) (closed_fds s)
  end.
Definition close_served (n : nat) (s : Listener) : Listener :=
  match serving s !! n with
  | None => s
  | Some fd =>
      mkListener (running_ s) (accepting s) (shutting_down_ s) (pending_ s) (delete n (serving s)) (overloaded s)
        (accepted_fds s) (closed_fds s ++ [fd])
  end.

(** The three parts of [stop]: the flag, the accepting thread that ends (it may end before,
    when [poll] fails), and what is done when it has been joined. *)
Definition stop_running (s : Listener) : Listener :=
  mkListener false (accepting s) (shutting_down_ s) (pending_ s) (serving s) (overloaded s) (accepted_fds s) (closed_fds s).
Definition end_accepting (s : Listener) : Listener :=
  mkListener (running_ s) false (shutting_down_ s) (pending_ s) (serving s) (overloaded s) (accepted_fds s) (closed_fds s).
Definition shut_down (s : Listener) : Listener :=
  mkListener (running_ s) (accepting s) true [] (serving s) (overloaded s) (accepted_fds s) (closed_fds s ++ (pending_ s).*1).

Inductive step (s : Listener) : Listener -> Prop :=
  | Accepts fd ip : accepting s = true -> step s (accept_connection fd ip s)
  | Takes : step s (take_connection s)
  | Closes n : step s (close_served n s)
  | StopsRunning : step s (stop_running s)
  | EndsAccepting : step s (end_accepting s)
  | ShutsDown : running_ s = false -> accepting s = false -> step s (shut_down s).
Inductive reachable : Listener -> Prop :=
  | Started : reachable started
  | Next s s' : reachable s -> step s s' -> reachable s'.

Definition accounted (s : Listener) : Prop :=
  accepted_fds s ≡ₚ (pending_ s).*1 ++ serving s ++ closed_fds s
  /\ zlen (pending_ s) <= Z.max 0 (max_pending_requests options)
  /\ (shutting_down_ s = true -> pending_ s = [] /\ accepting s = false).

Lemma step_accounted s s' : accounted s -> step s s' -> accounted s'.
Proof.
  intros (H1 & H2 & H3) Hst. destruct Hst as [fd ip Ha| |n| | |Hr Ha].
  - unfold accept_connection. destruct (shutting_down_ s) eqn:Es; [destruct (H3 eq_refl); congruence|].
    destruct (Z.leb_spec (max_pending_requests options) (zlen (pending_ s))); split_and!; cbn;
      rewrite ?H1, ?fmap_app, ?zlen_app; cbn; try done; try (solve_Permutation).
    change (zlen [(fd, ip)]) with 1. lia.
  - unfold take_connection. destruct (pending_ s) as [|[fd ip] rest] eqn:Ep; [by split_and!; rewrite ?Ep|].
    rewrite zlen_cons in H2. split_and!; cbn; [rewrite H1; cbn; solve_Permutation|lia|]. intros Hs. by destruct (H3 Hs).
  - unfold close_served. destruct (serving s !! n) as [fd|] eqn:En; [|done]. split_and!; cbn; [|done|done].
    rewrite H1, (delete_Permutation _ _ _ En) at 1. solve_Permutation.
  - by split_and!.
  - split_and!; [done|done|]. intros Hs. by destruct (H3 Hs).
  - split_and!; [cbn; rewrite H1; solve_Permutation|change (zlen (pending_ (shut_down s))) with 0; lia|done].
Qed.

(** C35. Every connection that is accepted is closed, and once: it waits, is being served, or
    has been closed; at most [max_pending_requests] wait; and when [stop] is through and the
    workers have finished, all have been closed. *)
Theorem no_connection_leaks s :
  reachable s ->
  accepted_fds s ≡ₚ (pending_ s).*1 ++ serving s ++ closed_fds s
  /\ zlen (pending_ s) <= Z.max 0 (max_pending_requests options)
  /\ (shutting_down_ s = true -> serving s = [] -> accepted_fds s ≡ₚ closed_fds s).
Proof.
  intros Hr. assert (H : accounted s).
  { induction Hr as [|s s' _ IH Hs]; [|by eapply step_accounted]. split_and!; [done| |done]. cbn. rewrite zlen_nil. lia. }
  destruct H as (H1 & H2 & H3). split_and!; [done|done|]. intros Hs Hn. destruct (H3 Hs) as [Hp _].
  by rewrite H1, Hp, Hn.
Qed.
End Queue.

(** * Witnesses, and what the servers do not share *)

Definition nowhere (_ : text) : bool := false.
Definition kept_alive : HttpServerOptions := mkHttpServerOptions 2 (16 * 1024) (128 * 1024) true 3.
Definition client : text := str "192.0.2.7".
Definition get (what : string) : text := str "GET " ++ str what ++ str " HTTP/1.1" ++ blank_line.
Definition page (b : string) : HttpResponse := mkHttpResponse 200 (str "text/plain") (str b) [] 0 0 ∅ None.

(** Two requests on one connection, the second answered on a socket that takes seven bytes and
    then nothing more. *)
Definition two_requests : Peer :=
  mkPeer [Received (get "/a"); Received (take 9 (get "/b")); Received (drop 9 (get "/b"))]
    [Sent 500; Sent 500; Sent 7; SendInterrupted]
    [Now (page "one"); Later (page "late") 0 (Some (page "early"))] [true; true].

Lemma connection_finishes_witness :
  (Z.to_nat 3 < 4)%nat
  /\ exists xs refused out ending, handle_connection kept_alive nowhere 4 0 client true two_requests = Some (xs, refused, out, ending)
     /\ ending = WaitsToSend
     /\ Z.of_nat (length xs) <= 3 /\ out `prefix_of` wires (responses xs refused)
     /\ takes (sends two_requests) <= zlen out.
Proof.
  split; [lia|].
  destruct (connection_finishes kept_alive nowhere client true two_requests 4) as (xs & refused & out & ending & H1 & H2 & H3 & _ & _ & H6); [cbn; lia|].
  exists xs, refused, out, ending.
  assert (E : ending = WaitsToSend).
  { apply (f_equal (option_map snd)) in H1. vm_compute in H1. by injection H1. }
  split; [exact H1|]. split; [exact E|]. split; [exact H2|]. split; [exact H3|]. by apply H6.
Defined.

(** A client that connects and says nothing keeps its worker: [recv] has no timeout, before
    the first request. *)
Lemma silent_peer_keeps_its_worker sends answers polls :
  handle_connection kept_alive nowhere 4 0 client true (mkPeer [] sends answers polls) = Some ([], None, [], WaitsToReceive).
Proof. reflexivity. Qed.

(** The blocking server looks at the limit on heads only between two reads, so a head that is
    longer is read if one read brings the end of it; the event-driven server refuses it. *)
Definition short_heads : HttpServerOptions := mkHttpServerOptions 2 10 (128 * 1024) true 3.
Lemma long_head_is_read_by_one_server :
  (exists r, read_request short_heads [Received (get "/a")] (blank_request client) = Some (inr r, []) /\ path r = str "/a")
  /\ frame (limits short_heads) nowhere client (get "/a") = None.
Proof. split; [by eexists|reflexivity]. Qed.

Lemma servers_frame_alike_witness :
  exists r0, read_request kept_alive [Received (take 9 (get "/a")); Received (drop 9 (get "/a"))] (blank_request client) = Some (inr r0, [])
  /\ path r0 = str "/a".
Proof.
  destruct (frame (limits kept_alive) nowhere client (concat [take 9 (get "/a"); drop 9 (get "/a")])) as [ [r tail]|] eqn:E; [|by vm_compute in E].
  pose proof (f_equal (from_option snd [cr]) E) as Et. vm_compute in Et. subst tail.
  destruct (servers_frame_alike kept_alive nowhere client [take 9 (get "/a"); drop 9 (get "/a")] [] r [] 15) as (r0 & used & rest & H1 & H2 & _ & _ & _ & H5).
  - constructor; [split; [done|vm_compute; lia]|]. constructor; [split; [done|vm_compute; lia]|constructor].
  - exact E.
  - vm_compute. reflexivity.
  - cbn. lia.
  - exists r0. rewrite (H5 eq_refl) in H1. split; [exact H1|]. vm_compute in H1. injection H1 as <-. reflexivity.
Defined.

(** Three connections on a queue of two: one is refused, one served, one closed by [stop]. *)
Definition stopped : Listener :=
  close_served 0 (shut_down (end_accepting (stop_running (take_connection
    (accept_connection kept_alive 7 client (accept_connection kept_alive 6 client (accept_connection kept_alive 5 client started))))))).
Lemma no_connection_leaks_witness :
  overloaded stopped = [7] /\ accepted_fds stopped = [5; 6; 7] /\ accepted_fds stopped ≡ₚ closed_fds stopped.
Proof.
  split; [reflexivity|]. split; [reflexivity|].
  apply (no_connection_leaks kept_alive stopped); [|reflexivity|reflexivity].
  unfold stopped. do 3 (eapply Next; [|by constructor]). eapply Next; [|apply StopsRunning]. eapply Next; [|apply Takes].
  do 3 (eapply Next; [|by constructor]). apply Started.
Defined.

(** A request that is pipelined behind another is lost: what has been read past the body is
    cut off, and the event-driven server would have read it as the next request. *)
Lemma pipelined_request_is_dropped :
  match read_request kept_alive [Received (get "/a" ++ get "/b")] (blank_request client) with
  | Some (inr r, rest) => path r = str "/a" /\ rest = []
  | _ => False
  end
  /\ option_map (fun p => path p.1) (frame (limits kept_alive) nowhere client (get "/b")) = Some (str "/b").
Proof. vm_compute. split_and!; reflexivity. Qed.

(** A handler that defers is not answered with a 503: the client gets the deferral's answer for a timeout, 200 with no
    body when the handler has set none, and never the answer that has been given already. *)
Lemma deferral_is_answered_at_once :
  fst (call_handler true [Later default_response 0 (Some (page "ready"))]) = default_response.
Proof. reflexivity. Qed.
End Blocking.
