(* ===== verification/HlsHttp.v ===== *)
(** The text work of control/hls_http_handler.cpp (queries, cookies, paths, ranges) and the
    playback tokens of management/token.cpp. *)

From S2P Require Import Prelude Text HttpMessage.
From Stdlib Require Import Ascii.

(** * Pieces *)

(** The loops that cut a text at a separator; nothing comes behind a separator that ends it.
    A round takes a character at least, so the length is fuel enough. *)
Fixpoint pieces_loop (fuel : nat) (sep : ascii) (rest : text) : list text :=
  match fuel, rest with
  | O, _ | _, [] => []
  | S fuel, _ =>
      match find_char sep rest with
      | None => [rest]
      | Some n => take n rest :: pieces_loop fuel sep (drop (S n) rest)
      end
  end.
Definition pieces (sep : ascii) (l : text) : list text := pieces_loop (length l) sep l.

(** The key of a pair, and its value when it has one. *)
Definition key_of_pair (pair : text) : text :=
  match find_char "=" pair with Some eq => take eq pair | None => pair end.
Definition value_of_pair (pair : text) : option text :=
  match find_char "=" pair with Some eq => Some (drop (S eq) pair) | None => None end.

(** * Queries *)

(** [emplace] keeps the first of equal keys. *)
Definition emplace_pair (m : gmap text text) (pair : text) : gmap text text :=
  match value_of_pair pair with
  | None => m
  | Some v => match m !! key_of_pair pair with Some _ => m | None => <[key_of_pair pair := v]> m end
  end.
Definition parse_query (query : text) : gmap text text := foldl emplace_pair ∅ (pieces "&" query).

Definition kBlockingMsnParam : text := str "_HLS_msn".
Definition kBlockingPartParam : text := str "_HLS_part".
Definition kKeyResourcePrefix : text := str "key-".
Definition kKeyResourceSuffix : text := str ".bin".
Definition kPlaybackSessionParam : text := str "viewer_session".
Definition kPlaybackStreamParam : text := str "viewer_stream".
Definition kSharedCacheParam : text := str "viewer_cache".

Definition between (lo hi : Z) (c : ascii) : bool := (lo <=? char_code c) && (char_code c <=? hi).
Definition is_hex_digit (c : ascii) : bool := between 48 57 c || between 97 102 c.
Definition is_playback_session (value : text) : bool := (zlen value =? 32) && forallb is_hex_digit value.

Definition unreserved (c : ascii) : bool :=
  between 97 122 c || between 65 90 c || between 48 57 c || Ascii.eqb c "-" || Ascii.eqb c "_"
  || Ascii.eqb c "." || Ascii.eqb c "~".
Definition hex_digit (n : Z) : ascii := nth (Z.to_nat n) (str "0123456789ABCDEF") "0"%char.
Definition encode_char (c : ascii) : text :=
  if unreserved c then [c]
  else ["%"%char; hex_digit (Z.shiftr (char_code c) 4); hex_digit (Z.land (char_code c) 15)].
Definition percent_encode (value : text) : text := concat (map encode_char value).

(** [out], and [pair] behind an ampersand unless it comes first. *)
Definition append_pair (out pair : text) : text :=
  match out with [] => pair | _ => out ++ "&"%char :: pair end.
Definition keep_pairs (keep : text -> bool) (query : text) : text :=
  foldl append_pair [] (filter (fun pair => keep pair) (pieces "&" query)).

Definition is_empty (l : text) : bool := match l with [] => true | _ => false end.
Definition query_without_session_params (query : text) : text :=
  keep_pairs (fun pair =>
    let key := key_of_pair pair in
    negb (is_empty pair) && bool_decide (key <> kPlaybackSessionParam)
    && bool_decide (key <> kPlaybackStreamParam) && bool_decide (key <> kSharedCacheParam)) query.
Definition query_without_blocking_params (query : text) : text :=
  keep_pairs (fun pair =>
    let key := key_of_pair pair in
    negb (is_empty pair) && bool_decide (key <> kBlockingMsnParam) && bool_decide (key <> kBlockingPartParam)) query.

(** [std::from_chars] of a 64-bit unsigned number that is the whole text. *)
Definition from_chars_u64 (l : text) : option Z :=
  match l, scan_digits 0 l with
  | _ :: _, (v, []) => if v <? 2 ^ 64 then Some v else None
  | _, _ => None
  end.
Definition parse_unsigned (l : text) : option Z :=
  if 20 <? zlen l then None else from_chars_u64 l.
(** Of a signed one that the text begins with. *)
Definition from_chars_i64 (l : text) : option Z :=
  let '(negative, digits) := match l with "-"%char :: rest => (true, rest) | _ => (false, l) end in
  let '(v, rest) := scan_digits 0 digits in
  if (length rest =? length digits)%nat then None
  else if negative then (if v <=? 2 ^ 63 then Some (- v) else None)
  else (if v <? 2 ^ 63 then Some v else None).

Definition playback_session_from_query (query : text) : text :=
  match parse_query query !! kPlaybackSessionParam with
  | Some session => if is_playback_session session then session else []
  | None => []
  end.

Fixpoint cookie_among (pairs : list text) (name : text) : text :=
  match pairs with
  | [] => []
  | p :: rest =>
      let p := drop_spaces p in
      match value_of_pair p with
      | Some v => if bool_decide (key_of_pair p = name) then v else cookie_among rest name
      | None => cookie_among rest name
      end
  end.
Definition cookie_value (request : HttpRequest) (name : text) : text :=
  match request_headers request !! str "cookie" with
  | None => []
  | Some header => cookie_among (pieces ";" header) name
  end.

(** * Playlists, paths and ranges *)

(** A line that is neither empty nor a tag is a URI. *)
Definition decorate_line (suffix line : text) : text :=
  match line with
  | [] => []
  | c :: _ => if Ascii.eqb c "#" then line else line ++ suffix
  end.
Definition append_query_to_playlist_uris (body query : text) : text :=
  match query with
  | [] => body
  | _ => unlines (map (decorate_line ("?"%char :: query)) (pieces newline body))
  end.

Definition bad_part (part : text) : bool :=
  bool_decide (part = str ".") || bool_decide (part = str "..") || existsb (Ascii.eqb "\") part.
Definition split_path (path : text) : option (list text) :=
  let parts := filter (fun part => negb (is_empty part)) (pieces "/" path) in
  if existsb bad_part parts then None else Some parts.

Definition ends_with (value suffix : text) : bool :=
  bool_decide (suffix = drop (length value - length suffix) value).

Definition plain (status : Z) (b : text) : HttpResponse :=
  mkHttpResponse status (str "text/plain") b [] 0 0 ∅ None.

(** "bytes=first-last", "bytes=first-" or "bytes=-count" of a resource of [size] bytes. *)
Definition parse_range (header : text) (size : Z) : option (Z * Z) :=
  if negb (starts_with (str "bytes=") header) then None
  else
    let spec := drop 6 header in
    match find_char "," spec, find_char "-" spec with
    | None, Some dash =>
        let first := take dash spec in
        let last := drop (S dash) spec in
        match first with
        | [] =>
            match from_chars_u64 last with
            | Some suffix =>
                if suffix =? 0 then None
                else Some (if size <=? suffix then 0 else size - suffix, u64 (size - 1))
            | None => None
            end
        | _ =>
            match from_chars_u64 first with
            | None => None
            | Some start =>
                match (match last with [] => Some (u64 (size - 1)) | _ => from_chars_u64 last end) with
                | None => None
                | Some e =>
                    let e := if size <=? e then u64 (size - 1) else e in
                    if (start <=? e) && (start <? size) then Some (start, e) else None
                end
            end
        end
    | _, _ => None
    end.

Definition rendition_stream_from_uri (uri : text) : text :=
  let prefix := str "../" in
  let suffix := str "/index.m3u8" in
  if zlen uri <=? zlen prefix + zlen suffix then []
  else if negb (starts_with prefix uri) then []
  else if negb (ends_with uri suffix) then []
  else take (length uri - length prefix - length suffix) (drop (length prefix) uri).

(** * Tokens *)

Section Tokens.
(** [core::hmac_sha256_hex], which calls OpenSSL: the secret and the message. *)
Context (hmac_sha256_hex : text -> text -> text).

Definition signing_input (application name : text) (expires_at : Z) : text :=
  application ++ ":"%char :: name ++ ":"%char :: int_to_text expires_at.
Definition sign_token (secret application name : text) (expires_at : Z) : text :=
  hmac_sha256_hex secret (signing_input application name expires_at).

(** [CRYPTO_memcmp] of equal lengths. *)
Definition constant_time_equals (a b : text) : bool := bool_decide (a = b).

Definition verify_token (secret application name token : text) (expires_at now : Z) : Res unit :=
  let expected := sign_token secret application name expires_at in
  if negb (constant_time_equals expected token) then
    Err (mkError ErrorCode.Unauthorized ErrorCategory.Authentication "invalid token signature")
  else if expires_at <? now then
    Err (mkError ErrorCode.ExpiredToken ErrorCategory.Authentication "token expired")
  else Ok tt.
End Tokens.

(** * What the pieces are *)

Lemma pieces_fuel sep f1 : forall f2 l, (length l <= f1)%nat -> (length l <= f2)%nat -> pieces_loop f1 sep l = pieces_loop f2 sep l.
Proof.
  induction f1 as [|f1 IH]; intros f2 l H1 H2; [by destruct l, f2; cbn in *; try lia|].
  destruct f2 as [|f2]; [by destruct l; cbn in *; try lia|]. destruct l as [|c l]; [done|]. cbn [pieces_loop].
  destruct (find_char sep (c :: l)) as [n|]; [|done]. f_equal. apply IH; rewrite length_drop; cbn [length] in *; lia.
Qed.
Lemma pieces_app sep a b : sep ∉ a -> pieces sep (a ++ sep :: b) = a :: pieces sep b.
Proof.
  intros Ha. unfold pieces. rewrite length_app. cbn [length]. rewrite Nat.add_succ_r. cbn [pieces_loop].
  destruct (a ++ sep :: b) as [|c l] eqn:E; [by destruct a|]. rewrite <- E, find_char_app by done.
  rewrite take_app_length. f_equal. rewrite cons_middle, app_assoc, drop_app_length' by (rewrite length_app; cbn; lia).
  apply pieces_fuel; lia.
Qed.
Lemma pieces_last sep a : a <> [] -> sep ∉ a -> pieces sep a = [a].
Proof.
  intros Hn Ha. unfold pieces. destruct a as [|c a]; [done|]. cbn [pieces_loop length].
  by rewrite (proj2 (find_char_None _ _) Ha).
Qed.
Lemma pieces_free sep l : Forall (fun p => sep ∉ p) (pieces sep l).
Proof.
  unfold pieces. generalize (length l) as f. intros f. revert l. induction f as [|f IH]; intros l; [by destruct l|].
  destruct l as [|c l]; [constructor|]. cbn [pieces_loop]. destruct (find_char sep (c :: l)) as [n|] eqn:E.
  - constructor; [|apply IH]. by apply find_char_Some in E as [_ E].
  - constructor; [|constructor]. by apply find_char_None.
Qed.

(** Pairs put together are cut apart again. *)
Definition join_pairs (ps : list text) : text := foldl append_pair [] ps.
Definition a_pair (p : text) : Prop := p <> [] /\ "&"%char ∉ p.

Lemma append_pairs out ps : out <> [] -> Forall a_pair ps ->
  foldl append_pair out ps = out ++ concat (map (cons "&"%char) ps).
Proof.
  intros Ho H. revert out Ho. induction H as [|p ps [Hp _] _ IH]; intros out Ho; cbn [foldl map concat]; [by rewrite app_nil_r|].
  rewrite IH; [|by destruct out]. destruct out as [|c out]; [done|]. cbn [append_pair]. by rewrite <- app_assoc.
Qed.
Lemma pieces_pairs p ps : a_pair p -> Forall a_pair ps -> pieces "&" (p ++ concat (map (cons "&"%char) ps)) = p :: ps.
Proof.
  intros Hp H. revert p Hp. induction H as [|q ps Hq _ IH]; intros p [Hp Hn]; cbn [map concat].
  - rewrite app_nil_r. by apply pieces_last.
  - cbn [app]. rewrite pieces_app by done. f_equal. by apply IH.
Qed.
Lemma pieces_join ps : Forall a_pair ps -> pieces "&" (join_pairs ps) = ps.
Proof.
  intros H. destruct H as [|p ps Hp H]; [done|]. unfold join_pairs. cbn [foldl append_pair].
  rewrite append_pairs; [by apply pieces_pairs|by destruct Hp|done].
Qed.
Lemma join_app ps qs : join_pairs (ps ++ qs) = foldl append_pair (join_pairs ps) qs.
Proof. apply foldl_app. Qed.
Lemma kept_pairs keep query : (forall p, keep p = true -> p <> []) ->
  Forall a_pair (filter (fun p => keep p) (pieces "&" query)).
Proof.
  intros Hk. rewrite list.Forall_forall. intros p [Hp Hin]%list_elem_of_filter. split; [apply Hk; by destruct (keep p)|].
  pose proof (pieces_free "&" query) as Hf. rewrite list.Forall_forall in Hf. by apply Hf.
Qed.

Lemma query_other ps k : Forall (fun p => key_of_pair p <> k) ps -> forall m, foldl emplace_pair m ps !! k = m !! k.
Proof.
  induction 1 as [|p ps Hp _ IH]; intros m; [done|]. cbn [foldl]. rewrite IH. unfold emplace_pair.
  destruct (value_of_pair p); [|done]. destruct (m !! key_of_pair p); [done|]. by rewrite lookup_insert_ne.
Qed.
(** The first pair with a key is the one that counts. *)
Lemma query_first ps k v qs : Forall (fun p => key_of_pair p <> k) ps -> "="%char ∉ k ->
  forall m, m !! k = None -> foldl emplace_pair m (ps ++ (k ++ "="%char :: v) :: qs) !! k = Some v.
Proof.
  intros Hp Hk m Hm. rewrite foldl_app. cbn [foldl]. set (m1 := foldl emplace_pair m ps).
  assert (Hm1 : m1 !! k = None) by by unfold m1; rewrite query_other.
  assert (He : emplace_pair m1 (k ++ "="%char :: v) !! k = Some v).
  { unfold emplace_pair, value_of_pair, key_of_pair. rewrite find_char_app, take_app_length by done. rewrite Hm1.
    rewrite lookup_insert, decide_True by done. f_equal. rewrite cons_middle, app_assoc. apply drop_app_length'. rewrite length_app. cbn. lia. }
  generalize (emplace_pair m1 (k ++ "="%char :: v)), He. clear. induction qs as [|q qs IH]; intros m Hm; [done|]. cbn [foldl]. apply IH.
  unfold emplace_pair. destruct (value_of_pair q); [|done]. destruct (m !! key_of_pair q) eqn:E; [done|].
  rewrite lookup_insert_ne; [done|]. intros H. rewrite H in E. congruence.
Qed.

(** * Ranges *)

Lemma from_chars_bounds l v : from_chars_u64 l = Some v -> 0 <= v < 2 ^ 64.
Proof.
  unfold from_chars_u64. destruct l as [|c l]; [done|]. pose proof (scan_digits_nonneg 0 (c :: l)) as Hn.
  destruct (scan_digits 0 (c :: l)) as [w [|]]; [|done]. destruct (Z.ltb_spec w (2 ^ 64)); [|done]. intros [= <-]. cbn in Hn. lia.
Qed.
Lemma from_chars_dec z : 0 <= z < 2 ^ 64 -> from_chars_u64 (dec z) = Some z.
Proof.
  intros Hz. destruct (scan_dec z ltac:(lia)) as [H1 H2]. unfold from_chars_u64. destruct (dec z) as [|c l]; [done|]. rewrite H1.
  by rewrite (proj2 (Z.ltb_lt _ _)) by lia.
Qed.

Lemma range_within header size first last : 0 < size < 2 ^ 64 -> parse_range header size = Some (first, last) ->
  0 <= first <= last /\ last < size.
Proof.
  intros Hs. assert (Hu : u64 (size - 1) = size - 1) by (unfold u64; rewrite Z.mod_small; lia).
  unfold parse_range. rewrite Hu. destruct (negb _); [done|]. destruct (find_char "," _); [done|]. destruct (find_char "-" _) as [n|]; [|done].
  cbv zeta. destruct (take n (drop 6 header)) as [|c l].
  - destruct (from_chars_u64 _) as [k|] eqn:Ek; [|done]. apply from_chars_bounds in Ek. destruct (Z.eqb_spec k 0); [done|].
    intros [= <- <-]. destruct (Z.leb_spec size k); lia.
  - destruct (from_chars_u64 (c :: l)) as [a|] eqn:Ea; [|done]. apply from_chars_bounds in Ea.
    destruct (match drop (S n) (drop 6 header) with [] => _ | _ => _ end) as [e|] eqn:Ee; [|done].
    destruct (Z.leb_spec size e); destruct (Z.leb_spec a (size - 1)), (Z.ltb_spec a size); cbn [andb];
      try (intros [= <- <-]; lia); try done; destruct (Z.leb_spec a e); try done; intros [= <- <-]; lia.
Qed.
