(* ===== verification/ViewerSessions.v ===== *)
(** control/viewer_session_tracker.cpp: the sessions that are watching a stream, in shards by
    the hash of the session. *)

From S2P Require Import Prelude Text.

Definition kShardCount : Z := 64.

(** A shard that has never been written is empty.  Times and the window
    are in one unit. *)
Record ViewerSessionTracker := mkTracker {
  window_ : Z;
  max_per_shard_ : Z;
  shards_ : gmap Z (gmap text Z)
}.
Definition make_tracker (window max_sessions : Z) : ViewerSessionTracker :=
  mkTracker window (if 0 <? max_sessions / kShardCount then max_sessions / kShardCount else 1) ∅.

Definition shard (t : ViewerSessionTracker) (i : Z) : gmap text Z := default ∅ (shards_ t !! i).
Definition put_shard (i : Z) (sessions : gmap text Z) (t : ViewerSessionTracker) : ViewerSessionTracker :=
  mkTracker (window_ t) (max_per_shard_ t) (<[i := sessions]> (shards_ t)).

Section Tracker.
(** [std::hash<std::string_view>]. *)
Context (hash : text -> Z).

Definition shard_for (session : text) : Z := hash session mod kShardCount.

Definition prune_locked (t : ViewerSessionTracker) (sessions : gmap text Z) (now : Z) : gmap text Z :=
  filter (fun seen => now - window_ t <= seen.2) sessions.

Definition record (session : text) (now : Z) (t : ViewerSessionTracker) : ViewerSessionTracker :=
  match session with
  | [] => t
  | _ =>
      let i := shard_for session in
      let sessions := <[session := now]> (shard t i) in
      let sessions := if max_per_shard_ t <? Z.of_nat (size sessions) then prune_locked t sessions now else sessions in
      put_shard i sessions t
  end.

(** The loops over the shards. *)
Definition prune_shard (now : Z) (t : ViewerSessionTracker) (i : Z) : ViewerSessionTracker :=
  put_shard i (prune_locked t (shard t i) now) t.
Definition shard_numbers : list Z := seqZ 0 kShardCount.

Definition active_count (now : Z) (t : ViewerSessionTracker) : Z * ViewerSessionTracker :=
  foldl (fun '(total, t) i =>
    let t := prune_shard now t i in (total + Z.of_nat (size (shard t i)), t)) (0, t) shard_numbers.

Definition collect_active (out : gset text) (now : Z) (t : ViewerSessionTracker) : gset text * ViewerSessionTracker :=
  foldl (fun '(out, t) i =>
    let t := prune_shard now t i in (out ∪ dom (shard t i), t)) (out, t) shard_numbers.

(** * What is counted *)

(** The sessions of a history and when each was seen last: the specification. *)
Definition seen (m : gmap text Z) (x : text * Z) : gmap text Z :=
  match x.1 with [] => m | _ => <[x.1 := x.2]> m end.
Definition last_seen (history : list (text * Z)) : gmap text Z := foldl seen ∅ history.
Definition watching (t : ViewerSessionTracker) (history : list (text * Z)) (now : Z) : gmap text Z :=
  prune_locked t (last_seen history) now.

(** [seen_at], if that is within the window. *)
Definition alive (t : ViewerSessionTracker) (now seen_at : Z) : option Z :=
  if decide (now - window_ t <= seen_at) then Some seen_at else None.

(** What is in the shards, for what can still be asked. *)
Definition tracks (t : ViewerSessionTracker) (history : list (text * Z)) (until : Z) : Prop :=
  forall i s now, until <= now ->
    (shard t i !! s) ≫= alive t now
    = if decide (shard_for s = i) then last_seen history !! s ≫= alive t now else None.

Lemma pruned_lookup t m now s : prune_locked t m now !! s = m !! s ≫= alive t now.
Proof.
  unfold prune_locked. rewrite map_lookup_filter. destruct (m !! s) as [x|]; [|done]. cbn. unfold alive.
  by destruct (decide _); [rewrite option_guard_True|rewrite option_guard_False].
Qed.
Lemma alive_again t now later x : now <= later -> (alive t now x ≫= alive t later) = alive t later x.
Proof.
  intros Hn. unfold alive. destruct (decide (now - window_ t <= x)); [done|]. cbn. by rewrite decide_False by lia.
Qed.
Lemma shard_put i j m t : shard (put_shard i m t) j = if decide (j = i) then m else shard t j.
Proof.
  unfold shard, put_shard. cbn. destruct (decide (j = i)) as [->|Hne]; [by rewrite lookup_insert, decide_True|by rewrite lookup_insert_ne].
Qed.

Lemma prune_tracks t h until n i : n <= until -> tracks t h until -> tracks (prune_shard n t i) h until.
Proof.
  intros Hn Ht j s later Hl. change (alive (prune_shard n t i)) with (alive t). rewrite <- (Ht j s later) by done.
  unfold prune_shard. rewrite shard_put. destruct (decide (j = i)) as [->|]; [|done].
  rewrite pruned_lookup. destruct (shard t i !! s) as [x|]; [|done]. cbn. apply alive_again. lia.
Qed.
Lemma prune_all t h until n js : n <= until -> tracks t h until ->
  tracks (foldl (prune_shard n) t js) h until /\ window_ (foldl (prune_shard n) t js) = window_ t.
Proof.
  intros Hn. revert t. induction js as [|i js IH]; intros t Ht; [done|]. cbn [foldl].
  destruct (IH (prune_shard n t i)) as [H1 H2]; [by apply prune_tracks|]. done.
Qed.
Lemma record_tracks t h until n s : n <= until -> tracks t h until -> tracks (record s n t) (h ++ [(s, n)]) until.
Proof.
  intros Hn Ht i s' later Hl. assert (Hseen : last_seen (h ++ [(s, n)]) = seen (last_seen h) (s, n)) by (unfold last_seen; by rewrite foldl_app).
  rewrite Hseen. unfold record, seen. cbn [fst snd]. destruct s as [|c s0] eqn:Es; [by apply Ht|]. rewrite <- Es in *. clear Es c s0.
  set (m := <[s := n]> (shard t (shard_for s))). set (m' := if _ <? _ then _ else m).
  change (alive (put_shard (shard_for s) m' t)) with (alive t).
  assert (Hm : forall x, (m' !! x) ≫= alive t later = (m !! x) ≫= alive t later).
  { intros x. unfold m'. destruct (_ <? _); [|done]. rewrite pruned_lookup. destruct (m !! x); [|done]. cbn. apply alive_again. lia. }
  rewrite shard_put. destruct (decide (i = shard_for s)) as [->|Hne].
  - rewrite Hm. unfold m. destruct (decide (s' = s)) as [->|Hs].
    + by rewrite !lookup_insert, !decide_True.
    + rewrite !lookup_insert_ne by done. by apply Ht.
  - destruct (decide (s' = s)) as [->|Hs]; [|rewrite lookup_insert_ne by done; by apply Ht].
    rewrite decide_False by done. rewrite (Ht i s later) by done. by rewrite decide_False.
Qed.

Lemma hash_range s : shard_for s ∈ shard_numbers.
Proof. apply elem_of_seqZ. unfold shard_for, kShardCount. pose proof (Z.mod_pos_bound (hash s) 64). lia. Qed.

(** The shards of [js] hold the part of [m] that hashes there. *)
Definition hashed_to (js : list Z) (m : gmap text Z) : gmap text Z := filter (fun x => shard_for x.1 ∈ js) m.
Lemma hashed_split i js m : i ∉ js ->
  Z.of_nat (size (hashed_to (i :: js) m)) = Z.of_nat (size (hashed_to [i] m)) + Z.of_nat (size (hashed_to js m)).
Proof.
  intros Hi. assert (E : hashed_to (i :: js) m = hashed_to [i] m ∪ hashed_to js m).
  { apply map_eq. intros s. unfold hashed_to. rewrite lookup_union, !map_lookup_filter. destruct (m !! s) as [x|]; [|done]. cbn.
    destruct (decide (shard_for s = i)) as [->|Hne].
    - rewrite !option_guard_True by (apply list_elem_of_here). by destruct (guard _).
    - destruct (decide (shard_for s ∈ js)) as [Hin|Hn].
      + rewrite (option_guard_False (shard_for s ∈ [i])) by by rewrite list_elem_of_singleton.
        rewrite !option_guard_True by (try done; by apply list_elem_of_further). done.
      + rewrite !option_guard_False by (rewrite ?elem_of_cons, ?list_elem_of_singleton; set_solver). done. }
  rewrite E, map_size_disj_union; [lia|]. apply map_disjoint_spec. intros s x y. unfold hashed_to.
  rewrite !map_lookup_filter_Some. cbn. rewrite list_elem_of_singleton. intros [_ H1] [_ H2]. by rewrite H1 in H2.
Qed.

Lemma no_shards m : hashed_to [] m = ∅.
Proof.
  apply map_eq. intros s. unfold hashed_to. rewrite map_lookup_filter. destruct (m !! s); [|done]. cbn.
  by rewrite option_guard_False by apply not_elem_of_nil.
Qed.
Lemma pruned_shard t h now i : tracks t h now ->
  shard (prune_shard now t i) i = hashed_to [i] (watching t h now).
Proof.
  intros Ht. unfold prune_shard. rewrite shard_put, decide_True by done. apply map_eq. intros s. rewrite pruned_lookup, Ht by done.
  unfold hashed_to. rewrite map_lookup_filter. unfold watching. rewrite pruned_lookup.
  destruct (last_seen h !! s ≫= alive t now) as [x|]; [|by destruct (decide _)]. cbn. destruct (decide (shard_for s = i)) as [->|Hne].
  - by rewrite option_guard_True by apply list_elem_of_here.
  - by rewrite option_guard_False by by rewrite list_elem_of_singleton.
Qed.

Lemma count_loop h now js : NoDup js -> forall total t, tracks t h now ->
  (foldl (fun '(total, t) i =>
    let t := prune_shard now t i in (total + Z.of_nat (size (shard t i)), t)) (total, t) js).1
  = total + Z.of_nat (size (hashed_to js (watching t h now))).
Proof.
  induction 1 as [|i js Hi _ IH]; intros total t Ht; cbn [foldl].
  - by rewrite no_shards, map_size_empty, Z.add_0_r.
  - rewrite hashed_split by done. rewrite (pruned_shard t h now i Ht).
    rewrite (IH _ (prune_shard now t i)) by (by apply prune_tracks).
    change (watching (prune_shard now t i) h now) with (watching t h now). lia.
Qed.
Lemma hashed_dom js m s : s ∈ dom (hashed_to js m) <-> s ∈ dom m /\ shard_for s ∈ js.
Proof.
  rewrite !elem_of_dom. unfold hashed_to. split.
  - intros [x [Hx Hs]%map_lookup_filter_Some]. split; [by exists x|exact Hs].
  - intros [ [x Hx] Hs]. exists x. by apply map_lookup_filter_Some.
Qed.
Lemma collect_loop h now js : forall out t, tracks t h now ->
  (foldl (fun '(out, t) i =>
    let t := prune_shard now t i in (out ∪ dom (shard t i), t)) (out, t) js).1
  = out ∪ dom (hashed_to js (watching t h now)).
Proof.
  induction js as [|i js IH]; intros out t Ht; cbn [foldl].
  - rewrite no_shards, dom_empty_L. set_solver.
  - rewrite (pruned_shard t h now i Ht). rewrite (IH _ (prune_shard now t i)) by (by apply prune_tracks).
    change (watching (prune_shard now t i) h now) with (watching t h now).
    rewrite <- (assoc_L (∪)). f_equal. apply set_eq. intros s.
    rewrite elem_of_union, !hashed_dom, !elem_of_cons, elem_of_nil. naive_solver.
Qed.
(** Both loops prune every shard. *)
Lemma count_prunes now js : forall total t,
  (foldl (fun '(total, t) i =>
    let t := prune_shard now t i in (total + Z.of_nat (size (shard t i)), t)) (total, t) js).2 = foldl (prune_shard now) t js.
Proof. induction js as [|i js IH]; intros total t; [done|]. cbn [foldl]. apply IH. Qed.
Lemma collect_prunes now js : forall out t,
  (foldl (fun '(out, t) i =>
    let t := prune_shard now t i in (out ∪ dom (shard t i), t)) (out, t) js).2 = foldl (prune_shard now) t js.
Proof. induction js as [|i js IH]; intros out t; [done|]. cbn [foldl]. apply IH. Qed.
Lemma all_shards m : hashed_to shard_numbers m = m.
Proof. apply map_filter_id. intros s x _. apply hash_range. Qed.

(** * Histories *)

(** What is asked of a tracker, and when.  Threads read the clock before they take the lock
    of a shard, so the times need not be in the order of the operations. *)
Inductive TrackerOp := Record (session : text) (at_time : Z) | Count (at_time : Z) | Collect (out : gset text) (at_time : Z).
Definition time_of (op : TrackerOp) : Z := match op with Record _ t | Count t | Collect _ t => t end.
Definition tracker_step (t : ViewerSessionTracker) (op : TrackerOp) : ViewerSessionTracker :=
  match op with
  | Record s now => record s now t
  | Count now => (active_count now t).2
  | Collect out now => (collect_active out now t).2
  end.
Definition tracker_run (window max_sessions : Z) (ops : list TrackerOp) : ViewerSessionTracker :=
  foldl tracker_step (make_tracker window max_sessions) ops.
Definition records (ops : list TrackerOp) : list (text * Z) :=
  omap (fun op => match op with Record s t => Some (s, t) | _ => None end) ops.

Lemma run_tracks ops : forall t h now, tracks t h now -> Forall (fun op => time_of op <= now) ops ->
  tracks (foldl tracker_step t ops) (h ++ records ops) now /\ window_ (foldl tracker_step t ops) = window_ t.
Proof.
  induction ops as [|op ops IH]; intros t h now Ht Ho; cbn [foldl].
  - unfold records. cbn [omap list_omap]. by rewrite app_nil_r.
  - inversion Ho as [|? ? Hn Hall]; subst. set (t1 := tracker_step t op).
    assert (H1 : tracks t1 (h ++ records [op]) now /\ window_ t1 = window_ t).
    { unfold t1. destruct op as [s n|n|out n]; cbn [tracker_step time_of records omap list_omap] in *.
      - split; [by apply record_tracks|]. unfold record. by destruct s.
      - rewrite app_nil_r. unfold active_count. rewrite count_prunes. by apply prune_all.
      - rewrite app_nil_r. unfold collect_active. rewrite collect_prunes. by apply prune_all. }
    destruct H1 as [H1 Hw]. destruct (IH t1 _ _ H1 Hall) as [H2 H3]. split; [|congruence].
    assert (records (op :: ops) = records [op] ++ records ops) as -> by by destruct op. by rewrite app_assoc.
Qed.

(** C33. The viewers of a stream are counted exactly: whatever sessions have been recorded and
    counted in whatever shards, at whatever times before [now] and in whatever order of those
    times, the count at [now] is the number of sessions whose last record is within the
    window, each once, and the sessions collected from several streams are those of each,
    together.  The cap on sessions limits neither. *)
Theorem viewers_counted window max_sessions ops now out :
  Forall (fun op => time_of op <= now) ops ->
  let t := tracker_run window max_sessions ops in
  (active_count now t).1 = Z.of_nat (size (watching t (records ops) now))
  /\ (collect_active out now t).1 = out ∪ dom (watching t (records ops) now).
Proof.
  intros Ho t. destruct (run_tracks ops (make_tracker window max_sessions) [] now) as [Ht _]; [|done|].
  { intros i s later _. unfold shard, make_tracker. cbn. rewrite lookup_empty. cbn. rewrite lookup_empty. by destruct (decide _). }
  split.
  - unfold active_count. rewrite (count_loop (records ops)) by (done || apply NoDup_seqZ). by rewrite all_shards.
  - unfold collect_active. rewrite (collect_loop (records ops)) by done. by rewrite all_shards.
Qed.
End Tracker.

(** A player that changes rendition, one that leaves, one that comes back; a count that is
    late for the lock. *)
Definition by_length (s : text) : Z := zlen s.
Definition watchers : list TrackerOp :=
  [Record (str "aa") 0; Record (str "b") 1; Record (str "cc") 2; Count 3; Record (str "b") 15; Count 14; Record [] 16; Record (str "aa") 24].
Lemma viewers_counted_witness :
  (active_count 25 (tracker_run by_length 20 64 watchers)).1 = 2
  /\ Z.of_nat (size (watching (tracker_run by_length 20 64 watchers) (records watchers) 25)) = 2.
Proof.
  destruct (viewers_counted by_length 20 64 watchers 25 ∅) as [H _]; [unfold watchers; repeat constructor; cbn; lia|].
  assert (E : Z.of_nat (size (watching (tracker_run by_length 20 64 watchers) (records watchers) 25)) = 2) by (vm_compute; reflexivity).
  split; [|exact E]. rewrite <- E. exact H.
Defined.

(** The cap on sessions is a cap on those that have expired: those within the window stay,
    however many. *)
Lemma live_sessions_exceed_the_cap :
  let t := tracker_run by_length 20 64 [Record (str "aa") 0; Record (str "bb") 1; Record (str "cc") 2] in
  max_per_shard_ t = 1 /\ Z.of_nat (size (shard t 2)) = 3.
Proof. vm_compute. done. Qed.
