(* ===== verification/HlsHttpHandler.v ===== *)
(** control/hls_http_handler.cpp: playlists, segments and keys over HTTP, with requests parked
    on the live edge.

    Stores, encryptors, entries and deferred responses are shared by pointer: each is a
    number in a heap of the world. *)

From S2P Require Import Prelude Text HlsSegment HlsPlaylist HlsKeys HlsStore HttpMessage AsyncHttp HlsHttp ViewerSessions.
From Stdlib Require Import Ascii.

Definition kContentTypeM3u8 : text := str "application/vnd.apple.mpegurl".
Definition kContentTypeMpegTs : text := str "video/mp2t".
Definition kContentTypeKey : text := str "application/octet-stream".

Record HlsHttpOptions := mkHlsHttpOptions {
  route_prefix : text;
  require_playback_token : bool;
  token_signing_secret : text;
  edge_fetch_secret : text;
  edge_fetch_header : text;
  enable_playback_sessions : bool;
  enable_shared_playlist_cache : bool;
  track_delivery_stats : bool;
  propagate_query_to_playlist_uris : bool;
  playlist_cache_control : text;
  segment_cache_control : text;
  master_cache_control : text;
  enable_range_requests : bool;
  cors_allow_origin : text;
  viewer_cookie_name : text;
  viewer_cookie_max_age : Z;
  viewer_cookie_secure : bool;
  enable_fast_join : bool;
  enable_low_latency : bool;
  blocking_reload_timeout : Z;
  max_blocked_requests_per_stream : Z;
  enable_iframe_playlists : bool;
  key_cache_control : text
}.
Definition default_hls_options : HlsHttpOptions :=
  mkHlsHttpOptions (str "/hls") false [] [] (str "x-edge-token") false false true true (str "no-cache, max-age=0")
    (str "public, max-age=31536000, immutable") (str "public, max-age=60") true (str "*") (str "rtmp_viewer_id")
    (24 * 60 * 60) false false false 9000 20000 true (str "private, no-store").

(** The constructor: a playlist that is shared carries no query. *)
Definition make_options (o : HlsHttpOptions) : HlsHttpOptions :=
  if enable_shared_playlist_cache o then
    mkHlsHttpOptions (route_prefix o) (require_playback_token o) (token_signing_secret o) (edge_fetch_secret o)
      (edge_fetch_header o) (enable_playback_sessions o) true (track_delivery_stats o) false
      (playlist_cache_control o) (segment_cache_control o) (master_cache_control o) (enable_range_requests o)
      (cors_allow_origin o) (viewer_cookie_name o) (viewer_cookie_max_age o) (viewer_cookie_secure o)
      (enable_fast_join o) (enable_low_latency o) (blocking_reload_timeout o) (max_blocked_requests_per_stream o)
      (enable_iframe_playlists o) (key_cache_control o)
  else o.

(** * The state *)

Record PlaylistWaiter := mkPlaylistWaiter {
  sequence : Z;
  waiter_part : Z;  (* [part_index] *)
  child_query : text;
  waiter_deferred : Z  (* [deferred] *)
}.

Record StreamEntry := mkStreamEntry {
  store : option Z;
  renditions : option (list Rendition);
  encryptor : option Z;
  bytes_total : Z;
  sessions : ViewerSessionTracker;
  waiters : list PlaylistWaiter
}.
Definition set_store (v : option Z) (e : StreamEntry) : StreamEntry :=
  mkStreamEntry v (renditions e) (encryptor e) (bytes_total e) (sessions e) (waiters e).
Definition set_renditions (v : option (list Rendition)) (e : StreamEntry) : StreamEntry :=
  mkStreamEntry (store e) v (encryptor e) (bytes_total e) (sessions e) (waiters e).
Definition set_encryptor (v : option Z) (e : StreamEntry) : StreamEntry :=
  mkStreamEntry (store e) (renditions e) v (bytes_total e) (sessions e) (waiters e).
Definition set_bytes_total (v : Z) (e : StreamEntry) : StreamEntry :=
  mkStreamEntry (store e) (renditions e) (encryptor e) v (sessions e) (waiters e).
Definition set_sessions (v : ViewerSessionTracker) (e : StreamEntry) : StreamEntry :=
  mkStreamEntry (store e) (renditions e) (encryptor e) (bytes_total e) v (waiters e).
Definition set_waiters (v : list PlaylistWaiter) (e : StreamEntry) : StreamEntry :=
  mkStreamEntry (store e) (renditions e) (encryptor e) (bytes_total e) (sessions e) v.
Definition kViewerWindow : Z := 20 * 1000000000.
Definition kMaxTrackedViewerSessions : Z := 500000.
Definition new_entry : StreamEntry :=
  mkStreamEntry None None None 0 (make_tracker kViewerWindow kMaxTrackedViewerSessions) [].

Record Stats := mkStats {
  playlist_requests : Z;
  segment_requests : Z;
  unauthorized : Z;
  not_found : Z;
  range_requests : Z;
  edge_unauthorized : Z
}.

Record World := mkWorld {
  streams_ : gmap text Z;         (* entries, by application and stream *)
  entries : gmap Z StreamEntry;
  stores : gmap Z SegmentStore;
  notifiers : gmap Z Z;           (* the entry the notifier of a store captures *)
  encryptors : gmap Z SegmentEncryptor;
  cells : gmap Z DeferredResponse;
  next_object : Z;
  handler_stats : Stats;
  completions : list (Completion * HttpResponse)  (* called, in order *)
}.
Definition set_streams (v : gmap text Z) (w : World) : World :=
  mkWorld v (entries w) (stores w) (notifiers w) (encryptors w) (cells w) (next_object w)
    (handler_stats w) (completions w).
Definition set_entries (v : gmap Z StreamEntry) (w : World) : World :=
  mkWorld (streams_ w) v (stores w) (notifiers w) (encryptors w) (cells w) (next_object w)
    (handler_stats w) (completions w).
Definition set_stores (v : gmap Z SegmentStore) (w : World) : World :=
  mkWorld (streams_ w) (entries w) v (notifiers w) (encryptors w) (cells w) (next_object w)
    (handler_stats w) (completions w).
Definition set_notifiers (v : gmap Z Z) (w : World) : World :=
  mkWorld (streams_ w) (entries w) (stores w) v (encryptors w) (cells w) (next_object w)
    (handler_stats w) (completions w).
Definition set_encryptors (v : gmap Z SegmentEncryptor) (w : World) : World :=
  mkWorld (streams_ w) (entries w) (stores w) (notifiers w) v (cells w) (next_object w)
    (handler_stats w) (completions w).
Definition set_cells (v : gmap Z DeferredResponse) (w : World) : World :=
  mkWorld (streams_ w) (entries w) (stores w) (notifiers w) (encryptors w) v (next_object w)
    (handler_stats w) (completions w).
Definition set_next_object (v : Z) (w : World) : World :=
  mkWorld (streams_ w) (entries w) (stores w) (notifiers w) (encryptors w) (cells w) v
    (handler_stats w) (completions w).
Definition set_handler_stats (v : Stats) (w : World) : World :=
  mkWorld (streams_ w) (entries w) (stores w) (notifiers w) (encryptors w) (cells w) (next_object w)
    v (completions w).
Definition set_completions (v : list (Completion * HttpResponse)) (w : World) : World :=
  mkWorld (streams_ w) (entries w) (stores w) (notifiers w) (encryptors w) (cells w) (next_object w)
    (handler_stats w) v.

Definition no_stats : Stats := mkStats 0 0 0 0 0 0.
Definition empty_world : World := mkWorld ∅ ∅ ∅ ∅ ∅ ∅ 0 no_stats [].

Definition on_stats (f : Stats -> Stats) (w : World) : World := set_handler_stats (f (handler_stats w)) w.
Definition count_playlist_request (t : Stats) : Stats :=
  mkStats (playlist_requests t + 1) (segment_requests t) (unauthorized t) (not_found t) (range_requests t) (edge_unauthorized t).
Definition count_segment_request (t : Stats) : Stats :=
  mkStats (playlist_requests t) (segment_requests t + 1) (unauthorized t) (not_found t) (range_requests t) (edge_unauthorized t).
Definition count_unauthorized (t : Stats) : Stats :=
  mkStats (playlist_requests t) (segment_requests t) (unauthorized t + 1) (not_found t) (range_requests t) (edge_unauthorized t).
Definition count_not_found (t : Stats) : Stats :=
  mkStats (playlist_requests t) (segment_requests t) (unauthorized t) (not_found t + 1) (range_requests t) (edge_unauthorized t).
Definition count_range_request (t : Stats) : Stats :=
  mkStats (playlist_requests t) (segment_requests t) (unauthorized t) (not_found t) (range_requests t + 1) (edge_unauthorized t).
Definition count_edge_unauthorized (t : Stats) : Stats :=
  mkStats (playlist_requests t) (segment_requests t) (unauthorized t) (not_found t) (range_requests t) (edge_unauthorized t + 1).

Definition put_entry (i : Z) (e : StreamEntry) (w : World) : World := set_entries (<[i := e]> (entries w)) w.
Definition put_store (p : Z) (s : SegmentStore) (w : World) : World := set_stores (<[p := s]> (stores w)) w.

(** What one call reads outside: the steady clock in nanoseconds (and the later readings of a
    store that fills a gap), the wall clock in seconds, and a session, from the factory of the
    options or from random bytes. *)
Record Outside := mkOutside {
  steady : Z;
  times : nat -> Z;
  unix_now : Z;
  new_session : text
}.

Definition stream_key (application stream : text) : text := application ++ "/"%char :: stream.
Definition string_of (t : text) : string := String.string_of_list_ascii t.
(** Bytes as characters. *)
Definition char_of (b : byte) : ascii := ascii_of_N (Byte.to_N b).
Definition chars (l : list byte) : text := map char_of l.

(** * The registry *)

Definition find_entry (w : World) (application stream : text) : option (Z * StreamEntry) :=
  match streams_ w !! stream_key application stream with
  | None => None
  | Some i => match entries w !! i with Some e => Some (i, e) | None => None end
  end.

Definition find_or_create_entry (application stream : text) (w : World) : World * Z :=
  match streams_ w !! stream_key application stream with
  | Some i => (w, i)
  | None =>
      let i := next_object w in
      (set_next_object (i + 1)
         (put_entry i new_entry (set_streams (<[stream_key application stream := i]> (streams_ w)) w)), i)
  end.

Definition on_entry (i : Z) (f : StreamEntry -> StreamEntry) (w : World) : World :=
  set_entries (alter f i (entries w)) w.
Definition on_store (p : Z) (f : SegmentStore -> SegmentStore) (w : World) : World :=
  set_stores (alter f p (stores w)) w.

Section Handler.
Context (options : HlsHttpOptions).
(** [core::hmac_sha256_hex] and [std::hash<std::string_view>]. *)
Context (hmac_sha256_hex : text -> text -> text) (hash : text -> Z).
(** [enabled_checker_] and [next_]: unset, or a function. *)
Context (enabled_checker_ : option (text -> text -> bool)) (next_ : option (HttpRequest -> HttpResponse)).

Definition register_stream (application stream : text) (p : option Z) (w : World) : World :=
  let '(w, i) := find_or_create_entry application stream w in
  let w := match p with
           | Some p =>
               if enable_low_latency options then
                 on_store p (fun s => set_update_notifier s true) (set_notifiers (<[p := i]> (notifiers w)) w)
               else w
           | None => w
           end in
  on_entry i (set_store p) w.

Definition set_stream_encryptor (application stream : text) (p : option Z) (w : World) : World :=
  let '(w, i) := find_or_create_entry application stream w in on_entry i (set_encryptor p) w.
Definition set_stream_renditions (application stream : text) (rs : list Rendition) (w : World) : World :=
  let '(w, i) := find_or_create_entry application stream w in on_entry i (set_renditions (Some rs)) w.

Definition find_stream (w : World) (application stream : text) : option Z :=
  match find_entry w application stream with Some (_, e) => store e | None => None end.

(** [deferred->resolve(response)]. *)
Definition resolve_cell (d : Z) (response : HttpResponse) (w : World) : World :=
  match cells w !! d with
  | None => w
  | Some cell =>
      let '(cell, call) := resolve response cell in
      let w := set_cells (<[d := cell]> (cells w)) w in
      match call with None => w | Some call => set_completions (completions w ++ [call]) w end
  end.

Definition with_header (name : string) (v : text) (r : HttpResponse) : HttpResponse :=
  mkHttpResponse (status r) (content_type r) (body r) (shared_body r) (shared_body_offset r) (shared_body_length r)
    (<[str name := v]> (response_headers r)) (deferred r).
Definition no_store (r : HttpResponse) : HttpResponse := with_header "Cache-Control" (str "no-store") r.

Definition answer_all (r : HttpResponse) (ws : list PlaylistWaiter) (w : World) : World :=
  foldl (fun w x => resolve_cell (waiter_deferred x) r w) w ws.

(** The store is detached before the parked requests are answered. *)
Definition detach_store (p : option Z) (w : World) : World :=
  match p with Some p => on_store p (fun s => set_update_notifier s false) w | None => w end.
Definition swap_waiters (i : Z) (w : World) : World * list PlaylistWaiter :=
  match entries w !! i with
  | Some e => (put_entry i (set_waiters [] e) w, waiters e)
  | None => (w, [])
  end.

Definition unregister_stream (application stream : text) (w : World) : World :=
  match streams_ w !! stream_key application stream with
  | None => w
  | Some i =>
      let w := set_streams (delete (stream_key application stream) (streams_ w)) w in
      let w := match entries w !! i with Some e => detach_store (store e) w | None => w end in
      let '(w, ws) := swap_waiters i w in
      answer_all (no_store (plain 404 (str "stream not found"))) ws w
  end.

Definition detach_stores (w : World) : World :=
  let ids := (map_to_list (streams_ w)).*2 in
  let w := foldl (fun w i => match entries w !! i with Some e => detach_store (store e) w | None => w end) w ids in
  foldl (fun w i =>
    let '(w, ws) := swap_waiters i w in
    answer_all (no_store (plain 503 (str "stream is shutting down"))) ws w) w ids.

(** * Statistics *)

Record LinkStats := mkLinkStats { link_bytes : Z; viewer_count : Z }.
Definition no_link_stats : LinkStats := mkLinkStats 0 0.

Definition record_delivery (i : Z) (bytes : Z) (session : text) (o : Outside) (w : World) : World :=
  on_entry i (fun e => set_bytes_total (u64 (bytes_total e + bytes))
                         (set_sessions (record hash session (steady o) (sessions e)) e)) w.

Definition link_stats (application stream : text) (o : Outside) (w : World) : LinkStats * World :=
  match find_entry w application stream with
  | None => (no_link_stats, w)
  | Some (i, e) =>
      let '(n, t) := active_count (steady o) (sessions e) in
      (mkLinkStats (bytes_total e) n, put_entry i (set_sessions t e) w)
  end.

Definition rendition_streams (e : StreamEntry) : list text :=
  filter (fun name => negb (is_empty name))
    (map (fun r => rendition_stream_from_uri (str (rendition_uri r))) (default [] (renditions e))).

Definition collect_entry (o : Outside) (acc : Z * gset text * World) (i : Z) : Z * gset text * World :=
  let '(bytes, viewers, w) := acc in
  match entries w !! i with
  | None => acc
  | Some e =>
      let '(viewers, t) := collect_active viewers (steady o) (sessions e) in
      (u64 (bytes + bytes_total e), viewers, put_entry i (set_sessions t e) w)
  end.
Definition aggregate_link_stats (application master_stream : text) (o : Outside) (w : World) : LinkStats * World :=
  match find_entry w application master_stream with
  | None => (no_link_stats, w)
  | Some (_, master) =>
      match rendition_streams master with
      | [] => link_stats application master_stream o w
      | names =>
          let ids := omap (fun name => streams_ w !! stream_key application name) names in
          let '(bytes, viewers, w) := foldl (collect_entry o) (0, ∅, w) ids in
          (mkLinkStats bytes (Z.of_nat (size viewers)), w)
      end
  end.

(** * Responses *)

Definition with_cors (r : HttpResponse) : HttpResponse :=
  match cors_allow_origin options with
  | [] => r
  | origin => with_header "Access-Control-Allow-Origin" origin r
  end.

Definition decorate (cache_control : text) (r : HttpResponse) : HttpResponse :=
  let r := with_header "Cache-Control" cache_control r in
  let r := match cors_allow_origin options with
           | [] => r
           | _ => with_header "Access-Control-Expose-Headers" (str "Content-Length,Content-Range") (with_cors r)
           end in
  if enable_range_requests options then with_header "Accept-Ranges" (str "bytes") r else r.

Definition m3u8 (b : text) : HttpResponse := mkHttpResponse 200 kContentTypeM3u8 b [] 0 0 ∅ None.
Definition decorated_body (b query : text) : text :=
  if propagate_query_to_playlist_uris options then append_query_to_playlist_uris b query else b.

Definition store_at (p : Z) (w : World) : Res SegmentStore :=
  match stores w !! p with Some s => Ok s | None => Fault end.
Definition entry_at (i : Z) (w : World) : Res StreamEntry :=
  match entries w !! i with Some e => Ok e | None => Fault end.

Definition render_media_playlist (p : Z) (query : text) (o : Outside) (w : World) : Res (World * HttpResponse) :=
  s <- store_at p w ;;
  '(s, b) <- playlist s "" (steady o) (times o) ;;
  Ok (put_store p s w, decorate (playlist_cache_control options) (m3u8 (decorated_body b query))).

Definition serve_iframe_playlist (request : HttpRequest) (p : Z) (w : World) : Res (World * HttpResponse) :=
  s <- store_at p w ;;
  let '(s, b) := iframe_playlist s "" in
  Ok (put_store p s w, decorate (playlist_cache_control options) (m3u8 (decorated_body b (query request)))).

Definition serve_key (e : option SegmentEncryptor) (resource : text) : HttpResponse :=
  match e with
  | None => no_store (plain 404 (str "stream is not encrypted"))
  | Some e =>
      if negb (enabled e) then no_store (plain 404 (str "stream is not encrypted"))
      else
        let id := take (length resource - length kKeyResourcePrefix - length kKeyResourceSuffix)
                    (drop (length kKeyResourcePrefix) resource) in
        match find_key e (string_of id) with
        | None => no_store (plain 404 (str "key not found"))
        | Some key =>
            with_cors (with_header "Cache-Control" (key_cache_control options)
              (mkHttpResponse 200 kContentTypeKey (chars (key_bytes key)) [] 0 0 ∅ None))
        end
  end.

(** [release_waiters]: under the lock of the entry those that are satisfied move out and those
    that were resolved are dropped; then, without it, each is answered. *)
Definition is_resolved (w : World) (x : PlaylistWaiter) : bool :=
  match cells w !! waiter_deferred x with Some cell => resolved_ cell | None => true end.
Definition reached_by (s : SegmentStore) (x : PlaylistWaiter) : bool := has_reached s (sequence x) (waiter_part x).

Fixpoint answer_ready (p : Z) (ready : list PlaylistWaiter) (o : Outside) (w : World) : Res World :=
  match ready with
  | [] => Ok w
  | x :: ready =>
      '(w, r) <- render_media_playlist p (child_query x) o w ;;
      answer_ready p ready o (resolve_cell (waiter_deferred x) r w)
  end.
Definition partition_waiters (i p : Z) (w : World) : Res (World * list PlaylistWaiter) :=
  e <- entry_at i w ;;
  match waiters e with
  | [] => Ok (w, [])
  | ws =>
      s <- store_at p w ;;
      let alive := filter (fun x => negb (is_resolved w x)) ws in
      let ready := filter (fun x => reached_by s x) alive in
      let remaining := filter (fun x => negb (reached_by s x)) alive in
      Ok (put_entry i (set_waiters remaining e) w, ready)
  end.
Definition release_waiters (i p : Z) (o : Outside) (w : World) : Res World :=
  '(w, ready) <- partition_waiters i p w ;; answer_ready p ready o w.

(** The notifier that [register_stream] installs: a store that has been replaced releases
    nothing. *)
Definition run_notifier (i p : Z) (o : Outside) (w : World) : Res World :=
  match entries w !! i with
  | None => Ok w
  | Some e => if decide (store e = Some p) then release_waiters i p o w else Ok w
  end.

Definition redirect (location : text) : HttpResponse :=
  with_cors (with_header "Cache-Control" (str "private, no-store")
    (with_header "Location" location (mkHttpResponse 302 (str "text/plain") [] [] 0 0 ∅ None))).

Definition serve_master_playlist (request : HttpRequest) (rs : list Rendition) (application : text) : HttpResponse :=
  match rs with
  | [] => plain 404 (str "no renditions declared for this stream")
  | first :: _ =>
      let name := rendition_stream_from_uri (str (rendition_uri first)) in
      if enable_fast_join options && negb (is_empty name) then
        let location := route_prefix options ++ "/"%char :: application ++ "/"%char :: name ++ str "/index.m3u8" in
        redirect (match query request with [] => location | q => location ++ "?"%char :: q end)
      else
        decorate (if enable_playback_sessions options && negb (enable_shared_playlist_cache options)
                  then str "private, no-store" else master_cache_control options)
          (m3u8 (decorated_body (build_master_playlist rs) (query request)))
  end.

Definition media (b : text) (first count : Z) (code : Z) : HttpResponse :=
  mkHttpResponse code kContentTypeMpegTs [] b first count ∅ None.

Definition find_media (s : SegmentStore) (name : text) : SegmentStore * option (list byte) :=
  match find_segment s (string_of name) with
  | (s, Some segment) => (s, Some (seg_data segment))
  | (s, None) =>
      match find_part s (string_of name) with
      | (s, Some part) => (s, Some (part_data part))
      | (s, None) => (s, None)
      end
  end.

Definition serve_segment (request : HttpRequest) (p : Z) (name : text) (w : World) : Res (World * HttpResponse) :=
  s <- store_at p w ;;
  let '(s, data) := find_media s name in
  let w := put_store p s w in
  match data with
  | None => Ok (w, no_store (plain 404 (str "segment not found")))
  | Some data =>
      let payload := chars data in
      let size := zlen payload in
      match (if enable_range_requests options then request_headers request !! str "range" else None) with
      | None => Ok (w, decorate (segment_cache_control options) (media payload 0 size 200))
      | Some range =>
          match parse_range range size with
          | Some (first, last) =>
              Ok (on_stats count_range_request w,
                  with_header "Content-Range"
                    (str "bytes " ++ dec first ++ str "-" ++ dec last ++ str "/" ++ dec size)
                    (decorate (segment_cache_control options) (media payload first (u64 (last - first + 1)) 206)))
          | None =>
              Ok (w, with_header "Content-Range" (str "bytes */" ++ dec size)
                       (plain 416 (str "requested range not satisfiable")))
          end
      end
  end.

(** * Who may *)

Definition authorized (request : HttpRequest) (application stream : text) (o : Outside) : bool :=
  if negb (require_playback_token options) then true
  else
    let params := parse_query (query request) in
    match params !! str "token", params !! str "expires" with
    | Some token, Some expires =>
        match from_chars_i64 expires with
        | None => false
        | Some expires_at =>
            match verify_token hmac_sha256_hex (token_signing_secret options) application stream token expires_at (unix_now o) with
            | Ok _ => true
            | _ => false
            end
        end
    | _, _ => false
    end.

Definition edge_allows (request : HttpRequest) : bool :=
  match edge_fetch_secret options with
  | [] => true
  | secret =>
      match request_headers request !! edge_fetch_header options with
      | Some v => constant_time_equals v secret
      | None => false
      end
  end.

(** * Playback sessions *)

Definition has_session (q : text) : bool :=
  let params := parse_query q in
  let valid_session := match params !! kPlaybackSessionParam with Some v => is_playback_session v | None => false end in
  let valid_stream := match params !! kPlaybackStreamParam with Some v => negb (is_empty v) | None => false end in
  let valid_cache_route := negb (enable_shared_playlist_cache options)
    || match params !! kSharedCacheParam with Some v => bool_decide (v = str "1") | None => false end in
  valid_session && valid_stream && valid_cache_route.

Definition session_query (q session stream : text) : text :=
  let kept := query_without_session_params q in
  let kept := match kept with [] => [] | _ => kept ++ str "&" end in
  let q := kept ++ kPlaybackSessionParam ++ "="%char :: session in
  let q := q ++ "&"%char :: kPlaybackStreamParam ++ "="%char :: percent_encode stream in
  if enable_shared_playlist_cache options then q ++ "&"%char :: kSharedCacheParam ++ str "=1" else q.

Definition viewer_cookie (session : text) : text :=
  let cross_origin_capable := negb (is_empty (cors_allow_origin options)) && viewer_cookie_secure options in
  viewer_cookie_name options ++ "="%char :: session ++ str "; Path=" ++ route_prefix options ++ str "; HttpOnly; SameSite="
  ++ (if cross_origin_capable then str "None" else str "Lax")
  ++ str "; Max-Age=" ++ int_to_text (viewer_cookie_max_age options)
  ++ (if viewer_cookie_secure options then str "; Secure" else []).

(** The answer to a playlist request without a session: a redirect to the same playlist with
    one. *)
Definition session_redirect (request : HttpRequest) (stream resource : text) (o : Outside) : option HttpResponse :=
  if negb (enable_playback_sessions options && ends_with resource (str ".m3u8")) then None
  else if has_session (query request) then None
  else
    let existing_cookie := cookie_value request (viewer_cookie_name options) in
    let reuse_cookie := is_playback_session existing_cookie in
    let session := if reuse_cookie then existing_cookie else new_session o in
    if negb (is_playback_session session) then
      Some (no_store (plain 500 (str "playback session generator failed")))
    else
      let r := redirect (path request ++ "?"%char :: session_query (query request) session stream) in
      Some (if reuse_cookie then r else with_header "Set-Cookie" (viewer_cookie session) r).

(** * The handler *)

(** The position a low-latency player asks for; the part is cast to a signed number. *)
Definition i64 (z : Z) : Z := (z + 2 ^ 63) mod 2 ^ 64 - 2 ^ 63.
Definition wanted_position (request : HttpRequest) : option (Z * Z) :=
  if enable_low_latency options && bool_decide (method request = str "GET") then
    let params := parse_query (query request) in
    match params !! kBlockingMsnParam with
    | None => None
    | Some msn =>
        match parse_unsigned msn with
        | None => None
        | Some wanted_sequence =>
            let wanted_part :=
              match params !! kBlockingPartParam with
              | None => -1
              | Some v => match parse_unsigned v with Some part => i64 part | None => -1 end
              end in
            Some (wanted_sequence, wanted_part)
        end
    end
  else None.

(** What a request has come to: an answer, or a waiter that is not parked yet.  [reply]: what
    is done with a response before it goes out. *)
Record Parking := mkParking { at_entry : Z; at_store : Z; who : PlaylistWaiter; asked_by : HttpRequest }.
Inductive Outcome := Reply (r : HttpResponse) | Parks (x : Parking).

Definition head_only (r : HttpResponse) : HttpResponse :=
  mkHttpResponse (status r) (content_type r) [] [] 0 0
    (<[str "Content-Length" := dec (payload_size r)]> (response_headers r)) (deferred r).
Definition reply (i : Z) (request : HttpRequest) (countable : bool) (r : HttpResponse) (o : Outside) (w : World) :
    World * HttpResponse :=
  let w := if track_delivery_stats options && countable && ((status r =? 200) || (status r =? 206))
           then record_delivery i (payload_size r) (playback_session_from_query (query request)) o w else w in
  (w, if bool_decide (method request = str "HEAD") then head_only r else r).

Definition in_prefix (p : text) : bool :=
  let prefix := route_prefix options in
  starts_with prefix p
  && ((length p =? length prefix)%nat || bool_decide (head (drop (length prefix) p) = Some "/"%char)).

Definition child_query_of (request : HttpRequest) : text :=
  if propagate_query_to_playlist_uris options then query_without_blocking_params (query request) else [].

Definition new_cell (c : DeferredResponse) (w : World) : World * Z :=
  let d := next_object w in (set_next_object (d + 1) (set_cells (<[d := c]> (cells w)) w), d).

Definition serve_playlist (i p : Z) (request : HttpRequest) (o : Outside) (w : World) : Res (World * Outcome) :=
  '(w, r) <- render_media_playlist p (query request) o w ;;
  let '(w, r) := reply i request true r o w in Ok (w, Reply r).

(** A playlist request, up to where a waiter would be parked. *)
Definition reload (i p : Z) (request : HttpRequest) (o : Outside) (w : World) : Res (World * Outcome) :=
  match wanted_position request with
  | None => serve_playlist i p request o w
  | Some (wanted_sequence, wanted_part) =>
      s <- store_at p w ;;
      if has_reached s wanted_sequence wanted_part then serve_playlist i p request o w
      else
        '(w, r) <- render_media_playlist p (child_query_of request) o w ;;
        let '(w, d) := new_cell (mkDeferredResponse r (blocking_reload_timeout options) None default_response false false) w in
        Ok (w, Parks (mkParking i p (mkPlaylistWaiter wanted_sequence wanted_part (child_query_of request) d) request))
  end.

(** It is parked, or there are too many and it is answered now. *)
Definition pending (d : Z) : HttpResponse := with_deferral d default_response.
Definition park (x : Parking) (o : Outside) (w : World) : Res (World * HttpResponse * bool) :=
  e <- entry_at (at_entry x) w ;;
  if zlen (waiters e) <? max_blocked_requests_per_stream options then
    Ok (put_entry (at_entry x) (set_waiters (waiters e ++ [who x]) e) w, pending (waiter_deferred (who x)), true)
  else
    '(w, out) <- serve_playlist (at_entry x) (at_store x) (asked_by x) o w ;;
    match out with Reply r => Ok (w, r, false) | Parks _ => Fault end.

(** What is served when the request is let through. *)
Definition serve (i : Z) (e : StreamEntry) (p : option Z) (request : HttpRequest) (application resource : text)
    (o : Outside) (w : World) : Res (World * Outcome) :=
  let answer countable (x : World * HttpResponse) :=
    let '(w, r) := x in let '(w, r) := reply i request countable r o w in Ok (w, Reply r) in
  if bool_decide (resource = str "master.m3u8") then
    let w := on_stats count_playlist_request w in
    answer false (w, serve_master_playlist request (default [] (renditions e)) application)
  else
    match p with
    | None => Fault
    | Some p =>
        if bool_decide (resource = str "iframe.m3u8") then
          if negb (enable_iframe_playlists options) then
            Ok (on_stats count_not_found w, Reply (plain 404 (str "not found")))
          else
            x <- serve_iframe_playlist request p (on_stats count_playlist_request w) ;; answer false x
        else if ends_with resource (str ".m3u8") then reload i p request o (on_stats count_playlist_request w)
        else if ends_with resource (str ".ts") then
          x <- serve_segment request p resource (on_stats count_segment_request w) ;; answer true x
        else if (length kKeyResourcePrefix + length kKeyResourceSuffix <? length resource)%nat
                && starts_with kKeyResourcePrefix resource && ends_with resource kKeyResourceSuffix then
          let key := match encryptor e with Some k => encryptors w !! k | None => None end in
          answer false (w, serve_key key resource)
        else Ok (on_stats count_not_found w, Reply (plain 404 (str "not found")))
    end.

Definition route (request : HttpRequest) : option (text * text * text) :=
  match split_path (drop (length (route_prefix options)) (path request)) with
  | Some [application; stream; resource] => Some (application, stream, resource)
  | _ => None
  end.

Definition handle_request (request : HttpRequest) (o : Outside) (w : World) : Res (World * Outcome) :=
  if negb (in_prefix (path request)) then
    Ok (w, Reply match next_ with Some next => next request | None => plain 404 (str "not found") end)
  else if negb (bool_decide (method request = str "GET") || bool_decide (method request = str "HEAD")) then
    Ok (w, Reply (with_header "Allow" (str "GET, HEAD") (plain 405 (str "method not allowed"))))
  else if negb (edge_allows request) then
    Ok (on_stats count_edge_unauthorized w, Reply (no_store (plain 403 (str "edge token required"))))
  else
    match route request with
    | None => Ok (on_stats count_not_found w, Reply (plain 404 (str "not found")))
    | Some (application, stream, resource) =>
        if negb (match enabled_checker_ with Some check => check application stream | None => true end) then
          Ok (on_stats count_not_found w, Reply (plain 404 (str "not found")))
        else if negb (authorized request application stream o) then
          Ok (on_stats count_unauthorized w, Reply (no_store (plain 403 (str "playback token required or invalid"))))
        else
          match find_entry w application stream with
          | None => Ok (on_stats count_not_found w, Reply (no_store (plain 404 (str "stream not found"))))
          | Some (i, e) =>
              match store e with
              | None =>
                  if negb (bool_decide (resource = str "master.m3u8")) then
                    Ok (on_stats count_not_found w, Reply (no_store (plain 404 (str "stream not found"))))
                  else match session_redirect request stream resource o with
                       | Some r => Ok (w, Reply r)
                       | None => serve i e None request application resource o w
                       end
              | Some p =>
                  match session_redirect request stream resource o with
                  | Some r => Ok (w, Reply r)
                  | None => serve i e (Some p) request application resource o w
                  end
              end
          end
    end.

(** All of [handle], when nothing comes between. *)
Definition handle (request : HttpRequest) (o : Outside) (w : World) : Res (World * HttpResponse) :=
  '(w, out) <- handle_request request o w ;;
  match out with
  | Reply r => Ok (w, r)
  | Parks x =>
      '(w, r, parked) <- park x o w ;;
      if parked then w <- release_waiters (at_entry x) (at_store x) o w ;; Ok (w, r)
      else Ok (w, r)
  end.
End Handler.
