(* ===== verification/HlsHttpServes.v ===== *)
(** What control/hls_http_handler.cpp gives to whom: without the token, the secret or the
    enabled stream it asks for a request gets a refusal and nothing else; a player that
    follows redirects is served after two at most, and keeps what else it asked for; of a
    segment it gets the bytes its range asks for. *)

From S2P Require Import Prelude Text HlsSegment HlsPlaylist HlsKeys HlsStore HttpMessage AsyncHttp HlsHttp ViewerSessions HlsHttpHandler.
From Stdlib Require Import Ascii.

Definition no_hmac (_ _ : text) : text := [].
Definition no_hash (_ : text) : Z := 0.

(** * Who is served *)

Section Gate.
Context (options : HlsHttpOptions) (hmac_sha256_hex : text -> text -> text) (hash : text -> Z).
Context (enabled_checker_ : option (text -> text -> bool)) (next_ : option (HttpRequest -> HttpResponse)).
Notation handle := (handle options hmac_sha256_hex hash enabled_checker_ next_).
Notation handle_request := (handle_request options hmac_sha256_hex hash enabled_checker_ next_).

(** * Who is let through *)

(** The request carries a signature of the secret over this application, stream and expiry,
    and the expiry is not past. *)
Definition signed (request : HttpRequest) (application stream : text) (now : Z) : Prop :=
  exists expires expires_at,
    parse_query (query request) !! str "expires" = Some expires
    /\ from_chars_i64 expires = Some expires_at
    /\ parse_query (query request) !! str "token"
       = Some (hmac_sha256_hex (token_signing_secret options) (signing_input application stream expires_at))
    /\ now <= expires_at.

Record allowed (request : HttpRequest) (now : Z) : Prop := mkAllowed {
  allowed_method : method request = str "GET" \/ method request = str "HEAD";
  allowed_edge : edge_fetch_secret options <> [] ->
    request_headers request !! edge_fetch_header options = Some (edge_fetch_secret options);
  allowed_stream : exists application stream resource,
    route options request = Some (application, stream, resource)
    /\ (forall check, enabled_checker_ = Some check -> check application stream = true)
    /\ (require_playback_token options = true -> signed request application stream now)
}.

Definition refusals : list HttpResponse :=
  [plain 404 (str "not found"); with_header "Allow" (str "GET, HEAD") (plain 405 (str "method not allowed"));
   no_store (plain 403 (str "edge token required")); no_store (plain 403 (str "playback token required or invalid"))].

(** But for the counters. *)
Definition untouched (w w' : World) : Prop := set_handler_stats (handler_stats w) w' = w.

Lemma untouched_refl w : untouched w w.
Proof. by destruct w. Qed.
Lemma untouched_stats f w : untouched w (on_stats f w).
Proof. by destruct w. Qed.

Lemma edge_allowed request : edge_allows options request = true -> edge_fetch_secret options <> [] ->
  request_headers request !! edge_fetch_header options = Some (edge_fetch_secret options).
Proof.
  unfold edge_allows. intros H Hs. destruct (edge_fetch_secret options) as [|c l]; [done|].
  destruct (request_headers request !! _) as [v|]; [|done]. unfold constant_time_equals in H. apply bool_decide_eq_true in H. by rewrite H.
Qed.
Lemma authorized_signed request application stream o :
  authorized options hmac_sha256_hex request application stream o = true -> require_playback_token options = true ->
  signed request application stream (unix_now o).
Proof.
  unfold authorized. intros H Hr. rewrite Hr in H. cbn [negb] in H.
  destruct (parse_query (query request) !! str "token") as [token|] eqn:Et; [|done].
  destruct (parse_query (query request) !! str "expires") as [expires|] eqn:Ee; [|done].
  destruct (from_chars_i64 expires) as [t|] eqn:Ei; [|done]. unfold verify_token in H.
  destruct (constant_time_equals _ token) eqn:Ec; [|done]. apply bool_decide_eq_true in Ec. cbn [negb] in H.
  destruct (Z.ltb_spec t (unix_now o)); [done|]. exists expires, t. split_and!; [done|done| |done]. by rewrite Et, <- Ec.
Qed.

(** C16. Nothing behind the prefix is served, and nothing of the handler's state but its
    counters changes, for a request that is not let through: the answer is one of four fixed
    texts, whatever the streams hold.  To be let through takes GET or HEAD, the edge secret
    where one is set, a path of three parts, a stream that is enabled, and where tokens are
    required the signature of the secret over exactly that application, that stream and an
    expiry that has not passed. *)
Theorem media_needs_a_token request o w w' r :
  in_prefix options (path request) = true -> handle request o w = Ok (w', r) ->
  allowed request (unix_now o) \/ (r ∈ refusals /\ untouched w w').
Proof.
  unfold HlsHttpHandler.handle, HlsHttpHandler.handle_request. intros Hp H. rewrite Hp in H. cbn [negb] in H.
  destruct (bool_decide (method request = str "GET") || bool_decide (method request = str "HEAD")) eqn:Em; cbn [negb] in H;
    [|right; injection H as <- <-; split; [unfold refusals; set_solver|apply untouched_refl]].
  destruct (edge_allows options request) eqn:Ee; cbn [negb] in H;
    [|right; injection H as <- <-; split; [unfold refusals; set_solver|apply untouched_stats]].
  destruct (route options request) as [[[application stream] resource]|] eqn:Er;
    [|right; injection H as <- <-; split; [unfold refusals; set_solver|apply untouched_stats]].
  destruct (match enabled_checker_ with Some check => check application stream | None => true end) eqn:Ec; cbn [negb] in H;
    [|right; injection H as <- <-; split; [unfold refusals; set_solver|apply untouched_stats]].
  destruct (authorized options hmac_sha256_hex request application stream o) eqn:Ea; cbn [negb] in H;
    [|right; injection H as <- <-; split; [unfold refusals; set_solver|apply untouched_stats]].
  left. split; [| |exists application, stream, resource; split_and!; [done| |]].
  - apply orb_true_iff in Em as [Em|Em]; apply bool_decide_eq_true in Em; auto.
  - by apply edge_allowed.
  - intros check Hc. by rewrite Hc in Ec.
  - by apply authorized_signed.
Qed.
End Gate.

(** * A stream that takes a token *)

Definition token_options : HlsHttpOptions :=
  mkHlsHttpOptions (str "/hls") true (str "secret") [] (str "x-edge-token") false false true true (str "no-cache")
    (str "public") (str "public") true (str "*") (str "viewer") 60 false false false 9000 10 true (str "private").
Definition token_mac (secret message : text) : text := secret ++ str "." ++ message.
Definition token_world : World :=
  put_entry 0 new_entry (set_streams {[stream_key (str "live") (str "cam") := 0]} empty_world).
Definition token_outside : Outside := mkOutside 0 (fun _ => 0) 100 [].
Definition token_request : HttpRequest :=
  mkHttpRequest (str "GET") (str "/hls/live/cam/index.m3u8") (str "expires=99&token=secret.live:cam:99") (str "HTTP/1.1") ∅ [] [].

Lemma media_needs_a_token_witness :
  allowed token_options token_mac None token_request 100
  \/ (no_store (plain 403 (str "playback token required or invalid")) ∈ refusals
      /\ untouched token_world (on_stats count_unauthorized token_world)).
Proof.
  apply (media_needs_a_token token_options token_mac no_hash None None token_request token_outside); vm_compute; reflexivity.
Defined.

(** * Where redirects lead *)

(** The request of a client that goes where it is sent. *)
Definition visit (location : text) (request : HttpRequest) : HttpRequest :=
  let '(p, q) := split_target location in
  mkHttpRequest (method request) p q (http_version request) (request_headers request) (request_body request)
    (client_ip request).

Lemma split_at p q : "?"%char ∉ p -> split_target (p ++ "?"%char :: q) = (p, q).
Proof.
  intros H. unfold split_target. rewrite find_char_app by done. rewrite take_app_length. f_equal.
  rewrite cons_middle, app_assoc. apply drop_app_length'. rewrite length_app. cbn. lia.
Qed.
Lemma split_none p : "?"%char ∉ p -> split_target p = (p, []).
Proof. intros H. unfold split_target. by rewrite (proj2 (find_char_None _ _) H). Qed.

(** * The query of a session *)

Lemma hex_digit_upper n : hex_digit n ∈ str "0123456789ABCDEF".
Proof.
  unfold hex_digit. destruct (nth_in_or_default (Z.to_nat n) (str "0123456789ABCDEF") "0"%char) as [H|H]; [by apply list_elem_of_In|].
  rewrite H. apply list_elem_of_here.
Qed.
Lemma encode_char_plain c : encode_char c <> [] /\ "&"%char ∉ encode_char c.
Proof.
  unfold encode_char. destruct (unreserved c) eqn:E; (split; [done|]).
  - intros H%list_elem_of_singleton. by rewrite <- H in E.
  - assert (Hd : forall n, "&"%char <> hex_digit n).
    { intros n Hn. pose proof (hex_digit_upper n) as H. rewrite <- Hn in H. apply list_elem_of_In in H. cbn in H. naive_solver. }
    rewrite !elem_of_cons. intros [?|[?|[?|?%elem_of_nil]]]; [done|by eapply Hd|by eapply Hd|done].
Qed.
Lemma percent_plain l : "&"%char ∉ percent_encode l.
Proof.
  unfold percent_encode. induction l as [|c l IH]; [apply not_elem_of_nil|]. cbn [map concat]. rewrite elem_of_app.
  intros [H|H]; [by apply (encode_char_plain c)|done].
Qed.
Lemma percent_some l : l <> [] -> percent_encode l <> [].
Proof.
  destruct l as [|c l]; [done|]. intros _. unfold percent_encode. cbn [map concat].
  destruct (encode_char_plain c) as [H _]. by destruct (encode_char c).
Qed.
Lemma session_plain s : is_playback_session s = true -> "&"%char ∉ s.
Proof.
  unfold is_playback_session. intros [_ H]%andb_true_iff Hin. rewrite forallb_forall in H.
  apply list_elem_of_In, H in Hin. done.
Qed.

Definition session_params : list text := [kPlaybackSessionParam; kPlaybackStreamParam; kSharedCacheParam].
Definition no_session_pair (p : text) : Prop := key_of_pair p ∉ session_params.

Lemma pair_ok k v : "&"%char ∉ k -> "&"%char ∉ v -> a_pair (k ++ "="%char :: v).
Proof.
  intros Hk Hv. split; [by destruct k|]. rewrite elem_of_app, elem_of_cons. intros [?|[?|?]]; done.
Qed.

Lemma param_plain k : k ∈ session_params -> "&"%char ∉ k /\ "="%char ∉ k.
Proof.
  unfold session_params. rewrite !elem_of_cons. intros [->|[->|[->|?%elem_of_nil]]];
    [rewrite !list_elem_of_In; vm_compute; naive_solver..|done].
Qed.
Lemma key_of_param k v : k ∈ session_params -> key_of_pair (k ++ "="%char :: v) = k.
Proof. intros [_ H]%param_plain. unfold key_of_pair. by rewrite find_char_app, take_app_length. Qed.

Section Redirects.
Context (options : HlsHttpOptions) (hmac_sha256_hex : text -> text -> text) (hash : text -> Z).
Context (enabled_checker_ : option (text -> text -> bool)) (next_ : option (HttpRequest -> HttpResponse)).
Notation handle := (handle options hmac_sha256_hex hash enabled_checker_ next_).

Definition added_pairs (session stream : text) : list text :=
  [kPlaybackSessionParam ++ "="%char :: session; kPlaybackStreamParam ++ "="%char :: percent_encode stream]
  ++ (if enable_shared_playlist_cache options then [kSharedCacheParam ++ str "=1"] else []).
Definition kept_of (q : text) : list text :=
  filter (fun pair =>
    let key := key_of_pair pair in
    (negb (is_empty pair) && bool_decide (key <> kPlaybackSessionParam)
    && bool_decide (key <> kPlaybackStreamParam) && bool_decide (key <> kSharedCacheParam)) : bool) (pieces "&" q).

Lemma kept_ok q : Forall a_pair (kept_of q).
Proof. apply kept_pairs. by intros [|] ?. Qed.
Lemma kept_free q : Forall no_session_pair (kept_of q).
Proof.
  unfold kept_of. rewrite list.Forall_forall. intros p [Hp _]%list_elem_of_filter. unfold no_session_pair, session_params.
  rewrite !andb_True, !bool_decide_spec in Hp. rewrite !elem_of_cons. destruct Hp as [[[_ ?] ?] ?]. intros [?|[?|[?|?%elem_of_nil]]]; done.
Qed.
Lemma kept_other q k : k ∉ session_params -> foldl emplace_pair ∅ (kept_of q) !! k = parse_query q !! k.
Proof.
  intros Hk. unfold kept_of, parse_query.
  assert (H : forall ps m1 m2, m1 !! k = m2 !! k ->
    foldl emplace_pair m1 (filter (fun pair => (negb (is_empty pair) && bool_decide (key_of_pair pair <> kPlaybackSessionParam)
      && bool_decide (key_of_pair pair <> kPlaybackStreamParam) && bool_decide (key_of_pair pair <> kSharedCacheParam)) : bool) ps) !! k
    = foldl emplace_pair m2 ps !! k); [|by apply H].
  unfold session_params in Hk. rewrite !not_elem_of_cons in Hk. destruct Hk as (H1 & H2 & H3 & _).
  assert (He : forall p m1 m2, m1 !! k = m2 !! k -> emplace_pair m1 p !! k = emplace_pair m2 p !! k).
  { intros p m1 m2 Hm. unfold emplace_pair. destruct (value_of_pair p) as [v|]; [|done]. destruct (decide (key_of_pair p = k)) as [->|Hne].
    - destruct (m1 !! k) eqn:E1, (m2 !! k) eqn:E2; try congruence; by rewrite !lookup_insert_eq.
    - destruct (m1 !! key_of_pair p), (m2 !! key_of_pair p); rewrite ?lookup_insert_ne by done; done. }
  induction ps as [|p ps IH]; intros m1 m2 Hm; [done|]. rewrite filter_cons. cbn [foldl]. destruct (decide _) as [Hd|Hd].
  - cbn [foldl]. apply IH, He, Hm.
  - apply IH. rewrite Hm. unfold emplace_pair. destruct (value_of_pair p) as [v|] eqn:Ev; [|done].
    destruct (decide (key_of_pair p = k)) as [E|Hne]; [|by destruct (m2 !! key_of_pair p); rewrite ?lookup_insert_ne].
    exfalso. apply Hd. rewrite !andb_True, !bool_decide_spec, E. split_and!; [|done..]. by destruct p.
Qed.

Lemma session_query_pairs q session stream :
  session_query options q session stream = join_pairs (kept_of q ++ added_pairs session stream).
Proof.
  rewrite join_app. unfold session_query, query_without_session_params, keep_pairs, added_pairs, join_pairs. fold (kept_of q).
  set (kept := foldl append_pair [] (kept_of q)).
  assert (Ha : forall c l p, append_pair (c :: l) p = (c :: l) ++ "&"%char :: p) by done.
  assert (Hk : exists c l, kPlaybackSessionParam = c :: l) by by eexists _, _. destruct Hk as (c0 & l0 & Hk). rewrite Hk.
  destruct kept as [|c l]; destruct (enable_shared_playlist_cache options); cbn [app foldl];
    repeat first [rewrite Ha | progress cbn [app append_pair] | rewrite <- app_assoc]; done.
Qed.
Lemma session_query_pieces q session stream : is_playback_session session = true ->
  pieces "&" (session_query options q session stream) = kept_of q ++ added_pairs session stream.
Proof.
  intros Hs. rewrite session_query_pairs. apply pieces_join, list.Forall_app. split; [apply kept_ok|].
  unfold added_pairs. rewrite list.Forall_app. split.
  - constructor; [|constructor; [|constructor]]; apply pair_ok; try (apply param_plain; unfold session_params; set_solver);
      [by apply session_plain|apply percent_plain].
  - destruct (enable_shared_playlist_cache options); [|constructor]. constructor; [|constructor].
    apply (pair_ok kSharedCacheParam (str "1")); [apply param_plain; unfold session_params; set_solver|].
    rewrite list_elem_of_In. vm_compute. naive_solver.
Qed.

(** What else was asked for stays. *)
Lemma session_query_keeps q session stream k : is_playback_session session = true -> k ∉ session_params ->
  parse_query (session_query options q session stream) !! k = parse_query q !! k.
Proof.
  intros Hs Hk. unfold parse_query at 1. rewrite session_query_pieces, foldl_app by done. rewrite query_other; [by apply kept_other|].
  assert (Hne : forall k' v, k' ∈ session_params -> key_of_pair (k' ++ "="%char :: v) <> k).
  { intros k' v Hin. rewrite key_of_param by done. by intros ->. }
  unfold added_pairs. rewrite list.Forall_app. split.
  - constructor; [|constructor; [|constructor]]; apply Hne; unfold session_params; set_solver.
  - destruct (enable_shared_playlist_cache options); [|constructor]. constructor; [|constructor].
    apply (Hne kSharedCacheParam (str "1")). unfold session_params; set_solver.
Qed.

Lemma session_query_finds q session stream ps k v qs : is_playback_session session = true -> k ∈ session_params ->
  added_pairs session stream = ps ++ (k ++ "="%char :: v) :: qs -> Forall (fun p => key_of_pair p <> k) ps ->
  parse_query (session_query options q session stream) !! k = Some v.
Proof.
  intros Hs Hk Ha Hp. unfold parse_query. rewrite session_query_pieces, Ha, app_assoc by done. apply query_first.
  - rewrite list.Forall_app. split; [|done]. pose proof (kept_free q) as Hf. rewrite list.Forall_forall in Hf |- *.
    intros p Hin E. apply (Hf p Hin). by rewrite E.
  - by apply param_plain.
  - done.
Qed.

(** And a session that is valid has been added. *)
Lemma session_query_has q session stream : is_playback_session session = true -> stream <> [] ->
  has_session options (session_query options q session stream) = true.
Proof.
  intros Hs Hn. unfold has_session.
  erewrite (session_query_finds q session stream [] kPlaybackSessionParam session _ Hs); [|unfold session_params; set_solver|done|constructor].
  erewrite (session_query_finds q session stream [kPlaybackSessionParam ++ "="%char :: session] kPlaybackStreamParam
    (percent_encode stream) _ Hs); [|unfold session_params; set_solver|done|].
  2:{ constructor; [|constructor]. rewrite key_of_param by (unfold session_params; set_solver). done. }
  rewrite Hs. destruct (percent_encode stream) eqn:E; [by apply percent_some in E|]. cbn [andb is_empty negb].
  destruct (enable_shared_playlist_cache options) eqn:Ec; [|done]. cbn [negb orb].
  rewrite (session_query_finds q session stream [kPlaybackSessionParam ++ "="%char :: session;
    kPlaybackStreamParam ++ "="%char :: percent_encode stream] kSharedCacheParam (str "1") [] Hs);
    [done|unfold session_params; set_solver|unfold added_pairs; by rewrite Ec|].
  constructor; [|constructor; [|constructor]]; rewrite key_of_param by (unfold session_params; set_solver); done.
Qed.

(** * Redirects *)

(** The names of the renditions are those of streams: no question mark in them. *)
Definition plain_names (w : World) : Prop :=
  forall i e rs x, entries w !! i = Some e -> renditions e = Some rs -> x ∈ rs ->
    "?"%char ∉ rendition_stream_from_uri (str (rendition_uri x)).

(** A request is answered with a redirect, in some state of the handler, and the client goes
    there. *)
Inductive redirected (request again : HttpRequest) : Prop :=
| Redirected o w w' r location :
    handle request o w = Ok (w', r) -> plain_names w -> status r = 302 ->
    response_headers r !! str "Location" = Some location -> again = visit location request ->
    redirected request again.

(** How many redirects a request has before it. *)
Definition wants_session (request : HttpRequest) : bool :=
  match route options request with
  | Some (_, _, resource) =>
      enable_playback_sessions options && ends_with resource (str ".m3u8") && negb (has_session options (query request))
  | None => false
  end.
Definition wants_master (request : HttpRequest) : bool :=
  match route options request with
  | Some (_, _, resource) => bool_decide (resource = str "master.m3u8")
  | None => false
  end.
Definition hops (request : HttpRequest) : nat := Nat.b2n (wants_session request) + Nat.b2n (wants_master request).

Record ours (request : HttpRequest) : Prop := mkOurs {
  ours_prefix : in_prefix options (path request) = true;
  ours_path : "?"%char ∉ path request
}.

Lemma pieces_within sep l p x : p ∈ pieces sep l -> x ∈ p -> x ∈ l.
Proof.
  unfold pieces. generalize (length l) as f. intros f. revert l. induction f as [|f IH]; intros l Hp Hx; [by destruct l; apply elem_of_nil in Hp|].
  destruct l as [|c l]; [by apply elem_of_nil in Hp|]. cbn [pieces_loop] in Hp. destruct (find_char sep (c :: l)) as [n|].
  - apply elem_of_cons in Hp as [->|Hp]; [by eapply subseteq_take|]. eapply subseteq_drop, IH; eauto.
  - by apply list_elem_of_singleton in Hp as ->.
Qed.
Lemma pieces_ends sep y : sep ∉ y -> y <> [] -> forall x, exists ps, pieces sep (x ++ sep :: y) = ps ++ [y].
Proof.
  intros Hy Hn x. remember (length x) as n eqn:En. revert x En. induction (lt_wf n) as [n _ IH]. intros x ->.
  destruct (find_char sep x) as [k|] eqn:E.
  - apply find_char_Some in E as [Hx Hk]. rewrite Hx, <- app_assoc. cbn [app]. rewrite pieces_app by done.
    destruct (IH (length (drop (S k) x))) with (x := drop (S k) x) as [ps ->]; [|done|by exists (take k x :: ps)].
    apply (f_equal length) in Hx. rewrite length_app in Hx. cbn [length] in Hx. lia.
  - apply find_char_None in E. exists [x]. rewrite pieces_app by done. cbn [app]. f_equal. by apply pieces_last.
Qed.
Lemma route_part request application stream resource c : route options request = Some (application, stream, resource) ->
  c ∉ path request -> c ∉ application /\ stream <> [].
Proof.
  unfold route, split_path. intros H Hc. destruct (existsb bad_part _); [done|].
  destruct (filter _ _) as [|a [|b [|d [|]]]] eqn:E; try done. injection H as -> -> ->.
  assert (Hin : forall p, p ∈ [application; stream; resource] -> p <> [] /\ (forall x, x ∈ p -> x ∈ path request)).
  { intros p Hp. rewrite <- E in Hp. apply list_elem_of_filter in Hp as [Hp Hin]. split; [by destruct p|].
    intros x Hx. eapply subseteq_drop, pieces_within; eauto. }
  split; [|apply Hin; set_solver]. intros Hx. apply Hc. by apply (Hin application); [set_solver|].
Qed.

Lemma reply_status i request c r o w :
  status (reply options hash i request c r o w).2 = status r
  /\ response_headers (reply options hash i request c r o w).2 !! str "Location" = response_headers r !! str "Location".
Proof.
  unfold reply. cbn [snd]. destruct (bool_decide _); [|done]. split; [done|]. cbn [head_only response_headers].
  by rewrite lookup_insert_ne.
Qed.
Lemma decorate_status c r : status (decorate options c r) = status r.
Proof. unfold decorate, with_cors. by destruct (cors_allow_origin options), (enable_range_requests options). Qed.
Lemma rendered_status p q o w w' r : render_media_playlist options p q o w = Ok (w', r) -> status r = 200.
Proof.
  unfold render_media_playlist. intros H. apply bind_Ok_inv in H as (s & _ & H). apply bind_Ok_inv in H as ([s' b] & _ & H).
  injection H as _ <-. by rewrite decorate_status.
Qed.
Lemma playlist_status i p request o w w' out : serve_playlist options hash i p request o w = Ok (w', out) ->
  exists r, out = Reply r /\ status r = 200.
Proof.
  unfold serve_playlist. intros H. apply bind_Ok_inv in H as ([w1 r] & Hr & H). apply rendered_status in Hr.
  pose proof (reply_status i request true r o w1) as [Hs _]. destruct (reply _ _ _ _ _ _ _ _) as [w2 r2]. injection H as <- <-.
  exists r2. split; [done|]. cbn [snd] in Hs. by rewrite Hs.
Qed.
Lemma segment_status request p name w w' r : serve_segment options request p name w = Ok (w', r) -> status r <> 302.
Proof.
  unfold serve_segment. intros H. apply bind_Ok_inv in H as (s & _ & H). destruct (find_media s name) as [s' [data|]]; [|by injection H as <- <-].
  destruct (if enable_range_requests options then _ else _) as [range|]; [destruct (parse_range _ _) as [[first last]|]|];
    injection H as <- <-; cbn [with_header status plain]; rewrite ?decorate_status; done.
Qed.
Lemma key_status e resource : status (serve_key options e resource) <> 302.
Proof.
  unfold serve_key, with_cors. destruct e as [e|]; [|done]. destruct (enabled e); [|done]. cbn [negb]. destruct (find_key _ _); [|done].
  by destruct (cors_allow_origin options).
Qed.

Definition rendition_location (first : Rendition) (application : text) : text :=
  route_prefix options ++ "/"%char :: application ++ "/"%char :: rendition_stream_from_uri (str (rendition_uri first))
  ++ str "/index.m3u8".
Lemma replied i request c x o y w' out :
  (let '(w, r) := reply options hash i request c x o y in Ok (w, Reply r)) = Ok (w', out) ->
  exists r, out = Reply r /\ status r = status x /\ response_headers r !! str "Location" = response_headers x !! str "Location".
Proof.
  pose proof (reply_status i request c x o y) as H. destruct (reply _ _ _ _ _ _ _ _) as [w2 r2]. intros [= <- <-]. by exists r2.
Qed.
Lemma reload_status i p request o w w' r : reload options hash i p request o w = Ok (w', Reply r) -> status r = 200.
Proof.
  assert (Hp : forall w, serve_playlist options hash i p request o w = Ok (w', Reply r) -> status r = 200).
  { intros w1 H. apply playlist_status in H as (r1 & [= <-] & Hs). done. }
  unfold reload. destruct (wanted_position options request) as [[msn part]|]; [|apply Hp]. intros H.
  apply bind_Ok_inv in H as (s & _ & H). destruct (has_reached s msn part); [by eapply Hp|].
  apply bind_Ok_inv in H as ([w1 r1] & _ & H). by destruct (new_cell _ _).
Qed.

(** Among what is served, only a master playlist redirects. *)
Lemma serve_redirects i e p request application resource o w w' r :
  serve options hash i e p request application resource o w = Ok (w', Reply r) -> status r = 302 ->
  resource = str "master.m3u8"
  /\ status (serve_master_playlist options request (default [] (renditions e)) application) = 302
  /\ response_headers r !! str "Location"
     = response_headers (serve_master_playlist options request (default [] (renditions e)) application) !! str "Location".
Proof.
  unfold serve. intros H Hs. destruct (bool_decide_reflect (resource = str "master.m3u8")) as [->|Hne].
  - apply replied in H as (r1 & [= <-] & H1 & H2). by rewrite <- H1.
  - exfalso. destruct p as [p|]; [|done]. destruct (bool_decide _).
    { destruct (enable_iframe_playlists options); cbn [negb] in H; [|by injection H as <- <-].
      apply bind_Ok_inv in H as ([w1 r1] & H1 & H). apply bind_Ok_inv in H1 as (s & _ & H1). injection H1 as <- <-.
      apply replied in H as (r1 & [= <-] & H1 & _). rewrite H1, decorate_status in Hs. done. }
    destruct (ends_with resource (str ".m3u8")); [apply reload_status in H; by rewrite H in Hs|].
    destruct (ends_with resource (str ".ts")).
    { apply bind_Ok_inv in H as ([w1 r1] & H1 & H). apply segment_status in H1. apply replied in H as (r2 & [= <-] & H2 & _). by rewrite H2 in Hs. }
    destruct (_ && _); [|by injection H as <- <-]. apply replied in H as (r1 & [= <-] & H1 & _). rewrite H1 in Hs. by apply key_status in Hs.
Qed.

Lemma master_goes request rs application :
  status (serve_master_playlist options request rs application) = 302 ->
  exists first, first ∈ rs /\
    response_headers (serve_master_playlist options request rs application) !! str "Location"
    = Some (let location := rendition_location first application in
            match query request with [] => location | q => location ++ "?"%char :: q end).
Proof.
  unfold serve_master_playlist, rendition_location. destruct rs as [|first rs]; [done|]. intros H. exists first. split; [apply list_elem_of_here|].
  destruct (enable_fast_join options && _); [|by rewrite decorate_status in H]. unfold redirect, with_cors.
  destruct (cors_allow_origin options); cbn [with_header response_headers]; rewrite ?lookup_insert_ne by done; apply lookup_insert_eq.
Qed.

Lemma session_redirect_goes request stream resource o r :
  session_redirect options request stream resource o = Some r -> status r = 302 ->
  enable_playback_sessions options && ends_with resource (str ".m3u8") = true
  /\ has_session options (query request) = false
  /\ exists session, is_playback_session session = true
     /\ response_headers r !! str "Location"
        = Some (path request ++ "?"%char :: session_query options (query request) session stream).
Proof.
  unfold session_redirect. destruct (enable_playback_sessions options && _); [|done]. destruct (has_session _ _); [done|]. cbn [negb].
  set (session := if is_playback_session _ then _ else new_session o). destruct (is_playback_session session) eqn:Es; cbn [negb]; [|by intros [= <-]].
  intros [= <-] _. split_and!; [done..|]. exists session. split; [done|]. unfold redirect, with_cors.
  destruct (is_playback_session _), (cors_allow_origin options); cbn [with_header response_headers]; rewrite ?lookup_insert_ne by done; apply lookup_insert_eq.
Qed.
Lemma session_redirect_none request stream resource o :
  session_redirect options request stream resource o = None ->
  enable_playback_sessions options && ends_with resource (str ".m3u8") && negb (has_session options (query request)) = false.
Proof.
  unfold session_redirect. destruct (enable_playback_sessions options && _); [|done]. destruct (has_session _ _); [done|]. cbn [negb].
  by match goal with |- context [if negb ?b then _ else _] => destruct b end.
Qed.

Lemma handle_redirects request o w w' r : in_prefix options (path request) = true ->
  handle request o w = Ok (w', r) -> status r = 302 ->
  exists application stream resource i e,
    route options request = Some (application, stream, resource) /\ entries w !! i = Some e
    /\ (session_redirect options request stream resource o = Some r
        \/ session_redirect options request stream resource o = None /\ resource = str "master.m3u8"
           /\ status (serve_master_playlist options request (default [] (renditions e)) application) = 302
           /\ response_headers r !! str "Location"
              = response_headers (serve_master_playlist options request (default [] (renditions e)) application) !! str "Location").
Proof.
  unfold HlsHttpHandler.handle. intros Hp H Hs. apply bind_Ok_inv in H as ([w1 out] & H & Hout).
  assert (Hr : exists r1, out = Reply r1 /\ status r1 = 302 /\ r1 = r).
  { destruct out as [r1|x]; [exists r1; by injection Hout as <- <-|]. exfalso. apply bind_Ok_inv in Hout as ([[w2 r2] parked] & Hpk & Hout).
    assert (Hr : r2 = r) by (destruct parked; [|by injection Hout as <- <-]; apply bind_Ok_inv in Hout as (w3 & _ & [= _ ->]); done).
    subst r2. unfold park in Hpk. apply bind_Ok_inv in Hpk as (e & _ & Hpk). destruct (_ <? _); [by injection Hpk as <- <- <-|].
    apply bind_Ok_inv in Hpk as ([w3 out] & H3 & Hpk). apply playlist_status in H3 as (r3 & -> & H3). injection Hpk as <- <- <-. by rewrite H3 in Hs. }
  destruct Hr as (r1 & -> & _ & ->). clear Hout. unfold HlsHttpHandler.handle_request in H. rewrite Hp in H. cbn [negb] in H.
  destruct (negb _); [by injection H as <- <-|]. destruct (negb _); [by injection H as <- <-|].
  destruct (route options request) as [[[application stream] resource]|]; [|by injection H as <- <-].
  destruct (negb _); [by injection H as <- <-|]. destruct (negb _); [by injection H as <- <-|].
  destruct (find_entry w application stream) as [[i e]|] eqn:Ee; [|by injection H as <- <-].
  exists application, stream, resource, i, e. split; [done|]. split.
  { unfold find_entry in Ee. destruct (streams_ w !! _) as [j|]; [|done]. destruct (entries w !! j) eqn:Ej; [|done]. by injection Ee as <- <-. }
  destruct (store e); [|destruct (negb _); [by injection H as <- <-|]];
    (destruct (session_redirect _ _ _ _ _) as [r1|]; [left; by injection H as <- <-|right]);
    apply serve_redirects in H as (? & ? & ?); done.
Qed.

Lemma rendition_route request first application :
  path request = rendition_location first application ->
  in_prefix options (path request) = true
  /\ (forall a s resource, route options request = Some (a, s, resource) -> resource = str "index.m3u8").
Proof.
  unfold rendition_location. intros E. assert (Hn : forall l : text, take (length (route_prefix options)) (route_prefix options ++ l) = route_prefix options)
    by (intros l; apply take_app_length). split.
  - unfold in_prefix, starts_with. rewrite E, Hn, bool_decide_eq_true_2 by done. rewrite drop_app_length. cbn [head].
    rewrite bool_decide_eq_true_2, orb_true_r by done. done.
  - intros a s resource. unfold route, split_path. rewrite E, drop_app_length.
    destruct (pieces_ends "/" (str "index.m3u8")) with (x := "/"%char :: application ++ "/"%char :: rendition_stream_from_uri (str (rendition_uri first)))
      as [ps Hps]; [rewrite list_elem_of_In; vm_compute; naive_solver|done|].
    cbn [app] in Hps. rewrite <- app_assoc in Hps. cbn [app] in Hps. change (str "/index.m3u8") with ("/"%char :: str "index.m3u8"). rewrite Hps.
    rewrite list.filter_app. destruct (existsb bad_part _); [done|]. intros H.
    assert (Hf : filter (fun part => negb (is_empty part)) (ps : list text) ++ [str "index.m3u8"] = [a; s] ++ [resource]).
    { change (filter (fun part => negb (is_empty part)) [str "index.m3u8"]) with [str "index.m3u8"] in H.
      destruct (filter (fun part => negb (is_empty part)) ps ++ [str "index.m3u8"]) as [|x [|y [|z [|]]]]; try done. by injection H as -> -> ->. }
    by apply app_inj_tail in Hf as [_ <-].
Qed.

Lemma in_prefix_path request c : in_prefix options (path request) = true -> c ∉ path request -> c ∉ route_prefix options.
Proof.
  unfold in_prefix, starts_with. intros [H _]%andb_true_iff Hc Hin. apply bool_decide_eq_true in H. rewrite <- H in Hin.
  by apply subseteq_take in Hin.
Qed.

Definition keeps (request again : HttpRequest) : Prop :=
  forall k, k ∉ session_params -> parse_query (query again) !! k = parse_query (query request) !! k.

Lemma redirected_step request again : ours request -> redirected request again ->
  ours again /\ (hops again < hops request)%nat /\ keeps request again.
Proof.
  intros [Hp Hq] [o w w' r location Hh Hw Hs Hl ->].
  destruct (handle_redirects _ _ _ _ _ Hp Hh Hs) as (application & stream & resource & i & e & Hr & He & H).
  destruct (route_part _ _ _ _ _ Hr Hq) as [Ha Hn]. destruct H as [H|(Hx & -> & Hm & Hl2)].
  - destruct (session_redirect_goes _ _ _ _ _ H Hs) as (He2 & Hh2 & session & Hok & Hl3). rewrite Hl in Hl3. injection Hl3 as ->.
    unfold visit. rewrite split_at by done. split; [by split|]. split; [|intros k Hk; cbn [query]; by apply session_query_keeps].
    unfold hops, wants_session, wants_master. unfold route in Hr |- *. cbn [path query]. rewrite Hr, He2, Hh2, session_query_has by done.
    cbn. lia.
  - rewrite Hl2 in Hl. destruct (master_goes _ _ _ Hm) as (first & Hin & Hl3). rewrite Hl3 in Hl. injection Hl as <-.
    assert (Hf : "?"%char ∉ rendition_location first application).
    { unfold rendition_location. rewrite elem_of_app, elem_of_cons, elem_of_app, elem_of_cons, elem_of_app.
      pose proof (in_prefix_path _ _ Hp Hq). destruct (renditions e) as [rs|] eqn:Er; [|by apply elem_of_nil in Hin].
      pose proof (Hw _ _ _ _ He Er Hin). assert ("?"%char ∉ str "/index.m3u8") by (rewrite list_elem_of_In; vm_compute; naive_solver).
      intros [?|[?|[?|[?|[?|?]]]]]; done. }
    assert (Hv : path (visit (match query request with [] => rendition_location first application
                              | q => rendition_location first application ++ "?"%char :: q end) request) = rendition_location first application
                 /\ query (visit (match query request with [] => rendition_location first application
                              | q => rendition_location first application ++ "?"%char :: q end) request) = query request).
    { unfold visit. destruct (query request) as [|c q]; [by rewrite split_none|by rewrite split_at]. }
    cbv zeta. set (again := visit _ _) in Hv |- *. destruct Hv as [Hv1 Hv2]. destruct (rendition_route _ _ _ Hv1) as [H1 H2].
    split; [split; [done|by rewrite Hv1]|]. split; [|intros k _; by rewrite Hv2].
    unfold hops, wants_session, wants_master. rewrite Hr. rewrite (bool_decide_eq_true_2 (str "master.m3u8" = _)) by done.
    destruct (route options again) as [[[a s] res]|] eqn:Era; [|cbn; lia].
    rewrite (H2 _ _ _ eq_refl), Hv2.
    apply session_redirect_none in Hx.
    change (ends_with (str "index.m3u8") (str ".m3u8")) with (ends_with (str "master.m3u8") (str ".m3u8")).
    rewrite Hx, (bool_decide_eq_false_2 (str "index.m3u8" = _)) by done. cbn [Nat.b2n]. lia.
Qed.

(** C31. Following redirects ends: from any request behind the prefix, whatever happens to the
    streams between one request and the next, a client is redirected twice at most (once to be
    given a session, once from a master playlist to the first rendition), never in a circle;
    and every parameter it came with, its token among them, is still there with its value. *)
Theorem redirects_end n request again : ours request -> nsteps redirected n request again ->
  (n <= 2)%nat /\ keeps request again.
Proof.
  intros Ho Hn. assert (H : ours again /\ (n + hops again <= hops request)%nat /\ keeps request again).
  { revert Ho. induction Hn as [x|n x y z Hxy _ IH]; intros Ho; [by split_and!; [|lia|]|].
    destruct (redirected_step _ _ Ho Hxy) as (Hy & Hlt & Hk). destruct (IH Hy) as (Hz & Hle & Hk2). split_and!; [done|lia|].
    intros k Hin. by rewrite Hk2, Hk. }
  destruct H as (_ & H & Hk). split; [|done]. unfold hops in H. destruct (wants_session request), (wants_master request); cbn in H; lia.
Qed.
End Redirects.

(** * A master playlist with sessions and fast join *)

Definition join_options : HlsHttpOptions :=
  mkHlsHttpOptions (str "/hls") false [] [] (str "x-edge-token") true false true true (str "no-cache") (str "public")
    (str "public") true (str "*") (str "viewer") 60 false true false 9000 10 true (str "private").
Definition join_entry : StreamEntry :=
  set_renditions (Some [mkRendition "../cam_360/index.m3u8" 800000 0 "" 640 360 0 "360p" ""]) new_entry.
Definition join_world : World :=
  put_entry 0 join_entry (set_streams {[stream_key (str "live") (str "cam") := 0]} empty_world).
Definition join_outside : Outside := mkOutside 0 (fun _ => 0) 0 (repeat "a"%char 32).
Definition join_request (q : string) : HttpRequest :=
  mkHttpRequest (str "GET") (str "/hls/live/cam/master.m3u8") (str q) (str "HTTP/1.1") ∅ [] [].

Lemma join_names : plain_names join_world.
Proof.
  intros i e rs x He Hr Hx. unfold join_world, put_entry, set_entries in He. cbn [entries set_streams empty_world] in He.
  apply lookup_insert_Some in He as [[<- <-]|[_ He]]; [|done]. injection Hr as <-. apply list_elem_of_singleton in Hx as ->.
  rewrite list_elem_of_In. vm_compute. naive_solver.
Qed.

Lemma redirects_end_witness :
  let given := visit (str "/hls/live/cam/master.m3u8?token=t&viewer_session=aaaaaaaaaaaaaaaaaaaaaaaaaaaaaaaa&viewer_stream=cam")
                 (join_request "") in
  let last := visit (str "/hls/live/cam_360/index.m3u8?token=t&viewer_session=aaaaaaaaaaaaaaaaaaaaaaaaaaaaaaaa&viewer_stream=cam") given in
  (2 <= 2)%nat /\ keeps (join_request "token=t") last.
Proof.
  cbv zeta.
  apply (redirects_end join_options no_hmac no_hash None None 2); [split; [vm_compute; done|rewrite list_elem_of_In; vm_compute; naive_solver]|].
  eapply nsteps_l.
  { eapply (Redirected _ _ _ _ _ _ _ join_outside join_world); [vm_compute; reflexivity|exact join_names|reflexivity|vm_compute; reflexivity|reflexivity]. }
  eapply nsteps_l; [|apply nsteps_O].
  eapply (Redirected _ _ _ _ _ _ _ join_outside join_world); [vm_compute; reflexivity|exact join_names|reflexivity|vm_compute; reflexivity|reflexivity].
Defined.

(** * Which bytes are sent *)

(** What a client asks for, as it is written in the header, and what that is of [size] bytes:
    the first and the last byte. *)
Inductive ByteRange := FirstToLast (first last : Z) | FirstOn (first : Z) | LastBytes (count : Z).
Definition print_range (g : ByteRange) : text :=
  str "bytes=" ++ match g with
                  | FirstToLast first last => dec first ++ "-"%char :: dec last
                  | FirstOn first => dec first ++ ["-"%char]
                  | LastBytes count => "-"%char :: dec count
                  end.
Definition numbers_of (g : ByteRange) : list Z :=
  match g with FirstToLast first last => [first; last] | FirstOn first => [first] | LastBytes count => [count] end.
Definition bytes_of (g : ByteRange) (size : Z) : option (Z * Z) :=
  match g with
  | FirstToLast first last => if (first <=? last) && (first <? size) then Some (first, Z.min last (size - 1)) else None
  | FirstOn first => if first <? size then Some (first, size - 1) else None
  | LastBytes count => if 0 <? count then Some (Z.max 0 (size - count), size - 1) else None
  end.

Lemma dec_free c z : 0 <= z -> digit_value c = None -> c ∉ dec z.
Proof. intros Hz Hc Hin. pose proof (dec_digits z Hz) as H. rewrite list.Forall_forall in H. destruct (H c Hin) as [v Hv]. congruence. Qed.
Lemma dec_some z : 0 <= z -> dec z <> [].
Proof. intros H. by destruct (scan_dec z H). Qed.

Lemma spec_parts first last : "-"%char ∉ first -> "-"%char ∉ last -> ","%char ∉ first -> ","%char ∉ last ->
  find_char "," (first ++ "-"%char :: last) = None /\ find_char "-" (first ++ "-"%char :: last) = Some (length first)
  /\ take (length first) (first ++ "-"%char :: last) = first /\ drop (S (length first)) (first ++ "-"%char :: last) = last.
Proof.
  intros H1 H2 H3 H4. split_and!.
  - apply find_char_None. rewrite elem_of_app, elem_of_cons. intros [?|[?|?]]; done.
  - by apply find_char_app.
  - apply take_app_length.
  - rewrite cons_middle, app_assoc. apply drop_app_length'. rewrite length_app. cbn. lia.
Qed.

(** A range that is printed is read as the bytes it asks for. *)
Lemma parse_print g size : 0 < size < 2 ^ 64 -> Forall (fun z => 0 <= z < 2 ^ 64) (numbers_of g) ->
  parse_range (print_range g) size = bytes_of g size.
Proof.
  intros Hs Hg. assert (Hu : u64 (size - 1) = size - 1) by (unfold u64; rewrite Z.mod_small; lia).
  assert (Hf : forall z c, 0 <= z -> c = ","%char \/ c = "-"%char -> c ∉ dec z).
  { intros z c Hz [->| ->]; by apply dec_free. }
  unfold parse_range, print_range. rewrite Hu.
  match goal with |- context [starts_with (str "bytes=") (str "bytes=" ++ ?l)] => set (spec := l);
    change (starts_with (str "bytes=") (str "bytes=" ++ spec)) with true;
    change (drop 6 (str "bytes=" ++ spec)) with spec end.
  cbv zeta. cbn [negb].
  destruct g as [first last|first|count]; cbn [numbers_of bytes_of] in *; rewrite !list.Forall_cons in Hg; subst spec.
  - destruct Hg as (H1 & H2 & _). destruct (spec_parts (dec first) (dec last)) as (-> & -> & -> & ->); [apply Hf; auto; lia..|].
    rewrite !from_chars_dec by done. pose proof (dec_some first). pose proof (dec_some last).
    destruct (dec first); [naive_solver lia|]. destruct (dec last); [naive_solver lia|].
    destruct (Z.leb_spec size last); repeat match goal with |- context [Z.leb ?a ?b] => destruct (Z.leb_spec a b) | |- context [Z.ltb ?a ?b] => destruct (Z.ltb_spec a b) end;
      cbn [andb]; try done; try lia; do 2 f_equal; lia.
  - destruct Hg as (H1 & _). destruct (spec_parts (dec first) []) as (-> & -> & -> & ->); [try apply Hf; auto; try lia; apply not_elem_of_nil..|].
    rewrite !from_chars_dec by done. pose proof (dec_some first). destruct (dec first); [naive_solver lia|].
    repeat match goal with |- context [Z.leb ?a ?b] => destruct (Z.leb_spec a b) | |- context [Z.ltb ?a ?b] => destruct (Z.ltb_spec a b) end;
      cbn [andb]; try done; try lia; do 2 f_equal; lia.
  - destruct Hg as (H1 & _). destruct (spec_parts [] (dec count)) as (H2 & H3 & H4 & H5); [apply not_elem_of_nil|apply Hf; auto; lia|apply not_elem_of_nil|apply Hf; auto; lia|].
    cbn [app length] in *. rewrite H2, H3, H4, H5, from_chars_dec by done.
    destruct (Z.eqb_spec count 0), (Z.ltb_spec 0 count); try lia; [done|]. destruct (Z.leb_spec size count); do 2 f_equal; lia.
Qed.

Section Ranges.
Context (options : HlsHttpOptions).

(** The status, the bytes sent and the Content-Range of the answer to a request for [asked] of
    [data]. *)
Definition slice (data : list byte) (first last : Z) : list byte :=
  take (Z.to_nat (last - first + 1)) (drop (Z.to_nat first) data).
Definition answer_for (asked : option ByteRange) (data : list byte) : Z * text * option text :=
  let size := zlen data in
  match asked with
  | None => (200, chars data, None)
  | Some g =>
      match bytes_of g size with
      | Some (first, last) =>
          (206, chars (slice data first last),
           Some (str "bytes " ++ dec first ++ str "-" ++ dec last ++ str "/" ++ dec size))
      | None => (416, str "requested range not satisfiable", Some (str "bytes */" ++ dec size))
      end
  end.
Definition valid_range (g : ByteRange) : Prop := Forall (fun z => 0 <= z < 2 ^ 64) (numbers_of g).

Lemma bytes_within g size first last : 0 < size -> valid_range g -> bytes_of g size = Some (first, last) -> 0 <= first <= last /\ last < size.
Proof.
  unfold valid_range. intros Hs Hg. destruct g as [a b|a|n]; cbn [bytes_of numbers_of] in *; rewrite !list.Forall_cons in Hg.
  - destruct (Z.leb_spec a b), (Z.ltb_spec a size); cbn [andb]; try done. intros [= <- <-]. lia.
  - destruct (Z.ltb_spec a size); [|done]. intros [= <- <-]. lia.
  - destruct (Z.ltb_spec 0 n); [|done]. intros [= <- <-]. lia.
Qed.
Lemma chars_length data : zlen (chars data) = zlen data.
Proof. unfold chars, zlen. by rewrite length_map. Qed.

Lemma media_payload data first last c : 0 <= first <= last -> last < zlen data ->
  payload (media (chars data) first (last - first + 1) c) = Some (chars (slice data first last)).
Proof.
  intros H1 H2. unfold payload, media. cbn [shared_body shared_body_offset shared_body_length].
  destruct (chars data) as [|x l] eqn:E; [pose proof (chars_length data) as H; rewrite E in H; unfold zlen in H at 1; cbn in H; lia|].
  rewrite <- E, chars_length. destruct (Z.ltb_spec (zlen data) first); [lia|]. destruct (Z.ltb_spec (zlen data - first) (last - first + 1)); [lia|].
  cbn [orb]. unfold slice, chars. by rewrite skipn_map, firstn_map.
Qed.

Lemma media_size data first count c : 0 < zlen data -> payload_size (media (chars data) first count c) = count.
Proof.
  intros H. unfold payload_size, media. cbn [shared_body shared_body_length].
  destruct (chars data) as [|x l] eqn:E; [|done]. pose proof (chars_length data) as H1. rewrite E in H1. unfold zlen in H1 at 1. cbn in H1. lia.
Qed.
Lemma slice_length data first last : 0 <= first <= last -> last < zlen data -> zlen (chars (slice data first last)) = last - first + 1.
Proof. intros H1 H2. rewrite chars_length. unfold slice, zlen in *. rewrite length_take, length_drop. lia. Qed.

Lemma decorate_keeps c r : payload (decorate options c r) = payload r /\ status (decorate options c r) = status r
  /\ payload_size (decorate options c r) = payload_size r
  /\ response_headers (decorate options c r) !! str "Content-Range" = response_headers r !! str "Content-Range".
Proof.
  unfold decorate, with_cors. destruct (cors_allow_origin options), (enable_range_requests options); split_and!; try done;
    cbn [with_header response_headers]; by rewrite !lookup_insert_ne.
Qed.

(** C32. A segment or part that the store holds is sent as it was asked for: without a range
    all of it; for "first-last", "first-" and "-count" exactly the bytes named, cut off at the
    end, with status 206 and the Content-Range that says so; and when the range has no byte of
    it, status 416.  The length announced is that of the bytes, and of the state only the
    counters change. *)
Theorem ranges_are_exact request p name w s data asked :
  enable_range_requests options = true -> stores w !! p = Some s -> (find_media s name).2 = Some data ->
  0 < zlen data < 2 ^ 64 ->
  request_headers request !! str "range" = print_range <$> asked -> (forall g, asked = Some g -> valid_range g) ->
  exists w' r, serve_segment options request p name w = Ok (w', r)
    /\ (status r, payload r, response_headers r !! str "Content-Range")
       = ((answer_for asked data).1.1, Some (answer_for asked data).1.2, (answer_for asked data).2)
    /\ payload_size r = zlen (answer_for asked data).1.2
    /\ entries w' = entries w /\ streams_ w' = streams_ w /\ cells w' = cells w
    /\ exists t, stores w' = <[p := with_stats s t]> (stores w).
Proof.
  intros Ho Hs Hd Hsize Hh Hg. unfold serve_segment, store_at. rewrite Hs. cbn [rbind].
  assert (Hf : exists t, (find_media s name).1 = with_stats s t).
  { unfold find_media, find_segment, find_part. destruct (by_name_ s !! _); [by eexists|]. cbn [parts_by_name_ with_stats].
    destruct (parts_by_name_ s !! _); by eexists. }
  destruct (find_media s name) as [s' d]. cbn [fst snd] in Hd, Hf. destruct Hf as [t ->]. subst d.
  rewrite Ho, Hh, chars_length. unfold answer_for. destruct asked as [g|]; cbn [fmap option_fmap option_map].
  - rewrite parse_print by (try done; by apply Hg). destruct (bytes_of g (zlen data)) as [[first last]|] eqn:Eb.
    + destruct (bytes_within g (zlen data) first last) as [H1 H2]; [lia|by apply Hg|done|].
      assert (Hu : u64 (last - first + 1) = last - first + 1) by (unfold u64; rewrite Z.mod_small; lia). rewrite Hu.
      eexists _, _. split; [reflexivity|]. cbn [fst snd].
      destruct (decorate_keeps (segment_cache_control options) (media (chars data) first (last - first + 1) 206)) as (K1 & K2 & K3 & _).
      split_and!; try done; [| |by eexists].
      * change (payload (with_header ?n ?v ?r)) with (payload r). change (status (with_header ?n ?v ?r)) with (status r).
        rewrite K1, K2, media_payload by done. cbn [with_header response_headers]. by rewrite lookup_insert_eq.
      * change (payload_size (with_header ?n ?v ?r)) with (payload_size r). rewrite K3, slice_length by lia. by apply media_size; lia.
    + eexists _, _. split; [reflexivity|]. cbn [fst snd]. split_and!; try done; by eexists.
  - eexists _, _. split; [reflexivity|]. cbn [fst snd].
    destruct (decorate_keeps (segment_cache_control options) (media (chars data) 0 (zlen data) 200)) as (K1 & K2 & K3 & K4).
    split_and!; try done; [|rewrite K3, chars_length; apply media_size; lia|by eexists].
    rewrite K1, K2, K4. replace (media (chars data) 0 (zlen data) 200) with (media (chars data) 0 (zlen data - 1 - 0 + 1) 200) by (f_equal; lia).
    rewrite media_payload by lia.
    unfold slice. rewrite drop_0, take_ge by (unfold zlen; lia). done.
Qed.
End Ranges.

(** * Three bytes in the middle *)

Definition range_data : list byte := map z2b [10; 11; 12; 13; 14].
Definition range_store : SegmentStore :=
  push_segment (make_store default_store_config) (mkSegment 0 "seg-0.ts" range_data 4000 false [] None 0) false 0.
Definition range_world : World := put_store 0 range_store empty_world.
Definition range_request : HttpRequest :=
  mkHttpRequest (str "GET") [] [] (str "HTTP/1.1") {[str "range" := str "bytes=1-3"]} [] [].

Lemma ranges_are_exact_witness :
  exists w' r, serve_segment default_hls_options range_request 0 (str "seg-0.ts") range_world = Ok (w', r)
    /\ (status r, payload r, response_headers r !! str "Content-Range")
       = (206, Some (chars (map z2b [11; 12; 13])), Some (str "bytes 1-3/5"))
    /\ payload_size r = 3
    /\ entries w' = entries range_world /\ streams_ w' = streams_ range_world /\ cells w' = cells range_world
    /\ exists t, stores w' = <[0 := with_stats range_store t]> (stores range_world).
Proof.
  apply (ranges_are_exact default_hls_options range_request 0 (str "seg-0.ts") range_world range_store range_data
    (Some (FirstToLast 1 3))); [reflexivity|vm_compute; reflexivity|vm_compute; reflexivity|vm_compute; split; congruence|vm_compute; reflexivity|].
  intros g [= <-]. repeat constructor; done.
Defined.
