(* ===== verification/HlsHttpParking.v ===== *)
(** Requests parked on the live edge, as the threads of control/hls_http_handler.cpp see
    them: the step relation between the HTTP workers, the producers of media and the timers
    of the server, and what its steps leave alone.

    A pass over the waiters is what [release_waiters] does under the lock of the entry; the
    answers it has to give afterwards, without the lock, are steps of their own.  So are the
    check whether a position is reached and the parking of the request that found it is not. *)

From S2P Require Import Prelude Text HlsSegment HlsPlaylist HlsKeys HlsStore HttpMessage AsyncHttp HlsHttp ViewerSessions HlsHttpHandler.
From Stdlib Require Import Ascii.

(** [Own]: the pass a request makes once it is parked.  [Notified]: the one the notifier of a
    store makes. *)
Inductive Pass := Own (i p : Z) | Notified (i p : Z).

Record System := mkSystem {
  world : World;
  passes : list Pass;                        (* due *)
  answering : list (Z * PlaylistWaiter);     (* moved out by a pass over a store, to be answered *)
  parking : list Parking;                    (* found the position not reached, not parked yet *)
  origin : gmap Z Z                          (* of each deferred response handed out, the store *)
}.
Definition with_world (w : World) (y : System) : System :=
  mkSystem w (passes y) (answering y) (parking y) (origin y).
Definition start : System := mkSystem empty_world [] [] [] ∅.

Section Steps.
Context (options : HlsHttpOptions) (hmac_sha256_hex : text -> text -> text) (hash : text -> Z).
Context (enabled_checker_ : option (text -> text -> bool)) (next_ : option (HttpRequest -> HttpResponse)).
Context (evp : list byte -> list byte -> list byte -> EvpPass).
Notation handle_request := (handle_request options hmac_sha256_hex hash enabled_checker_ next_).

Definition run_pass (x : Pass) (w : World) : Res (World * list PlaylistWaiter) :=
  match x with
  | Own i p => partition_waiters i p w
  | Notified i p =>
      match entries w !! i with
      | None => Ok (w, [])
      | Some e => if decide (store e = Some p) then partition_waiters i p w else Ok (w, [])
      end
  end.
Definition store_of (x : Pass) : Z := match x with Own _ p | Notified _ p => p end.

(** What the producer does to a store, and whether it has its notifier called. *)
Inductive produced (s : SegmentStore) : SegmentStore -> bool -> Prop :=
| Adds_segment enc x m1 m2 t s' enc' events :
    add_segment evp s enc x m1 m2 t = Ok (s', enc', events) -> produced s s' (bool_decide (events <> []))
| Adds_part enc x m s' enc' events :
    add_part evp s enc x m = Ok (s', enc', events) -> produced s s' (bool_decide (events <> []))
| Ends : produced s (mark_ended s).1 (bool_decide ((mark_ended s).2 <> []))
| Lives : produced s (mark_live s) false
| Clears : produced s (clear s) false.

Definition notified_passes (p : Z) (notified : bool) (w : World) : list Pass :=
  if notified then match notifiers w !! p with Some i => [Notified i p] | None => [] end else [].

(** The thread that has taken waiters out of an entry answers them; a pass that is due is
    made. *)
Inductive work (y : System) : System -> Prop :=
| S_pass l1 x l2 w' ready :
    passes y = l1 ++ x :: l2 -> run_pass x (world y) = Ok (w', ready) ->
    work y (mkSystem w' (l1 ++ l2) (answering y ++ map (pair (store_of x)) ready) (parking y) (origin y))
| S_answer l1 p x l2 o w' r :
    answering y = l1 ++ (p, x) :: l2 ->
    render_media_playlist options p (child_query x) o (world y) = Ok (w', r) ->
    work y (mkSystem (resolve_cell (waiter_deferred x) r w') (passes y) (l1 ++ l2) (parking y) (origin y)).

(** A store is registered once, before anything waits for it, or again where it is. *)
Definition may_register (application stream : text) (p : option Z) (w : World) : Prop :=
  forall q, p = Some q -> is_Some (stores w !! q)
    /\ (notifiers w !! q = None \/ find_stream w application stream = Some q).

Inductive step (y : System) : System -> Prop :=
| S_work y' : work y y' -> step y y'
| S_create p config :
    stores (world y) !! p = None -> repeat_last_segment_on_stall config = false ->
    step y (with_world (put_store p (make_store config) (world y)) y)
| S_register application stream p :
    may_register application stream p (world y) ->
    step y (with_world (register_stream options application stream p (world y)) y)
| S_unregister application stream :
    step y (with_world (unregister_stream application stream (world y)) y)
| S_renditions application stream rs :
    step y (with_world (set_stream_renditions application stream rs (world y)) y)
| S_encryptor application stream k :
    step y (with_world (set_stream_encryptor application stream k (world y)) y)
| S_link_stats application stream o :
    step y (with_world (link_stats application stream o (world y)).2 y)
| S_aggregate application stream o :
    step y (with_world (aggregate_link_stats application stream o (world y)).2 y)
| S_produce p s s' notified keys :
    stores (world y) !! p = Some s -> produced s s' notified ->
    step y (mkSystem (set_encryptors keys (put_store p s' (world y)))
              (passes y ++ notified_passes p notified (world y)) (answering y) (parking y) (origin y))
| S_handle request o w' out :
    handle_request request o (world y) = Ok (w', out) ->
    step y (mkSystem w' (passes y) (answering y)
              (parking y ++ match out with Parks x => [x] | Reply _ => [] end) (origin y))
| S_park l1 x l2 o w' r parked :
    parking y = l1 ++ x :: l2 -> park options hash x o (world y) = Ok (w', r, parked) ->
    step y (mkSystem w' (passes y ++ if parked then [Own (at_entry x) (at_store x)] else []) (answering y) (l1 ++ l2)
              (if parked then <[waiter_deferred (who x) := at_store x]> (origin y) else origin y))
| S_attach d c cell :
    cells (world y) !! d = Some cell ->
    step y (with_world
      (set_completions (completions (world y) ++ option_list (attach c cell).2)
         (set_cells (<[d := (attach c cell).1]> (cells (world y))) (world y))) y)
| S_cancel d cell :
    cells (world y) !! d = Some cell ->
    step y (with_world (set_cells (<[d := (cancel cell).1]> (cells (world y))) (world y)) y).
End Steps.

(** * What a step leaves alone *)

(** Two states of a store that differ in the statistics. *)
Definition alike (s s' : SegmentStore) : Prop := exists t, s' = with_stats s t.
Definition same_seat (e e' : StreamEntry) : Prop := store e' = store e /\ waiters e' = waiters e.

(** Streams, waiters, live edges and notifiers are the same; of the cells there may be new
    ones. *)
Record quiet (w w' : World) : Prop := mkQuiet {
  q_streams : streams_ w' = streams_ w;
  q_entries : forall i, option_Forall2 same_seat (entries w !! i) (entries w' !! i);
  q_stores : forall p, option_Forall2 alike (stores w !! p) (stores w' !! p);
  q_notifiers : notifiers w' = notifiers w;
  q_cells : cells w ⊆ cells w';
  q_fresh : forall d, is_Some (cells w' !! d) -> is_Some (cells w !! d) \/ next_object w <= d < next_object w';
  q_next : next_object w <= next_object w'
}.

Lemma alike_refl s : alike s s.
Proof. exists (stats_ s). by destruct s. Qed.
Lemma alike_trans a b c : alike a b -> alike b c -> alike a c.
Proof. intros [t ->] [u ->]. by exists u. Qed.
#[export] Instance quiet_refl : Reflexive quiet.
Proof.
  intros w. split; try done; intros; [destruct (entries w !! i)|destruct (stores w !! p)|by left]; constructor; [done|apply alike_refl].
Qed.
#[export] Instance quiet_trans : Transitive quiet.
Proof.
  intros a b c [A1 A2 A3 A4 A5 A6 A7] [B1 B2 B3 B4 B5 B6 B7]. split; try congruence; try lia.
  - intros i. specialize (A2 i). specialize (B2 i). destruct A2 as [x y [Ha1 Ha2]|]; [|done].
    inversion B2 as [x' z [Hb1 Hb2] Hx Hz|]; subst. constructor. split; congruence.
  - intros p. specialize (A3 p). specialize (B3 p). destruct A3 as [x y Ha|]; [|done].
    inversion B3 as [x' z Hb Hx Hz|]; subst. constructor. by eapply alike_trans.
  - by etrans.
  - intros d H. destruct (B6 d H) as [H1|H1]; [destruct (A6 d H1)|]; [by left|right; lia..].
Qed.

Lemma quiet_stats f w : quiet w (on_stats f w).
Proof. destruct (quiet_refl w); by split. Qed.
Lemma quiet_store p s t w : stores w !! p = Some s -> quiet w (put_store p (with_stats s t) w).
Proof.
  intros H. split; try done; cbn [put_store set_stores entries stores]; intros k; [destruct (entries w !! k); by constructor| |by left].
  destruct (decide (k = p)) as [->|Hne].
  - rewrite lookup_insert_eq, H. constructor. by exists t.
  - rewrite lookup_insert_ne by done. destruct (stores w !! k); constructor. apply alike_refl.
Qed.
Lemma quiet_entry i e e' w : entries w !! i = Some e -> same_seat e e' -> quiet w (put_entry i e' w).
Proof.
  intros H He. split; try done; cbn [put_entry set_entries entries stores]; intros k; [|destruct (stores w !! k); constructor; apply alike_refl|by left].
  destruct (decide (k = i)) as [->|Hne].
  - rewrite lookup_insert_eq, H. by constructor.
  - rewrite lookup_insert_ne by done. destruct (entries w !! k); by constructor.
Qed.
Lemma quiet_on_entry i f w : (forall e, same_seat e (f e)) -> quiet w (on_entry i f w).
Proof.
  intros Hf. split; try done; cbn [on_entry set_entries entries stores]; intros k; [|destruct (stores w !! k); constructor; apply alike_refl|by left].
  destruct (decide (k = i)) as [->|Hne].
  - rewrite lookup_alter_eq. destruct (entries w !! i); cbn; by constructor.
  - rewrite lookup_alter_ne by done. destruct (entries w !! k); by constructor.
Qed.
(** Objects are numbered in order. *)
Definition numbered (w : World) : Prop := forall d, is_Some (cells w !! d) -> d < next_object w.
Lemma quiet_cell c w : numbered w -> quiet w (new_cell c w).1.
Proof.
  intros Hn. unfold new_cell. cbn [fst]. assert (Hd : cells w !! next_object w = None).
  { destruct (cells w !! next_object w) eqn:E; [|done]. specialize (Hn (next_object w) ltac:(by rewrite E)). lia. }
  destruct (quiet_refl w) as [Q1 Q2 Q3 Q4 Q5 Q6 Q7]. split; try done; cbn [set_next_object set_cells cells next_object]; [by apply insert_subseteq| |lia].
  intros d [x Hx]. destruct (decide (d = next_object w)) as [->|Hne]; [right; lia|]. rewrite lookup_insert_ne in Hx by done. left. by rewrite Hx.
Qed.
Lemma quiet_numbered w w' : quiet w w' -> numbered w -> numbered w'.
Proof. intros [Q1 Q2 Q3 Q4 Q5 Q6 Q7] H d Hd. destruct (Q6 d Hd) as [H1|H1]; [apply H in H1; lia|lia]. Qed.

(** The stores do not repeat their last segment when the producer stalls. *)
Definition no_repeat (w : World) : Prop :=
  forall p s, stores w !! p = Some s -> repeat_last_segment_on_stall (store_config s) = false.
Lemma quiet_store_inv w w' p s' : quiet w w' -> stores w' !! p = Some s' -> exists s t, stores w !! p = Some s /\ s' = with_stats s t.
Proof.
  intros Q Hs. pose proof (q_stores _ _ Q p) as Hp. rewrite Hs in Hp. destruct (stores w !! p) as [s|]; inversion Hp as [x y [t Ha]|]; subst.
  by exists s, t.
Qed.
Lemma quiet_store_some w w' p : quiet w w' -> is_Some (stores w !! p) -> is_Some (stores w' !! p).
Proof. intros Q [s Hs]. pose proof (q_stores _ _ Q p) as Hp. rewrite Hs in Hp. inversion Hp as [x y Ha Hx Hy|]. by eexists. Qed.
Lemma quiet_entry_inv w w' i e' : quiet w w' -> entries w' !! i = Some e' ->
  exists e, entries w !! i = Some e /\ store e' = store e /\ waiters e' = waiters e.
Proof.
  intros Q Hs. pose proof (q_entries _ _ Q i) as Hp. rewrite Hs in Hp. destruct (entries w !! i) as [e|]; inversion Hp as [x y [Ha Hb]|]; subst.
  by exists e.
Qed.
Lemma quiet_entry_fwd w w' i e : quiet w w' -> entries w !! i = Some e ->
  exists e', entries w' !! i = Some e' /\ store e' = store e /\ waiters e' = waiters e.
Proof.
  intros Q Hs. pose proof (q_entries _ _ Q i) as Hp. rewrite Hs in Hp. inversion Hp as [x y [Ha Hb] Hx Hy|]; subst.
  by exists y.
Qed.
Lemma quiet_no_repeat w w' : quiet w w' -> no_repeat w -> no_repeat w'.
Proof. intros Q H p s' Hs. destruct (quiet_store_inv _ _ _ _ Q Hs) as (s & t & Hs1 & ->). by apply (H p s). Qed.

Section Quiet.
Context (options : HlsHttpOptions) (hmac_sha256_hex : text -> text -> text) (hash : text -> Z).
Context (enabled_checker_ : option (text -> text -> bool)) (next_ : option (HttpRequest -> HttpResponse)).
Notation handle_request := (handle_request options hmac_sha256_hex hash enabled_checker_ next_).

Lemma render_quiet p q o w w' r : no_repeat w -> render_media_playlist options p q o w = Ok (w', r) -> quiet w w'.
Proof.
  unfold render_media_playlist, store_at. intros Hn H. destruct (stores w !! p) as [s|] eqn:Es; [|done]. cbn [rbind] in H.
  unfold playlist, append_fallback_if_due_locked in H. cbn [store_config with_stats] in H. rewrite (Hn _ _ Es) in H. cbn [negb orb rbind] in H.
  injection H as <- _. by apply quiet_store.
Qed.
(** It answers: the store is there. *)
Lemma render_Ok p q o w : no_repeat w -> is_Some (stores w !! p) -> exists w' r, render_media_playlist options p q o w = Ok (w', r).
Proof.
  intros Hn [s Es]. unfold render_media_playlist, store_at. rewrite Es. cbn [rbind].
  unfold playlist, append_fallback_if_due_locked. cbn [store_config with_stats]. rewrite (Hn _ _ Es). cbn [negb orb rbind]. by do 2 eexists.
Qed.
Lemma segment_quiet request p name w w' r : serve_segment options request p name w = Ok (w', r) -> quiet w w'.
Proof.
  unfold serve_segment, store_at. intros H. destruct (stores w !! p) as [s|] eqn:Es; [|done]. cbn [rbind] in H.
  assert (Hf : exists t, (find_media s name).1 = with_stats s t).
  { unfold find_media, find_segment, find_part. destruct (by_name_ s !! _); [by eexists|]. cbn [parts_by_name_ with_stats].
    destruct (parts_by_name_ s !! _); by eexists. }
  destruct (find_media s name) as [s' [data|]]; cbn [fst] in Hf; destruct Hf as [t ->];
    pose proof (quiet_store p s t w Es) as Q; [|by injection H as <- _].
  destruct (if enable_range_requests options then _ else _) as [range|]; [destruct (parse_range _ _) as [[first last]|]|];
    injection H as <- _; [etrans; [exact Q|apply quiet_stats]|done|done].
Qed.
Lemma reply_quiet i request c r o w : quiet w (reply options hash i request c r o w).1.
Proof.
  unfold reply. cbn [fst]. destruct (_ && _); [|done]. unfold record_delivery. by apply quiet_on_entry.
Qed.
Lemma replied_quiet i request c x o y w' out :
  (let '(w, r) := reply options hash i request c x o y in Ok (w, Reply r)) = Ok (w', out) -> quiet y w' /\ exists r, out = Reply r.
Proof.
  pose proof (reply_quiet i request c x o y) as H. destruct (reply _ _ _ _ _ _ _ _) as [w2 r2]. intros [= <- <-]. split; [done|by eexists].
Qed.
Lemma serve_playlist_quiet i p request o w w' out : no_repeat w -> serve_playlist options hash i p request o w = Ok (w', out) ->
  quiet w w' /\ exists r, out = Reply r.
Proof.
  unfold serve_playlist. intros Hn H. apply bind_Ok_inv in H as ([w1 r] & Hr & H). apply render_quiet in Hr; [|done].
  apply replied_quiet in H as [Hq He]. split; [by etrans|done].
Qed.

(** A request that is to be parked: what it waits on is where it looked. *)
Record parks (i p : Z) (w w' : World) (x : Parking) : Prop := mkParks {
  pk_entry : at_entry x = i;
  pk_store : at_store x = p;
  pk_fresh : cells w !! waiter_deferred (who x) = None;
  pk_number : next_object w <= waiter_deferred (who x) < next_object w';
  pk_cell : is_Some (cells w' !! waiter_deferred (who x))
}.
Definition comes_to (i p : Z) (w w' : World) (out : Outcome) : Prop :=
  match out with Reply _ => True | Parks x => parks i p w w' x end.

Lemma reload_quiet i p request o w w' out : no_repeat w -> numbered w -> reload options hash i p request o w = Ok (w', out) ->
  quiet w w' /\ comes_to i p w w' out.
Proof.
  intros Hn Hm. assert (Hp : serve_playlist options hash i p request o w = Ok (w', out) -> quiet w w' /\ comes_to i p w w' out).
  { intros [H [r ->]]%serve_playlist_quiet; done. }
  unfold reload. destruct (wanted_position options request) as [[msn part]|]; [|done]. intros H.
  apply bind_Ok_inv in H as (s & _ & H). destruct (has_reached s msn part); [by apply Hp|].
  apply bind_Ok_inv in H as ([w1 r1] & Hr & H). apply render_quiet in Hr; [|done]. pose proof (quiet_numbered _ _ Hr Hm) as Hm1.
  match type of H with context [new_cell ?c w1] => pose proof (quiet_cell c w1 Hm1) as Hc; unfold new_cell in H, Hc; cbn [fst] in Hc end.
  injection H as <- <-. split; [by etrans|]. assert (Hf : cells w1 !! next_object w1 = None).
  { destruct (cells w1 !! next_object w1) eqn:E; [|done]. specialize (Hm1 (next_object w1) ltac:(by rewrite E)). lia. }
  split; cbn [at_entry at_store who waiter_deferred set_next_object set_cells next_object cells]; try done.
  - destruct (cells w !! next_object w1) eqn:E; [|done]. eapply lookup_weaken in E; [|apply (q_cells _ _ Hr)]. congruence.
  - pose proof (q_next _ _ Hr). lia.
  - rewrite lookup_insert_eq. by eexists.
Qed.

Lemma serve_quiet i e p request application resource o w w' out : no_repeat w -> numbered w ->
  serve options hash i e p request application resource o w = Ok (w', out) ->
  quiet w w' /\ match out with Reply _ => True | Parks x => exists q, p = Some q /\ parks i q w w' x end.
Proof.
  intros Hn Hm. unfold serve. intros H.
  assert (Hs : forall f, quiet w (on_stats f w)) by (intros; apply quiet_stats).
  destruct (bool_decide _).
  { apply replied_quiet in H as [H [r ->]]. split; [etrans; [apply (Hs count_playlist_request)|exact H]|done]. }
  destruct p as [p|]; [|done]. destruct (bool_decide _).
  { destruct (enable_iframe_playlists options); cbn [negb] in H; [|by injection H as <- <-].
    apply bind_Ok_inv in H as ([w1 r1] & H1 & H). unfold serve_iframe_playlist, store_at in H1. cbn [on_stats set_handler_stats stores] in H1.
    destruct (stores w !! p) as [s|] eqn:Es; [|done]. cbn [rbind] in H1. injection H1 as <- <-. apply replied_quiet in H as [H [r ->]].
    split; [|done]. etrans; [apply (Hs count_playlist_request)|]. etrans; [|exact H]. by apply quiet_store. }
  destruct (ends_with resource (str ".m3u8")).
  { pose proof (Hs count_playlist_request) as Hq. apply reload_quiet in H as [H Hc];
      [|by eapply quiet_no_repeat|by eapply quiet_numbered]. split; [by etrans|]. destruct out as [|x]; [done|]. exists p. by destruct Hc. }
  destruct (ends_with resource (str ".ts")).
  { apply bind_Ok_inv in H as ([w1 r1] & H1 & H). apply segment_quiet in H1. apply replied_quiet in H as [H [r ->]].
    split; [|done]. etrans; [apply (Hs count_segment_request)|]. by etrans. }
  destruct (_ && _); [apply replied_quiet in H as [H [r ->]]; done|]. by injection H as <- <-.
Qed.

Lemma handle_quiet request o w w' out : no_repeat w -> numbered w -> handle_request request o w = Ok (w', out) ->
  quiet w w' /\ match out with
                | Reply _ => True
                | Parks x => exists k i e p, streams_ w !! k = Some i /\ entries w !! i = Some e /\ store e = Some p /\ parks i p w w' x
                end.
Proof.
  intros Hn Hm. unfold HlsHttpHandler.handle_request. intros H.
  destruct (negb _); [by injection H as <- <-|]. destruct (negb _); [by injection H as <- <-|].
  destruct (negb _); [injection H as <- <-; split; [apply quiet_stats|done]|].
  destruct (route options request) as [[[application stream] resource]|]; [|injection H as <- <-; split; [apply quiet_stats|done]].
  destruct (negb _); [injection H as <- <-; split; [apply quiet_stats|done]|].
  destruct (negb _); [injection H as <- <-; split; [apply quiet_stats|done]|].
  destruct (find_entry w application stream) as [[i e]|] eqn:Ee; [|injection H as <- <-; split; [apply quiet_stats|done]].
  unfold find_entry in Ee. destruct (streams_ w !! _) as [j|] eqn:Ej; [|done]. destruct (entries w !! j) as [e1|] eqn:Eo; [|done].
  injection Ee as -> ->. destruct (store e) as [p|] eqn:Ep; [|destruct (negb _); [injection H as <- <-; split; [apply quiet_stats|done]|]];
    (destruct (session_redirect _ _ _ _ _) as [r1|]; [by injection H as <- <-|]);
    apply serve_quiet in H as [H Ho]; try done; (split; [done|]); destruct out as [|x]; try done;
    destruct Ho as (q & Hq & Ho); [|done]. injection Hq as <-. by exists (stream_key application stream), i, e, p.
Qed.
End Quiet.
