(* ===== verification/HlsHttpContract.v ===== *)
(** What the parking of control/hls_http_handler.cpp promises: a request that has been parked
    is not forgotten, and it is answered once the stream has what it waits for, unless the
    stream has left it behind. *)

From S2P Require Import Prelude Text HlsSegment HlsPlaylist HlsKeys HlsStore HttpMessage AsyncHttp HlsHttp ViewerSessions HlsHttpHandler HlsHttpParking.
From Stdlib Require Import Ascii.

(** Nobody waits for this response any more: it is there, or the time is up. *)
Definition is_settled (cell : DeferredResponse) : bool := resolved_ cell || delivered_ cell.
Definition settled (w : World) (d : Z) : Prop := exists cell, cells w !! d = Some cell /\ is_settled cell = true.

Definition due (y : System) (i p : Z) : Prop := Own i p ∈ passes y \/ Notified i p ∈ passes y.
Definition waits_in (w : World) (d : Z) : Prop :=
  exists i e x, entries w !! i = Some e /\ x ∈ waiters e /\ waiter_deferred x = d.

(** Of the world: entries are numbered, a name is of one entry, and the store of an entry has
    the notifier of that entry, which is set while the stream is registered. *)
Record world_ok (w : World) : Prop := mkWorldOk {
  w_numbered : numbered w;
  w_entries : forall i, is_Some (entries w !! i) -> i < next_object w;
  w_streams : forall k i, streams_ w !! k = Some i -> is_Some (entries w !! i);
  w_names : forall k1 k2 i, streams_ w !! k1 = Some i -> streams_ w !! k2 = Some i -> k1 = k2;
  w_store : forall i e p, entries w !! i = Some e -> store e = Some p -> is_Some (stores w !! p) /\ notifiers w !! p = Some i;
  w_on : forall k i e p s, streams_ w !! k = Some i -> entries w !! i = Some e -> store e = Some p ->
    stores w !! p = Some s -> notifier_ s = true;
  w_notified : forall p i, notifiers w !! p = Some i -> is_Some (stores w !! p) /\ is_Some (entries w !! i);
  w_repeat : no_repeat w
}.

(** Of the requests: [y_kept] and [y_due] are the contract, the others say that what is named
    exists. *)
Record requests_ok (y : System) : Prop := mkRequestsOk {
  y_parking : forall x, x ∈ parking y ->
    notifiers (world y) !! at_store x = Some (at_entry x) /\ is_Some (cells (world y) !! waiter_deferred (who x))
    /\ origin y !! waiter_deferred (who x) = None;
  y_apart : NoDup (map (fun x => waiter_deferred (who x)) (parking y));
  y_origin : forall d p, origin y !! d = Some p -> is_Some (cells (world y) !! d) /\ is_Some (notifiers (world y) !! p);
  y_waiters : forall i e x, entries (world y) !! i = Some e -> x ∈ waiters e -> is_Some (origin y !! waiter_deferred x);
  y_answering : forall p x, (p, x) ∈ answering y -> is_Some (stores (world y) !! p) /\ is_Some (origin y !! waiter_deferred x);
  y_passes : forall i p, due y i p -> notifiers (world y) !! p = Some i;
  y_kept : forall d p, origin y !! d = Some p ->
    settled (world y) d \/ (exists q x, (q, x) ∈ answering y /\ waiter_deferred x = d) \/ waits_in (world y) d;
  y_due : forall i e p s x, entries (world y) !! i = Some e -> store e = Some p -> stores (world y) !! p = Some s ->
    notifier_ s = true -> x ∈ waiters e -> origin y !! waiter_deferred x = Some p -> is_resolved (world y) x = false ->
    reached_by s x = true -> due y i p
}.
Definition well (y : System) : Prop := world_ok (world y) /\ requests_ok y.

Lemma start_well : well start.
Proof.
  split.
  - split; cbn; try (intros *; rewrite !lookup_empty; try intros [? ?]; done); [|].
    + intros d [? H]. done.
    + intros p s H. done.
  - split; cbn; try (intros *; rewrite ?lookup_empty; done); try (intros * ?%elem_of_nil; done); [constructor|].
    intros i p [H|H]; by apply elem_of_nil in H.
Qed.

Lemma resolved_same w w' x : cells w ⊆ cells w' -> is_Some (cells w !! waiter_deferred x) -> is_resolved w' x = is_resolved w x.
Proof. intros Hc [c Hx]. unfold is_resolved. by rewrite Hx, (lookup_weaken _ _ _ _ Hx Hc). Qed.
Lemma settled_weaken w w' d : cells w ⊆ cells w' -> settled w d -> settled w' d.
Proof. intros Hc (c & Hx & H). exists c. split; [|done]. by eapply lookup_weaken. Qed.

(** * Steps that leave the waiters alone *)

Lemma quiet_world w w' : quiet w w' -> world_ok w -> world_ok w'.
Proof.
  intros Q [W1 W2 W3 W4 W5 W6 W7 W8].
  assert (He : forall i, is_Some (entries w' !! i) -> is_Some (entries w !! i)).
  { intros i [e H]. destruct (quiet_entry_inv _ _ _ _ Q H) as (e0 & H0 & _). by rewrite H0. }
  assert (He2 : forall i, is_Some (entries w !! i) -> is_Some (entries w' !! i)).
  { intros i [e H]. destruct (quiet_entry_fwd _ _ _ _ Q H) as (e0 & H0 & _). by rewrite H0. }
  split.
  - by eapply quiet_numbered.
  - intros i H%He%W2. pose proof (q_next _ _ Q). lia.
  - rewrite (q_streams _ _ Q). intros k i H. eapply He2, W3, H.
  - by rewrite (q_streams _ _ Q).
  - rewrite (q_notifiers _ _ Q). intros i e p H Hp. destruct (quiet_entry_inv _ _ _ _ Q H) as (e0 & H0 & Hs & _). rewrite Hs in Hp.
    destruct (W5 _ _ _ H0 Hp). split; [by eapply quiet_store_some|done].
  - rewrite (q_streams _ _ Q). intros k i e p s Hk H Hp Hst. destruct (quiet_entry_inv _ _ _ _ Q H) as (e0 & H0 & Hs & _). rewrite Hs in Hp.
    destruct (quiet_store_inv _ _ _ _ Q Hst) as (s0 & t & Hs0 & ->). by eapply (W6 k i e0 p s0).
  - rewrite (q_notifiers _ _ Q). intros p i H. destruct (W7 _ _ H). split; [by eapply quiet_store_some|by apply He2].
  - by eapply quiet_no_repeat.
Qed.

Lemma quiet_well w y : quiet (world y) w -> well y -> well (with_world w y).
Proof.
  intros Q [W [R1 R2 R3 R4 R5 R6 R7 R8]]. split; [by eapply quiet_world|].
  pose proof (q_cells _ _ Q) as Hc. pose proof (q_notifiers _ _ Q) as Hn.
  assert (Hcell : forall d, is_Some (cells (world y) !! d) -> is_Some (cells w !! d)).
  { intros d [c H]. exists c. by eapply lookup_weaken. }
  split; cbn [world with_world passes answering parking origin]; try done.
  - rewrite Hn. intros x Hx. destruct (R1 x Hx) as (? & ? & ?). auto.
  - rewrite Hn. intros d p H. destruct (R3 d p H). auto.
  - intros i e x He Hx. destruct (quiet_entry_inv _ _ _ _ Q He) as (e0 & H0 & _ & Hw). rewrite Hw in Hx. by eapply R4.
  - intros p x H. destruct (R5 p x H). split; [by eapply quiet_store_some|done].
  - rewrite Hn. exact R6.
  - intros d p H. destruct (R7 d p H) as [Hs|[Ha|(i & e & x & He & Hx & Hd)]]; [left; by eapply settled_weaken|by right; left|].
    right. right. destruct (quiet_entry_fwd _ _ _ _ Q He) as (e1 & H1 & _ & Hw). exists i, e1, x. by rewrite Hw.
  - intros i e p s x He Hp Hs Ho Hx Horg Hr Hreach. destruct (quiet_entry_inv _ _ _ _ Q He) as (e0 & H0 & Hst & Hw). rewrite Hst in Hp.
    rewrite Hw in Hx. destruct (quiet_store_inv _ _ _ _ Q Hs) as (s0 & t & Hs0 & ->). destruct (R3 _ _ Horg) as [Hd _].
    rewrite (resolved_same _ _ _ Hc Hd) in Hr. by eapply (R8 i e0 p s0 x).
Qed.

(** * Steps that change deferred responses *)

Definition cell_grows (c c' : DeferredResponse) : Prop :=
  (resolved_ c = true -> resolved_ c' = true) /\ (is_settled c = true -> is_settled c' = true).

(** Only cells are different, and what is resolved or settled stays so. *)
Record grows (w w' : World) : Prop := mkGrows {
  g_streams : streams_ w' = streams_ w;
  g_entries : entries w' = entries w;
  g_stores : stores w' = stores w;
  g_notifiers : notifiers w' = notifiers w;
  g_next : next_object w' = next_object w;
  g_cells : forall d, option_Forall2 cell_grows (cells w !! d) (cells w' !! d)
}.
#[export] Instance grows_refl : Reflexive grows.
Proof. intros w. split; try done. intros d. destruct (cells w !! d); by constructor. Qed.
#[export] Instance grows_trans : Transitive grows.
Proof.
  intros a b c [A1 A2 A3 A4 A5 A6] [B1 B2 B3 B4 B5 B6]. split; try congruence. intros d. specialize (A6 d). specialize (B6 d).
  destruct A6 as [x y [Ha1 Ha2]|]; [|done]. inversion B6 as [x' z [Hb1 Hb2] Hx Hz|]; subst. constructor. split; auto.
Qed.

Lemma grows_cell d c c' w w' : cells w !! d = Some c -> cell_grows c c' -> cells w' = <[d := c']> (cells w) ->
  streams_ w' = streams_ w -> entries w' = entries w -> stores w' = stores w -> notifiers w' = notifiers w ->
  next_object w' = next_object w -> grows w w'.
Proof.
  intros Hc Hg Hw. intros. split; try done. intros k. rewrite Hw. destruct (decide (k = d)) as [->|Hne].
  - rewrite lookup_insert_eq, Hc. by constructor.
  - rewrite lookup_insert_ne by done. destruct (cells w !! k); by constructor.
Qed.
Lemma attach_grows c d : cell_grows d (attach c d).1.
Proof.
  unfold attach, cell_grows, is_settled. destruct d as [t to k r [] []]; done.
Qed.
Lemma cancel_grows d : cell_grows d (cancel d).1.
Proof. unfold cancel, cell_grows, is_settled. destruct d as [t to k r [] []]; done. Qed.
Lemma resolve_grows r d : cell_grows d (resolve r d).1 /\ is_settled (resolve r d).1 = true.
Proof. unfold resolve, cell_grows, is_settled. destruct d as [t to [k|] r0 [] []]; done. Qed.
Lemma resolve_cell_grows d r w : grows w (resolve_cell d r w) /\ (is_Some (cells w !! d) -> settled (resolve_cell d r w) d).
Proof.
  unfold resolve_cell. destruct (cells w !! d) as [c|] eqn:Ec; [|split; [done|by intros [? ?]]]. destruct (resolve_grows r c) as [Hg Hs].
  destruct (resolve r c) as [c' call]. cbn [fst] in Hg, Hs. split; [destruct call; by eapply grows_cell|]. intros _.
  exists c'. split; [|done]. destruct call; cbn [set_completions set_cells cells]; apply lookup_insert_eq.
Qed.

Lemma grows_resolved w w' x : grows w w' -> is_resolved w' x = false -> is_resolved w x = false.
Proof.
  intros G. unfold is_resolved. pose proof (g_cells _ _ G (waiter_deferred x)) as Hd.
  destruct Hd as [c c' [H1 _]|]; [|done]. intros H. destruct (resolved_ c) eqn:E; [|done]. rewrite H1 in H; done.
Qed.
Lemma grows_settled w w' d : grows w w' -> settled w d -> settled w' d.
Proof.
  intros G (c & Hc & Hs). pose proof (g_cells _ _ G d) as Hd. rewrite Hc in Hd. inversion Hd as [x y [_ H2] Hx Hy|]; subst.
  exists y. auto.
Qed.
Lemma grows_some w w' d : grows w w' -> is_Some (cells w !! d) <-> is_Some (cells w' !! d).
Proof. intros G. pose proof (g_cells _ _ G d) as Hd. destruct Hd; [|done]. split; by eexists. Qed.

Lemma grows_well w y : grows (world y) w -> well y -> well (with_world w y).
Proof.
  intros G [[W1 W2 W3 W4 W5 W6 W7 W8] [R1 R2 R3 R4 R5 R6 R7 R8]].
  pose proof G as [G1 G2 G3 G4 G5 _]. pose proof (fun d => grows_some _ _ d G) as Hc. split.
  - split; cbn [world with_world]; rewrite ?G1, ?G2, ?G3, ?G4, ?G5; try done; [intros d Hd; rewrite G5; apply W1; by apply Hc|].
    intros p s. rewrite G3. apply W8.
  - split; cbn [world with_world passes answering parking origin]; rewrite ?G1, ?G2, ?G3, ?G4; try done.
    + intros x Hx. rewrite <- Hc. by apply R1.
    + intros d p H. rewrite <- Hc. by apply (R3 d p).
    + intros d p H. unfold waits_in. rewrite G2. destruct (R7 d p H) as [Hs|H1]; [left; by eapply grows_settled|by right].
    + intros i e p s x He Hp Hs Ho Hx Horg Hr. eapply R8; eauto. by eapply grows_resolved.
Qed.

(** * The lists of work *)

Lemma put_entry_lookup i e w j e1 : entries (put_entry i e w) !! j = Some e1 -> (j = i /\ e1 = e) \/ (j <> i /\ entries w !! j = Some e1).
Proof. cbn [put_entry set_entries entries]. intros [[<- <-]|[Hne H]]%lookup_insert_Some; [by left|right; by split]. Qed.
Lemma put_entry_some i e e0 w j : entries w !! i = Some e0 -> is_Some (entries (put_entry i e w) !! j) <-> is_Some (entries w !! j).
Proof.
  intros H. cbn [put_entry set_entries entries]. rewrite lookup_insert_is_Some'. split; [intros [->|?]; [by eexists|done]|by right].
Qed.
(** An entry changes, but not its store. *)
Lemma seat_world i e e' w : entries w !! i = Some e -> store e' = store e -> world_ok w -> world_ok (put_entry i e' w).
Proof.
  intros He Hst [W1 W2 W3 W4 W5 W6 W7 W8]. pose proof (fun j => put_entry_some i e' e w j He) as Hs. split; try done.
  - intros j H%Hs. by apply W2.
  - intros k j H. by eapply Hs, (W3 k).
  - intros j e1 p H Hp. apply put_entry_lookup in H as [[-> ->]|[_ H]]; [rewrite Hst in Hp|]; by eapply W5.
  - intros k j e1 p s Hk H Hp. apply put_entry_lookup in H as [[-> ->]|[_ H]]; [rewrite Hst in Hp|]; by eapply W6.
  - intros p j H. destruct (W7 _ _ H). split; [done|by apply Hs].
Qed.
Lemma waits_in_put i e e' w d : entries w !! i = Some e -> (forall x, x ∈ waiters e -> waiter_deferred x = d -> x ∈ waiters e') ->
  waits_in w d -> waits_in (put_entry i e' w) d.
Proof.
  intros He Hx (j & e1 & x & H1 & H2 & H3). destruct (decide (j = i)) as [->|Hne].
  - rewrite He in H1. injection H1 as <-. exists i, e', x. split; [apply lookup_insert_eq|auto].
  - exists j, e1, x. split; [|done]. cbn [put_entry set_entries entries]. by rewrite lookup_insert_ne.
Qed.

(** Waiters of an entry are replaced: those that go are settled or answered from here on. *)
Lemma waiters_well i e ws added y : well y -> entries (world y) !! i = Some e ->
  (forall x, x ∈ ws -> x ∈ waiters e) ->
  (forall x, x ∈ waiters e -> x ∈ ws \/ settled (world y) (waiter_deferred x) \/ exists p, (p, x) ∈ added) ->
  (forall p x, (p, x) ∈ added -> is_Some (stores (world y) !! p) /\ x ∈ waiters e) ->
  well (mkSystem (put_entry i (set_waiters ws e) (world y)) (passes y) (answering y ++ added) (parking y) (origin y)).
Proof.
  intros [W [R1 R2 R3 R4 R5 R6 R7 R8]] He Hsub Hgone Hadd. split; [by eapply seat_world|].
  split; cbn [world passes answering parking origin]; try done.
  - intros j e1 x H Hx. apply put_entry_lookup in H as [[-> ->]|[_ H]]; [|by eapply R4]. eapply R4; [exact He|by apply Hsub].
  - intros p x [H|H]%elem_of_app; [by eapply R5|]. destruct (Hadd p x H). split; [done|by eapply R4].
  - intros d p H. destruct (R7 d p H) as [H1|[(q & x & Hx & Hd)|(j & e1 & x & H1 & Hx & Hd)]];
      [by left|right; left; exists q, x; rewrite elem_of_app; auto|]. destruct (decide (j = i)) as [->|Hne].
    + rewrite He in H1. injection H1 as <-. destruct (Hgone x Hx) as [Hin|[Hst|[q Hin]]].
      * right. right. exists i, (set_waiters ws e), x. split; [apply lookup_insert_eq|done].
      * left. by rewrite Hd in Hst.
      * right. left. exists q, x. rewrite elem_of_app. auto.
    + right. right. exists j, e1, x. split; [|done]. cbn [put_entry set_entries entries]. by rewrite lookup_insert_ne.
  - intros j e1 p s x H Hp Hst Ho Hx Horg Hr Hreach. apply put_entry_lookup in H as [[-> ->]|[_ H1]]; [|by eapply R8].
    eapply (R8 i e p s x); try done. by apply Hsub.
Qed.

Definition entry_of (x : Pass) : Z := match x with Own i _ | Notified i _ => i end.

(** A pass has been made: none of those it was due for is left. *)
Lemma pass_well l1 x l2 y : well y -> passes y = l1 ++ x :: l2 ->
  (forall e s z, entries (world y) !! entry_of x = Some e -> store e = Some (store_of x) -> stores (world y) !! store_of x = Some s ->
     z ∈ waiters e -> is_resolved (world y) z = false -> reached_by s z = false) ->
  well (mkSystem (world y) (l1 ++ l2) (answering y) (parking y) (origin y)).
Proof.
  intros [W [R1 R2 R3 R4 R5 R6 R7 R8]] Hp Hnone. split; [done|].
  assert (Hsub : forall z, z ∈ l1 ++ l2 -> z ∈ passes y) by (intros z; rewrite Hp, !elem_of_app, elem_of_cons; tauto).
  assert (Hinv : forall z, z ∈ passes y -> z = x \/ z ∈ l1 ++ l2) by (intros z; rewrite Hp, !elem_of_app, elem_of_cons; tauto).
  split; cbn [world passes answering parking origin]; try done.
  - intros i p [H|H]; apply R6; [left|right]; by apply Hsub.
  - intros i e p s z He Hs Hst Ho Hz Horg Hr Hreach. pose proof (R8 i e p s z He Hs Hst Ho Hz Horg Hr Hreach) as Hd.
    assert (Hne : entry_of x = i -> store_of x = p -> False).
    { intros <- <-. specialize (Hnone e s z He Hs Hst Hz Hr). congruence. }
    destruct Hd as [Hd|Hd]; destruct (Hinv _ Hd) as [<-|H]; try (by exfalso; apply Hne); [by left|by right].
Qed.
Lemma more_passes_well more y : well y ->
  (forall i p, Own i p ∈ more \/ Notified i p ∈ more -> notifiers (world y) !! p = Some i) ->
  well (mkSystem (world y) (passes y ++ more) (answering y) (parking y) (origin y)).
Proof.
  intros [W [R1 R2 R3 R4 R5 R6 R7 R8]] Hm. split; [done|]. split; cbn [world passes answering parking origin]; try done.
  - intros i p. unfold due. cbn [passes]. rewrite !elem_of_app. intros [[H|H]|[H|H]];
      [apply R6; by left|apply Hm; by left|apply R6; by right|apply Hm; by right].
  - intros. unfold due. cbn [passes]. rewrite !elem_of_app. destruct (R8 i e p s x) as [H'|H']; auto.
Qed.

(** A request has been answered. *)
Lemma answered_well l1 p x l2 y : well y -> answering y = l1 ++ (p, x) :: l2 -> settled (world y) (waiter_deferred x) ->
  well (mkSystem (world y) (passes y) (l1 ++ l2) (parking y) (origin y)).
Proof.
  intros [W [R1 R2 R3 R4 R5 R6 R7 R8]] Ha Hs. split; [done|]. split; cbn [world passes answering parking origin]; try done.
  - intros q z Hz. apply (R5 q z). rewrite Ha. rewrite elem_of_app in Hz. rewrite elem_of_app, elem_of_cons. tauto.
  - intros d q Hd. destruct (R7 d q Hd) as [H|[(q' & z & Hz & <-)|H]]; [by left| |by right; right].
    rewrite Ha, elem_of_app, elem_of_cons in Hz. destruct Hz as [Hz|[Hz|Hz]]; [right; left; exists q', z; rewrite elem_of_app; auto| |right; left; exists q', z; rewrite elem_of_app; auto].
    injection Hz as -> ->. by left.
Qed.

Lemma unpark_well l1 x l2 y : well y -> parking y = l1 ++ x :: l2 ->
  well (mkSystem (world y) (passes y) (answering y) (l1 ++ l2) (origin y)).
Proof.
  intros [W [R1 R2 R3 R4 R5 R6 R7 R8]] Hp. split; [done|]. split; cbn [world passes answering parking origin]; try done.
  - intros z Hz. apply R1. rewrite Hp. rewrite elem_of_app in Hz. rewrite elem_of_app, elem_of_cons. tauto.
  - rewrite Hp, map_app in R2. cbn [map] in R2. rewrite map_app. rewrite list.NoDup_app in R2 |- *. rewrite list.NoDup_cons in R2.
    destruct R2 as (H1 & H2 & _ & H3). split_and!; try done. intros z Hz Hz2. apply (H2 z Hz). by apply list_elem_of_further.
Qed.
Lemma park_more_well x y : well y -> notifiers (world y) !! at_store x = Some (at_entry x) ->
  is_Some (cells (world y) !! waiter_deferred (who x)) -> origin y !! waiter_deferred (who x) = None ->
  (forall z, z ∈ parking y -> waiter_deferred (who z) <> waiter_deferred (who x)) ->
  well (mkSystem (world y) (passes y) (answering y) (parking y ++ [x]) (origin y)).
Proof.
  intros [W [R1 R2 R3 R4 R5 R6 R7 R8]] H1 H2 H3 H4. split; [done|]. split; cbn [world passes answering parking origin]; try done.
  - intros z [Hz|Hz%list_elem_of_singleton]%elem_of_app; [by apply R1|by subst z].
  - rewrite map_app, list.NoDup_app. split_and!; [done| |apply list.NoDup_singleton]. intros d Hd Hd2%list_elem_of_singleton.
    subst d. apply list_elem_of_fmap in Hd as (z & Hz & Hin). by apply (H4 z).
Qed.

Lemma NoDup_middle {A} (l1 l2 : list A) x : NoDup (l1 ++ x :: l2) -> x ∉ l1 ++ l2.
Proof.
  rewrite list.NoDup_app, list.NoDup_cons, elem_of_app. intros (_ & H1 & H2 & _) [H|H]; [|done]. apply (H1 x H). apply list_elem_of_here.
Qed.

(** The request joins the waiters of its entry, and its own pass is due. *)
Lemma parked_well l1 x l2 e y : well y -> parking y = l1 ++ x :: l2 -> entries (world y) !! at_entry x = Some e ->
  well (mkSystem (put_entry (at_entry x) (set_waiters (waiters e ++ [who x]) e) (world y))
          (passes y ++ [Own (at_entry x) (at_store x)]) (answering y) (l1 ++ l2)
          (<[waiter_deferred (who x) := at_store x]> (origin y))).
Proof.
  intros Hwell Hp He. destruct (proj2 Hwell) as [P1 P2 _ _ _ _ _ _].
  assert (Hin : x ∈ parking y) by (rewrite Hp, elem_of_app, elem_of_cons; tauto). destruct (P1 x Hin) as (Hnot & Hcell & Hfree).
  assert (Hwell2 : well (mkSystem (world y) (passes y ++ [Own (at_entry x) (at_store x)]) (answering y) (l1 ++ l2) (origin y))).
  { apply (more_passes_well [Own (at_entry x) (at_store x)] (mkSystem _ _ _ _ _)); [by eapply unpark_well|]. cbn [world].
    intros i p [H|H]; apply list_elem_of_singleton in H; [by injection H as -> ->|done]. }
  destruct Hwell2 as [W [R1 R2 R3 R4 R5 R6 R7 R8]]. cbn [world passes answering parking origin] in *.
  set (d0 := waiter_deferred (who x)) in *. set (i0 := at_entry x) in *.
  split; [by eapply seat_world|]. split; cbn [world passes answering parking origin]; try done.
  - intros z Hz. destruct (R1 z Hz) as (Ha & Hb & Hc). split_and!; [done..|]. rewrite lookup_insert_ne; [done|]. intros E.
    rewrite Hp, map_app in P2. cbn [map] in P2. eapply NoDup_middle; [exact P2|]. fold d0. rewrite E, <- map_app. apply list_elem_of_fmap. by exists z.
  - intros d p [[<- <-]|[_ H]]%lookup_insert_Some; [split; [done|by exists i0]|by eapply R3].
  - intros j e1 z H Hz. rewrite lookup_insert_is_Some'. apply put_entry_lookup in H as [[-> ->]|[_ H1]]; [|right; by eapply R4].
    apply elem_of_app in Hz as [Hz|Hz%list_elem_of_singleton]; [right; by eapply R4|left; by subst z].
  - intros q z H. destruct (R5 q z H). split; [done|]. rewrite lookup_insert_is_Some'. by right.
  - intros d p [[<- <-]|[_ H]]%lookup_insert_Some.
    + right. right. exists i0, (set_waiters (waiters e ++ [who x]) e), (who x). split; [apply lookup_insert_eq|].
      cbn [set_waiters waiters]. rewrite elem_of_app, list_elem_of_singleton. auto.
    + destruct (R7 d p H) as [H1|[H1|H1]]; [by left|by right; left|]. right. right. eapply waits_in_put; [exact He| |done].
      intros z Hz _. cbn [set_waiters waiters]. rewrite elem_of_app. auto.
  - intros j e1 p s z H Hpp Hst Ho Hz Horg Hr Hreach. apply lookup_insert_Some in Horg as [[Ed Ep]|[Hne Horg]].
    + subst p. assert (j = i0) as ->.
      { apply put_entry_lookup in H as [[-> _]|[_ H1]]; [done|]. destruct (w_store _ W _ _ _ H1 Hpp) as [_ Hn]. rewrite Hnot in Hn. by injection Hn as <-. }
      left. cbn [passes]. rewrite elem_of_app, list_elem_of_singleton. auto.
    + apply put_entry_lookup in H as [[-> ->]|[_ H1]]; [|by eapply (R8 j e1 p s z)].
      cbn [set_waiters waiters store] in Hz, Hpp. apply elem_of_app in Hz as [Hz|Hz%list_elem_of_singleton]; [by eapply (R8 i0 e p s z)|].
      by subst z.
Qed.

(** * What the producer does *)

Definition same_frame (s s' : SegmentStore) : Prop := store_config s' = store_config s /\ notifier_ s' = notifier_ s.
Lemma frame_trans a b c : same_frame a b -> same_frame b c -> same_frame a c.
Proof. intros [? ?] [? ?]. split; congruence. Qed.
Lemma drop_parts_frame ps : forall s, same_frame s (fold_left drop_part ps s).
Proof. induction ps as [|p ps IH]; intros s; [done|]. cbn [fold_left]. eapply frame_trans; [|apply IH]. done. Qed.
Lemma drop_front_frame s front rest : same_frame s (drop_front s front rest).
Proof. unfold drop_front. eapply frame_trans; [|done]. eapply frame_trans; [|apply drop_parts_frame]. done. Qed.
Lemma evict_count_frame held : forall s, same_frame s (evict_count held s).
Proof.
  induction held as [|front rest IH]; intros s; [done|]. cbn [evict_count]. destruct (_ <? _); [|done].
  eapply frame_trans; [apply drop_front_frame|apply IH].
Qed.
Lemma evict_bytes_frame held : forall s, same_frame s (evict_bytes held s).
Proof.
  induction held as [|front rest IH]; intros s; [done|]. cbn [evict_bytes]. destruct (_ && _); [|done].
  eapply frame_trans; [apply drop_front_frame|apply IH].
Qed.
Lemma append_frame s x fallback t : same_frame s (append_locked s x fallback t).
Proof.
  unfold append_locked. eapply frame_trans; [|done]. unfold evict_locked.
  eapply frame_trans; [|apply evict_bytes_frame]. eapply frame_trans; [|apply evict_count_frame]. done.
Qed.

Lemma notify_updated s : notifier_ s = true -> bool_decide (notify s <> []) = true.
Proof. intros H. unfold notify. rewrite H. by apply bool_decide_eq_true_2. Qed.

(** Where a notifier is set it is called whenever something may have been reached. *)
Lemma produced_spec evp s s' notified : produced evp s s' notified ->
  same_frame s s' /\ (notifier_ s = true -> notified = true \/ forall x, reached_by s' x = true -> reached_by s x = true).
Proof.
  intros [enc x m1 m2 t s1 enc' events H|enc x m s1 enc' events H| | |].
  - unfold add_segment in H. apply bind_Ok_inv in H as ([enc1 x1] & _ & H). apply bind_Ok_inv in H as (x2 & _ & H).
    assert (Ht : same_frame s (take_parts s x2).1) by (unfold take_parts; by destruct (_ && _)).
    destruct (take_parts s x2) as [s2 x3]. injection H as <- _ <-.
    assert (Hf : same_frame s (append_locked s2 x3 false t)) by (eapply frame_trans; [exact Ht|apply append_frame]).
    split; [done|]. intros Hn. left. apply notify_updated. by rewrite (proj2 Hf).
  - unfold add_part in H. destruct (cfg_low_latency _); cbn [negb] in H; [|injection H as <- _ <-; by split; [|right]].
    apply bind_Ok_inv in H as ([enc1 x1] & _ & H). injection H as <- _ <-. split; [done|]. intros Hn. left. by apply notify_updated.
  - split; [done|]. intros Hn. left. cbn [mark_ended snd]. by apply notify_updated.
  - split; [done|]. intros _. right. intros x. unfold reached_by, has_reached. cbn [mark_live set_ended ended_]. by destruct (ended_ s).
  - split; [done|]. intros _. by right.
Qed.

Lemma store_world p s s' w : stores w !! p = Some s -> same_frame s s' -> world_ok w -> world_ok (put_store p s' w).
Proof.
  intros Hp [Hc Hn] [W1 W2 W3 W4 W5 W6 W7 W8].
  assert (Hs : forall q, is_Some (stores (put_store p s' w) !! q) <-> is_Some (stores w !! q)).
  { intros q. cbn [put_store set_stores stores]. rewrite lookup_insert_is_Some'. split; [intros [->|?]; [by eexists|done]|by right]. }
  split; try done.
  - intros i e q H Hq. destruct (W5 i e q H Hq). split; [by apply Hs|done].
  - intros k i e q s1 Hk H Hq Hs1. cbn [put_store set_stores stores] in Hs1. apply lookup_insert_Some in Hs1 as [[<- <-]|[_ Hs1]]; [|by eapply W6].
    rewrite Hn. by eapply (W6 k i e p s).
  - intros q i H. destruct (W7 q i H). split; [by apply Hs|done].
  - intros q s1 Hs1. cbn [put_store set_stores stores] in Hs1. apply lookup_insert_Some in Hs1 as [[<- <-]|[_ Hs1]]; [rewrite Hc|]; by eapply W8.
Qed.

Lemma produce_well p s s' notified y : well y -> stores (world y) !! p = Some s -> same_frame s s' ->
  (notifier_ s = true -> notified = true \/ forall x, reached_by s' x = true -> reached_by s x = true) ->
  well (mkSystem (put_store p s' (world y)) (passes y ++ notified_passes p notified (world y)) (answering y) (parking y) (origin y)).
Proof.
  intros Hwell Hp Hf Hr.
  assert (Hwell1 : well (mkSystem (world y) (passes y ++ notified_passes p notified (world y)) (answering y) (parking y) (origin y))).
  { apply more_passes_well; [done|]. unfold notified_passes. intros i q. destruct notified; [|intros [H|H]; by apply elem_of_nil in H].
    destruct (notifiers (world y) !! p) as [j|] eqn:Ej; [|intros [H|H]; by apply elem_of_nil in H].
    intros [H|H]; apply list_elem_of_singleton in H; [done|]. by injection H as -> ->. }
  destruct Hwell1 as [W [R1 R2 R3 R4 R5 R6 R7 R8]]. cbn [world passes answering parking origin] in *.
  split; [by eapply store_world|]. split; cbn [world passes answering parking origin]; try done.
  - intros q x H. cbn [put_store set_stores stores]. rewrite lookup_insert_is_Some'. destruct (R5 q x H). auto.
  - intros i e q s1 x He Hq Hs1 Ho Hx Horg Hres Hreach. cbn [put_store set_stores stores] in Hs1.
    apply lookup_insert_Some in Hs1 as [[<- <-]|[_ Hs1]]; [|by eapply R8]. rewrite (proj2 Hf) in Ho.
    destruct (Hr Ho) as [->|Hm]; [|eapply (R8 i e p s x); eauto]. right. cbn [passes]. rewrite elem_of_app. right.
    unfold notified_passes. destruct (w_store _ W _ _ _ He Hq) as [_ ->]. by apply list_elem_of_singleton.
Qed.

Lemma create_well p config y : well y -> stores (world y) !! p = None -> repeat_last_segment_on_stall config = false ->
  well (with_world (put_store p (make_store config) (world y)) y).
Proof.
  intros [[W1 W2 W3 W4 W5 W6 W7 W8] [R1 R2 R3 R4 R5 R6 R7 R8]] Hp Hc.
  assert (Hs : forall q, is_Some (stores (world y) !! q) -> q <> p) by (intros q [? H] ->; congruence).
  assert (Hs2 : forall q, is_Some (stores (world y) !! q) -> is_Some (stores (put_store p (make_store config) (world y)) !! q)).
  { intros q H. cbn [put_store set_stores stores]. rewrite lookup_insert_is_Some'. by right. }
  split.
  - split; cbn [world with_world]; try done.
    + intros i e q H Hq. destruct (W5 i e q H Hq). split; [by apply Hs2|done].
    + intros k i e q s1 Hk H Hq Hs1. cbn [put_store set_stores stores] in Hs1. apply lookup_insert_Some in Hs1 as [[<- _]|[_ Hs1]]; [|by eapply W6].
      destruct (W5 i e p H Hq) as [Hp2 _]. by apply Hs in Hp2.
    + intros q i H. destruct (W7 q i H). split; [by apply Hs2|done].
    + intros q s1 Hs1. cbn [put_store set_stores stores] in Hs1. apply lookup_insert_Some in Hs1 as [[_ <-]|[_ Hs1]]; [done|by eapply W8].
  - split; cbn [world with_world passes answering parking origin]; try done.
    + intros q x H. destruct (R5 q x H). auto.
    + intros i e q s1 x He Hq Hs1. cbn [put_store set_stores stores] in Hs1. apply lookup_insert_Some in Hs1 as [[<- _]|[_ Hs1]]; [|by eapply R8].
      destruct (W5 i e p He Hq) as [Hp2 _]. by apply Hs in Hp2.
Qed.

(** * The registry *)

Lemma find_or_create_well application stream y : well y ->
  well (with_world (find_or_create_entry application stream (world y)).1 y).
Proof.
  intros Hwell. unfold find_or_create_entry. destruct (streams_ (world y) !! _) eqn:Ek; [by destruct y|].
  destruct Hwell as [[W1 W2 W3 W4 W5 W6 W7 W8] [R1 R2 R3 R4 R5 R6 R7 R8]]. set (k0 := stream_key application stream) in *.
  cbn [fst]. set (i := next_object (world y)). set (w := set_next_object _ _).
  assert (Hnew : forall j, is_Some (entries (world y) !! j) -> j <> i) by (intros j Hj ->; apply W2 in Hj; subst i; lia).
  assert (Hl : forall j e, entries w !! j = Some e -> (j = i /\ e = new_entry) \/ entries (world y) !! j = Some e).
  { intros j e H. subst w. cbn [set_next_object put_entry set_entries set_streams entries] in H.
    apply lookup_insert_Some in H as [[<- <-]|[_ H]]; [by left|by right]. }
  assert (Hs : forall j, is_Some (entries (world y) !! j) -> is_Some (entries w !! j)).
  { intros j H. subst w. cbn [set_next_object put_entry set_entries set_streams entries]. rewrite lookup_insert_is_Some'. by right. }
  assert (Hkk : forall k j, streams_ w !! k = Some j -> (k = k0 /\ j = i) \/ (k <> k0 /\ streams_ (world y) !! k = Some j)).
  { intros k j H. subst w. cbn [set_next_object put_entry set_entries set_streams streams_] in H.
    apply lookup_insert_Some in H as [[<- <-]|[Hne H]]; [by left|by right]. }
  split.
  - split; cbn [world with_world]; try done.
    + intros d Hd. apply W1 in Hd. subst w i. cbn [set_next_object next_object]. lia.
    + intros j [e Hj]. subst w. cbn [set_next_object next_object]. destruct (Hl _ _ Hj) as [[-> _]|H]; [lia|].
      specialize (W2 j ltac:(by eexists)). subst i. lia.
    + intros k j H. destruct (Hkk _ _ H) as [[_ ->]|[_ H1]]; [|by eapply Hs, W3]. subst w. cbn [set_next_object put_entry set_entries entries].
      rewrite lookup_insert_eq. by eexists.
    + intros k1 k2 j H1 H2. destruct (Hkk _ _ H1) as [[-> ->]|[_ H3]], (Hkk _ _ H2) as [[-> E]|[_ H4]]; try done; [| |by eapply W4].
      * by apply W3, Hnew in H4.
      * subst j. by apply W3, Hnew in H3.
    + intros j e p H Hp. destruct (Hl _ _ H) as [[-> ->]|H1]; [done|]. by eapply W5.
    + intros k j e p s Hk H Hp Hst. destruct (Hl _ _ H) as [[-> ->]|H1]; [done|]. destruct (Hkk _ _ Hk) as [[-> ->]|[_ H2]]; [|by eapply W6].
      exfalso. by apply (Hnew i); [rewrite H1|].
    + intros p j H. destruct (W7 p j H). split; [done|by apply Hs].
  - split; cbn [world with_world passes answering parking origin]; try done.
    + intros j e x H Hx. destruct (Hl _ _ H) as [[-> ->]|H1]; [by apply elem_of_nil in Hx|by eapply R4].
    + intros d p H. destruct (R7 d p H) as [H1|[H1|(j & e & x & H1 & Hx & Hd)]]; [by left|by right; left|]. right. right.
      exists j, e, x. split; [|done]. subst w. cbn [set_next_object put_entry set_entries set_streams entries]. rewrite lookup_insert_ne; [done|].
      intros <-. by apply (Hnew i); [rewrite H1|].
    + intros j e p s x H Hp Hst Ho Hx. destruct (Hl _ _ H) as [[-> ->]|H1]; [done|]. by eapply R8.
Qed.

Lemma alter_is {A} (f : A -> A) k (m : gmap Z A) x : m !! k = Some x -> alter f k m = <[k := f x]> m.
Proof.
  intros H. apply map_eq. intros j. destruct (decide (j = k)) as [->|Hne].
  - by rewrite lookup_alter_eq, H, lookup_insert_eq.
  - by rewrite lookup_alter_ne, lookup_insert_ne.
Qed.

Lemma find_or_create_spec application stream w : (forall k i, streams_ w !! k = Some i -> is_Some (entries w !! i)) ->
  let '(w', i) := find_or_create_entry application stream w in
  streams_ w' !! stream_key application stream = Some i /\ stores w' = stores w /\ notifiers w' = notifiers w
  /\ exists e, entries w' !! i = Some e /\ (find_stream w application stream <> None -> find_stream w application stream = store e).
Proof.
  intros Hw. unfold find_or_create_entry, find_stream, find_entry. destruct (streams_ w !! stream_key application stream) as [i|] eqn:E.
  - split_and!; try done. destruct (Hw _ _ E) as [e He]. exists e. by rewrite He.
  - cbn [set_next_object put_entry set_entries set_streams streams_ stores notifiers entries]. split_and!; [apply lookup_insert_eq|done|done|].
    exists new_entry. split; [apply lookup_insert_eq|done].
Qed.

(** The world in which entry [i] has got the store [q]. *)
Definition attached (i q : Z) (e : StreamEntry) (s : SegmentStore) (w : World) : World :=
  put_entry i (set_store (Some q) e) (put_store q (set_update_notifier s true) (set_notifiers (<[q := i]> (notifiers w)) w)).

Lemma attached_stores i q e s w p s1 : stores (attached i q e s w) !! p = Some s1 ->
  (p = q /\ s1 = set_update_notifier s true) \/ (p <> q /\ stores w !! p = Some s1).
Proof.
  cbn [attached put_entry set_entries put_store set_stores set_notifiers stores].
  intros [[<- <-]|[Hne H]]%lookup_insert_Some; [by left|right; by split].
Qed.
Lemma attached_store_some i q e s w p : is_Some (stores w !! p) -> is_Some (stores (attached i q e s w) !! p).
Proof. intros H. cbn [attached put_entry set_entries put_store set_stores set_notifiers stores]. rewrite lookup_insert_is_Some'. by right. Qed.
Lemma attached_entries i q e s w j e1 : entries (attached i q e s w) !! j = Some e1 ->
  (j = i /\ e1 = set_store (Some q) e) \/ (j <> i /\ entries w !! j = Some e1).
Proof. intros H. by apply put_entry_lookup in H. Qed.
Lemma attached_entry_some i q e s w j : entries w !! i = Some e ->
  is_Some (entries (attached i q e s w) !! j) <-> is_Some (entries w !! j).
Proof.
  intros He. exact (put_entry_some i (set_store (Some q) e) e (put_store q (set_update_notifier s true) (set_notifiers (<[q := i]> (notifiers w)) w)) j He).
Qed.
Lemma attached_notifiers i q e s w p j : world_ok w -> entries w !! i = Some e -> (notifiers w !! q = None \/ store e = Some q) ->
  notifiers w !! p = Some j -> notifiers (attached i q e s w) !! p = Some j.
Proof.
  intros W He Hq H. cbn [attached put_entry set_entries put_store set_stores set_notifiers notifiers].
  destruct (decide (p = q)) as [->|Hne]; [|by rewrite lookup_insert_ne]. rewrite lookup_insert_eq. destruct Hq as [Hq|Hq]; [congruence|].
  destruct (w_store _ W _ _ _ He Hq) as [_ H2]. congruence.
Qed.

Lemma attached_world k i q e s w : world_ok w -> streams_ w !! k = Some i -> entries w !! i = Some e ->
  stores w !! q = Some s -> (notifiers w !! q = None \/ store e = Some q) -> world_ok (attached i q e s w).
Proof.
  intros W Hk He Hs Hq. pose proof (fun p j => attached_notifiers i q e s w p j W He Hq) as Hn.
  pose proof (fun j => attached_entry_some i q e s w j He) as Hen. assert (Hqi : notifiers (attached i q e s w) !! q = Some i) by apply lookup_insert_eq.
  destruct W as [W1 W2 W3 W4 W5 W6 W7 W8]. split; try done.
  - intros j H%Hen. by apply W2.
  - intros k1 j H. by apply Hen, (W3 k1).
  - intros j e1 p [[-> ->]|[_ H1]]%attached_entries Hp.
    + injection Hp as <-. split; [apply attached_store_some; by eexists|done].
    + destruct (W5 _ _ _ H1 Hp). split; [by apply attached_store_some|by apply Hn].
  - intros k1 j e1 p s1 Hk1 H Hp [[-> ->]|[Hne H3]]%attached_stores; [done|].
    apply attached_entries in H as [[-> ->]|[_ H1]]; [by injection Hp as <-|by eapply (W6 k1 j e1 p s1)].
  - intros p j H. destruct (decide (p = q)) as [->|Hne].
    + assert (j = i) as -> by congruence. split; [apply attached_store_some; by eexists|apply Hen; by eexists].
    + cbn [attached put_entry set_entries put_store set_stores set_notifiers notifiers] in H. rewrite lookup_insert_ne in H by done.
      destruct (W7 p j H). split; [by apply attached_store_some|by apply Hen].
  - intros p s1 [[-> ->]|[_ H1]]%attached_stores; [by apply (W8 q s)|by eapply W8].
Qed.

Lemma attached_well k i q e s y : well y -> streams_ (world y) !! k = Some i -> entries (world y) !! i = Some e ->
  stores (world y) !! q = Some s -> (notifiers (world y) !! q = None \/ store e = Some q) ->
  well (with_world (attached i q e s (world y)) y).
Proof.
  intros [W [R1 R2 R3 R4 R5 R6 R7 R8]] Hk He Hs Hq. split; [by eapply attached_world|].
  pose proof (fun p j => attached_notifiers i q e s (world y) p j W He Hq) as Hn.
  assert (Hqi : notifiers (attached i q e s (world y)) !! q = Some i) by apply lookup_insert_eq.
  split; cbn [world with_world passes answering parking origin]; try done.
  - intros x Hx. destruct (R1 x Hx) as (Ha & Hb & Hc). split_and!; [by apply Hn|done|done].
  - intros d p H. destruct (R3 d p H) as [Ha [j Hb]]. split; [done|]. exists j. by apply Hn.
  - intros j e1 x [[-> ->]|[_ H1]]%attached_entries Hx; [by eapply (R4 i e)|by eapply R4].
  - intros p x H. destruct (R5 p x H). split; [by apply attached_store_some|done].
  - intros j p H. by apply Hn, R6.
  - intros d p H. destruct (R7 d p H) as [H1|[H1|H1]]; [by left|by right; left|]. right. right.
    eapply waits_in_put; [exact He| |exact H1]. done.
  - intros j e1 p s1 x [[-> ->]|[Hne H1]]%attached_entries Hp H2 Ho Hx Horg Hr Hreach.
    + injection Hp as <-. apply attached_stores in H2 as [[_ ->]|[Hne _]]; [|done].
      destruct Hq as [Hq|Hq]; [destruct (R3 _ _ Horg) as [_ [? ?]]; congruence|].
      eapply (R8 i e q s x); eauto. by eapply (w_on _ W).
    + apply attached_stores in H2 as [[-> ->]|[_ H3]]; [|by eapply (R8 j e1 p s1 x)].
      destruct (w_store _ W _ _ _ H1 Hp) as [_ H4]. apply Hn in H4. congruence.
Qed.

Lemma no_store_well k i e y : well y -> streams_ (world y) !! k = Some i -> entries (world y) !! i = Some e ->
  well (with_world (put_entry i (set_store None e) (world y)) y).
Proof.
  intros [[W1 W2 W3 W4 W5 W6 W7 W8] [R1 R2 R3 R4 R5 R6 R7 R8]] Hk He.
  pose proof (fun j => put_entry_some i (set_store None e) e (world y) j He) as Hen. split.
  - split; cbn [world with_world]; try done.
    + intros j H%Hen. by apply W2.
    + intros k1 j H. by eapply Hen, (W3 k1).
    + intros j e1 p H Hp. apply put_entry_lookup in H as [[-> ->]|[_ H1]]; [done|by eapply W5].
    + intros k1 j e1 p s1 Hk1 H Hp H2. apply put_entry_lookup in H as [[-> ->]|[_ H1]]; [done|by eapply W6].
    + intros p j H. destruct (W7 p j H). split; [done|by apply Hen].
  - split; cbn [world with_world passes answering parking origin]; try done.
    + intros j e1 x H Hx. apply put_entry_lookup in H as [[-> ->]|[_ H1]]; [by eapply (R4 i e)|by eapply R4].
    + intros d p H. destruct (R7 d p H) as [H1|[H1|H1]]; [by left|by right; left|]. right. right. by eapply waits_in_put.
    + intros j e1 p s1 x H Hp. apply put_entry_lookup in H as [[-> ->]|[Hne H1]]; [done|by eapply R8].
Qed.

Lemma register_well options application stream p y : enable_low_latency options = true -> well y ->
  may_register application stream p (world y) -> well (with_world (register_stream options application stream p (world y)) y).
Proof.
  intros Hll Hwell Hp. pose proof (find_or_create_well application stream y Hwell) as Hwell1.
  pose proof (find_or_create_spec application stream (world y) (w_streams _ (proj1 Hwell))) as Hspec. unfold register_stream.
  destruct (find_or_create_entry application stream (world y)) as [w i]. destruct Hspec as (Hk & Hst & Hn & e & He & Hf). cbn [fst] in Hwell1.
  rewrite Hll. destruct p as [q|].
  - destruct (Hp q eq_refl) as [[s Hs] Hor]. unfold on_entry, on_store.
    cbn [set_stores set_notifiers set_entries stores entries]. rewrite (alter_is _ q _ s) by (by rewrite Hst). rewrite (alter_is _ i _ e) by done.
    apply (attached_well (stream_key application stream) i q e s (with_world w y)); cbn [world with_world]; [done..|by rewrite Hst|].
    rewrite Hn. destruct Hor as [Hor|Hor]; [by left|right]. rewrite <- Hf; [done|by rewrite Hor].
  - unfold on_entry. rewrite (alter_is _ i _ e) by done. by apply (no_store_well (stream_key application stream) i e (with_world w y)).
Qed.

(** * A stream goes *)

Lemma forgotten_well k y : well y -> well (with_world (set_streams (delete k (streams_ (world y))) (world y)) y).
Proof.
  intros [[W1 W2 W3 W4 W5 W6 W7 W8] [R1 R2 R3 R4 R5 R6 R7 R8]].
  split; split; cbn [world with_world set_streams streams_] in *; try done.
  - intros k1 i [_ H]%lookup_delete_Some. by eapply W3.
  - intros k1 k2 i [_ H1]%lookup_delete_Some [_ H2]%lookup_delete_Some. by eapply W4.
  - intros k1 i e p s [_ H1]%lookup_delete_Some. by eapply W6.
Qed.

(** The notifier of a store that no stream has any more is taken away. *)
Lemma silenced_well p s y : well y -> stores (world y) !! p = Some s ->
  (forall k i, streams_ (world y) !! k = Some i -> notifiers (world y) !! p <> Some i) ->
  well (with_world (put_store p (set_update_notifier s false) (world y)) y).
Proof.
  intros [[W1 W2 W3 W4 W5 W6 W7 W8] [R1 R2 R3 R4 R5 R6 R7 R8]] Hp Hk.
  set (w := put_store p (set_update_notifier s false) (world y)).
  assert (Hst : forall q, is_Some (stores (world y) !! q) -> is_Some (stores w !! q)).
  { intros q H. subst w. cbn [put_store set_stores stores]. rewrite lookup_insert_is_Some'. by right. }
  assert (Hsv : forall q s1, stores w !! q = Some s1 -> (q = p /\ s1 = set_update_notifier s false) \/ (q <> p /\ stores (world y) !! q = Some s1)).
  { intros q s1 H. subst w. cbn [put_store set_stores stores] in H. apply lookup_insert_Some in H as [[<- <-]|[Hne H]]; [by left|right; by split]. }
  split; split; cbn [world with_world passes answering parking origin]; try done.
  - intros i e q H Hq. destruct (W5 i e q H Hq). split; [by apply Hst|done].
  - intros k i e q s1 H1 H2 H3 H4. destruct (Hsv _ _ H4) as [[-> ->]|[_ H5]]; [|by eapply W6].
    destruct (W5 _ _ _ H2 H3) as [_ H6]. by apply (Hk k i) in H1.
  - intros q i H. destruct (W7 q i H). split; [by apply Hst|done].
  - intros q s1 H. destruct (Hsv _ _ H) as [[-> ->]|[_ H5]]; [by apply (W8 p s)|by eapply W8].
  - intros q x H. destruct (R5 q x H). auto.
  - intros i e q s1 x H Hq H1 Ho. destruct (Hsv _ _ H1) as [[-> ->]|[_ H5]]; [done|by eapply R8].
Qed.

Lemma resolve_cell_put d r i e w : resolve_cell d r (put_entry i e w) = put_entry i e (resolve_cell d r w).
Proof.
  unfold resolve_cell. cbn [put_entry set_entries cells]. destruct (cells w !! d) as [c|]; [|done]. by destruct (resolve r c) as [c' [call|]].
Qed.
Lemma answer_all_put r ws i e : forall w, answer_all r ws (put_entry i e w) = put_entry i e (answer_all r ws w).
Proof. induction ws as [|x ws IH]; intros w; [done|]. unfold answer_all in *. cbn [foldl]. by rewrite resolve_cell_put, IH. Qed.
Lemma answer_all_grows r ws : forall w, grows w (answer_all r ws w)
  /\ forall x, x ∈ ws -> is_Some (cells w !! waiter_deferred x) -> settled (answer_all r ws w) (waiter_deferred x).
Proof.
  induction ws as [|z ws IH]; intros w; [split; [done|intros x H; by apply elem_of_nil in H]|]. unfold answer_all. cbn [foldl].
  destruct (resolve_cell_grows (waiter_deferred z) r w) as [G S]. destruct (IH (resolve_cell (waiter_deferred z) r w)) as [G2 S2].
  split; [by etrans|]. intros x [->|Hx]%elem_of_cons Hc; [eapply grows_settled; [exact G2|by apply S]|].
  apply S2; [done|]. by apply (grows_some _ _ _ G).
Qed.

Lemma unregister_well application stream y : well y -> well (with_world (unregister_stream application stream (world y)) y).
Proof.
  intros Hwell. unfold unregister_stream. set (k := stream_key application stream).
  destruct (streams_ (world y) !! k) as [i|] eqn:Ek; [|by destruct y]. destruct (w_streams _ (proj1 Hwell) _ _ Ek) as [e He].
  cbn [set_streams entries]. rewrite He. set (w1 := set_streams _ _).
  assert (H1 : well (with_world w1 y)) by by apply forgotten_well.
  assert (H2 : well (with_world (detach_store (store e) w1) y) /\ entries (detach_store (store e) w1) = entries (world y)).
  { destruct (store e) as [p|] eqn:Ep; [|done]. destruct (w_store _ (proj1 Hwell) _ _ _ He Ep) as [[s Hs] Hn].
    unfold detach_store, on_store. rewrite (alter_is _ p _ s) by done. split; [|done].
    apply (silenced_well p s (with_world w1 y)); [done|done|]. intros k1 j Hk1 Hj. cbn [world with_world w1 set_streams streams_ notifiers] in Hk1, Hj.
    apply lookup_delete_Some in Hk1 as [Hne Hk1]. rewrite Hn in Hj. injection Hj as <-. apply Hne. by eapply (w_names _ (proj1 Hwell)). }
  destruct H2 as [H2 H3]. set (w2 := detach_store (store e) w1) in *. unfold swap_waiters. rewrite H3, He. rewrite answer_all_put.
  set (r := no_store _). destruct (answer_all_grows r (waiters e) w2) as [G S].
  assert (H4 : well (with_world (answer_all r (waiters e) w2) y)) by (eapply (grows_well _ (with_world w2 y)); done).
  pose proof (waiters_well i e [] [] (with_world (answer_all r (waiters e) w2) y) H4) as H5.
  cbn [world with_world passes answering parking origin] in H5. rewrite app_nil_r in H5. apply H5.
  - by rewrite (g_entries _ _ G), H3.
  - intros x Hx. by apply elem_of_nil in Hx.
  - intros x Hx. right. left. apply S; [done|]. destruct (proj2 H2) as [_ _ R3 R4 _ _ _ _]. cbn [world with_world origin] in *.
    destruct (R4 i e x) as [p Hp]; [by rewrite H3|done|]. by eapply R3.
  - intros p x Hx. by apply elem_of_nil in Hx.
Qed.

(** * Every step *)

Definition alive_waiters (w : World) (ws : list PlaylistWaiter) : list PlaylistWaiter := filter (fun x => negb (is_resolved w x)) ws.

Lemma partition_spec i p w w' ready : partition_waiters i p w = Ok (w', ready) ->
  exists e, entries w !! i = Some e /\
    ((waiters e = [] /\ w' = w /\ ready = [])
     \/ exists s, stores w !! p = Some s
        /\ w' = put_entry i (set_waiters (filter (fun x => negb (reached_by s x)) (alive_waiters w (waiters e))) e) w
        /\ ready = filter (fun x => reached_by s x) (alive_waiters w (waiters e))).
Proof.
  unfold partition_waiters, entry_at, store_at. intros H. destruct (entries w !! i) as [e|] eqn:Ee; [|done]. cbn [rbind] in H. exists e. split; [done|].
  destruct (waiters e) as [|x ws] eqn:Ew; [left; by injection H as <- <-|right].
  destruct (stores w !! p) as [s|] eqn:Es; [|done]. cbn [rbind] in H. exists s. injection H as <- <-. by rewrite <- Ew.
Qed.

(** One pass over an entry, with the store of the pass. *)
Lemma partitioned_well l1 x l2 w' ready y : well y -> passes y = l1 ++ x :: l2 ->
  partition_waiters (entry_of x) (store_of x) (world y) = Ok (w', ready) ->
  well (mkSystem w' (l1 ++ l2) (answering y ++ map (pair (store_of x)) ready) (parking y) (origin y)).
Proof.
  intros Hwell Hp H. apply partition_spec in H as (e & He & [(Hw & -> & ->)|(s & Hs & -> & ->)]).
  - cbn [map]. rewrite app_nil_r. eapply pass_well; [done|done|]. intros e1 s z He1 _ _ Hz. rewrite He in He1. injection He1 as <-.
    rewrite Hw in Hz. by apply elem_of_nil in Hz.
  - set (rest := filter (fun x => negb (reached_by s x)) (alive_waiters (world y) (waiters e))).
    set (ready := filter (fun x => reached_by s x) (alive_waiters (world y) (waiters e))).
    assert (Halive : forall z, z ∈ alive_waiters (world y) (waiters e) <-> is_resolved (world y) z = false /\ z ∈ waiters e).
    { intros z. unfold alive_waiters. rewrite list_elem_of_filter. destruct (is_resolved (world y) z); cbn; naive_solver. }
    assert (Hrest : forall z, z ∈ rest <-> reached_by s z = false /\ z ∈ alive_waiters (world y) (waiters e)).
    { intros z. unfold rest. rewrite list_elem_of_filter. destruct (reached_by s z); cbn; naive_solver. }
    assert (Hready : forall z, z ∈ ready <-> reached_by s z = true /\ z ∈ alive_waiters (world y) (waiters e)).
    { intros z. unfold ready. rewrite list_elem_of_filter. destruct (reached_by s z); cbn; naive_solver. }
    assert (Hwell1 : well (mkSystem (put_entry (entry_of x) (set_waiters rest e) (world y)) (passes y)
                             (answering y ++ map (pair (store_of x)) ready) (parking y) (origin y))).
    { apply waiters_well; [done|done|intros z Hz; apply Hrest in Hz as [_ Hz]; by apply Halive in Hz as [_ Hz]| |].
      - intros z Hz. destruct (is_resolved (world y) z) eqn:Er.
        + right. left. destruct (proj2 Hwell) as [_ _ R3 R4 _ _ _ _]. destruct (R4 _ _ _ He Hz) as [q Hq]. destruct (R3 _ _ Hq) as [[c Hc] _].
          exists c. split; [done|]. unfold is_resolved in Er. rewrite Hc in Er. unfold is_settled. by rewrite Er.
        + destruct (reached_by s z) eqn:Ez; [right; right|left; by apply Hrest; rewrite Halive].
          exists (store_of x). apply list_elem_of_fmap. exists z. split; [done|]. by apply Hready; rewrite Halive.
      - intros p z Hz. apply list_elem_of_fmap in Hz as (z1 & [= -> ->] & Hz). split; [by eexists|].
        apply Hready in Hz as [_ Hz]. by apply Halive in Hz as [_ Hz]. }
    apply (pass_well l1 x l2 _ Hwell1 Hp). cbn [world]. intros e1 s1 z He1 _ Hs1 Hz _.
    apply put_entry_lookup in He1 as [[_ ->]|[Hne _]]; [|done]. cbn [put_entry set_entries stores] in Hs1. rewrite Hs in Hs1. injection Hs1 as <-.
    cbn [set_waiters waiters] in Hz. by apply Hrest in Hz as [? _].
Qed.
Lemma made_well l1 x l2 w' ready y : well y -> passes y = l1 ++ x :: l2 -> run_pass x (world y) = Ok (w', ready) ->
  well (mkSystem w' (l1 ++ l2) (answering y ++ map (pair (store_of x)) ready) (parking y) (origin y)).
Proof.
  intros Hwell Hp H. destruct x as [i p|i p]; cbn [run_pass] in H; [by eapply partitioned_well|].
  assert (Hskip : (forall e, entries (world y) !! i = Some e -> store e <> Some p) -> Ok (world y, []) = Ok (w', ready) ->
    well (mkSystem w' (l1 ++ l2) (answering y ++ map (pair p) ready) (parking y) (origin y))).
  { intros Hne [= <- <-]. cbn [map]. rewrite app_nil_r. eapply pass_well; [done|done|]. intros e s z He Hst. by apply Hne in He. }
  destruct (entries (world y) !! i) as [e|] eqn:Ee; [|apply Hskip; [by intros ? ?|done]].
  destruct (decide (store e = Some p)) as [Hd|Hd]; [by eapply (partitioned_well l1 (Notified i p) l2)|].
  apply Hskip; [|done]. intros e1 [= <-]. done.
Qed.

Section Contract.
Context (options : HlsHttpOptions) (hmac_sha256_hex : text -> text -> text) (hash : text -> Z).
Context (enabled_checker_ : option (text -> text -> bool)) (next_ : option (HttpRequest -> HttpResponse)).
Context (evp : list byte -> list byte -> list byte -> EvpPass).
Context (Hlow : enable_low_latency options = true).
Notation work := (work options).
Notation step := (step options hmac_sha256_hex hash enabled_checker_ next_ evp).

Lemma work_well y y' : well y -> work y y' -> well y'.
Proof.
  intros Hwell [l1 x l2 w' ready Hp H|l1 p x l2 o w' r Ha H]; [by eapply made_well|].
  assert (Q : quiet (world y) w') by (eapply render_quiet; [apply Hwell|exact H]). pose proof (quiet_well _ _ Q Hwell) as H1.
  destruct (resolve_cell_grows (waiter_deferred x) r w') as [G S].
  pose proof (grows_well (resolve_cell (waiter_deferred x) r w') (with_world w' y) G H1) as H2.
  apply (answered_well l1 p x l2 (with_world (resolve_cell (waiter_deferred x) r w') (with_world w' y)) H2 Ha).
  cbn [world with_world]. apply S. destruct (proj2 H1) as [_ _ R3 _ R5 _ _ _].
  destruct (R5 p x) as [_ [q Hq]]; [cbn [with_world answering]; rewrite Ha, elem_of_app, elem_of_cons; tauto|].
  by destruct (R3 _ _ Hq).
Qed.

Lemma link_stats_quiet application stream o w : quiet w (link_stats application stream o w).2.
Proof.
  unfold link_stats, find_entry. destruct (streams_ w !! _) as [i|]; [|done]. destruct (entries w !! i) as [e|] eqn:Ee; [|done].
  destruct (active_count (steady o) (sessions e)) as [n t]. by apply (quiet_entry i e).
Qed.
Lemma collect_quiet o ids : forall acc, quiet acc.2 (foldl (collect_entry o) acc ids).2.
Proof.
  induction ids as [|i ids IH]; intros [[bytes viewers] w]; [done|]. cbn [foldl]. etrans; [|apply IH]. unfold collect_entry. cbn [snd].
  destruct (entries w !! i) as [e|] eqn:Ee; [|done]. destruct (collect_active viewers (steady o) (sessions e)) as [v t]. by apply (quiet_entry i e).
Qed.
Lemma aggregate_quiet application stream o w : quiet w (aggregate_link_stats application stream o w).2.
Proof.
  unfold aggregate_link_stats. destruct (find_entry w application stream) as [[i e]|]; [|done].
  destruct (rendition_streams e) as [|name names]; [apply link_stats_quiet|]. set (ids := omap _ _).
  pose proof (collect_quiet o ids (0, ∅, w)) as H. by destruct (foldl _ _ _) as [[bytes viewers] w1].
Qed.
Lemma on_created_well application stream f y : (forall e, same_seat e (f e)) -> well y ->
  well (with_world (let '(w, i) := find_or_create_entry application stream (world y) in on_entry i f w) y).
Proof.
  intros Hf Hwell. pose proof (find_or_create_well application stream y Hwell) as H.
  destruct (find_or_create_entry application stream (world y)) as [w i]. cbn [fst] in H.
  apply (quiet_well (on_entry i f w) (with_world w y)); [by apply quiet_on_entry|done].
Qed.

Lemma handled_well request o w' out y : well y ->
  handle_request options hmac_sha256_hex hash enabled_checker_ next_ request o (world y) = Ok (w', out) ->
  well (mkSystem w' (passes y) (answering y) (parking y ++ match out with Parks x => [x] | Reply _ => [] end) (origin y)).
Proof.
  intros Hwell H. destruct (handle_quiet _ _ _ _ _ _ _ _ _ _ (w_repeat _ (proj1 Hwell)) (w_numbered _ (proj1 Hwell)) H) as [Q Hx].
  pose proof (quiet_well _ _ Q Hwell) as H1. destruct out as [r|x]; [rewrite app_nil_r; exact H1|].
  destruct Hx as (k & i & e & p & Hk & He & Hp & [P1 P2 P3 P4 P5]).
  apply (park_more_well x (with_world w' y) H1); cbn [world with_world passes answering parking origin].
  - rewrite (q_notifiers _ _ Q), P1, P2. by eapply (w_store _ (proj1 Hwell)).
  - done.
  - destruct (origin y !! waiter_deferred (who x)) as [q|] eqn:E; [|done]. destruct (proj2 Hwell) as [_ _ R3 _ _ _ _ _].
    destruct (R3 _ _ E) as [[c Hc] _]. congruence.
  - intros z Hz E. destruct (proj2 Hwell) as [R1 _ _ _ _ _ _ _]. destruct (R1 z Hz) as (_ & [c Hc] & _). rewrite E in Hc. congruence.
Qed.
Lemma park_well l1 x l2 o w' r parked y : well y -> parking y = l1 ++ x :: l2 ->
  park options hash x o (world y) = Ok (w', r, parked) ->
  well (mkSystem w' (passes y ++ if parked then [Own (at_entry x) (at_store x)] else []) (answering y) (l1 ++ l2)
          (if parked then <[waiter_deferred (who x) := at_store x]> (origin y) else origin y)).
Proof.
  intros Hwell Hp H. unfold park, entry_at in H. destruct (entries (world y) !! at_entry x) as [e|] eqn:Ee; [|done]. cbn [rbind] in H.
  destruct (_ <? _); [injection H as <- _ <-; by apply parked_well|].
  apply bind_Ok_inv in H as ([w1 out] & H1 & H). apply serve_playlist_quiet in H1 as [Q [r1 ->]]; [|apply Hwell].
  injection H as <- _ <-. rewrite app_nil_r. by apply (unpark_well l1 x l2 (with_world w1 y)); [apply quiet_well|].
Qed.

Lemma step_well y y' : well y -> step y y' -> well y'.
Proof.
  intros Hwell [y1 H|p config Hp Hc|application stream p Hp|application stream|application stream rs|application stream k
    |application stream o|application stream o|p s s' notified keys Hs Hp|request o w' out H|l1 x l2 o w' r parked Hp H|d c cell Hc|d cell Hc].
  - by eapply work_well.
  - by apply create_well.
  - by apply register_well.
  - by apply unregister_well.
  - by apply (on_created_well application stream).
  - by apply (on_created_well application stream).
  - by apply quiet_well; [apply link_stats_quiet|].
  - by apply quiet_well; [apply aggregate_quiet|].
  - apply produced_spec in Hp as [Hf Hr].
    apply (quiet_well (set_encryptors keys (put_store p s' (world y)))
      (mkSystem (put_store p s' (world y)) (passes y ++ notified_passes p notified (world y)) (answering y) (parking y) (origin y))).
    + cbn [world]. destruct (quiet_refl (put_store p s' (world y))); by split.
    + by eapply produce_well.
  - by eapply handled_well.
  - by eapply park_well.
  - apply grows_well; [|done]. by eapply (grows_cell d cell (attach c cell).1); [|apply attach_grows|..].
  - apply grows_well; [|done]. by eapply (grows_cell d cell (cancel cell).1); [|apply cancel_grows|..].
Qed.
Lemma reachable_well y : rtc step start y -> well y.
Proof.
  intros H. remember start as y0 eqn:E. assert (H0 : well y0) by (subst; apply start_well). clear E.
  induction H as [|a b c H1 _ IH]; [done|]. by apply IH, (step_well a).
Qed.

(** * The contract *)

(** The request of the response waits at a registered stream, on the store it was parked for,
    which has its notifier set and is short of the position. *)
Definition still_ahead (y : System) (d p : Z) : Prop :=
  exists k i e x s, streams_ (world y) !! k = Some i /\ entries (world y) !! i = Some e /\
    x ∈ waiters e /\ waiter_deferred x = d /\
    store e = Some p /\ stores (world y) !! p = Some s /\ notifier_ s = true /\ reached_by s x = false.
(** It waits at an entry that is no stream's any more, or whose stream has another store now. *)
Definition left_behind (y : System) (d p : Z) : Prop :=
  exists i e x, entries (world y) !! i = Some e /\ x ∈ waiters e /\ waiter_deferred x = d /\
    ((forall k, streams_ (world y) !! k <> Some i) \/ store e <> Some p).

Lemma work_origin y y' : work y y' -> origin y' = origin y.
Proof. by intros [|]. Qed.

(** What is due can be done. *)
Lemma pass_possible x l y : well y -> passes y = x :: l -> exists y', work y y'.
Proof.
  intros [W R] Hp. assert (Hn : notifiers (world y) !! store_of x = Some (entry_of x)).
  { destruct x as [i p|i p]; apply (y_passes _ R); [left|right]; rewrite Hp; apply list_elem_of_here. }
  destruct (w_notified _ W _ _ Hn) as [[s Hs] [e He]].
  assert (H : exists w' ready, partition_waiters (entry_of x) (store_of x) (world y) = Ok (w', ready)).
  { unfold partition_waiters, entry_at, store_at. rewrite He. cbn [rbind]. destruct (waiters e); [by do 2 eexists|]. rewrite Hs. by do 2 eexists. }
  destruct H as (w' & ready & H).
  assert (H2 : exists w' ready, run_pass x (world y) = Ok (w', ready)).
  { destruct x as [i p|i p]; cbn [run_pass entry_of store_of] in *; [by do 2 eexists|]. rewrite He. destruct (decide _); by do 2 eexists. }
  destruct H2 as (w2 & ready2 & H2). eexists. by apply (S_pass options y [] x l w2 ready2).
Qed.
Lemma answer_possible p x l y : well y -> answering y = (p, x) :: l -> exists y', work y y'.
Proof.
  intros [W R] Ha. destruct (y_answering _ R p x) as [Hs _]; [rewrite Ha; apply list_elem_of_here|].
  destruct (render_Ok options p (child_query x) (mkOutside 0 (fun _ => 0) 0 []) (world y) (w_repeat _ W) Hs) as (w' & r & H).
  eexists. by eapply (S_answer options y [] p x l).
Qed.

(** And there is an end of it: a pass makes answers, an answer makes nothing. *)
Lemma work_ends y : sn work y.
Proof.
  remember (length (passes y)) as n eqn:En. revert y En. induction (lt_wf n) as [n _ IHn]. intros y En.
  remember (length (answering y)) as m eqn:Em. revert y En Em. induction (lt_wf m) as [m _ IHm]. intros y En Em.
  constructor. intros y' H. unfold flip in H. destruct H as [l1 x l2 w' ready Hp H|l1 p x l2 o w' r Ha H].
  - eapply IHn; [|reflexivity]. cbn [passes]. rewrite En, Hp, !length_app. cbn [length]. lia.
  - eapply IHm; [|cbn [passes]; exact En|reflexivity]. cbn [answering]. rewrite Em, Ha, !length_app. cbn [length]. lia.
Qed.

End Contract.

(** * A player that is ahead of the encoder *)

Definition live_options : HlsHttpOptions :=
  mkHlsHttpOptions (str "/hls") false [] [] (str "x-edge-token") false false true true (str "no-cache") (str "public")
    (str "public") true (str "*") (str "viewer") 60 false false true 9000 1 true (str "private").
Definition no_hmac (_ _ : text) : text := [].
Definition no_hash (_ : text) : Z := 0.
Definition no_pass (_ _ _ : list byte) : EvpPass := InitFailed.
Definition live_outside : Outside := mkOutside 0 (fun _ => 0) 0 [].
Definition ask_for (q : string) : HttpRequest :=
  mkHttpRequest (str "GET") (str "/hls/live/cam/index.m3u8") (str q) (str "HTTP/1.1") ∅ [] [].

(** One stream, and a request for its first segment that is parked. *)
Definition created : System := with_world (put_store 0 (make_store default_store_config) (world start)) start.
Definition published : System :=
  with_world (register_stream live_options (str "live") (str "cam") (Some 0) (world created)) created.
Definition asked : Res (World * Outcome) :=
  handle_request live_options no_hmac no_hash None None (ask_for "_HLS_msn=0") live_outside (world published).
Definition the_parking : Parking :=
  match asked with Ok (_, Parks x) => x | _ => mkParking 0 0 (mkPlaylistWaiter 0 0 [] 0) no_request end.
Definition world_asked : World := match asked with Ok (w, _) => w | _ => empty_world end.
Definition asking : System := mkSystem world_asked [] [] [the_parking] ∅.
Definition world_parked : World :=
  match park live_options no_hash the_parking live_outside world_asked with Ok (w, _, _) => w | _ => empty_world end.
Definition parked : System :=
  mkSystem world_parked [Own 0 0] [] [] {[1 := 0]}.

Lemma parked_reachable : rtc (step live_options no_hmac no_hash None None no_pass) start parked.
Proof.
  apply (rtc_l _ _ created); [apply S_create; reflexivity|].
  apply (rtc_l _ _ published).
  { apply S_register. intros q [= <-]. split; [vm_compute; by eexists|left; reflexivity]. }
  apply (rtc_l _ _ asking).
  { apply (S_handle _ _ _ _ _ _ published (ask_for "_HLS_msn=0") live_outside world_asked (Parks the_parking)). vm_compute. reflexivity. }
  apply rtc_once.
  apply (S_park _ _ _ _ _ _ asking [] the_parking [] live_outside world_parked (pending 1) true); [reflexivity|]. vm_compute. reflexivity.
Qed.


(** * Where the handler does something else than its comments say *)

(** The stream is unregistered between the look at its entry and the parking, and the store
    goes on to its end. *)
Definition world_without : World := unregister_stream (str "live") (str "cam") world_asked.
Definition unregistered : System := mkSystem world_without [] [] [the_parking] ∅.
Definition world_late : World :=
  match park live_options no_hash the_parking live_outside world_without with Ok (w, _, _) => w | _ => empty_world end.
Definition parked_late : System := mkSystem world_late [Own 0 0] [] [] {[1 := 0]}.
Definition world_looked : World :=
  match run_pass (Own 0 0) world_late with Ok (w, _) => w | _ => empty_world end.
Definition looked : System := mkSystem world_looked [] [] [] {[1 := 0]}.
Definition the_store : SegmentStore := default (make_store default_store_config) (stores world_looked !! 0).
Definition ended_late : System :=
  mkSystem (set_encryptors (encryptors world_looked) (put_store 0 (mark_ended the_store).1 world_looked)) [] [] [] {[1 := 0]}.

Lemma ended_late_reachable : rtc (step live_options no_hmac no_hash None None no_pass) start ended_late.
Proof.
  apply (rtc_l _ _ created); [apply S_create; reflexivity|].
  apply (rtc_l _ _ published).
  { apply S_register. intros q [= <-]. split; [vm_compute; by eexists|left; reflexivity]. }
  apply (rtc_l _ _ asking).
  { apply (S_handle _ _ _ _ _ _ published (ask_for "_HLS_msn=0") live_outside world_asked (Parks the_parking)). vm_compute. reflexivity. }
  apply (rtc_l _ _ unregistered); [apply S_unregister|].
  apply (rtc_l _ _ parked_late).
  { apply (S_park _ _ _ _ _ _ unregistered [] the_parking [] live_outside world_late (pending 1) true); [reflexivity|]. vm_compute. reflexivity. }
  apply (rtc_l _ _ looked).
  { apply S_work, (S_pass _ parked_late [] (Own 0 0) [] world_looked []); [reflexivity|]. vm_compute. reflexivity. }
  apply rtc_once. apply (S_produce _ _ _ _ _ _ looked 0 the_store (mark_ended the_store).1 false (encryptors world_looked)).
  - vm_compute. reflexivity.
  - assert (Hn : (mark_ended the_store).2 = []) by (vm_compute; reflexivity).
    pose proof (Ends no_pass the_store) as H. by rewrite Hn in H.
Qed.

(** A request parked on an entry that has left the registry is answered by nobody: it waits
    out its timeout, its position reached and no pass due. *)
Lemma parked_after_unregister_waits :
  passes ended_late = [] /\ answering ended_late = [] /\ left_behind ended_late 1 0
  /\ option_map is_settled (cells (world ended_late) !! 1) = Some false
  /\ option_map (fun e => map (fun x => option_map (fun s => reached_by s x) (stores (world ended_late) !! 0)) (waiters e))
       (entries (world ended_late) !! 0) = Some [Some true].
Proof.
  split_and!; [vm_compute; reflexivity| vm_compute; reflexivity| |vm_compute; reflexivity|vm_compute; reflexivity].
  eexists 0, _, _. split; [vm_compute; reflexivity|]. split; [apply list_elem_of_here|]. split; [reflexivity|]. left.
  intros k. assert (H : streams_ (world ended_late) = ∅) by (vm_compute; reflexivity). by rewrite H, lookup_empty.
Qed.

(** The server gives up on the parked request, and then its own pass is made. *)
Definition given_up : World :=
  match cells world_parked !! 1 with
  | Some cell => set_cells (<[1 := (cancel cell).1]> (cells world_parked)) world_parked
  | None => world_parked
  end.
Definition swept : World :=
  match release_waiters live_options 0 0 live_outside given_up with Ok w => w | _ => empty_world end.

(** A request that has timed out keeps its place among the waiters: [release_waiters] drops
    what is resolved, and a cancelled response is not.  With room for one, the next request
    is not parked any more, although nobody is waiting. *)
Lemma timed_out_requests_keep_their_place :
  settled swept 1 /\ waits_in swept 1
  /\ match handle live_options no_hmac no_hash None None (ask_for "_HLS_msn=5") live_outside swept with
     | Ok (_, r) => status r = 200 /\ deferred r = None
     | _ => False
     end.
Proof.
  split; [by eexists; split; [vm_compute; reflexivity|reflexivity]|]. split.
  - eexists 0, _, _. split; [vm_compute; reflexivity|]. split; [apply list_elem_of_here|reflexivity].
  - vm_compute. split; reflexivity.
Qed.

(** A refusal of a HEAD request comes with its text: only what is served is cut. *)
Lemma head_is_refused_with_a_body :
  match handle live_options no_hmac no_hash None None
          (mkHttpRequest (str "HEAD") (str "/hls/live/none/index.m3u8") [] (str "HTTP/1.1") ∅ [] []) live_outside empty_world with
  | Ok (_, r) => status r = 404 /\ body r = str "stream not found"
  | _ => False
  end.
Proof. vm_compute. split; reflexivity. Qed.

(** A token for one stream is one for another: the colon between the parts of what is signed
    may be in the parts. *)
Lemma one_token_two_streams hmac secret expires_at :
  sign_token hmac secret (str "live:vip") (str "cam") expires_at = sign_token hmac secret (str "live") (str "vip:cam") expires_at.
Proof. reflexivity. Qed.

(** URIs inside of tags keep no query: those of keys, parts and preload hints. *)
Lemma tags_are_not_decorated q :
  append_query_to_playlist_uris (str "#EXT-X-KEY:METHOD=AES-128,URI=key-1.bin" ++ [newline]) q
  = str "#EXT-X-KEY:METHOD=AES-128,URI=key-1.bin" ++ [newline].
Proof. by destruct q. Qed.
